(* ===== verification/_CoqProject ===== *)
-Q . S2P
Prelude.v
Node.v
Core.v
Actors.v
Shutdown.v
ShutdownRun.v
Routers.v
Membership.v
SelfFence.v
Identity.v
Allocation.v
Coordinator.v
Lease.v
CoordinatorStore.v
Runtime.v
Remembered.v
Region.v
RegionOrder.v
LocalRoute.v
LocalRouteOrder.v
LocalRouteRuns.v
Persistence.v
DurableState.v
Journal.v
EventSourced.v
Workflow.v
Inbox.v
Budget.v
AgentIdentity.v
AgentSchema.v
Exchange.v
ExchangeSaga.v
ExchangeCourier.v
CompiledPlan.v
PlanSearch.v
PlanValidation.v
GraphState.v
GraphScheduler.v
GraphDeps.v
GraphRuns.v
GraphProps.v
Delegation.v
FanIn.v
FanInRuns.v
DelegationDoor.v
DelegationTree.v
DelegationProps.v
WakeCalendar.v
Wake.v
WakeController.v
WakeRuns.v
WakeProps.v
WakeTask.v
WakeTaskProps.v
WakeLiveness.v
WakeTimers.v
WakeScanner.v
WakeTimerRuns.v
WakeTimerProps.v
WakePark.v
WakeScanProps.v
WakeScanLiveness.v
Authority.v
Narrowing.v
Admission.v
AgentEntity.v
Readiness.v
AgentRuns.v
AgentHistory.v
AgentProps.v
AgentDemo.v
JsonDigest.v
Guardrails.v
RunEffects.v
ToolRegistry.v
ToolAuthority.v
DispatchGate.v
DispatchDoors.v
EffectIntents.v
DispatchProps.v
