(* ===== verification/Prelude.v ===== *)
(** * Rakka: a verification library

    Rakka is an actor runtime for clusters.  The parts modelled here are the ones that
    keep its promises about state and messages: how actors take their messages, how a
    system shuts down, who is a member of the cluster, which node owns which shard, who
    may decide that, how the messages of an entity find it while its shard moves and its
    actor comes and goes, what survives a crash, in which order the nodes of an agent's
    plan run, and how agents hand work to each other exactly once and within their
    budgets.  This file is the root of the library and its
    shared prelude; the other files hold one component each, and this header describes
    all of them.

    ** The program and the files

    Actor layer ([crates/rakka-core/src]).
    - [Core.v]: [error.rs], [path.rs] - errors, actor paths and their segments.
    - [Actors.v]: [actor.rs], [system.rs], [supervision.rs], [dead_letter.rs] - the actor
      cell with its mailbox and its task, and the actor system that spawns, tells and
      stops.  The task of an actor is a state machine ([ActorCell.step]); the system
      carries a schedule that says which actors run between two operations and how their
      handlers end, and a history of what happened to each message.
    - [Shutdown.v], [ShutdownRun.v]: [coordinated_shutdown.rs] - the phase graph and its
      order; the run of a plan, and the callers that share one run.
    - [Routers.v]: [routers.rs] - pool and group routers and the consistent-hash ring.

    Cluster layer ([crates/rakka-cluster/src]).
    - [Node.v]: [node.rs] - node ids and their text form, protocol compatibility.
    - [Membership.v]: [membership.rs], with [DiscoverySnapshot] of [discovery.rs] and
      [error.rs] - the membership table of one node.  [ClusterMembership.t] is the
      struct; every handler is a function from the table to the new table and the
      handler's [Result], also when it fails.
    - [SelfFence.v]: [self_fence.rs] - the detector by which a node fences itself.

    Sharding layer ([crates/rakka-sharding/src]).
    - [Identity.v]: [identity.rs], [error.rs] - shard ids and the stable hash.
    - [Allocation.v]: [allocation.rs] - the strategy trait as a record of functions, the
      deterministic-modulo and the least-shard strategy.
    - [Coordinator.v]: [coordinator.rs] - the ownership table and [reconcile].
    - [Lease.v]: [coordinator_lease.rs] - leadership leases and fencing tokens.
    - [CoordinatorStore.v]: [coordinator_store.rs] - the store trait, its laws (the class
      [CoordinatorStoreLaws]) and the in-memory store, an instance of it.
    - [Runtime.v]: [runtime.rs], [handoff.rs] - [ClusterShardingRuntime], which drives
      membership, coordinators, store, lease and regions.  Store, lease and regions are
      arguments: records of operations over a state of their own.
    - [Remembered.v]: [remembered_entities.rs] - the remembered-entity store.
    - [Region.v]: [routing.rs] - the shard region: owner cache, buffer, delivery, flushing,
      ownership changes, over any entity route; it implements the region interface of
      [Runtime.v].  [RegionOrder.v] - its runs over a route that defers the messages of the
      shards it hands off ([HandoffRoute]), and the order of messages.
    - [LocalRoute.v]: [local.rs] - the entity route of a node: slots, incarnations, held
      messages, passivation, timers, over the actor system of [Actors.v].
      [LocalRouteOrder.v] - the invariant between slots and actors; [LocalRouteRuns.v] -
      the runs of the route, the route as a [HandoffRoute], and a region over it.

    Persistence layer ([crates/rakka-persistence/src]).
    - [Persistence.v]: [store.rs], [error.rs] - ids, revisions, sequence numbers, records,
      retention and retry policies, the retry loop.
    - [DurableState.v]: [store.rs], [memory.rs], [actor.rs], [effect.rs] - the
      revision-fenced store ([DurableStoreLaws]) and the durable actor.
    - [Journal.v]: [store.rs], [memory.rs] - event journals and snapshot stores
      ([EventJournalLaws], [SnapshotStoreLaws]).
    - [EventSourced.v]: [event_sourced.rs] - the event-sourced actor.

    Workflow layer ([crates/rakka-workflow/src]).
    - [Workflow.v]: [model.rs] - the durable snapshot of a workflow: inbox, outbox,
      deduplication indexes, retries and compaction.
    - [Inbox.v]: [inbox.rs], [error.rs], [clock.rs] - the durable inbox, a client of the
      revision-fenced store, and fleets of its replicas.

    Agent layer ([crates/rakka-agent/src]).
    - [Budget.v]: [budget.rs] - allocations, the escrow ledger of a scope, the budget of a
      run.
    - [AgentIdentity.v]: [identity.rs] - validated identifiers, addresses, operation ids.
    - [AgentSchema.v]: [schema.rs] - record kinds and the window of readable versions.
    - [Exchange.v]: [choreography.rs] - exchanges between durable entities: envelopes,
      replies, the journal, the host and the courier.  [ExchangeSaga.v] - fleets of
      replicas of a host as runs of events that record facts, refined to a ledger;
      [ExchangeCourier.v] - passes of the courier.
    - [Delegation.v]: [delegation.rs], with the ceilings of [goal.rs] - records, cells,
      provenance, envelopes and the catalog of delegation targets.  [DelegationDoor.v]:
      [run.rs], [task.rs] and [collaboration.rs] of [rakka-a2a] - how a run plans a
      delegation, what crosses the wire, and what the child task starts with.
      [DelegationTree.v], [DelegationProps.v] - trees of tasks that grow by delegation.
    - [FanIn.v]: [fan_in.rs], with the invocation cells of [workflow_tool.rs], the children
      of [loop_runtime.rs] and the transitions of [run.rs] that change them - the fan-out
      group of a run and its policy.  [FanInRuns.v] - sequences of such transitions.
    - [WakeCalendar.v], [Wake.v], [WakeController.v]: [wake.rs], with [triggers.rs] and the
      stagnation policy of [evaluation.rs] - budget windows over the calendar; wake
      identities, occurrences and policies; the durable controller of a continuous goal's
      wakes.  [WakeRuns.v], [WakeProps.v] - its operations in any order.  [WakeTask.v]:
      [task.rs] - the wake commands of a continuous task, with the escrow of its epochs.
      [WakeTaskProps.v], [WakeLiveness.v] - runs of these commands.
    - [WakeTimers.v]: [wake_timers.rs]; [WakeScanner.v]: [wake_scanner.rs] - the durable
      record of parked occurrences with its compare-and-set facade, and the pass that
      delivers what is due.  Their methods are programs ([DurableState.v]) in which every store
      call and every delivery is a constructor that takes its answer.  [WakeTimerRuns.v] -
      rely-guarantee triples for them; [WakeTimerProps.v] - systems of processes over one
      store; [WakePark.v]: [task.rs] - how a task parks the re-wakes it owes;
      [WakeScanProps.v], [WakeScanLiveness.v] - single passes and sequences of passes.

    - [Authority.v]: [definition.rs] - authority envelopes and the narrowing check,
      definitions, settings and setups.  [Narrowing.v] - the actions an envelope permits, and
      what the check reports of them.  [Admission.v]: [admission.rs] - admission decisions.
      [AgentEntity.v]: [agent.rs] - the durable state of an agent and its commands, as
      programs.  [Readiness.v]: [task.rs] - what a task reads of an agent before it is
      assigned.  [AgentRuns.v] - the atomic agent that facades implement; [AgentHistory.v] -
      its histories; [AgentProps.v] - processes with facades over one store, and the
      theorems; [AgentDemo.v] - concrete runs and the limits of the fences.
    - [JsonDigest.v]: [task.rs] - canonical JSON and content digests.  [Guardrails.v]:
      [guardrails.rs], with the failure reasons of [failure.rs] - guardrail stages and chains,
      and what an evaluation decides.  [RunEffects.v]: [effect.rs], with the checkpoint grants
      of [checkpoints.rs] - effect specs and policies, requests, intents and their keys.
      [ToolRegistry.v]: [tools.rs], [model_profile.rs] - tool descriptors, bindings and the
      registry.  [ToolAuthority.v]: [tools.rs] - the authority that grants or refuses one
      dispatch of any kind of effect.  [DispatchGate.v]: [dispatch.rs] - the authority over
      the durable record of an agent, and the gate of an attempt with its settlement.
      [DispatchDoors.v] - when a guard lets a dispatch pass, and the actions a granted
      dispatch exercises; [EffectIntents.v] - intents as they are committed;
      [DispatchProps.v] - the theorems, a deployment and the limits of the gate.

    Agent workflow layer ([crates/rakka-agent-workflow/src]).
    - [CompiledPlan.v], [PlanSearch.v], [PlanValidation.v]: [compiled_plan.rs] - compiled
      plans and node kinds, the searches for cycles and reachable nodes, the validator.
    - [GraphState.v], [GraphScheduler.v]: [graph_state.rs], [graph_scheduler.rs] - the
      state of a graph run and the operations of the scheduler.  [GraphDeps.v] - when
      dependencies hold; [GraphRuns.v] - runs of the scheduler; [GraphProps.v] - its
      theorems.

    ** What the theorems show

    - Actors: every actor takes the messages it is told in order and within its capacity.
      Shutdown: the phases always have an order that respects the graph; a run is a
      reference definition of its report; callers share one run and return.  Routers: the
      ring gives a key to the successor of its hash, and removing a routee moves only its
      keys.
    - Membership: a step relation over all handlers; by induction on runs, the table
      stays well formed, records move only along the lifecycle, down is absorbing, and
      the revision counts the reported events; the failure detector downs silent peers
      and leaves recent ones alone.  Self-fencing: the incremental detector refines a
      definition that looks at the whole history.
    - Sharding: a reconcile plan is an exact script for the table, every shard ends on a
      routable node, shards move only when the strategy says so, the modulo placement
      is reached (within a computable number of passes when moves are capped) and is
      balanced, and the least-shard pass is bounded and balancing.  Leases exclude each
      other and fencing tokens grow; two writers of one revision cannot both win; a
      successful pass of the runtime keeps coordinators and store in step, and a node
      that is not the leader changes nothing.
    - Entities: while shards move, a buffering region never reorders the messages of an
      entity (pauses for a passivation apart), and it loses none if its buffer is fail-fast,
      the clock readings stay within the time to live and the route refuses none that is
      flushed; while actors are passivated and reactivated, an entity has at
      most one live incarnation, its messages reach its incarnations in order, and while
      its handlers go on and its shard stays none is lost.
    - Persistence: on any lawful store a durable command commits exactly its change or
      nothing, and a stale actor is fenced off; for any lawful journal and snapshot
      store, recovery after any run of commands, failures and restarts reproduces
      exactly the committed events, unless the retention policy deletes events while it
      keeps no snapshot.
    - Workflow: compaction is exact, retries follow their schedule, and over every
      interleaving of replicas of an inbox each message is accepted exactly once; the
      outbox is dispatched write-ahead and once per pass.
    - Agents: what a scope consumed and put in escrow stays within its allocation, and a
      run settles within its escrow; addresses and operation ids determine what they name;
      over every interleaving of replicas, crashes and redeliveries an exchange is applied
      and settled once within the window of the log, both ends agree on its result, and a
      courier pass settles what is outstanding.
    - Delegation: however a tree of delegated tasks grows, with every run deciding from its
      own record only, the tasks below a root stay within its allocation, but for the
      children of delegations whose send is settled as failed, no agent occurs twice on a way down, and depth is bounded; a record crosses the wire exactly.
      Fan-in: the evaluation of a group is exact against every way its children may still
      end; in a run that is not winding down a wait lasts only while a member has not reported
      and, but for an All group in which one failed, its decision is open; a resolution is final.
    - Wakes: an identity is that of its occurrence; budget windows are those of the
      calendar; in every sequence of operations a scheduled occurrence starts at most one
      epoch, every delivery is accounted for, no window pays beyond its ceiling, the state
      stays within its bounds, a closed goal starts nothing, and backoffs grow within their
      maximum; every epoch of a task is attached and paid for, and a command that promotes
      leaves nothing parked without something that will retry it.  In every interleaving of
      processes over one timer record a parked occurrence stays until it is cancelled or
      answered, a pass never delivers around a failure, a re-wake is marked parked only when
      the record holds it, and passes whose deliveries are answered retire all that is due.
    - Authority: an envelope is accepted as a narrowing exactly when it permits no further
      action; the facades of an agent, in every interleaving and with any failures, commit a
      history of one atomic agent that explains every reply; its settings stay inside its
      definition, revisions and revocations only grow, and a lifecycle command lands exactly on the revision its caller expected;
      unattended work is assigned only under a verified admission that covers everything the
      definition in force permits.
    - Dispatch: whatever an attempt that passes the gate exercises is permitted by the
      definition in force and the goal, by the setup of the run in all that it is consulted on,
      and was never revoked; a tool call is granted exactly when every layer agrees; the attempts that are held to the
      pinned guardrail revision execute one payload; keys and operation ids of effects belong
      to one run, turn, slot and generation; an intent committed under the policies of an
      authority fits the binding of its tool; a guardrail chain decides what reading its
      applying stages in order decides; a refused attempt is deferred exactly when the
      record is suspended and the model's retry policy is kept, and else parked or failed as what
      may have happened before demands.
    - Graphs: the cycle and reachability searches are exact, and an accepted plan is well
      formed; in every run of the scheduler a node that runs has its dependencies
      satisfied and starts once, ended runs are final, skipping ends, and a run with
      nothing in flight has a ready node as long as one is pending.
    - Theorems of the kind "error" state behaviour that contradicts a comment or loses
      work: a refused write that is not retried, a rejected discovery that loses events,
      fencing tokens and revisions that restart, a retention policy that loses events,
      a backoff that wraps, a shutdown whose caller is dropped, a courier stuck behind a
      reply, a message that overtakes others after a pause, one that a flush drops,
      entity ids that share an actor name, a join of optional inputs that is never run or
      skipped, an iterator bound that strands running nodes, a parked wake that a late
      result or a renewal leaves behind, a scanner that does not see what others park,
      a batch of refused wakes that starves the others, a replayed admission that undoes a
      retraction, decisions from the wire that are recorded without their validation or
      make a record unreadable, a first attempt that is not held to the guardrail revision its
      intent pins, a setup whose limits inside a tool are not enforced, and a delegation whose
      send spent its retries and gave its debit back although the child exists.

    ** Conventions

    - A [&mut self] method is a function returning the new state and its [Result]; the
      type [op] below threads both, and [do!] is [?] on it.  State changed before an
      error is returned is kept, as in the source.  Where there is no [Result] to thread,
      [act] and [let!] thread the state alone, and [act_spec] is a Hoare triple on it.
    - Unsigned integers are [Z] with their range as a predicate where it matters: [+]
      wraps as in a release build, the saturating operations clamp.  Counts of elements
      ([usize]) are [nat].  A [Duration] is its number of milliseconds.
    - A [BTreeMap] is a [gmap] iterated in key order by [btree_entries]; a [HashMap] or a
      set that is never iterated is a [gmap] or [gset].  Mutexes guard single
      operations, so an operation on shared state is one step.
    - Traits are records of operations over an abstract state; what clients rely on is a
      class of laws, proved for the in-memory implementations.  Application code - actor
      handlers, dispatchers, regions - is an argument, as a function of what the runtime
      passes it.
    - Clock readings are inputs.  Futures run to completion between two store calls; where
      what others do in between matters within one method, the method is a [program].
    - Concurrency is explicit: runs are lists of events (calls of any replica, caller or
      background task), and actors run as a schedule says, which every theorem about them
      quantifies over.
    - Fuel: the loops of the source either run over a list or have a bound the source
      states - the retry loop has [max_retries] more attempts, the least-shard loop one
      iteration per move it may still make, the backoff of a wake one step per further
      failure - so no definition runs out of it.  The graph
      searches have fuel of their own, twice the edges plus two for a depth-first search
      ([search_fuel]) and one round per node for skipping, and it is proved enough.
    - JSON values are a type parameter with their encoded sizes ([SerdeJson]) where they are
      only carried, and the variants of [serde_json] where they are digested or evaluated
      ([Json]); what [serde] encodes is a record of functions ([RunCodec], [ToolCodec]), and
      the hex digest of SHA-256 is a function parameter: only its use is modelled.
    - The [expect]s of [Runtime.v] concern keys that were just read from the same map;
      the model returns the neutral answer there.

    ** Not modelled

    Metrics, logging, [Display] texts other than those that are compared or stored, asks,
    watches and timers of actors, discovery providers, transports, database backends, the
    Kubernetes, HTTP and gRPC adapters, streams, and the other modules of the agent
    crates.  Of runs and tasks only delegation, fan-in, the wake commands, the parking of re-wakes
    and the reading of an agent before an assignment are modelled, and of an effect its commit
    and the gate of its attempts: the later generations of an intent, its tickets in the
    outbox, the claims of a dispatcher, the invocation and the delivery of results, and the
    review of model responses are not.  The audit history of a task and the goal contract it may
    coordinate are left out of the wake commands.  Handoffs of a task, the cancellation of
    children and the choice of the effects that a wind-down fences are not modelled; the last is
    an input of the runs.  The delivery of the wake scanner is an interface; the ask of a sharded
    entity behind it is not modelled.  What would come next, in this order: the receptionist of
    [rakka-core]; the goal contract, the rest of the dispatcher and of the task and run entities
    of [rakka-agent]; streams. *)

From Stdlib Require Import ZArith Lia.
From stdpp Require Export sorting.
From stdpp Require Export base gmap sets strings option numbers list pretty.

#[global] Open Scope Z_scope.

(** ** Results

    [Result<T, E>] of the source. *)

Inductive result (E A : Type) : Type :=
| Ok (a : A)
| Err (e : E).
Arguments Ok {E A} a.
Arguments Err {E A} e.

Definition result_bind {E A B} (r : result E A) (f : A → result E B) : result E B :=
  match r with
  | Ok a => f a
  | Err e => Err e
  end.

Lemma result_bind_ok {E A B} (r : result E A) (k : A → result E B) b :
  result_bind r k = Ok b → ∃ a, r = Ok a ∧ k a = Ok b.
Proof. destruct r; simpl; [eauto|done]. Qed.

Definition map_err {E F A} (f : E → F) (r : result E A) : result F A :=
  match r with
  | Ok a => Ok a
  | Err e => Err (f e)
  end.

Lemma map_err_ok {E F A} (f : E → F) (r : result E A) x : map_err f r = Ok x ↔ r = Ok x.
Proof. destruct r; simpl; split; congruence. Qed.

(** [Option::ok_or_else]. *)
Definition ok_or {E A} (e : E) (o : option A) : result E A :=
  match o with
  | Some a => Ok a
  | None => Err e
  end.

Lemma ok_or_ok {E A} (e : E) (o : option A) a : ok_or e o = Ok a ↔ o = Some a.
Proof. destruct o; simpl; naive_solver. Qed.

Definition is_ok {E A} (r : result E A) : bool :=
  match r with Ok _ => true | Err _ => false end.

#[global] Instance result_eq_dec {E A} `{EqDecision E, EqDecision A} :
  EqDecision (result E A).
Proof. solve_decision. Defined.

Declare Scope rakka_scope.
Delimit Scope rakka_scope with rakka.

(** The [?] operator: [let? x := e in k] returns early with the error of [e]. *)
Notation "'let?' x ':=' e 'in' k" :=
  (result_bind e (fun x => k))
  (at level 10, x pattern, e at level 200, k at level 200) : rakka_scope.

#[global] Open Scope rakka_scope.

(** ** Stateful operations

    A [&mut self] method that may fail: the state it leaves - also when it fails -
    and its result. *)

Definition op (S E A : Type) : Type := S → S * result E A.

Definition op_ret {S E A} (a : A) : op S E A := fun s => (s, Ok a).
Definition op_err {S E A} (e : E) : op S E A := fun s => (s, Err e).
Definition op_lift {S E A} (r : result E A) : op S E A := fun s => (s, r).

Definition op_bind {S E A B} (m : op S E A) (k : A → op S E B) : op S E B := fun s =>
  match m s with
  | (s, Ok a) => k a s
  | (s, Err e) => (s, Err e)
  end.

(** [do! x := m in k] is [let x = m?; k] on the threaded state. *)
Notation "'do!' x ':=' m 'in' k" :=
  (op_bind m (fun x => k))
  (at level 10, x pattern, m at level 200, k at level 200) : rakka_scope.

Lemma op_bind_ok {S E A B} (m : op S E A) (k : A → op S E B) s s' b :
  op_bind m k s = (s', Ok b) ↔ ∃ s1 a, m s = (s1, Ok a) ∧ k a s1 = (s', Ok b).
Proof.
  unfold op_bind. destruct (m s) as [s1 [a|e]]; split; [eauto| |done|];
    by intros (? & ? & [= <- <-] & ?).
Qed.

(** A stateful computation that cannot fail, such as one that reads a clock. *)
Definition act (S A : Type) : Type := S → S * A.

Definition act_ret {S A} (a : A) : act S A := fun s => (s, a).

Definition act_bind {S A B} (m : act S A) (k : A → act S B) : act S B := fun s =>
  let '(s, a) := m s in k a s.

Notation "'let!' x ':=' m 'in' k" :=
  (act_bind m (fun x => k))
  (at level 10, x pattern, m at level 200, k at level 200) : rakka_scope.

Lemma act_ret_inv {S A} (a b : A) (s s' : S) : act_ret a s = (s', b) → s = s' ∧ a = b.
Proof. by intros [= <- <-]. Qed.

Lemma act_bind_inv {S A B} (m : act S A) (k : A → act S B) s s' b :
  act_bind m k s = (s', b) → ∃ s1 a, m s = (s1, a) ∧ k a s1 = (s', b).
Proof. unfold act_bind. destruct (m s) as [s1 a] eqn:Hm. eauto. Qed.

(** [m] run from [P] ends in [Q a] when it returns [a]. *)
Definition act_spec {S A} (P : S → Prop) (m : act S A) (Q : A → S → Prop) : Prop :=
  ∀ s s' a, P s → m s = (s', a) → Q a s'.

Lemma act_spec_bind {S A B} (P : S → Prop) (m : act S A) (Q : A → S → Prop) (k : A → act S B) Q' :
  act_spec P m Q → (∀ a, act_spec (Q a) (k a) Q') → act_spec P (act_bind m k) Q'.
Proof. intros Hm Hk s s' b HP (s1 & a & Hms & Hks)%act_bind_inv. eapply Hk, Hks. eauto. Qed.

Lemma act_spec_ret {S A} (P : S → Prop) (a : A) (Q : A → S → Prop) :
  (∀ s, P s → Q a s) → act_spec P (act_ret a) Q.
Proof. intros HQ s s' b HP [= <- <-]. auto. Qed.

Lemma act_spec_mono {S A} (P P' : S → Prop) (m : act S A) (Q Q' : A → S → Prop) :
  (∀ s, P' s → P s) → (∀ a s, Q a s → Q' a s) → act_spec P m Q → act_spec P' m Q'.
Proof. intros HP HQ Hm s s' a ? ?. eapply HQ, Hm; eauto. Qed.

(** A loop that threads the state and stops at the first error. *)
Fixpoint op_each {S E A B} (f : A → op S E B) (l : list A) : op S E (list B) :=
  match l with
  | [] => op_ret []
  | x :: l => do! y := f x in do! ys := op_each f l in op_ret (y :: ys)
  end.

(** [m] run from [P] ends in [Q a] when it returns [a], and in [R] when it fails. *)
Definition op_spec {S E A} (P : S → Prop) (m : op S E A) (Q : A → S → Prop) (R : S → Prop) : Prop :=
  ∀ s s' r, P s → m s = (s', r) → match r with Ok a => Q a s' | Err _ => R s' end.

Lemma op_spec_bind {S E A B} (P : S → Prop) (m : op S E A) (Q : A → S → Prop) R
    (k : A → op S E B) Q' :
  op_spec P m Q R → (∀ a, op_spec (Q a) (k a) Q' R) → op_spec P (op_bind m k) Q' R.
Proof.
  intros Hm Hk s s' r HP. unfold op_bind. destruct (m s) as [s1 [a|e]] eqn:Hms.
  - intros Hks. eapply Hk; [|exact Hks]. by apply (Hm _ _ _ HP) in Hms.
  - intros [= <- <-]. by apply (Hm _ _ _ HP) in Hms.
Qed.

Lemma op_spec_ret {S E A} (P : S → Prop) (a : A) (Q : A → S → Prop) R :
  (∀ s, P s → Q a s) → op_spec (E := E) P (op_ret a) Q R.
Proof. intros HQ s s' r HP [= <- <-]. auto. Qed.

Lemma op_spec_lift {S E A} (P : S → Prop) (x : result E A) :
  op_spec P (op_lift x) (fun _ => P) P.
Proof. intros s s' r HP [= <- <-]. by destruct x. Qed.

Lemma op_spec_each {S E A B} (P : S → Prop) (f : A → op S E B) l :
  (∀ a, a ∈ l → op_spec P (f a) (fun _ => P) P) → op_spec P (op_each f l) (fun _ => P) P.
Proof.
  induction l as [|a l IH]; intros Hf; simpl; [by apply op_spec_ret|].
  eapply op_spec_bind; [apply Hf; by left|]. intros b. simpl.
  eapply op_spec_bind; [apply IH; intros a' ?; apply Hf; by right|]. intros bs.
  by apply op_spec_ret.
Qed.

Lemma op_spec_mono {S E A} (P P' : S → Prop) (m : op S E A) (Q Q' : A → S → Prop) (R R' : S → Prop) :
  op_spec P' m Q' R' → (∀ s, P s → P' s) → (∀ a s, Q' a s → Q a s) → (∀ s, R' s → R s) →
  op_spec P m Q R.
Proof. intros Hm HP HQ HR s s' r Hs Hms. specialize (Hm _ _ _ (HP _ Hs) Hms). destruct r; auto. Qed.

(** ** Machine integers

    A [uN] value is a [Z] in range.  [+] wraps as in a release build (a debug
    build panics at the same point); the [saturating_*] operations clamp. *)

Definition u16_max : Z := 2 ^ 16 - 1.
Definition u32_max : Z := 2 ^ 32 - 1.
Definition u64_max : Z := 2 ^ 64 - 1.

Definition is_u16 (n : Z) : Prop := 0 <= n <= u16_max.
Definition is_u32 (n : Z) : Prop := 0 <= n <= u32_max.
Definition is_u64 (n : Z) : Prop := 0 <= n <= u64_max.

Definition wrap_u32 (n : Z) : Z := n `mod` (u32_max + 1).
Definition wrap_u64 (n : Z) : Z := n `mod` (u64_max + 1).

Definition add_u32 (a b : Z) : Z := wrap_u32 (a + b).
Definition add_u64 (a b : Z) : Z := wrap_u64 (a + b).

Definition saturating_add_u16 (a b : Z) : Z := Z.min (a + b) u16_max.
Definition saturating_add_u32 (a b : Z) : Z := Z.min (a + b) u32_max.
Definition saturating_add_u64 (a b : Z) : Z := Z.min (a + b) u64_max.
Definition saturating_mul_u64 (a b : Z) : Z := Z.min (a * b) u64_max.
Definition saturating_sub (a b : Z) : Z := Z.max (a - b) 0.

Lemma u64_max_val : u64_max = 18446744073709551615.
Proof. reflexivity. Qed.
Lemma u32_max_val : u32_max = 4294967295.
Proof. reflexivity. Qed.
Lemma u16_max_val : u16_max = 65535.
Proof. reflexivity. Qed.

(** [uint] unfolds the widths and calls [lia]. *)
Ltac uint :=
  unfold is_u16, is_u32, is_u64, saturating_add_u16, saturating_add_u32,
    saturating_add_u64, saturating_sub in *;
  rewrite ?u64_max_val, ?u32_max_val, ?u16_max_val in *; lia.

Lemma add_u64_small a b : 0 <= a + b <= u64_max → add_u64 a b = a + b.
Proof. intros. unfold add_u64, wrap_u64. apply Z.mod_small. lia. Qed.

Lemma add_u32_small a b : 0 <= a + b <= u32_max → add_u32 a b = a + b.
Proof. intros. unfold add_u32, wrap_u32. apply Z.mod_small. lia. Qed.

Lemma add_u64_range a b : is_u64 (add_u64 a b).
Proof.
  unfold add_u64, wrap_u64, is_u64.
  pose proof (Z.mod_pos_bound (a + b) (u64_max + 1) ltac:(rewrite u64_max_val; lia)). lia.
Qed.

Lemma saturating_mul_u64_pos a b : 0 <= a → 0 <= b → 0 <= saturating_mul_u64 a b.
Proof. intros. unfold saturating_mul_u64. rewrite u64_max_val. nia. Qed.

(** [Duration] is a count of milliseconds here; [millis] of the source clamps
    [as_millis() : u128] to [u64]. *)
Definition duration_millis (d : Z) : Z := Z.min d u64_max.

(** ** Ordered keys

    [Ord] as the source derives it: lexicographic on the fields. *)

Class OrdKey (K : Type) := {
  key_le : relation K;
  key_le_dec :: RelDecision key_le;
  key_le_po :: PartialOrder key_le;
  key_le_total :: Total key_le;
}.

#[global] Instance ordkey_Z : OrdKey Z.
Proof. refine {| key_le := Z.le |}; apply _. Defined.

#[global] Instance ordkey_string : OrdKey string.
Proof. refine {| key_le := String.le |}; apply _. Defined.

(** Order of a newtype or of a struct seen through an injection. *)
Section via.
Context {A B : Type} `{OrdKey B} (f : A → B) `{!Inj (=) (=) f}.

Definition ordkey_via : OrdKey A.
Proof.
  refine {| key_le x y := key_le (f x) (f y) |}.
  - intros x y. apply (decide (key_le (f x) (f y))).
  - split; [split|].
    + intros x. reflexivity.
    + intros x y z. apply transitivity.
    + intros x y ??. apply (inj f). by apply (anti_symm key_le).
  - intros x y. apply (total key_le).
Defined.
End via.

Definition prod_le {A B} `{OrdKey A, OrdKey B} (p q : A * B) : Prop :=
  (key_le p.1 q.1 ∧ p.1 ≠ q.1) ∨ (p.1 = q.1 ∧ key_le p.2 q.2).

#[global] Instance ordkey_prod {A B} `{EqDecision A, OrdKey A, OrdKey B} : OrdKey (A * B).
Proof.
  refine {| key_le := prod_le |}.
  - intros [a b] [a' b']. unfold prod_le. apply _.
  - unfold prod_le. split; [split|].
    + intros [a b]. right. by split.
    + intros [a b] [a' b'] [a'' b'']; simpl.
      intros [[H1 Hn]|[-> H1]] [[H2 Hn']|[-> H2]]; simpl in *.
      * left. split; [by etrans|]. intros ->. apply Hn'. by apply (anti_symm key_le).
      * by left.
      * by left.
      * right. split; [done|]. by etrans.
    + intros [a b] [a' b']; simpl.
      intros [[H1 Hn]|[-> H1]] [[H2 Hn']|[H2 H3]]; simpl in *; try congruence.
      * exfalso. apply Hn. by apply (anti_symm key_le).
      * f_equal. by apply (anti_symm key_le).
  - intros [a b] [a' b']. unfold prod_le; simpl.
    destruct (decide (a = a')) as [->|Hn].
    + destruct (total key_le b b'); [left|right]; right; done.
    + destruct (total key_le a a'); [left|right]; left; split; congruence.
Defined.

(** [Ord::cmp]. *)
Definition key_cmp {K} `{EqDecision K, OrdKey K} (x y : K) : comparison :=
  if decide (x = y) then Eq else if decide (key_le x y) then Lt else Gt.

(** [Ordering::then_with]. *)
Definition then_cmp (c d : comparison) : comparison :=
  match c with Eq => d | _ => c end.

Lemma NoDup_fst_unique {A B} (l : list (A * B)) (k : A) (v w : B) :
  NoDup l.*1 → (k, v) ∈ l → (k, w) ∈ l → v = w.
Proof.
  induction l as [|[k' v'] l IH]; simpl; [set_solver|].
  intros [Hn Hnd]%NoDup_cons.
  rewrite !elem_of_cons. intros [[= -> ->]|Hv] [[= ]|Hw]; subst; [done| | |auto].
  - exfalso. apply Hn, list_elem_of_fmap. by eexists (_, _).
  - exfalso. apply Hn, list_elem_of_fmap. by eexists (_, _).
Qed.

Lemma filter_all {A} (P : A → Prop) `{!∀ x, Decision (P x)} (l : list A) :
  (∀ x, x ∈ l → P x) → filter P l = l.
Proof.
  induction l as [|x l IH]; intros Hall; [done|]. rewrite filter_cons, decide_True.
  - rewrite IH; [done|]. intros y Hy. apply Hall. by right.
  - apply Hall. by left.
Qed.

Lemma filter_none {A} (P : A → Prop) `{!∀ x, Decision (P x)} (l : list A) :
  (∀ x, x ∈ l → ¬ P x) → filter P l = [].
Proof.
  induction l as [|x l IH]; intros Hl; [done|].
  rewrite filter_cons, decide_False by (apply Hl; by left). apply IH. intros y ?. apply Hl. by right.
Qed.

Lemma filter_ext_elem {A} (P Q : A → Prop) `{!∀ x, Decision (P x), !∀ x, Decision (Q x)}
    (l : list A) :
  (∀ x, x ∈ l → P x ↔ Q x) → filter P l = filter Q l.
Proof.
  induction l as [|x l IH]; intros Hall; [done|]. rewrite !filter_cons, IH.
  - apply decide_ext, Hall. by left.
  - intros y Hy. apply Hall. by right.
Qed.

Lemma list_filter_fmap {A B} (f : A → B) (P : B → Prop) `{!∀ x, Decision (P x)} (l : list A) :
  filter P (f <$> l) = f <$> filter (fun x => P (f x)) l.
Proof.
  induction l as [|x l IH]; [done|]. rewrite fmap_cons, !filter_cons, IH. by case_decide.
Qed.

(** ** Ordered iteration of a [BTreeMap]

    The maps are [gmap]s; what a [BTreeMap] adds to one is that it iterates in
    ascending key order. *)

Section btree.
Context {K V : Type} `{Countable K, !OrdKey K}.
Implicit Types m : gmap K V.

Definition entry_le (p q : K * V) : Prop := key_le p.1 q.1.

#[global] Instance entry_le_dec : RelDecision entry_le.
Proof. intros p q. unfold entry_le. apply _. Defined.

#[local] Instance entry_le_total : Total entry_le.
Proof. intros p q. apply (total key_le). Qed.

#[local] Instance entry_le_trans : Transitive entry_le.
Proof. intros p q r. unfold entry_le. apply transitivity. Qed.

(** [BTreeMap::iter]. *)
Definition btree_entries m : list (K * V) := merge_sort entry_le (map_to_list m).

(** [BTreeMap::keys] and [BTreeMap::values]. *)
Definition btree_keys m : list K := (btree_entries m).*1.
Definition btree_values m : list V := (btree_entries m).*2.

Lemma btree_entries_perm m : btree_entries m ≡ₚ map_to_list m.
Proof. apply merge_sort_Permutation. Qed.

Lemma elem_of_btree_entries m k v : (k, v) ∈ btree_entries m ↔ m !! k = Some v.
Proof. by rewrite btree_entries_perm, elem_of_map_to_list. Qed.

Lemma btree_entries_sorted m : StronglySorted entry_le (btree_entries m).
Proof. apply StronglySorted_merge_sort; apply _. Qed.

Lemma NoDup_btree_entries m : NoDup (btree_entries m).
Proof. rewrite btree_entries_perm. apply NoDup_map_to_list. Qed.

Lemma NoDup_btree_keys m : NoDup (btree_keys m).
Proof. unfold btree_keys. rewrite btree_entries_perm. apply NoDup_fst_map_to_list. Qed.

Lemma elem_of_btree_keys m k : k ∈ btree_keys m ↔ is_Some (m !! k).
Proof.
  unfold btree_keys. rewrite list_elem_of_fmap. split.
  - intros [[k' v] [-> Hin]]. apply elem_of_btree_entries in Hin. by eexists.
  - intros [v Hv]. exists (k, v). split; [done|]. by apply elem_of_btree_entries.
Qed.

Lemma elem_of_btree_values m v : v ∈ btree_values m ↔ ∃ k, m !! k = Some v.
Proof.
  unfold btree_values. rewrite list_elem_of_fmap. split.
  - intros [[k v'] [-> Hin]]. exists k. by apply elem_of_btree_entries.
  - intros [k Hk]. exists (k, v). split; [done|]. by apply elem_of_btree_entries.
Qed.

Lemma list_to_map_btree_entries m : list_to_map (btree_entries m) = m.
Proof.
  rewrite <-(list_to_map_to_list m) at 2. apply list_to_map_proper.
  - apply NoDup_btree_keys.
  - apply btree_entries_perm.
Qed.

Lemma btree_entries_empty : btree_entries ∅ = [].
Proof. unfold btree_entries. by rewrite map_to_list_empty. Qed.

Lemma length_btree_entries m : length (btree_entries m) = size m.
Proof. by rewrite btree_entries_perm, length_map_to_list. Qed.

(** A list sorted by key with distinct keys is the iteration of its map. *)
Lemma btree_entries_unique m l :
  StronglySorted entry_le l → NoDup l.*1 → list_to_map l = m → btree_entries m = l.
Proof.
  intros Hs Hnd <-. apply (StronglySorted_unique_strong entry_le).
  - intros [k1 v1] [k2 v2] Hin1 Hin2 Hle1 Hle2.
    assert (k1 = k2) as -> by by apply (anti_symm key_le).
    apply elem_of_btree_entries in Hin1.
    apply elem_of_list_to_map in Hin1; [|done].
    f_equal. apply (NoDup_fst_unique l k2); done.
  - apply btree_entries_sorted.
  - done.
  - rewrite btree_entries_perm. by apply map_to_list_to_map.
Qed.
End btree.

(** [BTreeSet::iter]: the elements of a set in ascending order. *)
Section btree_set.
Context {K : Type} `{Countable K, !OrdKey K}.
Implicit Types s : gset K.

Definition btree_elements s : list K := merge_sort key_le (elements s).

Lemma btree_elements_perm s : btree_elements s ≡ₚ elements s.
Proof. apply merge_sort_Permutation. Qed.

Lemma elem_of_btree_elements s k : k ∈ btree_elements s ↔ k ∈ s.
Proof. by rewrite btree_elements_perm, elem_of_elements. Qed.

Lemma length_btree_elements s : length (btree_elements s) = size s.
Proof. by rewrite btree_elements_perm. Qed.

End btree_set.

(** ** Strings *)

(** [str::contains] of a one-character pattern. *)
Fixpoint str_contains (c : Ascii.ascii) (s : string) : bool :=
  match s with
  | "" => false
  | String a s => if decide (a = c) then true else str_contains c s
  end.

(** [str::split_once] at the first occurrence of a one-character pattern. *)
Fixpoint split_once (c : Ascii.ascii) (s : string) : option (string * string) :=
  match s with
  | "" => None
  | String a s =>
      if decide (a = c) then Some ("", s)
      else match split_once c s with
           | Some (l, r) => Some (String a l, r)
           | None => None
           end
  end.

Lemma string_app_nil r : "" +:+ r = r.
Proof. done. Qed.

Lemma string_app_cons a l r : String a l +:+ r = String a (l +:+ r).
Proof. done. Qed.

Lemma string_app_assoc (a b c : string) : (a +:+ b) +:+ c = a +:+ (b +:+ c).
Proof. induction a as [|x a IH]; [done|]. by rewrite !string_app_cons, IH. Qed.

Lemma split_once_app c l r :
  str_contains c l = false → split_once c (l +:+ String c r) = Some (l, r).
Proof.
  induction l as [|a l IH]; rewrite ?string_app_nil, ?string_app_cons; simpl.
  - by rewrite decide_True.
  - case_decide; [done|]. intros Hc. by rewrite IH.
Qed.

Lemma split_once_Some c s l r :
  split_once c s = Some (l, r) → s = l +:+ String c r ∧ str_contains c l = false.
Proof.
  revert l r. induction s as [|a s IH]; simpl; [done|]. intros l r.
  case_decide as Hd; [intros [= <- <-]; by subst|].
  destruct (split_once c s) as [[l' r']|]; [|done].
  intros [= <- <-]. destruct (IH l' r' eq_refl) as [-> Hc]. simpl. by rewrite decide_False.
Qed.

Lemma str_contains_app c l r : str_contains c (l +:+ r) = str_contains c l || str_contains c r.
Proof. induction l as [|a l IH]; [done|]. simpl. by case_decide. Qed.

Lemma split_once_None c s : split_once c s = None ↔ str_contains c s = false.
Proof.
  induction s as [|a s IH]; simpl; [done|]. case_decide; [done|].
  rewrite <-IH. by destruct (split_once c s) as [[]|].
Qed.

Definition str_is_empty (s : string) : bool :=
  match s with "" => true | _ => false end.

(** ** Decimal numbers *)

Lemma pretty_N_go_plain c x acc :
  (∀ d, pretty_N_char d ≠ c) → str_contains c acc = false → str_contains c (pretty_N_go x acc) = false.
Proof.
  intros Hd. revert acc. induction (N.lt_wf_0 x) as [x _ IH]. intros acc Hacc.
  destruct (decide (x = 0%N)) as [-> |Hx]; [by rewrite pretty_N_go_0|].
  rewrite pretty_N_go_step by lia. apply IH; [apply N.div_lt; lia|].
  simpl. rewrite decide_False by done. done.
Qed.

Lemma pretty_N_plain c (x : N) : (∀ d, pretty_N_char d ≠ c) → str_contains c (pretty x) = false.
Proof.
  intros Hd. unfold pretty, pretty_N. case_decide.
  - simpl. rewrite decide_False; [done|]. apply (Hd 0%N).
  - by apply pretty_N_go_plain.
Qed.

(** A decimal number holds digits only, and a sign when it is negative. *)
Lemma pretty_Z_plain c (z : Z) :
  (∀ d, pretty_N_char d ≠ c) → (0 <= z ∨ c ≠ Ascii.ascii_of_nat 45) → str_contains c (pretty z) = false.
Proof.
  intros Hd Hz. destruct z as [|p|p].
  - by apply (pretty_N_plain c 0).
  - by apply (pretty_N_plain c (Npos p)).
  - change (pretty (Z.neg p)) with ("-" +:+ pretty (Npos p)).
    rewrite str_contains_app, pretty_N_plain by done. simpl.
    rewrite decide_False; [done|]. intros Hdash. destruct Hz as [?|Hz]; [lia|by apply Hz].
Qed.

Definition colon : Ascii.ascii := Ascii.ascii_of_nat 58.

Lemma digit_not_colon d : pretty_N_char d ≠ colon.
Proof. unfold pretty_N_char, colon. by repeat case_match. Qed.

Lemma pretty_nat_colon (n : nat) : str_contains colon (pretty n) = false.
Proof. apply (pretty_N_plain colon (N.of_nat n)), digit_not_colon. Qed.

Lemma pretty_Z_colon (z : Z) : str_contains colon (pretty z) = false.
Proof. apply pretty_Z_plain; [apply digit_not_colon|by right]. Qed.

(** ** Newtypes over strings *)

Ltac newtype_inj := intros [?] [?]; simpl; congruence.

(** ** The end of a list: what a bounded log keeps *)

Section last_n.
Context {A : Type}.
Implicit Types l k : list A.

Definition last_n (n : nat) l : list A := drop (length l - n) l.

Lemma last_n_app n l k : last_n n (last_n n l ++ k) = last_n n (l ++ k).
Proof.
  unfold last_n. rewrite !length_app, length_drop. destruct (decide (length l <= n)%nat).
  - replace (length l - n)%nat with 0%nat by lia. rewrite drop_0. f_equal. lia.
  - set (i := (length l - n)%nat).
    replace (l ++ k) with (take i l ++ (drop i l ++ k)) by (by rewrite (assoc_L (++)), take_drop).
    rewrite (drop_app_ge (take i l)) by (rewrite length_take_le; lia).
    rewrite length_take_le by lia. f_equal. lia.
Qed.

Lemma length_last_n n l : (length (last_n n l) <= n)%nat.
Proof. unfold last_n. rewrite length_drop. lia. Qed.

Lemma last_n_sublist n l : last_n n l `sublist_of` l.
Proof. apply sublist_drop. Qed.

Lemma last_n_short n l : (length l <= n)%nat → last_n n l = l.
Proof. intros. unfold last_n. by replace (length l - n)%nat with 0%nat by lia. Qed.

(** An element that is not far from the end is kept. *)
Lemma last_n_lookup n l i x : l !! i = Some x → (length l - i <= n)%nat → x ∈ last_n n l.
Proof.
  intros Hi Hn. pose proof (lookup_lt_Some _ _ _ Hi). apply list_elem_of_lookup.
  exists (i - (length l - n))%nat. unfold last_n. rewrite lookup_drop, <-Hi. f_equal. lia.
Qed.

Lemma last_n_elem n l x : x ∈ last_n n l → ∃ i, l !! i = Some x ∧ (length l - i <= n)%nat.
Proof.
  intros [i Hi]%list_elem_of_lookup. unfold last_n in Hi. rewrite lookup_drop in Hi.
  exists (length l - n + i)%nat. pose proof (lookup_lt_Some _ _ _ Hi). split; [done|lia].
Qed.
End last_n.

(** ** Iterator adaptors *)

Section iterators.
Context {A : Type}.
Implicit Types l : list A.

(** [Iterator::find]. *)
Fixpoint find_first (p : A → bool) l : option A :=
  match l with
  | [] => None
  | x :: l => if p x then Some x else find_first p l
  end.

(** [Iterator::min_by] keeps the earlier of two equal elements, and
    [Iterator::max_by] the later. *)
Definition min_by (cmp : A → A → comparison) l : option A :=
  match l with
  | [] => None
  | x :: l => Some (foldl (fun acc y => match cmp acc y with Gt => y | _ => acc end) x l)
  end.

Definition max_by (cmp : A → A → comparison) l : option A :=
  match l with
  | [] => None
  | x :: l => Some (foldl (fun acc y => match cmp acc y with Gt => acc | _ => y end) x l)
  end.

Lemma find_first_Some p l x : find_first p l = Some x → x ∈ l ∧ p x = true.
Proof.
  induction l as [|y l IH]; simpl; [done|]. destruct (p y) eqn:Hy.
  - intros [= ->]. split; [by left|done].
  - intros [? ?]%IH. split; [by right|done].
Qed.

Lemma find_first_None p l : find_first p l = None ↔ ∀ x, x ∈ l → p x = false.
Proof.
  induction l as [|y l IH]; simpl.
  - split; [intros _ x Hx; by apply not_elem_of_nil in Hx|done].
  - destruct (p y) eqn:Hy.
    + split; [done|]. intros Hall. specialize (Hall y ltac:(by left)). congruence.
    + rewrite IH. split.
      * intros Hall x [->|?]%elem_of_cons; auto.
      * intros Hall x ?. apply Hall. by right.
Qed.

(** Both pick an element that no other beats, for any measure the comparison
    respects. *)
Lemma min_by_spec (cmp : A → A → comparison) (f : A → nat) l x :
  (∀ a b, cmp a b = Gt → (f b <= f a)%nat) → (∀ a b, cmp a b ≠ Gt → (f a <= f b)%nat) →
  min_by cmp l = Some x → x ∈ l ∧ ∀ y, y ∈ l → (f x <= f y)%nat.
Proof.
  intros Hgt Hle. destruct l as [|a l]; simpl; [done|]. intros [= <-].
  revert a. induction l as [|b l IH]; intros a; simpl.
  - split; [by left|]. by intros y ->%list_elem_of_singleton.
  - destruct (IH (match cmp a b with Gt => b | _ => a end)) as [Hin Hmin].
    set (r := foldl _ _ _) in *. split.
    + apply elem_of_cons in Hin as [Hr|Hin]; [|by repeat right].
      rewrite Hr. destruct (cmp a b); [by left|by left|by right; left].
    + assert (f r <= f a ∧ f r <= f b)%nat as [Ha Hb].
      { pose proof (Hmin _ ltac:(by left)) as Hr.
        destruct (cmp a b) eqn:Hc.
        - pose proof (Hle a b ltac:(congruence)). lia.
        - pose proof (Hle a b ltac:(congruence)). lia.
        - pose proof (Hgt a b Hc). lia. }
      intros y [->|[->|Hy]%elem_of_cons]%elem_of_cons; [done..|].
      apply Hmin. by right.
Qed.

Lemma max_by_spec (cmp : A → A → comparison) (f : A → nat) l x :
  (∀ a b, cmp a b = Gt → (f b <= f a)%nat) → (∀ a b, cmp a b ≠ Gt → (f a <= f b)%nat) →
  max_by cmp l = Some x → x ∈ l ∧ ∀ y, y ∈ l → (f y <= f x)%nat.
Proof.
  intros Hgt Hle. destruct l as [|a l]; simpl; [done|]. intros [= <-].
  revert a. induction l as [|b l IH]; intros a; simpl.
  - split; [by left|]. by intros y ->%list_elem_of_singleton.
  - destruct (IH (match cmp a b with Gt => a | _ => b end)) as [Hin Hmax].
    set (r := foldl _ _ _) in *. split.
    + apply elem_of_cons in Hin as [Hr|Hin]; [|by repeat right].
      rewrite Hr. destruct (cmp a b); [by right; left|by right; left|by left].
    + assert (f a <= f r ∧ f b <= f r)%nat as [Ha Hb].
      { pose proof (Hmax _ ltac:(by left)) as Hr.
        destruct (cmp a b) eqn:Hc.
        - pose proof (Hle a b ltac:(congruence)). lia.
        - pose proof (Hle a b ltac:(congruence)). lia.
        - pose proof (Hgt a b Hc). lia. }
      intros y [->|[->|Hy]%elem_of_cons]%elem_of_cons; [done..|].
      apply Hmax. by right.
Qed.

Lemma min_by_is_Some cmp l : l ≠ [] → is_Some (min_by cmp l).
Proof. destruct l; [done|by eexists]. Qed.

Lemma max_by_is_Some cmp l : l ≠ [] → is_Some (max_by cmp l).
Proof. destruct l; [done|by eexists]. Qed.
End iterators.
