(* ===== verification/Node.v ===== *)
(** * Cluster nodes: [rakka-cluster/src/node.rs]

    Node identity, address, roles and the protocol-version compatibility check. *)

From Stdlib Require Import Ascii.
From stdpp Require Import pretty.
From S2P Require Import Prelude.

(** ** [NodeId] *)

Module NodeId.

Record t := new { logical_id : string; incarnation : string }.

#[global] Instance eq_dec : EqDecision t.
Proof. solve_decision. Defined.

Definition as_pair (n : t) : string * string := (logical_id n, incarnation n).

#[global] Instance as_pair_inj : Inj (=) (=) as_pair.
Proof. intros [??] [??] [=]; congruence. Qed.

#[global] Instance countable : Countable t :=
  inj_countable' as_pair (fun p => new p.1 p.2) ltac:(by intros []).

(** The derived [Ord]: [logical_id] first, then [incarnation]. *)
#[global] Instance ordkey : OrdKey t := ordkey_via as_pair.

(** [Display for NodeId]. *)
Definition fmt (n : t) : string := logical_id n +:+ "#" +:+ incarnation n.

(** [ParseNodeIdError] carries the rejected value. *)
Record ParseNodeIdError := { value : string }.

(** [FromStr for NodeId]. *)
Definition from_str (s : string) : result ParseNodeIdError t :=
  match split_once "#"%char s with
  | None => Err {| value := s |}
  | Some (logical_id, incarnation) =>
      if str_is_empty logical_id || str_is_empty incarnation
      then Err {| value := s |}
      else Ok (new logical_id incarnation)
  end.

End NodeId.

(** ** [NodeAddress] and [NodeRole] *)

Module NodeAddress.

Record t := new { host : string; port : Z }.

#[global] Instance eq_dec : EqDecision t.
Proof. solve_decision. Defined.

Definition endpoint (a : t) : string := host a +:+ ":" +:+ pretty (port a).

End NodeAddress.

Module NodeRole.

Record t := new { as_str : string }.

#[global] Instance eq_dec : EqDecision t.
Proof. solve_decision. Defined.

#[global] Instance as_str_inj : Inj (=) (=) as_str.
Proof. newtype_inj. Qed.

#[global] Instance countable : Countable t :=
  inj_countable' as_str new ltac:(by intros []).

#[global] Instance ordkey : OrdKey t := ordkey_via as_str.

End NodeRole.

(** ** Protocol versions *)

Module ProtocolVersion.

Record t := new { major : Z; minor : Z }.

#[global] Instance eq_dec : EqDecision t.
Proof. solve_decision. Defined.

Definition as_pair (v : t) : Z * Z := (major v, minor v).

#[global] Instance as_pair_inj : Inj (=) (=) as_pair.
Proof. intros [??] [??] [=]; congruence. Qed.

(** The derived [Ord]: [major] first, then [minor]. *)
#[global] Instance ordkey : OrdKey t := ordkey_via as_pair.

(** Both components are [u16]. *)
Definition wf (v : t) : Prop := is_u16 (major v) ∧ is_u16 (minor v).

Lemma key_le_iff v w :
  key_le v w ↔ major v < major w ∨ (major v = major w ∧ minor v <= minor w).
Proof.
  destruct v as [a b], w as [c d]. cbn. unfold prod_le; cbn. lia.
Qed.

End ProtocolVersion.

Module CompatibilityRange.

Record t := new { min : ProtocolVersion.t; max : ProtocolVersion.t }.

#[global] Instance eq_dec : EqDecision t.
Proof. solve_decision. Defined.

Definition exact (version : ProtocolVersion.t) : t := new version version.

Definition n_to_n_plus_one (major minor : Z) : t :=
  new (ProtocolVersion.new major minor)
      (ProtocolVersion.new major (saturating_add_u16 minor 1)).

Definition contains (r : t) (version : ProtocolVersion.t) : bool :=
  bool_decide (key_le (min r) version) && bool_decide (key_le version (max r)).

Lemma contains_spec r v :
  contains r v = true ↔ key_le (min r) v ∧ key_le v (max r).
Proof. unfold contains. by rewrite andb_true_iff, !bool_decide_eq_true. Qed.

Lemma contains_n_to_n_plus_one major minor v :
  contains (n_to_n_plus_one major minor) v = true ↔
  ProtocolVersion.major v = major ∧
  minor <= ProtocolVersion.minor v <= saturating_add_u16 minor 1.
Proof.
  rewrite contains_spec, !ProtocolVersion.key_le_iff. destruct v as [a b]; cbn. lia.
Qed.

End CompatibilityRange.

Module ClusterProtocol.

Record t := new {
  version : ProtocolVersion.t;
  compatible_with : CompatibilityRange.t;
}.

#[global] Instance eq_dec : EqDecision t.
Proof. solve_decision. Defined.

Definition exact (version : ProtocolVersion.t) : t :=
  new version (CompatibilityRange.exact version).

Definition n_to_n_plus_one (version : ProtocolVersion.t) (base_minor : Z) : t :=
  new version
    (CompatibilityRange.n_to_n_plus_one (ProtocolVersion.major version) base_minor).

Definition is_compatible_with (self other : t) : bool :=
  CompatibilityRange.contains (compatible_with self) (version other)
  && CompatibilityRange.contains (compatible_with other) (version self).

Definition v1 : t :=
  new (ProtocolVersion.new 1 0) (CompatibilityRange.n_to_n_plus_one 1 0).

Lemma is_compatible_with_comm p q : is_compatible_with p q = is_compatible_with q p.
Proof. unfold is_compatible_with. apply andb_comm. Qed.

End ClusterProtocol.

(** ** [ClusterNode] *)

Module ClusterNode.

Record t := mk {
  id : NodeId.t;
  address : NodeAddress.t;
  roles : gset NodeRole.t;
  protocol : ClusterProtocol.t;
}.

#[global] Instance eq_dec : EqDecision t.
Proof. solve_decision. Defined.

Definition new (id : NodeId.t) (address : NodeAddress.t) : t :=
  mk id address ∅ ClusterProtocol.v1.

Definition with_role (n : t) (role : string) : t :=
  mk (id n) (address n) ({[NodeRole.new role]} ∪ roles n) (protocol n).

Definition with_address (n : t) (address : NodeAddress.t) : t :=
  mk (id n) address (roles n) (protocol n).

Definition with_protocol (n : t) (protocol : ClusterProtocol.t) : t :=
  mk (id n) (address n) (roles n) protocol.

End ClusterNode.

(** ** Properties *)

Lemma from_str_Ok s n :
  NodeId.from_str s = Ok n →
  NodeId.fmt n = s ∧ NodeId.logical_id n ≠ "" ∧ NodeId.incarnation n ≠ "" ∧
  str_contains "#"%char (NodeId.logical_id n) = false.
Proof.
  unfold NodeId.from_str. destruct (split_once "#"%char s) as [[l r]|] eqn:Hs; [|done].
  apply split_once_Some in Hs as [-> Hc].
  destruct l, r; cbn; try done. intros [= <-]. cbn in *. repeat split; try done.
Qed.

(** A printed node id with non-empty parts and no ['#'] in its logical id parses
    back to itself, and whatever parses prints back to the same text. *)
Theorem node_id_roundtrip (n : NodeId.t) (s : string) :
  (NodeId.from_str (NodeId.fmt n) = Ok n ↔
     NodeId.logical_id n ≠ "" ∧ NodeId.incarnation n ≠ "" ∧
     str_contains "#"%char (NodeId.logical_id n) = false) ∧
  (∀ m, NodeId.from_str s = Ok m → NodeId.fmt m = s).
Proof.
  split; [split|].
  - intros Hp. apply from_str_Ok in Hp. tauto.
  - intros (Hl & Hr & Hc). unfold NodeId.from_str, NodeId.fmt.
    change ("#" +:+ NodeId.incarnation n) with (String "#"%char (NodeId.incarnation n)).
    rewrite split_once_app by done. destruct n as [[] []]; cbn in *; try done.
  - intros m Hm. by apply from_str_Ok in Hm as [? _].
Qed.

(** The [N]/[N+1] window: two nodes that advertise the window based at the same
    [major.base] and run a version inside it accept each other, and a node at
    [base + 2] or at another major version is refused whatever it advertises. *)
Theorem n_to_n_plus_one_window (major base : Z) (m1 m2 : Z) (q : ClusterProtocol.t) :
  base + 1 <= u16_max →
  base <= m1 <= base + 1 → base <= m2 <= base + 1 →
  let node m := ClusterProtocol.n_to_n_plus_one (ProtocolVersion.new major m) base in
  ClusterProtocol.is_compatible_with (node m1) (node m2) = true ∧
  (ProtocolVersion.major (ClusterProtocol.version q) ≠ major ∨
   base + 1 < ProtocolVersion.minor (ClusterProtocol.version q) ∨
   ProtocolVersion.minor (ClusterProtocol.version q) < base →
   ClusterProtocol.is_compatible_with (node m1) q = false).
Proof.
  intros Hb H1 H2 node. unfold node. split.
  - unfold ClusterProtocol.is_compatible_with. rewrite andb_true_iff.
    split; apply CompatibilityRange.contains_n_to_n_plus_one; cbn; uint.
  - intros Hq. unfold ClusterProtocol.is_compatible_with.
    apply andb_false_iff; left. apply not_true_is_false.
    intros Hc%CompatibilityRange.contains_n_to_n_plus_one. cbn in *. uint.
Qed.
