(* ===== verification/Core.v ===== *)
(** * Core vocabulary: [rakka-core/src/error.rs], [path.rs]

    The framework error every crate shares, actor paths, and the name checks that
    guard them. *)

From Stdlib Require Import Ascii.
From S2P Require Import Prelude.

(** ** Errors *)

Inductive Subsystem :=
| Core | Persistence | PersistencePostgres | Remote | Cluster | Sharding | Workflow
| Stream | Process | Http | Grpc | K8s | Testkit.

#[global] Instance Subsystem_eq_dec : EqDecision Subsystem.
Proof. solve_decision. Defined.

Definition Subsystem_as_str (self : Subsystem) : string :=
  match self with
  | Core => "core"
  | Persistence => "persistence"
  | PersistencePostgres => "persistence-postgres"
  | Remote => "remote"
  | Cluster => "cluster"
  | Sharding => "sharding"
  | Workflow => "workflow"
  | Stream => "stream"
  | Process => "process"
  | Http => "http"
  | Grpc => "grpc"
  | K8s => "k8s"
  | Testkit => "testkit"
  end.

Module RakkaError.

Record t := new { subsystem : Subsystem; code : string; message : string }.

#[global] Instance eq_dec : EqDecision t.
Proof. solve_decision. Defined.

Definition core (code message : string) : t := new Core code message.

(** [Display]. *)
Definition fmt (self : t) : string :=
  Subsystem_as_str (subsystem self) +:+ ":" +:+ code self +:+ ": " +:+ message self.

End RakkaError.

Abbreviation RakkaResult := (result RakkaError.t).

(** ** Character classes

    Strings are their UTF-8 bytes. *)

(** [str::starts_with] and [str::ends_with]. *)
Definition starts_with (p s : string) : bool := String.prefix p s.

Fixpoint ends_with (p s : string) : bool :=
  if decide (s = p) then true
  else match s with "" => false | String _ s => ends_with p s end.

Definition of_bytes (l : list Z) : string :=
  foldr (fun b s => String (Ascii.ascii_of_nat (Z.to_nat b)) s) "" l.

(** The characters of the Unicode property White_Space, in UTF-8: U+0009 to U+000D,
    U+0020, U+0085, U+00A0, U+1680, U+2000 to U+200A, U+2028, U+2029, U+202F, U+205F
    and U+3000. *)
Definition white_space : list string :=
  (fun b => of_bytes [b]) <$> [9; 10; 11; 12; 13; 32].

Definition white_space_wide : list string :=
  of_bytes <$> ([[194; 133]; [194; 160]; [225; 154; 128]]
    ++ ((fun b => [226; 128; b]) <$> [128; 129; 130; 131; 132; 133; 134; 135; 136; 137; 138;
                                      168; 169; 175])
    ++ [[226; 129; 159]; [227; 128; 128]]).

(** [s.trim() != s]: the text begins or ends with white space. *)
Definition is_padded (s : string) : bool :=
  existsb (fun w => starts_with w s || ends_with w s) (white_space ++ white_space_wide).

Definition is_ascii_digit (c : Ascii.ascii) : bool :=
  let n := Ascii.nat_of_ascii c in ((48 <=? n) && (n <=? 57))%nat.

Definition is_ascii_alphabetic (c : Ascii.ascii) : bool :=
  let n := Ascii.nat_of_ascii c in
  (((65 <=? n) && (n <=? 90)) || ((97 <=? n) && (n <=? 122)))%nat.

(** [char::is_ascii_alphanumeric]. *)
Definition is_ascii_alphanumeric (c : Ascii.ascii) : bool :=
  is_ascii_alphabetic c || is_ascii_digit c.

(** [str::chars().all(p)], for a predicate that no byte of a longer character meets. *)
Fixpoint all_chars (p : Ascii.ascii → bool) (s : string) : bool :=
  match s with "" => true | String c s => p c && all_chars p s end.

(** ** Actor paths *)

Module ActorPath.

Record t := new { as_str : string }.

#[global] Instance eq_dec : EqDecision t.
Proof. solve_decision. Defined.

Definition user (system_name actor_name : string) : t :=
  new ("rakka://local/" +:+ system_name +:+ "/user/" +:+ actor_name).

Definition system (system_name actor_name : string) : t :=
  new ("rakka://local/" +:+ system_name +:+ "/system/" +:+ actor_name).

Definition child (self : t) (child_name : string) : t :=
  new (as_str self +:+ "/" +:+ child_name).

End ActorPath.

Definition validate_actor_path_segment (segment : string) : RakkaResult unit :=
  if str_is_empty segment then
    Err (RakkaError.core "invalid-actor-name" "actor name must not be empty")
  else if str_contains "/"%char segment || str_contains "#"%char segment ||
          str_contains "?"%char segment then
    Err (RakkaError.core "invalid-actor-name" "actor name must not contain '/', '#', or '?'")
  else Ok tt.
