(* ===== verification/Actors.v ===== *)
(** * Actors and their mailboxes: [rakka-core/src/{actor,system,supervision,dead_letter}.rs]

    Actor cells with their bounded mailboxes, the task that runs an actor
    ([run_actor_task], with supervision), and the part of the actor system that gives
    out names and uids.  A handler is application code: each of its invocations ends
    with an outcome that is an input of the step.

    The task of an actor runs beside the code that holds a reference to it.  The field
    [schedule] says which steps the tasks take before each operation on a reference, so
    that every interleaving of a caller with the actors is some schedule.  [history] is
    a history variable: what entered the mailboxes and what left them, in order. *)

From S2P Require Import Prelude Core.

(** ** Data *)

Inductive ActorAction := Continue | Stop.

Module ActorFailure.
Inductive t := Error (error : RakkaError.t) | Panic.
End ActorFailure.

Module TerminationReason.
Inductive t := Normal | Stopped | Escalated (failure : ActorFailure.t) | Failed (failure : ActorFailure.t).
End TerminationReason.

Module SupervisionStrategy.
Inductive t :=
| Resume
| Restart
| Stop
| Escalate
| RestartWithBackoff (min_backoff max_backoff : Z) (max_restarts : nat).
End SupervisionStrategy.

(** The dispatcher, instrumentation and blocking hints have no effect in the runtime. *)
Module ActorOptions.
Record t := mk { mailbox_capacity : nat; supervision : SupervisionStrategy.t }.

Definition default : t := mk 1024 SupervisionStrategy.Stop.
Definition with_mailbox_capacity (self : t) (mailbox_capacity : nat) : t :=
  mk mailbox_capacity (supervision self).
Definition with_supervision (self : t) (supervision : SupervisionStrategy.t) : t :=
  mk (mailbox_capacity self) supervision.
End ActorOptions.

(** An [ActorRef] is known by its path and uid. *)
Module ActorRef.
Record t := mk { path : ActorPath.t; uid : Z }.

#[global] Instance eq_dec : EqDecision t.
Proof. solve_decision. Defined.
End ActorRef.

(** What [ActorRef::tell] answers; a failed one gives the message back. *)
Inductive TellOutcome := Sent | MailboxFull | MailboxClosed.

Module StopError.
Inductive t := MailboxFull | MailboxClosed.
End StopError.

Inductive DeadLetterReason := LetterMailboxFull | LetterMailboxClosed.

Module DeadLetter.
Record t := mk { recipient : ActorPath.t; reason : DeadLetterReason }.
End DeadLetter.

Inductive Envelope (M : Type) := User (msg : M) | StopEnvelope.
Arguments User {M} msg.
Arguments StopEnvelope {M}.

(** [Result<ActorResult, ActorFailure>]: how a hook or a handler ended. *)
Definition HandlerOutcome : Type := result ActorFailure.t (RakkaResult ActorAction).

(** ** Supervision *)

Definition lifecycle_failure (outcome : HandlerOutcome) : option TerminationReason.t :=
  match outcome with
  | Ok (Ok Continue) => None
  | Ok (Ok Stop) => Some TerminationReason.Stopped
  | Ok (Err error) => Some (TerminationReason.Failed (ActorFailure.Error error))
  | Err failure => Some (TerminationReason.Failed failure)
  end.

(** Durations are milliseconds; the product saturates far above any [max_backoff]. *)
Definition backoff_delay (min_backoff max_backoff : Z) (restart_count : nat) : Z :=
  Z.min (min_backoff * 2 ^ Z.of_nat (restart_count `min` 16)) max_backoff.

(** The decision of [supervise_failure]: go on, leave the loop, or sleep, make a new
    actor and run its [restarted] hook. *)
Inductive Supervision :=
| Proceed
| GiveUp (reason : TerminationReason.t)
| RestartAfter (delay : Z) (restart_count : nat).

Definition supervise_failure (strategy : SupervisionStrategy.t) (failure : ActorFailure.t)
    (restart_count : nat) : Supervision :=
  match strategy with
  | SupervisionStrategy.Resume => Proceed
  | SupervisionStrategy.Restart => RestartAfter 0 restart_count
  | SupervisionStrategy.Stop => GiveUp (TerminationReason.Failed failure)
  | SupervisionStrategy.Escalate => GiveUp (TerminationReason.Escalated failure)
  | SupervisionStrategy.RestartWithBackoff min_backoff max_backoff max_restarts =>
      if (max_restarts <=? restart_count)%nat then GiveUp (TerminationReason.Failed failure)
      else RestartAfter (backoff_delay min_backoff max_backoff restart_count) (S restart_count)
  end.

(** ** The task of an actor *)

(** Where [run_actor_task] stands: in [started], at the receive, in [handle], in
    [restarted] (or the backoff before it), in [stopped], after [mark_terminated], after
    [unregister_actor_cell]. *)
Inductive TaskPhase (M : Type) :=
| Starting
| Receiving
| Handling (msg : M)
| Restarting (failure : ActorFailure.t)
| Leaving (reason : TerminationReason.t)
| Terminated (reason : TerminationReason.t)
| Unregistered (reason : TerminationReason.t).
Arguments Starting {M}.
Arguments Receiving {M}.
Arguments Handling {M} msg.
Arguments Restarting {M} failure.
Arguments Leaving {M} reason.
Arguments Terminated {M} reason.
Arguments Unregistered {M} reason.

(** What happens to a message: it enters a mailbox, it is handed to the handler, or it is
    drained from the mailbox of an actor that left its loop. *)
Inductive MessageEvent (M : Type) := Told (msg : M) | Handled (msg : M) | Discarded (msg : M).
Arguments Told {M} msg.
Arguments Handled {M} msg.
Arguments Discarded {M} msg.

Section messages.
Context {M : Type}.
Implicit Types (mailbox : list (Envelope M)) (events : list (MessageEvent M)).

Definition users mailbox : list M :=
  omap (fun e => match e with User msg => Some msg | StopEnvelope => None end) mailbox.

Definition told events : list M :=
  omap (fun e => match e with Told msg => Some msg | _ => None end) events.

Definition taken events : list M :=
  omap (fun e => match e with Told _ => None | Handled msg | Discarded msg => Some msg end) events.

Definition discarded events : list M :=
  omap (fun e => match e with Discarded msg => Some msg | _ => None end) events.
End messages.

(** [ActorCell] with its mailbox and its task.  [origin] is what the closure that makes the
    actor was given. *)
Module ActorCell.
Section cell.
Context {M X : Type}.

Record t := mk {
  path : ActorPath.t;
  uid : Z;
  mailbox_capacity : nat;
  supervision : SupervisionStrategy.t;
  origin : X;
  mailbox : list (Envelope M);
  phase : TaskPhase M;
  restart_count : nat;
}.

Definition new (path : ActorPath.t) (uid : Z) (origin : X) (options : ActorOptions.t) : t :=
  mk path uid (ActorOptions.mailbox_capacity options) (ActorOptions.supervision options) origin
     [] Starting 0.

Definition set_task (self : t) (mailbox : list (Envelope M)) (phase : TaskPhase M)
    (restart_count : nat) : t :=
  mk (path self) (uid self) (mailbox_capacity self) (supervision self) (origin self)
     mailbox phase restart_count.

Definition set_phase (self : t) (phase : TaskPhase M) : t :=
  set_task self (mailbox self) phase (restart_count self).

Definition push (self : t) (envelope : Envelope M) : t :=
  set_task self (mailbox self ++ [envelope]) (phase self) (restart_count self).

Definition is_stopping (self : t) : bool :=
  match phase self with
  | Leaving _ | Terminated _ | Unregistered _ => true
  | _ => false
  end.

Definition is_terminated (self : t) : bool :=
  match phase self with
  | Terminated _ | Unregistered _ => true
  | _ => false
  end.

(** The loop was left: the mailbox is closed and drained. *)
Definition leave (self : t) (reason : TerminationReason.t) : t * list (MessageEvent M) :=
  (set_task self [] (Leaving reason) (restart_count self), Discarded <$> users (mailbox self)).

(** A handler failed with [failure]. *)
Definition failed (self : t) (failure : ActorFailure.t) : t * list (MessageEvent M) :=
  match supervise_failure (supervision self) failure (restart_count self) with
  | Proceed => (set_phase self Receiving, [])
  | GiveUp reason => leave self reason
  | RestartAfter _ restarts => (set_task self (mailbox self) (Restarting failure) restarts, [])
  end.

(** The next step of the task; [outcome] is how the hook or the handler that is running
    ends. *)
Definition step (self : t) (outcome : HandlerOutcome) : t * list (MessageEvent M) :=
  match phase self with
  | Starting | Restarting _ =>
      match lifecycle_failure outcome with
      | Some reason => leave self reason
      | None => (set_phase self Receiving, [])
      end
  | Receiving =>
      match mailbox self with
      | [] => (self, [])
      | StopEnvelope :: rest =>
          leave (set_task self rest Receiving (restart_count self)) TerminationReason.Stopped
      | User msg :: rest => (set_task self rest (Handling msg) (restart_count self), [Handled msg])
      end
  | Handling _ =>
      match outcome with
      | Ok (Ok Continue) => (set_phase self Receiving, [])
      | Ok (Ok Stop) => leave self TerminationReason.Stopped
      | Ok (Err error) => failed self (ActorFailure.Error error)
      | Err failure => failed self failure
      end
  | Leaving reason => (set_phase self (Terminated reason), [])
  | Terminated reason => (set_phase self (Unregistered reason), [])
  | Unregistered _ => (self, [])
  end.
End cell.
Arguments t : clear implicits.
End ActorCell.

(** ** The actor system *)

Module ActorSystem.
Section system.
Context {M X : Type}.

Record t := mk {
  name : string;
  next_actor_id : Z;
  live_actors : gmap string Z;
  cells : gmap Z (ActorCell.t M X);
  terminating : bool;
  dead_letters : list DeadLetter.t;
  schedule : list (list (Z * HandlerOutcome));
  history : list (Z * MessageEvent M);
}.

(** Live actors are registered under the text of their path. *)
Definition new (name : string) : t := mk name 1 ∅ ∅ false [] [] [].

Definition set_schedule (self : t) (schedule : list (list (Z * HandlerOutcome))) : t :=
  mk (name self) (next_actor_id self) (live_actors self) (cells self) (terminating self)
     (dead_letters self) schedule (history self).

Definition set_terminating (self : t) : t :=
  mk (name self) (next_actor_id self) (live_actors self) (cells self) true
     (dead_letters self) (schedule self) (history self).

Definition set_cell (self : t) (uid : Z) (cell : ActorCell.t M X)
    (letters : list DeadLetter.t) (events : list (MessageEvent M)) : t :=
  mk (name self) (next_actor_id self) (live_actors self) (<[uid := cell]> (cells self))
     (terminating self) (dead_letters self ++ letters) (schedule self)
     (history self ++ (pair uid <$> events)).

Definition add_letter (self : t) (letter : DeadLetter.t) : t :=
  mk (name self) (next_actor_id self) (live_actors self) (cells self) (terminating self)
     (dead_letters self ++ [letter]) (schedule self) (history self).

Definition unregister_actor_cell (self : t) (cell : ActorCell.t M X) : t :=
  let path := ActorPath.as_str (ActorCell.path cell) in
  mk (name self) (next_actor_id self)
     (if decide (live_actors self !! path = Some (ActorCell.uid cell))
      then delete path (live_actors self) else live_actors self)
     (cells self) (terminating self) (dead_letters self) (schedule self) (history self).

(** One step of the task of the actor with this uid. *)
Definition actor_step (self : t) (s : Z * HandlerOutcome) : t :=
  let (uid, outcome) := s in
  match cells self !! uid with
  | None => self
  | Some cell =>
      let (cell', events) := ActorCell.step cell outcome in
      let letters := (fun _ => DeadLetter.mk (ActorCell.path cell) LetterMailboxClosed)
                       <$> discarded events in
      let self := set_cell self uid cell' letters events in
      match ActorCell.phase cell' with
      | Unregistered _ => unregister_actor_cell self cell'
      | _ => self
      end
  end.

(** The tasks run until the operation that follows takes effect. *)
Definition interleave : act t unit := fun self =>
  match schedule self with
  | [] => (self, tt)
  | batch :: rest => (foldl actor_step (set_schedule self rest) batch, tt)
  end.

Definition read {A} (f : t → A) : act t A := let! _ := interleave in fun self => (self, f self).

(** ** References *)

Definition is_terminated (r : ActorRef.t) : act t bool := read (fun self =>
  match cells self !! ActorRef.uid r with
  | Some cell => ActorCell.is_terminated cell
  | None => true
  end).

Definition is_stopping (r : ActorRef.t) : act t bool := read (fun self =>
  match cells self !! ActorRef.uid r with
  | Some cell => ActorCell.is_stopping cell
  | None => true
  end).

(** [sender.try_send]. *)
Definition has_room (cell : ActorCell.t M X) : bool :=
  (length (ActorCell.mailbox cell) <? ActorCell.mailbox_capacity cell)%nat.

Definition publish_dead_letter (r : ActorRef.t) (reason : DeadLetterReason) (self : t) : t :=
  add_letter self (DeadLetter.mk (ActorRef.path r) reason).

Definition tell (r : ActorRef.t) (msg : M) : act t TellOutcome :=
  let! _ := interleave in fun self =>
  match cells self !! ActorRef.uid r with
  | Some cell =>
      if ActorCell.is_terminated cell || ActorCell.is_stopping cell then
        (publish_dead_letter r LetterMailboxClosed self, MailboxClosed)
      else if has_room cell then
        (set_cell self (ActorRef.uid r) (ActorCell.push cell (User msg)) [] [Told msg], Sent)
      else (publish_dead_letter r LetterMailboxFull self, MailboxFull)
  | None => (publish_dead_letter r LetterMailboxClosed self, MailboxClosed)
  end.

Definition stop (r : ActorRef.t) : act t (result StopError.t unit) :=
  let! _ := interleave in fun self =>
  match cells self !! ActorRef.uid r with
  | Some cell =>
      if ActorCell.is_terminated cell || ActorCell.is_stopping cell then (self, Ok tt)
      else if has_room cell then
        (set_cell self (ActorRef.uid r) (ActorCell.push cell StopEnvelope) [] [], Ok tt)
      else (self, Err StopError.MailboxFull)
  | None => (self, Ok tt)
  end.

(** ** Spawning *)

Definition system_terminating_error : RakkaError.t :=
  RakkaError.core "system-terminating" "cannot spawn actor while actor system is terminating".

Definition path_in_use_error (path : ActorPath.t) : RakkaError.t :=
  RakkaError.core "actor-path-in-use"
    ("actor path '" +:+ ActorPath.as_str path +:+ "' is already live").

(** A live actor is registered under the path and has not terminated. *)
Definition path_in_use (self : t) (path : ActorPath.t) : bool :=
  match live_actors self !! ActorPath.as_str path with
  | Some uid => match cells self !! uid with
                | Some cell => negb (ActorCell.is_terminated cell)
                | None => false
                end
  | None => false
  end.

Definition register_actor_cell (self : t) (cell : ActorCell.t M X) : t * RakkaResult unit :=
  if terminating self then (self, Err system_terminating_error)
  else if path_in_use self (ActorCell.path cell) then
    (self, Err (path_in_use_error (ActorCell.path cell)))
  else
    (mk (name self) (next_actor_id self)
        (<[ActorPath.as_str (ActorCell.path cell) := ActorCell.uid cell]> (live_actors self))
        (<[ActorCell.uid cell := cell]> (cells self)) (terminating self) (dead_letters self)
        (schedule self) (history self), Ok tt).

Definition next_user_identity (self : t) (actor_name : string) : t * RakkaResult (ActorPath.t * Z) :=
  match validate_actor_path_segment actor_name with
  | Err error => (self, Err error)
  | Ok _ =>
      (mk (name self) (next_actor_id self + 1) (live_actors self) (cells self) (terminating self)
          (dead_letters self) (schedule self) (history self),
       Ok (ActorPath.user (name self) actor_name, next_actor_id self))
  end.

(** [spawn_actor_with_options]; uids are drawn from a counter too wide to wrap. *)
Definition spawn_actor_with_options (actor_name : string) (origin : X) (options : ActorOptions.t) :
    act t (RakkaResult ActorRef.t) :=
  let! _ := interleave in fun self =>
  if decide (ActorOptions.mailbox_capacity options = 0%nat) then
    (self, Err (RakkaError.core "invalid-mailbox-capacity"
                  "actor mailbox capacity must be greater than zero"))
  else
    match next_user_identity self actor_name with
    | (self, Err error) => (self, Err error)
    | (self, Ok (path, uid)) =>
        match register_actor_cell self (ActorCell.new path uid origin options) with
        | (self, Err error) => (self, Err error)
        | (self, Ok _) => (self, Ok (ActorRef.mk path uid))
        end
    end.
End system.
Arguments t : clear implicits.
End ActorSystem.

(** ** The mailbox of one actor *)

Section cell_facts.
Context {M X : Type}.
Implicit Types (c : ActorCell.t M X) (l : list (Envelope M)) (ev : list (MessageEvent M)).

Lemma users_app l1 l2 : users (l1 ++ l2) = users l1 ++ users l2.
Proof. apply omap_app. Qed.

Lemma told_app ev1 ev2 : told (ev1 ++ ev2) = told ev1 ++ told ev2.
Proof. apply omap_app. Qed.

Lemma taken_app ev1 ev2 : taken (ev1 ++ ev2) = taken ev1 ++ taken ev2.
Proof. apply omap_app. Qed.

Lemma discarded_app ev1 ev2 : discarded (ev1 ++ ev2) = discarded ev1 ++ discarded ev2.
Proof. apply omap_app. Qed.

Lemma told_discards (ms : list M) : told (Discarded <$> ms) = [].
Proof. by induction ms. Qed.

Lemma taken_discards (ms : list M) : taken (Discarded <$> ms) = ms.
Proof. induction ms as [|m ms IH]; [done|]. csimpl. by rewrite IH. Qed.

Lemma is_stopping_terminated c : ActorCell.is_terminated c = true → ActorCell.is_stopping c = true.
Proof. unfold ActorCell.is_terminated, ActorCell.is_stopping. by destruct (ActorCell.phase c). Qed.

(** The fields that a task does not change. *)
Definition same_actor_cell c c' : Prop :=
  ActorCell.path c' = ActorCell.path c ∧ ActorCell.uid c' = ActorCell.uid c ∧
  ActorCell.mailbox_capacity c' = ActorCell.mailbox_capacity c ∧
  ActorCell.supervision c' = ActorCell.supervision c ∧ ActorCell.origin c' = ActorCell.origin c.

Lemma leave_same c reason c' ev : ActorCell.leave c reason = (c', ev) → same_actor_cell c c'.
Proof. by intros [= <- <-]. Qed.

Lemma failed_same c failure c' ev : ActorCell.failed c failure = (c', ev) → same_actor_cell c c'.
Proof.
  unfold ActorCell.failed. destruct (supervise_failure _ _ _); [|apply leave_same|];
    by intros [= <- <-].
Qed.

Lemma step_same c outcome c' ev : ActorCell.step c outcome = (c', ev) → same_actor_cell c c'.
Proof.
  unfold ActorCell.step.
  destruct (ActorCell.phase c); repeat case_match; try (by intros [= <- <-]);
    eauto using leave_same, failed_same.
Qed.

(** What a step of the task does to the mailbox: nothing, take the first message, or
    drain the rest on leaving the loop. *)
Inductive cell_move c c' : list (MessageEvent M) → Prop :=
| MoveNothing :
    ActorCell.mailbox c' = ActorCell.mailbox c →
    ActorCell.is_stopping c' = ActorCell.is_stopping c →
    (ActorCell.is_terminated c = true → ActorCell.is_terminated c' = true) → cell_move c c' []
| MoveHandle msg :
    ActorCell.mailbox c = User msg :: ActorCell.mailbox c' →
    ActorCell.is_stopping c = false → ActorCell.is_stopping c' = false →
    cell_move c c' [Handled msg]
| MoveLeave before rest :
    ActorCell.mailbox c = before ++ rest → before = [] ∨ before = [StopEnvelope] →
    ActorCell.mailbox c' = [] →
    ActorCell.is_stopping c = false → ActorCell.is_stopping c' = true →
    ActorCell.is_terminated c' = false → cell_move c c' (Discarded <$> users rest).

Lemma leave_move c reason c' ev :
  ActorCell.is_stopping c = false → ActorCell.leave c reason = (c', ev) → cell_move c c' ev.
Proof. intros ? [= <- <-]. by apply (MoveLeave _ _ []); [|left|..]. Qed.

Lemma failed_move c failure c' ev :
  ActorCell.is_stopping c = false → ActorCell.failed c failure = (c', ev) → cell_move c c' ev.
Proof.
  intros Hrun. unfold ActorCell.failed. destruct (supervise_failure _ _ _).
  - intros [= <- <-]. constructor; [done|by rewrite Hrun|].
    by intros Ht%is_stopping_terminated; rewrite Hrun in Ht.
  - by apply leave_move.
  - intros [= <- <-]. constructor; [done|by rewrite Hrun|].
    by intros Ht%is_stopping_terminated; rewrite Hrun in Ht.
Qed.

Lemma step_move c outcome c' ev : ActorCell.step c outcome = (c', ev) → cell_move c c' ev.
Proof.
  unfold ActorCell.step.
  assert (∀ p, ActorCell.phase c = p →
            ActorCell.is_stopping c = match p with
              Leaving _ | Terminated _ | Unregistered _ => true | _ => false end) as Hst.
  { by intros ? <-. }
  assert (∀ p, ActorCell.phase c = p →
            ActorCell.is_terminated c = match p with
              Terminated _ | Unregistered _ => true | _ => false end) as Hte.
  { by intros ? <-. }
  destruct (ActorCell.phase c) eqn:Hph; specialize (Hst _ eq_refl); specialize (Hte _ eq_refl).
  - destruct (lifecycle_failure outcome); [by apply leave_move|].
    intros [= <- <-]. by constructor; [|rewrite Hst|rewrite Hte].
  - destruct (ActorCell.mailbox c) as [|[msg|] rest] eqn:Hmb.
    + intros [= <- <-]. by constructor.
    + intros [= <- <-]. by apply MoveHandle.
    + intros [= <- <-]. by apply (MoveLeave _ _ [StopEnvelope] rest); [|right|..].
  - destruct outcome as [[[]|]|].
    + intros [= <- <-]. by constructor; [|rewrite Hst|rewrite Hte].
    + by apply leave_move.
    + by apply failed_move.
    + by apply failed_move.
  - destruct (lifecycle_failure outcome); [by apply leave_move|].
    intros [= <- <-]. by constructor; [|rewrite Hst|rewrite Hte].
  - intros [= <- <-]. by constructor; [|rewrite Hst|rewrite Hte].
  - intros [= <- <-]. by constructor; [|rewrite Hst|].
  - intros [= <- <-]. by constructor.
Qed.

(** Nothing is lost between the mailbox and the two ways out of it. *)
Lemma move_messages c c' ev :
  cell_move c c' ev →
  told ev = [] ∧ users (ActorCell.mailbox c) = taken ev ++ users (ActorCell.mailbox c').
Proof.
  destruct 1 as [-> _ _|msg -> _ _|before rest -> Hb -> _ _ _]; [done..|].
  split; [apply told_discards|]. rewrite taken_discards, users_app, app_nil_r.
  by destruct Hb as [-> | ->].
Qed.

(** The rest of the mailbox is a tail of what it was. *)
Lemma move_suffix c c' ev :
  cell_move c c' ev → ∃ before, ActorCell.mailbox c = before ++ ActorCell.mailbox c'.
Proof.
  destruct 1 as [-> _ _|msg -> _ _|before rest -> _ -> _ _ _]; [by exists []|by exists [User msg]|].
  eexists. by rewrite app_nil_r.
Qed.

Lemma move_stopping c c' ev :
  cell_move c c' ev → ActorCell.is_stopping c = true →
  ActorCell.is_stopping c' = true ∧ ev = [] ∧ ActorCell.mailbox c' = ActorCell.mailbox c.
Proof. destruct 1 as [? -> _|msg _ -> _|? ? _ _ _ -> _ _]; done. Qed.

Lemma move_running c c' ev :
  cell_move c c' ev → ActorCell.is_stopping c' = false →
  ActorCell.is_stopping c = false ∧ discarded ev = [].
Proof. destruct 1 as [? <- _|msg _ ? _|? ? _ _ _ _ -> _]; done. Qed.

Lemma move_terminated c c' ev :
  cell_move c c' ev → ActorCell.is_terminated c = true → ActorCell.is_terminated c' = true.
Proof.
  destruct 1 as [_ _ Ht|msg _ Hs _|? ? _ _ _ Hs _ _]; [done|..];
    intros Hc%is_stopping_terminated; congruence.
Qed.

(** A restart budget is never exceeded. *)
Definition within_budget c : Prop :=
  match ActorCell.supervision c with
  | SupervisionStrategy.RestartWithBackoff _ _ max_restarts =>
      (ActorCell.restart_count c ≤ max_restarts)%nat
  | _ => ActorCell.restart_count c = 0%nat
  end.

Lemma leave_budget c reason c' ev :
  within_budget c → ActorCell.leave c reason = (c', ev) → within_budget c'.
Proof. by intros ? [= <- <-]. Qed.

Lemma failed_budget c failure c' ev :
  within_budget c → ActorCell.failed c failure = (c', ev) → within_budget c'.
Proof.
  unfold ActorCell.failed. intros Hb.
  destruct (supervise_failure _ _ _) as [| |delay restarts] eqn:Hs.
  - by intros [= <- <-].
  - by apply leave_budget.
  - intros [= <- <-]. unfold within_budget, supervise_failure in *. simpl.
    destruct (ActorCell.supervision c); try done; [by inversion Hs; subst|].
    destruct (Nat.leb_spec max_restarts (ActorCell.restart_count c)); [done|].
    inversion Hs; subst. lia.
Qed.

Lemma step_budget c outcome c' ev :
  within_budget c → ActorCell.step c outcome = (c', ev) → within_budget c'.
Proof.
  intros Hb. unfold ActorCell.step.
  destruct (ActorCell.phase c); repeat case_match; try (by intros [= <- <-]);
    eauto using leave_budget, failed_budget.
Qed.
End cell_facts.

(** ** The invariant of the actor system *)

Section system_facts.
Context {M X : Type}.
Implicit Types (c : ActorCell.t M X) (self : ActorSystem.t M X) (h : list (Z * MessageEvent M)).

(** The events of the actors that [sel] selects. *)
Definition events_in (sel : Z → bool) h : list (MessageEvent M) :=
  omap (fun ue => if sel ue.1 then Some ue.2 else None) h.

Definition events_of (uid : Z) self : list (MessageEvent M) :=
  events_in (fun u => bool_decide (u = uid)) (ActorSystem.history self).

Lemma events_in_app sel h1 h2 : events_in sel (h1 ++ h2) = events_in sel h1 ++ events_in sel h2.
Proof. apply omap_app. Qed.

Lemma events_in_uid sel uid (ev : list (MessageEvent M)) :
  events_in sel (pair uid <$> ev) = if sel uid then ev else [].
Proof.
  induction ev as [|e ev IH]; [by destruct (sel uid)|]. csimpl. rewrite IH.
  by destruct (sel uid).
Qed.

(** The mailbox of each actor is bounded and first in, first out: what was told to the
    actor is what left the mailbox followed by what is in it; an actor that left its loop
    has an empty mailbox, and before that nothing is discarded. *)
Definition cell_ok self c : Prop :=
  let ev := events_of (ActorCell.uid c) self in
  told ev = taken ev ++ users (ActorCell.mailbox c) ∧
  (length (ActorCell.mailbox c) ≤ ActorCell.mailbox_capacity c)%nat ∧
  (ActorCell.is_stopping c = true → ActorCell.mailbox c = []) ∧
  (ActorCell.is_stopping c = false → discarded ev = []) ∧
  within_budget c.

Record system_wf self : Prop := {
  wf_cell : ∀ uid c, ActorSystem.cells self !! uid = Some c →
    ActorCell.uid c = uid ∧ uid < ActorSystem.next_actor_id self ∧ cell_ok self c;
  wf_fresh : ∀ uid, ActorSystem.cells self !! uid = None → events_of uid self = [];
  wf_live : ∀ path uid, ActorSystem.live_actors self !! path = Some uid →
    ∃ c, ActorSystem.cells self !! uid = Some c ∧ ActorPath.as_str (ActorCell.path c) = path;
}.

Lemma new_wf name : system_wf (ActorSystem.new name : ActorSystem.t M X).
Proof. constructor; [intros ??|done|intros ??]; simpl; by rewrite lookup_empty. Qed.

(** Replacing the cell of one actor, with the events that explain the change. *)
Lemma set_cell_wf self uid c c' letters ev :
  system_wf self → ActorSystem.cells self !! uid = Some c → same_actor_cell c c' →
  cell_ok (ActorSystem.set_cell self uid c' letters ev) c' →
  system_wf (ActorSystem.set_cell self uid c' letters ev).
Proof.
  intros [Hcell Hfresh Hlive] Hc (Hp & Hu & _ & _ & _) Hok.
  destruct (Hcell _ _ Hc) as (Hcu & Hlt & _).
  constructor; simpl.
  - intros uid' c1 Hc1. destruct (decide (uid' = uid)) as [-> |Hne].
    { rewrite lookup_insert_eq in Hc1. simplify_eq. split_and!; [congruence|done|done]. }
    rewrite lookup_insert_ne in Hc1 by done. destruct (Hcell _ _ Hc1) as (Hu1 & Hlt1 & Hok1).
    split_and!; [done..|]. unfold cell_ok, events_of in *. simpl.
    rewrite events_in_app, events_in_uid, bool_decide_false, app_nil_r by congruence. done.
  - intros uid' Hn. destruct (decide (uid' = uid)) as [-> |Hne].
    { by rewrite lookup_insert_eq in Hn. }
    rewrite lookup_insert_ne in Hn by done. unfold events_of in *. simpl.
    rewrite events_in_app, events_in_uid, bool_decide_false, app_nil_r by congruence. by apply Hfresh.
  - intros path uid' Hl. destruct (Hlive _ _ Hl) as (c1 & Hc1 & Hp1).
    destruct (decide (uid' = uid)) as [-> |Hne].
    + rewrite lookup_insert_eq. exists c'. simplify_eq. by rewrite Hp.
    + rewrite lookup_insert_ne by done. eauto.
Qed.

Lemma events_of_set_cell self uid c letters ev :
  ActorCell.uid c = uid →
  events_of (ActorCell.uid c) (ActorSystem.set_cell self uid c letters ev)
  = events_of uid self ++ ev.
Proof.
  intros <-. unfold events_of. simpl.
  by rewrite events_in_app, events_in_uid, bool_decide_true.
Qed.

Lemma unregister_wf self c : system_wf self → system_wf (ActorSystem.unregister_actor_cell self c).
Proof.
  intros [Hcell Hfresh Hlive]. constructor; simpl; [done|done|].
  intros path uid. case_decide; [|by apply Hlive]. intros [_ Hl]%lookup_delete_Some. by apply Hlive.
Qed.

Lemma actor_step_wf self s : system_wf self → system_wf (ActorSystem.actor_step self s).
Proof.
  destruct s as [uid outcome]. intros Hwf. unfold ActorSystem.actor_step.
  destruct (ActorSystem.cells self !! uid) as [c|] eqn:Hc; [|done].
  destruct (ActorCell.step c outcome) as [c' ev] eqn:Hs.
  pose proof (step_same _ _ _ _ Hs) as Hsame. pose proof (step_move _ _ _ _ Hs) as Hm.
  destruct (wf_cell _ Hwf _ _ Hc) as (Hcu & _ & Htold & Hcap & Hstop & Hrun & Hbud).
  enough (system_wf (ActorSystem.set_cell self uid c'
            ((fun _ => DeadLetter.mk (ActorCell.path c) LetterMailboxClosed) <$> discarded ev) ev))
    by (by case_match; [..|apply unregister_wf]).
  eapply set_cell_wf; [done..|]. destruct Hsame as (_ & Hu' & Hcap' & _ & _).
  unfold cell_ok. rewrite events_of_set_cell by congruence. rewrite Hcu in *.
  destruct (move_messages _ _ _ Hm) as [Ht Hus].
  rewrite told_app, taken_app, discarded_app, Ht, app_nil_r, Htold, Hus.
  split_and!.
  - by rewrite <-(assoc_L (++)).
  - rewrite Hcap'. destruct (move_suffix _ _ _ Hm) as [before Hb].
    rewrite Hb, length_app in Hcap. lia.
  - intros Hst'. destruct (ActorCell.is_stopping c) eqn:Hst.
    + destruct (move_stopping _ _ _ Hm Hst) as (_ & _ & ->). auto.
    + destruct Hm as [_ Hsame _|msg _ _ ?|]; [congruence|congruence|done].
  - intros Hr. destruct (move_running _ _ _ Hm Hr) as [Hst ->]. by rewrite Hrun.
  - by eapply step_budget.
Qed.

Lemma set_schedule_wf self schedule : system_wf self → system_wf (ActorSystem.set_schedule self schedule).
Proof. intros [Hcell Hfresh Hlive]. by constructor. Qed.

Lemma interleave_wf : act_spec (S := ActorSystem.t M X) system_wf ActorSystem.interleave (fun _ => system_wf).
Proof.
  intros self self' [] Hwf. unfold ActorSystem.interleave.
  destruct (ActorSystem.schedule self) as [|batch rest]; intros [= <-]; [done|].
  apply set_schedule_wf with (schedule := rest) in Hwf.
  revert Hwf. generalize (ActorSystem.set_schedule self rest).
  induction batch as [|s batch IH]; simpl; [done|]. intros self' Hwf. by apply IH, actor_step_wf.
Qed.

Lemma push_wf self c envelope letters :
  system_wf self → ActorSystem.cells self !! ActorCell.uid c = Some c →
  ActorCell.is_stopping c = false → ActorSystem.has_room c = true →
  system_wf (ActorSystem.set_cell self (ActorCell.uid c) (ActorCell.push c envelope) letters
               (Told <$> users [envelope])).
Proof.
  intros Hwf Hc Hrun Hroom. eapply set_cell_wf; [done..|].
  destruct (wf_cell _ Hwf _ _ Hc) as (_ & _ & Htold & Hcap & _ & Hdisc & Hbud).
  unfold cell_ok. rewrite events_of_set_cell by done. change (ActorCell.mailbox (ActorCell.push c envelope))
    with (ActorCell.mailbox c ++ [envelope]).
  rewrite told_app, taken_app, discarded_app, users_app, Htold, length_app.
  apply Nat.ltb_lt in Hroom.
  split_and!; [|simpl; lia| |intros _; rewrite Hdisc by done; by destruct envelope|done].
  - destruct envelope; simpl; by rewrite !app_nil_r, ?(assoc_L (++)).
  - unfold ActorCell.is_stopping in *. simpl. congruence.
Qed.

(** An operation on the system keeps [P] if it does once the tasks have run. *)
Lemma act_spec_interleave {A} (P : ActorSystem.t M X → Prop) (k : act (ActorSystem.t M X) A) Q :
  act_spec P ActorSystem.interleave (fun _ => P) → act_spec P k Q →
  act_spec P (act_bind ActorSystem.interleave (fun _ => k)) Q.
Proof. intros Hi Hk. eapply act_spec_bind; [exact Hi|done]. Qed.

Lemma add_letter_wf self letter : system_wf self → system_wf (ActorSystem.add_letter self letter).
Proof. intros [Hcell Hfresh Hlive]. by constructor. Qed.

Lemma tell_wf r (msg : M) : act_spec (S := ActorSystem.t M X) system_wf (ActorSystem.tell r msg) (fun _ => system_wf).
Proof.
  apply act_spec_interleave; [apply interleave_wf|]. intros self self' o Hwf.
  destruct (ActorSystem.cells self !! ActorRef.uid r) as [c|] eqn:Hc;
    [|intros [= <- <-]; by apply add_letter_wf].
  destruct (ActorCell.is_terminated c || _) eqn:Hst; [intros [= <- <-]; by apply add_letter_wf|].
  apply orb_false_iff in Hst as [_ Hst].
  destruct (ActorSystem.has_room c) eqn:Hroom; intros [= <- <-]; [|by apply add_letter_wf].
  destruct (wf_cell _ Hwf _ _ Hc) as [Hu _]. rewrite <-Hu in *.
  by apply (push_wf self c (User msg) []).
Qed.

Lemma stop_wf r : act_spec (S := ActorSystem.t M X) system_wf (ActorSystem.stop r) (fun _ => system_wf).
Proof.
  apply act_spec_interleave; [apply interleave_wf|]. intros self self' o Hwf.
  destruct (ActorSystem.cells self !! ActorRef.uid r) as [c|] eqn:Hc; [|by intros [= <- <-]].
  destruct (ActorCell.is_terminated c || _) eqn:Hst; [by intros [= <- <-]|].
  apply orb_false_iff in Hst as [_ Hst].
  destruct (ActorSystem.has_room c) eqn:Hroom; intros [= <- <-]; [|done].
  destruct (wf_cell _ Hwf _ _ Hc) as [Hu _]. rewrite <-Hu in *.
  by apply (push_wf self c StopEnvelope []).
Qed.

Definition bump self : ActorSystem.t M X :=
  ActorSystem.mk (ActorSystem.name self) (ActorSystem.next_actor_id self + 1)
    (ActorSystem.live_actors self) (ActorSystem.cells self) (ActorSystem.terminating self)
    (ActorSystem.dead_letters self) (ActorSystem.schedule self) (ActorSystem.history self).

Lemma bump_wf self : system_wf self → system_wf (bump self).
Proof.
  intros [Hcell Hfresh Hlive]. constructor; [|done|done]. simpl. intros uid c Hc.
  destruct (Hcell _ _ Hc) as (? & ? & ?). split_and!; [done|lia|done].
Qed.

(** What a spawn that succeeds does, after the tasks have run. *)
Definition spawned self actor_name (origin : X) options : ActorSystem.t M X :=
  let uid := ActorSystem.next_actor_id self in
  let path := ActorPath.user (ActorSystem.name self) actor_name in
  ActorSystem.mk (ActorSystem.name self) (uid + 1)
    (<[ActorPath.as_str path := uid]> (ActorSystem.live_actors self))
    (<[uid := ActorCell.new path uid origin options]> (ActorSystem.cells self))
    (ActorSystem.terminating self) (ActorSystem.dead_letters self) (ActorSystem.schedule self)
    (ActorSystem.history self).

(** The outcomes of a spawn. *)
Lemma spawn_cases actor_name (origin : X) options self self' res :
  ActorSystem.spawn_actor_with_options actor_name origin options self = (self', res) →
  ∃ self1, ActorSystem.interleave self = (self1, tt) ∧
  ((self' = self1 ∧ ∃ e, res = Err e ∧
      (ActorOptions.mailbox_capacity options = 0%nat ∨ validate_actor_path_segment actor_name = Err e)) ∨
   (self' = bump self1 ∧ ∃ e, res = Err e ∧
      (ActorSystem.terminating self1 = true ∨
       ActorSystem.path_in_use self1 (ActorPath.user (ActorSystem.name self1) actor_name) = true)) ∨
   (ActorOptions.mailbox_capacity options ≠ 0%nat ∧
    ActorSystem.path_in_use self1 (ActorPath.user (ActorSystem.name self1) actor_name) = false ∧
    self' = spawned self1 actor_name origin options ∧
    res = Ok (ActorRef.mk (ActorPath.user (ActorSystem.name self1) actor_name)
                (ActorSystem.next_actor_id self1)))).
Proof.
  intros (self1 & [] & Hi & H)%act_bind_inv. exists self1. split; [done|].
  case_decide; [by simplify_eq; eauto 10|].
  unfold ActorSystem.next_user_identity in H.
  destruct (validate_actor_path_segment actor_name) eqn:Hv; [|by simplify_eq; eauto 10].
  unfold ActorSystem.register_actor_cell in H. simpl in H.
  destruct (ActorSystem.terminating self1) eqn:Ht; [simplify_eq; right; left; unfold bump; rewrite Ht; by eauto|].
  unfold ActorSystem.path_in_use in H. simpl in H. unfold ActorSystem.path_in_use. simpl.
  destruct (match _ with Some _ => _ | None => false end) eqn:Hp.
  - simplify_eq. right. left. unfold bump. rewrite Ht. by eauto.
  - simplify_eq. right. right. unfold spawned. by rewrite Ht.
Qed.

Lemma spawned_wf self actor_name origin options :
  system_wf self → system_wf (spawned self actor_name origin options).
Proof.
  intros [Hcell Hfresh Hlive]. set (uid := ActorSystem.next_actor_id self).
  assert (ActorSystem.cells self !! uid = None) as Hn.
  { apply eq_None_not_Some. intros [c Hc]. destruct (Hcell _ _ Hc) as (_ & ? & _). unfold uid in *. lia. }
  constructor; simpl; fold uid.
  - intros u c Hc. destruct (decide (u = uid)) as [-> |Hne].
    + rewrite lookup_insert_eq in Hc. simplify_eq. simpl. split_and!; [done|lia|].
      unfold cell_ok. unfold events_of in *. simpl. rewrite (Hfresh _ Hn). simpl.
      split_and!; [done|lia|done|done|]. unfold within_budget. simpl. case_match; lia.
    + rewrite lookup_insert_ne in Hc by done. destruct (Hcell _ _ Hc) as (? & ? & ?).
      split_and!; [done|lia|done].
  - intros u [? _]%lookup_insert_None. by apply Hfresh.
  - intros path u [[<- <-]|[Hne Hl]]%lookup_insert_Some.
    + rewrite lookup_insert_eq. eauto.
    + destruct (Hlive _ _ Hl) as (c & Hc & Hp). exists c. split; [|done].
      rewrite lookup_insert_ne; [done|]. intros ->. congruence.
Qed.

Lemma spawn_wf actor_name (origin : X) options :
  act_spec system_wf (ActorSystem.spawn_actor_with_options actor_name origin options) (fun _ => system_wf).
Proof.
  intros self self' res Hwf (self1 & Hi & [[-> _]|[[-> _]|(_ & _ & -> & _)]])%spawn_cases;
    apply (interleave_wf _ _ _ Hwf) in Hi; [done|by apply bump_wf|by apply spawned_wf].
Qed.
End system_facts.

(** ** Runs of the actor system *)

Inductive SystemOp (M X : Type) :=
| OpTell (r : ActorRef.t) (msg : M)
| OpStop (r : ActorRef.t)
| OpSpawn (actor_name : string) (origin : X) (options : ActorOptions.t)
| OpTerminating.
Arguments OpTell {M X} r msg.
Arguments OpStop {M X} r.
Arguments OpSpawn {M X} actor_name origin options.
Arguments OpTerminating {M X}.

Section system_runs.
Context {M X : Type}.
Implicit Types self : ActorSystem.t M X.

(** One operation, with the steps the tasks take before it. *)
Definition system_op self (e : list (list (Z * HandlerOutcome)) * SystemOp M X) : ActorSystem.t M X :=
  let self := ActorSystem.set_schedule self e.1 in
  match e.2 with
  | OpTell r msg => (ActorSystem.tell r msg self).1
  | OpStop r => (ActorSystem.stop r self).1
  | OpSpawn actor_name origin options =>
      (ActorSystem.spawn_actor_with_options actor_name origin options self).1
  | OpTerminating => ActorSystem.set_terminating self
  end.

Definition system_run self (events : list (list (list (Z * HandlerOutcome)) * SystemOp M X)) :
    ActorSystem.t M X :=
  foldl system_op self events.

Lemma system_op_wf self e : system_wf self → system_wf (system_op self e).
Proof.
  intros Hwf%(set_schedule_wf _ e.1). unfold system_op. destruct e.2.
  - by eapply tell_wf, surjective_pairing.
  - by eapply stop_wf, surjective_pairing.
  - by eapply spawn_wf, surjective_pairing.
  - destruct Hwf as [Hcell Hfresh Hlive]. by constructor.
Qed.

Lemma system_run_wf events self : system_wf self → system_wf (system_run self events).
Proof.
  revert self. induction events as [|e events IH]; simpl; [done|].
  intros self Hwf. by apply IH, system_op_wf.
Qed.

(** Mailboxes.  After any sequence of tells, stops and spawns, interleaved in any way
    with the tasks of the actors and whatever their handlers answer: the messages told to
    an actor are, in order, those handed to its handler, those drained when it left its
    loop, and those still queued; the queue stays within its capacity; while the actor
    runs nothing is drained, and once it has left its loop nothing is queued; and a
    restart budget is never exceeded. *)
Theorem mailbox_first_in_first_out name events uid (c : ActorCell.t M X) :
  let self := system_run (ActorSystem.new name) events in
  let ev := events_of uid self in
  ActorSystem.cells self !! uid = Some c →
  told ev = taken ev ++ users (ActorCell.mailbox c) ∧
  (length (ActorCell.mailbox c) ≤ ActorCell.mailbox_capacity c)%nat ∧
  (ActorCell.is_stopping c = false → discarded ev = []) ∧
  (ActorCell.is_stopping c = true → ActorCell.mailbox c = []) ∧
  match ActorCell.supervision c with
  | SupervisionStrategy.RestartWithBackoff _ _ max_restarts =>
      (ActorCell.restart_count c ≤ max_restarts)%nat
  | _ => ActorCell.restart_count c = 0%nat
  end.
Proof.
  intros self ev Hc. assert (system_wf self) as Hwf by apply system_run_wf, new_wf.
  destruct (wf_cell _ Hwf _ _ Hc) as (Hu & _ & Htold & Hcap & Hstop & Hrun & Hbud).
  rewrite Hu in *. split_and!; done.
Qed.
End system_runs.

(** An actor takes a message, fails on it, is restarted, takes the next one and stops with
    the third still queued. *)
Definition demo_ref : ActorRef.t := ActorRef.mk (ActorPath.user "sys" "a") 1.
Definition goes_on : HandlerOutcome := Ok (Ok Continue).
Definition demo_run : list (list (list (Z * HandlerOutcome)) * SystemOp Z unit) :=
  [([], OpSpawn "a" tt (ActorOptions.mk 2 (SupervisionStrategy.RestartWithBackoff 10 100 1)));
   ([[(1, goes_on)]], OpTell demo_ref 7);
   ([[(1, goes_on); (1, Err ActorFailure.Panic); (1, goes_on)]], OpTell demo_ref 8);
   ([], OpTell demo_ref 9);
   ([[(1, goes_on); (1, Ok (Ok Stop))]], OpTell demo_ref 10)].

Lemma mailbox_first_in_first_out_witness :
  ∃ c, ActorSystem.cells (system_run (ActorSystem.new "sys") demo_run) !! 1 = Some c ∧
    told (events_of 1 (system_run (ActorSystem.new "sys") demo_run)) = [7; 8; 9] ∧
    discarded (events_of 1 (system_run (ActorSystem.new "sys") demo_run)) = [9] ∧
    ActorCell.restart_count c = 1%nat ∧
    (length (ActorCell.mailbox c) ≤ ActorCell.mailbox_capacity c)%nat.
Proof.
  eexists. split; [vm_compute; reflexivity|]. split; [vm_compute; reflexivity|].
  split; [vm_compute; reflexivity|]. split; [reflexivity|].
  apply (mailbox_first_in_first_out "sys" demo_run 1 _). vm_compute. reflexivity.
Defined.
