(* ===== verification/Shutdown.v ===== *)
(** * Coordinated shutdown, the registry: [rakka-core/src/coordinated_shutdown.rs]

    Phases with their dependencies, tasks registered in phases, and the deterministic
    dependency order in which they will run. *)

From Stdlib Require Import Ascii.
From S2P Require Import Prelude Core.

(** ** Names *)

Definition validate_shutdown_name (kind name : string) : RakkaResult string :=
  if str_is_empty name || is_padded name then
    Err (RakkaError.core "invalid-shutdown-name"
           ("coordinated shutdown " +:+ kind +:+ " name must not be empty or padded"))
  else if all_chars (fun ch => is_ascii_alphanumeric ch ||
                       bool_decide (ch = "-"%char ∨ ch = "_"%char ∨ ch = "."%char)) name
  then Ok name
  else
    Err (RakkaError.core "invalid-shutdown-name"
           ("coordinated shutdown " +:+ kind +:+ " name '" +:+ name +:+
            "' must use ASCII letters, digits, '-', '_', or '.'")).

Module ShutdownPhase.

Record t := trusted { name : string }.

#[global] Instance eq_dec : EqDecision t.
Proof. solve_decision. Defined.

Definition new (name : string) : RakkaResult t :=
  let? name := validate_shutdown_name "phase" name in Ok (trusted name).

Definition stop_ingress : t := trusted "stop-ingress".
Definition drain_adapters : t := trusted "drain-http-grpc-and-streams".
Definition leave_cluster : t := trusted "leave-cluster".
Definition handoff_shards : t := trusted "handoff-shards".
Definition stop_process_actors : t := trusted "stop-process-actors".
Definition flush_persistence : t := trusted "flush-persistence".
Definition stop_user_actors : t := trusted "stop-user-actors".
Definition stop_system_actors : t := trusted "stop-system-actors".
Definition stop_remoting : t := trusted "stop-remoting".

End ShutdownPhase.

Definition BUILT_IN_PHASES : list string :=
  [ "stop-ingress"; "drain-http-grpc-and-streams"; "leave-cluster"; "handoff-shards";
    "stop-process-actors"; "flush-persistence"; "stop-user-actors"; "stop-system-actors";
    "stop-remoting" ].

Module CoordinatedShutdownReason.

Record t := trusted { code : string }.

#[global] Instance eq_dec : EqDecision t.
Proof. solve_decision. Defined.

Definition new (code : string) : RakkaResult t :=
  let? code := validate_shutdown_name "reason" code in Ok (trusted code).

Definition actor_system_terminate : t := trusted "actor-system-terminate".
Definition kubernetes_prestop : t := trusted "kubernetes-prestop".
Definition user_request : t := trusted "user-request".

End CoordinatedShutdownReason.

(** ** Settings and tasks *)

Inductive ShutdownFailurePolicy := FailFast | Continue.

#[global] Instance ShutdownFailurePolicy_eq_dec : EqDecision ShutdownFailurePolicy.
Proof. solve_decision. Defined.

Module CoordinatedShutdownSettings.

Record t := mk {
  default_phase_timeout : option Z;
  default_task_timeout : option Z;
  failure_policy : ShutdownFailurePolicy;
}.

#[global] Instance eq_dec : EqDecision t.
Proof. solve_decision. Defined.

Definition new : t := mk None None FailFast.

Definition with_default_phase_timeout (self : t) (timeout : Z) : t :=
  mk (Some timeout) (default_task_timeout self) (failure_policy self).

Definition with_default_task_timeout (self : t) (timeout : Z) : t :=
  mk (default_phase_timeout self) (Some timeout) (failure_policy self).

Definition with_failure_policy (self : t) (policy : ShutdownFailurePolicy) : t :=
  mk (default_phase_timeout self) (default_task_timeout self) policy.

End CoordinatedShutdownSettings.

Module ShutdownTaskAttribute.

Record t := mk { key : string; value : string }.

#[global] Instance eq_dec : EqDecision t.
Proof. solve_decision. Defined.

Definition new (key value : string) : RakkaResult t :=
  let? key := validate_shutdown_name "task attribute key" key in Ok (mk key value).

End ShutdownTaskAttribute.

Module ShutdownTaskOptions.

Record t := mk {
  timeout : option Z;
  failure_policy : option ShutdownFailurePolicy;
  attributes : list ShutdownTaskAttribute.t;
}.

#[global] Instance eq_dec : EqDecision t.
Proof. solve_decision. Defined.

Definition new : t := mk None None [].

Definition with_timeout (self : t) (timeout : Z) : t :=
  mk (Some timeout) (failure_policy self) (attributes self).

Definition with_failure_policy (self : t) (policy : ShutdownFailurePolicy) : t :=
  mk (timeout self) (Some policy) (attributes self).

Definition with_attribute (self : t) (key value : string) : RakkaResult t :=
  let? attribute := ShutdownTaskAttribute.new key value in
  Ok (mk (timeout self) (failure_policy self) (attributes self ++ [attribute])).

End ShutdownTaskOptions.

Module ShutdownTask.

Record t := mk { phase : ShutdownPhase.t; name : string; options : ShutdownTaskOptions.t }.

#[global] Instance eq_dec : EqDecision t.
Proof. solve_decision. Defined.

Definition new (phase : ShutdownPhase.t) (name : string) (options : ShutdownTaskOptions.t) :
    RakkaResult t :=
  let? name := validate_shutdown_name "task" name in Ok (mk phase name options).

End ShutdownTask.

(** A registered task: its descriptor and the function that starts it, of an arbitrary
    type [R] here. *)
Module ShutdownTaskEntry.

Record t {R : Type} := mk { descriptor : ShutdownTask.t; run : R }.
Arguments t : clear implicits.

End ShutdownTaskEntry.

Module PhaseNode.

Record t := mk { phase : ShutdownPhase.t; depends_on : gset string }.

Definition set_depends_on (self : t) (depends_on : gset string) : t :=
  mk (phase self) depends_on.

End PhaseNode.

(** [BTreeSet::pop_first]: the smallest element. *)
Definition first_of (s : gset string) : option string := head (merge_sort key_le (elements s)).

Definition unknown_phase_error (phase : string) : RakkaError.t :=
  RakkaError.core "unknown-shutdown-phase"
    ("coordinated shutdown phase '" +:+ phase +:+ "' is not registered").

Definition phase_cycle_error : RakkaError.t :=
  RakkaError.core "shutdown-phase-cycle" "coordinated shutdown phases contain a dependency cycle".

(** ** The dependency order

    The loop of [ordered_phase_names]: take the smallest ready phase, drop it from the
    dependencies of the others, and add the phases that became ready.  Each turn removes
    a phase from [remaining], so as many turns as there are phases are enough; [None]
    would be a loop that still runs then. *)
Section order.
Implicit Types remaining : gmap string (gset string).

Definition ready_names remaining : gset string :=
  dom (filter (fun kd => kd.2 = ∅) remaining).

Definition drop_dependency (name : string) remaining : gmap string (gset string) :=
  (fun dependencies => dependencies ∖ {[name]}) <$> remaining.

Fixpoint order_loop (fuel : nat) remaining (ready : gset string) (ordered : list string) :
    option (list string) :=
  match first_of ready with
  | None => Some ordered
  | Some name =>
      match fuel with
      | O => None
      | S fuel =>
          let remaining := drop_dependency name (delete name remaining) in
          order_loop fuel remaining (ready ∖ {[name]} ∪ ready_names remaining) (ordered ++ [name])
      end
  end.
End order.

(** ** The registry

    The handle of the watch channel and the progress cell belong to the runner, whose
    state [RS] is opaque here: the registry only asks whether it has started. *)
Module ShutdownRegistry.
Section registry.
Context {R RS : Type} (not_started : RS → bool).

Record t := mk {
  settings : CoordinatedShutdownSettings.t;
  phases : gmap string PhaseNode.t;
  tasks : gmap string (gmap string (ShutdownTaskEntry.t R));
  run_state : RS;
}.

Definition built_in_node (index : nat) (name : string) : string * PhaseNode.t :=
  (name, PhaseNode.mk (ShutdownPhase.trusted name)
           (match index with
            | O => ∅
            | S previous => match BUILT_IN_PHASES !! previous with
                            | Some previous => {[previous]}
                            | None => ∅
                            end
            end)).

Definition new (settings : CoordinatedShutdownSettings.t) (initial : RS) : t :=
  mk settings (list_to_map (imap built_in_node BUILT_IN_PHASES)) ∅ initial.

Definition set_phases (self : t) (phases : gmap string PhaseNode.t) : t :=
  mk (settings self) phases (tasks self) (run_state self).

Definition set_tasks (self : t) (tasks : gmap string (gmap string (ShutdownTaskEntry.t R))) : t :=
  mk (settings self) (phases self) tasks (run_state self).

Definition set_run_state (self : t) (run_state : RS) : t :=
  mk (settings self) (phases self) (tasks self) run_state.

Definition ensure_not_started (self : t) : RakkaResult unit :=
  if not_started (run_state self) then Ok tt
  else Err (RakkaError.core "shutdown-already-started"
              "cannot modify coordinated shutdown after it has started").

Definition ensure_phase_exists (self : t) (phase : ShutdownPhase.t) : RakkaResult unit :=
  if decide (is_Some (phases self !! ShutdownPhase.name phase)) then Ok tt
  else Err (unknown_phase_error (ShutdownPhase.name phase)).

Definition ensure_phase_absent (self : t) (phase : ShutdownPhase.t) : RakkaResult unit :=
  if decide (is_Some (phases self !! ShutdownPhase.name phase)) then
    Err (RakkaError.core "duplicate-shutdown-phase"
           ("coordinated shutdown phase '" +:+ ShutdownPhase.name phase +:+
            "' is already registered"))
  else Ok tt.

(** The first dependency, in the order of phases and of names, that is no phase. *)
Definition unknown_dependency (self : t) : option string :=
  find_first (fun dependency => negb (bool_decide (is_Some (phases self !! dependency))))
    (mjoin ((fun node => merge_sort key_le (elements (PhaseNode.depends_on node)))
             <$> btree_values (phases self))).

Definition ordered_phase_names (self : t) : RakkaResult (list string) :=
  match unknown_dependency self with
  | Some dependency => Err (unknown_phase_error dependency)
  | None =>
      let remaining := PhaseNode.depends_on <$> phases self in
      match order_loop (size (phases self)) remaining (ready_names remaining) [] with
      | Some ordered =>
          if decide (length ordered ≠ size (phases self)) then Err phase_cycle_error
          else Ok ordered
      | None => Err phase_cycle_error
      end
  end.

(** [expect]: the order names only known phases ([ordered_phase_names_sound]). *)
Definition phase_of (self : t) (name : string) : ShutdownPhase.t :=
  match phases self !! name with
  | Some node => PhaseNode.phase node
  | None => ShutdownPhase.trusted name
  end.

Definition ordered_phases (self : t) : RakkaResult (list ShutdownPhase.t) :=
  let? names := ordered_phase_names self in Ok (phase_of self <$> names).

Definition add_phase_after (self : t) (name : string) (after : ShutdownPhase.t) :
    t * RakkaResult ShutdownPhase.t :=
  match (let? _ := ensure_not_started self in
         let? _ := ensure_phase_exists self after in
         let? phase := ShutdownPhase.new name in
         let? _ := ensure_phase_absent self phase in
         Ok phase) with
  | Err e => (self, Err e)
  | Ok phase =>
      (set_phases self (<[ShutdownPhase.name phase :=
         PhaseNode.mk phase {[ShutdownPhase.name after]}]> (phases self)), Ok phase)
  end.

Definition add_dependency (phases : gmap string PhaseNode.t) (phase depends_on : string) :
    gmap string PhaseNode.t :=
  alter (fun node => PhaseNode.set_depends_on node
                       ({[depends_on]} ∪ PhaseNode.depends_on node)) phase phases.

Definition remove_dependency (phases : gmap string PhaseNode.t) (phase depends_on : string) :
    gmap string PhaseNode.t :=
  alter (fun node => PhaseNode.set_depends_on node
                       (PhaseNode.depends_on node ∖ {[depends_on]})) phase phases.

Definition add_phase_before (self : t) (name : string) (before : ShutdownPhase.t) :
    t * RakkaResult ShutdownPhase.t :=
  match (let? _ := ensure_not_started self in
         let? _ := ensure_phase_exists self before in
         let? phase := ShutdownPhase.new name in
         let? _ := ensure_phase_absent self phase in
         Ok phase) with
  | Err e => (self, Err e)
  | Ok phase =>
      (set_phases self
         (add_dependency (<[ShutdownPhase.name phase := PhaseNode.mk phase ∅]> (phases self))
            (ShutdownPhase.name before) (ShutdownPhase.name phase)), Ok phase)
  end.

Definition has_dependency (self : t) (phase depends_on : string) : bool :=
  match phases self !! phase with
  | Some node => bool_decide (depends_on ∈ PhaseNode.depends_on node)
  | None => false
  end.

Definition add_phase_dependency (self : t) (phase depends_on : ShutdownPhase.t) :
    t * RakkaResult unit :=
  match (let? _ := ensure_not_started self in
         let? _ := ensure_phase_exists self phase in
         ensure_phase_exists self depends_on) with
  | Err e => (self, Err e)
  | Ok _ =>
      let phase := ShutdownPhase.name phase in
      let depends_on := ShutdownPhase.name depends_on in
      let inserted := negb (has_dependency self phase depends_on) in
      let self := set_phases self (add_dependency (phases self) phase depends_on) in
      match ordered_phase_names self with
      | Err error =>
          ((if inserted then set_phases self (remove_dependency (phases self) phase depends_on)
            else self), Err error)
      | Ok _ => (self, Ok tt)
      end
  end.

Definition duplicate_task_error (task phase : string) : RakkaError.t :=
  RakkaError.core "duplicate-shutdown-task"
    ("coordinated shutdown task '" +:+ task +:+ "' is already registered in phase '" +:+
     phase +:+ "'").

(** [entry(..).or_default()] leaves an empty map of tasks behind also for a duplicate;
    only a phase that has tasks can have one. *)
Definition add_task (self : t) (phase : ShutdownPhase.t) (name : string)
    (options : ShutdownTaskOptions.t) (run : R) : t * RakkaResult ShutdownTask.t :=
  match (let? _ := ensure_not_started self in
         let? _ := ensure_phase_exists self phase in
         ShutdownTask.new phase name options) with
  | Err e => (self, Err e)
  | Ok descriptor =>
      let phase_tasks := default ∅ (tasks self !! ShutdownPhase.name phase) in
      let name := ShutdownTask.name descriptor in
      if decide (is_Some (phase_tasks !! name)) then
        (set_tasks self (<[ShutdownPhase.name phase := phase_tasks]> (tasks self)),
         Err (duplicate_task_error name (ShutdownPhase.name phase)))
      else
        (set_tasks self (<[ShutdownPhase.name phase :=
           <[name := ShutdownTaskEntry.mk R descriptor run]> phase_tasks]> (tasks self)),
         Ok descriptor)
  end.

Definition phase_entries (self : t) (phase : string) : list (ShutdownTaskEntry.t R) :=
  match tasks self !! phase with
  | Some phase_tasks => btree_values phase_tasks
  | None => []
  end.

Definition ordered_tasks (self : t) : RakkaResult (list ShutdownTask.t) :=
  let? names := ordered_phase_names self in
  Ok (mjoin ((fun phase => ShutdownTaskEntry.descriptor <$> phase_entries self phase) <$> names)).

Definition tasks_for_phase (self : t) (phase : ShutdownPhase.t) : RakkaResult (list ShutdownTask.t) :=
  let? _ := ensure_phase_exists self phase in
  Ok (ShutdownTaskEntry.descriptor <$> phase_entries self (ShutdownPhase.name phase)).

Definition task_count (self : t) : nat :=
  sum_list ((fun phase_tasks => size phase_tasks) <$> btree_values (tasks self)).

(** ** Runs of the registration interface *)

Inductive registration :=
| AddPhaseAfter (name : string) (after : ShutdownPhase.t)
| AddPhaseBefore (name : string) (before : ShutdownPhase.t)
| AddPhaseDependency (phase depends_on : ShutdownPhase.t)
| AddTask (phase : ShutdownPhase.t) (name : string) (options : ShutdownTaskOptions.t) (run : R).

Definition register (self : t) (op : registration) : t :=
  match op with
  | AddPhaseAfter name after => (add_phase_after self name after).1
  | AddPhaseBefore name before => (add_phase_before self name before).1
  | AddPhaseDependency phase depends_on => (add_phase_dependency self phase depends_on).1
  | AddTask phase name options run => (add_task self phase name options run).1
  end.

Definition register_all (self : t) (ops : list registration) : t := foldl register self ops.
End registry.
Arguments t : clear implicits.
Arguments registration : clear implicits.
End ShutdownRegistry.

(** ** The order is topological *)

Lemma first_of_Some s x : first_of s = Some x → x ∈ s.
Proof.
  unfold first_of. intros Hh. apply elem_of_elements.
  rewrite <-(merge_sort_Permutation key_le (elements s)).
  destruct (merge_sort key_le (elements s)); [done|]. injection Hh as ->. by left.
Qed.

Lemma first_of_None s : first_of s = None → s = ∅.
Proof.
  unfold first_of. intros Hh. apply leibniz_equiv, elements_empty_inv, Permutation_nil_r.
  rewrite <-(merge_sort_Permutation key_le (elements s)).
  by destruct (merge_sort key_le (elements s)).
Qed.

Section order_correct.
Context (deps : gmap string (gset string)).

(** [x] depends on [y]. *)
Definition depends (x y : string) : Prop := ∃ ds, deps !! x = Some ds ∧ y ∈ ds.

Definition closed : Prop := ∀ x y, depends x y → is_Some (deps !! y).
Definition acyclic : Prop := Irreflexive (tc depends).

(** Every element comes after all its dependencies, and none comes twice. *)
Inductive dependency_ordered : list string → Prop :=
| ordered_nil : dependency_ordered []
| ordered_snoc l x ds :
    dependency_ordered l → deps !! x = Some ds → x ∉ l → ds ⊆ list_to_set l →
    dependency_ordered (l ++ [x]).

(** What the loop keeps is determined by the phases it has put in order. *)
Definition remaining_after (l : list string) : gmap string (gset string) :=
  (fun ds => ds ∖ list_to_set l) <$> filter (fun kd => kd.1 ∉ l) deps.

Lemma lookup_remaining_after l x ds :
  remaining_after l !! x = Some ds ↔
  ∃ ds0, deps !! x = Some ds0 ∧ (x ∉ l) ∧ ds = ds0 ∖ list_to_set l.
Proof.
  unfold remaining_after. rewrite lookup_fmap_Some. split.
  - intros (ds0 & <- & [H1 H2]%map_lookup_filter_Some). eauto.
  - intros (ds0 & H1 & H2 & ->). exists ds0. split; [done|]. by apply map_lookup_filter_Some.
Qed.

Lemma elem_of_ready_names_after l x :
  x ∈ ready_names (remaining_after l) ↔
  ∃ ds, deps !! x = Some ds ∧ (x ∉ l) ∧ ds ⊆ list_to_set l.
Proof.
  unfold ready_names. rewrite elem_of_dom. split.
  - intros [ds [H1 H2]%map_lookup_filter_Some]. simpl in H2. subst.
    apply lookup_remaining_after in H1 as (ds0 & ? & ? & He). exists ds0.
    split_and!; [done..|]. intros y Hy. apply dec_stable. clear -He Hy. set_solver.
  - intros (ds & ? & ? & Hs). exists ∅. apply map_lookup_filter_Some. split; [|done].
    apply lookup_remaining_after. exists ds. set_solver.
Qed.

Lemma remaining_after_nil : remaining_after [] = deps.
Proof.
  apply map_eq. intros x. apply option_eq. intros ds. rewrite lookup_remaining_after. split.
  - intros (ds0 & H & _ & ->). simpl. by rewrite difference_empty_L.
  - intros H. exists ds. simpl. rewrite difference_empty_L. split_and!; [done|set_solver|done].
Qed.

Lemma remaining_after_snoc l x :
  drop_dependency x (delete x (remaining_after l)) = remaining_after (l ++ [x]).
Proof.
  apply map_eq. intros y. apply option_eq. intros ds. unfold drop_dependency.
  rewrite lookup_fmap_Some, lookup_remaining_after. setoid_rewrite lookup_delete_Some.
  setoid_rewrite lookup_remaining_after. split.
  - intros (ds1 & <- & ? & ds0 & ? & ? & ->). exists ds0. split_and!; set_solver.
  - intros (ds0 & ? & Hn & ->). exists (ds0 ∖ list_to_set l). split_and!; [set_solver..|].
    exists ds0. set_solver.
Qed.

Lemma ready_after_snoc l x :
  ready_names (remaining_after l) ∖ {[x]} ∪ ready_names (remaining_after (l ++ [x])) =
  ready_names (remaining_after (l ++ [x])).
Proof.
  apply set_eq. intros y. rewrite elem_of_union, elem_of_difference.
  rewrite !elem_of_ready_names_after. split; [|by right].
  intros [[(ds & ? & ? & ?) ?]|?]; [|done]. exists ds. set_solver.
Qed.

Lemma dependency_ordered_NoDup l : dependency_ordered l → NoDup l.
Proof.
  induction 1 as [|l x ds Hl IH Hx Hn Hs]; [constructor|].
  apply NoDup_app. split_and!; [done| |apply NoDup_singleton]. set_solver.
Qed.

Lemma dependency_ordered_dom l : dependency_ordered l → ∀ x, x ∈ l → is_Some (deps !! x).
Proof. induction 1; set_solver. Qed.

Lemma dependency_ordered_length l : dependency_ordered l → (length l <= size deps)%nat.
Proof.
  intros Hl. rewrite <-size_dom, <-(size_list_to_set (C := gset string)).
  - apply subseteq_size. intros x Hx%elem_of_list_to_set.
    apply elem_of_dom. by apply (dependency_ordered_dom l).
  - by apply dependency_ordered_NoDup.
Qed.

(** The loop ends within its fuel, in an order that cannot be extended. *)
Lemma order_loop_ends fuel l :
  dependency_ordered l → (size deps <= fuel + length l)%nat →
  ∃ l', order_loop fuel (remaining_after l) (ready_names (remaining_after l)) l = Some l' ∧
        dependency_ordered l' ∧ ready_names (remaining_after l') = ∅.
Proof.
  revert l. induction fuel as [|fuel IH]; intros l Hl Hf; simpl;
    destruct (first_of (ready_names (remaining_after l))) as [x|] eqn:Hr;
    try (apply first_of_None in Hr; by exists l);
    apply first_of_Some in Hr; apply elem_of_ready_names_after in Hr as (ds & Hx & Hn & Hs);
    assert (dependency_ordered (l ++ [x])) as Hl' by (by econstructor).
  - apply dependency_ordered_length in Hl'. rewrite length_app in Hl'. simpl in *. lia.
  - rewrite remaining_after_snoc, ready_after_snoc. apply IH; [done|].
    rewrite length_app. simpl. lia.
Qed.

Lemma dependency_ordered_down l x y :
  dependency_ordered l → tc depends x y → x ∈ l → y ∈ l.
Proof.
  intros Hl. assert (∀ a b, depends a b → a ∈ l → b ∈ l) as Hstep.
  { intros a b (ds & Hds & Hb). induction Hl as [|l z ds' Hl IH Hz Hn Hs]; [set_solver|].
    intros [?| ->%list_elem_of_singleton]%elem_of_app; set_solver. }
  induction 1; eauto.
Qed.

(** A complete dependency order leaves no room for a cycle. *)
Lemma dependency_ordered_acyclic l :
  dependency_ordered l → (∀ x ds, deps !! x = Some ds → x ∈ l) → acyclic.
Proof.
  intros Hl Hall. cut (∀ x, x ∈ l → ¬ tc depends x x).
  { intros Hc x Hxx. apply (Hc x); [|done]. inversion Hxx as [? ? (?&?&?)|? ? ? (?&?&?)]; eauto. }
  clear Hall. induction Hl as [|l x ds Hl IH Hx Hn Hs]; [set_solver|].
  intros z [Hz| ->%list_elem_of_singleton]%elem_of_app; [by apply IH|].
  intros Hxx. apply Hn. assert (∀ y, depends x y → y ∈ l) as Hxl.
  { intros y (ds' & ? & Hy). simplify_eq. apply Hs in Hy. set_solver. }
  inversion Hxx as [a b Hab|a y b Hay Hyx]; subst; [by apply Hxl|].
  apply (dependency_ordered_down l y x); auto.
Qed.

Lemma acyclic_sn : closed → acyclic → ∀ x, sn depends x.
Proof.
  intros Hcl Hac x. apply tc_finite_sn; [done|]. exists (elements (dom deps)). intros y Hxy.
  apply elem_of_elements, elem_of_dom. clear -Hxy Hcl. induction Hxy; eauto.
Qed.

(** Whether a phase is reached can be decided. *)
Lemma reaches_or_not x y : closed → acyclic → rtc depends x y ∨ ¬ rtc depends x y.
Proof.
  intros Hcl Hac. induction (acyclic_sn Hcl Hac x) as [x _ IH]. simpl in IH.
  destruct (decide (x = y)) as [->|Hne]; [by left|].
  destruct (deps !! x) as [ds|] eqn:Hx.
  - assert (∀ l : list string, (∀ z, z ∈ l → z ∈ ds) →
      (∃ z, z ∈ l ∧ rtc depends z y) ∨ (∀ z, z ∈ l → ¬ rtc depends z y)) as Hl.
    { induction l as [|z l IHl]; intros Hsub; [right; set_solver|].
      destruct (IHl ltac:(set_solver)) as [(z' & ? & ?)|Hno]; [left; set_solver|].
      destruct (IH z) as [?|?]; [exists ds; set_solver|left; set_solver|right; set_solver]. }
    destruct (Hl (elements ds)) as [(z & ? & ?)|Hno]; [set_solver|left|right].
    + apply (rtc_l _ _ z); [exists ds; set_solver|done].
    + intros Hr. inversion Hr as [|? z ? (ds' & ? & ?)]; simplify_eq. apply (Hno z); set_solver.
  - right. intros Hr. inversion Hr as [|? z ? (ds' & ? & ?)]; simplify_eq.
Qed.

(** Without a cycle the loop puts every phase in order. *)
Lemma stuck_order_complete l :
  closed → acyclic → dependency_ordered l → ready_names (remaining_after l) = ∅ →
  ∀ x ds, deps !! x = Some ds → x ∈ l.
Proof.
  intros Hcl Hac Hl Hready.
  pose proof (acyclic_sn Hcl Hac) as Hsn.
  intros x. induction (Hsn x) as [x _ IH]. intros ds Hx.
  destruct (decide (x ∈ l)) as [|Hn]; [done|]. exfalso.
  assert (x ∈ ready_names (remaining_after l)) as Hin; [|rewrite Hready in Hin; set_solver].
  apply elem_of_ready_names_after. exists ds. split_and!; [done..|].
  intros y Hy. apply elem_of_list_to_set.
  assert (depends x y) as Hxy by (by exists ds).
  destruct (Hcl x y Hxy) as [dsy ?]. by apply (IH y Hxy dsy).
Qed.

Lemma complete_order_length l :
  dependency_ordered l → length l = size deps ↔ ∀ x ds, deps !! x = Some ds → x ∈ l.
Proof.
  intros Hl. pose proof (dependency_ordered_NoDup l Hl) as Hnd.
  assert (list_to_set l ⊆@{gset string} dom deps) as Hsub.
  { intros x Hx%elem_of_list_to_set. apply elem_of_dom. by apply (dependency_ordered_dom l). }
  rewrite <-size_dom, <-(size_list_to_set (C := gset string)) by done. split.
  - intros He x ds Hx. apply (elem_of_list_to_set (C := gset string)).
    rewrite (set_subseteq_size_eq (list_to_set l) (dom deps)); [|done|lia].
    apply elem_of_dom. by eexists.
  - intros Hall. f_equal. apply leibniz_equiv, (anti_symm (⊆)); [done|].
    intros x [ds Hx]%elem_of_dom. apply elem_of_list_to_set. eauto.
Qed.
End order_correct.

(** Adding an edge closes a cycle exactly when its end already reached its start. *)
Section edges.
Context {A : Type} (R R' : relation A) (p d : A).
Context (HR' : ∀ x y, R' x y ↔ R x y ∨ (x = p ∧ y = d)).

Lemma tc_add_edge x y : tc R' x y → tc R x y ∨ (rtc R x p ∧ rtc R d y).
Proof.
  induction 1 as [x y Hxy|x y z Hxy _ IH].
  - apply HR' in Hxy as [?|[-> ->]]; [by left; constructor|]. right. split; constructor.
  - apply HR' in Hxy as [Hxy|[-> ->]].
    + destruct IH as [?|[? ?]]; [left; by eapply tc_l|right; split; [by eapply rtc_l|done]].
    + right. split; [constructor|]. destruct IH as [?%tc_rtc|[_ ?]]; done.
Qed.

Lemma rtc_add_edge x y : rtc R x y → rtc R' x y.
Proof. apply rtc_subrel. intros ? ? ?. apply HR'. by left. Qed.

Lemma acyclic_add_edge : Irreflexive (tc R) → (Irreflexive (tc R') ↔ ¬ rtc R d p).
Proof.
  intros Hac. split.
  - intros Hac' Hdp%rtc_add_edge. apply (Hac' p).
    eapply tc_rtc_r; [|exact Hdp]. constructor. apply HR'. by right.
  - intros Hn x [?|[Hxp Hdx]]%tc_add_edge; [by apply (Hac x)|]. apply Hn. by trans x.
Qed.
End edges.

(** ** The registry keeps its shape *)

Section registry_correct.
Context {R RS : Type} (not_started : RS → bool).
Implicit Types r : ShutdownRegistry.t R RS.

Import ShutdownRegistry.

Definition deps_of r : gmap string (gset string) := PhaseNode.depends_on <$> phases r.

Record wf r : Prop := {
  wf_closed : closed (deps_of r);
  wf_acyclic : acyclic (deps_of r);
  wf_named x node : phases r !! x = Some node → PhaseNode.phase node = ShutdownPhase.trusted x;
  wf_tasks p ts : tasks r !! p = Some ts →
    is_Some (phases r !! p) ∧
    ∀ n e, ts !! n = Some e →
      ShutdownTask.phase (ShutdownTaskEntry.descriptor e) = ShutdownPhase.trusted p ∧
      ShutdownTask.name (ShutdownTaskEntry.descriptor e) = n;
  wf_built_in i x y :
    BUILT_IN_PHASES !! i = Some x → BUILT_IN_PHASES !! S i = Some y → depends (deps_of r) y x;
}.

Lemma unknown_dependency_closed r : closed (deps_of r) → unknown_dependency r = None.
Proof.
  intros Hcl. apply find_first_None. intros y Hy. apply list_elem_of_join in Hy as (l & Hy & Hl).
  apply list_elem_of_fmap in Hl as (node & -> & [x Hx]%elem_of_btree_values).
  rewrite merge_sort_Permutation, elem_of_elements in Hy.
  assert (is_Some (deps_of r !! y)) as Hs.
  { apply (Hcl x). exists (PhaseNode.depends_on node). unfold deps_of. by rewrite lookup_fmap, Hx. }
  unfold deps_of in Hs. rewrite lookup_fmap, fmap_is_Some in Hs. by rewrite bool_decide_eq_true_2.
Qed.

(** The order is total on a graph without cycles, and a cycle is reported as such. *)
Lemma ordered_phase_names_decides r :
  closed (deps_of r) →
  (∃ l, ordered_phase_names r = Ok l ∧ dependency_ordered (deps_of r) l ∧
        (∀ x, x ∈ l ↔ is_Some (phases r !! x)) ∧ acyclic (deps_of r)) ∨
  (ordered_phase_names r = Err phase_cycle_error ∧ ¬ acyclic (deps_of r)).
Proof.
  intros Hcl. unfold ordered_phase_names. rewrite unknown_dependency_closed by done.
  destruct (order_loop_ends (deps_of r) (size (phases r)) []) as (l & Hl & Ho & Hr).
  { constructor. }
  { unfold deps_of. rewrite map_size_fmap. simpl. lia. }
  rewrite remaining_after_nil in Hl. fold (deps_of r). rewrite Hl.
  pose proof (complete_order_length _ _ Ho) as Hlen.
  replace (size (phases r)) with (size (deps_of r)) by (unfold deps_of; apply map_size_fmap).
  destruct (decide (length l ≠ size (deps_of r))) as [Hne|He%dec_stable].
  - right. split; [done|]. intros Hac. apply Hne, Hlen. by apply stuck_order_complete.
  - left. exists l. pose proof (proj1 Hlen He) as Hall. split_and!; [done|done| |].
    + intros x. rewrite <-(fmap_is_Some PhaseNode.depends_on), <-lookup_fmap. fold (deps_of r). split.
      * by apply dependency_ordered_dom.
      * intros [ds ?]. eauto.
    + by apply (dependency_ordered_acyclic _ l).
Qed.

Lemma ordered_phase_names_sound r :
  wf r → ∃ l, ordered_phase_names r = Ok l ∧ dependency_ordered (deps_of r) l ∧
              ∀ x, x ∈ l ↔ is_Some (phases r !! x).
Proof.
  intros [Hcl Hac _ _ _]. destruct (ordered_phase_names_decides r Hcl) as [(l & ? & ? & ? & _)|[_ ?]];
    [eauto|done].
Qed.

Lemma dependency_ordered_prefix deps l1 y l2 :
  dependency_ordered deps (l1 ++ y :: l2) → dependency_ordered deps (l1 ++ [y]).
Proof.
  intros Hl. remember (l1 ++ y :: l2) as l eqn:He. revert l2 He.
  induction Hl as [|l x ds Hl IH Hx Hn Hs]; intros l2 He; [by destruct l1|].
  destruct l2 as [|z l2 _] using rev_ind.
  - apply app_inj_tail in He as [-> ->]. by econstructor.
  - rewrite app_comm_cons, app_assoc in He. apply app_inj_tail in He as [-> ->]. eauto.
Qed.

(** Consecutive phases of a chain of dependencies come in the order of the chain. *)
Lemma chain_sublist deps (chain : list string) l l' x :
  (∀ i a b, chain !! i = Some a → chain !! S i = Some b → depends deps b a) →
  last chain = Some x → dependency_ordered deps (l ++ [x]) → l' = l ++ [x] →
  chain `sublist_of` l'.
Proof.
  revert l l' x. induction chain as [|x' chain IH] using rev_ind; intros l l' x Hch; [done|].
  rewrite last_snoc. intros [= ->] Ho ->.
  apply sublist_app; [|done]. destruct (last chain) as [y|] eqn:Hy;
    [|by apply last_None in Hy as ->; apply sublist_nil_l].
  apply last_Some in Hy as [chain' ->].
  assert (depends deps x y) as (ds & Hds & Hyd).
  { apply (Hch (length chain')).
    - rewrite <-app_assoc, lookup_app_r, Nat.sub_diag by lia. done.
    - rewrite lookup_app_r by (rewrite length_app; simpl; lia).
      rewrite length_app. simpl.
      by replace (S (length chain') - (length chain' + 1))%nat with 0%nat by lia. }
  inversion Ho as [|l0 x0 ds0 Hl Hx Hn Hs He]; [by destruct l|].
  apply app_inj_tail in He as [-> ->]. simplify_eq.
  assert (y ∈ l) as (l1 & l2 & ->)%list_elem_of_split by (apply Hs in Hyd; set_solver).
  apply dependency_ordered_prefix in Hl.
  trans (l1 ++ [y]).
  - eapply (IH l1 _ y); [|done|done|done]. intros i a b Ha Hb.
    apply (Hch i); apply lookup_app_l_Some; done.
  - change (y :: l2) with ([y] ++ l2). rewrite app_assoc. apply sublist_inserts_r. done.
Qed.

(** *** Each registration preserves the shape *)

Lemma deps_insert (ps : gmap string PhaseNode.t) n phase ds x y :
  ps !! n = None →
  depends (PhaseNode.depends_on <$> <[n := PhaseNode.mk phase ds]> ps) x y ↔
  depends (PhaseNode.depends_on <$> ps) x y ∨ (x = n ∧ y ∈ ds).
Proof.
  intros Hn. unfold depends. setoid_rewrite lookup_fmap.
  destruct (decide (x = n)) as [->|Hx].
  - rewrite lookup_insert_eq, Hn. naive_solver.
  - rewrite lookup_insert_ne by done. naive_solver.
Qed.

Lemma deps_add_dependency ps p d x y :
  is_Some (ps !! p) →
  depends (PhaseNode.depends_on <$> add_dependency ps p d) x y ↔
  depends (PhaseNode.depends_on <$> ps) x y ∨ (x = p ∧ y = d).
Proof.
  intros [node Hp]. unfold depends, add_dependency. setoid_rewrite lookup_fmap.
  destruct (decide (x = p)) as [->|Hx].
  - rewrite lookup_alter_eq, Hp. simpl. split.
    + intros (ds & [= <-] & [->%elem_of_singleton|?]%elem_of_union); eauto.
    + intros [(ds & [= <-] & ?)|[_ ->]]; eexists; (split; [done|]); set_solver.
  - rewrite lookup_alter_ne by done. naive_solver.
Qed.

Lemma add_dependency_is_Some ps p d x : is_Some (add_dependency ps p d !! x) ↔ is_Some (ps !! x).
Proof.
  unfold add_dependency. destruct (decide (p = x)) as [->|].
  - by rewrite lookup_alter_eq, fmap_is_Some.
  - by rewrite lookup_alter_ne.
Qed.

Lemma wf_set_phases r ps :
  wf r →
  (∀ x, is_Some (phases r !! x) → is_Some (ps !! x)) →
  (∀ x y, depends (deps_of r) x y → depends (PhaseNode.depends_on <$> ps) x y) →
  (∀ x node, ps !! x = Some node → PhaseNode.phase node = ShutdownPhase.trusted x) →
  closed (PhaseNode.depends_on <$> ps) → acyclic (PhaseNode.depends_on <$> ps) →
  wf (set_phases r ps).
Proof.
  intros [Hcl Hac Hnm Htk Hbi] Hdom Hdep Hnm' Hcl' Hac'. split; try done; simpl.
  - intros p ts Hp. destruct (Htk p ts Hp). auto.
  - intros i x y Hx Hy. apply Hdep. eauto.
Qed.

Lemma closed_add_dependency ps p d :
  is_Some (ps !! p) → is_Some (ps !! d) → closed (PhaseNode.depends_on <$> ps) →
  closed (PhaseNode.depends_on <$> add_dependency ps p d).
Proof.
  intros Hp Hd Hcl x y. rewrite deps_add_dependency, lookup_fmap, fmap_is_Some,
    add_dependency_is_Some by done.
  intros [Hxy%Hcl|[_ ->]]; [|done]. by rewrite lookup_fmap, fmap_is_Some in Hxy.
Qed.

Lemma named_add_dependency ps p d :
  (∀ x node, ps !! x = Some node → PhaseNode.phase node = ShutdownPhase.trusted x) →
  ∀ x node, add_dependency ps p d !! x = Some node → PhaseNode.phase node = ShutdownPhase.trusted x.
Proof.
  intros Hnm x node. unfold add_dependency. rewrite lookup_alter_Some.
  intros [(-> & node' & Hp & ->)|[_ ?]]; [simpl|]; eauto.
Qed.

Lemma wf_add_dependency r p d :
  wf r → is_Some (phases r !! p) → is_Some (phases r !! d) → ¬ rtc (depends (deps_of r)) d p →
  wf (set_phases r (add_dependency (phases r) p d)).
Proof.
  intros Hwf Hp Hd Hn. apply wf_set_phases; [done|..].
  - intros x. by rewrite add_dependency_is_Some.
  - intros x y ?. apply deps_add_dependency; [done|]. by left.
  - apply named_add_dependency, Hwf.
  - apply closed_add_dependency; [done..|apply Hwf].
  - eapply acyclic_add_edge; [|apply Hwf|exact Hn]. intros x y. by apply deps_add_dependency.
Qed.

(** A phase outside the graph is reached by no other. *)
Lemma unreached r x n :
  closed (deps_of r) → phases r !! n = None → rtc (depends (deps_of r)) x n → x = n.
Proof.
  intros Hcl Hn [->|(z & _ & Hzn)]%rtc_inv_r; [done|].
  apply Hcl in Hzn. unfold deps_of in Hzn. rewrite lookup_fmap, Hn in Hzn. by destruct Hzn.
Qed.

Lemma wf_insert_phase r n ds :
  wf r → phases r !! n = None → (∀ y, y ∈ ds → is_Some (phases r !! y)) →
  (ds = ∅ ∨ ∃ y, ds = {[y]}) →
  wf (set_phases r (<[n := PhaseNode.mk (ShutdownPhase.trusted n) ds]> (phases r))).
Proof.
  intros Hwf Hn Hds Hone. apply wf_set_phases; [done|..].
  - intros x Hx. apply lookup_insert_is_Some'. by right.
  - intros x y ?. apply deps_insert; [done|]. by left.
  - intros x node [[<- <-]|[_ ?]]%lookup_insert_Some; [done|by eapply wf_named].
  - intros x y. rewrite deps_insert, lookup_fmap, fmap_is_Some, lookup_insert_is_Some' by done.
    intros [Hxy%(wf_closed _ Hwf)|[_ ?]]; right; [|auto].
    unfold deps_of in Hxy. by rewrite lookup_fmap, fmap_is_Some in Hxy.
  - destruct Hone as [->|[y ->]].
    + intros x Hx. apply (wf_acyclic _ Hwf x). revert Hx. apply (tc_congruence id).
      intros a b. rewrite deps_insert by done. set_solver.
    + eapply (acyclic_add_edge (depends (deps_of r)) _ n y); [|apply Hwf|].
      * intros a b. rewrite deps_insert by done. set_solver.
      * intros Hy%unreached; [|apply Hwf|done]. subst. destruct (Hds n); [set_solver|congruence].
Qed.

Lemma has_dependency_depends r x y : has_dependency r x y = true ↔ depends (deps_of r) x y.
Proof.
  unfold has_dependency, depends, deps_of. rewrite lookup_fmap.
  destruct (phases r !! x) as [node|]; simpl; [|naive_solver].
  rewrite bool_decide_eq_true. naive_solver.
Qed.

Lemma wf_new settings initial : wf (new settings initial : ShutdownRegistry.t R RS).
Proof.
  set (r := new settings initial).
  assert (closed (deps_of r)) as Hcl.
  { intros x y (ds & Hx & Hy).
    assert (map_Forall (fun _ ds => set_Forall (fun y => is_Some (deps_of r !! y)) ds) (deps_of r))
      as Hall by (by apply (bool_decide_unpack _); vm_compute).
    exact (Hall x ds Hx y Hy). }
  split; [done|..].
  - destruct (ordered_phase_names_decides r Hcl) as [(l & _ & _ & _ & ?)|[Hc _]]; [done|].
    exfalso. revert Hc. vm_compute. done.
  - assert (map_Forall (fun x node => PhaseNode.phase node = ShutdownPhase.trusted x) (phases r))
      as Hall by (by apply (bool_decide_unpack _); vm_compute).
    exact Hall.
  - done.
  - intros i x y Hx Hy. apply has_dependency_depends.
    assert (Forall (fun yx => has_dependency r yx.1 yx.2 = true)
              (zip (tail BUILT_IN_PHASES) BUILT_IN_PHASES)) as Hall.
    { by apply (bool_decide_unpack _); vm_compute. }
    rewrite Forall_lookup in Hall. apply (Hall i (y, x)). apply lookup_zip_with_Some.
    exists y, x. split_and!; [done| |done]. by rewrite lookup_tail.
Qed.

Lemma shutdown_phase_new name phase :
  ShutdownPhase.new name = Ok phase → phase = ShutdownPhase.trusted name.
Proof.
  unfold ShutdownPhase.new, validate_shutdown_name. repeat case_match; simpl; congruence.
Qed.

Lemma shutdown_task_new phase name options task :
  ShutdownTask.new phase name options = Ok task → task = ShutdownTask.mk phase name options.
Proof.
  unfold ShutdownTask.new, validate_shutdown_name. repeat case_match; simpl; congruence.
Qed.

(** The checks shared by the two ways to add a phase. *)
Lemma new_phase_checks r name anchor phase :
  (let? _ := ensure_not_started not_started r in
   let? _ := ensure_phase_exists r anchor in
   let? phase := ShutdownPhase.new name in
   let? _ := ensure_phase_absent r phase in
   Ok phase) = Ok phase →
  phase = ShutdownPhase.trusted name ∧ phases r !! name = None ∧
  is_Some (phases r !! ShutdownPhase.name anchor).
Proof.
  destruct (ensure_not_started not_started r); simpl; [|done].
  unfold ensure_phase_exists, ensure_phase_absent. case_decide as Ha; simpl; [|done].
  destruct (ShutdownPhase.new name) as [phase'|] eqn:Hnew; simpl; [|done].
  apply shutdown_phase_new in Hnew as ->. case_decide as Hb; simpl; [done|].
  intros [= <-]. by rewrite <-eq_None_not_Some in Hb.
Qed.

Lemma wf_add_phase_after r name after : wf r → wf (add_phase_after not_started r name after).1.
Proof.
  intros Hwf. unfold add_phase_after. case_match eqn:Hc; [|done].
  apply new_phase_checks in Hc as (-> & Hn & Ha). simpl.
  apply wf_insert_phase; [done|done|set_solver|eauto].
Qed.

Lemma wf_add_phase_before r name before : wf r → wf (add_phase_before not_started r name before).1.
Proof.
  intros Hwf. unfold add_phase_before. case_match eqn:Hc; [|done].
  apply new_phase_checks in Hc as (-> & Hn & Hb). simpl.
  pose proof (wf_insert_phase r name ∅ Hwf Hn ltac:(set_solver) ltac:(by left)) as Hwf'.
  apply (wf_add_dependency _ (ShutdownPhase.name before) name) in Hwf'; [done|..]; simpl.
  - apply lookup_insert_is_Some'. by right.
  - apply lookup_insert_is_Some'. by left.
  - intros Hr. inversion Hr as [|? y ? Hy _]; subst.
    + destruct Hb; congruence.
    + apply deps_insert in Hy as [(ds & Hy & _)|[_ ?]]; [|set_solver|done].
      by rewrite lookup_fmap, Hn in Hy.
Qed.

Lemma remove_add_dependency ps p d node :
  ps !! p = Some node → d ∉ PhaseNode.depends_on node →
  remove_dependency (add_dependency ps p d) p d = ps.
Proof.
  intros Hp Hd. unfold remove_dependency, add_dependency.
  apply map_eq. intros x. destruct (decide (p = x)) as [<-|].
  - rewrite !lookup_alter_eq, Hp. destruct node as [phase ds]; simpl in *.
    unfold PhaseNode.set_depends_on; simpl. do 2 f_equal. set_solver.
  - by rewrite !lookup_alter_ne.
Qed.

(** The three ways a dependency is refused. *)
Definition dependency_refused r (phase depends_on : ShutdownPhase.t) (e : RakkaError.t) : Prop :=
  ensure_not_started not_started r = Err e ∨
  ensure_phase_exists r phase = Err e ∨
  ensure_phase_exists r depends_on = Err e ∨
  (e = phase_cycle_error ∧
   rtc (depends (deps_of r)) (ShutdownPhase.name depends_on) (ShutdownPhase.name phase)).

Lemma add_phase_dependency_spec r phase depends_on r' res :
  wf r → add_phase_dependency not_started r phase depends_on = (r', res) →
  match res with
  | Ok _ =>
      r' = set_phases r (add_dependency (phases r) (ShutdownPhase.name phase)
                           (ShutdownPhase.name depends_on)) ∧ wf r' ∧
      ¬ rtc (depends (deps_of r)) (ShutdownPhase.name depends_on) (ShutdownPhase.name phase)
  | Err e => r' = r ∧ dependency_refused r phase depends_on e
  end.
Proof.
  intros Hwf. unfold add_phase_dependency, dependency_refused.
  destruct (ensure_not_started not_started r); simpl; [|intros [= <- <-]; auto].
  unfold ensure_phase_exists. case_decide as Hp; simpl; [|intros [= <- <-]; auto].
  case_decide as Hd; simpl; [|intros [= <- <-]; auto].
  destruct phase as [p], depends_on as [d]; simpl in *.
  set (r1 := set_phases r (add_dependency (phases r) p d)).
  assert (∀ x y, depends (deps_of r1) x y ↔ depends (deps_of r) x y ∨ (x = p ∧ y = d)) as Hedge
    by (intros; by apply deps_add_dependency).
  pose proof (acyclic_add_edge _ _ p d Hedge (wf_acyclic _ Hwf)) as Hac.
  destruct (ordered_phase_names_decides r1) as [(l & -> & _ & _ & Hok)|[-> Hcyc]].
  { apply closed_add_dependency; [done..|apply Hwf]. }
  - intros [= <- <-]. apply Hac in Hok. split_and!; [done|by apply wf_add_dependency|done].
  - assert (rtc (depends (deps_of r)) d p) as Hdp.
    { destruct (reaches_or_not (deps_of r) d p) as [?|Hn]; [apply Hwf..|done|].
      by apply Hac in Hn. }
    assert (d ∉ default ∅ (PhaseNode.depends_on <$> phases r !! p)) as Hnew.
    { intros Hin. apply (wf_acyclic _ Hwf p). eapply tc_rtc_r; [|exact Hdp]. constructor.
      destruct Hp as [node Hp]. rewrite Hp in Hin. exists (PhaseNode.depends_on node).
      unfold deps_of. by rewrite lookup_fmap, Hp. }
    destruct Hp as [node Hp]. rewrite Hp in Hnew. simpl in Hnew.
    unfold has_dependency. rewrite Hp, bool_decide_eq_false_2 by done. simpl.
    rewrite (remove_add_dependency _ _ _ node) by done.
    intros [= <- <-]. split; [by destruct r|]. auto 10.
Qed.

Lemma wf_set_tasks r p ts :
  wf r → is_Some (phases r !! p) →
  (∀ n e, ts !! n = Some e →
     ShutdownTask.phase (ShutdownTaskEntry.descriptor e) = ShutdownPhase.trusted p ∧
     ShutdownTask.name (ShutdownTaskEntry.descriptor e) = n) →
  wf (set_tasks r (<[p := ts]> (tasks r))).
Proof.
  intros [Hcl Hac Hnm Htk Hbi] Hp Hts. split; try done; simpl.
  intros p' ts' [[<- <-]|[_ ?]]%lookup_insert_Some; eauto.
Qed.

Lemma wf_phase_tasks r p n e :
  wf r → default ∅ (tasks r !! p) !! n = Some e →
  ShutdownTask.phase (ShutdownTaskEntry.descriptor e) = ShutdownPhase.trusted p ∧
  ShutdownTask.name (ShutdownTaskEntry.descriptor e) = n.
Proof.
  intros Hwf. destruct (tasks r !! p) as [ts|] eqn:Hp; simpl; [|done].
  intros He. by apply (wf_tasks _ Hwf p ts Hp).
Qed.

Lemma wf_add_task r phase name options run :
  wf r → wf (add_task not_started r phase name options run).1.
Proof.
  intros Hwf. unfold add_task. destruct (ensure_not_started not_started r); simpl; [|done].
  unfold ensure_phase_exists. case_decide as Hp; simpl; [|done].
  destruct (ShutdownTask.new phase name options) as [task|] eqn:Hnew; simpl; [|done].
  apply shutdown_task_new in Hnew as ->. destruct phase as [p]; simpl in *.
  case_decide; simpl; (apply wf_set_tasks; [done|done|]); intros n e.
  - by apply wf_phase_tasks.
  - intros [[<- <-]|[_ ?]]%lookup_insert_Some; [done|]. by eapply wf_phase_tasks.
Qed.

Lemma wf_register_all r ops : wf r → wf (register_all not_started r ops).
Proof.
  revert r. induction ops as [|op ops IH]; intros r Hwf; [done|]. apply IH. destruct op; simpl.
  - by apply wf_add_phase_after.
  - by apply wf_add_phase_before.
  - destruct (add_phase_dependency not_started r phase depends_on) as [r' res] eqn:Ha.
    apply add_phase_dependency_spec in Ha; [|done]. destruct res; simpl; [apply Ha|].
    by destruct Ha as [-> _].
  - by apply wf_add_task.
Qed.

Lemma dependency_before deps l x y :
  dependency_ordered deps l → depends deps x y → x ∈ l → ∃ l1 l2, l = l1 ++ x :: l2 ∧ y ∈ l1.
Proof.
  intros Hl (ds & Hx & Hy) (l1 & l2 & ->)%list_elem_of_split. exists l1, l2. split; [done|].
  apply dependency_ordered_prefix in Hl. inversion Hl as [|l0 x0 ds0 ? ? ? Hs He]; [by destruct l1|].
  apply app_inj_tail in He as [-> ->]. simplify_eq. apply Hs in Hy. set_solver.
Qed.

Lemma built_in_sublist r l :
  wf r → dependency_ordered (deps_of r) l → "stop-remoting" ∈ l → BUILT_IN_PHASES `sublist_of` l.
Proof.
  intros Hwf Hl (l1 & l2 & ->)%list_elem_of_split. trans (l1 ++ ["stop-remoting"]).
  - eapply (chain_sublist (deps_of r)); [apply Hwf|reflexivity| |reflexivity].
    by eapply dependency_ordered_prefix.
  - change ("stop-remoting" :: l2) with (["stop-remoting"] ++ l2). rewrite app_assoc.
    by apply sublist_inserts_r.
Qed.

(** C38. However phases, dependencies and tasks were registered, the phases have an
    order: every registered phase once, every phase after all the phases it depends on,
    and the built-in phases in their built-in sequence. *)
Theorem registered_phases_ordered settings initial ops :
  let r := register_all not_started (new settings initial) ops in
  ∃ l, ordered_phase_names r = Ok l ∧ NoDup l ∧ (∀ x, x ∈ l ↔ is_Some (phases r !! x)) ∧
       (∀ x y, depends (deps_of r) x y → ∃ l1 l2, l = l1 ++ x :: l2 ∧ y ∈ l1) ∧
       BUILT_IN_PHASES `sublist_of` l.
Proof.
  intros r. assert (wf r) as Hwf by apply wf_register_all, wf_new.
  destruct (ordered_phase_names_sound r Hwf) as (l & Hl & Ho & Hdom).
  assert (∀ x y, depends (deps_of r) x y → x ∈ l) as Hin.
  { intros x y (ds & Hx & _). apply Hdom. unfold deps_of in Hx. rewrite lookup_fmap in Hx.
    by destruct (phases r !! x). }
  exists l. split_and!; [done|by eapply dependency_ordered_NoDup|done| |].
  - intros x y Hxy. eapply dependency_before; eauto.
  - apply (built_in_sublist r); [done..|].
    apply (Hin _ "stop-system-actors"), (wf_built_in _ Hwf 7); done.
Qed.

(** Declaring a dependency is refused as a cycle exactly when the phase was already
    reached from its new dependency; a refusal of any kind leaves the registry as it was,
    and otherwise exactly that dependency is added. *)
Theorem add_phase_dependency_exact settings initial ops phase depends_on :
  let r := register_all not_started (new settings initial) ops in
  let '(r', res) := add_phase_dependency not_started r phase depends_on in
  match res with
  | Ok _ =>
      r' = set_phases r (add_dependency (phases r) (ShutdownPhase.name phase)
                           (ShutdownPhase.name depends_on)) ∧
      ¬ rtc (depends (deps_of r)) (ShutdownPhase.name depends_on) (ShutdownPhase.name phase)
  | Err e => r' = r ∧ dependency_refused r phase depends_on e
  end.
Proof.
  intros r. assert (wf r) as Hwf by apply wf_register_all, wf_new.
  destruct (add_phase_dependency not_started r phase depends_on) as [r' res] eqn:Ha.
  apply add_phase_dependency_spec in Ha; [|done]. destruct res; [|done].
  by destruct Ha as (? & _ & ?).
Qed.
End registry_correct.
