(* ===== verification/ShutdownRun.v ===== *)
(** * Coordinated shutdown, the runner: [rakka-core/src/coordinated_shutdown.rs]

    One execution of the shutdown plan - phases in order, tasks in order, deadlines and
    failure policies - and the protocol by which concurrent callers of [run] share it. *)

From S2P Require Import Prelude Core Shutdown.

(** ** Reports *)

Inductive ShutdownOutcome := NotStarted | Running | Complete | Partial | Failed | TimedOut.

#[global] Instance ShutdownOutcome_eq_dec : EqDecision ShutdownOutcome.
Proof. solve_decision. Defined.

Definition combine_shutdown_outcome (l r : ShutdownOutcome) : ShutdownOutcome :=
  match l, r with
  | TimedOut, _ | _, TimedOut => TimedOut
  | Failed, _ | _, Failed => Failed
  | Partial, _ | _, Partial => Partial
  | Running, _ | _, Running => Running
  | NotStarted, outcome => outcome
  | outcome, NotStarted => outcome
  | Complete, Complete => Complete
  end.

Inductive ShutdownTaskStatus :=
| TaskPending | TaskRunning | TaskCompleted | TaskFailed | TaskTimedOut | TaskSkipped.

#[global] Instance ShutdownTaskStatus_eq_dec : EqDecision ShutdownTaskStatus.
Proof. solve_decision. Defined.

Module ShutdownTaskContext.

Record t := new { reason : CoordinatedShutdownReason.t; phase : ShutdownPhase.t; task_name : string }.

End ShutdownTaskContext.

Module ShutdownTaskReport.

Record t := new {
  phase : ShutdownPhase.t;
  task_name : string;
  status : ShutdownTaskStatus;
  duration : option Z;
  message : option string;
}.

#[global] Instance eq_dec : EqDecision t.
Proof. solve_decision. Defined.

End ShutdownTaskReport.

Module ShutdownPhaseReport.

Record t := new {
  phase : ShutdownPhase.t;
  outcome : ShutdownOutcome;
  duration : option Z;
  tasks : list ShutdownTaskReport.t;
}.

#[global] Instance eq_dec : EqDecision t.
Proof. solve_decision. Defined.

End ShutdownPhaseReport.

Module CoordinatedShutdownReport.

Record t := new {
  reason : CoordinatedShutdownReason.t;
  outcome : ShutdownOutcome;
  phases : list ShutdownPhaseReport.t;
}.

#[global] Instance eq_dec : EqDecision t.
Proof. solve_decision. Defined.

End CoordinatedShutdownReport.

Inductive CoordinatedShutdownError :=
| ErrRegistry (error : RakkaError.t)
| ErrFailed (report : CoordinatedShutdownReport.t)
| ErrTimedOut (report : CoordinatedShutdownReport.t).

#[global] Instance CoordinatedShutdownError_eq_dec : EqDecision CoordinatedShutdownError.
Proof. solve_decision. Defined.

Definition error_report (self : CoordinatedShutdownError) : option CoordinatedShutdownReport.t :=
  match self with
  | ErrRegistry _ => None
  | ErrFailed report | ErrTimedOut report => Some report
  end.

Definition error_outcome (self : CoordinatedShutdownError) : ShutdownOutcome :=
  match self with
  | ErrRegistry _ => Failed
  | ErrFailed _ => Failed
  | ErrTimedOut _ => TimedOut
  end.

Abbreviation ShutdownRunResult := (result CoordinatedShutdownError CoordinatedShutdownReport.t).

Definition report_to_result (report : CoordinatedShutdownReport.t) : ShutdownRunResult :=
  match CoordinatedShutdownReport.outcome report with
  | Failed => Err (ErrFailed report)
  | TimedOut => Err (ErrTimedOut report)
  | NotStarted | Running | Complete | Partial => Ok report
  end.

(** ** The plan *)

Module ShutdownExecutionPlan.

Record t {R : Type} := mk {
  settings : CoordinatedShutdownSettings.t;
  phases : list ShutdownPhase.t;
  tasks : gmap string (list (ShutdownTaskEntry.t R));
}.
Arguments t : clear implicits.

End ShutdownExecutionPlan.

Definition execution_plan {R RS} (self : ShutdownRegistry.t R RS) :
    result CoordinatedShutdownError (ShutdownExecutionPlan.t R) :=
  match ShutdownRegistry.ordered_phase_names self with
  | Err error => Err (ErrRegistry error)
  | Ok phase_names =>
      Ok (ShutdownExecutionPlan.mk R (ShutdownRegistry.settings self)
            (ShutdownRegistry.phase_of self <$> phase_names)
            (list_to_map (omap (fun phase_name =>
               (fun phase_tasks => (phase_name, btree_values phase_tasks))
               <$> ShutdownRegistry.tasks self !! phase_name) phase_names)))
  end.

(** ** One execution

    The clock, and the task futures with the timer that bounds them, are the world the
    runner lives in: a state [W] with the reading of the clock and the two ways a task is
    awaited.  [timeout_at] answers [None] when the deadline elapsed first. *)
Record ShutdownWorld (W R : Type) := {
  instant_now : W → W * Z;
  await : R → ShutdownTaskContext.t → W → W * RakkaResult unit;
  timeout_at : Z → R → ShutdownTaskContext.t → W → W * option (RakkaResult unit);
}.
Arguments instant_now {W R}.
Arguments await {W R}.
Arguments timeout_at {W R}.

Module ShutdownProgress.

Record t := mk { current_phase : option ShutdownPhase.t; current_task : option string }.

Definition default : t := mk None None.

End ShutdownProgress.

Inductive TaskRunOutcome := RunCompleted | RunFailed (message : string) | RunTimedOut.

Definition min_deadline (l r : option Z) : option Z :=
  match l, r with
  | Some x, Some y => Some (x `min` y)
  | Some deadline, None | None, Some deadline => Some deadline
  | None, None => None
  end.

Section execute.
Context {W R : Type} (world : ShutdownWorld W R).

Abbreviation exec := (act (W * ShutdownProgress.t)).
Implicit Types plan : ShutdownExecutionPlan.t R.
Implicit Types task : ShutdownTaskEntry.t R.

Definition in_world {A} (m : W → W * A) : exec A := fun s =>
  let '(w, a) := m s.1 in ((w, s.2), a).

Definition now : exec Z := in_world (instant_now world).

(** [Instant::elapsed] never goes below zero. *)
Definition elapsed (start : Z) : exec Z := let! t := now in act_ret (saturating_sub t start).

Definition update_shutdown_progress (phase : option ShutdownPhase.t) (task : option string) :
    exec unit :=
  fun s => ((s.1, ShutdownProgress.mk phase task), tt).

Definition clear_shutdown_progress : exec unit := update_shutdown_progress None None.

Definition deadline_elapsed (deadline : option Z) : exec bool :=
  match deadline with
  | None => act_ret false
  | Some deadline => let! t := now in act_ret (deadline <=? t)
  end.

Definition task_deadline (settings : CoordinatedShutdownSettings.t) task
    (phase_deadline : option Z) : exec (option Z) :=
  let options := ShutdownTask.options (ShutdownTaskEntry.descriptor task) in
  let task_timeout :=
    match ShutdownTaskOptions.timeout options with
    | Some timeout => Some timeout
    | None => CoordinatedShutdownSettings.default_task_timeout settings
    end in
  match task_timeout with
  | None => act_ret (min_deadline phase_deadline None)
  | Some timeout => let! t := now in act_ret (min_deadline phase_deadline (Some (t + timeout)))
  end.

Definition run_outcome (r : RakkaResult unit) : TaskRunOutcome :=
  match r with Ok _ => RunCompleted | Err error => RunFailed (RakkaError.fmt error) end.

Definition run_shutdown_task task (reason : CoordinatedShutdownReason.t) (deadline : option Z) :
    exec ShutdownTaskReport.t :=
  let! task_start := now in
  let descriptor := ShutdownTaskEntry.descriptor task in
  let phase := ShutdownTask.phase descriptor in
  let name := ShutdownTask.name descriptor in
  let context := ShutdownTaskContext.new reason phase name in
  let! late := deadline_elapsed deadline in
  let! outcome :=
    (if late : bool then act_ret RunTimedOut
     else match deadline with
          | Some deadline =>
              let! r := in_world (timeout_at world deadline (ShutdownTaskEntry.run task) context) in
              act_ret (match r with Some r => run_outcome r | None => RunTimedOut end)
          | None =>
              let! r := in_world (await world (ShutdownTaskEntry.run task) context) in
              act_ret (run_outcome r)
          end) in
  let! duration := elapsed task_start in
  act_ret (match outcome with
    | RunCompleted =>
        ShutdownTaskReport.new phase name TaskCompleted (Some duration) None
    | RunFailed message =>
        ShutdownTaskReport.new phase name TaskFailed (Some duration) (Some message)
    | RunTimedOut =>
        ShutdownTaskReport.new phase name TaskTimedOut (Some duration)
          (Some "shutdown task timed out")
    end).

(** The variables of the task loop. *)
Record task_loop := mk_loop {
  task_reports : list ShutdownTaskReport.t;
  phase_outcome : ShutdownOutcome;
  final_outcome : ShutdownOutcome;
  stop_after_phase : bool;
}.

Definition task_policy (settings : CoordinatedShutdownSettings.t) task : ShutdownFailurePolicy :=
  default (CoordinatedShutdownSettings.failure_policy settings)
    (ShutdownTaskOptions.failure_policy (ShutdownTask.options (ShutdownTaskEntry.descriptor task))).

(** The [match task_status] at the end of a turn of the loop. *)
Definition after_task (policy : ShutdownFailurePolicy) (phase_deadline : option Z)
    (report : ShutdownTaskReport.t) (l : task_loop) : exec task_loop :=
  let reports := task_reports l ++ [report] in
  match ShutdownTaskReport.status report with
  | TaskFailed =>
      act_ret (match policy with
        | FailFast => mk_loop reports Failed (final_outcome l) true
        | Continue =>
            mk_loop reports (combine_shutdown_outcome (phase_outcome l) Partial)
              (combine_shutdown_outcome (final_outcome l) Partial) (stop_after_phase l)
        end)
  | TaskTimedOut =>
      let l := mk_loop reports (combine_shutdown_outcome (phase_outcome l) TimedOut)
                 (combine_shutdown_outcome (final_outcome l) TimedOut) (stop_after_phase l) in
      let! stop := (match policy with
                    | FailFast => act_ret true
                    | Continue => deadline_elapsed phase_deadline
                    end) in
      act_ret (mk_loop (task_reports l) (phase_outcome l) (final_outcome l)
                 (stop || stop_after_phase l))
  | TaskCompleted | TaskPending | TaskRunning | TaskSkipped =>
      act_ret (mk_loop reports (phase_outcome l) (final_outcome l) (stop_after_phase l))
  end.

Fixpoint run_tasks (settings : CoordinatedShutdownSettings.t) (reason : CoordinatedShutdownReason.t)
    (phase : ShutdownPhase.t) (phase_deadline : option Z) (tasks : list (ShutdownTaskEntry.t R))
    (l : task_loop) : exec task_loop :=
  match tasks with
  | [] => act_ret l
  | task :: tasks =>
      if stop_after_phase l then act_ret l
      else
        let name := ShutdownTask.name (ShutdownTaskEntry.descriptor task) in
        let! late := deadline_elapsed phase_deadline in
        if late : bool then
          let! _ := update_shutdown_progress (Some phase) (Some name) in
          let report := ShutdownTaskReport.new phase name TaskTimedOut (Some 0)
            (Some "shutdown phase deadline elapsed before task started") in
          act_ret (mk_loop (task_reports l ++ [report]) TimedOut (final_outcome l) true)
        else
          let! deadline := task_deadline settings task phase_deadline in
          let! _ := update_shutdown_progress (Some phase) (Some name) in
          let! report := run_shutdown_task task reason deadline in
          let! _ := update_shutdown_progress (Some phase) None in
          let! l := after_task (task_policy settings task) phase_deadline report l in
          run_tasks settings reason phase phase_deadline tasks l
  end.

(** One phase: its report, the outcome so far and whether shutdown stops here. *)
Definition run_phase plan (reason : CoordinatedShutdownReason.t) (overall_deadline : option Z)
    (final_outcome0 : ShutdownOutcome) (phase : ShutdownPhase.t) :
    exec (ShutdownPhaseReport.t * ShutdownOutcome * bool) :=
  let settings := ShutdownExecutionPlan.settings plan in
  let! phase_start := now in
  let! _ := update_shutdown_progress (Some phase) None in
  let phase_deadline := min_deadline overall_deadline
    ((fun timeout => phase_start + timeout)
     <$> CoordinatedShutdownSettings.default_phase_timeout settings) in
  let phase_tasks := default [] (ShutdownExecutionPlan.tasks plan !! ShutdownPhase.name phase) in
  let! late := deadline_elapsed phase_deadline in
  let l := if late : bool then mk_loop [] TimedOut final_outcome0 true
           else mk_loop [] Complete final_outcome0 false in
  let! l := run_tasks settings reason phase phase_deadline phase_tasks l in
  let! l := (if decide (phase_outcome l = Complete) then
               let! late := deadline_elapsed phase_deadline in
               act_ret (if late : bool then mk_loop (task_reports l) TimedOut (final_outcome l) true
                        else l)
             else act_ret l) in
  let! duration := elapsed phase_start in
  act_ret (ShutdownPhaseReport.new phase (phase_outcome l) (Some duration) (task_reports l),
           combine_shutdown_outcome (final_outcome l) (phase_outcome l), stop_after_phase l).

Fixpoint run_phases plan (reason : CoordinatedShutdownReason.t) (overall_deadline : option Z)
    (phases : list ShutdownPhase.t) (phase_reports : list ShutdownPhaseReport.t)
    (final_outcome : ShutdownOutcome) : exec CoordinatedShutdownReport.t :=
  match phases with
  | [] => act_ret (CoordinatedShutdownReport.new reason final_outcome phase_reports)
  | phase :: phases =>
      let! (report, final_outcome, stop) :=
        run_phase plan reason overall_deadline final_outcome phase in
      let phase_reports := phase_reports ++ [report] in
      if stop : bool then
        act_ret (CoordinatedShutdownReport.new reason final_outcome phase_reports)
      else run_phases plan reason overall_deadline phases phase_reports final_outcome
  end.

Definition execute_shutdown_plan plan (reason : CoordinatedShutdownReason.t)
    (overall_deadline : option Z) : exec ShutdownRunResult :=
  let! report :=
    run_phases plan reason overall_deadline (ShutdownExecutionPlan.phases plan) [] Complete in
  let! _ := clear_shutdown_progress in
  act_ret (report_to_result report).
End execute.

(** ** What a run reports *)

(** Splits a run into its steps. *)
Ltac act_inv :=
  repeat match goal with
  | H : act_bind _ _ _ = (_, _) |- _ =>
      let s := fresh "s" in let a := fresh "a" in let H1 := fresh "Hm" in
      apply act_bind_inv in H as (s & a & H1 & H)
  | H : act_ret _ _ = (_, _) |- _ =>
      apply act_ret_inv in H as [<- H];
      match type of H with
      | ?x = ?y => first [is_var y; subst y | is_var x; subst x | idtac]
      end
  end.

Arguments combine_shutdown_outcome : simpl never.

#[global] Instance combine_assoc : Assoc (=) combine_shutdown_outcome.
Proof. by intros [] [] []. Qed.
#[global] Instance combine_comm : Comm (=) combine_shutdown_outcome.
Proof. by intros [] []. Qed.

Lemma combine_idemp o : combine_shutdown_outcome o o = o.
Proof. by destruct o. Qed.

Lemma combine_complete x y :
  combine_shutdown_outcome (combine_shutdown_outcome Complete x) (combine_shutdown_outcome Complete y) =
  combine_shutdown_outcome Complete (combine_shutdown_outcome x y).
Proof. by destruct x, y. Qed.

Definition status_outcome (status : ShutdownTaskStatus) : ShutdownOutcome :=
  match status with
  | TaskFailed => Partial
  | TaskTimedOut => TimedOut
  | _ => NotStarted
  end.

(** What the reports of tasks that do not stop the run add to its outcome; the neutral
    outcome of [combine_shutdown_outcome] is [NotStarted]. *)
Definition summary (reports : list ShutdownTaskReport.t) : ShutdownOutcome :=
  foldr combine_shutdown_outcome NotStarted
    ((fun r => status_outcome (ShutdownTaskReport.status r)) <$> reports).

Lemma summary_cons r reports :
  summary (r :: reports) =
  combine_shutdown_outcome (status_outcome (ShutdownTaskReport.status r)) (summary reports).
Proof. done. Qed.

Lemma summary_snoc reports r :
  summary (reports ++ [r]) =
  combine_shutdown_outcome (summary reports) (status_outcome (ShutdownTaskReport.status r)).
Proof.
  induction reports as [|r' reports IH].
  - unfold summary; simpl. by destruct (ShutdownTaskReport.status r).
  - rewrite <-app_comm_cons, !summary_cons, IH. apply (assoc combine_shutdown_outcome).
Qed.

Lemma summary_app l k : summary (l ++ k) = combine_shutdown_outcome (summary l) (summary k).
Proof.
  induction k as [|r k IH] using rev_ind.
  - rewrite app_nil_r. by destruct (summary l).
  - rewrite (assoc_L (++)), !summary_snoc, IH. by rewrite (assoc combine_shutdown_outcome).
Qed.

Section reports.
Context {W R : Type} (world : ShutdownWorld W R).
Implicit Types plan : ShutdownExecutionPlan.t R.
Implicit Types task : ShutdownTaskEntry.t R.

Abbreviation descriptor_name task := (ShutdownTask.name (ShutdownTaskEntry.descriptor task)).

(** The report is of this task and does not stop the run. *)
Definition tolerated settings task (r : ShutdownTaskReport.t) : Prop :=
  ShutdownTaskReport.task_name r = descriptor_name task ∧
  (ShutdownTaskReport.status r = TaskCompleted ∨
   (ShutdownTaskReport.status r ∈ [TaskFailed; TaskTimedOut] ∧ task_policy settings task = Continue)).

(** The report is of this task and stops the run with this outcome. *)
Definition fatal settings task (r : ShutdownTaskReport.t) (outcome : ShutdownOutcome) : Prop :=
  ShutdownTaskReport.task_name r = descriptor_name task ∧
  ((ShutdownTaskReport.status r = TaskFailed ∧ task_policy settings task = FailFast ∧
    outcome = Failed) ∨
   (ShutdownTaskReport.status r = TaskTimedOut ∧ outcome = TimedOut)).

Lemma run_shutdown_task_spec task reason deadline s s' r :
  run_shutdown_task world task reason deadline s = (s', r) →
  ShutdownTaskReport.task_name r = descriptor_name task ∧
  ShutdownTaskReport.status r ∈ [TaskCompleted; TaskFailed; TaskTimedOut].
Proof.
  unfold run_shutdown_task. intros H. act_inv. destruct a1; simpl; set_solver.
Qed.

(** One task: the loop goes on and the report is tolerated, or it stops. *)
Lemma after_task_spec settings task phase_deadline r l s s' l' :
  ShutdownTaskReport.task_name r = descriptor_name task →
  ShutdownTaskReport.status r ∈ [TaskCompleted; TaskFailed; TaskTimedOut] →
  stop_after_phase l = false →
  after_task world (task_policy settings task) phase_deadline r l s = (s', l') →
  task_reports l' = task_reports l ++ [r] ∧
  ((stop_after_phase l' = false ∧ tolerated settings task r ∧
    phase_outcome l' = combine_shutdown_outcome (phase_outcome l)
                         (status_outcome (ShutdownTaskReport.status r)) ∧
    final_outcome l' = combine_shutdown_outcome (final_outcome l)
                         (status_outcome (ShutdownTaskReport.status r))) ∨
   (stop_after_phase l' = true ∧ fatal settings task r (phase_outcome l') ∧
    combine_shutdown_outcome (final_outcome l') (phase_outcome l') =
    combine_shutdown_outcome (final_outcome l) (phase_outcome l'))).
Proof.
  unfold after_task, tolerated, fatal. intros Hname Hst Hstop H.
  destruct (ShutdownTaskReport.status r) eqn:Hs; try (exfalso; clear -Hst; set_solver).
  - act_inv. simpl. split; [done|]. left. split_and!; try done; [by left|..];
      [by destruct (phase_outcome l)|by destruct (final_outcome l)].
  - destruct (task_policy settings task); act_inv; simpl; (split; [done|]).
    + right. split_and!; [done|done|by left|done].
    + left. split_and!; try done. right. split; [set_solver|done].
  - act_inv. simpl. split; [done|]. rewrite Hstop.
    destruct (task_policy settings task); [act_inv|destruct a]; simpl.
    + right. split_and!; [done|done|right; split; [done|]|]; [by destruct (phase_outcome l)|].
      by destruct (phase_outcome l), (final_outcome l).
    + right. split_and!; [done|done|right; split; [done|]|]; [by destruct (phase_outcome l)|].
      by destruct (phase_outcome l), (final_outcome l).
    + left. split_and!; try done. right. split; [set_solver|done].
Qed.

(** The reports of a phase: all tasks tolerated, or tolerated up to a fatal one. *)
Definition all_tolerated settings (tasks : list (ShutdownTaskEntry.t R)) reports : Prop :=
  Forall2 (tolerated settings) tasks reports.

Definition tolerated_until settings (tasks : list (ShutdownTaskEntry.t R)) reports outcome : Prop :=
  ∃ done task rest rs r, tasks = done ++ task :: rest ∧ reports = rs ++ [r] ∧
    Forall2 (tolerated settings) done rs ∧ fatal settings task r outcome.

Lemma run_tasks_spec settings reason phase phase_deadline tasks l s s' l' :
  stop_after_phase l = false →
  run_tasks world settings reason phase phase_deadline tasks l s = (s', l') →
  ∃ reports, task_reports l' = task_reports l ++ reports ∧
  ((stop_after_phase l' = false ∧ all_tolerated settings tasks reports ∧
    phase_outcome l' = combine_shutdown_outcome (phase_outcome l) (summary reports) ∧
    final_outcome l' = combine_shutdown_outcome (final_outcome l) (summary reports)) ∨
   (stop_after_phase l' = true ∧ tolerated_until settings tasks reports (phase_outcome l') ∧
    combine_shutdown_outcome (final_outcome l') (phase_outcome l') =
    combine_shutdown_outcome (combine_shutdown_outcome (final_outcome l) (summary reports))
      (phase_outcome l'))).
Proof.
  revert l s. induction tasks as [|task tasks IH]; intros l s Hstop H; simpl in H.
  { act_inv. exists []. rewrite app_nil_r. split; [done|]. left. split_and!; [done|constructor|..];
      unfold summary; simpl; [by destruct (phase_outcome _)|by destruct (final_outcome _)]. }
  rewrite Hstop in H. act_inv. destruct a.
  - act_inv. simpl. eexists [_]. split; [done|]. right. split_and!; [done| |].
    + eexists [], task, tasks, [], _. split_and!; [done|done|constructor|]. split; [done|by right].
    + unfold summary; simpl. by destruct (final_outcome l).
  - act_inv. apply run_shutdown_task_spec in Hm2 as [Hname Hst].
    destruct (after_task_spec settings task _ _ _ _ _ _ Hname Hst Hstop Hm4)
      as [Hr [(Hs' & Ht & Hp & Hf)|(Hs' & Hfa & Hc)]].
    + destruct (IH _ _ Hs' H) as (reports & Hrep & Hcase).
      exists (a1 :: reports). split; [by rewrite Hrep, Hr, <-(assoc_L (++))|].
      destruct Hcase as [(? & ? & Hp' & Hf')|(? & (d & t & rest & rs & r & -> & -> & ? & ?) & Hc')].
      * left. split_and!; [done|by constructor|..]; [rewrite Hp', Hp|rewrite Hf', Hf];
          rewrite summary_cons; symmetry; apply (assoc combine_shutdown_outcome).
      * right. split_and!; [done| |].
        -- exists (task :: d), t, rest, (a1 :: rs), r. split_and!; [done|done|by constructor|done].
        -- rewrite Hc', Hf. rewrite summary_cons.
           by rewrite (assoc combine_shutdown_outcome).
    + assert (run_tasks world settings reason phase phase_deadline tasks a3 = act_ret a3) as Hend.
      { destruct tasks; simpl; [done|by rewrite Hs']. }
      rewrite Hend in H. act_inv. exists [a1]. split; [done|]. right. split_and!; [done| |].
      * exists [], task, tasks, [], a1. split_and!; [done|done|constructor|done].
      * rewrite Hc. unfold summary; simpl.
        destruct Hfa as [_ [(-> & _ & ->)|(-> & ->)]]; by destruct (final_outcome l).
Qed.

Abbreviation phase_tasks plan phase :=
  (default [] (ShutdownExecutionPlan.tasks plan !! ShutdownPhase.name phase)).

(** A phase that ran all its tasks. *)
Definition phase_complete plan (phase : ShutdownPhase.t) (r : ShutdownPhaseReport.t) : Prop :=
  ShutdownPhaseReport.phase r = phase ∧
  all_tolerated (ShutdownExecutionPlan.settings plan) (phase_tasks plan phase)
    (ShutdownPhaseReport.tasks r).

(** A phase at which shutdown stopped: before its first task because its deadline had
    elapsed, at a fatal task, or at its end because its deadline had elapsed. *)
Definition phase_stopped plan (phase : ShutdownPhase.t) (r : ShutdownPhaseReport.t) : Prop :=
  ShutdownPhaseReport.phase r = phase ∧
  ((ShutdownPhaseReport.outcome r = TimedOut ∧
    (ShutdownPhaseReport.tasks r = [] ∨
     all_tolerated (ShutdownExecutionPlan.settings plan) (phase_tasks plan phase)
       (ShutdownPhaseReport.tasks r))) ∨
   tolerated_until (ShutdownExecutionPlan.settings plan) (phase_tasks plan phase)
     (ShutdownPhaseReport.tasks r) (ShutdownPhaseReport.outcome r)).

Lemma run_tasks_stopped settings reason phase phase_deadline tasks l :
  stop_after_phase l = true →
  run_tasks world settings reason phase phase_deadline tasks l = act_ret l.
Proof. intros Hs. destruct tasks; simpl; [done|by rewrite Hs]. Qed.

Lemma run_phase_spec plan reason overall final phase s s' r final' stop :
  run_phase world plan reason overall final phase s = (s', (r, final', stop)) →
  (if stop then
     phase_stopped plan phase r ∧
     final' = combine_shutdown_outcome
                (combine_shutdown_outcome final (summary (ShutdownPhaseReport.tasks r)))
                (ShutdownPhaseReport.outcome r)
   else
     phase_complete plan phase r ∧
     final' = combine_shutdown_outcome final
                (combine_shutdown_outcome Complete (summary (ShutdownPhaseReport.tasks r)))).
Proof.
  unfold run_phase. intros H. act_inv. destruct a1.
  - rewrite run_tasks_stopped in Hm2 by done. act_inv. simpl in *. act_inv. simpl in *.
    injection H as <- <- <-. simpl. split; [|by destruct final]. split; [done|]. left. auto.
  - apply run_tasks_spec in Hm2 as (reports & Hr & Hcase); [|done]. simpl in *.
    destruct Hcase as [(Hs & Hall & Hp & Hf)|(Hs & Hun & Hc)].
    + case_decide as Hd.
      * act_inv. match goal with late : bool |- _ => destruct late end; act_inv; injection H as <- <- <-; simpl; rewrite Hr; simpl.
        -- split; [|by rewrite Hf]. split; [done|]. left. auto.
        -- rewrite Hs. split; [done|]. rewrite Hf, Hp. rewrite <-!(assoc combine_shutdown_outcome).
           f_equal. by destruct (summary reports).
      * act_inv. injection H as <- <- <-. simpl. rewrite Hs, Hr. simpl. split; [done|].
        rewrite Hf, Hp, <-!(assoc combine_shutdown_outcome). f_equal. by destruct (summary reports).
    + rewrite decide_False in Hm3.
      2:{ destruct Hun as (?&?&?&?&?&_&_&_&_&[(_&_&->)|(_&->)]); done. }
      act_inv. injection H as <- <- <-. rewrite Hs. simpl. rewrite Hr. simpl. split; [|done].
      split; [done|]. by right.
Qed.

Definition all_reports (reps : list ShutdownPhaseReport.t) : list ShutdownTaskReport.t :=
  mjoin (ShutdownPhaseReport.tasks <$> reps).

(** Every phase ran, or the phases ran up to one at which shutdown stopped. *)
Definition ran_all plan (phases : list ShutdownPhase.t) (reps : list ShutdownPhaseReport.t) : Prop :=
  Forall2 (phase_complete plan) phases reps.

Definition ran_until plan (phases : list ShutdownPhase.t) (reps : list ShutdownPhaseReport.t)
    (outcome : ShutdownOutcome) : Prop :=
  ∃ done phase rest rs r, phases = done ++ phase :: rest ∧ reps = rs ++ [r] ∧
    Forall2 (phase_complete plan) done rs ∧ phase_stopped plan phase r ∧
    ShutdownPhaseReport.outcome r = outcome.

Lemma run_phases_spec plan reason overall phases reps0 seen s s' rep :
  run_phases world plan reason overall phases reps0 (combine_shutdown_outcome Complete seen) s =
    (s', rep) →
  ∃ reps, CoordinatedShutdownReport.reason rep = reason ∧
    CoordinatedShutdownReport.phases rep = reps0 ++ reps ∧
    let outcome := combine_shutdown_outcome Complete
                     (combine_shutdown_outcome seen (summary (all_reports reps))) in
    ((ran_all plan phases reps ∧ CoordinatedShutdownReport.outcome rep = outcome) ∨
     ∃ o, ran_until plan phases reps o ∧
          CoordinatedShutdownReport.outcome rep = combine_shutdown_outcome outcome o).
Proof.
  revert reps0 seen s. induction phases as [|phase phases IH]; intros reps0 seen s H; simpl in H.
  { act_inv. exists []. rewrite app_nil_r. split_and!; [done..|]. left. split; [constructor|].
    by destruct seen. }
  act_inv. destruct a as [[r final'] stop]. apply run_phase_spec in Hm. destruct stop.
  - destruct Hm as [Hst ->]. act_inv. exists [r]. split_and!; [done..|]. right.
    exists (ShutdownPhaseReport.outcome r). split.
    + exists [], phase, phases, [], r. split_and!; done || constructor.
    + unfold all_reports. simpl. rewrite app_nil_r. by rewrite !(assoc combine_shutdown_outcome).
  - destruct Hm as [Hco ->].
    rewrite combine_complete in H.
    apply IH in H as (reps & Hre & Hph & Hcase). exists (r :: reps).
    split_and!; [done|by rewrite Hph, <-(assoc_L (++))|]. unfold all_reports in *. simpl.
    rewrite summary_app, (assoc combine_shutdown_outcome seen). simpl in Hcase.
    destruct Hcase as [[Hall Ho]|(o & (d & p & rest & rs & r' & -> & -> & ? & ? & ?) & Ho)].
    + left. split; [by constructor|done].
    + right. exists o. split; [|by rewrite Ho, <-(assoc combine_shutdown_outcome seen)].
      exists (phase :: d), p, rest, (r :: rs), r'.
      split_and!; [done|done|by constructor|done|done].
Qed.

Definition has_status (st : ShutdownTaskStatus) (reports : list ShutdownTaskReport.t) : Prop :=
  ∃ r, r ∈ reports ∧ ShutdownTaskReport.status r = st.

Lemma has_status_cons st r reports :
  has_status st (r :: reports) ↔ ShutdownTaskReport.status r = st ∨ has_status st reports.
Proof. unfold has_status. set_solver. Qed.

(** The outcome the reports add: the worst of them. *)
Lemma summary_worst reports :
  match summary reports with
  | TimedOut => has_status TaskTimedOut reports
  | Partial => has_status TaskFailed reports ∧ ¬ has_status TaskTimedOut reports
  | NotStarted => ¬ has_status TaskFailed reports ∧ ¬ has_status TaskTimedOut reports
  | _ => False
  end.
Proof.
  induction reports as [|r reports IH]; [unfold has_status; simpl; set_solver|].
  rewrite summary_cons. destruct (summary reports); try done;
    destruct (ShutdownTaskReport.status r) eqn:Hst; unfold combine_shutdown_outcome; simpl;
    rewrite !has_status_cons, ?Hst; intuition congruence.
Qed.

Lemma phase_complete_status plan phases reps r :
  ran_all plan phases reps → r ∈ all_reports reps →
  ShutdownTaskReport.status r ∈ [TaskCompleted; TaskFailed; TaskTimedOut].
Proof.
  intros Hall (l & Hr & (rep & -> & Hrep)%list_elem_of_fmap)%list_elem_of_join.
  apply list_elem_of_lookup in Hrep as [i Hi].
  destruct (Forall2_lookup_r _ _ _ _ _ Hall Hi) as (phase & _ & _ & Ht).
  apply list_elem_of_lookup in Hr as [j Hj].
  destruct (Forall2_lookup_r _ _ _ _ _ Ht Hj) as (task & _ & _ & [->|[? _]]); set_solver.
Qed.

(** What a shutdown run reports.  A successful run reported every phase of the plan in
    order with every task of it, each completed or failed under the policy to continue,
    and is complete exactly when all completed.  A failed run reported exactly the tasks
    up to one that failed under the policy to stop, and none of them timed out.  A run
    that timed out reported a task or a phase that did.  The plan itself cannot be
    refused, and the progress is cleared. *)
Theorem shutdown_run_exact plan reason deadline s :
  let '(s', res) := execute_shutdown_plan world plan reason deadline s in
  s'.2 = ShutdownProgress.default ∧
  match res with
  | Ok rep =>
      let reports := all_reports (CoordinatedShutdownReport.phases rep) in
      ran_all plan (ShutdownExecutionPlan.phases plan) (CoordinatedShutdownReport.phases rep) ∧
      ¬ has_status TaskTimedOut reports ∧
      (if decide (CoordinatedShutdownReport.outcome rep = Complete)
       then ∀ r, r ∈ reports → ShutdownTaskReport.status r = TaskCompleted
       else CoordinatedShutdownReport.outcome rep = Partial ∧ has_status TaskFailed reports)
  | Err (ErrFailed rep) =>
      ran_until plan (ShutdownExecutionPlan.phases plan) (CoordinatedShutdownReport.phases rep)
        Failed ∧
      ¬ has_status TaskTimedOut (all_reports (CoordinatedShutdownReport.phases rep))
  | Err (ErrTimedOut rep) =>
      has_status TaskTimedOut (all_reports (CoordinatedShutdownReport.phases rep)) ∨
      ran_until plan (ShutdownExecutionPlan.phases plan) (CoordinatedShutdownReport.phases rep)
        TimedOut
  | Err (ErrRegistry _) => False
  end.
Proof.
  destruct (execute_shutdown_plan world plan reason deadline s) as [s' res] eqn:H.
  unfold execute_shutdown_plan in H. act_inv. injection Hm0 as <- <-. split; [done|].
  apply (run_phases_spec _ _ _ _ [] NotStarted) in Hm as (reps & _ & Hph & Hcase).
  simpl in Hph, Hcase. subst reps. set (reps := CoordinatedShutdownReport.phases a) in *.
  unfold report_to_result. pose proof (summary_worst (all_reports reps)) as Hw.
  destruct Hcase as [[Hall Ho]|(o & Hun & Ho)].
  - rewrite Ho. destruct (summary (all_reports reps)) eqn:Hs; try done; simpl; fold reps.
    + split_and!; [done|tauto|]. rewrite Ho, decide_True by done. intros r Hr.
      pose proof (phase_complete_status _ _ _ _ Hall Hr) as Hst. destruct Hw as [Hw1 Hw2].
      destruct (ShutdownTaskReport.status r) eqn:Hr'; try done;
        [exfalso; clear -Hst; set_solver..|exfalso; apply Hw1; by exists r|
         exfalso; apply Hw2; by exists r|exfalso; clear -Hst; set_solver].
    + split_and!; [done|tauto|]. rewrite Ho, decide_False by done. split; [done|tauto].
    + by left.
  - assert (o = Failed ∨ o = TimedOut) as Hof.
    { destruct Hun as (?&?&?&?&r&_&_&_&(_&[[-> _]|(?&?&?&?&?&_&_&_&_&Hfa)])&<-); [by right|].
      destruct Hfa as [(_&_&->)|(_&->)]; auto. }
    rewrite Ho. destruct (summary (all_reports reps)) eqn:Hs; try done;
      destruct Hof as [-> | ->]; simpl; fold reps; tauto.
Qed.
End reports.

(** ** Concurrent callers

    [run] and [run_with_deadline] may be called any number of times, concurrently, and
    each call is a future its owner may drop.  The registry is behind a mutex; the first
    caller executes the plan and holds the sending end of a watch channel, later callers
    wait on the receiving end.  A caller is one of the states of [run_internal]. *)
Module CoordinatedShutdown.

Inductive ShutdownRunState :=
| RunNotStarted
| RunRunning
| RunFinished (res : ShutdownRunResult).

Definition not_started (state : ShutdownRunState) : bool :=
  match state with RunNotStarted => true | _ => false end.

Section callers.
Context {W R : Type} (world : ShutdownWorld W R).

(** The watch channel: its value and whether the sender is alive. *)
Record watch := mk_watch { value : option ShutdownRunResult; sender_alive : bool }.

Inductive caller :=
| Calling (reason : CoordinatedShutdownReason.t) (deadline : option Z)
| Executing (plan : ShutdownExecutionPlan.t R) (reason : CoordinatedShutdownReason.t)
    (deadline : option Z)
| Executed (res : ShutdownRunResult)
| Sent (res : ShutdownRunResult)
| Waiting (reason : CoordinatedShutdownReason.t) (deadline : option Z)
| Returned (res : ShutdownRunResult)
| Dropped.

Record t := mk {
  registry : ShutdownRegistry.t R ShutdownRunState;
  channel : option watch;
  env : W * ShutdownProgress.t;
  callers : gmap nat caller;
  executions : nat;  (* how many executions of a plan were begun *)
}.

Definition new (settings : CoordinatedShutdownSettings.t) (w : W) : t :=
  mk (ShutdownRegistry.new settings RunNotStarted) None (w, ShutdownProgress.default) ∅ 0.

Definition set_caller (self : t) (c : nat) (x : caller) : t :=
  mk (registry self) (channel self) (env self) (<[c := x]> (callers self)) (executions self).

Definition set_channel (self : t) (ch : watch) : t :=
  mk (registry self) (Some ch) (env self) (callers self) (executions self).

Definition set_registry (self : t) (r : ShutdownRegistry.t R ShutdownRunState) : t :=
  mk r (channel self) (env self) (callers self) (executions self).

Definition run_state (self : t) : ShutdownRunState := ShutdownRegistry.run_state (registry self).

(** The part of [run_internal] under the lock. *)
Definition take_action (self : t) (c : nat) (reason : CoordinatedShutdownReason.t)
    (deadline : option Z) : t :=
  match run_state self with
  | RunNotStarted =>
      match execution_plan (registry self) with
      | Err e => set_caller self c (Returned (Err e))
      | Ok plan =>
          mk (ShutdownRegistry.set_run_state (registry self) RunRunning)
            (Some (mk_watch None true)) (env self)
            (<[c := Executing plan reason deadline]> (callers self)) (S (executions self))
      end
  | RunRunning => set_caller self c (Waiting reason deadline)
  | RunFinished res => set_caller self c (Returned res)
  end.

(** One step of a caller up to its next lock, channel operation or await; [None] when it
    has nothing to do. *)
Definition advance (self : t) (c : nat) : option t :=
  match callers self !! c with
  | Some (Calling reason deadline) => Some (take_action self c reason deadline)
  | Some (Executing plan reason deadline) =>
      let '(env, res) := execute_shutdown_plan world plan reason deadline (env self) in
      Some (mk (registry self) (channel self) env (<[c := Executed res]> (callers self))
              (executions self))
  | Some (Executed res) =>
      Some (set_caller (set_channel self (mk_watch (Some res) true)) c (Sent res))
  | Some (Sent res) =>
      let self := set_registry self
        (ShutdownRegistry.set_run_state (registry self) (RunFinished res)) in
      Some (set_caller (set_channel self (mk_watch (Some res) false)) c (Returned res))
  | Some (Waiting reason deadline) =>
      match channel self with
      | Some (mk_watch (Some res) _) => Some (set_caller self c (Returned res))
      | Some (mk_watch None true) => None
      | _ => Some (set_caller self c (Calling reason deadline))
      end
  | Some (Returned _) | Some Dropped | None => None
  end.

Inductive event :=
| Call (c : nat) (reason : CoordinatedShutdownReason.t) (deadline : option Z)
| Register (op : ShutdownRegistry.registration R)
| Advance (c : nat)
| DropCaller (c : nat).

(** Dropping the future of a caller at an await point; the one that executes takes the
    sender with it. *)
Definition drop_caller (self : t) (c : nat) : t :=
  match callers self !! c with
  | Some (Calling _ _) | Some (Waiting _ _) => set_caller self c Dropped
  | Some (Executing _ _ _) =>
      let value := match channel self with Some ch => value ch | None => None end in
      set_caller (set_channel self (mk_watch value false)) c Dropped
  | _ => self
  end.

Definition do_event (self : t) (e : event) : t :=
  match e with
  | Call c reason deadline =>
      match callers self !! c with
      | None => set_caller self c (Calling reason deadline)
      | Some _ => self
      end
  | Register op => set_registry self (ShutdownRegistry.register not_started (registry self) op)
  | Advance c => default self (advance self c)
  | DropCaller c => drop_caller self c
  end.

Definition do_events (self : t) (es : list event) : t := foldl do_event self es.

(** [snapshot]: the outcome, the current phase and task, and the report. *)
Definition snapshot_from_result (res : ShutdownRunResult) :
    ShutdownOutcome * option CoordinatedShutdownReport.t :=
  match res with
  | Ok report => (CoordinatedShutdownReport.outcome report, Some report)
  | Err (ErrRegistry _) => (Failed, None)
  | Err (ErrFailed report) => (Failed, Some report)
  | Err (ErrTimedOut report) => (TimedOut, Some report)
  end.

Definition snapshot (self : t) :
    ShutdownOutcome * ShutdownProgress.t * option CoordinatedShutdownReport.t :=
  let of_result res :=
    let '(outcome, report) := snapshot_from_result res in
    (outcome, ShutdownProgress.default, report) in
  match run_state self with
  | RunNotStarted => (NotStarted, ShutdownProgress.default, None)
  | RunRunning =>
      match channel self with
      | Some (mk_watch (Some res) _) => of_result res
      | _ => (Running, (env self).2, None)
      end
  | RunFinished res => of_result res
  end.
End callers.
Arguments t : clear implicits.
Arguments event : clear implicits.
Arguments caller : clear implicits.
End CoordinatedShutdown.

(** ** One execution, one result *)

Section callers_correct.
Context {W R : Type} (world : ShutdownWorld W R).
Import CoordinatedShutdown.
Implicit Types sys : CoordinatedShutdown.t W R.

(** The caller that executes the plan, and the others. *)
Definition owns (ch : watch) (x : caller R) : Prop :=
  match x with
  | Executing _ _ _ | Executed _ => ch = mk_watch None true
  | Sent res => ch = mk_watch (Some res) true
  | _ => False
  end.

Definition follows (ch : option watch) (x : caller R) : Prop :=
  match x with
  | Calling _ _ | Dropped => True
  | Waiting _ _ => is_Some ch
  | Returned res => ch ≫= value = Some res
  | _ => False
  end.

Definition abandoned sys : Prop :=
  run_state sys = RunRunning ∧ channel sys = Some (mk_watch None false) ∧
  ∀ c x, callers sys !! c = Some x → follows (channel sys) x.

Definition invariant sys : Prop :=
  wf (registry sys) ∧
  match run_state sys with
  | RunNotStarted =>
      executions sys = 0%nat ∧ channel sys = None ∧
      ∀ c x, callers sys !! c = Some x → follows None x
  | RunRunning =>
      executions sys = 1%nat ∧
      (abandoned sys ∨
       ∃ ch owner o, channel sys = Some ch ∧ callers sys !! owner = Some o ∧ owns ch o ∧
         ∀ c x, callers sys !! c = Some x → c ≠ owner → follows (Some ch) x)
  | RunFinished res =>
      executions sys = 1%nat ∧
      ∃ ch, channel sys = Some ch ∧ value ch = Some res ∧
        ∀ c x, callers sys !! c = Some x → follows (Some ch) x
  end.

Lemma execution_plan_ok (r : ShutdownRegistry.t R ShutdownRunState) :
  wf r → ∃ plan, execution_plan r = Ok plan.
Proof.
  intros Hwf. destruct (ordered_phase_names_sound r Hwf) as (l & Hl & _).
  unfold execution_plan. rewrite Hl. eauto.
Qed.

Lemma wf_set_run_state (r : ShutdownRegistry.t R ShutdownRunState) st :
  wf r → wf (ShutdownRegistry.set_run_state r st).
Proof. intros []. by split. Qed.

Lemma follows_insert ch (m : gmap nat (caller R)) c y :
  follows ch y → (∀ c x, m !! c = Some x → follows ch x) →
  ∀ c' x, <[c := y]> m !! c' = Some x → follows ch x.
Proof. intros Hy Hm c' x [[_ <-]|[_ ?]]%lookup_insert_Some; eauto. Qed.

Lemma register_run_state (r : ShutdownRegistry.t R ShutdownRunState) op :
  ShutdownRegistry.run_state (ShutdownRegistry.register not_started r op) =
  ShutdownRegistry.run_state r.
Proof.
  destruct op; simpl; unfold ShutdownRegistry.add_phase_after, ShutdownRegistry.add_phase_before,
    ShutdownRegistry.add_phase_dependency, ShutdownRegistry.add_task; repeat case_match; done.
Qed.

Lemma follows_none ch x : follows None x → follows ch x.
Proof. destruct x; simpl; try done; by intros []. Qed.

Lemma follows_unset a ch x : follows (Some (mk_watch None a)) x → follows (Some ch) x.
Proof. destruct x; simpl; try done; intros; eauto. Qed.

Lemma follows_same_value v a b x :
  follows (Some (mk_watch v a)) x → follows (Some (mk_watch v b)) x.
Proof. destruct x; simpl; try done; intros; eauto. Qed.

Definition is_owner (x : caller R) : Prop :=
  match x with Executing _ _ _ | Executed _ | Sent _ => True | _ => False end.

Lemma owns_is_owner ch x : owns ch x → is_owner x.
Proof. by destruct x. Qed.

Lemma follows_not_owner ch x : follows ch x → ¬ is_owner x.
Proof. destruct x; simpl; tauto. Qed.

(** A caller that does not execute may move among the states of a follower. *)
Lemma invariant_follower sys c y :
  invariant sys → (∀ x, callers sys !! c = Some x → ¬ is_owner x) → follows (channel sys) y →
  invariant (set_caller sys c y).
Proof.
  intros [Hwf Hinv] Hc Hy. split; [done|].
  change (run_state (set_caller sys c y)) with (run_state sys).
  destruct (run_state sys) eqn:Hrs; simpl.
  - destruct Hinv as (? & Hch & Hf). rewrite Hch in Hy. split_and!; [done..|].
    by apply follows_insert.
  - destruct Hinv as (? & [(_ & Hch & Hf)|(ch & owner & o & Hch & Ho & Hown & Hf)]);
      (split; [done|]).
    + left. split_and!; [done..|]. by apply follows_insert.
    + rewrite Hch in Hy. right. exists ch, owner, o. assert (c ≠ owner) as Hne.
      { intros ->. apply (Hc _ Ho). by apply owns_is_owner in Hown. }
      split_and!; [done|by rewrite lookup_insert_ne|done|].
      intros c' x [[_ <-]|[_ ?]]%lookup_insert_Some ?; [done|eauto].
  - destruct Hinv as (? & ch & Hch & ? & Hf). rewrite Hch in Hy. split; [done|].
    exists ch. split_and!; [done..|]. by apply follows_insert.
Qed.

(** The caller that executes: there is one only while the run is in progress. *)
Lemma invariant_owner sys c x :
  invariant sys → callers sys !! c = Some x → is_owner x →
  wf (registry sys) ∧ run_state sys = RunRunning ∧ executions sys = 1%nat ∧
  ∃ ch, channel sys = Some ch ∧ owns ch x ∧
    ∀ c' x', callers sys !! c' = Some x' → c' ≠ c → follows (Some ch) x'.
Proof.
  intros [Hwf Hinv] Hc Hx. destruct (run_state sys) eqn:Hrs.
  - destruct Hinv as (_ & _ & Hf). by apply Hf, follows_not_owner in Hc.
  - destruct Hinv as (? & [(_ & _ & Hf)|(ch & owner & o & Hch & Ho & Hown & Hf)]).
    + by apply Hf, follows_not_owner in Hc.
    + destruct (decide (c = owner)) as [->|Hne].
      * simplify_eq. split_and!; [done..|]. eauto.
      * by apply (Hf _ _ Hc), follows_not_owner in Hne.
  - destruct Hinv as (_ & ch & _ & _ & Hf). by apply Hf, follows_not_owner in Hc.
Qed.

(** The executing caller moves on, or gives up. *)
Lemma invariant_owner_step sys c x ch o env' :
  invariant sys → callers sys !! c = Some x → is_owner x → owns ch o →
  (∀ y, follows (channel sys) y → follows (Some ch) y) →
  invariant (mk (registry sys) (Some ch) env' (<[c := o]> (callers sys)) (executions sys)).
Proof.
  intros Hinv Hc Hx Ho Hmono.
  destruct (invariant_owner _ _ _ Hinv Hc Hx) as (Hwf & Hrs & Hex & ch0 & Hch0 & _ & Hf).
  split; [done|]. unfold run_state in *. simpl. rewrite Hrs. split; [done|]. right.
  exists ch, c, o. split_and!; [done|by rewrite lookup_insert_eq|done|].
  intros c' x' [[<- _]|[_ ?]]%lookup_insert_Some ?; [done|].
  apply Hmono. rewrite Hch0. eauto.
Qed.

Lemma invariant_running_channel sys :
  invariant sys → run_state sys = RunRunning → is_Some (channel sys).
Proof.
  intros [_ Hinv] Hrs. rewrite Hrs in Hinv.
  destruct Hinv as (_ & [(_ & -> & _)|(ch & _ & _ & -> & _)]); eauto.
Qed.

Lemma invariant_advance sys c sys' :
  invariant sys → advance world sys c = Some sys' → invariant sys'.
Proof.
  intros Hinv. unfold advance. destruct (callers sys !! c) as [x|] eqn:Hc; [|done].
  destruct x as [reason deadline|plan reason deadline|res|res|reason deadline|res|].
  - intros [= <-]. unfold take_action. destruct (run_state sys) eqn:Hrs.
    + pose proof Hinv as [Hwf Hi]. rewrite Hrs in Hi. destruct Hi as (Hex & _ & Hf).
      destruct (execution_plan_ok _ Hwf) as [plan ->]. split; [by apply wf_set_run_state|].
      simpl. rewrite Hex. split; [done|]. right. eexists _, c, _.
      split_and!; [done|by rewrite lookup_insert_eq|done|].
      intros c' x [[<- _]|[_ Hx]]%lookup_insert_Some ?; [done|].
      apply Hf in Hx. by apply follows_none.
    + apply invariant_follower; [done| |by apply invariant_running_channel].
      intros x Hx. simplify_eq. simpl. tauto.
    + apply invariant_follower; [done| |].
      * intros x Hx. simplify_eq. simpl. tauto.
      * pose proof Hinv as [_ Hi]. rewrite Hrs in Hi. destruct Hi as (_ & ch & Hch & Hv & _).
        rewrite Hch. exact Hv.
  - destruct (execute_shutdown_plan _ _ _ _ _) as [env' res]. intros [= <-].
    pose proof (invariant_owner _ _ _ Hinv Hc I) as (_ & _ & _ & ch & Hch & Ho & _).
    rewrite Hch. eapply (invariant_owner_step sys c); [done|exact Hc|exact I|exact Ho|].
    by rewrite Hch.
  - intros [= <-]. eapply (invariant_owner_step sys c); [done|exact Hc|exact I|reflexivity|].
    pose proof (invariant_owner _ _ _ Hinv Hc I) as (_ & _ & _ & ch & Hch & Ho & _).
    rewrite Hch. simpl in Ho. subst. intros y. apply follows_unset.
  - intros [= <-].
    pose proof (invariant_owner _ _ _ Hinv Hc I) as (Hwf & _ & Hex & ch & Hch & Ho & Hf).
    split; [by apply wf_set_run_state|]. simpl. split; [done|]. eexists. split_and!; [done|done|].
    intros c' x [[_ <-]|[? Hx]]%lookup_insert_Some; [done|]. apply Hf in Hx; [|done].
    simpl in Ho. subst. by eapply follows_same_value.
  - destruct (channel sys) as [[[res|] []]|] eqn:Hch; intros [= <-];
      (apply invariant_follower; [done|intros x Hx; simplify_eq; simpl; tauto|]);
      by rewrite ?Hch.
  - done.
  - done.
Qed.

Lemma invariant_register sys op :
  invariant sys →
  invariant (set_registry sys (ShutdownRegistry.register not_started (registry sys) op)).
Proof.
  intros [Hwf Hinv]. split; [by apply (wf_register_all not_started _ [op])|].
  unfold abandoned, run_state in *. simpl. by rewrite register_run_state.
Qed.

Lemma drop_executing_abandoned sys c plan reason deadline :
  invariant sys → callers sys !! c = Some (Executing plan reason deadline) →
  abandoned (drop_caller sys c) ∧ executions (drop_caller sys c) = 1%nat ∧
  wf (registry (drop_caller sys c)).
Proof.
  intros Hinv Hc.
  destruct (invariant_owner _ _ _ Hinv Hc I) as (Hwf & Hrs & Hex & ch & Hch & Ho & Hf).
  unfold drop_caller. rewrite Hc, Hch. simpl in Ho. subst. simpl. split_and!; [|done..].
  split_and!; [done|done|]. simpl. intros c' x [[_ <-]|[? Hx]]%lookup_insert_Some; [done|].
  apply Hf in Hx; [|done]. by eapply follows_unset.
Qed.

Lemma invariant_drop sys c : invariant sys → invariant (drop_caller sys c).
Proof.
  intros Hinv. destruct (callers sys !! c) as [[]|] eqn:Hc;
    try (unfold drop_caller; rewrite Hc; done);
    try (unfold drop_caller; rewrite Hc; apply invariant_follower;
         [done|intros x Hx; simplify_eq; simpl; tauto|done]).
  destruct (drop_executing_abandoned _ _ _ _ _ Hinv Hc) as (Hab & Hex & Hwf).
  split; [done|]. pose proof Hab as (-> & _ & _). auto.
Qed.

Lemma invariant_do_event sys e : invariant sys → invariant (do_event world sys e).
Proof.
  intros Hinv. destruct e as [c reason deadline|op|c|c]; simpl.
  - destruct (callers sys !! c) eqn:Hc; [done|]. apply invariant_follower; [done| |done].
    intros x Hx. by simplify_eq.
  - by apply invariant_register.
  - destruct (advance world sys c) eqn:Ha; simpl; [|done]. by eapply invariant_advance.
  - by apply invariant_drop.
Qed.

Lemma invariant_do_events sys es : invariant sys → invariant (do_events world sys es).
Proof.
  revert sys. induction es as [|e es IH]; intros sys Hinv; [done|].
  by apply IH, invariant_do_event.
Qed.

Lemma invariant_new settings w : invariant (new settings w : CoordinatedShutdown.t W R).
Proof. split; [apply wf_new|]. by split_and!. Qed.

Lemma invariant_returned sys c res :
  invariant sys → callers sys !! c = Some (Returned res) →
  executions sys = 1%nat ∧ channel sys ≫= value = Some res.
Proof.
  intros [Hwf Hinv] Hc. destruct (run_state sys) eqn:Hrs.
  - destruct Hinv as (_ & _ & Hf). by apply Hf in Hc.
  - destruct Hinv as (Hex & [(_ & _ & Hf)|(ch & owner & o & Hch & Ho & Hown & Hf)]).
    + by apply Hf in Hc.
    + rewrite Hch. split; [done|]. destruct (decide (c = owner)) as [->|Hne].
      * simplify_eq. done.
      * exact (Hf _ _ Hc Hne).
  - destruct Hinv as (Hex & ch & Hch & _ & Hf). rewrite Hch. split; [done|]. exact (Hf _ _ Hc).
Qed.

(** Whatever callers do - call, race, wait, give up, register - the plan is executed
    at most once, and all callers that return give the same result. *)
Theorem shutdown_runs_once settings w es :
  let sys := do_events world (new settings w) es in
  (executions sys <= 1)%nat ∧
  ∀ c c' res res', callers sys !! c = Some (Returned res) →
    callers sys !! c' = Some (Returned res') → res = res'.
Proof.
  intros sys. assert (invariant sys) as Hinv by apply invariant_do_events, invariant_new. split.
  - destruct Hinv as [_ Hinv]. destruct (run_state sys); destruct Hinv as [-> _]; lia.
  - intros c c' res res' Hc Hc'. apply invariant_returned in Hc as [_ Hv]; [|done].
    apply invariant_returned in Hc' as [_ Hv']; [|done]. congruence.
Qed.

(** Once abandoned, a run stays abandoned. *)
Lemma abandoned_do_event sys e : abandoned sys → abandoned (do_event world sys e).
Proof.
  intros Hab. pose proof Hab as (Hrs & Hch & Hf).
  assert (∀ c y, follows (channel sys) y → abandoned (set_caller sys c y)) as Hset.
  { intros c y Hy. split_and!; [done|done|]. by apply follows_insert. }
  rewrite Hch in Hset, Hf.
  destruct e as [c reason deadline|op|c|c]; simpl.
  - by destruct (callers sys !! c); [|apply Hset].
  - split_and!; [|done|apply Hab]. unfold run_state in *. simpl. by rewrite register_run_state.
  - unfold advance. destruct (callers sys !! c) as [x|] eqn:Hc; [|done]. apply Hf in Hc.
    destruct x; try done; simpl.
    + unfold take_action. rewrite Hrs. apply Hset. simpl. eauto.
    + rewrite Hch. by apply Hset.
  - unfold drop_caller. destruct (callers sys !! c) as [x|] eqn:Hc; [|done]. apply Hf in Hc.
    by destruct x; try done; apply Hset.
Qed.

Lemma abandoned_do_events sys es : abandoned sys → abandoned (do_events world sys es).
Proof.
  revert sys. induction es as [|e es IH]; intros sys Hab; [done|]. by apply IH, abandoned_do_event.
Qed.

(** When the caller that executes the plan is dropped, the shutdown never finishes: no
    later call ever returns, the plan is not executed again, the state stays running, and
    a waiting caller can always take another turn of its loop without progress. *)
Theorem dropped_run_never_finishes settings w es es' c plan reason deadline :
  callers (do_events world (new settings w) es) !! c = Some (Executing plan reason deadline) →
  let sys := do_events world (new settings w) (es ++ [DropCaller c] ++ es') in
  run_state sys = RunRunning ∧ executions sys = 1%nat ∧
  (∀ c' res, callers sys !! c' ≠ Some (Returned res)) ∧
  (∀ c' r d, callers sys !! c' = Some (Waiting r d) →
     callers (do_events world sys [Advance c'; Advance c']) !! c' = Some (Waiting r d)).
Proof.
  intros Hc. pose proof (invariant_do_events _ es (invariant_new settings w)) as Hinv.
  unfold do_events. rewrite !foldl_app. fold (do_events world (new settings w) es).
  set (sys0 := do_events world (new settings w) es) in *. simpl.
  destruct (drop_executing_abandoned _ _ _ _ _ Hinv Hc) as (Hab & _ & _).
  pose proof (abandoned_do_events _ es' Hab) as (Hrs & Hch & Hf).
  pose proof (invariant_do_events _ es' (invariant_drop _ c Hinv)) as [_ Hinv'].
  fold (do_events world (drop_caller sys0 c) es').
  set (sys := do_events world (drop_caller sys0 c) es') in *. rewrite Hrs in Hinv'.
  split_and!; [done|apply Hinv'| |].
  - intros c' res Hr. apply Hf in Hr. simpl in Hr. by rewrite Hch in Hr.
  - intros c' r d Hw.
    assert (advance world sys c' = Some (set_caller sys c' (Calling r d))) as Ha
      by (unfold advance; by rewrite Hw, Hch).
    unfold do_events; simpl. rewrite Ha. simpl. unfold advance. simpl. rewrite lookup_insert_eq.
    simpl. unfold take_action. change (run_state (set_caller _ _ _)) with (run_state sys).
    rewrite Hrs. simpl. by rewrite lookup_insert_eq.
Qed.

(** *** Progress *)

Definition only_advances (es : list (event R)) : Prop := Forall (fun e => ∃ c, e = Advance c) es.

Lemma do_events_app sys es es' :
  do_events world sys (es ++ es') = do_events world (do_events world sys es) es'.
Proof. apply foldl_app. Qed.

(** The executing caller finishes on its own and leaves the others where they are. *)
Lemma owner_finishes sys c x :
  invariant sys → callers sys !! c = Some x → is_owner x →
  ∃ es res, only_advances es ∧ run_state (do_events world sys es) = RunFinished res ∧
    callers (do_events world sys es) = <[c := Returned res]> (callers sys).
Proof.
  assert (∀ sys res, callers sys !! c = Some (Sent res) →
    run_state (do_events world sys [Advance c]) = RunFinished res ∧
    callers (do_events world sys [Advance c]) = <[c := Returned res]> (callers sys)) as Hsent.
  { intros sys0 res Hc. unfold do_events; simpl. unfold advance. by rewrite Hc. }
  assert (∀ sys res, callers sys !! c = Some (Executed res) →
    run_state (do_events world sys [Advance c; Advance c]) = RunFinished res ∧
    callers (do_events world sys [Advance c; Advance c]) = <[c := Returned res]> (callers sys))
    as Hexed.
  { intros sys0 res Hc. change [Advance c; Advance c] with ([Advance c] ++ [@Advance R c]).
    rewrite do_events_app. set (sys1 := do_events world sys0 [Advance c]).
    assert (sys1 = set_caller (set_channel sys0 (mk_watch (Some res) true)) c (Sent res)) as He.
    { subst sys1. unfold do_events; simpl. unfold advance. by rewrite Hc. }
    destruct (Hsent sys1 res) as [-> ->]; [by rewrite He; simpl; rewrite lookup_insert_eq|].
    rewrite He. simpl. by rewrite insert_insert_eq. }
  intros Hinv Hc Hx. destruct x as [|plan reason deadline|res|res| | |]; try done.
  - destruct (execute_shutdown_plan world plan reason deadline (env sys)) as [env' res] eqn:Hexe.
    exists [Advance c; Advance c; Advance c], res. split; [repeat constructor; eauto|].
    change [Advance c; Advance c; Advance c] with ([Advance c] ++ [@Advance R c; Advance c]).
    rewrite do_events_app. set (sys1 := do_events world sys [Advance c]).
    assert (callers sys1 = <[c := Executed res]> (callers sys)) as He.
    { subst sys1. unfold do_events; simpl. unfold advance. by rewrite Hc, Hexe. }
    destruct (Hexed sys1 res) as [-> ->]; [by rewrite He, lookup_insert_eq|].
    by rewrite He, insert_insert_eq.
  - exists [Advance c; Advance c], res. split; [repeat constructor; eauto|]. by apply Hexed.
  - exists [Advance c], res. split; [repeat constructor; eauto|]. by apply Hsent.
Qed.

(** After the run every pending caller returns its result. *)
Lemma pending_returns sys c x res :
  invariant sys → run_state sys = RunFinished res → callers sys !! c = Some x →
  (match x with Calling _ _ | Waiting _ _ => True | _ => False end) →
  callers (do_events world sys [Advance c]) !! c = Some (Returned res).
Proof.
  intros [_ Hinv] Hrs Hc Hx. rewrite Hrs in Hinv. destruct Hinv as (_ & [v a] & Hch & Hv & _).
  simpl in Hv. subst v. unfold do_events; simpl. unfold advance. rewrite Hc. destruct x; try done.
  - simpl. unfold take_action. rewrite Hrs. simpl. by rewrite lookup_insert_eq.
  - rewrite Hch. simpl. by rewrite lookup_insert_eq.
Qed.

(** Unless the executing caller was dropped, every call that is still pending can
    return: a few turns of the callers involved are enough, and no turn is blocked. *)
Theorem pending_call_returns settings w es c x :
  let sys := do_events world (new settings w) es in
  ¬ abandoned sys → callers sys !! c = Some x → x ≠ Dropped →
  ∃ es' res, only_advances es' ∧ callers (do_events world sys es') !! c = Some (Returned res).
Proof.
  intros sys Hab Hc Hx. assert (invariant sys) as Hinv by apply invariant_do_events, invariant_new.
  assert (∀ sys x owner o, invariant sys → callers sys !! owner = Some o → is_owner o →
    callers sys !! c = Some x → x ≠ Dropped → ∃ es' res, only_advances es' ∧
    callers (do_events world sys es') !! c = Some (Returned res)) as Hrun.
  { clear. intros sys x owner o Hinv Ho Hown Hc Hx.
    destruct (owner_finishes _ _ _ Hinv Ho Hown) as (es & res & Hes & Hrs & Hcs).
    destruct (decide (c = owner)) as [->|Hne].
    { exists es, res. by rewrite Hcs, lookup_insert_eq. }
    destruct (invariant_owner _ _ _ Hinv Ho Hown) as (_ & _ & _ & ch & _ & _ & Hf).
    pose proof (Hf _ _ Hc Hne) as Hfx. destruct x as [r d| | | |r d|res'|]; try done.
    3:{ exists [], res'. split; [constructor|done]. }
    all: exists (es ++ [Advance c]), res; split; [apply Forall_app; split; [done|repeat constructor; eauto]|].
    all: rewrite do_events_app; eapply pending_returns; [by apply invariant_do_events|done|
      by rewrite Hcs, lookup_insert_ne|done]. }
  pose proof Hinv as [Hwf Hi]. destruct (run_state sys) eqn:Hrs.
  - destruct Hi as (_ & Hch & Hf). pose proof (Hf _ _ Hc) as Hfx.
    assert (∀ r d, x = Calling r d → ∃ es' res, only_advances es' ∧
      callers (do_events world sys es') !! c = Some (Returned res)) as Hstart.
    { intros r d ->. destruct (execution_plan_ok _ Hwf) as [plan Hplan].
      set (sys1 := do_events world sys [Advance c]).
      assert (callers sys1 !! c = Some (Executing plan r d)) as Hc1.
      { subst sys1. unfold do_events; simpl. unfold advance. rewrite Hc. simpl.
        unfold take_action. rewrite Hrs, Hplan. simpl. by rewrite lookup_insert_eq. }
      destruct (Hrun sys1 _ c _ (invariant_do_events _ _ Hinv) Hc1 I Hc1) as (es' & res & ? & ?);
        [done|]. exists ([Advance c] ++ es'), res. rewrite do_events_app. split; [|done].
      apply Forall_app. split; [repeat constructor; eauto|done]. }
    destruct x as [r d| | | |r d|res'|]; try done; [by eapply Hstart|by destruct Hfx].
  - destruct Hi as (_ & [?|(ch & owner & o & Hch & Ho & Hown & Hf)]); [done|].
    eapply (Hrun sys x owner o); eauto. by apply owns_is_owner in Hown.
  - pose proof Hi as (_ & ch & _ & _ & Hf). pose proof (Hf _ _ Hc) as Hfx.
    destruct x as [r d| | | |r d|res'|]; try done; [| |by exists [], res'; split; [constructor|]].
    all: exists [Advance c], res; split; [repeat constructor; eauto|].
    all: by eapply pending_returns.
Qed.
End callers_correct.

(** ** Concrete runs

    A simulated world: the clock is a number, a task takes a fixed time and then gives
    its result, and a timer cuts it off at the deadline. *)
Definition simulated : ShutdownWorld Z (Z * RakkaResult unit) := {|
  instant_now := fun w => (w, w);
  await := fun run _ w => (w + run.1, run.2);
  timeout_at := fun deadline run _ w =>
    if w + run.1 <=? deadline then (w + run.1, Some run.2) else (w `max` deadline, None);
|}.

Definition demo_options (timeout : Z) : ShutdownTaskOptions.t :=
  ShutdownTaskOptions.with_failure_policy
    (ShutdownTaskOptions.with_timeout ShutdownTaskOptions.new timeout) Continue.

Definition demo_registrations : list (CoordinatedShutdown.event (Z * RakkaResult unit)) :=
  [ CoordinatedShutdown.Register (ShutdownRegistry.AddPhaseAfter "flush-cache"
      ShutdownPhase.stop_ingress);
    CoordinatedShutdown.Register (ShutdownRegistry.AddTask (ShutdownPhase.trusted "flush-cache")
      "flush" (demo_options 5) (9, Ok tt));
    CoordinatedShutdown.Register (ShutdownRegistry.AddTask ShutdownPhase.stop_remoting
      "close" ShutdownTaskOptions.new (2, Ok tt)) ].

Definition demo_system (es : list (CoordinatedShutdown.event (Z * RakkaResult unit))) :
    CoordinatedShutdown.t Z (Z * RakkaResult unit) :=
  CoordinatedShutdown.do_events simulated
    (CoordinatedShutdown.new CoordinatedShutdownSettings.new 100) (demo_registrations ++ es).

Definition demo_call (c : nat) : CoordinatedShutdown.event (Z * RakkaResult unit) :=
  CoordinatedShutdown.Call c CoordinatedShutdownReason.user_request None.

(** A task that times out under the policy to continue does not stop the run - the last
    phase still closes remoting - but the run is reported as stopped by a timeout. *)
Example tolerated_timeout_is_an_error :
  match CoordinatedShutdown.callers (demo_system
    [demo_call 0; CoordinatedShutdown.Advance 0; CoordinatedShutdown.Advance 0;
     CoordinatedShutdown.Advance 0; CoordinatedShutdown.Advance 0]) !! 0%nat with
  | Some (CoordinatedShutdown.Returned (Err (ErrTimedOut report))) =>
      length (CoordinatedShutdownReport.phases report) = 10%nat ∧
      (fun r => (ShutdownTaskReport.task_name r, ShutdownTaskReport.status r)) <$>
        all_reports (CoordinatedShutdownReport.phases report) =
      [("flush", TaskTimedOut); ("close", TaskCompleted)]
  | _ => False
  end.
Proof. vm_compute. split; reflexivity. Qed.

Lemma dropped_run_never_finishes_witness :
  CoordinatedShutdown.executions (demo_system
    [demo_call 0; CoordinatedShutdown.Advance 0; CoordinatedShutdown.DropCaller 0;
     demo_call 1; CoordinatedShutdown.Advance 1; CoordinatedShutdown.Advance 1]) = 1%nat.
Proof.
  eapply (dropped_run_never_finishes simulated CoordinatedShutdownSettings.new 100
    (demo_registrations ++ [demo_call 0; CoordinatedShutdown.Advance 0])
    [demo_call 1; CoordinatedShutdown.Advance 1; CoordinatedShutdown.Advance 1] 0).
  vm_compute. reflexivity.
Defined.

Lemma pending_call_returns_witness :
  ∃ es' res, only_advances es' ∧
    CoordinatedShutdown.callers (CoordinatedShutdown.do_events simulated
      (demo_system [demo_call 0; CoordinatedShutdown.Advance 0; demo_call 1;
                    CoordinatedShutdown.Advance 1]) es') !! 1%nat =
    Some (CoordinatedShutdown.Returned res).
Proof.
  eapply (pending_call_returns simulated CoordinatedShutdownSettings.new 100
    (demo_registrations ++ [demo_call 0; CoordinatedShutdown.Advance 0; demo_call 1;
                            CoordinatedShutdown.Advance 1]) 1).
  - intros (_ & Hch & _). vm_compute in Hch. discriminate.
  - vm_compute. reflexivity.
  - discriminate.
Defined.
