(* ===== verification/Routers.v ===== *)
(** * Local routers: [rakka-core/src/routers.rs]

    Pool and group routers: the routee tables with their round-robin cursor and random
    state, the consistent-hash ring, [tell] on every outcome, and the spawning of a pool.
    Actor references, the receptionist's listing, the actor system and the hasher of the
    standard library ([DefaultHasher], whose algorithm is unspecified) are arguments. *)

From stdpp Require Import pretty.
From S2P Require Import Prelude Core Actors.

Definition same_actor (left right : ActorRef.t) : bool :=
  bool_decide (ActorRef.path left = ActorRef.path right) &&
  bool_decide (ActorRef.uid left = ActorRef.uid right).

Definition DEFAULT_CONSISTENT_HASH_VIRTUAL_NODES : nat := 32.

Inductive PoolRoutingStrategy := RoundRobin | Random | ConsistentHash.

#[global] Instance PoolRoutingStrategy_eq_dec : EqDecision PoolRoutingStrategy.
Proof. solve_decision. Defined.

(** [GroupRoutingStrategy] has the same variants. *)
Definition GroupRoutingStrategy : Type := PoolRoutingStrategy.

Inductive GroupNoRouteeBehavior := FailFast | Drop.

(** ** The random generator *)

Definition nonzero_random (value : Z) : Z :=
  if decide (value = 0) then 11400714819323198485 else value.

(** [<<] on a [u64] drops the bits beyond the width. *)
Definition shl_u64 (value n : Z) : Z := wrap_u64 (Z.shiftl value n).

Definition next_random (state : Z) : Z :=
  let value := nonzero_random state in
  let value := Z.lxor value (shl_u64 value 13) in
  let value := Z.lxor value (Z.shiftr value 7) in
  let value := Z.lxor value (shl_u64 value 17) in
  nonzero_random value.

(** ** The routee tables

    [PoolRouterState] and [GroupRouterRoutees] have the same fields, and the same code in
    the methods they share; the group's also replaces its routees.  The cursor is a
    [usize] of 64 bits. *)

Module Routees.
Record t := mk { routees : list ActorRef.t; next_round_robin : Z; random_state : Z }.

Definition normalize_cursor (self : t) : t :=
  mk (routees self)
     (match routees self with
      | [] => 0
      | _ => next_round_robin self `mod` Z.of_nat (length (routees self))
      end)
     (random_state self).

Section methods.
(** [ActorRef::is_terminated], as the actors stand during the call. *)
Context (is_terminated : ActorRef.t → bool).

Definition live (routees : list ActorRef.t) : list ActorRef.t :=
  filter (fun routee => is_terminated routee = false) routees.

Definition cleanup_terminated (self : t) : t :=
  normalize_cursor (mk (live (routees self)) (next_round_robin self) (random_state self)).

Definition replace_routees (self : t) (routees : list ActorRef.t) : t :=
  normalize_cursor (mk (live routees) (next_round_robin self) (random_state self)).
End methods.

(** [select]; the [ConsistentHash] arm is [unreachable!]. *)
Definition select (self : t) (strategy : PoolRoutingStrategy) : t * option nat :=
  let len := Z.of_nat (length (routees self)) in
  match routees self with
  | [] => (self, None)
  | _ =>
      match strategy with
      | RoundRobin =>
          (mk (routees self) (add_u64 (next_round_robin self) 1) (random_state self),
           Some (Z.to_nat (next_round_robin self `mod` len)))
      | Random =>
          let random_state := next_random (random_state self) in
          (mk (routees self) (next_round_robin self) random_state,
           Some (Z.to_nat (random_state `mod` len)))
      | ConsistentHash => (self, None)
      end
  end.

Definition remove_routee_at (self : t) (index : nat) (routee : ActorRef.t) : t :=
  let remaining :=
    match routees self !! index with
    | Some candidate =>
        if same_actor candidate routee then delete index (routees self)
        else filter (fun candidate => same_actor candidate routee = false) (routees self)
    | None => filter (fun candidate => same_actor candidate routee = false) (routees self)
    end in
  normalize_cursor (mk remaining (next_round_robin self) (random_state self)).
End Routees.

(** ** The consistent-hash ring *)

Section ring.
(** [hash_value(&(path, uid, virtual_node))]. *)
Context (hash : string * Z * nat → Z).

Definition routee_hash (routee : ActorRef.t) (virtual_node : nat) : Z :=
  hash (ActorPath.as_str (ActorRef.path routee), ActorRef.uid routee, virtual_node).

(** The two variables of the scan: the best point at or after the key, and the first
    point of the ring. *)
Definition scan_point (key_hash : Z) (acc : option (Z * nat) * option (Z * nat)) (p : Z * nat) :
    option (Z * nat) * option (Z * nat) :=
  let '(selected, first) := acc in
  let '(point, index) := p in
  let below (o : option (Z * nat)) : bool :=
    match o with None => true | Some (q, _) => point <? q end in
  let first := if below first then Some (point, index) else first in
  let selected := if (key_hash <=? point) && below selected then Some (point, index) else selected in
  (selected, first).

(** The two loops: the points of the routees in order, with their index. *)
Definition ring_points (routees : list ActorRef.t) (virtual_nodes : nat) : list (Z * nat) :=
  mjoin (imap (fun index routee =>
                 (fun virtual_node => (routee_hash routee virtual_node, index)) <$> seq 0 virtual_nodes)
           routees).

Definition select_consistent_hash_routee (routees : list ActorRef.t) (key_hash : Z)
    (virtual_nodes : nat) : option nat :=
  match routees with
  | [] => None
  | _ =>
      let '(selected, first) :=
        foldl (scan_point key_hash) (None, None) (ring_points routees virtual_nodes) in
      snd <$> (match selected with Some p => Some p | None => first end)
  end.
End ring.

(** ** Configuration *)

(** [mapper] maps a message to its key's hash. *)
Module ConsistentHashConfig.
Record t (M : Type) := mk { mapper : M → Z; virtual_nodes : nat }.
Arguments mk {M}.
Arguments mapper {M}.
Arguments virtual_nodes {M}.

Definition new {M} (mapper : M → Z) : t M := mk mapper DEFAULT_CONSISTENT_HASH_VIRTUAL_NODES.
End ConsistentHashConfig.

Definition validate_consistent_hash_config {M} (consistent_hash : bool)
    (config : option (ConsistentHashConfig.t M)) : RakkaResult unit :=
  if consistent_hash then
    match config with
    | None => Err (RakkaError.core "missing-consistent-hash-mapper"
                     "consistent hash routing requires a key mapper")
    | Some config =>
        if decide (ConsistentHashConfig.virtual_nodes config = 0%nat) then
          Err (RakkaError.core "invalid-consistent-hash-virtual-nodes"
                 "consistent hash virtual nodes must be greater than zero")
        else Ok tt
    end
  else Ok tt.

(** The builder's routing fields; [with_consistent_hash] and
    [with_consistent_hash_virtual_nodes] may come in either order. *)
Module RouterBuilder.
Record t (M : Type) := mk {
  strategy : PoolRoutingStrategy;
  consistent_hash : option (ConsistentHashConfig.t M);
  consistent_hash_virtual_nodes : nat;
}.
Arguments mk {M}.
Arguments strategy {M}.
Arguments consistent_hash {M}.
Arguments consistent_hash_virtual_nodes {M}.

Definition new {M} : t M := mk RoundRobin None DEFAULT_CONSISTENT_HASH_VIRTUAL_NODES.

Definition with_strategy {M} (self : t M) (strategy : PoolRoutingStrategy) : t M :=
  mk strategy (consistent_hash self) (consistent_hash_virtual_nodes self).

Definition with_consistent_hash {M} (self : t M) (mapper : M → Z) : t M :=
  mk ConsistentHash (Some (ConsistentHashConfig.mk mapper (consistent_hash_virtual_nodes self)))
     (consistent_hash_virtual_nodes self).

Definition with_consistent_hash_virtual_nodes {M} (self : t M) (virtual_nodes : nat) : t M :=
  mk (strategy self)
     ((fun config => ConsistentHashConfig.mk (ConsistentHashConfig.mapper config) virtual_nodes) <$>
        consistent_hash self)
     virtual_nodes.

Definition validate {M} (self : t M) : RakkaResult unit :=
  validate_consistent_hash_config (bool_decide (strategy self = ConsistentHash)) (consistent_hash self).
End RouterBuilder.

(** ** Routers *)

Inductive PoolRouterTellError (M : Type) :=
| NoRoutees (message : M)
| Full (message : M)
| Closed (message : M).
Arguments NoRoutees {M}.
Arguments Full {M}.
Arguments Closed {M}.

Definition PoolRouterTellError_into_message {M} (self : PoolRouterTellError M) : M :=
  match self with NoRoutees message | Full message | Closed message => message end.

Section routers.
Context {M : Type} (hash : string * Z * nat → Z).
Context (strategy : PoolRoutingStrategy) (consistent_hash : option (ConsistentHashConfig.t M)).
(** The actors during one call: which are terminated, and what a [tell] would answer. *)
Context (is_terminated : ActorRef.t → bool) (deliver : ActorRef.t → M → TellOutcome).

(** [select_routee_index]; [spawn] has validated that the mapper is there. *)
Definition select_routee_index (state : Routees.t) (message : M) : Routees.t * option nat :=
  match strategy with
  | RoundRobin | Random => Routees.select state strategy
  | ConsistentHash =>
      (state,
       match consistent_hash with
       | None => None
       | Some config =>
           select_consistent_hash_routee hash (Routees.routees state)
             (ConsistentHashConfig.mapper config message) (ConsistentHashConfig.virtual_nodes config)
       end)
  end.

(** [PoolRouter::routees]: the live ones, after dropping the terminated. *)
Definition routees (state : Routees.t) : Routees.t * list ActorRef.t :=
  let state := Routees.cleanup_terminated is_terminated state in (state, Routees.routees state).

(** [PoolRouter::tell], with the routee the message went to. *)
Definition tell (state : Routees.t) (message : M) :
    Routees.t * result (PoolRouterTellError M) ActorRef.t :=
  let state := Routees.cleanup_terminated is_terminated state in
  let '(state, index) := select_routee_index state message in
  match index with
  | None => (state, Err (NoRoutees message))
  | Some index =>
      match Routees.routees state !! index with
      | None => (state, Err (NoRoutees message))
      | Some routee =>
          match deliver routee message with
          | Sent => (state, Ok routee)
          | MailboxFull => (state, Err (Full message))
          | MailboxClosed => (Routees.remove_routee_at state index routee, Err (Closed message))
          end
      end
  end.

(** *** Group routers: the listing of the receptionist, or its error, is an argument. *)

Inductive GroupRouterTellError (E : Type) :=
| Routing (error : PoolRouterTellError M)
| Receptionist (message : M) (error : E).

(** [Ok (Some routee)] when the message was sent, [Ok None] when it was dropped. *)
Definition group_tell {E} (no_routee_behavior : GroupNoRouteeBehavior)
    (find : result E (list ActorRef.t)) (state : Routees.t) (message : M) :
    Routees.t * result (GroupRouterTellError E) (option ActorRef.t) :=
  match find with
  | Err error => (state, Err (Receptionist E message error))
  | Ok listing =>
      let state := Routees.replace_routees is_terminated state listing in
      match tell state message with
      | (state, Ok routee) => (state, Ok (Some routee))
      | (state, Err (NoRoutees message)) =>
          (state, match no_routee_behavior with
                  | FailFast => Err (Routing E (NoRoutees message))
                  | Drop => Ok None
                  end)
      | (state, Err error) => (state, Err (Routing E error))
      end
  end.
End routers.

(** ** Spawning a pool *)

Section spawn.
(** The actor system: spawning an actor under a name, and stopping one. *)
Context {W : Type} (spawn_actor : W → string → W * RakkaResult ActorRef.t).
Context (stop : W → ActorRef.t → W).

Definition routee_name (name : string) (index : nat) : string :=
  name +:+ "-" +:+ pretty (N.of_nat index).

(** The loop over [0..pool_size], [spawned] being the routees so far. *)
Fixpoint spawn_routees (w : W) (name : string) (spawned : list ActorRef.t) (indexes : list nat) :
    W * RakkaResult (list ActorRef.t) :=
  match indexes with
  | [] => (w, Ok spawned)
  | index :: indexes =>
      match spawn_actor w (routee_name name index) with
      | (w, Ok routee) => spawn_routees w name (spawned ++ [routee]) indexes
      | (w, Err error) => (foldl stop w spawned, Err error)
      end
  end.

Definition spawn_pool {M} (builder : RouterBuilder.t M) (name : string) (pool_size : nat)
    (random_seed : Z) (w : W) : W * RakkaResult Routees.t :=
  if decide (pool_size = 0%nat) then
    (w, Err (RakkaError.core "invalid-pool-size" "pool router size must be greater than zero"))
  else
    match (let? _ := RouterBuilder.validate builder in validate_actor_path_segment name) with
    | Err error => (w, Err error)
    | Ok _ =>
        match spawn_routees w name [] (seq 0 pool_size) with
        | (w, Ok routees) => (w, Ok (Routees.mk routees 0 (nonzero_random random_seed)))
        | (w, Err error) => (w, Err error)
        end
    end.
End spawn.

(** ** Properties *)

(** *** The ring *)

Definition point_cmp {A} (p q : Z * A) : comparison := Z.compare p.1 q.1.

(** The reference: the first of the lowest points at or after the key, else of all. *)
Definition ring_owner {A} (key_hash : Z) (points : list (Z * A)) : option (Z * A) :=
  match min_by point_cmp (filter (fun p => key_hash <= p.1) points) with
  | Some p => Some p
  | None => min_by point_cmp points
  end.

Lemma min_by_snoc {A} (l : list (Z * A)) b :
  min_by point_cmp (l ++ [b]) =
  Some (match min_by point_cmp l with None => b | Some m => if b.1 <? m.1 then b else m end).
Proof.
  destruct l as [|a l]; [done|]. simpl. rewrite foldl_snoc. f_equal. set (m := foldl _ a l).
  unfold point_cmp. rewrite Z.compare_antisym. unfold Z.ltb. by destruct (b.1 ?= m.1).
Qed.

(** The first of the lowest. *)
Lemma min_by_first {A} (l : list (Z * A)) p :
  min_by point_cmp l = Some p →
  ∃ l1 l2, l = l1 ++ p :: l2 ∧ (∀ x, x ∈ l1 → p.1 < x.1) ∧ (∀ x, x ∈ l2 → p.1 <= x.1).
Proof.
  revert p. induction l as [|b l IH] using rev_ind; intros p; [done|]. rewrite min_by_snoc.
  destruct (min_by point_cmp l) as [m|] eqn:Hm.
  - destruct (IH m eq_refl) as (l1 & l2 & -> & H1 & H2).
    destruct (Z.ltb_spec b.1 m.1); intros [= <-].
    + exists (l1 ++ m :: l2), []. split_and!; [done| |by intros x ?%not_elem_of_nil].
      intros x [Hx|[->|Hx]%elem_of_cons]%elem_of_app; [specialize (H1 x Hx)| |specialize (H2 x Hx)]; lia.
    + exists l1, (l2 ++ [b]). rewrite <-(assoc_L (++)). split_and!; [done|done|].
      intros x [Hx| ->%list_elem_of_singleton]%elem_of_app; auto.
  - destruct l; [|done]. intros [= <-]. exists [], []. split_and!; [done|..];
      by intros x ?%not_elem_of_nil.
Qed.

Lemma min_by_of_first {A} (l1 l2 : list (Z * A)) p :
  (∀ x, x ∈ l1 → p.1 < x.1) → (∀ x, x ∈ l2 → p.1 <= x.1) →
  min_by point_cmp (l1 ++ p :: l2) = Some p.
Proof.
  intros H1. induction l2 as [|b l2 IH] using rev_ind; intros H2.
  - rewrite min_by_snoc. destruct (min_by point_cmp l1) as [m|] eqn:Hm; [|done].
    apply min_by_first in Hm as (k1 & k2 & -> & _). specialize (H1 m ltac:(set_solver)).
    destruct (Z.ltb_spec p.1 m.1); [done|lia].
  - rewrite app_comm_cons, (assoc_L (++)), min_by_snoc, IH by (intros; apply H2; set_solver).
    specialize (H2 b ltac:(set_solver)). by destruct (Z.ltb_spec b.1 p.1); [lia|].
Qed.

(** Dropping points other than the lowest keeps the lowest. *)
Lemma min_by_filter {A} (P : Z * A → Prop) `{!∀ x, Decision (P x)} (l : list (Z * A)) p :
  min_by point_cmp l = Some p → P p → min_by point_cmp (filter P l) = Some p.
Proof.
  intros (l1 & l2 & -> & H1 & H2)%min_by_first Hp.
  rewrite filter_app, filter_cons, decide_True by done. apply min_by_of_first.
  - intros x [_ Hx]%list_elem_of_filter. auto.
  - intros x [_ Hx]%list_elem_of_filter. auto.
Qed.

Lemma min_by_None {A} (l : list (Z * A)) : min_by point_cmp l = None ↔ l = [].
Proof. by destruct l. Qed.

Lemma ring_owner_filter {A} key_hash (P : Z * A → Prop) `{!∀ x, Decision (P x)} points p :
  ring_owner key_hash points = Some p → P p → ring_owner key_hash (filter P points) = Some p.
Proof.
  unfold ring_owner.
  assert (filter (fun p => key_hash <= p.1) (filter P points) =
          filter P (filter (fun p => key_hash <= p.1) points)) as ->.
  { rewrite !list_filter_filter. apply filter_ext_elem. intros x _. tauto. }
  destruct (min_by point_cmp (filter (fun p => key_hash <= p.1) points)) as [m|] eqn:Hm.
  - intros [= <-] Hp. by rewrite (min_by_filter P _ _ Hm Hp).
  - intros Hall Hp. apply min_by_None in Hm. rewrite Hm. simpl. by apply min_by_filter.
Qed.

(** The scan computes the reference. *)
Lemma scan_is_min key_hash points :
  foldl (scan_point key_hash) (None, None) points =
  (min_by point_cmp (filter (fun p => key_hash <= p.1) points), min_by point_cmp points).
Proof.
  induction points as [|[point index] points IH] using rev_ind; [done|].
  rewrite foldl_snoc, IH, filter_app, filter_cons, filter_nil, !min_by_snoc. simpl.
  destruct (Z.leb_spec key_hash point), (decide (key_hash <= point)); try lia; simpl.
  - rewrite min_by_snoc. simpl.
    repeat match goal with |- context [min_by point_cmp ?l] => destruct (min_by point_cmp l) as [[]|] end;
      simpl; repeat case_match; congruence.
  - rewrite app_nil_r.
    destruct (min_by point_cmp points) as [[]|]; simpl; repeat case_match; congruence.
Qed.

(** Renaming the owners does not move the points. *)
Definition relabel {A B} (f : A → B) (p : Z * A) : Z * B := (p.1, f p.2).

Lemma min_by_relabel {A B} (f : A → B) l :
  min_by point_cmp (relabel f <$> l) = relabel f <$> min_by point_cmp l.
Proof.
  induction l as [|b l IH] using rev_ind; [done|].
  rewrite fmap_app. simpl. rewrite !min_by_snoc, IH. simpl.
  destruct (min_by point_cmp l) as [m|]; simpl; [|done]. by destruct (_ <? _).
Qed.

Lemma ring_owner_relabel {A B} (f : A → B) key_hash l :
  ring_owner key_hash (relabel f <$> l) = relabel f <$> ring_owner key_hash l.
Proof.
  unfold ring_owner. rewrite list_filter_fmap. simpl. rewrite !min_by_relabel.
  by destruct (min_by point_cmp (filter _ l)).
Qed.

Section ring_properties.
Context (hash : string * Z * nat → Z).

(** The routee a key goes to. *)
Definition chosen (routees : list ActorRef.t) (key_hash : Z) (virtual_nodes : nat) :
    option ActorRef.t :=
  i ← select_consistent_hash_routee hash routees key_hash virtual_nodes; routees !! i.

(** The ring with the routees themselves as owners. *)
Definition ring (routees : list ActorRef.t) (virtual_nodes : nat) : list (Z * ActorRef.t) :=
  routees ≫= fun routee =>
    (fun virtual_node => (routee_hash hash routee virtual_node, routee)) <$> seq 0 virtual_nodes.

Lemma ring_points_ring routees virtual_nodes :
  relabel (fun i => routees !! i) <$> ring_points hash routees virtual_nodes =
  relabel Some <$> ring routees virtual_nodes.
Proof.
  unfold ring_points, ring.
  assert (∀ (f : nat → option ActorRef.t) (g : nat → nat) rest,
    (∀ i r, rest !! i = Some r → f (g i) = Some r) →
    relabel f <$> mjoin (imap (fun i r => (fun n => (routee_hash hash r n, g i)) <$>
                                 seq 0 virtual_nodes) rest) =
    relabel Some <$> (rest ≫= fun r =>
      (fun n => (routee_hash hash r n, r)) <$> seq 0 virtual_nodes)) as Hgen.
  { intros f g rest. revert g. induction rest as [|r rest IH]; intros g Hf; [done|].
    rewrite imap_cons. simpl. rewrite !fmap_app, <-!list_fmap_compose. f_equal.
    - apply list_fmap_ext. intros j n _. unfold relabel. simpl. by rewrite (Hf 0%nat r eq_refl).
    - apply (IH (fun i => g (Datatypes.S i))). intros j r' Hj. by apply (Hf (Datatypes.S j)). }
  by apply (Hgen (fun i => routees !! i) id).
Qed.

Lemma chosen_owner routees key_hash virtual_nodes :
  chosen routees key_hash virtual_nodes = snd <$> ring_owner key_hash (ring routees virtual_nodes).
Proof.
  unfold chosen, select_consistent_hash_routee. destruct routees as [|r0 rs]; [done|].
  set (routees := r0 :: rs). rewrite scan_is_min.
  change (match min_by point_cmp (filter (fun p => key_hash <= p.1)
            (ring_points hash routees virtual_nodes)) with
          | Some p => Some p | None => min_by point_cmp (ring_points hash routees virtual_nodes) end)
    with (ring_owner key_hash (ring_points hash routees virtual_nodes)).
  pose proof (ring_owner_relabel (fun i => routees !! i) key_hash
    (ring_points hash routees virtual_nodes)) as H1.
  rewrite ring_points_ring, ring_owner_relabel in H1.
  destruct (ring_owner key_hash (ring routees virtual_nodes)) as [[q r]|],
    (ring_owner key_hash (ring_points hash routees virtual_nodes)) as [[q' i]|];
    unfold relabel in H1; cbn in H1 |- *; congruence.
Qed.

Lemma ring_filter (P : ActorRef.t → Prop) `{!∀ r, Decision (P r)} routees virtual_nodes :
  ring (filter P routees) virtual_nodes = filter (fun p => P p.2) (ring routees virtual_nodes).
Proof.
  unfold ring. set (points := fun routee => _). fold points.
  assert (∀ r, filter (fun p => P p.2) (points r) = if decide (P r) then points r else []) as Hp.
  { intros r. unfold points. rewrite list_filter_fmap. simpl. case_decide as Hr.
    - by rewrite (filter_all _ (seq 0 virtual_nodes)).
    - induction (seq 0 virtual_nodes) as [|n l IH]; [done|]. by rewrite filter_cons, decide_False. }
  induction routees as [|r routees IH]; [done|].
  rewrite filter_cons, bind_cons, filter_app, Hp. case_decide; [by rewrite bind_cons, IH|exact IH].
Qed.

(** Consistent hashing disturbs only what must move: when routees leave - whichever do,
    as long as the routee a key goes to stays - the key still goes to it.  So a departure
    moves only the departed routee's keys, and an arrival takes keys only for itself.  The
    hash function is arbitrary; collisions are covered. *)
Theorem consistent_hash_minimal_disruption routees key_hash virtual_nodes r
    (P : ActorRef.t → Prop) `{!∀ r, Decision (P r)} :
  chosen routees key_hash virtual_nodes = Some r → P r →
  chosen (filter P routees) key_hash virtual_nodes = Some r.
Proof.
  rewrite !chosen_owner, ring_filter. intros (p & Hp & ->)%fmap_Some HP.
  by rewrite (ring_owner_filter key_hash (fun p => P p.2) _ p Hp HP).
Qed.

(** The scan finds the ring's successor: a key goes to a routee that has a point at or
    after the key with no point of any routee between, or, when no point lies at or after
    the key, to one that has the lowest point of the ring; and with routees and virtual
    nodes there always is one. *)
Theorem consistent_hash_is_successor routees key_hash virtual_nodes :
  (routees ≠ [] → virtual_nodes ≠ 0%nat →
     is_Some (chosen routees key_hash virtual_nodes)) ∧
  ∀ r, chosen routees key_hash virtual_nodes = Some r →
    r ∈ routees ∧
    ∃ n, (n < virtual_nodes)%nat ∧
      let q := routee_hash hash r n in
      let others := fun P => ∀ r' n', r' ∈ routees → (n' < virtual_nodes)%nat →
                      P (routee_hash hash r' n') in
      (key_hash <= q ∧ others (fun x => key_hash <= x → q <= x)) ∨
      (others (fun x => x < key_hash) ∧ others (fun x => q <= x)).
Proof.
  assert (∀ p, p ∈ ring routees virtual_nodes ↔
    ∃ n, p.2 ∈ routees ∧ (n < virtual_nodes)%nat ∧ p.1 = routee_hash hash p.2 n) as Hring.
  { intros [q r]. unfold ring. rewrite list_elem_of_bind. setoid_rewrite list_elem_of_fmap. simpl.
    setoid_rewrite elem_of_seq. split.
    - intros (r' & (n & [= -> ->] & Hn) & Hr). exists n. split_and!; [done|lia|done].
    - intros (n & Hr & Hn & ->). exists r. split; [|done]. exists n. split; [done|lia]. }
  assert (∀ l p, min_by point_cmp l = Some p → p ∈ l ∧ ∀ x : Z * ActorRef.t, x ∈ l → p.1 <= x.1) as Hmin.
  { intros l p (l1 & l2 & -> & H1 & H2)%min_by_first. split; [set_solver|].
    intros x [Hx%H1|[->|Hx%H2]%elem_of_cons]%elem_of_app; lia. }
  rewrite chosen_owner. split.
  - intros Hne Hv. destruct routees as [|r rs]; [done|]. destruct virtual_nodes as [|v]; [done|].
    unfold ring_owner. destruct (min_by point_cmp (filter _ _)); [by eexists|].
    destruct (min_by point_cmp (ring _ _)) eqn:Hm; [by eexists|]. by apply min_by_None in Hm.
  - intros r (p & Hp & ->)%fmap_Some. unfold ring_owner in Hp.
    destruct (min_by point_cmp (filter (fun p => key_hash <= p.1) _)) as [m|] eqn:Hm.
    + injection Hp as ->. apply Hmin in Hm as [[Hle Hin]%list_elem_of_filter Hall].
      apply Hring in Hin as (n & Hr & Hn & Hq). split; [done|]. exists n. split; [done|].
      rewrite <-Hq. left. split; [done|]. intros r' n' Hr' Hn' Hx.
      apply (Hall (routee_hash hash r' n', r')), list_elem_of_filter. split; [done|]. apply Hring. eauto.
    + apply Hmin in Hp as [Hin Hall]. apply Hring in Hin as (n & Hr & Hn & Hq). split; [done|].
      exists n. split; [done|]. rewrite <-Hq. right. apply min_by_None in Hm.
      assert (∀ r' n', r' ∈ routees → (n' < virtual_nodes)%nat →
        (routee_hash hash r' n', r') ∈ ring routees virtual_nodes) as Hpt by (intros; apply Hring; eauto).
      split; intros r' n' Hr' Hn'; [|by apply (Hall (_, r')), Hpt].
      destruct (decide (key_hash <= routee_hash hash r' n')); [|lia].
      exfalso. apply (not_elem_of_nil (routee_hash hash r' n', r')). rewrite <-Hm.
      apply list_elem_of_filter. auto.
Qed.
End ring_properties.

(** *** Sending *)

Section tell_properties.
Context {M : Type} (hash : string * Z * nat → Z).

(** What [spawn] has validated. *)
Definition valid_config (strategy : PoolRoutingStrategy)
    (consistent_hash : option (ConsistentHashConfig.t M)) : Prop :=
  strategy = ConsistentHash →
  ∃ config, consistent_hash = Some config ∧ ConsistentHashConfig.virtual_nodes config ≠ 0%nat.

Lemma select_index_lt state strategy state' i :
  Routees.select state strategy = (state', Some i) →
  (i < length (Routees.routees state))%nat ∧ Routees.routees state' = Routees.routees state.
Proof.
  unfold Routees.select. destruct (Routees.routees state) as [|r rs] eqn:Hr; [done|].
  assert (∀ x, (Z.to_nat (x `mod` Z.of_nat (length (r :: rs))) < length (r :: rs))%nat) as Hlt.
  { intros x. pose proof (Z.mod_pos_bound x (Z.of_nat (length (r :: rs))) ltac:(simpl; lia)). lia. }
  destruct strategy; intros [= <- <-]; done.
Qed.

Lemma select_None state strategy state' :
  strategy ≠ ConsistentHash → Routees.select state strategy = (state', None) →
  Routees.routees state = [] ∧ state' = state.
Proof.
  intros Hs. unfold Routees.select. destruct (Routees.routees state) eqn:Hr.
  - by intros [= <-].
  - by destruct strategy.
Qed.

Lemma ring_points_index routees virtual_nodes p :
  p ∈ ring_points hash routees virtual_nodes → (p.2 < length routees)%nat.
Proof.
  unfold ring_points. rewrite list_elem_of_join. intros (l & Hp & Hl).
  apply elem_of_lookup_imap in Hl as (i & r & -> & Hi).
  apply list_elem_of_fmap in Hp as (n & -> & _). by apply lookup_lt_Some in Hi.
Qed.

Lemma select_scan routees key_hash virtual_nodes :
  routees ≠ [] →
  select_consistent_hash_routee hash routees key_hash virtual_nodes =
  snd <$> ring_owner key_hash (ring_points hash routees virtual_nodes).
Proof. unfold select_consistent_hash_routee. destruct routees; [done|]. by rewrite scan_is_min. Qed.

Lemma ring_owner_elem {A} key_hash (points : list (Z * A)) p :
  ring_owner key_hash points = Some p → p ∈ points.
Proof.
  unfold ring_owner. destruct (min_by point_cmp (filter _ points)) as [m|] eqn:Hm.
  - intros [= <-]. apply min_by_first in Hm as (l1 & l2 & Hl & _).
    assert (m ∈ filter (fun p => key_hash <= p.1) points) as [_ ?]%list_elem_of_filter
      by (rewrite Hl; set_solver). done.
  - intros (l1 & l2 & -> & _)%min_by_first. set_solver.
Qed.

Lemma chosen_index routees key_hash virtual_nodes i :
  select_consistent_hash_routee hash routees key_hash virtual_nodes = Some i → (i < length routees)%nat.
Proof.
  destruct (decide (routees = [])) as [->|Hne]; [done|]. rewrite select_scan by done.
  intros (p & Hp%ring_owner_elem%ring_points_index & ->)%fmap_Some. done.
Qed.

Lemma chosen_index_None routees key_hash virtual_nodes :
  virtual_nodes ≠ 0%nat →
  select_consistent_hash_routee hash routees key_hash virtual_nodes = None → routees = [].
Proof.
  intros Hv Hnone. destruct (decide (routees = [])) as [|Hne]; [done|].
  rewrite select_scan in Hnone by done. apply fmap_None in Hnone. unfold ring_owner in Hnone.
  destruct (min_by point_cmp (filter _ _)); [done|]. apply min_by_None in Hnone.
  destruct routees as [|r rs]; [done|]. by destruct virtual_nodes.
Qed.

Context (strategy : PoolRoutingStrategy) (consistent_hash : option (ConsistentHashConfig.t M)).
Context (is_terminated : ActorRef.t → bool) (deliver : ActorRef.t → M → TellOutcome).

Abbreviation tell := (tell hash strategy consistent_hash is_terminated deliver).

Lemma select_routee_index_cases state message state' o :
  valid_config strategy consistent_hash →
  select_routee_index hash strategy consistent_hash state message = (state', o) →
  Routees.routees state' = Routees.routees state ∧
  match o with
  | None => Routees.routees state = []
  | Some i => (i < length (Routees.routees state))%nat
  end.
Proof.
  intros Hvalid. unfold select_routee_index. destruct strategy eqn:Hs.
  1,2: destruct o as [i|]; [by intros [? ?]%select_index_lt|by intros [? ->]%select_None].
  destruct (Hvalid eq_refl) as (config & -> & Hv). intros [= <- <-]. split; [done|].
  destruct (select_consistent_hash_routee _ _ _ _) eqn:Hi;
    [by eapply chosen_index|by eapply chosen_index_None].
Qed.

(** A message is sent to one live routee or handed back: under every strategy, [tell]
    never picks a terminated routee; it reports no routees only when none is live, a full
    or closed mailbox only when that is what a live routee answered, gives the caller its
    own message back in each case, and forgets exactly the routee that was closed. *)
Theorem tell_sends_or_returns state message state' res :
  valid_config strategy consistent_hash → tell state message = (state', res) →
  let live := Routees.live is_terminated (Routees.routees state) in
  match res with
  | Ok routee =>
      routee ∈ live ∧ deliver routee message = Sent ∧ Routees.routees state' = live
  | Err (NoRoutees m) => m = message ∧ live = [] ∧ Routees.routees state' = []
  | Err (Full m) =>
      m = message ∧ (∃ routee, routee ∈ live ∧ deliver routee m = MailboxFull) ∧
      Routees.routees state' = live
  | Err (Closed m) =>
      m = message ∧ ∃ i routee, live !! i = Some routee ∧ deliver routee m = MailboxClosed ∧
        Routees.routees state' = delete i live
  end.
Proof.
  intros Hvalid. unfold tell. cbv zeta.
  set (live := Routees.live is_terminated (Routees.routees state)).
  set (state0 := Routees.cleanup_terminated is_terminated state).
  assert (Routees.routees state0 = live) as H0 by done.
  destruct (select_routee_index _ _ _ state0 message) as [state1 o] eqn:Hsel.
  apply select_routee_index_cases in Hsel as [H1 Ho]; [|done]. rewrite H0 in H1, Ho.
  destruct o as [i|]; [|intros [= <- <-]; by rewrite H1, Ho].
  destruct (lookup_lt_is_Some_2 live i Ho) as [routee Hi]. rewrite H1, Hi.
  pose proof (list_elem_of_lookup_2 _ _ _ Hi).
  destruct (deliver routee message) eqn:Hd; intros [= <- <-]; [done|by eauto 6|].
  split; [done|]. exists i, routee. split_and!; [done|done|].
  unfold Routees.remove_routee_at, same_actor. rewrite H1, Hi, !bool_decide_eq_true_2 by done. done.
Qed.
End tell_properties.

(** *** Round robin *)

Lemma normalize_nonempty rs cursor random :
  rs ≠ [] → Routees.normalize_cursor (Routees.mk rs cursor random) =
  Routees.mk rs (cursor `mod` Z.of_nat (length rs)) random.
Proof. by destruct rs. Qed.

Lemma select_round_robin rs cursor random :
  rs ≠ [] → Routees.select (Routees.mk rs cursor random) RoundRobin =
  (Routees.mk rs (add_u64 cursor 1) random, Some (Z.to_nat (cursor `mod` Z.of_nat (length rs)))).
Proof. by destruct rs. Qed.

Section round_robin.
Context {M : Type} (hash : string * Z * nat → Z).
Context (consistent_hash : option (ConsistentHashConfig.t M)).
Context (is_terminated : ActorRef.t → bool) (deliver : ActorRef.t → M → TellOutcome).

(** The messages sent one after the other, and the results. *)
Fixpoint tell_all (state : Routees.t) (messages : list M) :
    Routees.t * list (result (PoolRouterTellError M) ActorRef.t) :=
  match messages with
  | [] => (state, [])
  | message :: messages =>
      let (state, r) := tell hash RoundRobin consistent_hash is_terminated deliver state message in
      let (state, rs) := tell_all state messages in (state, r :: rs)
  end.

Context (rs : list ActorRef.t) (n : Z).
Hypothesis Hlive : ∀ r, r ∈ rs → is_terminated r = false.
Hypothesis Hsent : ∀ r m, r ∈ rs → deliver r m = Sent.
Hypothesis Hn : n = Z.of_nat (length rs) ∧ 0 < n <= u64_max.

Lemma tell_round_robin cursor random message :
  ∃ r, rs !! Z.to_nat (cursor `mod` n) = Some r ∧
    tell hash RoundRobin consistent_hash is_terminated deliver (Routees.mk rs cursor random) message =
      (Routees.mk rs (cursor `mod` n + 1) random, Ok r).
Proof using Hlive Hsent Hn.
  destruct Hn as [Hlen Hpos]. pose proof (Z.mod_pos_bound cursor n ltac:(lia)) as Hb.
  destruct (lookup_lt_is_Some_2 rs (Z.to_nat (cursor `mod` n)) ltac:(lia)) as [r Hr].
  assert (rs ≠ []) as Hne by (intros ->; simpl in Hlen; lia).
  exists r. split; [done|]. unfold tell, Routees.cleanup_terminated, Routees.live, select_routee_index.
  cbn [Routees.routees Routees.next_round_robin Routees.random_state].
  rewrite filter_all, normalize_nonempty, select_round_robin, <-Hlen, Z.mod_mod by done || lia.
  cbn [Routees.routees]. rewrite Hr, Hsent by (by eapply list_elem_of_lookup_2).
  by rewrite add_u64_small by lia.
Qed.

(** From the cursor on, in order. *)
Lemma tell_all_round_robin messages cursor random :
  ∃ receivers, tell_all (Routees.mk rs cursor random) messages =
      (Routees.mk rs (match messages with
                      | [] => cursor
                      | _ => (cursor + Z.of_nat (length messages) - 1) `mod` n + 1
                      end) random,
       Ok <$> receivers) ∧
    length receivers = length messages ∧
    ∀ i, (i < length messages)%nat →
      receivers !! i = rs !! Z.to_nat ((cursor + Z.of_nat i) `mod` n).
Proof using Hlive Hsent Hn.
  destruct Hn as [Hlen Hpos].
  revert cursor. induction messages as [|message messages IH]; intros cursor; simpl.
  { exists []. split_and!; [done|done|]. intros i Hi. lia. }
  destruct (tell_round_robin cursor random message) as (r & Hr & ->).
  destruct (IH (cursor `mod` n + 1)) as (receivers & -> & Hl & Hall).
  exists (r :: receivers). split_and!; [|simpl; lia|].
  - do 2 f_equal. destruct messages as [|m ms]; [by rewrite Z.add_simpl_r|]. f_equal.
    replace (cursor `mod` n + 1 + Z.of_nat (length (m :: ms)) - 1)
      with (cursor `mod` n + Z.of_nat (length (m :: ms))) by lia.
    rewrite Zplus_mod_idemp_l. f_equal. simpl. lia.
  - intros [|i] Hi; simpl; [by rewrite Z.add_0_r, Hr|]. rewrite Hall by lia. f_equal. f_equal.
    rewrite <-(Z.add_assoc (cursor `mod` n)), Zplus_mod_idemp_l. f_equal. lia.
Qed.
End round_robin.

(** Round robin is even: as long as no routee terminates and all mailboxes take
    messages, any [n] consecutive messages to [n] routees go to each of them exactly
    once, in the order of the routees from the cursor on, and leave the cursor at the
    same place of the cycle. *)
Theorem round_robin_even {M} hash consistent_hash is_terminated (deliver : ActorRef.t → M → TellOutcome)
    (rs : list ActorRef.t) (cursor random : Z) (messages : list M) :
  (∀ r, r ∈ rs → is_terminated r = false) → (∀ r m, r ∈ rs → deliver r m = Sent) →
  rs ≠ [] → Z.of_nat (length rs) <= u64_max → length messages = length rs →
  let c := Z.to_nat (cursor `mod` Z.of_nat (length rs)) in
  ∃ cursor', tell_all hash consistent_hash is_terminated deliver (Routees.mk rs cursor random) messages =
    (Routees.mk rs cursor' random, Ok <$> (drop c rs ++ take c rs)) ∧
    cursor' `mod` Z.of_nat (length rs) = cursor `mod` Z.of_nat (length rs).
Proof.
  intros Hlive Hsent Hne Hmax Hlen c. set (n := Z.of_nat (length rs)) in *.
  assert (0 < n) as Hpos by (destruct rs; [done|]; simpl in n; lia).
  destruct (tell_all_round_robin hash consistent_hash is_terminated deliver rs n Hlive Hsent
    ltac:(split; [done|lia]) messages cursor random) as (receivers & Hrun & Hl & Hall).
  destruct messages as [|m0 ms]; [simpl in Hlen; lia|]. set (messages := m0 :: ms) in *.
  eexists. split.
  - rewrite Hrun. do 2 f_equal. apply list_eq_same_length with (length rs); [|lia|].
    + rewrite length_app, length_drop, length_take. lia.
    + intros i x y Hi Hx Hy. rewrite Hall in Hx by lia.
      assert (0 <= cursor `mod` n < n) as Hb by (apply Z.mod_pos_bound; lia).
      rewrite <-Zplus_mod_idemp_l in Hx. set (m := cursor `mod` n) in *.
      destruct (decide (i < length rs - c)%nat).
      * rewrite lookup_app_l in Hy by (rewrite length_drop; lia). rewrite lookup_drop in Hy.
        rewrite Z.mod_small in Hx by lia.
        assert (Z.to_nat (m + Z.of_nat i) = (c + i)%nat) as Heq by lia. rewrite Heq in Hx. congruence.
      * rewrite lookup_app_r in Hy by (rewrite length_drop; lia). rewrite length_drop in Hy.
        rewrite lookup_take_lt in Hy by lia.
        replace (m + Z.of_nat i) with ((m + Z.of_nat i - n) + 1 * n) in Hx by lia.
        rewrite Z.mod_add, Z.mod_small in Hx by lia.
        assert (Z.to_nat (m + Z.of_nat i - n) = (i - (length rs - c))%nat) as Heq by lia.
        rewrite Heq in Hx. congruence.
  - rewrite Zplus_mod_idemp_l, Hlen. fold n.
    replace (cursor + n - 1 + 1) with (cursor + 1 * n) by lia. apply Z.mod_add. lia.
Qed.

(** *** Concrete routers *)

Definition worker (i : Z) : ActorRef.t := ActorRef.mk (ActorPath.user "sys" "worker") i.

(** A toy hash that spreads uid and virtual node. *)
Definition toy_hash (x : string * Z * nat) : Z :=
  let '(_, uid, n) := x in (uid * 37 + Z.of_nat n * 101) `mod` 256.

Definition three_workers : list ActorRef.t := [worker 1; worker 2; worker 3].

Lemma consistent_hash_minimal_disruption_witness :
  chosen toy_hash three_workers 100 2 = Some (worker 3) ∧
  chosen toy_hash (filter (fun r => r ≠ worker 1) three_workers) 100 2 = Some (worker 3).
Proof.
  split; [reflexivity|].
  apply (consistent_hash_minimal_disruption toy_hash three_workers 100 2 (worker 3)
           (fun r => r ≠ worker 1)); [reflexivity|done].
Defined.

Lemma tell_sends_or_returns_witness :
  let res := (tell toy_hash RoundRobin (M := string) None (fun r => bool_decide (r = worker 1))
                (fun r _ => if decide (r = worker 3) then MailboxClosed else Sent)
                (Routees.mk three_workers 1 7) "hello").2 in
  ∃ m, res = Err (Closed m) ∧ m = "hello".
Proof.
  cbv zeta. destruct (tell _ _ _ _ _ _ _) as [state' res] eqn:Htell.
  pose proof (tell_sends_or_returns toy_hash RoundRobin None (fun r => bool_decide (r = worker 1))
    (fun r _ => if decide (r = worker 3) then MailboxClosed else Sent) _ "hello" _ _
    ltac:(done) Htell) as Hcases.
  vm_compute in Htell. injection Htell as <- <-. exists "hello". split; [done|]. apply Hcases.
Defined.

Lemma round_robin_even_witness :
  ∃ cursor', tell_all toy_hash None (fun _ => false) (fun _ (_ : string) => Sent)
      (Routees.mk three_workers 4 7) ["a"; "b"; "c"] =
    (Routees.mk three_workers cursor' 7, Ok <$> [worker 2; worker 3; worker 1]).
Proof.
  destruct (round_robin_even toy_hash None (fun _ => false) (fun _ (_ : string) => Sent)
    three_workers 4 7 ["a"; "b"; "c"]) as (cursor' & Hrun & _); [done..|].
  exists cursor'. exact Hrun.
Defined.
