(* ===== verification/Membership.v ===== *)
(** * Cluster membership: [rakka-cluster/src/{membership,discovery,error}.rs]

    The membership table of one node: discovery, the failure detector and the
    lifecycle transitions.  Each handler of [ClusterMembership] takes the table
    and returns the new table with the handler's [Result]; a handler that returns
    an error after it changed the table returns the changed table. *)

From S2P Require Import Prelude Node.

Inductive MembershipState :=
| Joining | Up | Leaving | Unreachable | Down | Removed.

#[global] Instance MembershipState_eq_dec : EqDecision MembershipState.
Proof. solve_decision. Defined.

Definition MembershipState_as_str (s : MembershipState) : string :=
  match s with
  | Joining => "joining"
  | Up => "up"
  | Leaving => "leaving"
  | Unreachable => "unreachable"
  | Down => "down"
  | Removed => "removed"
  end.

(** [matches!(state, Down | Removed)]. *)
Definition is_down_or_removed (s : MembershipState) : bool :=
  match s with Down | Removed => true | _ => false end.

Inductive ClusterError :=
| UnknownNode (node_id : NodeId.t)
| InvalidTransition (node_id : NodeId.t) (from to : MembershipState)
| IncompatibleNode (node_id : NodeId.t) (local remote : ClusterProtocol.t)
| Discovery (provider message : string)
| Receptionist (message : string)
| ReceptionistListingTooLarge (service_id : string) (actual max : nat).

Definition ClusterResult (A : Type) : Type := result ClusterError A.

(** Durations are counts of milliseconds. *)
Module MembershipConfig.

Record t := new {
  min_contact_points : nat;
  failure_timeout : Z;
  down_after_unreachable : Z;
}.

Definition default : t := new 1 10000 30000.

End MembershipConfig.

Module MemberRecord.

Record t := new {
  node : ClusterNode.t;
  state : MembershipState;
  last_seen_millis : Z;
  revision : Z;
}.

#[global] Instance eq_dec : EqDecision t.
Proof. solve_decision. Defined.

End MemberRecord.

Inductive MembershipEvent :=
| MemberDiscovered (node_id : NodeId.t)
| MemberUp (node_id : NodeId.t)
| MemberReachable (node_id : NodeId.t)
| MemberLeaving (node_id : NodeId.t)
| MemberUnreachable (node_id : NodeId.t)
| MemberDown (node_id : NodeId.t)
| MemberRemoved (node_id : NodeId.t).

#[global] Instance MembershipEvent_eq_dec : EqDecision MembershipEvent.
Proof. solve_decision. Defined.

Definition event_node_id (e : MembershipEvent) : NodeId.t :=
  match e with
  | MemberDiscovered n | MemberUp n | MemberReachable n | MemberLeaving n
  | MemberUnreachable n | MemberDown n | MemberRemoved n => n
  end.

Module DiscoverySnapshot.

Record t := mk {
  provider : string;
  observed_at_millis : Z;
  nodes : list ClusterNode.t;
}.

(** Collecting into a [BTreeMap] keyed by node id keeps the last descriptor of
    an id, and [into_values] lists them by id. *)
Definition index_nodes (nodes : list ClusterNode.t) : gmap NodeId.t ClusterNode.t :=
  foldl (fun m node => <[ClusterNode.id node := node]> m) ∅ nodes.

Definition new (provider : string) (observed_at_millis : Z)
    (nodes : list ClusterNode.t) : t :=
  mk provider observed_at_millis (btree_values (index_nodes nodes)).

End DiscoverySnapshot.

Module ClusterMembership.
Import MemberRecord.

Record t := mk {
  config : MembershipConfig.t;
  local_node_id : NodeId.t;
  members : gmap NodeId.t MemberRecord.t;
  revision : Z;
}.

Definition new (local_node : ClusterNode.t) (config : MembershipConfig.t) : t :=
  let local_node_id := ClusterNode.id local_node in
  mk config local_node_id
     {[ local_node_id := MemberRecord.new local_node Joining 0 0 ]} 0.

Definition member (self : t) (node_id : NodeId.t) : option MemberRecord.t :=
  members self !! node_id.

(** [self.members] with one record written back through a [get_mut] borrow. *)
Definition set_record (self : t) (node_id : NodeId.t) (r : MemberRecord.t) : t :=
  mk (config self) (local_node_id self) (<[node_id := r]> (members self)) (revision self).

(** [self.revision += 1; record.revision = self.revision] together with the
    record's other new field values. *)
Definition set_record_bump (self : t) (node_id : NodeId.t) (node : ClusterNode.t)
    (state : MembershipState) (last_seen_millis : Z) : t :=
  let revision := add_u64 (revision self) 1 in
  mk (config self) (local_node_id self)
     (<[node_id := MemberRecord.new node state last_seen_millis revision]> (members self))
     revision.

Definition routable_members (self : t) : list MemberRecord.t :=
  filter (fun record => state record = Up) (btree_values (members self)).

Definition count_state (self : t) (s : MembershipState) : nat :=
  length (filter (fun record => state record = s) (btree_values (members self))).

(** [operational_snapshot]: the per-state counts that are not zero, and their sum. *)
Definition operational_states (self : t) : list (MembershipState * nat) :=
  omap (fun s => let count := count_state self s in
                 if bool_decide (0 < count)%nat then Some (s, count) else None)
    [Joining; Up; Leaving; Unreachable; Down; Removed].

Definition total_members (self : t) : nat :=
  foldr (fun p acc => (p.2 + acc)%nat) 0%nat (operational_states self).

Definition has_min_contact_points (self : t) : bool :=
  bool_decide (MembershipConfig.min_contact_points (config self) <=
    length (filter (fun record => is_down_or_removed (state record) = false)
              (btree_values (members self))))%nat.

Definition local_member (self : t) : ClusterResult MemberRecord.t :=
  ok_or (UnknownNode (local_node_id self)) (members self !! local_node_id self).

Definition update_local_descriptor (self : t) (node : ClusterNode.t)
    (observed_at_millis : Z) : t * ClusterResult unit :=
  match members self !! local_node_id self with
  | None => (self, Err (UnknownNode (local_node_id self)))
  | Some record =>
      (set_record self (local_node_id self)
         (MemberRecord.new node (state record) observed_at_millis
            (MemberRecord.revision record)),
       Ok tt)
  end.

(** The body of the loop of [record_discovery] for a node that passed the
    protocol check and is not the local one. *)
Definition record_peer (self : t) (observed_at_millis : Z) (node : ClusterNode.t) :
    t * list MembershipEvent :=
  let node_id := ClusterNode.id node in
  match members self !! node_id with
  | Some record =>
      if is_down_or_removed (state record) then
        (set_record self node_id
           (MemberRecord.new node (state record) (last_seen_millis record)
              (MemberRecord.revision record)), [])
      else if decide (state record = Unreachable) then
        (set_record_bump self node_id node Up observed_at_millis,
         [MemberReachable node_id])
      else
        (set_record self node_id
           (MemberRecord.new node (state record) observed_at_millis
              (MemberRecord.revision record)), [])
  | None =>
      (set_record_bump self node_id node Joining observed_at_millis,
       [MemberDiscovered node_id])
  end.

(** The loop of [record_discovery]: [local_protocol] is read before the loop. *)
Fixpoint record_nodes (self : t) (local_protocol : ClusterProtocol.t)
    (observed_at_millis : Z) (events : list MembershipEvent)
    (nodes : list ClusterNode.t) : t * ClusterResult (list MembershipEvent) :=
  match nodes with
  | [] => (self, Ok events)
  | node :: nodes =>
      if negb (ClusterProtocol.is_compatible_with local_protocol (ClusterNode.protocol node))
      then (self, Err (IncompatibleNode (ClusterNode.id node) local_protocol
                         (ClusterNode.protocol node)))
      else if decide (ClusterNode.id node = local_node_id self) then
        match update_local_descriptor self node observed_at_millis with
        | (self, Ok _) => record_nodes self local_protocol observed_at_millis events nodes
        | (self, Err e) => (self, Err e)
        end
      else
        let (self, new_events) := record_peer self observed_at_millis node in
        record_nodes self local_protocol observed_at_millis (events ++ new_events) nodes
  end.

Definition record_discovery (self : t) (snapshot : DiscoverySnapshot.t) :
    t * ClusterResult (list MembershipEvent) :=
  match local_member self with
  | Err e => (self, Err e)
  | Ok local =>
      record_nodes self (ClusterNode.protocol (node local))
        (DiscoverySnapshot.observed_at_millis snapshot) []
        (DiscoverySnapshot.nodes snapshot)
  end.

Definition transition (self : t) (node_id : NodeId.t) (observed_at_millis : Z)
    (to : MembershipState) (is_allowed : MembershipState → bool)
    (event : NodeId.t → MembershipEvent) : t * ClusterResult (option MembershipEvent) :=
  match members self !! node_id with
  | None => (self, Err (UnknownNode node_id))
  | Some record =>
      let from := state record in
      if decide (from = to) then
        (set_record self node_id
           (MemberRecord.new (node record) from observed_at_millis
              (MemberRecord.revision record)), Ok None)
      else if negb (is_allowed from) then
        (self, Err (InvalidTransition node_id from to))
      else
        (set_record_bump self node_id (node record) to observed_at_millis,
         Ok (Some (event node_id)))
  end.

Definition mark_up (self : t) (node_id : NodeId.t) (observed_at_millis : Z) :=
  transition self node_id observed_at_millis Up
    (fun from => match from with Joining | Unreachable => true | _ => false end) MemberUp.

Definition mark_leaving (self : t) (node_id : NodeId.t) (observed_at_millis : Z) :=
  transition self node_id observed_at_millis Leaving
    (fun from => match from with Joining | Up => true | _ => false end) MemberLeaving.

Definition mark_unreachable (self : t) (node_id : NodeId.t) (observed_at_millis : Z) :=
  transition self node_id observed_at_millis Unreachable
    (fun from => match from with Joining | Up => true | _ => false end) MemberUnreachable.

Definition leave_local (self : t) (observed_at_millis : Z) :=
  mark_leaving self (local_node_id self) observed_at_millis.

Definition mark_down (self : t) (node_id : NodeId.t) (observed_at_millis : Z) :=
  transition self node_id observed_at_millis Down
    (fun from => match from with Removed => false | _ => true end) MemberDown.

Definition remove (self : t) (node_id : NodeId.t) (observed_at_millis : Z) :=
  transition self node_id observed_at_millis Removed
    (fun from => match from with Leaving | Down => true | _ => false end) MemberRemoved.

Definition heartbeat (self : t) (node_id : NodeId.t) (observed_at_millis : Z) :
    t * ClusterResult (option MembershipEvent) :=
  match members self !! node_id with
  | None => (self, Err (UnknownNode node_id))
  | Some record =>
      if is_down_or_removed (state record) then
        (self, Err (InvalidTransition node_id (state record) Up))
      else if decide (state record = Unreachable) then
        (set_record_bump self node_id (node record) Up observed_at_millis,
         Ok (Some (MemberReachable node_id)))
      else
        (set_record self node_id
           (MemberRecord.new (node record) (state record) observed_at_millis
              (MemberRecord.revision record)), Ok None)
  end.

(** What one pass of the failure detector makes of a peer's state. *)
Definition detect (failure_timeout down_threshold elapsed : Z) (s : MembershipState) :
    option (MembershipState * (NodeId.t → MembershipEvent)) :=
  match s with
  | Joining | Up =>
      if failure_timeout <=? elapsed then Some (Unreachable, MemberUnreachable) else None
  | Unreachable =>
      if down_threshold <=? elapsed then Some (Down, MemberDown) else None
  | _ => None
  end.

Definition failure_timeout_millis (self : t) : Z :=
  duration_millis (MembershipConfig.failure_timeout (config self)).

Definition down_threshold_millis (self : t) : Z :=
  saturating_add_u64 (failure_timeout_millis self)
    (duration_millis (MembershipConfig.down_after_unreachable (config self))).

(** One iteration of the loop of [tick]. *)
Definition tick_member (now_millis failure_timeout down_threshold : Z)
    (acc : t * list MembershipEvent) (entry : NodeId.t * MemberRecord.t) :
    t * list MembershipEvent :=
  let (self, events) := acc in
  let (node_id, record) := entry in
  if decide (node_id = local_node_id self) then acc
  else
    let elapsed := saturating_sub now_millis (last_seen_millis record) in
    match detect failure_timeout down_threshold elapsed (state record) with
    | Some (s, event) =>
        (set_record_bump self node_id (node record) s (last_seen_millis record),
         events ++ [event node_id])
    | None => acc
    end.

Definition tick (self : t) (now_millis : Z) : t * list MembershipEvent :=
  foldl (tick_member now_millis (failure_timeout_millis self) (down_threshold_millis self))
    (self, []) (btree_entries (members self)).

Definition snapshot (self : t) : Z * list MemberRecord.t :=
  (revision self, btree_values (members self)).

End ClusterMembership.

(** ** Lifecycle

    The lifecycle of one node incarnation, as a step relation on its state; the
    handlers below only ever move a record along it. *)

Inductive lifecycle : MembershipState → MembershipState → Prop :=
| life_up s : s = Joining ∨ s = Unreachable → lifecycle s Up
| life_leaving s : s = Joining ∨ s = Up → lifecycle s Leaving
| life_unreachable s : s = Joining ∨ s = Up → lifecycle s Unreachable
| life_down s : s ≠ Removed → lifecycle s Down
| life_removed s : s = Leaving ∨ s = Down → lifecycle s Removed.

(** Evolution of a table slot: a record never disappears, and a new one enters as
    [Joining]. *)
Definition slot_le (a b : option MembershipState) : Prop :=
  match a, b with
  | Some s, Some s' => rtc lifecycle s s'
  | None, Some s' => rtc lifecycle Joining s'
  | None, None => True
  | Some _, None => False
  end.

#[global] Instance slot_le_preorder : PreOrder slot_le.
Proof.
  split.
  - intros [s|]; simpl; [apply rtc_refl|done].
  - intros [a|] [b|] [c|]; simpl; try done; intros; by etrans.
Qed.

Create HintDb membership.
#[export] Hint Constructors lifecycle : membership.
#[export] Hint Resolve rtc_refl rtc_once : membership.

Lemma down_or_removed_absorbing s s' :
  rtc lifecycle s s' → is_down_or_removed s = true → is_down_or_removed s' = true.
Proof.
  induction 1 as [|x y z Hxy _ IH]; [done|]. intros Hx. apply IH.
  destruct Hxy as [? [->| ->]|? [->| ->]|? [->| ->]|?|? [->| ->]]; done.
Qed.

Import ClusterMembership.

Definition state_of (self : ClusterMembership.t) (k : NodeId.t) : option MembershipState :=
  MemberRecord.state <$> members self !! k.

(** The table invariant: the local node is a member, and every record is stored
    under the id of its own descriptor. *)
Definition membership_wf (self : ClusterMembership.t) : Prop :=
  is_Some (members self !! local_node_id self) ∧
  ∀ k r, members self !! k = Some r → ClusterNode.id (MemberRecord.node r) = k.

Record evolves (s s' : ClusterMembership.t) : Prop := {
  evolves_config : config s' = config s;
  evolves_local : local_node_id s' = local_node_id s;
  evolves_slot : ∀ k, slot_le (state_of s k) (state_of s' k);
  evolves_wf : membership_wf s → membership_wf s';
}.

#[global] Instance evolves_preorder : PreOrder evolves.
Proof.
  split.
  - intros s. by split.
  - intros s1 s2 s3 [Hc1 Hl1 Hs1 Hw1] [Hc2 Hl2 Hs2 Hw2].
    split; [congruence|congruence| |auto]. intros k. etrans; [apply Hs1|apply Hs2].
Qed.

(** [bump_n n r]: the revision [r] after [n] increments. *)
Definition bump_n (n : nat) (r : Z) : Z := Nat.iter n (fun r => add_u64 r 1) r.

Lemma bump_n_add n m r : bump_n n (bump_n m r) = bump_n (n + m) r.
Proof. unfold bump_n. by rewrite Nat.iter_add. Qed.

Lemma bump_n_headroom n r : 0 <= r → r + Z.of_nat n <= u64_max → bump_n n r = r + Z.of_nat n.
Proof.
  intros Hr. induction n as [|n IH]; unfold bump_n in *; simpl; [lia|].
  intros Hn. rewrite IH by lia. rewrite add_u64_small; lia.
Qed.

(** Writing one record back. *)
Lemma set_slot_evolves s k r rev' :
  slot_le (state_of s k) (Some (MemberRecord.state r)) →
  (membership_wf s → ClusterNode.id (MemberRecord.node r) = k) →
  evolves s (ClusterMembership.mk (config s) (local_node_id s) (<[k := r]> (members s)) rev').
Proof.
  intros Hs Hid. split; try done.
  - intros k'. unfold state_of; simpl. destruct (decide (k = k')) as [->|Hne].
    + by rewrite lookup_insert_eq.
    + by rewrite lookup_insert_ne.
  - intros Hwf. specialize (Hid Hwf). destruct Hwf as [Hl Hk]. split; simpl.
    + destruct (decide (k = local_node_id s)) as [->|Hne].
      * rewrite lookup_insert_eq. by eexists.
      * by rewrite lookup_insert_ne.
    + intros k' r'. destruct (decide (k = k')) as [->|Hne].
      * rewrite lookup_insert_eq. by intros [= <-].
      * rewrite lookup_insert_ne by done. apply Hk.
Qed.

Section handlers.
Implicit Types s : ClusterMembership.t.

#[local] Hint Resolve lookup_insert_eq : membership.

(** One handler's effect on the table: it evolves it, and it counts [n] changes in
    the revision. *)
Definition steps_by (n : nat) s s' : Prop :=
  evolves s s' ∧ revision s' = bump_n n (revision s).

Lemma steps_by_trans n m s1 s2 s3 :
  steps_by n s1 s2 → steps_by m s2 s3 → steps_by (m + n) s1 s3.
Proof.
  intros [He1 Hr1] [He2 Hr2]. split; [by etrans|]. by rewrite Hr2, Hr1, bump_n_add.
Qed.

Lemma steps_by_refl s : steps_by 0 s s.
Proof. by split. Qed.

Lemma set_record_steps s k r n ls rev :
  members s !! k = Some r →
  (membership_wf s → ClusterNode.id n = k) →
  steps_by 0 s (set_record s k (MemberRecord.new n (MemberRecord.state r) ls rev)).
Proof.
  intros Hk Hid. split; [|done]. apply set_slot_evolves; [|done].
  unfold state_of. rewrite Hk. simpl. apply rtc_refl.
Qed.

Lemma set_record_bump_steps s k n st ls :
  slot_le (state_of s k) (Some st) →
  (membership_wf s → ClusterNode.id n = k) →
  steps_by 1 s (set_record_bump s k n st ls).
Proof. intros Hs Hid. split; [|done]. by apply set_slot_evolves. Qed.

Lemma wf_record_id s k r :
  members s !! k = Some r → membership_wf s → ClusterNode.id (MemberRecord.node r) = k.
Proof. intros Hk [_ Hwf]. by apply Hwf. Qed.

#[local] Hint Resolve wf_record_id set_record_steps set_record_bump_steps steps_by_refl
  : membership.

Lemma transition_steps s k at_ to allowed ev s' res :
  (∀ from, from ≠ to → allowed from = true → lifecycle from to) →
  transition s k at_ to allowed ev = (s', res) →
  steps_by (match res with Ok (Some _) => 1 | _ => 0 end) s s'.
Proof.
  intros Hlife. unfold transition.
  destruct (members s !! k) as [r|] eqn:Hk; [|intros [= <- <-]; apply steps_by_refl].
  case_decide; [intros [= <- <-]; eauto with membership|].
  destruct (allowed (MemberRecord.state r)) eqn:Ha; intros Heq; simplify_eq/=;
    [|apply steps_by_refl].
  apply set_record_bump_steps; [|eauto with membership].
  unfold state_of. rewrite Hk. simpl. eauto with membership.
Qed.

Lemma heartbeat_steps s k at_ s' res :
  heartbeat s k at_ = (s', res) →
  steps_by (match res with Ok (Some _) => 1 | _ => 0 end) s s'.
Proof.
  unfold heartbeat.
  destruct (members s !! k) as [r|] eqn:Hk; [|intros [= <- <-]; apply steps_by_refl].
  destruct (is_down_or_removed _); [intros [= <- <-]; apply steps_by_refl|].
  case_decide as Hu; intros [= <- <-]; [|eauto with membership].
  apply set_record_bump_steps; [|eauto with membership].
  unfold state_of. rewrite Hk. simpl. rewrite Hu. eauto with membership.
Qed.

Lemma record_peer_steps s at_ n s' evs :
  record_peer s at_ n = (s', evs) → steps_by (length evs) s s'.
Proof.
  unfold record_peer. destruct (members s !! ClusterNode.id n) as [r|] eqn:Hk.
  - destruct (is_down_or_removed _); [intros [= <- <-]; eauto with membership|].
    case_decide as Hu; intros [= <- <-]; [|eauto with membership].
    apply set_record_bump_steps; [|done].
    unfold state_of. rewrite Hk. simpl. rewrite Hu. eauto with membership.
  - intros [= <- <-]. apply set_record_bump_steps; [|done].
    unfold state_of. rewrite Hk. simpl. apply rtc_refl.
Qed.

Lemma update_local_descriptor_steps s n at_ s' res :
  ClusterNode.id n = local_node_id s →
  update_local_descriptor s n at_ = (s', res) → steps_by 0 s s'.
Proof.
  intros Hid. unfold update_local_descriptor.
  destruct (members s !! _) as [r|] eqn:Hk; intros [= <- <-]; eauto with membership.
Qed.

(** [record_nodes] keeps the events it was given in front of its own; on an error
    they are lost, so their number is only bounded. *)
Lemma record_nodes_steps s p at_ evs ns s' res :
  record_nodes s p at_ evs ns = (s', res) →
  ∃ new, steps_by (length new) s s' ∧ ∀ out, res = Ok out → out = evs ++ new.
Proof.
  revert s evs. induction ns as [|n ns IH]; intros s evs; simpl.
  { intros [= <- <-]. exists []. split; [apply steps_by_refl|].
    intros out [= <-]. by rewrite app_nil_r. }
  destruct (negb _).
  { intros [= <- <-]. exists []. split; [apply steps_by_refl|done]. }
  case_decide as Hid.
  - destruct (update_local_descriptor s n at_) as [s1 [u|e]] eqn:Hu;
      pose proof (update_local_descriptor_steps _ _ _ _ _ Hid Hu) as Hs1.
    + intros (new & Hs' & Hout)%IH. exists new. split; [|done].
      rewrite <-(Nat.add_0_r (length new)). by eapply steps_by_trans.
    + intros [= <- <-]. by exists [].
  - destruct (record_peer s at_ n) as [s1 evs1] eqn:Hp.
    apply record_peer_steps in Hp.
    intros (new & Hs' & Hout)%IH. exists (evs1 ++ new). split.
    + rewrite length_app, Nat.add_comm. by eapply steps_by_trans.
    + intros out Ho. rewrite (Hout out Ho). by rewrite app_assoc.
Qed.

Lemma record_discovery_steps s snap s' res :
  record_discovery s snap = (s', res) →
  ∃ evs, steps_by (length evs) s s' ∧ ∀ out, res = Ok out → out = evs.
Proof.
  unfold record_discovery. destruct (local_member s) as [r|e].
  - intros (new & ? & ?)%record_nodes_steps. by exists new.
  - intros [= <- <-]. exists []. split; [apply steps_by_refl|done].
Qed.

Lemma detect_lifecycle ft dt el st st' ev :
  detect ft dt el st = Some (st', ev) → lifecycle st st'.
Proof.
  destruct st; simpl; try done; case_match; intros [= <- <-]; eauto with membership.
Qed.

(** What [tick] makes of one entry of the table, and the event it emits for it. *)
Definition tick_slot s now (k : NodeId.t) (r : MemberRecord.t) :
    option (MembershipState * (NodeId.t → MembershipEvent)) :=
  if decide (k = local_node_id s) then None
  else detect (failure_timeout_millis s) (down_threshold_millis s)
         (saturating_sub now (MemberRecord.last_seen_millis r)) (MemberRecord.state r).

Definition tick_event s now (entry : NodeId.t * MemberRecord.t) : option MembershipEvent :=
  (fun p => p.2 entry.1) <$> tick_slot s now entry.1 entry.2.

(** The record an entry is left with, its revision apart. *)
Definition ticked s now (k : NodeId.t) (r r' : MemberRecord.t) : Prop :=
  match tick_slot s now k r with
  | None => r' = r
  | Some (st, _) =>
      ∃ rev, r' = MemberRecord.new (MemberRecord.node r) st
                    (MemberRecord.last_seen_millis r) rev
  end.

Lemma tick_member_cases s0 now s evs k r :
  local_node_id s = local_node_id s0 →
  tick_member now (failure_timeout_millis s0) (down_threshold_millis s0) (s, evs) (k, r)
  = match tick_slot s0 now k r with
    | Some (st, ev) =>
        (set_record_bump s k (MemberRecord.node r) st (MemberRecord.last_seen_millis r),
         evs ++ [ev k])
    | None => (s, evs)
    end.
Proof.
  intros Hl. unfold tick_member, tick_slot. rewrite Hl. case_decide; [done|].
  by destruct (detect _ _ _ _) as [[]|].
Qed.

Lemma tick_fold s0 now l s evs s' evs' :
  local_node_id s = local_node_id s0 →
  NoDup l.*1 →
  (∀ k r, (k, r) ∈ l → members s !! k = Some r) →
  foldl (tick_member now (failure_timeout_millis s0) (down_threshold_millis s0))
    (s, evs) l = (s', evs') →
  evs' = evs ++ omap (tick_event s0 now) l ∧
  steps_by (length (omap (tick_event s0 now) l)) s s' ∧
  (∀ k, k ∉ l.*1 → members s' !! k = members s !! k) ∧
  (∀ k r, (k, r) ∈ l → ∃ r', members s' !! k = Some r' ∧ ticked s0 now k r r').
Proof.
  revert s evs. induction l as [|[k r] l IH]; intros s evs Hloc Hnd Hin.
  { intros [= <- <-]. simpl. rewrite app_nil_r. split_and!; [done|apply steps_by_refl|done|].
    intros k r Hkr. by apply not_elem_of_nil in Hkr. }
  apply NoDup_cons in Hnd as [Hk Hnd]. cbn [foldl].
  rewrite tick_member_cases by done. unfold tick_event at 1 2; simpl.
  pose proof (Hin k r ltac:(by left)) as Hkr.
  destruct (tick_slot s0 now k r) as [[st ev]|] eqn:Hslot; simpl; intros Hf.
  - assert (steps_by 1 s (set_record_bump s k (MemberRecord.node r) st
                            (MemberRecord.last_seen_millis r))) as Hb.
    { apply set_record_bump_steps; [|eauto with membership].
      unfold state_of. rewrite Hkr. simpl. unfold tick_slot in Hslot. case_decide; [done|].
      apply rtc_once. by eapply detect_lifecycle. }
    apply IH in Hf as (-> & Hs & Hout & Hall); [|done|done|].
    2:{ intros k' r' Hin'. simpl. rewrite lookup_insert_ne; [apply Hin; by right|].
        intros ->. apply Hk. apply list_elem_of_fmap. by exists (k', r'). }
    split_and!.
    + by rewrite <-app_assoc.
    + rewrite <-Nat.add_1_r. by eapply steps_by_trans.
    + intros k' [Hne Hn]%not_elem_of_cons. rewrite Hout by done. simpl.
      by rewrite lookup_insert_ne.
    + intros k' r' [[= -> ->]|Hin']%elem_of_cons; [|by apply Hall].
      rewrite Hout by done. simpl. rewrite lookup_insert_eq.
      eexists. split; [done|]. unfold ticked. rewrite Hslot. by eexists.
  - apply IH in Hf as (-> & Hs & Hout & Hall); [|done|done|].
    2:{ intros k' r' Hin'. apply Hin. by right. }
    split_and!; [done|done| |].
    + intros k' [_ Hn]%not_elem_of_cons. by apply Hout.
    + intros k' r' [[= -> ->]|Hin']%elem_of_cons; [|by apply Hall].
      rewrite Hout by done. exists r. split; [done|]. unfold ticked. by rewrite Hslot.
Qed.

Lemma tick_spec s now s' evs :
  tick s now = (s', evs) →
  evs = omap (tick_event s now) (btree_entries (members s)) ∧
  steps_by (length evs) s s' ∧
  (∀ k, members s !! k = None → members s' !! k = None) ∧
  (∀ k r, members s !! k = Some r →
     ∃ r', members s' !! k = Some r' ∧ ticked s now k r r').
Proof.
  intros Ht. apply tick_fold in Ht as (-> & Hs & Hout & Hall);
    [|done|apply NoDup_btree_keys|intros k r; apply elem_of_btree_entries].
  split_and!; [done|done| |].
  - intros k Hk. rewrite Hout; [done|].
    intros [? ?]%(elem_of_btree_keys (members s) k). congruence.
  - intros k r Hk. apply Hall. by apply elem_of_btree_entries.
Qed.

End handlers.

(** ** Runs of a membership table *)

Inductive membership_step : ClusterMembership.t → ClusterMembership.t → Prop :=
| step_record_discovery s snap s' res :
    record_discovery s snap = (s', res) → membership_step s s'
| step_mark_up s k at_ s' res : mark_up s k at_ = (s', res) → membership_step s s'
| step_heartbeat s k at_ s' res : heartbeat s k at_ = (s', res) → membership_step s s'
| step_mark_leaving s k at_ s' res : mark_leaving s k at_ = (s', res) → membership_step s s'
| step_mark_unreachable s k at_ s' res :
    mark_unreachable s k at_ = (s', res) → membership_step s s'
| step_leave_local s at_ s' res : leave_local s at_ = (s', res) → membership_step s s'
| step_mark_down s k at_ s' res : mark_down s k at_ = (s', res) → membership_step s s'
| step_remove s k at_ s' res : remove s k at_ = (s', res) → membership_step s s'
| step_tick s now s' evs : tick s now = (s', evs) → membership_step s s'.

Definition events_of (res : ClusterResult (option MembershipEvent)) : list MembershipEvent :=
  match res with Ok (Some e) => [e] | _ => [] end.

(** The five lifecycle markers, in one lemma. *)
Lemma marker_steps s k at_ s' res :
  mark_up s k at_ = (s', res) ∨ mark_leaving s k at_ = (s', res) ∨
  mark_unreachable s k at_ = (s', res) ∨ mark_down s k at_ = (s', res) ∨
  remove s k at_ = (s', res) →
  steps_by (length (events_of res)) s s'.
Proof.
  intros H. cut (steps_by (match res with Ok (Some _) => 1 | _ => 0 end) s s').
  { by destruct res as [[]|]. }
  destruct H as [H|[H|[H|[H|H]]]]; (eapply transition_steps; [|exact H]);
    intros []; simpl; intros; try done; eauto with membership.
Qed.

Lemma membership_step_steps s s' : membership_step s s' → ∃ n, steps_by n s s'.
Proof.
  destruct 1.
  - edestruct record_discovery_steps as (? & ? & _); eauto.
  - eexists. eapply marker_steps; eauto.
  - eexists. by eapply heartbeat_steps.
  - eexists. eapply marker_steps; eauto.
  - eexists. eapply marker_steps; eauto.
  - eexists. eapply marker_steps; eauto.
  - eexists. eapply marker_steps; eauto.
  - eexists. eapply marker_steps; eauto 10.
  - edestruct tick_spec as (_ & ? & _); eauto.
Qed.

Lemma membership_run_evolves s s' : rtc membership_step s s' → evolves s s'.
Proof.
  induction 1 as [|s1 s2 s3 Hstep _ IH]; [reflexivity|].
  apply membership_step_steps in Hstep as (n & [? _]). by etrans.
Qed.

Lemma membership_new_wf n cfg : membership_wf (ClusterMembership.new n cfg).
Proof.
  split; simpl.
  - rewrite lookup_singleton_eq. by eexists.
  - intros k r [<- <-]%lookup_singleton_Some. done.
Qed.

Lemma elem_of_routable s r :
  r ∈ routable_members s ↔ ∃ k, members s !! k = Some r ∧ MemberRecord.state r = Up.
Proof.
  unfold routable_members. rewrite list_elem_of_filter, elem_of_btree_values. firstorder.
Qed.

(** C10. In every run of the membership handlers from a fresh table: the local node
    stays a member, every record is stored under its own node id, no record ever
    disappears, and each incarnation only moves along the lifecycle relation. *)
Theorem membership_run_invariant (n : ClusterNode.t) (cfg : MembershipConfig.t)
    (s s' : ClusterMembership.t) :
  rtc membership_step (ClusterMembership.new n cfg) s → rtc membership_step s s' →
  membership_wf s ∧ local_node_id s = ClusterNode.id n ∧
  ∀ k, slot_le (state_of s k) (state_of s' k).
Proof.
  intros H1%membership_run_evolves H2%membership_run_evolves. split_and!.
  - apply (evolves_wf _ _ H1), membership_new_wf.
  - by rewrite (evolves_local _ _ H1).
  - apply (evolves_slot _ _ H2).
Qed.

(** No resurrection: an incarnation that was once down or removed is never
    routable again, whatever discovery, heartbeats and markers follow. *)
Theorem downed_never_routable (s s' : ClusterMembership.t) (k : NodeId.t) (r r' : MemberRecord.t) :
  membership_wf s → rtc membership_step s s' →
  members s !! k = Some r → is_down_or_removed (MemberRecord.state r) = true →
  r' ∈ routable_members s' → ClusterNode.id (MemberRecord.node r') ≠ k.
Proof.
  intros Hwf Hrun%membership_run_evolves Hk Hd (k' & Hk' & Hup)%elem_of_routable Heq.
  apply (evolves_wf _ _ Hrun) in Hwf as [_ Hid].
  rewrite (Hid k' r' Hk') in Heq. subst k'.
  pose proof (evolves_slot _ _ Hrun k) as Hs. unfold state_of in Hs.
  rewrite Hk, Hk' in Hs. simpl in Hs.
  eapply down_or_removed_absorbing in Hs; [|done]. by rewrite Hup in Hs.
Qed.

(** Every change is counted: a successful handler raises the table revision by
    exactly the number of events it reports (while the [u64] counter has room). *)
Theorem revision_counts_events (s s' : ClusterMembership.t) (evs : list MembershipEvent) :
  0 <= revision s → revision s + Z.of_nat (length evs) <= u64_max →
  ((∃ now, tick s now = (s', evs)) ∨
   (∃ snap, record_discovery s snap = (s', Ok evs)) ∨
   (∃ k at_ res, events_of res = evs ∧
      (heartbeat s k at_ = (s', res) ∨
       mark_up s k at_ = (s', res) ∨ mark_leaving s k at_ = (s', res) ∨
       mark_unreachable s k at_ = (s', res) ∨ mark_down s k at_ = (s', res) ∨
       remove s k at_ = (s', res)))) →
  revision s' = revision s + Z.of_nat (length evs).
Proof.
  intros H0 Hroom Hop. cut (steps_by (length evs) s s').
  { intros [_ ->]. by apply bump_n_headroom. }
  destruct Hop as [[now Ht]|[[snap Hd]|(k & at_ & res & <- & [Hh|Hm])]].
  - by apply tick_spec in Ht as (_ & ? & _).
  - apply record_discovery_steps in Hd as (evs' & ? & Heq). by rewrite (Heq evs).
  - apply heartbeat_steps in Hh. by destruct res as [[]|].
  - by eapply marker_steps.
Qed.

(** ** The failure detector *)

Definition MembershipConfig_wf (c : MembershipConfig.t) : Prop :=
  0 <= MembershipConfig.failure_timeout c ∧ 0 <= MembershipConfig.down_after_unreachable c.

Lemma down_threshold_ge s :
  MembershipConfig_wf (config s) → failure_timeout_millis s <= down_threshold_millis s.
Proof.
  intros [? ?]. unfold down_threshold_millis, failure_timeout_millis, duration_millis. uint.
Qed.

(** One pass over a peer that has been silent past the down threshold takes it one
    step towards [Down] and leaves its last-seen time. *)
Lemma tick_silent_peer s now s' evs k r :
  MembershipConfig_wf (config s) →
  tick s now = (s', evs) → members s !! k = Some r → k ≠ local_node_id s →
  down_threshold_millis s <= now - MemberRecord.last_seen_millis r →
  ∃ r', members s' !! k = Some r' ∧
    MemberRecord.last_seen_millis r' = MemberRecord.last_seen_millis r ∧
    MemberRecord.state r' =
      match MemberRecord.state r with
      | Joining | Up => Unreachable
      | Unreachable => Down
      | s => s
      end.
Proof.
  intros Hcfg (_ & _ & _ & Hall)%tick_spec Hk Hne Hsilent.
  destruct (Hall k r Hk) as (r' & Hr' & Ht). exists r'. split; [done|].
  unfold ticked, tick_slot in Ht. rewrite decide_False in Ht by done.
  pose proof (down_threshold_ge s Hcfg) as Hge.
  assert (down_threshold_millis s <=
          saturating_sub now (MemberRecord.last_seen_millis r)) as Hel by uint.
  destruct (MemberRecord.state r) eqn:Hst; simpl in Ht;
    rewrite ?(proj2 (Z.leb_le _ _)) in Ht by lia; destruct_and?;
    try destruct Ht as [? ->]; simplify_eq/=; done.
Qed.

(** Completeness of the failure detector: a peer that stays silent for the
    failure timeout plus the down window is [Down] after two ticks, whatever its
    state was among joining, up and unreachable. *)
Theorem silent_peer_is_downed (s s1 s2 : ClusterMembership.t) (now1 now2 : Z)
    (evs1 evs2 : list MembershipEvent) (k : NodeId.t) (r : MemberRecord.t) :
  MembershipConfig_wf (config s) →
  members s !! k = Some r → k ≠ local_node_id s →
  MemberRecord.state r ∈ [Joining; Up; Unreachable] →
  now1 <= now2 →
  down_threshold_millis s <= now1 - MemberRecord.last_seen_millis r →
  tick s now1 = (s1, evs1) → tick s1 now2 = (s2, evs2) →
  state_of s2 k = Some Down.
Proof.
  intros Hcfg Hk Hne Hst Hnow Hsilent Ht1 Ht2.
  destruct (tick_silent_peer _ _ _ _ _ _ Hcfg Ht1 Hk Hne Hsilent) as (r1 & Hk1 & Hls & Hst1).
  apply tick_spec in Ht1 as (_ & [He _] & _).
  destruct He as [Hc Hl _ _].
  assert (down_threshold_millis s1 = down_threshold_millis s) as Hdt.
  { unfold down_threshold_millis, failure_timeout_millis. by rewrite Hc. }
  destruct (tick_silent_peer s1 now2 s2 evs2 k r1) as (r2 & Hk2 & _ & Hst2);
    [by rewrite Hc|done|done|by rewrite Hl|rewrite Hdt, Hls; lia|].
  unfold state_of. rewrite Hk2. simpl. f_equal. rewrite Hst2, Hst1.
  by destruct (MemberRecord.state r); set_unfold; intuition.
Qed.

(** Accuracy of the failure detector: a tick changes neither the local node's
    record nor the record of a peer seen within the failure timeout. *)
Theorem recent_peer_untouched (s s' : ClusterMembership.t) (now : Z)
    (evs : list MembershipEvent) (k : NodeId.t) (r : MemberRecord.t) :
  MembershipConfig_wf (config s) →
  tick s now = (s', evs) → members s !! k = Some r →
  (k = local_node_id s ∨
   saturating_sub now (MemberRecord.last_seen_millis r) < failure_timeout_millis s) →
  members s' !! k = Some r ∧ ∀ e, e ∈ evs → event_node_id e ≠ k.
Proof.
  intros Hcfg (-> & _ & _ & Hall)%tick_spec Hk Hcase.
  pose proof (down_threshold_ge s Hcfg) as Hge.
  assert (tick_slot s now k r = None) as Hnone.
  { unfold tick_slot. case_decide; [done|]. destruct Hcase as [?|Hlt]; [done|].
    destruct (MemberRecord.state r); simpl; try done;
      by rewrite (proj2 (Z.leb_gt _ _)) by lia. }
  destruct (Hall k r Hk) as (r' & Hr' & Ht). unfold ticked in Ht. rewrite Hnone in Ht.
  split; [congruence|].
  intros e ([k' r0] & Hin & He)%list_elem_of_omap <-. apply elem_of_btree_entries in Hin.
  unfold tick_event in He. simpl in He.
  destruct (tick_slot s now k' r0) as [[st ev]|] eqn:Hs; [|done]. simpl in He.
  assert (event_node_id e = k') as Hid.
  { injection He as <-. unfold tick_slot in Hs. case_decide; [done|].
    destruct (MemberRecord.state r0); simpl in Hs; try done; case_match; by simplify_eq. }
  rewrite Hid in *. congruence.
Qed.

(** ** Discovery *)

Definition compatible (p : ClusterProtocol.t) (n : ClusterNode.t) : Prop :=
  ClusterProtocol.is_compatible_with p (ClusterNode.protocol n) = true.

(** Recording a peer leaves it a member, and reports it as discovered only when it
    was not one. *)
Lemma record_peer_member s at_ n s' evs :
  record_peer s at_ n = (s', evs) →
  is_Some (members s' !! ClusterNode.id n) ∧
  ∀ k, MemberDiscovered k ∈ evs → members s !! k = None.
Proof.
  unfold record_peer. destruct (members s !! ClusterNode.id n) as [r|] eqn:Hk.
  - destruct (is_down_or_removed _); [|case_decide]; intros [= <- <-]; simpl;
      rewrite lookup_insert_eq; (split; [by eexists|]); intros k Hin; set_unfold;
      naive_solver.
  - intros [= <- <-]; simpl. rewrite lookup_insert_eq. split; [by eexists|].
    intros k Hin. set_unfold. by destruct Hin as [[= ->]|].
Qed.

Lemma evolves_none s s' k : evolves s s' → members s' !! k = None → members s !! k = None.
Proof.
  intros He Hk. pose proof (evolves_slot _ _ He k) as Hs. unfold state_of in Hs.
  rewrite Hk in Hs. by destruct (members s !! k).
Qed.

Lemma evolves_some s s' k : evolves s s' → is_Some (members s !! k) → is_Some (members s' !! k).
Proof.
  intros He [r Hk]. destruct (members s' !! k) as [r'|] eqn:Hk'; [by eexists|].
  by rewrite (evolves_none _ _ _ He Hk') in Hk.
Qed.

Lemma record_nodes_discovered s p at_ evs ns s' out k :
  record_nodes s p at_ evs ns = (s', Ok out) →
  MemberDiscovered k ∈ out → MemberDiscovered k ∈ evs ∨ members s !! k = None.
Proof.
  revert s evs. induction ns as [|n ns IH]; intros s evs; simpl.
  { intros [= <- <-]. by left. }
  destruct (negb _); [done|]. case_decide as Hid.
  - destruct (update_local_descriptor s n at_) as [s1 [u|e]] eqn:Hu; [|done].
    intros Hr Hin. destruct (IH _ _ Hr Hin) as [?|Hn]; [by left|right].
    eapply evolves_none; [|exact Hn].
    by apply update_local_descriptor_steps in Hu as [? _].
  - destruct (record_peer s at_ n) as [s1 evs1] eqn:Hp. intros Hr Hin.
    destruct (IH _ _ Hr Hin) as [[?|Hin1]%elem_of_app|Hn]; [by left| |right].
    + right. eapply record_peer_member in Hp as [_ Hd]. by apply Hd.
    + eapply evolves_none; [|exact Hn]. by apply record_peer_steps in Hp as [? _].
Qed.

(** On a snapshot whose nodes are compatible up to [bad], the call fails at [bad]
    with the table that recording the nodes in front of it produces. *)
Lemma record_nodes_error s p at_ evs pre bad post :
  membership_wf s → Forall (compatible p) pre → ¬ compatible p bad →
  ∃ s' evs', record_nodes s p at_ evs pre = (s', Ok evs') ∧
    record_nodes s p at_ evs (pre ++ bad :: post) =
      (s', Err (IncompatibleNode (ClusterNode.id bad) p (ClusterNode.protocol bad))) ∧
    (∀ n, n ∈ pre → ClusterNode.id n ≠ local_node_id s →
       is_Some (members s' !! ClusterNode.id n)).
Proof.
  intros Hwf Hpre Hbad. revert s evs Hwf. induction Hpre as [|n pre Hn _ IH]; intros s evs Hwf.
  { exists s, evs. simpl. unfold compatible in Hbad. apply not_true_is_false in Hbad.
    rewrite Hbad. simpl. split_and!; [done|done|]. by intros n Hn%not_elem_of_nil. }
  unfold compatible in Hn. cbn [record_nodes app]. rewrite Hn. cbn [negb].
  case_decide as Hid.
  - destruct Hwf as [[r Hr] Hk]. unfold update_local_descriptor. rewrite Hr.
    set (s1 := set_record s _ _).
    assert (steps_by 0 s s1) as [He _] by (apply set_record_steps; done).
    destruct (IH s1 evs) as (s' & evs' & H1 & H2 & H3).
    { apply (evolves_wf _ _ He). split; [by eexists|done]. }
    exists s', evs'. split_and!; [done|done|].
    intros n' [->|Hin]%elem_of_cons Hne; [congruence|]. by apply H3.
  - destruct (record_peer s at_ n) as [s1 evs1] eqn:Hp.
    pose proof (record_peer_steps _ _ _ _ _ Hp) as [He _].
    destruct (IH s1 (evs ++ evs1)) as (s' & evs' & H1 & H2 & H3); [by apply (evolves_wf _ _ He)|].
    exists s', evs'. split_and!; [done|done|].
    intros n' [->|Hin]%elem_of_cons Hne.
    + eapply evolves_some; [|by eapply record_peer_member].
      by apply record_nodes_steps in H1 as (? & [? _] & _).
    + apply H3; [done|]. by rewrite (evolves_local _ _ He).
Qed.

(** A discovery snapshot that is rejected for an incompatible node still adds
    the nodes listed in front of it, and their discovery is never reported: not by
    the failed call, and not by any later one. *)
Theorem rejected_discovery_loses_events (s : ClusterMembership.t) (local : MemberRecord.t)
    (snap : DiscoverySnapshot.t) (pre post : list ClusterNode.t) (bad n : ClusterNode.t) :
  membership_wf s → members s !! local_node_id s = Some local →
  let p := ClusterNode.protocol (MemberRecord.node local) in
  DiscoverySnapshot.nodes snap = pre ++ bad :: post →
  Forall (compatible p) pre → ¬ compatible p bad →
  n ∈ pre → ClusterNode.id n ≠ local_node_id s →
  ∃ s', record_discovery s snap =
      (s', Err (IncompatibleNode (ClusterNode.id bad) p (ClusterNode.protocol bad))) ∧
    is_Some (members s' !! ClusterNode.id n) ∧
    ∀ s1 snap1 s2 evs, rtc membership_step s' s1 →
      record_discovery s1 snap1 = (s2, Ok evs) →
      MemberDiscovered (ClusterNode.id n) ∉ evs.
Proof.
  intros Hwf Hloc p Hnodes Hpre Hbad Hin Hne.
  destruct (record_nodes_error s p (DiscoverySnapshot.observed_at_millis snap) [] pre bad post)
    as (s' & evs' & _ & Herr & Hmem); [done..|].
  exists s'. split_and!.
  - unfold record_discovery, local_member. rewrite Hloc. simpl. by rewrite Hnodes.
  - by apply Hmem.
  - intros s1 snap1 s2 evs Hrun%membership_run_evolves. unfold record_discovery.
    destruct (local_member s1); [|done]. intros Hr Hev.
    destruct (record_nodes_discovered _ _ _ _ _ _ _ _ Hr Hev) as [?%not_elem_of_nil|Hnone]; [done|].
    destruct (evolves_some _ _ _ Hrun (Hmem n Hin Hne)). congruence.
Qed.

(** ** Concrete runs *)

Definition node_a : ClusterNode.t :=
  ClusterNode.new (NodeId.new "a" "1") (NodeAddress.new "10.0.0.1" 2552).
Definition node_b : ClusterNode.t :=
  ClusterNode.new (NodeId.new "b" "1") (NodeAddress.new "10.0.0.2" 2552).
Definition node_v3 : ClusterNode.t :=
  ClusterNode.with_protocol
    (ClusterNode.new (NodeId.new "c" "1") (NodeAddress.new "10.0.0.3" 2552))
    (ClusterProtocol.exact (ProtocolVersion.new 3 0)).

(** [a] starts, comes up, discovers [b] at 1000 and later declares it down. *)
Definition run_started : ClusterMembership.t := ClusterMembership.new node_a MembershipConfig.default.
Definition run_up : ClusterMembership.t := (mark_up run_started (ClusterNode.id node_a) 500).1.
Definition run_discovered : ClusterMembership.t :=
  (record_discovery run_up (DiscoverySnapshot.new "static" 1000 [node_b])).1.
Definition run_downed : ClusterMembership.t :=
  (mark_down run_discovered (ClusterNode.id node_b) 2000).1.
Definition record_b (s : MembershipState) (revision : Z) : MemberRecord.t :=
  MemberRecord.new node_b s (if decide (s = Down) then 2000 else 1000) revision.

Lemma run_started_discovered : rtc membership_step run_started run_discovered.
Proof.
  eapply rtc_l; [eapply (step_mark_up _ (ClusterNode.id node_a) 500), surjective_pairing|].
  eapply rtc_once, (step_record_discovery _ (DiscoverySnapshot.new "static" 1000 [node_b])),
    surjective_pairing.
Qed.

Lemma run_discovered_downed : rtc membership_step run_discovered run_downed.
Proof. eapply rtc_once, (step_mark_down _ (ClusterNode.id node_b) 2000), surjective_pairing. Qed.

Lemma run_discovered_wf : membership_wf run_discovered.
Proof.
  destruct (membership_run_evolves _ _ run_started_discovered) as [_ _ _ Hwf].
  apply Hwf. split; [by eexists|]. simpl. intros k r [<- <-]%lookup_singleton_Some. done.
Qed.

Lemma run_downed_wf : membership_wf run_downed.
Proof.
  destruct (membership_run_evolves _ _ run_discovered_downed) as [_ _ _ Hwf].
  apply Hwf, run_discovered_wf.
Qed.

Lemma membership_run_invariant_witness :
  membership_wf run_discovered ∧
  slot_le (state_of run_discovered (ClusterNode.id node_b)) (state_of run_downed (ClusterNode.id node_b)).
Proof.
  destruct (membership_run_invariant node_a MembershipConfig.default run_discovered run_downed)
    as (Hwf & _ & Hslot).
  - apply run_started_discovered.
  - apply run_discovered_downed.
  - exact (conj Hwf (Hslot _)).
Defined.

(** [b] is heard again after it was declared down: it stays out of the routing table. *)
Lemma downed_never_routable_witness :
  let s' := (heartbeat run_downed (ClusterNode.id node_b) 3000).1 in
  routable_members s' = [MemberRecord.new node_a Up 500 1] ∧
  ClusterNode.id (MemberRecord.node (MemberRecord.new node_a Up 500 1)) ≠ ClusterNode.id node_b.
Proof.
  cbv zeta. split; [vm_compute; reflexivity|].
  apply (downed_never_routable run_downed (heartbeat run_downed (ClusterNode.id node_b) 3000).1
           (ClusterNode.id node_b) (record_b Down 3)).
  - apply run_downed_wf.
  - eapply rtc_once, (step_heartbeat _ (ClusterNode.id node_b) 3000), surjective_pairing.
  - vm_compute. reflexivity.
  - reflexivity.
  - replace (routable_members _) with [MemberRecord.new node_a Up 500 1] by (vm_compute; reflexivity).
    by left.
Defined.

Lemma revision_counts_events_witness :
  revision run_discovered = revision run_up + 1.
Proof.
  apply (revision_counts_events run_up run_discovered [MemberDiscovered (ClusterNode.id node_b)]).
  - vm_compute. discriminate.
  - vm_compute. discriminate.
  - right. left. exists (DiscoverySnapshot.new "static" 1000 [node_b]). vm_compute. reflexivity.
Defined.

(** [b] is silent after its discovery: 50 seconds later one pass makes it unreachable
    and the next one down. *)
Lemma silent_peer_is_downed_witness :
  state_of (tick (tick run_discovered 51000).1 52000).1 (ClusterNode.id node_b) = Some Down.
Proof.
  apply (silent_peer_is_downed run_discovered (tick run_discovered 51000).1
           (tick (tick run_discovered 51000).1 52000).1 51000 52000
           (tick run_discovered 51000).2 (tick (tick run_discovered 51000).1 52000).2
           (ClusterNode.id node_b) (record_b Joining 2)).
  - vm_compute. split; discriminate.
  - vm_compute. reflexivity.
  - discriminate.
  - by left.
  - lia.
  - vm_compute. discriminate.
  - apply surjective_pairing.
  - apply surjective_pairing.
Defined.

Lemma recent_peer_untouched_witness :
  members (tick run_discovered 5000).1 !! ClusterNode.id node_b = Some (record_b Joining 2).
Proof.
  apply (recent_peer_untouched run_discovered (tick run_discovered 5000).1 5000
           (tick run_discovered 5000).2 (ClusterNode.id node_b) (record_b Joining 2)).
  - vm_compute. split; discriminate.
  - apply surjective_pairing.
  - vm_compute. reflexivity.
  - right. vm_compute. reflexivity.
Defined.

(** [b] is listed in front of a node that speaks another protocol version. *)
Lemma rejected_discovery_loses_events_witness :
  let snap := DiscoverySnapshot.mk "static" 1000 [node_b; node_v3] in
  ∃ s', record_discovery run_up snap =
      (s', Err (IncompatibleNode (ClusterNode.id node_v3) ClusterProtocol.v1
                  (ClusterNode.protocol node_v3))) ∧
    is_Some (members s' !! ClusterNode.id node_b) ∧
    ∀ s1 snap1 s2 evs, rtc membership_step s' s1 →
      record_discovery s1 snap1 = (s2, Ok evs) →
      MemberDiscovered (ClusterNode.id node_b) ∉ evs.
Proof.
  cbv zeta.
  apply (rejected_discovery_loses_events run_up (MemberRecord.new node_a Up 500 1)
           (DiscoverySnapshot.mk "static" 1000 [node_b; node_v3]) [node_b] [] node_v3 node_b).
  - split; [vm_compute; by eexists|]. intros k r.
    replace (members run_up) with
      ({[ClusterNode.id node_a := MemberRecord.new node_a Up 500 1]} : gmap NodeId.t MemberRecord.t)
      by (vm_compute; reflexivity).
    by intros [<- <-]%lookup_singleton_Some.
  - vm_compute. reflexivity.
  - reflexivity.
  - repeat constructor.
  - vm_compute. discriminate.
  - by left.
  - discriminate.
Defined.
