(* ===== verification/SelfFence.v ===== *)
(** * Self-fencing: [rakka-cluster/src/self_fence.rs]

    The hysteretic detector that decides whether a node fences itself, and a
    reference definition of the same decision that looks at the whole history of
    observations since the last change of health. *)

From S2P Require Import Prelude.

Inductive SelfHealth := Healthy | Fenced.

#[global] Instance SelfHealth_eq_dec : EqDecision SelfHealth.
Proof. solve_decision. Defined.

Definition SelfHealth_is_fenced (h : SelfHealth) : bool :=
  match h with Fenced => true | Healthy => false end.

(** Durations are counts of milliseconds. *)
Module SelfFenceConfig.

Record t := new { fence_after : Z; rejoin_after : Z }.

Definition default : t := new 15000 10000.

End SelfFenceConfig.

Module SelfFenceDetector.

Record t := mk {
  config : SelfFenceConfig.t;
  health : SelfHealth;
  unreachable_since : option Z;
  reachable_since : option Z;
}.

Definition new (config : SelfFenceConfig.t) : t := mk config Healthy None None.

(** [Option::get_or_insert]. *)
Definition get_or_insert (o : option Z) (now : Z) : Z := default now o.

Definition observe (self : t) (now_millis : Z) (peers_reachable : bool) : t * SelfHealth :=
  let self' :=
    match health self with
    | Healthy =>
        if peers_reachable then
          mk (config self) Healthy None (reachable_since self)
        else
          let since := get_or_insert (unreachable_since self) now_millis in
          if duration_millis (SelfFenceConfig.fence_after (config self))
             <=? saturating_sub now_millis since
          then mk (config self) Fenced None None
          else mk (config self) Healthy (Some since) (reachable_since self)
    | Fenced =>
        if peers_reachable then
          let since := get_or_insert (reachable_since self) now_millis in
          if duration_millis (SelfFenceConfig.rejoin_after (config self))
             <=? saturating_sub now_millis since
          then mk (config self) Healthy None None
          else mk (config self) Fenced (unreachable_since self) (Some since)
        else mk (config self) Fenced (unreachable_since self) None
    end in
  (self', health self').

(** The detector after a list of observations, oldest first. *)
Definition run (self : t) (obs : list (Z * bool)) : t :=
  foldl (fun d o => (observe d o.1 o.2).1) self obs.

End SelfFenceDetector.

(** ** Reference definition

    [history] holds the observations since the last change of health, newest
    first. *)

Module FenceSpec.

Record t := mk { health : SelfHealth; history : list (Z * bool) }.

(** The observation that argues for leaving a health. *)
Definition against (h : SelfHealth) : bool :=
  match h with Healthy => false | Fenced => true end.

Definition flip (h : SelfHealth) : SelfHealth :=
  match h with Healthy => Fenced | Fenced => Healthy end.

Definition window (cfg : SelfFenceConfig.t) (h : SelfHealth) : Z :=
  duration_millis (match h with
                   | Healthy => SelfFenceConfig.fence_after cfg
                   | Fenced => SelfFenceConfig.rejoin_after cfg
                   end).

(** The time at which the unbroken run of observations equal to [b] that ends the
    history began. *)
Fixpoint streak_start (b : bool) (history : list (Z * bool)) : option Z :=
  match history with
  | [] => None
  | (time, o) :: history =>
      if decide (o = b) then Some (default time (streak_start b history)) else None
  end.

Definition observe (cfg : SelfFenceConfig.t) (self : t) (o : Z * bool) : t :=
  let history := o :: history self in
  match streak_start (against (health self)) history with
  | Some since =>
      if window cfg (health self) <=? saturating_sub o.1 since
      then mk (flip (health self)) []
      else mk (health self) history
  | None => mk (health self) history
  end.

Definition run (cfg : SelfFenceConfig.t) (self : t) (obs : list (Z * bool)) : t :=
  foldl (observe cfg) self obs.

End FenceSpec.

Import SelfFenceDetector.

(** The detector's fields as a function of the reference state. *)
Definition represents (d : SelfFenceDetector.t) (a : FenceSpec.t) : Prop :=
  health d = FenceSpec.health a ∧
  match FenceSpec.health a with
  | Healthy =>
      unreachable_since d = FenceSpec.streak_start false (FenceSpec.history a) ∧
      reachable_since d = None
  | Fenced =>
      reachable_since d = FenceSpec.streak_start true (FenceSpec.history a) ∧
      unreachable_since d = None
  end.

Lemma observe_represents d a now b :
  represents d a →
  represents (observe d now b).1 (FenceSpec.observe (config d) a (now, b)) ∧
  config (observe d now b).1 = config d.
Proof.
  destruct d as [cfg h u r], a as [h' hist]. unfold represents; simpl. intros [-> Hf].
  unfold observe, FenceSpec.observe, FenceSpec.window, get_or_insert; simpl.
  destruct h'; destruct Hf as [-> ->], b; simpl; rewrite ?decide_False by done;
    rewrite ?decide_True by done; simpl; try done;
    case_match; simpl; rewrite ?decide_True by done; done.
Qed.

Lemma run_represents d a obs :
  represents d a →
  represents (run d obs) (FenceSpec.run (config d) a obs) ∧ config (run d obs) = config d.
Proof.
  revert d a. induction obs as [|[now b] obs IH]; intros d a Hr; [done|].
  unfold run, FenceSpec.run; simpl.
  destruct (observe_represents d a now b Hr) as [Hr' Hc].
  destruct (IH _ _ Hr') as [Hr'' Hc'']. rewrite Hc in *. done.
Qed.

Lemma new_represents cfg : represents (new cfg) (FenceSpec.mk Healthy []).
Proof. done. Qed.

(** The incremental detector decides exactly as the reference definition: after
    any sequence of observations it is fenced iff the reference is, so it changes
    health precisely when an unbroken run of adverse observations since the last
    change spans the configured window. *)
Theorem detector_refines_history (cfg : SelfFenceConfig.t) (obs : list (Z * bool)) :
  health (run (new cfg) obs) =
  FenceSpec.health (FenceSpec.run cfg (FenceSpec.mk Healthy []) obs).
Proof. by destruct (run_represents (new cfg) _ obs (new_represents cfg)) as [[? _] _]. Qed.

(** A streak of the reference history is a block of equal observations. *)
Lemma streak_start_spec b hist since :
  FenceSpec.streak_start b hist = Some since →
  ∃ run rest, hist = run ++ rest ∧ Forall (fun o => o.2 = b) run ∧
    last run = Some (since, b) ∧ FenceSpec.streak_start b rest = None.
Proof.
  revert since. induction hist as [|[time o] hist IH]; simpl; [done|]. intros since.
  case_decide as Ho; [subst o|done]. intros [= <-].
  destruct (FenceSpec.streak_start b hist) as [s|] eqn:Hs; simpl.
  - destruct (IH s eq_refl) as (run & rest & -> & Hall & Hlast & Hrest).
    exists ((time, b) :: run), rest. split_and!; [done|by constructor| |done].
    by destruct run.
  - exists [(time, b)], hist. split_and!; [done|by repeat constructor|done|done].
Qed.

(** The history is the newest part of the observations. *)
Lemma history_newest cfg obs :
  ∃ older, reverse obs =
    FenceSpec.history (FenceSpec.run cfg (FenceSpec.mk Healthy []) obs) ++ older.
Proof.
  induction obs as [|o obs [older IH]] using rev_ind; [by exists []|].
  unfold FenceSpec.run in *. rewrite foldl_snoc, reverse_snoc, IH.
  set (a := foldl _ _ obs). unfold FenceSpec.observe.
  repeat case_match; simpl; first [by exists older | by eexists].
Qed.

Lemma spec_flip cfg a now b :
  FenceSpec.health (FenceSpec.observe cfg a (now, b)) ≠ FenceSpec.health a →
  ∃ since, FenceSpec.streak_start (FenceSpec.against (FenceSpec.health a))
             ((now, b) :: FenceSpec.history a) = Some since ∧
    FenceSpec.window cfg (FenceSpec.health a) <= saturating_sub now since.
Proof.
  unfold FenceSpec.observe. destruct (FenceSpec.streak_start _ _) as [since|]; [|done].
  case_match eqn:Hle; [|done]. apply Z.leb_le in Hle. eauto.
Qed.

(** No flapping: a change of health at one observation is backed by a run of
    earlier observations, all adverse and unbroken up to this one, that began at
    least a full window before it; with a positive window no single observation
    can flip the decision. *)
Theorem flip_needs_sustained_run (cfg : SelfFenceConfig.t) (obs : list (Z * bool))
    (now : Z) (b : bool) :
  let before := run (new cfg) obs in
  let after := (observe before now b).2 in
  after ≠ health before →
  b = FenceSpec.against (health before) ∧
  ∃ since streak rest,
    reverse obs = streak ++ rest ∧ Forall (fun o => o.2 = b) streak ∧
    last ((now, b) :: streak) = Some (since, b) ∧
    FenceSpec.window cfg (health before) <= saturating_sub now since ∧
    (0 < FenceSpec.window cfg (health before) → streak ≠ []).
Proof.
  intros before after Hflip.
  destruct (run_represents (new cfg) _ obs (new_represents cfg)) as [Hr Hc].
  fold before in Hr, Hc.
  destruct (observe_represents before _ now b Hr) as [[Hafter _] _].
  destruct (history_newest cfg obs) as [older Hold].
  change (config (new cfg)) with cfg in *. rewrite Hc in Hafter.
  set (a := FenceSpec.run cfg _ obs) in *.
  change (health (observe before now b).1) with after in Hafter.
  destruct Hr as [Hh _]. rewrite Hh in Hflip |- *. rewrite Hafter in Hflip.
  apply spec_flip in Hflip as (since & Hst & Hwin).
  simpl in Hst. case_decide as Hb; [|done]. injection Hst as Hst.
  split; [done|]. rewrite <-Hb in Hst.
  destruct (FenceSpec.streak_start b (FenceSpec.history a)) as [s|] eqn:Hs; simpl in Hst; subst since.
  - destruct (streak_start_spec _ _ _ Hs) as (streak & rest & Hhist & Hall & Hlast & _).
    exists s, streak, (rest ++ older). rewrite Hold, Hhist, <-app_assoc.
    split_and!; try done; by destruct streak.
  - exists now, [], (FenceSpec.history a ++ older). split_and!; try done. uint.
Qed.

Lemma streak_fences d t0 now middle :
  health d = Healthy → unreachable_since d = Some t0 →
  FenceSpec.window (config d) Healthy <= now - t0 →
  ∃ pre, pre `prefix_of` ((fun t => (t, false)) <$> (middle ++ [now])) ∧
    health (run d pre) = Fenced.
Proof.
  revert d. induction middle as [|t middle IH]; intros d Hh Hu Hwin; simpl.
  - exists [(now, false)]. split; [done|]. unfold run, observe; simpl. rewrite Hh, Hu.
    simpl. unfold FenceSpec.window in Hwin. rewrite (proj2 (Z.leb_le _ _)) by uint. done.
  - destruct (decide (health (observe d t false).1 = Fenced)) as [Hf|Hf].
    + exists [(t, false)]. split; [by apply prefix_cons, prefix_nil|done].
    + destruct (IH (observe d t false).1) as (pre & Hpre & Hrun).
      * by destruct (health (observe d t false).1).
      * revert Hf. unfold observe; simpl. rewrite Hh, Hu; simpl. by case_match.
      * unfold observe. rewrite Hh; simpl. by case_match.
      * exists ((t, false) :: pre). split; [by apply prefix_cons|done].
Qed.

(** Sustained faults are acted on: a healthy detector that sees nothing but
    unreachable peers fences no later than the first observation made a full window
    after the streak began. *)
Theorem sustained_unreachability_fences (cfg : SelfFenceConfig.t) (t0 now : Z)
    (middle : list Z) :
  FenceSpec.window cfg Healthy <= now - t0 →
  ∃ pre, pre `prefix_of` ((fun t => (t, false)) <$> (t0 :: middle ++ [now])) ∧
    health (run (new cfg) pre) = Fenced.
Proof.
  intros Hwin. destruct (decide (health (observe (new cfg) t0 false).1 = Fenced)) as [Hf|Hf].
  { exists [(t0, false)]. split; [by apply prefix_cons, prefix_nil|done]. }
  destruct (streak_fences (observe (new cfg) t0 false).1 t0 now middle) as (pre & Hpre & Hrun).
  - by destruct (health (observe (new cfg) t0 false).1).
  - revert Hf. unfold observe; simpl. by case_match.
  - unfold observe; simpl. by case_match.
  - exists ((t0, false) :: pre). split; [by apply prefix_cons|done].
Qed.

(** ** Concrete runs *)

(** Three failed probes over 16 seconds fence a node with the default windows. *)
Lemma flip_needs_sustained_run_witness :
  ∃ (since : Z) (streak rest : list (Z * bool)),
    reverse [(0, true); (1000, false); (9000, false)] = streak ++ rest ∧
    Forall (fun o => o.2 = false) streak ∧
    last ((17000, false) :: streak) = Some (since, false) ∧ 15000 <= saturating_sub 17000 since.
Proof.
  destruct (flip_needs_sustained_run SelfFenceConfig.default
              [(0, true); (1000, false); (9000, false)] 17000 false)
    as (_ & since & streak & rest & Hrev & Hall & Hlast & Hwin & _).
  - vm_compute. discriminate.
  - exists since, streak, rest. exact (conj Hrev (conj Hall (conj Hlast Hwin))).
Defined.

Lemma sustained_unreachability_fences_witness :
  ∃ pre : list (Z * bool),
    pre `prefix_of` [(1000, false); (9000, false); (17000, false)] ∧
    SelfFenceDetector.health
      (SelfFenceDetector.run (SelfFenceDetector.new SelfFenceConfig.default) pre) = Fenced.
Proof.
  apply (sustained_unreachability_fences SelfFenceConfig.default 1000 17000 [9000]).
  vm_compute. discriminate.
Defined.
