(* ===== verification/Identity.v ===== *)
(** * Shard identity: [rakka-sharding/src/{identity,error}.rs]

    Entity and shard ids, the sharding configuration and the deterministic map
    from an entity to its shard. *)

From Stdlib Require Import Ascii.
From S2P Require Import Prelude Node.

(** ** Identifiers *)

Module EntityType.

Record t := new { as_str : string }.

#[global] Instance eq_dec : EqDecision t.
Proof. solve_decision. Defined.
#[global] Instance as_str_inj : Inj (=) (=) as_str.
Proof. newtype_inj. Qed.
#[global] Instance countable : Countable t := inj_countable' as_str new ltac:(by intros []).
#[global] Instance ordkey : OrdKey t := ordkey_via as_str.

End EntityType.

Module EntityId.

Record t := new { as_str : string }.

#[global] Instance eq_dec : EqDecision t.
Proof. solve_decision. Defined.
#[global] Instance as_str_inj : Inj (=) (=) as_str.
Proof. newtype_inj. Qed.
#[global] Instance countable : Countable t := inj_countable' as_str new ltac:(by intros []).
#[global] Instance ordkey : OrdKey t := ordkey_via as_str.

End EntityId.

(** The zero-based shard index is a [u32]. *)
Module ShardId.

Record t := new { as_u32 : Z }.

#[global] Instance eq_dec : EqDecision t.
Proof. solve_decision. Defined.
#[global] Instance as_u32_inj : Inj (=) (=) as_u32.
Proof. newtype_inj. Qed.
#[global] Instance countable : Countable t := inj_countable' as_u32 new ltac:(by intros []).
#[global] Instance ordkey : OrdKey t := ordkey_via as_u32.

End ShardId.

Module ShardKey.

Record t := new { entity_type : EntityType.t; shard_id : ShardId.t }.

#[global] Instance eq_dec : EqDecision t.
Proof. solve_decision. Defined.

Definition as_pair (k : t) : EntityType.t * ShardId.t := (entity_type k, shard_id k).

#[global] Instance as_pair_inj : Inj (=) (=) as_pair.
Proof. intros [??] [??] [=]; congruence. Qed.
#[global] Instance countable : Countable t :=
  inj_countable' as_pair (fun p => new p.1 p.2) ltac:(by intros []).
#[global] Instance ordkey : OrdKey t := ordkey_via as_pair.

End ShardKey.

(** ** Errors *)

Inductive ShardingError :=
| InvalidShardCount
| UnknownShard (shard_id : ShardId.t) (number_of_shards : Z)
| NoShardOwner (entity_type : EntityType.t) (shard_id : ShardId.t)
| NoEntityOwner (entity_type : EntityType.t) (entity_id : EntityId.t) (shard_id : ShardId.t)
| EntityTypeMismatch (expected actual : EntityType.t)
| OwnershipSnapshotMismatch (expected_entity_type actual_entity_type : EntityType.t)
    (expected_shards actual_shards : Z)
| PersistedCoordinatorSnapshotMismatch (expected_entity_type actual_entity_type : EntityType.t)
    (expected_shards actual_shards : Z)
| CoordinatorRevisionConflict (entity_type : EntityType.t)
    (expected_revision actual_revision : Z)
| CoordinatorStore (backend message : string)
| CoordinatorLease (lease message : string)
| RememberedEntityStore (backend message : string)
| RememberedEntityReplay (entity_type : EntityType.t) (entity_id : EntityId.t)
    (shard_id : ShardId.t) (message : string)
| CoordinatorLeaseRejected (lease : string) (entity_type : EntityType.t)
    (holder_node : NodeId.t) (current_holder_node : option NodeId.t)
    (expires_at_millis : option Z)
| CoordinatorLeaseLost (lease : string) (entity_type : EntityType.t)
    (holder_node : NodeId.t) (fencing_token : Z)
    (actual_holder_node : option NodeId.t) (actual_fencing_token : option Z)
| AsyncCoordinatorStoreRequiresAsyncApi (backend : string)
| AsyncCoordinatorLeaseRequiresAsyncApi (lease : string).

Definition ShardingResult (A : Type) : Type := result ShardingError A.

(** [ShardingError::code]. *)
Definition ShardingError_code (e : ShardingError) : string :=
  match e with
  | InvalidShardCount => "invalid-shard-count"
  | UnknownShard _ _ => "unknown-shard"
  | NoShardOwner _ _ => "no-shard-owner"
  | NoEntityOwner _ _ _ => "no-entity-owner"
  | EntityTypeMismatch _ _ => "entity-type-mismatch"
  | OwnershipSnapshotMismatch _ _ _ _ => "ownership-snapshot-mismatch"
  | PersistedCoordinatorSnapshotMismatch _ _ _ _ => "persisted-coordinator-snapshot-mismatch"
  | CoordinatorRevisionConflict _ _ _ => "coordinator-revision-conflict"
  | CoordinatorStore _ _ => "coordinator-store"
  | CoordinatorLease _ _ => "coordinator-lease"
  | RememberedEntityStore _ _ => "remembered-entity-store"
  | RememberedEntityReplay _ _ _ _ => "remembered-entity-replay"
  | CoordinatorLeaseRejected _ _ _ _ _ => "coordinator-lease-rejected"
  | CoordinatorLeaseLost _ _ _ _ _ _ => "coordinator-lease-lost"
  | AsyncCoordinatorStoreRequiresAsyncApi _ => "async-coordinator-store-requires-async-api"
  | AsyncCoordinatorLeaseRequiresAsyncApi _ => "async-coordinator-lease-requires-async-api"
  end.

(** ** [ShardingConfig] *)

Module ShardingConfig.

Record t := mk { number_of_shards : Z }.

#[global] Instance eq_dec : EqDecision t.
Proof. solve_decision. Defined.

Definition new (number_of_shards : Z) : ShardingResult t :=
  if number_of_shards =? 0 then Err InvalidShardCount else Ok (mk number_of_shards).

Definition contains_shard (c : t) (shard_id : ShardId.t) : bool :=
  ShardId.as_u32 shard_id <? number_of_shards c.

Definition default : t := mk 128.

(** What [new] establishes for a [u32] argument. *)
Definition wf (c : t) : Prop := 0 < number_of_shards c <= u32_max.

End ShardingConfig.

(** ** The stable hash *)

(** [str::as_bytes]. *)
Fixpoint as_bytes (s : string) : list Z :=
  match s with
  | "" => []
  | String a s => Z.of_N (N_of_ascii a) :: as_bytes s
  end.

Definition fnv_offset_basis : Z := 0xcbf29ce484222325.
Definition fnv_prime : Z := 0x100000001b3.

(** [entity_type.bytes().chain(once(0xff)).chain(entity_id.bytes())]. *)
Definition hash_input (entity_type entity_id : string) : list Z :=
  as_bytes entity_type ++ [0xff] ++ as_bytes entity_id.

Definition hash_byte (hash byte : Z) : Z := wrap_u64 (Z.lxor hash byte * fnv_prime).

Definition stable_hash (entity_type entity_id : string) : Z :=
  foldl hash_byte fnv_offset_basis (hash_input entity_type entity_id).

(** [ShardId::for_entity]; the [u64] remainder is cast to [u32]. *)
Definition for_entity (entity_type : EntityType.t) (entity_id : EntityId.t)
    (config : ShardingConfig.t) : ShardId.t :=
  let hash := stable_hash (EntityType.as_str entity_type) (EntityId.as_str entity_id) in
  ShardId.new (wrap_u32 (hash `mod` ShardingConfig.number_of_shards config)).

(** [EntityRef]; the message type is a phantom. *)
Module EntityRef.

Record t := new { entity_type : EntityType.t; entity_id : EntityId.t }.

Definition shard_id (self : t) (config : ShardingConfig.t) : ShardId.t :=
  for_entity (entity_type self) (entity_id self) config.

Definition shard_key (self : t) (config : ShardingConfig.t) : ShardKey.t :=
  ShardKey.new (entity_type self) (shard_id self config).

End EntityRef.

(** ** Properties *)

Lemma stable_hash_u64 entity_type entity_id : is_u64 (stable_hash entity_type entity_id).
Proof.
  unfold stable_hash.
  assert (is_u64 fnv_offset_basis) as Hb by (unfold fnv_offset_basis; uint).
  revert Hb. generalize fnv_offset_basis. generalize (hash_input entity_type entity_id).
  induction l as [|b l IH]; intros h Hh; simpl; [done|]. apply IH.
  unfold hash_byte, wrap_u64, is_u64.
  pose proof (Z.mod_pos_bound (Z.lxor h b * fnv_prime) (u64_max + 1)
                ltac:(rewrite u64_max_val; lia)). lia.
Qed.

(** [config.contains_shard] of an entity's shard, and its value without the cast. *)
Lemma for_entity_value et eid cfg :
  ShardingConfig.wf cfg →
  ShardId.as_u32 (for_entity et eid cfg) =
    stable_hash (EntityType.as_str et) (EntityId.as_str eid)
      `mod` ShardingConfig.number_of_shards cfg ∧
  0 <= ShardId.as_u32 (for_entity et eid cfg) < ShardingConfig.number_of_shards cfg.
Proof.
  intros [H0 Hmax]. unfold for_entity; simpl.
  pose proof (Z.mod_pos_bound (stable_hash (EntityType.as_str et) (EntityId.as_str eid))
                (ShardingConfig.number_of_shards cfg) H0) as Hb.
  unfold wrap_u32. rewrite Z.mod_small; [done|lia].
Qed.

Lemma as_bytes_inj s1 s2 : as_bytes s1 = as_bytes s2 → s1 = s2.
Proof.
  revert s2. induction s1 as [|a s1 IH]; intros [|b s2]; simpl; try done.
  intros [= Hab Hs]. apply N2Z.inj in Hab.
  rewrite <-(ascii_N_embedding a), <-(ascii_N_embedding b), Hab.
  f_equal. auto.
Qed.

(** The shard map is total on valid configurations and lands in range, the
    [u32] cast loses nothing, and two entities whose type names are free of the
    separator byte [0xff] (as every UTF-8 string is) feed the hash different bytes. *)
Theorem for_entity_in_range (et et' : EntityType.t) (eid eid' : EntityId.t)
    (cfg : ShardingConfig.t) :
  ShardingConfig.wf cfg →
  ShardingConfig.contains_shard cfg (for_entity et eid cfg) = true ∧
  ShardId.as_u32 (for_entity et eid cfg) =
    stable_hash (EntityType.as_str et) (EntityId.as_str eid)
      `mod` ShardingConfig.number_of_shards cfg ∧
  (0xff ∉ as_bytes (EntityType.as_str et) → 0xff ∉ as_bytes (EntityType.as_str et') →
   hash_input (EntityType.as_str et) (EntityId.as_str eid) =
     hash_input (EntityType.as_str et') (EntityId.as_str eid') →
   et = et' ∧ eid = eid').
Proof.
  intros Hwf. destruct (for_entity_value et eid cfg Hwf) as [Hv Hr]. split_and!.
  - unfold ShardingConfig.contains_shard. apply Z.ltb_lt. lia.
  - done.
  - destruct et as [et], et' as [et'], eid as [eid], eid' as [eid']; simpl.
    unfold hash_input. intros Hn Hn' Heq.
    assert (as_bytes et = as_bytes et' ∧ as_bytes eid = as_bytes eid') as [H1 H2].
    { revert Hn Hn' Heq. generalize (as_bytes et) (as_bytes et'). clear.
      induction l as [|b l IH]; intros [|b' l']; simpl; intros Hn Hn' Heq;
        simplify_eq; [done|set_solver|set_solver|].
      destruct (IH l') as [-> ->]; set_solver. }
    by apply as_bytes_inj in H1 as ->; apply as_bytes_inj in H2 as ->.
Qed.

(** ** A concrete entity *)

Lemma for_entity_in_range_witness :
  let shard := for_entity (EntityType.new "cart") (EntityId.new "42") ShardingConfig.default in
  ShardingConfig.contains_shard ShardingConfig.default shard = true ∧
  ShardId.as_u32 shard = stable_hash "cart" "42" `mod` 128.
Proof.
  destruct (for_entity_in_range (EntityType.new "cart") (EntityType.new "cart") (EntityId.new "42")
              (EntityId.new "42") ShardingConfig.default) as (Hin & Hmod & _).
  - vm_compute. split; congruence.
  - exact (conj Hin Hmod).
Defined.
