(* ===== verification/Allocation.v ===== *)
(** * Shard allocation strategies: [rakka-sharding/src/allocation.rs]

    The strategy interface, the deterministic modulo strategy and the least-shard
    strategy, with the balance they achieve. *)

From S2P Require Import Prelude Node Membership Identity.

(** ** Contexts *)

Module ShardAllocationContext.

Record t := new {
  entity_type : EntityType.t;
  config : ShardingConfig.t;
  membership : ClusterMembership.t;
  routable_nodes : list NodeId.t;
  assignments : gmap ShardId.t NodeId.t;
}.

End ShardAllocationContext.

Module ShardRebalanceContext.

Record t := new {
  entity_type : EntityType.t;
  config : ShardingConfig.t;
  membership : ClusterMembership.t;
  routable_nodes : list NodeId.t;
  assignments : gmap ShardId.t NodeId.t;
}.

End ShardRebalanceContext.

Module ShardReassignment.

Record t := new { shard_id : ShardId.t; to : NodeId.t }.

#[global] Instance eq_dec : EqDecision t.
Proof. solve_decision. Defined.

End ShardReassignment.

(** [ShardOwnerCount] of [coordinator.rs]. *)
Module ShardOwnerCount.

Record t := new { owner : NodeId.t; count : nat }.

#[global] Instance eq_dec : EqDecision t.
Proof. solve_decision. Defined.

End ShardOwnerCount.

(** ** The strategy interface

    The trait object a coordinator holds. *)

Record ShardAllocationStrategy := {
  strategy_name : string;
  allocate_shard : ShardAllocationContext.t → ShardId.t → option NodeId.t;
  rebalance : ShardRebalanceContext.t → list ShardReassignment.t;
}.

(** What a coordinator expects of a strategy: while some node is routable it finds
    a routable owner for any shard. *)
Class AllocatesRoutable (strategy : ShardAllocationStrategy) : Prop :=
  allocates_routable : ∀ ctx shard_id,
    ShardAllocationContext.routable_nodes ctx ≠ [] →
    ∃ owner, allocate_shard strategy ctx shard_id = Some owner ∧
      owner ∈ ShardAllocationContext.routable_nodes ctx.

(** ** Counting owners *)

Definition is_routable_node (routable_nodes : list NodeId.t) (node_id : NodeId.t) : bool :=
  bool_decide (node_id ∈ routable_nodes).

Definition owned_shard_count (assignments : gmap ShardId.t NodeId.t) (owner : NodeId.t) : nat :=
  length (filter (fun assigned_owner => assigned_owner = owner) (btree_values assignments)).

(** [*counts.entry(owner).or_default() += 1]. *)
Definition count_owner (counts : gmap NodeId.t nat) (owner : NodeId.t) : gmap NodeId.t nat :=
  <[owner := S (default 0%nat (counts !! owner))]> counts.

Definition owner_counts (assignments : gmap ShardId.t NodeId.t) : list ShardOwnerCount.t :=
  (fun p => ShardOwnerCount.new p.1 p.2) <$>
    btree_entries (foldl count_owner ∅ (btree_values assignments)).

(** [if let Some(count) = counts.get_mut(owner) { *count += 1 }]. *)
Definition count_routable_owner (counts : gmap NodeId.t nat) (owner : NodeId.t) :
    gmap NodeId.t nat :=
  match counts !! owner with
  | Some count => <[owner := S count]> counts
  | None => counts
  end.

Definition routable_owner_counts (routable_nodes : list NodeId.t)
    (assignments : list (ShardId.t * NodeId.t)) : gmap NodeId.t nat :=
  foldl count_routable_owner
    (foldl (fun counts node_id => <[node_id := 0%nat]> counts) ∅ routable_nodes)
    assignments.*2.

Definition min_cmp (left right : NodeId.t * nat) : comparison :=
  then_cmp (Nat.compare left.2 right.2) (key_cmp left.1 right.1).

Definition max_cmp (left right : NodeId.t * nat) : comparison :=
  then_cmp (Nat.compare left.2 right.2) (key_cmp right.1 left.1).

Definition min_owner (counts : gmap NodeId.t nat) : option (NodeId.t * nat) :=
  min_by min_cmp (btree_entries counts).

Definition max_owner (counts : gmap NodeId.t nat) : option (NodeId.t * nat) :=
  max_by max_cmp (btree_entries counts).

Definition desired_owner (routable_nodes : list NodeId.t) (shard_id : ShardId.t) :
    option NodeId.t :=
  match routable_nodes with
  | [] => None
  | _ => routable_nodes !!
           Z.to_nat (ShardId.as_u32 shard_id `mod` Z.of_nat (length routable_nodes))
  end.

(** ** The deterministic modulo strategy *)

Module DeterministicModulo.

Record t := mk { max_simultaneous_rebalance : nat }.

Definition new : t := mk 0.

Definition with_max_simultaneous_rebalance (_ : t) (max_simultaneous_rebalance : nat) : t :=
  mk max_simultaneous_rebalance.

Definition allocate_shard (self : t) (context : ShardAllocationContext.t)
    (shard_id : ShardId.t) : option NodeId.t :=
  desired_owner (ShardAllocationContext.routable_nodes context) shard_id.

(** The closure of [filter_map]: the move a misplaced shard needs. *)
Definition misplaced_move (routable_nodes : list NodeId.t) (entry : ShardId.t * NodeId.t) :
    option ShardReassignment.t :=
  let (shard_id, owner) := entry in
  match desired_owner routable_nodes shard_id with
  | None => None
  | Some desired =>
      if decide (owner ≠ desired) then Some (ShardReassignment.new shard_id desired) else None
  end.

Definition rebalance (self : t) (context : ShardRebalanceContext.t) :
    list ShardReassignment.t :=
  let moves := omap (misplaced_move (ShardRebalanceContext.routable_nodes context))
                 (btree_entries (ShardRebalanceContext.assignments context)) in
  if decide (max_simultaneous_rebalance self = 0%nat) then moves
  else take (max_simultaneous_rebalance self) moves.

Definition strategy (self : t) : ShardAllocationStrategy := {|
  strategy_name := "rakka_sharding::allocation::DeterministicModuloShardAllocationStrategy";
  Allocation.allocate_shard := allocate_shard self;
  Allocation.rebalance := rebalance self;
|}.

End DeterministicModulo.

(** ** The least-shard strategy *)

Module LeastShard.

Record t := new { rebalance_threshold : nat; max_simultaneous_rebalance : nat }.

Definition default : t := new 1 10.

Definition allocate_shard (self : t) (context : ShardAllocationContext.t)
    (_ : ShardId.t) : option NodeId.t :=
  let counts := routable_owner_counts (ShardAllocationContext.routable_nodes context)
                  (btree_entries (ShardAllocationContext.assignments context)) in
  fst <$> min_by min_cmp (btree_entries counts).

(** The first shard of [from], in shard order, that was not moved yet. *)
Definition find_shard (assignments : gmap ShardId.t NodeId.t) (moved : gset ShardId.t)
    (from : NodeId.t) : option ShardId.t :=
  fst <$> find_first (fun entry => bool_decide (entry.2 = from ∧ entry.1 ∉ moved))
            (btree_entries assignments).

(** The [while reassignments.len() < max] loop; every iteration pushes one
    reassignment or breaks, so [remaining] counts the iterations left. *)
Fixpoint rebalance_loop (remaining effective_threshold : nat)
    (assignments : gmap ShardId.t NodeId.t) (counts : gmap NodeId.t nat)
    (moved : gset ShardId.t) (reassignments : list ShardReassignment.t) :
    list ShardReassignment.t :=
  match remaining with
  | O => reassignments
  | S remaining =>
      match max_owner counts, min_owner counts with
      | Some (from, max_count), Some (to, min_count) =>
          if (max_count - min_count <=? effective_threshold)%nat then reassignments
          else
            match find_shard assignments moved from with
            | None => reassignments
            | Some shard_id =>
                rebalance_loop remaining effective_threshold
                  (<[shard_id := to]> assignments)
                  (<[to := S min_count]> (<[from := pred max_count]> counts))
                  ({[shard_id]} ∪ moved)
                  (reassignments ++ [ShardReassignment.new shard_id to])
            end
      | _, _ => reassignments
      end
  end.

Definition rebalance (self : t) (context : ShardRebalanceContext.t) :
    list ShardReassignment.t :=
  if decide (max_simultaneous_rebalance self = 0%nat) then []
  else
    let assignments := ShardRebalanceContext.assignments context in
    rebalance_loop (max_simultaneous_rebalance self) (Nat.max (rebalance_threshold self) 1)
      assignments
      (routable_owner_counts (ShardRebalanceContext.routable_nodes context)
         (btree_entries assignments))
      ∅ [].

Definition strategy (self : t) : ShardAllocationStrategy := {|
  strategy_name := "rakka_sharding::allocation::LeastShardAllocationStrategy";
  Allocation.allocate_shard := allocate_shard self;
  Allocation.rebalance := rebalance self;
|}.

End LeastShard.

(** ** Lemmas on owner counts *)

Implicit Types (a : gmap ShardId.t NodeId.t) (counts : gmap NodeId.t nat) (n : NodeId.t).

Lemma owned_perm a n :
  owned_shard_count a n = length (filter (fun o => o = n) (map_to_list a).*2).
Proof. unfold owned_shard_count, btree_values. by rewrite btree_entries_perm. Qed.

Lemma owned_insert_new a s o n :
  a !! s = None →
  owned_shard_count (<[s := o]> a) n =
    ((if decide (o = n) then 1 else 0) + owned_shard_count a n)%nat.
Proof.
  intros Hs. rewrite !owned_perm, map_to_list_insert by done. simpl.
  rewrite filter_cons. by case_decide.
Qed.

Lemma owned_delete a s o n :
  a !! s = Some o →
  owned_shard_count a n =
    ((if decide (o = n) then 1 else 0) + owned_shard_count (delete s a) n)%nat.
Proof.
  intros Hs. rewrite <-(insert_delete_id a s o) at 1 by done.
  apply owned_insert_new, lookup_delete_eq.
Qed.

Lemma owned_move a s o o' n :
  a !! s = Some o →
  owned_shard_count (<[s := o']> a) n =
    ((if decide (o' = n) then 1 else 0) + owned_shard_count (delete s a) n)%nat.
Proof.
  intros Hs. rewrite <-insert_delete_eq. apply owned_insert_new, lookup_delete_eq.
Qed.

Lemma owned_pos a n : (0 < owned_shard_count a n)%nat → ∃ s, a !! s = Some n.
Proof.
  rewrite owned_perm. intros Hp.
  destruct (filter (fun o => o = n) (map_to_list a).*2) as [|o l] eqn:Hf; [simpl in Hp; lia|].
  assert (o ∈ filter (fun o => o = n) (map_to_list a).*2) as Hin by (rewrite Hf; by left).
  apply list_elem_of_filter in Hin as [-> Hin].
  apply list_elem_of_fmap in Hin as ([s o] & -> & Hin).
  exists s. by apply elem_of_map_to_list in Hin.
Qed.

Lemma lookup_zero_counts (routable : list NodeId.t) counts n :
  foldl (fun c k => <[k := 0%nat]> c) counts routable !! n =
    if decide (n ∈ routable) then Some 0%nat else counts !! n.
Proof.
  revert counts. induction routable as [|k l IH]; intros counts; cbn [foldl].
  { rewrite decide_False; [done|apply not_elem_of_nil]. }
  rewrite IH. destruct (decide (n ∈ l)) as [Hn|Hn].
  - rewrite decide_True; [done|by right].
  - destruct (decide (k = n)) as [->|Hk].
    + rewrite lookup_insert_eq, decide_True; [done|by left].
    + rewrite lookup_insert_ne, decide_False; [done|set_solver|done].
Qed.

Lemma lookup_count_fold (owners : list NodeId.t) counts n :
  foldl count_routable_owner counts owners !! n =
    (fun c => c + length (filter (fun o => o = n) owners))%nat <$> counts !! n.
Proof.
  revert counts. induction owners as [|o l IH]; intros counts; simpl.
  { destruct (counts !! n); simpl; [f_equal; lia|done]. }
  rewrite IH. unfold count_routable_owner. rewrite filter_cons.
  destruct (decide (o = n)) as [->|Hne].
  - destruct (counts !! n) as [c|] eqn:Hc; simpl.
    + rewrite lookup_insert_eq; simpl. f_equal; lia.
    + by rewrite Hc.
  - destruct (counts !! o); [|done]. by rewrite lookup_insert_ne.
Qed.

(** The counts of the routable nodes are their owned-shard counts. *)
Lemma lookup_routable_owner_counts routable a n :
  routable_owner_counts routable (btree_entries a) !! n =
    if decide (n ∈ routable) then Some (owned_shard_count a n) else None.
Proof.
  unfold routable_owner_counts. rewrite lookup_count_fold, lookup_zero_counts, lookup_empty.
  by destruct (decide (n ∈ routable)).
Qed.

Lemma min_cmp_le p q : min_cmp p q ≠ Gt → (p.2 <= q.2)%nat.
Proof. unfold min_cmp. destruct (Nat.compare_spec p.2 q.2); simpl; lia || done. Qed.
Lemma min_cmp_gt p q : min_cmp p q = Gt → (q.2 <= p.2)%nat.
Proof. unfold min_cmp. destruct (Nat.compare_spec p.2 q.2); simpl; lia || done. Qed.
Lemma max_cmp_le p q : max_cmp p q ≠ Gt → (p.2 <= q.2)%nat.
Proof. unfold max_cmp. destruct (Nat.compare_spec p.2 q.2); simpl; lia || done. Qed.
Lemma max_cmp_gt p q : max_cmp p q = Gt → (q.2 <= p.2)%nat.
Proof. unfold max_cmp. destruct (Nat.compare_spec p.2 q.2); simpl; lia || done. Qed.

Lemma min_owner_Some counts n c :
  min_owner counts = Some (n, c) →
  counts !! n = Some c ∧ ∀ m d, counts !! m = Some d → (c <= d)%nat.
Proof.
  intros Hmin. apply (min_by_spec min_cmp snd) in Hmin as [Hin Hle];
    [|apply min_cmp_gt|apply min_cmp_le].
  split; [by apply elem_of_btree_entries|]. intros m d Hm.
  apply elem_of_btree_entries in Hm. by apply Hle in Hm.
Qed.

Lemma max_owner_Some counts n c :
  max_owner counts = Some (n, c) →
  counts !! n = Some c ∧ ∀ m d, counts !! m = Some d → (d <= c)%nat.
Proof.
  intros Hmax. apply (max_by_spec max_cmp snd) in Hmax as [Hin Hle];
    [|apply max_cmp_gt|apply max_cmp_le].
  split; [by apply elem_of_btree_entries|]. intros m d Hm.
  apply elem_of_btree_entries in Hm. by apply Hle in Hm.
Qed.

Lemma btree_entries_nonempty counts n c : counts !! n = Some c → btree_entries counts ≠ [].
Proof. intros Hn%elem_of_btree_entries Hnil. rewrite Hnil in Hn. by apply not_elem_of_nil in Hn. Qed.

Lemma owner_is_Some counts n c :
  counts !! n = Some c → is_Some (min_owner counts) ∧ is_Some (max_owner counts).
Proof.
  intros Hn%btree_entries_nonempty. split; [by apply min_by_is_Some|by apply max_by_is_Some].
Qed.

(** ** The modulo strategy *)

Lemma desired_owner_Some routable s :
  routable ≠ [] → ∃ o, desired_owner routable s = Some o ∧ o ∈ routable.
Proof.
  intros Hne. unfold desired_owner. destruct routable as [|x l]; [done|].
  set (len := length (x :: l)).
  assert (Z.to_nat (ShardId.as_u32 s `mod` Z.of_nat len) < len)%nat as Hlt.
  { pose proof (Z.mod_pos_bound (ShardId.as_u32 s) (Z.of_nat len) ltac:(subst len; simpl; lia)).
    lia. }
  destruct (lookup_lt_is_Some_2 (x :: l) _ Hlt) as [o Ho].
  exists o. split; [done|]. by eapply list_elem_of_lookup_2.
Qed.

#[global] Instance modulo_allocates (m : DeterministicModulo.t) :
  AllocatesRoutable (DeterministicModulo.strategy m).
Proof. intros ctx s Hne. by apply desired_owner_Some. Qed.

#[global] Instance least_shard_allocates (l : LeastShard.t) :
  AllocatesRoutable (LeastShard.strategy l).
Proof.
  intros ctx s Hne. simpl. unfold LeastShard.allocate_shard.
  set (counts := routable_owner_counts _ _).
  destruct (ShardAllocationContext.routable_nodes ctx) as [|x r] eqn:Hr; [done|].
  assert (counts !! x = Some (owned_shard_count (ShardAllocationContext.assignments ctx) x))
    as Hx.
  { unfold counts. rewrite lookup_routable_owner_counts, decide_True; [done|by left]. }
  destruct (owner_is_Some _ _ _ Hx) as [[[o c] Ho] _]. unfold min_owner in Ho.
  rewrite Ho. exists o. split; [done|].
  apply min_owner_Some in Ho as [Ho _]. unfold counts in Ho.
  rewrite lookup_routable_owner_counts in Ho. by case_decide.
Qed.

(** The shards of a namespace, in ascending order. *)
Definition shard_ids (number_of_shards : Z) : list ShardId.t :=
  ShardId.new <$> seqZ 0 number_of_shards.

Lemma elem_of_shard_ids count s :
  s ∈ shard_ids count ↔ 0 <= ShardId.as_u32 s < count.
Proof.
  unfold shard_ids. rewrite list_elem_of_fmap. split.
  - intros (i & -> & Hi%elem_of_seqZ). simpl. lia.
  - intros Hs. exists (ShardId.as_u32 s). split; [by destruct s|]. apply elem_of_seqZ. lia.
Qed.

(** The number of shards the modulo placement gives to a node. *)
Definition modulo_load (routable : list NodeId.t) (number_of_shards : Z) (n : NodeId.t) : nat :=
  length (filter (fun s => desired_owner routable s = Some n) (shard_ids number_of_shards)).

Lemma desired_owner_index routable s j n :
  NoDup routable → routable !! j = Some n →
  desired_owner routable s = Some n ↔
  ShardId.as_u32 s `mod` Z.of_nat (length routable) = Z.of_nat j.
Proof.
  intros Hnd Hj. pose proof (lookup_lt_Some _ _ _ Hj) as Hlt.
  unfold desired_owner. destruct routable as [|x l]; [done|].
  pose proof (Z.mod_pos_bound (ShardId.as_u32 s) (Z.of_nat (length (x :: l)))
                ltac:(simpl; lia)) as Hb.
  split.
  - intros Hs. pose proof (NoDup_lookup _ _ _ _ Hnd Hs Hj). lia.
  - intros Hs. rewrite Hs, Nat2Z.id. done.
Qed.

(** Splitting the load of [q * len + r] shards: [q] full rounds and one more shard
    for the first [r] nodes. *)
Lemma modulo_load_split routable (N : nat) :
  NoDup routable → routable ≠ [] →
  ∃ q r : nat, N = (q * length routable + r)%nat ∧ (r < length routable)%nat ∧
    ∀ j n, routable !! j = Some n →
      modulo_load routable (Z.of_nat N) n = (q + if decide (j < r)%nat then 1 else 0)%nat.
Proof.
  intros Hnd Hne. assert (0 < length routable)%nat as Hlen by (destruct routable; simpl; [done|lia]).
  induction N as [|N (q & r & HN & Hr & IH)].
  { exists 0%nat, 0%nat. split_and!; [lia|lia|]. intros j n Hj. rewrite decide_False by lia. done. }
  assert (∀ j n, routable !! j = Some n →
    modulo_load routable (Z.of_nat (S N)) n =
      (modulo_load routable (Z.of_nat N) n + if decide (j = r) then 1 else 0)%nat) as Hstep.
  { intros j n Hj. unfold modulo_load, shard_ids.
    rewrite Nat2Z.inj_succ, <-Z.add_1_r, seqZ_app by lia. simpl.
    rewrite fmap_app, filter_app, length_app. f_equal. simpl.
    rewrite filter_cons, filter_nil.
    assert ((ShardId.as_u32 (ShardId.new (Z.of_nat N)) `mod` Z.of_nat (length routable) = Z.of_nat j)
            ↔ j = r) as Hiff.
    { simpl. rewrite HN, Nat2Z.inj_add, Nat2Z.inj_mul.
      rewrite Z.add_comm, Z_mod_plus_full, Z.mod_small by lia. lia. }
    destruct (decide (j = r)) as [Hjr|Hjr].
    - rewrite decide_True; [done|]. by apply (desired_owner_index routable _ j n), Hiff.
    - rewrite decide_False; [done|]. rewrite (desired_owner_index routable _ j n) by done.
      by rewrite Hiff. }
  destruct (decide (S r = length routable)) as [Hfull|Hmore].
  - exists (S q), 0%nat. split_and!; [lia|lia|]. intros j n Hj.
    rewrite (Hstep j n Hj), (IH j n Hj). pose proof (lookup_lt_Some _ _ _ Hj).
    destruct (decide (j = r)), (decide (j < r)%nat), (decide (j < 0)%nat); lia.
  - exists q, (S r). split_and!; [lia|lia|]. intros j n Hj.
    rewrite (Hstep j n Hj), (IH j n Hj).
    destruct (decide (j = r)), (decide (j < r)%nat), (decide (j < S r)%nat); lia.
Qed.

(** The modulo placement is balanced: over any number of shards, two routable
    nodes differ by at most one shard. *)
Theorem modulo_placement_balanced (routable : list NodeId.t) (number_of_shards : Z) (n m : NodeId.t) :
  NoDup routable → 0 <= number_of_shards → n ∈ routable → m ∈ routable →
  (modulo_load routable number_of_shards n <= modulo_load routable number_of_shards m + 1)%nat.
Proof.
  intros Hnd H0 Hn Hm.
  destruct (modulo_load_split routable (Z.to_nat number_of_shards) Hnd) as (q & r & _ & _ & Hl).
  { intros ->. by apply not_elem_of_nil in Hn. }
  rewrite Z2Nat.id in Hl by done.
  apply list_elem_of_lookup in Hn as [j Hj], Hm as [j' Hj'].
  rewrite (Hl j n Hj), (Hl j' m Hj'). repeat case_decide; lia.
Qed.

(** ** The least-shard loop *)

Definition apply_moves a (moves : list ShardReassignment.t) : gmap ShardId.t NodeId.t :=
  foldl (fun a r => <[ShardReassignment.shard_id r := ShardReassignment.to r]> a) a moves.

Lemma apply_moves_app a l1 l2 : apply_moves a (l1 ++ l2) = apply_moves (apply_moves a l1) l2.
Proof. unfold apply_moves. by rewrite foldl_app. Qed.

(** The loop's state: the counts are those of the working assignments, and a node
    that received a shard is at most one above the least loaded one. *)
Record loop_inv (a : gmap ShardId.t NodeId.t) (counts : gmap NodeId.t nat)
    (moved : gset ShardId.t) : Prop := {
  inv_counts : ∀ n c, counts !! n = Some c → c = owned_shard_count a n;
  inv_moved : ∀ s, s ∈ moved → ∃ n c, a !! s = Some n ∧ counts !! n = Some c ∧
                ∀ m d, counts !! m = Some d → (c <= d + 1)%nat;
}.

Section loop_step.
Context a counts (moved : gset ShardId.t) (from to : NodeId.t) (max_count min_count threshold : nat) (s : ShardId.t).
Hypothesis Hinv : loop_inv a counts moved.
Hypothesis Hmax : max_owner counts = Some (from, max_count).
Hypothesis Hmin : min_owner counts = Some (to, min_count).
Hypothesis Hthr : (1 <= threshold)%nat.
Hypothesis Hgap : (threshold < max_count - min_count)%nat.

Let counts' := <[to := S min_count]> (<[from := pred max_count]> counts).

Lemma loop_from_ne_to : from ≠ to.
Proof using Hmax Hmin Hthr Hgap.
  intros ->. apply max_owner_Some in Hmax as [Hx _]. apply min_owner_Some in Hmin as [Hn _].
  simplify_eq. lia.
Qed.

Lemma loop_counts' n c' :
  counts' !! n = Some c' →
  (n = to ∧ c' = S min_count) ∨ (n = from ∧ c' = pred max_count) ∨
  (n ≠ to ∧ n ≠ from ∧ counts !! n = Some c').
Proof using.
  unfold counts'. destruct (decide (to = n)) as [<-|Ht].
  - rewrite lookup_insert_eq. intros [= <-]. auto.
  - rewrite lookup_insert_ne by done. destruct (decide (from = n)) as [<-|Hf].
    + rewrite lookup_insert_eq. intros [= <-]. auto.
    + rewrite lookup_insert_ne by done. auto.
Qed.

(** A move keeps every count within the bounds it had. *)
Lemma loop_counts'_bounds n c' :
  counts' !! n = Some c' → (min_count <= c' <= max_count)%nat.
Proof using Hmax Hmin Hthr Hgap.
  pose proof (max_owner_Some _ _ _ Hmax) as [_ Hle].
  pose proof (min_owner_Some _ _ _ Hmin) as [_ Hge].
  intros [[-> ->]|[[-> ->]|(_ & _ & Hc)]]%loop_counts'; [lia|lia|].
  specialize (Hle _ _ Hc). specialize (Hge _ _ Hc). lia.
Qed.

Lemma find_shard_exists : LeastShard.find_shard a moved from ≠ None.
Proof using Hinv Hmax Hmin Hthr Hgap.
  unfold LeastShard.find_shard. intros Hnone.
  pose proof (max_owner_Some _ _ _ Hmax) as [Hx _].
  pose proof (min_owner_Some _ _ _ Hmin) as [Hn _].
  destruct (owned_pos a from) as [s0 Hs0].
  { rewrite <-(inv_counts _ _ _ Hinv _ _ Hx). lia. }
  destruct (find_first _ _) eqn:Hf; [done|].
  rewrite find_first_None in Hf.
  specialize (Hf (s0, from) (proj2 (elem_of_btree_entries _ _ _) Hs0)).
  apply bool_decide_eq_false in Hf. simpl in Hf.
  destruct (decide (s0 ∈ moved)) as [Hmv|Hmv]; [|tauto].
  destruct (inv_moved _ _ _ Hinv _ Hmv) as (n & c & Ha & Hc & Hall).
  simplify_eq. specialize (Hall _ _ Hn). lia.
Qed.

Lemma find_shard_Some :
  LeastShard.find_shard a moved from = Some s → a !! s = Some from ∧ s ∉ moved.
Proof using.
  unfold LeastShard.find_shard. destruct (find_first _ _) as [[s' n]|] eqn:Hf; [|done].
  intros [= <-]. apply find_first_Some in Hf as [Hin Hp].
  apply bool_decide_eq_true in Hp as [Hn Hm]; simpl in *. subst n.
  split; [by apply elem_of_btree_entries|done].
Qed.

Lemma loop_inv_step :
  LeastShard.find_shard a moved from = Some s →
  loop_inv (<[s := to]> a) counts' ({[s]} ∪ moved).
Proof using Hinv Hmax Hmin Hthr Hgap.
  intros [Has Hsm]%find_shard_Some. pose proof loop_from_ne_to as Hne.
  pose proof (max_owner_Some _ _ _ Hmax) as [Hx Hle].
  pose proof (min_owner_Some _ _ _ Hmin) as [Hn Hge].
  split.
  - intros n c' Hc'. rewrite (owned_move a s from to n) by done.
    pose proof (owned_delete a s from n Has) as Hd.
    apply loop_counts' in Hc' as [[-> ->]|[[-> ->]|(Hnt & Hnf & Hc)]].
    + apply (inv_counts _ _ _ Hinv) in Hn. rewrite decide_True by done.
      rewrite decide_False in Hd by done. lia.
    + apply (inv_counts _ _ _ Hinv) in Hx. rewrite decide_False by done.
      rewrite decide_True in Hd by done. lia.
    + apply (inv_counts _ _ _ Hinv) in Hc. rewrite decide_False by done.
      rewrite decide_False in Hd by done. lia.
  - intros s' Hs'. destruct (decide (s' = s)) as [->|Hss].
    + exists to, (S min_count). rewrite lookup_insert_eq. unfold counts'.
      rewrite lookup_insert_eq. split_and!; [done|done|].
      intros m d Hd. apply loop_counts'_bounds in Hd. lia.
    + destruct (inv_moved _ _ _ Hinv s') as (n & c & Ha & Hc & Hall); [set_solver|].
      rewrite lookup_insert_ne by done. exists n.
      assert (n ≠ from) as Hnf.
      { intros ->. simplify_eq. specialize (Hall _ _ Hn). lia. }
      destruct (decide (n = to)) as [->|Hnt].
      * exists (S min_count). unfold counts'. rewrite lookup_insert_eq.
        split_and!; [done|done|]. intros m d Hd%loop_counts'_bounds. lia.
      * exists c. unfold counts'. rewrite !lookup_insert_ne by done.
        split_and!; [done|done|]. specialize (Hall _ _ Hn).
        intros m d Hd%loop_counts'_bounds. lia.
Qed.
End loop_step.

(** What the loop adds to its output, from a state that satisfies [loop_inv]. *)
Record loop_result (remaining threshold : nat) (a : gmap ShardId.t NodeId.t)
    (counts : gmap NodeId.t nat) (moved : gset ShardId.t)
    (moves : list ShardReassignment.t) : Prop := {
  moves_bounded : (length moves <= remaining)%nat;
  moves_distinct : NoDup (ShardReassignment.shard_id <$> moves);
  moves_fresh : ∀ r, r ∈ moves → ShardReassignment.shard_id r ∉ moved;
  moves_valid : ∀ r, r ∈ moves →
    is_Some (a !! ShardReassignment.shard_id r) ∧ is_Some (counts !! ShardReassignment.to r);
  moves_within : ∀ lo hi n c,
    (∀ m d, counts !! m = Some d → (lo <= d <= hi)%nat) → counts !! n = Some c →
    (lo <= owned_shard_count (apply_moves a moves) n <= hi)%nat;
  moves_balance : (length moves < remaining)%nat → ∀ n m c d,
    counts !! n = Some c → counts !! m = Some d →
    (owned_shard_count (apply_moves a moves) n <=
     owned_shard_count (apply_moves a moves) m + threshold)%nat;
}.

Lemma loop_result_stop remaining threshold a counts moved :
  loop_inv a counts moved →
  ((0 < remaining)%nat → ∀ n m c d, counts !! n = Some c → counts !! m = Some d →
     (c <= d + threshold)%nat) →
  loop_result remaining threshold a counts moved [].
Proof.
  intros Hinv Hbal. split; simpl; try (by constructor); try lia.
  - by intros r Hr%not_elem_of_nil.
  - by intros r Hr%not_elem_of_nil.
  - intros lo hi n c Hb Hn. rewrite <-(inv_counts _ _ _ Hinv _ _ Hn). by eapply Hb.
  - intros Hrem n m c d Hn Hm.
    rewrite <-(inv_counts _ _ _ Hinv _ _ Hn), <-(inv_counts _ _ _ Hinv _ _ Hm). by eapply Hbal.
Qed.

Lemma rebalance_loop_spec remaining threshold a counts moved acc :
  (1 <= threshold)%nat → loop_inv a counts moved →
  ∃ moves, LeastShard.rebalance_loop remaining threshold a counts moved acc = acc ++ moves ∧
    loop_result remaining threshold a counts moved moves.
Proof.
  intros Hthr. revert a counts moved acc.
  induction remaining as [|remaining IH]; intros a counts moved acc Hinv; cbn [LeastShard.rebalance_loop].
  { exists []. rewrite app_nil_r. split; [done|]. apply loop_result_stop; [done|lia]. }
  destruct (max_owner counts) as [[from max_count]|] eqn:Hmax.
  2:{ exists []. rewrite app_nil_r. split; [done|]. apply loop_result_stop; [done|].
      intros _ n m c d Hn _. destruct (owner_is_Some _ _ _ Hn) as [_ [? ?]]. congruence. }
  destruct (min_owner counts) as [[to min_count]|] eqn:Hmin.
  2:{ exists []. rewrite app_nil_r. split; [done|]. apply loop_result_stop; [done|].
      intros _ n m c d Hn _. destruct (owner_is_Some _ _ _ Hn) as [[? ?] _]. congruence. }
  pose proof (max_owner_Some _ _ _ Hmax) as [Hx Hle].
  pose proof (min_owner_Some _ _ _ Hmin) as [Hn Hge].
  destruct (Nat.leb_spec (max_count - min_count) threshold) as [Hgap|Hgap].
  { exists []. rewrite app_nil_r. split; [done|]. apply loop_result_stop; [done|].
    intros _ n m c d Hn' Hm'. specialize (Hle _ _ Hn'). specialize (Hge _ _ Hm'). lia. }
  destruct (LeastShard.find_shard a moved from) as [s|] eqn:Hfind.
  2:{ exfalso. by eapply find_shard_exists. }
  pose proof (find_shard_Some _ _ _ _ Hfind) as [Has Hsm].
  destruct (IH (<[s := to]> a) (<[to := S min_count]> (<[from := pred max_count]> counts))
               ({[s]} ∪ moved) (acc ++ [ShardReassignment.new s to]))
    as (moves & Heq & Hres); [by eapply loop_inv_step|].
  exists (ShardReassignment.new s to :: moves).
  split; [by rewrite Heq, <-app_assoc|].
  assert (∀ n, is_Some (counts !! n) → is_Some
    (<[to := S min_count]> (<[from := pred max_count]> counts) !! n)) as Hdom.
  { intros n Hs. rewrite !lookup_insert. repeat case_decide; done. }
  destruct Hres as [Hb Hd Hf Hv Hw Hbal]. split; simpl.
  - lia.
  - constructor; [|done]. intros (r & -> & Hr)%list_elem_of_fmap.
    apply Hf in Hr. set_solver.
  - intros r [->|Hr]%elem_of_cons; [done|]. apply Hf in Hr. set_solver.
  - intros r [->|Hr]%elem_of_cons; simpl; [split; by eexists|].
    apply Hv in Hr as [Ha Hc]. split.
    + rewrite lookup_insert in Ha. case_decide; [subst; by eexists|done].
    + rewrite !lookup_insert in Hc. repeat case_decide; subst; try done; by eexists.
  - intros lo hi n c Hb' Hc. destruct (Hdom n) as [c' Hc']; [by eexists|].
    eapply Hw; [|exact Hc']. intros m d Hm.
    eapply loop_counts'_bounds in Hm; [|done..].
    pose proof (Hb' _ _ Hx). pose proof (Hb' _ _ Hn). lia.
  - intros Hlt n m c d Hc Hd'. destruct (Hdom n) as [c' Hc']; [by eexists|].
    destruct (Hdom m) as [d' Hd'']; [by eexists|]. eapply Hbal; [lia|done|done].
Qed.

Lemma initial_loop_inv routable a :
  loop_inv a (routable_owner_counts routable (btree_entries a)) ∅.
Proof.
  split; [|set_solver]. intros n c. rewrite lookup_routable_owner_counts.
  case_decide; [by intros [= <-]|done].
Qed.

(** One pass of the least-shard strategy: it moves at most the configured
    number of shards, each once, from their current place to a routable node; no
    node leaves the range of loads it started from; and when it stops short of its
    cap, every two routable nodes are within the rebalance threshold. *)
Theorem least_shard_rebalance_correct (self : LeastShard.t) (ctx : ShardRebalanceContext.t) :
  let moves := LeastShard.rebalance self ctx in
  let a := ShardRebalanceContext.assignments ctx in
  let a' := apply_moves a moves in
  let routable := ShardRebalanceContext.routable_nodes ctx in
  (length moves <= LeastShard.max_simultaneous_rebalance self)%nat ∧
  NoDup (ShardReassignment.shard_id <$> moves) ∧
  (∀ r, r ∈ moves → is_Some (a !! ShardReassignment.shard_id r) ∧
                    ShardReassignment.to r ∈ routable) ∧
  (∀ lo hi, (∀ n, n ∈ routable → (lo <= owned_shard_count a n <= hi)%nat) →
     ∀ n, n ∈ routable → (lo <= owned_shard_count a' n <= hi)%nat) ∧
  ((length moves < LeastShard.max_simultaneous_rebalance self)%nat →
   ∀ n m, n ∈ routable → m ∈ routable →
   (owned_shard_count a' n <=
    owned_shard_count a' m + Nat.max (LeastShard.rebalance_threshold self) 1)%nat).
Proof.
  intros moves a a' routable.
  assert (loop_result (LeastShard.max_simultaneous_rebalance self)
            (Nat.max (LeastShard.rebalance_threshold self) 1) a
            (routable_owner_counts routable (btree_entries a)) ∅ moves) as Hres.
  { subst moves. unfold LeastShard.rebalance. case_decide as Hz.
    - rewrite Hz. apply loop_result_stop; [apply initial_loop_inv|lia].
    - edestruct rebalance_loop_spec as (moves & Heq & Hres);
        [|apply initial_loop_inv|]; [|rewrite Heq; exact Hres]. lia. }
  assert (∀ n, n ∈ routable →
    routable_owner_counts routable (btree_entries a) !! n = Some (owned_shard_count a n)) as Hin.
  { intros n Hn. rewrite lookup_routable_owner_counts. by rewrite decide_True. }
  destruct Hres as [Hb Hd _ Hv Hw Hbal]. split_and!; [done|done| | |].
  - intros r Hr. destruct (Hv r Hr) as [? Hc]. split; [done|].
    rewrite lookup_routable_owner_counts in Hc. case_decide; [done|]. by destruct Hc.
  - intros lo hi Hall n Hn. eapply Hw; [|by apply Hin]. intros m d.
    rewrite lookup_routable_owner_counts. case_decide; [|done]. intros [= <-]. by apply Hall.
  - intros Hlt n m Hn Hm. eapply Hbal; [done|by apply Hin|by apply Hin].
Qed.

(** ** A concrete placement *)

(** Ten shards on three nodes: no node has two shards more than another. *)
Lemma modulo_placement_balanced_witness :
  let node i := NodeId.new i "1" in
  let nodes := [node "a"; node "b"; node "c"] in
  modulo_load nodes 10 (node "a") = 4%nat ∧
  (modulo_load nodes 10 (node "a") <= modulo_load nodes 10 (node "b") + 1)%nat.
Proof.
  cbv zeta. split; [vm_compute; reflexivity|].
  apply (modulo_placement_balanced [NodeId.new "a" "1"; NodeId.new "b" "1"; NodeId.new "c" "1"]).
  - apply (bool_decide_unpack _). vm_compute. exact I.
  - lia.
  - by left.
  - by right; left.
Defined.
