(* ===== verification/Coordinator.v ===== *)
(** * The shard coordinator: [rakka-sharding/src/coordinator.rs]

    The ownership table of one entity type, its reconciliation with the cluster
    membership, and the snapshots it is restored from. *)

From S2P Require Import Prelude Node Membership Identity Allocation.

(** ** Data *)

Module ShardAssignment.

Record t := new { shard : ShardKey.t; owner : NodeId.t }.

#[global] Instance eq_dec : EqDecision t.
Proof. solve_decision. Defined.

End ShardAssignment.

Inductive ShardMoveReason :=
| InitialAllocation | Rebalance | GracefulLeave | OwnerUnavailable | NoRoutableMembers.

#[global] Instance ShardMoveReason_eq_dec : EqDecision ShardMoveReason.
Proof. solve_decision. Defined.

Inductive ShardDecision :=
| Assign (shard : ShardKey.t) (to : NodeId.t) (reason : ShardMoveReason)
| Move (shard : ShardKey.t) (from to : NodeId.t) (reason : ShardMoveReason)
| Unassign (shard : ShardKey.t) (from : NodeId.t) (reason : ShardMoveReason).

#[global] Instance ShardDecision_eq_dec : EqDecision ShardDecision.
Proof. solve_decision. Defined.

Definition decision_shard (d : ShardDecision) : ShardKey.t :=
  match d with Assign shard _ _ | Move shard _ _ _ | Unassign shard _ _ => shard end.

Definition decision_reason (d : ShardDecision) : ShardMoveReason :=
  match d with Assign _ _ reason | Move _ _ _ reason | Unassign _ _ reason => reason end.

Module ShardOwnershipSnapshot.

Record t := mk {
  revision : Z;
  entity_type : EntityType.t;
  number_of_shards : Z;
  assignments : list ShardAssignment.t;
}.

#[global] Instance eq_dec : EqDecision t.
Proof. solve_decision. Defined.

Definition owned_shard_count (self : t) (owner : NodeId.t) : nat :=
  length (filter (fun a => ShardAssignment.owner a = owner) (assignments self)).

Definition owner_counts (self : t) : list ShardOwnerCount.t :=
  (fun p => ShardOwnerCount.new p.1 p.2) <$>
    btree_entries (foldl (fun counts a => count_owner counts (ShardAssignment.owner a))
                     ∅ (assignments self)).

End ShardOwnershipSnapshot.

Module ShardRebalancePlan.

Record t := mk {
  previous_revision : Z;
  new_revision : Z;
  decisions : list ShardDecision;
}.

Definition is_empty (self : t) : bool :=
  match decisions self with [] => true | _ => false end.

End ShardRebalancePlan.

(** [move_reason]. *)
Definition move_reason (membership : ClusterMembership.t) (current_owner : NodeId.t) :
    ShardMoveReason :=
  match MemberRecord.state <$> ClusterMembership.member membership current_owner with
  | Some Up => Rebalance
  | Some Leaving => GracefulLeave
  | Some (Joining | Unreachable | Down | Removed) | None => OwnerUnavailable
  end.

(** The node ids [reconcile] collects from [membership.routable_members()]. *)
Definition routable_node_ids (membership : ClusterMembership.t) : list NodeId.t :=
  (fun member => ClusterNode.id (MemberRecord.node member)) <$>
    ClusterMembership.routable_members membership.

(** ** [ShardCoordinator] *)

Module ShardCoordinator.

Record t := mk {
  entity_type : EntityType.t;
  config : ShardingConfig.t;
  assignments : gmap ShardId.t NodeId.t;
  revision : Z;
  allocation_strategy : ShardAllocationStrategy;
}.

Definition with_allocation_strategy_ref (entity_type : EntityType.t)
    (config : ShardingConfig.t) (allocation_strategy : ShardAllocationStrategy) : t :=
  mk entity_type config ∅ 0 allocation_strategy.

Definition new (entity_type : EntityType.t) (config : ShardingConfig.t) : t :=
  with_allocation_strategy_ref entity_type config
    (DeterministicModulo.strategy DeterministicModulo.new).

(** The loop of [from_snapshot] over the assignments of the snapshot. *)
Fixpoint load_assignments (entity_type : EntityType.t) (config : ShardingConfig.t)
    (snapshot_shards : Z) (assignments : gmap ShardId.t NodeId.t)
    (l : list ShardAssignment.t) : ShardingResult (gmap ShardId.t NodeId.t) :=
  match l with
  | [] => Ok assignments
  | assignment :: l =>
      let shard := ShardAssignment.shard assignment in
      if decide (ShardKey.entity_type shard ≠ entity_type) then
        Err (PersistedCoordinatorSnapshotMismatch entity_type (ShardKey.entity_type shard)
               (ShardingConfig.number_of_shards config) snapshot_shards)
      else
        let shard_id := ShardKey.shard_id shard in
        if negb (ShardingConfig.contains_shard config shard_id) then
          Err (UnknownShard shard_id (ShardingConfig.number_of_shards config))
        else
          load_assignments entity_type config snapshot_shards
            (<[shard_id := ShardAssignment.owner assignment]> assignments) l
  end.

Definition from_snapshot_with_allocation_strategy_ref (entity_type : EntityType.t)
    (config : ShardingConfig.t) (snapshot : ShardOwnershipSnapshot.t)
    (allocation_strategy : ShardAllocationStrategy) : ShardingResult t :=
  if decide (ShardOwnershipSnapshot.entity_type snapshot ≠ entity_type ∨
             ShardOwnershipSnapshot.number_of_shards snapshot ≠
               ShardingConfig.number_of_shards config) then
    Err (PersistedCoordinatorSnapshotMismatch entity_type
           (ShardOwnershipSnapshot.entity_type snapshot)
           (ShardingConfig.number_of_shards config)
           (ShardOwnershipSnapshot.number_of_shards snapshot))
  else
    let? assignments :=
      load_assignments entity_type config (ShardOwnershipSnapshot.number_of_shards snapshot)
        ∅ (ShardOwnershipSnapshot.assignments snapshot) in
    Ok (mk entity_type config assignments (ShardOwnershipSnapshot.revision snapshot)
          allocation_strategy).

Definition from_snapshot (entity_type : EntityType.t) (config : ShardingConfig.t)
    (snapshot : ShardOwnershipSnapshot.t) : ShardingResult t :=
  from_snapshot_with_allocation_strategy_ref entity_type config snapshot
    (DeterministicModulo.strategy DeterministicModulo.new).

Definition shard_for_entity (self : t) (entity_id : EntityId.t) : ShardId.t :=
  for_entity (entity_type self) entity_id (config self).

Definition ensure_known_shard (self : t) (shard_id : ShardId.t) : ShardingResult unit :=
  if ShardingConfig.contains_shard (config self) shard_id then Ok tt
  else Err (UnknownShard shard_id (ShardingConfig.number_of_shards (config self))).

Definition owner_for_shard (self : t) (shard_id : ShardId.t) : ShardingResult NodeId.t :=
  let? _ := ensure_known_shard self shard_id in
  ok_or (NoShardOwner (entity_type self) shard_id) (assignments self !! shard_id).

Definition owner_for_entity (self : t) (entity_id : EntityId.t) : ShardingResult NodeId.t :=
  let shard_id := shard_for_entity self entity_id in
  ok_or (NoEntityOwner (entity_type self) entity_id shard_id) (assignments self !! shard_id).

Definition shard_key (self : t) (shard_id : ShardId.t) : ShardKey.t :=
  ShardKey.new (entity_type self) shard_id.

(** [bump_revision_if_changed]. *)
Definition bump_revision_if_changed (revision : Z) (decisions : list ShardDecision) : Z :=
  match decisions with [] => revision | _ => add_u64 revision 1 end.

(** One iteration of the allocation loop: the working assignments and the
    decisions pushed so far. *)
Definition allocate_step (self : t) (membership : ClusterMembership.t)
    (routable_nodes : list NodeId.t)
    (w : gmap ShardId.t NodeId.t * list ShardDecision) (shard_id : ShardId.t) :
    gmap ShardId.t NodeId.t * list ShardDecision :=
  let (assignments, decisions) := w in
  let current_owner := assignments !! shard_id in
  let needs_allocation :=
    match current_owner with
    | Some owner => negb (is_routable_node routable_nodes owner)
    | None => true
    end in
  if negb needs_allocation then w
  else
    let context := ShardAllocationContext.new (entity_type self) (config self) membership
                     routable_nodes assignments in
    let desired_owner :=
      match allocate_shard (allocation_strategy self) context shard_id with
      | Some owner => if is_routable_node routable_nodes owner then Some owner else None
      | None => None
      end in
    match current_owner, desired_owner with
    | None, Some to =>
        (<[shard_id := to]> assignments,
         decisions ++ [Assign (shard_key self shard_id) to InitialAllocation])
    | Some from, Some to =>
        if decide (from ≠ to) then
          (<[shard_id := to]> assignments,
           decisions ++ [Move (shard_key self shard_id) from to (move_reason membership from)])
        else w
    | Some from, None =>
        (delete shard_id assignments,
         decisions ++ [Unassign (shard_key self shard_id) from (move_reason membership from)])
    | None, None => w
    end.

(** One iteration of the reassignment loop, with the set of shards it has seen. *)
Definition reassign_step (self : t) (membership : ClusterMembership.t)
    (routable_nodes : list NodeId.t)
    (w : gmap ShardId.t NodeId.t * gset ShardId.t * list ShardDecision)
    (reassignment : ShardReassignment.t) :
    gmap ShardId.t NodeId.t * gset ShardId.t * list ShardDecision :=
  let '(assignments, reassigned_shards, decisions) := w in
  let shard_id := ShardReassignment.shard_id reassignment in
  if negb (ShardingConfig.contains_shard (config self) shard_id) then w
  else if bool_decide (shard_id ∈ reassigned_shards) then w
  else
    let reassigned_shards := {[shard_id]} ∪ reassigned_shards in
    let to := ShardReassignment.to reassignment in
    if negb (is_routable_node routable_nodes to) then (assignments, reassigned_shards, decisions)
    else
      match assignments !! shard_id with
      | None =>
          (<[shard_id := to]> assignments, reassigned_shards,
           decisions ++ [Assign (shard_key self shard_id) to InitialAllocation])
      | Some from =>
          if decide (from ≠ to) then
            (<[shard_id := to]> assignments, reassigned_shards,
             decisions ++ [Move (shard_key self shard_id) from to (move_reason membership from)])
          else (assignments, reassigned_shards, decisions)
      end.

Definition allocate_all (self : t) (membership : ClusterMembership.t)
    (routable_nodes : list NodeId.t) : gmap ShardId.t NodeId.t * list ShardDecision :=
  foldl (allocate_step self membership routable_nodes) (assignments self, [])
    (shard_ids (ShardingConfig.number_of_shards (config self))).

Definition reassign_all (self : t) (membership : ClusterMembership.t)
    (routable_nodes : list NodeId.t) (w : gmap ShardId.t NodeId.t * list ShardDecision) :
    gmap ShardId.t NodeId.t * list ShardDecision :=
  let (assignments, decisions) := w in
  let context := ShardRebalanceContext.new (entity_type self) (config self) membership
                   routable_nodes assignments in
  let '(assignments, _, decisions) :=
    foldl (reassign_step self membership routable_nodes) (assignments, ∅, decisions)
      (rebalance (allocation_strategy self) context) in
  (assignments, decisions).

Definition reconcile (self : t) (membership : ClusterMembership.t) : t * ShardRebalancePlan.t :=
  let previous_revision := revision self in
  let routable_nodes := routable_node_ids membership in
  let (assignments', decisions) :=
    match routable_nodes with
    | [] =>
        (∅, (fun '(shard_id, from) => Unassign (shard_key self shard_id) from NoRoutableMembers)
              <$> btree_entries (assignments self))
    | _ =>
        reassign_all self membership routable_nodes
          (allocate_all self membership routable_nodes)
    end in
  let revision' := bump_revision_if_changed (revision self) decisions in
  (mk (entity_type self) (config self) assignments' revision' (allocation_strategy self),
   ShardRebalancePlan.mk previous_revision revision' decisions).

Definition snapshot (self : t) : ShardOwnershipSnapshot.t :=
  ShardOwnershipSnapshot.mk (revision self) (entity_type self)
    (ShardingConfig.number_of_shards (config self))
    ((fun '(shard_id, owner) => ShardAssignment.new (shard_key self shard_id) owner) <$>
       btree_entries (assignments self)).

End ShardCoordinator.

(** ** What a plan does

    A decision is applicable in a table that agrees with its [from] (or has no
    owner yet); a plan is a script of such decisions. *)

Definition apply_decision (et : EntityType.t) (a : gmap ShardId.t NodeId.t)
    (d : ShardDecision) : option (gmap ShardId.t NodeId.t) :=
  if decide (ShardKey.entity_type (decision_shard d) = et) then
    let s := ShardKey.shard_id (decision_shard d) in
    match d, a !! s with
    | Assign _ to _, None => Some (<[s := to]> a)
    | Move _ from to _, Some o =>
        if decide (o = from ∧ from ≠ to) then Some (<[s := to]> a) else None
    | Unassign _ from _, Some o => if decide (o = from) then Some (delete s a) else None
    | _, _ => None
    end
  else None.

Definition replay (et : EntityType.t) (a : gmap ShardId.t NodeId.t)
    (ds : list ShardDecision) : option (gmap ShardId.t NodeId.t) :=
  foldl (fun oa d => a ← oa; apply_decision et a d) (Some a) ds.

(** A slot of the table is served when its owner is routable. *)
Definition served (routable : list NodeId.t) (o : option NodeId.t) : Prop :=
  ∃ n, o = Some n ∧ n ∈ routable.

#[global] Instance served_dec routable o : Decision (served routable o).
Proof.
  destruct o as [n|]; [|right; by intros (?&?&?)].
  destruct (decide (n ∈ routable)); [left; by exists n|right; by intros (?&[= ->]&?)].
Defined.

Implicit Types (a : gmap ShardId.t NodeId.t) (ds : list ShardDecision) (s : ShardId.t).

(** The table and the decisions after a step that decides about shard [s] at most. *)
Definition decides (et : EntityType.t) (routable : list NodeId.t) (s : ShardId.t)
    (a : gmap ShardId.t NodeId.t) (ds : list ShardDecision)
    (a' : gmap ShardId.t NodeId.t) (ds' : list ShardDecision) : Prop :=
  (a' = a ∧ ds' = ds) ∨
  ∃ d, ds' = ds ++ [d] ∧ ShardKey.shard_id (decision_shard d) = s ∧
    apply_decision et a d = Some a' ∧ (∀ s', s' ≠ s → a' !! s' = a !! s') ∧
    a' !! s ≠ a !! s ∧ (a' !! s = None ∨ served routable (a' !! s)).

Section reconcile_steps.
Context (c : ShardCoordinator.t) (m : ClusterMembership.t) (routable : list NodeId.t).
Let et := ShardCoordinator.entity_type c.

Lemma decide_assign s a ds n reason :
  a !! s = None → n ∈ routable →
  decides et routable s a ds (<[s := n]> a)
    (ds ++ [Assign (ShardCoordinator.shard_key c s) n reason]).
Proof.
  intros Hs Hn. right. eexists. split; [done|]. simpl. split; [done|].
  unfold apply_decision; simpl. rewrite decide_True, Hs by done. split; [done|].
  split; [intros; by rewrite lookup_insert_ne|]. rewrite lookup_insert_eq.
  split; [done|]. right. by exists n.
Qed.

Lemma decide_move s a ds o n reason :
  a !! s = Some o → o ≠ n → n ∈ routable →
  decides et routable s a ds (<[s := n]> a)
    (ds ++ [Move (ShardCoordinator.shard_key c s) o n reason]).
Proof.
  intros Hs Hon Hn. right. eexists. split; [done|]. simpl. split; [done|].
  unfold apply_decision; simpl. rewrite decide_True, Hs, decide_True by done. split; [done|].
  split; [intros; by rewrite lookup_insert_ne|]. rewrite lookup_insert_eq.
  split; [congruence|]. right. by exists n.
Qed.

Lemma decide_unassign s a ds o reason :
  a !! s = Some o →
  decides et routable s a ds (delete s a)
    (ds ++ [Unassign (ShardCoordinator.shard_key c s) o reason]).
Proof.
  intros Hs. right. eexists. split; [done|]. simpl. split; [done|].
  unfold apply_decision; simpl. rewrite decide_True, Hs, decide_True by done. split; [done|].
  split; [intros; by rewrite lookup_delete_ne|]. rewrite lookup_delete_eq.
  split; [congruence|by left].
Qed.

(** The allocation step leaves a served shard alone, and serves any other one when
    the strategy can. *)
Lemma allocate_step_spec a ds s a' ds' :
  ShardCoordinator.allocate_step c m routable (a, ds) s = (a', ds') →
  decides et routable s a ds a' ds' ∧
  (served routable (a !! s) → a' = a ∧ ds' = ds) ∧
  (AllocatesRoutable (ShardCoordinator.allocation_strategy c) → routable ≠ [] →
   served routable (a' !! s)).
Proof.
  unfold ShardCoordinator.allocate_step, is_routable_node.
  set (ctx := ShardAllocationContext.new _ _ _ _ _).
  set (want := match allocate_shard _ ctx s with Some _ => _ | None => None end).
  assert (∀ n, want = Some n → n ∈ routable) as Hwant.
  { unfold want. intros n. destruct (allocate_shard _ _ _); [|done].
    case_bool_decide; [by intros [= <-]|done]. }
  assert (AllocatesRoutable (ShardCoordinator.allocation_strategy c) → routable ≠ [] →
          want ≠ None) as Hsome.
  { intros Halloc Hne. destruct (Halloc ctx s Hne) as (o & Ho & Hin). unfold want.
    rewrite Ho. by rewrite bool_decide_true. }
  destruct (a !! s) as [o|] eqn:Hs.
  - destruct (bool_decide (o ∈ routable)) eqn:Hb; simpl.
    + apply bool_decide_eq_true in Hb. intros [= <- <-].
      split; [by left|]. split; [done|]. intros _ _. rewrite Hs. by exists o.
    + apply bool_decide_eq_false in Hb.
      assert (¬ served routable (Some o)) as Hns by (by intros (?&[= <-]&?)).
      destruct want as [n|] eqn:Hw; simpl.
      * specialize (Hwant n eq_refl).
        rewrite decide_True by (intros ->; done). intros [= <- <-].
        split; [by apply decide_move; [|intros ->|]|]. split; [done|].
        intros _ _. rewrite lookup_insert_eq. by exists n.
      * intros [= <- <-]. split; [by apply decide_unassign|]. split; [done|].
        intros Ha Hne. by destruct (Hsome Ha Hne).
  - simpl. assert (¬ served routable None) as Hns by (by intros (?&?&?)).
    destruct want as [n|] eqn:Hw.
    + intros [= <- <-]. split; [by apply decide_assign; [|apply Hwant]|].
      split; [done|]. intros _ _. rewrite lookup_insert_eq. exists n. by split; [|apply Hwant].
    + intros [= <- <-]. split; [by left|]. split; [done|].
      intros Ha Hne. by destruct (Hsome Ha Hne).
Qed.

(** The reassignment step never decides twice about a shard, only about shards of
    the namespace, and always hands them to a routable node. *)
Lemma reassign_step_spec a seen ds r a' seen' ds' :
  ShardCoordinator.reassign_step c m routable (a, seen, ds) r = (a', seen', ds') →
  let s := ShardReassignment.shard_id r in
  (seen ⊆ seen') ∧
  ((a' = a ∧ ds' = ds) ∨
   (s ∉ seen) ∧ (s ∈ seen') ∧ ShardingConfig.contains_shard (ShardCoordinator.config c) s = true ∧
   a' !! s = Some (ShardReassignment.to r) ∧ served routable (a' !! s) ∧
   decides et routable s a ds a' ds').
Proof.
  unfold ShardCoordinator.reassign_step, is_routable_node. simpl.
  set (s := ShardReassignment.shard_id r). set (n := ShardReassignment.to r).
  destruct (ShardingConfig.contains_shard _ s) eqn:Hc; simpl; [|intros [= <- <- <-]; auto].
  destruct (bool_decide (s ∈ seen)) eqn:Hb; simpl; [intros [= <- <- <-]; auto|].
  apply bool_decide_eq_false in Hb.
  destruct (bool_decide (n ∈ routable)) eqn:Hn; simpl.
  2:{ intros [= <- <- <-]. split; [set_solver|]. by left. }
  apply bool_decide_eq_true in Hn.
  destruct (a !! s) as [o|] eqn:Hs.
  - destruct (decide (o ≠ n)) as [Hon|Hon]; intros [= <- <- <-].
    + split; [set_solver|]. right. split_and!; [done|set_solver|done| | |by apply decide_move].
      * by rewrite lookup_insert_eq.
      * rewrite lookup_insert_eq. by exists n.
    + split; [set_solver|]. by left.
  - intros [= <- <- <-]. split; [set_solver|]. right.
    split_and!; [done|set_solver|done| | |by apply decide_assign].
    + by rewrite lookup_insert_eq.
    + rewrite lookup_insert_eq. by exists n.
Qed.

Lemma replay_cons a d ds a' :
  apply_decision et a d = Some a' → replay et a (d :: ds) = replay et a' ds.
Proof. unfold replay. simpl. by intros ->. Qed.

Lemma replay_app a ds1 ds2 a' :
  replay et a ds1 = Some a' → replay et a (ds1 ++ ds2) = replay et a' ds2.
Proof. unfold replay. rewrite foldl_app. by intros ->. Qed.

(** What a loop that started from [(a, ds)] has done: it appended decisions that
    replay to the new table, about the shards [dom], each of which changed. *)
Record decided (dom : ShardId.t → Prop) a ds a' ds' (new : list ShardDecision) : Prop := {
  decided_app : ds' = ds ++ new;
  decided_replay : replay et a new = Some a';
  decided_frame : ∀ s, ¬ dom s → a' !! s = a !! s;
  decided_changed : ∀ s, a' !! s ≠ a !! s → a' !! s = None ∨ served routable (a' !! s);
  decided_shards : ∀ d, d ∈ new → let s := ShardKey.shard_id (decision_shard d) in
    dom s ∧ a' !! s ≠ a !! s;
}.

Lemma decided_nil dom a ds : decided dom a ds a ds [].
Proof.
  split; try done; [by rewrite app_nil_r|]. by intros d Hd%not_elem_of_nil.
Qed.

Lemma decided_cons (dom dom' : ShardId.t → Prop) s a ds a1 ds1 a2 ds2 new :
  decides et routable s a ds a1 ds1 → decided dom' a1 ds1 a2 ds2 new →
  (¬ dom' s) → (a1 ≠ a → dom s) → (∀ s', dom' s' → dom s') →
  ∃ new', decided dom a ds a2 ds2 new' ∧ (length new' <= S (length new))%nat.
Proof.
  intros [[-> ->]|(d & -> & Hd & Happ & Hframe & Hne & Hok)] [Ha Hr Hf Hc Hs] Hs' Hdom Hsub.
  - exists new. split; [|lia]. split; [done|done| |done|].
    + intros s0 Hs0. apply Hf. naive_solver.
    + intros d Hd. destruct (Hs d Hd). naive_solver.
  - assert (a1 ≠ a) as Hchg by congruence. exists (d :: new). split; [|simpl; lia]. split.
    + by rewrite Ha, <-app_assoc.
    + by rewrite (replay_cons _ _ _ _ Happ).
    + intros s0 Hs0. assert (s0 ≠ s) as Hss by naive_solver.
      rewrite Hf, Hframe by naive_solver. done.
    + intros s0 Hs0. destruct (decide (s0 = s)) as [->|Hss].
      * by rewrite (Hf s Hs').
      * apply Hc. by rewrite (Hframe s0 Hss).
    + intros d' [->|Hd']%elem_of_cons; simpl.
      * rewrite Hd. split; [auto|]. by rewrite (Hf s Hs').
      * destruct (Hs d' Hd') as [Hin Hn]. split; [auto|].
        rewrite <-(Hframe _) by (intros Heq; rewrite Heq in Hin; done). done.
Qed.

Lemma allocate_fold l a ds a' ds' :
  NoDup l → foldl (ShardCoordinator.allocate_step c m routable) (a, ds) l = (a', ds') →
  (∃ new, decided (.∈ l) a ds a' ds' new) ∧
  (∀ s, served routable (a !! s) → a' !! s = a !! s) ∧
  (AllocatesRoutable (ShardCoordinator.allocation_strategy c) → routable ≠ [] →
   ∀ s, s ∈ l → served routable (a' !! s)).
Proof.
  intros Hnd. revert a ds. induction Hnd as [|s l Hsl Hnd IH]; intros a ds; cbn [foldl].
  { intros [= <- <-]. split; [eexists; apply decided_nil|]. split; [done|].
    by intros _ _ s Hs%not_elem_of_nil. }
  destruct (ShardCoordinator.allocate_step c m routable (a, ds) s) as [a1 ds1] eqn:Hstep.
  intros Hfold. apply allocate_step_spec in Hstep as (Hdec & Hkeep & Hall).
  destruct (IH _ _ Hfold) as ([new Hnew] & Hserved & Hcov).
  assert (∀ s', s' ≠ s → a1 !! s' = a !! s') as Hframe.
  { destruct Hdec as [[-> _]|(?&?&?&?&?&?)]; auto. }
  split_and!.
  - edestruct (decided_cons (.∈ s :: l)) as (new' & Hnew' & _);
      [exact Hdec|exact Hnew|done| | |by exists new'].
    + intros _. by left.
    + intros s' Hs'. by right.
  - intros s' Hs'. destruct (decide (s' = s)) as [->|Hss].
    + destruct (Hkeep Hs') as [-> _]. by apply Hserved.
    + rewrite <-(Hframe s' Hss) in Hs' |- *. by apply Hserved.
  - intros Ha Hne s' [->|Hs']%elem_of_cons; [|by apply Hcov].
    rewrite (decided_frame _ _ _ _ _ _ Hnew s Hsl). by apply Hall.
Qed.

Lemma reassign_fold rs a seen ds a' seen' ds' :
  foldl (ShardCoordinator.reassign_step c m routable) (a, seen, ds) rs = (a', seen', ds') →
  (∃ new, decided (fun s => (s ∉ seen) ∧ (∃ r, r ∈ rs ∧ ShardReassignment.shard_id r = s) ∧
             ShardingConfig.contains_shard (ShardCoordinator.config c) s = true)
             a ds a' ds' new ∧ (length new <= length rs)%nat) ∧
  (∀ s, a' !! s ≠ a !! s → served routable (a' !! s)).
Proof.
  revert a seen ds. induction rs as [|r rs IH]; intros a seen ds; cbn [foldl].
  { intros [= <- <- <-]. split; [|done]. eexists. split; [apply decided_nil|done]. }
  destruct (ShardCoordinator.reassign_step c m routable (a, seen, ds) r)
    as [[a1 seen1] ds1] eqn:Hstep.
  intros Hfold. apply reassign_step_spec in Hstep as [Hsub Hcase].
  destruct (IH _ _ _ Hfold) as [(new & Hnew & Hlen) Hsv].
  destruct Hcase as [[-> ->]|(Hns & Hin & Hcon & Hto & Hserv & Hdec)].
  - split; [|done]. exists new. split; [|simpl; lia].
    destruct Hnew as [? ? Hf ? Hs]. split; [done|done| |done|].
    + intros s Hs0. apply Hf. intros (? & (r' & ? & ?) & ?). apply Hs0.
      split_and!; [set_solver|exists r'; split; [by right|done]|done].
    + intros d Hd. destruct (Hs d Hd) as [(? & (r' & ? & ?) & ?) ?]. split; [|done].
      split_and!; [set_solver|exists r'; split; [by right|done]|done].
  - split.
    + edestruct (decided_cons
        (fun s => (s ∉ seen) ∧ (∃ r', r' ∈ r :: rs ∧ ShardReassignment.shard_id r' = s) ∧
           ShardingConfig.contains_shard (ShardCoordinator.config c) s = true))
        as (new' & Hnew' & Hlen'); [exact Hdec|exact Hnew| | | |exists new'; split; [done|simpl; lia]].
      * by intros [? _].
      * intros _. split_and!; [done| |done]. exists r. split; [by left|done].
      * intros s' (? & (r' & ? & ?) & ?).
        split_and!; [set_solver|exists r'; split; [by right|done]|done].
    + intros s Hs. destruct (decide (s = ShardReassignment.shard_id r)) as [->|Hss].
      * by rewrite (decided_frame _ _ _ _ _ _ Hnew) by (by intros [? _]).
      * apply Hsv. destruct Hdec as [[-> _]|(?&?&?&?&Hfr&?)]; [done|]. by rewrite Hfr.
Qed.

End reconcile_steps.

(** ** Reconciliation *)

Definition in_range (cfg : ShardingConfig.t) (s : ShardId.t) : Prop :=
  0 <= ShardId.as_u32 s < ShardingConfig.number_of_shards cfg.

(** The invariant of a coordinator: it only owns shards of its namespace. *)
Definition coordinator_wf (c : ShardCoordinator.t) : Prop :=
  ShardingConfig.wf (ShardCoordinator.config c) ∧
  ∀ s, is_Some (ShardCoordinator.assignments c !! s) →
    ShardingConfig.contains_shard (ShardCoordinator.config c) s = true.

Lemma NoDup_shard_ids count : NoDup (shard_ids count).
Proof.
  apply (NoDup_fmap_2_strong ShardId.new); [by intros ???? [=]|apply NoDup_seqZ].
Qed.

Lemma contains_shard_in_range cfg s :
  0 <= ShardId.as_u32 s → ShardingConfig.contains_shard cfg s = true ↔ in_range cfg s.
Proof. unfold ShardingConfig.contains_shard, in_range. rewrite Z.ltb_lt. lia. Qed.

Lemma reconcile_nonempty c m :
  routable_node_ids m ≠ [] →
  ShardCoordinator.reconcile c m =
    let (a', ds) := ShardCoordinator.reassign_all c m (routable_node_ids m)
                      (ShardCoordinator.allocate_all c m (routable_node_ids m)) in
    let revision' := ShardCoordinator.bump_revision_if_changed (ShardCoordinator.revision c) ds in
    (ShardCoordinator.mk (ShardCoordinator.entity_type c) (ShardCoordinator.config c) a' revision'
       (ShardCoordinator.allocation_strategy c),
     ShardRebalancePlan.mk (ShardCoordinator.revision c) revision' ds).
Proof. unfold ShardCoordinator.reconcile. by destruct (routable_node_ids m). Qed.

(** The two loops of [reconcile] when some node is routable. *)
Lemma reconcile_loops c m c' p :
  ShardCoordinator.reconcile c m = (c', p) → routable_node_ids m ≠ [] →
  let et := ShardCoordinator.entity_type c in
  let routable := routable_node_ids m in
  let a := ShardCoordinator.assignments c in
  let a' := ShardCoordinator.assignments c' in
  let l := shard_ids (ShardingConfig.number_of_shards (ShardCoordinator.config c)) in
  ∃ a1 new1 new2,
    let rs := rebalance (ShardCoordinator.allocation_strategy c)
      (ShardRebalanceContext.new et (ShardCoordinator.config c) m routable a1) in
    ShardCoordinator.allocate_all c m routable = (a1, new1) ∧
    decided c routable (.∈ l) a [] a1 new1 new1 ∧
    (∀ s, served routable (a !! s) → a1 !! s = a !! s) ∧
    (AllocatesRoutable (ShardCoordinator.allocation_strategy c) →
     ∀ s, s ∈ l → served routable (a1 !! s)) ∧
    decided c routable (fun s => (s ∉ (∅ : gset ShardId.t)) ∧
        (∃ r, r ∈ rs ∧ ShardReassignment.shard_id r = s) ∧
        ShardingConfig.contains_shard (ShardCoordinator.config c) s = true)
      a1 new1 a' (new1 ++ new2) new2 ∧ (length new2 <= length rs)%nat ∧
    (∀ s, a' !! s ≠ a1 !! s → served routable (a' !! s)) ∧
    ShardRebalancePlan.decisions p = new1 ++ new2.
Proof.
  intros Hrec Hne. rewrite reconcile_nonempty in Hrec by done. cbv zeta.
  destruct (ShardCoordinator.allocate_all c m (routable_node_ids m)) as [a1 ds1] eqn:Hall.
  unfold ShardCoordinator.reassign_all in Hrec.
  destruct (foldl (ShardCoordinator.reassign_step c m (routable_node_ids m)) _ _)
    as [[a2 seen2] ds2] eqn:Hfold.
  simplify_eq/=. pose proof Hall as Hall'.
  apply allocate_fold in Hall' as ([new1 Hnew1] & Hsv & Hcov); [|apply NoDup_shard_ids].
  apply reassign_fold in Hfold as [(new2 & Hnew2 & Hlen) Hsv2].
  pose proof (decided_app _ _ _ _ _ _ _ _ Hnew1) as H1. simpl in H1. subst new1.
  pose proof (decided_app _ _ _ _ _ _ _ _ Hnew2) as H2. subst ds2.
  exists a1, ds1, new2. split_and!; auto.
Qed.

Lemma replay_unassign_all et a l :
  NoDup l.*1 → (∀ k v, (k, v) ∈ l → a !! k = Some v) →
  replay et a ((fun '(s, n) => Unassign (ShardKey.new et s) n NoRoutableMembers) <$> l) =
    Some (foldl (fun a s => delete s a) a l.*1).
Proof.
  revert a. induction l as [|[s n] l IH]; intros a; [done|].
  intros [Hs Hnd]%NoDup_cons Hall. unfold replay. cbn [foldl fmap list_fmap mbind option_bind].
  unfold apply_decision at 2; simpl.
  rewrite decide_True, (Hall s n), decide_True by (done || by left). apply IH; [done|].
  intros k v Hkv. rewrite lookup_delete_ne; [apply Hall; by right|].
  intros ->. apply Hs, list_elem_of_fmap. by exists (k, v).
Qed.

Lemma lookup_delete_fold (l : list ShardId.t) a s :
  foldl (fun a s => delete s a) a l !! s = if decide (s ∈ l) then None else a !! s.
Proof.
  revert a. induction l as [|k l IH]; intros a; cbn [foldl].
  - rewrite decide_False; [done|apply not_elem_of_nil].
  - rewrite IH. destruct (decide (k = s)) as [->|Hk].
    + rewrite lookup_delete_eq, (decide_True (P := s ∈ s :: l)) by (by left).
      by case_decide.
    + rewrite lookup_delete_ne by done. apply decide_ext. set_solver.
Qed.

Lemma reconcile_empty c m c' p :
  ShardCoordinator.reconcile c m = (c', p) → routable_node_ids m = [] →
  ShardCoordinator.assignments c' = ∅ ∧
  replay (ShardCoordinator.entity_type c) (ShardCoordinator.assignments c)
    (ShardRebalancePlan.decisions p) = Some ∅ ∧
  (ShardRebalancePlan.decisions p = [] ↔ ShardCoordinator.assignments c = ∅).
Proof.
  unfold ShardCoordinator.reconcile. intros Hrec Hrt. rewrite Hrt in Hrec. simplify_eq/=.
  split_and!; [done| |].
  - unfold ShardCoordinator.shard_key. rewrite replay_unassign_all.
    + f_equal. apply map_eq. intros s. rewrite lookup_delete_fold, lookup_empty.
      case_decide as Hs; [done|]. fold (btree_keys (ShardCoordinator.assignments c)) in Hs.
      rewrite elem_of_btree_keys in Hs. by apply eq_None_not_Some.
    + apply NoDup_btree_keys.
    + intros k v. by rewrite elem_of_btree_entries.
  - split.
    + intros Hnil%fmap_nil_inv. rewrite <-(list_to_map_btree_entries (ShardCoordinator.assignments c)).
      by rewrite Hnil.
    + intros ->. by rewrite btree_entries_empty.
Qed.

(** The fields reconciliation never touches, and the revision it publishes. *)
Lemma reconcile_fields c m c' p :
  ShardCoordinator.reconcile c m = (c', p) →
  ShardCoordinator.entity_type c' = ShardCoordinator.entity_type c ∧
  ShardCoordinator.config c' = ShardCoordinator.config c ∧
  ShardCoordinator.allocation_strategy c' = ShardCoordinator.allocation_strategy c ∧
  ShardRebalancePlan.previous_revision p = ShardCoordinator.revision c ∧
  ShardRebalancePlan.new_revision p = ShardCoordinator.revision c' ∧
  ShardCoordinator.revision c' = ShardCoordinator.bump_revision_if_changed
    (ShardCoordinator.revision c) (ShardRebalancePlan.decisions p).
Proof.
  unfold ShardCoordinator.reconcile.
  destruct (match routable_node_ids m with [] => _ | _ => _ end). by intros [= <- <-].
Qed.

(** A decision leaves a trace: a plan is empty exactly when the table is unchanged. *)
Lemma decisions_nil_iff c m c' p :
  ShardCoordinator.reconcile c m = (c', p) →
  ShardRebalancePlan.decisions p = [] ↔
    ShardCoordinator.assignments c' = ShardCoordinator.assignments c.
Proof.
  intros Hrec. destruct (decide (routable_node_ids m = [])) as [Hnil|Hne].
  { destruct (reconcile_empty _ _ _ _ Hrec Hnil) as (-> & _ & ->). done. }
  destruct (reconcile_loops _ _ _ _ Hrec Hne)
    as (a1 & new1 & new2 & _ & H1 & Hsv & _ & H2 & _ & Hsv2 & ->).
  split.
  - intros [-> ->]%app_nil.
    pose proof (decided_replay _ _ _ _ _ _ _ _ H1) as Hr1.
    pose proof (decided_replay _ _ _ _ _ _ _ _ H2) as Hr2.
    unfold replay in Hr1, Hr2; simpl in *. congruence.
  - intros Heq. rewrite Heq in *.
    assert (new2 = []) as ->.
    { destruct new2 as [|d new2]; [done|].
      destruct (decided_shards _ _ _ _ _ _ _ _ H2 d) as [_ Hn]; [by left|].
      exfalso. apply Hn. symmetry. apply Hsv. by apply Hsv2. }
    pose proof (decided_replay _ _ _ _ _ _ _ _ H2) as Hr2. unfold replay in Hr2. simpl in Hr2.
    injection Hr2 as ->.
    destruct new1 as [|d new1]; [done|].
    destruct (decided_shards _ _ _ _ _ _ _ _ H1 d) as [_ Hn]; [by left|done].
Qed.

Lemma replay_plan c m c' p :
  ShardCoordinator.reconcile c m = (c', p) →
  replay (ShardCoordinator.entity_type c) (ShardCoordinator.assignments c)
    (ShardRebalancePlan.decisions p) = Some (ShardCoordinator.assignments c').
Proof.
  intros Hrec. destruct (decide (routable_node_ids m = [])) as [Hnil|Hne].
  { by destruct (reconcile_empty _ _ _ _ Hrec Hnil) as (-> & -> & _). }
  destruct (reconcile_loops _ _ _ _ Hrec Hne)
    as (a1 & new1 & new2 & _ & H1 & _ & _ & H2 & _ & _ & ->).
  erewrite replay_app; [|exact (decided_replay _ _ _ _ _ _ _ _ H1)].
  exact (decided_replay _ _ _ _ _ _ _ _ H2).
Qed.

(** A rebalance plan is an exact record: replaying its decisions, each of which
    must agree with the table it is applied to, turns the old assignments into the
    new ones; the plan is empty exactly when nothing changed, and the revision moves
    by one exactly when something did. *)
Theorem reconcile_plan_exact (c c' : ShardCoordinator.t) (m : ClusterMembership.t)
    (p : ShardRebalancePlan.t) :
  ShardCoordinator.reconcile c m = (c', p) →
  replay (ShardCoordinator.entity_type c) (ShardCoordinator.assignments c)
    (ShardRebalancePlan.decisions p) = Some (ShardCoordinator.assignments c') ∧
  (ShardRebalancePlan.is_empty p = true ↔
     ShardCoordinator.assignments c' = ShardCoordinator.assignments c) ∧
  ShardRebalancePlan.previous_revision p = ShardCoordinator.revision c ∧
  ShardRebalancePlan.new_revision p = ShardCoordinator.revision c' ∧
  ShardCoordinator.revision c' =
    (if decide (ShardCoordinator.assignments c' = ShardCoordinator.assignments c)
     then ShardCoordinator.revision c else add_u64 (ShardCoordinator.revision c) 1).
Proof.
  intros Hrec. pose proof (decisions_nil_iff _ _ _ _ Hrec) as Hnil.
  pose proof (reconcile_fields _ _ _ _ Hrec) as (_ & _ & _ & Hp & Hn & Hr).
  split_and!; [by apply (replay_plan _ m)| |done|done|].
  - rewrite <-Hnil. unfold ShardRebalancePlan.is_empty. by destruct (ShardRebalancePlan.decisions p).
  - rewrite Hr. unfold ShardCoordinator.bump_revision_if_changed.
    destruct (ShardRebalancePlan.decisions p); case_decide as Hd; rewrite <-Hnil in Hd; done.
Qed.

(** The owners after a reconciliation with some routable node. *)
Lemma reconcile_serves c m c' p s :
  ShardCoordinator.reconcile c m = (c', p) → routable_node_ids m ≠ [] →
  AllocatesRoutable (ShardCoordinator.allocation_strategy c) →
  in_range (ShardCoordinator.config c) s →
  served (routable_node_ids m) (ShardCoordinator.assignments c' !! s).
Proof.
  intros Hrec Hne Ha Hs.
  destruct (reconcile_loops _ _ _ _ Hrec Hne)
    as (a1 & new1 & new2 & _ & _ & _ & Hcov & _ & _ & Hsv2 & _).
  destruct (decide (ShardCoordinator.assignments c' !! s = a1 !! s)) as [->|Hd].
  - apply Hcov; [done|]. by apply elem_of_shard_ids.
  - by apply Hsv2.
Qed.

(** C6. While some node is routable, reconciliation gives every shard of the
    namespace, and so every entity, a routable owner - for any strategy that keeps
    the allocation contract, whatever its rebalance returns. *)
Theorem reconcile_every_shard_routable (c c' : ShardCoordinator.t) (m : ClusterMembership.t)
    (p : ShardRebalancePlan.t) :
  ShardCoordinator.reconcile c m = (c', p) → routable_node_ids m ≠ [] →
  AllocatesRoutable (ShardCoordinator.allocation_strategy c) →
  ShardingConfig.wf (ShardCoordinator.config c) →
  (∀ s, in_range (ShardCoordinator.config c) s →
     ∃ n, ShardCoordinator.owner_for_shard c' s = Ok n ∧ n ∈ routable_node_ids m) ∧
  (∀ eid, ∃ n, ShardCoordinator.owner_for_entity c' eid = Ok n ∧ n ∈ routable_node_ids m).
Proof.
  intros Hrec Hne Ha Hwf.
  pose proof (reconcile_fields _ _ _ _ Hrec) as (Het & Hcfg & _ & _ & _ & _).
  split.
  - intros s Hs. destruct (reconcile_serves _ _ _ _ s Hrec Hne Ha Hs) as (n & Hn & Hin).
    exists n. split; [|done]. unfold ShardCoordinator.owner_for_shard, ShardCoordinator.ensure_known_shard.
    rewrite Hcfg. assert (ShardingConfig.contains_shard (ShardCoordinator.config c) s = true) as ->.
    { apply contains_shard_in_range; [|done]. by destruct Hs. }
    simpl. by rewrite Hn.
  - intros eid. unfold ShardCoordinator.owner_for_entity, ShardCoordinator.shard_for_entity.
    rewrite Het, Hcfg.
    destruct (for_entity_value (ShardCoordinator.entity_type c) eid _ Hwf) as [_ Hr].
    destruct (reconcile_serves _ _ _ _ _ Hrec Hne Ha Hr) as (n & Hn & Hin).
    exists n. by rewrite Hn.
Qed.

(** The invariant of the allocation loop, and of the reconciliation. *)
Lemma allocate_all_wf c m a1 new1 s :
  ShardCoordinator.allocate_all c m (routable_node_ids m) = (a1, new1) →
  coordinator_wf c → is_Some (a1 !! s) →
  ShardingConfig.contains_shard (ShardCoordinator.config c) s = true.
Proof.
  intros Hall [_ Hrange] Hs. apply allocate_fold in Hall as ([new Hnew] & _ & _);
    [|apply NoDup_shard_ids].
  destruct (decide (s ∈ shard_ids (ShardingConfig.number_of_shards (ShardCoordinator.config c))))
    as [Hin|Hout].
  - apply elem_of_shard_ids in Hin. by apply contains_shard_in_range; [lia|].
  - rewrite (decided_frame _ _ _ _ _ _ _ _ Hnew s Hout) in Hs. by apply Hrange.
Qed.

Lemma reconcile_wf c m c' p :
  ShardCoordinator.reconcile c m = (c', p) → coordinator_wf c → coordinator_wf c'.
Proof.
  intros Hrec Hwf. destruct (reconcile_fields _ _ _ _ Hrec) as (_ & Hcfg & _ & _ & _ & _).
  split; rewrite Hcfg; [by destruct Hwf|]. intros s Hs.
  destruct (decide (routable_node_ids m = [])) as [Hnil|Hne].
  { destruct (reconcile_empty _ _ _ _ Hrec Hnil) as (Ha & _ & _).
    rewrite Ha, lookup_empty in Hs. by destruct Hs. }
  destruct (reconcile_loops _ _ _ _ Hrec Hne)
    as (a1 & new1 & new2 & Hall & _ & _ & _ & H2 & _ & _ & _).
  destruct (decide (ShardingConfig.contains_shard (ShardCoordinator.config c) s = true))
    as [Hc|Hc]; [done|].
  rewrite (decided_frame _ _ _ _ _ _ _ _ H2) in Hs by (by intros (_ & _ & ?)).
  by eapply allocate_all_wf.
Qed.

(** Reconciliation is sticky: a shard whose owner is still routable only
    changes hands when the strategy's rebalance names it, and then to a routable
    node; and it never invents ownership outside the namespace. *)
Theorem reconcile_sticky (c c' : ShardCoordinator.t) (m : ClusterMembership.t)
    (p : ShardRebalancePlan.t) :
  ShardCoordinator.reconcile c m = (c', p) → coordinator_wf c →
  coordinator_wf c' ∧
  ∀ s n, ShardCoordinator.assignments c !! s = Some n → n ∈ routable_node_ids m →
    ShardCoordinator.assignments c' !! s = Some n ∨
    let a1 := (ShardCoordinator.allocate_all c m (routable_node_ids m)).1 in
    ∃ r, r ∈ rebalance (ShardCoordinator.allocation_strategy c)
               (ShardRebalanceContext.new (ShardCoordinator.entity_type c)
                  (ShardCoordinator.config c) m (routable_node_ids m) a1) ∧
      ShardReassignment.shard_id r = s ∧ a1 !! s = Some n ∧
      served (routable_node_ids m) (ShardCoordinator.assignments c' !! s).
Proof.
  intros Hrec Hwf. split; [by eapply reconcile_wf|]. intros s n Hs Hn.
  assert (routable_node_ids m ≠ []) as Hne.
  { intros Hnil. rewrite Hnil in Hn. by apply not_elem_of_nil in Hn. }
  destruct (reconcile_loops _ _ _ _ Hrec Hne)
    as (a1 & new1 & new2 & Hall & H1 & Hsv & _ & H2 & _ & Hsv2 & _).
  assert (a1 !! s = Some n) as H1s.
  { rewrite Hsv, Hs; [done|]. rewrite Hs. by exists n. }
  rewrite Hall. simpl. set (rs := rebalance _ _) in *.
  destruct (decide (ShardCoordinator.assignments c' !! s = a1 !! s)) as [->|Hd]; [by left|right].
  destruct (decide (s ∈ ShardReassignment.shard_id <$> rs)) as [Hin|Hin].
  - apply list_elem_of_fmap in Hin as (r & -> & Hr). exists r. by split_and!; [| | |apply Hsv2].
  - exfalso. apply Hd, (decided_frame _ _ _ _ _ _ _ _ H2). intros (_ & (r & Hr & Hrs) & _).
    apply Hin, list_elem_of_fmap. by exists r.
Qed.

(** ** The modulo strategy: canonical placement *)

(** The moves the modulo strategy wants in a table. *)
Definition misplaced_moves (routable : list NodeId.t) (a : gmap ShardId.t NodeId.t) :
    list ShardReassignment.t :=
  omap (DeterministicModulo.misplaced_move routable) (btree_entries a).

(** [r] corrects a misplaced shard of [a]. *)
Definition corrects (routable : list NodeId.t) a (r : ShardReassignment.t) : Prop :=
  ∃ o, a !! ShardReassignment.shard_id r = Some o ∧ o ≠ ShardReassignment.to r ∧
    desired_owner routable (ShardReassignment.shard_id r) = Some (ShardReassignment.to r).

Lemma misplaced_move_Some routable s o r :
  DeterministicModulo.misplaced_move routable (s, o) = Some r ↔
  ShardReassignment.shard_id r = s ∧ o ≠ ShardReassignment.to r ∧
  desired_owner routable s = Some (ShardReassignment.to r).
Proof.
  unfold DeterministicModulo.misplaced_move. destruct r as [s' n]; simpl.
  destruct (desired_owner routable s) as [n'|]; [case_decide|]; naive_solver.
Qed.

Lemma elem_of_misplaced_moves routable a r :
  r ∈ misplaced_moves routable a ↔ corrects routable a r.
Proof.
  unfold misplaced_moves, corrects. rewrite list_elem_of_omap. split.
  - intros ([s o] & Hin%elem_of_btree_entries & (<- & ? & ?)%misplaced_move_Some). eauto.
  - intros (o & Hs & ? & ?). exists (ShardReassignment.shard_id r, o).
    rewrite elem_of_btree_entries, misplaced_move_Some. done.
Qed.

Lemma NoDup_misplaced_moves routable a :
  NoDup (ShardReassignment.shard_id <$> misplaced_moves routable a).
Proof.
  unfold misplaced_moves. pose proof (NoDup_btree_keys a) as Hnd. unfold btree_keys in Hnd.
  induction (btree_entries a) as [|[s o] l IH]; [constructor|].
  cbn [fmap list_fmap] in Hnd. apply NoDup_cons in Hnd as [Hs Hnd]. cbn [omap list_omap].
  destruct (DeterministicModulo.misplaced_move routable (s, o)) as [r|] eqn:Hr; [|by apply IH].
  apply misplaced_move_Some in Hr as (Hrs & _ & _). constructor; [|by apply IH].
  intros (r' & Heq & ([s' o'] & Hin & (Hs' & _ & _)%misplaced_move_Some)%list_elem_of_omap)%list_elem_of_fmap.
  apply Hs, list_elem_of_fmap. exists (s', o'). simpl. split; [congruence|done].
Qed.

Lemma misplaced_insert_new routable a s o :
  a !! s = None →
  length (misplaced_moves routable (<[s := o]> a)) =
    (match DeterministicModulo.misplaced_move routable (s, o) with Some _ => 1 | None => 0 end +
     length (misplaced_moves routable a))%nat.
Proof.
  intros Hs. unfold misplaced_moves. rewrite !btree_entries_perm, map_to_list_insert by done.
  cbn [omap list_omap]. by destruct (DeterministicModulo.misplaced_move routable (s, o)).
Qed.

(** Correcting a shard removes exactly one misplaced entry. *)
Lemma misplaced_correct routable a r :
  corrects routable a r →
  length (misplaced_moves routable a) =
    S (length (misplaced_moves routable
                 (<[ShardReassignment.shard_id r := ShardReassignment.to r]> a))).
Proof.
  intros (o & Hs & Hne & Hd). rewrite <-(insert_delete_id a _ o Hs) at 1.
  rewrite <-(insert_delete_eq a).
  rewrite !misplaced_insert_new by apply lookup_delete_eq.
  destruct (DeterministicModulo.misplaced_move routable (_, o)) as [r'|] eqn:H1.
  - destruct (DeterministicModulo.misplaced_move routable (_, ShardReassignment.to r))
      as [r''|] eqn:H2; [|done].
    apply misplaced_move_Some in H2 as (_ & Hn & Hd'). congruence.
  - exfalso. destruct (misplaced_move_Some routable (ShardReassignment.shard_id r) o r) as [_ H2].
    rewrite H1 in H2. by specialize (H2 ltac:(done)).
Qed.

(** The reassignment loop applies a list of corrections in full. *)
Lemma reassign_corrections c m routable rs a seen ds a' seen' ds' :
  foldl (ShardCoordinator.reassign_step c m routable) (a, seen, ds) rs = (a', seen', ds') →
  NoDup (ShardReassignment.shard_id <$> rs) →
  (∀ r, r ∈ rs → corrects routable a r ∧ (ShardReassignment.shard_id r ∉ seen) ∧
     ShardingConfig.contains_shard (ShardCoordinator.config c) (ShardReassignment.shard_id r) = true) →
  length (misplaced_moves routable a) =
    (length rs + length (misplaced_moves routable a'))%nat.
Proof.
  revert a seen ds. induction rs as [|r rs IH]; intros a seen ds; cbn [foldl].
  { by intros [= <- <- <-]. }
  cbn [fmap list_fmap]. intros Hfold [Hr Hnd]%NoDup_cons Hall.
  destruct (Hall r) as (Hcor & Hseen & Hcon); [by left|].
  rewrite (misplaced_correct _ _ _ Hcor). cbn [length Nat.add]. apply (f_equal S).
  destruct Hcor as (o & Ho & Hne & Hd).
  assert (ShardReassignment.to r ∈ routable) as Hto.
  { destruct (desired_owner_Some routable (ShardReassignment.shard_id r)) as (n & Hn & Hin);
      [by intros ->|]. rewrite Hd in Hn. by injection Hn as ->. }
  unfold ShardCoordinator.reassign_step at 2, is_routable_node in Hfold. cbv zeta in Hfold.
  rewrite Hcon, bool_decide_false, bool_decide_true, Ho, decide_True in Hfold by done.
  cbn [negb] in Hfold. eapply IH; [exact Hfold|done|].
  intros r' Hr'. destruct (Hall r') as ((o' & Ho' & ?) & ? & ?); [by right|].
  assert (ShardReassignment.shard_id r' ≠ ShardReassignment.shard_id r) as Hrr.
  { intros Heq. apply Hr. rewrite <-Heq. apply list_elem_of_fmap. by exists r'. }
  split_and!; [|set_solver|done]. exists o'. by rewrite lookup_insert_ne.
Qed.

Lemma misplaced_nil_canonical routable a s :
  misplaced_moves routable a = [] → served routable (a !! s) → a !! s = desired_owner routable s.
Proof.
  intros Hnil (n & Hs & Hin). rewrite Hs.
  destruct (desired_owner_Some routable s) as (n' & Hn' & _).
  { intros ->. by apply not_elem_of_nil in Hin. }
  rewrite Hn'. destruct (decide (n = n')) as [->|Hne]; [done|].
  assert (ShardReassignment.new s n' ∈ misplaced_moves routable a) as Hin'
    by (apply elem_of_misplaced_moves; by exists n).
  rewrite Hnil in Hin'. by apply not_elem_of_nil in Hin'.
Qed.

(** The moves a modulo strategy emits: all corrections, or a prefix of them. *)
Lemma modulo_rebalance_eq strat ctx :
  DeterministicModulo.rebalance strat ctx =
    let all := misplaced_moves (ShardRebalanceContext.routable_nodes ctx)
                 (ShardRebalanceContext.assignments ctx) in
    if decide (DeterministicModulo.max_simultaneous_rebalance strat = 0%nat) then all
    else take (DeterministicModulo.max_simultaneous_rebalance strat) all.
Proof. done. Qed.

Lemma modulo_rebalance_NoDup strat ctx :
  NoDup (ShardReassignment.shard_id <$> DeterministicModulo.rebalance strat ctx).
Proof.
  rewrite modulo_rebalance_eq. cbv zeta. case_decide; [apply NoDup_misplaced_moves|].
  rewrite fmap_take. eapply sublist_NoDup; [apply NoDup_misplaced_moves|apply sublist_take].
Qed.

Lemma modulo_rebalance_corrects strat ctx r :
  r ∈ DeterministicModulo.rebalance strat ctx →
  corrects (ShardRebalanceContext.routable_nodes ctx) (ShardRebalanceContext.assignments ctx) r.
Proof.
  rewrite modulo_rebalance_eq, <-elem_of_misplaced_moves. cbv zeta.
  case_decide; [done|]. apply subseteq_take.
Qed.

Section modulo.
Context (c c' : ShardCoordinator.t) (m : ClusterMembership.t) (p : ShardRebalancePlan.t).
Context (strat : DeterministicModulo.t).
Hypothesis Hstrat : ShardCoordinator.allocation_strategy c = DeterministicModulo.strategy strat.
Hypothesis Hwf : coordinator_wf c.
Hypothesis Hne : routable_node_ids m ≠ [].
Hypothesis Hrec : ShardCoordinator.reconcile c m = (c', p).

(** One reconciliation removes as many misplaced shards as the cap allows. *)
Lemma modulo_reconcile_progress :
  let routable := routable_node_ids m in
  let a1 := (ShardCoordinator.allocate_all c m routable).1 in
  let k := DeterministicModulo.max_simultaneous_rebalance strat in
  length (misplaced_moves routable (ShardCoordinator.assignments c')) =
    (if decide (k = 0)%nat then 0 else length (misplaced_moves routable a1) - k)%nat.
Proof.
  cbv zeta. set (routable := routable_node_ids m) in *.
  pose proof Hrec as Hrec'. rewrite reconcile_nonempty in Hrec' by done. fold routable in Hrec'.
  destruct (ShardCoordinator.allocate_all c m routable) as [a1 ds1] eqn:Hall. simpl.
  unfold ShardCoordinator.reassign_all in Hrec'. rewrite Hstrat in Hrec'.
  destruct (foldl _ _ (rebalance _ _)) as [[a2 seen2] ds2] eqn:Hfold. simplify_eq/=.
  apply reassign_corrections in Hfold; [|apply modulo_rebalance_NoDup|].
  - rewrite modulo_rebalance_eq in Hfold. cbv zeta in Hfold. simpl in Hfold.
    destruct (decide (DeterministicModulo.max_simultaneous_rebalance strat = 0%nat));
      [lia|]. rewrite length_take in Hfold. lia.
  - intros r Hr. apply modulo_rebalance_corrects in Hr as Hc. simpl in Hc.
    split_and!; [done|set_solver|]. destruct Hc as (o & Ho & _).
    eapply allocate_all_wf; [exact Hall|done|by rewrite Ho].
Qed.

Lemma modulo_next :
  coordinator_wf c' ∧ ShardCoordinator.config c' = ShardCoordinator.config c ∧
  ShardCoordinator.allocation_strategy c' = DeterministicModulo.strategy strat ∧
  ∀ s, in_range (ShardCoordinator.config c') s →
    served (routable_node_ids m) (ShardCoordinator.assignments c' !! s).
Proof.
  pose proof (reconcile_fields _ _ _ _ Hrec) as (_ & Hcfg & Hs & _ & _ & _).
  split_and!; [by eapply reconcile_wf|done|congruence|].
  rewrite Hcfg. intros s. eapply reconcile_serves; [done|done|]. rewrite Hstrat. apply _.
Qed.

End modulo.

(** Once every shard is served, the allocation loop has nothing to do. *)
Lemma allocate_all_served c m :
  (∀ s, in_range (ShardCoordinator.config c) s →
     served (routable_node_ids m) (ShardCoordinator.assignments c !! s)) →
  ShardCoordinator.allocate_all c m (routable_node_ids m) = (ShardCoordinator.assignments c, []).
Proof.
  intros Hs. unfold ShardCoordinator.allocate_all.
  assert (∀ s, s ∈ shard_ids (ShardingConfig.number_of_shards (ShardCoordinator.config c)) →
    served (routable_node_ids m) (ShardCoordinator.assignments c !! s)) as Hl.
  { intros s Hin%elem_of_shard_ids. by apply Hs. }
  induction (shard_ids _) as [|s l IH]; [done|]. cbn [foldl].
  destruct (ShardCoordinator.allocate_step c m _ _ s) as [a1 ds1] eqn:Hstep.
  apply allocate_step_spec in Hstep as (_ & Hkeep & _).
  destruct (Hkeep (Hl s ltac:(by left))) as [-> ->]. apply IH. intros s' Hs'. apply Hl. by right.
Qed.

(** A table with no misplaced shard and every shard served is a fixed point. *)
Lemma modulo_settled c m strat c' p :
  ShardCoordinator.allocation_strategy c = DeterministicModulo.strategy strat →
  routable_node_ids m ≠ [] →
  (∀ s, in_range (ShardCoordinator.config c) s →
     served (routable_node_ids m) (ShardCoordinator.assignments c !! s)) →
  misplaced_moves (routable_node_ids m) (ShardCoordinator.assignments c) = [] →
  ShardCoordinator.reconcile c m = (c', p) →
  c' = c ∧ ShardRebalancePlan.decisions p = [].
Proof.
  intros Hstrat Hne Hs Hmis Hrec. rewrite reconcile_nonempty in Hrec by done.
  rewrite allocate_all_served in Hrec by done. unfold ShardCoordinator.reassign_all in Hrec.
  rewrite Hstrat in Hrec. simpl in Hrec. rewrite modulo_rebalance_eq in Hrec. simpl in Hrec.
  rewrite Hmis in Hrec.
  replace (if decide _ then _ else _) with (@nil ShardReassignment.t) in Hrec
    by (by case_decide; rewrite ?take_nil).
  simpl in Hrec. simplify_eq/=. split; [|done]. destruct c; simpl in *. congruence.
Qed.

(** With no cap, one reconciliation settles the table. *)
Lemma modulo_unbounded_settled c c' m p :
  ShardCoordinator.allocation_strategy c = DeterministicModulo.strategy DeterministicModulo.new →
  coordinator_wf c → routable_node_ids m ≠ [] → ShardCoordinator.reconcile c m = (c', p) →
  misplaced_moves (routable_node_ids m) (ShardCoordinator.assignments c') = [].
Proof.
  intros Hstrat Hwf Hne Hrec. apply nil_length_inv.
  pose proof (modulo_reconcile_progress _ _ _ _ _ Hstrat Hwf Hne Hrec) as Hmis.
  cbv zeta in Hmis. by rewrite decide_True in Hmis.
Qed.

Lemma modulo_reconcile_twice c c' m p :
  ShardCoordinator.allocation_strategy c = DeterministicModulo.strategy DeterministicModulo.new →
  coordinator_wf c → routable_node_ids m ≠ [] → ShardCoordinator.reconcile c m = (c', p) →
  ∃ p', ShardCoordinator.reconcile c' m = (c', p') ∧ ShardRebalancePlan.is_empty p' = true.
Proof.
  intros Hstrat Hwf Hne Hrec.
  pose proof (modulo_unbounded_settled _ _ _ _ Hstrat Hwf Hne Hrec) as Hmis.
  destruct (modulo_next _ _ _ _ _ Hstrat Hwf Hne Hrec) as (_ & _ & Hstrat' & Hs).
  destruct (ShardCoordinator.reconcile c' m) as [c'' p'] eqn:Hrec'.
  destruct (modulo_settled _ _ _ _ _ Hstrat' Hne Hs Hmis Hrec') as [-> Hd].
  exists p'. split; [done|]. unfold ShardRebalancePlan.is_empty. by rewrite Hd.
Qed.

(** With the default strategy the placement is canonical: whatever the table
    was before, after one reconciliation every shard is at the node the modulo
    rule names for the routable nodes, and reconciling again against the same
    membership changes nothing, not even the revision. *)
Theorem modulo_reconcile_canonical (c c' : ShardCoordinator.t) (m : ClusterMembership.t)
    (p : ShardRebalancePlan.t) :
  ShardCoordinator.allocation_strategy c = DeterministicModulo.strategy DeterministicModulo.new →
  coordinator_wf c → routable_node_ids m ≠ [] →
  ShardCoordinator.reconcile c m = (c', p) →
  (∀ s, in_range (ShardCoordinator.config c) s →
     ShardCoordinator.assignments c' !! s = desired_owner (routable_node_ids m) s) ∧
  ∃ p', ShardCoordinator.reconcile c' m = (c', p') ∧ ShardRebalancePlan.is_empty p' = true.
Proof.
  intros Hstrat Hwf Hne Hrec. split; [|by eapply modulo_reconcile_twice].
  destruct (modulo_next _ _ _ _ _ Hstrat Hwf Hne Hrec) as (_ & Hcfg & _ & Hs).
  intros s Hr. apply misplaced_nil_canonical; [by eapply modulo_unbounded_settled|].
  apply Hs. by rewrite Hcfg.
Qed.

Definition reconcile_n (j : nat) (m : ClusterMembership.t) (c : ShardCoordinator.t) :=
  Nat.iter j (fun c => (ShardCoordinator.reconcile c m).1) c.

(** Each later pass of a capped strategy removes [k] more misplaced shards. *)
Lemma capped_progress c m k j :
  (0 < k)%nat →
  ShardCoordinator.allocation_strategy c = DeterministicModulo.strategy (DeterministicModulo.mk k) →
  coordinator_wf c → routable_node_ids m ≠ [] →
  (∀ s, in_range (ShardCoordinator.config c) s →
     served (routable_node_ids m) (ShardCoordinator.assignments c !! s)) →
  let cj := reconcile_n j m c in
  ShardCoordinator.config cj = ShardCoordinator.config c ∧
  ShardCoordinator.allocation_strategy cj = DeterministicModulo.strategy (DeterministicModulo.mk k) ∧
  coordinator_wf cj ∧
  (∀ s, in_range (ShardCoordinator.config c) s →
     served (routable_node_ids m) (ShardCoordinator.assignments cj !! s)) ∧
  length (misplaced_moves (routable_node_ids m) (ShardCoordinator.assignments cj)) =
    (length (misplaced_moves (routable_node_ids m) (ShardCoordinator.assignments c)) - j * k)%nat.
Proof.
  intros Hk Hstrat Hwf Hne Hs. induction j as [|j IH]; simpl.
  { split_and!; auto. lia. }
  cbv zeta in IH. fold (reconcile_n j m c) in *.
  destruct IH as (Hcfg & Hst & Hwfj & Hsj & Hmis).
  destruct (ShardCoordinator.reconcile (reconcile_n j m c) m) as [c' p] eqn:Hrec. simpl.
  destruct (modulo_next _ _ _ _ _ Hst Hwfj Hne Hrec) as (Hwf' & Hcfg' & Hst' & Hs').
  pose proof (modulo_reconcile_progress _ _ _ _ _ Hst Hwfj Hne Hrec) as Hp.
  cbv zeta in Hp. rewrite allocate_all_served in Hp by (rewrite Hcfg; exact Hsj).
  simpl in Hp. rewrite decide_False in Hp by lia.
  split_and!; [congruence|done|done| |lia].
  intros s Hr. apply Hs'. by rewrite Hcfg', Hcfg.
Qed.

(** A capped modulo strategy converges to the same canonical placement: after
    the first reconciliation, [j] more passes are enough once [j] times the cap
    reaches the number of shards that are still misplaced. *)
Theorem capped_modulo_converges (c : ShardCoordinator.t) (m : ClusterMembership.t) (k j : nat) :
  (0 < k)%nat →
  ShardCoordinator.allocation_strategy c =
    DeterministicModulo.strategy
      (DeterministicModulo.with_max_simultaneous_rebalance DeterministicModulo.new k) →
  coordinator_wf c → routable_node_ids m ≠ [] →
  (length (misplaced_moves (routable_node_ids m)
             (ShardCoordinator.assignments (ShardCoordinator.reconcile c m).1)) <= j * k)%nat →
  ∀ s, in_range (ShardCoordinator.config c) s →
    ShardCoordinator.assignments (reconcile_n j m (ShardCoordinator.reconcile c m).1) !! s =
      desired_owner (routable_node_ids m) s.
Proof.
  intros Hk Hstrat Hwf Hne Hj s Hs.
  destruct (ShardCoordinator.reconcile c m) as [c1 p] eqn:Hrec. simpl in *.
  destruct (modulo_next _ _ _ _ _ Hstrat Hwf Hne Hrec) as (Hwf1 & Hcfg1 & Hst1 & Hs1).
  destruct (capped_progress c1 m k j Hk Hst1 Hwf1 Hne Hs1) as (_ & _ & _ & Hsj & Hmis).
  apply misplaced_nil_canonical; [apply nil_length_inv; lia|].
  apply Hsj. by rewrite Hcfg1.
Qed.

(** ** Snapshots *)

Lemma load_assignments_ok et cfg shards acc l :
  (∀ s n, (s, n) ∈ l → ShardingConfig.contains_shard cfg s = true) → NoDup l.*1 →
  ShardCoordinator.load_assignments et cfg shards acc
    ((fun '(s, n) => ShardAssignment.new (ShardKey.new et s) n) <$> l) =
    Ok (list_to_map l ∪ acc).
Proof.
  revert acc. induction l as [|[s n] l IH]; intros acc Hall; simpl.
  { intros _. by rewrite (left_id_L ∅ (∪)). }
  intros [Hs Hnd]%NoDup_cons.
  rewrite decide_False by (intros Hn; by apply Hn).
  rewrite (Hall s n) by (by left). simpl. rewrite IH; [|intros s' n' ?; eapply Hall; by right|done].
  f_equal. rewrite <-insert_union_r by (by apply not_elem_of_list_to_map).
  by rewrite insert_union_l.
Qed.

(** A coordinator survives a restart: restoring the snapshot of a well-formed
    coordinator under the same entity type, configuration and strategy gives that
    coordinator back; a snapshot for another entity type or shard count, and one
    that names a shard outside the namespace, is refused. *)
Theorem snapshot_roundtrip (c : ShardCoordinator.t) :
  coordinator_wf c →
  let snap := ShardCoordinator.snapshot c in
  let restore et cfg sn := ShardCoordinator.from_snapshot_with_allocation_strategy_ref
                             et cfg sn (ShardCoordinator.allocation_strategy c) in
  restore (ShardCoordinator.entity_type c) (ShardCoordinator.config c) snap = Ok c ∧
  (∀ et cfg, (et, ShardingConfig.number_of_shards cfg) ≠
       (ShardCoordinator.entity_type c,
        ShardingConfig.number_of_shards (ShardCoordinator.config c)) →
     is_ok (restore et cfg snap) = false) ∧
  (∀ s n, ShardingConfig.contains_shard (ShardCoordinator.config c) s = false →
     restore (ShardCoordinator.entity_type c) (ShardCoordinator.config c)
       (ShardOwnershipSnapshot.mk (ShardOwnershipSnapshot.revision snap)
          (ShardOwnershipSnapshot.entity_type snap)
          (ShardOwnershipSnapshot.number_of_shards snap)
          (ShardAssignment.new (ShardCoordinator.shard_key c s) n ::
             ShardOwnershipSnapshot.assignments snap)) =
     Err (UnknownShard s (ShardingConfig.number_of_shards (ShardCoordinator.config c)))).
Proof.
  intros [_ Hrange]. cbv zeta.
  unfold ShardCoordinator.from_snapshot_with_allocation_strategy_ref, ShardCoordinator.snapshot.
  simpl. split_and!.
  - rewrite decide_False by naive_solver. unfold ShardCoordinator.shard_key.
    rewrite load_assignments_ok.
    + simpl. rewrite (right_id_L ∅ (∪)), list_to_map_btree_entries. by destruct c.
    + intros s n Hin%elem_of_btree_entries. apply Hrange. by rewrite Hin.
    + apply NoDup_btree_keys.
  - intros et cfg Hne. rewrite decide_True; [done|].
    destruct (decide (ShardCoordinator.entity_type c = et)); [right|by left]. congruence.
  - intros s n Hc. rewrite decide_False by naive_solver.
    simpl. rewrite decide_False by (intros Hn; by apply Hn). by rewrite Hc.
Qed.

(** ** Concrete runs *)

(** Four shards of carts, first on node [a] alone, then with [b] up as well. *)
Definition carts : EntityType.t := EntityType.new "cart".
Definition alone : ClusterMembership.t := run_up.
Definition joined : ClusterMembership.t :=
  (ClusterMembership.mark_up run_discovered (ClusterNode.id node_b) 3000).1.

Definition fresh_coordinator (strategy : ShardAllocationStrategy) : ShardCoordinator.t :=
  ShardCoordinator.with_allocation_strategy_ref carts (ShardingConfig.mk 4) strategy.
Definition modulo_strategy : ShardAllocationStrategy :=
  DeterministicModulo.strategy DeterministicModulo.new.
Definition capped_strategy : ShardAllocationStrategy :=
  DeterministicModulo.strategy
    (DeterministicModulo.with_max_simultaneous_rebalance DeterministicModulo.new 1).
Definition placed_alone (strategy : ShardAllocationStrategy) : ShardCoordinator.t :=
  (ShardCoordinator.reconcile (fresh_coordinator strategy) alone).1.

(** [coordinator_wf] on a concrete table. *)
Lemma coordinator_wf_check (c : ShardCoordinator.t) :
  ShardingConfig.wf (ShardCoordinator.config c) →
  bool_decide (map_Forall (fun s _ => ShardingConfig.contains_shard (ShardCoordinator.config c) s = true)
    (ShardCoordinator.assignments c)) = true →
  coordinator_wf c.
Proof. intros Hwf Hall%bool_decide_eq_true. split; [done|]. intros s [n Hn]. by apply (Hall s n). Qed.

Lemma placed_alone_wf : coordinator_wf (placed_alone modulo_strategy).
Proof. apply coordinator_wf_check; [vm_compute; split; congruence|vm_compute; reflexivity]. Qed.

(** When [b] joins, the plan moves two of the four shards. *)
Lemma reconcile_plan_exact_witness :
  let c := placed_alone modulo_strategy in
  let (c', p) := ShardCoordinator.reconcile c joined in
  length (ShardRebalancePlan.decisions p) = 2%nat ∧
  replay carts (ShardCoordinator.assignments c) (ShardRebalancePlan.decisions p) =
    Some (ShardCoordinator.assignments c') ∧
  ShardCoordinator.revision c' = ShardRebalancePlan.new_revision p.
Proof.
  cbv zeta. destruct (ShardCoordinator.reconcile (placed_alone modulo_strategy) joined) as [c' p] eqn:Hrec.
  destruct (reconcile_plan_exact _ _ _ _ Hrec) as (Hplay & _ & _ & Hrev & _).
  split; [|exact (conj Hplay (eq_sym Hrev))].
  replace p with (ShardCoordinator.reconcile (placed_alone modulo_strategy) joined).2 by (by rewrite Hrec).
  vm_compute. reflexivity.
Defined.

Lemma reconcile_every_shard_routable_witness :
  let c' := (ShardCoordinator.reconcile (placed_alone modulo_strategy) joined).1 in
  ∃ n, ShardCoordinator.owner_for_entity c' (EntityId.new "42") = Ok n ∧ n ∈ routable_node_ids joined.
Proof.
  apply (reconcile_every_shard_routable (placed_alone modulo_strategy)
           (ShardCoordinator.reconcile (placed_alone modulo_strategy) joined).1 joined
           (ShardCoordinator.reconcile (placed_alone modulo_strategy) joined).2).
  - apply surjective_pairing.
  - vm_compute. discriminate.
  - apply _.
  - vm_compute. split; congruence.
Defined.

(** Adding [b] moves no shard off [a] but by the strategy's own choice. *)
Lemma reconcile_sticky_witness :
  let c' := (ShardCoordinator.reconcile (placed_alone capped_strategy) joined).1 in
  coordinator_wf c' ∧
  ShardCoordinator.assignments c' !! ShardId.new 2 = Some (ClusterNode.id node_a).
Proof.
  destruct (reconcile_sticky (placed_alone capped_strategy)
              (ShardCoordinator.reconcile (placed_alone capped_strategy) joined).1 joined
              (ShardCoordinator.reconcile (placed_alone capped_strategy) joined).2) as [Hwf Hkeep].
  - apply surjective_pairing.
  - apply coordinator_wf_check; [vm_compute; split; congruence|vm_compute; reflexivity].
  - split; [exact Hwf|].
    destruct (Hkeep (ShardId.new 2) (ClusterNode.id node_a)) as [Hk|_];
      [vm_compute; reflexivity|vm_compute; by left|exact Hk|vm_compute; reflexivity].
Defined.

Lemma modulo_reconcile_canonical_witness :
  ShardCoordinator.assignments (ShardCoordinator.reconcile (placed_alone modulo_strategy) joined).1
    !! ShardId.new 1 = Some (ClusterNode.id node_b).
Proof.
  destruct (modulo_reconcile_canonical (placed_alone modulo_strategy)
              (ShardCoordinator.reconcile (placed_alone modulo_strategy) joined).1 joined
              (ShardCoordinator.reconcile (placed_alone modulo_strategy) joined).2) as [Hcanon _].
  - reflexivity.
  - apply placed_alone_wf.
  - vm_compute. discriminate.
  - apply surjective_pairing.
  - rewrite Hcanon by (vm_compute; split; congruence). vm_compute. reflexivity.
Defined.

(** One move per pass: two passes are enough for the shards [b] takes over. *)
Lemma capped_modulo_converges_witness :
  let c := placed_alone capped_strategy in
  ShardCoordinator.assignments (reconcile_n 2 joined (ShardCoordinator.reconcile c joined).1)
    !! ShardId.new 3 = desired_owner (routable_node_ids joined) (ShardId.new 3).
Proof.
  cbv zeta. apply (capped_modulo_converges (placed_alone capped_strategy) joined 1 2).
  - lia.
  - reflexivity.
  - apply coordinator_wf_check; [vm_compute; split; congruence|vm_compute; reflexivity].
  - vm_compute. discriminate.
  - vm_compute. lia.
  - vm_compute. split; congruence.
Defined.

Lemma snapshot_roundtrip_witness :
  let c := placed_alone modulo_strategy in
  ShardCoordinator.from_snapshot carts (ShardingConfig.mk 4) (ShardCoordinator.snapshot c) = Ok c.
Proof. apply (snapshot_roundtrip (placed_alone modulo_strategy) placed_alone_wf). Defined.
