(* ===== verification/Lease.v ===== *)
(** * Coordinator leadership leases: [rakka-sharding/src/coordinator_lease.rs]

    The in-memory lease backend: who may act as the coordinator of an entity type,
    until when, and under which fencing token. *)

From S2P Require Import Prelude Node Identity.

(** ** Data *)

Module LeaseToken.

Record t := new {
  namespace : string;
  entity_type : EntityType.t;
  holder_node : NodeId.t;
  fencing_token : Z;
  expires_at_millis : Z;
}.

#[global] Instance eq_dec : EqDecision t.
Proof. solve_decision. Defined.

Definition is_expired_at (self : t) (now_millis : Z) : bool :=
  expires_at_millis self <=? now_millis.

End LeaseToken.

Module LeaseKey.

Record t := new { namespace : string; entity_type : EntityType.t }.

#[global] Instance eq_dec : EqDecision t.
Proof. solve_decision. Defined.

Definition as_pair (k : t) : string * EntityType.t := (namespace k, entity_type k).

#[global] Instance countable : Countable t :=
  inj_countable' as_pair (fun p => new p.1 p.2) ltac:(by intros []).

End LeaseKey.

Module LeaseRecord.

Record t := mk { holder_node : NodeId.t; fencing_token : Z; expires_at_millis : Z }.

#[global] Instance eq_dec : EqDecision t.
Proof. solve_decision. Defined.

End LeaseRecord.

(** [lease_lost]. *)
Definition lease_lost (lease : string) (token : LeaseToken.t)
    (actual_holder_node : option NodeId.t) (actual_fencing_token : option Z) : ShardingError :=
  CoordinatorLeaseLost lease (LeaseToken.entity_type token) (LeaseToken.holder_node token)
    (LeaseToken.fencing_token token) actual_holder_node actual_fencing_token.

(** ** The lease interface

    The trait [ShardCoordinatorLease] over a backend state [L]; the clock reading the
    backend takes is an input. *)

Record ShardCoordinatorLease (L : Type) := {
  lease_name : string;
  acquire : L → Z → EntityType.t → NodeId.t → L * ShardingResult LeaseToken.t;
  renew : L → Z → LeaseToken.t → L * ShardingResult unit;
  release : L → LeaseToken.t → L * ShardingResult unit;
}.
Arguments lease_name {L}.
Arguments acquire {L}.
Arguments renew {L}.
Arguments release {L}.

(** ** The in-memory backend

    The records are shared by the clones of a backend (an [Arc<Mutex<_>>]), each of
    which has its own namespace and lease duration: the records are the state, the
    backend a read-only argument, and the clock reading an input. *)

Module InMemoryLease.

Abbreviation records := (gmap LeaseKey.t LeaseRecord.t).

Record t := mk { namespace : string; lease_duration : Z }.

Definition with_namespace (namespace : string) : t := mk namespace 15000.
Definition new : t := with_namespace "default".

Definition with_lease_duration (self : t) (lease_duration : Z) : t :=
  mk (namespace self) lease_duration.

Definition lease_name : string := "in-memory".

Definition token_from_record (self : t) (entity_type : EntityType.t) (record : LeaseRecord.t) :
    LeaseToken.t :=
  LeaseToken.new (namespace self) entity_type (LeaseRecord.holder_node record)
    (LeaseRecord.fencing_token record) (LeaseRecord.expires_at_millis record).

Definition token (self : t) (rs : records) (entity_type : EntityType.t) : option LeaseToken.t :=
  token_from_record self entity_type <$> rs !! LeaseKey.new (namespace self) entity_type.

Definition next_expiry (self : t) (now_millis : Z) : ShardingResult Z :=
  if lease_duration self <=? u64_max then Ok (saturating_add_u64 now_millis (lease_duration self))
  else Err (CoordinatorLease "in-memory" "lease duration exceeds u64 milliseconds").

Definition acquire (self : t) (now_millis : Z) (rs : records)
    (entity_type : EntityType.t) (holder : NodeId.t) : records * ShardingResult LeaseToken.t :=
  match next_expiry self now_millis with
  | Err e => (rs, Err e)
  | Ok expires_at_millis =>
      let key := LeaseKey.new (namespace self) entity_type in
      match rs !! key with
      | Some record =>
          if decide (LeaseRecord.holder_node record = holder ∨
                     LeaseRecord.expires_at_millis record <= now_millis) then
            let fencing_token :=
              if decide (LeaseRecord.holder_node record ≠ holder)
              then saturating_add_u64 (LeaseRecord.fencing_token record) 1
              else LeaseRecord.fencing_token record in
            let record := LeaseRecord.mk holder fencing_token expires_at_millis in
            (<[key := record]> rs, Ok (token_from_record self entity_type record))
          else
            (rs, Err (CoordinatorLeaseRejected lease_name entity_type holder
                        (Some (LeaseRecord.holder_node record))
                        (Some (LeaseRecord.expires_at_millis record))))
      | None =>
          let record := LeaseRecord.mk holder 1 expires_at_millis in
          (<[key := record]> rs, Ok (token_from_record self entity_type record))
      end
  end.

Definition renew (self : t) (now_millis : Z) (rs : records) (token : LeaseToken.t) :
    records * ShardingResult unit :=
  match next_expiry self now_millis with
  | Err e => (rs, Err e)
  | Ok next_expiry =>
      let key := LeaseKey.new (LeaseToken.namespace token) (LeaseToken.entity_type token) in
      match rs !! key with
      | None => (rs, Err (lease_lost lease_name token None None))
      | Some record =>
          if decide (LeaseRecord.holder_node record ≠ LeaseToken.holder_node token ∨
                     LeaseRecord.fencing_token record ≠ LeaseToken.fencing_token token ∨
                     LeaseRecord.expires_at_millis record <= now_millis) then
            (rs, Err (lease_lost lease_name token (Some (LeaseRecord.holder_node record))
                        (Some (LeaseRecord.fencing_token record))))
          else
            (<[key := LeaseRecord.mk (LeaseRecord.holder_node record)
                        (LeaseRecord.fencing_token record) next_expiry]> rs, Ok tt)
      end
  end.

Definition release (rs : records) (token : LeaseToken.t) : records * ShardingResult unit :=
  let key := LeaseKey.new (LeaseToken.namespace token) (LeaseToken.entity_type token) in
  match rs !! key with
  | Some record =>
      if decide (LeaseRecord.holder_node record = LeaseToken.holder_node token ∧
                 LeaseRecord.fencing_token record = LeaseToken.fencing_token token) then
        (delete key rs, Ok tt)
      else
        (rs, Err (lease_lost lease_name token (Some (LeaseRecord.holder_node record))
                    (Some (LeaseRecord.fencing_token record))))
  | None => (rs, Ok tt)
  end.

Definition lease (self : t) : ShardCoordinatorLease records := {|
  Lease.lease_name := lease_name;
  Lease.acquire := fun rs now et holder => acquire self now rs et holder;
  Lease.renew := fun rs now token => renew self now rs token;
  Lease.release := release;
|}.

End InMemoryLease.

(** ** Runs

    Any number of backends sharing the records, at the clock readings they took. *)

Inductive lease_op :=
| OpAcquire (backend : InMemoryLease.t) (entity_type : EntityType.t) (holder : NodeId.t)
| OpRenew (backend : InMemoryLease.t) (token : LeaseToken.t)
| OpRelease (token : LeaseToken.t).

Definition run_op (rs : InMemoryLease.records) (step : Z * lease_op) : InMemoryLease.records :=
  match step.2 with
  | OpAcquire backend entity_type holder =>
      (InMemoryLease.acquire backend step.1 rs entity_type holder).1
  | OpRenew backend token => (InMemoryLease.renew backend step.1 rs token).1
  | OpRelease token => (InMemoryLease.release rs token).1
  end.

Definition run_ops (rs : InMemoryLease.records) (steps : list (Z * lease_op)) :
    InMemoryLease.records :=
  foldl run_op rs steps.

Definition token_key (token : LeaseToken.t) : LeaseKey.t :=
  LeaseKey.new (LeaseToken.namespace token) (LeaseToken.entity_type token).

(** The operation is not one of [holder] under [fencing]: it acquires for another
    node, or presents another node's or another generation's token. *)
Definition foreign (key : LeaseKey.t) (holder : NodeId.t) (fencing : Z) (op : lease_op) : Prop :=
  match op with
  | OpAcquire backend entity_type h =>
      LeaseKey.new (InMemoryLease.namespace backend) entity_type = key → h ≠ holder
  | OpRenew _ token | OpRelease token =>
      token_key token = key →
      (LeaseToken.holder_node token, LeaseToken.fencing_token token) ≠ (holder, fencing)
  end.

(** The operation does not free [key]. *)
Definition keeps (key : LeaseKey.t) (op : lease_op) : Prop :=
  match op with OpRelease token => token_key token ≠ key | _ => True end.

Implicit Types (rs : InMemoryLease.records) (key : LeaseKey.t).

(** What one operation does to the record of a key. *)
Lemma run_op_other rs key now op r :
  rs !! key = Some r → now < LeaseRecord.expires_at_millis r →
  foreign key (LeaseRecord.holder_node r) (LeaseRecord.fencing_token r) op →
  run_op rs (now, op) !! key = Some r.
Proof.
  intros Hr Hnow Hf. unfold run_op; destruct op as [b et h|b tok|tok]; simpl in *.
  - unfold InMemoryLease.acquire. destruct (InMemoryLease.next_expiry b now); [|done].
    destruct (decide (LeaseKey.new (InMemoryLease.namespace b) et = key)) as [Hk|Hk].
    + rewrite Hk, Hr. rewrite decide_False; [done|]. intros [Hh|Hx]; [|lia].
      exact (Hf Hk (eq_sym Hh)).
    + destruct (rs !! LeaseKey.new _ _); [case_decide|];
        simpl; rewrite ?lookup_insert_ne by done; done.
  - unfold InMemoryLease.renew. destruct (InMemoryLease.next_expiry b now); [|done].
    fold (token_key tok). destruct (decide (token_key tok = key)) as [Hk|Hk].
    + rewrite Hk, Hr. rewrite decide_True; [done|]. specialize (Hf Hk).
      destruct (decide (LeaseRecord.holder_node r = LeaseToken.holder_node tok)); [|by left].
      right; left. congruence.
    + destruct (rs !! token_key tok); [case_decide|];
        simpl; rewrite ?lookup_insert_ne by done; done.
  - unfold InMemoryLease.release. fold (token_key tok).
    destruct (decide (token_key tok = key)) as [Hk|Hk].
    + rewrite Hk, Hr. rewrite decide_False; [done|]. intros [??]. apply (Hf Hk). congruence.
    + destruct (rs !! token_key tok); [case_decide|];
        simpl; rewrite ?lookup_delete_ne by done; done.
Qed.

(** C4. Mutual exclusion: while a node's lease has not expired, nothing the other
    nodes do - acquiring, renewing or releasing with any token but its own - takes
    the lease away, and their attempts to acquire it are rejected with the name of
    the holder. *)
Theorem lease_mutual_exclusion (rs : InMemoryLease.records) (key : LeaseKey.t)
    (r : LeaseRecord.t) (steps : list (Z * lease_op)) :
  rs !! key = Some r →
  Forall (fun step => step.1 < LeaseRecord.expires_at_millis r ∧
            foreign key (LeaseRecord.holder_node r) (LeaseRecord.fencing_token r) step.2) steps →
  run_ops rs steps !! key = Some r ∧
  (∀ backend now h, now < LeaseRecord.expires_at_millis r → h ≠ LeaseRecord.holder_node r →
     InMemoryLease.lease_duration backend <= u64_max →
     InMemoryLease.namespace backend = LeaseKey.namespace key →
     InMemoryLease.acquire backend now (run_ops rs steps) (LeaseKey.entity_type key) h =
       (run_ops rs steps,
        Err (CoordinatorLeaseRejected "in-memory" (LeaseKey.entity_type key) h
               (Some (LeaseRecord.holder_node r)) (Some (LeaseRecord.expires_at_millis r))))).
Proof.
  intros Hr Hall.
  assert (run_ops rs steps !! key = Some r) as Hrun.
  { revert rs Hr. induction Hall as [|[now op] steps [Hnow Hf] _ IH]; intros rs Hr; [done|].
    apply IH. by apply run_op_other. }
  split; [done|]. intros b now h Hnow Hh Hd Hns. unfold InMemoryLease.acquire, InMemoryLease.next_expiry.
  rewrite (proj2 (Z.leb_le _ _)) by done. rewrite Hns. destruct key as [ns et]; simpl.
  rewrite Hrun, decide_False; [done|]. intros [?|?]; [done|lia].
Qed.

(** One step of the fencing order. *)
Definition fence_le (r r' : LeaseRecord.t) : Prop :=
  LeaseRecord.fencing_token r <= LeaseRecord.fencing_token r' ∧
  (LeaseRecord.holder_node r ≠ LeaseRecord.holder_node r' →
   LeaseRecord.fencing_token r < LeaseRecord.fencing_token r' ∨
   LeaseRecord.fencing_token r' = u64_max).

#[global] Instance fence_le_preorder : PreOrder fence_le.
Proof.
  split.
  - intros r. split; [lia|]. done.
  - intros r1 r2 r3 [H1 H1'] [H2 H2']. split; [lia|]. intros Hne.
    destruct (decide (LeaseRecord.holder_node r1 = LeaseRecord.holder_node r2)) as [Heq|Heq].
    + destruct H2' as [?|?]; [congruence|left; lia|by right].
    + destruct (H1' Heq) as [?|Hmax]; [left; lia|].
      destruct (decide (LeaseRecord.holder_node r2 = LeaseRecord.holder_node r3)) as [Heq'|Heq'].
      * destruct (decide (LeaseRecord.fencing_token r2 = LeaseRecord.fencing_token r3)) as [He|He];
          [right; congruence|left; lia].
      * destruct (H2' Heq') as [?|?]; [left; lia|by right].
Qed.

Definition fenced rs : Prop :=
  ∀ key r, rs !! key = Some r → 1 <= LeaseRecord.fencing_token r <= u64_max.

Lemma fence_le_bump r h e :
  1 <= LeaseRecord.fencing_token r <= u64_max →
  fence_le r (LeaseRecord.mk h (if decide (LeaseRecord.holder_node r ≠ h)
                                then saturating_add_u64 (LeaseRecord.fencing_token r) 1
                                else LeaseRecord.fencing_token r) e).
Proof.
  intros Hr. unfold fence_le; simpl. unfold saturating_add_u64.
  destruct (decide (LeaseRecord.holder_node r ≠ h)); split; try lia. done.
Qed.

(** Inserting a record at some key preserves bounds and grows the fencing order. *)
Lemma fenced_insert rs k r :
  fenced rs → 1 <= LeaseRecord.fencing_token r <= u64_max → fenced (<[k := r]> rs).
Proof. intros Hf Hr k' r'. rewrite lookup_insert. case_decide; [by intros [= <-]|apply Hf]. Qed.

Lemma run_op_fence rs now op key :
  fenced rs →
  fenced (run_op rs (now, op)) ∧
  (keeps key op → ∀ r, rs !! key = Some r →
     ∃ r', run_op rs (now, op) !! key = Some r' ∧ fence_le r r').
Proof.
  intros Hf.
  assert (∀ k r0 r1, rs !! k = Some r0 → fence_le r0 r1 →
    ∀ r, rs !! key = Some r → ∃ r', <[k := r1]> rs !! key = Some r' ∧ fence_le r r') as Hins.
  { intros k r0 r1 Hk Hle r Hr. rewrite lookup_insert. case_decide as Hd.
    - subst k. simplify_eq. by exists r1.
    - by exists r. }
  assert (∀ r, rs !! key = Some r → ∃ r', rs !! key = Some r' ∧ fence_le r r') as Hid
    by (intros r Hr; by exists r).
  assert (1 <= 1 <= u64_max) as H1 by (rewrite u64_max_val; lia).
  unfold run_op; destruct op as [b et h|b tok|tok]; simpl.
  - unfold InMemoryLease.acquire. destruct (InMemoryLease.next_expiry b now); [|auto].
    destruct (rs !! LeaseKey.new _ _) as [r0|] eqn:Hr0; [case_decide|]; simpl; [..|split].
    + specialize (Hf _ _ Hr0) as Hb. split; [|intros _; eapply Hins; [done|by apply fence_le_bump]].
      apply fenced_insert; [done|]. unfold saturating_add_u64. simpl. case_decide; lia.
    + auto.
    + by apply fenced_insert.
    + intros _ r Hr. rewrite lookup_insert_ne by congruence. auto.
  - unfold InMemoryLease.renew. destruct (InMemoryLease.next_expiry b now); [|auto].
    destruct (rs !! LeaseKey.new _ _) as [r0|] eqn:Hr0; [case_decide|]; simpl; [auto| |auto].
    specialize (Hf _ _ Hr0) as Hb. split; [by apply fenced_insert|].
    intros _. eapply Hins; [done|]. split; simpl; [lia|done].
  - unfold InMemoryLease.release. fold (token_key tok).
    destruct (rs !! token_key tok) as [r0|] eqn:Hr0; [case_decide|]; simpl; [|auto|auto].
    split.
    + intros k r. rewrite lookup_delete. case_decide; [done|apply Hf].
    + intros Hk r Hr. rewrite lookup_delete_ne by done. auto.
Qed.

(** Fencing: from the empty backend on, tokens are at least one, and as long as
    the lease of a key is not released its fencing token never decreases and grows
    with every change of holder (up to the [u64] limit, where it sticks). *)
Theorem fencing_token_monotone (before after : list (Z * lease_op)) (key : LeaseKey.t)
    (r : LeaseRecord.t) :
  run_ops ∅ before !! key = Some r → Forall (fun step => keeps key step.2) after →
  1 <= LeaseRecord.fencing_token r ∧
  ∃ r', run_ops ∅ (before ++ after) !! key = Some r' ∧ fence_le r r'.
Proof.
  assert (∀ rs steps, fenced rs → fenced (run_ops rs steps)) as Hrun.
  { intros rs steps. revert rs. induction steps as [|[now op] steps IH]; intros rs Hf; [done|].
    apply IH. by apply (run_op_fence rs now op key). }
  intros Hr Hall. unfold run_ops. rewrite foldl_app. fold (run_ops ∅ before).
  assert (fenced (run_ops ∅ before)) as Hf by (apply Hrun; by intros ??).
  split; [by apply (Hf key)|]. clear Hrun. revert Hr Hf.
  generalize (run_ops ∅ before). intros rs Hr Hf. revert rs r Hr Hf.
  induction Hall as [|[now op] steps Hk _ IH]; intros rs r Hr Hf; [by exists r|].
  destruct (run_op_fence rs now op key Hf) as [Hf' Hle].
  destruct (Hle Hk r Hr) as (r1 & Hr1 & Hle1).
  destruct (IH (run_op rs (now, op)) r1 Hr1 Hf') as (r2 & Hr2 & Hle2).
  exists r2. split; [done|]. by etrans.
Qed.

(** Releasing forgets the generation: after the holder releases, the next
    acquisition - by any node - starts again at fencing token one, below every token
    that was handed out before, so a token of the first generation is accepted again. *)
Theorem release_restarts_fencing (backend : InMemoryLease.t) (now now' : Z)
    (rs : InMemoryLease.records) (et : EntityType.t) (next : NodeId.t) (token : LeaseToken.t) :
  InMemoryLease.lease_duration backend <= u64_max →
  InMemoryLease.token backend rs et = Some token →
  let rs1 := (InMemoryLease.release rs token).1 in
  ∃ expires, (InMemoryLease.acquire backend now rs1 et next).2 =
    Ok (LeaseToken.new (InMemoryLease.namespace backend) et next 1 expires) ∧
  ∀ stale, LeaseToken.fencing_token stale = 1 → LeaseToken.holder_node stale = next →
    token_key stale = LeaseKey.new (InMemoryLease.namespace backend) et → now' < expires →
    (InMemoryLease.renew backend now' (InMemoryLease.acquire backend now rs1 et next).1 stale).2
      = Ok tt.
Proof.
  intros Hd Htok. unfold InMemoryLease.token in Htok.
  destruct (rs !! LeaseKey.new _ _) as [r|] eqn:Hr; [|done]. simpl in Htok. injection Htok as <-.
  unfold InMemoryLease.release. simpl. rewrite Hr, decide_True by done. simpl.
  unfold InMemoryLease.acquire, InMemoryLease.next_expiry.
  rewrite (proj2 (Z.leb_le _ _)) by done. simpl. rewrite lookup_delete_eq. simpl.
  eexists. split; [done|]. intros stale Hs1 Hs2 Hk Hlt.
  unfold InMemoryLease.renew, InMemoryLease.next_expiry.
  rewrite (proj2 (Z.leb_le _ _)) by done. fold (token_key stale). rewrite Hk, lookup_insert_eq.
  rewrite decide_False; [done|]. intros [Hx|[Hx|Hx]]; [apply Hx|apply Hx|exact (Zlt_not_le _ _ Hlt Hx)]; simpl; congruence.
Qed.

(** ** Concrete runs *)

Definition leader_a : NodeId.t := NodeId.new "a" "1".
Definition leader_b : NodeId.t := NodeId.new "b" "1".
Definition orders : EntityType.t := EntityType.new "order".
Definition orders_key : LeaseKey.t := LeaseKey.new "default" orders.

(** [a] leads from 1000 on; [b] tries to acquire, to renew with a forged token and to
    release with it. *)
Definition held_by_a : InMemoryLease.records :=
  run_ops ∅ [(1000, OpAcquire InMemoryLease.new orders leader_a)].
Definition forged : LeaseToken.t := LeaseToken.new "default" orders leader_b 1 99999.
Definition attack : list (Z * lease_op) :=
  [(5000, OpAcquire InMemoryLease.new orders leader_b); (6000, OpRenew InMemoryLease.new forged);
   (7000, OpRelease forged)].

Lemma lease_mutual_exclusion_witness :
  run_ops held_by_a attack !! orders_key = Some (LeaseRecord.mk leader_a 1 16000) ∧
  is_ok (InMemoryLease.acquire InMemoryLease.new 8000 (run_ops held_by_a attack) orders leader_b).2 = false.
Proof.
  destruct (lease_mutual_exclusion held_by_a orders_key (LeaseRecord.mk leader_a 1 16000) attack)
    as [Hkept Hrefused].
  - vm_compute. reflexivity.
  - repeat constructor; simpl; try lia; intros _; discriminate.
  - split; [exact Hkept|].
    change orders with (LeaseKey.entity_type orders_key).
    rewrite (Hrefused InMemoryLease.new 8000 leader_b); [reflexivity|simpl; lia|discriminate| |reflexivity].
    vm_compute. discriminate.
Defined.

(** [b] takes over once [a]'s lease has expired: the token grows. *)
Lemma fencing_token_monotone_witness :
  ∃ r', run_ops ∅ ([(1000, OpAcquire InMemoryLease.new orders leader_a)] ++
                   [(20000, OpAcquire InMemoryLease.new orders leader_b)]) !! orders_key = Some r' ∧
    fence_le (LeaseRecord.mk leader_a 1 16000) r'.
Proof.
  apply (fencing_token_monotone [(1000, OpAcquire InMemoryLease.new orders leader_a)]
           [(20000, OpAcquire InMemoryLease.new orders leader_b)] orders_key
           (LeaseRecord.mk leader_a 1 16000)).
  - vm_compute. reflexivity.
  - repeat constructor.
Defined.

Lemma release_restarts_fencing_witness :
  let rs := run_ops held_by_a [(20000, OpAcquire InMemoryLease.new orders leader_b)] in
  let released := (InMemoryLease.release rs (LeaseToken.new "default" orders leader_b 2 35000)).1 in
  ∃ expires, (InMemoryLease.acquire InMemoryLease.new 30000 released orders leader_a).2 =
    Ok (LeaseToken.new "default" orders leader_a 1 expires).
Proof.
  cbv zeta.
  destruct (release_restarts_fencing InMemoryLease.new 30000 31000
              (run_ops held_by_a [(20000, OpAcquire InMemoryLease.new orders leader_b)]) orders leader_a
              (LeaseToken.new "default" orders leader_b 2 35000)) as (expires & Hacq & _).
  - vm_compute. discriminate.
  - vm_compute. reflexivity.
  - exact (ex_intro _ expires Hacq).
Defined.
