(* ===== verification/CoordinatorStore.v ===== *)
(** * Durable coordinator state: [rakka-sharding/src/coordinator_store.rs]

    The interface a coordinator store offers (load, fenced write, fenced delete),
    the laws its clients rely on, and the in-memory store that keeps them. *)

From S2P Require Import Prelude Node Membership Identity Allocation Coordinator Lease.

Module PersistedShardCoordinatorState.

Record t := new {
  snapshot : ShardOwnershipSnapshot.t;
  allocation_strategy : string;
  updated_at_millis : Z;
}.

#[global] Instance eq_dec : EqDecision t.
Proof. solve_decision. Defined.

Definition revision (self : t) : Z := ShardOwnershipSnapshot.revision (snapshot self).

End PersistedShardCoordinatorState.

Implicit Types (et : EntityType.t) (st : PersistedShardCoordinatorState.t).

(** ** The interface

    The trait [ShardCoordinatorStore] over a store state [S]. *)

Record ShardCoordinatorStore (S : Type) := {
  backend_name : string;
  load : S → EntityType.t → ShardingResult (option PersistedShardCoordinatorState.t);
  compare_and_set : S → EntityType.t → Z → PersistedShardCoordinatorState.t →
    S * ShardingResult PersistedShardCoordinatorState.t;
  delete_state : S → EntityType.t → Z → S * ShardingResult unit;
}.
Arguments backend_name {S}.
Arguments load {S}.
Arguments compare_and_set {S}.
Arguments delete_state {S}.

(** The default body of [compare_and_set_with_lease]: the token is not looked at. *)
Definition compare_and_set_with_lease {S} (store : ShardCoordinatorStore S) (s : S)
    (entity_type : EntityType.t) (expected_revision : Z)
    (state : PersistedShardCoordinatorState.t) (_lease_token : option LeaseToken.t) :
    S * ShardingResult PersistedShardCoordinatorState.t :=
  compare_and_set store s entity_type expected_revision state.

Definition stored_revision (o : option PersistedShardCoordinatorState.t) : Z :=
  default 0 (PersistedShardCoordinatorState.revision <$> o).

(** What a client relies on: loads do not fail, a write goes through exactly when
    the expected revision is the stored one, it is then what a load returns, a
    refused operation changes nothing, and entity types do not interfere. *)
Class CoordinatorStoreLaws {S} (store : ShardCoordinatorStore S) : Prop := {
  law_load s et : ∃ o, load store s et = Ok o;
  law_cas_ok s s' et r st st' :
    compare_and_set store s et r st = (s', Ok st') →
    st' = st ∧ (∃ o, load store s et = Ok o ∧ stored_revision o = r) ∧
    load store s' et = Ok (Some st) ∧ ∀ et', et' ≠ et → load store s' et' = load store s et';
  law_cas_err s s' et r st e :
    compare_and_set store s et r st = (s', Err e) → s' = s;
  law_cas_conflict s et r st o :
    load store s et = Ok o → ShardOwnershipSnapshot.entity_type
      (PersistedShardCoordinatorState.snapshot st) = et →
    stored_revision o ≠ r →
    (compare_and_set store s et r st).2 =
      Err (CoordinatorRevisionConflict et r (stored_revision o));
  law_cas_succeeds s et r st o :
    load store s et = Ok o → ShardOwnershipSnapshot.entity_type
      (PersistedShardCoordinatorState.snapshot st) = et →
    stored_revision o = r → (compare_and_set store s et r st).2 = Ok st;
}.

(** ** The in-memory store *)

Definition validate_state_entity_type (entity_type : EntityType.t)
    (state : PersistedShardCoordinatorState.t) : ShardingResult unit :=
  let snapshot := PersistedShardCoordinatorState.snapshot state in
  if decide (ShardOwnershipSnapshot.entity_type snapshot = entity_type) then Ok tt
  else Err (PersistedCoordinatorSnapshotMismatch entity_type
              (ShardOwnershipSnapshot.entity_type snapshot)
              (ShardOwnershipSnapshot.number_of_shards snapshot)
              (ShardOwnershipSnapshot.number_of_shards snapshot)).

Module InMemoryCoordinatorStore.

Abbreviation states := (gmap EntityType.t PersistedShardCoordinatorState.t).

Definition new : states := ∅.

Definition len (self : states) : nat := size self.

Definition load (self : states) (entity_type : EntityType.t) :
    ShardingResult (option PersistedShardCoordinatorState.t) :=
  Ok (self !! entity_type).

Definition compare_and_set (self : states) (entity_type : EntityType.t)
    (expected_revision : Z) (state : PersistedShardCoordinatorState.t) :
    states * ShardingResult PersistedShardCoordinatorState.t :=
  match validate_state_entity_type entity_type state with
  | Err e => (self, Err e)
  | Ok _ =>
      let actual_revision := stored_revision (self !! entity_type) in
      if decide (actual_revision ≠ expected_revision) then
        (self, Err (CoordinatorRevisionConflict entity_type expected_revision actual_revision))
      else (<[entity_type := state]> self, Ok state)
  end.

Definition delete (self : states) (entity_type : EntityType.t) (expected_revision : Z) :
    states * ShardingResult unit :=
  let actual_revision := stored_revision (self !! entity_type) in
  if decide (actual_revision ≠ expected_revision) then
    (self, Err (CoordinatorRevisionConflict entity_type expected_revision actual_revision))
  else (base.delete entity_type self, Ok tt).

Definition store : ShardCoordinatorStore states := {|
  CoordinatorStore.backend_name := "in-memory";
  CoordinatorStore.load := load;
  CoordinatorStore.compare_and_set := compare_and_set;
  CoordinatorStore.delete_state := delete;
|}.

End InMemoryCoordinatorStore.

#[global] Instance in_memory_store_laws : CoordinatorStoreLaws InMemoryCoordinatorStore.store.
Proof.
  split; simpl; unfold InMemoryCoordinatorStore.load, InMemoryCoordinatorStore.compare_and_set,
    validate_state_entity_type.
  - by eexists.
  - intros s s' et r st st'. case_decide; [|done]. case_decide as Hr; [done|].
    intros [= <- <-]. split_and!; [done| | |].
    + eexists. split; [done|]. lia.
    + by rewrite lookup_insert_eq.
    + intros et' Hne. by rewrite lookup_insert_ne.
  - intros s s' et r st e. case_decide; [case_decide|]; congruence.
  - intros s et r st o [= <-] Het Hr. by rewrite decide_True, decide_True.
  - intros s et r st o [= <-] Het Hr. rewrite decide_True by done. by rewrite decide_False by auto.
Qed.

(** ** Clients of the interface *)

Section clients.
Context {S : Type} (store : ShardCoordinatorStore S) `{!CoordinatorStoreLaws store}.

(** No lost update: of two writers that read the same revision, if the first
    writes a state with another revision, the second is refused with a conflict
    naming the first one's revision, and the store still holds the first one's
    state. *)
Theorem no_lost_update (s s1 : S) (et : EntityType.t)
    (seen : option PersistedShardCoordinatorState.t)
    (st1 st2 : PersistedShardCoordinatorState.t) :
  load store s et = Ok seen →
  ShardOwnershipSnapshot.entity_type (PersistedShardCoordinatorState.snapshot st2) = et →
  PersistedShardCoordinatorState.revision st1 ≠ stored_revision seen →
  compare_and_set store s et (stored_revision seen) st1 = (s1, Ok st1) →
  compare_and_set store s1 et (stored_revision seen) st2 =
    (s1, Err (CoordinatorRevisionConflict et (stored_revision seen)
                (PersistedShardCoordinatorState.revision st1))) ∧
  load store s1 et = Ok (Some st1).
Proof.
  intros Hload Het Hne Hcas.
  apply law_cas_ok in Hcas as (_ & _ & Hload1 & _).
  pose proof (law_cas_conflict s1 et (stored_revision seen) st2 _ Hload1 Het Hne) as Hc.
  destruct (compare_and_set store s1 et (stored_revision seen) st2) as [s2 res] eqn:Hcas2.
  simpl in Hc. subst res. apply law_cas_err in Hcas2 as Hs. by subst s2.
Qed.

End clients.

(** ** A concrete race *)

(** Two coordinators read an empty store; both write their first snapshot. *)
Definition first_snapshot (placed : Z) : PersistedShardCoordinatorState.t :=
  PersistedShardCoordinatorState.new
    (ShardOwnershipSnapshot.mk 1 carts 4
       [ShardAssignment.new (ShardKey.new carts (ShardId.new placed)) (ClusterNode.id node_a)])
    "deterministic-modulo" 1000.

Lemma no_lost_update_witness :
  let s1 := (InMemoryCoordinatorStore.compare_and_set ∅ carts 0 (first_snapshot 0)).1 in
  is_ok (InMemoryCoordinatorStore.compare_and_set s1 carts 0 (first_snapshot 3)).2 = false ∧
  InMemoryCoordinatorStore.load s1 carts = Ok (Some (first_snapshot 0)).
Proof.
  cbv zeta.
  destruct (no_lost_update InMemoryCoordinatorStore.store ∅
              (InMemoryCoordinatorStore.compare_and_set ∅ carts 0 (first_snapshot 0)).1 carts None
              (first_snapshot 0) (first_snapshot 3)) as [Hrefused Hload].
  - reflexivity.
  - reflexivity.
  - discriminate.
  - vm_compute. reflexivity.
  - split; [|exact Hload]. exact (f_equal (fun p => is_ok p.2) Hrefused).
Defined.
