(* ===== verification/Runtime.v ===== *)
(** * The cluster/sharding runtime: [rakka-sharding/src/runtime.rs] and [handoff.rs]

    The facade that connects the membership table, the coordinators, their store and
    lease, and the shard regions of a node.  The store, the lease and the regions are
    used through their traits: records of operations over a state of their own. *)

From S2P Require Import Prelude Node Membership Identity Allocation Coordinator Lease CoordinatorStore.

(** ** Handoff steps *)

Inductive ShardHandoffState := Owning | Draining | Transferring | Acquired.

Module ShardHandoff.

Record t := new {
  shard : ShardKey.t;
  from : NodeId.t;
  to : NodeId.t;
  reason : ShardMoveReason;
  state : ShardHandoffState;
  stopped_entities : nat;
}.

End ShardHandoff.

(** ** Data *)

Inductive ClusterShardingError :=
| Cluster (error : ClusterError)
| Sharding (error : ShardingError)
| EntityTypeConfigMismatch (entity_type : EntityType.t) (expected_shards actual_shards : Z)
| EntityTypeNotRegistered (entity_type : EntityType.t)
| EntityTypeMessageMismatch (entity_type : EntityType.t)
| RuntimeBusy.

Module EntityShardRebalance.
Record t := new { entity_type : EntityType.t; plan : ShardRebalancePlan.t }.
End EntityShardRebalance.

Module ClusterShardingUpdate.

Record t := new {
  membership_events : list MembershipEvent;
  handoffs : list ShardHandoff.t;
  rebalances : list EntityShardRebalance.t;
}.

Definition is_empty (self : t) : bool :=
  match membership_events self, handoffs self, rebalances self with
  | [], [], [] => true
  | _, _, _ => false
  end.

End ClusterShardingUpdate.

(** The trait [RegisteredShardRegion]. *)
Record RegisteredShardRegion (G : Type) := {
  local_node_id : G → option NodeId.t;
  refresh_ownership : G → ShardOwnershipSnapshot.t → G * ShardingResult unit;
  begin_shard_handoff : G → ShardId.t → G * ShardingResult nat;
  complete_shard_handoff : G → ShardId.t → G * ShardingResult nat;
  acquire_shard : G → ShardId.t → G * ShardingResult nat;
}.
Arguments local_node_id {G}.
Arguments refresh_ownership {G}.
Arguments begin_shard_handoff {G}.
Arguments complete_shard_handoff {G}.
Arguments acquire_shard {G}.

Inductive CoordinatorStoreMode := StoreNone | StoreSync | StoreAsync.
Inductive CoordinatorLeaseMode := LeaseNone | LeaseAsync.

(** Which variant of an operation runs: [f] or [f_async]. *)
Inductive Api := SyncApi | AsyncApi.

(** The wall-clock readings of one call, per entity type: the one the runtime checks
    its token against, the one the lease backend takes, the one a snapshot is stamped
    with. *)
Record Clock := {
  token_now : EntityType.t → Z;
  lease_now : EntityType.t → Z;
  persist_now : EntityType.t → Z;
}.

Module ClusterShardingRuntime.
Section runtime.
Context {S L G : Type}.
Context (store : ShardCoordinatorStore S) (lease : ShardCoordinatorLease L)
        (region : RegisteredShardRegion G).

Record t := mk {
  membership : ClusterMembership.t;
  coordinators : gmap EntityType.t ShardCoordinator.t;
  regions : gmap EntityType.t (list G);
  coordinator_store : CoordinatorStoreMode;
  coordinator_lease : CoordinatorLeaseMode;
  lease_tokens : gmap EntityType.t LeaseToken.t;
  store_state : S;
  lease_state : L;
}.

Definition new (membership : ClusterMembership.t) (s : S) (l : L) : t :=
  mk membership ∅ ∅ StoreNone LeaseNone ∅ s l.

Definition with_coordinator_store_ref (membership : ClusterMembership.t) (s : S) (l : L) : t :=
  mk membership ∅ ∅ StoreSync LeaseNone ∅ s l.

Definition with_async_coordinator_store_ref (membership : ClusterMembership.t) (s : S) (l : L) : t :=
  mk membership ∅ ∅ StoreAsync LeaseNone ∅ s l.

Definition with_coordinator_lease_ref (self : t) : t :=
  mk (membership self) (coordinators self) (regions self) (coordinator_store self) LeaseAsync
     (lease_tokens self) (store_state self) (lease_state self).

(** Field updates. *)
Definition set_membership (m : ClusterMembership.t) (self : t) : t :=
  mk m (coordinators self) (regions self) (coordinator_store self) (coordinator_lease self)
     (lease_tokens self) (store_state self) (lease_state self).
Definition set_coordinator (et : EntityType.t) (c : ShardCoordinator.t) (self : t) : t :=
  mk (membership self) (<[et := c]> (coordinators self)) (regions self)
     (coordinator_store self) (coordinator_lease self)
     (lease_tokens self) (store_state self) (lease_state self).
Definition set_regions (et : EntityType.t) (l : list G) (self : t) : t :=
  mk (membership self) (coordinators self) (<[et := l]> (regions self))
     (coordinator_store self) (coordinator_lease self)
     (lease_tokens self) (store_state self) (lease_state self).
Definition set_store (s : S) (self : t) : t :=
  mk (membership self) (coordinators self) (regions self) (coordinator_store self)
     (coordinator_lease self) (lease_tokens self) s (lease_state self).
Definition set_lease (l : L) (tokens : gmap EntityType.t LeaseToken.t) (self : t) : t :=
  mk (membership self) (coordinators self) (regions self) (coordinator_store self)
     (coordinator_lease self) tokens (store_state self) l.

Abbreviation rop := (op t ClusterShardingError).

Definition ensure_sync_api : rop unit := fun self =>
  match coordinator_lease self with
  | LeaseNone => (self, Ok tt)
  | LeaseAsync => (self, Err (Sharding (AsyncCoordinatorLeaseRequiresAsyncApi (lease_name lease))))
  end.

(** [load_sync] and [load_async]. *)
Definition load_state (api : Api) (entity_type : EntityType.t) :
    rop (option PersistedShardCoordinatorState.t) := fun self =>
  match coordinator_store self, api with
  | StoreNone, _ => (self, Ok None)
  | StoreSync, _ | StoreAsync, AsyncApi =>
      (self, map_err Sharding (load store (store_state self) entity_type))
  | StoreAsync, SyncApi =>
      (self, Err (Sharding (AsyncCoordinatorStoreRequiresAsyncApi (backend_name store))))
  end.

(** [compare_and_set_sync] and [compare_and_set_async]. *)
Definition compare_and_set_state (api : Api) (entity_type : EntityType.t)
    (expected_revision : Z) (state : PersistedShardCoordinatorState.t)
    (lease_token : option LeaseToken.t) : rop unit := fun self =>
  match coordinator_store self, api with
  | StoreNone, _ => (self, Ok tt)
  | StoreSync, _ | StoreAsync, AsyncApi =>
      match compare_and_set_with_lease store (store_state self) entity_type expected_revision
              state lease_token with
      | (s, Ok _) => (set_store s self, Ok tt)
      | (s, Err e) => (set_store s self, Err (Sharding e))
      end
  | StoreAsync, SyncApi =>
      (self, Err (Sharding (AsyncCoordinatorStoreRequiresAsyncApi (backend_name store))))
  end.

Definition persist_coordinator_snapshot (api : Api) (clock : Clock)
    (snapshot : ShardOwnershipSnapshot.t) (allocation_strategy : string)
    (expected_revision : Z) (lease_token : option LeaseToken.t) : rop unit :=
  let entity_type := ShardOwnershipSnapshot.entity_type snapshot in
  compare_and_set_state api entity_type expected_revision
    (PersistedShardCoordinatorState.new snapshot allocation_strategy (persist_now clock entity_type))
    lease_token.

Definition ensure_coordinator_leadership_sync (_ : EntityType.t) : rop (option LeaseToken.t) :=
  do! _ := ensure_sync_api in op_ret None.

Definition ensure_coordinator_leadership_async (clock : Clock) (entity_type : EntityType.t) :
    rop (option LeaseToken.t) := fun self =>
  match coordinator_lease self with
  | LeaseNone => (self, Ok None)
  | LeaseAsync =>
      let holder := ClusterMembership.local_node_id (membership self) in
      let acquire_token :=
        match acquire lease (lease_state self) (lease_now clock entity_type) entity_type holder with
        | (l, Ok token) =>
            (set_lease l (<[entity_type := token]> (lease_tokens self)) self, Ok (Some token))
        | (l, Err e) => (set_lease l (lease_tokens self) self, Err (Sharding e))
        end in
      match lease_tokens self !! entity_type with
      | Some token =>
          if decide (LeaseToken.holder_node token = holder ∧
                     LeaseToken.is_expired_at token (token_now clock entity_type) = false) then
            match renew lease (lease_state self) (lease_now clock entity_type) token with
            | (l, Ok _) =>
                (set_lease l (<[entity_type := token]> (lease_tokens self)) self, Ok (Some token))
            | (l, Err e) =>
                (set_lease l (delete entity_type (lease_tokens self)) self, Err (Sharding e))
            end
          else acquire_token
      | None => acquire_token
      end
  end.

Definition ensure_coordinator_leadership (api : Api) (clock : Clock) (entity_type : EntityType.t) :
    rop (option LeaseToken.t) :=
  match api with
  | SyncApi => ensure_coordinator_leadership_sync entity_type
  | AsyncApi => ensure_coordinator_leadership_async clock entity_type
  end.

(** A region call on every region of an entity type that [sel] selects, in
    registration order, stopping at the first error; the results are summed. *)
Fixpoint apply_regions (sel : G → bool) (f : G → G * ShardingResult nat) (l : list G) :
    list G * ShardingResult nat :=
  match l with
  | [] => ([], Ok 0%nat)
  | g :: l =>
      if sel g then
        match f g with
        | (g, Err e) => (g :: l, Err e)
        | (g, Ok n) =>
            match apply_regions sel f l with
            | (l, Ok k) => (g :: l, Ok (n + k)%nat)
            | (l, Err e) => (g :: l, Err e)
            end
        end
      else let (l, r) := apply_regions sel f l in (g :: l, r)
  end.

Definition on_regions (entity_type : EntityType.t) (sel : G → bool)
    (f : G → G * ShardingResult nat) : rop nat := fun self =>
  match regions self !! entity_type with
  | None => (self, Ok 0%nat)
  | Some l =>
      let (l, r) := apply_regions sel f l in
      (set_regions entity_type l self, map_err Sharding r)
  end.

Definition apply_to_node_regions (entity_type : EntityType.t) (node_id : NodeId.t)
    (apply : G → G * ShardingResult nat) : rop nat :=
  on_regions entity_type (fun g => bool_decide (local_node_id region g = Some node_id)) apply.

Definition publish_snapshot (snapshot : ShardOwnershipSnapshot.t) : rop unit :=
  do! _ := on_regions (ShardOwnershipSnapshot.entity_type snapshot) (fun _ => true)
             (fun g => let (g, r) := refresh_ownership region g snapshot in
                       (g, let? _ := r in Ok 0%nat)) in
  op_ret tt.

(** The three steps of one graceful move. *)
Definition handoff_move (shard : ShardKey.t) (from to : NodeId.t) : rop (list ShardHandoff.t) :=
  let shard_id := ShardKey.shard_id shard in
  let et := ShardKey.entity_type shard in
  do! draining := apply_to_node_regions et from
                    (fun g => begin_shard_handoff region g shard_id) in
  do! transferring := apply_to_node_regions et from
                        (fun g => complete_shard_handoff region g shard_id) in
  do! acquired := apply_to_node_regions et to (fun g => acquire_shard region g shard_id) in
  op_ret [ShardHandoff.new shard from to GracefulLeave Draining draining;
          ShardHandoff.new shard from to GracefulLeave Transferring transferring;
          ShardHandoff.new shard from to GracefulLeave Acquired acquired].

Definition apply_graceful_handoffs (plan : ShardRebalancePlan.t) : rop (list ShardHandoff.t) :=
  do! steps := op_each (fun decision =>
      match decision with
      | Move shard from to GracefulLeave => handoff_move shard from to
      | _ => op_ret []
      end) (ShardRebalancePlan.decisions plan) in
  op_ret (concat steps).

(** [coordinator.reconcile(&self.membership)] on the coordinator in the map. *)
Definition reconcile_coordinator (entity_type : EntityType.t) :
    rop (option (ShardCoordinator.t * ShardRebalancePlan.t)) := fun self =>
  match coordinators self !! entity_type with
  | None => (self, Ok None)
  | Some coordinator =>
      let (coordinator, plan) := ShardCoordinator.reconcile coordinator (membership self) in
      (set_coordinator entity_type coordinator self, Ok (Some (coordinator, plan)))
  end.

(** One iteration of the loop of [reconcile_and_publish]. *)
Definition reconcile_entity (api : Api) (clock : Clock) (entity_type : EntityType.t) :
    rop (list ShardHandoff.t * list EntityShardRebalance.t) :=
  do! lease_token := ensure_coordinator_leadership api clock entity_type in
  do! found := reconcile_coordinator entity_type in
  match found with
  | None => op_ret ([], [])
  | Some (coordinator, plan) =>
      if ShardRebalancePlan.is_empty plan then op_ret ([], [])
      else
        let snapshot := ShardCoordinator.snapshot coordinator in
        do! _ := persist_coordinator_snapshot api clock snapshot
                   (strategy_name (ShardCoordinator.allocation_strategy coordinator))
                   (ShardRebalancePlan.previous_revision plan) lease_token in
        do! handoffs := apply_graceful_handoffs plan in
        do! _ := publish_snapshot snapshot in
        op_ret (handoffs, [EntityShardRebalance.new entity_type plan])
  end.

Definition reconcile_and_publish_with (api : Api) (clock : Clock)
    (membership_events : list MembershipEvent) : rop ClusterShardingUpdate.t := fun self =>
  (do! parts := op_each (reconcile_entity api clock) (btree_keys (coordinators self)) in
   op_ret (ClusterShardingUpdate.new membership_events (concat parts.*1) (concat parts.*2))) self.

Definition reconcile_and_publish := reconcile_and_publish_with SyncApi.
Definition reconcile_and_publish_async := reconcile_and_publish_with AsyncApi.

(** [ensure_coordinator] and [ensure_coordinator_async]. *)
Definition ensure_coordinator (api : Api) (clock : Clock) (entity_type : EntityType.t)
    (config : ShardingConfig.t) (allocation_strategy : ShardAllocationStrategy) : rop unit :=
  do! _ := (match api with SyncApi => ensure_sync_api | AsyncApi => op_ret tt end) in
  fun self =>
  match coordinators self !! entity_type with
  | Some coordinator =>
      let expected_shards :=
        ShardingConfig.number_of_shards (ShardCoordinator.config coordinator) in
      if decide (expected_shards ≠ ShardingConfig.number_of_shards config) then
        (self, Err (EntityTypeConfigMismatch entity_type expected_shards
                      (ShardingConfig.number_of_shards config)))
      else (self, Ok tt)
  | None =>
      (do! lease_token := ensure_coordinator_leadership api clock entity_type in
       do! loaded := load_state api entity_type in
       do! coordinator :=
         op_lift (match loaded with
                  | Some state =>
                      map_err Sharding
                        (ShardCoordinator.from_snapshot_with_allocation_strategy_ref entity_type
                           config (PersistedShardCoordinatorState.snapshot state)
                           allocation_strategy)
                  | None => Ok (ShardCoordinator.with_allocation_strategy_ref entity_type config
                                  allocation_strategy)
                  end) in
       fun self =>
         let (coordinator, plan) := ShardCoordinator.reconcile coordinator (membership self) in
         (do! _ := (if ShardRebalancePlan.is_empty plan then op_ret tt
                    else persist_coordinator_snapshot api clock
                           (ShardCoordinator.snapshot coordinator)
                           (strategy_name (ShardCoordinator.allocation_strategy coordinator))
                           (ShardRebalancePlan.previous_revision plan) lease_token) in
          fun self => (set_coordinator entity_type coordinator self, Ok tt)) self) self
  end.

(** [register_region] and [register_region_async], for a region of the given entity
    type, configuration and strategy. *)
Definition register_region (api : Api) (clock : Clock) (entity_type : EntityType.t)
    (config : ShardingConfig.t) (allocation_strategy : ShardAllocationStrategy) (g : G) :
    rop unit :=
  do! _ := ensure_coordinator api clock entity_type config allocation_strategy in
  fun self =>
  match coordinators self !! entity_type with
  | None => (self, Err (EntityTypeNotRegistered entity_type))
  | Some coordinator =>
      match refresh_ownership region g (ShardCoordinator.snapshot coordinator) with
      | (_, Err e) => (self, Err (Sharding e))
      | (g, Ok _) =>
          (set_regions entity_type (default [] (regions self !! entity_type) ++ [g]) self, Ok tt)
      end
  end.

(** A membership operation on [self.membership]; its error is a [Cluster] error. *)
Definition on_membership {A} (f : ClusterMembership.t → ClusterMembership.t * ClusterResult A) :
    rop A := fun self =>
  let (m, r) := f (membership self) in (set_membership m self, map_err Cluster r).

Definition promote_joining_members (observed_at_millis : Z) : rop (list MembershipEvent) :=
  fun self =>
  if negb (ClusterMembership.has_min_contact_points (membership self)) then (self, Ok [])
  else
    let joining := (fun member => ClusterNode.id (MemberRecord.node member)) <$>
      filter (fun member => MemberRecord.state member = Joining)
        (btree_values (ClusterMembership.members (membership self))) in
    (do! events := op_each (fun node_id => on_membership (fun m =>
                       ClusterMembership.mark_up m node_id observed_at_millis)) joining in
     op_ret (omap id events)) self.

(** [Option<MembershipEvent>::into_iter().collect()]. *)
Definition event_list (o : option MembershipEvent) : list MembershipEvent := option_list o.

Definition apply_discovery (api : Api) (clock : Clock) (snapshot : DiscoverySnapshot.t) :
    rop ClusterShardingUpdate.t :=
  do! _ := (match api with SyncApi => ensure_sync_api | AsyncApi => op_ret tt end) in
  do! events := on_membership (fun m => ClusterMembership.record_discovery m snapshot) in
  do! promoted := promote_joining_members (DiscoverySnapshot.observed_at_millis snapshot) in
  reconcile_and_publish_with api clock (events ++ promoted).

(** [heartbeat], [mark_leaving] and [mark_down] differ in the membership call only. *)
Definition member_operation
    (f : ClusterMembership.t → NodeId.t → Z → ClusterMembership.t * ClusterResult (option MembershipEvent))
    (api : Api) (clock : Clock) (node_id : NodeId.t) (observed_at_millis : Z) :
    rop ClusterShardingUpdate.t :=
  do! _ := (match api with SyncApi => ensure_sync_api | AsyncApi => op_ret tt end) in
  do! event := on_membership (fun m => f m node_id observed_at_millis) in
  reconcile_and_publish_with api clock (event_list event).

Definition heartbeat := member_operation ClusterMembership.heartbeat.
Definition mark_leaving := member_operation ClusterMembership.mark_leaving.
Definition mark_down := member_operation ClusterMembership.mark_down.

Definition tick (api : Api) (clock : Clock) (now_millis : Z) : rop ClusterShardingUpdate.t :=
  do! _ := (match api with SyncApi => ensure_sync_api | AsyncApi => op_ret tt end) in
  do! events := on_membership (fun m =>
    let (m, events) := ClusterMembership.tick m now_millis in (m, Ok events)) in
  reconcile_and_publish_with api clock events.

(** The loop of [renew_coordinator_leases_async]. *)
Fixpoint renew_tokens (clock : Clock) (tokens : list LeaseToken.t) : rop unit := fun self =>
  match tokens with
  | [] => (self, Ok tt)
  | token :: tokens =>
      let et := LeaseToken.entity_type token in
      match renew lease (lease_state self) (lease_now clock et) token with
      | (l, Err e) => (set_lease l (delete et (lease_tokens self)) self, Err (Sharding e))
      | (l, Ok _) => renew_tokens clock tokens (set_lease l (lease_tokens self) self)
      end
  end.

Definition renew_coordinator_leases_async (clock : Clock) : rop unit := fun self =>
  match coordinator_lease self with
  | LeaseNone => (self, Ok tt)
  | LeaseAsync => renew_tokens clock (btree_values (lease_tokens self)) self
  end.

Fixpoint release_tokens (tokens : list LeaseToken.t) : rop unit := fun self =>
  match tokens with
  | [] => (self, Ok tt)
  | token :: tokens =>
      match release lease (lease_state self) token with
      | (l, Err e) => (set_lease l (lease_tokens self) self, Err (Sharding e))
      | (l, Ok _) => release_tokens tokens (set_lease l (lease_tokens self) self)
      end
  end.

Definition release_coordinator_leases_async : rop unit := fun self =>
  match coordinator_lease self with
  | LeaseNone => (set_lease (lease_state self) ∅ self, Ok tt)
  | LeaseAsync =>
      release_tokens (btree_values (lease_tokens self)) (set_lease (lease_state self) ∅ self)
  end.
End runtime.

Arguments t : clear implicits.
End ClusterShardingRuntime.

(** ** Frames

    Most operations of the runtime leave the membership, the coordinators and the
    store alone. *)

Import ClusterShardingRuntime.

Section frames.
Context {S L G : Type}.
Context (store : ShardCoordinatorStore S) (lease : ShardCoordinatorLease L)
        (region : RegisteredShardRegion G).
Abbreviation rt := (ClusterShardingRuntime.t S L G).
Abbreviation rop := (op rt ClusterShardingError).
Implicit Types (self : rt) (et : EntityType.t).

(** What the coordinators' bookkeeping is made of. *)
Definition core self : ClusterMembership.t * gmap EntityType.t ShardCoordinator.t *
    CoordinatorStoreMode * S :=
  (membership self, coordinators self, coordinator_store self, store_state self).

Lemma core_eq self self' :
  core self' = core self →
  membership self' = membership self ∧ coordinators self' = coordinators self ∧
  coordinator_store self' = coordinator_store self ∧ store_state self' = store_state self.
Proof. unfold core. by intros [= -> -> -> ->]. Qed.

Definition preserves {A X} (f : rt → X) (m : rop A) : Prop :=
  ∀ self self' r, m self = (self', r) → f self' = f self.

Lemma preserves_bind {A B X} (f : rt → X) (m : rop A) (k : A → rop B) :
  preserves f m → (∀ a, preserves f (k a)) → preserves f (op_bind m k).
Proof.
  intros Hm Hk self self' r. unfold op_bind. destruct (m self) as [s1 [a|e]] eqn:Hms.
  - intros Hks. rewrite (Hk _ _ _ _ Hks). by apply Hm in Hms.
  - intros [= <- <-]. by apply Hm in Hms.
Qed.

Lemma preserves_ret {A X} (f : rt → X) (a : A) : preserves f (op_ret a : rop A).
Proof. by intros self self' r [= <- <-]. Qed.

Lemma preserves_each {A B X} (f : rt → X) (g : A → rop B) l :
  (∀ a, preserves f (g a)) → preserves f (op_each g l).
Proof.
  intros Hg. induction l as [|a l IH]; simpl; [apply preserves_ret|].
  apply preserves_bind; [done|]. intros b. apply preserves_bind; [done|].
  intros bs. apply preserves_ret.
Qed.

Lemma on_regions_core et sel f : preserves core (on_regions et sel f : rop nat).
Proof.
  intros self self' r. unfold on_regions. destruct (regions self !! et); [|by intros [= <- <-]].
  destruct (apply_regions _ _ _). by intros [= <- <-].
Qed.

Lemma handoffs_core p : preserves core (apply_graceful_handoffs region p : rop _).
Proof.
  apply preserves_bind; [|intros; apply preserves_ret]. apply preserves_each. intros d.
  destruct d as [| shard from to [] |]; try apply preserves_ret.
  unfold handoff_move, apply_to_node_regions.
  repeat (apply preserves_bind; [apply on_regions_core|intros ?]). apply preserves_ret.
Qed.

Lemma publish_core snap : preserves core (publish_snapshot region snap : rop _).
Proof.
  apply preserves_bind; [apply on_regions_core|]. intros ?. apply preserves_ret.
Qed.

Lemma leadership_core api clock et :
  preserves (fun self => (core self, regions self))
    (ensure_coordinator_leadership lease api clock et : rop _).
Proof.
  destruct api; simpl.
  - unfold ensure_coordinator_leadership_sync, ensure_sync_api, op_bind. intros self self' r.
    destruct (coordinator_lease self); by intros [= <- <-].
  - unfold ensure_coordinator_leadership_async. intros self self' r.
    destruct (coordinator_lease self); [by intros [= <- <-]|].
    destruct (lease_tokens self !! et) as [tok|]; [case_decide|].
    + destruct (renew lease _ _ _) as [l [|]]; by intros [= <- <-].
    + destruct (acquire lease _ _ _ _) as [l [|]]; by intros [= <- <-].
    + destruct (acquire lease _ _ _ _) as [l [|]]; by intros [= <- <-].
Qed.

End frames.

(** ** Coordinators and their store *)

Section synced.
Context {S L G : Type}.
Context (store : ShardCoordinatorStore S) `{!CoordinatorStoreLaws store}
        (lease : ShardCoordinatorLease L) (region : RegisteredShardRegion G).
Abbreviation rt := (ClusterShardingRuntime.t S L G).
Implicit Types (self : rt) (et : EntityType.t).

(** The store holds what a coordinator would be restored from. *)
Definition stored_for (o : option PersistedShardCoordinatorState.t) (c : ShardCoordinator.t) : Prop :=
  match o with
  | Some st => PersistedShardCoordinatorState.snapshot st = ShardCoordinator.snapshot c
  | None => ShardCoordinator.assignments c = ∅ ∧ ShardCoordinator.revision c = 0
  end.

Definition synced self : Prop :=
  ∀ et c, coordinators self !! et = Some c →
    ShardCoordinator.entity_type c = et ∧
    ∃ o, load store (store_state self) et = Ok o ∧ stored_for o c.

Lemma stored_for_revision o c :
  stored_for o c → stored_revision o = ShardCoordinator.revision c.
Proof.
  destruct o as [st|]; simpl; [|by intros [_ ->]].
  unfold stored_revision; simpl. unfold PersistedShardCoordinatorState.revision. by intros ->.
Qed.

(** One entity of a successful pass. *)
Lemma reconcile_entity_ok api clock et self self' hs rbs :
  reconcile_entity store lease region api clock et self = (self', Ok (hs, rbs)) →
  ∀ c, coordinators self !! et = Some c →
  let (c', p) := ShardCoordinator.reconcile c (membership self) in
  membership self' = membership self ∧ coordinator_store self' = coordinator_store self ∧
  coordinators self' = <[et := c']> (coordinators self) ∧
  rbs = (if ShardRebalancePlan.is_empty p then [] else [EntityShardRebalance.new et p]) ∧
  (ShardRebalancePlan.is_empty p = true → store_state self' = store_state self) ∧
  (ShardRebalancePlan.is_empty p = false → coordinator_store self ≠ StoreNone →
   ∃ now st', compare_and_set store (store_state self)
     (ShardCoordinator.entity_type c) (ShardCoordinator.revision c)
     (PersistedShardCoordinatorState.new (ShardCoordinator.snapshot c')
        (strategy_name (ShardCoordinator.allocation_strategy c')) now) =
     (store_state self', Ok st')).
Proof.
  intros Hrun c Hc. destruct (ShardCoordinator.reconcile c (membership self)) as [c' p] eqn:Hrec.
  unfold reconcile_entity in Hrun. apply op_bind_ok in Hrun as (s1 & tok & Hlead & Hrun).
  apply leadership_core in Hlead. simpl in Hlead. apply (f_equal fst) in Hlead. simpl in Hlead.
  apply core_eq in Hlead as (Hm & Hcs & Hmd & Hst).
  apply op_bind_ok in Hrun as (s2 & found & Hfound & Hrun).
  unfold reconcile_coordinator in Hfound. rewrite Hcs, Hc, Hm, Hrec in Hfound.
  injection Hfound as <- <-. rewrite <-Hm, <-Hcs, <-Hmd, <-Hst.
  destruct (ShardRebalancePlan.is_empty p) eqn:Hp; [by injection Hrun as <- <- <-|].
  apply op_bind_ok in Hrun as (s3 & [] & Hpers & Hrun).
  apply op_bind_ok in Hrun as (s4 & hs' & Hhand & Hrun).
  apply op_bind_ok in Hrun as (s5 & [] & Hpub & Hrun). injection Hrun as <- <- <-.
  apply handoffs_core, core_eq in Hhand as (Hm4 & Hc4 & Hs4 & Hst4).
  apply publish_core, core_eq in Hpub as (-> & -> & -> & ->).
  rewrite Hm4, Hc4, Hs4, Hst4. clear Hm4 Hc4 Hs4 Hst4 s4.
  pose proof (reconcile_fields _ _ _ _ Hrec) as (Het & _ & _ & Hprev & _ & _).
  unfold persist_coordinator_snapshot, compare_and_set_state, compare_and_set_with_lease in Hpers.
  simpl in Hpers. rewrite Het, Hprev in Hpers.
  destruct (coordinator_store s1) eqn:Hmode, api; try (by injection Hpers as <-); try done;
    (destruct (compare_and_set _ _ _ _ _) as [s' [st'|]] eqn:Hcas; [|done];
     injection Hpers as <-; simpl; split_and!; auto; try done;
     intros _ _; eexists _, _; exact Hcas).
Qed.

(** An empty plan leaves the coordinator as it was. *)
Lemma reconcile_unchanged c m c' p :
  ShardCoordinator.reconcile c m = (c', p) → ShardRebalancePlan.is_empty p = true → c' = c.
Proof.
  intros Hrec Hp. pose proof (decisions_nil_iff _ _ _ _ Hrec) as Hnil.
  pose proof (reconcile_fields _ _ _ _ Hrec) as (He & Hc & Hs & _ & _ & Hr).
  unfold ShardRebalancePlan.is_empty in Hp. destruct (ShardRebalancePlan.decisions p); [|done].
  destruct Hnil as [Ha _]. specialize (Ha eq_refl). destruct c, c'; simpl in *. congruence.
Qed.

Lemma reconcile_entity_synced api clock et self self' hs rbs c :
  reconcile_entity store lease region api clock et self = (self', Ok (hs, rbs)) →
  coordinators self !! et = Some c → coordinator_store self ≠ StoreNone →
  synced self → synced self'.
Proof.
  intros Hrun Hc Hmode Hsync. pose proof (reconcile_entity_ok _ _ _ _ _ _ _ Hrun c Hc) as Hspec.
  destruct (ShardCoordinator.reconcile c (membership self)) as [c' p] eqn:Hrec.
  destruct Hspec as (_ & _ & Hcs & _ & Hempty & Hwrite).
  destruct (Hsync et c Hc) as [Het _].
  pose proof (reconcile_fields _ _ _ _ Hrec) as (Het' & _ & _ & _ & _ & _).
  intros et' c0. rewrite Hcs, lookup_insert.
  destruct (ShardRebalancePlan.is_empty p) eqn:Hp.
  - rewrite (Hempty eq_refl). rewrite (reconcile_unchanged _ _ _ _ Hrec Hp).
    case_decide; [intros [= <-]; subst et'|]; by apply Hsync.
  - destruct (Hwrite eq_refl Hmode) as (now & st' & Hcas).
    apply law_cas_ok in Hcas as (_ & _ & Hload & Hframe). rewrite Het in Hload, Hframe.
    case_decide as Hd.
    + intros [= <-]. subst et'. split; [congruence|]. eexists. split; [exact Hload|done].
    + intros Hc0. rewrite Hframe by done. by apply Hsync.
Qed.

(** The rebalances a pass reports: the entity types whose plan is not empty. *)
Definition expected_rebalances (m : ClusterMembership.t)
    (cs : gmap EntityType.t ShardCoordinator.t) (l : list EntityType.t) :
    list EntityShardRebalance.t :=
  omap (fun et => c ← cs !! et;
          let p := (ShardCoordinator.reconcile c m).2 in
          if ShardRebalancePlan.is_empty p then None
          else Some (EntityShardRebalance.new et p)) l.

Lemma expected_rebalances_insert m cs l et c :
  et ∉ l → expected_rebalances m (<[et := c]> cs) l = expected_rebalances m cs l.
Proof.
  unfold expected_rebalances. induction l as [|et' l IH]; [done|].
  intros [Hne Hl]%not_elem_of_cons. cbn [omap list_omap]. rewrite lookup_insert_ne by done.
  by rewrite IH.
Qed.

Lemma reconcile_entities_ok api clock l self self' parts :
  op_each (reconcile_entity store lease region api clock) l self = (self', Ok parts) →
  NoDup l → (∀ et, et ∈ l → is_Some (coordinators self !! et)) →
  coordinator_store self ≠ StoreNone → synced self →
  synced self' ∧ membership self' = membership self ∧
  (∀ et, coordinators self' !! et =
     if decide (et ∈ l)
     then (fun c => (ShardCoordinator.reconcile c (membership self)).1) <$> coordinators self !! et
     else coordinators self !! et) ∧
  concat parts.*2 = expected_rebalances (membership self) (coordinators self) l.
Proof.
  intros Hrun Hnd. revert self parts Hrun.
  induction Hnd as [|et l Het Hnd IH]; intros self parts Hrun Hall Hmode Hsync.
  { injection Hrun as <- <-. split_and!; [done|done| |done]. intros et.
    rewrite decide_False; [done|apply not_elem_of_nil]. }
  cbn [op_each] in Hrun. apply op_bind_ok in Hrun as (s1 & [hs rbs] & H1 & Hrun).
  apply op_bind_ok in Hrun as (s2 & parts' & H2 & Hrun). injection Hrun as <- <-.
  destruct (Hall et) as [c Hc]; [by left|].
  pose proof (reconcile_entity_ok _ _ _ _ _ _ _ H1 c Hc) as Hspec.
  pose proof (reconcile_entity_synced _ _ _ _ _ _ _ _ H1 Hc Hmode Hsync) as Hsync1.
  destruct (ShardCoordinator.reconcile c (membership self)) as [c' p] eqn:Hrec.
  destruct Hspec as (Hm & Hmd & Hcs & -> & _ & _).
  destruct (IH s1 parts' H2) as (Hsync2 & Hm2 & Hcs2 & Hparts); [|by rewrite Hmd|done|].
  { intros et' Het'. rewrite Hcs, lookup_insert. case_decide; [done|]. apply Hall. by right. }
  rewrite Hm, Hcs in *. split_and!; [done|done| |].
  - intros et'. rewrite Hcs2, lookup_insert. destruct (decide (et = et')) as [<-|Hne].
    + rewrite decide_False by done. rewrite decide_True by (by left). by rewrite Hc; simpl; rewrite Hrec.
    + destruct (decide (et' ∈ l)); [rewrite decide_True by (by right)|
                                    rewrite decide_False by set_solver]; done.
  - cbn [fmap list_fmap concat snd]. rewrite Hparts, expected_rebalances_insert by done.
    unfold expected_rebalances at 2. cbn [omap list_omap]. rewrite Hc. simpl. rewrite Hrec. simpl.
    by destruct (ShardRebalancePlan.is_empty p).
Qed.

(** A pass over the coordinators that succeeds keeps runtime and store in step:
    every coordinator is the reconciliation of the one before it with the current
    membership, the store still holds what each would be restored from, and the
    reported rebalances are exactly the non-empty plans, in entity-type order. *)
Theorem reconcile_and_publish_in_step (api : Api) (clock : Clock)
    (events : list MembershipEvent) (self self' : rt) (update : ClusterShardingUpdate.t) :
  reconcile_and_publish_with store lease region api clock events self = (self', Ok update) →
  coordinator_store self ≠ StoreNone → synced self →
  synced self' ∧ membership self' = membership self ∧
  (∀ et, coordinators self' !! et =
     (fun c => (ShardCoordinator.reconcile c (membership self)).1) <$> coordinators self !! et) ∧
  ClusterShardingUpdate.membership_events update = events ∧
  ClusterShardingUpdate.rebalances update =
    expected_rebalances (membership self) (coordinators self) (btree_keys (coordinators self)).
Proof.
  intros Hrun Hmode Hsync. unfold reconcile_and_publish_with in Hrun.
  apply op_bind_ok in Hrun as (s1 & parts & H1 & Hrun). injection Hrun as <- <-.
  destruct (reconcile_entities_ok _ _ _ _ _ _ H1) as (Hs & Hm & Hcs & Hp);
    [apply NoDup_btree_keys|by intros et ?%elem_of_btree_keys|done|done|].
  split_and!; [done|done| |done|done].
  intros et. rewrite Hcs. case_decide as Hd; [done|]. rewrite elem_of_btree_keys in Hd.
  by rewrite (proj2 (eq_None_not_Some _) Hd).
Qed.

Lemma btree_keys_singleton et (c : ShardCoordinator.t) :
  btree_keys ({[et := c]} : gmap EntityType.t ShardCoordinator.t) = [et].
Proof. unfold btree_keys, btree_entries. by rewrite map_to_list_singleton. Qed.

(** A pass over one coordinator that has nothing to do. *)
Lemma settled_pass_empty clock events self et c p :
  coordinators self = {[et := c]} → coordinator_lease self = LeaseNone →
  ShardCoordinator.reconcile c (membership self) = (c, p) →
  ShardRebalancePlan.is_empty p = true → set_coordinator et c self = self →
  reconcile_and_publish store lease region clock events self =
    (self, Ok (ClusterShardingUpdate.new events [] [])).
Proof.
  intros Hcs Hlease Hrec Hp Hset. unfold reconcile_and_publish, reconcile_and_publish_with.
  rewrite Hcs, btree_keys_singleton. unfold op_each, reconcile_entity, op_bind; simpl.
  unfold ensure_coordinator_leadership_sync, ensure_sync_api, op_bind. rewrite Hlease. simpl.
  unfold reconcile_coordinator. rewrite Hcs, lookup_singleton_eq, Hrec, Hp, Hset. done.
Qed.

(** A refused write is never retried: when another writer has moved the stored
    revision, a pass fails with the conflict but keeps the coordinator it could not
    persist; the next pass against the same membership then succeeds with nothing to
    report, writing nothing and refreshing no region, while the store still holds
    the other writer's state. *)
Theorem refused_persist_not_retried (clock clock' : Clock) (events events' : list MembershipEvent)
    (self : rt) (et : EntityType.t) (c c' : ShardCoordinator.t) (p : ShardRebalancePlan.t)
    (o : option PersistedShardCoordinatorState.t) :
  coordinators self = {[et := c]} → coordinator_store self = StoreSync →
  coordinator_lease self = LeaseNone →
  ShardCoordinator.entity_type c = et → coordinator_wf c →
  ShardCoordinator.allocation_strategy c = DeterministicModulo.strategy DeterministicModulo.new →
  routable_node_ids (membership self) ≠ [] →
  ShardCoordinator.reconcile c (membership self) = (c', p) →
  ShardRebalancePlan.is_empty p = false →
  load store (store_state self) et = Ok o → stored_revision o ≠ ShardCoordinator.revision c →
  ∃ self1,
    reconcile_and_publish store lease region clock events self =
      (self1, Err (Sharding (CoordinatorRevisionConflict et (ShardCoordinator.revision c)
                               (stored_revision o)))) ∧
    coordinators self1 = {[et := c']} ∧
    store_state self1 = store_state self ∧ regions self1 = regions self ∧
    reconcile_and_publish store lease region clock' events' self1 =
      (self1, Ok (ClusterShardingUpdate.new events' [] [])).
Proof.
  intros Hcs Hmode Hlease Het Hwf Hstrat Hne Hrec Hp Hload Hrev.
  set (self1 := set_coordinator et c' self).
  assert (coordinators self1 = {[et := c']}) as Hcs1.
  { unfold self1, set_coordinator. simpl. rewrite Hcs. apply insert_singleton_eq. }
  exists self1.
  pose proof (reconcile_fields _ _ _ _ Hrec) as (Het' & _ & _ & Hprev & _ & _).
  assert (∀ st, ShardOwnershipSnapshot.entity_type
      (PersistedShardCoordinatorState.snapshot st) = et →
    compare_and_set store (store_state self) et (ShardCoordinator.revision c) st =
      (store_state self, Err (CoordinatorRevisionConflict et (ShardCoordinator.revision c)
                                (stored_revision o)))) as Hcas.
  { intros st Hst. pose proof (law_cas_conflict _ _ _ _ _ Hload Hst Hrev) as Hc.
    destruct (compare_and_set _ _ _ _ _) as [s' res] eqn:Heq. simpl in Hc. subst res.
    by rewrite (law_cas_err _ _ _ _ _ _ Heq). }
  destruct (modulo_reconcile_twice c c' (membership self) p Hstrat Hwf Hne Hrec)
    as (p' & Hrec' & Hp').
  split_and!; [|done|done|done|].
  - unfold reconcile_and_publish, reconcile_and_publish_with.
    rewrite Hcs, btree_keys_singleton.
    unfold op_each, reconcile_entity, op_bind; simpl.
    unfold ensure_coordinator_leadership_sync, ensure_sync_api, op_bind. rewrite Hlease. simpl.
    unfold reconcile_coordinator. rewrite Hcs, lookup_singleton_eq, Hrec, Hp.
    unfold persist_coordinator_snapshot, compare_and_set_state. simpl.
    rewrite Hmode. unfold compare_and_set_with_lease. rewrite Het', Het, Hprev, Hcas by (simpl; congruence).
    done.
  - apply (settled_pass_empty _ _ _ et c' p'); try done.
    unfold self1, set_coordinator. simpl. by rewrite insert_insert_eq.
Qed.

End synced.

(** ** Leadership *)

Section leadership.
Context {S G : Type}.
Context (store : ShardCoordinatorStore S) (backend : InMemoryLease.t)
        (region : RegisteredShardRegion G).
Abbreviation rt := (ClusterShardingRuntime.t S InMemoryLease.records G).

(** Only the leader acts: while another node holds the unexpired lease of an
    entity type, the async pass over that entity type fails before anything happens
    - the coordinator, the store and the regions are as they were - whether the
    runtime tries to renew a stale token or to acquire a new one. *)
Theorem non_leader_changes_nothing (clock : Clock) (self : rt) (et : EntityType.t)
    (r : LeaseRecord.t) :
  coordinator_lease self = LeaseAsync →
  InMemoryLease.lease_duration backend <= u64_max →
  lease_state self !! LeaseKey.new (InMemoryLease.namespace backend) et = Some r →
  LeaseRecord.holder_node r ≠ ClusterMembership.local_node_id (membership self) →
  lease_now clock et < LeaseRecord.expires_at_millis r →
  (∀ token, lease_tokens self !! et = Some token →
     token_key token = LeaseKey.new (InMemoryLease.namespace backend) et) →
  ∃ self' e,
    reconcile_entity store (InMemoryLease.lease backend) region AsyncApi clock et self =
      (self', Err (Sharding e)) ∧
    core self' = core self ∧ regions self' = regions self ∧ lease_state self' = lease_state self.
Proof.
  intros Hlease Hd Hr Hh Hexp Htok. unfold reconcile_entity, op_bind; simpl.
  unfold ensure_coordinator_leadership_async. rewrite Hlease. simpl.
  assert (∃ e, InMemoryLease.acquire backend (lease_now clock et) (lease_state self) et
      (ClusterMembership.local_node_id (membership self)) = (lease_state self, Err e)) as [e He].
  { unfold InMemoryLease.acquire, InMemoryLease.next_expiry.
    rewrite (proj2 (Z.leb_le _ _)), Hr, decide_False by (done || (intros [?|?]; [done|lia])).
    by eexists. }
  rewrite He. destruct (lease_tokens self !! et) as [token|] eqn:Ht; [|by eexists _, _].
  case_decide as Hcase; [|by eexists _, _]. destruct Hcase as [Hmine _].
  specialize (Htok token eq_refl).
  unfold InMemoryLease.renew, InMemoryLease.next_expiry.
  rewrite (proj2 (Z.leb_le _ _)) by done. fold (token_key token). rewrite Htok, Hr.
  rewrite decide_True by (left; congruence). by eexists _, _.
Qed.

End leadership.

(** ** Concrete runs *)

(** A region that keeps the last snapshot it was shown. *)
Definition mirror_region : RegisteredShardRegion (option ShardOwnershipSnapshot.t) := {|
  local_node_id _ := None;
  refresh_ownership _ snapshot := (Some snapshot, Ok tt);
  begin_shard_handoff g _ := (g, Ok 0%nat);
  complete_shard_handoff g _ := (g, Ok 0%nat);
  acquire_shard g _ := (g, Ok 0%nat);
|}.

Definition fixed_clock (now : Z) : Clock :=
  {| token_now _ := now; lease_now _ := now; persist_now _ := now |}.

(** A runtime of node [a] with the carts coordinator, a region and a store that holds
    [stored]; [b] has just come up. *)
Definition cart_runtime (lease_mode : CoordinatorLeaseMode) (leases : InMemoryLease.records)
    (stored : InMemoryCoordinatorStore.states) (c : ShardCoordinator.t) :
    ClusterShardingRuntime.t InMemoryCoordinatorStore.states InMemoryLease.records
      (option ShardOwnershipSnapshot.t) :=
  ClusterShardingRuntime.mk joined {[carts := c]} {[carts := [None]]} StoreSync lease_mode ∅
    stored leases.

Definition stored_carts : InMemoryCoordinatorStore.states :=
  {[carts := PersistedShardCoordinatorState.new
               (ShardCoordinator.snapshot (placed_alone modulo_strategy)) "deterministic-modulo" 1000]}.

Definition cart_pass (self : ClusterShardingRuntime.t InMemoryCoordinatorStore.states
    InMemoryLease.records (option ShardOwnershipSnapshot.t)) :=
  reconcile_and_publish InMemoryCoordinatorStore.store (InMemoryLease.lease InMemoryLease.new)
    mirror_region (fixed_clock 4000) [] self.

(** [b] takes over its shards; store and coordinator agree afterwards. *)
Lemma reconcile_and_publish_in_step_witness :
  let self := cart_runtime LeaseNone ∅ stored_carts (placed_alone modulo_strategy) in
  let (self', res) := cart_pass self in
  synced InMemoryCoordinatorStore.store self' ∧ is_ok res = true ∧
  regions self' !! carts =
    Some [Some (ShardCoordinator.snapshot
                  (ShardCoordinator.reconcile (placed_alone modulo_strategy) joined).1)].
Proof.
  cbv zeta. destruct (cart_pass _) as [self' res] eqn:Hrun.
  assert (res = (cart_pass (cart_runtime LeaseNone ∅ stored_carts (placed_alone modulo_strategy))).2 ∧
          self' = (cart_pass (cart_runtime LeaseNone ∅ stored_carts (placed_alone modulo_strategy))).1)
    as [Hres Hself] by (rewrite Hrun; split; reflexivity).
  assert (is_ok res = true) as Hok by (rewrite Hres; vm_compute; reflexivity).
  destruct res as [update|e]; [|discriminate].
  split; [|split; [reflexivity|rewrite Hself; vm_compute; reflexivity]].
  apply (reconcile_and_publish_in_step InMemoryCoordinatorStore.store
           (InMemoryLease.lease InMemoryLease.new) mirror_region SyncApi (fixed_clock 4000) []
           (cart_runtime LeaseNone ∅ stored_carts (placed_alone modulo_strategy)) self' update).
  - exact Hrun.
  - discriminate.
  - intros et c Hc. simpl in Hc. apply lookup_singleton_Some in Hc as [<- <-].
    split; [reflexivity|]. eexists. split; [reflexivity|]. simpl. reflexivity.
Defined.

(** Another writer has moved the stored revision to 7. *)
Definition taken_over : InMemoryCoordinatorStore.states :=
  {[carts := PersistedShardCoordinatorState.new (ShardOwnershipSnapshot.mk 7 carts 4 [])
               "deterministic-modulo" 2000]}.

Lemma refused_persist_not_retried_witness :
  let self := cart_runtime LeaseNone ∅ taken_over (placed_alone modulo_strategy) in
  ∃ self1,
    cart_pass self = (self1, Err (Sharding (CoordinatorRevisionConflict carts 1 7))) ∧
    store_state self1 = taken_over ∧
    cart_pass self1 = (self1, Ok (ClusterShardingUpdate.new [] [] [])).
Proof.
  cbv zeta.
  destruct (refused_persist_not_retried InMemoryCoordinatorStore.store
              (InMemoryLease.lease InMemoryLease.new) mirror_region (fixed_clock 4000) (fixed_clock 4000)
              [] [] (cart_runtime LeaseNone ∅ taken_over (placed_alone modulo_strategy)) carts
              (placed_alone modulo_strategy)
              (ShardCoordinator.reconcile (placed_alone modulo_strategy) joined).1
              (ShardCoordinator.reconcile (placed_alone modulo_strategy) joined).2
              (taken_over !! carts)) as (self1 & Hfail & _ & Hstore & _ & Hagain).
  - reflexivity.
  - reflexivity.
  - reflexivity.
  - reflexivity.
  - apply placed_alone_wf.
  - reflexivity.
  - vm_compute. discriminate.
  - apply surjective_pairing.
  - vm_compute. reflexivity.
  - reflexivity.
  - vm_compute. discriminate.
  - exact (ex_intro _ self1 (conj Hfail (conj Hstore Hagain))).
Defined.

(** [b] holds the lease of the carts coordinator. *)
Definition led_by_b : InMemoryLease.records :=
  {[LeaseKey.new "default" carts := LeaseRecord.mk (ClusterNode.id node_b) 3 10000]}.

Lemma non_leader_changes_nothing_witness :
  let self := cart_runtime LeaseAsync led_by_b stored_carts (placed_alone modulo_strategy) in
  ∃ self' e,
    reconcile_entity InMemoryCoordinatorStore.store (InMemoryLease.lease InMemoryLease.new)
      mirror_region AsyncApi (fixed_clock 4000) carts self = (self', Err (Sharding e)) ∧
    core self' = core self ∧ regions self' = regions self ∧ lease_state self' = lease_state self.
Proof.
  cbv zeta.
  apply (non_leader_changes_nothing InMemoryCoordinatorStore.store InMemoryLease.new mirror_region
           (fixed_clock 4000)
           (cart_runtime LeaseAsync led_by_b stored_carts (placed_alone modulo_strategy)) carts
           (LeaseRecord.mk (ClusterNode.id node_b) 3 10000)).
  - reflexivity.
  - vm_compute. discriminate.
  - vm_compute. reflexivity.
  - discriminate.
  - simpl. lia.
  - intros token Hnone. discriminate.
Defined.
