(* ===== verification/Remembered.v ===== *)
(** * Remembered entities: [rakka-sharding/src/remembered_entities.rs]

    The in-memory store of the entity ids to restart in a shard, and the replay
    settings derived from its configuration. *)

From S2P Require Import Prelude Identity.

Module RememberedEntityReplaySettings.

Record t := mk { start_batch_size : nat; start_batch_delay : Z }.

Definition new (start_batch_size : nat) (start_batch_delay : Z) : t :=
  mk (Nat.max start_batch_size 1) start_batch_delay.

Definition default : t := new 64 0.

End RememberedEntityReplaySettings.

Module InMemoryRememberedEntityStore.

Abbreviation entities := (gmap ShardKey.t (gset EntityId.t)).

Definition new : entities := ∅.

Definition len_for_shard (self : entities) (shard : ShardKey.t) : nat :=
  match self !! shard with Some ids => size ids | None => 0%nat end.

Definition len (self : entities) : nat :=
  foldr (fun ids total => (size ids + total)%nat) 0%nat (btree_values self).

Definition is_empty (self : entities) : bool := bool_decide (len self = 0%nat).

(** [entry(shard).or_default().insert(entity_id)]. *)
Definition remember (self : entities) (shard : ShardKey.t) (entity_id : EntityId.t) : entities :=
  <[shard := {[entity_id]} ∪ default ∅ (self !! shard)]> self.

Definition forget (self : entities) (shard : ShardKey.t) (entity_id : EntityId.t) :
    entities * bool :=
  match self !! shard with
  | None => (self, false)
  | Some ids =>
      let removed := bool_decide (entity_id ∈ ids) in
      let ids := ids ∖ {[entity_id]} in
      if decide (ids = ∅) then (delete shard self, removed)
      else (<[shard := ids]> self, removed)
  end.

Definition remembered_for_shard (self : entities) (shard : ShardKey.t) : list EntityId.t :=
  match self !! shard with
  | Some ids => merge_sort key_le (elements ids)
  | None => []
  end.

End InMemoryRememberedEntityStore.

Import InMemoryRememberedEntityStore.

(** ** The store is a set of (shard, entity) pairs *)

Inductive remembered_op :=
| Remember (shard : ShardKey.t) (entity_id : EntityId.t)
| Forget (shard : ShardKey.t) (entity_id : EntityId.t).

Definition run_remembered (self : entities) (o : remembered_op) : entities :=
  match o with
  | Remember shard entity_id => remember self shard entity_id
  | Forget shard entity_id => (forget self shard entity_id).1
  end.

(** The abstract state. *)
Definition spec_remembered (s : gset (ShardKey.t * EntityId.t)) (o : remembered_op) :
    gset (ShardKey.t * EntityId.t) :=
  match o with
  | Remember shard entity_id => {[(shard, entity_id)]} ∪ s
  | Forget shard entity_id => s ∖ {[(shard, entity_id)]}
  end.

(** The store represents the set, and keeps no empty shard. *)
Definition represents (self : entities) (s : gset (ShardKey.t * EntityId.t)) : Prop :=
  (∀ shard id, (shard, id) ∈ s ↔ ∃ ids, self !! shard = Some ids ∧ id ∈ ids) ∧
  (∀ shard ids, self !! shard = Some ids → ids ≠ ∅).

Lemma remember_represents self s shard id :
  represents self s → represents (remember self shard id) ({[(shard, id)]} ∪ s).
Proof.
  intros [Hin Hne]. unfold remember. split.
  - intros shard' id'. rewrite elem_of_union, elem_of_singleton, Hin, lookup_insert.
    destruct (decide (shard = shard')) as [<-|Hs].
    + destruct (self !! shard) as [ids|]; simpl; split.
      * intros [[= ->]|(ids' & [= <-] & ?)]; (eexists; split; [done|]); set_solver.
      * intros (ids' & [= <-] & Hi). apply elem_of_union in Hi as [->%elem_of_singleton|?]; eauto.
      * intros [[= ->]|(ids' & ? & ?)]; [|done]. eexists. split; [done|]. set_solver.
      * intros (ids' & [= <-] & Hi). left. set_solver.
    + naive_solver.
  - intros shard' ids. rewrite lookup_insert. case_decide; [intros [= <-]; set_solver|apply Hne].
Qed.

Lemma forget_represents self s shard id :
  represents self s → represents (forget self shard id).1 (s ∖ {[(shard, id)]}).
Proof.
  intros [Hin Hne]. unfold forget.
  destruct (self !! shard) as [ids|] eqn:Hs; simpl.
  - assert (∀ shard' id', (shard', id') ∈ s ∖ {[(shard, id)]} ↔
      ∃ ids', self !! shard' = Some ids' ∧ id' ∈ ids' ∧ (shard', id') ≠ (shard, id)) as Hin'.
    { intros shard' id'. rewrite elem_of_difference, elem_of_singleton, Hin. naive_solver. }
    case_decide as Hd; simpl; split.
    + intros shard' id'. rewrite Hin', lookup_delete. case_decide; [subst shard'|naive_solver].
      split; [|naive_solver]. intros (ids' & Hids & Hi & Hn). simplify_eq. set_solver.
    + intros shard' ids'. rewrite lookup_delete. case_decide; [done|apply Hne].
    + intros shard' id'. rewrite Hin', lookup_insert. case_decide; [subst shard'|naive_solver].
      split; [intros (ids' & Hids & Hi & Hn)|intros (ids' & Hids & Hi)]; simplify_eq.
      * eexists. split; [done|]. set_solver.
      * exists ids. split; [done|]. set_solver.
    + intros shard' ids'. rewrite lookup_insert. case_decide; [by intros [= <-]|apply Hne].
  - split; [|done]. intros shard' id'. rewrite elem_of_difference, elem_of_singleton, Hin.
    naive_solver.
Qed.

(** The remembered-entity store refines a set of (shard, entity) pairs: after any
    sequence of remember and forget calls a shard replays exactly its members, once
    each and in ascending order, a forget reports whether the pair was there, and no
    empty shard is kept. *)
Theorem remembered_store_refines_set (ops : list remembered_op) :
  let self := foldl run_remembered new ops in
  let s := foldl spec_remembered ∅ ops in
  (∀ shard, StronglySorted key_le (remembered_for_shard self shard) ∧
            NoDup (remembered_for_shard self shard) ∧
            length (remembered_for_shard self shard) = len_for_shard self shard ∧
            ∀ id, id ∈ remembered_for_shard self shard ↔ (shard, id) ∈ s) ∧
  (∀ shard id, (forget self shard id).2 = bool_decide ((shard, id) ∈ s)) ∧
  (∀ shard, is_Some (self !! shard) ↔ ∃ id, (shard, id) ∈ s).
Proof.
  intros self s.
  assert (represents self s) as [Hin Hne].
  { subst self s. assert (represents new ∅) as H0 by (split; [set_solver|by intros ??]).
    revert H0. generalize new (∅ : gset (ShardKey.t * EntityId.t)).
    induction ops as [|o ops IH]; intros e0 s0 H0; [done|]. apply IH.
    destruct o; [by apply remember_represents|by apply forget_represents]. }
  split_and!.
  - intros shard. unfold remembered_for_shard, len_for_shard.
    pose proof (Hin shard) as Hin'.
    destruct (self !! shard) as [ids|] eqn:Hs.
    + split_and!.
      * apply StronglySorted_merge_sort; apply _.
      * rewrite merge_sort_Permutation. apply NoDup_elements.
      * by rewrite merge_sort_Permutation.
      * intros id. rewrite merge_sort_Permutation, elem_of_elements, Hin'. naive_solver.
    + split_and!; [constructor|constructor|done|]. intros id. rewrite Hin'. set_solver.
  - intros shard id. pose proof (Hin shard id) as Hin'. unfold forget.
    destruct (self !! shard) as [ids|]; simpl.
    + case_decide; simpl; apply bool_decide_ext; rewrite Hin'; naive_solver.
    + symmetry. apply bool_decide_eq_false. rewrite Hin'. naive_solver.
  - intros shard. split.
    + intros [ids Hs]. apply Hne in Hs as Hn. apply set_choose_L in Hn as [id Hid].
      exists id. apply Hin. by exists ids.
    + intros [id Hid]. apply Hin in Hid as (ids & Hs & _). by eexists.
Qed.
