(* ===== verification/Region.v ===== *)
(** * Shard regions: [rakka-sharding/src/routing.rs]

    The region of a node routes the messages for the entities of one type: it resolves the
    owner of the entity's shard from its owner cache, hands the message to its route, and
    buffers it while the shard moves, has no owner, or the entity is being passivated.
    The route ([EntityRoute]) is an argument: a record of operations over a state of its
    own.  Clock readings are inputs, one per call. *)

From stdpp Require Import pretty.
From S2P Require Import Prelude Node Identity Allocation Coordinator Runtime Remembered.

(** ** Failures *)

Definition ShardHandoffState_fmt (self : ShardHandoffState) : string :=
  match self with
  | Owning => "owning"
  | Draining => "draining"
  | Transferring => "transferring"
  | Acquired => "acquired"
  end.

Module EntityDeliveryFailure.
Inductive t :=
| MailboxFull
| MailboxClosed
| NotLocal (owner : NodeId.t)
| SpawnFailed (message : string)
| RemoteEncode (message : string)
| RemoteSend (message : string)
| ShardHandoff (shard_id : ShardId.t) (state : ShardHandoffState)
| ShardBufferFull (shard_id : ShardId.t) (capacity : nat)
| Rejected (message : string).

Definition code (self : t) : string :=
  match self with
  | MailboxFull => "entity-mailbox-full"
  | MailboxClosed => "entity-mailbox-closed"
  | NotLocal _ => "entity-not-local"
  | SpawnFailed _ => "entity-spawn-failed"
  | RemoteEncode _ => "entity-remote-encode"
  | RemoteSend _ => "entity-remote-send"
  | ShardHandoff _ _ => "entity-shard-handoff"
  | ShardBufferFull _ _ => "entity-shard-buffer-full"
  | Rejected _ => "entity-rejected"
  end.

(** [Display]. *)
Definition fmt (self : t) : string :=
  match self with
  | MailboxFull => "entity route mailbox was full"
  | MailboxClosed => "entity route mailbox was closed"
  | NotLocal owner => "entity shard is owned by remote node " +:+ NodeId.fmt owner
  | SpawnFailed message => "entity actor spawn failed: " +:+ message
  | RemoteEncode message => "remote entity encode failed: " +:+ message
  | RemoteSend message => "remote entity send failed: " +:+ message
  | ShardHandoff shard_id state =>
      "shard " +:+ pretty (ShardId.as_u32 shard_id) +:+ " is " +:+ ShardHandoffState_fmt state
      +:+ " during graceful handoff"
  | ShardBufferFull shard_id capacity =>
      "shard " +:+ pretty (ShardId.as_u32 shard_id) +:+ " buffer is full at capacity "
      +:+ pretty capacity
  | Rejected message => "entity route rejected message: " +:+ message
  end.
End EntityDeliveryFailure.

Inductive EntityTellError (M : Type) :=
| NoRoute (message : M) (error : ShardingError)
| Delivery (message : M) (failure : EntityDeliveryFailure.t).
Arguments NoRoute {M} message error.
Arguments Delivery {M} message failure.

Definition EntityTellError_into_message {M} (self : EntityTellError M) : M :=
  match self with NoRoute message _ | Delivery message _ => message end.

Definition EntityTellError_code {M} (self : EntityTellError M) : string :=
  match self with
  | NoRoute _ _ => "entity-no-route"
  | Delivery _ failure => EntityDeliveryFailure.code failure
  end.

Module RoutedEntityMessage.
Record t (M : Type) := new {
  entity_type : EntityType.t;
  entity_id : EntityId.t;
  shard_id : ShardId.t;
  owner : NodeId.t;
  message : M;
}.
Arguments new {M}.
Arguments entity_type {M}.
Arguments entity_id {M}.
Arguments shard_id {M}.
Arguments owner {M}.
Arguments message {M}.
End RoutedEntityMessage.

(** The trait [EntityRoute], over a state [W]. *)
Module EntityRoute.
Record t (W M : Type) := mk {
  deliver : RoutedEntityMessage.t M → act W (result (EntityTellError M) unit);
  local_node_id : option NodeId.t;
  begin_shard_handoff : ShardId.t → act W (ShardingResult nat);
  complete_shard_handoff : ShardId.t → act W (ShardingResult nat);
  acquire_shard : ShardId.t → act W (ShardingResult nat);
  activate_entity : EntityType.t → EntityId.t → ShardId.t → act W (ShardingResult bool);
  shard_handoff_state : ShardId.t → W → option ShardHandoffState;
}.
Arguments mk {W M}.
Arguments deliver {W M}.
Arguments local_node_id {W M}.
Arguments begin_shard_handoff {W M}.
Arguments complete_shard_handoff {W M}.
Arguments acquire_shard {W M}.
Arguments activate_entity {W M}.
Arguments shard_handoff_state {W M}.
End EntityRoute.

(** ** The message buffer *)

Inductive ShardBufferOverflow := FailFast | DropNewest | DropOldest.

Module ShardBufferConfig.
Record t := mk { capacity_per_shard : nat; overflow : ShardBufferOverflow; ttl : Z }.

Definition new (capacity_per_shard : nat) (ttl : Z) : t :=
  mk (Nat.max capacity_per_shard 1) FailFast ttl.
Definition with_capacity_per_shard (self : t) (capacity_per_shard : nat) : t :=
  mk (Nat.max capacity_per_shard 1) (overflow self) (ttl self).
Definition with_overflow (self : t) (overflow : ShardBufferOverflow) : t :=
  mk (capacity_per_shard self) overflow (ttl self).
Definition with_ttl (self : t) (ttl : Z) : t :=
  mk (capacity_per_shard self) (overflow self) ttl.
Definition default : t := new 64 5000.
End ShardBufferConfig.

Module BufferedEntityMessage.
Record t (M : Type) := new {
  entity_type : EntityType.t;
  entity_id : EntityId.t;
  shard_id : ShardId.t;
  message : M;
  enqueued_at : Z;
}.
Arguments new {M}.
Arguments entity_type {M}.
Arguments entity_id {M}.
Arguments shard_id {M}.
Arguments message {M}.
Arguments enqueued_at {M}.
End BufferedEntityMessage.

Module ShardMessageBuffer.
Section buffer.
Context {M : Type}.

Record t := mk {
  config : ShardBufferConfig.t;
  queues : gmap ShardId.t (list (BufferedEntityMessage.t M));
  paused_entities : gmap EntityId.t Z;
}.

Definition new (config : ShardBufferConfig.t) : t := mk config ∅ ∅.

Definition queue (self : t) (shard_id : ShardId.t) : list (BufferedEntityMessage.t M) :=
  default [] (queues self !! shard_id).

Definition set_queue (self : t) (shard_id : ShardId.t) (q : list (BufferedEntityMessage.t M)) : t :=
  mk (config self) (<[shard_id := q]> (queues self)) (paused_entities self).

(** [queues.entry(shard_id).or_default()] leaves an entry behind also when the message is
    refused. *)
Definition enqueue (self : t) (entity_type : EntityType.t) (entity_id : EntityId.t)
    (shard_id : ShardId.t) (message : M) (enqueued_at : Z) :
    t * result (EntityTellError M) unit :=
  let q := queue self shard_id in
  let buffered := BufferedEntityMessage.new entity_type entity_id shard_id message enqueued_at in
  if (length q <? ShardBufferConfig.capacity_per_shard (config self))%nat then
    (set_queue self shard_id (q ++ [buffered]), Ok tt)
  else
    match ShardBufferConfig.overflow (config self) with
    | FailFast =>
        (set_queue self shard_id q,
         Err (Delivery message (EntityDeliveryFailure.ShardBufferFull shard_id
                                  (ShardBufferConfig.capacity_per_shard (config self)))))
    | DropNewest => (set_queue self shard_id q, Ok tt)
    | DropOldest => (set_queue self shard_id (tail q ++ [buffered]), Ok tt)
    end.

Definition requeue (self : t) (message : BufferedEntityMessage.t M) : t :=
  let shard_id := BufferedEntityMessage.shard_id message in
  let q := queue self shard_id in
  if (length q <? ShardBufferConfig.capacity_per_shard (config self))%nat then
    set_queue self shard_id (q ++ [message])
  else set_queue self shard_id q.

Definition set_paused (self : t) (paused_entities : gmap EntityId.t Z) : t :=
  mk (config self) (queues self) paused_entities.

Definition pause_entity (self : t) (entity_id : EntityId.t) (until : Z) : t :=
  set_paused self (<[entity_id := until]> (paused_entities self)).

Definition still_paused (now : Z) (paused_entities : gmap EntityId.t Z) : gmap EntityId.t Z :=
  filter (fun p => now < p.2) paused_entities.

Definition is_entity_paused (self : t) (entity_id : EntityId.t) (now : Z) : t * bool :=
  let self := set_paused self (still_paused now (paused_entities self)) in
  (self, bool_decide (is_Some (paused_entities self !! entity_id))).

Definition resume_entity (self : t) (entity_id : EntityId.t) : t :=
  set_paused self (delete entity_id (paused_entities self)).

Definition expired (self : t) (now : Z) (message : BufferedEntityMessage.t M) : bool :=
  ShardBufferConfig.ttl (config self) <?
    saturating_sub now (BufferedEntityMessage.enqueued_at message).

(** The inner loop of [drain_ready]: [n] times, take the first message; drop it, put it
    back or add it to [ready]. *)
Fixpoint drain_queue (self : t) (now : Z) (n : nat) (q ready : list (BufferedEntityMessage.t M)) :
    list (BufferedEntityMessage.t M) * list (BufferedEntityMessage.t M) :=
  match n, q with
  | S n, message :: q =>
      if expired self now message then drain_queue self now n q ready
      else if decide (is_Some (paused_entities self !! BufferedEntityMessage.entity_id message)) then
        drain_queue self now n (q ++ [message]) ready
      else drain_queue self now n q (ready ++ [message])
  | _, _ => (q, ready)
  end.

(** The outer loop, over the queues in the order of their shards. *)
Fixpoint drain_queues (self : t) (now : Z)
    (entries : list (ShardId.t * list (BufferedEntityMessage.t M)))
    (ready : list (BufferedEntityMessage.t M)) :
    gmap ShardId.t (list (BufferedEntityMessage.t M)) * list (BufferedEntityMessage.t M) :=
  match entries with
  | [] => (∅, ready)
  | (shard_id, q) :: entries =>
      let (q, ready) := drain_queue self now (length q) q ready in
      let (queues, ready) := drain_queues self now entries ready in
      (<[shard_id := q]> queues, ready)
  end.

Definition drain_ready (self : t) (now : Z) : t * list (BufferedEntityMessage.t M) :=
  let self := set_paused self (still_paused now (paused_entities self)) in
  let (queues, ready) := drain_queues self now (btree_entries (queues self)) [] in
  (mk (config self) (filter (fun p => p.2 ≠ []) queues) (paused_entities self), ready).

Definition message_count (self : t) : nat :=
  sum_list (length <$> btree_values (queues self)).

Definition message_count_for_shard (self : t) (shard_id : ShardId.t) : nat :=
  length (queue self shard_id).
End buffer.
Arguments t : clear implicits.
End ShardMessageBuffer.

(** ** The owner cache *)

Definition validate_snapshot (entity_type : EntityType.t) (config : ShardingConfig.t)
    (snapshot : ShardOwnershipSnapshot.t) : ShardingResult unit :=
  if decide (ShardOwnershipSnapshot.entity_type snapshot = entity_type ∧
             ShardOwnershipSnapshot.number_of_shards snapshot
             = ShardingConfig.number_of_shards config)
  then Ok tt
  else Err (OwnershipSnapshotMismatch entity_type (ShardOwnershipSnapshot.entity_type snapshot)
              (ShardingConfig.number_of_shards config)
              (ShardOwnershipSnapshot.number_of_shards snapshot)).

(** [assignments().iter().map(..).collect()] into a map: the last entry of a shard wins. *)
Definition owners_of (snapshot : ShardOwnershipSnapshot.t) : gmap ShardId.t NodeId.t :=
  foldl (fun owners assignment =>
           <[ShardKey.shard_id (ShardAssignment.shard assignment)
             := ShardAssignment.owner assignment]> owners)
    ∅ (ShardOwnershipSnapshot.assignments snapshot).

Module ShardOwnerCache.
Record t := mk {
  entity_type : EntityType.t;
  config : ShardingConfig.t;
  revision : Z;
  owners : gmap ShardId.t NodeId.t;
}.

Definition empty (entity_type : EntityType.t) (config : ShardingConfig.t) : t :=
  mk entity_type config 0 ∅.

Definition refresh (self : t) (snapshot : ShardOwnershipSnapshot.t) : t * ShardingResult unit :=
  match validate_snapshot (entity_type self) (config self) snapshot with
  | Err error => (self, Err error)
  | Ok _ =>
      (mk (entity_type self) (config self) (ShardOwnershipSnapshot.revision snapshot)
          (owners_of snapshot), Ok tt)
  end.

Definition from_snapshot (entity_type : EntityType.t) (config : ShardingConfig.t)
    (snapshot : ShardOwnershipSnapshot.t) : ShardingResult t :=
  let? _ := validate_snapshot entity_type config snapshot in
  let (cache, r) := refresh (empty entity_type config) snapshot in
  let? _ := r in Ok cache.

Definition owner_for_shard (self : t) (shard_id : ShardId.t) : ShardingResult NodeId.t :=
  if ShardingConfig.contains_shard (config self) shard_id then
    ok_or (NoShardOwner (entity_type self) shard_id) (owners self !! shard_id)
  else Err (UnknownShard shard_id (ShardingConfig.number_of_shards (config self))).

Definition owner_for_entity (self : t) (entity_id : EntityId.t) :
    ShardingResult (NodeId.t * ShardId.t) :=
  let shard_id := for_entity (entity_type self) entity_id (config self) in
  match owner_for_shard self shard_id with
  | Ok owner => Ok (owner, shard_id)
  | Err (NoShardOwner _ _) => Err (NoEntityOwner (entity_type self) entity_id shard_id)
  | Err other => Err other
  end.
End ShardOwnerCache.

(** The shards [local_node_id] loses and gains with a snapshot. *)
Definition local_ownership_changes (previous_owners : gmap ShardId.t NodeId.t)
    (snapshot : ShardOwnershipSnapshot.t) (config : ShardingConfig.t) (local_node_id : NodeId.t) :
    list ShardId.t * list ShardId.t :=
  let next_owners := owners_of snapshot in
  let was_local shard_id := bool_decide (previous_owners !! shard_id = Some local_node_id) in
  let is_local shard_id := bool_decide (next_owners !! shard_id = Some local_node_id) in
  let shards := shard_ids (ShardingConfig.number_of_shards config) in
  (filter (fun shard_id => was_local shard_id && negb (is_local shard_id)) shards,
   filter (fun shard_id => negb (was_local shard_id) && is_local shard_id) shards).

(** ** The region *)

(** [act_each f l] runs [f] on the elements of [l] in order. *)
Fixpoint act_each {S A} (f : A → act S unit) (l : list A) : act S unit :=
  match l with
  | [] => act_ret tt
  | x :: l => let! _ := f x in act_each f l
  end.

(** A loop over the elements of [l] that stops at the first error, as [?] does. *)
Fixpoint act_try {S A E B} (f : A → act S (result E B)) (l : list A) : act S (result E unit) :=
  match l with
  | [] => act_ret (Ok tt)
  | x :: l =>
      let! r := f x in
      match r with Ok _ => act_try f l | Err e => act_ret (Err e) end
  end.

Module ShardRegion.
Section region.
Context {W M : Type} (route : EntityRoute.t W M).

(** The mutable parts are shared by the clones of a region: the owner cache, the route,
    the buffer, and the replays of remembered entities that were started
    ([replays], the shards of the spawned tasks). *)
Record t := mk {
  entity_type : EntityType.t;
  config : ShardingConfig.t;
  owner_cache : ShardOwnerCache.t;
  route_state : W;
  buffer : option (ShardMessageBuffer.t M);
  allocation_strategy : ShardAllocationStrategy;
  remembered_entities : option RememberedEntityReplaySettings.t;
  replays : list ShardKey.t;
}.

Definition new (entity_type : EntityType.t) (config : ShardingConfig.t) (w : W) : t :=
  mk entity_type config (ShardOwnerCache.empty entity_type config) w None
     (DeterministicModulo.strategy DeterministicModulo.new) None [].

Definition from_snapshot (entity_type : EntityType.t) (config : ShardingConfig.t)
    (snapshot : ShardOwnershipSnapshot.t) (w : W) : ShardingResult t :=
  let? cache := ShardOwnerCache.from_snapshot entity_type config snapshot in
  Ok (mk entity_type config cache w None
         (DeterministicModulo.strategy DeterministicModulo.new) None []).

Definition set_owner_cache (self : t) (owner_cache : ShardOwnerCache.t) : t :=
  mk (entity_type self) (config self) owner_cache (route_state self) (buffer self)
     (allocation_strategy self) (remembered_entities self) (replays self).

Definition set_route (self : t) (w : W) : t :=
  mk (entity_type self) (config self) (owner_cache self) w (buffer self)
     (allocation_strategy self) (remembered_entities self) (replays self).

Definition set_buffer (self : t) (buffer : option (ShardMessageBuffer.t M)) : t :=
  mk (entity_type self) (config self) (owner_cache self) (route_state self) buffer
     (allocation_strategy self) (remembered_entities self) (replays self).

Definition add_replay (self : t) (shard : ShardKey.t) : t :=
  mk (entity_type self) (config self) (owner_cache self) (route_state self) (buffer self)
     (allocation_strategy self) (remembered_entities self) (replays self ++ [shard]).

Definition with_buffering (self : t) (config : ShardBufferConfig.t) : t :=
  set_buffer self (Some (ShardMessageBuffer.new config)).

Definition with_allocation_strategy_ref (self : t) (strategy : ShardAllocationStrategy) : t :=
  mk (entity_type self) (config self) (owner_cache self) (route_state self) (buffer self)
     strategy (remembered_entities self) (replays self).

Definition with_remembered_entities (self : t) (settings : RememberedEntityReplaySettings.t) : t :=
  mk (entity_type self) (config self) (owner_cache self) (route_state self) (buffer self)
     (allocation_strategy self) (Some settings) (replays self).

Definition owner_revision (self : t) : Z := ShardOwnerCache.revision (owner_cache self).

Definition get {A} (f : t → A) : act t A := fun self => (self, f self).
Definition modify (f : t → t) : act t unit := fun self => (f self, tt).

Definition on_route {A} (m : act W A) : act t A := fun self =>
  let (w, a) := m (route_state self) in (set_route self w, a).

(** An update of the buffer, if there is one. *)
Definition on_buffer {A} (default : A) (f : ShardMessageBuffer.t M → ShardMessageBuffer.t M * A) :
    act t A := fun self =>
  match buffer self with
  | Some b => let (b, a) := f b in (set_buffer self (Some b), a)
  | None => (self, default)
  end.

Definition buffer_config (self : t) : option ShardBufferConfig.t :=
  ShardMessageBuffer.config <$> buffer self.

Definition buffered_message_count (self : t) : nat :=
  match buffer self with Some b => ShardMessageBuffer.message_count b | None => 0%nat end.

Definition buffered_message_count_for_shard (self : t) (shard_id : ShardId.t) : nat :=
  match buffer self with
  | Some b => ShardMessageBuffer.message_count_for_shard b shard_id
  | None => 0%nat
  end.

Definition ensure_entity_type (self : t) (entity : EntityRef.t) : ShardingResult unit :=
  if decide (EntityRef.entity_type entity = entity_type self) then Ok tt
  else Err (EntityTypeMismatch (entity_type self) (EntityRef.entity_type entity)).

Definition resolve (self : t) (entity : EntityRef.t) : ShardingResult (NodeId.t * ShardId.t) :=
  let? _ := ensure_entity_type self entity in
  ShardOwnerCache.owner_for_entity (owner_cache self) (EntityRef.entity_id entity).

(** *** Telling *)

Definition enqueue_buffered (now : Z) (entity_type : EntityType.t) (entity_id : EntityId.t)
    (shard_id : ShardId.t) (message : M) : act t (result (EntityTellError M) unit) := fun self =>
  on_buffer
    (Err (Delivery message (EntityDeliveryFailure.ShardHandoff shard_id
            (default Transferring (EntityRoute.shard_handoff_state route shard_id (route_state self))))))
    (fun b => ShardMessageBuffer.enqueue b entity_type entity_id shard_id message now) self.

Definition is_entity_buffered (now : Z) (entity_id : EntityId.t) : act t bool :=
  on_buffer false (fun b => ShardMessageBuffer.is_entity_paused b entity_id now).

Definition can_buffer_no_route (self : t) (error : ShardingError) : bool :=
  match error with
  | NoShardOwner _ _ | NoEntityOwner _ _ _ => bool_decide (is_Some (buffer_config self))
  | _ => false
  end.

Definition deliver_or_buffer (now : Z) (routed : RoutedEntityMessage.t M) :
    act t (result (EntityTellError M) unit) :=
  let! r := on_route (EntityRoute.deliver route routed) in
  match r with
  | Ok _ => act_ret (Ok tt)
  | Err (Delivery message (EntityDeliveryFailure.ShardHandoff failure_shard_id state)) =>
      let! enabled := get buffer_config in
      match enabled with
      | None => act_ret (Err (Delivery message (EntityDeliveryFailure.ShardHandoff failure_shard_id state)))
      | Some _ =>
          enqueue_buffered now (RoutedEntityMessage.entity_type routed)
            (RoutedEntityMessage.entity_id routed) failure_shard_id message
      end
  | Err error => act_ret (Err error)
  end.

Definition tell (now : Z) (entity : EntityRef.t) (message : M) :
    act t (result (EntityTellError M) unit) :=
  let! checked := get (fun self => ensure_entity_type self entity) in
  match checked with
  | Err error => act_ret (Err (NoRoute message error))
  | Ok _ =>
      let! shard_id := get (fun self => EntityRef.shard_id entity (config self)) in
      let! buffered := is_entity_buffered now (EntityRef.entity_id entity) in
      if (buffered : bool) then
        enqueue_buffered now (EntityRef.entity_type entity) (EntityRef.entity_id entity) shard_id message
      else
        let! owner := get (fun self => ShardOwnerCache.owner_for_entity (owner_cache self)
                                         (EntityRef.entity_id entity)) in
        match owner with
        | Ok (owner, _) =>
            deliver_or_buffer now
              (RoutedEntityMessage.new (EntityRef.entity_type entity) (EntityRef.entity_id entity)
                 shard_id owner message)
        | Err error =>
            let! can_buffer := get (fun self => can_buffer_no_route self error) in
            if (can_buffer : bool) then
              enqueue_buffered now (EntityRef.entity_type entity) (EntityRef.entity_id entity)
                shard_id message
            else act_ret (Err (NoRoute message error))
        end
  end.

(** *** Flushing *)

Definition enqueue_existing_buffered (message : BufferedEntityMessage.t M) : act t unit :=
  on_buffer tt (fun b => (ShardMessageBuffer.requeue b message, tt)).

Definition flush_one_buffered (buffered : BufferedEntityMessage.t M) : act t unit :=
  let entity_type := BufferedEntityMessage.entity_type buffered in
  let entity_id := BufferedEntityMessage.entity_id buffered in
  let! resolved := get (fun self => resolve self (EntityRef.new entity_type entity_id)) in
  match resolved with
  | Err _ => enqueue_existing_buffered buffered
  | Ok (owner, shard_id) =>
      let! r := on_route (EntityRoute.deliver route
                  (RoutedEntityMessage.new entity_type entity_id shard_id owner
                     (BufferedEntityMessage.message buffered))) in
      match r with
      | Ok _ => act_ret tt
      | Err (Delivery message (EntityDeliveryFailure.ShardHandoff shard_id _)) =>
          enqueue_existing_buffered
            (BufferedEntityMessage.new entity_type entity_id shard_id message
               (BufferedEntityMessage.enqueued_at buffered))
      | Err (NoRoute message _) =>
          enqueue_existing_buffered
            (BufferedEntityMessage.new entity_type entity_id
               (BufferedEntityMessage.shard_id buffered) message
               (BufferedEntityMessage.enqueued_at buffered))
      | Err (Delivery _ _) => act_ret tt
      end
  end.

Definition flush_buffered (now : Z) : act t unit :=
  let! ready := on_buffer [] (fun b => ShardMessageBuffer.drain_ready b now) in
  act_each flush_one_buffered ready.

(** [checked_add] on an [Instant] fails only far beyond any clock reading. *)
Definition begin_entity_passivation (now : Z) (entity_id : EntityId.t) (duration : Z) : act t unit :=
  on_buffer tt (fun b => (ShardMessageBuffer.pause_entity b entity_id (now + duration), tt)).

Definition end_entity_passivation (now : Z) (entity_id : EntityId.t) : act t unit :=
  let! _ := on_buffer tt (fun b => (ShardMessageBuffer.resume_entity b entity_id, tt)) in
  flush_buffered now.

(** *** Ownership *)

Definition begin_shard_handoff (shard_id : ShardId.t) : act t (ShardingResult nat) :=
  on_route (EntityRoute.begin_shard_handoff route shard_id).

Definition complete_shard_handoff (shard_id : ShardId.t) : act t (ShardingResult nat) :=
  on_route (EntityRoute.complete_shard_handoff route shard_id).

(** The replay task is started only on a thread of the runtime ([rt]). *)
Definition replay_remembered_for_shard (rt : bool) (shard_id : ShardId.t) : act t unit :=
  modify (fun self =>
    match remembered_entities self with
    | Some _ => if rt then add_replay self (ShardKey.new (entity_type self) shard_id) else self
    | None => self
    end).

Definition replay_remembered_for_owned_shards (rt : bool) (snapshot : ShardOwnershipSnapshot.t) :
    act t unit :=
  match EntityRoute.local_node_id route with
  | None => act_ret tt
  | Some local_node_id =>
      act_each (fun assignment =>
                  if decide (ShardAssignment.owner assignment = local_node_id) then
                    replay_remembered_for_shard rt (ShardKey.shard_id (ShardAssignment.shard assignment))
                  else act_ret tt)
        (ShardOwnershipSnapshot.assignments snapshot)
  end.

Definition acquire_shard (now : Z) (rt : bool) (shard_id : ShardId.t) : act t (ShardingResult nat) :=
  let! r := on_route (EntityRoute.acquire_shard route shard_id) in
  match r with
  | Err error => act_ret (Err error)
  | Ok stopped =>
      let! _ := replay_remembered_for_shard rt shard_id in
      let! _ := flush_buffered now in
      act_ret (Ok stopped)
  end.

Definition activate_entity (entity_id : EntityId.t) : act t (ShardingResult bool) :=
  let! self := get (fun self => self) in
  let shard_id := for_entity (entity_type self) entity_id (config self) in
  match ShardOwnerCache.owner_for_shard (owner_cache self) shard_id with
  | Err error => act_ret (Err error)
  | Ok owner =>
      match EntityRoute.local_node_id route with
      | None => act_ret (Ok false)
      | Some local_node_id =>
          if decide (owner = local_node_id) then
            on_route (EntityRoute.activate_entity route (entity_type self) entity_id shard_id)
          else act_ret (Ok false)
      end
  end.

(** A replay task that found these remembered entities; its batches and pauses only spread
    the activations over time. *)
Definition run_replay (entity_ids : list EntityId.t) : act t unit :=
  act_each (fun entity_id => let! _ := activate_entity entity_id in act_ret tt) entity_ids.

Definition local_changes (self : t) (snapshot : ShardOwnershipSnapshot.t) :
    list ShardId.t * list ShardId.t :=
  match EntityRoute.local_node_id route with
  | None => ([], [])
  | Some local_node_id =>
      local_ownership_changes (ShardOwnerCache.owners (owner_cache self)) snapshot (config self)
        local_node_id
  end.

Definition refresh_cache (snapshot : ShardOwnershipSnapshot.t) : act t (ShardingResult unit) := fun self =>
  let (cache, r) := ShardOwnerCache.refresh (owner_cache self) snapshot in
  (set_owner_cache self cache, r).

Definition refresh_ownership (now : Z) (rt : bool) (snapshot : ShardOwnershipSnapshot.t) :
    act t (ShardingResult unit) :=
  let! self := get (fun self => self) in
  match validate_snapshot (entity_type self) (config self) snapshot with
  | Err error => act_ret (Err error)
  | Ok _ =>
      let (lost_shards, gained_shards) := local_changes self snapshot in
      let! r := act_try (fun shard_id => on_route (EntityRoute.complete_shard_handoff route shard_id))
                  lost_shards in
      match r with
      | Err error => act_ret (Err error)
      | Ok _ =>
          let! r := refresh_cache snapshot in
          match r with
          | Err error => act_ret (Err error)
          | Ok _ =>
              let! r := act_try (fun shard_id => on_route (EntityRoute.acquire_shard route shard_id))
                          gained_shards in
              match r with
              | Err error => act_ret (Err error)
              | Ok _ =>
                  let! _ := flush_buffered now in
                  let! _ := replay_remembered_for_owned_shards rt snapshot in
                  act_ret (Ok tt)
              end
          end
      end
  end.
End region.
Arguments t : clear implicits.
End ShardRegion.

(** [impl RegisteredShardRegion for ShardRegion]: what the cluster runtime calls. *)
Definition registered_region {W M} (route : EntityRoute.t W M) (now : Z) (rt : bool) :
    RegisteredShardRegion (ShardRegion.t W M) := {|
  local_node_id := fun _ => EntityRoute.local_node_id route;
  refresh_ownership := fun self snapshot => ShardRegion.refresh_ownership route now rt snapshot self;
  begin_shard_handoff := fun self shard_id => ShardRegion.begin_shard_handoff route shard_id self;
  complete_shard_handoff := fun self shard_id => ShardRegion.complete_shard_handoff route shard_id self;
  acquire_shard := fun self shard_id => ShardRegion.acquire_shard route now rt shard_id self;
|}.

(** ** Draining the buffer *)

Section drain.
Context {M : Type}.
Implicit Types (b : ShardMessageBuffer.t M) (m : BufferedEntityMessage.t M)
  (q ready : list (BufferedEntityMessage.t M)).

Definition is_paused b m : bool :=
  bool_decide (is_Some (ShardMessageBuffer.paused_entities b !! BufferedEntityMessage.entity_id m)).

(** What a drain at [now] keeps of a queue, and what it takes. *)
Definition kept b now q : list (BufferedEntityMessage.t M) :=
  filter (fun m => ShardMessageBuffer.expired b now m = false ∧ is_paused b m = true) q.
Definition released b now q : list (BufferedEntityMessage.t M) :=
  filter (fun m => ShardMessageBuffer.expired b now m = false ∧ is_paused b m = false) q.

Lemma drain_queue_spec b now q : ∀ rest ready,
  ShardMessageBuffer.drain_queue b now (length q) (q ++ rest) ready
  = (rest ++ kept b now q, ready ++ released b now q).
Proof.
  unfold kept, released.
  induction q as [|m q IH]; intros rest ready; csimpl; [by rewrite !app_nil_r|].
  assert (∀ P (l : list (BufferedEntityMessage.t M)) `{!∀ x, Decision (P x)}, P m →
            filter P (m :: l) = m :: filter P l) as Hin.
  { intros. by rewrite filter_cons, decide_True. }
  assert (∀ P (l : list (BufferedEntityMessage.t M)) `{!∀ x, Decision (P x)}, ¬ P m →
            filter P (m :: l) = filter P l) as Hout.
  { intros. by rewrite filter_cons, decide_False. }
  destruct (ShardMessageBuffer.expired b now m) eqn:He.
  { rewrite IH, !Hout by (rewrite He; naive_solver). done. }
  assert (is_paused b m = bool_decide (is_Some (ShardMessageBuffer.paused_entities b
            !! BufferedEntityMessage.entity_id m))) as Hp by done.
  case_decide; [rewrite bool_decide_true in Hp by done|rewrite bool_decide_false in Hp by done].
  - rewrite <-(assoc_L (++)), IH, <-(assoc_L (++)). f_equal.
    + by rewrite Hin by (by rewrite Hp).
    + by rewrite Hout by (rewrite Hp; naive_solver).
  - rewrite IH, <-(assoc_L (++)). f_equal.
    + by rewrite Hout by (rewrite Hp; naive_solver).
    + by rewrite Hin by (by rewrite Hp).
Qed.

Lemma drain_queues_spec b now entries : ∀ ready queues ready',
  NoDup entries.*1 →
  ShardMessageBuffer.drain_queues b now entries ready = (queues, ready') →
  ready' = ready ++ mjoin (released b now <$> entries.*2) ∧
  (∀ s q, queues !! s = Some q ↔ ∃ q0, (s, q0) ∈ entries ∧ q = kept b now q0).
Proof.
  induction entries as [|[s0 q0] entries IH]; intros ready queues ready'; csimpl.
  { intros _ [= <- <-]. rewrite app_nil_r. split; [done|]. intros s q. rewrite lookup_empty.
    split; [done|]. by intros (? & ?%not_elem_of_nil & _). }
  intros [Hnin Hnd]%NoDup_cons. pose proof (drain_queue_spec b now q0 [] ready) as Hd.
  rewrite app_nil_r in Hd. rewrite Hd. clear Hd. simpl.
  destruct (ShardMessageBuffer.drain_queues _ _ _ _) as [qs rd] eqn:Hrec.
  intros [= <- <-]. destruct (IH _ _ _ Hnd Hrec) as [-> Hqs].
  rewrite (assoc_L (++)). split; [done|]. intros s q. rewrite lookup_insert_Some. split.
  - intros [[<- <-]|[Hne (q1 & Hin & ->)%Hqs]]; [exists q0|exists q1]; (split; [|done]); by constructor.
  - intros (q1 & [[= -> ->]|Hin]%elem_of_cons & ->); [by left|]. right. split.
    + intros ->. apply Hnin, list_elem_of_fmap. by exists (s, q1).
    + apply Hqs. eauto.
Qed.

Lemma lookup_drained b now s :
  default [] (filter (fun p => p.2 ≠ [])
    (ShardMessageBuffer.drain_queues b now (btree_entries (ShardMessageBuffer.queues b)) []).1 !! s)
  = kept b now (ShardMessageBuffer.queue b s).
Proof.
  destruct (ShardMessageBuffer.drain_queues _ _ _ _) as [queues ready] eqn:Hd.
  destruct (drain_queues_spec _ _ _ _ _ _ (NoDup_btree_keys (ShardMessageBuffer.queues b)) Hd)
    as [_ Hq]. simpl.
  assert (∀ q0, ShardMessageBuffer.queues b !! s = Some q0 → queues !! s = Some (kept b now q0)) as HS.
  { intros q0 Hs. apply Hq. exists q0. split; [|done]. by apply elem_of_btree_entries. }
  unfold ShardMessageBuffer.queue.
  destruct (ShardMessageBuffer.queues b !! s) as [q0|] eqn:Hs.
  - specialize (HS _ eq_refl). simpl. destruct (kept b now q0) as [|m q] eqn:Hk.
    + rewrite map_lookup_filter_None_2; [done|]. right. intros q Hqs. naive_solver.
    + by rewrite (map_lookup_filter_Some_2 _ _ _ _ HS).
  - simpl. rewrite map_lookup_filter_None_2; [done|]. left.
    destruct (queues !! s) as [q|] eqn:Hqs; [|done].
    apply Hq in Hqs as (q0 & Hin%elem_of_btree_entries & _). congruence.
Qed.

(** Draining a buffer.  The loop of [drain_ready], which rotates each queue once,
    takes exactly the unexpired messages of entities that are no longer paused, shard by
    shard and in the order of each queue; it leaves exactly the unexpired messages of
    paused entities, in their order; pauses that ended are forgotten, and no empty queue
    stays behind. *)
Theorem drain_ready_exact b now :
  let b0 := ShardMessageBuffer.set_paused b
              (ShardMessageBuffer.still_paused now (ShardMessageBuffer.paused_entities b)) in
  let '(b', ready) := ShardMessageBuffer.drain_ready b now in
  ready = mjoin (released b0 now <$> btree_values (ShardMessageBuffer.queues b)) ∧
  (∀ s, ShardMessageBuffer.queue b' s = kept b0 now (ShardMessageBuffer.queue b s)) ∧
  (∀ s, ShardMessageBuffer.queues b' !! s ≠ Some []) ∧
  ShardMessageBuffer.paused_entities b' = ShardMessageBuffer.paused_entities b0.
Proof.
  intros b0. unfold ShardMessageBuffer.drain_ready. fold b0.
  pose proof (lookup_drained b0 now) as Hlook.
  destruct (ShardMessageBuffer.drain_queues b0 now _ []) as [queues ready] eqn:Hd.
  destruct (drain_queues_spec _ _ _ _ _ _ (NoDup_btree_keys (ShardMessageBuffer.queues b0)) Hd)
    as [-> _]. simpl in Hlook.
  split_and!; [done|exact Hlook| |done].
  intros s [_ []]%map_lookup_filter_Some. done.
Qed.
End drain.
