(* ===== verification/RegionOrder.v ===== *)
(** * Messages through a region: [rakka-sharding/src/routing.rs]

    What a shard region promises its callers while shards move: [RegionEvent] and
    [region_run] are the calls a region gets and what its route does meanwhile,
    [HandoffRoute] is what the proofs ask of a route, and [recorded] keeps a log of what
    the route answered.  The local route has it ([LocalRouteRuns.v]). *)

From S2P Require Import Prelude Node Identity Allocation Coordinator Runtime Remembered Region.

(** ** Routes *)

(** What a route answers when it does not defer: it takes the message, or refuses it. *)
Definition answers_now {M} (r : result (EntityTellError M) unit) : Prop :=
  match r with
  | Ok _ => True
  | Err (Delivery _ (EntityDeliveryFailure.ShardHandoff _ _)) | Err (NoRoute _ _) => False
  | Err (Delivery _ _) => True
  end.

(** A route that defers the messages of the shards it hands off and answers all others at
    once; only an acquisition opens a shard again.  [route now rt] is the route at the time
    [now], on a thread of the runtime or not. *)
Class HandoffRoute {W M : Type} (route : Z → bool → EntityRoute.t W M) := {
  defers : W → NodeId.t → ShardId.t → bool;
  deliver_answers now rt w routed w' r :
    EntityRoute.deliver (route now rt) routed w = (w', r) →
    (∀ o s, defers w' o s = defers w o s) ∧
    if defers w (RoutedEntityMessage.owner routed) (RoutedEntityMessage.shard_id routed)
    then ∃ state, r = Err (Delivery (RoutedEntityMessage.message routed)
           (EntityDeliveryFailure.ShardHandoff (RoutedEntityMessage.shard_id routed) state))
    else answers_now r;
  begin_closes now rt s w w' r :
    EntityRoute.begin_shard_handoff (route now rt) s w = (w', r) →
    ∀ o s', defers w o s' = true → defers w' o s' = true;
  complete_closes now rt s w w' r :
    EntityRoute.complete_shard_handoff (route now rt) s w = (w', r) →
    is_ok r = true ∧ ∀ o s', defers w o s' = true → defers w' o s' = true;
  acquire_answers now rt s w w' r :
    EntityRoute.acquire_shard (route now rt) s w = (w', r) → is_ok r = true;
  activate_keeps now rt entity_type entity_id s w w' r :
    EntityRoute.activate_entity (route now rt) entity_type entity_id s w = (w', r) →
    ∀ o s', defers w' o s' = defers w o s';
}.

(** ** A log of answers *)

(** Messages with what was answered: taken, or refused. *)
Abbreviation answers M := (list (EntityId.t * M * bool)).

Definition oks {M} (l : answers M) : list (EntityId.t * M) := (filter (fun a => a.2 = true) l).*1.
Definition errs {M} (l : answers M) : list (EntityId.t * M) := (filter (fun a => a.2 = false) l).*1.

Section recorded.
Context {W M : Type}.

Definition answer_of (routed : RoutedEntityMessage.t M) (r : result (EntityTellError M) unit) : answers M :=
  let message := (RoutedEntityMessage.entity_id routed, RoutedEntityMessage.message routed) in
  match r with
  | Ok _ => [(message, true)]
  | Err (Delivery _ (EntityDeliveryFailure.ShardHandoff _ _)) => []
  | Err _ => [(message, false)]
  end.

Definition on_inner {A} (m : act W A) : act (W * answers M) A := fun w =>
  let (w', a) := m w.1 in ((w', w.2), a).

(** The route, with a log of the deliveries it took or refused; a message it deferred is none
    of them. *)
Definition recorded (route : EntityRoute.t W M) : EntityRoute.t (W * answers M) M := EntityRoute.mk
  (fun routed w =>
     let (w', r) := EntityRoute.deliver route routed w.1 in ((w', w.2 ++ answer_of routed r), r))
  (EntityRoute.local_node_id route)
  (fun s => on_inner (EntityRoute.begin_shard_handoff route s))
  (fun s => on_inner (EntityRoute.complete_shard_handoff route s))
  (fun s => on_inner (EntityRoute.acquire_shard route s))
  (fun entity_type entity_id s => on_inner (EntityRoute.activate_entity route entity_type entity_id s))
  (fun s w => EntityRoute.shard_handoff_state route s w.1).
End recorded.

(** ** The calls of a region *)

(** [RouteWorks f]: the route does work of its own, such as its tasks and its actors. *)
Inductive RegionCall (W M : Type) :=
| TellEntity (entity : EntityRef.t) (message : M)
| FlushBuffered
| RefreshOwnership (snapshot : ShardOwnershipSnapshot.t)
| BeginHandoff (shard_id : ShardId.t)
| CompleteHandoff (shard_id : ShardId.t)
| AcquireShard (shard_id : ShardId.t)
| ReplayRemembered (entity_ids : list EntityId.t)
| RouteWorks (f : W → W).
Arguments TellEntity {W M} entity message.
Arguments FlushBuffered {W M}.
Arguments RefreshOwnership {W M} snapshot.
Arguments BeginHandoff {W M} shard_id.
Arguments CompleteHandoff {W M} shard_id.
Arguments AcquireShard {W M} shard_id.
Arguments ReplayRemembered {W M} entity_ids.
Arguments RouteWorks {W M} f.

(** A call: when, on which kind of thread. *)
Record RegionEvent (W M : Type) := region_at {
  event_now : Z;
  event_rt : bool;
  event_call : RegionCall W M;
}.
Arguments region_at {W M} event_now event_rt event_call.
Arguments event_now {W M}.
Arguments event_rt {W M}.
Arguments event_call {W M}.

Section runs.
Context {W M : Type} (route : Z → bool → EntityRoute.t W M).
Abbreviation region := (ShardRegion.t (W * answers M) M).
Implicit Types self : region.

(** What a tell is answered: taken, by the route or into the buffer, or refused by the route. *)
Definition told_answer self self' (entity : EntityRef.t) (message : M) (r : result (EntityTellError M) unit) : answers M :=
  if is_ok r then [((EntityRef.entity_id entity, message), true)]
  else drop (length (ShardRegion.route_state self).2) (ShardRegion.route_state self').2.

(** One call, with what the tells were answered. *)
Definition region_event self (e : RegionEvent W M) : region * answers M :=
  let r := recorded (route (event_now e) (event_rt e)) in
  match event_call e with
  | TellEntity entity message =>
      let (self', res) := ShardRegion.tell r (event_now e) entity message self in
      (self', told_answer self self' entity message res)
  | FlushBuffered => ((ShardRegion.flush_buffered r (event_now e) self).1, [])
  | RefreshOwnership snapshot => ((ShardRegion.refresh_ownership r (event_now e) (event_rt e) snapshot self).1, [])
  | BeginHandoff s => ((ShardRegion.begin_shard_handoff r s self).1, [])
  | CompleteHandoff s => ((ShardRegion.complete_shard_handoff r s self).1, [])
  | AcquireShard s => ((ShardRegion.acquire_shard r (event_now e) (event_rt e) s self).1, [])
  | ReplayRemembered ids => ((ShardRegion.run_replay r ids self).1, [])
  | RouteWorks f =>
      (ShardRegion.set_route self (f (ShardRegion.route_state self).1, (ShardRegion.route_state self).2), [])
  end.

Fixpoint region_run self (events : list (RegionEvent W M)) : region * answers M :=
  match events with
  | [] => (self, [])
  | e :: events =>
      let (self, told) := region_event self e in
      let (self, later) := region_run self events in (self, told ++ later)
  end.

(** The clock readings of [e] that the buffer sees lie between [start] and [stop]. *)
Definition within_times (start stop : Z) (e : RegionEvent W M) : Prop :=
  match event_call e with
  | TellEntity _ _ | FlushBuffered | RefreshOwnership _ | AcquireShard _ => start <= event_now e <= stop
  | _ => True
  end.

(** The route opens no shard by itself. *)
Definition opens_nothing `{!HandoffRoute route} (e : RegionEvent W M) : Prop :=
  match event_call e with
  | RouteWorks f => ∀ w o s, defers w o s = true → defers (f w) o s = true
  | _ => True
  end.
End runs.

(** ** Messages per entity *)

Section messages.
Context {M : Type}.
Implicit Types (b : ShardMessageBuffer.t M) (q : list (BufferedEntityMessage.t M)).

Definition sent_to (e : EntityId.t) (l : list (EntityId.t * M)) : list M :=
  (filter (fun p => p.1 = e) l).*2.

Definition queued_for (e : EntityId.t) q : list M :=
  BufferedEntityMessage.message <$> filter (fun m => BufferedEntityMessage.entity_id m = e) q.

Lemma sent_to_app e l1 l2 : sent_to e (l1 ++ l2) = sent_to e l1 ++ sent_to e l2.
Proof. unfold sent_to. by rewrite filter_app, fmap_app. Qed.

Lemma queued_for_app e q1 q2 : queued_for e (q1 ++ q2) = queued_for e q1 ++ queued_for e q2.
Proof. unfold queued_for. by rewrite filter_app, fmap_app. Qed.

Lemma queued_for_one e (m : BufferedEntityMessage.t M) :
  queued_for e [m] = if decide (BufferedEntityMessage.entity_id m = e)
                     then [BufferedEntityMessage.message m] else [].
Proof. unfold queued_for. rewrite filter_cons, filter_nil. by case_decide. Qed.

Lemma sent_to_one e (p : EntityId.t * M) :
  sent_to e [p] = if decide (p.1 = e) then [p.2] else [].
Proof. unfold sent_to. rewrite filter_cons, filter_nil. by case_decide. Qed.

Lemma queue_set b s q s' :
  ShardMessageBuffer.queue (ShardMessageBuffer.set_queue b s q) s'
  = if decide (s' = s) then q else ShardMessageBuffer.queue b s'.
Proof.
  unfold ShardMessageBuffer.queue. simpl. case_decide as Hs.
  - subst. by rewrite lookup_insert_eq.
  - by rewrite lookup_insert_ne.
Qed.

(** The part of the queues that satisfies [P], when only the queue [s0] has any. *)
Lemma filter_join_queue (P : BufferedEntityMessage.t M → Prop) `{!∀ m, Decision (P m)}
    (queues : gmap ShardId.t (list (BufferedEntityMessage.t M))) s0 :
  (∀ s q m, queues !! s = Some q → m ∈ q → P m → s = s0) →
  filter P (mjoin (btree_values queues)) = filter P (default [] (queues !! s0)).
Proof.
  intros HP.
  assert (∀ entries : list (ShardId.t * list (BufferedEntityMessage.t M)), NoDup entries.*1 →
    (∀ s q m, (s, q) ∈ entries → m ∈ q → P m → s = s0) →
    filter P (mjoin entries.*2) = match list_find (fun p => p.1 = s0) entries with
                                  | Some (_, p) => filter P p.2 | None => [] end) as Hent.
  { induction entries as [|[s q] entries IH]; csimpl; [done|].
    intros [Hnin Hnd]%NoDup_cons Hin. rewrite filter_app, IH; [|done|].
    2: { intros. eapply Hin; [by apply elem_of_cons; right|..]; done. }
    case_decide as Hs; simpl in Hs.
    - subst. destruct (list_find _ entries) as [[i p]|] eqn:Hf; [|by rewrite app_nil_r].
      apply list_find_Some in Hf as (Hl & Hp & _). exfalso. apply Hnin, list_elem_of_fmap.
      exists p. split; [done|]. by eapply list_elem_of_lookup_2.
    - replace (filter P q) with (@nil (BufferedEntityMessage.t M)).
      + by destruct (list_find _ entries) as [[]|].
      + symmetry. apply filter_none. intros m Hm HPm. apply Hs.
        eapply Hin; [by apply elem_of_cons; left|..]; done. }
  unfold btree_values. rewrite Hent; [|apply NoDup_btree_keys|].
  2: { intros s q m Hin%elem_of_btree_entries. eauto. }
  destruct (list_find _ _) as [[i [s q]]|] eqn:Hf.
  - apply list_find_Some in Hf as (Hl & Hs & _). simpl in Hs. subst.
    apply list_elem_of_lookup_2, elem_of_btree_entries in Hl. by rewrite Hl.
  - destruct (queues !! s0) as [q|] eqn:Hq; [|done].
    apply list_find_None in Hf. rewrite Forall_forall in Hf.
    exfalso. apply elem_of_btree_entries in Hq. by apply (Hf _ Hq).
Qed.

Lemma queued_for_sent e (m : BufferedEntityMessage.t M) :
  queued_for e [m] = sent_to e [(BufferedEntityMessage.entity_id m, BufferedEntityMessage.message m)].
Proof. by rewrite queued_for_one, sent_to_one. Qed.

Lemma queued_for_sublist e q q' : q' `sublist_of` q → queued_for e q' `sublist_of` queued_for e q.
Proof.
  induction 1 as [|m q q' _ IH|m q q' _ IH]; [done|..].
  - change (queued_for e ([m] ++ q) `sublist_of` queued_for e ([m] ++ q')). rewrite !queued_for_app. by apply sublist_app.
  - change (queued_for e q `sublist_of` queued_for e ([m] ++ q')). rewrite queued_for_app. by apply sublist_inserts_l.
Qed.

Lemma filter_sublist (P : BufferedEntityMessage.t M → Prop) `{!∀ m, Decision (P m)} q : filter P q `sublist_of` q.
Proof.
  induction q as [|m q IH]; [done|]. rewrite filter_cons. case_decide; [by apply sublist_skip|by apply sublist_cons].
Qed.

Lemma filter_mjoin (P : BufferedEntityMessage.t M → Prop) `{!∀ m, Decision (P m)} (qs : list (list (BufferedEntityMessage.t M))) :
  mjoin (filter P <$> qs) = filter P (mjoin qs).
Proof. induction qs as [|q qs IH]; csimpl; [done|]. by rewrite filter_app, IH. Qed.

Lemma oks_app (l1 l2 : answers M) : oks (l1 ++ l2) = oks l1 ++ oks l2.
Proof. unfold oks. by rewrite filter_app, fmap_app. Qed.
Lemma errs_app (l1 l2 : answers M) : errs (l1 ++ l2) = errs l1 ++ errs l2.
Proof. unfold errs. by rewrite filter_app, fmap_app. Qed.
End messages.

(** ** Messages in order *)

Section in_order.
Context {M : Type} (calm : bool).
Implicit Types (told log : answers M) (waiting : list M).

(** Of an entity: what the route took and what waits are, in order, messages that were taken
    from callers; a message the route refused was returned to its caller or dropped; and when
    all was calm and none was dropped, they are all of those messages. *)
Record in_order (e : EntityId.t) told log waiting : Prop := {
  io_sublist : (sent_to e (oks log) ++ waiting) `sublist_of` sent_to e (oks told);
  io_returned : (length (sent_to e (errs told)) ≤ length (sent_to e (errs log)))%nat;
  io_exact : calm = true → (length (sent_to e (errs log)) ≤ length (sent_to e (errs told)))%nat →
    sent_to e (oks told) = sent_to e (oks log) ++ waiting;
}.

Lemma io_shrink e told log w w' :
  in_order e told log w → w' `sublist_of` w → (calm = true → w' = w) → in_order e told log w'.
Proof.
  intros [Hs Hr Hx] Hw Heq. split; [|done|].
  - etrans; [|exact Hs]. by apply sublist_app.
  - intros Hc Hl. rewrite (Heq Hc). by apply Hx.
Qed.

Lemma io_accept e told log w e0 m :
  in_order e told log w → in_order e (told ++ [((e0, m), true)]) log (w ++ sent_to e [(e0, m)]).
Proof.
  intros [Hs Hr Hx]. split; rewrite ?oks_app, ?errs_app, ?sent_to_app, ?(assoc_L (++)).
  - by apply sublist_app.
  - change (sent_to e (errs [(e0, m, true)])) with (@nil M). by rewrite app_nil_r.
  - change (sent_to e (errs [(e0, m, true)])) with (@nil M). rewrite app_nil_r. intros Hc Hl.
    by rewrite (Hx Hc Hl).
Qed.

Lemma io_return e told log w e0 m :
  in_order e told log w → in_order e (told ++ [((e0, m), false)]) (log ++ [((e0, m), false)]) w.
Proof.
  intros [Hs Hr Hx]. split; rewrite ?oks_app, ?errs_app, ?sent_to_app, ?length_app;
    change (sent_to e (oks [(e0, m, false)])) with (@nil M); rewrite ?app_nil_r; [done|lia|].
  intros Hc Hl. apply Hx; [done|lia].
Qed.

Lemma io_taken e told log w e0 m :
  in_order e told log (sent_to e [(e0, m)] ++ w) → in_order e told (log ++ [((e0, m), true)]) w.
Proof.
  intros [Hs Hr Hx]. split; rewrite ?oks_app, ?errs_app, ?sent_to_app, <-?(assoc_L (++));
    change (sent_to e (errs [(e0, m, true)])) with (@nil M); by rewrite ?app_nil_r.
Qed.

Lemma io_dropped e told log w e0 m :
  in_order e told log (sent_to e [(e0, m)] ++ w) → in_order e told (log ++ [((e0, m), false)]) w.
Proof.
  intros [Hs Hr Hx]. split; rewrite ?oks_app, ?errs_app, ?sent_to_app, ?length_app;
    change (sent_to e (oks [(e0, m, false)])) with (@nil M); rewrite ?app_nil_r.
  - etrans; [|exact Hs]. apply sublist_app; [done|]. by apply sublist_inserts_l.
  - lia.
  - change (errs [(e0, m, false)]) with [(e0, m)]. intros Hc Hl. rewrite sent_to_one in *.
    case_decide; simpl in Hl; [lia|]. apply Hx; [done|lia].
Qed.
End in_order.


(** ** The invariant *)

Section order.
Context {W M : Type} {route : Z → bool → EntityRoute.t W M} `{!HandoffRoute route}.
Context (et : EntityType.t) (cfg : ShardingConfig.t) (bc : ShardBufferConfig.t).
(** [calm]: the buffer refuses what it has no room for, and the clock readings lie within one
    time to live from [start]. *)
Context (calm : bool) (start : Z).
Hypothesis Hcalm : calm = true → ShardBufferConfig.overflow bc = FailFast.
Local Abbreviation region := (ShardRegion.t (W * answers M) M).
Local Abbreviation cap := (ShardBufferConfig.capacity_per_shard bc).
Local Abbreviation log self := ((ShardRegion.route_state self).2).
Local Abbreviation deferred self := (defers (ShardRegion.route_state self).1).
Implicit Types (self : region) (b : ShardMessageBuffer.t M)
  (m : BufferedEntityMessage.t M) (q rest : list (BufferedEntityMessage.t M)) (told : answers M).

Definition timely (now : Z) : Prop := calm = true → start <= now <= start + ShardBufferConfig.ttl bc.

Definition shard_of (e : EntityId.t) : ShardId.t := for_entity et e cfg.

(** A message in the queue it belongs to. *)
Definition placed (s : ShardId.t) m : Prop :=
  BufferedEntityMessage.entity_type m = et ∧ shard_of (BufferedEntityMessage.entity_id m) = s ∧
  BufferedEntityMessage.shard_id m = s ∧ (calm = true → start <= BufferedEntityMessage.enqueued_at m).

Definition of_shard (s : ShardId.t) rest : nat :=
  length (filter (fun m => BufferedEntityMessage.shard_id m = s) rest).

(** The region between two calls ([rest] empty), or in a flush that still has to look at
    [rest], which follows what is buffered. *)
Record sound self told rest : Prop := {
  so_type : ShardRegion.entity_type self = et;
  so_config : ShardRegion.config self = cfg;
  so_cache_type : ShardOwnerCache.entity_type (ShardRegion.owner_cache self) = et;
  so_cache_config : ShardOwnerCache.config (ShardRegion.owner_cache self) = cfg;
  so_buffer : ∃ b, ShardRegion.buffer self = Some b ∧ ShardMessageBuffer.config b = bc ∧
    ShardMessageBuffer.paused_entities b = ∅ ∧
    (∀ s m, m ∈ ShardMessageBuffer.queue b s → placed s m) ∧
    (∀ s, (length (ShardMessageBuffer.queue b s) ≤ cap `max` 1)%nat) ∧
    (calm = true → ∀ s, (length (ShardMessageBuffer.queue b s) + of_shard s rest ≤ cap)%nat) ∧
    (∀ e, in_order calm e told (log self)
            (queued_for e (ShardMessageBuffer.queue b (shard_of e)) ++ queued_for e rest));
  so_rest : ∀ m, m ∈ rest → placed (BufferedEntityMessage.shard_id m) m;
}.

(** A buffered message is one that could not be delivered now. *)
Definition blocked self : Prop :=
  ∀ b s m o, ShardRegion.buffer self = Some b → m ∈ ShardMessageBuffer.queue b s →
    ShardOwnerCache.owner_for_shard (ShardRegion.owner_cache self) s = Ok o → deferred self o s = true.

Lemma blocked_empty self b s o :
  ShardRegion.buffer self = Some b → blocked self →
  ShardOwnerCache.owner_for_shard (ShardRegion.owner_cache self) s = Ok o →
  deferred self o s = false → ShardMessageBuffer.queue b s = [].
Proof.
  intros Hb Hbl Ho Ha. destruct (ShardMessageBuffer.queue b s) as [|m q] eqn:Hq; [done|].
  specialize (Hbl b s m o Hb). rewrite Hq in Hbl. rewrite Hbl in Ha; [done|by left|done].
Qed.

(** One queue is replaced. *)
Lemma queue_sound self told told' rest rest' b s q :
  sound self told rest → ShardRegion.buffer self = Some b →
  (∀ m, m ∈ q → placed s m) → (∀ m, m ∈ rest' → m ∈ rest) → (length q ≤ cap `max` 1)%nat →
  (calm = true → ∀ s', ((if decide (s' = s) then length q else length (ShardMessageBuffer.queue b s'))
                        + of_shard s' rest' ≤ cap)%nat) →
  (∀ e, in_order calm e told' (log self)
          (queued_for e (if decide (shard_of e = s) then q else ShardMessageBuffer.queue b (shard_of e)) ++
           queued_for e rest')) →
  sound (ShardRegion.set_buffer self (Some (ShardMessageBuffer.set_queue b s q))) told' rest'.
Proof.
  intros [Ht Hc Hct Hcc (b0 & Hb0 & Hbc & Hp & Hpl & Hlen & _ & _) Hr] Hb Hm Hsub Hcap Hroom Hord.
  rewrite Hb in Hb0. simplify_eq.
  constructor; try done; [|by intros m' ?; apply Hr, Hsub].
  eexists. split; [done|]. split_and!; [done..| | | |].
  - intros s' m'. rewrite queue_set. case_decide; [subst; apply Hm|apply Hpl].
  - intros s'. rewrite queue_set. by case_decide.
  - intros Hcm s'. rewrite queue_set. specialize (Hroom Hcm s'). by case_decide.
  - intros e. rewrite queue_set. apply Hord.
Qed.

Lemma set_buffer_blocked self b s q :
  blocked self → ShardRegion.buffer self = Some b →
  (∀ m o, m ∈ q → ShardOwnerCache.owner_for_shard (ShardRegion.owner_cache self) s = Ok o →
     deferred self o s = true) →
  blocked (ShardRegion.set_buffer self (Some (ShardMessageBuffer.set_queue b s q))).
Proof.
  intros Hbl Hb Hq b0 s' m o [= <-] Hin Ho. rewrite queue_set in Hin. simpl in *.
  case_decide; [subst; eauto|by eapply Hbl].
Qed.

(** What one delivery does: the route defers the message, takes it, or refuses it. *)
Lemma on_route_deliver now rt self routed self' r :
  ShardRegion.on_route (EntityRoute.deliver (recorded (route now rt)) routed) self = (self', r) →
  let message := (RoutedEntityMessage.entity_id routed, RoutedEntityMessage.message routed) in
  ∃ w, self' = ShardRegion.set_route self w ∧ (∀ o s, defers w.1 o s = deferred self o s) ∧
  (deferred self (RoutedEntityMessage.owner routed) (RoutedEntityMessage.shard_id routed) = true ∧
   (∃ state, r = Err (Delivery (RoutedEntityMessage.message routed)
      (EntityDeliveryFailure.ShardHandoff (RoutedEntityMessage.shard_id routed) state))) ∧
   w.2 = log self ∨
   deferred self (RoutedEntityMessage.owner routed) (RoutedEntityMessage.shard_id routed) = false ∧ answers_now r ∧
   w.2 = log self ++ [(message, is_ok r)]).
Proof.
  unfold ShardRegion.on_route. simpl. destruct (EntityRoute.deliver (route now rt) routed _) as [w r0] eqn:Hd.
  intros [= <- <-]. eexists (w, _). split; [done|]. apply deliver_answers in Hd as [Ha Hd]. split; [done|]. simpl.
  destruct (defers _ _ _); [left|right].
  - destruct Hd as [state ->]. split; [done|]. split; [by exists state|]. simpl. by rewrite app_nil_r.
  - split; [done|]. split; [done|]. f_equal. by destruct r0 as [[]|[|? []]].
Qed.

(** The route moved: the log is the same. *)
Lemma set_route_sound self told rest w :
  sound self told rest → w.2 = log self → sound (ShardRegion.set_route self w) told rest.
Proof.
  intros [Ht Hc Hct Hcc (b & Hb & Hbc & Hp & Hpl & Hlen & Hroom & Hord) Hr] Hl.
  constructor; try done. exists b. split_and!; try done. intros e. simpl. by rewrite Hl.
Qed.

Lemma set_route_blocked self w :
  blocked self → (∀ o s, deferred self o s = true → defers w.1 o s = true) → blocked (ShardRegion.set_route self w).
Proof. intros Hbl Ha b s m o Hb Hin Ho. simpl in *. eapply Ha, Hbl; done. Qed.

(** The route answered: the first message of [rest] is done with, or one just told. *)
Lemma answered_sound self told told' rest rest' w e0 (msg : M) ok :
  sound self told rest → w.2 = log self ++ [((e0, msg), ok)] →
  (∀ b, ShardRegion.buffer self = Some b → ShardMessageBuffer.queue b (shard_of e0) = []) →
  (∀ m', m' ∈ rest' → m' ∈ rest) → (∀ s, (of_shard s rest' ≤ of_shard s rest)%nat) →
  (∀ e b, ShardRegion.buffer self = Some b →
     in_order calm e told' (log self ++ [((e0, msg), ok)])
       (queued_for e (ShardMessageBuffer.queue b (shard_of e)) ++ queued_for e rest')) →
  sound (ShardRegion.set_route self w) told' rest'.
Proof.
  intros [Ht Hc Hct Hcc (b & Hb & Hbc & Hp & Hpl & Hcap & Hroom & _) Hr] Hl Hq Hsub Hlen Hord.
  constructor; try done; [|by intros m' ?; apply Hr, Hsub].
  exists b. split_and!; try done.
  - intros Hcm s. specialize (Hroom Hcm s). specialize (Hlen s). lia.
  - intros e. simpl. rewrite Hl. by apply Hord.
Qed.

(** A buffer with the same queues. *)
Lemma same_queues_sound self told rest b b' :
  sound self told rest → ShardRegion.buffer self = Some b →
  ShardMessageBuffer.config b' = ShardMessageBuffer.config b →
  ShardMessageBuffer.paused_entities b' = ShardMessageBuffer.paused_entities b →
  (∀ s, ShardMessageBuffer.queue b' s = ShardMessageBuffer.queue b s) →
  sound (ShardRegion.set_buffer self (Some b')) told rest ∧
  (blocked self → blocked (ShardRegion.set_buffer self (Some b'))).
Proof.
  intros [Ht Hc Hct Hcc (b0 & Hb0 & Hbc & Hp & Hpl & Hcap & Hroom & Hord) Hr] Hb Hcf Hpa Hq.
  rewrite Hb in Hb0. simplify_eq. split.
  - constructor; try done. exists b'. split; [done|].
    split_and!; [congruence|congruence|intros s m; rewrite Hq; apply Hpl|intros s; rewrite Hq; apply Hcap| |].
    + intros Hcm s. rewrite Hq. by apply Hroom.
    + intros e. rewrite Hq. apply Hord.
  - intros Hbl b1 s m o [= <-] Hin Ho. rewrite Hq in Hin. by apply (Hbl b0 s m o).
Qed.

(** A queue with one more message, or rid of some: what its entities wait for. *)
Lemma queue_in_order e told (l : answers M) b s q m rest :
  placed s m →
  in_order calm e told l ((queued_for e (ShardMessageBuffer.queue b (shard_of e)) ++
                           sent_to e [(BufferedEntityMessage.entity_id m, BufferedEntityMessage.message m)]) ++
                          queued_for e rest) →
  q `sublist_of` ShardMessageBuffer.queue b s ++ [m] → (calm = true → q = ShardMessageBuffer.queue b s ++ [m]) →
  in_order calm e told l
    (queued_for e (if decide (shard_of e = s) then q else ShardMessageBuffer.queue b (shard_of e)) ++ queued_for e rest).
Proof.
  intros (_ & Hsh & _) Hord Hsub Heq. rewrite <-queued_for_sent in Hord. case_decide as Hs.
  - subst s. rewrite <-queued_for_app in Hord. rewrite Hs in *.
    eapply io_shrink; [exact Hord|by apply sublist_app, reflexivity; apply queued_for_sublist|].
    intros Hc. by rewrite (Heq Hc).
  - replace (queued_for e [m]) with (@nil M) in Hord; [by rewrite app_nil_r in Hord|].
    rewrite queued_for_one, decide_False; [done|]. intros <-. done.
Qed.

(** Enqueueing a message that cannot be delivered now. *)
Lemma enqueue_buffered_sound (r : EntityRoute.t (W * answers M) M) self told now e (msg : M) self' res :
  sound self told [] → blocked self → timely now →
  (∀ o, ShardOwnerCache.owner_for_shard (ShardRegion.owner_cache self) (shard_of e) = Ok o →
     deferred self o (shard_of e) = true) →
  ShardRegion.enqueue_buffered r now et e (shard_of e) msg self = (self', res) →
  sound self' (told ++ if is_ok res then [((e, msg), true)] else []) [] ∧ blocked self' ∧ log self' = log self.
Proof.
  intros Hs Hbl Hnow Hacc.
  destruct (so_buffer _ _ _ Hs) as (b & Hb & Hbc & Hp & Hpl & Hcap & Hroom & Hord).
  unfold ShardRegion.enqueue_buffered, ShardRegion.on_buffer. rewrite Hb.
  unfold ShardMessageBuffer.enqueue. rewrite Hbc.
  set (m := BufferedEntityMessage.new et e (shard_of e) msg now). set (q := ShardMessageBuffer.queue b (shard_of e)).
  assert (placed (shard_of e) m) as Hm. { split_and!; try done. intros Hc. apply Hnow, Hc. }
  (* the message is taken, and the queue becomes [q'] *)
  assert (∀ q', q' `sublist_of` q ++ [m] → (calm = true → q' = q ++ [m] ∧ (length q < cap)%nat) →
    (length q' ≤ cap `max` 1)%nat →
    sound (ShardRegion.set_buffer self (Some (ShardMessageBuffer.set_queue b (shard_of e) q'))) (told ++ [((e, msg), true)]) [] ∧
    blocked (ShardRegion.set_buffer self (Some (ShardMessageBuffer.set_queue b (shard_of e) q')))) as Htaken.
  { intros q' Hsub Hc Hl. split.
    - apply (queue_sound self told _ [] []); try done.
      + intros m' Hin. eapply elem_of_sublist in Hin; [|exact Hsub].
        apply elem_of_app in Hin as [Hin| ->%list_elem_of_singleton]; [by apply Hpl|done].
      + intros Hcm s'. destruct (Hc Hcm) as [-> Hlt]. specialize (Hroom Hcm s'). unfold of_shard in *. simpl in *.
        case_decide as Hd; [subst s'; rewrite length_app; simpl; lia|lia].
      + intros e'. eapply (queue_in_order e' _ _ b (shard_of e) q' m); [done| |done|naive_solver].
        pose proof (io_accept _ _ _ _ _ e msg (Hord e')) as H. change (queued_for e' []) with (@nil M) in *.
        by rewrite !app_nil_r in *.
    - apply set_buffer_blocked; [done..|]. intros _ o _. by apply Hacc. }
  destruct (Nat.ltb_spec (length q) cap) as [Hlt|Hge].
  { intros [= <- <-]. destruct (Htaken (q ++ [m])) as [? ?]; try done. rewrite length_app. simpl. lia. }
  destruct (ShardBufferConfig.overflow bc) eqn:Hov; intros [= <- <-]; simpl; rewrite ?app_nil_r.
  - destruct (same_queues_sound self told [] b (ShardMessageBuffer.set_queue b (shard_of e) q)) as [H1 H2];
      try done; [|by split_and!; [|apply H2|]].
    intros s. rewrite queue_set. by case_decide; subst.
  - destruct (Htaken q) as [? ?]; try done; [by apply sublist_inserts_r|by intros Hc%Hcalm|apply Hcap].
  - destruct (Htaken (tail q ++ [m])) as [? ?]; try done; [|by intros Hc%Hcalm|].
    + apply sublist_app; [|done]. destruct q; [done|]. by apply sublist_cons.
    + rewrite length_app. specialize (Hcap (shard_of e)). fold q in Hcap. destruct q; simpl in *; lia.
Qed.

(** Putting back a message of a flush, if there is room for it. *)
Lemma requeue_sound self told m rest self' :
  sound self told (m :: rest) → blocked self →
  (∀ o, ShardOwnerCache.owner_for_shard (ShardRegion.owner_cache self)
          (BufferedEntityMessage.shard_id m) = Ok o →
     deferred self o (BufferedEntityMessage.shard_id m) = true) →
  ShardRegion.enqueue_existing_buffered m self = (self', tt) →
  sound self' told rest ∧ blocked self'.
Proof.
  intros Hs Hbl Hacc.
  destruct (so_buffer _ _ _ Hs) as (b & Hb & Hbc & Hp & Hpl & Hcap & Hroom & Hord).
  unfold ShardRegion.enqueue_existing_buffered, ShardRegion.on_buffer. rewrite Hb.
  unfold ShardMessageBuffer.requeue. rewrite Hbc. set (s := BufferedEntityMessage.shard_id m) in *.
  set (q := ShardMessageBuffer.queue b s).
  assert (placed s m) as Hm by (apply (so_rest _ _ _ Hs); by left).
  assert (calm = true → (length q + 1 + of_shard s rest ≤ cap)%nat) as Hfits.
  { intros Hc. specialize (Hroom Hc s). unfold of_shard in *. rewrite filter_cons, decide_True in Hroom by done.
    simpl in Hroom. fold q in Hroom. lia. }
  assert (∀ q', q' `sublist_of` q ++ [m] → (calm = true → q' = q ++ [m]) → (length q' ≤ cap `max` 1)%nat →
    let self' := ShardRegion.set_buffer self (Some (ShardMessageBuffer.set_queue b s q')) in
    sound self' told rest ∧ blocked self') as Hput.
  { intros q' Hsub Heq Hl. split.
    - apply (queue_sound self told told (m :: rest) rest); try done.
      + intros m' Hin. eapply elem_of_sublist in Hin; [|exact Hsub].
        apply elem_of_app in Hin as [Hin| ->%list_elem_of_singleton]; [by apply Hpl|done].
      + intros m' ?. by right.
      + intros Hc s'. specialize (Hroom Hc s'). specialize (Hfits Hc). rewrite (Heq Hc).
        destruct (decide (s' = s)) as [->|]; [rewrite length_app; simpl; lia|].
        unfold of_shard in *. rewrite filter_cons in Hroom. case_decide; simpl in *; lia.
      + intros e. eapply (queue_in_order e _ _ b s q' m); [done| |done|done].
        rewrite <-queued_for_sent, <-(assoc_L (++)), <-queued_for_app. apply Hord.
    - apply set_buffer_blocked; [done..|]. intros _ o _. apply Hacc. }
  destruct (Nat.ltb_spec (length q) cap) as [Hlt|Hge]; intros [= <-]; apply Hput; try done.
  - rewrite length_app. simpl. lia.
  - by apply sublist_inserts_r.
  - intros Hc. specialize (Hfits Hc). lia.
  - apply Hcap.
Qed.

Lemma resolve_shard self told rest m :
  sound self told rest → placed (BufferedEntityMessage.shard_id m) m →
  match ShardRegion.resolve self (EntityRef.new (BufferedEntityMessage.entity_type m)
                                    (BufferedEntityMessage.entity_id m)) with
  | Ok (o, s) => s = BufferedEntityMessage.shard_id m ∧
      ShardOwnerCache.owner_for_shard (ShardRegion.owner_cache self) s = Ok o
  | Err _ => ∀ o, ShardOwnerCache.owner_for_shard (ShardRegion.owner_cache self)
                    (BufferedEntityMessage.shard_id m) ≠ Ok o
  end.
Proof.
  intros [Ht _ Hct Hcc _ _] (Het & Hsh & _ & _). unfold ShardRegion.resolve, ShardRegion.ensure_entity_type.
  simpl. rewrite decide_True by congruence. simpl.
  unfold ShardOwnerCache.owner_for_entity. rewrite Hct, Hcc. fold (shard_of (BufferedEntityMessage.entity_id m)).
  rewrite Hsh. destruct (ShardOwnerCache.owner_for_shard _ _) as [o|err] eqn:Ho; [by rewrite Ho|by destruct err].
Qed.

Lemma flush_one_sound now rt self told m rest self' :
  sound self told (m :: rest) → blocked self →
  ShardRegion.flush_one_buffered (recorded (route now rt)) m self = (self', tt) →
  sound self' told rest ∧ blocked self'.
Proof.
  intros Hs Hbl. assert (placed (BufferedEntityMessage.shard_id m) m) as Hm
    by (apply (so_rest _ _ _ Hs); by left).
  pose proof (resolve_shard self told _ m Hs Hm) as Hres.
  unfold ShardRegion.flush_one_buffered.
  intros (self1 & res & [= <- <-] & H)%act_bind_inv.
  destruct (ShardRegion.resolve _ _) as [[o s]|err].
  2: { eapply requeue_sound; [done..| |exact H]. intros o Ho. by apply Hres in Ho. }
  destruct Hres as [-> Ho].
  apply act_bind_inv in H as (self1 & r & (w & -> & Hw & Hd)%on_route_deliver & H).
  destruct Hd as [(Ha & [state ->] & Hl)|(Ha & Hnow & Hl)]; simpl in Ha, Hl.
  - eapply (requeue_sound (ShardRegion.set_route self w) told m rest); [..|destruct m; exact H].
    + by apply set_route_sound.
    + apply set_route_blocked; [done|]. intros o' s'. by rewrite Hw.
    + simpl. intros o' Ho'. rewrite Hw. congruence.
  - assert (self' = ShardRegion.set_route self w) as ->.
    { destruct r as [[]|[|? []]]; try done; by apply act_ret_inv in H as [<- _]. }
    split; [|apply set_route_blocked; [done|]; intros o' s'; by rewrite Hw].
    destruct Hm as (_ & Hsh & _). eapply (answered_sound self told told (m :: rest) rest w); [done|exact Hl|..].
    + intros b Hb. rewrite Hsh. by eapply blocked_empty.
    + intros m' ?. by right.
    + intros s. unfold of_shard. rewrite filter_cons. case_decide; simpl; lia.
    + intros e b Hb. destruct (so_buffer _ _ _ Hs) as (b0 & Hb0 & _ & _ & _ & _ & _ & Hord).
      rewrite Hb in Hb0. simplify_eq. specialize (Hord e).
      change (m :: rest) with ([m] ++ rest) in Hord. rewrite queued_for_app, queued_for_sent in Hord.
      destruct (decide (BufferedEntityMessage.entity_id m = e)) as [He|He].
      * rewrite <-He in Hord |- *. rewrite Hsh, (blocked_empty _ _ _ _ Hb Hbl Ho Ha) in Hord |- *.
        destruct (is_ok r); [by apply io_taken|by apply io_dropped].
      * assert (sent_to e [(BufferedEntityMessage.entity_id m, BufferedEntityMessage.message m)] = []) as Hnil
          by (by rewrite sent_to_one, decide_False).
        rewrite Hnil in Hord. destruct (is_ok r); [apply io_taken|apply io_dropped]; by rewrite Hnil.
Qed.

Lemma flush_each_sound now rt rest : ∀ self told self',
  sound self told rest → blocked self →
  act_each (ShardRegion.flush_one_buffered (recorded (route now rt))) rest self = (self', tt) →
  sound self' told [] ∧ blocked self'.
Proof.
  induction rest as [|m rest IH]; intros self told self' Hs Hbl; simpl.
  { by intros [= <-]. }
  intros (self1 & [] & H1 & H2)%act_bind_inv.
  destruct (flush_one_sound _ _ _ _ _ _ _ Hs Hbl H1) as [Hs1 Hbl1]. by eapply IH.
Qed.

(** A flush looks at every message that has not expired: nothing is paused. *)
Lemma flush_sound now rt self told self' :
  sound self told [] → timely now →
  ShardRegion.flush_buffered (recorded (route now rt)) now self = (self', tt) →
  sound self' told [] ∧ blocked self'.
Proof.
  intros Hs Hnow (self1 & ready & Hd & Hf)%act_bind_inv.
  destruct (so_buffer _ _ _ Hs) as (b & Hb & Hbc & Hp & Hpl & Hcap & Hroom & Hord).
  unfold ShardRegion.on_buffer in Hd. rewrite Hb in Hd.
  pose proof (drain_ready_exact b now) as Hex.
  destruct (ShardMessageBuffer.drain_ready b now) as [b1 ready1] eqn:Hdr.
  destruct Hex as (Hready & Hq1 & _ & Hp1). simplify_eq.
  set (b0 := ShardMessageBuffer.set_paused b _) in *.
  assert (ShardMessageBuffer.paused_entities b0 = ∅) as Hp0.
  { simpl. rewrite Hp. apply map_filter_empty. }
  assert (∀ m, is_paused b0 m = false) as Hnone.
  { intros m. unfold is_paused. rewrite Hp0, lookup_empty. by rewrite bool_decide_false by (intros []; done). }
  assert (∀ s, ShardMessageBuffer.queue b1 s = []) as Hempty.
  { intros s. rewrite Hq1. apply filter_none. intros m Hin [_ Hpa]. by rewrite Hnone in Hpa. }
  set (due m := ShardMessageBuffer.expired b0 now m = false ∧ is_paused b0 m = false).
  set (all := mjoin (btree_values (ShardMessageBuffer.queues b))).
  assert (mjoin (released b0 now <$> btree_values (ShardMessageBuffer.queues b)) = filter due all) as Hrel
    by apply filter_mjoin.
  rewrite Hrel in *.
  assert (∀ s q m, ShardMessageBuffer.queues b !! s = Some q → m ∈ q → placed s m) as Hpl'.
  { intros s q m Hq Hm. apply Hpl. unfold ShardMessageBuffer.queue. by rewrite Hq. }
  assert (∀ m, m ∈ all → ∃ s, m ∈ ShardMessageBuffer.queue b s) as Hin_q.
  { intros m (q & Hm & [s Hq]%elem_of_btree_values)%list_elem_of_join. exists s.
    unfold ShardMessageBuffer.queue. by rewrite Hq. }
  assert (calm = true → ∀ s m, m ∈ ShardMessageBuffer.queue b s → due m) as Hdue.
  { intros Hc s m Hin. split; [|apply Hnone]. destruct (Hpl _ _ Hin) as (_ & _ & _ & Hst). specialize (Hst Hc).
    specialize (Hnow Hc). unfold ShardMessageBuffer.expired, saturating_sub. simpl. apply Z.ltb_ge. rewrite Hbc. lia. }
  eapply flush_each_sound; [| |exact Hf].
  - constructor; try apply Hs.
    + exists b1. split; [done|]. unfold ShardMessageBuffer.drain_ready in Hdr.
      destruct (ShardMessageBuffer.drain_queues _ _ _ _). split_and!.
      * by simplify_eq.
      * rewrite Hp1. done.
      * intros s m. rewrite Hempty. by intros ?%not_elem_of_nil.
      * intros s. rewrite Hempty. simpl. lia.
      * intros Hc s. rewrite Hempty. simpl. specialize (Hroom Hc s). unfold of_shard in *. simpl in *.
        rewrite list_filter_filter. unfold all. rewrite (filter_join_queue _ _ s).
        -- etrans; [apply length_filter|]. unfold ShardMessageBuffer.queue in Hroom. lia.
        -- intros s' q m Hq Hm [<- _]. by destruct (Hpl' _ _ _ Hq Hm) as (_ & _ & -> & _).
      * intros e. rewrite Hempty. simpl. unfold queued_for at 1. rewrite list_filter_filter. unfold all.
        rewrite (filter_join_queue _ _ (shard_of e)).
        2: { intros s' q m Hq Hm [<- _]. by destruct (Hpl' _ _ _ Hq Hm) as (_ & -> & _). }
        specialize (Hord e). change (queued_for e []) with (@nil M) in Hord. rewrite app_nil_r in Hord.
        fold (ShardMessageBuffer.queue b (shard_of e)). rewrite <-list_filter_filter.
        change (BufferedEntityMessage.message <$> filter (fun m => BufferedEntityMessage.entity_id m = e)
          (filter due (ShardMessageBuffer.queue b (shard_of e)))) with (queued_for e (filter due (ShardMessageBuffer.queue b (shard_of e)))).
        eapply io_shrink; [exact Hord|apply queued_for_sublist, filter_sublist|].
        intros Hc. f_equal. apply filter_all. by apply Hdue.
    + intros m [_ [s Hm]%Hin_q]%list_elem_of_filter. pose proof (Hpl _ _ Hm) as Hm'. destruct Hm' as (? & ? & -> & ?).
      by apply Hpl.
  - intros b' s m o [= <-]. rewrite Hempty. by intros ?%not_elem_of_nil.
Qed.

Lemma is_entity_buffered_sound self told rest now e self' paused :
  sound self told rest → ShardRegion.is_entity_buffered now e self = (self', paused) →
  paused = false ∧ sound self' told rest ∧ (blocked self → blocked self') ∧
  ShardRegion.owner_cache self' = ShardRegion.owner_cache self ∧
  ShardRegion.route_state self' = ShardRegion.route_state self.
Proof.
  intros Hs. destruct (so_buffer _ _ _ Hs) as (b & Hb & _ & Hp & _).
  unfold ShardRegion.is_entity_buffered, ShardRegion.on_buffer. rewrite Hb.
  unfold ShardMessageBuffer.is_entity_paused. simpl.
  assert (ShardMessageBuffer.still_paused now (ShardMessageBuffer.paused_entities b) = ∅) as Hn.
  { rewrite Hp. apply map_filter_empty. }
  intros [= <- <-].
  destruct (same_queues_sound self told rest b (ShardMessageBuffer.set_paused b
    (ShardMessageBuffer.still_paused now (ShardMessageBuffer.paused_entities b)))) as [H1 H2]; try done.
  { simpl. by rewrite Hn, Hp. }
  split_and!; try done. rewrite Hn, lookup_empty. by apply bool_decide_false; intros [].
Qed.

(** A tell that is answered without the route: taken into the buffer, or an error. *)
Lemma unrouted_answer self self' told entity (msg : M) res :
  log self' = log self →
  sound self' (told ++ if is_ok res then [((EntityRef.entity_id entity, msg), true)] else []) [] ∧ blocked self' →
  sound self' (told ++ told_answer self self' entity msg res) [] ∧ blocked self'.
Proof.
  intros Hl. unfold told_answer. destruct (is_ok res); [done|]. by rewrite Hl, drop_all.
Qed.

Lemma tell_sound now rt self told entity msg self' res :
  sound self told [] → blocked self → timely now →
  ShardRegion.tell (recorded (route now rt)) now entity msg self = (self', res) →
  sound self' (told ++ told_answer self self' entity msg res) [] ∧ blocked self'.
Proof.
  intros Hs Hbl Hnow (self1 & checked & [= <- <-] & H)%act_bind_inv.
  unfold ShardRegion.ensure_entity_type in H.
  destruct (decide (EntityRef.entity_type entity = ShardRegion.entity_type self)) as [Het|].
  2: { apply act_ret_inv in H as [<- <-]. apply unrouted_answer; [done|]. simpl. by rewrite app_nil_r. }
  rewrite (so_type _ _ _ Hs) in Het.
  apply act_bind_inv in H as (self1 & shard & [= <- <-] & H).
  apply act_bind_inv in H as (self1 & paused & Hpa & H).
  destruct (is_entity_buffered_sound _ _ _ _ _ _ _ Hs Hpa) as (-> & Hs1 & Hbl1 & Hcache & Hroute).
  specialize (Hbl1 Hbl). clear Hpa. unfold EntityRef.shard_id in H.
  rewrite Het, (so_config _ _ _ Hs) in H. fold (shard_of (EntityRef.entity_id entity)) in H.
  apply act_bind_inv in H as (self2 & owner & [= <- <-] & H).
  set (e := EntityRef.entity_id entity) in *.
  unfold ShardOwnerCache.owner_for_entity in H.
  rewrite (so_cache_type _ _ _ Hs1), (so_cache_config _ _ _ Hs1) in H. fold (shard_of e) in H.
  assert (∀ err, (∀ o, ShardOwnerCache.owner_for_shard (ShardRegion.owner_cache self1) (shard_of e) ≠ Ok o) →
    (let! can_buffer := ShardRegion.get (fun self => ShardRegion.can_buffer_no_route self err) in
     if (can_buffer : bool) then ShardRegion.enqueue_buffered (recorded (route now rt)) now et e (shard_of e) msg
     else act_ret (Err (NoRoute msg err))) self1 = (self', res) →
    sound self' (told ++ told_answer self self' entity msg res) [] ∧ blocked self') as Hno.
  { intros err Hn (self2 & can & [= <- <-] & H2)%act_bind_inv.
    destruct (ShardRegion.can_buffer_no_route _ _).
    - eapply enqueue_buffered_sound in H2 as (? & ? & Hl); [|done..|intros o Ho; by apply Hn in Ho].
      apply unrouted_answer; [by rewrite Hl, Hroute|done].
    - apply act_ret_inv in H2 as [<- <-]. apply unrouted_answer; [by rewrite Hroute|]. simpl. by rewrite app_nil_r. }
  destruct (ShardOwnerCache.owner_for_shard (ShardRegion.owner_cache self1) (shard_of e)) as [o|err] eqn:Ho.
  2: { destruct err; eapply Hno; try exact H; done. }
  clear Hno. unfold ShardRegion.deliver_or_buffer in H.
  apply act_bind_inv in H as (self2 & r1 & (w & -> & Hw & Hd)%on_route_deliver & H).
  destruct Hd as [(Ha & [state ->] & Hl)|(Ha & Han & Hl)]; simpl in Ha, Hl, H.
  - apply act_bind_inv in H as (self2 & enabled & [= <- <-] & H).
    destruct (so_buffer _ _ _ Hs1) as (b & Hb & _).
    unfold ShardRegion.buffer_config in H. simpl in H. rewrite Hb in H. simpl in H.
    eapply (enqueue_buffered_sound _ (ShardRegion.set_route self1 w)) in H as (? & ? & Hl').
    + apply unrouted_answer; [by rewrite Hl'; simpl; rewrite Hl, Hroute|done].
    + by apply set_route_sound.
    + apply set_route_blocked; [done|]. intros o' s'. by rewrite Hw.
    + done.
    + simpl. intros o' Ho'. rewrite Hw. congruence.
  - assert (self' = ShardRegion.set_route self1 w ∧ is_ok res = is_ok r1) as [-> Hok].
    { destruct r1 as [[]|[|? []]]; try done; by apply act_ret_inv in H as [<- <-]. }
    split; [|apply set_route_blocked; [done|]; intros o' s'; by rewrite Hw].
    assert (told_answer self (ShardRegion.set_route self1 w) entity msg res = [((e, msg), is_ok r1)]) as ->.
    { unfold told_answer. rewrite Hok. simpl. destruct (is_ok r1); [done|]. by rewrite Hl, Hroute, drop_app_length. }
    eapply (answered_sound self1 told _ [] [] w e msg); try done.
    + intros b Hb. by eapply blocked_empty.
    + intros e' b Hb. destruct (so_buffer _ _ _ Hs1) as (b0 & Hb0 & _ & _ & _ & _ & _ & Hord).
      rewrite Hb in Hb0. simplify_eq. specialize (Hord e'). change (queued_for e' []) with (@nil M) in *.
      rewrite app_nil_r in *. destruct (is_ok r1); [|by apply io_return].
      apply io_taken. pose proof (io_accept _ _ _ _ _ e msg Hord) as H'. rewrite sent_to_one in *.
      case_decide as He; simpl in He; [|by rewrite app_nil_r in H']. rewrite <-He in H' |- *.
      by rewrite (blocked_empty _ _ _ _ Hb Hbl1 Ho Ha) in H' |- *.
Qed.

(** A step of the route that answers nothing. *)
Lemma on_inner_sound {A} (f : act W A) self told rest self' a :
  sound self told rest → ShardRegion.on_route (on_inner f) self = (self', a) →
  sound self' told rest ∧ (f (ShardRegion.route_state self).1).2 = a ∧
  ((∀ o s, deferred self o s = true → defers (f (ShardRegion.route_state self).1).1 o s = true) →
   blocked self → blocked self').
Proof.
  intros Hs. unfold ShardRegion.on_route, on_inner. destruct (f _) as [w a0] eqn:Hfw.
  intros [= <- <-]. split; [by apply set_route_sound|]. split; [done|]. intros Hd Hbl. by apply set_route_blocked.
Qed.

Lemma act_try_sound {A E} (f : ShardId.t → act W (result E A)) l : ∀ self told rest self' r,
  (∀ s w, is_ok (f s w).2 = true) →
  sound self told rest → act_try (fun s => ShardRegion.on_route (on_inner (f s))) l self = (self', r) →
  sound self' told rest ∧ r = Ok tt.
Proof.
  induction l as [|s l IH]; intros self told rest self' r Hf Hs; simpl.
  { by intros [<- <-]%act_ret_inv. }
  intros (self1 & r1 & H1 & H2)%act_bind_inv.
  apply (on_inner_sound _ _ told rest) in H1 as (Hs1 & Hr & _); [|done].
  specialize (Hf s (ShardRegion.route_state self).1) as Hok. rewrite Hr in Hok.
  destruct r1; [by eapply IH|done].
Qed.

Lemma replays_sound self told rest s :
  sound self told rest → sound (ShardRegion.add_replay self s) told rest ∧
  (blocked self → blocked (ShardRegion.add_replay self s)).
Proof. intros [Ht Hc Hct Hcc Hb Hr]. split; [by constructor|done]. Qed.

Lemma replay_shard_sound rt s self told rest self' u :
  sound self told rest → ShardRegion.replay_remembered_for_shard rt s self = (self', u) →
  sound self' told rest ∧ (blocked self → blocked self').
Proof.
  intros Hs [= <- _]. destruct (ShardRegion.remembered_entities self); [|done].
  destruct rt; [|done]. by apply replays_sound.
Qed.

Lemma replay_owned_sound (r : EntityRoute.t (W * answers M) M) rt snapshot self told rest self' u :
  sound self told rest → blocked self →
  ShardRegion.replay_remembered_for_owned_shards r rt snapshot self = (self', u) →
  sound self' told rest ∧ blocked self'.
Proof.
  unfold ShardRegion.replay_remembered_for_owned_shards.
  destruct (EntityRoute.local_node_id r); [|by intros ?? [<- _]%act_ret_inv].
  revert self. induction (ShardOwnershipSnapshot.assignments snapshot) as [|a l IH];
    intros self Hs Hbl; simpl; [by intros [<- _]%act_ret_inv|].
  intros (self1 & [] & H1 & H2)%act_bind_inv.
  assert (sound self1 told rest ∧ blocked self1) as [Hs1 Hbl1].
  { case_decide; [|by apply act_ret_inv in H1 as [<- _]].
    apply (replay_shard_sound _ _ _ told rest) in H1 as [? ?]; [|done]. auto. }
  by eapply IH.
Qed.

(** Between the first handoff and the flush of a refresh a buffered message may be
    deliverable; the flush then looks at it. *)
Lemma refresh_sound now rt self told snapshot self' r :
  sound self told [] → blocked self → timely now →
  ShardRegion.refresh_ownership (recorded (route now rt)) now rt snapshot self = (self', r) →
  sound self' told [] ∧ blocked self'.
Proof.
  intros Hs Hbl Hnow (self1 & self2 & [= <- <-] & H)%act_bind_inv.
  destruct (validate_snapshot _ _ _) as [[]|] eqn:Hv; [|by apply act_ret_inv in H as [<- _]].
  destruct (ShardRegion.local_changes _ self snapshot) as [lost gained].
  apply act_bind_inv in H as (self1 & r1 & Hlost & H).
  apply (act_try_sound (fun s => EntityRoute.complete_shard_handoff (route now rt) s) _ _ told []) in Hlost
    as [Hlost ->]; [|intros s w; by eapply complete_closes, surjective_pairing|done].
  apply act_bind_inv in H as (self2 & r2 & Href & H).
  unfold ShardRegion.refresh_cache in Href.
  destruct (ShardOwnerCache.refresh _ _) as [cache r3] eqn:Hc. simplify_eq.
  assert (r2 = Ok tt ∧ ShardOwnerCache.entity_type cache = et ∧ ShardOwnerCache.config cache = cfg)
    as (-> & Hct & Hcc).
  { unfold ShardOwnerCache.refresh in Hc. rewrite (so_cache_type _ _ _ Hlost), (so_cache_config _ _ _ Hlost) in Hc.
    rewrite (so_type _ _ _ Hs), (so_config _ _ _ Hs) in Hv. rewrite Hv in Hc. by simplify_eq. }
  assert (sound (ShardRegion.set_owner_cache self1 cache) told []) as Hs2.
  { destruct Hlost as [Ht Hcf _ _ Hb Hr]. by constructor. }
  apply act_bind_inv in H as (self3 & r4 & Hgain & H).
  apply (act_try_sound (fun s => EntityRoute.acquire_shard (route now rt) s) _ _ told []) in Hgain
    as [Hgain ->]; [|intros s w; by eapply acquire_answers, surjective_pairing|done].
  apply act_bind_inv in H as (self4 & [] & Hflush & H).
  apply (flush_sound _ _ _ told) in Hflush as [Hs4 Hbl4]; [|done..].
  apply act_bind_inv in H as (self5 & [] & Hrep & H). apply act_ret_inv in H as [<- _].
  eapply replay_owned_sound; [exact Hs4|exact Hbl4|exact Hrep].
Qed.

Lemma acquire_sound now rt self told s self' r :
  sound self told [] → timely now →
  ShardRegion.acquire_shard (recorded (route now rt)) now rt s self = (self', r) →
  sound self' told [] ∧ blocked self'.
Proof.
  intros Hs Hnow (self1 & r1 & H1 & H)%act_bind_inv. simpl in H1.
  apply (on_inner_sound _ _ told []) in H1 as (Hs1 & Hr & _); [|done].
  assert (is_ok r1 = true) as Hok by (rewrite <-Hr; eapply acquire_answers, surjective_pairing).
  destruct r1 as [n|]; [|done].
  apply act_bind_inv in H as (self2 & [] & H2 & H).
  apply (replay_shard_sound _ _ _ told []) in H2 as [Hs2 _]; [|done].
  apply act_bind_inv in H as (self3 & [] & H3 & H). apply act_ret_inv in H as [<- _].
  by eapply flush_sound.
Qed.

Lemma replay_sound now rt ids : ∀ self told self' u,
  sound self told [] → blocked self → ShardRegion.run_replay (recorded (route now rt)) ids self = (self', u) →
  sound self' told [] ∧ blocked self'.
Proof.
  induction ids as [|id ids IH]; intros self told self' u Hs Hbl; unfold ShardRegion.run_replay; simpl.
  { by intros [<- _]%act_ret_inv. }
  intros (self1 & [] & H1 & H2)%act_bind_inv. apply act_bind_inv in H1 as (self0 & r & H1 & H0).
  apply act_ret_inv in H0 as [<- _].
  enough (sound self0 told [] ∧ blocked self0) as [] by (by eapply IH).
  apply act_bind_inv in H1 as (self2 & self3 & [= <- <-] & H1).
  cbv zeta in H1. destruct (ShardOwnerCache.owner_for_shard _ _); [|by apply act_ret_inv in H1 as [<- _]].
  cbn [recorded EntityRoute.local_node_id EntityRoute.activate_entity] in H1.
  destruct (EntityRoute.local_node_id (route now rt)); [|by apply act_ret_inv in H1 as [<- _]].
  case_decide; [|by apply act_ret_inv in H1 as [<- _]].
  apply (on_inner_sound _ _ told []) in H1 as (Hs1 & _ & Hb); [|done]. split; [done|]. apply Hb; [|done].
  intros o s Ho. by erewrite activate_keeps by apply surjective_pairing.
Qed.

Lemma region_event_sound self told e self' answered :
  sound self told [] → blocked self → opens_nothing route e →
  (calm = true → within_times start (start + ShardBufferConfig.ttl bc) e) →
  region_event route self e = (self', answered) →
  sound self' (told ++ answered) [] ∧ blocked self'.
Proof.
  intros Hs Hbl Ho Ht. destruct e as [now rt c]. unfold within_times, opens_nothing, region_event in *.
  destruct c; simpl in *.
  - destruct (ShardRegion.tell _ _ _ _ _) as [self1 r] eqn:He. intros [= <- <-].
    eapply tell_sound; [done..|exact He].
  - intros [= <- <-]. rewrite app_nil_r. apply (flush_sound now rt self told); [done|exact Ht|].
    by destruct (ShardRegion.flush_buffered _ _ _) as [? []].
  - intros [= <- <-]. rewrite app_nil_r. eapply refresh_sound; [done..|]. apply surjective_pairing.
  - intros [= <- <-]. rewrite app_nil_r. unfold ShardRegion.begin_shard_handoff.
    destruct (on_inner_sound (EntityRoute.begin_shard_handoff (route now rt) shard_id) self told [] _ _ Hs
      (surjective_pairing _)) as (? & _ & Hb). split; [done|]. apply Hb; [|done].
    by eapply begin_closes, surjective_pairing.
  - intros [= <- <-]. rewrite app_nil_r. unfold ShardRegion.complete_shard_handoff.
    destruct (on_inner_sound (EntityRoute.complete_shard_handoff (route now rt) shard_id) self told [] _ _ Hs
      (surjective_pairing _)) as (? & _ & Hb). split; [done|]. apply Hb; [|done].
    by eapply complete_closes, surjective_pairing.
  - intros [= <- <-]. rewrite app_nil_r. eapply acquire_sound; [done|done|]. apply surjective_pairing.
  - intros [= <- <-]. rewrite app_nil_r. eapply replay_sound; [done..|]. apply surjective_pairing.
  - intros [= <- <-]. rewrite app_nil_r. split; [by apply set_route_sound|]. apply set_route_blocked; [done|]. apply Ho.
Qed.

Lemma region_run_sound events : ∀ self told self' answered,
  sound self told [] → blocked self → Forall (opens_nothing route) events →
  (calm = true → Forall (within_times start (start + ShardBufferConfig.ttl bc)) events) →
  region_run route self events = (self', answered) →
  sound self' (told ++ answered) [] ∧ blocked self'.
Proof.
  induction events as [|e events IH]; intros self told self' answered Hs Hbl Ho Hev; simpl.
  { intros [= <- <-]. by rewrite app_nil_r. }
  apply Forall_cons in Ho as [Ho1 Ho].
  destruct (region_event route self e) as [self1 a1] eqn:H1.
  destruct (region_run route self1 events) as [self2 a2] eqn:H2. intros [= <- <-].
  apply (region_event_sound self told) in H1 as [Hs1 Hbl1]; [|done..|].
  2: { intros Hc. specialize (Hev Hc). by apply Forall_cons in Hev as [? _]. }
  rewrite (assoc_L (++)). eapply IH; [done..| |done]. intros Hc. specialize (Hev Hc). by apply Forall_cons in Hev as [_ ?].
Qed.

Lemma new_region_sound w :
  let self := ShardRegion.with_buffering (ShardRegion.new et cfg (w, [])) bc in sound self [] [] ∧ blocked self.
Proof.
  split.
  - constructor; simpl; try done; [|by intros ? ?%not_elem_of_nil].
    eexists. split; [done|]. unfold ShardMessageBuffer.queue. simpl. split_and!; [done..| | | |].
    + intros s m. rewrite lookup_empty. by intros ?%not_elem_of_nil.
    + intros s. rewrite lookup_empty. simpl. lia.
    + intros _ s. rewrite lookup_empty. unfold of_shard. simpl. lia.
    + intros e. rewrite lookup_empty. by split.
  - intros b s m o [= <-]. unfold ShardMessageBuffer.queue. simpl. rewrite lookup_empty.
    by intros ?%not_elem_of_nil.
Qed.
End order.

(** ** What a region promises while shards move *)


(** A tell to an entity that is paused, and one to an entity that can be reached. *)
Section tells.
Context {W M : Type} (route : EntityRoute.t W M).
Implicit Types (self : ShardRegion.t W M) (b : ShardMessageBuffer.t M).

Lemma tell_paused self b now until e (msg : M) :
  let s := for_entity (ShardRegion.entity_type self) e (ShardRegion.config self) in
  let b0 := ShardMessageBuffer.set_paused b
              (ShardMessageBuffer.still_paused now (ShardMessageBuffer.paused_entities b)) in
  ShardRegion.buffer self = Some b → ShardMessageBuffer.paused_entities b !! e = Some until →
  now < until →
  (length (ShardMessageBuffer.queue b s)
   < ShardBufferConfig.capacity_per_shard (ShardMessageBuffer.config b))%nat →
  ShardRegion.tell route now (EntityRef.new (ShardRegion.entity_type self) e) msg self
  = (ShardRegion.set_buffer (ShardRegion.set_buffer self (Some b0))
       (Some (ShardMessageBuffer.set_queue b0 s (ShardMessageBuffer.queue b0 s ++
          [BufferedEntityMessage.new (ShardRegion.entity_type self) e s msg now]))), Ok tt).
Proof.
  intros s b0 Hb Hp Hlt Hroom.
  unfold ShardRegion.tell, act_bind, ShardRegion.get, ShardRegion.ensure_entity_type. simpl.
  rewrite decide_True by done. unfold ShardRegion.is_entity_buffered, ShardRegion.on_buffer.
  rewrite Hb. simpl. rewrite bool_decide_true.
  2: { exists until. by apply map_lookup_filter_Some_2. }
  unfold ShardRegion.enqueue_buffered, ShardRegion.on_buffer. simpl.
  unfold ShardMessageBuffer.enqueue. simpl. apply Nat.ltb_lt in Hroom.
  change (ShardMessageBuffer.queue b s) with (ShardMessageBuffer.queue b0 s) in Hroom.
  unfold EntityRef.shard_id. simpl. fold b0. fold s. by rewrite Hroom.
Qed.

End tells.

Lemma tell_reachable {W M} (route : Z → bool → EntityRoute.t W M) `{!HandoffRoute route} rt
    (self : ShardRegion.t (W * answers M) M) b o now e (msg : M) :
  let s := for_entity (ShardRegion.entity_type self) e (ShardRegion.config self) in
  let b0 := ShardMessageBuffer.set_paused b
              (ShardMessageBuffer.still_paused now (ShardMessageBuffer.paused_entities b)) in
  ShardRegion.buffer self = Some b →
  (∀ until, ShardMessageBuffer.paused_entities b !! e = Some until → until <= now) →
  ShardOwnerCache.owner_for_entity (ShardRegion.owner_cache self) e = Ok (o, s) →
  defers (ShardRegion.route_state self).1 o s = false →
  ∃ w r, ShardRegion.tell (recorded (route now rt)) now (EntityRef.new (ShardRegion.entity_type self) e) msg self
         = (ShardRegion.set_route (ShardRegion.set_buffer self (Some b0)) w, r) ∧
    w.2 = (ShardRegion.route_state self).2 ++ [((e, msg), is_ok r)].
Proof.
  intros s b0 Hb Hp Ho Ha.
  unfold ShardRegion.tell, act_bind, ShardRegion.get, ShardRegion.ensure_entity_type. simpl.
  rewrite decide_True by done. unfold ShardRegion.is_entity_buffered, ShardRegion.on_buffer.
  rewrite Hb. simpl. rewrite bool_decide_false.
  2: { intros [until [Ht Hlt]%map_lookup_filter_Some]. simpl in Hlt. apply Hp in Ht. lia. }
  change (ShardRegion.owner_cache (ShardRegion.set_buffer _ _)) with (ShardRegion.owner_cache self). rewrite Ho.
  unfold ShardRegion.deliver_or_buffer, act_bind.
  destruct (ShardRegion.on_route _ _) as [self' r] eqn:Hr.
  apply on_route_deliver in Hr as (w & -> & _ & [(Hf & _)|(_ & Hnow & Hl)]).
  - simpl in Hf. unfold EntityRef.shard_id in Hf. simpl in Hf. fold s in Hf. congruence.
  - exists w, r. split; [|done]. by destruct r as [[]|[|? []]].
Qed.

(** A pause that has run out reorders messages.  The messages for an entity that is
    being passivated are buffered until its pause ends, but nothing flushes them when it
    does: a message told at the end of the pause goes to the route at once and overtakes the
    one that is still buffered. *)
Theorem expired_pause_overtakes {W M} (route : Z → bool → EntityRoute.t W M) `{!HandoffRoute route} rt
    (self : ShardRegion.t (W * answers M) M) b o now duration e (m1 m2 : M) :
  ShardRegion.buffer self = Some b →
  (length (ShardMessageBuffer.queue b (for_entity (ShardRegion.entity_type self) e (ShardRegion.config self)))
   < ShardBufferConfig.capacity_per_shard (ShardMessageBuffer.config b))%nat →
  ShardOwnerCache.owner_for_entity (ShardRegion.owner_cache self) e
  = Ok (o, for_entity (ShardRegion.entity_type self) e (ShardRegion.config self)) →
  defers (ShardRegion.route_state self).1 o
    (for_entity (ShardRegion.entity_type self) e (ShardRegion.config self)) = false →
  0 < duration →
  let entity := EntityRef.new (ShardRegion.entity_type self) e in
  ∃ self1 self2 self3 b3 r,
    ShardRegion.begin_entity_passivation now e duration self = (self1, tt) ∧
    ShardRegion.tell (recorded (route now rt)) now entity m1 self1 = (self2, Ok tt) ∧
    ShardRegion.tell (recorded (route (now + duration) rt)) (now + duration) entity m2 self2 = (self3, r) ∧
    (ShardRegion.route_state self3).2 = (ShardRegion.route_state self).2 ++ [((e, m2), is_ok r)] ∧
    ShardRegion.buffer self3 = Some b3 ∧
    m1 ∈ queued_for e (ShardMessageBuffer.queue b3
           (for_entity (ShardRegion.entity_type self) e (ShardRegion.config self))).
Proof.
  intros Hb Hroom Ho Ha Hd entity. set (s := for_entity _ e _) in *.
  unfold ShardRegion.begin_entity_passivation, ShardRegion.on_buffer. rewrite Hb.
  set (b1 := ShardMessageBuffer.pause_entity b e (now + duration)).
  set (self1 := ShardRegion.set_buffer self (Some b1)).
  pose proof (tell_paused (recorded (route now rt)) self1 b1 now (now + duration) e m1 eq_refl) as Ht1.
  specialize (Ht1 ltac:(simpl; by rewrite lookup_insert_eq) ltac:(lia) Hroom).
  set (b2 := ShardMessageBuffer.set_queue _ _ _) in Ht1.
  set (self2 := ShardRegion.set_buffer (ShardRegion.set_buffer _ _) (Some b2)) in Ht1.
  destruct (tell_reachable route rt self2 b2 o (now + duration) e m2) as (w & r & Ht2 & Hl); [done| |done|done|].
  { intros t0. simpl. intros [Hp _]%map_lookup_filter_Some. rewrite lookup_insert_eq in Hp.
    by simplify_eq. }
  eexists self1, self2, _, _, r. split; [done|]. split; [exact Ht1|]. split; [exact Ht2|].
  split; [exact Hl|]. split; [done|].
  change (m1 ∈ queued_for e (ShardMessageBuffer.queue b2 s)).
  unfold b2. rewrite queue_set, decide_True by done.
  rewrite queued_for_app, queued_for_one, decide_True by done. apply elem_of_app. right. by left.
Qed.
