(* ===== verification/LocalRoute.v ===== *)
(** * The local entity route: [rakka-sharding/src/local.rs]

    The route that runs the entities a node owns: one slot per entity, active or stopping,
    over the actor system of [Actors.v].  The registry lock makes each call one critical
    section; the tasks of the actors run beside it, as the schedule of the actor system
    says.  The route's own background work - the watcher of a stopping incarnation, the
    idle timer of an active one, a stop that is still owed - is a list of tasks, run one at
    a time.  A call takes the clock reading [now] and [rt], whether its thread belongs to
    the runtime (only then are tasks spawned). *)

From Stdlib Require Import Ascii.
From stdpp Require Import pretty.
From S2P Require Import Prelude Node Core Actors Identity Runtime Region.

(** ** Names and contexts *)

(** A character other than an ASCII letter or digit, [-], [_] or [.] becomes [_]; a
    longer character becomes one [_], which its leading byte stands for. *)
Definition sanitize_char (c : ascii) : string :=
  if is_ascii_alphanumeric c || (c =? "-")%char || (c =? "_")%char || (c =? ".")%char
  then String c ""
  else if ((128 <=? nat_of_ascii c) && (nat_of_ascii c <? 192))%nat then ""
  else "_".

Fixpoint sanitize_chars (value : string) : string :=
  match value with "" => "" | String c value => sanitize_char c +:+ sanitize_chars value end.

Definition sanitize (value : string) : string :=
  let sanitized := sanitize_chars value in
  if str_is_empty sanitized then "entity" else sanitized.

Definition local_entity_actor_name (entity_type : EntityType.t) (entity_id : EntityId.t)
    (shard_id : ShardId.t) : string :=
  "shard-" +:+ sanitize (EntityType.as_str entity_type) +:+ "-" +:+
  pretty (ShardId.as_u32 shard_id) +:+ "-" +:+ sanitize (EntityId.as_str entity_id).

Module LocalEntityContext.
Record t := mk {
  local_node_id : NodeId.t;
  entity_type : EntityType.t;
  entity_id : EntityId.t;
  shard_id : ShardId.t;
  actor_name : string;
}.

Definition new (local_node_id : NodeId.t) (entity_type : EntityType.t) (entity_id : EntityId.t)
    (shard_id : ShardId.t) : t :=
  mk local_node_id entity_type entity_id shard_id
     (local_entity_actor_name entity_type entity_id shard_id).
End LocalEntityContext.

(** ** Slots and tasks *)

Module LocalEntitySlot.
Inductive t (M : Type) :=
| Active (context : LocalEntityContext.t) (actor_ref : ActorRef.t) (idle_deadline : option Z)
    (timer_armed : bool)
| Stopping (context : LocalEntityContext.t) (actor_ref : ActorRef.t) (held : list M)
    (reactivate : bool).
Arguments Active {M} context actor_ref idle_deadline timer_armed.
Arguments Stopping {M} context actor_ref held reactivate.

Definition context {M} (self : t M) : LocalEntityContext.t :=
  match self with Active context _ _ _ | Stopping context _ _ _ => context end.

Definition actor_ref {M} (self : t M) : ActorRef.t :=
  match self with Active _ actor_ref _ _ | Stopping _ actor_ref _ _ => actor_ref end.

Definition held {M} (self : t M) : list M :=
  match self with Active _ _ _ _ => [] | Stopping _ _ held _ => held end.

Definition is_active {M} (self : t M) : bool :=
  match self with Active _ _ _ _ => true | Stopping _ _ _ _ => false end.
End LocalEntitySlot.

Inductive PassivationOutcome := OutcomeStopping | OutcomeAlreadyStopping | OutcomeAbsent | OutcomeAbandoned.

#[global] Instance PassivationOutcome_eq_dec : EqDecision PassivationOutcome.
Proof. solve_decision. Defined.

(** Background tasks: waiting for an incarnation to terminate, sleeping to a deadline,
    retrying a stop. *)
Inductive RouteTask :=
| StopWatcher (entity_id : EntityId.t) (actor_ref : ActorRef.t)
| IdleTimer (entity_id : EntityId.t) (uid : Z) (deadline : Z)
| OwedStop (entity_id : EntityId.t) (uid : Z).

(** The reasons of [warn_dropped]. *)
Inductive DropReason := ShardLeft | SpawnRefused | NextStopped | NextFull.

(** ** The route *)

Module LocalEntityRoute.
Section route.
Context {M : Type}.
(** Configuration: the local node, the options of the actors, the idle timeout. *)
Context (local_node_id : NodeId.t) (actor_options : ActorOptions.t)
        (idle_passivation_timeout : option Z).

(** [warnings] are the calls of [warn_dropped], [observed] those of the activation
    observer. *)
Record t := mk {
  system : ActorSystem.t M LocalEntityContext.t;
  actors : gmap EntityId.t (LocalEntitySlot.t M);
  shard_states : gmap ShardId.t ShardHandoffState;
  armed_idle_timers : nat;
  tasks : list RouteTask;
  warnings : list (LocalEntityContext.t * nat * DropReason);
  observed : list LocalEntityContext.t;
}.

Definition new (system : ActorSystem.t M LocalEntityContext.t) : t := mk system ∅ ∅ 0 [] [] [].

Definition set_system (self : t) (system : ActorSystem.t M LocalEntityContext.t) : t :=
  mk system (actors self) (shard_states self) (armed_idle_timers self) (tasks self)
     (warnings self) (observed self).
Definition set_actors (self : t) (actors : gmap EntityId.t (LocalEntitySlot.t M)) : t :=
  mk (system self) actors (shard_states self) (armed_idle_timers self) (tasks self)
     (warnings self) (observed self).
Definition set_shard_states (self : t) (shard_states : gmap ShardId.t ShardHandoffState) : t :=
  mk (system self) (actors self) shard_states (armed_idle_timers self) (tasks self)
     (warnings self) (observed self).
Definition set_tasks (self : t) (armed_idle_timers : nat) (tasks : list RouteTask) : t :=
  mk (system self) (actors self) (shard_states self) armed_idle_timers tasks
     (warnings self) (observed self).
Definition add_warning (self : t) (w : LocalEntityContext.t * nat * DropReason) : t :=
  mk (system self) (actors self) (shard_states self) (armed_idle_timers self) (tasks self)
     (warnings self ++ [w]) (observed self).
Definition add_observed (self : t) (context : LocalEntityContext.t) : t :=
  mk (system self) (actors self) (shard_states self) (armed_idle_timers self) (tasks self)
     (warnings self) (observed self ++ [context]).

Definition get {A} (f : t → A) : act t A := fun self => (self, f self).
Definition modify (f : t → t) : act t unit := fun self => (f self, tt).

Definition on_system {A} (m : act (ActorSystem.t M LocalEntityContext.t) A) : act t A := fun self =>
  let (system, a) := m (system self) in (set_system self system, a).

Definition slot (entity_id : EntityId.t) : act t (option (LocalEntitySlot.t M)) :=
  get (fun self => actors self !! entity_id).
Definition insert_slot (entity_id : EntityId.t) (s : LocalEntitySlot.t M) : act t unit :=
  modify (fun self => set_actors self (<[entity_id := s]> (actors self))).
Definition remove_slot (entity_id : EntityId.t) : act t unit :=
  modify (fun self => set_actors self (delete entity_id (actors self))).

Definition warn_dropped (context : LocalEntityContext.t) (dropped : nat) (reason : DropReason) :
    act t unit :=
  modify (fun self => add_warning self (context, dropped, reason)).

Definition spawn_task (rt : bool) (task : RouteTask) : act t unit :=
  modify (fun self => if rt then set_tasks self (armed_idle_timers self) (tasks self ++ [task]) else self).

Definition observe_activation (context : option LocalEntityContext.t) : act t unit :=
  modify (fun self => match context with Some c => add_observed self c | None => self end).

(** *** Shard states *)

Definition shard_handoff_state (self : t) (shard_id : ShardId.t) : ShardHandoffState :=
  default Owning (shard_states self !! shard_id).

Definition set_shard_state (shard_id : ShardId.t) (state : ShardHandoffState) : act t unit :=
  modify (fun self => set_shard_states self (<[shard_id := state]> (shard_states self))).

Definition ensure_shard_accepts_delivery (self : t) (shard_id : ShardId.t) :
    result EntityDeliveryFailure.t unit :=
  match shard_handoff_state self shard_id with
  | Owning | Acquired => Ok tt
  | (Draining | Transferring) as state => Err (EntityDeliveryFailure.ShardHandoff shard_id state)
  end.

(** *** Activation *)

(** Moves the idle deadline of an active slot and arms its timer. *)
Definition note_delivery (now : Z) (rt : bool) (entity_id : EntityId.t) : act t unit :=
  match idle_passivation_timeout with
  | None => act_ret tt
  | Some timeout =>
      let! s := slot entity_id in
      match s with
      | Some (LocalEntitySlot.Active context actor_ref _ timer_armed) =>
          let deadline := now + timeout in
          if timer_armed || negb rt then
            insert_slot entity_id (LocalEntitySlot.Active context actor_ref (Some deadline) timer_armed)
          else
            let! _ := insert_slot entity_id (LocalEntitySlot.Active context actor_ref (Some deadline) true) in
            modify (fun self => set_tasks self (S (armed_idle_timers self))
                      (tasks self ++ [IdleTimer entity_id (ActorRef.uid actor_ref) deadline]))
      | _ => act_ret tt
      end
  end.

Definition spawn_incarnation (context : LocalEntityContext.t) :
    act t (result EntityDeliveryFailure.t ActorRef.t) :=
  let! r := on_system (ActorSystem.spawn_actor_with_options
                         (LocalEntityContext.actor_name context) context actor_options) in
  act_ret (map_err (fun error => EntityDeliveryFailure.SpawnFailed (RakkaError.fmt error)) r).

(** The held messages go to the new incarnation in order; the first one it does not take
    ends the loop. *)
Fixpoint drain_held (context : LocalEntityContext.t) (actor_ref : ActorRef.t) (held : list M) :
    act t unit :=
  match held with
  | [] => act_ret tt
  | message :: rest =>
      let! outcome := on_system (ActorSystem.tell actor_ref message) in
      match outcome with
      | Sent => drain_held context actor_ref rest
      | MailboxClosed => warn_dropped context (length held) NextStopped
      | MailboxFull => warn_dropped context (length held) NextFull
      end
  end.

Definition activate_slot (now : Z) (rt : bool) (context : LocalEntityContext.t) (held : list M) :
    act t (result EntityDeliveryFailure.t ActorRef.t) :=
  let! spawned := spawn_incarnation context in
  match spawned with
  | Err failure =>
      let! _ := match held with [] => act_ret tt | _ => warn_dropped context (length held) SpawnRefused end in
      act_ret (Err failure)
  | Ok actor_ref =>
      let entity_id := LocalEntityContext.entity_id context in
      let! _ := drain_held context actor_ref held in
      let! _ := insert_slot entity_id (LocalEntitySlot.Active context actor_ref None false) in
      let! _ := match held with [] => act_ret tt | _ => note_delivery now rt entity_id end in
      act_ret (Ok actor_ref)
  end.

Definition activate_and_deliver (now : Z) (rt : bool) (context : LocalEntityContext.t)
    (held : list M) (message : M) : act t (result (EntityTellError M) (option LocalEntityContext.t)) :=
  let! activated := activate_slot now rt context held in
  match activated with
  | Err failure => act_ret (Err (Delivery message failure))
  | Ok actor_ref =>
      let! outcome := on_system (ActorSystem.tell actor_ref message) in
      match outcome with
      | Sent =>
          let! _ := note_delivery now rt (LocalEntityContext.entity_id context) in
          act_ret (Ok (Some context))
      | MailboxFull => act_ret (Err (Delivery message EntityDeliveryFailure.MailboxFull))
      | MailboxClosed => act_ret (Err (Delivery message EntityDeliveryFailure.MailboxClosed))
      end
  end.

(** *** Stopping *)

Definition hold_behind_self_stop (rt : bool) (entity_id : EntityId.t)
    (context : LocalEntityContext.t) (actor_ref : ActorRef.t) (message : M) : act t unit :=
  let! _ := insert_slot entity_id (LocalEntitySlot.Stopping context actor_ref [message] false) in
  spawn_task rt (StopWatcher entity_id actor_ref).

Definition passivate_slot (rt : bool) (entity_id : EntityId.t) (stop_message : option M) :
    act t PassivationOutcome :=
  let! s := slot entity_id in
  match s with
  | None => act_ret OutcomeAbsent
  | Some (LocalEntitySlot.Stopping _ _ _ _) => act_ret OutcomeAlreadyStopping
  | Some (LocalEntitySlot.Active context actor_ref _ _) =>
      let! terminated := on_system (ActorSystem.is_terminated actor_ref) in
      if (terminated : bool) then
        let! _ := remove_slot entity_id in act_ret OutcomeAbsent
      else
        let! full := match stop_message with
                     | Some stop_message =>
                         let! outcome := on_system (ActorSystem.tell actor_ref stop_message) in
                         act_ret (match outcome with MailboxFull => true | _ => false end)
                     | None => act_ret false
                     end in
        if (full : bool) then act_ret OutcomeAbandoned
        else
          let! stopped := on_system (ActorSystem.stop actor_ref) in
          match stopped with
          | Err StopError.MailboxFull => act_ret OutcomeAbandoned
          | Ok _ | Err StopError.MailboxClosed =>
              let! _ := insert_slot entity_id (LocalEntitySlot.Stopping context actor_ref [] false) in
              let! _ := spawn_task rt (StopWatcher entity_id actor_ref) in
              act_ret OutcomeStopping
          end
  end.

Definition passivate_entity_with (rt : bool) (entity_id : EntityId.t) (stop_message : option M) :
    act t bool :=
  let! outcome := passivate_slot rt entity_id stop_message in
  act_ret (match outcome with OutcomeStopping | OutcomeAlreadyStopping => true | _ => false end).

(** One entity of [passivate_shard]; the answer is 1 when it entered the stopping state. *)
Definition passivate_shard_entity (rt : bool) (entity_id : EntityId.t) : act t nat :=
  let! s := slot entity_id in
  match s with
  | Some (LocalEntitySlot.Stopping context actor_ref held reactivate) =>
      let! _ := match held with [] => act_ret tt | _ => warn_dropped context (length held) ShardLeft end in
      let! _ := insert_slot entity_id (LocalEntitySlot.Stopping context actor_ref [] false) in
      act_ret 0%nat
  | _ =>
      let! outcome := passivate_slot rt entity_id None in
      match outcome with
      | OutcomeStopping => act_ret 1%nat
      | OutcomeAbandoned =>
          let! s := slot entity_id in
          let! _ := match s with
                    | Some (LocalEntitySlot.Active _ actor_ref _ _) =>
                        spawn_task rt (OwedStop entity_id (ActorRef.uid actor_ref))
                    | _ => act_ret tt
                    end in
          act_ret 0%nat
      | OutcomeAlreadyStopping | OutcomeAbsent => act_ret 0%nat
      end
  end.

Fixpoint passivate_each (rt : bool) (entity_ids : list EntityId.t) : act t nat :=
  match entity_ids with
  | [] => act_ret 0%nat
  | entity_id :: entity_ids =>
      let! n := passivate_shard_entity rt entity_id in
      let! k := passivate_each rt entity_ids in
      act_ret (n + k)%nat
  end.

Definition entities_of_shard (self : t) (shard_id : ShardId.t) : list EntityId.t :=
  (filter (fun p => LocalEntityContext.shard_id (LocalEntitySlot.context p.2) = shard_id)
     (btree_entries (actors self))).*1.

Definition passivate_shard (rt : bool) (shard_id : ShardId.t) : act t nat :=
  let! entity_ids := get (fun self => entities_of_shard self shard_id) in
  passivate_each rt entity_ids.

Definition mark_shard_draining (shard_id : ShardId.t) : act t nat :=
  let! _ := set_shard_state shard_id Draining in act_ret 0%nat.
Definition mark_shard_transferring (rt : bool) (shard_id : ShardId.t) : act t nat :=
  let! _ := set_shard_state shard_id Transferring in passivate_shard rt shard_id.
Definition mark_shard_acquired (shard_id : ShardId.t) : act t nat :=
  let! _ := set_shard_state shard_id Acquired in act_ret 0%nat.
Definition mark_shard_owning (shard_id : ShardId.t) : act t nat :=
  let! _ := set_shard_state shard_id Owning in act_ret 0%nat.

(** *** Delivery *)

Definition deliver_locked (now : Z) (rt : bool) (routed : RoutedEntityMessage.t M) :
    act t (result (EntityTellError M) (option LocalEntityContext.t)) :=
  let entity_id := RoutedEntityMessage.entity_id routed in
  let message := RoutedEntityMessage.message routed in
  let context := LocalEntityContext.new local_node_id (RoutedEntityMessage.entity_type routed)
                   entity_id (RoutedEntityMessage.shard_id routed) in
  let! s := slot entity_id in
  match s with
  | None => activate_and_deliver now rt context [] message
  | Some (LocalEntitySlot.Active slot_context actor_ref _ _) =>
      let! terminated := on_system (ActorSystem.is_terminated actor_ref) in
      if (terminated : bool) then
        let! _ := remove_slot entity_id in activate_and_deliver now rt context [] message
      else
        let! stopping := on_system (ActorSystem.is_stopping actor_ref) in
        if (stopping : bool) then
          let! _ := hold_behind_self_stop rt entity_id slot_context actor_ref message in
          act_ret (Ok None)
        else
          let! outcome := on_system (ActorSystem.tell actor_ref message) in
          match outcome with
          | Sent =>
              let! _ := note_delivery now rt entity_id in act_ret (Ok (Some context))
          | MailboxFull => act_ret (Err (Delivery message EntityDeliveryFailure.MailboxFull))
          | MailboxClosed =>
              let! terminated := on_system (ActorSystem.is_terminated actor_ref) in
              if (terminated : bool) then
                let! _ := remove_slot entity_id in activate_and_deliver now rt context [] message
              else
                let! _ := hold_behind_self_stop rt entity_id slot_context actor_ref message in
                act_ret (Ok None)
          end
  | Some (LocalEntitySlot.Stopping slot_context actor_ref held reactivate) =>
      let! terminated := on_system (ActorSystem.is_terminated actor_ref) in
      if (terminated : bool) then
        let! _ := remove_slot entity_id in activate_and_deliver now rt context held message
      else if (length held <? ActorOptions.mailbox_capacity actor_options)%nat then
        let! _ := insert_slot entity_id
                    (LocalEntitySlot.Stopping slot_context actor_ref (held ++ [message]) reactivate) in
        act_ret (Ok None)
      else act_ret (Err (Delivery message EntityDeliveryFailure.MailboxFull))
  end.

Definition deliver (now : Z) (rt : bool) (routed : RoutedEntityMessage.t M) :
    act t (result (EntityTellError M) unit) :=
  let message := RoutedEntityMessage.message routed in
  if decide (RoutedEntityMessage.owner routed = local_node_id) then
    let! accepts := get (fun self =>
                      ensure_shard_accepts_delivery self (RoutedEntityMessage.shard_id routed)) in
    match accepts with
    | Err failure => act_ret (Err (Delivery message failure))
    | Ok _ =>
        let! r := deliver_locked now rt routed in
        match r with
        | Err error => act_ret (Err error)
        | Ok context => let! _ := observe_activation context in act_ret (Ok tt)
        end
    end
  else act_ret (Err (Delivery message
                       (EntityDeliveryFailure.NotLocal (RoutedEntityMessage.owner routed)))).

Definition activate_existing_or_spawn (now : Z) (rt : bool) (entity_type : EntityType.t)
    (entity_id : EntityId.t) (shard_id : ShardId.t) : act t (ShardingResult bool) :=
  let replay_error failure :=
    RememberedEntityReplay entity_type entity_id shard_id (EntityDeliveryFailure.fmt failure) in
  let context := LocalEntityContext.new local_node_id entity_type entity_id shard_id in
  let activate held :=
    let! _ := remove_slot entity_id in
    let! r := activate_slot now rt context held in
    act_ret (match r with Ok _ => Ok (Some context) | Err failure => Err (replay_error failure) end) in
  let! accepts := get (fun self => ensure_shard_accepts_delivery self shard_id) in
  match accepts with
  | Err failure => act_ret (Err (replay_error failure))
  | Ok _ =>
      let! s := slot entity_id in
      let! r :=
        match s with
        | None => activate []
        | Some (LocalEntitySlot.Active _ actor_ref _ _) =>
            let! terminated := on_system (ActorSystem.is_terminated actor_ref) in
            if (terminated : bool) then activate [] else act_ret (Ok (Some context))
        | Some (LocalEntitySlot.Stopping slot_context actor_ref held _) =>
            let! terminated := on_system (ActorSystem.is_terminated actor_ref) in
            if (terminated : bool) then activate held
            else
              let! _ := insert_slot entity_id (LocalEntitySlot.Stopping slot_context actor_ref held true) in
              act_ret (Ok None)
        end in
      match r with
      | Err error => act_ret (Err error)
      | Ok observed => let! _ := observe_activation observed in act_ret (Ok true)
      end
  end.

(** *** Background tasks *)

(** [uid] has terminated. *)
Definition on_incarnation_stopped (now : Z) (rt : bool) (entity_id : EntityId.t) (uid : Z) : act t unit :=
  let! s := slot entity_id in
  match s with
  | Some (LocalEntitySlot.Stopping context actor_ref held reactivate) =>
      if decide (ActorRef.uid actor_ref = uid) then
        let! _ := remove_slot entity_id in
        match held, reactivate with
        | [], false => act_ret tt
        | _, _ =>
            let! r := activate_slot now rt context held in
            observe_activation (match r with Ok _ => Some context | Err _ => None end)
        end
      else act_ret tt
  | _ => act_ret tt
  end.

(** One wake-up of the idle timer, its deadline passed: [Some due] sleeps again. *)
Definition run_idle_timer (now : Z) (rt : bool) (entity_id : EntityId.t) (uid : Z) : act t (option Z) :=
  match idle_passivation_timeout with
  | None => act_ret None
  | Some timeout =>
      let! s := slot entity_id in
      match s with
      | Some (LocalEntitySlot.Active context actor_ref idle_deadline timer_armed) =>
          if decide (ActorRef.uid actor_ref = uid) then
            match idle_deadline with
            | None =>
                let! _ := insert_slot entity_id (LocalEntitySlot.Active context actor_ref None false) in
                act_ret None
            | Some due =>
                if now <? due then act_ret (Some due)
                else
                  let! outcome := passivate_slot rt entity_id None in
                  if decide (outcome = OutcomeAbandoned) then
                    let pushed := now + timeout in
                    let! s := slot entity_id in
                    let! _ := match s with
                              | Some (LocalEntitySlot.Active context actor_ref _ timer_armed) =>
                                  insert_slot entity_id
                                    (LocalEntitySlot.Active context actor_ref (Some pushed) timer_armed)
                              | _ => act_ret tt
                              end in
                    act_ret (Some pushed)
                  else act_ret None
            end
          else act_ret None
      | _ => act_ret None
      end
  end.

(** One attempt of [spawn_owed_stop]: whether the stop is still owed. *)
Definition retry_owed_stop (rt : bool) (entity_id : EntityId.t) (uid : Z) : act t bool :=
  let! s := slot entity_id in
  match s with
  | Some (LocalEntitySlot.Active _ actor_ref _ _) =>
      if decide (ActorRef.uid actor_ref = uid) then
        let! outcome := passivate_slot rt entity_id None in
        act_ret (bool_decide (outcome = OutcomeAbandoned))
      else act_ret false
  | _ => act_ret false
  end.

Definition remove_task (i : nat) : act t unit :=
  modify (fun self => set_tasks self (armed_idle_timers self) (list_delete i (tasks self))).

(** The [i]-th task runs to its next wait. *)
Definition run_task (now : Z) (rt : bool) (i : nat) : act t unit :=
  let! task := get (fun self => tasks self !! i) in
  match task with
  | None => act_ret tt
  | Some (StopWatcher entity_id actor_ref) =>
      let! terminated := on_system (ActorSystem.is_terminated actor_ref) in
      if (terminated : bool) then
        let! _ := remove_task i in on_incarnation_stopped now rt entity_id (ActorRef.uid actor_ref)
      else act_ret tt
  | Some (IdleTimer entity_id uid deadline) =>
      if now <? deadline then act_ret tt
      else
        let! next := run_idle_timer now rt entity_id uid in
        match next with
        | Some due =>
            modify (fun self => set_tasks self (armed_idle_timers self)
                      (<[i := IdleTimer entity_id uid due]> (tasks self)))
        | None =>
            modify (fun self => set_tasks self (pred (armed_idle_timers self)) (list_delete i (tasks self)))
        end
  | Some (OwedStop entity_id uid) =>
      let! owed := retry_owed_stop rt entity_id uid in
      if (owed : bool) then act_ret tt else remove_task i
  end.

(** *** Diagnostics *)

Definition is_terminated_active (s : LocalEntitySlot.t M) : act t bool :=
  match s with
  | LocalEntitySlot.Active _ actor_ref _ _ => on_system (ActorSystem.is_terminated actor_ref)
  | LocalEntitySlot.Stopping _ _ _ _ => act_ret false
  end.

Fixpoint reap_each (entries : list (EntityId.t * LocalEntitySlot.t M)) : act t nat :=
  match entries with
  | [] => act_ret 0%nat
  | (entity_id, s) :: entries =>
      let! terminated := is_terminated_active s in
      let! _ := if (terminated : bool) then remove_slot entity_id else act_ret tt in
      let! n := reap_each entries in
      act_ret (if (terminated : bool) then S n else n)
  end.

Definition reap_terminated_entities : act t nat :=
  let! entries := get (fun self => btree_entries (actors self)) in reap_each entries.

Definition entity_count : act t nat :=
  let! _ := reap_terminated_entities in
  get (fun self => length (filter (fun s => LocalEntitySlot.is_active s = true) (btree_values (actors self)))).

Definition entity_actor (entity_id : EntityId.t) : act t (option ActorRef.t) :=
  let! s := slot entity_id in
  match s with
  | Some (LocalEntitySlot.Active context actor_ref d a) =>
      let! terminated := on_system (ActorSystem.is_terminated actor_ref) in
      if (terminated : bool) then let! _ := remove_slot entity_id in act_ret None
      else act_ret (Some actor_ref)
  | _ => act_ret None
  end.

(** [impl EntityRoute for LocalEntityRoute]. *)
Definition route (now : Z) (rt : bool) : EntityRoute.t t M := EntityRoute.mk
  (deliver now rt)
  (Some local_node_id)
  (fun shard_id => let! n := mark_shard_draining shard_id in act_ret (Ok n))
  (fun shard_id => let! n := mark_shard_transferring rt shard_id in act_ret (Ok n))
  (fun shard_id => let! n := mark_shard_acquired shard_id in act_ret (Ok n))
  (activate_existing_or_spawn now rt)
  (fun shard_id self => Some (shard_handoff_state self shard_id)).
End route.
Arguments t : clear implicits.
End LocalEntityRoute.
