(* ===== verification/LocalRouteOrder.v ===== *)
(** * Slots against the actor system: invariant of [rakka-sharding/src/local.rs]

    [route_ok] relates the slots of a local entity route, as a map of [view]s, to the cells
    and the history of the actor system under them: every slot has a cell of its entity,
    every live cell is in the slot of its entity, and the messages accepted for an entity
    are those its incarnations took followed by those that wait.  The lemmas say what the
    steps of the actors and each operation on an [ActorRef] do to it; [LocalRouteRuns.v]
    lifts them to the calls of the route. *)

From S2P Require Import Prelude Node Core Actors Identity Runtime Region RegionOrder LocalRoute.

(** ** Slots against the actor system *)

(** What the invariant sees of a slot. *)
Record view (M : Type) := mk_view { v_active : bool; v_uid : Z; v_held : list M }.
Arguments mk_view {M} v_active v_uid v_held.
Arguments v_active {M}.
Arguments v_uid {M}.
Arguments v_held {M}.

Section invariant.
Context {M : Type}.
(** The capacity of the mailboxes; the contexts that are in play; whether handlers always
    go on; whether the system stays up and the names of the contexts are distinct. *)
Context (cap : nat) (known : LocalEntityContext.t → Prop) (calm fine : bool).
Implicit Types (sys : ActorSystem.t M LocalEntityContext.t) (c : ActorCell.t M LocalEntityContext.t)
  (v : gmap EntityId.t (view M)) (x : view M) (e : EntityId.t) (acc : list (EntityId.t * M))
  (lost : list EntityId.t).

Definition entity_of c : EntityId.t := LocalEntityContext.entity_id (ActorCell.origin c).

(** The events of the incarnations of [e], and those of its messages that wait. *)
Definition belongs sys e (uid : Z) : bool :=
  match ActorSystem.cells sys !! uid with
  | Some c => bool_decide (entity_of c = e)
  | None => false
  end.

Definition entity_events e sys : list (MessageEvent M) :=
  events_in (belongs sys e) (ActorSystem.history sys).

Definition mailbox_of sys (uid : Z) : list (Envelope M) :=
  match ActorSystem.cells sys !! uid with Some c => ActorCell.mailbox c | None => [] end.

Definition waiting e sys v : list M :=
  match v !! e with
  | Some x => users (mailbox_of sys (v_uid x)) ++ v_held x
  | None => []
  end.

(** No message is queued behind a stop. *)
Definition stop_last (mailbox : list (Envelope M)) : Prop :=
  ∀ before after, mailbox = before ++ StopEnvelope :: after → users after = [].

Record route_ok sys v acc lost : Prop := {
  ok_system : system_wf sys;
  ok_slot : ∀ e x, v !! e = Some x → ∃ c, ActorSystem.cells sys !! v_uid x = Some c ∧ entity_of c = e ∧
    (v_active x = true → v_held x = [] ∧ StopEnvelope ∉ ActorCell.mailbox c) ∧
    (length (v_held x) ≤ cap)%nat;
  ok_cell : ∀ uid c, ActorSystem.cells sys !! uid = Some c →
    ActorCell.mailbox_capacity c = cap ∧ stop_last (ActorCell.mailbox c) ∧
    known (ActorCell.origin c) ∧
    ActorCell.path c = ActorPath.user (ActorSystem.name sys)
                         (LocalEntityContext.actor_name (ActorCell.origin c)) ∧
    (ActorCell.is_terminated c = false → ∃ x, v !! entity_of c = Some x ∧ v_uid x = uid);
  ok_order : ∀ e, e ∈ lost ∨ sent_to e acc = taken (entity_events e sys) ++ waiting e sys v;
  ok_calm : calm = true →
    Forall (Forall (fun s => s.2 = goes_on)) (ActorSystem.schedule sys) ∧
    discarded (ActorSystem.history sys).*2 = [];
  ok_fine : fine = true → ActorSystem.terminating sys = false;
}.

Lemma stop_last_suffix before mailbox : stop_last (before ++ mailbox) → stop_last mailbox.
Proof. intros H b a ->. apply (H (before ++ b)). by rewrite (assoc_L (++)). Qed.

Lemma stop_last_push_stop mailbox : stop_last mailbox → stop_last (mailbox ++ [StopEnvelope]).
Proof.
  intros H before after Heq. destruct after as [|a after _] using rev_ind; [done|].
  rewrite app_comm_cons, (assoc_L (++)) in Heq. apply app_inj_tail in Heq as [-> <-].
  rewrite users_app, (H _ _ eq_refl). done.
Qed.

Lemma stop_last_push_user mailbox (m : M) : StopEnvelope ∉ mailbox → stop_last (mailbox ++ [User m]).
Proof.
  intros H before after Heq. exfalso. destruct after as [|a after _] using rev_ind.
  - by apply app_inj_tail in Heq as [_ ?].
  - rewrite app_comm_cons, (assoc_L (++)) in Heq. apply app_inj_tail in Heq as [-> _].
    apply H, elem_of_app. right. by left.
Qed.

Lemma not_elem_suffix (a : Envelope M) before mailbox : a ∉ before ++ mailbox → a ∉ mailbox.
Proof. rewrite elem_of_app. naive_solver. Qed.

(** *** Steps of the actors *)

Lemma events_in_ext (sel sel' : Z → bool) (h : list (Z * MessageEvent M)) :
  (∀ u ev, (u, ev) ∈ h → sel u = sel' u) → events_in sel h = events_in sel' h.
Proof.
  intros Hext. induction h as [|[u ev] h IH]; [done|].
  change ((u, ev) :: h) with ([(u, ev)] ++ h). rewrite !events_in_app. f_equal.
  - unfold events_in. simpl. by rewrite (Hext u ev) by (by left).
  - apply IH. intros u' ev' ?. apply (Hext u' ev'). by right.
Qed.

(** Replacing a cell by one that stands for the same actor changes which events belong to
    an entity only by the new ones. *)
Lemma entity_events_set_cell e sys uid c c' letters ev :
  ActorSystem.cells sys !! uid = Some c → ActorCell.origin c' = ActorCell.origin c →
  entity_events e (ActorSystem.set_cell sys uid c' letters ev)
  = entity_events e sys ++ (if bool_decide (entity_of c = e) then ev else []).
Proof.
  intros Hc Ho. unfold entity_events. simpl. rewrite events_in_app, events_in_uid.
  assert (∀ u, belongs (ActorSystem.set_cell sys uid c' letters ev) e u = belongs sys e u) as Hb.
  { intros u. unfold belongs. simpl. destruct (decide (u = uid)) as [-> |Hne].
    - rewrite lookup_insert_eq, Hc. unfold entity_of. by rewrite Ho.
    - by rewrite lookup_insert_ne. }
  f_equal; [by apply events_in_ext; intros; apply Hb|].
  rewrite Hb. unfold belongs. by rewrite Hc.
Qed.

Lemma mailbox_of_set_cell sys uid c' letters ev u :
  mailbox_of (ActorSystem.set_cell sys uid c' letters ev) u
  = if decide (u = uid) then ActorCell.mailbox c' else mailbox_of sys u.
Proof.
  unfold mailbox_of. simpl. case_decide as Hu; [subst; by rewrite lookup_insert_eq|].
  by rewrite lookup_insert_ne.
Qed.

(** The unregistration of a cell touches nothing the invariant sees. *)
Lemma unregister_ok sys v acc lost c :
  route_ok sys v acc lost → route_ok (ActorSystem.unregister_actor_cell sys c) v acc lost.
Proof. intros [Hs Hsl Hc Ho Hca Hf]. constructor; try done. by apply unregister_wf. Qed.

Lemma actor_step_ok sys v acc lost s :
  route_ok sys v acc lost → (calm = true → s.2 = goes_on) →
  route_ok (ActorSystem.actor_step sys s) v acc lost.
Proof.
  destruct s as [uid outcome]. intros Hok Hout. pose proof (actor_step_wf sys (uid, outcome) (ok_system _ _ _ _ Hok)) as Hwf.
  unfold ActorSystem.actor_step in *.
  destruct (ActorSystem.cells sys !! uid) as [c|] eqn:Hc; [|done].
  destruct (ActorCell.step c outcome) as [c' ev] eqn:Hs.
  pose proof (step_same _ _ _ _ Hs) as (Hpath & _ & Hcap & _ & Horig).
  pose proof (step_move _ _ _ _ Hs) as Hm.
  set (sys' := ActorSystem.set_cell _ _ _ _ _) in *.
  destruct Hok as [Hsys Hslot Hcell Hord Hcalm Hfine].
  enough (route_ok sys' v acc lost) by (by case_match; [..|apply unregister_ok]).
  destruct (Hcell _ _ Hc) as (Hccap & Hlast & Hkn & Hcp & Hlive).
  destruct (move_messages _ _ _ Hm) as [_ Hus]. destruct (move_suffix _ _ _ Hm) as [before Hsuf].
  assert (∀ u c1, ActorSystem.cells sys' !! u = Some c1 →
    (u = uid ∧ c1 = c') ∨ (u ≠ uid ∧ ActorSystem.cells sys !! u = Some c1)) as Hinv.
  { intros u c1. simpl. rewrite lookup_insert_Some. naive_solver. }
  constructor.
  - destruct (ActorCell.phase c') eqn:Hph; try exact Hwf.
    destruct Hwf as [Hw1 Hw2 _]. constructor; [exact Hw1|exact Hw2|].
    intros path u Hl. destruct (wf_live _ Hsys _ _ Hl) as (c1 & Hc1 & Hp1). simpl.
    destruct (decide (u = uid)) as [-> |Hne]; [rewrite lookup_insert_eq; eexists; split; [done|]; simplify_eq; by rewrite Hpath|].
    rewrite lookup_insert_ne by done. eauto.
  - intros e x Hx. destruct (Hslot _ _ Hx) as (c1 & Hc1 & He & Hact & Hlen). simpl.
    destruct (decide (v_uid x = uid)) as [Heq|Hne].
    + rewrite Heq in *. rewrite lookup_insert_eq. simplify_eq. exists c'.
      split_and!; [done|unfold entity_of; by rewrite Horig| |done].
      intros [? Hn]%Hact. split; [done|]. rewrite Hsuf in Hn. by eapply not_elem_suffix.
    + rewrite lookup_insert_ne by done. eauto 10.
  - intros u c1 [[-> ->]|[Hne Hc1]]%Hinv; [|by apply Hcell].
    split_and!; [congruence|rewrite Hsuf in Hlast; by eapply stop_last_suffix|congruence|simpl; congruence|].
    intros Ht. unfold entity_of. rewrite Horig. apply Hlive.
    destruct (ActorCell.is_terminated c) eqn:Htc; [|done]. by rewrite (move_terminated _ _ _ Hm Htc) in Ht.
  - intros e. destruct (Hord e) as [Hl|He]; [by left|]. right. rewrite He. unfold sys'.
    rewrite (entity_events_set_cell e sys uid c c') by done. rewrite taken_app, <-(assoc_L (++)). f_equal.
    unfold waiting. destruct (v !! e) as [x|] eqn:Hx.
    + rewrite mailbox_of_set_cell. destruct (Hslot _ _ Hx) as (c1 & Hc1 & He1 & _).
      case_decide as Hu.
      * rewrite Hu in *. simplify_eq. rewrite bool_decide_true by done.
        unfold mailbox_of. rewrite Hc, Hus. by rewrite <-(assoc_L (++)).
      * case_bool_decide as Hce; [|done].
        destruct (ActorCell.is_terminated c) eqn:Ht.
        -- by destruct (move_stopping _ _ _ Hm (is_stopping_terminated _ Ht)) as (_ & -> & _).
        -- destruct (Hlive eq_refl) as (x' & Hx' & Hu'). rewrite Hce in Hx'. congruence.
    + case_bool_decide as Hce; [|done].
      destruct (ActorCell.is_terminated c) eqn:Ht.
      * by destruct (move_stopping _ _ _ Hm (is_stopping_terminated _ Ht)) as (_ & -> & _).
      * destruct (Hlive eq_refl) as (x' & Hx' & Hu'). rewrite Hce in Hx'. congruence.
  - intros Hca. destruct (Hcalm Hca) as [Hsch Hd]. split; [done|].
    simpl. rewrite fmap_app, discarded_app, Hd. simpl.
    assert ((pair uid <$> ev).*2 = ev) as ->.
    { clear. induction ev as [|a ev IH]; [done|]. csimpl. by rewrite IH. }
    specialize (Hout Hca). simpl in Hout. subst outcome.
    unfold ActorCell.step in Hs. unfold goes_on in Hs. simpl in Hs.
    destruct (ActorCell.phase c); simplify_eq/=; try done.
    destruct (ActorCell.mailbox c) as [|[m|] rest] eqn:Hmb; simplify_eq/=; try done.
    injection Hs as _ <-. simpl. by rewrite (Hlast [] rest eq_refl).
  - done.
Qed.

Lemma interleave_ok v acc lost :
  act_spec (fun sys => route_ok sys v acc lost) ActorSystem.interleave (fun _ sys => route_ok sys v acc lost).
Proof.
  intros sys sys' [] Hok. unfold ActorSystem.interleave.
  destruct (ActorSystem.schedule sys) as [|batch rest] eqn:Hsch; intros [= <-]; [done|].
  assert (calm = true → Forall (fun s => s.2 = goes_on) batch ∧ Forall (Forall (fun s => s.2 = goes_on)) rest) as Hb.
  { intros Hc. destruct (ok_calm _ _ _ _ Hok Hc) as [Hf _]. rewrite Hsch in Hf. by apply Forall_cons in Hf. }
  assert (route_ok (ActorSystem.set_schedule sys rest) v acc lost) as Hok'.
  { destruct Hok as [Hs Hsl Hc Ho Hca Hf]. constructor; try done; [by apply set_schedule_wf|].
    intros Hcm. destruct (Hca Hcm) as [_ Hd]. split; [by apply Hb|done]. }
  clear Hsch Hok. revert Hok'. generalize (ActorSystem.set_schedule sys rest).
  assert (calm = true → Forall (fun s => s.2 = goes_on) batch) as Hb' by naive_solver. clear Hb.
  induction batch as [|s batch IH]; simpl; [done|]. intros sys' Hok'. apply IH.
  - intros Hc. by apply Hb', Forall_cons in Hc as [_ ?].
  - apply actor_step_ok; [done|]. intros Hc. by apply Hb', Forall_cons in Hc as [? _].
Qed.

(** *** What the steps of the actors leave alone *)

Definition later sys sys' : Prop :=
  ActorSystem.name sys' = ActorSystem.name sys ∧
  ∀ uid c, ActorSystem.cells sys !! uid = Some c → ∃ c' before,
    ActorSystem.cells sys' !! uid = Some c' ∧ same_actor_cell c c' ∧
    ActorCell.mailbox c = before ++ ActorCell.mailbox c' ∧
    (ActorCell.is_terminated c = true → ActorCell.is_terminated c' = true) ∧
    (ActorCell.is_stopping c = true → ActorCell.is_stopping c' = true) ∧
    (calm = true → StopEnvelope ∉ ActorCell.mailbox c → ActorCell.is_stopping c = false →
     ActorCell.is_stopping c' = false).

Lemma later_refl sys : later sys sys.
Proof. split; [done|]. intros uid c Hc. by exists c, []. Qed.

Lemma later_trans sys1 sys2 sys3 : later sys1 sys2 → later sys2 sys3 → later sys1 sys3.
Proof.
  intros [Hn12 H12] [Hn23 H23]. split; [congruence|]. intros uid c Hc.
  destruct (H12 _ _ Hc) as (c2 & b2 & Hc2 & (?&?&?&?&?) & Hm2 & Ht2 & Hs2 & Hk2).
  destruct (H23 _ _ Hc2) as (c3 & b3 & Hc3 & (?&?&?&?&?) & Hm3 & Ht3 & Hs3 & Hk3).
  exists c3, (b2 ++ b3). split_and!; [done|split_and!; congruence| |auto|auto|].
  - by rewrite Hm2, Hm3, (assoc_L (++)).
  - intros Hcm Hn Hst. apply Hk3; [done| |by apply Hk2]. rewrite Hm2 in Hn. by eapply not_elem_suffix.
Qed.

(** An actor whose handlers go on leaves its loop at a stop only. *)
Lemma goes_on_runs c outcome c' ev :
  ActorCell.step c outcome = (c', ev) → outcome = goes_on → StopEnvelope ∉ ActorCell.mailbox c →
  ActorCell.is_stopping c = false → ActorCell.is_stopping c' = false.
Proof.
  intros Hs -> Hn. unfold ActorCell.is_stopping, ActorCell.step in *.
  destruct (ActorCell.phase c) eqn:Hp; try (by simplify_eq/=).
  destruct (ActorCell.mailbox c) as [|[m|] rest]; simplify_eq/=; [by rewrite Hp|done|].
  by destruct Hn; left.
Qed.

Lemma actor_step_later sys s :
  (calm = true → s.2 = goes_on) → later sys (ActorSystem.actor_step sys s).
Proof.
  destruct s as [uid outcome]. intros Hout. unfold ActorSystem.actor_step.
  destruct (ActorSystem.cells sys !! uid) as [c|] eqn:Hc; [|apply later_refl].
  destruct (ActorCell.step c outcome) as [c' ev] eqn:Hs.
  pose proof (step_same _ _ _ _ Hs) as Hsame. pose proof (step_move _ _ _ _ Hs) as Hm.
  destruct (move_suffix _ _ _ Hm) as [before Hsuf].
  enough (∀ letters, later sys (ActorSystem.set_cell sys uid c' letters ev)) as Hl.
  { by case_match; apply Hl. }
  intros letters. split; [done|]. intros u c1 Hc1. simpl. destruct (decide (u = uid)) as [-> |Hne].
  - rewrite lookup_insert_eq. simplify_eq. exists c', before.
    split_and!; [done|done|done|by apply move_terminated with (1 := Hm)| |].
    + intros ?. by destruct (move_stopping _ _ _ Hm) as [? _].
    + intros Hcm. by apply (goes_on_runs _ _ _ _ Hs), Hout.
  - rewrite lookup_insert_ne by done. by exists c1, [].
Qed.

Lemma interleave_later sys v acc lost sys' u :
  route_ok sys v acc lost → ActorSystem.interleave sys = (sys', u) → later sys sys'.
Proof.
  intros Hok. unfold ActorSystem.interleave.
  destruct (ActorSystem.schedule sys) as [|batch rest] eqn:Hsch.
  { intros [= <- _]. apply later_refl. }
  assert (calm = true → Forall (fun s => s.2 = goes_on) batch) as Hb.
  { intros Hc. destruct (ok_calm _ _ _ _ Hok Hc) as [Hf _]. rewrite Hsch in Hf. by apply Forall_cons in Hf as [? _]. }
  intros [= <- _]. assert (later sys (ActorSystem.set_schedule sys rest)) as Hl
    by (split; [done|]; intros uid c Hc; by exists c, []).
  revert Hl. generalize (ActorSystem.set_schedule sys rest). clear Hsch.
  induction batch as [|s batch IH]; simpl; [done|]. intros sys' Hl.
  apply IH; [intros Hc; by apply Hb, Forall_cons in Hc as [_ ?]|].
  eapply later_trans; [exact Hl|apply actor_step_later]. intros Hc. by apply Hb, Forall_cons in Hc as [? _].
Qed.

(** An incarnation that has terminated; one that can still take [n] messages. *)
Definition ended sys (uid : Z) : Prop :=
  ∃ c, ActorSystem.cells sys !! uid = Some c ∧ ActorCell.is_terminated c = true.
Definition takes sys (uid : Z) (n : nat) : Prop :=
  ∃ c, ActorSystem.cells sys !! uid = Some c ∧ (StopEnvelope ∉ ActorCell.mailbox c) ∧
    (length (ActorCell.mailbox c) + n ≤ ActorCell.mailbox_capacity c)%nat ∧
    (calm = true → ActorCell.is_stopping c = false).

Lemma later_ended sys sys' uid : later sys sys' → ended sys uid → ended sys' uid.
Proof. intros [_ H] (c & Hc & Ht). destruct (H _ _ Hc) as (c' & ? & ? & _ & _ & ? & _). exists c'. auto. Qed.

Lemma later_takes sys sys' uid n : later sys sys' → takes sys uid n → takes sys' uid n.
Proof.
  intros [_ H] (c & Hc & Hn & Hlen & Hrun).
  destruct (H _ _ Hc) as (c' & before & Hc' & (_ & _ & Hcap & _) & Hm & _ & _ & Hk).
  exists c'. split_and!; [done| | |by auto].
  - rewrite Hm in Hn. by eapply not_elem_suffix.
  - rewrite Hm, length_app in Hlen. rewrite Hcap. lia.
Qed.

Lemma ended_mailbox sys v acc lost uid : route_ok sys v acc lost → ended sys uid → mailbox_of sys uid = [].
Proof.
  intros Hok (c & Hc & Ht). unfold mailbox_of. rewrite Hc.
  destruct (wf_cell _ (ok_system _ _ _ _ Hok) _ _ Hc) as (_ & _ & _ & _ & Hst & _).
  by apply Hst, is_stopping_terminated.
Qed.

(** *** Operations on a reference *)

Lemma read_ok {A} (f : ActorSystem.t M LocalEntityContext.t → A) sys v acc lost sys' a :
  route_ok sys v acc lost → ActorSystem.read f sys = (sys', a) →
  route_ok sys' v acc lost ∧ later sys sys' ∧ a = f sys'.
Proof.
  intros Hok (sys1 & [] & Hi & [= <- <-])%act_bind_inv.
  split_and!; [by eapply interleave_ok|by eapply interleave_later in Hi|done].
Qed.

Lemma is_terminated_ok r sys v acc lost sys' b :
  route_ok sys v acc lost → ActorSystem.is_terminated r sys = (sys', b) →
  route_ok sys' v acc lost ∧ later sys sys' ∧
  (∀ e x, v !! e = Some x → v_uid x = ActorRef.uid r → b = true → ended sys' (ActorRef.uid r)).
Proof.
  intros Hok H. destruct (read_ok _ _ _ _ _ _ _ Hok H) as (Hok' & Hl & ->). split_and!; [done..|].
  intros e x Hx Hu Hb. destruct (ok_slot _ _ _ _ Hok' _ _ Hx) as (c & Hc & _). rewrite Hu in Hc.
  rewrite Hc in Hb. by exists c.
Qed.

Lemma add_letter_ok sys v acc lost letter :
  route_ok sys v acc lost → route_ok (ActorSystem.add_letter sys letter) v acc lost.
Proof. intros [Hs Hsl Hc Ho Hca Hf]. constructor; try done. by apply add_letter_wf. Qed.

(** A message enters the mailbox of the incarnation in the slot of [e]: one that was just
    accepted, or the first one held. *)
Lemma push_user_ok sys v acc acc' lost e x c (m : M) h letters :
  route_ok sys v acc lost → v !! e = Some x → ActorSystem.cells sys !! v_uid x = Some c →
  ActorCell.is_stopping c = false → ActorSystem.has_room c = true →
  StopEnvelope ∉ ActorCell.mailbox c →
  (acc' = acc ∧ v_held x = m :: h ∨ acc' = acc ++ [(e, m)] ∧ v_held x = [] ∧ h = []) →
  route_ok (ActorSystem.set_cell sys (v_uid x) (ActorCell.push c (User m)) letters [Told m])
    (<[e := mk_view (v_active x) (v_uid x) h]> v) acc' lost.
Proof.
  intros [Hsys Hslot Hcell Hord Hcalm Hfine] Hx Hc Hrun Hroom Hnst Hacc.
  destruct (Hslot _ _ Hx) as (c0 & Hc0 & He & Hact & Hlen).
  rewrite Hc in Hc0. injection Hc0 as <-. subst e.
  destruct (wf_cell _ Hsys _ _ Hc) as [Hu _].
  destruct (Hcell _ _ Hc) as (Hccap & Hlast & Hkn & Hcp & Hlive).
  constructor.
  - rewrite <-Hu. rewrite <-Hu in Hc. by apply (push_wf sys c (User m) letters).
  - intros e' x' [[<- <-]|[Hne Hx']]%lookup_insert_Some; simpl.
    + rewrite lookup_insert_eq. eexists. split; [done|]. split; [done|]. simpl. split.
      * intros [Hh _]%Hact. destruct Hacc as [[_ Hh']|(_ & _ & ->)]; [congruence|]. split; [done|].
        rewrite elem_of_app, list_elem_of_singleton. by intros [?|?].
      * destruct Hacc as [[_ Hh']|(_ & _ & ->)]; [|simpl; lia]. rewrite Hh' in Hlen. simpl in Hlen. lia.
    + destruct (Hslot _ _ Hx') as (c' & Hc' & He' & Hact' & Hlen').
      rewrite lookup_insert_ne; [by eauto 10|]. intros Heq. rewrite <-Heq in Hc'. congruence.
  - intros u c1. simpl. intros [[<- <-]|[Hne Hc1]]%lookup_insert_Some.
    + simpl. split_and!; [done|by apply stop_last_push_user|done|done|].
      intros _. eexists. by rewrite lookup_insert_eq.
    + destruct (Hcell _ _ Hc1) as (? & ? & ? & ? & Hl1). split_and!; [done..|].
      intros Ht. destruct (Hl1 Ht) as (x1 & Hx1 & <-).
      destruct (decide (entity_of c1 = entity_of c)) as [Heq|Hneq].
      * rewrite Heq in *. congruence.
      * rewrite lookup_insert_ne by done. eauto.
  - intros e'. destruct (Hord e') as [?|He']; [by left|right].
    rewrite (entity_events_set_cell _ sys (v_uid x) c) by done.
    rewrite taken_app. assert (taken (if bool_decide (entity_of c = e') then [Told m] else []) = []) as ->
      by (by case_bool_decide). rewrite app_nil_r.
    unfold waiting. destruct (decide (e' = entity_of c)) as [-> |Hne].
    + rewrite lookup_insert_eq. simpl. rewrite mailbox_of_set_cell, decide_True by done. simpl.
      unfold waiting in He'. rewrite Hx in He'. unfold mailbox_of in He'. rewrite Hc in He'.
      rewrite users_app. simpl. destruct Hacc as [[-> Hh]|(-> & Hh & ->)]; rewrite Hh in He'.
      * by rewrite He', <-!(assoc_L (++)).
      * rewrite sent_to_app, He', sent_to_one, decide_True by done. simpl.
        by rewrite !app_nil_r, <-!(assoc_L (++)).
    + rewrite lookup_insert_ne by done.
      replace (sent_to e' acc') with (sent_to e' acc).
      2: { destruct Hacc as [[-> _]|(-> & _)]; [done|]. rewrite sent_to_app, sent_to_one, decide_False by done.
           by rewrite app_nil_r. }
      rewrite He'. unfold waiting. destruct (v !! e') as [x'|] eqn:Hx'; [|done].
      destruct (Hslot _ _ Hx') as (c' & Hc' & He'' & _).
      rewrite mailbox_of_set_cell, decide_False; [done|]. intros Heq. rewrite Heq in Hc'. congruence.
  - intros Hca. destruct (Hcalm Hca) as [? Hd]. split; [done|]. simpl.
    by rewrite fmap_app, discarded_app, Hd.
  - done.
Qed.

Definition told_acc (o : TellOutcome) acc e (m : M) : list (EntityId.t * M) :=
  match o with Sent => acc ++ [(e, m)] | _ => acc end.

(** Telling an active incarnation. *)
Lemma tell_ok r (m : M) sys v acc lost sys' o e :
  route_ok sys v acc lost → v !! e = Some (mk_view true (ActorRef.uid r) []) →
  ActorSystem.tell r m sys = (sys', o) →
  route_ok sys' v (told_acc o acc e m) lost ∧ (o = Sent → v !! e = Some (mk_view true (ActorRef.uid r) [])).
Proof.
  intros Hok Hx (sys1 & [] & Hi & H)%act_bind_inv. split; [|done].
  assert (route_ok sys1 v acc lost) as Hok1 by (by eapply interleave_ok).
  destruct (ok_slot _ _ _ _ Hok1 _ _ Hx) as (c & Hc & He & Hact & _). simpl in Hc.
  rewrite Hc in H. destruct (_ || _) eqn:Hst; [simplify_eq; by apply add_letter_ok|].
  apply orb_false_iff in Hst as [_ Hst].
  destruct (ActorSystem.has_room c) eqn:Hroom; simplify_eq; [|by apply add_letter_ok].
  destruct (Hact eq_refl) as [_ Hn].
  pose proof (push_user_ok sys1 v acc (acc ++ [(entity_of c, m)]) lost (entity_of c) _ c m [] []
                Hok1 Hx Hc Hst Hroom Hn) as Hp.
  rewrite insert_id in Hp by done. apply Hp. by right.
Qed.

(** Telling the first held message to the new incarnation. *)
Lemma tell_held_ok r (m : M) h sys v acc lost sys' o e :
  route_ok sys v acc lost → v !! e = Some (mk_view false (ActorRef.uid r) (m :: h)) →
  takes sys (ActorRef.uid r) (S (length h)) →
  ActorSystem.tell r m sys = (sys', o) →
  match o with
  | Sent => route_ok sys' (<[e := mk_view false (ActorRef.uid r) h]> v) acc lost ∧
            takes sys' (ActorRef.uid r) (length h)
  | MailboxClosed =>
      route_ok sys' v acc lost ∧ takes sys' (ActorRef.uid r) (S (length h)) ∧ calm = false
  | MailboxFull => False
  end.
Proof.
  intros Hok Hx Ht (sys1 & [] & Hi & H)%act_bind_inv.
  assert (route_ok sys1 v acc lost) as Hok1 by (by eapply interleave_ok).
  destruct (later_takes _ _ _ _ (interleave_later _ _ _ _ _ _ Hok Hi) Ht) as (c & Hc & Hn & Hlen & Hrun).
  rewrite Hc in H. destruct (_ || _) eqn:Hst.
  { simplify_eq. split_and!; [by apply add_letter_ok|by exists c|].
    destruct calm; [|done]. specialize (Hrun eq_refl).
    destruct (ActorCell.is_terminated c) eqn:Hter; [|by rewrite Hrun in Hst].
    by rewrite (is_stopping_terminated _ Hter) in Hrun. }
  apply orb_false_iff in Hst as [_ Hst].
  assert (ActorSystem.has_room c = true) as Hroom by (apply Nat.ltb_lt; simpl in Hlen; lia).
  rewrite Hroom in H. simplify_eq. split.
  - eapply (push_user_ok sys1 v acc acc lost e _ c m h []) in Hx; try done. by left.
  - exists (ActorCell.push c (User m)). simpl. rewrite lookup_insert_eq. split_and!; [done| | |].
    + rewrite elem_of_app, list_elem_of_singleton. by intros [?|?].
    + rewrite length_app. simpl in *. lia.
    + done.
Qed.

(** A stop enters the mailbox of the incarnation of [e], which is stopping from then on. *)
Lemma push_stop_ok sys v acc lost e x c letters :
  route_ok sys v acc lost → v !! e = Some x → ActorSystem.cells sys !! v_uid x = Some c →
  ActorCell.is_stopping c = false → ActorSystem.has_room c = true →
  route_ok (ActorSystem.set_cell sys (v_uid x) (ActorCell.push c StopEnvelope) letters [])
    (<[e := mk_view false (v_uid x) (v_held x)]> v) acc lost.
Proof.
  intros [Hsys Hslot Hcell Hord Hcalm Hfine] Hx Hc Hrun Hroom.
  destruct (Hslot _ _ Hx) as (c0 & Hc0 & He & Hact & Hlen).
  rewrite Hc in Hc0. injection Hc0 as <-. subst e.
  destruct (wf_cell _ Hsys _ _ Hc) as [Hu _].
  destruct (Hcell _ _ Hc) as (Hccap & Hlast & Hkn & Hcp & Hlive).
  constructor.
  - rewrite <-Hu. rewrite <-Hu in Hc. by apply (push_wf sys c StopEnvelope letters).
  - intros e' x' [[<- <-]|[Hne Hx']]%lookup_insert_Some; simpl.
    + rewrite lookup_insert_eq. eexists. by split_and!.
    + destruct (Hslot _ _ Hx') as (c' & Hc' & He' & Hact' & Hlen').
      rewrite lookup_insert_ne; [by eauto 10|]. intros Heq. rewrite <-Heq in Hc'. congruence.
  - intros u c1. simpl. intros [[<- <-]|[Hne Hc1]]%lookup_insert_Some.
    + simpl. split_and!; [done|by apply stop_last_push_stop|done|done|].
      intros _. eexists. by rewrite lookup_insert_eq.
    + destruct (Hcell _ _ Hc1) as (? & ? & ? & ? & Hl1). split_and!; [done..|].
      intros Ht. destruct (Hl1 Ht) as (x1 & Hx1 & <-).
      destruct (decide (entity_of c1 = entity_of c)) as [Heq|Hneq].
      * rewrite Heq in *. congruence.
      * rewrite lookup_insert_ne by done. eauto.
  - intros e'. destruct (Hord e') as [?|He']; [by left|right].
    rewrite (entity_events_set_cell _ sys (v_uid x) c) by done.
    assert ((if bool_decide (entity_of c = e') then @nil (MessageEvent M) else []) = []) as ->
      by (by case_bool_decide). rewrite app_nil_r, He'. f_equal.
    unfold waiting. destruct (decide (e' = entity_of c)) as [-> |Hne].
    + rewrite lookup_insert_eq, Hx. simpl. rewrite mailbox_of_set_cell, decide_True by done. simpl.
      unfold mailbox_of. rewrite Hc, users_app. simpl. by rewrite app_nil_r.
    + rewrite lookup_insert_ne by done. destruct (v !! e') as [x'|] eqn:Hx'; [|done].
      destruct (Hslot _ _ Hx') as (c' & Hc' & He'' & _).
      rewrite mailbox_of_set_cell, decide_False; [done|]. intros Heq. rewrite Heq in Hc'. congruence.
  - intros Hca. destruct (Hcalm Hca) as [? Hd]. split; [done|]. simpl. by rewrite app_nil_r.
  - done.
Qed.

(** A change of one slot that keeps its incarnation: [ext] is what it now holds beyond
    what it held, unless messages of the entity were dropped. *)
Lemma view_change_ok sys v acc acc' lost lost' e x x' :
  route_ok sys v acc lost → v !! e = Some x → v_uid x' = v_uid x →
  (v_active x' = true → v_held x' = [] ∧ StopEnvelope ∉ mailbox_of sys (v_uid x)) →
  (length (v_held x') ≤ cap)%nat → lost ⊆ lost' →
  (∀ e', e' ≠ e → sent_to e' acc' = sent_to e' acc) →
  (e ∈ lost' ∨ ∃ ext, sent_to e acc' = sent_to e acc ++ ext ∧ v_held x' = v_held x ++ ext) →
  route_ok sys (<[e := x']> v) acc' lost'.
Proof.
  intros [Hsys Hslot Hcell Hord Hcalm Hfine] Hx Hu Hact' Hlen' Hsub Hoth He.
  destruct (Hslot _ _ Hx) as (c & Hc & Hce & _ & _).
  constructor; [done| | | |done|done].
  - intros e1 x1 [[<- <-]|[Hne Hx1]]%lookup_insert_Some; [|by apply Hslot].
    rewrite Hu. exists c. split_and!; [done..| |done]. unfold mailbox_of in Hact'. by rewrite Hc in Hact'.
  - intros u c1 Hc1. destruct (Hcell _ _ Hc1) as (? & ? & ? & ? & Hl). split_and!; [done..|].
    intros Ht. destruct (Hl Ht) as (x1 & Hx1 & Hu1). destruct (decide (entity_of c1 = e)) as [Heq|Hne].
    + rewrite Heq in *. rewrite lookup_insert_eq. eexists. split; [done|]. congruence.
    + rewrite lookup_insert_ne by done. eauto.
  - intros e1. destruct (decide (e1 = e)) as [-> |Hne].
    + destruct He as [Hl|(ext & Hs & Hh)]; [by left|].
      destruct (Hord e) as [Hl|Ho]; [left; by apply Hsub|right].
      rewrite Hs, Ho. unfold waiting. rewrite lookup_insert_eq, Hx, Hh, Hu. by rewrite !(assoc_L (++)).
    + destruct (Hord e1) as [Hl|Ho]; [left; by apply Hsub|right].
      rewrite Hoth, Ho by done. unfold waiting. by rewrite lookup_insert_ne.
Qed.

(** Forgetting a slot whose incarnation has terminated. *)
Lemma remove_ok sys v acc lost e x :
  route_ok sys v acc lost → v !! e = Some x → ended sys (v_uid x) → (e ∈ lost ∨ v_held x = []) →
  route_ok sys (delete e v) acc lost.
Proof.
  intros Hok Hx Hend Hh. pose proof (ended_mailbox _ _ _ _ _ Hok Hend) as Hmb.
  destruct Hok as [Hsys Hslot Hcell Hord Hcalm Hfine].
  constructor; [done| | | |done|done].
  - intros e1 x1 [_ Hx1]%lookup_delete_Some. by apply Hslot.
  - intros u c1 Hc1. destruct (Hcell _ _ Hc1) as (? & ? & ? & ? & Hl). split_and!; [done..|].
    intros Ht. destruct (Hl Ht) as (x1 & Hx1 & <-). exists x1. split; [|done].
    rewrite lookup_delete_ne; [done|]. intros Heq. rewrite <-Heq in Hx1. simplify_eq.
    destruct Hend as (c2 & Hc2 & Ht2). congruence.
  - intros e1. destruct (Hord e1) as [?|Ho]; [by left|]. destruct (decide (e1 = e)) as [-> |Hne].
    + destruct Hh as [?|Hh]; [by left|right]. rewrite Ho. unfold waiting.
      by rewrite lookup_delete_eq, Hx, Hmb, Hh.
    + right. rewrite Ho. unfold waiting. by rewrite lookup_delete_ne.
Qed.

(** Stopping an active incarnation. *)
Lemma stop_ok r sys v acc lost sys' res e :
  route_ok sys v acc lost → v !! e = Some (mk_view true (ActorRef.uid r) []) →
  ActorSystem.stop r sys = (sys', res) →
  match res with
  | Ok _ => route_ok sys' (<[e := mk_view false (ActorRef.uid r) []]> v) acc lost
  | Err err => err = StopError.MailboxFull ∧ route_ok sys' v acc lost
  end.
Proof.
  intros Hok Hx (sys1 & [] & Hi & H)%act_bind_inv.
  assert (route_ok sys1 v acc lost) as Hok1 by (by eapply interleave_ok).
  destruct (ok_slot _ _ _ _ Hok1 _ _ Hx) as (c & Hc & He & Hact & Hlen). simpl in Hc.
  rewrite Hc in H. destruct (_ || _) eqn:Hst.
  { simplify_eq. eapply (view_change_ok _ _ _ acc _ lost (entity_of c)); try done. right. exists []. by rewrite !app_nil_r. }
  apply orb_false_iff in Hst as [_ Hst].
  destruct (ActorSystem.has_room c) eqn:Hroom; simplify_eq; [|done].
  by eapply (push_stop_ok sys1 v acc lost (entity_of c) _ c []) in Hx.
Qed.

Lemma lost_mono_ok sys v acc lost lost' :
  route_ok sys v acc lost → lost ⊆ lost' → route_ok sys v acc lost'.
Proof.
  intros [Hs Hsl Hc Ho Hca Hf] Hsub. constructor; try done.
  intros e. destruct (Ho e); [left; by apply Hsub|by right].
Qed.

(** *** Spawning the next incarnation *)

Definition held_of v e : list M := match v !! e with Some x => v_held x | None => [] end.

(** The names of the contexts in play tell their entities apart. *)
Definition names_distinct : Prop :=
  ∀ k1 k2, known k1 → known k2 →
    LocalEntityContext.actor_name k1 = LocalEntityContext.actor_name k2 →
    LocalEntityContext.entity_id k1 = LocalEntityContext.entity_id k2.

Hypothesis Hfine : fine = true → cap ≠ 0%nat ∧ names_distinct ∧
  ∀ k, known k → is_ok (validate_actor_path_segment (LocalEntityContext.actor_name k)) = true.

Lemma user_path_inj n a1 a2 :
  ActorPath.as_str (ActorPath.user n a1) = ActorPath.as_str (ActorPath.user n a2) → a1 = a2.
Proof. simpl. intros H. do 3 apply (inj _) in H. done. Qed.

Lemma no_path_in_use sys v acc lost k :
  route_ok sys v acc lost → known k → names_distinct →
  (∀ x, v !! LocalEntityContext.entity_id k = Some x → ended sys (v_uid x)) →
  ActorSystem.path_in_use sys
    (ActorPath.user (ActorSystem.name sys) (LocalEntityContext.actor_name k)) = false.
Proof.
  intros Hok Hk Hd Hend. unfold ActorSystem.path_in_use.
  destruct (ActorSystem.live_actors sys !! _) as [u|] eqn:Hl; [|done].
  destruct (wf_live _ (ok_system _ _ _ _ Hok) _ _ Hl) as (c & Hc & Hp). rewrite Hc.
  destruct (ActorCell.is_terminated c) eqn:Ht; [done|]. exfalso.
  destruct (ok_cell _ _ _ _ Hok _ _ Hc) as (_ & _ & Hkc & Hpath & Hlive).
  destruct (Hlive Ht) as (x & Hx & Hu). rewrite Hpath in Hp. apply user_path_inj in Hp.
  apply (Hd _ _ Hkc Hk) in Hp. unfold entity_of in Hx. rewrite Hp in Hx.
  destruct (Hend _ Hx) as (c' & Hc' & Ht'). rewrite Hu in Hc'. congruence.
Qed.

Lemma bump_ok sys v acc lost : route_ok sys v acc lost → route_ok (bump sys) v acc lost.
Proof. intros [Hs Hsl Hc Ho Hca Hf]. constructor; try done. by apply bump_wf. Qed.

Lemma spawned_ok sys v acc lost k options :
  route_ok sys v acc lost → known k →
  (∀ x, v !! LocalEntityContext.entity_id k = Some x → ended sys (v_uid x)) →
  ActorOptions.mailbox_capacity options = cap →
  let e := LocalEntityContext.entity_id k in
  let sys' := spawned sys (LocalEntityContext.actor_name k) k options in
  let uid := ActorSystem.next_actor_id sys in
  route_ok sys' (<[e := mk_view false uid (held_of v e)]> v) acc lost ∧ takes sys' uid cap.
Proof.
  intros Hok Hk Hend Hcap e sys' uid.
  assert (waiting e sys v = held_of v e) as Hwait.
  { unfold waiting, held_of. fold e in Hend. destruct (v !! e) as [x|] eqn:Hx; [|done].
    by rewrite (ended_mailbox _ _ _ _ _ Hok (Hend _ eq_refl)). }
  destruct Hok as [Hsys Hslot Hcell Hord Hcalm Hup].
  assert (ActorSystem.cells sys !! uid = None) as Hn.
  { apply eq_None_not_Some. intros [c Hc]. destruct (wf_cell _ Hsys _ _ Hc) as (_ & ? & _). unfold uid in *. lia. }
  assert (∀ e1, entity_events e1 sys' = entity_events e1 sys) as Hev.
  { intros e1. unfold entity_events. simpl. apply events_in_ext. intros u ev Hin.
    unfold belongs. simpl. fold uid. rewrite lookup_insert_ne; [done|]. intros <-.
    pose proof (wf_fresh _ Hsys _ Hn) as Hno. unfold events_of in Hno.
    apply list_elem_of_split in Hin as (h1 & h2 & Hh). rewrite Hh, events_in_app in Hno.
    apply app_nil in Hno as [_ Hno]. unfold events_in in Hno. simpl in Hno.
    by rewrite bool_decide_true in Hno. }
  split.
  2: { eexists. simpl. fold uid. rewrite lookup_insert_eq. split; [done|]. simpl. split_and!; [|lia|done].
       apply not_elem_of_nil. }
  constructor.
  - by apply spawned_wf.
  - intros e1 x1 [[<- <-]|[Hne Hx1]]%lookup_insert_Some; simpl; fold uid.
    + rewrite lookup_insert_eq. eexists. split; [done|]. split; [done|]. split; [done|].
      unfold held_of. destruct (v !! e) as [x|] eqn:Hx; [|simpl; lia].
      by destruct (Hslot _ _ Hx) as (_ & _ & _ & _ & ?).
    + destruct (Hslot _ _ Hx1) as (c & Hc & ?). exists c. split; [|done].
      rewrite lookup_insert_ne; [done|]. intros Heq. rewrite <-Heq in Hc. congruence.
  - intros u c1. simpl. fold uid. intros [[<- <-]|[Hne Hc1]]%lookup_insert_Some.
    + simpl. split_and!; [done|by intros [] ? ?|done|done|]. intros _.
      change (entity_of _) with e. rewrite lookup_insert_eq. by eexists.
    + destruct (Hcell _ _ Hc1) as (? & ? & ? & ? & Hl). split_and!; [done..|].
      intros Ht. destruct (Hl Ht) as (x1 & Hx1 & <-).
      destruct (decide (entity_of c1 = e)) as [Heq|Hneq].
      * rewrite Heq in Hx1. destruct (Hend _ Hx1) as (c2 & Hc2 & Ht2). congruence.
      * rewrite lookup_insert_ne by done. eauto.
  - intros e1. destruct (Hord e1) as [?|Ho]; [by left|right]. rewrite Hev, Ho. f_equal.
    destruct (decide (e1 = e)) as [-> |Hne].
    + rewrite Hwait. unfold waiting. rewrite lookup_insert_eq. simpl. unfold mailbox_of. simpl. fold uid.
      by rewrite lookup_insert_eq.
    + unfold waiting. rewrite lookup_insert_ne by done. destruct (v !! e1) as [x1|] eqn:Hx1; [|done].
      destruct (Hslot _ _ Hx1) as (c & Hc & _). unfold mailbox_of. simpl. fold uid.
      rewrite lookup_insert_ne; [done|]. intros Heq. rewrite <-Heq in Hc. congruence.
  - done.
  - done.
Qed.

Lemma spawn_ok sys v acc lost k options sys' res :
  route_ok sys v acc lost → known k →
  (∀ x, v !! LocalEntityContext.entity_id k = Some x → ended sys (v_uid x)) →
  ActorOptions.mailbox_capacity options = cap →
  ActorSystem.spawn_actor_with_options (LocalEntityContext.actor_name k) k options sys = (sys', res) →
  let e := LocalEntityContext.entity_id k in
  match res with
  | Ok r => cap ≠ 0%nat ∧
            route_ok sys' (<[e := mk_view false (ActorRef.uid r) (held_of v e)]> v) acc lost ∧
            takes sys' (ActorRef.uid r) cap
  | Err _ => route_ok sys' v acc lost ∧ later sys sys' ∧ fine = false
  end.
Proof.
  intros Hok Hk Hend Hcap (sys1 & Hi & Hcases)%spawn_cases e.
  assert (route_ok sys1 v acc lost) as Hok1 by (by eapply interleave_ok).
  pose proof (interleave_later _ _ _ _ _ _ Hok Hi) as Hl.
  assert (∀ x, v !! e = Some x → ended sys1 (v_uid x)) as Hend1.
  { intros x Hx. eapply later_ended; [done|by apply Hend]. }
  destruct Hcases as [(-> & err & -> & Herr)|[(-> & err & -> & Herr)|(Hc0 & _ & -> & ->)]].
  - split_and!; [done..|]. destruct fine; [|done]. destruct (Hfine eq_refl) as (Hc & _ & Hv).
    destruct Herr as [?|Hval]; [congruence|]. specialize (Hv _ Hk). by rewrite Hval in Hv.
  - split_and!; [by apply bump_ok|done|]. destruct fine eqn:Hf; [|done].
    destruct (Hfine eq_refl) as (_ & Hd & _). destruct Herr as [Ht|Hp].
    + by rewrite (ok_fine _ _ _ _ Hok1 Hf) in Ht.
    + by rewrite (no_path_in_use _ _ _ _ _ Hok1 Hk Hd Hend1) in Hp.
  - split; [by rewrite Hcap in Hc0|by apply spawned_ok].
Qed.
End invariant.
