(* ===== verification/LocalRouteRuns.v ===== *)
(** * Entities across incarnations: runs of [rakka-sharding/src/local.rs]

    What the local route promises: over all interleavings of deliveries, passivations,
    shard moves, background tasks and the actors themselves, an entity has at most one
    live incarnation and its messages reach its incarnations in order.  [RouteEvent] and
    [route_run] are the calls of a route; [self_ok] is the invariant of [LocalRouteOrder.v]
    read off the state of the route. *)

From Stdlib Require Import Ascii.
From stdpp Require Import pretty.
From S2P Require Import Prelude Node Core Actors Identity Allocation Coordinator Runtime Region RegionOrder LocalRoute LocalRouteOrder.

(** ** Runs *)

Inductive RouteOp (M : Type) :=
| Deliver (routed : RoutedEntityMessage.t M)
| Passivate (entity_id : EntityId.t) (stop_message : option M)
| ActivateEntity (entity_type : EntityType.t) (entity_id : EntityId.t) (shard_id : ShardId.t)
| MarkDraining (shard_id : ShardId.t)
| MarkTransferring (shard_id : ShardId.t)
| MarkAcquired (shard_id : ShardId.t)
| MarkOwning (shard_id : ShardId.t)
| RunTask (i : nat)
| Reap
| LookupActor (entity_id : EntityId.t)
| SystemTerminating.
Arguments Deliver {M} routed.
Arguments Passivate {M} entity_id stop_message.
Arguments ActivateEntity {M} entity_type entity_id shard_id.
Arguments MarkDraining {M} shard_id.
Arguments MarkTransferring {M} shard_id.
Arguments MarkAcquired {M} shard_id.
Arguments MarkOwning {M} shard_id.
Arguments RunTask {M} i.
Arguments Reap {M}.
Arguments LookupActor {M} entity_id.
Arguments SystemTerminating {M}.

(** A call: when, on which kind of thread, and how the actors run meanwhile. *)
Record RouteEvent (M : Type) := mk_event {
  at_time : Z;
  on_runtime : bool;
  steps : list (list (Z * HandlerOutcome));
  call : RouteOp M;
}.
Arguments mk_event {M} at_time on_runtime steps call.
Arguments at_time {M}.
Arguments on_runtime {M}.
Arguments steps {M}.
Arguments call {M}.

(** The messages that entered a mailbox, in order. *)
Definition told_of {M X} (sys : ActorSystem.t M X) : list M := told (ActorSystem.history sys).*2.

Section runs.
Context {M : Type} (local_node_id : NodeId.t) (actor_options : ActorOptions.t)
        (idle_passivation_timeout : option Z).
Implicit Types self : LocalEntityRoute.t M.

(** One call, with the messages it accepted: a delivery that was answered [Ok], a stop
    message that entered the mailbox. *)
Definition route_op self now rt (op : RouteOp M) : LocalEntityRoute.t M * list (EntityId.t * M) :=
  match op with
  | Deliver routed =>
      let (self, r) := LocalEntityRoute.deliver local_node_id actor_options
                         idle_passivation_timeout now rt routed self in
      (self, if is_ok r then [(RoutedEntityMessage.entity_id routed, RoutedEntityMessage.message routed)]
             else [])
  | Passivate entity_id stop_message =>
      let before := told_of (LocalEntityRoute.system self) in
      let self := (LocalEntityRoute.passivate_entity_with rt entity_id stop_message self).1 in
      (self, pair entity_id <$> drop (length before) (told_of (LocalEntityRoute.system self)))
  | ActivateEntity entity_type entity_id shard_id =>
      ((LocalEntityRoute.activate_existing_or_spawn local_node_id actor_options
          idle_passivation_timeout now rt entity_type entity_id shard_id self).1, [])
  | MarkDraining s => ((LocalEntityRoute.mark_shard_draining s self).1, [])
  | MarkTransferring s => ((LocalEntityRoute.mark_shard_transferring rt s self).1, [])
  | MarkAcquired s => ((LocalEntityRoute.mark_shard_acquired s self).1, [])
  | MarkOwning s => ((LocalEntityRoute.mark_shard_owning s self).1, [])
  | RunTask i =>
      ((LocalEntityRoute.run_task actor_options idle_passivation_timeout now rt i self).1, [])
  | Reap => ((LocalEntityRoute.reap_terminated_entities self).1, [])
  | LookupActor entity_id => ((LocalEntityRoute.entity_actor entity_id self).1, [])
  | SystemTerminating =>
      (LocalEntityRoute.set_system self (ActorSystem.set_terminating (LocalEntityRoute.system self)), [])
  end.

Definition route_event self (e : RouteEvent M) : LocalEntityRoute.t M * list (EntityId.t * M) :=
  let self := LocalEntityRoute.set_system self
                (ActorSystem.set_schedule (LocalEntityRoute.system self) (steps e)) in
  route_op self (at_time e) (on_runtime e) (call e).

Fixpoint route_run self (events : list (RouteEvent M)) : LocalEntityRoute.t M * list (EntityId.t * M) :=
  match events with
  | [] => (self, [])
  | e :: events =>
      let (self, accepted) := route_event self e in
      let (self, later) := route_run self events in (self, accepted ++ later)
  end.
End runs.


(** ** What the operations tell *)

Section told_facts.
Context {M X : Type}.
Implicit Types sys : ActorSystem.t M X.

Lemma told_of_set_cell sys uid c letters ev :
  told_of (ActorSystem.set_cell sys uid c letters ev) = told_of sys ++ told ev.
Proof.
  unfold told_of. simpl. rewrite fmap_app, told_app. do 2 f_equal.
  induction ev as [|a ev IH]; [done|]. csimpl. by rewrite IH.
Qed.

Lemma actor_step_told sys s : told_of (ActorSystem.actor_step sys s) = told_of sys.
Proof.
  destruct s as [uid outcome]. unfold ActorSystem.actor_step.
  destruct (ActorSystem.cells sys !! uid) as [c|]; [|done].
  destruct (ActorCell.step c outcome) as [c' ev] eqn:Hs.
  destruct (move_messages _ _ _ (step_move _ _ _ _ Hs)) as [Ht _].
  enough (∀ letters, told_of (ActorSystem.set_cell sys uid c' letters ev) = told_of sys) as H
    by (by case_match; apply H).
  intros letters. by rewrite told_of_set_cell, Ht, app_nil_r.
Qed.

Lemma interleave_told sys sys' u : ActorSystem.interleave sys = (sys', u) → told_of sys' = told_of sys.
Proof.
  unfold ActorSystem.interleave. destruct (ActorSystem.schedule sys) as [|batch rest].
  { by intros [= <- _]. }
  intros [= <- _]. change (told_of sys) with (told_of (ActorSystem.set_schedule sys rest)).
  generalize (ActorSystem.set_schedule sys rest).
  induction batch as [|s batch IH]; intros sys'; [done|]. simpl. by rewrite IH, actor_step_told.
Qed.

Lemma read_told {A} (f : ActorSystem.t M X → A) sys sys' a :
  ActorSystem.read f sys = (sys', a) → told_of sys' = told_of sys.
Proof. intros (sys1 & [] & Hi & [= <- <-])%act_bind_inv. by eapply interleave_told. Qed.

Lemma tell_told r (m : M) sys sys' o :
  ActorSystem.tell r m sys = (sys', o) →
  told_of sys' = told_of sys ++ (match o with Sent => [m] | _ => [] end).
Proof.
  intros (sys1 & [] & Hi & H)%act_bind_inv. rewrite <-(interleave_told _ _ _ Hi).
  repeat case_match; simplify_eq; rewrite ?told_of_set_cell, ?app_nil_r; done.
Qed.

Lemma stop_told r sys sys' res : ActorSystem.stop r sys = (sys', res) → told_of sys' = told_of sys.
Proof.
  intros (sys1 & [] & Hi & H)%act_bind_inv. rewrite <-(interleave_told _ _ _ Hi).
  repeat case_match; simplify_eq; rewrite ?told_of_set_cell, ?app_nil_r; done.
Qed.
End told_facts.

(** ** The invariant of the route *)

Definition slot_view {M} (s : LocalEntitySlot.t M) : view M :=
  mk_view (LocalEntitySlot.is_active s) (ActorRef.uid (LocalEntitySlot.actor_ref s))
          (LocalEntitySlot.held s).

Section route_facts.
Context {M : Type} (local_node_id : NodeId.t) (actor_options : ActorOptions.t)
        (idle_passivation_timeout : option Z).
(** As in [LocalRouteOrder.v]; [stays]: no shard is transferred away. *)
Context (known : LocalEntityContext.t → Prop) (calm fine stays : bool).
Local Abbreviation cap := (ActorOptions.mailbox_capacity actor_options).
Local Abbreviation route_ok := (@route_ok M cap known calm fine).
Local Abbreviation takes := (@takes M calm).
Implicit Types (self : LocalEntityRoute.t M) (s : LocalEntitySlot.t M) (e : EntityId.t)
  (acc : list (EntityId.t * M)).

Hypothesis Hfine : fine = true → cap ≠ 0%nat ∧ names_distinct known ∧
  ∀ k, known k → is_ok (validate_actor_path_segment (LocalEntityContext.actor_name k)) = true.

Definition views self : gmap EntityId.t (view M) := slot_view <$> LocalEntityRoute.actors self.

(** The entities that messages were dropped of, with a warning. *)
Definition lost_of self : list EntityId.t :=
  (fun w => LocalEntityContext.entity_id w.1.1) <$> LocalEntityRoute.warnings self.

(** The warnings that cannot be given. *)
Definition warnings_ok self : Prop :=
  ∀ w, w ∈ LocalEntityRoute.warnings self → w.2 ≠ NextFull ∧ (fine = true → w.2 ≠ SpawnRefused) ∧
    (calm = true → w.2 ≠ NextStopped) ∧ (stays = true → w.2 ≠ ShardLeft).

(** The slots, but for that of [e] when it is being replaced. *)
Definition slots_ok self : Prop :=
  ∀ e s, LocalEntityRoute.actors self !! e = Some s →
    LocalEntityContext.entity_id (LocalEntitySlot.context s) = e ∧
    known (LocalEntitySlot.context s) ∧ cap ≠ 0%nat.

Record self_ok self acc : Prop := {
  so_route : route_ok (LocalEntityRoute.system self) (views self) acc (lost_of self);
  so_slots : slots_ok self;
  so_warnings : warnings_ok self;
}.

Lemma on_system_inv {A} (m : act (ActorSystem.t M LocalEntityContext.t) A) self self' a :
  LocalEntityRoute.on_system m self = (self', a) →
  ∃ sys', m (LocalEntityRoute.system self) = (sys', a) ∧ self' = LocalEntityRoute.set_system self sys'.
Proof.
  unfold LocalEntityRoute.on_system. destruct (m _) as [sys' b]. intros [= <- <-]. eauto.
Qed.

Lemma self_ok_system self acc acc' sys' :
  self_ok self acc → route_ok sys' (views self) acc' (lost_of self) →
  self_ok (LocalEntityRoute.set_system self sys') acc'.
Proof. intros [_ Hs Hw] Hr. by constructor. Qed.

Lemma self_ok_tasks self acc n tasks : self_ok self acc → self_ok (LocalEntityRoute.set_tasks self n tasks) acc.
Proof. intros [Hr Hs Hw]. by constructor. Qed.

Lemma views_insert self e s :
  views (LocalEntityRoute.set_actors self (<[e := s]> (LocalEntityRoute.actors self)))
  = <[e := slot_view s]> (views self).
Proof. unfold views. simpl. apply fmap_insert. Qed.

Lemma views_delete self e :
  views (LocalEntityRoute.set_actors self (delete e (LocalEntityRoute.actors self)))
  = delete e (views self).
Proof. unfold views. simpl. apply fmap_delete. Qed.

Lemma views_lookup self e s :
  LocalEntityRoute.actors self !! e = Some s → views self !! e = Some (slot_view s).
Proof. intros H. unfold views. by rewrite lookup_fmap, H. Qed.

Lemma slots_ok_insert self e s k :
  slots_ok self → LocalEntityContext.entity_id k = e → known k → cap ≠ 0%nat →
  LocalEntitySlot.context s = k →
  slots_ok (LocalEntityRoute.set_actors self (<[e := s]> (LocalEntityRoute.actors self))).
Proof.
  intros Hs He Hk Hc Hctx e' s'. simpl. intros [[<- <-]|[_ H]]%lookup_insert_Some; [|by apply Hs].
  by rewrite Hctx.
Qed.

(** A slot is replaced by one of the same incarnation. *)
Lemma self_ok_insert self acc acc' e s s' :
  self_ok self acc → LocalEntityRoute.actors self !! e = Some s →
  LocalEntitySlot.context s' = LocalEntitySlot.context s →
  route_ok (LocalEntityRoute.system self) (<[e := slot_view s']> (views self)) acc' (lost_of self) →
  self_ok (LocalEntityRoute.set_actors self (<[e := s']> (LocalEntityRoute.actors self))) acc'.
Proof.
  intros [_ Hs Hw] Hx Hctx Hr. constructor; [by rewrite views_insert| |done].
  destruct (Hs _ _ Hx) as (? & ? & ?). by eapply slots_ok_insert.
Qed.

Lemma self_ok_same_view self acc e s s' :
  self_ok self acc → LocalEntityRoute.actors self !! e = Some s →
  LocalEntitySlot.context s' = LocalEntitySlot.context s → slot_view s' = slot_view s →
  self_ok (LocalEntityRoute.set_actors self (<[e := s']> (LocalEntityRoute.actors self))) acc.
Proof.
  intros Hok Hx Hctx Hv. eapply self_ok_insert; try done.
  rewrite Hv, insert_id by (by apply views_lookup). apply Hok.
Qed.

(** The slot of an incarnation that has terminated is forgotten. *)
Lemma self_ok_remove self acc e s :
  self_ok self acc → LocalEntityRoute.actors self !! e = Some s → LocalEntitySlot.held s = [] →
  ended (LocalEntityRoute.system self) (ActorRef.uid (LocalEntitySlot.actor_ref s)) →
  self_ok (LocalEntityRoute.set_actors self (delete e (LocalEntityRoute.actors self))) acc.
Proof.
  intros [Hr Hs Hw] Hx Hh Hend. constructor; [|intros e' s'; simpl; intros [_ ?]%lookup_delete_Some; by apply Hs|done].
  rewrite views_delete. eapply remove_ok; [done|by apply views_lookup|done|by right].
Qed.

(** *** Activation *)

Lemma note_delivery_ok now rt e self self' u acc :
  self_ok self acc →
  LocalEntityRoute.note_delivery idle_passivation_timeout now rt e self = (self', u) →
  self_ok self' acc ∧ views self' = views self ∧
  LocalEntityRoute.system self' = LocalEntityRoute.system self.
Proof.
  intros Hok. unfold LocalEntityRoute.note_delivery.
  destruct idle_passivation_timeout as [timeout|]; [|by intros [= <- _]].
  intros (? & s & [= <- <-] & H)%act_bind_inv.
  destruct (LocalEntityRoute.actors self !! e) as [[k r d a|]|] eqn:Hx; [|by injection H as <- _..].
  pose proof (views_lookup _ _ _ Hx) as Hv.
  assert (∀ d' a', self_ok (LocalEntityRoute.set_actors self
            (<[e := LocalEntitySlot.Active k r d' a']> (LocalEntityRoute.actors self))) acc ∧
          views (LocalEntityRoute.set_actors self
            (<[e := LocalEntitySlot.Active k r d' a']> (LocalEntityRoute.actors self))) = views self) as Hs.
  { intros d' a'. split; [by eapply self_ok_same_view|]. rewrite views_insert. by apply insert_id. }
  destruct (a || negb rt).
  - injection H as <- _. by destruct (Hs (Some (now + timeout)) a).
  - apply act_bind_inv in H as (self1 & [] & [= <-] & [= <- _]).
    destruct (Hs (Some (now + timeout)) true) as [Ho Hv']. split_and!; [by apply self_ok_tasks|done|done].
Qed.

(** The slot of [e] is absent while its next incarnation is made; [x] stands for it. *)
Record activating self acc e (x : view M) : Prop := {
  av_route : route_ok (LocalEntityRoute.system self) (<[e := x]> (views self)) acc (lost_of self);
  av_slots : slots_ok self;
  av_warnings : warnings_ok self;
}.

Lemma warn_ok self w :
  warnings_ok self → w.2 ≠ NextFull → (fine = true → w.2 ≠ SpawnRefused) →
  (calm = true → w.2 ≠ NextStopped) → (stays = true → w.2 ≠ ShardLeft) → warnings_ok (LocalEntityRoute.add_warning self w).
Proof.
  intros Hw H1 H2 H3 H4 w'. simpl. rewrite elem_of_app, list_elem_of_singleton. intros [?| ->]; [by apply Hw|done].
Qed.

Lemma lost_warning self w :
  lost_of (LocalEntityRoute.add_warning self w) = lost_of self ++ [LocalEntityContext.entity_id w.1.1].
Proof. unfold lost_of. simpl. by rewrite fmap_app. Qed.

Lemma drain_held_ok k r held self self' u acc :
  let e := LocalEntityContext.entity_id k in
  LocalEntityRoute.drain_held k r held self = (self', u) →
  activating self acc e (mk_view false (ActorRef.uid r) held) →
  takes (LocalEntityRoute.system self) (ActorRef.uid r) (length held) →
  activating self' acc e (mk_view false (ActorRef.uid r) []) ∧
  takes (LocalEntityRoute.system self') (ActorRef.uid r) 0.
Proof.
  intros e. revert self. induction held as [|m held IH]; intros self H Ha Ht.
  { by injection H as <- _. }
  simpl in H. apply act_bind_inv in H as (self1 & o & (sys1 & Htell & ->)%on_system_inv & H).
  destruct Ha as [Hr Hs Hw].
  pose proof (tell_held_ok _ _ _ _ _ _ _ _ _ _ _ _ _ _ Hr (lookup_insert_eq _ _ _) Ht Htell) as Ho.
  destruct o; [|done|].
  - destruct Ho as [Hr1 Ht1]. rewrite insert_insert_eq in Hr1. by eapply IH.
  - destruct Ho as (Hr1 & (c & Hc & Hn & Hlen & Hrun) & Hcalm). injection H as <- _.
    split; [|exists c; simpl in *; split_and!; [done..|lia|done]].
    constructor; [|done|apply warn_ok; [done..|by rewrite Hcalm|done]].
    rewrite lost_warning. eapply view_change_ok with (e := e) in Hr1;
      [|apply lookup_insert_eq|..]; [rewrite insert_insert_eq in Hr1; exact Hr1|..]; try done; simpl; [lia| |].
    + set_solver.
    + left. set_solver.
Qed.

(** What [x], if anything, leaves in the slot of [e] for its next incarnation. *)
Definition replacing self acc e (ox : option (view M)) : Prop :=
  LocalEntityRoute.actors self !! e = None ∧
  match ox with
  | Some x => activating self acc e x ∧ ended (LocalEntityRoute.system self) (v_uid x)
  | None => self_ok self acc
  end.

Definition held_in (ox : option (view M)) : list M := match ox with Some x => v_held x | None => [] end.

Lemma views_none self e : LocalEntityRoute.actors self !! e = None → views self !! e = None.
Proof. intros H. unfold views. by rewrite lookup_fmap, H. Qed.

Lemma activate_slot_ok now rt k ox self self' res acc :
  let e := LocalEntityContext.entity_id k in
  replacing self acc e ox → known k →
  LocalEntityRoute.activate_slot actor_options idle_passivation_timeout now rt k (held_in ox) self
    = (self', res) →
  self_ok self' acc ∧
  match res with
  | Ok r => views self' !! e = Some (mk_view true (ActorRef.uid r) [])
  | Err _ => fine = false
  end.
Proof.
  intros e [Hnone Hox] Hk (self1 & res1 & (self2 & r2 & (sys1 & Hsp & ->)%on_system_inv & [= <- <-])%act_bind_inv & H)%act_bind_inv.
  set (v := match ox with Some x => <[e := x]> (views self) | None => views self end).
  assert (route_ok (LocalEntityRoute.system self) v acc (lost_of self) ∧ slots_ok self ∧ warnings_ok self)
    as (Hr & Hs & Hw).
  { unfold v. destruct ox as [x|]; [destruct Hox as [[] _]|destruct Hox]; done. }
  assert (held_of v e = held_in ox) as Hheld.
  { unfold held_of, v. destruct ox as [x|]; [by rewrite lookup_insert_eq|by rewrite views_none]. }
  assert (∀ x, v !! e = Some x → ended (LocalEntityRoute.system self) (v_uid x)) as Hend.
  { unfold v. destruct ox as [x0|]; intros x; [rewrite lookup_insert_eq; intros [= <-]; apply Hox|].
    by rewrite views_none. }
  pose proof (spawn_ok _ _ _ _ Hfine _ _ _ _ _ _ _ _ Hr Hk Hend eq_refl Hsp) as Hspawn.
  cbv zeta in Hspawn. fold e in Hspawn. rewrite Hheld in Hspawn. destruct r2 as [r|err]; simpl in H.
  - destruct Hspawn as (Hcap & Hr1 & Ht1).
    assert (<[e := mk_view false (ActorRef.uid r) (held_in ox)]> v
            = <[e := mk_view false (ActorRef.uid r) (held_in ox)]> (views self)) as Hv.
    { unfold v. destruct ox; [apply insert_insert_eq|done]. }
    rewrite Hv in Hr1.
    assert (length (held_in ox) ≤ cap)%nat as Hlen.
    { destruct (ok_slot _ _ _ _ _ _ _ _ Hr1 _ _ (lookup_insert_eq _ _ _)) as (_ & _ & _ & _ & ?). done. }
    apply act_bind_inv in H as (self3 & [] & Hd & H).
    destruct (drain_held_ok _ _ _ _ _ _ acc Hd) as [Ha Ht].
    { by constructor. }
    { destruct Ht1 as (c & ? & ? & ? & ?). exists c. simpl. split_and!; [done..|lia|done]. }
    apply act_bind_inv in H as (self4 & [] & [= <-] & H).
    set (self4 := LocalEntityRoute.set_actors _ _) in H.
    assert (self_ok self4 acc ∧ views self4 !! e = Some (mk_view true (ActorRef.uid r) [])) as [Hok4 Hv4].
    { destruct Ha as [Hra Hsa Hwa]. unfold self4. rewrite views_insert. fold e. rewrite lookup_insert_eq.
      split; [|done]. constructor; [|by eapply slots_ok_insert|done].
      rewrite views_insert. fold e. destruct Ht as (c & Hc & Hn & _).
      eapply view_change_ok in Hra; [rewrite insert_insert_eq in Hra; exact Hra|apply lookup_insert_eq|..];
        try done; simpl; [|lia|].
      - intros _. unfold mailbox_of. by rewrite Hc.
      - right. exists []. by rewrite app_nil_r. }
    apply act_bind_inv in H as (self5 & [] & Hnd & [= <- <-]).
    destruct (held_in ox) as [|m held]; [by injection Hnd as <-|].
    destruct (note_delivery_ok _ _ _ _ _ _ _ Hok4 Hnd) as (? & -> & _). done.
  - destruct Hspawn as (Hr1 & Hl & Hf). apply act_bind_inv in H as (self3 & [] & Hwn & [= <- <-]).
    split; [|done].
    assert (delete e v = views self) as Hdel.
    { unfold v. destruct ox as [x|]; [rewrite delete_insert_id|rewrite delete_id]; try done; by apply views_none. }
    assert (∀ lost, lost_of self ⊆ lost → (e ∈ lost ∨ held_in ox = []) →
              route_ok sys1 (views self) acc lost) as Hrl.
    { intros lost Hsub Hh. rewrite <-Hdel. destruct ox as [x|].
      - eapply remove_ok; [by eapply lost_mono_ok|apply lookup_insert_eq| |exact Hh].
        eapply later_ended; [done|]. by apply Hend, lookup_insert_eq.
      - rewrite Hdel. by eapply lost_mono_ok. }
    destruct (held_in ox) as [|m held] eqn:Hh; injection Hwn as <-.
    + constructor; [apply Hrl; [done|by right]|done|done].
    + constructor; [|done|apply warn_ok; [done|done|by rewrite Hf|done|done]].
      rewrite lost_warning. apply Hrl; [set_solver|left; set_solver].
Qed.

Lemma activate_and_deliver_ok now rt k ox (m : M) self self' res acc :
  let e := LocalEntityContext.entity_id k in
  replacing self acc e ox → known k →
  LocalEntityRoute.activate_and_deliver actor_options idle_passivation_timeout now rt k (held_in ox) m self
    = (self', res) →
  self_ok self' (if is_ok res then acc ++ [(e, m)] else acc).
Proof.
  intros e Hrep Hk (self1 & r & Hact & H)%act_bind_inv.
  destruct (activate_slot_ok _ _ _ _ _ _ _ _ Hrep Hk Hact) as [Hok Hr]. fold e in Hr.
  destruct r as [r|err]; [|by injection H as <- <-].
  apply act_bind_inv in H as (self2 & o & (sys2 & Ht & ->)%on_system_inv & H).
  destruct (tell_ok _ _ _ _ _ _ _ _ _ _ _ _ _ (so_route _ _ Hok) Hr Ht) as [Hr2 _].
  pose proof (self_ok_system _ _ _ _ Hok Hr2) as Hok2.
  destruct o; [|by injection H as <- <-..].
  apply act_bind_inv in H as (self3 & [] & Hn & [= <- <-]).
  by destruct (note_delivery_ok _ _ _ _ _ _ _ Hok2 Hn).
Qed.

(** A terminated incarnation leaves its slot, with what it holds, to the next one. *)
Lemma remove_replacing self acc e s :
  self_ok self acc → LocalEntityRoute.actors self !! e = Some s →
  ended (LocalEntityRoute.system self) (ActorRef.uid (LocalEntitySlot.actor_ref s)) →
  replacing (LocalEntityRoute.set_actors self (delete e (LocalEntityRoute.actors self))) acc e
    (Some (slot_view s)).
Proof.
  intros [Hr Hs Hw] Hx Hend. split; [apply lookup_delete_eq|]. split; [|done].
  constructor; [|intros e' s'; simpl; intros [_ ?]%lookup_delete_Some; by apply Hs|done].
  rewrite views_delete, insert_delete_id by (by apply views_lookup). done.
Qed.

Lemma remove_and_deliver_ok now rt k s (m : M) self self' res acc :
  let e := LocalEntityContext.entity_id k in
  self_ok self acc → LocalEntityRoute.actors self !! e = Some s → known k →
  ended (LocalEntityRoute.system self) (ActorRef.uid (LocalEntitySlot.actor_ref s)) →
  (let! _ := LocalEntityRoute.remove_slot e in
   LocalEntityRoute.activate_and_deliver actor_options idle_passivation_timeout now rt k
     (LocalEntitySlot.held s) m) self = (self', res) →
  self_ok self' (if is_ok res then acc ++ [(e, m)] else acc).
Proof.
  intros e Hok Hx Hk Hend (self2 & [] & [= <-] & H)%act_bind_inv.
  eapply (activate_and_deliver_ok _ _ _ (Some (slot_view s))); [|done|exact H].
  by apply remove_replacing.
Qed.

(** [is_terminated] asked of the incarnation in a slot. *)
Lemma slot_terminated_ok self self' acc e s b :
  self_ok self acc → LocalEntityRoute.actors self !! e = Some s →
  LocalEntityRoute.on_system (ActorSystem.is_terminated (LocalEntitySlot.actor_ref s)) self = (self', b) →
  self_ok self' acc ∧ LocalEntityRoute.actors self' = LocalEntityRoute.actors self ∧
  told_of (LocalEntityRoute.system self') = told_of (LocalEntityRoute.system self) ∧
  (b = true → ended (LocalEntityRoute.system self') (ActorRef.uid (LocalEntitySlot.actor_ref s))).
Proof.
  intros Hok Hx (sys' & H & ->)%on_system_inv.
  destruct (is_terminated_ok _ _ _ _ _ _ _ _ _ _ _ (so_route _ _ Hok) H) as (Hr & _ & Hend).
  split_and!; [by eapply self_ok_system|done|by eapply read_told|].
  eapply Hend; [by apply views_lookup|done].
Qed.

Lemma slot_read_ok {A} (f : ActorSystem.t M LocalEntityContext.t → A) self self' acc b :
  self_ok self acc → LocalEntityRoute.on_system (ActorSystem.read f) self = (self', b) →
  self_ok self' acc ∧ LocalEntityRoute.actors self' = LocalEntityRoute.actors self.
Proof.
  intros Hok (sys' & H & ->)%on_system_inv.
  destruct (read_ok _ _ _ _ _ _ _ _ _ _ _ (so_route _ _ Hok) H) as (Hr & _ & _).
  split; [by eapply self_ok_system|done].
Qed.

Lemma slot_tell_ok self self' acc e k r d a (m : M) o :
  self_ok self acc → LocalEntityRoute.actors self !! e = Some (LocalEntitySlot.Active k r d a) →
  LocalEntityRoute.on_system (ActorSystem.tell r m) self = (self', o) →
  self_ok self' (told_acc o acc e m) ∧ LocalEntityRoute.actors self' = LocalEntityRoute.actors self ∧
  told_of (LocalEntityRoute.system self')
  = told_of (LocalEntityRoute.system self) ++ (match o with Sent => [m] | _ => [] end).
Proof.
  intros Hok Hx (sys' & H & ->)%on_system_inv.
  destruct (tell_ok _ _ _ _ _ _ _ _ _ _ _ _ _ (so_route _ _ Hok) (views_lookup _ _ _ Hx) H) as [Hr _].
  split_and!; [by eapply self_ok_system|done|by apply tell_told in H].
Qed.

(** A message is held, behind those already held, when there is room. *)
Lemma hold_ok self acc e s (m : M) reactivate :
  self_ok self acc → LocalEntityRoute.actors self !! e = Some s →
  (length (LocalEntitySlot.held s) < cap)%nat →
  self_ok (LocalEntityRoute.set_actors self
    (<[e := LocalEntitySlot.Stopping (LocalEntitySlot.context s) (LocalEntitySlot.actor_ref s)
              (LocalEntitySlot.held s ++ [m]) reactivate]> (LocalEntityRoute.actors self)))
    (acc ++ [(e, m)]).
Proof.
  intros Hok Hx Hlen. eapply self_ok_insert; [done..|].
  eapply view_change_ok; [apply Hok|by apply views_lookup|try done..].
  - simpl. rewrite length_app. simpl. lia.
  - intros e' Hne. rewrite sent_to_app, sent_to_one, decide_False by (by intros <-). apply app_nil_r.
  - right. exists [m]. by rewrite sent_to_app, sent_to_one, decide_True.
Qed.

Lemma spawn_task_ok rt task self self' u acc :
  self_ok self acc → LocalEntityRoute.spawn_task rt task self = (self', u) →
  self_ok self' acc ∧ LocalEntityRoute.system self' = LocalEntityRoute.system self.
Proof. intros Hok [= <- _]. destruct rt; split; try done; by apply self_ok_tasks. Qed.

Lemma hold_behind_self_stop_ok rt e k r d a (m : M) self self' u acc :
  self_ok self acc → LocalEntityRoute.actors self !! e = Some (LocalEntitySlot.Active k r d a) →
  LocalEntityRoute.hold_behind_self_stop rt e k r m self = (self', u) →
  self_ok self' (acc ++ [(e, m)]).
Proof.
  intros Hok Hx (self1 & [] & [= <-] & H)%act_bind_inv.
  destruct (so_slots _ _ Hok _ _ Hx) as (_ & _ & Hcap).
  eapply spawn_task_ok in H as [? _]; [done|].
  apply (hold_ok _ _ _ _ _ false Hok Hx). simpl. lia.
Qed.

Lemma deliver_locked_ok now rt routed self self' res acc :
  let e := RoutedEntityMessage.entity_id routed in
  let m := RoutedEntityMessage.message routed in
  known (LocalEntityContext.new local_node_id (RoutedEntityMessage.entity_type routed) e
           (RoutedEntityMessage.shard_id routed)) →
  self_ok self acc →
  LocalEntityRoute.deliver_locked local_node_id actor_options idle_passivation_timeout now rt routed self
    = (self', res) →
  self_ok self' (if is_ok res then acc ++ [(e, m)] else acc).
Proof.
  intros e m Hk Hok (? & s & [= <- <-] & H)%act_bind_inv. fold e in H.
  set (ctx := LocalEntityContext.new _ _ _ _) in Hk, H.
  destruct (LocalEntityRoute.actors self !! e) as [s|] eqn:Hx.
  2: { apply (activate_and_deliver_ok _ _ _ None _ _ _ _ acc) in H; [done| |done]. by split. }
  destruct s as [k r d a|k r held re].
  - apply act_bind_inv in H as (self1 & b & Hb & H).
    destruct (slot_terminated_ok _ _ _ _ _ _ Hok Hx Hb) as (Hok1 & Ha1 & _ & Hend).
    rewrite <-Ha1 in Hx. destruct b.
    { exact (remove_and_deliver_ok _ _ ctx _ _ _ _ _ _ Hok1 Hx Hk (Hend eq_refl) H). }
    apply act_bind_inv in H as (self2 & b & Hb2 & H).
    destruct (slot_read_ok _ _ _ _ _ Hok1 Hb2) as [Hok2 Ha2]. rewrite <-Ha2 in Hx. destruct b.
    { apply act_bind_inv in H as (self3 & [] & Hh & [= <- <-]). by eapply hold_behind_self_stop_ok. }
    apply act_bind_inv in H as (self3 & o & Ht & H).
    destruct (slot_tell_ok _ _ _ _ _ _ _ _ _ _ Hok2 Hx Ht) as (Hok3 & Ha3 & _). rewrite <-Ha3 in Hx.
    destruct o; simpl in Hok3.
    + apply act_bind_inv in H as (self4 & [] & Hn & [= <- <-]). by eapply note_delivery_ok in Hn as [? _].
    + by injection H as <- <-.
    + apply act_bind_inv in H as (self4 & b & Hb4 & H).
      destruct (slot_terminated_ok _ _ _ _ _ _ Hok3 Hx Hb4) as (Hok4 & Ha4 & _ & Hend4).
      rewrite <-Ha4 in Hx. destruct b.
      * exact (remove_and_deliver_ok _ _ ctx _ _ _ _ _ _ Hok4 Hx Hk (Hend4 eq_refl) H).
      * apply act_bind_inv in H as (self5 & [] & Hh & [= <- <-]). by eapply hold_behind_self_stop_ok.
  - apply act_bind_inv in H as (self1 & b & Hb & H).
    destruct (slot_terminated_ok _ _ _ _ _ _ Hok Hx Hb) as (Hok1 & Ha1 & _ & Hend).
    rewrite <-Ha1 in Hx. destruct b.
    { exact (remove_and_deliver_ok _ _ ctx _ _ _ _ _ _ Hok1 Hx Hk (Hend eq_refl) H). }
    destruct (_ <? _)%nat eqn:Hroom; [|by injection H as <- <-].
    apply act_bind_inv in H as (self2 & [] & [= <-] & [= <- <-]).
    apply Nat.ltb_lt in Hroom. by apply (hold_ok _ _ _ _ _ re Hok1 Hx).
Qed.

Lemma observe_ok context self self' u acc :
  self_ok self acc → LocalEntityRoute.observe_activation context self = (self', u) → self_ok self' acc.
Proof. intros [Hr Hs Hw] [= <- _]. by destruct context; constructor. Qed.

Lemma deliver_ok now rt routed self self' res acc :
  let e := RoutedEntityMessage.entity_id routed in
  known (LocalEntityContext.new local_node_id (RoutedEntityMessage.entity_type routed) e
           (RoutedEntityMessage.shard_id routed)) →
  self_ok self acc →
  LocalEntityRoute.deliver local_node_id actor_options idle_passivation_timeout now rt routed self
    = (self', res) →
  self_ok self' (acc ++ if is_ok res then [(e, RoutedEntityMessage.message routed)] else []).
Proof.
  intros e Hk Hok H. unfold LocalEntityRoute.deliver in H.
  destruct (decide _); [|injection H as <- <-; by rewrite app_nil_r].
  apply act_bind_inv in H as (? & accepts & [= <- <-] & H).
  destruct (LocalEntityRoute.ensure_shard_accepts_delivery _ _);
    [|injection H as <- <-; by rewrite app_nil_r].
  apply act_bind_inv in H as (self1 & r & Hd & H).
  pose proof (deliver_locked_ok _ _ _ _ _ _ _ Hk Hok Hd) as Hok1. destruct r as [context|err].
  - apply act_bind_inv in H as (self2 & [] & Hob & [= <- <-]). by eapply observe_ok.
  - injection H as <- <-. by rewrite app_nil_r.
Qed.

Lemma activate_existing_or_spawn_ok now rt entity_type e shard_id self self' res acc :
  known (LocalEntityContext.new local_node_id entity_type e shard_id) → self_ok self acc →
  LocalEntityRoute.activate_existing_or_spawn local_node_id actor_options idle_passivation_timeout
    now rt entity_type e shard_id self = (self', res) →
  self_ok self' acc.
Proof.
  intros Hk Hok H. unfold LocalEntityRoute.activate_existing_or_spawn in H.
  set (ctx := LocalEntityContext.new _ _ _ _) in Hk, H. cbv zeta in H.
  apply act_bind_inv in H as (? & accepts & [= <- <-] & H).
  destruct (LocalEntityRoute.ensure_shard_accepts_delivery _ _); [|by injection H as <- _].
  apply act_bind_inv in H as (? & s & [= <- <-] & H).
  apply act_bind_inv in H as (self1 & r & Ha & H).
  enough (self_ok self1 acc) as Hok1.
  { destruct r as [ob|err]; [|by injection H as <- _].
    apply act_bind_inv in H as (self2 & [] & Hob & [= <- _]). by eapply observe_ok. }
  clear H.
  assert (∀ ox sf sf' rr, replacing sf acc e ox →
    (let! x := LocalEntityRoute.activate_slot actor_options idle_passivation_timeout now rt ctx (held_in ox) in
     act_ret match x with
             | Ok _ => Ok (Some ctx)
             | Err failure => Err (RememberedEntityReplay entity_type e shard_id (EntityDeliveryFailure.fmt failure))
             end) sf = (sf', rr) → self_ok sf' acc) as Hact.
  { intros ox sf sf' rr Hrep (sf1 & x & Hx & [= <- _])%act_bind_inv.
    by destruct (activate_slot_ok _ _ ctx _ _ _ _ _ Hrep Hk Hx). }
  destruct (LocalEntityRoute.actors self !! e) as [s|] eqn:Hx.
  2: { apply act_bind_inv in Ha as (self2 & [] & [= <-] & Ha). eapply (Hact None); [|exact Ha].
       split; [apply lookup_delete_eq|]. destruct Hok as [Hr Hs Hw]. constructor; [|..|done].
       - rewrite views_delete, (delete_id (views self)) by (by apply views_none). done.
       - intros e' s'. simpl. intros [_ ?]%lookup_delete_Some. by apply Hs. }
  assert (∀ sf sf' rr, self_ok sf acc → LocalEntityRoute.actors sf !! e = Some s →
     ended (LocalEntityRoute.system sf) (ActorRef.uid (LocalEntitySlot.actor_ref s)) →
     (let! _ := LocalEntityRoute.remove_slot e in
      let! x := LocalEntityRoute.activate_slot actor_options idle_passivation_timeout now rt ctx
                  (LocalEntitySlot.held s) in
     act_ret match x with
             | Ok _ => Ok (Some ctx)
             | Err failure => Err (RememberedEntityReplay entity_type e shard_id (EntityDeliveryFailure.fmt failure))
             end) sf = (sf', rr) → self_ok sf' acc) as Hre.
  { intros sf sf' rr Hsf Hxs Hend (sf2 & [] & [= <-] & Hs)%act_bind_inv.
    eapply (Hact (Some (slot_view s))); [|exact Hs]. by apply remove_replacing. }
  destruct s as [k r' d armed|k r' held re]; apply act_bind_inv in Ha as (self2 & b & Hb & Ha);
    destruct (slot_terminated_ok _ _ _ _ _ _ Hok Hx Hb) as (Hok2 & Ha2 & _ & Hend); rewrite <-Ha2 in Hx.
  - destruct b; [|by injection Ha as <- _]. by eapply Hre; [..|apply Hend|exact Ha].
  - destruct b; [by eapply Hre; [..|apply Hend|exact Ha]|].
    apply act_bind_inv in Ha as (self3 & [] & [= <-] & [= <- _]). by eapply self_ok_same_view.
Qed.

(** *** Stopping *)

Lemma passivate_slot_ok rt e stop_message self self' outcome acc :
  self_ok self acc → LocalEntityRoute.passivate_slot rt e stop_message self = (self', outcome) →
  ∃ ext, told_of (LocalEntityRoute.system self') = told_of (LocalEntityRoute.system self) ++ ext ∧
    self_ok self' (acc ++ (pair e <$> ext)) ∧ (stop_message = None → ext = []).
Proof.
  intros Hok (? & s & [= <- <-] & H)%act_bind_inv.
  destruct (LocalEntityRoute.actors self !! e) as [[k r d a|k r held re]|] eqn:Hx;
    [|exists []; injection H as <- _; by rewrite !app_nil_r..].
  apply act_bind_inv in H as (self1 & b & Hb & H).
  destruct (slot_terminated_ok _ _ _ _ _ _ Hok Hx Hb) as (Hok1 & Ha1 & Ht1 & Hend).
  rewrite <-Ha1 in Hx. rewrite <-Ht1. destruct b.
  { apply act_bind_inv in H as (self2 & [] & [= <-] & [= <- _]). exists []. rewrite !app_nil_r.
    split_and!; [done|by eapply self_ok_remove; [..|apply Hend]|done]. }
  apply act_bind_inv in H as (self2 & full & Hf & H).
  assert (∃ ext, told_of (LocalEntityRoute.system self2) = told_of (LocalEntityRoute.system self1) ++ ext ∧
    self_ok self2 (acc ++ (pair e <$> ext)) ∧
    LocalEntityRoute.actors self2 !! e = Some (LocalEntitySlot.Active k r d a) ∧
    (stop_message = None → ext = [])) as (ext & Ht2 & Hok2 & Hx2 & Hext).
  { destruct stop_message as [m|].
    - apply act_bind_inv in Hf as (self3 & o & Ho & [= <- _]).
      destruct (slot_tell_ok _ _ _ _ _ _ _ _ _ _ Hok1 Hx Ho) as (Hok3 & Ha3 & Ht3).
      eexists. split_and!; [exact Ht3| |congruence|done]. by destruct o; simpl; rewrite ?app_nil_r.
    - injection Hf as <- _. exists []. by rewrite !app_nil_r. }
  exists ext. destruct full; [by injection H as <- _|].
  apply act_bind_inv in H as (self4 & res & (sys4 & Hst & ->)%on_system_inv & H).
  pose proof (stop_ok _ _ _ _ _ _ _ _ _ _ _ _ (so_route _ _ Hok2) (views_lookup _ _ _ Hx2) Hst) as Hr.
  pose proof (stop_told _ _ _ _ Hst) as Ht4. rewrite <-Ht2, <-Ht4.
  destruct res as [[]|err].
  - apply act_bind_inv in H as (self5 & [] & [= <-] & H).
    apply act_bind_inv in H as (self6 & [] & Hsp & [= <- _]).
    eapply (spawn_task_ok _ _ _ _ _ (acc ++ (pair e <$> ext))) in Hsp as [Hok6 ->]; [by split_and!|].
    destruct Hok2 as [_ Hs2 Hw2]. constructor; [by rewrite (views_insert (LocalEntityRoute.set_system self2 sys4))| |done].
    destruct (Hs2 _ _ Hx2) as (? & ? & ?).
    by apply (slots_ok_insert (LocalEntityRoute.set_system self2 sys4) e _ k).
  - destruct Hr as [-> Hr]. injection H as <- _. split_and!; [done|by eapply self_ok_system|done].
Qed.

Lemma passivate_none_ok rt e self self' outcome acc :
  self_ok self acc → LocalEntityRoute.passivate_slot rt e None self = (self', outcome) → self_ok self' acc.
Proof.
  intros Hok H. destruct (passivate_slot_ok _ _ _ _ _ _ _ Hok H) as (ext & _ & Hok' & Hext).
  by rewrite (Hext eq_refl), app_nil_r in Hok'.
Qed.

Lemma passivate_shard_entity_ok rt e self self' n acc :
  self_ok self acc → stays = false → LocalEntityRoute.passivate_shard_entity rt e self = (self', n) → self_ok self' acc.
Proof.
  intros Hok Hstays (? & s & [= <- <-] & H)%act_bind_inv.
  assert (∀ (sf sf' : LocalEntityRoute.t M) m, self_ok sf acc →
    (let! outcome := LocalEntityRoute.passivate_slot rt e None in
      match outcome with
      | OutcomeStopping => act_ret 1%nat
      | OutcomeAbandoned =>
          let! slot := LocalEntityRoute.slot e in
          let! _ := match slot with
                    | Some (LocalEntitySlot.Active _ actor_ref _ _) =>
                        LocalEntityRoute.spawn_task rt (OwedStop e (ActorRef.uid actor_ref))
                    | _ => act_ret tt
                    end in
          act_ret 0%nat
      | OutcomeAlreadyStopping | OutcomeAbsent => act_ret 0%nat
      end) sf = (sf', m) → self_ok sf' acc) as Hp.
  { intros sf sf' m Hsf (sf1 & o & Ho & Hm)%act_bind_inv.
    pose proof (passivate_none_ok _ _ _ _ _ _ Hsf Ho) as Hsf1. destruct o; try by injection Hm as <- _.
    apply act_bind_inv in Hm as (? & s & [= <- <-] & Hm).
    apply act_bind_inv in Hm as (sf2 & [] & Hs & [= <- _]).
    destruct (LocalEntityRoute.actors sf1 !! e) as [[]|]; try by injection Hs as <-. by eapply spawn_task_ok in Hs as [? _]. }
  destruct (LocalEntityRoute.actors self !! e) as [[k r d a|k r held re]|] eqn:Hx; [by eapply Hp| |by eapply Hp].
  apply act_bind_inv in H as (self1 & [] & Hw & H).
  apply act_bind_inv in H as (self2 & [] & [= <-] & [= <- _]).
  pose proof (views_lookup _ _ _ Hx) as Hv. destruct (so_slots _ _ Hok _ _ Hx) as (He & ? & ?).
  simpl in He. destruct Hok as [Hr Hs Hwn].
  assert (∀ lost, lost_of self ⊆ lost → (e ∈ lost ∨ held = []) →
    route_ok (LocalEntityRoute.system self)
      (<[e := mk_view false (ActorRef.uid r) []]> (views self)) acc lost) as Hrl.
  { intros lost Hsub Hl. eapply view_change_ok; [exact Hr|exact Hv|try done..]; [simpl; lia|].
    destruct Hl as [?| ->]; [by left|]. right. exists []. by rewrite !app_nil_r. }
  destruct held as [|m held]; injection Hw as <-.
  - constructor; [|by eapply slots_ok_insert|done]. rewrite views_insert. apply Hrl; [done|by right].
  - set (self1 := LocalEntityRoute.add_warning _ _).
    constructor; [|by apply (slots_ok_insert self1 e _ k)|apply warn_ok; [done..|by rewrite Hstays]].
    rewrite (views_insert self1). change (lost_of (LocalEntityRoute.set_actors _ _)) with (lost_of self1).
    unfold self1. rewrite lost_warning. apply Hrl; [set_solver|left]. simpl. rewrite He. set_solver.
Qed.

Lemma passivate_each_ok rt es self self' n acc :
  self_ok self acc → stays = false → LocalEntityRoute.passivate_each rt es self = (self', n) → self_ok self' acc.
Proof.
  revert self n. induction es as [|e es IH]; intros self n Hok Hstays H; [by injection H as <- _|].
  apply act_bind_inv in H as (self1 & n1 & H1 & H). apply act_bind_inv in H as (self2 & n2 & H2 & [= <- _]).
  eapply IH, H2; [|done]. by eapply passivate_shard_entity_ok.
Qed.

Lemma set_shard_state_ok shard_id state self acc :
  self_ok self acc → self_ok (LocalEntityRoute.set_shard_state shard_id state self).1 acc.
Proof. intros [Hr Hs Hw]. by constructor. Qed.

(** *** Background tasks and diagnostics *)

(** The tasks find out that [uid] has terminated, whatever slot it is in by now. *)
Definition known_ended self (uid : Z) : Prop :=
  ∀ e s, LocalEntityRoute.actors self !! e = Some s → ActorRef.uid (LocalEntitySlot.actor_ref s) = uid →
    ended (LocalEntityRoute.system self) uid.

Lemma on_incarnation_stopped_ok now rt e uid self self' u acc :
  self_ok self acc → known_ended self uid →
  LocalEntityRoute.on_incarnation_stopped actor_options idle_passivation_timeout now rt e uid self
    = (self', u) → self_ok self' acc.
Proof.
  intros Hok Hend (? & s & [= <- <-] & H)%act_bind_inv.
  destruct (LocalEntityRoute.actors self !! e) as [[k r d a|k r held re]|] eqn:Hx; try by injection H as <- _.
  case_decide as Hu; [|by injection H as <- _]. subst uid. specialize (Hend _ _ Hx eq_refl).
  apply act_bind_inv in H as (self1 & [] & [= <-] & H).
  destruct (so_slots _ _ Hok _ _ Hx) as (He & Hk & _). simpl in He, Hk. subst e.
  assert (∀ sf sf' u', sf = LocalEntityRoute.set_actors self
            (delete (LocalEntityContext.entity_id k) (LocalEntityRoute.actors self)) →
    (let! res := LocalEntityRoute.activate_slot actor_options idle_passivation_timeout now rt k held in
     LocalEntityRoute.observe_activation (match res with Ok _ => Some k | Err _ => None end)) sf = (sf', u') →
    self_ok sf' acc) as Hact.
  { intros sf sf' u' -> (sf1 & res & Ha & Ho)%act_bind_inv. eapply observe_ok; [|exact Ho].
    by destruct (activate_slot_ok _ _ k _ _ _ _ _ (remove_replacing _ _ _ _ Hok Hx Hend) Hk Ha). }
  destruct held as [|m held]; [destruct re|]; [by eapply Hact| |by eapply Hact].
  injection H as <- _. by eapply self_ok_remove.
Qed.

Lemma run_idle_timer_ok now rt e uid self self' next acc :
  self_ok self acc →
  LocalEntityRoute.run_idle_timer idle_passivation_timeout now rt e uid self = (self', next) →
  self_ok self' acc.
Proof.
  intros Hok. unfold LocalEntityRoute.run_idle_timer.
  destruct idle_passivation_timeout as [timeout|]; [|by intros [= <- _]].
  intros (? & s & [= <- <-] & H)%act_bind_inv.
  destruct (LocalEntityRoute.actors self !! e) as [[k r d a|]|] eqn:Hx; try by injection H as <- _.
  case_decide; [|by injection H as <- _]. destruct d as [due|].
  2: { apply act_bind_inv in H as (self1 & [] & [= <-] & [= <- _]). by eapply self_ok_same_view. }
  destruct (now <? due); [by injection H as <- _|].
  apply act_bind_inv in H as (self1 & o & Ho & H).
  pose proof (passivate_none_ok _ _ _ _ _ _ Hok Ho) as Hok1.
  case_decide; [|by injection H as <- _].
  apply act_bind_inv in H as (? & s & [= <- <-] & H).
  apply act_bind_inv in H as (self2 & [] & Hs & [= <- _]).
  destruct (LocalEntityRoute.actors self1 !! e) as [[]|] eqn:Hx1; injection Hs as <-; try done.
  by eapply self_ok_same_view.
Qed.

Lemma run_task_ok now rt i self self' u acc :
  self_ok self acc →
  LocalEntityRoute.run_task actor_options idle_passivation_timeout now rt i self = (self', u) →
  self_ok self' acc.
Proof.
  intros Hok (? & task & [= <- <-] & H)%act_bind_inv.
  destruct (LocalEntityRoute.tasks self !! i) as [[e r|e uid deadline|e uid]|]; [| | |by injection H as <- _].
  - apply act_bind_inv in H as (self1 & b & (sys1 & Hb & ->)%on_system_inv & H).
    destruct (is_terminated_ok _ _ _ _ _ _ _ _ _ _ _ (so_route _ _ Hok) Hb) as (Hr & _ & Hend).
    assert (self_ok (LocalEntityRoute.set_system self sys1) acc) as Hok1 by (by eapply self_ok_system).
    destruct b; [|by injection H as <- _]. apply act_bind_inv in H as (self2 & [] & [= <-] & H).
    eapply on_incarnation_stopped_ok; [by apply self_ok_tasks| |exact H].
    intros e' s Hx Hu. eapply Hend; [by apply views_lookup|done|done].
  - destruct (now <? deadline); [by injection H as <- _|].
    apply act_bind_inv in H as (self1 & next & Hn & H).
    eapply run_idle_timer_ok in Hn; [|done]. destruct next; injection H as <- _; by apply self_ok_tasks.
  - apply act_bind_inv in H as (self1 & owed & Ho & H).
    assert (self_ok self1 acc) as Hok1.
    { apply act_bind_inv in Ho as (? & s & [= <- <-] & Ho).
      destruct (LocalEntityRoute.actors self !! e) as [[k r d a|]|]; try by injection Ho as <- _.
      case_decide; [|by injection Ho as <- _].
      apply act_bind_inv in Ho as (self2 & o & Hp & [= <- _]). by eapply passivate_none_ok. }
    destruct owed; injection H as <- _; [done|by apply self_ok_tasks].
Qed.

Lemma reap_each_ok entries self self' n acc :
  self_ok self acc →
  (∀ e s, (e, s) ∈ entries → LocalEntityRoute.actors self !! e = Some s) → NoDup entries.*1 →
  LocalEntityRoute.reap_each entries self = (self', n) → self_ok self' acc.
Proof.
  revert self n. induction entries as [|[e s] entries IH]; intros self n Hok Hin Hnd H; [by injection H as <- _|].
  apply act_bind_inv in H as (self1 & b & Hb & H).
  apply act_bind_inv in H as (self2 & [] & Hr & H). apply act_bind_inv in H as (self3 & n' & Hrec & [= <- _]).
  apply NoDup_cons in Hnd as [Hn Hnd].
  assert (LocalEntityRoute.actors self !! e = Some s) as Hx by (apply Hin; by left).
  assert (self_ok self1 acc ∧ LocalEntityRoute.actors self1 = LocalEntityRoute.actors self ∧
    (b = true → LocalEntitySlot.held s = [] ∧
       ended (LocalEntityRoute.system self1) (ActorRef.uid (LocalEntitySlot.actor_ref s)))) as (Hok1 & Ha & Hend).
  { destruct s as [k r d a|]; [|by injection Hb as <- <-].
    destruct (slot_terminated_ok _ _ _ _ _ _ Hok Hx Hb) as (? & ? & _ & He). split_and!; [done..|].
    intros ?. split; [done|auto]. }
  rewrite <-Ha in Hx. eapply IH; [| |done|exact Hrec].
  - destruct b; injection Hr as <-; [|done]. destruct (Hend eq_refl). by eapply self_ok_remove.
  - intros e' s' Hin'. assert (LocalEntityRoute.actors self1 !! e' = Some s') as Hx'
      by (rewrite Ha; apply Hin; by right).
    destruct b; injection Hr as <-; [|done]. simpl. rewrite lookup_delete_ne; [done|].
    intros <-. apply Hn. apply list_elem_of_fmap. by exists (e, s').
Qed.

(** *** Runs *)

Definition op_known (op : RouteOp M) : Prop :=
  match op with
  | Deliver routed =>
      known (LocalEntityContext.new local_node_id (RoutedEntityMessage.entity_type routed)
               (RoutedEntityMessage.entity_id routed) (RoutedEntityMessage.shard_id routed))
  | ActivateEntity entity_type entity_id shard_id =>
      known (LocalEntityContext.new local_node_id entity_type entity_id shard_id)
  | _ => True
  end.

(** The calls that [known], [calm], [fine] and [stays] allow. *)
Record event_allowed (ev : RouteEvent M) : Prop := {
  ea_known : op_known (call ev);
  ea_calm : calm = true → Forall (Forall (fun p => p.2 = goes_on)) (steps ev);
  ea_fine : fine = true → call ev ≠ SystemTerminating;
  ea_stays : stays = true → ∀ shard_id, call ev ≠ MarkTransferring shard_id;
}.

Lemma set_schedule_ok self acc batches :
  self_ok self acc → (calm = true → Forall (Forall (fun p => p.2 = goes_on)) batches) →
  self_ok (LocalEntityRoute.set_system self
             (ActorSystem.set_schedule (LocalEntityRoute.system self) batches)) acc.
Proof.
  intros Hok Hb. eapply self_ok_system; [done|].
  destruct (so_route _ _ Hok) as [Hs Hsl Hc Ho Hca Hf]. constructor; try done; [by apply set_schedule_wf|].
  intros Hcm. destruct (Hca Hcm) as [_ Hd]. split; [by apply Hb|done].
Qed.

Lemma entity_actor_ok e self self' r acc :
  self_ok self acc → LocalEntityRoute.entity_actor e self = (self', r) → self_ok self' acc.
Proof.
  intros Hok (? & s & [= <- <-] & H)%act_bind_inv.
  destruct (LocalEntityRoute.actors self !! e) as [[k r' d a|]|] eqn:Hx; try by injection H as <- _.
  apply act_bind_inv in H as (self1 & b & Hb & H).
  destruct (slot_terminated_ok _ _ _ _ _ _ Hok Hx Hb) as (Hok1 & Ha1 & _ & Hend).
  rewrite <-Ha1 in Hx. destruct b; [|by injection H as <- _].
  apply act_bind_inv in H as (self2 & [] & [= <-] & [= <- _]). by eapply self_ok_remove; [..|apply Hend].
Qed.

Lemma reap_ok self self' n acc :
  self_ok self acc → LocalEntityRoute.reap_terminated_entities self = (self', n) → self_ok self' acc.
Proof.
  intros Hok (? & entries & [= <- <-] & H)%act_bind_inv. eapply reap_each_ok; [done| | |exact H].
  - intros e s. apply elem_of_btree_entries.
  - apply NoDup_btree_keys.
Qed.

Lemma route_event_ok self self' acc ev accepted :
  self_ok self acc → event_allowed ev →
  route_event local_node_id actor_options idle_passivation_timeout self ev = (self', accepted) →
  self_ok self' (acc ++ accepted).
Proof.
  destruct ev as [now rt batches op]. intros Hok [Hk Hc Hf Hst]. simpl in *.
  apply (set_schedule_ok _ _ _ Hok) in Hc. clear Hok. unfold route_event. simpl.
  revert Hc. generalize (LocalEntityRoute.set_system self (ActorSystem.set_schedule (LocalEntityRoute.system self) batches)).
  clear self. intros self Hok. destruct op as [routed|e stop|et e sh|sh|sh|sh|sh|i| |e| ]; simpl.
  - destruct (LocalEntityRoute.deliver _ _ _ _ _ _ _) as [self1 r] eqn:Hd. intros [= <- <-].
    by apply (deliver_ok _ _ _ _ _ _ _ Hk Hok Hd).
  - intros [= <- <-]. unfold LocalEntityRoute.passivate_entity_with, act_bind, act_ret.
    destruct (LocalEntityRoute.passivate_slot _ _ _ _) as [self1 o] eqn:Hp.
    destruct (passivate_slot_ok _ _ _ _ _ _ _ Hok Hp) as (ext & Ht & Hok1 & _). simpl.
    by rewrite Ht, drop_app_length.
  - intros [= <- <-]. rewrite app_nil_r. by eapply activate_existing_or_spawn_ok, surjective_pairing.
  - intros [= <- <-]. rewrite app_nil_r. by apply set_shard_state_ok.
  - intros [= <- <-]. rewrite app_nil_r. unfold LocalEntityRoute.mark_shard_transferring, act_bind at 1.
    destruct (LocalEntityRoute.set_shard_state sh Transferring self) as [self1 []] eqn:Hs.
    assert (self_ok self1 acc) as Hok1.
    { pose proof (set_shard_state_ok sh Transferring _ _ Hok) as H. by rewrite Hs in H. }
    eapply passivate_each_ok; [exact Hok1| |apply surjective_pairing].
    destruct stays; [|done]. by destruct (Hst eq_refl sh).
  - intros [= <- <-]. rewrite app_nil_r. by apply set_shard_state_ok.
  - intros [= <- <-]. rewrite app_nil_r. by apply set_shard_state_ok.
  - intros [= <- <-]. rewrite app_nil_r. by eapply run_task_ok, surjective_pairing.
  - intros [= <- <-]. rewrite app_nil_r. by eapply reap_ok, surjective_pairing.
  - intros [= <- <-]. rewrite app_nil_r. by eapply entity_actor_ok, surjective_pairing.
  - intros [= <- <-]. rewrite app_nil_r. eapply self_ok_system; [done|].
    destruct (so_route _ _ Hok) as [Hs Hsl Hcl Ho Hca Hfi]. constructor; try done.
    + destruct Hs as [Hw1 Hw2 Hw3]. by constructor.
    + intros Ht. by destruct (Hf Ht).
Qed.

Lemma route_run_ok events self self' acc accepted :
  self_ok self acc → Forall event_allowed events →
  route_run local_node_id actor_options idle_passivation_timeout self events = (self', accepted) →
  self_ok self' (acc ++ accepted).
Proof.
  intros Hok Hall. revert self acc self' accepted Hok.
  induction Hall as [|ev events Hev Hall IH]; intros self acc self' accepted Hok; simpl.
  { intros [= <- <-]. by rewrite app_nil_r. }
  destruct (route_event _ _ _ _ _) as [self1 acc1] eqn:H1.
  destruct (route_run _ _ _ self1 _) as [self2 acc2] eqn:H2. intros [= <- <-].
  rewrite (assoc_L (++)). eapply IH; [|exact H2]. by eapply route_event_ok.
Qed.

Lemma new_route_ok name : self_ok (LocalEntityRoute.new (ActorSystem.new name)) [].
Proof.
  constructor; [|intros ?? [=]|intros ? []%not_elem_of_nil].
  constructor; [apply new_wf|intros ?? [=]|intros ?? [=]|by right|done|done].
Qed.
End route_facts.

(** ** Names of entity actors *)

Definition path_char (c : ascii) : Prop := c = "/"%char ∨ c = "#"%char ∨ c = "?"%char.

Lemma pretty_N_char_digit d c : pretty_N_char d = c → is_ascii_alphanumeric c = true.
Proof. intros <-. unfold pretty_N_char. by repeat case_match. Qed.

Lemma pretty_Z_other c (z : Z) :
  is_ascii_alphanumeric c = false → (0 <= z ∨ c ≠ "-"%char) → str_contains c (pretty z) = false.
Proof.
  intros Hc. apply pretty_Z_plain. intros d Hd. by rewrite (pretty_N_char_digit _ _ Hd) in Hc.
Qed.

Lemma sanitize_char_plain c a : path_char c → str_contains c (sanitize_char a) = false.
Proof.
  intros Hc. unfold sanitize_char. destruct (_ || _) eqn:Ha.
  - simpl. rewrite decide_False; [done|]. intros ->. by destruct Hc as [-> |[-> | ->]].
  - by destruct (_ && _); destruct Hc as [-> |[-> | ->]].
Qed.

Lemma sanitize_plain c value : path_char c → str_contains c (sanitize value) = false.
Proof.
  intros Hc. assert (str_contains c (sanitize_chars value) = false) as Hv.
  { induction value as [|a value IH]; [done|]. simpl.
    by rewrite str_contains_app, sanitize_char_plain, IH. }
  unfold sanitize. case_match; [|done]. by destruct Hc as [-> |[-> | ->]].
Qed.

(** The name of an entity actor is a segment of a path. *)
Lemma local_entity_actor_name_valid entity_type entity_id shard_id :
  is_ok (validate_actor_path_segment (local_entity_actor_name entity_type entity_id shard_id)) = true.
Proof.
  assert (∀ c, path_char c →
    str_contains c (local_entity_actor_name entity_type entity_id shard_id) = false) as H.
  { intros c Hc. unfold local_entity_actor_name. rewrite !str_contains_app, !sanitize_plain by done.
    rewrite pretty_Z_other; [by destruct Hc as [-> |[-> | ->]]|by destruct Hc as [-> |[-> | ->]]|].
    right. by destruct Hc as [-> |[-> | ->]]. }
  unfold validate_actor_path_segment.
  rewrite !H by (unfold path_char; auto). done.
Qed.

(** An id that is a name already. *)
Definition plain_id (e : EntityId.t) : Prop := sanitize (EntityId.as_str e) = EntityId.as_str e.

(** Within one entity type, plain ids have names of their own. *)
Lemma plain_names_distinct entity_type e1 e2 s1 s2 :
  plain_id e1 → plain_id e2 → 0 <= ShardId.as_u32 s1 → 0 <= ShardId.as_u32 s2 →
  local_entity_actor_name entity_type e1 s1 = local_entity_actor_name entity_type e2 s2 → e1 = e2.
Proof.
  unfold local_entity_actor_name. intros -> -> H1 H2 H. do 3 apply (inj _) in H.
  assert (∀ z r, 0 <= z → split_once "-" (pretty z +:+ String "-" r) = Some (pretty z, r)) as Hs.
  { intros z r Hz. apply split_once_app. apply pretty_Z_other; [done|by left]. }
  change ("-" +:+ ?r) with (String "-" r) in H.
  pose proof (Hs _ (EntityId.as_str e1) H1) as Hs1. rewrite H, (Hs _ _ H2) in Hs1.
  apply (inj EntityId.as_str). congruence.
Qed.

(** ** Properties *)

Section properties.
Context {M : Type} (local_node_id : NodeId.t) (actor_options : ActorOptions.t)
        (idle_passivation_timeout : option Z) (name : string).
Implicit Types (events : list (RouteEvent M)) (self : LocalEntityRoute.t M).

Definition start : LocalEntityRoute.t M := LocalEntityRoute.new (ActorSystem.new name).

(** Whatever the callers, the background tasks and the handlers do, an entity never has
    two live incarnations, and its incarnations take its messages in the order in which the
    route accepted them: unless messages of the entity were dropped with a warning, those
    accepted are the ones taken so far followed by those in the mailbox of the current
    incarnation and those held for the next one.  A stopping slot never holds more messages
    than a mailbox takes, and the next incarnation never refuses one as too many. *)
Theorem incarnations_keep_order events self accepted :
  route_run local_node_id actor_options idle_passivation_timeout start events = (self, accepted) →
  (∀ e, e ∉ lost_of self →
     sent_to e accepted = taken (entity_events e (LocalEntityRoute.system self)) ++
                          waiting e (LocalEntityRoute.system self) (views self)) ∧
  (∀ u1 u2 c1 c2,
     ActorSystem.cells (LocalEntityRoute.system self) !! u1 = Some c1 →
     ActorSystem.cells (LocalEntityRoute.system self) !! u2 = Some c2 →
     ActorCell.is_terminated c1 = false → ActorCell.is_terminated c2 = false →
     entity_of c1 = entity_of c2 → u1 = u2) ∧
  (∀ e s, LocalEntityRoute.actors self !! e = Some s →
     (length (LocalEntitySlot.held s) ≤ ActorOptions.mailbox_capacity actor_options)%nat) ∧
  (∀ w, w ∈ LocalEntityRoute.warnings self → w.2 ≠ NextFull).
Proof.
  intros Hrun. eapply (route_run_ok _ _ _ (fun _ => True) false false false ltac:(done)) in Hrun as [Hr _ Hw];
    [|apply new_route_ok|].
  2: { apply Forall_forall. intros [now rt batches op] _. constructor; [by destruct op|done..]. }
  simpl in Hr. split_and!.
  - intros e He. by destruct (ok_order _ _ _ _ _ _ _ _ Hr e).
  - intros u1 u2 c1 c2 H1 H2 Ht1 Ht2 He.
    destruct (ok_cell _ _ _ _ _ _ _ _ Hr _ _ H1) as (_ & _ & _ & _ & Hl1).
    destruct (ok_cell _ _ _ _ _ _ _ _ Hr _ _ H2) as (_ & _ & _ & _ & Hl2).
    destruct (Hl1 Ht1) as (x1 & Hx1 & <-), (Hl2 Ht2) as (x2 & Hx2 & <-). rewrite He in Hx1. congruence.
  - intros e s Hs. apply views_lookup in Hs.
    by destruct (ok_slot _ _ _ _ _ _ _ _ Hr _ _ Hs) as (_ & _ & _ & _ & ?).
  - intros w Hin. by destruct (Hw _ Hin).
Qed.

(** The calls of a route whose messages name entities of one type by plain ids, while the
    handlers go on, the system is up and no shard is transferred away. *)
Definition ordinary (entity_type : EntityType.t) (ev : RouteEvent M) : Prop :=
  match call ev with
  | Deliver routed =>
      RoutedEntityMessage.entity_type routed = entity_type ∧
      plain_id (RoutedEntityMessage.entity_id routed) ∧
      0 <= ShardId.as_u32 (RoutedEntityMessage.shard_id routed)
  | ActivateEntity type entity_id shard_id =>
      type = entity_type ∧ plain_id entity_id ∧ 0 <= ShardId.as_u32 shard_id
  | MarkTransferring _ | SystemTerminating => False
  | _ => True
  end ∧ Forall (Forall (fun p => p.2 = goes_on)) (steps ev).

Definition plain_context (entity_type : EntityType.t) (k : LocalEntityContext.t) : Prop :=
  ∃ e s, k = LocalEntityContext.new local_node_id entity_type e s ∧ plain_id e ∧ 0 <= ShardId.as_u32 s.

Lemma ordinary_allowed entity_type ev :
  ordinary entity_type ev → event_allowed local_node_id (plain_context entity_type) true true true ev.
Proof.
  destruct ev as [now rt batches op]. intros [Hop Hc]. simpl in *. constructor; simpl.
  - destruct op; try done.
    + destruct Hop as (<- & ? & ?). by eexists _, _.
    + destruct Hop as (-> & ? & ?). by eexists _, _.
  - done.
  - intros _ ->. done.
  - intros _ s ->. done.
Qed.

Lemma plain_contexts_fine entity_type :
  names_distinct (plain_context entity_type) ∧
  ∀ k, plain_context entity_type k →
    is_ok (validate_actor_path_segment (LocalEntityContext.actor_name k)) = true.
Proof.
  split.
  - intros k1 k2 (e1 & s1 & -> & ? & ?) (e2 & s2 & -> & ? & ?) Hn. by eapply plain_names_distinct; [..|exact Hn].
  - intros k (e & s & -> & _). apply local_entity_actor_name_valid.
Qed.

(** C3. Passivation loses nothing.  As long as the handlers go on, the system is up, no
    shard is transferred away and the entities have plain ids, no message that the route
    accepted is ever dropped, however passivations, idle timers and reactivations
    interleave with the deliveries: no actor discards one, no warning is given, and the
    messages accepted for an entity are those handled so far, in order, followed by those
    that wait. *)
Theorem passivation_loses_nothing entity_type events self accepted :
  ActorOptions.mailbox_capacity actor_options ≠ 0%nat → Forall (ordinary entity_type) events →
  route_run local_node_id actor_options idle_passivation_timeout start events = (self, accepted) →
  LocalEntityRoute.warnings self = [] ∧
  discarded (ActorSystem.history (LocalEntityRoute.system self)).*2 = [] ∧
  ∀ e, sent_to e accepted = taken (entity_events e (LocalEntityRoute.system self)) ++
                            waiting e (LocalEntityRoute.system self) (views self).
Proof.
  intros Hcap Hall Hrun. destruct (plain_contexts_fine entity_type) as [Hd Hv].
  eapply (route_run_ok _ _ _ (plain_context entity_type) true true true) in Hrun as [Hr _ Hw];
    [|done|apply new_route_ok|eapply Forall_impl; [exact Hall|apply ordinary_allowed]].
  assert (LocalEntityRoute.warnings self = []) as Hno.
  { destruct (LocalEntityRoute.warnings self) as [|w ws] eqn:Hws; [done|].
    destruct (Hw w) as (H1 & H2 & H3 & H4); [rewrite Hws; by left|].
    by destruct w as [? []]; [destruct (H4 eq_refl)|destruct (H2 eq_refl)|destruct (H3 eq_refl)|destruct H1]. }
  split_and!; [done|by apply (ok_calm _ _ _ _ _ _ _ _ Hr)|].
  intros e. destruct (ok_order _ _ _ _ _ _ _ _ Hr e) as [Hl|?]; [|done].
  unfold lost_of in Hl. rewrite Hno in Hl. by apply not_elem_of_nil in Hl.
Qed.
End properties.

(** ** The route in a region

    The local route is one a region of [RegionOrder.v] can buffer for. *)

Create HintDb keeps discriminated.

Section in_region.
Context {M : Type} (local_node_id : NodeId.t) (actor_options : ActorOptions.t)
        (idle_passivation_timeout : option Z).
Import LocalEntityRoute.
Implicit Types self : LocalEntityRoute.t M.

(** The handoff states of the shards stay. *)
Definition keeps {A} (m : act (LocalEntityRoute.t M) A) : Prop := ∀ self, shard_states (m self).1 = shard_states self.

Lemma keeps_ret {A} (a : A) : keeps (act_ret a).
Proof. done. Qed.
Lemma keeps_bind {A B} (m : act (LocalEntityRoute.t M) A) (k : A → act (LocalEntityRoute.t M) B) :
  keeps m → (∀ a, keeps (k a)) → keeps (act_bind m k).
Proof.
  intros Hm Hk self. unfold act_bind. specialize (Hm self). destruct (m self) as [self1 a]. by rewrite Hk.
Qed.
Lemma keeps_get {A} (f : LocalEntityRoute.t M → A) : keeps (get f).
Proof. done. Qed.
Lemma keeps_on_system {A} (m : act (ActorSystem.t M LocalEntityContext.t) A) : keeps (on_system m).
Proof. intros self. unfold on_system. by destruct (m _). Qed.
Lemma keeps_modify f : (∀ self, shard_states (f self) = shard_states self) → keeps (modify f).
Proof. intros Hf self. apply Hf. Qed.
#[local] Hint Resolve keeps_ret keeps_get keeps_on_system : keeps.

(** One step through the structure of an operation. *)
Ltac keeps :=
  repeat match goal with
  | |- ∀ _, _ => intros ?
  | |- keeps (act_bind _ _) => apply keeps_bind
  | |- keeps (modify _) => apply keeps_modify
  | |- keeps (match ?x with _ => _ end) => destruct x
  | |- shard_states (match ?x with _ => _ end) = _ => destruct x
  | |- keeps _ => solve [eauto with keeps nocore]
  | |- shard_states _ = _ => reflexivity
  end.

Lemma keeps_note now rt e : keeps (note_delivery (M := M) idle_passivation_timeout now rt e).
Proof. unfold note_delivery, slot, insert_slot. keeps. Qed.
#[local] Hint Resolve keeps_note : keeps.

Lemma keeps_drain context actor_ref (held : list M) : keeps (drain_held context actor_ref held).
Proof. induction held; simpl; unfold warn_dropped; keeps. Qed.
#[local] Hint Resolve keeps_drain : keeps.

Lemma keeps_activate now rt context (held : list M) :
  keeps (activate_slot actor_options idle_passivation_timeout now rt context held).
Proof. unfold activate_slot, spawn_incarnation, warn_dropped, insert_slot. keeps. Qed.
#[local] Hint Resolve keeps_activate : keeps.

Lemma keeps_deliver_locked now rt (routed : RoutedEntityMessage.t M) :
  keeps (deliver_locked local_node_id actor_options idle_passivation_timeout now rt routed).
Proof.
  unfold deliver_locked, activate_and_deliver, hold_behind_self_stop, slot, insert_slot, remove_slot, spawn_task. keeps.
Qed.

Lemma keeps_existing now rt et e s :
  keeps (activate_existing_or_spawn (M := M) local_node_id actor_options idle_passivation_timeout now rt et e s).
Proof. unfold activate_existing_or_spawn, slot, insert_slot, remove_slot, observe_activation. keeps. Qed.

Lemma keeps_passivate_slot rt e (stop : option M) : keeps (passivate_slot rt e stop).
Proof. unfold passivate_slot, slot, insert_slot, remove_slot, spawn_task. keeps. Qed.
#[local] Hint Resolve keeps_passivate_slot : keeps.

Lemma keeps_passivate_each rt es : keeps (passivate_each (M := M) rt es).
Proof.
  induction es; simpl; unfold passivate_shard_entity, slot, insert_slot, warn_dropped, spawn_task; keeps.
Qed.
#[local] Hint Resolve keeps_passivate_each : keeps.

Lemma keeps_run_task now rt i : keeps (run_task (M := M) actor_options idle_passivation_timeout now rt i).
Proof.
  unfold run_task, on_incarnation_stopped, run_idle_timer, retry_owed_stop, remove_task, slot, insert_slot, remove_slot,
    observe_activation. keeps.
Qed.

(** A delivery that the shard does not stop is answered, by the actor or by the failure to
    start one. *)
Lemma deliver_locked_answers now rt (routed : RoutedEntityMessage.t M) self self' r :
  deliver_locked local_node_id actor_options idle_passivation_timeout now rt routed self = (self', r) →
  match r with Err (Delivery _ (EntityDeliveryFailure.ShardHandoff _ _)) | Err (NoRoute _ _) => False | _ => True end.
Proof.
  assert (∀ held self self' r,
    activate_and_deliver actor_options idle_passivation_timeout now rt
      (LocalEntityContext.new local_node_id (RoutedEntityMessage.entity_type routed) (RoutedEntityMessage.entity_id routed)
         (RoutedEntityMessage.shard_id routed)) held (RoutedEntityMessage.message routed) self = (self', r) →
    match r with Err (Delivery _ (EntityDeliveryFailure.ShardHandoff _ _)) | Err (NoRoute _ _) => False | _ => True end)
    as Hact.
  { clear. intros held self self' r (self1 & activated & H1 & H)%act_bind_inv.
    destruct activated as [actor_ref|failure].
    - apply act_bind_inv in H as (self2 & outcome & _ & H). destruct outcome.
      + by apply act_bind_inv in H as (? & ? & _ & [_ <-]%act_ret_inv).
      + by apply act_ret_inv in H as [_ <-].
      + by apply act_ret_inv in H as [_ <-].
    - apply act_ret_inv in H as [_ <-].
      apply act_bind_inv in H1 as (self2 & spawned & H2 & H1).
      apply act_bind_inv in H2 as (self3 & res & _ & [_ <-]%act_ret_inv).
      destruct res as [actor_ref|error]; simpl in H1.
      + repeat (apply act_bind_inv in H1 as (? & ? & _ & H1)). by apply act_ret_inv in H1 as [_ ?].
      + apply act_bind_inv in H1 as (? & ? & _ & [_ [= <-]]%act_ret_inv). done. }
  unfold deliver_locked. intros (self1 & s & _ & H)%act_bind_inv.
  repeat first
    [ match type of H with act_bind _ _ _ = _ => apply act_bind_inv in H as (? & ? & _ & H) end
    | match type of H with (match ?x with _ => _ end) _ = _ => destruct x end
    | by apply act_ret_inv in H as [_ <-]
    | by eapply Hact ].
Qed.

Definition handing_off (w : LocalEntityRoute.t M) (o : NodeId.t) (s : ShardId.t) : bool :=
  bool_decide (o = local_node_id) &&
  match shard_handoff_state w s with Draining | Transferring => true | Owning | Acquired => false end.

Lemma handing_off_keeps (w w' : LocalEntityRoute.t M) o s :
  shard_states w' = shard_states w → handing_off w' o s = handing_off w o s.
Proof. intros H. unfold handing_off, shard_handoff_state. by rewrite H. Qed.

Lemma handing_off_mark (w : LocalEntityRoute.t M) s state o s' :
  state = Draining ∨ state = Transferring → handing_off w o s' = true →
  handing_off (set_shard_states w (<[s := state]> (shard_states w))) o s' = true.
Proof.
  intros Hst. unfold handing_off, shard_handoff_state. simpl. intros [Ho Hs]%andb_true_iff. rewrite Ho. simpl.
  destruct (decide (s = s')) as [->|?]; [rewrite lookup_insert_eq; simpl; by destruct Hst as [-> | ->]|].
  by rewrite lookup_insert_ne.
Qed.

#[export] Program Instance local_handoffs :
  HandoffRoute (LocalEntityRoute.route local_node_id actor_options idle_passivation_timeout) := {| defers := handing_off |}.
Next Obligation.
  intros now rt w routed w' r. simpl. unfold deliver, handing_off. case_decide as Ho.
  2: { intros [<- <-]%act_ret_inv. rewrite bool_decide_false by done. done. }
  rewrite bool_decide_true by done. simpl. unfold ensure_shard_accepts_delivery.
  intros (w1 & accepts & [= <- <-] & H)%act_bind_inv.
  destruct (shard_handoff_state w (RoutedEntityMessage.shard_id routed)) eqn:Hst.
  2,3: apply act_ret_inv in H as [<- <-]; by split; [|eexists].
  all: apply act_bind_inv in H as (w1 & r1 & Hd & H).
  all: pose proof (deliver_locked_answers _ _ _ _ _ _ Hd) as Hr; pose proof (keeps_deliver_locked now rt routed w) as Hk.
  all: rewrite Hd in Hk; simpl in Hk.
  all: assert (shard_states w' = shard_states w) as Hw
    by (destruct r1 as [[c|]|]; [apply act_bind_inv in H as (? & ? & [= <- _] & [<- _]%act_ret_inv)..|
          apply act_ret_inv in H as [<- _]]; done).
  all: split; [intros o s; by apply (handing_off_keeps w w' o s)|].
  all: destruct r1 as [c|err]; [by apply act_bind_inv in H as (? & ? & _ & [_ <-]%act_ret_inv)|];
    apply act_ret_inv in H as [_ <-]; by destruct err as [|? []].
Qed.
Next Obligation.
  intros now rt s w w' r H o s' Hd. apply act_bind_inv in H as (w1 & n & H & [<- _]%act_ret_inv).
  apply act_bind_inv in H as (w2 & [] & [= <-] & [<- _]%act_ret_inv). apply handing_off_mark; [by left|done].
Qed.
Next Obligation.
  intros now rt s w w' r H. apply act_bind_inv in H as (w1 & n & H & [<- <-]%act_ret_inv). split; [done|].
  intros o s' Hd. apply act_bind_inv in H as (w2 & [] & [= <-] & H).
  rewrite (handing_off_keeps (set_shard_states w (<[s := Transferring]> (shard_states w)))).
  - apply handing_off_mark; [by right|done].
  - assert (keeps (passivate_shard (M := M) rt s)) as Hk by (unfold passivate_shard; keeps).
    specialize (Hk (set_shard_states w (<[s := Transferring]> (shard_states w)))). by rewrite H in Hk.
Qed.
Next Obligation. intros now rt s w w' r H. by apply act_bind_inv in H as (w1 & n & _ & [_ <-]%act_ret_inv). Qed.
Next Obligation.
  intros now rt et e s w w' r H o s'. apply handing_off_keeps.
  pose proof (keeps_existing now rt et e s w) as Hk. simpl in H. by rewrite H in Hk.
Qed.

(** What the route does by itself opens no shard: its actors run, its tasks run, an entity is
    passivated. *)
Lemma route_work_opens_nothing now rt (steps : list (list (Z * HandlerOutcome))) i e stop :
  ∀ f, f ∈ [fun w => set_system w (ActorSystem.set_schedule (system w) steps);
            fun w => (run_task actor_options idle_passivation_timeout now rt i w).1;
            fun w => (passivate_entity_with rt e stop w).1] →
  ∀ w o s, defers w o s = true → defers (f w) o s = true.
Proof.
  intros f Hf w o s. change (handing_off w o s = true → handing_off (f w) o s = true).
  rewrite (handing_off_keeps w (f w)); [done|].
  repeat (apply elem_of_cons in Hf as [-> |Hf]); [done| | |by apply elem_of_nil in Hf].
  - apply keeps_run_task.
  - assert (keeps (passivate_entity_with rt e stop)) as Hk by (unfold passivate_entity_with; keeps). apply Hk.
Qed.
End in_region.

(** ** Concrete runs *)

Module Carts.
Definition here : NodeId.t := NodeId.new "here" "1".
Definition cart : EntityType.t := EntityType.new "cart".
Definition shard0 : ShardId.t := ShardId.new 0.
Definition options : ActorOptions.t := ActorOptions.mk 2 SupervisionStrategy.Restart.
Definition to (id : string) (message : Z) : RoutedEntityMessage.t Z :=
  RoutedEntityMessage.new cart (EntityId.new id) shard0 here message.
Definition goes (n : nat) : list (Z * HandlerOutcome) := replicate n (1, goes_on).

(** Two deliveries, a passivation while the second one waits, a delivery that is held, the
    end of the first incarnation, and the watcher that starts the second one. *)
Definition events : list (RouteEvent Z) :=
  [mk_event 0 true [] (Deliver (to "7" 1)); mk_event 1 true [goes 1; goes 1] (Deliver (to "7" 2));
   mk_event 2 true [goes 1] (Passivate (EntityId.new "7") None);
   mk_event 3 true [] (Deliver (to "7" 3));
   mk_event 4 true [goes 6] (RunTask 0);
   mk_event 5 true [] (Deliver (to "7" 4))].
Definition run : LocalEntityRoute.t Z * list (EntityId.t * Z) :=
  route_run here options None (start "app") events.

(** A region over this route, which buffers up to ten messages per shard. *)
Definition route : Z → bool → EntityRoute.t (LocalEntityRoute.t Z) Z :=
  LocalEntityRoute.route here (ActorOptions.mk 1 SupervisionStrategy.Restart) None.
Definition owned_here : ShardOwnershipSnapshot.t :=
  ShardOwnershipSnapshot.mk 1 cart 1 [ShardAssignment.new (ShardKey.new cart shard0) here].
Definition cart_7 : EntityRef.t := EntityRef.new cart (EntityId.new "7").
Definition region : ShardRegion.t (LocalEntityRoute.t Z * answers Z) Z :=
  ShardRegion.with_buffering (ShardRegion.new cart (ShardingConfig.mk 1) (start "app", []))
    (ShardBufferConfig.new 10 100).
Definition flushed : ShardRegion.t (LocalEntityRoute.t Z * answers Z) Z * answers Z :=
  region_run route region
    [region_at 0 true (TellEntity cart_7 1); region_at 0 true (TellEntity cart_7 2);
     region_at 1 true (RefreshOwnership owned_here)].

(** The steps the actors take during the next call. *)
Definition actors_run : LocalEntityRoute.t Z → LocalEntityRoute.t Z :=
  fun w => LocalEntityRoute.set_system w (ActorSystem.set_schedule (LocalEntityRoute.system w) [goes 1; goes 1]).

(** A message before the owner is known, one delivered, one the full mailbox refuses, one
    during a handoff. *)
Definition moving : list (RegionEvent (LocalEntityRoute.t Z) Z) :=
  [region_at 0 true (TellEntity cart_7 1); region_at 1 true (RefreshOwnership owned_here);
   region_at 2 true (TellEntity cart_7 2); region_at 2 true (RouteWorks actors_run);
   region_at 3 true (TellEntity cart_7 3); region_at 3 true (BeginHandoff shard0);
   region_at 4 true (TellEntity cart_7 4); region_at 5 true FlushBuffered; region_at 5 true (TellEntity cart_7 5)].
Definition moved : ShardRegion.t (LocalEntityRoute.t Z * answers Z) Z * answers Z := region_run route region moving.
End Carts.

Lemma incarnations_keep_order_witness :
  ∃ self, Carts.run.1 = self ∧ sent_to (EntityId.new "7") Carts.run.2 = [1; 2; 3; 4] ∧
    taken (entity_events (EntityId.new "7") (LocalEntityRoute.system self)) = [1; 2] ∧
    sent_to (EntityId.new "7") Carts.run.2
    = taken (entity_events (EntityId.new "7") (LocalEntityRoute.system self)) ++
      waiting (EntityId.new "7") (LocalEntityRoute.system self) (views self).
Proof.
  eexists. split; [reflexivity|]. split; [vm_compute; reflexivity|]. split; [vm_compute; reflexivity|].
  apply (incarnations_keep_order Carts.here Carts.options None "app" Carts.events Carts.run.1 Carts.run.2
           (surjective_pairing _)).
  vm_compute. intros H. inversion H.
Defined.

Lemma passivation_loses_nothing_witness :
  Forall (ordinary Carts.cart) Carts.events ∧
  sent_to (EntityId.new "7") Carts.run.2
  = taken (entity_events (EntityId.new "7") (LocalEntityRoute.system Carts.run.1)) ++
    waiting (EntityId.new "7") (LocalEntityRoute.system Carts.run.1) (views Carts.run.1).
Proof.
  assert (Forall (ordinary Carts.cart) Carts.events) as Hall.
  { unfold Carts.events. repeat (apply Forall_cons; split); [..|by apply Forall_nil];
      (split; [split_and?; vm_compute; try done; reflexivity|]);
      repeat (apply Forall_cons; split); try (by apply Forall_nil); reflexivity. }
  split; [exact Hall|].
  apply (passivation_loses_nothing Carts.here Carts.options None "app" Carts.cart Carts.events
           Carts.run.1 Carts.run.2); [discriminate|exact Hall|apply surjective_pairing].
Defined.


(** The owner is known and an entity of the local route is paused: the second message
    overtakes the first one. *)
Lemma expired_pause_overtakes_witness :
  let self := (region_run Carts.route Carts.region [region_at 0 true (RefreshOwnership Carts.owned_here)]).1 in
  ∃ self1 self2 self3 b3 r,
    ShardRegion.begin_entity_passivation 5 (EntityId.new "7") 10 self = (self1, tt) ∧
    ShardRegion.tell (recorded (Carts.route 5 true)) 5 Carts.cart_7 1 self1 = (self2, Ok tt) ∧
    ShardRegion.tell (recorded (Carts.route 15 true)) 15 Carts.cart_7 2 self2 = (self3, r) ∧
    (ShardRegion.route_state self3).2 = [((EntityId.new "7", 2), is_ok r)] ∧
    ShardRegion.buffer self3 = Some b3 ∧
    1 ∈ queued_for (EntityId.new "7") (ShardMessageBuffer.queue b3 Carts.shard0).
Proof.
  intros self.
  apply (expired_pause_overtakes Carts.route true self
    (ShardMessageBuffer.mk (ShardBufferConfig.new 10 100) ∅ ∅) Carts.here 5 10 (EntityId.new "7") 1 2);
    try (vm_compute; reflexivity). apply Nat.ltb_lt. vm_compute. reflexivity.
Defined.

(** Two ids of one shard can share an actor name, since the characters that a path
    segment does not take are all replaced by the same one: while the entity of the first
    is live, the entity of the second cannot be delivered to. *)
Theorem sanitized_ids_collide :
  local_entity_actor_name Carts.cart (EntityId.new "a/b") Carts.shard0
  = local_entity_actor_name Carts.cart (EntityId.new "a_b") Carts.shard0 ∧
  let '(self, first) := LocalEntityRoute.deliver Carts.here Carts.options None 0 true (Carts.to "a/b" 1)
                          (start "app") in
  let '(_, second) := LocalEntityRoute.deliver Carts.here Carts.options None 1 true (Carts.to "a_b" 2) self in
  first = Ok tt ∧ match second with Err (Delivery 2 (EntityDeliveryFailure.SpawnFailed _)) => True | _ => False end.
Proof. vm_compute. auto. Qed.

(** A message that a region accepted into its buffer can be lost on the way out: when the
    route refuses it for a full mailbox, the flush drops it, with no error and no warning. *)
Theorem flush_drops_refused_message :
  (oks Carts.flushed.2).*2 = [1; 2] ∧
  ShardRegion.buffered_message_count Carts.flushed.1 = 0%nat ∧
  told_of (LocalEntityRoute.system (ShardRegion.route_state Carts.flushed.1).1) = [1] ∧
  LocalEntityRoute.warnings (ShardRegion.route_state Carts.flushed.1).1 = [].
Proof. vm_compute. auto. Qed.
