(* ===== verification/Persistence.v ===== *)
(** * Persistence vocabulary: [rakka-persistence/src/store.rs] and [error.rs]

    Persistence ids, revisions and sequence numbers, event and snapshot records,
    snapshot selection, recovery options, retention and retry policies, and the
    errors of the stores. *)

From Stdlib Require Import Ascii.
From stdpp Require Import pretty.
From S2P Require Import Prelude.

(** ** Persistence ids *)

Module PersistenceId.

Record t := new { as_str : string }.

#[global] Instance eq_dec : EqDecision t.
Proof. solve_decision. Defined.
#[global] Instance as_str_inj : Inj (=) (=) as_str.
Proof. newtype_inj. Qed.
#[global] Instance countable : Countable t := inj_countable' as_str new ltac:(by intros []).
#[global] Instance ordkey : OrdKey t := ordkey_via as_str.

(** [entity_parts]: the text around the first separator. *)
Definition entity_parts (self : t) : option (string * string) :=
  split_once "|"%char (as_str self).

End PersistenceId.

(** ** Errors *)

Inductive DurableError :=
| RevisionConflict (persistence_id : PersistenceId.t) (expected actual : Z)
| SequenceConflict (persistence_id : PersistenceId.t) (expected actual : Z)
| InvalidPersistenceId (message : string)
| StoreError (backend message : string)
| Codec (message : string)
| NotRecovered (persistence_id : PersistenceId.t).

Definition DurableResult (A : Type) : Type := result DurableError A.

(** [DurableError::code]. *)
Definition DurableError_code (e : DurableError) : string :=
  match e with
  | RevisionConflict _ _ _ => "revision-conflict"
  | SequenceConflict _ _ _ => "sequence-conflict"
  | InvalidPersistenceId _ => "invalid-persistence-id"
  | StoreError _ _ => "store-error"
  | Codec _ => "codec-error"
  | NotRecovered _ => "not-recovered"
  end.

(** [Display for DurableError]. *)
Definition DurableError_to_string (e : DurableError) : string :=
  match e with
  | RevisionConflict persistence_id expected actual =>
      "revision conflict for " +:+ PersistenceId.as_str persistence_id +:+ ": expected " +:+
        pretty expected +:+ ", actual " +:+ pretty actual
  | SequenceConflict persistence_id expected actual =>
      "sequence conflict for " +:+ PersistenceId.as_str persistence_id +:+ ": expected " +:+
        pretty expected +:+ ", actual " +:+ pretty actual
  | InvalidPersistenceId message => "invalid persistence id: " +:+ message
  | StoreError backend message => backend +:+ " store error: " +:+ message
  | Codec message => "state codec error: " +:+ message
  | NotRecovered persistence_id =>
      "durable actor " +:+ PersistenceId.as_str persistence_id +:+ " has not recovered"
  end.

(** A string between double quotes, as [{:?}] prints one without escapes. *)
Definition quoted (s : string) : string :=
  String (ascii_of_nat 34) (s +:+ String (ascii_of_nat 34) "").

Definition validate_persistence_id_part (name value : string) : DurableResult unit :=
  if str_is_empty value then Err (InvalidPersistenceId (name +:+ " must not be empty"))
  else if str_contains "|"%char value then
    Err (InvalidPersistenceId
           (name +:+ " must not contain persistence id separator " +:+ quoted "|"))
  else Ok tt.

(** [PersistenceId::of]. *)
Definition persistence_id_of (entity_type entity_id : string) : DurableResult PersistenceId.t :=
  let? _ := validate_persistence_id_part "entity_type" entity_type in
  let? _ := validate_persistence_id_part "entity_id" entity_id in
  Ok (PersistenceId.new (entity_type +:+ String "|"%char entity_id)).

(** ** Revisions and sequence numbers

    Both are [u64] counters; [next] is [self.0 + 1]. *)

Definition Revision_INITIAL : Z := 0.
Definition Revision_next (r : Z) : Z := add_u64 r 1.

Definition SequenceNr_INITIAL : Z := 0.
Definition SequenceNr_FIRST : Z := 1.
Definition SequenceNr_MAX : Z := u64_max.
Definition SequenceNr_next (n : Z) : Z := add_u64 n 1.

(** ** Records *)

Module StateRecord.
Record t (S : Type) := new { state : S; revision : Z }.
Arguments new {S}.
Arguments state {S}.
Arguments revision {S}.

Definition missing {S} (empty_state : S) : t S := new empty_state Revision_INITIAL.
End StateRecord.

Module TaggedEvent.
Record t (E : Type) := with_tags { event : E; tags : list string }.
Arguments with_tags {E}.
Arguments event {E}.
Arguments tags {E}.

Definition new {E} (event : E) : t E := with_tags event [].
End TaggedEvent.

Module EventMetadata.
Record t := mk {
  persistence_id : PersistenceId.t;
  sequence_nr : Z;
  timestamp_millis : Z;
  tags : list string;
  slice : option Z;
}.

Definition new (persistence_id : PersistenceId.t) (sequence_nr timestamp_millis : Z) : t :=
  mk persistence_id sequence_nr timestamp_millis [] None.

Definition with_tags (self : t) (tags : list string) : t :=
  mk (persistence_id self) (sequence_nr self) (timestamp_millis self) tags (slice self).
End EventMetadata.

Module EventRecord.
Record t (E : Type) := new { event : E; metadata : EventMetadata.t }.
Arguments new {E}.
Arguments event {E}.
Arguments metadata {E}.

Definition sequence_nr {E} (r : t E) : Z := EventMetadata.sequence_nr (metadata r).
End EventRecord.

Module SnapshotMetadata.
Record t := new {
  persistence_id : PersistenceId.t;
  sequence_nr : Z;
  timestamp_millis : Z;
}.
End SnapshotMetadata.

Module SnapshotRecord.
Record t (S : Type) := new { snapshot : S; metadata : SnapshotMetadata.t }.
Arguments new {S}.
Arguments snapshot {S}.
Arguments metadata {S}.

Definition sequence_nr {S} (r : t S) : Z := SnapshotMetadata.sequence_nr (metadata r).
Definition into_parts {S} (r : t S) : S * Z := (snapshot r, sequence_nr r).
End SnapshotRecord.

(** ** Selection, recovery, retention, retries *)

Module SnapshotSelection.
Record t := mk {
  min_sequence_nr : Z;
  max_sequence_nr : Z;
  min_timestamp_millis : Z;
  max_timestamp_millis : Z;
}.

Definition LATEST : t := mk SequenceNr_INITIAL SequenceNr_MAX 0 u64_max.
Definition up_to (max_sequence_nr : Z) : t := mk SequenceNr_INITIAL max_sequence_nr 0 u64_max.
Definition between (min_sequence_nr max_sequence_nr : Z) : t :=
  mk min_sequence_nr max_sequence_nr 0 u64_max.

Definition matches (self : t) (metadata : SnapshotMetadata.t) : bool :=
  (min_sequence_nr self <=? SnapshotMetadata.sequence_nr metadata) &&
  (SnapshotMetadata.sequence_nr metadata <=? max_sequence_nr self) &&
  (min_timestamp_millis self <=? SnapshotMetadata.timestamp_millis metadata) &&
  (SnapshotMetadata.timestamp_millis metadata <=? max_timestamp_millis self).
End SnapshotSelection.

Module RecoveryOptions.
Record t := mk {
  snapshot_selection : SnapshotSelection.t;
  replay_from : Z;
  replay_to : Z;
}.

Definition new : t := mk SnapshotSelection.LATEST SequenceNr_FIRST SequenceNr_MAX.
End RecoveryOptions.

Module RetentionCriteria.
Record t := mk {
  snapshot_every : option Z;
  keep_snapshots : Z;
  delete_events_on_snapshot : bool;
}.

(** [usize::MAX] on a 64-bit target. *)
Definition usize_max : Z := u64_max.

Definition disabled : t := mk None usize_max false.
Definition every (event_count : Z) : t := mk (Some event_count) usize_max false.
Definition with_keep_snapshots (self : t) (keep : Z) : t :=
  mk (snapshot_every self) keep (delete_events_on_snapshot self).
Definition with_delete_events (self : t) : t :=
  mk (snapshot_every self) (keep_snapshots self) true.

Definition should_snapshot (self : t) (sequence_nr : Z) : bool :=
  match snapshot_every self with
  | Some every =>
      if 0 <? every then (0 <? sequence_nr) && (sequence_nr `mod` every =? 0) else false
  | None => false
  end.
End RetentionCriteria.

Module PersistFailureBackoff.
Record t := mk { retry_delay_millis : Z; max_retries : nat }.

Definition disabled : t := mk 0 0.
Definition fixed (retry_delay : Z) (max_retries : nat) : t :=
  mk (duration_millis retry_delay) max_retries.
Definition is_enabled (self : t) : bool := (0 <? max_retries self)%nat.
End PersistFailureBackoff.

(** The retry loop of the [*_with_backoff] methods: a failure is signalled with its
    attempt number, a failing signal handler ends the loop, and the last failure is
    returned once [retries] further attempts are used up. *)
Fixpoint retry_loop {St A} (write : op St DurableError A)
    (signal : nat → DurableError → DurableResult unit) (retries attempt : nat) :
    op St DurableError A := fun st =>
  match write st with
  | (st, Ok a) => (st, Ok a)
  | (st, Err e) =>
      match signal attempt e with
      | Err e' => (st, Err e')
      | Ok _ =>
          match retries with
          | O => (st, Err e)
          | S retries => retry_loop write signal retries (S attempt) st
          end
      end
  end.

(** Something every failed attempt keeps holds when the loop gives up, and when it
    succeeds it does so by one attempt from such a state. *)
Lemma retry_loop_inv {St A} (write : op St DurableError A) signal retries attempt
    (P : St → Prop) st st' r :
  (∀ s s' e, P s → write s = (s', Err e) → P s') → P st →
  retry_loop write signal retries attempt st = (st', r) →
  (∃ s a, P s ∧ write s = (st', Ok a) ∧ r = Ok a) ∨ (P st' ∧ ∃ e, r = Err e).
Proof.
  intros Herr. revert attempt st. induction retries as [|n IH]; intros attempt st HP; simpl.
  - destruct (write st) as [s1 [a|e]] eqn:Hw; [intros [= <- <-]; left; eauto|].
    destruct (signal attempt e); intros [= <- <-]; right; eauto.
  - destruct (write st) as [s1 [a|e]] eqn:Hw; [intros [= <- <-]; left; eauto|].
    destruct (signal attempt e); [|intros [= <- <-]; right; eauto].
    apply IH. by eapply Herr.
Qed.

(** ** Properties *)

Lemma validate_part_ok name value :
  validate_persistence_id_part name value = Ok tt ↔
  value ≠ "" ∧ str_contains "|"%char value = false.
Proof.
  unfold validate_persistence_id_part, str_is_empty.
  destruct value as [|a s]; [naive_solver|].
  destruct (str_contains "|"%char (String a s)); naive_solver.
Qed.

(** Persistence ids of entities are unambiguous: an id is built exactly when both
    parts are non-empty and free of the separator, it splits back into those parts,
    and two entities never share one. *)
Theorem persistence_id_roundtrip (et eid et' eid' : string) (pid : PersistenceId.t) :
  (is_ok (persistence_id_of et eid) = true ↔
     (et ≠ "" ∧ str_contains "|"%char et = false) ∧
     (eid ≠ "" ∧ str_contains "|"%char eid = false)) ∧
  (persistence_id_of et eid = Ok pid →
     PersistenceId.entity_parts pid = Some (et, eid) ∧
     (persistence_id_of et' eid' = Ok pid → et' = et ∧ eid' = eid)).
Proof.
  assert (∀ t e p, persistence_id_of t e = Ok p → str_contains "|"%char t = false ∧
    PersistenceId.as_str p = t +:+ String "|"%char e) as Hof.
  { intros t e p. unfold persistence_id_of.
    destruct (validate_persistence_id_part "entity_type" t) as [[]|] eqn:Ht; [|done]. simpl.
    destruct (validate_persistence_id_part "entity_id" e) as [[]|]; [|done]. simpl.
    intros [= <-]. apply validate_part_ok in Ht as [_ Ht]. done. }
  split.
  - rewrite <-(validate_part_ok "entity_type" et), <-(validate_part_ok "entity_id" eid).
    unfold persistence_id_of.
    destruct (validate_persistence_id_part "entity_type" et) as [[]|]; simpl; [|naive_solver].
    destruct (validate_persistence_id_part "entity_id" eid) as [[]|]; simpl; naive_solver.
  - intros [Hc Hp]%Hof. unfold PersistenceId.entity_parts. rewrite Hp.
    rewrite split_once_app by done. split; [done|].
    intros [Hc' Hp']%Hof. rewrite Hp' in Hp.
    apply (f_equal (split_once "|"%char)) in Hp. rewrite !split_once_app in Hp by done.
    by injection Hp as -> ->.
Qed.
