(* ===== verification/DurableState.v ===== *)
(** * Durable state: [rakka-persistence/src/store.rs], [memory.rs] and [actor.rs]

    The revision-fenced state store as an interface with laws, the in-memory store
    that keeps them, and the durable actor runtime that recovers from such a store
    and commits through it.  At the end, programs: methods that await a store, with every
    call a constructor. *)

From S2P Require Import Prelude Actors Persistence.

(** ** The store interface

    The trait [DurableStateStore<S>] over a store state [St].  Operations may fail
    transiently, so all of them thread the state. *)

Record DurableStateStore (St S : Type) := {
  backend_name : string;
  load : St → PersistenceId.t → St * DurableResult (option (StateRecord.t S));
  compare_and_set : St → PersistenceId.t → Z → S → St * DurableResult (StateRecord.t S);
  delete_record : St → PersistenceId.t → Z → St * DurableResult Z;
}.
Arguments backend_name {St S}.
Arguments load {St S}.
Arguments compare_and_set {St S}.
Arguments delete_record {St S}.

Definition record_revision {S} (o : option (StateRecord.t S)) : Z :=
  default Revision_INITIAL (StateRecord.revision <$> o).

(** What the clients rely on, through the record [view] shows for each id: a load
    returns it, a write or delete that succeeds was given its revision, a failure of
    any kind changes nothing, and ids do not interfere. *)
Class DurableStoreLaws {St S} (store : DurableStateStore St S)
    (view : St → PersistenceId.t → option (StateRecord.t S)) : Prop := {
  law_load st st' pid r :
    load store st pid = (st', r) →
    (∀ pid', view st' pid' = view st pid') ∧ (∀ o, r = Ok o → o = view st pid);
  law_cas_ok st st' pid rev s rec :
    compare_and_set store st pid rev s = (st', Ok rec) →
    record_revision (view st pid) = rev ∧ rec = StateRecord.new s (Revision_next rev) ∧
    view st' pid = Some rec ∧ ∀ pid', pid' ≠ pid → view st' pid' = view st pid';
  law_cas_err st st' pid rev s e :
    compare_and_set store st pid rev s = (st', Err e) → ∀ pid', view st' pid' = view st pid';
  law_delete_ok st st' pid rev r :
    delete_record store st pid rev = (st', Ok r) →
    record_revision (view st pid) = rev ∧ r = Revision_INITIAL ∧
    view st' pid = None ∧ ∀ pid', pid' ≠ pid → view st' pid' = view st pid';
  law_delete_err st st' pid rev e :
    delete_record store st pid rev = (st', Err e) → ∀ pid', view st' pid' = view st pid';
}.

(** ** The in-memory store *)

Module InMemoryDurableStateStore.
Section memory.
Context {S : Type}.

Abbreviation records := (gmap PersistenceId.t (StateRecord.t S)).

Definition new : records := ∅.
Definition len (self : records) : nat := size self.

Definition load (self : records) (persistence_id : PersistenceId.t) :
    records * DurableResult (option (StateRecord.t S)) :=
  (self, Ok (self !! persistence_id)).

Definition compare_and_set (self : records) (persistence_id : PersistenceId.t)
    (expected_revision : Z) (state : S) : records * DurableResult (StateRecord.t S) :=
  let actual_revision := record_revision (self !! persistence_id) in
  if decide (actual_revision ≠ expected_revision) then
    (self, Err (RevisionConflict persistence_id expected_revision actual_revision))
  else
    let record := StateRecord.new state (Revision_next expected_revision) in
    (<[persistence_id := record]> self, Ok record).

Definition delete (self : records) (persistence_id : PersistenceId.t) (expected_revision : Z) :
    records * DurableResult Z :=
  let actual_revision := record_revision (self !! persistence_id) in
  if decide (actual_revision ≠ expected_revision) then
    (self, Err (RevisionConflict persistence_id expected_revision actual_revision))
  else (base.delete persistence_id self, Ok Revision_INITIAL).

Definition persistence_ids (self : records) : list PersistenceId.t := btree_keys self.

Definition store : DurableStateStore records S := {|
  DurableState.backend_name := "memory";
  DurableState.load := load;
  DurableState.compare_and_set := compare_and_set;
  DurableState.delete_record := delete;
|}.
End memory.
End InMemoryDurableStateStore.

(** The view of the in-memory store is its map. *)
Definition memory_view {S} (self : gmap PersistenceId.t (StateRecord.t S))
    (pid : PersistenceId.t) : option (StateRecord.t S) := self !! pid.

#[global] Instance memory_store_laws {S} :
  DurableStoreLaws (InMemoryDurableStateStore.store (S := S)) memory_view.
Proof.
  split; simpl; unfold memory_view, InMemoryDurableStateStore.load,
    InMemoryDurableStateStore.compare_and_set, InMemoryDurableStateStore.delete.
  - intros st st' pid r [= <- <-]. split; [done|]. by intros o [= <-].
  - intros st st' pid rev s rec. case_decide as Hr; [done|]. intros [= <- <-].
    rewrite lookup_insert_eq. split_and!; [lia|done|done|].
    intros pid' Hne. by rewrite lookup_insert_ne.
  - intros st st' pid rev s e. case_decide; by intros [= <- <-].
  - intros st st' pid rev r. case_decide as Hr; [done|]. intros [= <- <-].
    rewrite lookup_delete_eq. split_and!; [lia|done|done|].
    intros pid' Hne. by rewrite lookup_delete_ne.
  - intros st st' pid rev e. case_decide; by intros [= <- <-].
Qed.

(** ** The durable actor runtime

    The actor's own code (command handler, signal handler, empty state) is an
    argument, given as functions of what the runtime passes them. *)

Inductive DurableStateSignal :=
| RecoveryStarted (persistence_id : PersistenceId.t)
| RecoveryCompleted (persistence_id : PersistenceId.t) (revision : Z)
| PersistFailed (persistence_id : PersistenceId.t) (attempt : nat) (error_code message : string)
| DeleteFailed (persistence_id : PersistenceId.t) (attempt : nat) (error_code message : string)
| PreRestart (persistence_id : PersistenceId.t)
| PostStop (persistence_id : PersistenceId.t).

Inductive DurableStateChange (S : Type) :=
| NoChange
| Unhandled
| Persist (state : S)
| Delete.
Arguments NoChange {S}.
Arguments Unhandled {S}.
Arguments Persist {S}.
Arguments Delete {S}.

(** Side effects are closures; [X] names them. *)
Module DurableEffect.
Record t (S X : Type) := mk {
  state_change : DurableStateChange S;
  stop : bool;
  side_effects : list X;
}.
Arguments mk {S X}.
Arguments state_change {S X}.
Arguments stop {S X}.
Arguments side_effects {S X}.
End DurableEffect.

Module DurableActor.
Record t (S : Type) := mk {
  persistence_id : PersistenceId.t;
  empty_state : S;
  persist_failure_backoff : PersistFailureBackoff.t;
  on_signal : DurableStateSignal → DurableResult unit;
}.
Arguments persistence_id {S}.
Arguments empty_state {S}.
Arguments persist_failure_backoff {S}.
Arguments on_signal {S}.
End DurableActor.

Module DurableActorRuntime.
Section runtime.
Context {St S X : Type}.
Context (store_ops : DurableStateStore St S) (actor : DurableActor.t S).

Record t := mk { store : St; record : option (StateRecord.t S) }.

Abbreviation rop := (op t DurableError).

Let pid := DurableActor.persistence_id actor.
Let on_signal := DurableActor.on_signal actor.

Definition new (st : St) : t := mk st None.

(** A store operation on [self.store]. *)
Definition on_store {A} (f : St → St * DurableResult A) : rop A := fun self =>
  let (st, r) := f (store self) in (mk st (record self), r).

Definition set_record (r : StateRecord.t S) : rop unit := fun self =>
  (mk (store self) (Some r), Ok tt).

Definition recover : rop unit :=
  do! _ := op_lift (on_signal (RecoveryStarted pid)) in
  do! loaded := on_store (fun st => load store_ops st pid) in
  let record := default (StateRecord.missing (DurableActor.empty_state actor)) loaded in
  do! _ := set_record record in
  op_lift (on_signal (RecoveryCompleted pid (StateRecord.revision record))).

Definition compare_and_set_with_backoff (expected_revision : Z) (state : S) :
    rop (StateRecord.t S) :=
  retry_loop (on_store (fun st => compare_and_set store_ops st pid expected_revision state))
    (fun attempt error => on_signal (PersistFailed pid attempt (DurableError_code error)
                                       (DurableError_to_string error)))
    (PersistFailureBackoff.max_retries (DurableActor.persist_failure_backoff actor)) 0.

Definition delete_with_backoff (expected_revision : Z) : rop Z :=
  retry_loop (on_store (fun st => delete_record store_ops st pid expected_revision))
    (fun attempt error => on_signal (DeleteFailed pid attempt (DurableError_code error)
                                       (DurableError_to_string error)))
    (PersistFailureBackoff.max_retries (DurableActor.persist_failure_backoff actor)) 0.

(** The action for the actor cell, and the side effects that ran. *)
Definition apply_effect (effect : DurableEffect.t S X) : rop (ActorAction * list X) := fun self =>
  match record self with
  | None => (self, Err (NotRecovered pid))
  | Some current =>
      let current_revision := StateRecord.revision current in
      (do! _ :=
         (match DurableEffect.state_change effect with
          | NoChange | Unhandled => op_ret tt
          | Persist state =>
              do! record := compare_and_set_with_backoff current_revision state in
              set_record record
          | Delete =>
              do! _ := delete_with_backoff current_revision in
              set_record (StateRecord.missing (DurableActor.empty_state actor))
          end) in
       op_ret (if DurableEffect.stop effect then Stop else Continue,
               DurableEffect.side_effects effect)) self
  end.

(** [started] and [restarted]. *)
Definition started : rop ActorAction := do! _ := recover in op_ret Continue.

Definition restarted : rop ActorAction :=
  do! _ := op_lift (on_signal (PreRestart pid)) in
  do! _ := recover in op_ret Continue.

(** [handle]: the actor's [handle_command] sees the revision (through its context), the
    state and the message, and chooses the effect. *)
Definition handle {C} (handle_command : Z → S → C → DurableResult (DurableEffect.t S X)) (msg : C) :
    rop (ActorAction * list X) := fun self =>
  match record self with
  | None => (self, Err (NotRecovered pid))
  | Some record =>
      (do! effect := op_lift (handle_command (StateRecord.revision record)
                                (StateRecord.state record) msg) in
       apply_effect effect) self
  end.

Definition stopped : rop ActorAction :=
  do! _ := op_lift (on_signal (PostStop pid)) in op_ret Continue.
End runtime.
Arguments t : clear implicits.
End DurableActorRuntime.

(** ** Properties *)

Section properties.
Context {St S X : Type}.
Context (ops : DurableStateStore St S) (view : St → PersistenceId.t → option (StateRecord.t S)).
Context `{!DurableStoreLaws ops view} (actor : DurableActor.t S).
Abbreviation rt := (DurableActorRuntime.t St S).
Implicit Types self : rt.
Let pid := DurableActor.persistence_id actor.

(** The record the store would recover. *)
Definition stored_record (st : St) : StateRecord.t S :=
  default (StateRecord.missing (DurableActor.empty_state actor)) (view st pid).

Definition in_sync self : Prop :=
  DurableActorRuntime.record self = Some (stored_record (DurableActorRuntime.store self)).

(** The two states show the same records. *)
Definition same_view (st st' : St) : Prop := ∀ pid', view st' pid' = view st pid'.

(** What a failed or retried write leaves alone. *)
Definition untouched self self' : Prop :=
  DurableActorRuntime.record self' = DurableActorRuntime.record self ∧
  same_view (DurableActorRuntime.store self) (DurableActorRuntime.store self').

Lemma cas_backoff rev s self self' r :
  DurableActorRuntime.compare_and_set_with_backoff ops actor rev s self = (self', r) →
  (∃ rec, r = Ok rec ∧ rec = StateRecord.new s (Revision_next rev) ∧
     record_revision (view (DurableActorRuntime.store self) pid) = rev ∧
     view (DurableActorRuntime.store self') pid = Some rec ∧
     DurableActorRuntime.record self' = DurableActorRuntime.record self ∧
     ∀ pid', pid' ≠ pid → view (DurableActorRuntime.store self') pid' =
                          view (DurableActorRuntime.store self) pid') ∨
  (untouched self self' ∧ ∃ e, r = Err e).
Proof.
  intros Hrun. apply (retry_loop_inv _ _ _ _ (untouched self)) in Hrun.
  - destruct Hrun as [(s1 & a & [Hr Hv] & Hw & ->)|[Hu [e ->]]]; [left|right; eauto].
    unfold DurableActorRuntime.on_store in Hw.
    destruct (compare_and_set ops _ _ _ _) as [st1 r1] eqn:Hcas. simplify_eq/=.
    apply law_cas_ok in Hcas as (Hrev & -> & Hview & Hframe).
    eexists. split_and!; try done.
    + by rewrite <-Hv.
    + intros pid' Hne. by rewrite Hframe, Hv.
  - intros s0 s1 e [Hr Hv]. unfold DurableActorRuntime.on_store.
    destruct (compare_and_set ops _ _ _ _) as [st1 r1] eqn:Hcas. intros Heq. simplify_eq/=.
    split; [done|]. intros pid'. simpl. by rewrite (law_cas_err _ _ _ _ _ _ Hcas pid').
  - by split.
Qed.

Lemma delete_backoff rev self self' r :
  DurableActorRuntime.delete_with_backoff ops actor rev self = (self', r) →
  (r = Ok Revision_INITIAL ∧
     record_revision (view (DurableActorRuntime.store self) pid) = rev ∧
     view (DurableActorRuntime.store self') pid = None ∧
     DurableActorRuntime.record self' = DurableActorRuntime.record self ∧
     ∀ pid', pid' ≠ pid → view (DurableActorRuntime.store self') pid' =
                          view (DurableActorRuntime.store self) pid') ∨
  (untouched self self' ∧ ∃ e, r = Err e).
Proof.
  intros Hrun. apply (retry_loop_inv _ _ _ _ (untouched self)) in Hrun.
  - destruct Hrun as [(s1 & a & [Hr Hv] & Hw & ->)|[Hu [e ->]]]; [left|right; eauto].
    unfold DurableActorRuntime.on_store in Hw.
    destruct (delete_record ops _ _ _) as [st1 r1] eqn:Hdel. simplify_eq/=.
    apply law_delete_ok in Hdel as (Hrev & -> & Hview & Hframe).
    split_and!; try done.
    + by rewrite <-Hv.
    + intros pid' Hne. by rewrite Hframe, Hv.
  - intros s0 s1 e [Hr Hv]. unfold DurableActorRuntime.on_store.
    destruct (delete_record ops _ _ _) as [st1 r1] eqn:Hdel. intros Heq. simplify_eq/=.
    split; [done|]. intros pid'. simpl. by rewrite (law_delete_err _ _ _ _ _ Hdel pid').
  - by split.
Qed.

(** The record a state change commits. *)
Definition committed (change : DurableStateChange S) (before : option (StateRecord.t S))
    (revision : Z) : option (StateRecord.t S) :=
  match change with
  | NoChange | Unhandled => before
  | Persist s => Some (StateRecord.new s (Revision_next revision))
  | Delete => None
  end.

(** C8. Commands commit atomically: an effect that succeeds leaves exactly its state
    change in the store - fenced by the revision the actor had read - keeps the
    actor's record equal to it and then runs its side effects; one that fails, after
    all its retries or because a signal handler refused, changes neither store nor
    record.  Either way no other actor's record is touched. *)
Theorem durable_effect_atomic (effect : DurableEffect.t S X) (self self' : rt)
    (current : StateRecord.t S) (res : DurableResult (ActorAction * list X)) :
  DurableActorRuntime.record self = Some current →
  DurableActorRuntime.apply_effect ops actor effect self = (self', res) →
  (∀ pid', pid' ≠ pid → view (DurableActorRuntime.store self') pid' =
                        view (DurableActorRuntime.store self) pid') ∧
  match res with
  | Err _ => untouched self self'
  | Ok (action, ran) =>
      ran = DurableEffect.side_effects effect ∧
      view (DurableActorRuntime.store self') pid =
        committed (DurableEffect.state_change effect)
          (view (DurableActorRuntime.store self) pid) (StateRecord.revision current) ∧
      (in_sync self → in_sync self')
  end.
Proof.
  intros Hcur. unfold DurableActorRuntime.apply_effect. rewrite Hcur. unfold op_bind.
  destruct (DurableEffect.state_change effect) as [| |s|] eqn:Hch; simpl.
  - intros [= <- <-]. done.
  - intros [= <- <-]. done.
  - destruct (DurableActorRuntime.compare_and_set_with_backoff _ _ _ _ self) as [s1 r] eqn:Hcas.
    apply cas_backoff in Hcas as [(rec & -> & Hrec & Hrev & Hv & Hr & Hf)|[Hu [e ->]]].
    + intros [= <- <-]. simpl. split_and!; [done|done|by rewrite Hv, Hrec|].
      intros _. unfold in_sync, stored_record. simpl. by rewrite Hv.
    + intros [= <- <-]. split; [|done]. intros pid' _. apply Hu.
  - destruct (DurableActorRuntime.delete_with_backoff _ _ _ self) as [s1 r] eqn:Hdel.
    apply delete_backoff in Hdel as [(-> & Hrev & Hv & Hr & Hf)|[Hu [e ->]]].
    + intros [= <- <-]. simpl. split_and!; [done|done|done|].
      intros _. unfold in_sync, stored_record. simpl. by rewrite Hv.
    + intros [= <- <-]. split; [|done]. intros pid' _. apply Hu.
Qed.

(** Recovery and fencing: a start or restart that succeeds makes the actor's
    record the stored one (or the empty state at the initial revision) without
    writing anything; and an actor whose record is behind the store can neither
    overwrite nor delete - the command fails and the store keeps its record. *)
Theorem recovery_and_fencing (self self' : rt) (effect : DurableEffect.t S X) :
  (∀ action, DurableActorRuntime.started ops actor self = (self', Ok action) →
     in_sync self' ∧ same_view (DurableActorRuntime.store self) (DurableActorRuntime.store self')) ∧
  (∀ current res, DurableActorRuntime.record self = Some current →
     StateRecord.revision current ≠
       record_revision (view (DurableActorRuntime.store self) pid) →
     DurableEffect.state_change effect ≠ NoChange →
     DurableEffect.state_change effect ≠ Unhandled →
     DurableActorRuntime.apply_effect ops actor effect self = (self', res) →
     is_ok res = false ∧ untouched self self').
Proof.
  split.
  - intros action Hrun. unfold DurableActorRuntime.started in Hrun.
    apply op_bind_ok in Hrun as (s1 & [] & Hrec & Hrun). injection Hrun as <- _.
    unfold DurableActorRuntime.recover in Hrec.
    apply op_bind_ok in Hrec as (s2 & [] & Hsig & Hrec). injection Hsig as <- _.
    apply op_bind_ok in Hrec as (s3 & o & Hload & Hrec).
    apply op_bind_ok in Hrec as (s4 & [] & Hset & Hrec). injection Hset as <-.
    injection Hrec as <- _. unfold DurableActorRuntime.on_store in Hload.
    destruct (load ops _ _) as [st r] eqn:Hl. simplify_eq/=.
    apply law_load in Hl as [Hv Ho]. rewrite (Ho o eq_refl).
    split; [|done]. unfold in_sync, stored_record. simpl. by rewrite Hv.
  - intros current res Hcur Hne Hn1 Hn2. unfold DurableActorRuntime.apply_effect, op_bind.
    rewrite Hcur. destruct (DurableEffect.state_change effect) as [| |s|]; [done|done|..].
    + destruct (DurableActorRuntime.compare_and_set_with_backoff _ _ _ _ self) as [s1 r] eqn:Hcas.
      apply cas_backoff in Hcas as [(rec & -> & _ & Hrev & _)|[Hu [e ->]]]; [congruence|].
      by intros [= <- <-].
    + destruct (DurableActorRuntime.delete_with_backoff _ _ _ self) as [s1 r] eqn:Hdel.
      apply delete_backoff in Hdel as [(-> & Hrev & _)|[Hu [e ->]]]; [congruence|].
      by intros [= <- <-].
Qed.

End properties.

(** Deleting restarts the revisions: a writer that read the first revision of a
    record, which another one then deleted and created anew, still passes the fence
    and overwrites the new record - the revisions of an id are not monotonic across
    a delete. *)
Theorem delete_restarts_revisions {S : Type} (records : gmap PersistenceId.t (StateRecord.t S))
    (pid : PersistenceId.t) (old new stale : S) :
  records !! pid = Some (StateRecord.new old 1) →
  let deleted := (InMemoryDurableStateStore.delete records pid 1).1 in
  let recreated := (InMemoryDurableStateStore.compare_and_set deleted pid Revision_INITIAL new).1 in
  InMemoryDurableStateStore.load recreated pid =
    (recreated, Ok (Some (StateRecord.new new 1))) ∧
  InMemoryDurableStateStore.compare_and_set recreated pid 1 stale =
    (<[pid := StateRecord.new stale 2]> recreated, Ok (StateRecord.new stale 2)).
Proof.
  intros Hr deleted recreated.
  assert (deleted = delete pid records) as Hdel.
  { subst deleted. unfold InMemoryDurableStateStore.delete. by rewrite Hr. }
  assert (recreated = <[pid := StateRecord.new new 1]> deleted) as ->.
  { subst recreated. unfold InMemoryDurableStateStore.compare_and_set.
    by rewrite Hdel, lookup_delete_eq. }
  unfold InMemoryDurableStateStore.load, InMemoryDurableStateStore.compare_and_set.
  by rewrite lookup_insert_eq.
Qed.

(** ** Concrete runs *)

Definition counter_pid : PersistenceId.t := PersistenceId.new "counter|1".
Definition counter : DurableActor.t Z :=
  DurableActor.mk Z counter_pid 0 PersistFailureBackoff.disabled (fun _ => Ok tt).
Definition counter_records : gmap PersistenceId.t (StateRecord.t Z) :=
  {[counter_pid := StateRecord.new 5 1]}.
Definition counter_runtime (cached : Z) : DurableActorRuntime.t _ Z :=
  DurableActorRuntime.mk counter_records (Some (StateRecord.new 5 cached)).
Definition increment : DurableEffect.t Z string := DurableEffect.mk (Persist 6) false ["reply"].
Definition counter_apply (cached : Z) :=
  DurableActorRuntime.apply_effect InMemoryDurableStateStore.store counter increment
    (counter_runtime cached).

(** A command of an actor that is in step commits. *)
Lemma durable_effect_atomic_witness :
  (counter_apply 1).2 = Ok (Continue, ["reply"]) ∧
  DurableActorRuntime.store (counter_apply 1).1 !! counter_pid = Some (StateRecord.new 6 2).
Proof.
  split; [vm_compute; reflexivity|].
  destruct (durable_effect_atomic InMemoryDurableStateStore.store memory_view counter increment
              (counter_runtime 1) (counter_apply 1).1 (StateRecord.new 5 1) (counter_apply 1).2)
    as [_ Hres].
  - reflexivity.
  - apply surjective_pairing.
  - replace (counter_apply 1).2 with (@Ok DurableError _ (Continue, ["reply"])) in Hres
      by (vm_compute; reflexivity).
    exact (proj1 (proj2 Hres)).
Defined.

(** One that is behind the store is refused. *)
Lemma recovery_and_fencing_witness :
  is_ok (counter_apply 0).2 = false ∧ untouched memory_view (counter_runtime 0) (counter_apply 0).1.
Proof.
  destruct (recovery_and_fencing InMemoryDurableStateStore.store memory_view counter
              (counter_runtime 0) (counter_apply 0).1 increment) as [_ Hfence].
  apply (Hfence (StateRecord.new 5 0) (counter_apply 0).2).
  - reflexivity.
  - vm_compute. discriminate.
  - discriminate.
  - discriminate.
  - apply surjective_pairing.
Defined.

Lemma delete_restarts_revisions_witness :
  let deleted := (InMemoryDurableStateStore.delete counter_records counter_pid 1).1 in
  let recreated := (InMemoryDurableStateStore.compare_and_set deleted counter_pid 0 100).1 in
  (InMemoryDurableStateStore.compare_and_set recreated counter_pid 1 6).2 = Ok (StateRecord.new 6 2).
Proof.
  cbv zeta.
  destruct (delete_restarts_revisions counter_records counter_pid 5 100 6) as [_ Hcas].
  - reflexivity.
  - exact (f_equal snd Hcas).
Defined.

(** ** Programs that await a store

    A method that awaits a durable store more than once, or awaits something else in between,
    is a [program]: every store call, and every delivery to another entity, is a constructor
    whose continuation takes the answer.  So what other processes do between two awaits is not
    lost: the files that run programs of many processes over one store interleave them at these
    points, and [run] below runs one alone. *)

(** [C] are the commands that are delivered and [R] the replies. *)

Inductive program (S C R A : Type) :=
| Done (a : A)
| Load (persistence_id : PersistenceId.t)
    (k : DurableResult (option (StateRecord.t S)) → program S C R A)
| CompareAndSet (persistence_id : PersistenceId.t) (expected_revision : Z) (next : S)
    (k : DurableResult (StateRecord.t S) → program S C R A)
| Deliver (command : C) (k : R → program S C R A).
Arguments Done {S C R A}.
Arguments Load {S C R A}.
Arguments CompareAndSet {S C R A}.
Arguments Deliver {S C R A}.

Fixpoint program_bind {S C R A B} (p : program S C R A) (f : A → program S C R B) : program S C R B :=
  match p with
  | Done a => f a
  | Load pid k => Load pid (fun r => program_bind (k r) f)
  | CompareAndSet pid expected next k => CompareAndSet pid expected next (fun r => program_bind (k r) f)
  | Deliver c k => Deliver c (fun r => program_bind (k r) f)
  end.

(** A program that has its store and its deliveries to itself. *)
Fixpoint run {St D S C R A} (ops : DurableStateStore St S) (deliver : D → C → D * R)
    (p : program S C R A) (st : St) (d : D) : St * D * A :=
  match p with
  | Done a => (st, d, a)
  | Load pid k => let '(st, r) := load ops st pid in run ops deliver (k r) st d
  | CompareAndSet pid expected next k =>
      let '(st, r) := compare_and_set ops st pid expected next in run ops deliver (k r) st d
  | Deliver c k => let '(d, r) := deliver d c in run ops deliver (k r) st d
  end.
