(* ===== verification/Journal.v ===== *)
(** * Event journals and snapshot stores: [rakka-persistence/src/store.rs] and [memory.rs]

    The two interfaces an event-sourced actor is built on, with the laws it relies
    on, and the in-memory implementations that keep them. *)

From S2P Require Import Prelude Persistence.

(** ** Interfaces

    Operations thread the state because a backend may fail transiently. *)

Record EventJournal (J E : Type) := {
  append : J → PersistenceId.t → Z → list (TaggedEvent.t E) →
    J * DurableResult (list (EventRecord.t E));
  replay : J → PersistenceId.t → Z → Z → J * DurableResult (list (EventRecord.t E));
  delete_to : J → PersistenceId.t → Z → J * DurableResult unit;
  highest_sequence_nr : J → PersistenceId.t → J * DurableResult Z;
}.
Arguments append {J E}.
Arguments replay {J E}.
Arguments delete_to {J E}.
Arguments highest_sequence_nr {J E}.

Record SnapshotStore (N S : Type) := {
  save : N → PersistenceId.t → Z → S → N * DurableResult (SnapshotRecord.t S);
  load_snapshot : N → PersistenceId.t → SnapshotSelection.t →
    N * DurableResult (option (SnapshotRecord.t S));
  list_snapshots : N → PersistenceId.t → SnapshotSelection.t →
    N * DurableResult (list SnapshotMetadata.t);
  delete_snapshots : N → PersistenceId.t → SnapshotSelection.t → N * DurableResult nat;
}.
Arguments save {N S}.
Arguments load_snapshot {N S}.
Arguments list_snapshots {N S}.
Arguments delete_snapshots {N S}.

(** ** The in-memory journal *)

Module JournalState.
Record t (E : Type) := mk { highest_sequence_nr : Z; events : list (EventRecord.t E) }.
Arguments mk {E}.
Arguments highest_sequence_nr {E}.
Arguments events {E}.

Definition default {E} : t E := mk SequenceNr_INITIAL [].
End JournalState.

Module InMemoryEventJournal.
Section journal.
Context {E : Type}.
Abbreviation records := (gmap PersistenceId.t (JournalState.t E)).

(** The loop of [append]: the clock is read once per event, so [now] gives the reading
    for each sequence number. *)
Fixpoint append_events (now : Z → Z) (persistence_id : PersistenceId.t) (highest : Z)
    (events : list (TaggedEvent.t E)) : Z * list (EventRecord.t E) :=
  match events with
  | [] => (highest, [])
  | tagged :: events =>
      let highest := SequenceNr_next highest in
      let metadata := EventMetadata.with_tags
        (EventMetadata.new persistence_id highest (now highest)) (TaggedEvent.tags tagged) in
      let record := EventRecord.new (TaggedEvent.event tagged) metadata in
      let (last, appended) := append_events now persistence_id highest events in
      (last, record :: appended)
  end.

(** [entry(id).or_default()] creates the entry also when the append is refused. *)
Definition append (now : Z → Z) (self : records) (persistence_id : PersistenceId.t)
    (expected_sequence_nr : Z) (events : list (TaggedEvent.t E)) :
    records * DurableResult (list (EventRecord.t E)) :=
  let state := default JournalState.default (self !! persistence_id) in
  let actual_sequence_nr := JournalState.highest_sequence_nr state in
  if decide (actual_sequence_nr ≠ expected_sequence_nr) then
    (<[persistence_id := state]> self,
     Err (SequenceConflict persistence_id expected_sequence_nr actual_sequence_nr))
  else
    let (last, appended) := append_events now persistence_id actual_sequence_nr events in
    (<[persistence_id := JournalState.mk last (JournalState.events state ++ appended)]> self,
     Ok appended).

Definition replay (self : records) (persistence_id : PersistenceId.t) (from to : Z) :
    records * DurableResult (list (EventRecord.t E)) :=
  (self, Ok (match self !! persistence_id with
             | None => []
             | Some state =>
                 filter (fun record => from <= EventRecord.sequence_nr record ∧
                                       EventRecord.sequence_nr record <= to)
                   (JournalState.events state)
             end)).

Definition delete_to (self : records) (persistence_id : PersistenceId.t) (to : Z) :
    records * DurableResult unit :=
  match self !! persistence_id with
  | None => (self, Ok tt)
  | Some state =>
      (<[persistence_id := JournalState.mk (JournalState.highest_sequence_nr state)
           (filter (fun record => to < EventRecord.sequence_nr record)
              (JournalState.events state))]> self, Ok tt)
  end.

Definition highest_sequence_nr (self : records) (persistence_id : PersistenceId.t) :
    records * DurableResult Z :=
  (self, Ok (match self !! persistence_id with
             | None => SequenceNr_INITIAL
             | Some state => JournalState.highest_sequence_nr state
             end)).

Definition persistence_ids (self : records) : list PersistenceId.t := btree_keys self.

Definition events_by_tag (self : records) (tag : string) : list (EventRecord.t E) :=
  filter (fun record => tag ∈ EventMetadata.tags (EventRecord.metadata record))
    (concat (JournalState.events <$> btree_values self)).

Definition len (self : records) : nat :=
  foldr (fun state total => (length (JournalState.events state) + total)%nat) 0%nat
    (btree_values self).

Definition journal (now : Z → Z) : EventJournal records E := {|
  Journal.append := append now;
  Journal.replay := replay;
  Journal.delete_to := delete_to;
  Journal.highest_sequence_nr := highest_sequence_nr;
|}.
End journal.
End InMemoryEventJournal.

(** ** The in-memory snapshot store *)

(** The order of [sort_snapshots_newest_first]. *)
Definition newest_first {S} (left right : SnapshotRecord.t S) : Prop :=
  let l := SnapshotRecord.metadata left in
  let r := SnapshotRecord.metadata right in
  SnapshotMetadata.sequence_nr r < SnapshotMetadata.sequence_nr l ∨
  (SnapshotMetadata.sequence_nr r = SnapshotMetadata.sequence_nr l ∧
   SnapshotMetadata.timestamp_millis r <= SnapshotMetadata.timestamp_millis l).

#[global] Instance newest_first_dec {S} : RelDecision (@newest_first S).
Proof. intros l r. unfold newest_first. apply _. Defined.

Definition sort_snapshots_newest_first {S} (snapshots : list (SnapshotRecord.t S)) :
    list (SnapshotRecord.t S) :=
  merge_sort newest_first snapshots.

(** What [save] does to the snapshots of an id. *)
Definition save_list {S} (record : SnapshotRecord.t S) (snapshots : list (SnapshotRecord.t S)) :
    list (SnapshotRecord.t S) :=
  sort_snapshots_newest_first
    (filter (fun existing => SnapshotRecord.sequence_nr existing ≠ SnapshotRecord.sequence_nr record)
       snapshots ++ [record]).

Module InMemorySnapshotStore.
Section snapshots.
Context {S : Type}.
Abbreviation records := (gmap PersistenceId.t (list (SnapshotRecord.t S))).

Definition save (now : Z → Z) (self : records) (persistence_id : PersistenceId.t)
    (sequence_nr : Z) (snapshot : S) : records * DurableResult (SnapshotRecord.t S) :=
  let record := SnapshotRecord.new snapshot
    (SnapshotMetadata.new persistence_id sequence_nr (now sequence_nr)) in
  (<[persistence_id := save_list record (default [] (self !! persistence_id))]> self, Ok record).

Definition load (self : records) (persistence_id : PersistenceId.t)
    (selection : SnapshotSelection.t) : records * DurableResult (option (SnapshotRecord.t S)) :=
  (self, Ok (match self !! persistence_id with
             | None => None
             | Some snapshots =>
                 find_first (fun snapshot => SnapshotSelection.matches selection
                                               (SnapshotRecord.metadata snapshot)) snapshots
             end)).

Definition list_matching (self : records) (persistence_id : PersistenceId.t)
    (selection : SnapshotSelection.t) : records * DurableResult (list SnapshotMetadata.t) :=
  (self, Ok (match self !! persistence_id with
             | None => []
             | Some snapshots =>
                 SnapshotRecord.metadata <$>
                   filter (fun snapshot => SnapshotSelection.matches selection
                             (SnapshotRecord.metadata snapshot) = true) snapshots
             end)).

Definition delete (self : records) (persistence_id : PersistenceId.t)
    (selection : SnapshotSelection.t) : records * DurableResult nat :=
  match self !! persistence_id with
  | None => (self, Ok 0%nat)
  | Some snapshots =>
      let kept := filter (fun snapshot => SnapshotSelection.matches selection
                            (SnapshotRecord.metadata snapshot) = false) snapshots in
      let removed := (length snapshots - length kept)%nat in
      match kept with
      | [] => (base.delete persistence_id self, Ok removed)
      | _ => (<[persistence_id := kept]> self, Ok removed)
      end
  end.

Definition len (self : records) : nat :=
  foldr (fun snapshots total => (length snapshots + total)%nat) 0%nat (btree_values self).

Definition store (now : Z → Z) : SnapshotStore records S := {|
  Journal.save := save now;
  Journal.load_snapshot := load;
  Journal.list_snapshots := list_matching;
  Journal.delete_snapshots := delete;
|}.
End snapshots.
End InMemorySnapshotStore.

(** ** Laws *)

(** [recs] are the events [evs], numbered from [h + 1] on. *)
Definition numbered {E} (h : Z) (evs : list E) (recs : list (EventRecord.t E)) : Prop :=
  EventRecord.event <$> recs = evs ∧
  EventRecord.sequence_nr <$> recs = seqZ (h + 1) (Z.of_nat (length evs)).

(** A journal seen as the highest number it assigned to an id and the events it
    still holds. *)
Class EventJournalLaws {J E} (journal : EventJournal J E)
    (jview : J → PersistenceId.t → Z * list (EventRecord.t E)) : Prop := {
  law_append_ok j j' pid expected evs recs :
    append journal j pid expected evs = (j', Ok recs) →
    0 <= expected → expected + Z.of_nat (length evs) <= u64_max →
    (jview j pid).1 = expected ∧
    numbered expected (TaggedEvent.event <$> evs) recs ∧
    jview j' pid = (expected + Z.of_nat (length evs), (jview j pid).2 ++ recs);
  law_append_err j j' pid expected evs e :
    append journal j pid expected evs = (j', Err e) → jview j' pid = jview j pid;
  law_replay j j' pid from to r :
    replay journal j pid from to = (j', r) →
    jview j' pid = jview j pid ∧
    ∀ recs, r = Ok recs → recs = filter (fun rec => from <= EventRecord.sequence_nr rec ∧
                                                    EventRecord.sequence_nr rec <= to) (jview j pid).2;
  law_delete_to j j' pid to r :
    delete_to journal j pid to = (j', r) →
    jview j' pid = jview j pid ∨
    jview j' pid = ((jview j pid).1,
                    filter (fun rec => to < EventRecord.sequence_nr rec) (jview j pid).2);
}.

(** A snapshot store seen as the snapshots of an id, newest first. *)
Class SnapshotStoreLaws {N S} (snaps : SnapshotStore N S)
    (sview : N → PersistenceId.t → list (SnapshotRecord.t S)) : Prop := {
  law_save_ok n n' pid seq s rec :
    save snaps n pid seq s = (n', Ok rec) →
    ∃ ts, is_u64 ts ∧ rec = SnapshotRecord.new s (SnapshotMetadata.new pid seq ts) ∧
      sview n' pid = save_list rec (sview n pid);
  law_save_err n n' pid seq s e :
    save snaps n pid seq s = (n', Err e) → sview n' pid = sview n pid;
  law_load_snapshot n n' pid sel r :
    load_snapshot snaps n pid sel = (n', r) →
    sview n' pid = sview n pid ∧
    ∀ o, r = Ok o → o = find_first (fun snapshot => SnapshotSelection.matches sel
                          (SnapshotRecord.metadata snapshot)) (sview n pid);
  law_list_snapshots n n' pid sel r :
    list_snapshots snaps n pid sel = (n', r) →
    sview n' pid = sview n pid ∧
    ∀ l, r = Ok l → l = SnapshotRecord.metadata <$>
      filter (fun snapshot => SnapshotSelection.matches sel
                (SnapshotRecord.metadata snapshot) = true) (sview n pid);
  law_delete_snapshots n n' pid sel r :
    delete_snapshots snaps n pid sel = (n', r) →
    sview n' pid = sview n pid ∨
    sview n' pid = filter (fun snapshot => SnapshotSelection.matches sel
                             (SnapshotRecord.metadata snapshot) = false) (sview n pid);
}.

Definition memory_jview {E} (j : gmap PersistenceId.t (JournalState.t E)) (pid : PersistenceId.t) :
    Z * list (EventRecord.t E) :=
  let state := default JournalState.default (j !! pid) in
  (JournalState.highest_sequence_nr state, JournalState.events state).

Definition memory_sview {S} (n : gmap PersistenceId.t (list (SnapshotRecord.t S)))
    (pid : PersistenceId.t) : list (SnapshotRecord.t S) := default [] (n !! pid).

Lemma append_events_numbered {E} now pid (evs : list (TaggedEvent.t E)) h last recs :
  InMemoryEventJournal.append_events now pid h evs = (last, recs) →
  0 <= h → h + Z.of_nat (length evs) <= u64_max →
  last = h + Z.of_nat (length evs) ∧ numbered h (TaggedEvent.event <$> evs) recs.
Proof.
  revert h last recs. induction evs as [|t evs IH]; intros h last recs; simpl.
  { intros [= <- <-] _ _. split; [lia|]. by split. }
  destruct (InMemoryEventJournal.append_events now pid (SequenceNr_next h) evs) as [l rs] eqn:Hr.
  intros [= <- <-] H0 Hb. unfold SequenceNr_next in *.
  rewrite add_u64_small in * by lia.
  apply IH in Hr as [-> [Hev Hseq]]; [|lia|lia]. split; [lia|]. split; rewrite !fmap_cons.
  - by rewrite Hev.
  - rewrite Hseq. cbn [length]. rewrite !length_fmap.
    rewrite (seqZ_cons (h + 1)) by lia. f_equal. f_equal; lia.
Qed.

#[global] Instance memory_journal_laws {E} now :
  EventJournalLaws (InMemoryEventJournal.journal (E := E) now) memory_jview.
Proof.
  split; simpl; unfold memory_jview.
  - intros j j' pid expected evs recs. unfold InMemoryEventJournal.append.
    case_decide as Hd; [done|]. destruct (InMemoryEventJournal.append_events _ _ _ _) eqn:Ha.
    intros [= <- <-] H0 Hb. rewrite lookup_insert_eq. simpl.
    assert (JournalState.highest_sequence_nr (default JournalState.default (j !! pid)) = expected)
      as Hh by lia. rewrite Hh in *.
    apply append_events_numbered in Ha as [-> Hn]; [|done|done]. done.
  - intros j j' pid expected evs e. unfold InMemoryEventJournal.append.
    case_decide as Hd; [|by destruct (InMemoryEventJournal.append_events _ _ _ _)].
    intros [= <- <-]. by rewrite lookup_insert_eq.
  - intros j j' pid from to r [= <- <-]. split; [done|]. intros recs [= <-].
    by destruct (j !! pid).
  - intros j j' pid to r. unfold InMemoryEventJournal.delete_to.
    destruct (j !! pid) as [st|] eqn:Hj; intros [= <- <-]; [right|left].
    + by rewrite lookup_insert_eq.
    + by rewrite Hj.
Qed.

Lemma memory_snapshot_laws {S} now :
  (∀ n, is_u64 (now n)) →
  SnapshotStoreLaws (InMemorySnapshotStore.store (S := S) now) memory_sview.
Proof.
  intros Hnow. split; simpl; unfold memory_sview.
  - intros n n' pid seq s rec [= <- <-]. exists (now seq). rewrite lookup_insert_eq. done.
  - done.
  - intros n n' pid sel r [= <- <-]. split; [done|]. intros o [= <-]. by destruct (n !! pid).
  - intros n n' pid sel r [= <- <-]. split; [done|]. intros l [= <-]. by destruct (n !! pid).
  - intros n n' pid sel r. unfold InMemorySnapshotStore.delete.
    destruct (n !! pid) as [l|] eqn:Hn; [|intros [= <- <-]; left; by rewrite Hn].
    destruct (filter _ l) as [|x k] eqn:Hf; intros [= <- <-]; right.
    + rewrite lookup_delete_eq. simpl. by rewrite Hf.
    + rewrite lookup_insert_eq. simpl. by rewrite Hf.
Qed.
