(* ===== verification/EventSourced.v ===== *)
(** * Event-sourced actors: [rakka-persistence/src/event_sourced.rs]

    The runtime that recovers an actor from its snapshots and journal, applies the
    effects of its commands, retries failed writes, and trims snapshots and events. *)

From S2P Require Import Prelude Actors Persistence Journal.

(** ** Data *)

Inductive PersistenceSignal :=
| RecoveryStarted (persistence_id : PersistenceId.t)
| RecoveryCompleted (persistence_id : PersistenceId.t) (sequence_nr : Z)
| EventsPersisted (persistence_id : PersistenceId.t) (from to : Z)
| PersistFailed (persistence_id : PersistenceId.t) (attempt : nat) (error_code message : string)
| SnapshotSaved (persistence_id : PersistenceId.t) (sequence_nr : Z)
| SnapshotFailed (persistence_id : PersistenceId.t) (attempt : nat) (error_code message : string)
| PreRestart (persistence_id : PersistenceId.t)
| PostStop (persistence_id : PersistenceId.t).

Inductive StashDirective := StashNone | Stash | UnstashAll.

(** Side effects are closures; [X] names them. *)
Module EventSourcedEffect.
Record t (E X : Type) := mk {
  events : list (TaggedEvent.t E);
  snapshot : bool;
  stop : bool;
  stash : StashDirective;
  unhandled : bool;
  side_effects : list X;
}.
Arguments mk {E X}.
Arguments events {E X}.
Arguments snapshot {E X}.
Arguments stop {E X}.
Arguments stash {E X}.
Arguments unhandled {E X}.
Arguments side_effects {E X}.

Definition none {E X} : t E X := mk [] false false StashNone false [].
Definition persist_all {E X} (events : list (TaggedEvent.t E)) : t E X :=
  mk events false false StashNone false [].
Definition persist {E X} (event : E) : t E X := persist_all [TaggedEvent.new event].
Definition stash_command {E X} : t E X := mk [] false false Stash false [].
Definition then_snapshot {E X} (self : t E X) : t E X :=
  mk (events self) true (stop self) (stash self) (unhandled self) (side_effects self).
Definition and_stop {E X} (self : t E X) : t E X :=
  mk (events self) (snapshot self) true (stash self) (unhandled self) (side_effects self).
Definition then_run {E X} (self : t E X) (side_effect : X) : t E X :=
  mk (events self) (snapshot self) (stop self) (stash self) (unhandled self)
     (side_effects self ++ [side_effect]).
End EventSourcedEffect.

(** The actor's own code; [apply_event] is assumed to be a function of state and
    event, as replaying requires. *)
Module EventSourcedActor.
Record t (S E : Type) := mk {
  persistence_id : PersistenceId.t;
  empty_state : S;
  apply_event : S → E → S;
  retention_criteria : RetentionCriteria.t;
  persist_failure_backoff : PersistFailureBackoff.t;
  on_signal : PersistenceSignal → DurableResult unit;
}.
Arguments persistence_id {S E}.
Arguments empty_state {S E}.
Arguments apply_event {S E}.
Arguments retention_criteria {S E}.
Arguments persist_failure_backoff {S E}.
Arguments on_signal {S E}.
End EventSourcedActor.

(** [replay_from_after_snapshot]. *)
Definition replay_from_after_snapshot (snapshot_sequence_nr : Z) (options : RecoveryOptions.t) : Z :=
  let after_snapshot := SequenceNr_next snapshot_sequence_nr in
  if RecoveryOptions.replay_from options <? after_snapshot then after_snapshot
  else RecoveryOptions.replay_from options.

Module EventSourcedActorRuntime.
Section runtime.
Context {J N S E X : Type}.
Context (journal_ops : EventJournal J E) (snapshot_ops : SnapshotStore N S).
Context (actor : EventSourcedActor.t S E) (recovery_options : RecoveryOptions.t).

(** [recovered] is the state and the sequence number it covers. *)
Record t := mk { journal : J; snapshots : N; recovered : option (S * Z) }.

Abbreviation rop := (op t DurableError).

Let pid := EventSourcedActor.persistence_id actor.
Let signal (s : PersistenceSignal) : rop unit := op_lift (EventSourcedActor.on_signal actor s).

Definition new (j : J) (n : N) : t := mk j n None.

Definition on_journal {A} (f : J → J * DurableResult A) : rop A := fun self =>
  let (j, r) := f (journal self) in (mk j (snapshots self) (recovered self), r).

Definition on_snapshots {A} (f : N → N * DurableResult A) : rop A := fun self =>
  let (n, r) := f (snapshots self) in (mk (journal self) n (recovered self), r).

Definition set_recovered (state : S) (sequence_nr : Z) : rop unit := fun self =>
  (mk (journal self) (snapshots self) (Some (state, sequence_nr)), Ok tt).

(** The loops that apply persisted records to a state. *)
Definition apply_records (state : S) (sequence_nr : Z) (records : list (EventRecord.t E)) : S * Z :=
  foldl (fun acc record => (EventSourcedActor.apply_event actor acc.1 (EventRecord.event record),
                            EventRecord.sequence_nr record))
    (state, sequence_nr) records.

Definition recover : rop unit :=
  do! _ := signal (RecoveryStarted pid) in
  do! snapshot := on_snapshots (fun n => load_snapshot snapshot_ops n pid
                    (RecoveryOptions.snapshot_selection recovery_options)) in
  let (state, sequence_nr) :=
    match snapshot with
    | Some snapshot => SnapshotRecord.into_parts snapshot
    | None => (EventSourcedActor.empty_state actor, SequenceNr_INITIAL)
    end in
  let replay_from := replay_from_after_snapshot sequence_nr recovery_options in
  do! result :=
    (if replay_from <=? RecoveryOptions.replay_to recovery_options then
       do! replayed := on_journal (fun j => replay journal_ops j pid replay_from
                         (RecoveryOptions.replay_to recovery_options)) in
       op_ret (apply_records state sequence_nr replayed)
     else op_ret (state, sequence_nr)) in
  let (state, sequence_nr) := result in
  do! _ := set_recovered state sequence_nr in
  signal (RecoveryCompleted pid sequence_nr).

Definition max_retries : nat :=
  PersistFailureBackoff.max_retries (EventSourcedActor.persist_failure_backoff actor).

Definition append_with_backoff (expected_sequence_nr : Z) (events : list (TaggedEvent.t E)) :
    rop (list (EventRecord.t E)) :=
  retry_loop (on_journal (fun j => append journal_ops j pid expected_sequence_nr events))
    (fun attempt error => EventSourcedActor.on_signal actor
       (PersistFailed pid attempt (DurableError_code error) (DurableError_to_string error)))
    max_retries 0.

(** The [SnapshotSaved] signal follows the successful attempt. *)
Definition save_snapshot_with_backoff (sequence_nr : Z) (state : S) : rop unit :=
  do! _ := retry_loop (on_snapshots (fun n => save snapshot_ops n pid sequence_nr state))
    (fun attempt error => EventSourcedActor.on_signal actor
       (SnapshotFailed pid attempt (DurableError_code error) (DurableError_to_string error)))
    max_retries 0 in
  signal (SnapshotSaved pid sequence_nr).

Definition list_all : rop (list SnapshotMetadata.t) :=
  on_snapshots (fun n => list_snapshots snapshot_ops n pid SnapshotSelection.LATEST).

Definition delete_one (metadata : SnapshotMetadata.t) : rop nat :=
  on_snapshots (fun n => delete_snapshots snapshot_ops n pid
    (SnapshotSelection.between (SnapshotMetadata.sequence_nr metadata)
                               (SnapshotMetadata.sequence_nr metadata))).

Definition apply_retention (latest_snapshot_sequence_nr : Z) : rop unit :=
  let retention := EventSourcedActor.retention_criteria actor in
  let keep := RetentionCriteria.keep_snapshots retention in
  do! _ :=
    (if decide (keep ≠ RetentionCriteria.usize_max) then
       do! snapshots := list_all in
       do! _ := op_each delete_one (drop (Z.to_nat keep) snapshots) in
       op_ret tt
     else op_ret tt) in
  if RetentionCriteria.delete_events_on_snapshot retention then
    do! target :=
      (if decide (keep = 0) then op_ret latest_snapshot_sequence_nr
       else
         do! retained := list_all in
         op_ret (match last retained with
                 | Some metadata => SnapshotMetadata.sequence_nr metadata
                 | None => latest_snapshot_sequence_nr
                 end)) in
    on_journal (fun j => delete_to journal_ops j pid target)
  else op_ret tt.

(** The first half of [apply_effect]: the state and sequence number after the effect's
    events, and whether there were any. *)
Definition persist_events (events : list (TaggedEvent.t E)) (state : S) (sequence_nr : Z) :
    rop (S * Z * bool) :=
  match events with
  | [] => op_ret (state, sequence_nr, false)
  | _ =>
      do! persisted := append_with_backoff sequence_nr events in
      let first_sequence_nr :=
        match persisted with
        | record :: _ => EventRecord.sequence_nr record
        | [] => SequenceNr_next sequence_nr
        end in
      let (state, sequence_nr) := apply_records state sequence_nr persisted in
      do! _ := signal (EventsPersisted pid first_sequence_nr sequence_nr) in
      op_ret (state, sequence_nr, true)
  end.

(** The action for the actor cell, and the side effects that ran; the stash directive
    and the unhandled mark of the effect are not looked at. *)
Definition apply_effect (effect : EventSourcedEffect.t E X) : rop (ActorAction * list X) :=
  fun self =>
  match recovered self with
  | None => (self, Err (NotRecovered pid))
  | Some (state, sequence_nr) =>
      (do! result := persist_events (EventSourcedEffect.events effect) state sequence_nr in
       let '(state, sequence_nr, persisted_events) := result in
       let retention := EventSourcedActor.retention_criteria actor in
       do! _ :=
         (if EventSourcedEffect.snapshot effect ||
             (persisted_events && RetentionCriteria.should_snapshot retention sequence_nr)
          then do! _ := save_snapshot_with_backoff sequence_nr state in
               apply_retention sequence_nr
          else op_ret tt) in
       do! _ := set_recovered state sequence_nr in
       op_ret (if EventSourcedEffect.stop effect then Stop else Continue,
               EventSourcedEffect.side_effects effect)) self
  end.

Definition started : rop ActorAction := do! _ := recover in op_ret Continue.

Definition restarted : rop ActorAction :=
  do! _ := signal (PreRestart pid) in
  do! _ := recover in op_ret Continue.

(** [handle]: the actor's [handle_command] sees the sequence number (through its
    context), the state and the message, and chooses the effect. *)
Definition handle {C} (handle_command : Z → S → C → DurableResult (EventSourcedEffect.t E X))
    (msg : C) : rop (ActorAction * list X) := fun self =>
  match recovered self with
  | None => (self, Err (NotRecovered pid))
  | Some (state, sequence_nr) =>
      (do! effect := op_lift (handle_command sequence_nr state msg) in apply_effect effect) self
  end.

Definition stopped : rop ActorAction :=
  do! _ := signal (PostStop pid) in op_ret Continue.
End runtime.
Arguments t : clear implicits.
End EventSourcedActorRuntime.

(** ** Recovery reproduces history

    [hist] is the list of all events whose append succeeded. *)

Import EventSourcedActorRuntime.

Section numbered_lists.
Context {E : Type}.
Implicit Types (l : list E) (recs : list (EventRecord.t E)).

Lemma numbered_nil h : numbered h (@nil E) [].
Proof. by split. Qed.

Lemma numbered_cons h x l rec recs :
  numbered h (x :: l) (rec :: recs) ↔
  EventRecord.event rec = x ∧ EventRecord.sequence_nr rec = h + 1 ∧ numbered (h + 1) l recs.
Proof.
  unfold numbered. rewrite !fmap_cons. cbn [length].
  rewrite (seqZ_cons (h + 1)) by lia.
  replace (Z.succ (h + 1)) with (h + 1 + 1) by lia.
  replace (Z.pred (Z.of_nat (S (length l)))) with (Z.of_nat (length l)) by lia.
  split; [intros [[= ? ?] [= ? ?]]; done|intros (-> & -> & -> & ->); done].
Qed.

Lemma numbered_length h l recs : numbered h l recs → length recs = length l.
Proof. intros [<- _]. by rewrite length_fmap. Qed.

Lemma numbered_app h l1 l2 recs1 recs2 :
  numbered h l1 recs1 → numbered (h + Z.of_nat (length l1)) l2 recs2 →
  numbered h (l1 ++ l2) (recs1 ++ recs2).
Proof.
  intros [He1 Hs1] [He2 Hs2]. split; rewrite fmap_app; [by rewrite He1, He2|].
  rewrite Hs1, Hs2, length_app, Nat2Z.inj_add, seqZ_app by lia.
  do 2 f_equal. lia.
Qed.

(** Dropping the records up to [t]. *)
Lemma numbered_filter_gt h l recs t :
  numbered h l recs →
  let k := Z.to_nat (Z.min (Z.max (t - h) 0) (Z.of_nat (length l))) in
  numbered (h + Z.of_nat k) (drop k l)
    (filter (fun rec => t < EventRecord.sequence_nr rec) recs).
Proof.
  revert h l. induction recs as [|rec recs IH]; intros h l Hn.
  - pose proof (numbered_length _ _ _ Hn) as Hl. destruct l; [|done]. cbv zeta. rewrite drop_nil. apply numbered_nil.
  - destruct l as [|x l]; [by apply numbered_length in Hn|].
    pose proof Hn as Hn0. apply numbered_cons in Hn as (He & Hs & Hn). cbv zeta.
    rewrite filter_cons. specialize (IH _ _ Hn). cbv zeta in IH. cbn [length].
    case_decide as Hd.
    + replace (Z.to_nat _) with 0%nat by lia. rewrite drop_0, Z.add_0_r.
      replace (Z.to_nat _) with 0%nat in IH by lia. rewrite drop_0, Z.add_0_r in IH.
      by apply numbered_cons.
    + set (k' := Z.to_nat (Z.min (Z.max (t - (h + 1)) 0) (Z.of_nat (length l)))) in *.
      replace (Z.to_nat _) with (S k') by lia. cbn [drop].
      replace (h + Z.of_nat (S k')) with (h + 1 + Z.of_nat k') by lia. done.
Qed.

Lemma numbered_range h l recs rec :
  numbered h l recs → rec ∈ recs →
  h < EventRecord.sequence_nr rec <= h + Z.of_nat (length l).
Proof.
  intros [_ Hs] Hin. assert (EventRecord.sequence_nr rec ∈ EventRecord.sequence_nr <$> recs) as Hin'
    by (apply list_elem_of_fmap; by exists rec).
  rewrite Hs in Hin'. apply elem_of_seqZ in Hin'. lia.
Qed.

End numbered_lists.

Section snapshot_lists.
Context {S : Type}.
Implicit Types l : list (SnapshotRecord.t S).

#[global] Instance newest_first_trans : Transitive (@newest_first S).
Proof. intros a b c. unfold newest_first. lia. Qed.
#[global] Instance newest_first_total : Total (@newest_first S).
Proof. intros a b. unfold newest_first. lia. Qed.

(** A listing: newest first, one snapshot per sequence number. *)
Definition listing l : Prop :=
  StronglySorted newest_first l ∧ NoDup (SnapshotRecord.sequence_nr <$> l).

Lemma listing_head l r :
  listing (r :: l) → ∀ s, s ∈ r :: l →
  SnapshotRecord.sequence_nr s <= SnapshotRecord.sequence_nr r.
Proof.
  intros [Hs _] s [->|Hin]%elem_of_cons; [lia|].
  apply StronglySorted_inv in Hs as [_ Hall]. rewrite Forall_forall in Hall.
  specialize (Hall s Hin). unfold newest_first, SnapshotRecord.sequence_nr in *. lia.
Qed.

Lemma StronglySorted_filter_newest (P : SnapshotRecord.t S → Prop) `{!∀ x, Decision (P x)} l :
  StronglySorted newest_first l → StronglySorted newest_first (filter P l).
Proof.
  induction 1 as [|x l Hs IH Hall]; [constructor|].
  rewrite filter_cons. case_decide; [|done]. constructor; [done|].
  rewrite Forall_forall in *. intros y Hy%list_elem_of_filter. apply Hall. naive_solver.
Qed.

Lemma listing_filter (P : SnapshotRecord.t S → Prop) `{!∀ x, Decision (P x)} l :
  listing l → listing (filter P l).
Proof.
  intros [Hs Hnd]. split; [by apply StronglySorted_filter_newest|].
  eapply sublist_NoDup; [exact Hnd|]. apply fmap_sublist, sublist_filter.
Qed.

Lemma elem_of_save_list r l s :
  s ∈ save_list r l ↔ s = r ∨ (s ∈ l ∧ SnapshotRecord.sequence_nr s ≠ SnapshotRecord.sequence_nr r).
Proof.
  unfold save_list, sort_snapshots_newest_first.
  rewrite merge_sort_Permutation, elem_of_app, list_elem_of_filter, list_elem_of_singleton. tauto.
Qed.

Lemma listing_save r l : listing l → listing (save_list r l).
Proof.
  intros Hl. split; [apply StronglySorted_merge_sort; apply _|].
  unfold save_list, sort_snapshots_newest_first. rewrite merge_sort_Permutation, fmap_app.
  apply NoDup_app. split_and!; [by apply listing_filter| |apply NoDup_singleton].
  intros q (s & -> & [Hne _]%list_elem_of_filter)%list_elem_of_fmap Hin.
  apply list_elem_of_singleton in Hin. done.
Qed.

End snapshot_lists.

Section history.
Context {J N S E X : Type}.
Context (journal_ops : EventJournal J E) (snapshot_ops : SnapshotStore N S).
Context (jview : J → PersistenceId.t → Z * list (EventRecord.t E))
        (sview : N → PersistenceId.t → list (SnapshotRecord.t S)).
Context `{!EventJournalLaws journal_ops jview, !SnapshotStoreLaws snapshot_ops sview}.
Context (actor : EventSourcedActor.t S E).
Abbreviation rt := (EventSourcedActorRuntime.t J N S).
Implicit Types (self : rt) (hist : list E) (j : J) (n : N).
Let pid := EventSourcedActor.persistence_id actor.
Let retention := EventSourcedActor.retention_criteria actor.

(** The state after the first [k] events of a history. *)
Definition state_at hist (k : nat) : S :=
  foldl (EventSourcedActor.apply_event actor) (EventSourcedActor.empty_state actor) (take k hist).

(** The policy never deletes events without keeping a snapshot that covers them. *)
Definition retention_safe : Prop :=
  0 <= RetentionCriteria.keep_snapshots retention ∧
  (RetentionCriteria.delete_events_on_snapshot retention = true →
   RetentionCriteria.keep_snapshots retention ≠ 0).

(** A snapshot of [hist]. *)
Definition snapshot_of hist (s : SnapshotRecord.t S) : Prop :=
  ∃ k, (k <= length hist)%nat ∧ SnapshotRecord.sequence_nr s = Z.of_nat k ∧
    SnapshotRecord.snapshot s = state_at hist k ∧
    is_u64 (SnapshotMetadata.timestamp_millis (SnapshotRecord.metadata s)).

(** Journal and snapshots hold [hist]: the journal has all but the first [d] events,
    and if [d] is not zero some snapshot covers those. *)
Record consistent hist j n : Prop := {
  cons_bound : Z.of_nat (length hist) < u64_max;
  cons_highest : (jview j pid).1 = Z.of_nat (length hist);
  cons_listing : listing (sview n pid);
  cons_snapshots : ∀ s, s ∈ sview n pid → snapshot_of hist s;
  cons_events : ∃ d, (d <= length hist)%nat ∧
    numbered (Z.of_nat d) (drop d hist) (jview j pid).2 ∧
    (d = 0%nat ∨ RetentionCriteria.delete_events_on_snapshot retention = true ∧
       ∃ s, s ∈ sview n pid ∧ Z.of_nat d <= SnapshotRecord.sequence_nr s);
}.

(** What the actor holds in memory is the state at some point of the history. *)
Definition live hist self : Prop :=
  match recovered self with
  | None => True
  | Some (st, q) => ∃ k, (k <= length hist)%nat ∧ q = Z.of_nat k ∧ st = state_at hist k
  end.

Lemma state_at_app hist l k : (k <= length hist)%nat → state_at (hist ++ l) k = state_at hist k.
Proof. intros. unfold state_at. by rewrite take_app_le by done. Qed.

Lemma snapshot_of_app hist l s : snapshot_of hist s → snapshot_of (hist ++ l) s.
Proof.
  intros (k & Hk & Hq & Hs & Ht). exists k. rewrite length_app, state_at_app by done.
  split_and!; [lia|done|done|done].
Qed.

Lemma live_app hist l self : live hist self → live (hist ++ l) self.
Proof.
  unfold live. destruct (recovered self) as [[st q]|]; [|done].
  intros (k & Hk & -> & ->). exists k. rewrite length_app, state_at_app by done.
  split_and!; [lia|done|done].
Qed.

Lemma state_at_snoc hist k l :
  (k <= length hist)%nat → take (length l) (drop k hist) = l →
  foldl (EventSourcedActor.apply_event actor) (state_at hist k) l = state_at hist (k + length l).
Proof.
  intros Hk Hl. unfold state_at. rewrite <-foldl_app. f_equal.
  rewrite <-Hl at 1. by rewrite take_take_drop.
Qed.

(** Applying numbered records reaches the state they lead to. *)
Lemma apply_records_numbered st q l recs :
  numbered q l recs →
  apply_records actor st q recs =
    (foldl (EventSourcedActor.apply_event actor) st l, q + Z.of_nat (length l)).
Proof.
  revert st q l. induction recs as [|rec recs IH]; intros st q l Hn.
  - pose proof (numbered_length _ _ _ Hn). destruct l; [|done]. unfold apply_records. simpl.
    f_equal. lia.
  - destruct l as [|x l]; [by apply numbered_length in Hn|].
    apply numbered_cons in Hn as (He & Hs & Hn). unfold apply_records in *. cbn [foldl fst].
    rewrite He, Hs, (IH _ _ _ Hn). simpl. f_equal. lia.
Qed.

(** *** Each store operation keeps the history *)

Lemma append_ok_consistent hist j n j' q evs recs :
  consistent hist j n → append journal_ops j pid q evs = (j', Ok recs) → 0 <= q →
  Z.of_nat (length hist + length evs) < u64_max → q + Z.of_nat (length evs) <= u64_max →
  q = Z.of_nat (length hist) ∧ numbered q (TaggedEvent.event <$> evs) recs ∧
  consistent (hist ++ (TaggedEvent.event <$> evs)) j' n.
Proof.
  intros [Hb Hh Hl Hsn (d & Hd & Hnum & Hcov)] Happ H0 Hbound Hq.
  apply law_append_ok in Happ as (Hexp & Hn & Hv); [|done|done].
  assert (q = Z.of_nat (length hist)) as -> by congruence.
  split; [done|]. split; [done|]. split.
  - rewrite length_app, length_fmap. lia.
  - rewrite Hv. simpl. rewrite length_app, length_fmap. lia.
  - done.
  - intros s Hs. by apply snapshot_of_app, Hsn.
  - exists d. rewrite length_app. split_and!; [lia| |done].
    rewrite Hv. simpl. rewrite drop_app_le by done. apply numbered_app; [done|].
    rewrite length_drop. by replace (Z.of_nat d + Z.of_nat (length hist - d))
      with (Z.of_nat (length hist)) by lia.
Qed.

Lemma jview_consistent hist j j' n :
  jview j' pid = jview j pid → consistent hist j n → consistent hist j' n.
Proof. intros Hv [? ? ? ? ?]. split; rewrite ?Hv; done. Qed.

Lemma sview_consistent hist j n n' :
  sview n' pid = sview n pid → consistent hist j n → consistent hist j n'.
Proof. intros Hv [? ? ? ? ?]. split; rewrite ?Hv; done. Qed.

Lemma save_consistent hist j n n' k rec :
  consistent hist j n → (k <= length hist)%nat →
  save snapshot_ops n pid (Z.of_nat k) (state_at hist k) = (n', Ok rec) →
  consistent hist j n'.
Proof.
  intros [Hb Hh Hl Hsn (d & Hd & Hnum & Hcov)] Hk Hsave.
  apply law_save_ok in Hsave as (ts & Hts & -> & Hv).
  set (r := SnapshotRecord.new _ _) in Hv.
  split; [done|done| | |].
  - rewrite Hv. by apply listing_save.
  - intros s. rewrite Hv. intros [->|[Hin _]]%elem_of_save_list; [|by apply Hsn].
    by exists k.
  - exists d. split_and!; [done|done|]. destruct Hcov as [?|[Hdel (s & Hin & Hle)]]; [by left|right].
    split; [done|]. rewrite Hv.
    destruct (decide (SnapshotRecord.sequence_nr s = SnapshotRecord.sequence_nr r)) as [Heq|Hne].
    + exists r. split; [apply elem_of_save_list; by left|]. by rewrite <-Heq.
    + exists s. split; [apply elem_of_save_list; by right|done].
Qed.

Lemma delete_to_consistent hist j j' n t r h :
  consistent hist j n → RetentionCriteria.delete_events_on_snapshot retention = true →
  h ∈ sview n pid → t <= SnapshotRecord.sequence_nr h →
  delete_to journal_ops j pid t = (j', r) → consistent hist j' n.
Proof.
  intros Hcons Hdel Hh Ht Hrun. apply law_delete_to in Hrun as [Hv|Hv];
    [by eapply jview_consistent|].
  destruct Hcons as [Hb Hhi Hl Hsn (d & Hd & Hnum & Hcov)].
  split; [done|by rewrite Hv|done|done|].
  apply (numbered_filter_gt _ _ _ t) in Hnum. cbv zeta in Hnum.
  remember (Z.to_nat (Z.min (Z.max (t - Z.of_nat d) 0) (Z.of_nat (length (drop d hist))))) as k
    eqn:Hkd. rewrite length_drop in Hkd.
  exists (d + k)%nat. rewrite Hv. simpl. split_and!; [lia| |].
  - rewrite Nat2Z.inj_add, <-drop_drop. done.
  - destruct (decide (k = 0%nat)) as [Hk|Hk].
    + rewrite Hk, Nat.add_0_r. done.
    + right. split; [done|]. exists h. split; [done|]. lia.
Qed.

(** While retention runs: the stores hold [hist], the actor's memory is [rc], and if
    events may be deleted the newest snapshot [h] stays. *)
Definition retaining hist (rc : option (S * Z)) (h : SnapshotRecord.t S) self : Prop :=
  consistent hist (journal self) (snapshots self) ∧ recovered self = rc ∧
  (RetentionCriteria.delete_events_on_snapshot retention = true →
   h ∈ sview (snapshots self) pid ∧
   ∀ s, s ∈ sview (snapshots self) pid →
     SnapshotRecord.sequence_nr s <= SnapshotRecord.sequence_nr h).

Lemma matches_LATEST hist s :
  Z.of_nat (length hist) < u64_max → snapshot_of hist s →
  SnapshotSelection.matches SnapshotSelection.LATEST (SnapshotRecord.metadata s) = true.
Proof.
  intros Hb (k & Hk & Hq & _ & Ht). unfold SnapshotRecord.sequence_nr in Hq.
  unfold SnapshotSelection.matches; simpl. rewrite Hq. unfold is_u64 in Ht.
  unfold SequenceNr_INITIAL, SequenceNr_MAX. rewrite !andb_true_iff, !Z.leb_le. lia.
Qed.

Lemma filter_LATEST hist j n :
  consistent hist j n →
  filter (fun s => SnapshotSelection.matches SnapshotSelection.LATEST
            (SnapshotRecord.metadata s) = true) (sview n pid) = sview n pid.
Proof.
  intros [Hb _ _ Hsn _]. apply filter_all.
  intros s Hs. eapply matches_LATEST; eauto.
Qed.

Lemma list_all_spec hist rc h :
  op_spec (retaining hist rc h) (list_all snapshot_ops actor)
    (fun l self => retaining hist rc h self ∧
       l = SnapshotRecord.metadata <$> sview (snapshots self) pid) (retaining hist rc h).
Proof.
  intros self self' r (Hc & Hr & Hh). unfold list_all, on_snapshots.
  destruct (list_snapshots snapshot_ops _ _ _) as [n' x] eqn:Hl. intros [= <- <-].
  apply law_list_snapshots in Hl as [Hv Hx].
  assert (retaining hist rc h (mk (journal self) n' (recovered self))) as Hret.
  { split_and!; simpl; [by eapply sview_consistent|done|]. fold pid in Hv. by rewrite Hv. }
  destruct x as [l|e]; [|done]. split; [done|]. simpl.
  rewrite (Hx l eq_refl). fold pid in Hv. fold pid. by rewrite Hv, (filter_LATEST _ _ _ Hc).
Qed.

Lemma delete_one_spec hist rc h m :
  (RetentionCriteria.delete_events_on_snapshot retention = true →
   SnapshotMetadata.sequence_nr m ≠ SnapshotRecord.sequence_nr h) →
  op_spec (retaining hist rc h) (delete_one snapshot_ops actor m)
    (fun _ => retaining hist rc h) (retaining hist rc h).
Proof.
  intros Hm self self' r (Hc & Hr & Hh). unfold delete_one, on_snapshots.
  destruct (delete_snapshots snapshot_ops _ _ _) as [n' x] eqn:Hd. intros [= <- <-].
  assert (retaining hist rc h (mk (journal self) n' (recovered self))) as Hret; [|by destruct x].
  apply law_delete_snapshots in Hd. fold pid in Hd. destruct Hd as [Hv|Hv].
  { split_and!; simpl; [by eapply sview_consistent|done|]. by rewrite Hv. }
  set (P := fun s : SnapshotRecord.t S => SnapshotSelection.matches _ (SnapshotRecord.metadata s) = false)
    in Hv.
  assert (∀ s, SnapshotRecord.sequence_nr s ≠ SnapshotMetadata.sequence_nr m → P s) as HP.
  { intros s Hne. unfold P, SnapshotSelection.matches. simpl.
    unfold SnapshotRecord.sequence_nr in Hne.
    destruct (Z.leb_spec (SnapshotMetadata.sequence_nr m)
                (SnapshotMetadata.sequence_nr (SnapshotRecord.metadata s))); [|done].
    destruct (Z.leb_spec (SnapshotMetadata.sequence_nr (SnapshotRecord.metadata s))
                (SnapshotMetadata.sequence_nr m)); [|done]. lia. }
  split_and!; simpl; [|done|].
  - destruct Hc as [Hb Hhi Hl Hsn (d & Hd & Hnum & Hcov)]. split; [done|done| | |].
    + rewrite Hv. by apply listing_filter.
    + intros s. rewrite Hv. intros [_ Hin]%list_elem_of_filter. by apply Hsn.
    + exists d. split_and!; [done|done|]. destruct Hcov as [?|[Hdel (s & Hin & Hle)]]; [by left|].
      right. split; [done|]. destruct (Hh Hdel) as [Hhin Hmax]. exists h. split.
      * rewrite Hv. apply list_elem_of_filter. split; [|done]. apply HP.
        intros Heq. by apply (Hm Hdel).
      * specialize (Hmax s Hin). lia.
  - intros Hdel. destruct (Hh Hdel) as [Hhin Hmax]. rewrite Hv. split.
    + apply list_elem_of_filter. split; [|done]. apply HP. intros Heq. by apply (Hm Hdel).
    + intros s [_ Hin]%list_elem_of_filter. by apply Hmax.
Qed.

(** The snapshots past the first [keep] do not include the newest one. *)
Lemma dropped_not_newest l (keep : nat) h m :
  listing l → keep ≠ 0%nat → h ∈ l →
  (∀ s, s ∈ l → SnapshotRecord.sequence_nr s <= SnapshotRecord.sequence_nr h) →
  m ∈ drop keep (SnapshotRecord.metadata <$> l) →
  SnapshotMetadata.sequence_nr m ≠ SnapshotRecord.sequence_nr (S := S) h.
Proof.
  intros Hl Hk Hh Hmax Hm. destruct l as [|r l]; [by apply not_elem_of_nil in Hh|].
  destruct keep as [|keep]; [done|]. rewrite fmap_cons in Hm. cbn [drop] in Hm.
  apply subseteq_drop in Hm.
  apply list_elem_of_fmap in Hm as (s & -> & Hs).
  assert (SnapshotRecord.sequence_nr h = SnapshotRecord.sequence_nr r) as ->.
  { pose proof (listing_head _ _ Hl h Hh). specialize (Hmax r ltac:(by left)). lia. }
  destruct Hl as [_ Hnd]. apply NoDup_cons in Hnd as [Hnd _]. intros Heq. apply Hnd.
  apply list_elem_of_fmap. by exists s.
Qed.

Lemma retention_spec hist rc h q :
  retention_safe →
  op_spec (retaining hist rc h) (apply_retention journal_ops snapshot_ops actor q)
    (fun _ => retaining hist rc h) (retaining hist rc h).
Proof.
  intros [Hk0 Hsafe]. unfold apply_retention. fold retention.
  apply op_spec_bind with (Q := fun _ => retaining hist rc h).
  - case_decide as Hmax; [|by apply op_spec_ret].
    eapply op_spec_bind; [apply list_all_spec|]. intros l. simpl.
    intros self self' r [Hret ->]. revert self' r Hret.
    set (ms := drop _ _). assert (∀ m, m ∈ ms → retaining hist rc h self →
      RetentionCriteria.delete_events_on_snapshot retention = true →
      SnapshotMetadata.sequence_nr m ≠ SnapshotRecord.sequence_nr h) as Hms.
    { intros m Hm (Hc & _ & Hh) Hdel. destruct (Hh Hdel) as [Hin Hle].
      eapply dropped_not_newest; [apply Hc| |exact Hin|exact Hle|exact Hm].
      specialize (Hsafe Hdel). lia. }
    intros self' r Hret.
    apply (op_spec_bind (retaining hist rc h) (op_each _ ms) (fun _ => retaining hist rc h)
             (retaining hist rc h) _ (fun _ => retaining hist rc h)); [| |done].
    + apply op_spec_each. intros m Hm. apply delete_one_spec. intros Hdel. by apply Hms.
    + intros _. by apply op_spec_ret.
  - intros _. destruct (RetentionCriteria.delete_events_on_snapshot retention) eqn:Hdel;
      [|by apply op_spec_ret].
    rewrite decide_False by (by apply Hsafe).
    apply op_spec_bind with (Q := fun t self => retaining hist rc h self ∧
                                              t <= SnapshotRecord.sequence_nr h).
    + eapply op_spec_bind; [apply list_all_spec|]. intros l. apply op_spec_ret.
      intros self [Hret ->]. split; [done|]. destruct Hret as (_ & _ & Hh).
      destruct (Hh Hdel) as [Hin Hle].
      destruct (last (SnapshotRecord.metadata <$> sview (snapshots self) pid)) as [m|] eqn:Hlast.
      * apply last_Some_elem_of, list_elem_of_fmap in Hlast as (s & -> & Hs). by apply (Hle s).
      * apply last_None, fmap_nil_inv in Hlast. rewrite Hlast in Hin.
        by apply not_elem_of_nil in Hin.
    + intros t self self' r [(Hc & Hr & Hh) Ht]. unfold on_journal.
      destruct (delete_to journal_ops _ _ t) as [j' x] eqn:Hd. intros [= <- <-].
      assert (retaining hist rc h (mk j' (snapshots self) (recovered self))); [|by destruct x].
      split_and!; simpl; [|done|done]. destruct (Hh Hdel) as [Hin _].
      eapply delete_to_consistent; [exact Hc|done|exact Hin|exact Ht|exact Hd].
Qed.

(** *** The steps of an actor *)

Definition at_rest hist (rc : option (S * Z)) self : Prop :=
  consistent hist (journal self) (snapshots self) ∧ recovered self = rc.

Lemma append_backoff_spec hist rc k evs self self' r :
  at_rest hist rc self → (k <= length hist)%nat →
  Z.of_nat (length hist + length evs) < u64_max →
  append_with_backoff journal_ops actor (Z.of_nat k) evs self = (self', r) →
  (∃ recs, r = Ok recs ∧ k = length hist ∧
     numbered (Z.of_nat k) (TaggedEvent.event <$> evs) recs ∧
     at_rest (hist ++ (TaggedEvent.event <$> evs)) rc self') ∨
  (at_rest hist rc self' ∧ ∃ e, r = Err e).
Proof.
  intros Hrest Hk Hb Hrun.
  apply (retry_loop_inv _ _ _ _ (at_rest hist rc)) in Hrun; [|clear self self' r Hrest Hrun|done].
  - destruct Hrun as [(s1 & recs & [Hc Hr] & Hw & ->)|[? ?]]; [left|by right].
    unfold on_journal in Hw. destruct (append journal_ops _ _ _ _) as [j' x] eqn:Ha.
    injection Hw as <- ->. fold pid in Ha.
    destruct (append_ok_consistent _ _ _ _ _ _ _ Hc Ha) as (Hq & Hn & Hc'); [lia|lia|lia|].
    exists recs. split_and!; [done|lia|done|done].
  - intros s s' e [Hc Hr]. unfold on_journal.
    destruct (append journal_ops _ _ _ _) as [j' x] eqn:Ha. intros [= <- ->].
    split; [|done]. simpl. eapply jview_consistent; [|exact Hc]. by eapply law_append_err.
Qed.

(** An effect's events are appended in one piece or not at all. *)
Lemma persist_events_spec hist rc k evs self self' r :
  at_rest hist rc self → (k <= length hist)%nat →
  Z.of_nat (length hist + length evs) < u64_max →
  persist_events journal_ops actor evs (state_at hist k) (Z.of_nat k) self = (self', r) →
  ∃ hist', (hist' = hist ∨ hist' = hist ++ (TaggedEvent.event <$> evs)) ∧
    at_rest hist' rc self' ∧
    ∀ st q b, r = Ok (st, q, b) →
      hist' = hist ++ (TaggedEvent.event <$> evs) ∧ b = negb (bool_decide (evs = [])) ∧
      ∃ k', (k' <= length hist')%nat ∧ q = Z.of_nat k' ∧ st = state_at hist' k' ∧
        (evs ≠ [] → k' = length hist').
Proof.
  intros Hrest Hk Hb. unfold persist_events. destruct evs as [|ev evs].
  { intros [= <- <-]. exists hist. split_and!; [by left|done|].
    intros st q b [= <- <- <-]. rewrite app_nil_r. split_and!; [done|done|]. by exists k. }
  set (evl := ev :: evs) in *. unfold op_bind at 1.
  destruct (append_with_backoff journal_ops actor (Z.of_nat k) evl self) as [s1 r1] eqn:Happ.
  apply (append_backoff_spec hist rc) in Happ; [|done|done|done].
  destruct Happ as [(recs & -> & Hkl & Hnum & Hrest')|[Hrest' [e ->]]].
  2:{ intros [= <- <-]. exists hist. split_and!; [by left|done|done]. }
  set (hist' := hist ++ (TaggedEvent.event <$> evl)) in *.
  assert (state_at hist' (k + length evl) =
    foldl (EventSourcedActor.apply_event actor) (state_at hist k) (TaggedEvent.event <$> evl)) as Hst.
  { rewrite <-(length_fmap TaggedEvent.event evl), <-(state_at_app hist (TaggedEvent.event <$> evl) k)
      by done. fold hist'. symmetry. apply state_at_snoc; [unfold hist'; rewrite length_app; lia|].
    unfold hist'. rewrite Hkl, drop_app_length, take_ge by done. done. }
  rewrite (apply_records_numbered _ _ _ _ Hnum), length_fmap. unfold op_bind, op_lift.
  destruct (EventSourcedActor.on_signal actor _) as [[]|e].
  - intros [= <- <-]. exists hist'. split_and!; [by right|done|].
    intros st q b [= <- <- <-]. split_and!; [done|done|].
    assert (length hist' = (k + length evl)%nat) as Hlen
      by (unfold hist'; rewrite length_app, length_fmap; lia).
    exists (k + length evl)%nat. split_and!; [lia|subst evl; cbn [length]; lia|done|lia].
  - intros [= <- <-]. exists hist'. split_and!; [by right|done|done].
Qed.

(** Saving a snapshot of the current state and trimming afterwards. *)
Lemma snapshot_and_retain hist rc k self self' r :
  retention_safe → at_rest hist rc self → (k <= length hist)%nat →
  op_bind (save_snapshot_with_backoff snapshot_ops actor (Z.of_nat k) (state_at hist k))
    (fun _ => apply_retention journal_ops snapshot_ops actor (Z.of_nat k)) self = (self', r) →
  at_rest hist rc self'.
Proof.
  intros Hsafe Hrest Hk. unfold save_snapshot_with_backoff, op_bind.
  match goal with |- context [retry_loop ?w ?sg ?n ?i self] =>
    destruct (retry_loop w sg n i self) as [s1 r1] eqn:Hloop end.
  apply (retry_loop_inv _ _ _ _ (at_rest hist rc)) in Hloop; [| |done].
  2:{ intros s s' e [Hc Hr]. unfold on_snapshots.
      destruct (save snapshot_ops _ _ _ _) as [n' x] eqn:Hs. intros [= <- ->].
      split; [|done]. simpl. eapply sview_consistent; [|exact Hc]. by eapply law_save_err. }
  destruct Hloop as [(s0 & rec & [Hc Hr] & Hw & ->)|[Hrest' [e ->]]]; [|by intros [= <- <-]].
  unfold on_snapshots in Hw. destruct (save snapshot_ops _ _ _ _) as [n' x] eqn:Hs.
  injection Hw as <- ->. fold pid in Hs.
  pose proof (save_consistent _ _ _ _ _ _ Hc Hk Hs) as Hc'.
  apply law_save_ok in Hs as (ts & _ & Hrec & Hv).
  destruct (sview n' pid) as [|h l] eqn:Hl.
  { symmetry in Hv. assert (rec ∈ ([] : list (SnapshotRecord.t S))) as Hin
      by (rewrite <-Hv; apply elem_of_save_list; by left). by apply not_elem_of_nil in Hin. }
  assert (retaining hist rc h (mk (journal s0) n' (recovered s0))) as Hret.
  { split_and!; simpl; [done|done|]. intros _. rewrite Hl. split; [by left|].
    apply listing_head. rewrite <-Hl. apply Hc'. }
  unfold op_lift. destruct (EventSourcedActor.on_signal actor _) as [[]|e].
  - intros Hrun. assert (retaining hist rc h self') as (? & ? & _); [|by split].
    pose proof (retention_spec hist rc h (Z.of_nat k) Hsafe _ _ _ Hret Hrun). by destruct r.
  - intros [= <- <-]. by destruct Hret as (? & ? & _).
Qed.

(** One command: the stores still hold a history - with the command's events or
    without - and the actor's memory is the state at some point of it; a command that
    succeeds has its events in the history. *)
Lemma apply_effect_history hist self self' (effect : EventSourcedEffect.t E X) res :
  retention_safe → consistent hist (journal self) (snapshots self) → live hist self →
  Z.of_nat (length hist + length (EventSourcedEffect.events effect)) < u64_max →
  apply_effect journal_ops snapshot_ops actor effect self = (self', res) →
  let evs := TaggedEvent.event <$> EventSourcedEffect.events effect in
  ∃ hist', (hist' = hist ∨ hist' = hist ++ evs) ∧
    consistent hist' (journal self') (snapshots self') ∧ live hist' self' ∧
    (is_ok res = true → hist' = hist ++ evs ∧
       (evs ≠ [] → recovered self' = Some (state_at hist' (length hist'), Z.of_nat (length hist')))).
Proof.
  intros Hsafe Hc Hlive Hb. cbv zeta. unfold apply_effect.
  pose proof Hlive as Hlive0. unfold live in Hlive.
  destruct (recovered self) as [[st q]|] eqn:Hrc.
  2:{ intros [= <- <-]. exists hist. split_and!; [by left|done| |done]. unfold live. by rewrite Hrc. }
  destruct Hlive as (k & Hk & -> & ->). unfold op_bind at 1.
  destruct (persist_events _ _ _ _ _ self) as [s1 r1] eqn:Hpers.
  apply (persist_events_spec hist (Some (state_at hist k, Z.of_nat k))) in Hpers
    as (hist' & Hcase & [Hc1 Hr1] & Hok); [|by split|done|done].
  assert (live hist' s1) as Hlive1.
  { assert (live hist s1) as Hl by (unfold live; rewrite Hr1; by exists k).
    destruct Hcase as [->| ->]; [done|by apply live_app]. }
  destruct r1 as [[[st q] b]|e]; [|intros [= <- <-]; by exists hist'].
  destruct (Hok _ _ _ eq_refl) as (Hh & _ & k' & Hk' & -> & -> & Hfull). unfold op_bind at 1.
  destruct (_ || _) eqn:Hsnap.
  - destruct (op_bind (save_snapshot_with_backoff _ _ _ _) _ s1) as [s2 r2] eqn:Hsv.
    apply (snapshot_and_retain hist' (Some (state_at hist k, Z.of_nat k))) in Hsv as [Hc2 Hr2];
      [|done|by split|done].
    destruct r2 as [[]|e].
    + unfold op_bind, set_recovered. intros [= <- <-]. exists hist'. simpl.
      split_and!; [done|done|by exists k'|]. intros _. split; [done|].
      intros Hne. rewrite <-(Hfull ltac:(by intros Hn; rewrite Hn in Hne)). done.
    + intros [= <- <-]. exists hist'. split_and!; [done|done| |done].
      unfold live in *. rewrite Hr1 in Hlive1. by rewrite Hr2.
  - unfold op_ret, op_bind, set_recovered. intros [= <- <-]. exists hist'. simpl.
    split_and!; [done|done|by exists k'|]. intros _. split; [done|].
    intros Hne. rewrite <-(Hfull ltac:(by intros Hn; rewrite Hn in Hne)). done.
Qed.

(** *** Recovery *)

Lemma replayed_suffix hist j n k recs :
  consistent hist j n → (k <= length hist)%nat →
  (∀ d : nat, (d = 0%nat ∨ ∃ s, s ∈ sview n pid ∧ Z.of_nat d <= SnapshotRecord.sequence_nr s) →
     (d <= k)%nat) →
  recs = filter (fun rec => Z.of_nat k + 1 <= EventRecord.sequence_nr rec ∧
                            EventRecord.sequence_nr rec <= u64_max) (jview j pid).2 →
  numbered (Z.of_nat k) (drop k hist) recs.
Proof.
  intros [Hb _ _ _ (d & Hd & Hnum & Hcov)] Hk Hdk ->.
  assert (d <= k)%nat as Hle by (apply Hdk; destruct Hcov as [?|[_ ?]]; auto).
  replace (filter _ (jview j pid).2) with
    (filter (fun rec => Z.of_nat k < EventRecord.sequence_nr rec) (jview j pid).2).
  2:{ apply filter_ext_elem. intros rec Hi.
      pose proof (numbered_range _ _ _ _ Hnum Hi) as Hr. rewrite length_drop in Hr. lia. }
  apply (numbered_filter_gt _ _ _ (Z.of_nat k)) in Hnum. cbv zeta in Hnum.
  rewrite length_drop in Hnum.
  replace (Z.to_nat _) with (k - d)%nat in Hnum by lia.
  rewrite drop_drop in Hnum. replace (d + (k - d))%nat with k in Hnum by lia.
  by replace (Z.of_nat d + Z.of_nat (k - d)) with (Z.of_nat k) in Hnum by lia.
Qed.

(** Where recovery starts: the newest snapshot, or the empty state. *)
Lemma recovery_base hist j n :
  consistent hist j n →
  ∃ k, (k <= length hist)%nat ∧
    match find_first (fun s => SnapshotSelection.matches SnapshotSelection.LATEST
                                 (SnapshotRecord.metadata s)) (sview n pid) with
    | Some s => SnapshotRecord.into_parts s
    | None => (EventSourcedActor.empty_state actor, SequenceNr_INITIAL)
    end = (state_at hist k, Z.of_nat k) ∧
    ∀ d : nat, (d = 0%nat ∨ ∃ s, s ∈ sview n pid ∧ Z.of_nat d <= SnapshotRecord.sequence_nr s) →
      (d <= k)%nat.
Proof.
  intros [Hb _ Hl Hsn _]. destruct (sview n pid) as [|h l].
  - exists 0%nat. split_and!; [lia|done|]. intros d [->|(s & Hs & _)]; [lia|].
    by apply not_elem_of_nil in Hs.
  - destruct (Hsn h) as (k & Hk & Hq & Hst & Ht); [by left|]. exists k. simpl.
    rewrite (matches_LATEST hist h) by (done || by exists k).
    unfold SnapshotRecord.into_parts. rewrite Hq, Hst. split_and!; [done|done|].
    intros d [->|(s & Hs & Hle)]; [lia|]. pose proof (listing_head _ _ Hl s Hs). lia.
Qed.

Lemma recover_history hist self self' r :
  consistent hist (journal self) (snapshots self) → live hist self →
  recover journal_ops snapshot_ops actor RecoveryOptions.new self = (self', r) →
  consistent hist (journal self') (snapshots self') ∧ live hist self' ∧
  (is_ok r = true →
   recovered self' = Some (state_at hist (length hist), Z.of_nat (length hist))).
Proof.
  intros Hc Hlive. unfold recover, op_bind, op_lift.
  destruct (EventSourcedActor.on_signal actor _) as [[]|e]; [|by intros [= <- <-]].
  unfold on_snapshots at 1. fold pid.
  destruct (load_snapshot snapshot_ops _ _ _) as [n' x] eqn:Hload.
  apply law_load_snapshot in Hload as [Hv Hx].
  assert (consistent hist (journal self) n') as Hc1 by (by eapply sview_consistent).
  destruct x as [o|e]; [|by intros [= <- <-]]. rewrite (Hx o eq_refl). clear Hx o. simpl.
  destruct (recovery_base _ _ _ Hc) as (k & Hk & -> & Hdk).
  assert (replay_from_after_snapshot (Z.of_nat k) RecoveryOptions.new = Z.of_nat k + 1) as ->.
  { pose proof (cons_bound _ _ _ Hc). unfold replay_from_after_snapshot, SequenceNr_next. simpl.
    rewrite add_u64_small by lia. unfold SequenceNr_FIRST. destruct (Z.ltb_spec 1 (Z.of_nat k + 1)); lia. }
  unfold SequenceNr_MAX. pose proof (cons_bound _ _ _ Hc).
  rewrite (proj2 (Z.leb_le _ _)) by lia. unfold on_journal at 1. simpl.
  destruct (replay journal_ops _ _ _ _) as [j' x] eqn:Hrep.
  apply law_replay in Hrep as [Hvj Hx].
  assert (consistent hist j' n') as Hc2 by (by eapply jview_consistent).
  destruct x as [recs|e]; [|by intros [= <- <-]]. fold pid in Hx.
  pose proof (replayed_suffix _ _ _ _ _ Hc Hk Hdk (Hx recs eq_refl)) as Hnum.
  unfold op_ret. rewrite (apply_records_numbered _ _ _ _ Hnum).
  rewrite state_at_snoc by (done || by rewrite take_ge). rewrite length_drop.
  replace (k + (length hist - k))%nat with (length hist) by lia.
  replace (Z.of_nat k + Z.of_nat (length hist - k)) with (Z.of_nat (length hist)) by lia.
  unfold set_recovered. intros [= <- <-]. split_and!; [done| |done].
  exists (length hist). split_and!; [lia|done|done].
Qed.

(** *** Runs *)

(** The history after a command: with its events when the journal moved. *)
Definition history_after hist self self' (effect : EventSourcedEffect.t E X) : list E :=
  if decide ((jview (journal self') pid).1 = (jview (journal self) pid).1) then hist
  else hist ++ (TaggedEvent.event <$> EventSourcedEffect.events effect).

(** Commands, starts and restarts, each of which may fail at any point. *)
Inductive es_step : rt * list E → rt * list E → Prop :=
| step_command self hist effect self' res :
    Z.of_nat (length hist + length (EventSourcedEffect.events effect)) < u64_max →
    apply_effect journal_ops snapshot_ops actor effect self = (self', res) →
    es_step (self, hist) (self', history_after hist self self' effect)
| step_started self hist self' res :
    started journal_ops snapshot_ops actor RecoveryOptions.new self = (self', res) →
    es_step (self, hist) (self', hist)
| step_restarted self hist self' res :
    restarted journal_ops snapshot_ops actor RecoveryOptions.new self = (self', res) →
    es_step (self, hist) (self', hist).

Definition holds_history (c : rt * list E) : Prop :=
  consistent c.2 (journal c.1) (snapshots c.1) ∧ live c.2 c.1.

Lemma started_history hist self self' res :
  holds_history (self, hist) →
  started journal_ops snapshot_ops actor RecoveryOptions.new self = (self', res) →
  holds_history (self', hist) ∧
  (is_ok res = true →
   recovered self' = Some (state_at hist (length hist), Z.of_nat (length hist))).
Proof.
  intros [Hc Hl]. unfold started, op_bind.
  destruct (recover _ _ _ _ self) as [s1 r] eqn:Hrec.
  destruct (recover_history _ _ _ _ Hc Hl Hrec) as (Hc1 & Hl1 & Hok).
  destruct r as [[]|e]; intros [= <- <-]; (split; [by split|done]).
Qed.

Lemma restarted_history hist self self' res :
  holds_history (self, hist) →
  restarted journal_ops snapshot_ops actor RecoveryOptions.new self = (self', res) →
  holds_history (self', hist) ∧
  (is_ok res = true →
   recovered self' = Some (state_at hist (length hist), Z.of_nat (length hist))).
Proof.
  intros Hh. unfold restarted. unfold op_bind at 1, op_lift.
  destruct (EventSourcedActor.on_signal actor _) as [[]|e]; [|by intros [= <- <-]].
  by apply started_history.
Qed.

Lemma es_step_history c c' :
  retention_safe → es_step c c' → holds_history c → holds_history c'.
Proof.
  intros Hsafe Hstep Hh. destruct Hstep as [self hist eff self' res Hb Hrun|self hist self' res Hrun|
    self hist self' res Hrun].
  - destruct Hh as [Hc Hl]; simpl in *.
    destruct (apply_effect_history _ _ _ _ _ Hsafe Hc Hl Hb Hrun) as (hist' & Hcase & Hc' & Hl' & _).
    assert (history_after hist self self' eff = hist') as ->; [|by split].
    unfold history_after. rewrite (cons_highest _ _ _ Hc), (cons_highest _ _ _ Hc').
    destruct Hcase as [->| ->]; [by rewrite decide_True|].
    destruct (EventSourcedEffect.events eff) as [|ev evs]; simpl.
    + rewrite app_nil_r. by rewrite decide_True.
    + rewrite decide_False; [done|]. rewrite length_app; simpl. lia.
  - by eapply started_history.
  - by eapply restarted_history.
Qed.

(** C2. Event sourcing is sound: after any sequence of commands, failures, crashes and
    restarts on a new journal and snapshot store - with transient errors, retries,
    snapshots and trimming in between - a restart that succeeds brings the actor to
    the state of applying, in order, exactly the events whose append succeeded, at the
    sequence number of the last one; with the default recovery options, and provided the
    retention policy does not delete events while keeping no snapshot. *)
Theorem recovery_reproduces_history (j : J) (n : N) (self self' : rt) (hist : list E)
    (action : ActorAction) :
  retention_safe → jview j pid = (0, []) → sview n pid = [] →
  rtc es_step (new j n, []) (self, hist) →
  restarted journal_ops snapshot_ops actor RecoveryOptions.new self = (self', Ok action) →
  recovered self' = Some (foldl (EventSourcedActor.apply_event actor)
                            (EventSourcedActor.empty_state actor) hist,
                          Z.of_nat (length hist)) ∧
  (jview (journal self') pid).1 = Z.of_nat (length hist).
Proof.
  intros Hsafe Hj Hn Hsteps Hrun.
  assert (holds_history (self, hist)) as Hh.
  { assert (holds_history (new j n, [])) as H0.
    { split; [|done]. simpl. split; rewrite ?Hj, ?Hn; try done.
      - split; constructor.
      - by intros s Hs%not_elem_of_nil.
      - exists 0%nat. split_and!; [done|apply numbered_nil|by left]. }
    clear Hrun. remember (self, hist) as c eqn:Hc. clear Hc. revert H0.
    induction Hsteps as [|c c1 c2 Hstep _ IH]; [done|]. intros H0.
    apply IH. by eapply es_step_history. }
  destruct (restarted_history _ _ _ _ Hh Hrun) as [[Hc _] Hrec].
  rewrite (Hrec eq_refl). unfold state_at. rewrite take_ge by done.
  split; [done|]. by apply cons_highest in Hc.
Qed.

End history.

(** ** A policy that loses events *)

Section keep_zero.
Context {S E : Type}.

(** Snapshot every event, keep none of them, and delete the events they cover. *)
Definition keep_zero_policy : RetentionCriteria.t :=
  RetentionCriteria.with_delete_events
    (RetentionCriteria.with_keep_snapshots (RetentionCriteria.every 1) 0).

Definition keep_zero_actor (empty : S) (apply_event : S → E → S) : EventSourcedActor.t S E :=
  EventSourcedActor.mk S E (PersistenceId.new "account|1") empty apply_event keep_zero_policy
    PersistFailureBackoff.disabled (fun _ => Ok tt).

(** With [keep_snapshots(0)] and event deletion a committed event is gone: the
    command succeeds and the actor moves to the new state, but both the event and the
    snapshot that covered it are deleted; a restart recovers the empty state at
    sequence number zero, and from then on every write is refused because the journal
    remembers the higher number. *)
Theorem keep_zero_policy_loses_events (empty : S) (apply_event : S → E → S) (first next : E) :
  let actor := keep_zero_actor empty apply_event in
  let journal := InMemoryEventJournal.journal (fun _ => 0) in
  let snapshots := InMemorySnapshotStore.store (fun _ => 0) in
  let run effect := apply_effect (X := unit) journal snapshots actor effect in
  let self0 := (started journal snapshots actor RecoveryOptions.new (new ∅ ∅)).1 in
  let self1 := (run (EventSourcedEffect.persist first) self0).1 in
  let self2 := (restarted journal snapshots actor RecoveryOptions.new self1).1 in
  (run (EventSourcedEffect.persist first) self0).2 = Ok (Continue, []) ∧
  recovered self1 = Some (apply_event empty first, 1) ∧
  recovered self2 = Some (empty, 0) ∧
  (run (EventSourcedEffect.persist next) self2).2 =
    Err (SequenceConflict (PersistenceId.new "account|1") 0 1).
Proof. vm_compute. done. Qed.

End keep_zero.

(** ** A concrete run *)

(** An account that snapshots every second event, keeps one snapshot and trims. *)
Definition account : EventSourcedActor.t Z Z :=
  EventSourcedActor.mk Z Z (PersistenceId.new "account|1") 0 Z.add
    (RetentionCriteria.with_delete_events
       (RetentionCriteria.with_keep_snapshots (RetentionCriteria.every 2) 1))
    PersistFailureBackoff.disabled (fun _ => Ok tt).

Definition account_journal : EventJournal _ Z := InMemoryEventJournal.journal (fun _ => 0).
Definition account_snapshots : SnapshotStore _ Z := InMemorySnapshotStore.store (fun _ => 0).

Lemma account_snapshots_laws : SnapshotStoreLaws account_snapshots memory_sview.
Proof. apply memory_snapshot_laws. intros n. uint. Qed.

Definition account_started :=
  (started account_journal account_snapshots account RecoveryOptions.new (new ∅ ∅)).1.
Definition deposit (amount : Z) self :=
  apply_effect (X := unit) account_journal account_snapshots account
    (EventSourcedEffect.persist amount) self.
Definition account_deposited := (deposit 30 (deposit 20 (deposit 10 account_started).1).1).1.
Definition account_restarted :=
  restarted account_journal account_snapshots account RecoveryOptions.new account_deposited.

Abbreviation account_step := (es_step (X := unit) account_journal account_snapshots memory_jview account).

Lemma deposit_step self hist amount hist' :
  Z.of_nat (length hist + 1) < u64_max →
  history_after (X := unit) memory_jview account hist self (deposit amount self).1
    (EventSourcedEffect.persist amount) = hist' →
  account_step (self, hist) ((deposit amount self).1, hist').
Proof. intros Hb <-. eapply step_command; [done|apply surjective_pairing]. Qed.

Lemma account_run : rtc account_step (new ∅ ∅, []) (account_deposited, [10; 20; 30]).
Proof.
  eapply rtc_l; [eapply step_started, surjective_pairing|].
  eapply rtc_l; [apply (deposit_step _ [] 10 [10]); vm_compute; reflexivity|].
  eapply rtc_l; [apply (deposit_step _ [10] 20 [10; 20]); vm_compute; reflexivity|].
  apply rtc_once, (deposit_step _ [10; 20] 30 [10; 20; 30]); vm_compute; reflexivity.
Qed.

(** Only the last event is still in the journal, and the restart recovers all three. *)
Lemma recovery_reproduces_history_witness :
  recovered account_restarted.1 = Some (60, 3) ∧
  length (memory_jview (journal account_deposited) (PersistenceId.new "account|1")).2 = 1%nat.
Proof.
  split; [|vm_compute; reflexivity].
  apply (recovery_reproduces_history (X := unit) account_journal account_snapshots memory_jview
           memory_sview (SnapshotStoreLaws0 := account_snapshots_laws) account ∅ ∅ account_deposited
           account_restarted.1 [10; 20; 30] Continue).
  - vm_compute. split; congruence.
  - reflexivity.
  - reflexivity.
  - apply account_run.
  - vm_compute. reflexivity.
Defined.
