(* ===== verification/Workflow.v ===== *)
(** * Workflow snapshots: [rakka-workflow/src/model.rs]

    The durable inbox/outbox snapshot of a workflow: entries and their life cycle,
    retry schedules, deduplication indexes, and compaction. *)

From S2P Require Import Prelude Persistence.

(** ** Identifiers *)

Module WorkflowId.
Record t := new { as_str : string }.
#[global] Instance eq_dec : EqDecision t.
Proof. solve_decision. Defined.

Definition persistence_id (self : t) : PersistenceId.t :=
  PersistenceId.new ("workflow:" +:+ as_str self).
End WorkflowId.

Module WorkflowMessageId.
Record t := new { as_str : string }.
#[global] Instance eq_dec : EqDecision t.
Proof. solve_decision. Defined.
#[global] Instance as_str_inj : Inj (=) (=) as_str.
Proof. newtype_inj. Qed.
#[global] Instance countable : Countable t := inj_countable' as_str new ltac:(by intros []).
#[global] Instance ordkey : OrdKey t := ordkey_via as_str.
End WorkflowMessageId.

Module OutboxMessageId.
Record t := new { as_str : string }.
#[global] Instance eq_dec : EqDecision t.
Proof. solve_decision. Defined.
#[global] Instance as_str_inj : Inj (=) (=) as_str.
Proof. newtype_inj. Qed.
#[global] Instance countable : Countable t := inj_countable' as_str new ltac:(by intros []).
#[global] Instance ordkey : OrdKey t := ordkey_via as_str.
End OutboxMessageId.

Module DeduplicationKey.
Record t := new { as_str : string }.
#[global] Instance eq_dec : EqDecision t.
Proof. solve_decision. Defined.
#[global] Instance as_str_inj : Inj (=) (=) as_str.
Proof. newtype_inj. Qed.
#[global] Instance countable : Countable t := inj_countable' as_str new ltac:(by intros []).
#[global] Instance ordkey : OrdKey t := ordkey_via as_str.
End DeduplicationKey.

Inductive OutboxTarget :=
| TargetActor (path : string)
| TargetEntity (entity_type entity_id : string)
| TargetApplication (name : string).

(** [WorkflowTimestamp] is a [u64] of milliseconds; [add_millis] is a plain [+]. *)
Definition add_millis (timestamp millis : Z) : Z := add_u64 timestamp millis.

Inductive WorkflowStatus := WorkflowActive | WorkflowCompleted | WorkflowFailed.
Inductive InboxStatus := InboxPending | InboxProcessing | InboxCompleted | InboxFailed.
Inductive OutboxStatus :=
| OutboxPending | OutboxDispatching | OutboxDispatched | OutboxFailed | OutboxExhausted
| OutboxCancelled.

#[global] Instance InboxStatus_eq_dec : EqDecision InboxStatus.
Proof. solve_decision. Defined.
#[global] Instance OutboxStatus_eq_dec : EqDecision OutboxStatus.
Proof. solve_decision. Defined.

(** ** Retries *)

Module RetryAttempt.
Record t := mk {
  attempts : Z;
  max_attempts : option Z;
  next_retry_at : option Z;
  last_error : option string;
}.

Definition new : t := mk 0 None None None.

Definition with_max_attempts (self : t) (max_attempts : Z) : t :=
  mk (attempts self) (Some max_attempts) (next_retry_at self) (last_error self).

Definition record_failure (self : t) (now delay_millis : Z) (error : string) : t :=
  mk (add_u32 (attempts self) 1) (max_attempts self) (Some (add_millis now delay_millis))
     (Some error).

Definition record_exhaustion (self : t) (error : string) : t :=
  mk (add_u32 (attempts self) 1) (max_attempts self) None (Some error).
End RetryAttempt.

Inductive RetryJitter := JitterNone | FixedMillis (millis : Z).

Definition jitter_millis (jitter : RetryJitter) : Z :=
  match jitter with JitterNone => 0 | FixedMillis millis => millis end.

Module RetryPolicy.
Record t := mk {
  max_attempts : Z;
  initial_backoff_millis : Z;
  max_backoff_millis : Z;
  multiplier : Z;
  jitter : RetryJitter;
}.

Definition new (max_attempts initial_backoff_millis max_backoff_millis : Z) : t :=
  mk max_attempts initial_backoff_millis max_backoff_millis 2 JitterNone.

Definition default : t := new 3 1000 30000.

Definition is_exhausted_after (self : t) (attempts : Z) : bool := max_attempts self <=? attempts.

Definition delay_after_failure (self : t) (attempts : Z) : Z :=
  let exponent := saturating_sub attempts 1 in
  let delay := Nat.iter (Z.to_nat exponent)
    (fun delay => saturating_mul_u64 delay (Z.max (multiplier self) 1))
    (initial_backoff_millis self) in
  saturating_add_u64 (Z.min delay (max_backoff_millis self)) (jitter_millis (jitter self)).
End RetryPolicy.

(** ** Entries *)

Module InboxEntry.
Record t := mk {
  message_id : WorkflowMessageId.t;
  deduplication_key : option DeduplicationKey.t;
  message_type : string;
  payload : list Z;
  status : InboxStatus;
  attempts : RetryAttempt.t;
  accepted_at : Z;
  updated_at : Z;
}.

Definition new (message_id : WorkflowMessageId.t) (deduplication_key : option DeduplicationKey.t)
    (message_type : string) (payload : list Z) (now : Z) : t :=
  mk message_id deduplication_key message_type payload InboxPending RetryAttempt.new now now.

Definition set_status (self : t) (status : InboxStatus) (now : Z) : t :=
  mk (message_id self) (deduplication_key self) (message_type self) (payload self) status
     (attempts self) (accepted_at self) now.
End InboxEntry.

Inductive OutboxFailureTransition :=
| Retry (next_retry_at : Z)
| Exhausted.

Module OutboxEntry.
Record t := mk {
  message_id : OutboxMessageId.t;
  deduplication_key : option DeduplicationKey.t;
  target : OutboxTarget;
  message_type : string;
  payload : list Z;
  status : OutboxStatus;
  attempts : RetryAttempt.t;
  retry_policy : RetryPolicy.t;
  scheduled_at : Z;
  updated_at : Z;
}.

Definition new (message_id : OutboxMessageId.t) (deduplication_key : option DeduplicationKey.t)
    (target : OutboxTarget) (message_type : string) (payload : list Z) (scheduled_at : Z)
    (retry_policy : RetryPolicy.t) : t :=
  mk message_id deduplication_key target message_type payload OutboxPending
     (RetryAttempt.with_max_attempts RetryAttempt.new (RetryPolicy.max_attempts retry_policy))
     retry_policy scheduled_at scheduled_at.

Definition is_due (self : t) (now : Z) : bool :=
  match status self with
  | OutboxPending => scheduled_at self <=? now
  | OutboxFailed =>
      match RetryAttempt.next_retry_at (attempts self) with
      | Some next => next <=? now
      | None => false
      end
  | OutboxDispatching => true
  | OutboxDispatched | OutboxExhausted | OutboxCancelled => false
  end.

Definition is_cancellable (self : t) : bool :=
  match status self with
  | OutboxPending | OutboxDispatching | OutboxFailed => true
  | _ => false
  end.

(** The entry with a status and an update time, and with new attempt metadata. *)
Definition set_status (self : t) (status : OutboxStatus) (now : Z) : t :=
  mk (message_id self) (deduplication_key self) (target self) (message_type self) (payload self)
     status (attempts self) (retry_policy self) (scheduled_at self) now.

Definition set_attempts (self : t) (attempts : RetryAttempt.t) : t :=
  mk (message_id self) (deduplication_key self) (target self) (message_type self) (payload self)
     (status self) attempts (retry_policy self) (scheduled_at self) (updated_at self).

Definition mark_dispatched (self : t) (now : Z) : t := set_status self OutboxDispatched now.
Definition mark_cancelled (self : t) (now : Z) : t := set_status self OutboxCancelled now.

Definition record_failure (self : t) (now : Z) (message : string) : t * OutboxFailureTransition :=
  let failed_attempts := saturating_add_u32 (RetryAttempt.attempts (attempts self)) 1 in
  if RetryPolicy.is_exhausted_after (retry_policy self) failed_attempts then
    (set_status (set_attempts self (RetryAttempt.record_exhaustion (attempts self) message))
       OutboxExhausted now, Exhausted)
  else
    let delay := RetryPolicy.delay_after_failure (retry_policy self) failed_attempts in
    let attempts := RetryAttempt.record_failure (attempts self) now delay message in
    (set_status (set_attempts self attempts) OutboxFailed now, Retry (add_millis now delay)).

Definition record_definitive_failure (self : t) (now : Z) (message : string) : t :=
  set_status (set_attempts self (RetryAttempt.record_exhaustion (attempts self) message))
    OutboxExhausted now.
End OutboxEntry.

(** ** Telemetry *)

Inductive WorkflowTelemetryEvent :=
| OutboxDispatchSucceeded (message_id : OutboxMessageId.t) (at_ : Z)
| OutboxDispatchRetried (message_id : OutboxMessageId.t) (attempt next_retry_at : Z)
    (message : string)
| OutboxDispatchTimedOut (message_id : OutboxMessageId.t) (attempt : Z)
    (next_retry_at : option Z) (message : string)
| OutboxDispatchExhausted (message_id : OutboxMessageId.t) (attempts : Z) (message : string)
| OutboxDispatchCancelled (message_id : OutboxMessageId.t) (at_ : Z) (message : string).

(** ** Compaction policy and report *)

Module WorkflowStateCompactionPolicy.
Record t := mk {
  completed_inbox_entry_retention_ms : option Z;
  completed_outbox_entry_retention_ms : option Z;
  deduplication_key_retention_ms : option Z;
}.

Definition disabled : t := mk None None None.
End WorkflowStateCompactionPolicy.

Module WorkflowStateCompactionReport.
Record t := mk {
  removed_inbox_entries : nat;
  removed_inbox_deduplication_keys : nat;
  removed_outbox_entries : nat;
  removed_outbox_deduplication_keys : nat;
}.

Definition is_empty (self : t) : bool :=
  bool_decide (removed_inbox_entries self = 0%nat ∧
    removed_inbox_deduplication_keys self = 0%nat ∧
    removed_outbox_entries self = 0%nat ∧
    removed_outbox_deduplication_keys self = 0%nat).
End WorkflowStateCompactionReport.

Definition window_elapsed (timestamp retention_ms now : Z) : bool :=
  retention_ms <=? saturating_sub now timestamp.

Definition should_remove_terminal_workflow_entry (terminal_at : Z)
    (entry_retention_ms : option Z) (has_deduplication_key : bool)
    (deduplication_retention_ms : option Z) (now : Z) : bool :=
  match entry_retention_ms with
  | None => false
  | Some entry_retention_ms =>
      if negb (window_elapsed terminal_at entry_retention_ms now) then false
      else if negb has_deduplication_key then true
      else match deduplication_retention_ms with
           | Some retention_ms => window_elapsed terminal_at retention_ms now
           | None => false
           end
  end.

(** ** The snapshot *)

(** A table of entries with its deduplication index, as the inbox and the outbox each
    have one; [key_of] is the entry's [deduplication_key]. *)
Section table.
Context {I V : Type} `{Countable I, !OrdKey I}.
Context (key_of : V → option DeduplicationKey.t).
Abbreviation table := (gmap I V * gmap DeduplicationKey.t I)%type.

(** [insert_inbox] and [insert_outbox], on the table. *)
Definition table_insert (t : table) (i : I) (v : V) : table :=
  (<[i := v]> t.1,
   match key_of v with Some key => <[key := i]> t.2 | None => t.2 end).

(** One removal of [compact], with the two counts it maintains. *)
Definition table_remove (acc : table * nat * nat) (i : I) : table * nat * nat :=
  let '(t, entries, keys) := acc in
  match t.1 !! i with
  | None => acc
  | Some v =>
      let inbox := delete i t.1 in
      match key_of v with
      | Some key =>
          match t.2 !! key with
          | Some _ => ((inbox, delete key t.2), S entries, S keys)
          | None => ((inbox, t.2), S entries, keys)
          end
      | None => ((inbox, t.2), S entries, keys)
      end
  end.

(** The ids to remove are collected first, in key order. *)
Definition table_compact (remove : V → bool) (t : table) : table * nat * nat :=
  foldl table_remove (t, 0%nat, 0%nat)
    (filter (fun entry => remove entry.2 = true) (btree_entries t.1)).*1.

Definition find_by_key (t : table) (key : DeduplicationKey.t) : option V :=
  match t.2 !! key with
  | Some i => t.1 !! i
  | None => None
  end.
End table.

Module WorkflowState.
Record t := mk {
  workflow_id : WorkflowId.t;
  status : WorkflowStatus;
  inbox : gmap WorkflowMessageId.t InboxEntry.t;
  inbox_deduplication : gmap DeduplicationKey.t WorkflowMessageId.t;
  outbox : gmap OutboxMessageId.t OutboxEntry.t;
  outbox_deduplication : gmap DeduplicationKey.t OutboxMessageId.t;
  updated_at : Z;
}.

Definition empty (workflow_id : WorkflowId.t) (now : Z) : t :=
  mk workflow_id WorkflowActive ∅ ∅ ∅ ∅ now.

Definition inbox_table (self : t) := (inbox self, inbox_deduplication self).
Definition outbox_table (self : t) := (outbox self, outbox_deduplication self).

Definition set_inbox (self : t)
    (tbl : gmap WorkflowMessageId.t InboxEntry.t * gmap DeduplicationKey.t WorkflowMessageId.t)
    (now : Z) : t :=
  mk (workflow_id self) (status self) tbl.1 tbl.2 (outbox self) (outbox_deduplication self) now.

Definition set_outbox (self : t)
    (tbl : gmap OutboxMessageId.t OutboxEntry.t * gmap DeduplicationKey.t OutboxMessageId.t)
    (now : Z) : t :=
  mk (workflow_id self) (status self) (inbox self) (inbox_deduplication self) tbl.1 tbl.2 now.

Definition inbox_entry (self : t) (message_id : WorkflowMessageId.t) : option InboxEntry.t :=
  inbox self !! message_id.

Definition inbox_entry_by_deduplication_key (self : t) (key : DeduplicationKey.t) :
    option InboxEntry.t := find_by_key (inbox_table self) key.

Definition outbox_entry (self : t) (message_id : OutboxMessageId.t) : option OutboxEntry.t :=
  outbox self !! message_id.

Definition outbox_entry_by_deduplication_key (self : t) (key : DeduplicationKey.t) :
    option OutboxEntry.t := find_by_key (outbox_table self) key.

Definition recoverable_inbox (self : t) : list InboxEntry.t :=
  filter (fun entry => InboxEntry.status entry = InboxPending ∨
                       InboxEntry.status entry = InboxProcessing ∨
                       InboxEntry.status entry = InboxFailed) (btree_values (inbox self)).

Definition due_outbox (self : t) (now : Z) : list OutboxEntry.t :=
  filter (fun entry => OutboxEntry.is_due entry now = true) (btree_values (outbox self)).

(** The filters of [compact]. *)
Definition removes_inbox (policy : WorkflowStateCompactionPolicy.t) (now : Z)
    (entry : InboxEntry.t) : bool :=
  bool_decide (InboxEntry.status entry = InboxCompleted) &&
  should_remove_terminal_workflow_entry (InboxEntry.updated_at entry)
    (WorkflowStateCompactionPolicy.completed_inbox_entry_retention_ms policy)
    (bool_decide (is_Some (InboxEntry.deduplication_key entry)))
    (WorkflowStateCompactionPolicy.deduplication_key_retention_ms policy) now.

Definition removes_outbox (policy : WorkflowStateCompactionPolicy.t) (now : Z)
    (entry : OutboxEntry.t) : bool :=
  match OutboxEntry.status entry with
  | OutboxDispatched | OutboxExhausted | OutboxCancelled =>
      should_remove_terminal_workflow_entry (OutboxEntry.updated_at entry)
        (WorkflowStateCompactionPolicy.completed_outbox_entry_retention_ms policy)
        (bool_decide (is_Some (OutboxEntry.deduplication_key entry)))
        (WorkflowStateCompactionPolicy.deduplication_key_retention_ms policy) now
  | _ => false
  end.

Definition compact (self : t) (policy : WorkflowStateCompactionPolicy.t) (now : Z) :
    t * WorkflowStateCompactionReport.t :=
  let '(inbox_tbl, inbox_entries, inbox_keys) :=
    table_compact InboxEntry.deduplication_key (removes_inbox policy now) (inbox_table self) in
  let '(outbox_tbl, outbox_entries, outbox_keys) :=
    table_compact OutboxEntry.deduplication_key (removes_outbox policy now) (outbox_table self) in
  let report := WorkflowStateCompactionReport.mk inbox_entries inbox_keys
                  outbox_entries outbox_keys in
  let updated_at :=
    if WorkflowStateCompactionReport.is_empty report then updated_at self else now in
  (set_outbox (set_inbox self inbox_tbl updated_at) outbox_tbl updated_at, report).

Definition insert_inbox (self : t) (entry : InboxEntry.t) : t :=
  set_inbox self (table_insert InboxEntry.deduplication_key (inbox_table self)
                    (InboxEntry.message_id entry) entry) (InboxEntry.updated_at entry).

Definition insert_outbox (self : t) (entry : OutboxEntry.t) : t :=
  set_outbox self (table_insert OutboxEntry.deduplication_key (outbox_table self)
                     (OutboxEntry.message_id entry) entry) (OutboxEntry.updated_at entry).

Definition update_inbox_status (self : t) (message_id : WorkflowMessageId.t)
    (status : InboxStatus) (now : Z) : option (t * InboxEntry.t) :=
  match inbox self !! message_id with
  | None => None
  | Some entry =>
      let entry := InboxEntry.set_status entry status now in
      Some (set_inbox self (<[message_id := entry]> (inbox self), inbox_deduplication self) now,
            entry)
  end.

(** [update_outbox]; the closure also returns what its caller captures. *)
Definition update_outbox {R} (self : t) (message_id : OutboxMessageId.t)
    (update : OutboxEntry.t → OutboxEntry.t * R) : option (t * OutboxEntry.t * R) :=
  match outbox self !! message_id with
  | None => None
  | Some entry =>
      let (entry, r) := update entry in
      Some (set_outbox self (<[message_id := entry]> (outbox self), outbox_deduplication self)
              (OutboxEntry.updated_at entry), entry, r)
  end.
End WorkflowState.

(** ** Deduplication indexes *)

Section index.
Context {I V : Type} `{Countable I, !OrdKey I}.
Context (key_of : V → option DeduplicationKey.t).
Abbreviation table := (gmap I V * gmap DeduplicationKey.t I)%type.
Implicit Types (t : table) (i : I) (v : V) (k : DeduplicationKey.t).

(** The index maps exactly the keys of the entries to their ids. *)
Definition indexed t : Prop :=
  (∀ i v k, t.1 !! i = Some v → key_of v = Some k → t.2 !! k = Some i) ∧
  (∀ k i, t.2 !! k = Some i → ∃ v, t.1 !! i = Some v ∧ key_of v = Some k).

Lemma find_by_key_Some t k v :
  indexed t → find_by_key t k = Some v ↔ ∃ i, t.1 !! i = Some v ∧ key_of v = Some k.
Proof.
  intros [H1 H2]. unfold find_by_key. split.
  - destruct (t.2 !! k) as [i|] eqn:Hk; [|done]. intros Hv. exists i. split; [done|].
    destruct (H2 _ _ Hk) as (v' & Hv' & Hkey). congruence.
  - intros (i & Hi & Hkey). by rewrite (H1 _ _ _ Hi Hkey).
Qed.

Lemma find_by_key_None t k : indexed t → find_by_key t k = None ↔ t.2 !! k = None.
Proof.
  intros [_ H2]. unfold find_by_key. destruct (t.2 !! k) as [i|] eqn:Hk; [|done].
  destruct (H2 _ _ Hk) as (v & -> & _). done.
Qed.

(** Inserting an entry whose id and key are both new. *)
Lemma indexed_insert t i v :
  indexed t → t.1 !! i = None →
  (∀ k, key_of v = Some k → find_by_key t k = None) → indexed (table_insert key_of t i v).
Proof.
  intros Hidx Hi Hk. assert (∀ k, key_of v = Some k → t.2 !! k = None) as Hnew.
  { intros k Hkey. apply find_by_key_None; auto. }
  destruct Hidx as [H1 H2]. unfold table_insert. split; simpl.
  - intros i' v' k'. rewrite lookup_insert. case_decide as Hd.
    + intros [= <-] Hkey. rewrite Hkey. rewrite lookup_insert_eq. congruence.
    + intros Hv' Hk'. destruct (key_of v) as [k|] eqn:Hkey; [|by eapply H1].
      rewrite lookup_insert_ne; [by eapply H1|]. intros ->.
      specialize (Hnew k' eq_refl). rewrite (H1 _ _ _ Hv' Hk') in Hnew. done.
  - intros k' i' Hk'. destruct (key_of v) as [k|] eqn:Hkey.
    + rewrite lookup_insert in Hk'. case_decide as Hd.
      * injection Hk' as <-. exists v. rewrite lookup_insert_eq. subst k'. done.
      * destruct (H2 _ _ Hk') as (v' & Hv' & Hkv). exists v'.
        rewrite lookup_insert_ne by congruence. done.
    + destruct (H2 _ _ Hk') as (v' & Hv' & Hkv). exists v'.
      rewrite lookup_insert_ne by congruence. done.
Qed.

(** Replacing an entry by one with the same key. *)
Lemma indexed_update t i v v' :
  indexed t → t.1 !! i = Some v → key_of v' = key_of v → indexed (<[i := v']> t.1, t.2).
Proof.
  intros [H1 H2] Hi Hkey. split; simpl.
  - intros i' w k. rewrite lookup_insert. case_decide as Hd.
    + intros [= <-]. subst i'. rewrite Hkey. by apply H1.
    + apply H1.
  - intros k i' Hk. destruct (H2 _ _ Hk) as (w & Hw & Hkw). rewrite lookup_insert.
    case_decide as Hd; [|by exists w]. subst i'. exists v'. split; [done|]. congruence.
Qed.

Definition has_key (o : option V) : bool :=
  match o with Some v => bool_decide (is_Some (key_of v)) | None => false end.

Lemma table_remove_spec t e n i v :
  indexed t → t.1 !! i = Some v →
  ∃ t', table_remove key_of (t, e, n) i = (t', S e, (n + if has_key (Some v) then 1 else 0)%nat) ∧
    indexed t' ∧ t'.1 = delete i t.1 ∧
    (∀ k, t'.2 !! k = match t.2 !! k with
                      | Some i' => if decide (i' = i) then None else Some i'
                      | None => None
                      end).
Proof.
  intros [H1 H2] Hi. unfold table_remove. rewrite Hi. simpl.
  assert (∀ idx : gmap DeduplicationKey.t I,
    (∀ k, idx !! k = match t.2 !! k with
                     | Some i' => if decide (i' = i) then None else Some i'
                     | None => None
                     end) → indexed (delete i t.1, idx)) as Hidx.
  { intros idx Hk. split; simpl.
    - intros i' w k. rewrite lookup_delete. case_decide; [done|]. intros Hw Hkw.
      rewrite Hk, (H1 _ _ _ Hw Hkw). by rewrite decide_False.
    - intros k i'. rewrite Hk. destruct (t.2 !! k) as [i''|] eqn:Hki; [|done].
      case_decide; [done|]. intros [= <-]. destruct (H2 _ _ Hki) as (w & Hw & Hkw).
      exists w. by rewrite lookup_delete_ne. }
  destruct (key_of v) as [key|] eqn:Hkey.
  - rewrite (H1 _ _ _ Hi Hkey). eexists. split; [f_equal; by rewrite Nat.add_1_r|].
    assert (∀ k, delete key t.2 !! k = match t.2 !! k with
      | Some i' => if decide (i' = i) then None else Some i' | None => None end) as Hk.
    { intros k. rewrite lookup_delete. case_decide as Hd.
      - subst k. rewrite (H1 _ _ _ Hi Hkey). by rewrite decide_True.
      - destruct (t.2 !! k) as [i'|] eqn:Hk; [|done]. rewrite decide_False; [done|].
        intros ->. destruct (H2 _ _ Hk) as (w & Hw & Hkw). congruence. }
    split_and!; [by apply Hidx|done|done].
  - eexists. split; [f_equal; by rewrite Nat.add_0_r|].
    assert (∀ k, t.2 !! k = match t.2 !! k with
      | Some i' => if decide (i' = i) then None else Some i' | None => None end) as Hk.
    { intros k. destruct (t.2 !! k) as [i'|] eqn:Hk; [|done]. rewrite decide_False; [done|].
      intros ->. destruct (H2 _ _ Hk) as (w & Hw & Hkw). congruence. }
    split_and!; [by apply Hidx|done|done].
Qed.

Lemma table_remove_all l t e n :
  indexed t → NoDup l → (∀ i, i ∈ l → is_Some (t.1 !! i)) →
  ∃ t', foldl (table_remove key_of) (t, e, n) l =
      (t', e + length l, n + length (filter (fun i => has_key (t.1 !! i) = true) l))%nat ∧
    indexed t' ∧
    (∀ i, t'.1 !! i = if decide (i ∈ l) then None else t.1 !! i) ∧
    (∀ k, t'.2 !! k = match t.2 !! k with
                      | Some i => if decide (i ∈ l) then None else Some i
                      | None => None
                      end).
Proof.
  intros Hidx Hnd. revert t e n Hidx.
  induction Hnd as [|i l Hil Hnd IH]; intros t e n Hidx Hall.
  { exists t. cbn [foldl filter list_filter length]. rewrite !Nat.add_0_r.
    split_and!; [done|done| |].
    - intros i. rewrite decide_False; [done|apply not_elem_of_nil].
    - intros k. destruct (t.2 !! k); [|done]. rewrite decide_False; [done|apply not_elem_of_nil]. }
  destruct (Hall i) as [v Hv]; [by left|]. cbn [foldl].
  destruct (table_remove_spec t e n i v Hidx Hv) as (t1 & -> & Hidx1 & Ht1 & Hk1).
  destruct (IH t1 (S e) (n + if has_key (Some v) then 1 else 0)%nat Hidx1)
    as (t' & -> & Hidx' & Hl & Hk).
  { intros i' Hi'. rewrite Ht1, lookup_delete_ne by (intros ->; done). apply Hall. by right. }
  exists t'. split_and!; [|done| |].
  - assert (filter (fun i' => has_key (t1.1 !! i') = true) l =
            filter (fun i' => has_key (t.1 !! i') = true) l) as ->.
    { apply filter_ext_elem. intros i' Hi'. by rewrite Ht1, lookup_delete_ne by (intros ->; done). }
    rewrite filter_cons, Hv. cbn [length].
    destruct (has_key (Some v)); [rewrite decide_True by done|rewrite decide_False by done];
      cbn [length]; (f_equal; [f_equal; lia|lia]).
  - intros i'. rewrite Hl, Ht1. destruct (decide (i' = i)) as [->|Hne].
    + rewrite lookup_delete_eq. rewrite (decide_True (P := i ∈ i :: l)) by (by left). by case_decide.
    + rewrite lookup_delete_ne by done. apply decide_ext. rewrite elem_of_cons. naive_solver.
  - intros k. rewrite Hk, Hk1. destruct (t.2 !! k) as [i'|]; [|done].
    destruct (decide (i' = i)) as [->|Hne].
    + by rewrite decide_True by (by left).
    + apply decide_ext. rewrite elem_of_cons. naive_solver.
Qed.

(** Compaction removes exactly the selected entries, with their keys, and counts them. *)
Lemma table_compact_spec remove t :
  indexed t →
  ∃ t' e n, table_compact key_of remove t = (t', e, n) ∧ indexed t' ∧
    (∀ i, t'.1 !! i = match t.1 !! i with
                      | Some v => if remove v then None else Some v
                      | None => None
                      end) ∧
    (∀ k, find_by_key t' k = match find_by_key t k with
                             | Some v => if remove v then None else Some v
                             | None => None
                             end) ∧
    e = length (filter (fun v => remove v = true) (btree_values t.1)) ∧
    n = length (filter (fun v => remove v = true ∧ is_Some (key_of v)) (btree_values t.1)).
Proof.
  intros Hidx. unfold table_compact.
  set (l := (filter (fun entry => remove entry.2 = true) (btree_entries t.1)).*1).
  assert (∀ i, i ∈ l ↔ ∃ v, t.1 !! i = Some v ∧ remove v = true) as Hl.
  { intros i. unfold l. rewrite list_elem_of_fmap. split.
    - intros ([i' v] & -> & [Hr Hin]%list_elem_of_filter). apply elem_of_btree_entries in Hin.
      by exists v.
    - intros (v & Hv & Hr). exists (i, v). split; [done|]. apply list_elem_of_filter.
      split; [done|]. by apply elem_of_btree_entries. }
  destruct (table_remove_all l t 0 0 Hidx) as (t' & -> & Hidx' & Ht' & Hk').
  { unfold l. eapply sublist_NoDup; [apply (NoDup_btree_keys t.1)|].
    apply fmap_sublist, sublist_filter. }
  { intros i (v & -> & _)%Hl. done. }
  assert (∀ i, t'.1 !! i = match t.1 !! i with
                      | Some v => if remove v then None else Some v | None => None end) as Hi.
  { intros i. rewrite Ht'. destruct (t.1 !! i) as [v|] eqn:Hv; [|by case_decide].
    destruct (remove v) eqn:Hr.
    - rewrite decide_True; [done|]. apply Hl. by exists v.
    - rewrite decide_False; [done|]. intros (v' & Hv' & Hr')%Hl. congruence. }
  eexists _, _, _. split; [done|]. split_and!; [done|done| | |].
  - intros k. unfold find_by_key. rewrite Hk'. destruct (t.2 !! k) as [i|] eqn:Hki; [|done].
    destruct (proj2 Hidx _ _ Hki) as (v & Hv & _). rewrite Hv.
    case_decide as Hin.
    + apply Hl in Hin as (v' & Hv' & Hr). replace v' with v in Hr by congruence. by rewrite Hr.
    + rewrite Hi, Hv. destruct (remove v) eqn:Hr; [|done].
      exfalso. apply Hin, Hl. by exists v.
  - unfold l, btree_values. cbn [Nat.add]. rewrite length_fmap, list_filter_fmap. by rewrite length_fmap.
  - cbn [Nat.add]. unfold l, btree_values. rewrite !list_filter_fmap, !length_fmap.
    rewrite list_filter_filter. f_equal. apply filter_ext_elem. intros [i v] Hin. simpl.
    apply elem_of_btree_entries in Hin. rewrite Hin. simpl. rewrite bool_decide_eq_true. tauto.
Qed.
End index.

(** ** Well-formed snapshots *)

(** Both indexes are exact, and entries are filed under their own ids. *)
Record workflow_wf (s : WorkflowState.t) : Prop := {
  wf_inbox : indexed InboxEntry.deduplication_key (WorkflowState.inbox_table s);
  wf_outbox : indexed OutboxEntry.deduplication_key (WorkflowState.outbox_table s);
  wf_inbox_ids : ∀ id e, WorkflowState.inbox s !! id = Some e → InboxEntry.message_id e = id;
  wf_outbox_ids : ∀ id e, WorkflowState.outbox s !! id = Some e → OutboxEntry.message_id e = id;
}.

Lemma empty_wf id now : workflow_wf (WorkflowState.empty id now).
Proof. by split. Qed.

Lemma insert_inbox_wf s e :
  workflow_wf s → WorkflowState.inbox s !! InboxEntry.message_id e = None →
  (∀ k, InboxEntry.deduplication_key e = Some k →
     WorkflowState.inbox_entry_by_deduplication_key s k = None) →
  workflow_wf (WorkflowState.insert_inbox s e).
Proof.
  intros [Hi Ho Hid Hod] Hnew Hk. split; [|done| |done].
  - exact (indexed_insert _ _ _ _ Hi Hnew Hk).
  - simpl. intros id e'. rewrite lookup_insert. case_decide; [by intros [= <-]|apply Hid].
Qed.

Lemma insert_outbox_wf s e :
  workflow_wf s → WorkflowState.outbox s !! OutboxEntry.message_id e = None →
  (∀ k, OutboxEntry.deduplication_key e = Some k →
     WorkflowState.outbox_entry_by_deduplication_key s k = None) →
  workflow_wf (WorkflowState.insert_outbox s e).
Proof.
  intros [Hi Ho Hid Hod] Hnew Hk. split; [done| |done|].
  - exact (indexed_insert _ _ _ _ Ho Hnew Hk).
  - simpl. intros id e'. rewrite lookup_insert. case_decide; [by intros [= <-]|apply Hod].
Qed.

Lemma update_inbox_wf s id st now s' e :
  workflow_wf s → WorkflowState.update_inbox_status s id st now = Some (s', e) → workflow_wf s'.
Proof.
  intros [Hi Ho Hid Hod]. unfold WorkflowState.update_inbox_status.
  destruct (WorkflowState.inbox s !! id) as [e0|] eqn:He; [|done]. intros [= <- <-].
  split; [|done| |done]; simpl.
  - by apply (indexed_update _ (WorkflowState.inbox_table s) id e0).
  - intros id' e'. rewrite lookup_insert. case_decide as Hd; [|apply Hid].
    intros [= <-]. simpl. subst id'. by apply Hid.
Qed.

(** The updates of outbox entries keep their identity. *)
Definition keeps_identity (e e' : OutboxEntry.t) : Prop :=
  OutboxEntry.message_id e' = OutboxEntry.message_id e ∧
  OutboxEntry.deduplication_key e' = OutboxEntry.deduplication_key e.

Lemma update_outbox_wf {R} s id (f : OutboxEntry.t → OutboxEntry.t * R) s' e r :
  (∀ e, keeps_identity e (f e).1) → workflow_wf s →
  WorkflowState.update_outbox s id f = Some (s', e, r) → workflow_wf s'.
Proof.
  intros Hf [Hi Ho Hid Hod]. unfold WorkflowState.update_outbox.
  destruct (WorkflowState.outbox s !! id) as [e0|] eqn:He; [|done].
  specialize (Hf e0) as [Hm Hk]. destruct (f e0) as [e1 r1]. simpl in *. intros [= <- <- <-].
  split; [done| |done|]; simpl.
  - by apply (indexed_update _ (WorkflowState.outbox_table s) id e0).
  - intros id' e'. rewrite lookup_insert. case_decide as Hd; [|apply Hod].
    intros [= <-]. subst id'. rewrite Hm. by apply Hod.
Qed.

Lemma record_failure_identity e now m : keeps_identity e (OutboxEntry.record_failure e now m).1.
Proof. unfold OutboxEntry.record_failure. by destruct (RetryPolicy.is_exhausted_after _ _). Qed.

(** ** Properties *)

(** What compaction keeps of a table. *)
Definition kept {V} (remove : V → bool) (o : option V) : option V :=
  match o with Some v => if remove v then None else Some v | None => None end.

(** Compaction is exact: it keeps the snapshot well formed, removes exactly the
    terminal entries whose windows have elapsed together with their deduplication
    keys - every other entry is still found by its id and by its key - and its report
    counts what was removed; when nothing was, the snapshot is unchanged. *)
Theorem compaction_exact (s : WorkflowState.t) (policy : WorkflowStateCompactionPolicy.t) (now : Z) :
  workflow_wf s →
  let (s', report) := WorkflowState.compact s policy now in
  let ri := WorkflowState.removes_inbox policy now in
  let ro := WorkflowState.removes_outbox policy now in
  workflow_wf s' ∧
  (∀ id, WorkflowState.inbox_entry s' id = kept ri (WorkflowState.inbox_entry s id)) ∧
  (∀ k, WorkflowState.inbox_entry_by_deduplication_key s' k =
          kept ri (WorkflowState.inbox_entry_by_deduplication_key s k)) ∧
  (∀ id, WorkflowState.outbox_entry s' id = kept ro (WorkflowState.outbox_entry s id)) ∧
  (∀ k, WorkflowState.outbox_entry_by_deduplication_key s' k =
          kept ro (WorkflowState.outbox_entry_by_deduplication_key s k)) ∧
  report = WorkflowStateCompactionReport.mk
    (length (filter (fun e => ri e = true) (btree_values (WorkflowState.inbox s))))
    (length (filter (fun e => ri e = true ∧ is_Some (InboxEntry.deduplication_key e))
               (btree_values (WorkflowState.inbox s))))
    (length (filter (fun e => ro e = true) (btree_values (WorkflowState.outbox s))))
    (length (filter (fun e => ro e = true ∧ is_Some (OutboxEntry.deduplication_key e))
               (btree_values (WorkflowState.outbox s)))) ∧
  WorkflowState.updated_at s' =
    (if WorkflowStateCompactionReport.is_empty report then WorkflowState.updated_at s else now).
Proof.
  intros [Hi Ho Hid Hod]. unfold WorkflowState.compact.
  destruct (table_compact_spec InboxEntry.deduplication_key
              (WorkflowState.removes_inbox policy now) _ Hi)
    as (ti & ei & ni & -> & Hti & Hil & Hik & -> & ->).
  destruct (table_compact_spec OutboxEntry.deduplication_key
              (WorkflowState.removes_outbox policy now) _ Ho)
    as (to & eo & no & -> & Hto & Hol & Hok & -> & ->).
  cbv zeta. simpl. split_and!; [|exact Hil| |exact Hol| |done|done].
  - split; unfold WorkflowState.inbox_table, WorkflowState.outbox_table; simpl.
    + by destruct ti.
    + by destruct to.
    + intros id e He. apply Hid. rewrite Hil in He.
      destruct (_ !! id) as [v|]; [|done]. by destruct (WorkflowState.removes_inbox policy now v).
    + intros id e He. apply Hod. rewrite Hol in He.
      destruct (_ !! id) as [v|]; [|done]. by destruct (WorkflowState.removes_outbox policy now v).
  - intros k. transitivity (find_by_key ti k); [by destruct ti|exact (Hik k)].
  - intros k. transitivity (find_by_key to k); [by destruct to|exact (Hok k)].
Qed.

(** Compaction respects the promises of its policy: work that is pending, in
    flight or waiting for a retry is always kept, and so is every entry with a
    deduplication key until both its own window and the deduplication window have
    passed since it became terminal. *)
Theorem compaction_keeps_live_work (policy : WorkflowStateCompactionPolicy.t) (now : Z)
    (i : InboxEntry.t) (o : OutboxEntry.t) :
  (InboxEntry.status i ≠ InboxCompleted → WorkflowState.removes_inbox policy now i = false) ∧
  (OutboxEntry.is_cancellable o = true → WorkflowState.removes_outbox policy now o = false) ∧
  (WorkflowState.removes_outbox policy now o = true →
     OutboxEntry.is_due o now = false ∧
     ∃ keep, WorkflowStateCompactionPolicy.completed_outbox_entry_retention_ms policy = Some keep ∧
       keep <= Z.max (now - OutboxEntry.updated_at o) 0 ∧
       (is_Some (OutboxEntry.deduplication_key o) → ∃ dedup,
          WorkflowStateCompactionPolicy.deduplication_key_retention_ms policy = Some dedup ∧
          dedup <= Z.max (now - OutboxEntry.updated_at o) 0)).
Proof.
  split_and!.
  - intros Hs. unfold WorkflowState.removes_inbox. by rewrite bool_decide_false.
  - unfold OutboxEntry.is_cancellable, WorkflowState.removes_outbox.
    by destruct (OutboxEntry.status o).
  - unfold WorkflowState.removes_outbox. intros Hr.
    assert (OutboxEntry.is_due o now = false) as Hdue.
    { unfold OutboxEntry.is_due. by destruct (OutboxEntry.status o). }
    split; [done|].
    assert (should_remove_terminal_workflow_entry (OutboxEntry.updated_at o)
      (WorkflowStateCompactionPolicy.completed_outbox_entry_retention_ms policy)
      (bool_decide (is_Some (OutboxEntry.deduplication_key o)))
      (WorkflowStateCompactionPolicy.deduplication_key_retention_ms policy) now = true) as Hrm
      by (by destruct (OutboxEntry.status o)).
    unfold should_remove_terminal_workflow_entry, window_elapsed, saturating_sub in Hrm.
    destruct (WorkflowStateCompactionPolicy.completed_outbox_entry_retention_ms policy)
      as [keep|]; [|done].
    exists keep. split; [done|].
    destruct (Z.leb_spec keep (Z.max (now - OutboxEntry.updated_at o) 0)); [|done]. split; [done|].
    intros Hkey. rewrite bool_decide_true in Hrm by done. simpl in Hrm.
    destruct (WorkflowStateCompactionPolicy.deduplication_key_retention_ms policy) as [dd|]; [|done].
    exists dd. split; [done|]. by apply Z.leb_le in Hrm.
Qed.

(** ** Retry schedules *)

Definition policy_wf (p : RetryPolicy.t) : Prop :=
  is_u32 (RetryPolicy.max_attempts p) ∧ is_u64 (RetryPolicy.initial_backoff_millis p) ∧
  is_u64 (RetryPolicy.max_backoff_millis p) ∧ is_u32 (RetryPolicy.multiplier p) ∧
  is_u64 (jitter_millis (RetryPolicy.jitter p)).

Lemma saturating_power d m n :
  0 <= d <= u64_max → 1 <= m →
  Nat.iter n (fun x => saturating_mul_u64 x m) d = Z.min (d * m ^ Z.of_nat n) u64_max.
Proof.
  intros Hd Hm. induction n as [|n IH]; [simpl; lia|]. cbn [Nat.iter nat_rect].
  change (nat_rect _ _ _ n) with (Nat.iter n (fun x => saturating_mul_u64 x m) d). rewrite IH.
  rewrite Nat2Z.inj_succ, Z.pow_succ_r by lia. unfold saturating_mul_u64.
  assert (0 <= d * m ^ Z.of_nat n) as Hpos by (apply Z.mul_nonneg_nonneg; [lia|apply Z.pow_nonneg; lia]).
  replace (d * (m * m ^ Z.of_nat n)) with (d * m ^ Z.of_nat n * m) by ring.
  destruct (Z.min_spec (d * m ^ Z.of_nat n) u64_max) as [[? ->]|[? ->]]; [done|].
  assert (0 <= u64_max) by (rewrite u64_max_val; lia). nia.
Qed.

(** The delay in closed form. *)
Definition backoff (p : RetryPolicy.t) (attempts : Z) : Z :=
  Z.min (Z.min (RetryPolicy.initial_backoff_millis p *
                  Z.max (RetryPolicy.multiplier p) 1 ^ (attempts - 1))
               (RetryPolicy.max_backoff_millis p) + jitter_millis (RetryPolicy.jitter p)) u64_max.

Lemma delay_closed_form p a :
  policy_wf p → 1 <= a → RetryPolicy.delay_after_failure p a = backoff p a.
Proof.
  intros (_ & Hi & Hm & Hmul & Hj) Ha. unfold RetryPolicy.delay_after_failure, backoff.
  rewrite saturating_power by (unfold is_u64, is_u32 in *; lia).
  unfold saturating_sub, saturating_add_u64. rewrite Z2Nat.id by lia.
  rewrite (Z.max_l (a - 1) 0) by lia. unfold is_u64 in *. lia.
Qed.

Lemma record_failure_attempts e now m :
  0 <= RetryAttempt.attempts (OutboxEntry.attempts e) < u32_max →
  RetryAttempt.attempts (OutboxEntry.attempts (OutboxEntry.record_failure e now m).1) =
    RetryAttempt.attempts (OutboxEntry.attempts e) + 1 ∧
  OutboxEntry.retry_policy (OutboxEntry.record_failure e now m).1 = OutboxEntry.retry_policy e ∧
  OutboxEntry.status (OutboxEntry.record_failure e now m).1 =
    (if RetryPolicy.max_attempts (OutboxEntry.retry_policy e) <=?
        RetryAttempt.attempts (OutboxEntry.attempts e) + 1
     then OutboxExhausted else OutboxFailed).
Proof.
  intros Ha. unfold OutboxEntry.record_failure, RetryPolicy.is_exhausted_after.
  unfold saturating_add_u32. rewrite Z.min_l by lia.
  destruct (_ <=? _); simpl; rewrite add_u32_small by lia; done.
Qed.

(** Consecutive failures of one entry. *)
Definition fail_n (n : nat) (now : Z) (m : string) (e : OutboxEntry.t) : OutboxEntry.t :=
  Nat.iter n (fun e => (OutboxEntry.record_failure e now m).1) e.

Lemma fail_n_attempts n now m e :
  RetryAttempt.attempts (OutboxEntry.attempts e) = 0 → Z.of_nat n <= u32_max →
  RetryAttempt.attempts (OutboxEntry.attempts (fail_n n now m e)) = Z.of_nat n ∧
  OutboxEntry.retry_policy (fail_n n now m e) = OutboxEntry.retry_policy e.
Proof.
  intros H0. induction n as [|n IH]; intros Hn; [done|].
  destruct IH as [Ha Hp]; [lia|].
  destruct (record_failure_attempts (fail_n n now m e) now m) as (Ha' & Hp' & _); [lia|].
  change (fail_n (S n) now m e) with (OutboxEntry.record_failure (fail_n n now m e) now m).1.
  rewrite Ha', Hp', Ha. split; [lia|done].
Qed.

(** The retry schedule: a failure that is not the last one makes the entry due
    again exactly [initial * multiplier^(attempts-1)] milliseconds later, capped by
    the maximum backoff, plus the jitter (as long as that instant is a [u64]); and an
    entry is exhausted by exactly its [max_attempts]-th failure, after which it is
    never due again. *)
Theorem retry_schedule (e : OutboxEntry.t) (now : Z) (m : string) (n : nat) :
  policy_wf (OutboxEntry.retry_policy e) →
  RetryAttempt.attempts (OutboxEntry.attempts e) = 0 → 0 <= now → Z.of_nat n < u32_max →
  let en := fail_n n now m e in
  let p := OutboxEntry.retry_policy e in
  let (e', transition) := OutboxEntry.record_failure en now m in
  (Z.of_nat n + 1 < RetryPolicy.max_attempts p → now + backoff p (Z.of_nat n + 1) <= u64_max →
     transition = Retry (now + backoff p (Z.of_nat n + 1)) ∧
     OutboxEntry.status e' = OutboxFailed ∧
     ∀ t, OutboxEntry.is_due e' t = (now + backoff p (Z.of_nat n + 1) <=? t)) ∧
  (RetryPolicy.max_attempts p <= Z.of_nat n + 1 →
     transition = Exhausted ∧ OutboxEntry.status e' = OutboxExhausted ∧
     ∀ t, OutboxEntry.is_due e' t = false).
Proof.
  intros Hwf H0 Hnow Hn. cbv zeta.
  destruct (fail_n_attempts n now m e H0 ltac:(lia)) as [Ha Hp].
  set (en := fail_n n now m e) in *. rewrite <-Hp in *.
  unfold OutboxEntry.record_failure, RetryPolicy.is_exhausted_after, saturating_add_u32.
  rewrite Ha, Z.min_l by lia.
  destruct (Z.leb_spec (RetryPolicy.max_attempts (OutboxEntry.retry_policy en)) (Z.of_nat n + 1)).
  - split; [lia|]. done.
  - split; [|lia]. intros _ Hb. rewrite delay_closed_form by (done || lia).
    assert (0 <= backoff (OutboxEntry.retry_policy en) (Z.of_nat n + 1)) as Hpos.
    { destruct Hwf as (_ & Hi & Hm & _ & Hj). unfold backoff, is_u64 in *.
      assert (0 <= RetryPolicy.initial_backoff_millis (OutboxEntry.retry_policy en) *
        Z.max (RetryPolicy.multiplier (OutboxEntry.retry_policy en)) 1 ^ (Z.of_nat n + 1 - 1))
        by (apply Z.mul_nonneg_nonneg; [lia|apply Z.pow_nonneg; lia]). lia. }
    assert (add_millis now (backoff (OutboxEntry.retry_policy en) (Z.of_nat n + 1)) =
            now + backoff (OutboxEntry.retry_policy en) (Z.of_nat n + 1)) as Hadd
      by (apply add_u64_small; lia).
    unfold OutboxEntry.is_due. simpl. by rewrite Hadd.
Qed.

(** A backoff that reaches past the last [u64] millisecond wraps around: the
    failed entry is due again immediately, at the very instant it failed. *)
Theorem overflowing_backoff_is_due_at_once (e : OutboxEntry.t) (now : Z) (m : string) :
  policy_wf (OutboxEntry.retry_policy e) → is_u64 now →
  0 <= RetryAttempt.attempts (OutboxEntry.attempts e) →
  RetryAttempt.attempts (OutboxEntry.attempts e) + 1 <
    RetryPolicy.max_attempts (OutboxEntry.retry_policy e) →
  u64_max < now + backoff (OutboxEntry.retry_policy e)
                    (RetryAttempt.attempts (OutboxEntry.attempts e) + 1) →
  OutboxEntry.is_due (OutboxEntry.record_failure e now m).1 now = true.
Proof.
  intros Hwf Hnow Ha Hmax Hover.
  pose proof Hwf as ((_ & Hmax') & _ & _ & _ & _).
  unfold OutboxEntry.record_failure, RetryPolicy.is_exhausted_after, saturating_add_u32.
  rewrite Z.min_l by lia. rewrite (proj2 (Z.leb_gt _ _)) by lia. simpl.
  rewrite delay_closed_form by (done || lia). unfold OutboxEntry.is_due. simpl.
  unfold add_millis, add_u64, wrap_u64. apply Z.leb_le.
  assert (backoff (OutboxEntry.retry_policy e)
            (RetryAttempt.attempts (OutboxEntry.attempts e) + 1) <= u64_max) as Hb
    by (unfold backoff; lia).
  unfold is_u64 in Hnow.
  rewrite <-(Z_mod_plus_full _ (-1)), Z.mod_small by lia. lia.
Qed.

(** ** Concrete snapshots *)

Definition order_workflow : WorkflowId.t := WorkflowId.new "order-1".
Definition payment : OutboxEntry.t :=
  OutboxEntry.new (OutboxMessageId.new "pay") (Some (DeduplicationKey.new "pay-1"))
    (TargetApplication "payments") "charge" [1; 2] 1000 (RetryPolicy.new 3 1000 30000).

(** A workflow with one delivered payment. *)
Definition paid_order : WorkflowState.t :=
  WorkflowState.insert_outbox (WorkflowState.empty order_workflow 1000)
    (OutboxEntry.mark_dispatched payment 2000).

Lemma paid_order_wf : workflow_wf paid_order.
Proof.
  apply insert_outbox_wf; [apply empty_wf|reflexivity|]. intros k _. reflexivity.
Qed.

Definition hour_policy : WorkflowStateCompactionPolicy.t :=
  WorkflowStateCompactionPolicy.mk (Some 3600000) (Some 3600000) (Some 7200000).

(** After an hour and a half its deduplication key still protects it; after three it goes. *)
Lemma compaction_exact_witness :
  WorkflowState.outbox_entry (WorkflowState.compact paid_order hour_policy 5400000).1
    (OutboxMessageId.new "pay") = Some (OutboxEntry.mark_dispatched payment 2000) ∧
  WorkflowState.outbox_entry_by_deduplication_key
    (WorkflowState.compact paid_order hour_policy 10800000).1 (DeduplicationKey.new "pay-1") = None.
Proof.
  pose proof (compaction_exact paid_order hour_policy 5400000 paid_order_wf) as Hearly.
  pose proof (compaction_exact paid_order hour_policy 10800000 paid_order_wf) as Hlate.
  destruct (WorkflowState.compact paid_order hour_policy 5400000) as [s1 r1].
  destruct (WorkflowState.compact paid_order hour_policy 10800000) as [s2 r2].
  destruct Hearly as (_ & _ & _ & Hid & _). destruct Hlate as (_ & _ & _ & _ & Hkey & _).
  simpl. rewrite Hid, Hkey. vm_compute. split; reflexivity.
Defined.

(** The second failure of a payment is retried after two seconds. *)
Lemma retry_schedule_witness :
  let (e', transition) := OutboxEntry.record_failure (fail_n 1 5000 "down" payment) 5000 "down" in
  transition = Retry 7000 ∧ ∀ t, OutboxEntry.is_due e' t = (7000 <=? t).
Proof.
  pose proof (retry_schedule payment 5000 "down" 1) as Hsched. cbv zeta in Hsched.
  destruct (OutboxEntry.record_failure (fail_n 1 5000 "down" payment) 5000 "down") as [e' tr].
  destruct Hsched as [Hretry _].
  - vm_compute. repeat split; congruence.
  - reflexivity.
  - lia.
  - vm_compute. reflexivity.
  - destruct Hretry as (-> & _ & Hdue); [vm_compute; reflexivity|vm_compute; congruence|].
    split; [reflexivity|exact Hdue].
Defined.

(** A policy whose backoff is the longest representable one. *)
Definition patient : OutboxEntry.t :=
  OutboxEntry.new (OutboxMessageId.new "pay") None (TargetApplication "payments") "charge" [] 0
    (RetryPolicy.new 3 u64_max u64_max).

Lemma overflowing_backoff_is_due_at_once_witness :
  OutboxEntry.is_due (OutboxEntry.record_failure patient 5000 "down").1 5000 = true.
Proof.
  apply overflowing_backoff_is_due_at_once.
  - vm_compute. repeat split; congruence.
  - vm_compute. split; congruence.
  - vm_compute. congruence.
  - vm_compute. reflexivity.
  - vm_compute. reflexivity.
Defined.
