(* ===== verification/Inbox.v ===== *)
(** * The durable inbox: [rakka-workflow/src/inbox.rs], [error.rs] and [clock.rs]

    The runtime that accepts, schedules, dispatches and settles the messages of one
    workflow through a revision-fenced state store.  The store is used through its
    interface, the dispatcher and the clock are arguments. *)

From S2P Require Import Prelude Persistence DurableState Workflow.

(** ** Errors *)

Inductive WorkflowError :=
| WorkflowNotRecovered (workflow_id : WorkflowId.t)
| WorkflowRevisionConflict (workflow_id : WorkflowId.t) (expected actual : Z)
| WorkflowPersistence (error : DurableError)
| InboxEntryNotFound (workflow_id : WorkflowId.t) (message_id : WorkflowMessageId.t)
| OutboxEntryNotFound (workflow_id : WorkflowId.t) (message_id : OutboxMessageId.t).

Definition WorkflowError_code (e : WorkflowError) : string :=
  match e with
  | WorkflowNotRecovered _ => "not-recovered"
  | WorkflowRevisionConflict _ _ _ => "revision-conflict"
  | WorkflowPersistence _ => "persistence-error"
  | InboxEntryNotFound _ _ => "inbox-entry-not-found"
  | OutboxEntryNotFound _ _ => "outbox-entry-not-found"
  end.

Definition map_durable_error (workflow_id : WorkflowId.t) (error : DurableError) : WorkflowError :=
  match error with
  | RevisionConflict _ expected actual => WorkflowRevisionConflict workflow_id expected actual
  | error => WorkflowPersistence error
  end.

(** ** Commands and results *)

Module InboxCommand.
Record t := mk {
  message_id : WorkflowMessageId.t;
  deduplication_key : option DeduplicationKey.t;
  message_type : string;
  payload : list Z;
}.
End InboxCommand.

Inductive InboxAcceptance :=
| Accepted (entry : InboxEntry.t) (revision : Z)
| InboxDuplicate (entry : InboxEntry.t) (revision : Z).

Module OutboxCommand.
Record t := mk {
  message_id : OutboxMessageId.t;
  deduplication_key : option DeduplicationKey.t;
  target : OutboxTarget;
  message_type : string;
  payload : list Z;
  scheduled_at : option Z;
  retry_policy : RetryPolicy.t;
}.
End OutboxCommand.

Inductive OutboxAcceptance :=
| Scheduled (entry : OutboxEntry.t) (revision : Z)
| OutboxDuplicate (entry : OutboxEntry.t) (revision : Z).

Inductive OutboxDispatchResult :=
| DispatchSuccess
| DispatchFailure (message : string)
| DispatchTimeout (message : string).

(** ** [DurableInbox] *)

Module DurableInbox.
Section inbox.
Context {St : Type} (store_ops : DurableStateStore St WorkflowState.t).
Context (workflow_id : WorkflowId.t).

(** The readings the workflow clock will give, in order; [ticks] counts those taken. *)
Context (readings : nat → Z).

Record t := mk {
  store : St;
  record : option (StateRecord.t WorkflowState.t);
  stale : bool;
  ticks : nat;
}.

Abbreviation wop := (op t WorkflowError).

Let pid := WorkflowId.persistence_id workflow_id.

Definition with_clock (st : St) : t := mk st None false 0.

Definition now : wop Z := fun self =>
  (mk (store self) (record self) (stale self) (S (ticks self)), Ok (readings (ticks self))).

Definition set_record (r : StateRecord.t WorkflowState.t) (stale' : bool) : wop unit := fun self =>
  (mk (store self) (Some r) stale' (ticks self), Ok tt).

Definition recovered_record : wop (StateRecord.t WorkflowState.t) := fun self =>
  (self, ok_or (WorkflowNotRecovered workflow_id) (record self)).

Definition revision : wop Z := do! record := recovered_record in op_ret (StateRecord.revision record).

(** [state]. *)
Definition current_state : wop WorkflowState.t :=
  do! record := recovered_record in op_ret (StateRecord.state record).

Definition recover : wop WorkflowState.t := fun self =>
  match load store_ops (store self) pid with
  | (st, Err e) => (mk st (record self) (stale self) (ticks self), Err (map_durable_error workflow_id e))
  | (st, Ok loaded) =>
      (do! record :=
         (match loaded with
          | Some record => op_ret record
          | None => do! now := now in
                    op_ret (StateRecord.missing (WorkflowState.empty workflow_id now))
          end) in
       do! _ := set_record record false in
       op_ret (StateRecord.state record)) (mk st (record self) (stale self) (ticks self))
  end.

(** The compare-and-set of every mutating method: [persistence_failure] marks the inbox
    stale on a lost revision, and success replaces the cached record. *)
Definition persist_record (expected_revision : Z) (next_state : WorkflowState.t) :
    wop (StateRecord.t WorkflowState.t) := fun self =>
  match compare_and_set store_ops (store self) pid expected_revision next_state with
  | (st, Ok next_record) => (mk st (Some next_record) (stale self) (ticks self), Ok next_record)
  | (st, Err error) =>
      let stale' := match error with RevisionConflict _ _ _ => true | _ => stale self end in
      (mk st (record self) stale' (ticks self), Err (map_durable_error workflow_id error))
  end.

Definition persist_state (expected_revision : Z) (next_state : WorkflowState.t) : wop unit :=
  do! _ := persist_record expected_revision next_state in op_ret tt.

Definition accept (command : InboxCommand.t) : wop InboxAcceptance :=
  do! record := recovered_record in
  let state := StateRecord.state record in
  match WorkflowState.inbox_entry state (InboxCommand.message_id command) with
  | Some entry => op_ret (InboxDuplicate entry (StateRecord.revision record))
  | None =>
      match (key ← InboxCommand.deduplication_key command;
             WorkflowState.inbox_entry_by_deduplication_key state key) with
      | Some entry => op_ret (InboxDuplicate entry (StateRecord.revision record))
      | None =>
          do! now := now in
          let entry := InboxEntry.new (InboxCommand.message_id command)
            (InboxCommand.deduplication_key command) (InboxCommand.message_type command)
            (InboxCommand.payload command) now in
          do! next_record := persist_record (StateRecord.revision record)
                               (WorkflowState.insert_inbox state entry) in
          op_ret (Accepted entry (StateRecord.revision next_record))
      end
  end.

Definition transition_inbox (message_id : WorkflowMessageId.t) (status : InboxStatus) :
    wop InboxEntry.t :=
  do! record := recovered_record in
  do! now := now in
  match WorkflowState.update_inbox_status (StateRecord.state record) message_id status now with
  | None => op_err (InboxEntryNotFound workflow_id message_id)
  | Some (next_state, entry) =>
      do! _ := persist_record (StateRecord.revision record) next_state in op_ret entry
  end.

Definition schedule_outbox (command : OutboxCommand.t) : wop OutboxAcceptance :=
  do! record := recovered_record in
  let state := StateRecord.state record in
  match WorkflowState.outbox_entry state (OutboxCommand.message_id command) with
  | Some entry => op_ret (OutboxDuplicate entry (StateRecord.revision record))
  | None =>
      match (key ← OutboxCommand.deduplication_key command;
             WorkflowState.outbox_entry_by_deduplication_key state key) with
      | Some entry => op_ret (OutboxDuplicate entry (StateRecord.revision record))
      | None =>
          do! now := now in
          let entry := OutboxEntry.new (OutboxCommand.message_id command)
            (OutboxCommand.deduplication_key command) (OutboxCommand.target command)
            (OutboxCommand.message_type command) (OutboxCommand.payload command)
            (default now (OutboxCommand.scheduled_at command))
            (OutboxCommand.retry_policy command) in
          do! next_record := persist_record (StateRecord.revision record)
                               (WorkflowState.insert_outbox state entry) in
          op_ret (Scheduled entry (StateRecord.revision next_record))
      end
  end.

Definition recoverable_inbox : wop (list InboxEntry.t) :=
  do! state := current_state in op_ret (WorkflowState.recoverable_inbox state).

Definition due_outbox : wop (list OutboxEntry.t) :=
  do! state := current_state in
  do! now := now in
  op_ret (WorkflowState.due_outbox state now).

(** The shape of the outbox methods: update the entry, persist, and return it with
    what the update captured. *)
Definition settle_outbox {R} (message_id : OutboxMessageId.t) (record : StateRecord.t WorkflowState.t)
    (update : OutboxEntry.t → OutboxEntry.t * R) : wop (OutboxEntry.t * R) :=
  match WorkflowState.update_outbox (StateRecord.state record) message_id update with
  | None => op_err (OutboxEntryNotFound workflow_id message_id)
  | Some (next_state, entry, r) =>
      do! _ := persist_state (StateRecord.revision record) next_state in op_ret (entry, r)
  end.

(** The clock is read inside the closure, so only when the entry exists. *)
Definition mark_outbox_dispatching (message_id : OutboxMessageId.t) : wop OutboxEntry.t :=
  do! record := recovered_record in
  match WorkflowState.outbox_entry (StateRecord.state record) message_id with
  | None => op_err (OutboxEntryNotFound workflow_id message_id)
  | Some _ =>
      do! now := now in
      do! settled := settle_outbox message_id record
            (fun entry => (OutboxEntry.set_status entry OutboxDispatching now, tt)) in
      op_ret settled.1
  end.

Definition record_outbox_success (message_id : OutboxMessageId.t) : wop WorkflowTelemetryEvent :=
  do! now := now in
  do! record := recovered_record in
  do! settled := settle_outbox message_id record
        (fun entry => (OutboxEntry.mark_dispatched entry now, tt)) in
  op_ret (OutboxDispatchSucceeded (OutboxEntry.message_id settled.1) now).

Definition record_outbox_cancelled (message_id : OutboxMessageId.t) (message : string) :
    wop (option WorkflowTelemetryEvent) :=
  do! now := now in
  do! record := recovered_record in
  match WorkflowState.update_outbox (StateRecord.state record) message_id
          (fun entry => if OutboxEntry.is_cancellable entry
                        then (OutboxEntry.mark_cancelled entry now, true)
                        else (entry, false)) with
  | None => op_err (OutboxEntryNotFound workflow_id message_id)
  | Some (next_state, entry, cancelled) =>
      if negb cancelled then op_ret None
      else
        do! _ := persist_state (StateRecord.revision record) next_state in
        op_ret (Some (OutboxDispatchCancelled (OutboxEntry.message_id entry) now message))
  end.

Definition record_outbox_failure (message_id : OutboxMessageId.t) (message : string)
    (timed_out : bool) : wop WorkflowTelemetryEvent :=
  do! now := now in
  do! record := recovered_record in
  do! settled := settle_outbox message_id record
        (fun entry => OutboxEntry.record_failure entry now message) in
  let (entry, transition) := settled in
  let attempts := RetryAttempt.attempts (OutboxEntry.attempts entry) in
  op_ret
    (match transition with
     | Retry next_retry_at =>
         if timed_out
         then OutboxDispatchTimedOut (OutboxEntry.message_id entry) attempts (Some next_retry_at)
                message
         else OutboxDispatchRetried (OutboxEntry.message_id entry) attempts next_retry_at message
     | Exhausted => OutboxDispatchExhausted (OutboxEntry.message_id entry) attempts message
     end).

Definition record_outbox_exhausted (message_id : OutboxMessageId.t) (message : string) :
    wop WorkflowTelemetryEvent :=
  do! now := now in
  do! record := recovered_record in
  do! settled := settle_outbox message_id record
        (fun entry => (OutboxEntry.record_definitive_failure entry now message, tt)) in
  op_ret (OutboxDispatchExhausted (OutboxEntry.message_id settled.1)
            (RetryAttempt.attempts (OutboxEntry.attempts settled.1)) message).

(** *** Dispatch

    The application's dispatcher is a function on a state [D] of its own. *)
Section dispatch.
Context {D : Type} (dispatch : D → OutboxEntry.t → D * OutboxDispatchResult).

Abbreviation dop := (op (t * D) WorkflowError).

Definition on_inbox {A} (m : wop A) : dop A := fun s =>
  let (self, r) := m s.1 in ((self, s.2), r).

Definition call_dispatcher (entry : OutboxEntry.t) : dop OutboxDispatchResult := fun s =>
  let (d, r) := dispatch s.2 entry in ((s.1, d), Ok r).

(** One iteration of the loop of [dispatch_due_outbox]. *)
Definition dispatch_entry (entry : OutboxEntry.t) : dop WorkflowTelemetryEvent :=
  let message_id := OutboxEntry.message_id entry in
  do! dispatching := on_inbox (mark_outbox_dispatching message_id) in
  do! outcome := call_dispatcher dispatching in
  match outcome with
  | DispatchSuccess => on_inbox (record_outbox_success message_id)
  | DispatchFailure message => on_inbox (record_outbox_failure message_id message false)
  | DispatchTimeout message => on_inbox (record_outbox_failure message_id message true)
  end.

Definition dispatch_due_outbox : dop (list WorkflowTelemetryEvent) :=
  do! due := on_inbox due_outbox in
  op_each dispatch_entry due.
End dispatch.
End inbox.
Arguments t : clear implicits.
End DurableInbox.

(** ** Every operation of the inbox *)

Inductive InboxOperation :=
| OpRecover
| OpAccept (command : InboxCommand.t)
| OpTransition (message_id : WorkflowMessageId.t) (status : InboxStatus)
| OpSchedule (command : OutboxCommand.t)
| OpMarkDispatching (message_id : OutboxMessageId.t)
| OpSuccess (message_id : OutboxMessageId.t)
| OpCancelled (message_id : OutboxMessageId.t) (message : string)
| OpFailure (message_id : OutboxMessageId.t) (message : string) (timed_out : bool)
| OpExhausted (message_id : OutboxMessageId.t) (message : string).

(** What an operation answers, as far as acceptance goes. *)
Inductive InboxAnswer :=
| AnswerInbox (acceptance : InboxAcceptance)
| AnswerOutbox (acceptance : OutboxAcceptance)
| AnswerDone.

Section operations.
Context {St : Type} (ops : DurableStateStore St WorkflowState.t).
Context (wid : WorkflowId.t) (readings : nat → Z).

Definition run_operation (o : InboxOperation) : op (DurableInbox.t St) WorkflowError InboxAnswer :=
  match o with
  | OpRecover => do! _ := DurableInbox.recover ops wid readings in op_ret AnswerDone
  | OpAccept c => do! a := DurableInbox.accept ops wid readings c in op_ret (AnswerInbox a)
  | OpTransition id s =>
      do! _ := DurableInbox.transition_inbox ops wid readings id s in op_ret AnswerDone
  | OpSchedule c =>
      do! a := DurableInbox.schedule_outbox ops wid readings c in op_ret (AnswerOutbox a)
  | OpMarkDispatching id =>
      do! _ := DurableInbox.mark_outbox_dispatching ops wid readings id in op_ret AnswerDone
  | OpSuccess id =>
      do! _ := DurableInbox.record_outbox_success ops wid readings id in op_ret AnswerDone
  | OpCancelled id m =>
      do! _ := DurableInbox.record_outbox_cancelled ops wid readings id m in op_ret AnswerDone
  | OpFailure id m b =>
      do! _ := DurableInbox.record_outbox_failure ops wid readings id m b in op_ret AnswerDone
  | OpExhausted id m =>
      do! _ := DurableInbox.record_outbox_exhausted ops wid readings id m in op_ret AnswerDone
  end.
End operations.

(** ** What a write may do to a snapshot *)

(** Entries are never lost and keep their identity and content. *)
Definition same_message (e e' : InboxEntry.t) : Prop :=
  InboxEntry.message_id e' = InboxEntry.message_id e ∧
  InboxEntry.deduplication_key e' = InboxEntry.deduplication_key e ∧
  InboxEntry.message_type e' = InboxEntry.message_type e ∧
  InboxEntry.payload e' = InboxEntry.payload e.

#[global] Instance same_message_preorder : PreOrder same_message.
Proof. unfold same_message. split; [done|]. intros x y z. intuition congruence. Qed.

Record evolves (s s' : WorkflowState.t) : Prop := {
  ev_wf : workflow_wf s → workflow_wf s';
  ev_inbox id e : WorkflowState.inbox s !! id = Some e →
    ∃ e', WorkflowState.inbox s' !! id = Some e' ∧ same_message e e';
  ev_outbox id e : WorkflowState.outbox s !! id = Some e →
    ∃ e', WorkflowState.outbox s' !! id = Some e' ∧ keeps_identity e e';
}.

#[global] Instance keeps_identity_refl : Reflexive keeps_identity.
Proof. by split. Qed.

Ltac same_entry := intros; eexists; split; [eassumption|reflexivity].

Lemma insert_inbox_evolves s e :
  WorkflowState.inbox s !! InboxEntry.message_id e = None →
  (∀ k, InboxEntry.deduplication_key e = Some k →
     WorkflowState.inbox_entry_by_deduplication_key s k = None) →
  evolves s (WorkflowState.insert_inbox s e).
Proof.
  intros Hnew Hk. split; [intros; by apply insert_inbox_wf| |same_entry].
  intros id e' He'. exists e'. simpl. rewrite lookup_insert_ne by congruence.
  by split; [|reflexivity].
Qed.

Lemma insert_outbox_evolves s e :
  WorkflowState.outbox s !! OutboxEntry.message_id e = None →
  (∀ k, OutboxEntry.deduplication_key e = Some k →
     WorkflowState.outbox_entry_by_deduplication_key s k = None) →
  evolves s (WorkflowState.insert_outbox s e).
Proof.
  intros Hnew Hk. split; [intros; by apply insert_outbox_wf|same_entry|].
  intros id e' He'. exists e'. simpl. rewrite lookup_insert_ne by congruence.
  by split; [|reflexivity].
Qed.

Lemma update_inbox_evolves s id st now s' e :
  WorkflowState.update_inbox_status s id st now = Some (s', e) → evolves s s'.
Proof.
  intros Hu. split; [intros; by eapply update_inbox_wf|..]; unfold WorkflowState.update_inbox_status in Hu;
    destruct (WorkflowState.inbox s !! id) as [e0|] eqn:He; simplify_eq/=; [|same_entry].
  intros id' e' He'. rewrite lookup_insert. case_decide as Hd; [|same_entry].
  eexists. split; [done|]. subst id'. replace e' with e0 by congruence. done.
Qed.

Lemma update_outbox_evolves {R} s id (f : OutboxEntry.t → OutboxEntry.t * R) s' e r :
  (∀ e, keeps_identity e (f e).1) →
  WorkflowState.update_outbox s id f = Some (s', e, r) → evolves s s'.
Proof.
  intros Hf Hu. split; [intros; by eapply update_outbox_wf|..]; unfold WorkflowState.update_outbox in Hu;
    destruct (WorkflowState.outbox s !! id) as [e0|] eqn:He; try done; specialize (Hf e0);
    destruct (f e0) as [e1 r1]; simplify_eq/=; [same_entry|].
  intros id' e' He'. rewrite lookup_insert. case_decide as Hd; [|same_entry].
  eexists. split; [done|]. subst id'. by replace e' with e0 by congruence.
Qed.

(** ** Commit or nothing *)

Section outcome.
Context {St : Type} (ops : DurableStateStore St WorkflowState.t).
Context (view : St → PersistenceId.t → option (StateRecord.t WorkflowState.t)).
Context `{!DurableStoreLaws ops view} (wid : WorkflowId.t) (readings : nat → Z).
Abbreviation inbox := (DurableInbox.t St).
Implicit Types self : inbox.
Let pid := WorkflowId.persistence_id wid.

(** The cached record and what the store shows are as before. *)
Definition unchanged self self' : Prop :=
  DurableInbox.record self' = DurableInbox.record self ∧
  ∀ pid', view (DurableInbox.store self') pid' = view (DurableInbox.store self) pid'.

(** [next] was written over the cached record, whose revision was the stored one. *)
Definition wrote (next : WorkflowState.t) self self' : Prop :=
  ∃ rec, DurableInbox.record self = Some rec ∧
    record_revision (view (DurableInbox.store self) pid) = StateRecord.revision rec ∧
    evolves (StateRecord.state rec) next ∧
    let rec' := StateRecord.new next (Revision_next (StateRecord.revision rec)) in
    DurableInbox.record self' = Some rec' ∧ view (DurableInbox.store self') pid = Some rec' ∧
    ∀ pid', pid' ≠ pid → view (DurableInbox.store self') pid' = view (DurableInbox.store self) pid'.

Definition outcome self self' : Prop := unchanged self self' ∨ ∃ next, wrote next self self'.

Lemma unchanged_refl self : unchanged self self.
Proof. by split. Qed.

Lemma now_spec s0 :
  op_spec (unchanged s0) (DurableInbox.now (St := St) readings) (fun _ => unchanged s0) (unchanged s0).
Proof. intros s s' r [Hr Hv] [= <- <-]. by split. Qed.

Lemma recovered_record_spec s0 :
  op_spec (unchanged s0) (DurableInbox.recovered_record (St := St) wid)
    (fun rec s => unchanged s0 s ∧ DurableInbox.record s0 = Some rec) (unchanged s0).
Proof.
  intros s s' r [Hr Hv] [= <- <-]. rewrite Hr. destruct (DurableInbox.record s0) eqn:Hs0; simpl.
  - split; [|done]. split; congruence.
  - split; congruence.
Qed.

Lemma persist_record_spec s0 rec next :
  DurableInbox.record s0 = Some rec → evolves (StateRecord.state rec) next →
  op_spec (unchanged s0) (DurableInbox.persist_record ops wid (StateRecord.revision rec) next)
    (fun rec' s => wrote next s0 s ∧ DurableInbox.record s = Some rec') (unchanged s0).
Proof.
  intros Hrec Hev s s' r [Hr Hv]. unfold DurableInbox.persist_record.
  destruct (compare_and_set ops _ _ _ _) as [st [rec'|e]] eqn:Hcas; intros [= <- <-].
  - apply law_cas_ok in Hcas as (Hrev & -> & Hst & Hframe). split; [|done].
    exists rec. simpl. split_and!; try done; [by rewrite <-Hv|].
    intros pid' Hne. by rewrite Hframe, Hv.
  - split; [done|]. intros pid'. simpl. by rewrite (law_cas_err _ _ _ _ _ _ Hcas pid').
Qed.

Lemma op_spec_known {S E A} (P : S → Prop) (phi : Prop) (m : op S E A) Q R :
  (phi → op_spec P m Q R) → op_spec (fun s => P s ∧ phi) m Q R.
Proof. intros Hm s s' r [HP Hphi]. by apply Hm. Qed.

Lemma op_spec_err {S E A} (P : S → Prop) (e : E) (Q : A → S → Prop) :
  op_spec P (op_err e) Q P.
Proof. by intros s s' r HP [= <- <-]. Qed.

(** An operation with this specification commits or changes nothing, and changes
    nothing when it fails. *)
Definition commits {A} (s0 : inbox) (m : op inbox WorkflowError A) : Prop :=
  op_spec (unchanged s0) m (fun _ => outcome s0) (unchanged s0).

Lemma commits_ret {A} s0 (a : A) : commits s0 (op_ret a).
Proof. apply op_spec_ret. by left. Qed.

(** A write, and then only results computed from it. *)
Lemma commits_persist {A} s0 rec next (k : StateRecord.t WorkflowState.t → op inbox WorkflowError A) :
  DurableInbox.record s0 = Some rec → evolves (StateRecord.state rec) next →
  (∀ rec', ∃ a, k rec' = op_ret a) →
  commits s0 (op_bind (DurableInbox.persist_record ops wid (StateRecord.revision rec) next) k).
Proof.
  intros Hrec Hev Hk. eapply op_spec_bind; [by apply persist_record_spec|]. intros rec'.
  destruct (Hk rec') as [a ->]. apply op_spec_ret. intros s [Hw _]. right. by eexists.
Qed.

Lemma commits_now {A} s0 (k : Z → op inbox WorkflowError A) :
  (∀ z, commits s0 (k z)) → commits s0 (op_bind (DurableInbox.now readings) k).
Proof. intros Hk. eapply op_spec_bind; [apply now_spec|done]. Qed.

Lemma commits_recovered {A} s0 (k : StateRecord.t WorkflowState.t → op inbox WorkflowError A) :
  (∀ rec, DurableInbox.record s0 = Some rec → commits s0 (k rec)) →
  commits s0 (op_bind (DurableInbox.recovered_record wid) k).
Proof.
  intros Hk. eapply op_spec_bind; [apply recovered_record_spec|]. intros rec.
  apply op_spec_known, Hk.
Qed.

Lemma commits_map {A B} s0 (m : op inbox WorkflowError A) (f : A → B) :
  commits s0 m → commits s0 (op_bind m (fun a => op_ret (f a))).
Proof. intros Hm. eapply op_spec_bind; [exact Hm|]. intros a. by apply op_spec_ret. Qed.

Lemma commits_settle {R} s0 rec id (f : OutboxEntry.t → OutboxEntry.t * R) :
  DurableInbox.record s0 = Some rec → (∀ e, keeps_identity e (f e).1) →
  commits s0 (DurableInbox.settle_outbox ops wid id rec f).
Proof.
  intros Hrec Hf. unfold DurableInbox.settle_outbox.
  destruct (WorkflowState.update_outbox _ _ _) as [[[next e] r]|] eqn:Hu; [|apply op_spec_err].
  unfold DurableInbox.persist_state. apply commits_map.
  apply commits_persist; [done|by eapply update_outbox_evolves|by eauto].
Qed.

(** A failed lookup of an optional key, as the insertion lemmas want it. *)
Lemma no_key_match {V} (o : option DeduplicationKey.t) (f : DeduplicationKey.t → option V) :
  (o ≫= f) = None → ∀ k, o = Some k → f k = None.
Proof. intros Hn k ->. exact Hn. Qed.

Lemma accept_commits s0 c : commits s0 (DurableInbox.accept ops wid readings c).
Proof.
  apply commits_recovered. intros rec Hrec. cbv beta zeta.
  destruct (WorkflowState.inbox_entry _ _) eqn:Hid; [apply commits_ret|].
  destruct (_ ≫= _) eqn:Hkey; [apply commits_ret|].
  apply commits_now. intros now. apply commits_persist; [done| |by eauto].
  apply insert_inbox_evolves; [done|]. by apply no_key_match.
Qed.

Lemma schedule_commits s0 c : commits s0 (DurableInbox.schedule_outbox ops wid readings c).
Proof.
  apply commits_recovered. intros rec Hrec. cbv beta zeta.
  destruct (WorkflowState.outbox_entry _ _) eqn:Hid; [apply commits_ret|].
  destruct (_ ≫= _) eqn:Hkey; [apply commits_ret|].
  apply commits_now. intros now. apply commits_persist; [done| |by eauto].
  apply insert_outbox_evolves; [done|]. by apply no_key_match.
Qed.

Lemma transition_commits s0 id st : commits s0 (DurableInbox.transition_inbox ops wid readings id st).
Proof.
  apply commits_recovered. intros rec Hrec. apply commits_now. intros now.
  destruct (WorkflowState.update_inbox_status _ _ _ _) as [[next e]|] eqn:Hu; [|apply op_spec_err].
  apply commits_persist; [done|by eapply update_inbox_evolves|by eauto].
Qed.

Lemma mark_dispatching_commits s0 id :
  commits s0 (DurableInbox.mark_outbox_dispatching ops wid readings id).
Proof.
  apply commits_recovered. intros rec Hrec. cbv beta zeta.
  destruct (WorkflowState.outbox_entry _ _); [|apply op_spec_err].
  apply commits_now. intros now. by apply commits_map, commits_settle.
Qed.

Lemma success_commits s0 id : commits s0 (DurableInbox.record_outbox_success ops wid readings id).
Proof.
  apply commits_now. intros now. apply commits_recovered. intros rec Hrec.
  by apply commits_map, commits_settle.
Qed.

Lemma cancelled_commits s0 id m :
  commits s0 (DurableInbox.record_outbox_cancelled ops wid readings id m).
Proof.
  apply commits_now. intros now. apply commits_recovered. intros rec Hrec.
  destruct (WorkflowState.update_outbox _ _ _) as [[[next e] r]|] eqn:Hu; [|apply op_spec_err].
  destruct r; simpl; [|apply commits_ret].
  apply commits_map, commits_persist; [done| |by eauto].
  eapply update_outbox_evolves; [|exact Hu]. intros e0. simpl. by case_match.
Qed.

Lemma failure_commits s0 id m b :
  commits s0 (DurableInbox.record_outbox_failure ops wid readings id m b).
Proof.
  apply commits_now. intros now. apply commits_recovered. intros rec Hrec.
  eapply op_spec_bind; [apply commits_settle; [done|]; intros e; apply record_failure_identity|].
  intros [e tr]. by apply op_spec_ret.
Qed.

Lemma exhausted_commits s0 id m :
  commits s0 (DurableInbox.record_outbox_exhausted ops wid readings id m).
Proof.
  apply commits_now. intros now. apply commits_recovered. intros rec Hrec.
  by apply commits_map, commits_settle.
Qed.

Lemma operation_commits s0 o : o ≠ OpRecover → commits s0 (run_operation ops wid readings o).
Proof.
  destruct o; intros Hne; [done|apply commits_map..];
    auto using accept_commits, schedule_commits, transition_commits, mark_dispatching_commits,
      success_commits, cancelled_commits, failure_commits, exhausted_commits.
Qed.

(** The cached record is the stored one, or the empty workflow when there is none. *)
Definition caches (st : St) (rec : StateRecord.t WorkflowState.t) : Prop :=
  match view st pid with
  | Some stored => rec = stored
  | None => ∃ now, rec = StateRecord.missing (WorkflowState.empty wid now)
  end.

Lemma recover_spec self self' r :
  DurableInbox.recover ops wid readings self = (self', r) →
  (∀ pid', view (DurableInbox.store self') pid' = view (DurableInbox.store self) pid') ∧
  match r with
  | Ok s => DurableInbox.stale self' = false ∧ ∃ rec, DurableInbox.record self' = Some rec ∧
              s = StateRecord.state rec ∧ caches (DurableInbox.store self') rec
  | Err _ => DurableInbox.record self' = DurableInbox.record self
  end.
Proof.
  unfold DurableInbox.recover. destruct (load ops _ _) as [st [o|e]] eqn:Hl.
  - apply law_load in Hl as [Hv Ho]. specialize (Ho o eq_refl).
    destruct o as [rec|]; intros [= <- <-]; simpl; (split; [done|]); (split; [done|]);
      eexists; (split; [done|]); (split; [done|]); unfold caches; rewrite Hv;
      fold pid in Ho; rewrite <-Ho; [done|by eexists].
  - apply law_load in Hl as [Hv _]. by intros [= <- <-].
Qed.

(** Acceptance: the entry is fresh in the cached record and is what was written. *)
Lemma accept_Accepted s0 c self' e rev :
  DurableInbox.accept ops wid readings c s0 = (self', Ok (Accepted e rev)) →
  ∃ rec, DurableInbox.record s0 = Some rec ∧
    WorkflowState.inbox_entry (StateRecord.state rec) (InboxEntry.message_id e) = None ∧
    (∀ k, InboxEntry.deduplication_key e = Some k →
       WorkflowState.inbox_entry_by_deduplication_key (StateRecord.state rec) k = None) ∧
    InboxEntry.message_id e = InboxCommand.message_id c ∧
    InboxEntry.deduplication_key e = InboxCommand.deduplication_key c ∧
    InboxEntry.message_type e = InboxCommand.message_type c ∧
    InboxEntry.payload e = InboxCommand.payload c ∧
    wrote (WorkflowState.insert_inbox (StateRecord.state rec) e) s0 self'.
Proof.
  unfold DurableInbox.accept. intros (s1 & rec & Hrec & Hk)%op_bind_ok.
  pose proof (recovered_record_spec s0 _ _ _ (unchanged_refl s0) Hrec) as [Hu1 Hs0].
  cbv beta zeta in Hk.
  destruct (WorkflowState.inbox_entry _ _) eqn:Hid; [done|].
  destruct (_ ≫= _) eqn:Hkey; [done|].
  apply op_bind_ok in Hk as (s2 & now & Hnow & Hk).
  pose proof (now_spec s0 _ _ _ Hu1 Hnow) as Hu2. simpl in Hu2.
  apply op_bind_ok in Hk as (s3 & rec' & Hp & [= <- <- <-]). exists rec.
  split_and!; try done; [by apply no_key_match|].
  pose proof (no_key_match _ _ Hkey) as Hfresh.
  apply (persist_record_spec s0) in Hp as [Hw _]; [done|done| |done].
  by apply insert_inbox_evolves.
Qed.

Lemma caches_revision st rec : caches st rec → StateRecord.revision rec = record_revision (view st pid).
Proof. unfold caches. destruct (view st pid); [by intros ->|by intros [now ->]]. Qed.

Definition stored_wf (st : St) : Prop :=
  ∀ stored, view st pid = Some stored → workflow_wf (StateRecord.state stored).

Lemma caches_wf st rec : caches st rec → stored_wf st → workflow_wf (StateRecord.state rec).
Proof.
  unfold caches, stored_wf. destruct (view st pid); [intros -> Hwf; by apply Hwf|].
  intros [now ->] _. apply empty_wf.
Qed.

(** What an operation does to one inbox and the store: it reads, or it writes over the
    record it had cached. *)
Lemma operation_cases o self self' r :
  run_operation ops wid readings o self = (self', r) →
  ((∀ pid', view (DurableInbox.store self') pid' = view (DurableInbox.store self) pid') ∧
   (DurableInbox.record self' = DurableInbox.record self ∨
    ∃ rec, DurableInbox.record self' = Some rec ∧ caches (DurableInbox.store self') rec)) ∨
  ∃ next, wrote next self self'.
Proof.
  intros Hrun. assert (o = OpRecover ∨ o ≠ OpRecover) as [->|Hne]
    by (destruct o; [by left|by right..]).
  - left. simpl in Hrun. unfold op_bind in Hrun.
    destruct (DurableInbox.recover ops wid readings self) as [s1 r1] eqn:Hrec.
    apply recover_spec in Hrec as [Hv Hr]. destruct r1 as [s|e]; injection Hrun as <- <-; split;
      [done| |done|by left]. destruct Hr as (_ & rec & Hr & _ & Hc). right. by exists rec.
  - pose proof (operation_commits self o Hne self self' r (unchanged_refl self) Hrun) as Hc.
    destruct r as [a|e]; [destruct Hc as [[Hr Hv]|Hw]; [|by right]|destruct Hc as [Hr Hv]];
      left; (split; [done|by left]).
Qed.
End outcome.

(** ** Replicas

    Several processes may hold an inbox of the same workflow over one store: each has
    its own cached record, stale flag and clock.  Between two [await]s of a process
    only its own memory is touched and every operation awaits one store call, so a
    run is a sequence of whole operations and of process restarts. *)

Record replica := mk_replica {
  rep_record : option (StateRecord.t WorkflowState.t);
  rep_stale : bool;
  rep_ticks : nat;
}.

Inductive FleetEvent :=
| Restart (i : nat)
| Run (i : nat) (o : InboxOperation).

Section fleet.
Context {St : Type} (ops : DurableStateStore St WorkflowState.t).
Context (wid : WorkflowId.t) (readings : nat → nat → Z).
Let pid := WorkflowId.persistence_id wid.

Definition fleet : Type := St * list replica.

Definition fleet_step (f : fleet) (ev : FleetEvent) :
    fleet * option (result WorkflowError InboxAnswer) :=
  match ev with
  | Restart i =>
      match f.2 !! i with
      | None => (f, None)
      | Some r => ((f.1, <[i := mk_replica None false (rep_ticks r)]> f.2), None)
      end
  | Run i o =>
      match f.2 !! i with
      | None => (f, None)
      | Some r =>
          let (self, res) := run_operation ops wid (readings i) o
            (DurableInbox.mk f.1 (rep_record r) (rep_stale r) (rep_ticks r)) in
          ((DurableInbox.store self,
            <[i := mk_replica (DurableInbox.record self) (DurableInbox.stale self)
                     (DurableInbox.ticks self)]> f.2), Some res)
      end
  end.

(** The entries a run accepts, in order, and the fleet it ends in. *)
Definition newly_accepted (res : option (result WorkflowError InboxAnswer)) : list InboxEntry.t :=
  match res with
  | Some (Ok (AnswerInbox (Accepted entry _))) => [entry]
  | _ => []
  end.

Fixpoint fleet_run (f : fleet) (evs : list FleetEvent) : fleet * list InboxEntry.t :=
  match evs with
  | [] => (f, [])
  | ev :: evs =>
      let (f, res) := fleet_step f ev in
      let (f, accepted) := fleet_run f evs in
      (f, newly_accepted res ++ accepted)
  end.

Context (view : St → PersistenceId.t → option (StateRecord.t WorkflowState.t)).
Context `{!DurableStoreLaws ops view}.
Implicit Types f : fleet.

Abbreviation stored_revision st := (record_revision (view st pid)).

(** No replica is ahead of the store, one that is level with it caches its record, and
    [n] more writes do not exhaust the revisions. *)
Record fleet_inv (n : Z) f : Prop := {
  fi_wf : stored_wf view wid f.1;
  fi_room : 0 <= stored_revision f.1 ∧ stored_revision f.1 + n <= u64_max;
  fi_cached i r rec : f.2 !! i = Some r → rep_record r = Some rec →
    StateRecord.revision rec <= stored_revision f.1 ∧
    (StateRecord.revision rec = stored_revision f.1 → caches view wid f.1 rec);
}.

(** The inbox entries in the store. *)
Definition stored_inbox f : gmap WorkflowMessageId.t InboxEntry.t :=
  match view f.1 pid with Some rec => WorkflowState.inbox (StateRecord.state rec) | None => ∅ end.

Lemma caches_inbox f rec :
  caches view wid f.1 rec → WorkflowState.inbox (StateRecord.state rec) = stored_inbox f.
Proof.
  unfold caches, stored_inbox. fold pid. destruct (view f.1 pid); [by intros ->|by intros [now ->]].
Qed.

Definition keeps_messages f f' : Prop :=
  ∀ id e, stored_inbox f !! id = Some e →
    ∃ e', stored_inbox f' !! id = Some e' ∧ same_message e e'.

(** Reads preserve the invariant when the replica that changed has the stored record. *)
Lemma fleet_inv_read n f st' i r' :
  0 <= n → fleet_inv (n + 1) f → (∀ pid', view st' pid' = view f.1 pid') →
  (∀ rec, rep_record r' = Some rec →
     (∃ r, f.2 !! i = Some r ∧ rep_record r = Some rec) ∨ caches view wid st' rec) →
  fleet_inv n (st', <[i := r']> f.2) ∧ keeps_messages f (st', <[i := r']> f.2).
Proof.
  intros Hn [Hwf Hroom Hc] Hv Hr'. split; [split; simpl|].
  - intros rec. rewrite Hv. apply Hwf.
  - rewrite Hv. lia.
  - intros j r rec Hj Hrec. rewrite Hv. unfold caches. rewrite Hv.
    apply list_lookup_insert_Some in Hj as [(<- & <- & _)|[_ Hj]]; [|by eapply Hc].
    destruct (Hr' rec Hrec) as [(r & Hr & Hrr)|Hcache]; [by eapply Hc|].
    unfold caches in Hcache. rewrite Hv in Hcache. split; [|done].
    rewrite (caches_revision view wid f.1 rec Hcache). done.
  - intros id e. unfold stored_inbox. simpl. rewrite Hv. intros He. exists e. by split.
Qed.

Lemma fleet_inv_write n f i r next self' :
  0 <= n → fleet_inv (n + 1) f → f.2 !! i = Some r →
  wrote view wid next (DurableInbox.mk f.1 (rep_record r) (rep_stale r) (rep_ticks r)) self' →
  let f' := (DurableInbox.store self',
             <[i := mk_replica (DurableInbox.record self') (DurableInbox.stale self')
                      (DurableInbox.ticks self')]> f.2) in
  fleet_inv n f' ∧ keeps_messages f f' ∧
  ∃ rec, rep_record r = Some rec ∧ caches view wid f.1 rec ∧
    view f'.1 pid = Some (StateRecord.new next (Revision_next (StateRecord.revision rec))).
Proof.
  intros Hn [Hwf Hroom Hc] Hr (rec & Hrec & Hrev & Hev & Hrec' & Hv' & _). simpl in Hrec, Hrev, Hv'.
  fold pid in Hrev, Hv'.
  destruct (Hc i r rec Hr Hrec) as [Hle Hcache]. specialize (Hcache (eq_sym Hrev)).
  assert (Revision_next (StateRecord.revision rec) = stored_revision f.1 + 1) as Hnext
    by (unfold Revision_next; rewrite add_u64_small by lia; lia).
  assert (stored_revision (DurableInbox.store self') = stored_revision f.1 + 1) as Hsr
    by (rewrite Hv'; exact Hnext).
  cbv zeta. split_and!; [split; simpl|..].
  - unfold stored_wf. fold pid. rewrite Hv'. intros ? [= <-]. apply Hev. by eapply caches_wf.
  - rewrite Hsr. lia.
  - intros j r' rec' Hj Hr'. rewrite Hsr.
    apply list_lookup_insert_Some in Hj as [(<- & <- & _)|[_ Hj]].
    + simpl in Hr'. rewrite Hrec' in Hr'. injection Hr' as <-. simpl. split; [lia|].
      intros _. unfold caches. fold pid. by rewrite Hv'.
    + destruct (Hc j r' rec' Hj Hr') as [Hle' _]. split; [lia|]. intros. lia.
  - intros id e He. rewrite <-(caches_inbox f rec Hcache) in He.
    destruct (ev_inbox _ _ Hev id e He) as (e' & He' & Hs). exists e'. split; [|done].
    unfold stored_inbox. simpl. by rewrite Hv'.
  - exists rec. split_and!; done.
Qed.

(** An entry no stored entry shares its id or its deduplication key with. *)
Definition fresh_in f (e : InboxEntry.t) : Prop :=
  ∀ id e', stored_inbox f !! id = Some e' →
    InboxEntry.message_id e ≠ InboxEntry.message_id e' ∧
    (∀ k, InboxEntry.deduplication_key e = Some k → InboxEntry.deduplication_key e' ≠ Some k).

Definition stores_message f (e : InboxEntry.t) : Prop :=
  ∃ e', stored_inbox f !! InboxEntry.message_id e = Some e' ∧ same_message e e'.

Lemma fresh_in_cached f rec e :
  caches view wid f.1 rec → stored_wf view wid f.1 →
  WorkflowState.inbox_entry (StateRecord.state rec) (InboxEntry.message_id e) = None →
  (∀ k, InboxEntry.deduplication_key e = Some k →
     WorkflowState.inbox_entry_by_deduplication_key (StateRecord.state rec) k = None) →
  fresh_in f e.
Proof.
  intros Hc Hwf Hid Hk id e' He'. pose proof (caches_wf view wid _ _ Hc Hwf) as [Hidx _ Hids _].
  rewrite <-(caches_inbox f rec Hc) in He'. split.
  - intros Heq. unfold WorkflowState.inbox_entry in Hid. rewrite Heq, (Hids _ _ He') in Hid. congruence.
  - intros k Hke Hke'. specialize (Hk k Hke).
    assert (WorkflowState.inbox_entry_by_deduplication_key (StateRecord.state rec) k = Some e') as Hf
      by (apply (find_by_key_Some _ _ _ _ Hidx); by exists id). congruence.
Qed.

Lemma newly_accepted_inv rd o (self self' : DurableInbox.t St) res e :
  run_operation ops wid rd o self = (self', res) → e ∈ newly_accepted (Some res) →
  ∃ c rv, DurableInbox.accept ops wid rd c self = (self', Ok (Accepted e rv)).
Proof.
  destruct res as [[[e' rv| ]| |]|]; simpl; try set_solver. intros Hrun ->%list_elem_of_singleton.
  destruct o; simpl in Hrun; apply op_bind_ok in Hrun as (s1 & a & Ha & Hret); try done.
  injection Hret as <- ->. by eexists _, _.
Qed.

(** The state of the fleet once replica [i] has run an operation. *)
Definition resumed f (i : nat) (self' : DurableInbox.t St) : fleet :=
  (DurableInbox.store self',
   <[i := mk_replica (DurableInbox.record self') (DurableInbox.stale self')
            (DurableInbox.ticks self')]> f.2).

Lemma fleet_accept n f i r c self' e rv :
  0 <= n → fleet_inv (n + 1) f → f.2 !! i = Some r →
  DurableInbox.accept ops wid (readings i) c
    (DurableInbox.mk f.1 (rep_record r) (rep_stale r) (rep_ticks r)) = (self', Ok (Accepted e rv)) →
  fresh_in f e ∧ stores_message (resumed f i self') e.
Proof.
  intros Hn Hinv Hr Hacc. apply accept_Accepted with (view := view) in Hacc
    as (rec & Hrec & Hid & Hk & _ & _ & _ & _ & Hw); [|done].
  destruct (fleet_inv_write n f i r _ self' Hn Hinv Hr Hw) as (_ & _ & rec' & Hrec' & Hc & Hv').
  simpl in Hrec. replace rec' with rec in * by congruence. split.
  - by eapply fresh_in_cached, Hk; [| |]; [|apply Hinv|].
  - exists e. unfold stored_inbox. simpl in *. rewrite Hv'. simpl. by rewrite lookup_insert_eq.
Qed.

Lemma fleet_step_inv n f ev f' res :
  0 <= n → fleet_inv (n + 1) f → fleet_step f ev = (f', res) →
  fleet_inv n f' ∧ keeps_messages f f' ∧
  ∀ e, e ∈ newly_accepted res → fresh_in f e ∧ stores_message f' e.
Proof.
  intros Hn Hinv.
  assert (fleet_inv n f ∧ keeps_messages f f) as Hsame.
  { destruct Hinv as [? ? ?]. split; [split; [done|lia|done]|]. intros id e He. exists e. by split. }
  destruct ev as [i|i o]; simpl; (destruct (f.2 !! i) as [r|] eqn:Hr; [|by intros [= <- <-];
    split_and!; [apply Hsame|apply Hsame|set_solver]]).
  - intros [= <- <-]. destruct (fleet_inv_read n f f.1 i (mk_replica None false (rep_ticks r)))
      as [? ?]; [done|done|done|by intros|]. split_and!; [done|done|set_solver].
  - destruct (run_operation ops wid (readings i) o _) as [self' res'] eqn:Hrun.
    intros [= <- <-]. change (_, <[i := _]> _) with (resumed f i self'). apply Logic.and_assoc. split.
    + destruct (operation_cases ops view wid (readings i) _ _ _ _ Hrun) as [[Hv Hrec]|[next Hw]].
      * apply fleet_inv_read; [done|done|done|]. simpl in *. intros rec Hr'.
        destruct Hrec as [Hsm|(rec' & Hr2 & Hc)]; [left; exists r|right]; split_and?; congruence.
      * destruct (fleet_inv_write n f i r next self' Hn Hinv Hr Hw) as (? & ? & _). done.
    + intros e (c & rv & Hacc)%(newly_accepted_inv _ _ _ _ _ _ Hrun). by eapply fleet_accept.
Qed.

#[local] Instance keeps_messages_preorder : PreOrder keeps_messages.
Proof.
  split; [intros f id e He; by exists e|]. intros f1 f2 f3 H1 H2 id e He.
  destruct (H1 _ _ He) as (e1 & He1 & Hs1). destruct (H2 _ _ He1) as (e2 & He2 & Hs2).
  exists e2. split; [done|by etrans].
Qed.

Lemma keeps_messages_stores f f' e :
  keeps_messages f f' → stores_message f e → stores_message f' e.
Proof.
  intros Hk (e1 & He1 & Hs1). destruct (Hk _ _ He1) as (e2 & He2 & Hs2).
  exists e2. split; [done|]. by etrans.
Qed.

Lemma newly_accepted_NoDup res :
  NoDup (InboxEntry.message_id <$> newly_accepted res) ∧
  NoDup (omap InboxEntry.deduplication_key (newly_accepted res)).
Proof.
  destruct res as [[[[e rv| ]| |]|]|]; simpl; try (by split; constructor).
  split; [apply NoDup_singleton|].
  destruct (InboxEntry.deduplication_key e); [apply NoDup_singleton|constructor].
Qed.

Lemma fresh_in_mono f f' e : keeps_messages f f' → fresh_in f' e → fresh_in f e.
Proof.
  intros Hk Hf id e' He'. destruct (Hk _ _ He') as (e2 & He2 & Hi & Hkey & _).
  rewrite <-Hi, <-Hkey. by eapply Hf.
Qed.

(** An entry that is fresh once [e] is stored differs from [e]. *)
Lemma fresh_differs f e e' :
  stores_message f e → fresh_in f e' →
  InboxEntry.message_id e ≠ InboxEntry.message_id e' ∧
  ∀ k, InboxEntry.deduplication_key e = Some k → InboxEntry.deduplication_key e' ≠ Some k.
Proof.
  intros (e1 & He1 & Hi & Hkey & _) Hf. destruct (Hf _ _ He1) as [Hd Hdk]. split; [congruence|].
  intros k Hke Hke'. apply (Hdk k Hke'). congruence.
Qed.

(** A run accepts nothing that is already stored, nothing twice, and loses nothing. *)
Lemma fleet_run_inv evs f f' accepted :
  fleet_inv (Z.of_nat (length evs)) f → fleet_run f evs = (f', accepted) →
  fleet_inv 0 f' ∧ keeps_messages f f' ∧ (∀ e, e ∈ accepted → fresh_in f e ∧ stores_message f' e) ∧
  NoDup (InboxEntry.message_id <$> accepted) ∧ NoDup (omap InboxEntry.deduplication_key accepted).
Proof.
  revert f accepted. induction evs as [|ev evs IH]; intros f accepted Hinv; simpl.
  - intros [= <- <-]. split_and!; [done|done|set_solver|constructor|constructor].
  - destruct (fleet_step f ev) as [f1 res] eqn:Hstep.
    destruct (fleet_run f1 evs) as [f2 acc] eqn:Hrun. intros [= <- <-].
    rewrite length_cons, Nat2Z.inj_succ in Hinv.
    destruct (fleet_step_inv _ _ _ _ _ (Nat2Z.is_nonneg _) Hinv Hstep) as (Hinv1 & Hk1 & Hacc1).
    destruct (IH _ _ Hinv1 Hrun) as (Hinv2 & Hk2 & Hacc2 & Hnd & Hndk).
    split_and!; [done|by etrans|..].
    + intros e [He|He]%elem_of_app; [destruct (Hacc1 e He)|destruct (Hacc2 e He)];
        eauto using keeps_messages_stores, fresh_in_mono.
    + rewrite fmap_app. apply NoDup_app. split_and!; [apply (newly_accepted_NoDup res)| |done].
      intros id (e1 & -> & He1)%list_elem_of_fmap (e2 & Heq & He2)%list_elem_of_fmap.
      by destruct (fresh_differs f1 e1 e2) as [Hd _]; [apply Hacc1|apply Hacc2|].
    + rewrite omap_app. apply NoDup_app. split_and!; [apply (newly_accepted_NoDup res)| |done].
      intros k (e1 & He1 & Hk1')%list_elem_of_omap (e2 & He2 & Hk2')%list_elem_of_omap.
      by destruct (fresh_differs f1 e1 e2) as [_ Hd]; [apply Hacc1|apply Hacc2|apply (Hd k)].
Qed.

(** C1. Messages are accepted exactly once: however any number of replicas interleave
    their operations on one store, fail, restart and recover, no message id and no
    deduplication key is ever accepted twice - nor one the store already had - and
    every accepted message is in the store at the end with its content, in a
    well-formed snapshot. *)
Theorem accepted_exactly_once (st : St) (replicas : nat) (evs : list FleetEvent) f accepted :
  stored_wf view wid st → 0 <= stored_revision st →
  stored_revision st + Z.of_nat (length evs) <= u64_max →
  fleet_run (st, replicate replicas (mk_replica None false 0)) evs = (f, accepted) →
  NoDup (InboxEntry.message_id <$> accepted) ∧
  NoDup (omap InboxEntry.deduplication_key accepted) ∧
  (∀ e, e ∈ accepted → fresh_in (st, []) e ∧ stores_message f e) ∧
  stored_wf view wid f.1.
Proof.
  intros Hwf H0 Hroom Hrun. apply fleet_run_inv in Hrun as (Hinv & _ & Hacc & Hnd & Hndk).
  - split_and!; [done|done|done|apply Hinv].
  - split; [done|done|]. simpl. intros i r rec [-> _]%lookup_replicate Hrec. done.
Qed.
End fleet.

(** ** Dispatch *)

Section dispatching.
Context {St : Type} (ops : DurableStateStore St WorkflowState.t).
Context (view : St → PersistenceId.t → option (StateRecord.t WorkflowState.t)).
Context `{!DurableStoreLaws ops view} (wid : WorkflowId.t) (readings : nat → Z).
Context {D : Type}.
Implicit Types (self : DurableInbox.t St) (dispatch : D → OutboxEntry.t → D * OutboxDispatchResult).
Let pid := WorkflowId.persistence_id wid.

(** The inbox holds a record, and the store shows it. *)
Definition holds self rec : Prop :=
  DurableInbox.record self = Some rec ∧ view (DurableInbox.store self) pid = Some rec.

(** [self'] holds [self]'s record with one outbox entry replaced. *)
Definition settled self self' (id : OutboxMessageId.t) (e e' : OutboxEntry.t) : Prop :=
  ∃ rec rec', DurableInbox.record self = Some rec ∧ holds self' rec' ∧
    WorkflowState.outbox (StateRecord.state rec) !! id = Some e ∧
    WorkflowState.outbox (StateRecord.state rec') =
      <[id := e']> (WorkflowState.outbox (StateRecord.state rec)).

Lemma settle_outbox_ok {R} id rec (f : OutboxEntry.t → OutboxEntry.t * R) s0 self self' e' r :
  unchanged view s0 self → DurableInbox.record s0 = Some rec → (∀ e, keeps_identity e (f e).1) →
  DurableInbox.settle_outbox ops wid id rec f self = (self', Ok (e', r)) →
  ∃ e, settled s0 self' id e e' ∧ f e = (e', r).
Proof.
  intros Hu Hs0 Hf. unfold DurableInbox.settle_outbox.
  destruct (WorkflowState.update_outbox _ _ _) as [[[next e1] r1]|] eqn:Hup; [|done].
  intros (s1 & [] & Hp & Hret)%op_bind_ok. injection Hret as <- -> ->.
  apply op_bind_ok in Hp as (s2 & rec' & Hp & [= <-]).
  pose proof (update_outbox_evolves _ _ _ _ _ _ Hf Hup) as Hev.
  apply (persist_record_spec ops view wid s0 rec next Hs0 Hev _ _ _ Hu) in Hp
    as [(rec0 & Hrec0 & _ & _ & Hr' & Hv' & _) _].
  unfold WorkflowState.update_outbox in Hup.
  destruct (WorkflowState.outbox (StateRecord.state rec) !! id) as [e|] eqn:He; [|done].
  destruct (f e) as [e1 r1] eqn:Hfe. injection Hup as <- <- <-. exists e. split; [|done].
  eexists rec, _. split; [done|]. split; [by split|]. done.
Qed.

Lemma mark_dispatching_ok id self self' e' :
  DurableInbox.mark_outbox_dispatching ops wid readings id self = (self', Ok e') →
  ∃ e now, settled self self' id e e' ∧ e' = OutboxEntry.set_status e OutboxDispatching now.
Proof.
  intros (s1 & rec & Hrec & Hk)%op_bind_ok.
  pose proof (recovered_record_spec view wid self _ _ _ (unchanged_refl view self) Hrec) as [Hu Hs].
  destruct (WorkflowState.outbox_entry _ _); [|done].
  apply op_bind_ok in Hk as (s2 & now & Hnow & Hk).
  pose proof (now_spec view readings self _ _ _ Hu Hnow) as Hu2.
  apply op_bind_ok in Hk as (s3 & [e1 []] & Hset & [= <- <-]).
  apply (settle_outbox_ok _ _ _ _ _ _ _ _ Hu2 Hs) in Hset as (e & Hse & [= <-]); [|done].
  by exists e, now.
Qed.

(** The entry after the dispatcher has answered. *)
Definition after_dispatch (outcome : OutboxDispatchResult) (now : Z) (e : OutboxEntry.t) : OutboxEntry.t :=
  match outcome with
  | DispatchSuccess => OutboxEntry.mark_dispatched e now
  | DispatchFailure message | DispatchTimeout message =>
      (OutboxEntry.record_failure e now message).1
  end.

(** Recording the outcome, as [dispatch_entry] does. *)
Definition record_outcome (id : OutboxMessageId.t) (outcome : OutboxDispatchResult) :
    op (DurableInbox.t St) WorkflowError WorkflowTelemetryEvent :=
  match outcome with
  | DispatchSuccess => DurableInbox.record_outbox_success ops wid readings id
  | DispatchFailure message => DurableInbox.record_outbox_failure ops wid readings id message false
  | DispatchTimeout message => DurableInbox.record_outbox_failure ops wid readings id message true
  end.

Lemma record_outcome_ok id outcome self self' ev :
  record_outcome id outcome self = (self', Ok ev) →
  ∃ e now, settled self self' id e (after_dispatch outcome now e).
Proof.
  assert (∀ m b, DurableInbox.record_outbox_failure ops wid readings id m b self = (self', Ok ev) →
    ∃ e now, settled self self' id e (OutboxEntry.record_failure e now m).1) as Hfail.
  { intros m b (s1 & now & Hnow & Hk)%op_bind_ok.
    pose proof (now_spec view readings self _ _ _ (unchanged_refl view self) Hnow) as Hu.
    apply op_bind_ok in Hk as (s2 & rec & Hrec & Hk).
    pose proof (recovered_record_spec view wid self _ _ _ Hu Hrec) as [Hu2 Hs].
    apply op_bind_ok in Hk as (s3 & [e1 tr] & Hset & Hret). injection Hret as <- _.
    destruct (settle_outbox_ok _ _ _ _ _ _ _ _ Hu2 Hs
      (fun e => record_failure_identity e now m) Hset) as (e & Hse & Hf).
    exists e, now. by rewrite Hf. }
  destruct outcome as [|m|m]; [|apply Hfail..].
  intros (s1 & now & Hnow & Hk)%op_bind_ok.
  pose proof (now_spec view readings self _ _ _ (unchanged_refl view self) Hnow) as Hu.
  apply op_bind_ok in Hk as (s2 & rec & Hrec & Hk).
  pose proof (recovered_record_spec view wid self _ _ _ Hu Hrec) as [Hu2 Hs].
  apply op_bind_ok in Hk as (s3 & [e1 []] & Hset & Hret). injection Hret as <- _.
  apply (settle_outbox_ok _ _ _ _ _ _ _ _ Hu2 Hs) in Hset as (e & Hse & [= <-]); [|done].
  by exists e, now.
Qed.

Lemma record_outcome_err id outcome self self' e :
  record_outcome id outcome self = (self', Err e) → unchanged view self self'.
Proof.
  intros Hrun. pose proof (unchanged_refl view self) as Hu. destruct outcome as [|m|m]; simpl in Hrun.
  - exact (success_commits ops view wid readings self id _ _ _ Hu Hrun).
  - exact (failure_commits ops view wid readings self id m false _ _ _ Hu Hrun).
  - exact (failure_commits ops view wid readings self id m true _ _ _ Hu Hrun).
Qed.

(** One entry of the loop: nothing happened, or the entry was durably dispatching when
    the dispatcher saw it, and its answer was recorded or recording it failed. *)
Lemma dispatch_entry_cases dispatch entry self d self' d' res :
  DurableInbox.dispatch_entry ops wid readings dispatch entry (self, d) = ((self', d'), res) →
  let id := OutboxEntry.message_id entry in
  (unchanged view self self' ∧ d' = d ∧ is_ok res = false) ∨
  ∃ self1 e0 now0 outcome,
    let e := OutboxEntry.set_status e0 OutboxDispatching now0 in
    settled self self1 id e0 e ∧ dispatch d e = (d', outcome) ∧
    match res with
    | Err _ => unchanged view self1 self'
    | Ok _ => ∃ now, settled self1 self' id e (after_dispatch outcome now e)
    end.
Proof.
  intros Hrun. cbv zeta. unfold DurableInbox.dispatch_entry, op_bind at 1 in Hrun.
  unfold DurableInbox.on_inbox at 1 in Hrun. simpl in Hrun.
  destruct (DurableInbox.mark_outbox_dispatching _ _ _ _ _) as [s1 [e|er]] eqn:Hmark.
  - right. apply mark_dispatching_ok in Hmark as (e0 & now0 & Hse & ->).
    unfold op_bind, DurableInbox.call_dispatcher in Hrun. simpl in Hrun.
    destruct (dispatch d _) as [d1 outcome] eqn:Hd.
    assert (DurableInbox.on_inbox (record_outcome (OutboxEntry.message_id entry) outcome) (s1, d1) =
            (self', d', res)) as Hrec by (by destruct outcome).
    unfold DurableInbox.on_inbox in Hrec. simpl in Hrec.
    destruct (record_outcome _ _ s1) as [s2 r2] eqn:Hro. injection Hrec as <- <- <-.
    exists s1, e0, now0, outcome. split_and!; [done|done|]. destruct r2 as [ev|er].
    + apply record_outcome_ok in Hro as (e2 & now & Hse2). exists now.
      destruct Hse as (? & rec1 & _ & [Hr1 _] & _ & Ho1).
      destruct Hse2 as (rec2 & rec3 & Hr2 & Hh & He2 & Ho2).
      replace rec2 with rec1 in * by congruence. rewrite Ho1, lookup_insert_eq in He2.
      injection He2 as <-. exists rec1, rec3. by rewrite Ho1, lookup_insert_eq, <-Ho1.
    + by eapply record_outcome_err.
  - left. injection Hrun as <- <- <-. split_and!; [|done|done].
    exact (mark_dispatching_commits ops view wid readings self _ _ _ _ (unchanged_refl view self) Hmark).
Qed.

(** The outbox the store shows. *)
Definition stored_outbox self : gmap OutboxMessageId.t OutboxEntry.t :=
  match view (DurableInbox.store self) pid with
  | Some rec => WorkflowState.outbox (StateRecord.state rec)
  | None => ∅
  end.

Lemma settled_stored self self' id e e' : settled self self' id e e' → stored_outbox self' !! id = Some e'.
Proof.
  intros (rec & rec' & _ & [_ Hv] & _ & Ho). unfold stored_outbox. rewrite Hv, Ho.
  apply lookup_insert_eq.
Qed.

(** C37. Dispatch is write-ahead: the dispatcher is called at most once per entry and
    only after the entry is durably marked [Dispatching]; when its answer is recorded
    the store shows the entry delivered or failed accordingly, and when recording
    fails the store still shows it [Dispatching], so it stays due and is dispatched
    again - delivery is at least once.  When the mark cannot be written the
    dispatcher is not called and nothing changes. *)
Theorem dispatch_write_ahead dispatch (entry : OutboxEntry.t) self (d : D) self' (d' : D) res :
  DurableInbox.dispatch_entry ops wid readings dispatch entry (self, d) = ((self', d'), res) →
  let id := OutboxEntry.message_id entry in
  (unchanged view self self' ∧ d' = d ∧ is_ok res = false) ∨
  ∃ self1 e outcome,
    stored_outbox self1 !! id = Some e ∧ OutboxEntry.status e = OutboxDispatching ∧
    dispatch d e = (d', outcome) ∧
    match res with
    | Ok _ => ∃ now, stored_outbox self' !! id = Some (after_dispatch outcome now e) ∧
        (outcome = DispatchSuccess →
           ∀ t, OutboxEntry.is_due (after_dispatch outcome now e) t = false)
    | Err _ => stored_outbox self' !! id = Some e ∧ ∀ t, OutboxEntry.is_due e t = true
    end.
Proof.
  intros [Hn|(self1 & e0 & now0 & outcome & Hse & Hd & Hres)]%dispatch_entry_cases; [by left|right].
  eexists self1, _, outcome. split; [by eapply settled_stored|]. split; [done|]. split; [done|].
  destruct res as [ev|er].
  - destruct Hres as [now Hse']. exists now. split; [by eapply settled_stored|]. by intros ->.
  - split; [|done]. unfold stored_outbox. rewrite (proj2 Hres). by eapply settled_stored.
Qed.

End dispatching.

Section loop.
Context {St : Type} (ops : DurableStateStore St WorkflowState.t).
Context (view : St → PersistenceId.t → option (StateRecord.t WorkflowState.t)).
Context `{!DurableStoreLaws ops view} (wid : WorkflowId.t) (readings : nat → Z).
Context {D : Type}.
Implicit Types (self : DurableInbox.t St) (dispatch : D → OutboxEntry.t → D * OutboxDispatchResult).

(** A dispatcher that logs the entries it is given. *)
Definition logging dispatch (s : list OutboxMessageId.t * D) (e : OutboxEntry.t) :
    (list OutboxMessageId.t * D) * OutboxDispatchResult :=
  let (d, outcome) := dispatch s.2 e in ((s.1 ++ [OutboxEntry.message_id e], d), outcome).

Definition ids_ok (ob : gmap OutboxMessageId.t OutboxEntry.t) : Prop :=
  ∀ id e, ob !! id = Some e → OutboxEntry.message_id e = id.

(** No longer pending and no longer in flight. *)
Definition answered (e : OutboxEntry.t) : Prop :=
  OutboxEntry.status e = OutboxDispatched ∨ OutboxEntry.status e = OutboxFailed ∨
  OutboxEntry.status e = OutboxExhausted.

Lemma after_dispatch_answered outcome now e : answered (after_dispatch outcome now e).
Proof.
  unfold answered. destruct outcome; simpl; unfold OutboxEntry.record_failure;
    [|case_match..]; simpl; auto.
Qed.

Lemma after_dispatch_identity outcome now e : keeps_identity e (after_dispatch outcome now e).
Proof. destruct outcome; simpl; [done|apply record_failure_identity..]. Qed.

(** One logged iteration. *)
Lemma dispatch_entry_logged dispatch entry self log d self' log' d' res rec :
  DurableInbox.record self = Some rec → ids_ok (WorkflowState.outbox (StateRecord.state rec)) →
  DurableInbox.dispatch_entry ops wid readings (logging dispatch) entry (self, (log, d)) =
    ((self', (log', d')), res) →
  let id := OutboxEntry.message_id entry in
  (log' = log ∧ is_ok res = false ∨ log' = log ++ [id]) ∧
  (is_ok res = true → log' = log ++ [id] ∧
     ∃ rec' e', holds view wid self' rec' ∧ answered e' ∧
       ids_ok (WorkflowState.outbox (StateRecord.state rec')) ∧
       WorkflowState.outbox (StateRecord.state rec') =
         <[id := e']> (WorkflowState.outbox (StateRecord.state rec))).
Proof.
  intros Hrec Hids Hrun. cbv zeta.
  apply (dispatch_entry_cases ops view) in Hrun as [(_ & [= -> ->] & Hr)|(s1 & e0 & now0 & outcome & Hse & Hd & Hres)].
  { split; [by left|]. by rewrite Hr. }
  destruct Hse as (rec0 & rec1 & Hr0 & [Hr1 _] & He0 & Ho1). replace rec0 with rec in * by congruence.
  pose proof (Hids _ _ He0) as Hid.
  assert (log' = log ++ [OutboxEntry.message_id entry]) as Hlog.
  { unfold logging in Hd. destruct (dispatch _ _) as [d1 o1]. simpl in Hd. congruence. }
  split; [by right|]. intros Hok. split; [done|]. destruct res as [ev|]; [|done].
  destruct Hres as [now (rec1' & rec2 & Hr1' & Hh & _ & Ho2)].
  replace rec1' with rec1 in * by congruence. rewrite Ho1, insert_insert_eq in Ho2.
  eexists rec2, _. split; [done|]. split; [apply after_dispatch_answered|]. split; [|exact Ho2].
  intros i e. rewrite Ho2, lookup_insert. case_decide as Hd'; [|apply Hids].
  intros [= <-]. rewrite (proj1 (after_dispatch_identity _ _ _)). simpl. congruence.
Qed.

Lemma dispatch_loop dispatch l self log d self' log' d' res rec :
  DurableInbox.record self = Some rec → ids_ok (WorkflowState.outbox (StateRecord.state rec)) →
  op_each (DurableInbox.dispatch_entry ops wid readings (logging dispatch)) l (self, (log, d)) =
    ((self', (log', d')), res) →
  let ids := OutboxEntry.message_id <$> l in
  (∃ called, called `prefix_of` ids ∧ log' = log ++ called) ∧
  (is_ok res = true → log' = log ++ ids ∧
     ∃ rec', DurableInbox.record self' = Some rec' ∧ (l ≠ [] → holds view wid self' rec') ∧
       ∀ id, (id ∈ ids → ∃ e', WorkflowState.outbox (StateRecord.state rec') !! id = Some e' ∧ answered e') ∧
             (id ∉ ids → WorkflowState.outbox (StateRecord.state rec') !! id =
                         WorkflowState.outbox (StateRecord.state rec) !! id)).
Proof.
  cbv zeta. revert self log d rec res. induction l as [|entry l IH]; intros self log d rec res Hrec Hids Hrun.
  - simpl in Hrun. injection Hrun as -> -> -> <-. split; [exists []; by rewrite app_nil_r|].
    intros _. rewrite app_nil_r. split; [done|]. exists rec. split_and!; [done|done|]. set_solver.
  - simpl in Hrun. unfold op_bind at 1 in Hrun.
    destruct (DurableInbox.dispatch_entry _ _ _ _ entry _) as [[s1 [log1 d1]] r1] eqn:He.
    destruct (dispatch_entry_logged _ _ _ _ _ _ _ _ _ _ Hrec Hids He) as [Hlog Hok].
    destruct r1 as [ev|er].
    + destruct (Hok eq_refl) as [-> (rec1 & e1 & Hh1 & Ha1 & Hids1 & Ho1)].
      unfold op_bind in Hrun.
      destruct (op_each _ l _) as [[s2 [log2 d2]] r2] eqn:Hl.
      assert (log2 = log' ∧ s2 = self' ∧ d2 = d' ∧ is_ok res = is_ok r2) as (-> & -> & -> & Hres)
        by (destruct r2; simpl in Hrun; injection Hrun as -> -> -> <-; done).
      destruct (IH _ _ _ _ _ (proj1 Hh1) Hids1 Hl) as [(called & Hpre & Hlog2) Hok2].
      rewrite <-app_assoc in Hlog2. split; [eexists; split; [|exact Hlog2]; by apply prefix_cons|].
      rewrite Hres. intros Hr. destruct (Hok2 Hr) as (Hlog' & rec' & Hr' & Hh' & Hall).
      rewrite fmap_cons, Hlog', <-app_assoc. split; [done|]. exists rec'. split; [done|]. split.
      { intros _. destruct l; [|by apply Hh']. simpl in Hl. injection Hl as <- _ _ _. 
        destruct Hh1 as [Hr1 Hv1]. split; congruence. }
      intros id. specialize (Hall id) as [Hin Hout]. rewrite Ho1 in Hout. split.
      * intros [->|Hid]%elem_of_cons; [|by apply Hin].
        destruct (decide (OutboxEntry.message_id entry ∈ OutboxEntry.message_id <$> l)) as [|Hn]; [by apply Hin|].
        exists e1. by rewrite Hout, lookup_insert_eq.
      * intros [Hne Hid]%not_elem_of_cons. by rewrite Hout, lookup_insert_ne.
    + injection Hrun as -> -> -> <-. split; [|done].
      destruct Hlog as [[-> _]| ->]; [exists []|exists [OutboxEntry.message_id entry]].
      * split; [apply prefix_nil|by rewrite app_nil_r].
      * split; [|done]. rewrite fmap_cons. apply prefix_cons, prefix_nil.
Qed.

Lemma due_outbox_ids (s : WorkflowState.t) now :
  ids_ok (WorkflowState.outbox s) →
  NoDup (OutboxEntry.message_id <$> WorkflowState.due_outbox s now).
Proof.
  intros Hids. unfold WorkflowState.due_outbox.
  eapply (sublist_NoDup _ (OutboxEntry.message_id <$> btree_values (WorkflowState.outbox s)));
    [|apply fmap_sublist, sublist_filter].
  assert (OutboxEntry.message_id <$> btree_values (WorkflowState.outbox s) =
          btree_keys (WorkflowState.outbox s)) as ->; [|apply NoDup_btree_keys].
  unfold btree_values, btree_keys. rewrite <-list_fmap_compose. apply list_fmap_ext.
  intros i [id e] Hi. simpl. apply Hids, elem_of_btree_entries. by eapply list_elem_of_lookup_2.
Qed.

(** A dispatch pass hands every due entry to the dispatcher exactly once, in the
    order of the message ids, and stops at the first store failure: the entries it
    called the dispatcher for are a prefix of the due ones.  A pass that succeeds
    leaves every due entry delivered, failed or exhausted in the store, and every
    other entry as it was. *)
Theorem dispatch_due_once dispatch self (d : D) self' log d' res rec :
  DurableInbox.record self = Some rec → workflow_wf (StateRecord.state rec) →
  DurableInbox.dispatch_due_outbox ops wid readings (logging dispatch) (self, ([], d)) =
    ((self', (log, d')), res) →
  let due := OutboxEntry.message_id <$>
    WorkflowState.due_outbox (StateRecord.state rec) (readings (DurableInbox.ticks self)) in
  NoDup due ∧ log `prefix_of` due ∧
  (is_ok res = true → log = due ∧
     ∃ rec', DurableInbox.record self' = Some rec' ∧ (due ≠ [] → holds view wid self' rec') ∧
       ∀ id, (id ∈ due → ∃ e', WorkflowState.outbox (StateRecord.state rec') !! id = Some e' ∧
                           answered e') ∧
             (id ∉ due → WorkflowState.outbox (StateRecord.state rec') !! id =
                         WorkflowState.outbox (StateRecord.state rec) !! id)).
Proof.
  intros Hrec [_ _ _ Hids]. unfold DurableInbox.dispatch_due_outbox, DurableInbox.due_outbox,
    DurableInbox.current_state, DurableInbox.on_inbox, DurableInbox.recovered_record, op_bind at 1.
  unfold op_bind. simpl. rewrite Hrec. simpl. intros Hrun.
  apply (dispatch_loop dispatch _ _ _ _ _ _ _ _ rec) in Hrun as [(called & Hp & ->) Hok]; [|done..].
  cbv zeta. split; [by apply due_outbox_ids|]. split; [done|]. intros Hr.
  destruct (Hok Hr) as (Hlog & rec' & Hr' & Hh & Hall). split; [done|]. exists rec'.
  split_and!; [done| |done]. intros Hne. apply Hh. intros Hnil. by rewrite Hnil in Hne.
Qed.
End loop.

(** ** Concrete runs *)

Definition memory : DurableStateStore _ WorkflowState.t := InMemoryDurableStateStore.store.
Definition ship : InboxCommand.t :=
  InboxCommand.mk (WorkflowMessageId.new "m1") (Some (DeduplicationKey.new "k1")) "ship" [7].
(** The same request under another message id. *)
Definition ship_again : InboxCommand.t :=
  InboxCommand.mk (WorkflowMessageId.new "m2") (Some (DeduplicationKey.new "k1")) "ship" [7].

(** Two replicas recover the empty workflow and both accept the request; the loser
    recovers and is told about the duplicate. *)
Definition race : list FleetEvent :=
  [Run 0 OpRecover; Run 1 OpRecover; Run 0 (OpAccept ship); Run 1 (OpAccept ship_again);
   Restart 1; Run 1 OpRecover; Run 1 (OpAccept ship_again)].
Definition ticking (i n : nat) : Z := 1000 + Z.of_nat n.
Definition race_run : fleet * list InboxEntry.t :=
  fleet_run memory order_workflow ticking (∅, replicate 2 (mk_replica None false 0)) race.

Lemma accepted_exactly_once_witness :
  InboxEntry.message_id <$> race_run.2 = [WorkflowMessageId.new "m1"] ∧
  NoDup (omap InboxEntry.deduplication_key race_run.2) ∧
  stored_wf memory_view order_workflow race_run.1.1.
Proof.
  split; [vm_compute; reflexivity|].
  destruct (accepted_exactly_once memory order_workflow ticking memory_view ∅ 2 race race_run.1
              race_run.2) as (_ & Hkeys & _ & Hwf).
  - intros rec Hrec. discriminate.
  - vm_compute. congruence.
  - vm_compute. congruence.
  - apply surjective_pairing.
  - exact (conj Hkeys Hwf).
Defined.

(** An inbox with one payment scheduled at 1000, and a dispatcher that counts calls. *)
Definition scheduled_order : WorkflowState.t :=
  WorkflowState.insert_outbox (WorkflowState.empty order_workflow 1000) payment.
Definition order_inbox : DurableInbox.t _ :=
  DurableInbox.mk
    ({[WorkflowId.persistence_id order_workflow := StateRecord.new scheduled_order 1]} :
       gmap PersistenceId.t (StateRecord.t WorkflowState.t))
    (Some (StateRecord.new scheduled_order 1)) false 0.
Definition counting (calls : nat) (_ : OutboxEntry.t) : nat * OutboxDispatchResult :=
  (S calls, DispatchSuccess).
Definition dispatched :=
  DurableInbox.dispatch_entry memory order_workflow (ticking 0) counting payment (order_inbox, 0%nat).

Lemma dispatch_write_ahead_witness :
  dispatched.1.2 = 1%nat ∧
  ∃ e now, stored_outbox memory_view order_workflow dispatched.1.1 !! OutboxMessageId.new "pay" =
    Some (after_dispatch DispatchSuccess now e).
Proof.
  split; [vm_compute; reflexivity|].
  assert (is_ok dispatched.2 = true) as Hok by (vm_compute; reflexivity).
  assert (DurableInbox.dispatch_entry memory order_workflow (ticking 0) counting payment
            (order_inbox, 0%nat) = ((dispatched.1.1, dispatched.1.2), dispatched.2)) as Hrun
    by (vm_compute; reflexivity).
  destruct (dispatch_write_ahead memory memory_view order_workflow (ticking 0) counting payment
              _ _ _ _ _ Hrun) as [(_ & _ & Herr)|(self1 & e & outcome & _ & _ & Hd & Hres)].
  - congruence.
  - destruct dispatched.2 as [ev|er]; [|discriminate].
    destruct Hres as (now & Hst & _). apply (f_equal snd) in Hd. simpl in Hd. subst outcome.
    exact (ex_intro _ e (ex_intro _ now Hst)).
Defined.

Definition dispatched_all :=
  DurableInbox.dispatch_due_outbox memory order_workflow (ticking 0) (logging counting)
    (order_inbox, ([], 0%nat)).

Lemma dispatch_due_once_witness :
  dispatched_all.1.2.1 `prefix_of` [OutboxMessageId.new "pay"] ∧
  dispatched_all.1.2 = ([OutboxMessageId.new "pay"], 1%nat).
Proof.
  split; [|vm_compute; reflexivity].
  pose proof (dispatch_due_once memory memory_view order_workflow (ticking 0) counting order_inbox
                0%nat dispatched_all.1.1 dispatched_all.1.2.1 dispatched_all.1.2.2 dispatched_all.2
                (StateRecord.new scheduled_order 1)) as Honce.
  destruct Honce as (_ & Hpre & _).
  - reflexivity.
  - apply insert_outbox_wf; [apply empty_wf|reflexivity|]. intros k _. reflexivity.
  - vm_compute. reflexivity.
  - exact Hpre.
Defined.
