(* ===== verification/Budget.v ===== *)
(** * The escrow budget ledger: [rakka-agent/src/budget.rs]

    A scope holds an allocation, debits it when it opens a child, learns what the child
    consumed when the child settles, and gets the rest back when the child returns.  A
    run spends its own allocation by reservations made before the work. *)

From S2P Require Import Prelude.

(** ** Dimensions *)

Inductive AgentBudgetDimension :=
| LoopIterations | ModelCalls | ToolCalls | Effects | EffectAttempts | Tokens | Cost
| WallClock | ConcurrentEffects | Descendants.

#[global] Instance AgentBudgetDimension_eq_dec : EqDecision AgentBudgetDimension.
Proof. solve_decision. Defined.

Definition CONSERVED : list AgentBudgetDimension :=
  [LoopIterations; ModelCalls; ToolCalls; Effects; EffectAttempts; Tokens; Cost; Descendants].

Definition WORK : list AgentBudgetDimension :=
  [LoopIterations; ModelCalls; ToolCalls; Effects; EffectAttempts; Tokens; Cost].

Definition is_conserved (self : AgentBudgetDimension) : bool :=
  match self with WallClock | ConcurrentEffects => false | _ => true end.

Definition dimension_label (self : AgentBudgetDimension) : string :=
  match self with
  | LoopIterations => "loop-iterations"
  | ModelCalls => "model-calls"
  | ToolCalls => "tool-calls"
  | Effects => "effects"
  | EffectAttempts => "effect-attempts"
  | Tokens => "tokens"
  | Cost => "cost"
  | WallClock => "wall-clock"
  | ConcurrentEffects => "concurrent-effects"
  | Descendants => "descendants"
  end.

Module AgentBudgetExhaustion.

Record t := new { dimension : AgentBudgetDimension; limit : Z; consumed : Z }.

#[global] Instance eq_dec : EqDecision t.
Proof. solve_decision. Defined.

Definition code (self : t) : string := dimension_label (dimension self).

End AgentBudgetExhaustion.

(** ** Grants *)

(** The smaller of two bounds, where no bound is the identity. *)
Definition tighter (held bound : option Z) : option Z :=
  match held, bound with
  | None, bound => bound
  | held, None => held
  | Some held, Some bound => Some (held `min` bound)
  end.

Module AgentBudgetCeilings.

Record t := mk {
  max_loop_iterations : option Z;
  max_model_calls : option Z;
  max_tool_calls : option Z;
  max_effects : option Z;
  max_effect_attempts : option Z;
  max_tokens : option Z;
  max_cost_micros : option Z;
  max_wall_clock_millis : option Z;
  max_concurrent_effects : option Z;
}.

End AgentBudgetCeilings.

Module AgentBudgetAllocation.

Record t := mk {
  loop_iterations : option Z;
  model_calls : option Z;
  tool_calls : option Z;
  effects : option Z;
  effect_attempts : option Z;
  tokens : option Z;
  cost_micros : option Z;
  descendants : option Z;
}.

#[global] Instance eq_dec : EqDecision t.
Proof. solve_decision. Defined.

Definition unbounded : t := mk None None None None None None None None.

Definition nothing : t :=
  mk (Some 0) (Some 0) (Some 0) (Some 0) (Some 0) (Some 0) (Some 0) (Some 0).

Definition from_ceilings (ceilings : AgentBudgetCeilings.t) : t :=
  mk (AgentBudgetCeilings.max_loop_iterations ceilings)
    (AgentBudgetCeilings.max_model_calls ceilings)
    (AgentBudgetCeilings.max_tool_calls ceilings)
    (AgentBudgetCeilings.max_effects ceilings)
    (AgentBudgetCeilings.max_effect_attempts ceilings)
    (AgentBudgetCeilings.max_tokens ceilings)
    (AgentBudgetCeilings.max_cost_micros ceilings) None.

Definition get (self : t) (dimension : AgentBudgetDimension) : option Z :=
  match dimension with
  | LoopIterations => loop_iterations self
  | ModelCalls => model_calls self
  | ToolCalls => tool_calls self
  | Effects => effects self
  | EffectAttempts => effect_attempts self
  | Tokens => tokens self
  | Cost => cost_micros self
  | Descendants => descendants self
  | WallClock | ConcurrentEffects => None
  end.

Definition set (self : t) (dimension : AgentBudgetDimension) (amount : option Z) : t :=
  let 'mk i m c e a k p d := self in
  match dimension with
  | LoopIterations => mk amount m c e a k p d
  | ModelCalls => mk i amount c e a k p d
  | ToolCalls => mk i m amount e a k p d
  | Effects => mk i m c amount a k p d
  | EffectAttempts => mk i m c e amount k p d
  | Tokens => mk i m c e a amount p d
  | Cost => mk i m c e a k amount d
  | Descendants => mk i m c e a k p amount
  | WallClock | ConcurrentEffects => self
  end.

(** The loops over the conserved dimensions. *)
Definition set_each (self : t) (amount : AgentBudgetDimension → option Z) : t :=
  foldl (fun grant dimension => set grant dimension (amount dimension)) self CONSERVED.

Definition narrowed_to (self ceiling : t) : t :=
  set_each self (fun dimension => tighter (get self dimension) (get ceiling dimension)).

Definition is_unbounded (self : t) : bool :=
  forallb (fun dimension => bool_decide (get self dimension = None)) CONSERVED.

Definition first_empty_for (self request : t) : option AgentBudgetDimension :=
  find_first (fun dimension =>
    let wanted := default u64_max (get request dimension) in
    (0 <? wanted) && bool_decide (get self dimension = Some 0)) WORK.

Definition saturating_add (self other : t) : t :=
  set_each self (fun dimension =>
    match get self dimension, get other dimension with
    | Some held, Some added => Some (saturating_add_u64 held added)
    | _, _ => None
    end).

End AgentBudgetAllocation.

Module AgentBudgetLimits.

Record t := mk { max_wall_clock_millis : option Z; max_concurrent_effects : option Z }.

#[global] Instance eq_dec : EqDecision t.
Proof. solve_decision. Defined.

Definition unbounded : t := mk None None.

Definition from_ceilings (ceilings : AgentBudgetCeilings.t) : t :=
  mk (AgentBudgetCeilings.max_wall_clock_millis ceilings)
    (AgentBudgetCeilings.max_concurrent_effects ceilings).

Definition narrowed_to (self ceiling : t) : t :=
  mk (tighter (max_wall_clock_millis self) (max_wall_clock_millis ceiling))
    (tighter (max_concurrent_effects self) (max_concurrent_effects ceiling)).

End AgentBudgetLimits.

Module AgentBudgetGrant.

Record t := new { allocation : AgentBudgetAllocation.t; limits : AgentBudgetLimits.t }.

Definition unbounded : t := new AgentBudgetAllocation.unbounded AgentBudgetLimits.unbounded.

Definition from_ceilings (ceilings : AgentBudgetCeilings.t) : t :=
  new (AgentBudgetAllocation.from_ceilings ceilings) (AgentBudgetLimits.from_ceilings ceilings).

Definition narrowed_to (self ceiling : t) : t :=
  new (AgentBudgetAllocation.narrowed_to (allocation self) (allocation ceiling))
    (AgentBudgetLimits.narrowed_to (limits self) (limits ceiling)).

End AgentBudgetGrant.

Module AgentBudgetConsumption.

Record t := mk {
  loop_iterations : Z;
  model_calls : Z;
  tool_calls : Z;
  effects : Z;
  effect_attempts : Z;
  tokens : Z;
  cost_micros : Z;
  descendants : Z;
}.

#[global] Instance eq_dec : EqDecision t.
Proof. solve_decision. Defined.

Definition zero : t := mk 0 0 0 0 0 0 0 0.

Definition get (self : t) (dimension : AgentBudgetDimension) : Z :=
  match dimension with
  | LoopIterations => loop_iterations self
  | ModelCalls => model_calls self
  | ToolCalls => tool_calls self
  | Effects => effects self
  | EffectAttempts => effect_attempts self
  | Tokens => tokens self
  | Cost => cost_micros self
  | Descendants => descendants self
  | WallClock | ConcurrentEffects => 0
  end.

Definition add (self : t) (dimension : AgentBudgetDimension) (amount : Z) : t :=
  let 'mk i m c e a k p d := self in
  match dimension with
  | LoopIterations => mk (saturating_add_u64 i amount) m c e a k p d
  | ModelCalls => mk i (saturating_add_u64 m amount) c e a k p d
  | ToolCalls => mk i m (saturating_add_u64 c amount) e a k p d
  | Effects => mk i m c (saturating_add_u64 e amount) a k p d
  | EffectAttempts => mk i m c e (saturating_add_u64 a amount) k p d
  | Tokens => mk i m c e a (saturating_add_u64 k amount) p d
  | Cost => mk i m c e a k (saturating_add_u64 p amount) d
  | Descendants => mk i m c e a k p (saturating_add_u64 d amount)
  | WallClock | ConcurrentEffects => self
  end.

Definition saturating_add (self other : t) : t :=
  foldl (fun sum dimension => add sum dimension (get other dimension)) self CONSERVED.

Definition is_zero (self : t) : bool := bool_decide (self = zero).

End AgentBudgetConsumption.

(** ** The ledger of a scope *)

Module AgentEscrowChildId.

Record t := mk { as_str : string }.

#[global] Instance eq_dec : EqDecision t.
Proof. solve_decision. Defined.

#[global] Instance countable : Countable t := inj_countable' as_str mk ltac:(by intros []).

#[global] Instance ordkey : OrdKey t := ordkey_via as_str (Inj0 := ltac:(newtype_inj)).

End AgentEscrowChildId.

Module AgentChildEscrow.

Record t := mk {
  allocated : AgentBudgetAllocation.t;
  granted_through : Z;
  last_top_up : option AgentBudgetAllocation.t;
  settled : option AgentBudgetConsumption.t;
}.

End AgentChildEscrow.

(** The [Schema] refusal belongs to decoding a persisted ledger. *)
Inductive AgentEscrowError :=
| ChildCapacity (capacity : nat)
| UnknownChild (child : AgentEscrowChildId.t)
| NotSettled (child : AgentEscrowChildId.t)
| AlreadySettled (child : AgentEscrowChildId.t)
| StaleTopUp (child : AgentEscrowChildId.t) (sequence granted_through : Z).

#[global] Instance AgentEscrowError_eq_dec : EqDecision AgentEscrowError.
Proof. solve_decision. Defined.

Definition escrow_error_code (self : AgentEscrowError) : string :=
  match self with
  | ChildCapacity _ => "escrow-child-capacity"
  | UnknownChild _ => "escrow-child-unknown"
  | NotSettled _ => "escrow-child-not-settled"
  | AlreadySettled _ => "escrow-child-already-settled"
  | StaleTopUp _ _ _ => "escrow-top-up-stale"
  end.

Abbreviation AgentEscrowResult := (result AgentEscrowError).

Definition AGENT_ESCROW_CHILD_CAPACITY : nat := 64.

Module AgentEscrowLedger.

Record t := mk {
  allocation : AgentBudgetAllocation.t;
  limits : AgentBudgetLimits.t;
  consumed : AgentBudgetConsumption.t;
  outstanding : gmap AgentEscrowChildId.t AgentChildEscrow.t;
}.

Definition new (grant : AgentBudgetGrant.t) : t :=
  mk (AgentBudgetGrant.allocation grant) (AgentBudgetGrant.limits grant)
    AgentBudgetConsumption.zero ∅.

Definition set_outstanding (self : t) (outstanding : gmap AgentEscrowChildId.t AgentChildEscrow.t) :
    t :=
  mk (allocation self) (limits self) (consumed self) outstanding.

Definition held_by (dimension : AgentBudgetDimension) (escrow : AgentChildEscrow.t) : Z :=
  default 0 (AgentBudgetAllocation.get (AgentChildEscrow.allocated escrow) dimension).

Definition available (self : t) (dimension : AgentBudgetDimension) : option Z :=
  match AgentBudgetAllocation.get (allocation self) dimension with
  | None => None
  | Some allocation =>
      let outstanding :=
        foldl saturating_add_u64 0 (held_by dimension <$> btree_values (outstanding self)) in
      Some (saturating_sub
              (saturating_sub allocation (AgentBudgetConsumption.get (consumed self) dimension))
              outstanding)
  end.

Definition available_allocation (self : t) : AgentBudgetAllocation.t :=
  AgentBudgetAllocation.set_each AgentBudgetAllocation.unbounded (available self).

Definition open_child (self : t) (child : AgentEscrowChildId.t)
    (request : AgentBudgetAllocation.t) : t * AgentEscrowResult AgentBudgetAllocation.t :=
  match outstanding self !! child with
  | Some escrow => (self, Ok (AgentChildEscrow.allocated escrow))
  | None =>
      if (AGENT_ESCROW_CHILD_CAPACITY <=? size (outstanding self))%nat then
        (self, Err (ChildCapacity AGENT_ESCROW_CHILD_CAPACITY))
      else
        let allocated := AgentBudgetAllocation.narrowed_to request (available_allocation self) in
        (set_outstanding self
           (<[child := AgentChildEscrow.mk allocated 0 None None]> (outstanding self)),
         Ok allocated)
  end.

Definition top_up_child (self : t) (child : AgentEscrowChildId.t) (sequence : Z)
    (request : AgentBudgetAllocation.t) : t * AgentEscrowResult AgentBudgetAllocation.t :=
  let available := available_allocation self in
  match outstanding self !! child with
  | None => (self, Err (UnknownChild child))
  | Some escrow =>
      let granted_through := AgentChildEscrow.granted_through escrow in
      if sequence <=? granted_through then
        (self,
         match sequence =? granted_through, AgentChildEscrow.last_top_up escrow with
         | true, Some granted => Ok granted
         | _, _ => Err (StaleTopUp child sequence granted_through)
         end)
      else if decide (is_Some (AgentChildEscrow.settled escrow)) then
        (self, Err (AlreadySettled child))
      else
        let granted := AgentBudgetAllocation.narrowed_to request available in
        let escrow := AgentChildEscrow.mk
          (AgentBudgetAllocation.saturating_add (AgentChildEscrow.allocated escrow) granted)
          sequence (Some granted) (AgentChildEscrow.settled escrow) in
        (set_outstanding self (<[child := escrow]> (outstanding self)), Ok granted)
  end.

Definition settle_child (self : t) (child : AgentEscrowChildId.t)
    (amount : AgentBudgetConsumption.t) : t * AgentEscrowResult AgentBudgetConsumption.t :=
  match outstanding self !! child with
  | None => (self, Err (UnknownChild child))
  | Some escrow =>
      match AgentChildEscrow.settled escrow with
      | Some settled => (self, Ok settled)
      | None =>
          let escrow := AgentChildEscrow.mk (AgentChildEscrow.allocated escrow)
            (AgentChildEscrow.granted_through escrow) (AgentChildEscrow.last_top_up escrow)
            (Some amount) in
          (mk (allocation self) (limits self)
             (AgentBudgetConsumption.saturating_add (consumed self) amount)
             (<[child := escrow]> (outstanding self)), Ok amount)
      end
  end.

Definition return_child (self : t) (child : AgentEscrowChildId.t) :
    t * AgentEscrowResult AgentBudgetAllocation.t :=
  match outstanding self !! child with
  | None => (self, Err (UnknownChild child))
  | Some escrow =>
      match AgentChildEscrow.settled escrow with
      | None => (self, Err (NotSettled child))
      | Some settled =>
          let released := AgentBudgetAllocation.set_each AgentBudgetAllocation.unbounded
            (fun dimension =>
               (fun held => saturating_sub held (AgentBudgetConsumption.get settled dimension))
               <$> AgentBudgetAllocation.get (AgentChildEscrow.allocated escrow) dimension) in
          (set_outstanding self (delete child (outstanding self)), Ok released)
      end
  end.

(** The amount a widening gives one dimension; [None] leaves the dimension alone. *)
Definition widened_amount (self : t) (additional ceiling : AgentBudgetAllocation.t)
    (dimension : AgentBudgetDimension) : option Z :=
  match AgentBudgetAllocation.get additional dimension,
        AgentBudgetAllocation.get (allocation self) dimension with
  | Some added, Some held =>
      let target := saturating_add_u64 held added in
      let target := match AgentBudgetAllocation.get ceiling dimension with
                    | Some bound => target `min` bound
                    | None => target
                    end in
      Some (held `max` target)
  | _, _ => None
  end.

Definition widen (self : t) (additional ceiling : AgentBudgetAllocation.t) :
    t * AgentBudgetAllocation.t :=
  let widened :=
    foldl (fun widened dimension =>
      match widened_amount self additional ceiling dimension with
      | Some amount => AgentBudgetAllocation.set widened dimension (Some amount)
      | None => widened
      end) (allocation self) CONSERVED in
  (mk widened (limits self) (consumed self) (outstanding self), widened).

End AgentEscrowLedger.

(** ** The ledger of a run *)

Module AgentModelUsage.

Record t := mk {
  input_tokens : Z;
  output_tokens : Z;
  cost_micros : Z;
  cached_input_tokens : option Z;
  reasoning_tokens : option Z;
}.

Definition total_tokens (self : t) : Z :=
  saturating_add_u64 (input_tokens self) (output_tokens self).

End AgentModelUsage.

Module AgentRunBudget.

Record t := mk {
  allocation : AgentBudgetAllocation.t;
  limits : AgentBudgetLimits.t;
  consumed : AgentBudgetConsumption.t;
  reserved_attempts : Z;
  top_ups : Z;
  deadline : option Z;
}.

Definition allocate (grant : AgentBudgetGrant.t) (started_at : Z) : t :=
  let deadline :=
    (fun millis => saturating_add_u64 started_at millis)
    <$> AgentBudgetLimits.max_wall_clock_millis (AgentBudgetGrant.limits grant) in
  mk (AgentBudgetGrant.allocation grant) (AgentBudgetGrant.limits grant)
    AgentBudgetConsumption.zero 0 0 deadline.

Definition set_consumed (self : t) (consumed : AgentBudgetConsumption.t) : t :=
  mk (allocation self) (limits self) consumed (reserved_attempts self) (top_ups self)
    (deadline self).

Definition set_reserved_attempts (self : t) (reserved_attempts : Z) : t :=
  mk (allocation self) (limits self) (consumed self) reserved_attempts (top_ups self)
    (deadline self).

Definition consume (self : t) (dimension : AgentBudgetDimension) (amount : Z) : t :=
  set_consumed self (AgentBudgetConsumption.add (consumed self) dimension amount).

Abbreviation charged := (result AgentBudgetExhaustion.t unit).

Definition check_concurrency (self : t) (outstanding count : Z) : charged :=
  match AgentBudgetLimits.max_concurrent_effects (limits self) with
  | None => Ok tt
  | Some maximum =>
      if maximum <? saturating_add_u64 outstanding count then
        Err (AgentBudgetExhaustion.new ConcurrentEffects maximum outstanding)
      else Ok tt
  end.

(** What is spoken for: attempts are reserved ahead of the work. *)
Definition spoken_for (self : t) (dimension : AgentBudgetDimension) : Z :=
  match dimension with
  | EffectAttempts =>
      saturating_add_u64 (AgentBudgetConsumption.get (consumed self) dimension)
        (reserved_attempts self)
  | _ => AgentBudgetConsumption.get (consumed self) dimension
  end.

Definition check_amount (self : t) (dimension : AgentBudgetDimension) (amount : Z) : charged :=
  match AgentBudgetAllocation.get (allocation self) dimension with
  | None => Ok tt
  | Some limit =>
      let held := spoken_for self dimension in
      if limit <? saturating_add_u64 held amount then
        Err (AgentBudgetExhaustion.new dimension limit held)
      else Ok tt
  end.

Definition check (self : t) (dimension : AgentBudgetDimension) : charged :=
  check_amount self dimension 1.

Definition check_deadline (self : t) (now : Z) : charged :=
  match deadline self with
  | None => Ok tt
  | Some deadline =>
      if deadline <=? now then
        let limit := default 0 (AgentBudgetLimits.max_wall_clock_millis (limits self)) in
        let elapsed := saturating_add_u64 (saturating_sub now deadline) limit in
        Err (AgentBudgetExhaustion.new WallClock limit elapsed)
      else Ok tt
  end.

(** A charge whose checks are [checks] and whose effect is [effect]. *)
Definition guarded (self : t) (checks : charged) (effect : t) : t * charged :=
  match checks with
  | Err e => (self, Err e)
  | Ok _ => (effect, Ok tt)
  end.

Definition charge (self : t) (dimension : AgentBudgetDimension) (amount : Z) : t * charged :=
  guarded self (check_amount self dimension amount) (consume self dimension amount).

Definition charge_iteration (self : t) (now : Z) : t * charged :=
  match check_deadline self now with
  | Err e => (self, Err e)
  | Ok _ => charge self LoopIterations 1
  end.

Definition charge_model_call (self : t) (now : Z) : t * charged :=
  match (let? _ := check_deadline self now in
         let? _ := check self Tokens in
         check self Cost) with
  | Err e => (self, Err e)
  | Ok _ => charge self ModelCalls 1
  end.

Definition charge_tool_call (self : t) (now : Z) : t * charged :=
  match check_deadline self now with
  | Err e => (self, Err e)
  | Ok _ => charge self ToolCalls 1
  end.

Definition reserve_model_turn (self : t) (max_attempts outstanding now : Z) : t * charged :=
  let checks :=
    let? _ := check_deadline self now in
    let? _ := check_concurrency self outstanding 1 in
    let? _ := check_amount self LoopIterations 1 in
    let? _ := check self Tokens in
    let? _ := check self Cost in
    let? _ := check_amount self ModelCalls 1 in
    let? _ := check_amount self Effects 1 in
    check_amount self EffectAttempts max_attempts in
  let effect := consume (consume (consume self LoopIterations 1) ModelCalls 1) Effects 1 in
  guarded self checks
    (set_reserved_attempts effect (saturating_add_u64 (reserved_attempts effect) max_attempts)).

Definition reserve_tool_turn (self : t) (count total_attempts outstanding now : Z) : t * charged :=
  let checks :=
    let? _ := check_deadline self now in
    let? _ := check_concurrency self outstanding count in
    let? _ := check_amount self ToolCalls count in
    let? _ := check_amount self Effects count in
    check_amount self EffectAttempts total_attempts in
  let effect := consume (consume self ToolCalls count) Effects count in
  guarded self checks
    (set_reserved_attempts effect (saturating_add_u64 (reserved_attempts effect) total_attempts)).

Definition reserve_attempts (self : t) (max_attempts : Z) : t * charged :=
  guarded self (check_amount self EffectAttempts max_attempts)
    (set_reserved_attempts self (saturating_add_u64 (reserved_attempts self) max_attempts)).

Definition settle_effect (self : t) (reserved attempts_made : Z) : t :=
  let made := attempts_made `min` reserved in
  let self := consume self EffectAttempts made in
  set_reserved_attempts self (saturating_sub (reserved_attempts self) reserved).

Definition record_usage (self : t) (usage : AgentModelUsage.t) : t :=
  consume (consume self Tokens (AgentModelUsage.total_tokens usage)) Cost
    (AgentModelUsage.cost_micros usage).

Definition credit (self : t) (granted : AgentBudgetAllocation.t) (sequence : Z) : t :=
  mk (AgentBudgetAllocation.saturating_add (allocation self) granted) (limits self) (consumed self)
    (reserved_attempts self) (top_ups self `max` sequence) (deadline self).

Definition charge_descendants (self : t) (count : Z) : t := consume self Descendants count.

Definition unused (self : t) : AgentBudgetAllocation.t :=
  AgentBudgetAllocation.set_each AgentBudgetAllocation.unbounded (fun dimension =>
    (fun held => saturating_sub held (AgentBudgetConsumption.get (consumed self) dimension))
    <$> AgentBudgetAllocation.get (allocation self) dimension).

Definition exhaustion (self : t) (now : Z) : option AgentBudgetExhaustion.t :=
  match (let? _ := check_deadline self now in
         let? _ := check self Tokens in
         check self Cost) with
  | Err e => Some e
  | Ok _ => None
  end.

End AgentRunBudget.

(** ** Dimension by dimension *)

Section dimensions.
Import AgentBudgetAllocation.

Lemma get_set_each a f d :
  get (set_each a f) d = if is_conserved d then f d else None.
Proof. destruct a, d; reflexivity. Qed.

Lemma get_narrowed_to a c d : get (narrowed_to a c) d = tighter (get a d) (get c d).
Proof. unfold narrowed_to. rewrite get_set_each. by destruct d. Qed.

Lemma get_saturating_add a b d :
  get (saturating_add a b) d =
  match get a d, get b d with
  | Some held, Some added => Some (saturating_add_u64 held added)
  | _, _ => None
  end.
Proof. unfold saturating_add. rewrite get_set_each. by destruct d. Qed.

Lemma get_available_allocation l d :
  get (AgentEscrowLedger.available_allocation l) d = AgentEscrowLedger.available l d.
Proof. unfold AgentEscrowLedger.available_allocation. rewrite get_set_each. by destruct d. Qed.

Lemma get_consumption_add c d d' n :
  AgentBudgetConsumption.get (AgentBudgetConsumption.add c d n) d' =
  if decide (d = d' ∧ is_conserved d) then saturating_add_u64 (AgentBudgetConsumption.get c d) n
  else AgentBudgetConsumption.get c d'.
Proof. by destruct c, d, d'. Qed.

Lemma get_consumption_saturating_add c c' d :
  AgentBudgetConsumption.get (AgentBudgetConsumption.saturating_add c c') d =
  if is_conserved d
  then saturating_add_u64 (AgentBudgetConsumption.get c d) (AgentBudgetConsumption.get c' d)
  else 0.
Proof. by destruct c, c', d. Qed.
End dimensions.

(** ** Sums over the children *)

Section sums.
Context {K V : Type} `{Countable K} (f : V → Z).
Implicit Types m : gmap K V.

Definition map_sum m : Z := map_fold (fun _ v total => f v + total) 0 m.

Lemma map_sum_empty : map_sum ∅ = 0.
Proof. apply map_fold_empty. Qed.

Lemma map_sum_insert m k v : m !! k = None → map_sum (<[k := v]> m) = f v + map_sum m.
Proof. intros. apply (map_fold_insert_L (fun _ v total => f v + total)); [intros; lia|done]. Qed.

Lemma map_sum_delete m k v : m !! k = Some v → map_sum (delete k m) = map_sum m - f v.
Proof.
  intros Hk. enough (map_sum m = f v + map_sum (delete k m)) by lia.
  apply (map_fold_delete_L (fun _ v total => f v + total)); [intros; lia|done].
Qed.

Lemma map_sum_update m k v w :
  m !! k = Some v → map_sum (<[k := w]> m) = map_sum m - f v + f w.
Proof.
  intros Hk. rewrite <-insert_delete_eq, map_sum_insert by (by rewrite lookup_delete_eq).
  rewrite (map_sum_delete m k v) by done. lia.
Qed.

Lemma map_sum_nonneg m : (∀ k v, m !! k = Some v → 0 <= f v) → 0 <= map_sum m.
Proof.
  induction m as [|k v m Hk IH] using map_ind; intros Hf; [by rewrite map_sum_empty|].
  rewrite map_sum_insert by done.
  pose proof (Hf k v ltac:(by rewrite lookup_insert_eq)).
  enough (0 <= map_sum m) by lia. apply IH. intros k' v' Hk'. apply (Hf k').
  rewrite lookup_insert_ne; [done|]. by intros ->; rewrite Hk in Hk'.
Qed.
End sums.

Lemma map_sum_mono {K V} `{Countable K} (f g : V → Z) (m : gmap K V) :
  (∀ k v, m !! k = Some v → f v <= g v) → map_sum f m <= map_sum g m.
Proof.
  induction m as [|k v m Hk IH] using map_ind; intros Hf; [by rewrite !map_sum_empty|].
  rewrite !map_sum_insert by done.
  pose proof (Hf k v ltac:(by rewrite lookup_insert_eq)).
  enough (map_sum f m <= map_sum g m) by lia. apply IH. intros k' v' Hk'. apply (Hf k').
  rewrite lookup_insert_ne; [done|]. by intros ->; rewrite Hk in Hk'.
Qed.

(** The saturating sum of the source is the sum, cut off at the largest [u64]. *)
Lemma saturating_sum {K V} `{Countable K, !OrdKey K} (f : V → Z) (m : gmap K V) :
  (∀ k v, m !! k = Some v → 0 <= f v) →
  foldl saturating_add_u64 0 (f <$> btree_values m) = map_sum f m `min` u64_max.
Proof.
  intros Hf. assert (∀ l acc, 0 <= acc <= u64_max → (∀ x, x ∈ l → 0 <= x) →
    foldl saturating_add_u64 acc l = (acc + foldr Z.add 0 l) `min` u64_max) as Hl.
  { induction l as [|x l IH]; intros acc Hacc Hpos; simpl; [lia|].
    pose proof (Hpos x ltac:(by left)). assert (0 <= foldr Z.add 0 l).
    { clear -Hpos. induction l as [|y l IHl]; simpl; [lia|].
      pose proof (Hpos y ltac:(by right; left)). enough (0 <= foldr Z.add 0 l) by lia.
      apply IHl. set_solver. }
    rewrite IH; [unfold saturating_add_u64; lia|unfold saturating_add_u64; lia|set_solver]. }
  rewrite Hl; [|split; [done|by rewrite u64_max_val]|].
  - f_equal. unfold map_sum, btree_values. rewrite map_fold_foldr.
    assert (∀ l : list (K * V), foldr Z.add 0 (f <$> l.*2) =
      foldr (uncurry (fun _ v total => f v + total)) 0 l) as Hs.
    { induction l as [|[k v] l IHl]; simpl; [done|]. f_equal. exact IHl. }
    rewrite Z.add_0_l, Hs. apply foldr_permutation; try apply _.
    + intros ? [k1 v1] ? [k2 v2]; simpl; intros; lia.
    + apply btree_entries_perm.
  - intros x (v & -> & [k Hk]%elem_of_btree_values)%list_elem_of_fmap. eauto.
Qed.

(** ** Conservation *)

Section ledger.
Import AgentEscrowLedger.
Implicit Types l : AgentEscrowLedger.t.

(** Amounts are [u64] values. *)
Definition alloc_ok (a : AgentBudgetAllocation.t) : Prop :=
  ∀ d n, AgentBudgetAllocation.get a d = Some n → is_u64 n.

Definition consumption_ok (c : AgentBudgetConsumption.t) : Prop :=
  ∀ d, is_u64 (AgentBudgetConsumption.get c d).

Abbreviation consumed_in l d := (AgentBudgetConsumption.get (consumed l) d).

(** What a child that has not settled may still spend. *)
Definition unsettled_held (d : AgentBudgetDimension) (e : AgentChildEscrow.t) : Z :=
  match AgentChildEscrow.settled e with None => held_by d e | Some _ => 0 end.

Inductive escrow_op :=
| OpenChild (child : AgentEscrowChildId.t) (request : AgentBudgetAllocation.t)
| TopUpChild (child : AgentEscrowChildId.t) (sequence : Z) (request : AgentBudgetAllocation.t)
| SettleChild (child : AgentEscrowChildId.t) (amount : AgentBudgetConsumption.t)
| ReturnChild (child : AgentEscrowChildId.t)
| Widen (additional ceiling : AgentBudgetAllocation.t).

Definition do_op l (o : escrow_op) : AgentEscrowLedger.t :=
  match o with
  | OpenChild child request => (open_child l child request).1
  | TopUpChild child sequence request => (top_up_child l child sequence request).1
  | SettleChild child amount => (settle_child l child amount).1
  | ReturnChild child => (return_child l child).1
  | Widen additional ceiling => (widen l additional ceiling).1
  end.

Definition do_ops l (os : list escrow_op) : AgentEscrowLedger.t := foldl do_op l os.

Definition op_ok (o : escrow_op) : Prop :=
  match o with
  | OpenChild _ request | TopUpChild _ _ request => alloc_ok request
  | SettleChild _ amount => consumption_ok amount
  | ReturnChild _ => True
  | Widen additional ceiling => alloc_ok additional ∧ alloc_ok ceiling
  end.

(** By how much a first settlement exceeds what the child held. *)
Definition overspend l (o : escrow_op) (d : AgentBudgetDimension) : Z :=
  match o with
  | SettleChild child amount =>
      match outstanding l !! child with
      | Some e =>
          match AgentChildEscrow.settled e with
          | None => saturating_sub (AgentBudgetConsumption.get amount d) (held_by d e)
          | Some _ => 0
          end
      | None => 0
      end
  | _ => 0
  end.

Fixpoint overspent l (os : list escrow_op) (d : AgentBudgetDimension) : Z :=
  match os with
  | [] => 0
  | o :: os => overspend l o d + overspent (do_op l o) os d
  end.

(** The amounts of a ledger are well typed, and a dimension the scope bounds is bounded
    for all its children. *)
Record ledger_ok l : Prop := {
  ok_allocation : alloc_ok (allocation l);
  ok_consumed : consumption_ok (consumed l);
  ok_escrow child e : outstanding l !! child = Some e → alloc_ok (AgentChildEscrow.allocated e);
  ok_bounded child e d a : outstanding l !! child = Some e →
    AgentBudgetAllocation.get (allocation l) d = Some a →
    is_Some (AgentBudgetAllocation.get (AgentChildEscrow.allocated e) d);
}.

Lemma held_by_nonneg d e : alloc_ok (AgentChildEscrow.allocated e) → 0 <= held_by d e.
Proof.
  intros Hok. unfold held_by. destruct (AgentBudgetAllocation.get _ d) as [n|] eqn:Hn; simpl; [|lia].
  apply Hok in Hn. uint.
Qed.

Lemma available_exact l d a :
  ledger_ok l → AgentBudgetAllocation.get (allocation l) d = Some a →
  available l d = Some (Z.max 0 (a - consumed_in l d - map_sum (held_by d) (outstanding l))).
Proof.
  intros Hok Ha. unfold available. rewrite Ha. f_equal. rewrite saturating_sum.
  - pose proof (ok_allocation _ Hok d a Ha). pose proof (ok_consumed _ Hok d).
    pose proof (map_sum_nonneg (held_by d) (outstanding l)) as Hs.
    assert (0 <= map_sum (held_by d) (outstanding l)).
    { apply Hs. intros k e He. by apply held_by_nonneg, (ok_escrow _ Hok k). }
    uint.
  - intros k e He. by apply held_by_nonneg, (ok_escrow _ Hok k).
Qed.

(** A grant narrowed to what is available is bounded, and covered unless it is empty. *)
Lemma grant_covered l request d a :
  ledger_ok l → alloc_ok request → AgentBudgetAllocation.get (allocation l) d = Some a →
  ∃ n, AgentBudgetAllocation.get
         (AgentBudgetAllocation.narrowed_to request (available_allocation l)) d = Some n ∧
       0 <= n ∧ (n = 0 ∨ consumed_in l d + map_sum (held_by d) (outstanding l) + n <= a).
Proof.
  intros Hok Hreq Ha. rewrite get_narrowed_to, get_available_allocation, (available_exact l d a) by done.
  destruct (AgentBudgetAllocation.get request d) as [r|] eqn:Hr; simpl; eexists;
    (split; [done|]); [apply Hreq in Hr; uint|lia].
Qed.

Lemma narrowed_alloc_ok l request :
  ledger_ok l → alloc_ok request →
  alloc_ok (AgentBudgetAllocation.narrowed_to request (available_allocation l)).
Proof.
  intros Hok Hreq d n. rewrite get_narrowed_to, get_available_allocation.
  destruct (AgentBudgetAllocation.get (allocation l) d) as [a|] eqn:Ha.
  - rewrite (available_exact l d a) by done. pose proof (ok_allocation _ Hok d a Ha) as Hu.
    pose proof (ok_consumed _ Hok d) as Hc.
    assert (0 <= map_sum (held_by d) (outstanding l)).
    { apply map_sum_nonneg. intros k e He. by apply held_by_nonneg, (ok_escrow _ Hok k). }
    destruct (AgentBudgetAllocation.get request d) as [r|] eqn:Hr; simpl; intros [= <-];
      [apply Hreq in Hr|]; uint.
  - unfold available. rewrite Ha. destruct (AgentBudgetAllocation.get request d) eqn:Hr; simpl;
      intros [= <-]. eauto.
Qed.

Lemma unsettled_le_held l d :
  ledger_ok l → map_sum (unsettled_held d) (outstanding l) <= map_sum (held_by d) (outstanding l).
Proof.
  intros Hok. apply map_sum_mono. intros k e He. unfold unsettled_held.
  pose proof (held_by_nonneg d e (ok_escrow _ Hok k e He)). destruct (AgentChildEscrow.settled e); lia.
Qed.

(** What a scope has spent or promised to children that may still spend it. *)
Definition committed l (d : AgentBudgetDimension) : Z :=
  consumed_in l d + map_sum (unsettled_held d) (outstanding l).

(** One operation keeps the ledger well typed and commits only what is left, except for
    what a child spent beyond what it held. *)
Definition conserves l l' (over : AgentBudgetDimension → Z) : Prop :=
  ledger_ok l' ∧ ∀ d a', AgentBudgetAllocation.get (allocation l') d = Some a' →
    ∃ a, AgentBudgetAllocation.get (allocation l) d = Some a ∧ a <= a' ∧
         committed l' d <= Z.max (committed l d + over d) a'.

Lemma conserves_refl l over : ledger_ok l → (∀ d, 0 <= over d) → conserves l l over.
Proof.
  intros Hok Hover. split; [done|]. intros d a Ha. exists a. specialize (Hover d). split_and!; lia || done.
Qed.

Lemma ledger_ok_insert l child e :
  ledger_ok l → alloc_ok (AgentChildEscrow.allocated e) →
  (∀ d a, AgentBudgetAllocation.get (allocation l) d = Some a →
     is_Some (AgentBudgetAllocation.get (AgentChildEscrow.allocated e) d)) →
  ledger_ok (set_outstanding l (<[child := e]> (outstanding l))).
Proof.
  intros [Hal Hco Hes Hbo] He Hb. split; [done|done|..]; simpl.
  - intros k e' [[_ <-]|[_ ?]]%lookup_insert_Some; eauto.
  - intros k e' d a [[_ <-]|[_ ?]]%lookup_insert_Some ?; eauto.
Qed.

Lemma open_child_conserves l child request over :
  ledger_ok l → alloc_ok request → (∀ d, 0 <= over d) →
  conserves l (open_child l child request).1 over.
Proof.
  intros Hok Hreq Hover. unfold open_child. destruct (outstanding l !! child) eqn:Hc; simpl;
    [by apply conserves_refl|].
  case_match; simpl; [by apply conserves_refl|]. split.
  - apply ledger_ok_insert; [done|by apply narrowed_alloc_ok|]. simpl. intros d a Ha.
    destruct (grant_covered l request d a) as (n & -> & _); [done..|]. by eexists.
  - simpl. intros d a Ha. exists a. split_and!; [done|lia|].
    destruct (grant_covered l request d a) as (n & Hn & Hpos & Hcov); [done..|].
    unfold committed; simpl. rewrite map_sum_insert by done.
    unfold unsettled_held at 1, held_by; simpl. rewrite Hn. simpl.
    pose proof (unsettled_le_held l d Hok). specialize (Hover d). lia.
Qed.

Lemma top_up_child_conserves l child sequence request over :
  ledger_ok l → alloc_ok request → (∀ d, 0 <= over d) →
  conserves l (top_up_child l child sequence request).1 over.
Proof.
  intros Hok Hreq Hover. unfold top_up_child. destruct (outstanding l !! child) as [e|] eqn:Hc;
    simpl; [|by apply conserves_refl].
  case_match; simpl; [by apply conserves_refl|].
  case_decide as Hs; simpl; [by apply conserves_refl|]. apply eq_None_not_Some in Hs.
  pose proof (ok_escrow _ Hok _ _ Hc) as Hae. split.
  - apply ledger_ok_insert; [done|..]; simpl.
    + intros d n. rewrite get_saturating_add.
      destruct (AgentBudgetAllocation.get (AgentChildEscrow.allocated e) d) as [h|] eqn:Hh; [|done].
      destruct (AgentBudgetAllocation.get (AgentBudgetAllocation.narrowed_to _ _) d) as [g|] eqn:Hg;
        [|done]. intros [= <-]. apply Hae in Hh. apply narrowed_alloc_ok in Hg; [|done..]. uint.
    + intros d a Ha. rewrite get_saturating_add.
      destruct (ok_bounded _ Hok _ _ _ _ Hc Ha) as [h ->].
      destruct (grant_covered l request d a) as (n & -> & _); [done..|]. by eexists.
  - simpl. intros d a Ha. exists a. split_and!; [done|lia|].
    destruct (grant_covered l request d a) as (n & Hn & Hpos & Hcov); [done..|].
    unfold committed; simpl. rewrite (map_sum_update _ _ _ e) by done.
    unfold unsettled_held at 2 3, held_by; simpl. rewrite Hs, get_saturating_add, Hn.
    destruct (ok_bounded _ Hok _ _ _ _ Hc Ha) as [h Hh]. rewrite Hh. simpl.
    pose proof (unsettled_le_held l d Hok). specialize (Hover d).
    unfold saturating_add_u64. lia.
Qed.

Lemma settle_child_conserves l child amount :
  ledger_ok l → consumption_ok amount →
  conserves l (settle_child l child amount).1 (overspend l (SettleChild child amount)).
Proof.
  intros Hok Ham.
  assert (∀ d, 0 <= overspend l (SettleChild child amount) d) as Hover.
  { intros d. simpl. repeat case_match; uint. }
  unfold settle_child. destruct (outstanding l !! child) as [e|] eqn:Hc;
    simpl; [|by apply conserves_refl].
  destruct (AgentChildEscrow.settled e) as [s|] eqn:Hs; simpl; [by apply conserves_refl|].
  pose proof (ok_escrow _ Hok _ _ Hc) as Hae. split.
  - destruct Hok as [Hal Hco Hes Hbo]. split; simpl; [done|..].
    + intros d. rewrite get_consumption_saturating_add. pose proof (Hco d). pose proof (Ham d).
      destruct (is_conserved d); uint.
    + intros k e' [[_ <-]|[_ ?]]%lookup_insert_Some; simpl; eauto.
    + intros k e' d a [[_ <-]|[_ ?]]%lookup_insert_Some ?; simpl; eauto.
  - simpl. intros d a Ha. exists a. split_and!; [done|lia|]. unfold committed; simpl.
    rewrite (map_sum_update _ _ _ e) by done. rewrite Hc, Hs, get_consumption_saturating_add.
    unfold unsettled_held at 2 3; simpl. rewrite Hs.
    pose proof (held_by_nonneg d e Hae). pose proof (Ham d). pose proof (ok_consumed _ Hok d).
    destruct (is_conserved d) eqn:Hd; [unfold saturating_add_u64, saturating_sub; uint|].
    by destruct d.
Qed.

Lemma return_child_conserves l child over :
  ledger_ok l → (∀ d, 0 <= over d) → conserves l (return_child l child).1 over.
Proof.
  intros Hok Hover. unfold return_child. destruct (outstanding l !! child) as [e|] eqn:Hc;
    simpl; [|by apply conserves_refl].
  destruct (AgentChildEscrow.settled e) as [s|] eqn:Hs; simpl; [|by apply conserves_refl]. split.
  - destruct Hok as [Hal Hco Hes Hbo]. split; simpl; [done|done|..].
    + intros k e' [_ ?]%lookup_delete_Some. eauto.
    + intros k e' d a [_ ?]%lookup_delete_Some ?. eauto.
  - simpl. intros d a Ha. exists a. split_and!; [done|lia|]. unfold committed; simpl.
    rewrite (map_sum_delete _ _ _ e) by done. unfold unsettled_held at 2. rewrite Hs.
    specialize (Hover d). lia.
Qed.

Lemma get_widened l additional ceiling d :
  AgentBudgetAllocation.get (allocation (widen l additional ceiling).1) d =
  match widened_amount l additional ceiling d with
  | Some amount => if is_conserved d then Some amount else None
  | None => AgentBudgetAllocation.get (allocation l) d
  end.
Proof.
  unfold widen. simpl. repeat (match goal with |- context [widened_amount l additional ceiling ?x] =>
    destruct (widened_amount l additional ceiling x) eqn:? end);
    destruct (allocation l), d; simpl in *; congruence.
Qed.

Lemma widen_conserves l additional ceiling over :
  ledger_ok l → alloc_ok additional → alloc_ok ceiling → (∀ d, 0 <= over d) →
  conserves l (widen l additional ceiling).1 over.
Proof.
  intros Hok Hadd Hceil Hover.
  assert (∀ d a', AgentBudgetAllocation.get (allocation (widen l additional ceiling).1) d = Some a' →
    ∃ a, AgentBudgetAllocation.get (allocation l) d = Some a ∧ a <= a' ∧ is_u64 a') as Hw.
  { intros d a'. rewrite get_widened. unfold widened_amount.
    destruct (AgentBudgetAllocation.get (allocation l) d) as [a|] eqn:Ha;
      [pose proof (ok_allocation _ Hok d a Ha) as Hu|];
      destruct (AgentBudgetAllocation.get additional d) as [n|] eqn:Hn; try done.
    - destruct (is_conserved d); [|done]. apply Hadd in Hn.
      destruct (AgentBudgetAllocation.get ceiling d) as [c|] eqn:Hc; intros [= <-]; exists a;
        [apply Hceil in Hc|]; (split; [done|]); uint.
    - intros [= <-]. exists a. split_and!; [done|lia|done]. }
  split.
  - split; simpl; [|apply Hok|apply Hok|].
    + intros d a' Ha'. by destruct (Hw d a' Ha') as (a & _ & _ & ?).
    + intros k e d a' He Ha'. destruct (Hw d a' Ha') as (a & Ha & _). by eapply (ok_bounded _ Hok).
  - intros d a' Ha'. destruct (Hw d a' Ha') as (a & Ha & Hle & _). exists a. specialize (Hover d).
    split_and!; [done|done|]. unfold committed; simpl. lia.
Qed.

Lemma overspend_nonneg l o d : 0 <= overspend l o d.
Proof. unfold overspend. repeat case_match; uint. Qed.

Lemma do_op_conserves l o : ledger_ok l → op_ok o → conserves l (do_op l o) (overspend l o).
Proof.
  intros Hok Ho. pose proof (overspend_nonneg l o) as Hover. destruct o; simpl do_op.
  - by apply open_child_conserves.
  - by apply top_up_child_conserves.
  - by apply settle_child_conserves.
  - by apply return_child_conserves.
  - destruct Ho. by apply widen_conserves.
Qed.

Lemma do_ops_conserve l os :
  ledger_ok l → Forall op_ok os →
  ledger_ok (do_ops l os) ∧
  ∀ d a', AgentBudgetAllocation.get (allocation (do_ops l os)) d = Some a' →
    ∃ a, AgentBudgetAllocation.get (allocation l) d = Some a ∧ a <= a' ∧
         committed (do_ops l os) d <= Z.max (committed l d) a' + overspent l os d.
Proof.
  revert l. induction os as [|o os IH]; intros l Hok Hos; simpl.
  { split; [done|]. intros d a Ha. exists a. split_and!; [done|lia|lia]. }
  apply Forall_cons in Hos as [Ho Hos].
  destruct (do_op_conserves l o Hok Ho) as [Hok1 Hc1].
  destruct (IH _ Hok1 Hos) as [Hok2 Hc2]. split; [done|].
  intros d a' Ha'. destruct (Hc2 d a' Ha') as (a1 & Ha1 & Hle1 & Hb1).
  destruct (Hc1 d a1 Ha1) as (a & Ha & Hle & Hb). exists a.
  pose proof (overspend_nonneg l o d). split_and!; [done|lia|]. simpl in *. lia.
Qed.

Lemma ledger_ok_new grant :
  alloc_ok (AgentBudgetGrant.allocation grant) → ledger_ok (new grant).
Proof. intros Ha. split; simpl; [done|intros []; simpl; uint|done|done]. Qed.

(** C11. A scope never promises what it does not have: after any operations, in any order
    and with any requests, in every dimension the scope bounds, what it and its settled
    children consumed plus what its unsettled children hold stays within its allocation,
    up to what children spent beyond their grants. *)
Theorem escrow_conservation grant os :
  alloc_ok (AgentBudgetGrant.allocation grant) → Forall op_ok os →
  let l := do_ops (new grant) os in
  ∀ d a, AgentBudgetAllocation.get (allocation l) d = Some a →
    consumed_in l d + map_sum (unsettled_held d) (outstanding l) <= a + overspent (new grant) os d.
Proof.
  intros Ha Hos l d a Hd.
  destruct (do_ops_conserve _ _ (ledger_ok_new grant Ha) Hos) as [_ Hc].
  destruct (Hc d a Hd) as (a0 & Ha0 & Hle & Hb). fold l in Hb. unfold committed in Hb at 1.
  assert (committed (new grant) d = 0) as Hz.
  { unfold committed. simpl. rewrite map_sum_empty. by destruct d. }
  rewrite Hz in Hb. pose proof (Ha d a0 Ha0). uint.
Qed.

(** Commands may be replayed: opening a child again, settling it again or asking again
    for the same top-up gives the first answer and leaves the ledger unchanged; a returned
    child cannot be settled or returned again. *)
Theorem escrow_replay l child request request' sequence amount amount' :
  (let '(l1, r) := open_child l child request in
   is_ok r = true → open_child l1 child request' = (l1, r)) ∧
  (let '(l1, r) := top_up_child l child sequence request in
   is_ok r = true → top_up_child l1 child sequence request' = (l1, r)) ∧
  (let '(l1, r) := settle_child l child amount in
   is_ok r = true → settle_child l1 child amount' = (l1, r)) ∧
  (let '(l1, r) := return_child l child in
   is_ok r = true → return_child l1 child = (l1, Err (UnknownChild child)) ∧
                    settle_child l1 child amount = (l1, Err (UnknownChild child))).
Proof.
  split_and!.
  - unfold open_child. destruct (outstanding l !! child) as [e|] eqn:Hc; [by rewrite Hc|].
    destruct (_ <=? _)%nat; simpl; [done|]. by rewrite lookup_insert_eq.
  - unfold top_up_child. destruct (outstanding l !! child) as [e|] eqn:Hc; [|done].
    destruct (sequence <=? AgentChildEscrow.granted_through e) eqn:Hle.
    + by rewrite Hc, Hle.
    + case_decide; [done|]. simpl. rewrite lookup_insert_eq; simpl. by rewrite Z.leb_refl, Z.eqb_refl.
  - unfold settle_child. destruct (outstanding l !! child) as [e|] eqn:Hc; [|done].
    destruct (AgentChildEscrow.settled e) eqn:Hs; simpl; [by rewrite Hc, Hs|].
    by rewrite lookup_insert_eq.
  - unfold return_child. destruct (outstanding l !! child) as [e|] eqn:Hc; [|done].
    destruct (AgentChildEscrow.settled e) eqn:Hs; [|done]. intros _. unfold settle_child. simpl.
    by rewrite lookup_delete_eq.
Qed.

(** Settling and then returning a child gives the scope back exactly what the child
    held and did not spend, and never more headroom than that in between. *)
Theorem settle_return_releases_unused l child e amount d a held :
  ledger_ok l → consumption_ok amount → outstanding l !! child = Some e →
  AgentChildEscrow.settled e = None → AgentBudgetAllocation.get (allocation l) d = Some a →
  AgentBudgetAllocation.get (AgentChildEscrow.allocated e) d = Some held →
  AgentBudgetConsumption.get amount d <= held →
  consumed_in l d + map_sum (held_by d) (outstanding l) <= a →
  let l1 := (settle_child l child amount).1 in
  let l2 := (return_child l1 child).1 in
  ∃ before, available l d = Some before ∧
    available l1 d = Some (Z.max 0 (before - AgentBudgetConsumption.get amount d)) ∧
    available l2 d = Some (before + (held - AgentBudgetConsumption.get amount d)).
Proof.
  intros Hok Ham Hc Hs Ha Hh Hle Hroom l1 l2.
  destruct (settle_child_conserves l child amount Hok Ham) as [Hok1 _]. fold l1 in Hok1.
  destruct (return_child_conserves l1 child (fun _ => 0) Hok1 ltac:(lia)) as [Hok2 _].
  fold l2 in Hok2.
  assert (held_by d e = held) as Hhe by (unfold held_by; by rewrite Hh).
  pose proof (ok_allocation _ Hok d a Ha) as Hua. pose proof (ok_consumed _ Hok d) as Huc.
  pose proof (Ham d) as Hum. pose proof (map_sum_delete (held_by d) _ _ _ Hc) as Hdel.
  assert (0 <= map_sum (held_by d) (delete child (outstanding l))) as Hrest.
  { apply map_sum_nonneg. intros k e' [_ He']%lookup_delete_Some.
    by apply held_by_nonneg, (ok_escrow _ Hok k). }
  assert (is_conserved d = true) as Hd by (by destruct d).
  assert (l1 = mk (allocation l) (limits l)
    (AgentBudgetConsumption.saturating_add (consumed l) amount)
    (<[child := AgentChildEscrow.mk (AgentChildEscrow.allocated e)
        (AgentChildEscrow.granted_through e) (AgentChildEscrow.last_top_up e) (Some amount)]>
      (outstanding l))) as H1 by (subst l1; unfold settle_child; by rewrite Hc, Hs).
  assert (l2 = set_outstanding l1 (delete child (outstanding l))) as H2.
  { subst l2. unfold return_child. rewrite H1. simpl. rewrite lookup_insert_eq. simpl.
    by rewrite delete_insert_eq. }
  eexists. split; [by apply available_exact|].
  rewrite (available_exact l1 d a) by (done || by rewrite H1).
  rewrite (available_exact l2 d a) by (done || by rewrite H2, H1).
  rewrite H2, H1. simpl. rewrite (map_sum_update _ _ _ e), get_consumption_saturating_add, Hd by done.
  unfold held_by at 2 3. simpl. rewrite Hh. simpl. split; f_equal; uint.
Qed.
End ledger.

(** ** The run spends within its allocation *)

Section run_budget.
Import AgentRunBudget.
Implicit Types b : AgentRunBudget.t.

Inductive run_op :=
| ChargeIteration (now : Z)
| ChargeModelCall (now : Z)
| ChargeToolCall (now : Z)
| ReserveModelTurn (max_attempts outstanding now : Z)
| ReserveToolTurn (count total_attempts outstanding now : Z)
| ReserveAttempts (max_attempts : Z)
| SettleEffect (reserved attempts_made : Z)
| RecordUsage (usage : AgentModelUsage.t)
| ChargeDescendants (count : Z).

Definition do_run b (o : run_op) : AgentRunBudget.t :=
  match o with
  | ChargeIteration now => (charge_iteration b now).1
  | ChargeModelCall now => (charge_model_call b now).1
  | ChargeToolCall now => (charge_tool_call b now).1
  | ReserveModelTurn max_attempts outstanding now =>
      (reserve_model_turn b max_attempts outstanding now).1
  | ReserveToolTurn count total_attempts outstanding now =>
      (reserve_tool_turn b count total_attempts outstanding now).1
  | ReserveAttempts max_attempts => (reserve_attempts b max_attempts).1
  | SettleEffect reserved attempts_made => settle_effect b reserved attempts_made
  | RecordUsage usage => record_usage b usage
  | ChargeDescendants count => charge_descendants b count
  end.

(** Amounts are not negative, and an effect settles a reservation that was made. *)
Definition run_op_ok b (o : run_op) : Prop :=
  match o with
  | ReserveModelTurn max_attempts _ _ | ReserveAttempts max_attempts => is_u64 max_attempts
  | ReserveToolTurn count total_attempts _ _ => is_u64 count ∧ is_u64 total_attempts
  | SettleEffect reserved attempts_made =>
      0 <= attempts_made ∧ 0 <= reserved <= reserved_attempts b
  | _ => True
  end.

(** The dimensions a run is charged for before it does the work. *)
Definition charged_ahead (d : AgentBudgetDimension) : bool :=
  match d with
  | LoopIterations | ModelCalls | ToolCalls | Effects | EffectAttempts => true
  | _ => false
  end.

Definition reserved_in b (d : AgentBudgetDimension) : Z :=
  match d with EffectAttempts => reserved_attempts b | _ => 0 end.

(** Nothing charged ahead exceeds its limit.  A limit of the largest [u64] is never met:
    the counters saturate there. *)
Record within b : Prop := {
  within_ok : alloc_ok (allocation b);
  within_nonneg d : charged_ahead d = true → 0 <= AgentBudgetConsumption.get (consumed b) d;
  within_reserved : 0 <= reserved_attempts b;
  within_limit d limit : charged_ahead d = true →
    AgentBudgetAllocation.get (allocation b) d = Some limit → limit < u64_max →
    AgentBudgetConsumption.get (consumed b) d + reserved_in b d <= limit;
}.

Lemma check_amount_ok b d n limit :
  within b → charged_ahead d = true → is_u64 n →
  AgentBudgetAllocation.get (allocation b) d = Some limit → limit < u64_max →
  check_amount b d n = Ok tt →
  AgentBudgetConsumption.get (consumed b) d + reserved_in b d + n <= limit.
Proof.
  intros Hw Hd Hn Hl Hmax. unfold check_amount. rewrite Hl.
  pose proof (within_nonneg _ Hw d Hd). pose proof (within_reserved _ Hw).
  pose proof (within_ok _ Hw d limit Hl) as Hu. pose proof (within_limit _ Hw d limit Hd Hl Hmax).
  destruct (limit <? _) eqn:Hlt; [done|]. intros _. apply Z.ltb_ge in Hlt.
  destruct d; try done; unfold spoken_for, reserved_in in *; simpl in *; uint.
Qed.

(** Moving the consumption and the reservation of a run by amounts its checks allow. *)
Lemma within_move b b' (delta : AgentBudgetDimension → Z) :
  within b → allocation b' = allocation b →
  (∀ d, charged_ahead d = true → 0 <= AgentBudgetConsumption.get (consumed b') d) →
  0 <= reserved_attempts b' →
  (∀ d, charged_ahead d = true →
     AgentBudgetConsumption.get (consumed b') d + reserved_in b' d <=
     AgentBudgetConsumption.get (consumed b) d + reserved_in b d + delta d) →
  (∀ d limit, charged_ahead d = true → AgentBudgetAllocation.get (allocation b) d = Some limit →
     limit < u64_max → AgentBudgetConsumption.get (consumed b) d + reserved_in b d + delta d <= limit) →
  within b'.
Proof.
  intros Hw Ha Hpos Hres Hmove Hlim. split; [rewrite Ha; apply Hw|done|done|].
  intros d limit Hd Hl Hmax. rewrite Ha in Hl. pose proof (Hmove d Hd).
  pose proof (Hlim d limit Hd Hl Hmax). lia.
Qed.

Lemma charge_within b d n :
  within b → charged_ahead d = true → is_u64 n → within (charge b d n).1.
Proof.
  intros Hw Hd Hn. unfold charge, guarded. destruct (check_amount b d n) as [[]|] eqn:Hc; [|done].
  apply (within_move b _ (fun d' => if decide (d = d') then n else 0)); simpl; [done|done|..].
  - intros d' Hd'. rewrite get_consumption_add. pose proof (within_nonneg _ Hw d' Hd').
    case_decide as He; [destruct He; subst|]; uint.
  - apply Hw.
  - intros d' Hd'. rewrite get_consumption_add. destruct (decide (d = d')) as [->|].
    + rewrite decide_True by (split; [done|by destruct d']). change (reserved_in (consume b d' n) d') with (reserved_in b d'). uint.
    + rewrite decide_False by tauto. change (reserved_in (consume b d n) d') with (reserved_in b d'). lia.
  - intros d' limit Hd' Hl ?. case_decide; [subst; by apply check_amount_ok|].
    pose proof (within_limit _ Hw d' limit Hd' Hl). lia.
Qed.

(** What a turn adds in one dimension. *)
Definition model_turn_delta (max_attempts : Z) (d : AgentBudgetDimension) : Z :=
  match d with
  | LoopIterations | ModelCalls | Effects => 1
  | EffectAttempts => max_attempts
  | _ => 0
  end.

Definition tool_turn_delta (count total_attempts : Z) (d : AgentBudgetDimension) : Z :=
  match d with
  | ToolCalls | Effects => count
  | EffectAttempts => total_attempts
  | _ => 0
  end.

Lemma is_u64_1 : is_u64 1.
Proof. uint. Qed.

Lemma reserve_model_turn_within b n outstanding now :
  within b → is_u64 n → within (reserve_model_turn b n outstanding now).1.
Proof.
  intros Hw Hn. unfold reserve_model_turn, guarded. case_match eqn:Hc; [|done].
  destruct a. repeat (apply result_bind_ok in Hc as ([] & ? & Hc)).
  pose proof is_u64_1. pose proof (within_reserved _ Hw).
  apply (within_move b _ (model_turn_delta n)); simpl; [done|done|..].
  - intros d Hd. pose proof (within_nonneg _ Hw d Hd).
    destruct (consumed b), d; try done; simpl in *; uint.
  - uint.
  - intros d Hd. pose proof (within_nonneg _ Hw d Hd).
    destruct b as [a l [] r t dl], d; try done; simpl in *; uint.
  - intros d limit Hd Hl ?. destruct d; try done; simpl model_turn_delta; try (by apply check_amount_ok).
    rewrite Z.add_0_r. by apply (within_limit _ Hw).
Qed.

Lemma reserve_tool_turn_within b count n outstanding now :
  within b → is_u64 count → is_u64 n → within (reserve_tool_turn b count n outstanding now).1.
Proof.
  intros Hw Hcn Hn. unfold reserve_tool_turn, guarded. case_match eqn:Hc; [|done].
  destruct a. repeat (apply result_bind_ok in Hc as ([] & ? & Hc)).
  pose proof (within_reserved _ Hw).
  apply (within_move b _ (tool_turn_delta count n)); simpl; [done|done|..].
  - intros d Hd. pose proof (within_nonneg _ Hw d Hd).
    destruct (consumed b), d; try done; simpl in *; uint.
  - uint.
  - intros d Hd. pose proof (within_nonneg _ Hw d Hd).
    destruct b as [a l [] r t dl], d; try done; simpl in *; uint.
  - intros d limit Hd Hl ?. destruct d; try done; simpl tool_turn_delta; try (by apply check_amount_ok);
    rewrite Z.add_0_r; by apply (within_limit _ Hw).
Qed.

Lemma reserve_attempts_within b n : within b → is_u64 n → within (reserve_attempts b n).1.
Proof.
  intros Hw Hn. unfold reserve_attempts, guarded. case_match eqn:Hc; [|done]. destruct a.
  pose proof (within_reserved _ Hw).
  apply (within_move b _ (fun d => match d with EffectAttempts => n | _ => 0 end)); simpl; [done|done|..].
  - apply Hw.
  - uint.
  - intros d Hd. destruct d; try done; simpl; uint.
  - intros d limit Hd Hl ?. destruct d; try done; try (by apply check_amount_ok);
    rewrite Z.add_0_r; by apply (within_limit _ Hw).
Qed.

Lemma settle_effect_within b r m :
  within b → 0 <= m → 0 <= r <= reserved_attempts b → within (settle_effect b r m).
Proof.
  intros Hw Hm Hr.
  apply (within_move b _ (fun _ => 0)); simpl; [done|done|..].
  - intros d Hd. pose proof (within_nonneg _ Hw d Hd). rewrite get_consumption_add.
    case_decide as He; [destruct He; subst|]; uint.
  - uint.
  - intros d Hd. destruct b as [a l [] rs t dl], d; try done; simpl in *; uint.
  - intros d limit Hd Hl ?. rewrite Z.add_0_r. by apply (within_limit _ Hw).
Qed.

(** A dimension that is not charged ahead may move freely. *)
Lemma consume_within b d n : within b → charged_ahead d = false → within (consume b d n).
Proof.
  intros Hw Hd. assert (∀ d', charged_ahead d' = true →
    AgentBudgetConsumption.get (consumed (consume b d n)) d' =
    AgentBudgetConsumption.get (consumed b) d') as He.
  { intros d' Hd'. simpl. rewrite get_consumption_add, decide_False; [done|].
    intros [-> _]. congruence. }
  destruct Hw as [Hok Hn Hr Hl]. split; [done| |done|].
  - intros d' Hd'. rewrite He by done. auto.
  - intros d' limit Hd' Hlim. rewrite He by done.
    change (reserved_in (consume b d n) d') with (reserved_in b d'). auto.
Qed.

Lemma do_run_within b o : within b → run_op_ok b o → within (do_run b o).
Proof.
  intros Hw Ho. pose proof is_u64_1. destruct o; simpl in *.
  - unfold charge_iteration. case_match; [|done]. by apply charge_within.
  - unfold charge_model_call. case_match; [|done]. by apply charge_within.
  - unfold charge_tool_call. case_match; [|done]. by apply charge_within.
  - by apply reserve_model_turn_within.
  - destruct Ho. by apply reserve_tool_turn_within.
  - by apply reserve_attempts_within.
  - destruct Ho. by apply settle_effect_within.
  - unfold record_usage. apply consume_within; [|done]. by apply consume_within.
  - by apply consume_within.
Qed.

Lemma credit_within b granted sequence :
  within b → alloc_ok granted → within (credit b granted sequence).
Proof.
  intros [Hok Hn Hr Hl] Hg.
  assert (∀ d limit, AgentBudgetAllocation.get (allocation (credit b granted sequence)) d = Some limit →
    ∃ held, AgentBudgetAllocation.get (allocation b) d = Some held ∧ held <= limit <= u64_max) as Hc.
  { intros d limit. simpl. rewrite get_saturating_add.
    destruct (AgentBudgetAllocation.get (allocation b) d) as [held|] eqn:Hh; [|done].
    destruct (AgentBudgetAllocation.get granted d) as [n|] eqn:Hgn; [|done].
    intros [= <-]. exists held. apply Hok in Hh. apply Hg in Hgn. split; [done|]. uint. }
  split; [|done|done|].
  - intros d limit Hd. destruct (Hc d limit Hd) as (held & Hh & ?). apply Hok in Hh. uint.
  - intros d limit Hd Hlim Hmax. destruct (Hc d limit Hlim) as (held & Hh & ?).
    change (reserved_in (credit b granted sequence) d) with (reserved_in b d). simpl consumed.
    pose proof (Hl d held Hd Hh). lia.
Qed.

(** A refused charge is a real exhaustion: nothing was charged, and the record names
    the dimension, its limit, and what was spoken for, which with the amount asked for
    exceeds the limit; a model turn that is admitted was within every limit, with tokens
    and cost not yet used up. *)
Theorem model_turn_atomic b n outstanding now :
  let '(b', r) := reserve_model_turn b n outstanding now in
  match r with
  | Err e =>
      b' = b ∧
      match AgentBudgetExhaustion.dimension e with
      | WallClock => ∃ deadline, AgentRunBudget.deadline b = Some deadline ∧ deadline <= now
      | ConcurrentEffects =>
          AgentBudgetLimits.max_concurrent_effects (limits b) = Some (AgentBudgetExhaustion.limit e) ∧
          AgentBudgetExhaustion.limit e < saturating_add_u64 outstanding 1
      | d =>
          AgentBudgetAllocation.get (allocation b) d = Some (AgentBudgetExhaustion.limit e) ∧
          AgentBudgetExhaustion.consumed e = spoken_for b d ∧
          AgentBudgetExhaustion.limit e <
            saturating_add_u64 (spoken_for b d) (match d with EffectAttempts => n | _ => 1 end)
      end
  | Ok _ =>
      reserved_attempts b' = saturating_add_u64 (reserved_attempts b) n ∧
      (∀ d, AgentBudgetConsumption.get (consumed b') d =
            match d with
            | LoopIterations | ModelCalls | Effects =>
                saturating_add_u64 (AgentBudgetConsumption.get (consumed b) d) 1
            | _ => AgentBudgetConsumption.get (consumed b) d
            end) ∧
      (∀ d limit, d ∈ [LoopIterations; ModelCalls; Effects; Tokens; Cost] →
         AgentBudgetAllocation.get (allocation b) d = Some limit →
         saturating_add_u64 (spoken_for b d) 1 <= limit)
  end.
Proof.
  assert (∀ d k, match check_amount b d k with
    | Ok _ => ∀ limit, AgentBudgetAllocation.get (allocation b) d = Some limit →
                saturating_add_u64 (spoken_for b d) k <= limit
    | Err e => e = AgentBudgetExhaustion.new d (AgentBudgetExhaustion.limit e) (spoken_for b d) ∧
        AgentBudgetAllocation.get (allocation b) d = Some (AgentBudgetExhaustion.limit e) ∧
        AgentBudgetExhaustion.limit e < saturating_add_u64 (spoken_for b d) k
    end) as Hca.
  { intros d k. unfold check_amount. destruct (AgentBudgetAllocation.get (allocation b) d) as [x|]; [|done].
    destruct (x <? _) eqn:Hx; simpl; [apply Z.ltb_lt in Hx; done|].
    apply Z.ltb_ge in Hx. by intros limit [= <-]. }
  unfold reserve_model_turn, guarded, check.
  destruct (check_deadline b now) as [[]|e] eqn:Hd; simpl.
  2:{ split; [done|]. unfold check_deadline in Hd. destruct (deadline b) as [dl|]; [|done].
      destruct (dl <=? now) eqn:Hle; [|done]. injection Hd as <-. simpl. apply Z.leb_le in Hle. eauto. }
  destruct (check_concurrency b outstanding 1) as [[]|e] eqn:Hcc; simpl.
  2:{ split; [done|]. unfold check_concurrency in Hcc.
      destruct (AgentBudgetLimits.max_concurrent_effects (limits b)) as [m|]; [|done].
      destruct (m <? _) eqn:Hlt; [|done]. injection Hcc as <-. simpl. by apply Z.ltb_lt in Hlt. }
  repeat match goal with
  | |- context [check_amount b ?d ?k] =>
      let H := fresh "Hc" in
      pose proof (Hca d k) as H; destruct (check_amount b d k) as [[]|]; simpl;
      [|by destruct H as (-> & ? & ?)]
  end.
  split_and!; [done| |].
  - intros d. by destruct (consumed b), d.
  - intros d limit Hin. repeat (apply elem_of_cons in Hin as [->|Hin]; [by auto|]).
    by apply not_elem_of_nil in Hin.
Qed.
End run_budget.

(** ** A run and the scope that pays for it *)

Section joint.
Import AgentEscrowLedger.

(** The operation is about another child, or about the scope itself. *)
Definition spares (child : AgentEscrowChildId.t) (o : escrow_op) : Prop :=
  match o with
  | OpenChild c _ | TopUpChild c _ _ | SettleChild c _ | ReturnChild c => c ≠ child
  | Widen _ _ => True
  end.

(** A scope and one of its runs: the run begins with the grant it was opened with, is
    credited with each new top-up the scope grants it, and spends on its own while the
    scope serves other children. *)
Inductive joint (child : AgentEscrowChildId.t) :
    AgentEscrowLedger.t → AgentRunBudget.t → Prop :=
| joint_open l request l' granted limits started_at :
    ledger_ok l → alloc_ok request → outstanding l !! child = None →
    open_child l child request = (l', Ok granted) →
    joint child l' (AgentRunBudget.allocate (AgentBudgetGrant.new granted limits) started_at)
| joint_other l b o :
    joint child l b → op_ok o → spares child o → joint child (do_op l o) b
| joint_top_up l b e sequence request l' granted :
    joint child l b → alloc_ok request → outstanding l !! child = Some e →
    AgentChildEscrow.granted_through e < sequence →
    top_up_child l child sequence request = (l', Ok granted) →
    joint child l' (AgentRunBudget.credit b granted sequence)
| joint_run l b o : joint child l b → run_op_ok b o → joint child l (do_run b o).

Lemma spared_child l o child e :
  spares child o → outstanding l !! child = Some e → outstanding (do_op l o) !! child = Some e.
Proof.
  intros Hs He. destruct o; simpl in *; try done.
  - unfold open_child. repeat case_match; simpl; try done. by rewrite lookup_insert_ne.
  - unfold top_up_child. repeat case_match; simpl; try done. by rewrite lookup_insert_ne.
  - unfold settle_child. repeat case_match; simpl; try done. by rewrite lookup_insert_ne.
  - unfold return_child. repeat case_match; simpl; try done. by rewrite lookup_delete_ne.
Qed.

Lemma do_run_allocation b o :
  AgentRunBudget.allocation (do_run b o) = AgentRunBudget.allocation b.
Proof.
  destruct o; simpl; try done;
    unfold AgentRunBudget.charge_iteration, AgentRunBudget.charge_model_call,
      AgentRunBudget.charge_tool_call, AgentRunBudget.charge, AgentRunBudget.reserve_model_turn,
      AgentRunBudget.reserve_tool_turn, AgentRunBudget.reserve_attempts, AgentRunBudget.guarded;
    repeat case_match; done.
Qed.

Lemma joint_invariant child l b :
  joint child l b →
  ledger_ok l ∧ within b ∧
  ∃ e, outstanding l !! child = Some e ∧ AgentChildEscrow.settled e = None ∧
       AgentRunBudget.allocation b = AgentChildEscrow.allocated e.
Proof.
  induction 1 as [l request l' granted limits started Hok Hreq Hnone Hopen
    |l b o _ (Hok & Hw & e & He & Hs & Ha) Ho Hsp
    |l b e0 sequence request l' granted _ (Hok & Hw & e & He & Hs & Ha) Hreq He0 Hseq Htop
    |l b o _ (Hok & Hw & e & He & Hs & Ha) Ho].
  - pose proof (open_child_conserves l child request (fun _ => 0) Hok Hreq ltac:(lia)) as [Hok' _].
    rewrite Hopen in Hok'. simpl in Hok'. split; [done|]. unfold open_child in Hopen.
    rewrite Hnone in Hopen. case_match; [done|]. injection Hopen as <- <-. split.
    + split; simpl; [by apply narrowed_alloc_ok|by intros []|done|].
      intros d limit Hd Hl _. apply narrowed_alloc_ok in Hl; [|done..]. destruct d; try done; simpl; uint.
    + eexists. split; [apply lookup_insert_eq|done].
  - split_and!; [by apply do_op_conserves|done|]. exists e. split_and!; [by apply spared_child|done|done].
  - pose proof (top_up_child_conserves l child sequence request (fun _ => 0) Hok Hreq ltac:(lia))
      as [Hok' _]. rewrite Htop in Hok'. simpl in Hok'. split; [done|]. simplify_eq.
    unfold top_up_child in Htop. rewrite He in Htop.
    destruct (Z.leb_spec sequence (AgentChildEscrow.granted_through e)); [lia|].
    rewrite decide_False in Htop by (rewrite Hs; by intros []). injection Htop as <- <-. split.
    + apply credit_within; [done|by apply narrowed_alloc_ok].
    + eexists. split; [apply lookup_insert_eq|]. simpl. split; [done|]. by rewrite Ha.
  - split_and!; [done|by apply do_run_within|]. exists e. by rewrite do_run_allocation.
Qed.

(** A run never overspends what is charged ahead: whatever it does, and however its
    scope and the other children act, settling its consumption exceeds the escrow its
    scope holds for it in none of the dimensions charged before the work. *)
Theorem run_settles_within_escrow child l b d held :
  joint child l b → charged_ahead d = true →
  AgentBudgetAllocation.get (AgentRunBudget.allocation b) d = Some held → held < u64_max →
  overspend l (SettleChild child (AgentRunBudget.consumed b)) d = 0.
Proof.
  intros Hj Hd Hh Hmax. destruct (joint_invariant _ _ _ Hj) as (Hok & Hw & e & He & Hs & Ha).
  unfold overspend, held_by. rewrite He, Hs, <-Ha, Hh. simpl.
  pose proof (within_limit _ Hw d held Hd Hh Hmax). pose proof (within_reserved _ Hw).
  assert (0 <= reserved_in b d) by (destruct d; simpl; lia). uint.
Qed.

End joint.

(** ** Concrete runs *)

Definition demo_amounts (n : Z) : AgentBudgetAllocation.t :=
  AgentBudgetAllocation.mk (Some n) (Some n) (Some n) (Some n) (Some n) (Some n) (Some n) (Some n).

Definition demo_consumption (n : Z) : AgentBudgetConsumption.t :=
  AgentBudgetConsumption.mk n n n n n n n n.

Definition demo_ledger : AgentEscrowLedger.t :=
  AgentEscrowLedger.new (AgentBudgetGrant.new (demo_amounts 100) AgentBudgetLimits.unbounded).

Definition run_a : AgentEscrowChildId.t := AgentEscrowChildId.mk "run-a".
Definition run_b : AgentEscrowChildId.t := AgentEscrowChildId.mk "run-b".

Lemma demo_amounts_ok n : is_u64 n → alloc_ok (demo_amounts n).
Proof. intros Hn []; simpl; intros ? [= <-]; done. Qed.

Lemma demo_consumption_ok n : is_u64 n → consumption_ok (demo_consumption n).
Proof. intros Hn []; simpl; done || uint. Qed.

(** The second child gets what is left; the first spends more than it held. *)
Example demo_grants :
  (AgentEscrowLedger.open_child
     (do_ops demo_ledger [OpenChild run_a (demo_amounts 60)]) run_b (demo_amounts 80)).2 =
  Ok (demo_amounts 40) ∧
  overspent demo_ledger [OpenChild run_a (demo_amounts 60); SettleChild run_a (demo_consumption 70)]
    Tokens = 10.
Proof. vm_compute. done. Qed.

Lemma escrow_conservation_witness :
  let os := [OpenChild run_a (demo_amounts 60); OpenChild run_b (demo_amounts 80);
             SettleChild run_a (demo_consumption 70); ReturnChild run_a] in
  let l := do_ops demo_ledger os in
  AgentBudgetConsumption.get (AgentEscrowLedger.consumed l) Tokens +
    map_sum (unsettled_held Tokens) (AgentEscrowLedger.outstanding l) <=
  100 + overspent demo_ledger os Tokens.
Proof.
  apply (escrow_conservation
    (AgentBudgetGrant.new (demo_amounts 100) AgentBudgetLimits.unbounded)
    [OpenChild run_a (demo_amounts 60); OpenChild run_b (demo_amounts 80);
     SettleChild run_a (demo_consumption 70); ReturnChild run_a]).
  - apply demo_amounts_ok. uint.
  - rewrite !Forall_cons. split_and!; [apply demo_amounts_ok; uint|apply demo_amounts_ok; uint|
      apply demo_consumption_ok; uint|exact I|apply Forall_nil_2].
  - reflexivity.
Defined.

Lemma settle_return_releases_unused_witness :
  ∃ before, AgentEscrowLedger.available (do_op demo_ledger (OpenChild run_a (demo_amounts 60)))
              Tokens = Some before ∧ before = 40.
Proof.
  destruct (settle_return_releases_unused (do_op demo_ledger (OpenChild run_a (demo_amounts 60)))
    run_a (AgentChildEscrow.mk (demo_amounts 60) 0 None None) (demo_consumption 25) Tokens 100 60)
    as (before & Hb & _).
  - apply do_op_conserves; [apply ledger_ok_new|]; apply demo_amounts_ok; uint.
  - apply demo_consumption_ok. uint.
  - reflexivity.
  - reflexivity.
  - reflexivity.
  - reflexivity.
  - simpl. lia.
  - apply (bool_decide_unpack _). vm_compute. exact I.
  - exists before. split; [exact Hb|]. vm_compute in Hb. congruence.
Defined.

Lemma run_settles_within_escrow_witness :
  overspend (do_op demo_ledger (OpenChild run_a (demo_amounts 3)))
    (SettleChild run_a (AgentRunBudget.consumed
       (do_run (AgentRunBudget.allocate (AgentBudgetGrant.new (demo_amounts 3)
                  AgentBudgetLimits.unbounded) 0) (ReserveModelTurn 2 0 10)))) ModelCalls = 0.
Proof.
  apply (run_settles_within_escrow run_a _ _ ModelCalls 3).
  - apply joint_run; [|simpl; uint].
    apply (joint_open run_a demo_ledger (demo_amounts 3)); [| |reflexivity|reflexivity].
    + apply ledger_ok_new, demo_amounts_ok. uint.
    + apply demo_amounts_ok. uint.
  - reflexivity.
  - reflexivity.
  - uint.
Defined.
