(* ===== verification/AgentIdentity.v ===== *)
(** * Agent identities: [rakka-agent/src/identity.rs], addresses of [choreography.rs]

    The validated identifiers of the agent domain, the composite scopes that flatten
    into entity ids and persistence ids, the address of a choreography participant,
    and the operation ids every exchange is deduplicated on. *)

From Stdlib Require Import Ascii.
From S2P Require Import Prelude Core Identity Persistence.

(** ** Splitting and joining *)

(** [str::split] at a one-character pattern: never empty. *)
Fixpoint str_split (c : ascii) (s : string) : list string :=
  match s with
  | "" => [""]
  | String a s =>
      if decide (a = c) then "" :: str_split c s
      else match str_split c s with
           | [] => [String a ""]
           | w :: ws => String a w :: ws
           end
  end.

Definition AGENT_SCOPE_SEPARATOR : ascii := "/"%char.
Definition AGENT_PERSISTENCE_SEPARATOR : ascii := "|"%char.
Definition AGENT_IDENTITY_MAX_LENGTH : nat := 256.

Fixpoint join_segments (segments : list string) : string :=
  match segments with
  | [] => ""
  | [s] => s
  | s :: segments => s +:+ String AGENT_SCOPE_SEPARATOR (join_segments segments)
  end.

(** ** Errors *)

(** A [char] is given by its UTF-8 text. *)
Inductive AgentIdentityError :=
| Empty (field : string)
| TooLong (field : string) (length maximum : nat)
| ReservedCharacter (field character : string)
| ControlCharacter (field character : string)
| MalformedScopeKey (field : string) (expected_segments actual_segments : nat).

#[global] Instance AgentIdentityError_eq_dec : EqDecision AgentIdentityError.
Proof. solve_decision. Defined.

Definition AgentIdentityResult (A : Type) : Type := result AgentIdentityError A.

Definition AgentIdentityError_code (e : AgentIdentityError) : string :=
  match e with
  | Empty _ => "empty-identifier"
  | TooLong _ _ _ => "identifier-too-long"
  | ReservedCharacter _ _ => "reserved-identifier-character"
  | ControlCharacter _ _ => "control-character-in-identifier"
  | MalformedScopeKey _ _ _ => "malformed-scope-key"
  end.

Definition AgentIdentityError_field (e : AgentIdentityError) : string :=
  match e with
  | Empty field | TooLong field _ _ | ReservedCharacter field _
  | ControlCharacter field _ | MalformedScopeKey field _ _ => field
  end.

(** ** Validation *)

(** The first character of Unicode category Cc: U+0000 to U+001F, U+007F, and U+0080 to
    U+009F, which UTF-8 writes as the byte 194 and one more. *)
Fixpoint first_control (s : string) : option string :=
  match s with
  | "" => None
  | String c s =>
      let n := nat_of_ascii c in
      if ((n <? 32) || (n =? 127))%nat then Some (String c "")
      else if (n =? 194)%nat then
        match s with
        | String d _ =>
            let m := nat_of_ascii d in
            if ((128 <=? m) && (m <=? 159))%nat then Some (String c (String d ""))
            else first_control s
        | "" => None
        end
      else first_control s
  end.

Definition validate_identity_segment (field value : string) : AgentIdentityResult unit :=
  if str_is_empty value then Err (Empty field)
  else if (AGENT_IDENTITY_MAX_LENGTH <? String.length value)%nat then
    Err (TooLong field (String.length value) AGENT_IDENTITY_MAX_LENGTH)
  else match first_control value with
       | Some character => Err (ControlCharacter field character)
       | None =>
           if str_contains AGENT_SCOPE_SEPARATOR value then Err (ReservedCharacter field "/")
           else if str_contains AGENT_PERSISTENCE_SEPARATOR value then
             Err (ReservedCharacter field "|")
           else Ok tt
       end.

(** ** Identifiers *)

(** [AgentTenantId]: any text; validated where it enters a scope. *)
Module TenantId.
Record t := new { as_str : string }.
#[global] Instance eq_dec : EqDecision t.
Proof. solve_decision. Defined.
End TenantId.

Definition validate_tenant (tenant : TenantId.t) : AgentIdentityResult unit :=
  validate_identity_segment "tenant_id" (TenantId.as_str tenant).

(** The body of [new] in [validated_id!]. *)
Definition validated_id {A} (FIELD : string) (Self : string → A) (value : string) :
    AgentIdentityResult A :=
  let? _ := validate_identity_segment FIELD value in Ok (Self value).

Module AgentId.
Record t := Self { as_str : string }.
#[global] Instance eq_dec : EqDecision t.
Proof. solve_decision. Defined.
Definition new : string → AgentIdentityResult t := validated_id "agent_id" Self.
End AgentId.

Module AgentTaskId.
Record t := Self { as_str : string }.
#[global] Instance eq_dec : EqDecision t.
Proof. solve_decision. Defined.
Definition new : string → AgentIdentityResult t := validated_id "agent_task_id" Self.
End AgentTaskId.

Module AgentRunId.
Record t := Self { as_str : string }.
#[global] Instance eq_dec : EqDecision t.
Proof. solve_decision. Defined.
Definition new : string → AgentIdentityResult t := validated_id "agent_run_id" Self.
End AgentRunId.

Module AgentTeamId.
Record t := Self { as_str : string }.
#[global] Instance eq_dec : EqDecision t.
Proof. solve_decision. Defined.
Definition new : string → AgentIdentityResult t := validated_id "agent_team_id" Self.
End AgentTeamId.

Module AgentConversationId.
Record t := Self { as_str : string }.
#[global] Instance eq_dec : EqDecision t.
Proof. solve_decision. Defined.
Definition new : string → AgentIdentityResult t := validated_id "agent_conversation_id" Self.
End AgentConversationId.

Module AgentGoalId.
Record t := Self { as_str : string }.
#[global] Instance eq_dec : EqDecision t.
Proof. solve_decision. Defined.
Definition new : string → AgentIdentityResult t := validated_id "agent_goal_id" Self.

Definition for_root_task (task : AgentTaskId.t) : t := Self (AgentTaskId.as_str task).
End AgentGoalId.

(** ** Scopes *)

Definition malformed (field : string) (expected_segments : nat) (segments : list string) :
    AgentIdentityError :=
  MalformedScopeKey field expected_segments (length segments).

(** [split_segments::<2>] and [split_segments::<3>]. *)
Definition split_segments2 (field key : string) : AgentIdentityResult (string * string) :=
  match str_split AGENT_SCOPE_SEPARATOR key with
  | [a; b] => Ok (a, b)
  | segments => Err (malformed field 2 segments)
  end.

Definition split_segments3 (field key : string) :
    AgentIdentityResult (string * string * string) :=
  match str_split AGENT_SCOPE_SEPARATOR key with
  | [a; b; c] => Ok (a, b, c)
  | segments => Err (malformed field 3 segments)
  end.

Definition prefixed (prefix key : string) : PersistenceId.t :=
  PersistenceId.new (prefix +:+ ":" +:+ key).

Module AgentScope.
Record t := mk { tenant : TenantId.t; agent : AgentId.t }.
#[global] Instance eq_dec : EqDecision t.
Proof. solve_decision. Defined.

Definition new (tenant : TenantId.t) (agent : AgentId.t) : AgentIdentityResult t :=
  let? _ := validate_tenant tenant in Ok (mk tenant agent).

Definition key (self : t) : string :=
  join_segments [TenantId.as_str (tenant self); AgentId.as_str (agent self)].

Definition entity_id (self : t) : EntityId.t := EntityId.new (key self).
Definition persistence_id (self : t) : PersistenceId.t := prefixed "agent-entity" (key self).

(** The text of the [AgentMemoryNamespace]. *)
Definition memory_namespace (self : t) : string :=
  "agent-memory" +:+ String AGENT_SCOPE_SEPARATOR (key self).

Definition parse (key : string) : AgentIdentityResult t :=
  let? (tenant, agent) := split_segments2 "agent scope" key in
  let? agent := AgentId.new agent in
  new (TenantId.new tenant) agent.

Definition from_entity_id (entity_id : EntityId.t) : AgentIdentityResult t :=
  parse (EntityId.as_str entity_id).
End AgentScope.

Module AgentTaskScope.
Record t := mk { tenant : TenantId.t; task : AgentTaskId.t }.
#[global] Instance eq_dec : EqDecision t.
Proof. solve_decision. Defined.

Definition new (tenant : TenantId.t) (task : AgentTaskId.t) : AgentIdentityResult t :=
  let? _ := validate_tenant tenant in Ok (mk tenant task).

Definition key (self : t) : string :=
  join_segments [TenantId.as_str (tenant self); AgentTaskId.as_str (task self)].

Definition entity_id (self : t) : EntityId.t := EntityId.new (key self).
Definition persistence_id (self : t) : PersistenceId.t := prefixed "agent-task-entity" (key self).

Definition parse (key : string) : AgentIdentityResult t :=
  let? (tenant, task) := split_segments2 "task scope" key in
  let? task := AgentTaskId.new task in
  new (TenantId.new tenant) task.

Definition from_entity_id (entity_id : EntityId.t) : AgentIdentityResult t :=
  parse (EntityId.as_str entity_id).
End AgentTaskScope.

Module AgentRunScope.
Record t := mk { tenant : TenantId.t; agent : AgentId.t; run : AgentRunId.t }.
#[global] Instance eq_dec : EqDecision t.
Proof. solve_decision. Defined.

Definition new (tenant : TenantId.t) (agent : AgentId.t) (run : AgentRunId.t) :
    AgentIdentityResult t :=
  let? _ := validate_tenant tenant in Ok (mk tenant agent run).

Definition agent_scope (self : t) : AgentScope.t := AgentScope.mk (tenant self) (agent self).

Definition key (self : t) : string :=
  join_segments [TenantId.as_str (tenant self); AgentId.as_str (agent self);
                 AgentRunId.as_str (run self)].

Definition entity_id (self : t) : EntityId.t := EntityId.new (key self).
Definition persistence_id (self : t) : PersistenceId.t := prefixed "agent-run-entity" (key self).

Definition parse (key : string) : AgentIdentityResult t :=
  let? (tenant, agent, run) := split_segments3 "run scope" key in
  let? agent := AgentId.new agent in
  let? run := AgentRunId.new run in
  new (TenantId.new tenant) agent run.

Definition from_entity_id (entity_id : EntityId.t) : AgentIdentityResult t :=
  parse (EntityId.as_str entity_id).
End AgentRunScope.

Module AgentTeamScope.
Record t := mk { tenant : TenantId.t; team : AgentTeamId.t }.
#[global] Instance eq_dec : EqDecision t.
Proof. solve_decision. Defined.

Definition new (tenant : TenantId.t) (team : AgentTeamId.t) : AgentIdentityResult t :=
  let? _ := validate_tenant tenant in Ok (mk tenant team).

Definition key (self : t) : string :=
  join_segments [TenantId.as_str (tenant self); AgentTeamId.as_str (team self)].

Definition entity_id (self : t) : EntityId.t := EntityId.new (key self).
Definition persistence_id (self : t) : PersistenceId.t := prefixed "agent-team-entity" (key self).

Definition parse (key : string) : AgentIdentityResult t :=
  let? (tenant, team) := split_segments2 "team scope" key in
  let? team := AgentTeamId.new team in
  new (TenantId.new tenant) team.

Definition from_entity_id (entity_id : EntityId.t) : AgentIdentityResult t :=
  parse (EntityId.as_str entity_id).
End AgentTeamScope.

Module AgentConversationScope.
Record t := mk { tenant : TenantId.t; conversation : AgentConversationId.t }.
#[global] Instance eq_dec : EqDecision t.
Proof. solve_decision. Defined.

Definition new (tenant : TenantId.t) (conversation : AgentConversationId.t) :
    AgentIdentityResult t :=
  let? _ := validate_tenant tenant in Ok (mk tenant conversation).

Definition key (self : t) : string :=
  join_segments [TenantId.as_str (tenant self); AgentConversationId.as_str (conversation self)].

Definition entity_id (self : t) : EntityId.t := EntityId.new (key self).
Definition persistence_id (self : t) : PersistenceId.t :=
  prefixed "agent-conversation-entity" (key self).

Definition parse (key : string) : AgentIdentityResult t :=
  let? (tenant, conversation) := split_segments2 "conversation scope" key in
  let? conversation := AgentConversationId.new conversation in
  new (TenantId.new tenant) conversation.

Definition from_entity_id (entity_id : EntityId.t) : AgentIdentityResult t :=
  parse (EntityId.as_str entity_id).
End AgentConversationScope.

Module AgentRunBinding.
Record t := mk { scope : AgentRunScope.t; task : AgentTaskId.t; goal : option AgentGoalId.t }.

Definition new (scope : AgentRunScope.t) (task : AgentTaskId.t) : t := mk scope task None.
Definition with_goal (self : t) (goal : AgentGoalId.t) : t := mk (scope self) (task self) (Some goal).

Definition task_scope (self : t) : AgentIdentityResult AgentTaskScope.t :=
  AgentTaskScope.new (AgentRunScope.tenant (scope self)) (task self).
End AgentRunBinding.

(** ** Addresses ([choreography.rs]) *)

Inductive AgentEntityClass := Agent | Task | Run | Team | Conversation.

#[global] Instance AgentEntityClass_eq_dec : EqDecision AgentEntityClass.
Proof. solve_decision. Defined.

Definition AgentEntityClass_as_label (c : AgentEntityClass) : string :=
  match c with
  | Agent => "agent"
  | Task => "task"
  | Run => "run"
  | Team => "team"
  | Conversation => "conversation"
  end.

Definition AgentEntityClass_from_label (label : string) : option AgentEntityClass :=
  if decide (label = "agent") then Some Agent
  else if decide (label = "task") then Some Task
  else if decide (label = "run") then Some Run
  else if decide (label = "team") then Some Team
  else if decide (label = "conversation") then Some Conversation
  else None.

Module AgentEntityAddress.

Inductive t :=
| Agent (scope : AgentScope.t)
| Task (scope : AgentTaskScope.t)
| Run (scope : AgentRunScope.t)
| Team (scope : AgentTeamScope.t)
| Conversation (scope : AgentConversationScope.t).

#[global] Instance eq_dec : EqDecision t.
Proof. solve_decision. Defined.

Definition class (self : t) : AgentEntityClass :=
  match self with
  | Agent _ => AgentIdentity.Agent
  | Task _ => AgentIdentity.Task
  | Run _ => AgentIdentity.Run
  | Team _ => AgentIdentity.Team
  | Conversation _ => AgentIdentity.Conversation
  end.

Definition tenant (self : t) : TenantId.t :=
  match self with
  | Agent scope => AgentScope.tenant scope
  | Task scope => AgentTaskScope.tenant scope
  | Run scope => AgentRunScope.tenant scope
  | Team scope => AgentTeamScope.tenant scope
  | Conversation scope => AgentConversationScope.tenant scope
  end.

Definition entity_id (self : t) : EntityId.t :=
  match self with
  | Agent scope => AgentScope.entity_id scope
  | Task scope => AgentTaskScope.entity_id scope
  | Run scope => AgentRunScope.entity_id scope
  | Team scope => AgentTeamScope.entity_id scope
  | Conversation scope => AgentConversationScope.entity_id scope
  end.

Definition persistence_id (self : t) : PersistenceId.t :=
  match self with
  | Agent scope => AgentScope.persistence_id scope
  | Task scope => AgentTaskScope.persistence_id scope
  | Run scope => AgentRunScope.persistence_id scope
  | Team scope => AgentTeamScope.persistence_id scope
  | Conversation scope => AgentConversationScope.persistence_id scope
  end.

Definition scope_key (self : t) : string :=
  match self with
  | Agent scope => AgentScope.key scope
  | Task scope => AgentTaskScope.key scope
  | Run scope => AgentRunScope.key scope
  | Team scope => AgentTeamScope.key scope
  | Conversation scope => AgentConversationScope.key scope
  end.

Definition key (self : t) : string :=
  AgentEntityClass_as_label (class self) +:+ String AGENT_SCOPE_SEPARATOR (scope_key self).

Definition from_entity_id (class : AgentEntityClass) (entity_id : EntityId.t) :
    AgentIdentityResult t :=
  match class with
  | AgentIdentity.Agent => let? scope := AgentScope.from_entity_id entity_id in Ok (Agent scope)
  | AgentIdentity.Task => let? scope := AgentTaskScope.from_entity_id entity_id in Ok (Task scope)
  | AgentIdentity.Run => let? scope := AgentRunScope.from_entity_id entity_id in Ok (Run scope)
  | AgentIdentity.Team => let? scope := AgentTeamScope.from_entity_id entity_id in Ok (Team scope)
  | AgentIdentity.Conversation =>
      let? scope := AgentConversationScope.from_entity_id entity_id in Ok (Conversation scope)
  end.

Definition ADDRESS_FIELD : string := "entity address".

Definition parse (key : string) : AgentIdentityResult t :=
  let? (class, scope) :=
    ok_or (MalformedScopeKey ADDRESS_FIELD 3 1) (split_once AGENT_SCOPE_SEPARATOR key) in
  let? class := ok_or (MalformedScopeKey ADDRESS_FIELD 3
                         (length (str_split AGENT_SCOPE_SEPARATOR key)))
                  (AgentEntityClass_from_label class) in
  match class with
  | AgentIdentity.Agent => let? scope := AgentScope.parse scope in Ok (Agent scope)
  | AgentIdentity.Task => let? scope := AgentTaskScope.parse scope in Ok (Task scope)
  | AgentIdentity.Run => let? scope := AgentRunScope.parse scope in Ok (Run scope)
  | AgentIdentity.Team => let? scope := AgentTeamScope.parse scope in Ok (Team scope)
  | AgentIdentity.Conversation =>
      let? scope := AgentConversationScope.parse scope in Ok (Conversation scope)
  end.

End AgentEntityAddress.

(** ** Operation ids *)

Inductive AgentOperationKind :=
| Command | TaskCreation | Assignment | RunCreation | RunAcceptance | ResultProposal
| ResultDecision | ResultSubmission | BudgetAllocation | BudgetReservation | BudgetSettlement
| EffectDispatch | DispatchGrant | MemoryWrite | CheckpointResolution | A2aSend | WakeAdmission
| EpochAdmission | EpochResult | GoalEvaluation | ClaimAppend | Delegation | DelegationResult
| WorkflowResult | Handoff | TeamClaim | TeamMessage | TeamOperation | ConversationTurn
| ConversationOperation | DefinitionUpdate | SettingsUpdate | LifecycleCommand
| LifecycleSuspend | LifecycleResume | LifecycleTerminate | Cancellation
| DependencyRegistration | DependencyOutcome.

#[global] Instance AgentOperationKind_eq_dec : EqDecision AgentOperationKind.
Proof. solve_decision. Defined.

Definition AgentOperationKind_as_label (k : AgentOperationKind) : string :=
  match k with
  | Command => "command"
  | TaskCreation => "task-creation"
  | Assignment => "assignment"
  | RunCreation => "run-creation"
  | RunAcceptance => "run-acceptance"
  | ResultProposal => "result-proposal"
  | ResultDecision => "result-decision"
  | ResultSubmission => "result-submission"
  | BudgetAllocation => "budget-allocation"
  | BudgetReservation => "budget-reservation"
  | BudgetSettlement => "budget-settlement"
  | EffectDispatch => "effect-dispatch"
  | DispatchGrant => "dispatch-grant"
  | MemoryWrite => "memory-write"
  | CheckpointResolution => "checkpoint-resolution"
  | A2aSend => "a2a-send"
  | WakeAdmission => "wake-admission"
  | EpochAdmission => "epoch-admission"
  | EpochResult => "epoch-result"
  | GoalEvaluation => "goal-evaluation"
  | ClaimAppend => "claim-append"
  | Delegation => "delegation"
  | DelegationResult => "delegation-result"
  | WorkflowResult => "workflow-result"
  | Handoff => "handoff"
  | TeamClaim => "team-claim"
  | TeamMessage => "team-message"
  | TeamOperation => "team-operation"
  | ConversationTurn => "conversation-turn"
  | ConversationOperation => "conversation-operation"
  | DefinitionUpdate => "definition-update"
  | SettingsUpdate => "settings-update"
  | LifecycleCommand => "lifecycle-command"
  | LifecycleSuspend => "lifecycle-suspend"
  | LifecycleResume => "lifecycle-resume"
  | LifecycleTerminate => "lifecycle-terminate"
  | Cancellation => "cancellation"
  | DependencyRegistration => "dependency-registration"
  | DependencyOutcome => "dependency-outcome"
  end.

Definition OPERATION_SEGMENT_FIELD : string := "operation_segment".

(** What the custom [Deserialize] reports. *)
Inductive OperationIdDecodeError :=
| MissingKind
| BadSegment (error : AgentIdentityError)
| NoSegments.

Module AgentOperationId.
Record t := Self { as_str : string }.

#[global] Instance eq_dec : EqDecision t.
Proof. solve_decision. Defined.

(** The loop of [new]: the text so far and the segments still to append. *)
Fixpoint append_segments (value : string) (segments : list string) : AgentIdentityResult string :=
  match segments with
  | [] => Ok value
  | segment :: segments =>
      let? _ := validate_identity_segment OPERATION_SEGMENT_FIELD segment in
      append_segments (value +:+ String AGENT_SCOPE_SEPARATOR segment) segments
  end.

Definition new (kind : AgentOperationKind) (segments : list string) : AgentIdentityResult t :=
  let? value := append_segments (AgentOperationKind_as_label kind) segments in
  if decide (length segments = 0%nat) then Err (Empty OPERATION_SEGMENT_FIELD)
  else Ok (Self value).

Definition for_agent (kind : AgentOperationKind) (scope : AgentScope.t) (discriminator : string) :
    AgentIdentityResult t :=
  new kind [TenantId.as_str (AgentScope.tenant scope); AgentId.as_str (AgentScope.agent scope);
            discriminator].

Fixpoint check_segments (segments : list string) : AgentIdentityResult unit :=
  match segments with
  | [] => Ok tt
  | segment :: segments =>
      let? _ := validate_identity_segment OPERATION_SEGMENT_FIELD segment in
      check_segments segments
  end.

Definition deserialize (value : string) : result OperationIdDecodeError t :=
  match str_split AGENT_SCOPE_SEPARATOR value with
  | [] => Err MissingKind
  | kind :: segments =>
      if str_is_empty kind then Err MissingKind
      else
        let? _ := map_err BadSegment (validate_identity_segment OPERATION_SEGMENT_FIELD kind) in
        let? _ := map_err BadSegment (check_segments segments) in
        if decide (length segments = 0%nat) then Err NoSegments else Ok (Self value)
  end.
End AgentOperationId.

(** ** Properties *)

Lemma str_split_ne_nil c s : str_split c s ≠ [].
Proof. destruct s as [|a s]; simpl; [done|]. case_decide; [done|]. by destruct (str_split c s). Qed.

Lemma str_split_app c w s :
  str_contains c w = false → str_split c (w +:+ String c s) = w :: str_split c s.
Proof.
  induction w as [|a w IH]; rewrite ?string_app_nil, ?string_app_cons; simpl.
  - by rewrite decide_True.
  - case_decide; [done|]. intros Hw. by rewrite IH.
Qed.

Lemma str_split_single c w : str_contains c w = false → str_split c w = [w].
Proof. induction w as [|a w IH]; simpl; [done|]. case_decide; [done|]. intros Hw. by rewrite IH. Qed.

Abbreviation unseparated w := (str_contains AGENT_SCOPE_SEPARATOR w = false).

Lemma join_segments_cons w ws :
  ws ≠ [] → join_segments (w :: ws) = w +:+ String AGENT_SCOPE_SEPARATOR (join_segments ws).
Proof. by destruct ws. Qed.

Lemma split_join_segments ws :
  ws ≠ [] → Forall (fun w => unseparated w) ws →
  str_split AGENT_SCOPE_SEPARATOR (join_segments ws) = ws.
Proof.
  induction ws as [|w ws IH]; intros Hne Hall; [done|].
  apply Forall_cons in Hall as [Hw Hall]. destruct ws as [|w' ws]; [by apply str_split_single|].
  rewrite join_segments_cons, str_split_app, IH by done. done.
Qed.

Lemma join_split_segments s : join_segments (str_split AGENT_SCOPE_SEPARATOR s) = s.
Proof.
  induction s as [|a s IH]; simpl; [done|].
  pose proof (str_split_ne_nil AGENT_SCOPE_SEPARATOR s) as Hne. case_decide as Ha; subst.
  - rewrite join_segments_cons, IH by done. done.
  - destruct (str_split AGENT_SCOPE_SEPARATOR s) as [|w [|w' ws]]; [done|simpl in *; by rewrite IH|].
    rewrite join_segments_cons in * by done. by rewrite string_app_cons, IH.
Qed.

(** What validation accepts. *)
Definition valid_segment (value : string) : Prop :=
  value ≠ "" ∧ (String.length value <= AGENT_IDENTITY_MAX_LENGTH)%nat ∧
  first_control value = None ∧ unseparated value ∧
  str_contains AGENT_PERSISTENCE_SEPARATOR value = false.

Lemma validate_identity_segment_ok field value :
  validate_identity_segment field value = Ok tt ↔ valid_segment value.
Proof.
  unfold validate_identity_segment, valid_segment.
  destruct value as [|a s]; [by split; [|intros []]|]. set (v := String a s).
  change (str_is_empty v) with false. cbv iota.
  destruct (Nat.ltb_spec AGENT_IDENTITY_MAX_LENGTH (String.length v)); [split; [done|lia]|].
  destruct (first_control v); [by split; [|intros (_ & _ & ? & _)]|].
  destruct (str_contains AGENT_SCOPE_SEPARATOR v); [by split; [|intros (_ & _ & _ & ? & _)]|].
  destruct (str_contains AGENT_PERSISTENCE_SEPARATOR v); [by split; [|intros (_ & _ & _ & _ & ?)]|].
  split; [intros _|done]. split_and!; done.
Qed.

Lemma validated_id_ok {A} field (Self : string → A) value id :
  validated_id field Self value = Ok id ↔ valid_segment value ∧ id = Self value.
Proof.
  unfold validated_id. rewrite <-(validate_identity_segment_ok field).
  destruct (validate_identity_segment field value) as [[]|]; simpl; [|by split; [|intros []]].
  split; [by intros [= <-]|by intros [_ ->]].
Qed.

Lemma split_segments2_ok field key a b :
  split_segments2 field key = Ok (a, b) ↔ str_split AGENT_SCOPE_SEPARATOR key = [a; b].
Proof.
  unfold split_segments2. destruct (str_split AGENT_SCOPE_SEPARATOR key) as [|x [|y [|]]]; try done.
  split; [by intros [= -> ->]|by intros [= -> ->]].
Qed.

Lemma split_segments3_ok field key a b c :
  split_segments3 field key = Ok (a, b, c) ↔ str_split AGENT_SCOPE_SEPARATOR key = [a; b; c].
Proof.
  unfold split_segments3.
  destruct (str_split AGENT_SCOPE_SEPARATOR key) as [|x [|y [|z [|]]]]; try done.
  split; [by intros [= -> -> ->]|by intros [= -> -> ->]].
Qed.

Lemma split_valid_segments key ws :
  ws ≠ [] → Forall valid_segment ws →
  str_split AGENT_SCOPE_SEPARATOR key = ws ↔ join_segments ws = key.
Proof.
  intros Hne Hall. split; [intros <-; apply join_split_segments|intros <-].
  apply split_join_segments; [done|]. eapply Forall_impl; [done|]. intros w (_ & _ & _ & Hw & _).
  exact Hw.
Qed.

(** The segments of an address after its class. *)
Definition address_segments (a : AgentEntityAddress.t) : list string :=
  match a with
  | AgentEntityAddress.Agent (AgentScope.mk t i) => [TenantId.as_str t; AgentId.as_str i]
  | AgentEntityAddress.Task (AgentTaskScope.mk t i) => [TenantId.as_str t; AgentTaskId.as_str i]
  | AgentEntityAddress.Run (AgentRunScope.mk t i r) =>
      [TenantId.as_str t; AgentId.as_str i; AgentRunId.as_str r]
  | AgentEntityAddress.Team (AgentTeamScope.mk t i) => [TenantId.as_str t; AgentTeamId.as_str i]
  | AgentEntityAddress.Conversation (AgentConversationScope.mk t i) =>
      [TenantId.as_str t; AgentConversationId.as_str i]
  end.

(** What the constructors of the source guarantee of every address. *)
Definition well_formed_address (a : AgentEntityAddress.t) : Prop :=
  Forall valid_segment (address_segments a).

Lemma address_segments_inj a b :
  AgentEntityAddress.class a = AgentEntityAddress.class b →
  address_segments a = address_segments b → a = b.
Proof.
  destruct a as [[[] []]|[[] []]|[[] [] []]|[[] []]|[[] []]],
    b as [[[] []]|[[] []]|[[] [] []]|[[] []]|[[] []]]; simpl; congruence.
Qed.

Lemma scope_key_join a : AgentEntityAddress.scope_key a = join_segments (address_segments a).
Proof. by destruct a as [[]|[]|[]|[]|[]]. Qed.

Lemma address_segments_ne_nil a : address_segments a ≠ [].
Proof. by destruct a as [[]|[]|[]|[]|[]]. Qed.

(** A sequence of checked steps succeeds exactly when each of them does. *)
Lemma result_bind_iff {E A B} (r : result E A) (k : A → result E B) b :
  result_bind r k = Ok b ↔ ∃ a, r = Ok a ∧ k a = Ok b.
Proof. split; [apply result_bind_ok|]. by intros (a & -> & Hk). Qed.

(** The parsers of the five scopes, as one function of the class. *)
Definition parse_scope (class : AgentEntityClass) (key : string) :
    AgentIdentityResult AgentEntityAddress.t :=
  AgentEntityAddress.from_entity_id class (EntityId.new key).

Lemma two_segment_parse {A B : Type} field idfield (mkid : string → A) (mk : TenantId.t → A → B)
    key b :
  (let? (tenant, i) := split_segments2 field key in
   let? i := validated_id idfield mkid i in
   let? _ := validate_tenant (TenantId.new tenant) in
   Ok (mk (TenantId.new tenant) i)) = Ok b ↔
  ∃ t i, b = mk (TenantId.new t) (mkid i) ∧ Forall valid_segment [t; i] ∧ join_segments [t; i] = key.
Proof.
  rewrite result_bind_iff. setoid_rewrite Forall_cons. setoid_rewrite Forall_singleton. split.
  - intros ([t i] & Hs%split_segments2_ok & Hk).
    apply result_bind_ok in Hk as (i' & [Hi ->]%validated_id_ok & Hk).
    apply result_bind_ok in Hk as ([] & Ht%validate_identity_segment_ok & [= <-]).
    exists t, i. split_and!; [done..|]. rewrite <-Hs. apply join_split_segments.
  - intros (t & i & -> & [Ht Hi] & Hj). exists (t, i). split.
    + apply split_segments2_ok, split_valid_segments; [done| |done].
      by apply Forall_cons, conj, Forall_singleton.
    + apply result_bind_iff. exists (mkid i). split; [by apply validated_id_ok|].
      apply result_bind_iff. exists (). split; [|done]. by apply validate_identity_segment_ok.
Qed.

(** The run scope has a third segment. *)
Lemma run_scope_parse key b :
  AgentRunScope.parse key = Ok b ↔
  ∃ t i r, b = AgentRunScope.mk (TenantId.new t) (AgentId.Self i) (AgentRunId.Self r) ∧
    Forall valid_segment [t; i; r] ∧ join_segments [t; i; r] = key.
Proof.
  unfold AgentRunScope.parse, AgentIdentityResult. rewrite result_bind_iff. split.
  - intros ([[t i] r] & Hs%split_segments3_ok & Hk).
    apply result_bind_ok in Hk as (i' & [Hi ->]%validated_id_ok & Hk).
    apply result_bind_ok in Hk as (r' & [Hr ->]%validated_id_ok & Hk).
    apply result_bind_ok in Hk as ([] & Ht%validate_identity_segment_ok & [= <-]).
    exists t, i, r. rewrite !Forall_cons, <-Hs. split_and!; try done. apply join_split_segments.
  - intros (t & i & r & -> & Hall & Hj). exists (t, i, r). split.
    + by apply split_segments3_ok, split_valid_segments.
    + rewrite !Forall_cons in Hall. destruct Hall as (Ht & Hi & Hr & _).
      apply result_bind_iff. exists (AgentId.Self i). split; [by apply validated_id_ok|].
      apply result_bind_iff. exists (AgentRunId.Self r). split; [by apply validated_id_ok|].
      apply result_bind_iff. exists (). split; [|done]. by apply validate_identity_segment_ok.
Qed.

Lemma parse_scope_exact class key a :
  parse_scope class key = Ok a ↔
  AgentEntityAddress.class a = class ∧ well_formed_address a ∧ AgentEntityAddress.scope_key a = key.
Proof.
  unfold parse_scope, well_formed_address, AgentIdentityResult. rewrite scope_key_join.
  destruct class; unfold AgentEntityAddress.from_entity_id; rewrite result_bind_iff; split.
  1,3,7,9: intros (s & Hs%two_segment_parse & [= <-]);
    destruct Hs as (t & i & -> & Hall & Hj); done.
  3: intros (s & Hs%run_scope_parse & [= <-]);
    destruct Hs as (t & i & r & -> & Hall & Hj); done.
  all: intros (Hc & Hall & Hj);
    destruct a as [[[t] [i]]|[[t] [i]]|[[t] [i] [r]]|[[t] [i]]|[[t] [i]]]; try done;
    eexists; (split; [|done]).
  1,2,4,5: apply two_segment_parse; by exists t, i.
  apply run_scope_parse; by exists t, i, r.
Qed.

Lemma class_label_exact label c :
  AgentEntityClass_from_label label = Some c ↔ label = AgentEntityClass_as_label c.
Proof.
  unfold AgentEntityClass_from_label. split.
  - repeat case_decide; try done; intros [= <-]; done.
  - intros ->. by destruct c.
Qed.

Lemma parse_by_class key :
  AgentEntityAddress.parse key =
  (let? (class, scope) :=
     ok_or (MalformedScopeKey AgentEntityAddress.ADDRESS_FIELD 3 1)
       (split_once AGENT_SCOPE_SEPARATOR key) in
   let? class := ok_or (MalformedScopeKey AgentEntityAddress.ADDRESS_FIELD 3
                          (length (str_split AGENT_SCOPE_SEPARATOR key)))
                   (AgentEntityClass_from_label class) in
   parse_scope class scope).
Proof.
  unfold AgentEntityAddress.parse. destruct (ok_or _ _) as [[class scope]|]; [|done]. simpl.
  destruct (ok_or _ _) as [[]|]; done.
Qed.

Lemma class_label_unseparated c : unseparated (AgentEntityClass_as_label c).
Proof. by destruct c. Qed.

Lemma parse_address_iff k a :
  AgentEntityAddress.parse k = Ok a ↔ well_formed_address a ∧ AgentEntityAddress.key a = k.
Proof.
  rewrite parse_by_class. unfold AgentIdentityResult. rewrite result_bind_iff. unfold AgentEntityAddress.key. split.
  - intros ([l s] & [-> _]%ok_or_ok%split_once_Some & Hk).
    apply result_bind_ok in Hk as (c & Hc%ok_or_ok%class_label_exact & Hs).
    apply parse_scope_exact in Hs as (<- & Hwf & <-). by subst.
  - intros [Hwf <-]. exists (AgentEntityClass_as_label (AgentEntityAddress.class a),
      AgentEntityAddress.scope_key a). split.
    + apply ok_or_ok, split_once_app, class_label_unseparated.
    + apply result_bind_iff. exists (AgentEntityAddress.class a). split.
      * by apply ok_or_ok, class_label_exact.
      * by apply parse_scope_exact.
Qed.

(** The prefix of the persistence ids of a class. *)
Definition class_prefix (c : AgentEntityClass) : string :=
  match c with
  | Agent => "agent-entity"
  | Task => "agent-task-entity"
  | Run => "agent-run-entity"
  | Team => "agent-team-entity"
  | Conversation => "agent-conversation-entity"
  end.

Lemma address_persistence_id a :
  AgentEntityAddress.persistence_id a =
  prefixed (class_prefix (AgentEntityAddress.class a)) (AgentEntityAddress.scope_key a).
Proof. by destruct a. Qed.

Lemma scope_key_inj a b :
  well_formed_address a → well_formed_address b →
  AgentEntityAddress.class a = AgentEntityAddress.class b →
  AgentEntityAddress.scope_key a = AgentEntityAddress.scope_key b → a = b.
Proof.
  rewrite !scope_key_join. intros Ha Hb Hc Hk. apply address_segments_inj; [done|].
  rewrite <-(proj2 (split_valid_segments _ _ (address_segments_ne_nil b) Hb) eq_refl), <-Hk.
  symmetry. by apply split_valid_segments; [apply address_segments_ne_nil| |].
Qed.

Lemma persistence_id_injective a b :
  well_formed_address a → well_formed_address b →
  AgentEntityAddress.persistence_id a = AgentEntityAddress.persistence_id b → a = b.
Proof.
  rewrite !address_persistence_id. intros Ha Hb [= Heq].
  set (ca := AgentEntityAddress.class a) in *. set (cb := AgentEntityAddress.class b) in *.
  assert (∀ c k, split_once ":"%char (class_prefix c +:+ ":" +:+ k) = Some (class_prefix c, k)) as Hs.
  { intros c k. apply (split_once_app ":"%char (class_prefix c) k). by destruct c. }
  assert (Some (class_prefix ca, AgentEntityAddress.scope_key a) =
          Some (class_prefix cb, AgentEntityAddress.scope_key b)) as [= Hp Hk]
    by (rewrite <-!Hs; by f_equal).
  apply scope_key_inj; [done..| |done]. fold ca cb. by destruct ca, cb.
Qed.

(** Addresses are exact locators.  A text parses to an address exactly when the
    address is well formed and the text is its key - so serialized addresses come back
    unchanged and nothing else is accepted; the entity id of a sharded entity gives back
    the address within its class; and two well-formed addresses that share a
    persistence id are the same address, whatever tenants and classes they belong to. *)
Theorem addresses_locate_exactly :
  (∀ k a, AgentEntityAddress.parse k = Ok a ↔
     well_formed_address a ∧ AgentEntityAddress.key a = k) ∧
  (∀ a, well_formed_address a →
     AgentEntityAddress.from_entity_id (AgentEntityAddress.class a)
       (AgentEntityAddress.entity_id a) = Ok a) ∧
  (∀ a b, well_formed_address a → well_formed_address b →
     AgentEntityAddress.persistence_id a = AgentEntityAddress.persistence_id b → a = b).
Proof.
  split_and!; [apply parse_address_iff| |apply persistence_id_injective].
  intros a Ha. replace (AgentEntityAddress.entity_id a)
    with (EntityId.new (AgentEntityAddress.scope_key a)) by by destruct a.
  by apply parse_scope_exact.
Qed.

Lemma join_segments_assoc v w ws :
  join_segments ((v +:+ String AGENT_SCOPE_SEPARATOR w) :: ws) = join_segments (v :: w :: ws).
Proof.
  destruct ws as [|w' ws]; [done|]. rewrite !(join_segments_cons _ (_ :: _)) by done.
  by rewrite string_app_assoc, string_app_cons.
Qed.

Lemma append_segments_ok value segments v :
  AgentOperationId.append_segments value segments = Ok v ↔
  Forall valid_segment segments ∧ v = join_segments (value :: segments).
Proof.
  revert value. induction segments as [|w ws IH]; intros value; simpl AgentOperationId.append_segments.
  - split; [by intros [= <-]|by intros [_ ->]].
  - unfold AgentIdentityResult. rewrite result_bind_iff, Forall_cons. split.
    + intros ([] & Hw%validate_identity_segment_ok & [Hws ->]%IH). by rewrite join_segments_assoc.
    + intros [[Hw Hws] ->]. exists (). rewrite validate_identity_segment_ok, IH.
      by rewrite join_segments_assoc.
Qed.

Lemma operation_id_new kind segments o :
  AgentOperationId.new kind segments = Ok o ↔
  segments ≠ [] ∧ Forall valid_segment segments ∧
  AgentOperationId.as_str o = join_segments (AgentOperationKind_as_label kind :: segments).
Proof.
  unfold AgentOperationId.new, AgentIdentityResult. rewrite result_bind_iff.
  setoid_rewrite append_segments_ok. rewrite <-length_zero_iff_nil. destruct o as [o]. simpl. split.
  - intros (v & [Hall ->] & Hv). case_decide; naive_solver.
  - intros (Hne & Hall & ->). eexists. split; [done|]. by rewrite decide_False.
Qed.

Lemma operation_label_valid k : valid_segment (AgentOperationKind_as_label k).
Proof. apply (validate_identity_segment_ok ""). by destruct k. Qed.

Lemma operation_label_inj k k' :
  AgentOperationKind_as_label k = AgentOperationKind_as_label k' → k = k'.
Proof.
  (* The labels as a table: finding a label in it gives back its kind. *)
  intros Heq. set (all := [Command; TaskCreation; Assignment; RunCreation; RunAcceptance;
    ResultProposal; ResultDecision; ResultSubmission; BudgetAllocation; BudgetReservation;
    BudgetSettlement; EffectDispatch; DispatchGrant; MemoryWrite; CheckpointResolution; A2aSend;
    WakeAdmission; EpochAdmission; EpochResult; GoalEvaluation; ClaimAppend; Delegation;
    DelegationResult; WorkflowResult; Handoff; TeamClaim; TeamMessage; TeamOperation;
    ConversationTurn; ConversationOperation; DefinitionUpdate; SettingsUpdate; LifecycleCommand;
    LifecycleSuspend; LifecycleResume; LifecycleTerminate; Cancellation; DependencyRegistration;
    DependencyOutcome]).
  assert (∀ x, find_first (fun y => bool_decide (AgentOperationKind_as_label y =
    AgentOperationKind_as_label x)) all = Some x) as Hfind by (intros []; reflexivity).
  pose proof (Hfind k) as Hk. rewrite Heq, Hfind in Hk. congruence.
Qed.

Lemma check_segments_ok segments :
  AgentOperationId.check_segments segments = Ok tt ↔ Forall valid_segment segments.
Proof.
  induction segments as [|w ws IH]; simpl AgentOperationId.check_segments; [done|].
  unfold AgentIdentityResult. rewrite result_bind_iff, Forall_cons, <-IH. split.
  - intros ([] & Hw%validate_identity_segment_ok & Hws). done.
  - intros [Hw Hws]. exists (). by rewrite validate_identity_segment_ok.
Qed.

(** Operation ids are derived injectively: two operations get the same id only when
    their kinds and all their segments coincide, in order; and a derived id that is
    written out and read back is accepted unchanged. *)
Theorem operation_ids_injective :
  (∀ kind kind' segments segments' o,
     AgentOperationId.new kind segments = Ok o → AgentOperationId.new kind' segments' = Ok o →
     kind = kind' ∧ segments = segments') ∧
  (∀ kind segments o,
     AgentOperationId.new kind segments = Ok o →
     AgentOperationId.deserialize (AgentOperationId.as_str o) = Ok o).
Proof.
  assert (∀ kind segments o, AgentOperationId.new kind segments = Ok o →
    segments ≠ [] ∧ Forall valid_segment segments ∧
    str_split AGENT_SCOPE_SEPARATOR (AgentOperationId.as_str o) =
    AgentOperationKind_as_label kind :: segments) as Hnew.
  { intros kind segments o (Hne & Hall & ->)%operation_id_new. split_and!; [done..|].
    apply split_valid_segments; [done| |done]. apply Forall_cons.
    split; [apply operation_label_valid|done]. }
  split.
  - intros kind kind' segs segs' o (_ & _ & H1)%Hnew (_ & _ & H2)%Hnew. rewrite H1 in H2.
    injection H2 as Hl Hs. split; [by apply operation_label_inj|done].
  - intros kind segs o (Hne & Hall & Hs)%Hnew. unfold AgentOperationId.deserialize. rewrite Hs.
    pose proof (operation_label_valid kind) as Hv.
    assert (str_is_empty (AgentOperationKind_as_label kind) = false) as -> by by destruct kind.
    apply (validate_identity_segment_ok OPERATION_SEGMENT_FIELD) in Hv as ->. simpl.
    apply check_segments_ok in Hall as ->. simpl.
    rewrite decide_False by (by rewrite length_zero_iff_nil). by destruct o.
Qed.
