(* ===== verification/AgentSchema.v ===== *)
(** * Schema versions of agent records: [rakka-agent/src/schema.rs]

    Every durable agent record carries a schema version; a policy holds, per kind of
    record, the window of versions this binary reads.  A [StateSchemaVersion] is its
    [u32]. *)

From S2P Require Import Prelude.

Inductive AgentRecordKind :=
| EntityState | DefinitionRevision | SettingsRevision | SetupRevision | TaskState
| TaskDefinition | TaskHistoryEntry | RunState | LoopState | RunEffect | ModelTurn
| EscrowLedger | AdmissionDecision | ExchangeJournal | ExchangeEnvelope | ExchangeReply
| Checkpoint | SessionMemoryEntry | MemoryContextSnapshot | DecisionEvent | PrivateMemory
| WakePolicyRevision | WakeTimerState | GoalSpec | GoalEvaluation | TeamState
| TeamHistoryEntry | ConversationState | ConversationHistoryEntry.

#[global] Instance AgentRecordKind_eq_dec : EqDecision AgentRecordKind.
Proof. solve_decision. Defined.

Definition AgentRecordKind_ALL : list AgentRecordKind :=
  [EntityState; DefinitionRevision; SettingsRevision; SetupRevision; TaskState;
   TaskDefinition; TaskHistoryEntry; RunState; LoopState; RunEffect; ModelTurn;
   EscrowLedger; AdmissionDecision; ExchangeJournal; ExchangeEnvelope; ExchangeReply;
   Checkpoint; SessionMemoryEntry; MemoryContextSnapshot; DecisionEvent; PrivateMemory;
   WakePolicyRevision; WakeTimerState; GoalSpec; GoalEvaluation; TeamState;
   TeamHistoryEntry; ConversationState; ConversationHistoryEntry].

Definition AgentRecordKind_as_label (k : AgentRecordKind) : string :=
  match k with
  | EntityState => "agent-entity-state"
  | DefinitionRevision => "agent-definition-revision"
  | SettingsRevision => "agent-settings-revision"
  | SetupRevision => "agent-setup-revision"
  | TaskState => "agent-task-state"
  | TaskDefinition => "agent-task-definition"
  | TaskHistoryEntry => "agent-task-history-entry"
  | RunState => "agent-run-state"
  | LoopState => "agent-loop-state"
  | RunEffect => "agent-run-effect"
  | ModelTurn => "agent-model-turn"
  | EscrowLedger => "agent-escrow-ledger"
  | AdmissionDecision => "agent-admission-decision"
  | ExchangeJournal => "agent-exchange-journal"
  | ExchangeEnvelope => "agent-exchange-envelope"
  | ExchangeReply => "agent-exchange-reply"
  | Checkpoint => "agent-checkpoint"
  | SessionMemoryEntry => "agent-session-memory-entry"
  | MemoryContextSnapshot => "agent-memory-context-snapshot"
  | DecisionEvent => "agent-decision-event"
  | PrivateMemory => "agent-private-memory"
  | WakePolicyRevision => "agent-wake-policy-revision"
  | WakeTimerState => "agent-wake-timer-state"
  | GoalSpec => "agent-goal-spec"
  | GoalEvaluation => "agent-goal-evaluation"
  | TeamState => "agent-team-state"
  | TeamHistoryEntry => "agent-team-history-entry"
  | ConversationState => "agent-conversation-state"
  | ConversationHistoryEntry => "agent-conversation-history-entry"
  end.

Definition CURRENT_AGENT_ENTITY_STATE_SCHEMA_VERSION : Z := 1.
Definition CURRENT_AGENT_DEFINITION_SCHEMA_VERSION : Z := 1.
Definition CURRENT_AGENT_SETTINGS_SCHEMA_VERSION : Z := 1.
Definition CURRENT_AGENT_SETUP_SCHEMA_VERSION : Z := 1.
Definition CURRENT_AGENT_TASK_STATE_SCHEMA_VERSION : Z := 1.
Definition CURRENT_AGENT_TASK_DEFINITION_SCHEMA_VERSION : Z := 1.
Definition CURRENT_AGENT_TASK_HISTORY_SCHEMA_VERSION : Z := 1.
Definition CURRENT_AGENT_RUN_STATE_SCHEMA_VERSION : Z := 2.
Definition CURRENT_AGENT_TEAM_STATE_SCHEMA_VERSION : Z := 1.
Definition CURRENT_AGENT_TEAM_HISTORY_SCHEMA_VERSION : Z := 1.
Definition CURRENT_AGENT_CONVERSATION_STATE_SCHEMA_VERSION : Z := 1.
Definition CURRENT_AGENT_CONVERSATION_HISTORY_SCHEMA_VERSION : Z := 1.
Definition CURRENT_AGENT_LOOP_STATE_SCHEMA_VERSION : Z := 1.
Definition CURRENT_AGENT_RUN_EFFECT_SCHEMA_VERSION : Z := 1.
Definition CURRENT_AGENT_MODEL_TURN_SCHEMA_VERSION : Z := 1.
Definition CURRENT_AGENT_ESCROW_LEDGER_SCHEMA_VERSION : Z := 1.
Definition CURRENT_AGENT_ADMISSION_DECISION_SCHEMA_VERSION : Z := 1.
Definition CURRENT_AGENT_EXCHANGE_JOURNAL_SCHEMA_VERSION : Z := 1.
Definition CURRENT_AGENT_EXCHANGE_ENVELOPE_SCHEMA_VERSION : Z := 1.
Definition CURRENT_AGENT_EXCHANGE_REPLY_SCHEMA_VERSION : Z := 1.
Definition CURRENT_AGENT_SESSION_MEMORY_SCHEMA_VERSION : Z := 1.
Definition CURRENT_AGENT_MEMORY_CONTEXT_SNAPSHOT_SCHEMA_VERSION : Z := 1.
Definition CURRENT_AGENT_DECISION_EVENT_SCHEMA_VERSION : Z := 2.
Definition CURRENT_AGENT_PRIVATE_MEMORY_SCHEMA_VERSION : Z := 1.
Definition CURRENT_AGENT_CHECKPOINT_SCHEMA_VERSION : Z := 1.
Definition CURRENT_AGENT_WAKE_POLICY_SCHEMA_VERSION : Z := 1.
Definition CURRENT_AGENT_GOAL_SPEC_SCHEMA_VERSION : Z := 1.
Definition CURRENT_AGENT_GOAL_EVALUATION_SCHEMA_VERSION : Z := 1.
Definition CURRENT_AGENT_WAKE_TIMER_SCHEMA_VERSION : Z := 1.

Definition AgentRecordKind_current_schema_version (k : AgentRecordKind) : Z :=
  match k with
  | EntityState => CURRENT_AGENT_ENTITY_STATE_SCHEMA_VERSION
  | DefinitionRevision => CURRENT_AGENT_DEFINITION_SCHEMA_VERSION
  | SettingsRevision => CURRENT_AGENT_SETTINGS_SCHEMA_VERSION
  | SetupRevision => CURRENT_AGENT_SETUP_SCHEMA_VERSION
  | TaskState => CURRENT_AGENT_TASK_STATE_SCHEMA_VERSION
  | TaskDefinition => CURRENT_AGENT_TASK_DEFINITION_SCHEMA_VERSION
  | TaskHistoryEntry => CURRENT_AGENT_TASK_HISTORY_SCHEMA_VERSION
  | RunState => CURRENT_AGENT_RUN_STATE_SCHEMA_VERSION
  | LoopState => CURRENT_AGENT_LOOP_STATE_SCHEMA_VERSION
  | RunEffect => CURRENT_AGENT_RUN_EFFECT_SCHEMA_VERSION
  | ModelTurn => CURRENT_AGENT_MODEL_TURN_SCHEMA_VERSION
  | EscrowLedger => CURRENT_AGENT_ESCROW_LEDGER_SCHEMA_VERSION
  | AdmissionDecision => CURRENT_AGENT_ADMISSION_DECISION_SCHEMA_VERSION
  | ExchangeJournal => CURRENT_AGENT_EXCHANGE_JOURNAL_SCHEMA_VERSION
  | ExchangeEnvelope => CURRENT_AGENT_EXCHANGE_ENVELOPE_SCHEMA_VERSION
  | ExchangeReply => CURRENT_AGENT_EXCHANGE_REPLY_SCHEMA_VERSION
  | Checkpoint => CURRENT_AGENT_CHECKPOINT_SCHEMA_VERSION
  | SessionMemoryEntry => CURRENT_AGENT_SESSION_MEMORY_SCHEMA_VERSION
  | MemoryContextSnapshot => CURRENT_AGENT_MEMORY_CONTEXT_SNAPSHOT_SCHEMA_VERSION
  | DecisionEvent => CURRENT_AGENT_DECISION_EVENT_SCHEMA_VERSION
  | PrivateMemory => CURRENT_AGENT_PRIVATE_MEMORY_SCHEMA_VERSION
  | WakePolicyRevision => CURRENT_AGENT_WAKE_POLICY_SCHEMA_VERSION
  | WakeTimerState => CURRENT_AGENT_WAKE_TIMER_SCHEMA_VERSION
  | GoalSpec => CURRENT_AGENT_GOAL_SPEC_SCHEMA_VERSION
  | GoalEvaluation => CURRENT_AGENT_GOAL_EVALUATION_SCHEMA_VERSION
  | TeamState => CURRENT_AGENT_TEAM_STATE_SCHEMA_VERSION
  | TeamHistoryEntry => CURRENT_AGENT_TEAM_HISTORY_SCHEMA_VERSION
  | ConversationState => CURRENT_AGENT_CONVERSATION_STATE_SCHEMA_VERSION
  | ConversationHistoryEntry => CURRENT_AGENT_CONVERSATION_HISTORY_SCHEMA_VERSION
  end.

Definition AgentRecordKind_index (k : AgentRecordKind) : nat :=
  match k with
  | EntityState => 0
  | DefinitionRevision => 1
  | SettingsRevision => 2
  | SetupRevision => 3
  | TaskState => 4
  | TaskDefinition => 5
  | TaskHistoryEntry => 6
  | RunState => 7
  | LoopState => 8
  | RunEffect => 9
  | ModelTurn => 10
  | EscrowLedger => 11
  | AdmissionDecision => 12
  | ExchangeJournal => 13
  | ExchangeEnvelope => 14
  | ExchangeReply => 15
  | Checkpoint => 16
  | SessionMemoryEntry => 17
  | MemoryContextSnapshot => 18
  | DecisionEvent => 19
  | PrivateMemory => 20
  | WakePolicyRevision => 21
  | WakeTimerState => 22
  | GoalSpec => 23
  | GoalEvaluation => 24
  | TeamState => 25
  | TeamHistoryEntry => 26
  | ConversationState => 27
  | ConversationHistoryEntry => 28
  end.

Inductive AgentSchemaError :=
| VersionAhead (record : AgentRecordKind) (version current : Z)
| VersionTooOld (record : AgentRecordKind) (version minimum_supported : Z).

#[global] Instance AgentSchemaError_eq_dec : EqDecision AgentSchemaError.
Proof. solve_decision. Defined.

Definition AgentSchemaResult (A : Type) : Type := result AgentSchemaError A.

Definition AgentSchemaError_code (e : AgentSchemaError) : string :=
  match e with
  | VersionAhead _ _ _ => "schema-version-ahead"
  | VersionTooOld _ _ _ => "schema-version-too-old"
  end.

Definition AgentSchemaError_record (e : AgentSchemaError) : AgentRecordKind :=
  match e with VersionAhead record _ _ | VersionTooOld record _ _ => record end.

Definition previous_schema_version (version : Z) : Z :=
  if decide (version <= 1) then 1 else version - 1.

Module AgentSchemaCompatibility.

Record t := mk { current : Z; minimum_supported : Z }.

#[global] Instance eq_dec : EqDecision t.
Proof. solve_decision. Defined.

Definition new (current minimum_supported : Z) : t :=
  mk current (if decide (current < minimum_supported) then current else minimum_supported).

Definition n_plus_one (current : Z) : t := new current (previous_schema_version current).

Definition check (self : t) (record : AgentRecordKind) (version : Z) : AgentSchemaResult unit :=
  if decide (current self < version) then Err (VersionAhead record version (current self))
  else if decide (version < minimum_supported self) then
    Err (VersionTooOld record version (minimum_supported self))
  else Ok tt.

End AgentSchemaCompatibility.

(** The windows are an array with one slot per kind; [compatibility] indexes it, which
    cannot miss on an array of that length. *)
Module AgentSchemaPolicy.

Record t := mk { windows : list AgentSchemaCompatibility.t }.

(** The [while] loop fills slot [index] from [ALL[index]]. *)
Definition n_plus_one : t :=
  mk ((fun record => AgentSchemaCompatibility.n_plus_one
                       (AgentRecordKind_current_schema_version record)) <$> AgentRecordKind_ALL).

Definition with_compatibility (self : t) (record : AgentRecordKind)
    (compatibility : AgentSchemaCompatibility.t) : t :=
  mk (<[AgentRecordKind_index record := compatibility]> (windows self)).

Definition compatibility (self : t) (record : AgentRecordKind) : AgentSchemaCompatibility.t :=
  default (AgentSchemaCompatibility.n_plus_one 1)
    (windows self !! AgentRecordKind_index record).

Definition check (self : t) (record : AgentRecordKind) (version : Z) : AgentSchemaResult unit :=
  AgentSchemaCompatibility.check (compatibility self record) record version.

End AgentSchemaPolicy.

(** ** Properties *)

Lemma index_all k : AgentRecordKind_ALL !! AgentRecordKind_index k = Some k.
Proof. by destruct k. Qed.

Lemma index_inj k k' : AgentRecordKind_index k = AgentRecordKind_index k' → k = k'.
Proof. intros Heq. pose proof (index_all k) as Hk. rewrite Heq, index_all in Hk. congruence. Qed.

Lemma default_window k :
  AgentSchemaPolicy.compatibility AgentSchemaPolicy.n_plus_one k =
  AgentSchemaCompatibility.n_plus_one (AgentRecordKind_current_schema_version k).
Proof.
  unfold AgentSchemaPolicy.compatibility, AgentSchemaPolicy.n_plus_one, AgentSchemaPolicy.windows.
  by rewrite list_lookup_fmap, index_all.
Qed.

Lemma check_exact w record version :
  AgentSchemaCompatibility.check w record version = Ok tt ↔
  AgentSchemaCompatibility.minimum_supported w <= version <= AgentSchemaCompatibility.current w.
Proof. unfold AgentSchemaCompatibility.check. repeat case_decide; split; done || lia. Qed.

Lemma current_version_positive k : 1 <= AgentRecordKind_current_schema_version k.
Proof. by destruct k. Qed.

Lemma n_plus_one_minimum c :
  1 <= c →
  AgentSchemaCompatibility.minimum_supported (AgentSchemaCompatibility.n_plus_one c) =
  Z.max 1 (c - 1).
Proof.
  intros Hc. simpl. unfold previous_schema_version. repeat case_decide; lia.
Qed.

(** The default policy reads exactly a rolling upgrade's window: a record of any kind
    passes when its version is this binary's or the one before, and never otherwise; and
    setting one kind's window leaves every other kind's alone. *)
Theorem default_policy_window :
  (∀ record version,
     AgentSchemaPolicy.check AgentSchemaPolicy.n_plus_one record version = Ok tt ↔
     version = AgentRecordKind_current_schema_version record ∨
     (1 <= version ∧ version = AgentRecordKind_current_schema_version record - 1)) ∧
  (∀ policy record window record',
     length (AgentSchemaPolicy.windows policy) = length AgentRecordKind_ALL →
     AgentSchemaPolicy.compatibility
       (AgentSchemaPolicy.with_compatibility policy record window) record' =
     if decide (record' = record) then window
     else AgentSchemaPolicy.compatibility policy record').
Proof.
  split.
  - intros record version. unfold AgentSchemaPolicy.check. rewrite default_window, check_exact.
    pose proof (current_version_positive record) as Hpos. rewrite n_plus_one_minimum by done.
    simpl. lia.
  - intros policy record window record' Hlen.
    unfold AgentSchemaPolicy.with_compatibility, AgentSchemaPolicy.compatibility.
    cbn [AgentSchemaPolicy.windows].
    case_decide as Hd.
    + subst. rewrite list_lookup_insert_eq; [done|]. rewrite Hlen.
      apply (lookup_lt_Some _ _ record), index_all.
    + rewrite list_lookup_insert_ne; [done|]. intros Heq. apply Hd. by apply index_inj.
Qed.
