(* ===== verification/Exchange.v ===== *)
(** * Exchanges between agent entities: [rakka-agent/src/choreography.rs]

    The saga substrate: exchange envelopes and replies, the journal a participant keeps
    in its durable state (what it owes, what it settled, what it applied), the host
    that commits transition and journal in one compare-and-set, and the courier that
    re-drives what is owed.  Encoding is by [serde_json], an argument here; the
    telemetry gate [sanitize_agent_telemetry_context] is an argument too, since nothing
    in this file depends on which contexts it admits. *)

From S2P Require Import Prelude Persistence DurableState AgentIdentity AgentSchema.

Definition AGENT_EXCHANGE_PAYLOAD_MAX_BYTES : nat := Z.to_nat (32 * 1024).
Definition AGENT_EXCHANGE_PENDING_CAPACITY : nat := 64.
Definition AGENT_EXCHANGE_LOG_CAPACITY : nat := 64.

(** ** Kinds *)

Module AgentExchangeKind.
Inductive t :=
| Creation | Assignment | ResultProposal | BudgetAllocation | BudgetSettlement | BudgetReturn
| EpochResult | GoalEvaluation | DelegationResult | RunCancel | DelegationCancel
| HandoffResult | TeamClaim | TeamClaimResult | DependencyRegistration | DependencyOutcome
| TeamTerminalNotice | ConversationTerminalNotice.

#[global] Instance eq_dec : EqDecision t.
Proof. solve_decision. Defined.

Definition ALL : list t :=
  [Creation; Assignment; ResultProposal; BudgetAllocation; BudgetSettlement; BudgetReturn;
   EpochResult; GoalEvaluation; DelegationResult; RunCancel; DelegationCancel; HandoffResult;
   TeamClaim; TeamClaimResult; DependencyRegistration; DependencyOutcome; TeamTerminalNotice;
   ConversationTerminalNotice].

Definition as_label (self : t) : string :=
  match self with
  | Creation => "creation"
  | Assignment => "assignment"
  | ResultProposal => "result-proposal"
  | BudgetAllocation => "budget-allocation"
  | BudgetSettlement => "budget-settlement"
  | BudgetReturn => "budget-return"
  | EpochResult => "epoch-result"
  | GoalEvaluation => "goal-evaluation"
  | DelegationResult => "delegation-result"
  | RunCancel => "run-cancel"
  | DelegationCancel => "delegation-cancel"
  | HandoffResult => "handoff-result"
  | TeamClaim => "team-claim"
  | TeamClaimResult => "team-claim-result"
  | DependencyRegistration => "dependency-registration"
  | DependencyOutcome => "dependency-outcome"
  | TeamTerminalNotice => "team-terminal-notice"
  | ConversationTerminalNotice => "conversation-terminal-notice"
  end.
End AgentExchangeKind.

(** ** Errors *)

Module AgentChoreographyError.
Inductive t :=
| Identity (error : AgentIdentityError)
| Schema (error : AgentSchemaError)
| Persistence (error : DurableError)
| NotRecovered (address : AgentEntityAddress.t)
| Misrouted (target host : AgentEntityAddress.t)
| ForeignInitiator (initiator host : AgentEntityAddress.t)
| CrossTenantExchange (initiator target : AgentEntityAddress.t)
| ConflictingOperation (operation_id : AgentOperationId.t) (recorded offered : AgentExchangeKind.t)
| MismatchedReply (expected actual : AgentOperationId.t)
| PendingOverflow (maximum : nat)
| PayloadTooLarge (payload_type : string) (bytes maximum : nat)
| PayloadEncoding (message : string)
| PayloadDecoding (payload_type message : string)
| PayloadTypeMismatch (expected actual : string)
| UnsettleableRefusal (kind : AgentExchangeKind.t) (code : string).

Definition code (self : t) : string :=
  match self with
  | Identity error => AgentIdentityError_code error
  | Schema error => AgentSchemaError_code error
  | Persistence error => DurableError_code error
  | NotRecovered _ => "exchange-not-recovered"
  | Misrouted _ _ => "exchange-misrouted"
  | ForeignInitiator _ _ => "exchange-foreign-initiator"
  | CrossTenantExchange _ _ => "exchange-cross-tenant"
  | ConflictingOperation _ _ _ => "exchange-operation-conflict"
  | MismatchedReply _ _ => "exchange-mismatched-reply"
  | PendingOverflow _ => "exchange-pending-overflow"
  | PayloadTooLarge _ _ _ => "exchange-payload-too-large"
  | PayloadEncoding _ => "exchange-payload-encoding"
  | PayloadDecoding _ _ => "exchange-payload-decoding"
  | PayloadTypeMismatch _ _ => "exchange-payload-type-mismatch"
  | UnsettleableRefusal _ _ => "exchange-unsettleable-refusal"
  end.

Definition is_unsettleable (self : t) : bool :=
  match self with UnsettleableRefusal _ _ => true | _ => false end.
End AgentChoreographyError.

Definition AgentChoreographyResult (A : Type) : Type := result AgentChoreographyError.t A.

(** ** Payloads *)

Module AgentExchangePayload.
Record t := mk { payload_type : string; bytes : list Z }.

#[global] Instance eq_dec : EqDecision t.
Proof. solve_decision. Defined.

Definition validate (self : t) : AgentChoreographyResult unit :=
  if str_is_empty (payload_type self) then
    Err (AgentChoreographyError.PayloadEncoding "an exchange payload must declare a type name")
  else if (AGENT_EXCHANGE_PAYLOAD_MAX_BYTES <? length (bytes self))%nat then
    Err (AgentChoreographyError.PayloadTooLarge (payload_type self) (length (bytes self))
           AGENT_EXCHANGE_PAYLOAD_MAX_BYTES)
  else Ok tt.

Definition encode {T} (to_vec : T → result string (list Z)) (payload_type : string) (value : T) :
    AgentChoreographyResult t :=
  let? bytes := map_err AgentChoreographyError.PayloadEncoding (to_vec value) in
  let payload := mk payload_type bytes in
  let? _ := validate payload in
  Ok payload.

Definition empty (payload_type : string) : t := mk payload_type [].
Definition is_empty (self : t) : bool := bool_decide (bytes self = []).

Definition decode {T} (from_slice : list Z → result string T) (self : t) (expected_type : string) :
    AgentChoreographyResult T :=
  if decide (payload_type self ≠ expected_type) then
    Err (AgentChoreographyError.PayloadTypeMismatch expected_type (payload_type self))
  else map_err (AgentChoreographyError.PayloadDecoding (payload_type self)) (from_slice (bytes self)).
End AgentExchangePayload.

(** ** Trace context ([rakka-agent-workflow/src/domain.rs]) *)

Module AgentSpanLink.
Record t := mk {
  trace_id : string;
  span_id : string;
  trace_state : option string;
  attributes : gmap string string;
}.

#[global] Instance eq_dec : EqDecision t.
Proof. solve_decision. Defined.
End AgentSpanLink.

Module AgentTelemetryContext.
Record t := mk {
  trace_parent : option string;
  trace_state : option string;
  baggage : gmap string string;
  span_links : list AgentSpanLink.t;
}.

#[global] Instance eq_dec : EqDecision t.
Proof. solve_decision. Defined.

Definition default : t := mk None None ∅ [].

(** [trace_parent.is_some() || !span_links.is_empty()]. *)
Definition is_present (self : t) : bool :=
  bool_decide (trace_parent self ≠ None) || bool_decide (span_links self ≠ []).
End AgentTelemetryContext.

(** ** Envelopes *)

Module AgentExchangeEnvelope.
Record t := mk {
  schema_version : Z;
  operation_id : AgentOperationId.t;
  kind : AgentExchangeKind.t;
  initiator : AgentEntityAddress.t;
  target : AgentEntityAddress.t;
  payload : AgentExchangePayload.t;
  correlation_id : string;
  created_at : Z;
  telemetry : AgentTelemetryContext.t;
}.

#[global] Instance eq_dec : EqDecision t.
Proof. solve_decision. Defined.

Definition validate (self : t) : AgentChoreographyResult unit :=
  let? _ := AgentExchangePayload.validate (payload self) in
  if decide (AgentEntityAddress.tenant (initiator self) ≠ AgentEntityAddress.tenant (target self)) then
    Err (AgentChoreographyError.CrossTenantExchange (initiator self) (target self))
  else Ok tt.

Definition new (operation_id : AgentOperationId.t) (kind : AgentExchangeKind.t)
    (initiator target : AgentEntityAddress.t) (payload : AgentExchangePayload.t)
    (correlation_id : string) (created_at : Z) : AgentChoreographyResult t :=
  let envelope := mk CURRENT_AGENT_EXCHANGE_ENVELOPE_SCHEMA_VERSION operation_id kind initiator
                    target payload correlation_id created_at AgentTelemetryContext.default in
  let? _ := validate envelope in
  Ok envelope.

(** [with_telemetry]; [sanitize] is [sanitize_agent_telemetry_context]. *)
Definition with_telemetry (sanitize : AgentTelemetryContext.t → AgentTelemetryContext.t)
    (self : t) (telemetry : AgentTelemetryContext.t) : t :=
  mk (schema_version self) (operation_id self) (kind self) (initiator self) (target self)
     (payload self) (correlation_id self) (created_at self) (sanitize telemetry).

Definition has_telemetry (self : t) : bool := AgentTelemetryContext.is_present (telemetry self).
End AgentExchangeEnvelope.

Definition propagate_exchange_telemetry
    (sanitize : AgentTelemetryContext.t → AgentTelemetryContext.t)
    (cause : AgentTelemetryContext.t) (owed : list AgentExchangeEnvelope.t) :
    list AgentExchangeEnvelope.t :=
  if AgentTelemetryContext.is_present cause then
    (fun envelope => if AgentExchangeEnvelope.has_telemetry envelope then envelope
                     else AgentExchangeEnvelope.with_telemetry sanitize envelope cause) <$> owed
  else owed.

(** ** Results and replies *)

Inductive AgentExchangeStatus :=
| Accepted
| Rejected (code message : string).

#[global] Instance AgentExchangeStatus_eq_dec : EqDecision AgentExchangeStatus.
Proof. solve_decision. Defined.

Definition rejection_code (self : AgentExchangeStatus) : option string :=
  match self with Accepted => None | Rejected code _ => Some code end.

Module AgentExchangeResult.
Record t := mk { status : AgentExchangeStatus; payload : AgentExchangePayload.t }.

#[global] Instance eq_dec : EqDecision t.
Proof. solve_decision. Defined.

Definition accepted (payload : AgentExchangePayload.t) : t := mk Accepted payload.
Definition rejected (code message : string) (payload : AgentExchangePayload.t) : t :=
  mk (Rejected code message) payload.

Definition is_accepted (self : t) : bool :=
  match status self with Accepted => true | Rejected _ _ => false end.
End AgentExchangeResult.

Module AgentExchangeReply.
Record t := mk {
  schema_version : Z;
  operation_id : AgentOperationId.t;
  kind : AgentExchangeKind.t;
  result : AgentExchangeResult.t;
  is_replayed : bool;
  replied_at : Z;
}.

Definition new (envelope : AgentExchangeEnvelope.t) (result : AgentExchangeResult.t)
    (replayed : bool) (replied_at : Z) : t :=
  mk CURRENT_AGENT_EXCHANGE_REPLY_SCHEMA_VERSION (AgentExchangeEnvelope.operation_id envelope)
     (AgentExchangeEnvelope.kind envelope) result replayed replied_at.

Definition applied (envelope : AgentExchangeEnvelope.t) (result : AgentExchangeResult.t)
    (replied_at : Z) : t := new envelope result false replied_at.

Definition replayed (envelope : AgentExchangeEnvelope.t) (result : AgentExchangeResult.t)
    (replied_at : Z) : t := new envelope result true replied_at.

Definition validate (self : t) : AgentChoreographyResult unit :=
  AgentExchangePayload.validate (AgentExchangeResult.payload (result self)).
End AgentExchangeReply.

(** ** The journal *)

Module PendingExchange.
Record t := mk {
  envelope : AgentExchangeEnvelope.t;
  attempts : Z;
  recorded_at : Z;
  last_attempt_at : option Z;
  last_failure_code : option string;
}.

#[global] Instance eq_dec : EqDecision t.
Proof. solve_decision. Defined.

Definition operation_id (self : t) : AgentOperationId.t :=
  AgentExchangeEnvelope.operation_id (envelope self).

(** The field updates of a recorded failure. *)
Definition failed (self : t) (code : string) (now : Z) : t :=
  mk (envelope self) (saturating_add_u32 (attempts self) 1) (recorded_at self) (Some now) (Some code).
End PendingExchange.

Module ResolvedExchange.
Record t := mk {
  operation_id : AgentOperationId.t;
  kind : AgentExchangeKind.t;
  result : AgentExchangeResult.t;
  resolved_at : Z;
}.

#[global] Instance eq_dec : EqDecision t.
Proof. solve_decision. Defined.
End ResolvedExchange.

Definition find_resolved (log : list ResolvedExchange.t) (operation_id : AgentOperationId.t) :
    option ResolvedExchange.t :=
  find_first (fun resolved => bool_decide (ResolvedExchange.operation_id resolved = operation_id)) log.

Definition check_kind (resolved : ResolvedExchange.t) (offered : AgentExchangeKind.t) :
    AgentChoreographyResult unit :=
  if decide (ResolvedExchange.kind resolved = offered) then Ok tt
  else Err (AgentChoreographyError.ConflictingOperation (ResolvedExchange.operation_id resolved)
              (ResolvedExchange.kind resolved) offered).

(** The [while] loop removes the first entry until at most the capacity is left. *)
Definition push_resolved (log : list ResolvedExchange.t) (resolved : ResolvedExchange.t) :
    list ResolvedExchange.t :=
  let log := log ++ [resolved] in drop (length log - AGENT_EXCHANGE_LOG_CAPACITY) log.

Module AgentExchangeInitiation.
Inductive t :=
| Recorded
| AlreadyPending
| AlreadySettled (result : AgentExchangeResult.t).
End AgentExchangeInitiation.

Inductive AgentExchangeSettlement :=
| Settled (envelope : AgentExchangeEnvelope.t) (result : AgentExchangeResult.t)
| AlreadySettled (result : AgentExchangeResult.t)
| Unknown.

Definition settlement_result (self : AgentExchangeSettlement) : option AgentExchangeResult.t :=
  match self with
  | Settled _ result | AlreadySettled result => Some result
  | Unknown => None
  end.

Module AgentExchangeJournal.
Record t := mk {
  schema_version : Z;
  pending : list PendingExchange.t;
  settled : list ResolvedExchange.t;
  applied : list ResolvedExchange.t;
}.

#[global] Instance eq_dec : EqDecision t.
Proof. solve_decision. Defined.

Abbreviation jop := (op t AgentChoreographyError.t).

Definition new : t := mk CURRENT_AGENT_EXCHANGE_JOURNAL_SCHEMA_VERSION [] [] [].

Definition pending_exchange (self : t) (operation_id : AgentOperationId.t) :
    option PendingExchange.t :=
  find_first (fun pending => bool_decide (PendingExchange.operation_id pending = operation_id))
    (pending self).

Definition with_pending (self : t) (pending : list PendingExchange.t) : t :=
  mk (schema_version self) pending (settled self) (applied self).

Definition initiate (envelope : AgentExchangeEnvelope.t) (now : Z) : jop AgentExchangeInitiation.t :=
  do! _ := op_lift (AgentExchangeEnvelope.validate envelope) in
  fun self =>
    let operation_id := AgentExchangeEnvelope.operation_id envelope in
    match find_resolved (settled self) operation_id with
    | Some settled =>
        (do! _ := op_lift (check_kind settled (AgentExchangeEnvelope.kind envelope)) in
         op_ret (AgentExchangeInitiation.AlreadySettled (ResolvedExchange.result settled))) self
    | None =>
        match pending_exchange self operation_id with
        | Some p =>
            let recorded := AgentExchangeEnvelope.kind (PendingExchange.envelope p) in
            if decide (recorded ≠ AgentExchangeEnvelope.kind envelope) then
              (self, Err (AgentChoreographyError.ConflictingOperation operation_id recorded
                            (AgentExchangeEnvelope.kind envelope)))
            else (self, Ok AgentExchangeInitiation.AlreadyPending)
        | None =>
            if (AGENT_EXCHANGE_PENDING_CAPACITY <=? length (pending self))%nat then
              (self, Err (AgentChoreographyError.PendingOverflow AGENT_EXCHANGE_PENDING_CAPACITY))
            else
              (with_pending self (pending self ++ [PendingExchange.mk envelope 0 now None None]),
               Ok AgentExchangeInitiation.Recorded)
        end
    end.

Definition withdraw (self : t) (operation_id : AgentOperationId.t) : t * bool :=
  let retained := filter (fun p => PendingExchange.operation_id p ≠ operation_id) (pending self) in
  (with_pending self retained, negb (length retained =? length (pending self))%nat).

(** [record_unsettleable_refusal] and [record_delivery_failure] have the same body: the
    first pending exchange of the operation is updated in place. *)
Fixpoint record_failure (pending : list PendingExchange.t) (operation_id : AgentOperationId.t)
    (code : string) (now : Z) : list PendingExchange.t * bool :=
  match pending with
  | [] => ([], false)
  | p :: pending =>
      if decide (PendingExchange.operation_id p = operation_id) then
        if decide (PendingExchange.last_failure_code p = Some code) then (p :: pending, false)
        else (PendingExchange.failed p code now :: pending, true)
      else let (pending, changed) := record_failure pending operation_id code now in
           (p :: pending, changed)
  end.

Definition record_unsettleable_refusal (self : t) (operation_id : AgentOperationId.t)
    (code : string) (now : Z) : t * bool :=
  let (pending, changed) := record_failure (pending self) operation_id code now in
  (with_pending self pending, changed).

Definition record_delivery_failure (self : t) (operation_id : AgentOperationId.t)
    (code : string) (now : Z) : t * bool :=
  let (pending, changed) := record_failure (pending self) operation_id code now in
  (with_pending self pending, changed).

(** [Vec::remove] of the first pending exchange of the operation. *)
Fixpoint take_pending (pending : list PendingExchange.t) (operation_id : AgentOperationId.t) :
    option (PendingExchange.t * list PendingExchange.t) :=
  match pending with
  | [] => None
  | p :: pending =>
      if decide (PendingExchange.operation_id p = operation_id) then Some (p, pending)
      else match take_pending pending operation_id with
           | Some (q, pending) => Some (q, p :: pending)
           | None => None
           end
  end.

Definition settle (operation_id : AgentOperationId.t) (kind : AgentExchangeKind.t)
    (result : AgentExchangeResult.t) (now : Z) : jop AgentExchangeSettlement := fun self =>
  match find_resolved (settled self) operation_id with
  | Some settled =>
      (do! _ := op_lift (check_kind settled kind) in
       op_ret (AlreadySettled (ResolvedExchange.result settled))) self
  | None =>
      match take_pending (pending self) operation_id with
      | None => (self, Ok Unknown)
      | Some (p, rest) =>
          let envelope := PendingExchange.envelope p in
          if decide (AgentExchangeEnvelope.kind envelope ≠ kind) then
            (with_pending self rest,
             Err (AgentChoreographyError.ConflictingOperation operation_id
                    (AgentExchangeEnvelope.kind envelope) kind))
          else
            (mk (schema_version self) rest
                (push_resolved (settled self) (ResolvedExchange.mk operation_id kind result now))
                (applied self),
             Ok (Settled envelope result))
      end
  end.

Definition has_initiated (self : t) (operation_id : AgentOperationId.t) : bool :=
  bool_decide (pending_exchange self operation_id ≠ None) ||
  bool_decide (find_resolved (settled self) operation_id ≠ None).

(** [settled_result] and [applied_result]. *)
Definition resolved_result (log : list ResolvedExchange.t) (operation_id : AgentOperationId.t)
    (kind : AgentExchangeKind.t) : AgentChoreographyResult (option AgentExchangeResult.t) :=
  match find_resolved log operation_id with
  | None => Ok None
  | Some resolved =>
      let? _ := check_kind resolved kind in Ok (Some (ResolvedExchange.result resolved))
  end.

Definition settled_result (self : t) := resolved_result (settled self).
Definition applied_result (self : t) := resolved_result (applied self).

Definition record_applied (self : t) (operation_id : AgentOperationId.t)
    (kind : AgentExchangeKind.t) (result : AgentExchangeResult.t) (now : Z) : t :=
  mk (schema_version self) (pending self) (settled self)
     (push_resolved (applied self) (ResolvedExchange.mk operation_id kind result now)).
End AgentExchangeJournal.

(** ** Participants

    The traits [AgentExchangeState] and [AgentExchangeParticipant] of an entity with
    state [S]; [with_exchange_journal] is a write through [exchange_journal_mut]. *)

Module AgentExchangeTransition.
Record t := mk { result : AgentExchangeResult.t; owed : list AgentExchangeEnvelope.t }.

Definition new (result : AgentExchangeResult.t) : t := mk result [].
Definition owing (self : t) (envelope : AgentExchangeEnvelope.t) : t :=
  mk (result self) (owed self ++ [envelope]).
End AgentExchangeTransition.

Record AgentExchangeParticipant (S : Type) := {
  exchange_journal : S → AgentExchangeJournal.t;
  with_exchange_journal : S → AgentExchangeJournal.t → S;
  check_schema : S → AgentSchemaPolicy.t → AgentSchemaResult unit;
  initialize : AgentEntityAddress.t → Z → S;
  apply : S → AgentExchangeEnvelope.t → Z → S * AgentExchangeTransition.t;
  check_settle : AgentExchangeEnvelope.t → AgentExchangeResult.t → AgentChoreographyResult unit;
  settle_consequence : S → AgentExchangeEnvelope.t → AgentExchangeResult.t → Z →
    S * list AgentExchangeEnvelope.t;
  seal : S → S → Z → S;
}.
Arguments exchange_journal {S}.
Arguments with_exchange_journal {S}.
Arguments check_schema {S}.
Arguments initialize {S}.
Arguments apply {S}.
Arguments check_settle {S}.
Arguments settle_consequence {S}.
Arguments seal {S}.

(** ** The durable host *)

Module AgentExchangeHost.
Section host.
Context {St S : Type} `{EqDecision S}.
Context (ops : DurableStateStore St S) (participant : AgentExchangeParticipant S).
Context (sanitize : AgentTelemetryContext.t → AgentTelemetryContext.t).
Context (address : AgentEntityAddress.t) (policy : AgentSchemaPolicy.t).

Record t := mk { store : St; record : option (StateRecord.t S) }.

Abbreviation hop := (op t AgentChoreographyError.t).

Definition persistence_id : PersistenceId.t := AgentEntityAddress.persistence_id address.

(** [policy.check_record] of a record of the kind. *)
Definition check_version (kind : AgentRecordKind) (version : Z) : AgentChoreographyResult unit :=
  map_err AgentChoreographyError.Schema (AgentSchemaPolicy.check policy kind version).

Definition recover (now : Z) : hop S := fun self =>
  let (st, loaded) := load ops (store self) persistence_id in
  let checked :=
    let? loaded := map_err AgentChoreographyError.Persistence loaded in
    match loaded with
    | Some record =>
        let state := StateRecord.state record in
        let? _ := check_version ExchangeJournal
                    (AgentExchangeJournal.schema_version (exchange_journal participant state)) in
        let? _ := map_err AgentChoreographyError.Schema (check_schema participant state policy) in
        Ok record
    | None => Ok (StateRecord.missing (initialize participant address now))
    end in
  match checked with
  | Ok record => (mk st (Some record), Ok (StateRecord.state record))
  | Err e => (mk st (record self), Err e)
  end.

Definition recovered_record : hop (StateRecord.t S) := fun self =>
  (self, ok_or (AgentChoreographyError.NotRecovered address) (record self)).

Definition outstanding : hop (list AgentExchangeEnvelope.t) :=
  do! record := recovered_record in
  op_ret (PendingExchange.envelope <$>
            AgentExchangeJournal.pending (exchange_journal participant (StateRecord.state record))).

Definition persist (state : S) (expected_revision : Z) : hop unit := fun self =>
  match compare_and_set ops (store self) persistence_id expected_revision state with
  | (st, Ok persisted) => (mk st (Some persisted), Ok tt)
  | (st, Err error) =>
      (mk st (match error with RevisionConflict _ _ _ => None | _ => record self end),
       Err (AgentChoreographyError.Persistence error))
  end.

(** An operation on the journal inside a state. *)
Definition on_journal {A} (f : AgentExchangeJournal.jop A) (state : S) :
    AgentChoreographyResult (S * A) :=
  match f (exchange_journal participant state) with
  | (journal, Ok a) => Ok (with_exchange_journal participant state journal, a)
  | (_, Err e) => Err e
  end.

Fixpoint record_owed (state : S) (envelopes : list AgentExchangeEnvelope.t) (now : Z) :
    AgentChoreographyResult (S * list AgentExchangeInitiation.t) :=
  match envelopes with
  | [] => Ok (state, [])
  | envelope :: envelopes =>
      if decide (AgentExchangeEnvelope.initiator envelope ≠ address) then
        Err (AgentChoreographyError.ForeignInitiator (AgentExchangeEnvelope.initiator envelope) address)
      else
        let? (state, initiation) := on_journal (AgentExchangeJournal.initiate envelope now) state in
        let? (state, initiations) := record_owed state envelopes now in
        Ok (state, initiation :: initiations)
  end.

(** [initiate]: [transition] is the caller's closure, the state it leaves and what the
    entity then owes. *)
Definition initiate (now : Z)
    (transition : S → AgentChoreographyResult (S * list AgentExchangeEnvelope.t)) :
    hop (list AgentExchangeInitiation.t) :=
  do! record := recovered_record in
  let before := StateRecord.state record in
  do! (state, envelopes) := op_lift (transition before) in
  do! (state, initiations) := op_lift (record_owed state envelopes now) in
  let state := seal participant before state now in
  do! _ := persist state (StateRecord.revision record) in
  op_ret initiations.

(** [settles] in [accept]. *)
Definition memoizes (envelope : AgentExchangeEnvelope.t) (result : AgentExchangeResult.t) : bool :=
  AgentExchangeResult.is_accepted result ||
  match check_settle participant envelope result with
  | Err error => negb (AgentChoreographyError.is_unsettleable error)
  | Ok _ => true
  end.

(** The part of [accept] after the replay check. *)
Definition accept_new (envelope : AgentExchangeEnvelope.t) (now : Z) (record : StateRecord.t S) :
    hop AgentExchangeReply.t :=
  let before := StateRecord.state record in
  let '(state, transition) := apply participant before envelope now in
  let result := AgentExchangeTransition.result transition in
  let state := seal participant before state now in
  let owed := propagate_exchange_telemetry sanitize (AgentExchangeEnvelope.telemetry envelope)
                (AgentExchangeTransition.owed transition) in
  let settles := memoizes envelope result in
  let state :=
    if settles then
      with_exchange_journal participant state
        (AgentExchangeJournal.record_applied (exchange_journal participant state)
           (AgentExchangeEnvelope.operation_id envelope) (AgentExchangeEnvelope.kind envelope)
           result now)
    else state in
  do! (state, _) := op_lift (record_owed state owed now) in
  if negb settles && bool_decide (owed = []) && bool_decide (state = before) then
    op_ret (AgentExchangeReply.applied envelope result now)
  else
    do! _ := persist state (StateRecord.revision record) in
    op_ret (AgentExchangeReply.applied envelope result now).

Definition accept (envelope : AgentExchangeEnvelope.t) (now : Z) : hop AgentExchangeReply.t :=
  do! _ := op_lift (check_version ExchangeEnvelope
                      (AgentExchangeEnvelope.schema_version envelope)) in
  do! _ := op_lift (AgentExchangeEnvelope.validate envelope) in
  do! _ := (if decide (AgentExchangeEnvelope.target envelope ≠ address) then
              op_err (AgentChoreographyError.Misrouted (AgentExchangeEnvelope.target envelope) address)
            else op_ret tt) in
  do! record := recovered_record in
  do! answered := op_lift (AgentExchangeJournal.applied_result
                             (exchange_journal participant (StateRecord.state record))
                             (AgentExchangeEnvelope.operation_id envelope)
                             (AgentExchangeEnvelope.kind envelope)) in
  match answered with
  | Some result => op_ret (AgentExchangeReply.replayed envelope result now)
  | None => accept_new envelope now record
  end.

Definition settle (reply : AgentExchangeReply.t) (now : Z) : hop AgentExchangeSettlement :=
  do! _ := op_lift (check_version ExchangeReply (AgentExchangeReply.schema_version reply)) in
  do! _ := op_lift (AgentExchangeReply.validate reply) in
  do! record := recovered_record in
  let before := StateRecord.state record in
  do! (state, settlement) :=
    op_lift (on_journal (AgentExchangeJournal.settle (AgentExchangeReply.operation_id reply)
                           (AgentExchangeReply.kind reply) (AgentExchangeReply.result reply) now)
               before) in
  match settlement with
  | Settled envelope result =>
      do! _ := op_lift (check_settle participant envelope result) in
      let '(state, owed) := settle_consequence participant state envelope result now in
      let owed := propagate_exchange_telemetry sanitize
                    (AgentExchangeEnvelope.telemetry envelope) owed in
      do! (state, _) := op_lift (record_owed state owed now) in
      let state := seal participant before state now in
      do! _ := persist state (StateRecord.revision record) in
      op_ret settlement
  | _ => op_ret settlement
  end.

(** A journal update that is written only when it changed something. *)
Definition record_if_changed (f : AgentExchangeJournal.t → AgentExchangeJournal.t * bool) :
    hop unit :=
  do! record := recovered_record in
  let state := StateRecord.state record in
  let (journal, changed) := f (exchange_journal participant state) in
  if changed then
    persist (with_exchange_journal participant state journal) (StateRecord.revision record)
  else op_ret tt.

Definition record_unsettleable_refusal (operation_id : AgentOperationId.t) (code : string)
    (now : Z) : hop unit :=
  record_if_changed (fun journal =>
    AgentExchangeJournal.record_unsettleable_refusal journal operation_id code now).

Definition record_delivery_failure (operation_id : AgentOperationId.t) (code : string)
    (now : Z) : hop unit :=
  record_if_changed (fun journal =>
    AgentExchangeJournal.record_delivery_failure journal operation_id code now).
End host.
Arguments t : clear implicits.
End AgentExchangeHost.

(** ** The courier *)

Module AgentExchangeDeliveryError.
Record t := new { code : string; message : string }.
End AgentExchangeDeliveryError.

Module AgentExchangeUnsettleable.
Record t := mk { kind : AgentExchangeKind.t; code : string }.
End AgentExchangeUnsettleable.

Module AgentExchangeDriveReport.
Record t := mk {
  outstanding : nat;
  settled : nat;
  duplicate_replies : nat;
  unknown_replies : nat;
  failed : nat;
  unsettleable : list AgentExchangeUnsettleable.t;
}.

Definition started (outstanding : nat) : t := mk outstanding 0 0 0 0 [].

(** The counters the courier bumps. *)
Definition add_settlement (self : t) (settlement : AgentExchangeSettlement) : t :=
  match settlement with
  | Settled _ _ =>
      mk (outstanding self) (settled self + 1) (duplicate_replies self) (unknown_replies self)
         (failed self) (unsettleable self)
  | AlreadySettled _ =>
      mk (outstanding self) (settled self) (duplicate_replies self + 1) (unknown_replies self)
         (failed self) (unsettleable self)
  | Unknown =>
      mk (outstanding self) (settled self) (duplicate_replies self) (unknown_replies self + 1)
         (failed self) (unsettleable self)
  end.

Definition add_failure (self : t) (refusals : list AgentExchangeUnsettleable.t) : t :=
  mk (outstanding self) (settled self) (duplicate_replies self) (unknown_replies self)
     (failed self + 1) (unsettleable self ++ refusals).
End AgentExchangeDriveReport.

Section courier.
Context {St S : Type} `{EqDecision S}.
Context (ops : DurableStateStore St S) (participant : AgentExchangeParticipant S).
Context (sanitize : AgentTelemetryContext.t → AgentTelemetryContext.t).
Context (address : AgentEntityAddress.t) (policy : AgentSchemaPolicy.t).

Abbreviation host := (AgentExchangeHost.t St S).

(** [AgentExchangeTransport::deliver]: a delivery acts on the world the store is part of
    - the target entity commits to its own record - and answers or fails. *)
Context (deliver : St → AgentExchangeEnvelope.t →
           St * result AgentExchangeDeliveryError.t AgentExchangeReply.t).

(** One iteration of the loop. *)
Definition drive_one (now : Z) (report : AgentExchangeDriveReport.t)
    (envelope : AgentExchangeEnvelope.t) : op host AgentChoreographyError.t AgentExchangeDriveReport.t :=
  fun self =>
    let (st, delivered) := deliver (AgentExchangeHost.store self) envelope in
    let self := AgentExchangeHost.mk st (AgentExchangeHost.record self) in
    let operation_id := AgentExchangeEnvelope.operation_id envelope in
    match delivered with
    | Ok reply =>
        if decide (AgentExchangeReply.operation_id reply ≠ operation_id) then
          (self, Err (AgentChoreographyError.MismatchedReply operation_id
                        (AgentExchangeReply.operation_id reply)))
        else
          match AgentExchangeHost.settle ops participant sanitize address policy reply now self with
          | (self, Ok settlement) =>
              (self, Ok (AgentExchangeDriveReport.add_settlement report settlement))
          | (self, Err (AgentChoreographyError.UnsettleableRefusal _ code)) =>
              (do! _ := AgentExchangeHost.record_unsettleable_refusal ops participant address
                          operation_id code now in
               op_ret (AgentExchangeDriveReport.add_failure report
                         [AgentExchangeUnsettleable.mk (AgentExchangeEnvelope.kind envelope) code]))
                self
          | (self, Err error) => (self, Err error)
          end
    | Err error =>
        (do! _ := AgentExchangeHost.record_delivery_failure ops participant address operation_id
                    (AgentExchangeDeliveryError.code error) now in
         op_ret (AgentExchangeDriveReport.add_failure report [])) self
    end.

Fixpoint drive_each (now : Z) (report : AgentExchangeDriveReport.t)
    (envelopes : list AgentExchangeEnvelope.t) :
    op host AgentChoreographyError.t AgentExchangeDriveReport.t :=
  match envelopes with
  | [] => op_ret report
  | envelope :: envelopes =>
      do! report := drive_one now report envelope in drive_each now report envelopes
  end.

Definition drive_pending_exchanges (now : Z) :
    op host AgentChoreographyError.t AgentExchangeDriveReport.t :=
  do! outstanding := AgentExchangeHost.outstanding participant address in
  drive_each now (AgentExchangeDriveReport.started (length outstanding)) outstanding.
End courier.
