(* ===== verification/ExchangeSaga.v ===== *)
(** * Exchanges exactly once

    What the exchange substrate of [Exchange.v] promises, over every interleaving of the
    hosts of one entity - shard owners old and new, with stale caches, crashes, failed
    writes, duplicate deliveries and lost replies: an abstract log of what was applied
    and settled is refined by every run, no operation is applied or settled twice
    within the deduplication window, replays answer with the recorded result, and what
    is owed stays owed until it is settled. *)

From S2P Require Import Prelude Persistence DurableState AgentIdentity AgentSchema Exchange.

(** ** The journal *)

Abbreviation pending_ops j := (PendingExchange.operation_id <$> AgentExchangeJournal.pending j).
Abbreviation resolved_ops l := (ResolvedExchange.operation_id <$> l).

(** The bounds and the uniqueness of a journal's entries. *)
Record journal_wf (j : AgentExchangeJournal.t) : Prop := {
  jw_pending : (length (AgentExchangeJournal.pending j) <= AGENT_EXCHANGE_PENDING_CAPACITY)%nat;
  jw_settled : (length (AgentExchangeJournal.settled j) <= AGENT_EXCHANGE_LOG_CAPACITY)%nat;
  jw_applied : (length (AgentExchangeJournal.applied j) <= AGENT_EXCHANGE_LOG_CAPACITY)%nat;
  jw_pending_nodup : NoDup (pending_ops j);
  jw_settled_nodup : NoDup (resolved_ops (AgentExchangeJournal.settled j));
  jw_applied_nodup : NoDup (resolved_ops (AgentExchangeJournal.applied j));
  jw_disjoint op : op ∈ pending_ops j → (op ∉ resolved_ops (AgentExchangeJournal.settled j));
}.

Lemma find_resolved_Some log op r :
  find_resolved log op = Some r → r ∈ log ∧ ResolvedExchange.operation_id r = op.
Proof. by intros [? ?%bool_decide_eq_true]%find_first_Some. Qed.

Lemma find_resolved_None log op : find_resolved log op = None ↔ op ∉ resolved_ops log.
Proof.
  unfold find_resolved. rewrite find_first_None, list_elem_of_fmap. split.
  - intros Hall (r & -> & Hr). specialize (Hall r Hr). by apply bool_decide_eq_false in Hall.
  - intros Hn r Hr. apply bool_decide_eq_false. intros <-. apply Hn. eauto.
Qed.

(** The last entries of a history, as many as a log keeps. *)
Definition window {A} (h : list A) : list A := last_n AGENT_EXCHANGE_LOG_CAPACITY h.

Lemma push_resolved_window log r : push_resolved log r = window (log ++ [r]).
Proof. done. Qed.

Lemma window_window {A} (h l : list A) : window (window h ++ l) = window (h ++ l).
Proof. apply last_n_app. Qed.

Lemma length_window {A} (h : list A) : (length (window h) <= AGENT_EXCHANGE_LOG_CAPACITY)%nat.
Proof. apply length_last_n. Qed.

Lemma window_sublist {A} (h : list A) : window h `sublist_of` h.
Proof. apply last_n_sublist. Qed.

Lemma window_short {A} (h : list A) : (length h <= AGENT_EXCHANGE_LOG_CAPACITY)%nat → window h = h.
Proof. apply last_n_short. Qed.

Lemma NoDup_push log r :
  NoDup (resolved_ops log) → find_resolved log (ResolvedExchange.operation_id r) = None →
  NoDup (resolved_ops (push_resolved log r)).
Proof.
  intros Hnd Hf%find_resolved_None. rewrite push_resolved_window.
  eapply sublist_NoDup; [|apply (fmap_sublist ResolvedExchange.operation_id), window_sublist].
  rewrite fmap_app. apply NoDup_app. split_and!; [done| |apply NoDup_singleton].
  by intros op Hop ->%list_elem_of_singleton.
Qed.

Lemma take_pending_Some l op p rest :
  AgentExchangeJournal.take_pending l op = Some (p, rest) →
  PendingExchange.operation_id p = op ∧ p :: rest ≡ₚ l ∧ rest `sublist_of` l.
Proof.
  revert p rest. induction l as [|q l IH]; simpl; [done|]. intros p rest. case_decide as Hq.
  - intros [= <- <-]. split_and!; [done|done|by apply sublist_cons].
  - destruct (AgentExchangeJournal.take_pending l op) as [[p' rest']|] eqn:Ht; [|done].
    intros [= <- <-]. destruct (IH p' rest' eq_refl) as (? & Hp & Hs). split_and!; [done| |].
    + by rewrite Permutation_swap, Hp.
    + by apply sublist_skip.
Qed.

Lemma take_pending_None l op :
  AgentExchangeJournal.take_pending l op = None → op ∉ (PendingExchange.operation_id <$> l).
Proof.
  induction l as [|q l IH]; simpl; [set_solver|]. case_decide; [done|].
  destruct (AgentExchangeJournal.take_pending l op) as [[]|]; [done|]. set_solver.
Qed.

Lemma record_failure_ops l op code now l' changed :
  AgentExchangeJournal.record_failure l op code now = (l', changed) →
  PendingExchange.operation_id <$> l' = PendingExchange.operation_id <$> l.
Proof.
  revert l' changed. induction l as [|p l IH]; simpl; intros l' changed; [by intros [= <- <-]|].
  repeat case_decide; [by intros [= <- <-]|by intros [= <- <-]|].
  destruct (AgentExchangeJournal.record_failure l op code now) as [l1 c1] eqn:Hr.
  intros [= <- <-]. by rewrite !fmap_cons, (IH l1 c1).
Qed.

(** What a transition of the application may do to the journal: withdraw. *)
Record keeps_journal (j j' : AgentExchangeJournal.t) : Prop := {
  kj_applied : AgentExchangeJournal.applied j' = AgentExchangeJournal.applied j;
  kj_settled : AgentExchangeJournal.settled j' = AgentExchangeJournal.settled j;
  kj_pending : AgentExchangeJournal.pending j' `sublist_of` AgentExchangeJournal.pending j;
}.

#[global] Instance keeps_journal_preorder : PreOrder keeps_journal.
Proof.
  split; [by intros j; split|]. intros j1 j2 j3 [] []. split; [congruence..|by etrans].
Qed.

Lemma keeps_journal_wf j j' : keeps_journal j j' → journal_wf j → journal_wf j'.
Proof.
  intros [Ha Hs Hp] [Hlp Hls Hla Hnp Hns Hna Hd]. pose proof (sublist_length _ _ Hp).
  pose proof (fmap_sublist PendingExchange.operation_id _ _ Hp) as Hops.
  split; rewrite ?Ha, ?Hs; try done; [lia|exact (sublist_NoDup _ _ Hnp Hops)|].
  intros op Hop. apply Hd. by eapply sublist_subseteq.
Qed.

(** What recording owed exchanges does: it only adds to what is pending. *)
Record owes_more (j j' : AgentExchangeJournal.t) : Prop := {
  om_applied : AgentExchangeJournal.applied j' = AgentExchangeJournal.applied j;
  om_settled : AgentExchangeJournal.settled j' = AgentExchangeJournal.settled j;
  om_pending : AgentExchangeJournal.pending j `prefix_of` AgentExchangeJournal.pending j';
  om_wf : journal_wf j → journal_wf j';
}.

#[global] Instance owes_more_preorder : PreOrder owes_more.
Proof.
  split; [by intros j; split|]. intros j1 j2 j3 [] []. split; [congruence..|by etrans|auto].
Qed.

Lemma initiate_owes_more envelope now j j' r :
  AgentExchangeJournal.initiate envelope now j = (j', r) → owes_more j j'.
Proof.
  unfold AgentExchangeJournal.initiate, op_bind, op_lift, op_ret.
  destruct (AgentExchangeEnvelope.validate envelope); [|by intros [= <- <-]].
  set (op := AgentExchangeEnvelope.operation_id envelope).
  destruct (find_resolved _ op) as [s|] eqn:Hs.
  { destruct (check_kind _ _); by intros [= <- <-]. }
  destruct (AgentExchangeJournal.pending_exchange j op) as [p|] eqn:Hp.
  { case_decide; by intros [= <- <-]. }
  destruct (Nat.leb_spec AGENT_EXCHANGE_PENDING_CAPACITY (length (AgentExchangeJournal.pending j)));
    [by intros [= <- <-]|].
  intros [= <- <-]. split; simpl; [done..|by eexists|].
  intros [Hlp Hls Hla Hnp Hns Hna Hd]. split; simpl; try done.
  - rewrite length_app. simpl. lia.
  - rewrite fmap_app. apply NoDup_app. split_and!; [done| |apply NoDup_singleton].
    intros op' (q & -> & Hq)%list_elem_of_fmap Hop%list_elem_of_singleton.
    unfold AgentExchangeJournal.pending_exchange in Hp. rewrite find_first_None in Hp.
    specialize (Hp q Hq). by apply bool_decide_eq_false in Hp.
  - intros op'. rewrite fmap_app. intros [Hop|Hop%list_elem_of_singleton]%elem_of_app; [by apply Hd|].
    rewrite Hop. by apply find_resolved_None.
Qed.

(** What settling does to the journal, case by case. *)
Lemma settle_cases op kind result now j j' r :
  AgentExchangeJournal.settle op kind result now j = (j', r) →
  (∃ res, r = Ok (AlreadySettled res) ∧ j' = j ∧ ∃ s, s ∈ AgentExchangeJournal.settled j ∧
     ResolvedExchange.operation_id s = op ∧ ResolvedExchange.kind s = kind ∧
     ResolvedExchange.result s = res) ∨
  (r = Ok Unknown ∧ j' = j) ∨
  (∃ p rest, r = Ok (Settled (PendingExchange.envelope p) result) ∧
     find_resolved (AgentExchangeJournal.settled j) op = None ∧
     PendingExchange.operation_id p = op ∧ p :: rest ≡ₚ AgentExchangeJournal.pending j ∧
     rest `sublist_of` AgentExchangeJournal.pending j ∧
     AgentExchangeEnvelope.kind (PendingExchange.envelope p) = kind ∧
     j' = AgentExchangeJournal.mk (AgentExchangeJournal.schema_version j) rest
            (push_resolved (AgentExchangeJournal.settled j)
               (ResolvedExchange.mk op kind result now)) (AgentExchangeJournal.applied j)) ∨
  (∃ e, r = Err e).
Proof.
  unfold AgentExchangeJournal.settle, op_bind, op_lift, op_ret.
  destruct (find_resolved _ op) as [s|] eqn:Hs.
  { unfold check_kind. case_decide; intros [= <- <-]; [left|by eauto 6].
    apply find_resolved_Some in Hs as [??]. eauto 10. }
  destruct (AgentExchangeJournal.take_pending _ op) as [[p rest]|] eqn:Hp;
    [|intros [= <- <-]; by right; left].
  apply take_pending_Some in Hp as (? & ? & ?).
  case_decide as Hk; intros [= <- <-]; right; right; [right; by eauto|left].
  exists p, rest. split_and!; done.
Qed.

Lemma settled_wf j rest p r :
  journal_wf j → p :: rest ≡ₚ AgentExchangeJournal.pending j →
  PendingExchange.operation_id p = ResolvedExchange.operation_id r →
  rest `sublist_of` AgentExchangeJournal.pending j →
  find_resolved (AgentExchangeJournal.settled j) (ResolvedExchange.operation_id r) = None →
  journal_wf (AgentExchangeJournal.mk (AgentExchangeJournal.schema_version j) rest
                (push_resolved (AgentExchangeJournal.settled j) r) (AgentExchangeJournal.applied j)).
Proof.
  intros [Hlp Hls Hla Hnp Hns Hna Hd] Hp Hop Hsub Hf. pose proof (sublist_length _ _ Hsub).
  split; simpl; try done.
  - lia.
  - rewrite push_resolved_window. apply length_window.
  - eapply sublist_NoDup; [exact Hnp|by apply fmap_sublist].
  - by apply NoDup_push.
  - rewrite <-Hp in Hnp. simpl in Hnp. apply NoDup_cons in Hnp as [Hnp _].
    intros op Hin. rewrite push_resolved_window. intros Hw.
    apply (sublist_subseteq _ _ (fmap_sublist ResolvedExchange.operation_id _ _ (window_sublist _))) in Hw.
    rewrite fmap_app in Hw. apply elem_of_app in Hw as [Hw|Hw%list_elem_of_singleton].
    + revert Hw. apply Hd. rewrite <-Hp. by right.
    + apply Hnp. by rewrite Hop, <-Hw.
Qed.

Lemma record_applied_wf j op kind result now :
  journal_wf j → find_resolved (AgentExchangeJournal.applied j) op = None →
  journal_wf (AgentExchangeJournal.record_applied j op kind result now).
Proof.
  intros [] Hf. split; simpl; try done.
  - rewrite push_resolved_window. apply length_window.
  - by apply NoDup_push.
Qed.

(** ** One host call *)

Inductive HostCall (S : Type) :=
| Recover (now : Z)
| Initiate (now : Z) (transition : S → AgentChoreographyResult (S * list AgentExchangeEnvelope.t))
| Accept (envelope : AgentExchangeEnvelope.t) (now : Z)
| Settle (reply : AgentExchangeReply.t) (now : Z)
| NoteRefusal (operation_id : AgentOperationId.t) (code : string) (now : Z)
| NoteFailure (operation_id : AgentOperationId.t) (code : string) (now : Z).
Arguments Recover {S}.
Arguments Initiate {S}.
Arguments Accept {S}.
Arguments Settle {S}.
Arguments NoteRefusal {S}.
Arguments NoteFailure {S}.

Inductive HostAnswer :=
| Recovered
| Initiated (initiations : list AgentExchangeInitiation.t)
| Replied (reply : AgentExchangeReply.t)
| Resolved (settlement : AgentExchangeSettlement)
| Noted.

(** What an answer lets its caller conclude about the operation. *)
Inductive Fact :=
| FactApplied (r : ResolvedExchange.t)
| FactReplayed (op : AgentOperationId.t) (kind : AgentExchangeKind.t) (res : AgentExchangeResult.t)
| FactSettled (r : ResolvedExchange.t)
| FactDuplicate (op : AgentOperationId.t) (kind : AgentExchangeKind.t) (res : AgentExchangeResult.t).

Definition applied_in (facts : list Fact) : list ResolvedExchange.t :=
  omap (fun f => match f with FactApplied r => Some r | _ => None end) facts.
Definition settled_in (facts : list Fact) : list ResolvedExchange.t :=
  omap (fun f => match f with FactSettled r => Some r | _ => None end) facts.

(** A resolved operation of the log with this kind and result. *)
Definition recorded (log : list ResolvedExchange.t) (op : AgentOperationId.t)
    (kind : AgentExchangeKind.t) (res : AgentExchangeResult.t) : Prop :=
  ∃ r, r ∈ log ∧ ResolvedExchange.operation_id r = op ∧ ResolvedExchange.kind r = kind ∧
    ResolvedExchange.result r = res.

(** ** The abstract log

    The specification of an entity: two histories, of what it applied for others and of
    what it settled of its own.  An operation enters one only when the last entries, as
    many as the window holds, do not have it; every answer repeats a recorded result. *)

Record Ledger := mk_ledger {
  applied_history : list ResolvedExchange.t;
  settled_history : list ResolvedExchange.t;
}.

Inductive ledger_step : Ledger → Fact → Ledger → Prop :=
| ledger_apply a s r :
    ResolvedExchange.operation_id r ∉ resolved_ops (window a) →
    ledger_step (mk_ledger a s) (FactApplied r) (mk_ledger (a ++ [r]) s)
| ledger_replay a s op kind res :
    recorded a op kind res → ledger_step (mk_ledger a s) (FactReplayed op kind res) (mk_ledger a s)
| ledger_settle a s r :
    ResolvedExchange.operation_id r ∉ resolved_ops (window s) →
    ledger_step (mk_ledger a s) (FactSettled r) (mk_ledger a (s ++ [r]))
| ledger_duplicate a s op kind res :
    recorded s op kind res → ledger_step (mk_ledger a s) (FactDuplicate op kind res) (mk_ledger a s).

Inductive ledger_run : Ledger → list Fact → Ledger → Prop :=
| ledger_done l : ledger_run l [] l
| ledger_more l1 f l2 fs l3 : ledger_step l1 f l2 → ledger_run l2 fs l3 → ledger_run l1 (f :: fs) l3.

Lemma ledger_run_app l1 fs l2 gs l3 :
  ledger_run l1 fs l2 → ledger_run l2 gs l3 → ledger_run l1 (fs ++ gs) l3.
Proof. induction 1; simpl; [done|]. intros. econstructor; eauto. Qed.

(** Two entries of one operation are more than a window apart. *)
Definition spaced (h : list ResolvedExchange.t) : Prop :=
  ∀ i j a b, (i < j)%nat → h !! i = Some a → h !! j = Some b →
    ResolvedExchange.operation_id a = ResolvedExchange.operation_id b →
    (AGENT_EXCHANGE_LOG_CAPACITY < j - i)%nat.

Lemma spaced_snoc h r :
  spaced h → ResolvedExchange.operation_id r ∉ resolved_ops (window h) → spaced (h ++ [r]).
Proof.
  intros Hs Hn i j a b Hij Ha Hb Heq.
  apply lookup_snoc_Some in Hb as [[Hj Hb]|[-> <-]].
  - rewrite lookup_app_l in Ha by lia. eauto.
  - rewrite lookup_app_l in Ha by lia.
    destruct (decide (AGENT_EXCHANGE_LOG_CAPACITY < length h - i)%nat); [done|]. exfalso.
    apply Hn. rewrite <-Heq. apply list_elem_of_fmap. exists a. split; [done|].
    apply (last_n_lookup _ _ i); [done|lia].
Qed.

Lemma spaced_nodup h : NoDup (resolved_ops h) → spaced h.
Proof.
  intros Hnd i j a b Hij Ha Hb Heq. exfalso.
  assert (i = j) as ->; [|lia]. eapply (NoDup_lookup _ _ _ (ResolvedExchange.operation_id a)).
  - done.
  - by rewrite list_lookup_fmap, Ha.
  - rewrite list_lookup_fmap, Hb. simpl. by rewrite Heq.
Qed.

Lemma ledger_run_spaced l fs l' :
  ledger_run l fs l' → spaced (applied_history l) → spaced (settled_history l) →
  spaced (applied_history l') ∧ spaced (settled_history l').
Proof.
  induction 1 as [l|l1 f l2 fs l3 Hstep Hrun IH]; [done|]. intros Ha Hs.
  destruct Hstep; simpl in *; auto using spaced_snoc.
Qed.

Lemma ledger_step_history l f l' :
  ledger_step l f l' →
  applied_history l' = applied_history l ++ applied_in [f] ∧
  settled_history l' = settled_history l ++ settled_in [f].
Proof. intros []; simpl; by rewrite ?app_nil_r. Qed.

Lemma ledger_run_history l fs l' :
  ledger_run l fs l' →
  applied_history l' = applied_history l ++ applied_in fs ∧
  settled_history l' = settled_history l ++ settled_in fs.
Proof.
  induction 1 as [l|l1 f l2 fs l3 Hstep%ledger_step_history Hrun [Ha Hs]].
  { simpl. by rewrite !app_nil_r. }
  destruct Hstep as [Ha' Hs']. rewrite Ha, Hs, Ha', Hs', <-!(assoc_L (++)).
  unfold applied_in, settled_in. by rewrite <-!omap_app.
Qed.

(** Every answer of a run repeats a result recorded before it. *)
Lemma ledger_run_answers l fs l' k f :
  ledger_run l fs l' → fs !! k = Some f →
  match f with
  | FactReplayed op kind res => recorded (applied_history l ++ applied_in (take k fs)) op kind res
  | FactDuplicate op kind res => recorded (settled_history l ++ settled_in (take k fs)) op kind res
  | _ => True
  end.
Proof.
  intros Hrun Hk. rewrite <-(take_drop_middle fs k f Hk) in Hrun.
  assert (∃ l1 l2, ledger_run l (take k fs) l1 ∧ ledger_step l1 f l2) as (l1 & l2 & Hpre & Hstep).
  { clear Hk. revert Hrun. generalize (take k fs) as pre, (drop (Datatypes.S k) fs) as post.
    intros pre post. revert l. induction pre as [|g pre IH]; intros l Hrun; inversion Hrun; subst.
    - exists l, l2. split; [constructor|done].
    - destruct (IH l2) as (l3 & l4 & ? & ?); [done|]. exists l3, l4. split; [by econstructor|done]. }
  destruct (ledger_run_history _ _ _ Hpre) as [Ha Hs]. rewrite <-Ha, <-Hs.
  by destruct Hstep.
Qed.

(** ** Hosts of one entity *)

(** What the substrate relies on in a participant: its initial journal is empty, the
    journal is a field of its state, and its transitions leave the journal to the
    substrate, withdrawals of what it owes apart. *)
Class ParticipantLaws {S} (participant : AgentExchangeParticipant S) : Prop := {
  law_journal_field s j :
    exchange_journal participant (with_exchange_journal participant s j) = j;
  law_initialize address now :
    exchange_journal participant (initialize participant address now) = AgentExchangeJournal.new;
  law_apply s envelope now :
    keeps_journal (exchange_journal participant s)
      (exchange_journal participant (apply participant s envelope now).1);
  law_settle s envelope res now :
    keeps_journal (exchange_journal participant s)
      (exchange_journal participant (settle_consequence participant s envelope res now).1);
  law_seal before after now :
    keeps_journal (exchange_journal participant after)
      (exchange_journal participant (seal participant before after now));
}.

Section hosts.
Context {St S : Type} `{EqDecision S}.
Context (ops : DurableStateStore St S) (participant : AgentExchangeParticipant S).
Context (sanitize : AgentTelemetryContext.t → AgentTelemetryContext.t).
Context (address : AgentEntityAddress.t) (policy : AgentSchemaPolicy.t).
Let pid := AgentEntityAddress.persistence_id address.

Abbreviation host := (AgentExchangeHost.t St S).
Abbreviation journal := (exchange_journal participant).
Implicit Types self : host.

Definition run_call (c : HostCall S) : op host AgentChoreographyError.t HostAnswer :=
  match c with
  | Recover now =>
      do! _ := AgentExchangeHost.recover ops participant address policy now in op_ret Recovered
  | Initiate now transition =>
      do! inits := AgentExchangeHost.initiate ops participant address now transition in
      op_ret (Initiated inits)
  | Accept envelope now =>
      do! reply := AgentExchangeHost.accept ops participant sanitize address policy envelope now in
      op_ret (Replied reply)
  | Settle reply now =>
      do! settlement := AgentExchangeHost.settle ops participant sanitize address policy reply now in
      op_ret (Resolved settlement)
  | NoteRefusal op code now =>
      do! _ := AgentExchangeHost.record_unsettleable_refusal ops participant address op code now in
      op_ret Noted
  | NoteFailure op code now =>
      do! _ := AgentExchangeHost.record_delivery_failure ops participant address op code now in
      op_ret Noted
  end.

(** The facts of an answered call. *)
Definition facts_of (c : HostCall S) (res : result AgentChoreographyError.t HostAnswer) : list Fact :=
  match c, res with
  | Accept envelope now, Ok (Replied reply) =>
      let op := AgentExchangeEnvelope.operation_id envelope in
      let kind := AgentExchangeEnvelope.kind envelope in
      let res := AgentExchangeReply.result reply in
      if AgentExchangeReply.is_replayed reply then [FactReplayed op kind res]
      else if AgentExchangeHost.memoizes participant envelope res then
        [FactApplied (ResolvedExchange.mk op kind res now)]
      else []
  | Settle reply now, Ok (Resolved (Settled _ res)) =>
      [FactSettled (ResolvedExchange.mk (AgentExchangeReply.operation_id reply)
                      (AgentExchangeReply.kind reply) res now)]
  | Settle reply _, Ok (Resolved (AlreadySettled res)) =>
      [FactDuplicate (AgentExchangeReply.operation_id reply) (AgentExchangeReply.kind reply) res]
  | _, _ => []
  end.

Lemma settled_fact c res r :
  FactSettled r ∈ facts_of c res →
  ∃ reply now envelope res', c = Settle reply now ∧ res = Ok (Resolved (Settled envelope res')) ∧
    r = ResolvedExchange.mk (AgentExchangeReply.operation_id reply) (AgentExchangeReply.kind reply)
          res' now.
Proof.
  destruct c as [| |envelope now|reply now| |], res as [[| | |[env res|res|]|]|]; simpl;
    try (by intros ?%not_elem_of_nil).
  - repeat case_match; try (by intros ?%not_elem_of_nil); by intros ?%list_elem_of_singleton.
  - intros [= ->]%list_elem_of_singleton. by exists reply, now, env, res.
  - by intros ?%list_elem_of_singleton.
Qed.

(** The transition of an entry point leaves the journal alone, withdrawals apart. *)
Definition call_behaves (c : HostCall S) : Prop :=
  match c with
  | Initiate _ transition => ∀ s s' envelopes,
      transition s = Ok (s', envelopes) → keeps_journal (journal s) (journal s')
  | _ => True
  end.

(** The participant, and the transition of the call, withdraw nothing. *)
Definition withdraws_nothing (c : HostCall S) : Prop :=
  (∀ s envelope now, pending_ops (journal s) ⊆
     pending_ops (journal (apply participant s envelope now).1)) ∧
  (∀ s envelope res now, pending_ops (journal s) ⊆
     pending_ops (journal (settle_consequence participant s envelope res now).1)) ∧
  (∀ before after now, pending_ops (journal after) ⊆
     pending_ops (journal (seal participant before after now))) ∧
  match c with
  | Initiate _ transition => ∀ s s' envelopes,
      transition s = Ok (s', envelopes) → pending_ops (journal s) ⊆ pending_ops (journal s')
  | _ => True
  end.

Context (view : St → PersistenceId.t → option (StateRecord.t S)).
Context `{!DurableStoreLaws ops view, !ParticipantLaws participant}.

(** The record a host would recover now. *)
Definition caches (st : St) (rec : StateRecord.t S) : Prop :=
  match view st pid with
  | Some r => rec = r
  | None => ∃ now, rec = StateRecord.missing (initialize participant address now)
  end.

Definition stored_journal (st : St) : AgentExchangeJournal.t :=
  match view st pid with
  | Some rec => journal (StateRecord.state rec)
  | None => AgentExchangeJournal.new
  end.

Lemma caches_journal st rec :
  caches st rec → journal (StateRecord.state rec) = stored_journal st.
Proof.
  unfold caches, stored_journal. destruct (view st pid); [by intros ->|].
  intros [now ->]. apply law_initialize.
Qed.

Lemma host_caches_revision st rec :
  caches st rec → StateRecord.revision rec = record_revision (view st pid).
Proof. unfold caches. destruct (view st pid); [by intros ->|by intros [now ->]]. Qed.

(** The call changed no record; the host keeps its own, drops it, or has the stored one. *)
Definition idle self self' : Prop :=
  (∀ pid', view (AgentExchangeHost.store self') pid' = view (AgentExchangeHost.store self) pid') ∧
  ∀ rec, AgentExchangeHost.record self' = Some rec →
    AgentExchangeHost.record self = Some rec ∨ caches (AgentExchangeHost.store self') rec.

(** The call wrote [next] over the record it had cached. *)
Definition wrote (rec : StateRecord.t S) (next : S) self self' : Prop :=
  AgentExchangeHost.record self = Some rec ∧
  record_revision (view (AgentExchangeHost.store self) pid) = StateRecord.revision rec ∧
  let rec' := StateRecord.new next (Revision_next (StateRecord.revision rec)) in
  AgentExchangeHost.record self' = Some rec' ∧ view (AgentExchangeHost.store self') pid = Some rec'.

Lemma idle_refl self : idle self self.
Proof. split; [done|]. by left. Qed.

Lemma persist_cases rec next self self' r :
  AgentExchangeHost.record self = Some rec →
  AgentExchangeHost.persist ops address next (StateRecord.revision rec) self = (self', r) →
  (r = Ok tt ∧ wrote rec next self self') ∨ (idle self self' ∧ ∃ e, r = Err e).
Proof.
  intros Hrec. unfold AgentExchangeHost.persist, AgentExchangeHost.persistence_id. fold pid.
  destruct (compare_and_set ops _ _ _ _) as [st [rec'|e]] eqn:Hcas; intros [= <- <-].
  - apply law_cas_ok in Hcas as (Hrev & -> & Hv & _). left. split; [done|]. by split_and!.
  - right. split; [|by eexists]. split; [exact (law_cas_err _ _ _ _ _ _ Hcas)|].
    simpl. intros rec' Hr. left. by destruct e.
Qed.

(** What a write does to the journal: the facts it makes true, and what stays pending. *)
Record journal_effect (c : HostCall S) (fs : list Fact) (j j' : AgentExchangeJournal.t) : Prop := {
  je_applied : AgentExchangeJournal.applied j' =
    foldl push_resolved (AgentExchangeJournal.applied j) (applied_in fs);
  je_settled : AgentExchangeJournal.settled j' =
    foldl push_resolved (AgentExchangeJournal.settled j) (settled_in fs);
  je_new f : f ∈ fs → match f with
    | FactApplied r => find_resolved (AgentExchangeJournal.applied j)
                         (ResolvedExchange.operation_id r) = None
    | FactSettled r => find_resolved (AgentExchangeJournal.settled j)
                         (ResolvedExchange.operation_id r) = None
    | _ => False
    end;
  je_wf : journal_wf j → journal_wf j';
  je_pending : withdraws_nothing c → ∀ op, op ∈ pending_ops j →
    op ∈ pending_ops j' ∨ op ∈ resolved_ops (settled_in fs);
}.

(** What an answer without a write relies on. *)
Definition answered_from (j : AgentExchangeJournal.t) (f : Fact) : Prop :=
  match f with
  | FactReplayed op kind res => recorded (AgentExchangeJournal.applied j) op kind res
  | FactDuplicate op kind res => recorded (AgentExchangeJournal.settled j) op kind res
  | _ => False
  end.

Definition call_outcome (c : HostCall S) (fs : list Fact) self self' : Prop :=
  (idle self self' ∧ ∀ f, f ∈ fs → ∃ rec, AgentExchangeHost.record self = Some rec ∧
     answered_from (journal (StateRecord.state rec)) f) ∨
  (∃ rec next, wrote rec next self self' ∧
     journal_effect c fs (journal (StateRecord.state rec)) (journal next)).

Lemma on_journal_initiate envelope now s s' i :
  AgentExchangeHost.on_journal participant (AgentExchangeJournal.initiate envelope now) s =
    Ok (s', i) →
  owes_more (journal s) (journal s').
Proof.
  unfold AgentExchangeHost.on_journal.
  destruct (AgentExchangeJournal.initiate envelope now (journal s)) as [j' [a|e]] eqn:Hi; [|done].
  intros [= <- _]. rewrite law_journal_field. by eapply initiate_owes_more.
Qed.

Lemma record_owed_owes_more envelopes now s s' inits :
  AgentExchangeHost.record_owed participant address s envelopes now = Ok (s', inits) →
  owes_more (journal s) (journal s').
Proof.
  revert s inits. induction envelopes as [|envelope envelopes IH]; intros s inits; simpl.
  - by intros [= <- _].
  - case_decide; [done|].
    intros ([s1 i] & Hi%on_journal_initiate & Hrest)%result_bind_ok.
    apply result_bind_ok in Hrest as ([s2 inits'] & Hrec & [= -> _]).
    apply IH in Hrec. by etrans.
Qed.

Lemma owes_more_pending j j' : owes_more j j' → pending_ops j ⊆ pending_ops j'.
Proof.
  intros [_ _ [l Hl] _]. rewrite Hl, fmap_app. intros op Hop. apply elem_of_app. by left.
Qed.

(** A host call that begins by reading the cached record. *)
Lemma recovered_inv {A} (k : StateRecord.t S → op host AgentChoreographyError.t A) self self' r :
  op_bind (AgentExchangeHost.recovered_record address) k self = (self', r) →
  (∃ rec, AgentExchangeHost.record self = Some rec ∧ k rec self = (self', r)) ∨
  (self' = self ∧ ∃ e, r = Err e).
Proof.
  unfold op_bind, AgentExchangeHost.recovered_record.
  destruct (AgentExchangeHost.record self) as [rec|] eqn:Hr; simpl; [by eauto|].
  intros [= <- <-]. eauto.
Qed.

Lemma lift_inv {A B} (x : AgentChoreographyResult A)
    (k : A → op host AgentChoreographyError.t B) self self' r :
  op_bind (op_lift x) k self = (self', r) →
  (∃ a, x = Ok a ∧ k a self = (self', r)) ∨ (self' = self ∧ ∃ e, r = Err e).
Proof. unfold op_bind, op_lift. destruct x; [by eauto|]. intros [= <- <-]. eauto. Qed.

Lemma call_idle c fs self self' : idle self self' → fs = [] → call_outcome c fs self self'.
Proof. intros Hi ->. left. split; [done|]. by intros f Hf%not_elem_of_nil. Qed.

(** A call that ends by writing. *)
Lemma call_writes c fs rec next self self' r :
  AgentExchangeHost.record self = Some rec →
  AgentExchangeHost.persist ops address next (StateRecord.revision rec) self = (self', r) →
  journal_effect c fs (journal (StateRecord.state rec)) (journal next) →
  (r = Ok tt ∧ call_outcome c fs self self') ∨ (idle self self' ∧ ∃ e, r = Err e).
Proof.
  intros Hrec Hp He. destruct (persist_cases _ _ _ _ _ Hrec Hp) as [[-> Hw]|[Hi He']]; [left|by right].
  split; [done|]. right. by exists rec, next.
Qed.

Lemma recover_outcome now self self' r :
  AgentExchangeHost.recover ops participant address policy now self = (self', r) → idle self self'.
Proof.
  unfold AgentExchangeHost.recover, AgentExchangeHost.persistence_id. fold pid.
  destruct (load ops _ pid) as [st loaded] eqn:Hl. apply law_load in Hl as [Hv Hl].
  set (checked := result_bind _ _). destruct checked as [rec|e] eqn:Hc; intros [= <- <-].
  - split; [exact Hv|]. simpl. intros rec' [= <-]. right. unfold caches. rewrite Hv.
    subst checked. destruct loaded as [o|]; [|done]. simpl in Hc. rewrite <-(Hl o eq_refl).
    destruct o as [rec0|]; [|injection Hc as <-; by eexists].
    apply result_bind_ok in Hc as (_ & _ & Hc). apply result_bind_ok in Hc as (_ & _ & [= <-]). done.
  - split; [exact Hv|]. by left.
Qed.

Lemma initiate_effect c now transition s s1 s2 envelopes inits :
  c = Initiate now transition → call_behaves c →
  transition s = Ok (s1, envelopes) →
  AgentExchangeHost.record_owed participant address s1 envelopes now = Ok (s2, inits) →
  journal_effect c [] (journal s) (journal (seal participant s s2 now)).
Proof.
  intros -> Hb Ht Ho. pose proof (Hb _ _ _ Ht) as Hk. apply record_owed_owes_more in Ho.
  pose proof (law_seal s s2 now) as Hs. split; simpl.
  - by rewrite (kj_applied _ _ Hs), (om_applied _ _ Ho), (kj_applied _ _ Hk).
  - by rewrite (kj_settled _ _ Hs), (om_settled _ _ Ho), (kj_settled _ _ Hk).
  - by intros f Hf%not_elem_of_nil.
  - intros Hwf. eapply keeps_journal_wf, (om_wf _ _ Ho), keeps_journal_wf; done.
  - intros (_ & _ & Hseal & Htr) op Hop. left. apply Hseal, (owes_more_pending _ _ Ho).
    by eapply Htr.
Qed.

Lemma initiate_outcome now transition self self' r :
  call_behaves (Initiate now transition) →
  AgentExchangeHost.initiate ops participant address now transition self = (self', r) →
  call_outcome (Initiate now transition) [] self self'.
Proof.
  intros Hb. unfold AgentExchangeHost.initiate.
  intros [(rec & Hrec & Hk)|[-> _]]%recovered_inv; [|by apply call_idle; [apply idle_refl|]].
  apply lift_inv in Hk as [([s1 envelopes] & Ht & Hk)|[-> _]];
    [|by apply call_idle; [apply idle_refl|]].
  apply lift_inv in Hk as [([s2 inits] & Ho & Hk)|[-> _]];
    [|by apply call_idle; [apply idle_refl|]].
  unfold op_bind, op_ret in Hk.
  destruct (AgentExchangeHost.persist _ _ _ _ _) as [self1 r1] eqn:Hp.
  pose proof (initiate_effect _ now transition _ _ _ _ _ eq_refl Hb Ht Ho) as He.
  destruct (call_writes _ _ _ _ _ _ _ Hrec Hp He) as [[-> Hw]|[Hi [e ->]]];
    injection Hk as <- <-; [done|by apply call_idle].
Qed.

Lemma note_outcome c f self self' r :
  (∀ j j' changed, f j = (j', changed) →
     AgentExchangeJournal.applied j' = AgentExchangeJournal.applied j ∧
     AgentExchangeJournal.settled j' = AgentExchangeJournal.settled j ∧
     pending_ops j' = pending_ops j) →
  AgentExchangeHost.record_if_changed ops participant address f self = (self', r) →
  call_outcome c [] self self'.
Proof.
  intros Hf. unfold AgentExchangeHost.record_if_changed.
  intros [(rec & Hrec & Hk)|[-> _]]%recovered_inv; [|by apply call_idle; [apply idle_refl|]].
  destruct (f (journal (StateRecord.state rec))) as [j' []] eqn:Hj;
    [|injection Hk as <- <-; by apply call_idle; [apply idle_refl|]].
  destruct (Hf _ _ _ Hj) as (Ha & Hs & Hp).
  edestruct (call_writes c [] _ _ _ _ _ Hrec Hk) as [[_ Hw]|[Hi _]]; [|done|by apply call_idle].
  rewrite law_journal_field. split; simpl; [done|done|by intros f' ?%not_elem_of_nil| |].
  - intros [Hlp Hls Hla Hnp Hns Hna Hd]. split; rewrite ?Ha, ?Hs, ?Hp; try done.
    rewrite <-(length_fmap PendingExchange.operation_id), Hp, length_fmap. done.
  - intros _ op. rewrite Hp. by left.
Qed.

Lemma record_failure_journal (j : AgentExchangeJournal.t) op code now j' changed :
  (let (pending, changed) :=
     AgentExchangeJournal.record_failure (AgentExchangeJournal.pending j) op code now in
   (AgentExchangeJournal.with_pending j pending, changed)) = (j', changed) →
  AgentExchangeJournal.applied j' = AgentExchangeJournal.applied j ∧
  AgentExchangeJournal.settled j' = AgentExchangeJournal.settled j ∧ pending_ops j' = pending_ops j.
Proof.
  destruct (AgentExchangeJournal.record_failure _ op code now) as [l c] eqn:Hr.
  intros [= <- <-]. split_and!; [done|done|]. by eapply record_failure_ops.
Qed.

(** The facts of a new acceptance. *)
Definition acceptance_facts (envelope : AgentExchangeEnvelope.t) (now : Z)
    (res : AgentExchangeResult.t) : list Fact :=
  if AgentExchangeHost.memoizes participant envelope res then
    [FactApplied (ResolvedExchange.mk (AgentExchangeEnvelope.operation_id envelope)
                    (AgentExchangeEnvelope.kind envelope) res now)]
  else [].

Definition memoized (envelope : AgentExchangeEnvelope.t) (now : Z) (res : AgentExchangeResult.t)
    (s : S) : S :=
  if AgentExchangeHost.memoizes participant envelope res then
    with_exchange_journal participant s
      (AgentExchangeJournal.record_applied (journal s) (AgentExchangeEnvelope.operation_id envelope)
         (AgentExchangeEnvelope.kind envelope) res now)
  else s.

Lemma memoized_effect envelope now res s :
  find_resolved (AgentExchangeJournal.applied (journal s))
    (AgentExchangeEnvelope.operation_id envelope) = None →
  let j' := journal (memoized envelope now res s) in
  AgentExchangeJournal.applied j' =
    foldl push_resolved (AgentExchangeJournal.applied (journal s))
      (applied_in (acceptance_facts envelope now res)) ∧
  AgentExchangeJournal.settled j' = AgentExchangeJournal.settled (journal s) ∧
  AgentExchangeJournal.pending j' = AgentExchangeJournal.pending (journal s) ∧
  (journal_wf (journal s) → journal_wf j').
Proof.
  intros Hf. unfold memoized, acceptance_facts.
  destruct (AgentExchangeHost.memoizes participant envelope res); [|done].
  rewrite law_journal_field. split_and!; [done..|]. intros Hwf. by apply record_applied_wf.
Qed.

Lemma accept_effect envelope now s s4 s1 tr inits owed :
  apply participant s envelope now = (s1, tr) →
  find_resolved (AgentExchangeJournal.applied (journal s))
    (AgentExchangeEnvelope.operation_id envelope) = None →
  AgentExchangeHost.record_owed participant address
    (memoized envelope now (AgentExchangeTransition.result tr) (seal participant s s1 now)) owed now =
    Ok (s4, inits) →
  journal_effect (Accept envelope now)
    (acceptance_facts envelope now (AgentExchangeTransition.result tr)) (journal s) (journal s4).
Proof.
  intros Hap Hf Ho. apply record_owed_owes_more in Ho.
  set (res := AgentExchangeTransition.result tr) in *. set (s2 := seal participant s s1 now) in *.
  assert (keeps_journal (journal s) (journal s2)) as Hk.
  { transitivity (journal s1); [|apply law_seal].
    replace s1 with (apply participant s envelope now).1 by by rewrite Hap. apply law_apply. }
  destruct (memoized_effect envelope now res s2) as (Ha & Hs & Hp & Hwf);
    [by rewrite (kj_applied _ _ Hk)|].
  split.
  - by rewrite (om_applied _ _ Ho), Ha, (kj_applied _ _ Hk).
  - rewrite (om_settled _ _ Ho), Hs, (kj_settled _ _ Hk).
    unfold acceptance_facts. by destruct (AgentExchangeHost.memoizes _ _ _).
  - unfold acceptance_facts. intros f. destruct (AgentExchangeHost.memoizes _ _ _);
      [|by intros ?%not_elem_of_nil]. by intros ->%list_elem_of_singleton.
  - intros Hj. apply (om_wf _ _ Ho), Hwf. by eapply keeps_journal_wf.
  - intros (Hwa & _ & Hws & _) op Hop. left. apply (owes_more_pending _ _ Ho). rewrite Hp.
    apply Hws. specialize (Hwa s envelope now op Hop). by rewrite Hap in Hwa.
Qed.

Lemma accept_new_outcome envelope now rec self self' r :
  AgentExchangeHost.record self = Some rec →
  find_resolved (AgentExchangeJournal.applied (journal (StateRecord.state rec)))
    (AgentExchangeEnvelope.operation_id envelope) = None →
  AgentExchangeHost.accept_new ops participant sanitize address envelope now rec self = (self', r) →
  (∃ reply, r = Ok reply ∧ AgentExchangeReply.is_replayed reply = false ∧
     call_outcome (Accept envelope now)
       (acceptance_facts envelope now (AgentExchangeReply.result reply)) self self') ∨
  (idle self self' ∧ ∃ e, r = Err e).
Proof.
  intros Hrec Hf. unfold AgentExchangeHost.accept_new.
  destruct (apply participant _ envelope now) as [s1 tr] eqn:Hap.
  set (owed := propagate_exchange_telemetry _ _ _).
  set (res := AgentExchangeTransition.result tr).
  intros [([s4 inits] & Ho & Hk)|[-> He]]%lift_inv; [|right; split; [apply idle_refl|done]].
  pose proof (accept_effect envelope now _ _ _ _ _ _ Hap Hf Ho) as Heff. fold res in Heff.
  destruct (negb _ && _ && _) eqn:Hskip.
  - injection Hk as <- <-. left. eexists. split_and!; [done|done|]. apply call_idle; [apply idle_refl|].
    unfold acceptance_facts. simpl. by destruct (AgentExchangeHost.memoizes _ _ _).
  - unfold op_bind, op_ret in Hk.
    destruct (AgentExchangeHost.persist _ _ _ _ _) as [self1 r1] eqn:Hp.
    destruct (call_writes _ _ _ _ _ _ _ Hrec Hp Heff) as [[-> Hw]|[Hi [e ->]]];
      injection Hk as <- <-; [left|right; by eauto]. eexists. split_and!; done.
Qed.

(** Every answer of [accept]: an error changes nothing, a replay comes from the cached
    log, a new acceptance is the outcome above. *)
Lemma accept_outcome envelope now self self' r :
  AgentExchangeHost.accept ops participant sanitize address policy envelope now self = (self', r) →
  (∃ reply, r = Ok reply ∧ call_outcome (Accept envelope now)
     (facts_of (Accept envelope now) (Ok (Replied reply))) self self') ∨
  (idle self self' ∧ ∃ e, r = Err e).
Proof.
  unfold AgentExchangeHost.accept.
  intros [(? & _ & Hk)|[-> He]]%lift_inv; [|right; split; [apply idle_refl|done]].
  apply lift_inv in Hk as [(? & _ & Hk)|[-> He]]; [|right; split; [apply idle_refl|done]].
  case_decide; [injection Hk as <- <-; right; split; [apply idle_refl|by eexists]|].
  apply (lift_inv (Ok tt)) in Hk as [(? & _ & Hk)|[-> He]]; [|right; split; [apply idle_refl|done]].
  apply recovered_inv in Hk as [(rec & Hrec & Hk)|[-> He]];
    [|right; split; [apply idle_refl|done]].
  apply lift_inv in Hk as [(o & Ho & Hk)|[-> He]]; [|right; split; [apply idle_refl|done]].
  unfold AgentExchangeJournal.applied_result, AgentExchangeJournal.resolved_result in Ho.
  destruct (find_resolved _ _) as [found|] eqn:Hf.
  - apply result_bind_ok in Ho as ([] & Hc & [= <-]). injection Hk as <- <-. left.
    eexists. split; [done|]. simpl. left. split; [apply idle_refl|].
    intros f ->%list_elem_of_singleton. exists rec. split; [done|]. simpl.
    unfold check_kind in Hc. case_decide; [|done]. apply find_resolved_Some in Hf as [??].
    by exists found.
  - injection Ho as <-.
    destruct (accept_new_outcome _ _ _ _ _ _ Hrec Hf Hk) as [(reply & -> & Hr & Hc)|?]; [left|by right].
    exists reply. split; [done|]. simpl. by rewrite Hr.
Qed.

Lemma settle_effect reply now s j p rest s2 s3 owed inits :
  let op := AgentExchangeReply.operation_id reply in
  let res := AgentExchangeReply.result reply in
  let r := ResolvedExchange.mk op (AgentExchangeReply.kind reply) res now in
  find_resolved (AgentExchangeJournal.settled (journal s)) op = None →
  PendingExchange.operation_id p = op →
  p :: rest ≡ₚ AgentExchangeJournal.pending (journal s) →
  rest `sublist_of` AgentExchangeJournal.pending (journal s) →
  j = AgentExchangeJournal.mk (AgentExchangeJournal.schema_version (journal s)) rest
        (push_resolved (AgentExchangeJournal.settled (journal s)) r)
        (AgentExchangeJournal.applied (journal s)) →
  s2 = (settle_consequence participant (with_exchange_journal participant s j)
          (PendingExchange.envelope p) res now).1 →
  AgentExchangeHost.record_owed participant address s2 owed now = Ok (s3, inits) →
  journal_effect (Settle reply now) [FactSettled r] (journal s) (journal (seal participant s s3 now)).
Proof.
  intros op res r Hf Hop Hperm Hsub Hj Hs2 Ho. apply record_owed_owes_more in Ho.
  assert (keeps_journal j (journal s2)) as Hk.
  { rewrite Hs2. rewrite <-(law_journal_field (participant := participant) s j) at 1. apply law_settle. }
  pose proof (law_seal s s3 now) as Hs. split; simpl.
  - by rewrite (kj_applied _ _ Hs), (om_applied _ _ Ho), (kj_applied _ _ Hk), Hj.
  - by rewrite (kj_settled _ _ Hs), (om_settled _ _ Ho), (kj_settled _ _ Hk), Hj.
  - by intros f ->%list_elem_of_singleton.
  - intros Hwf. eapply keeps_journal_wf, (om_wf _ _ Ho), keeps_journal_wf; [done..|].
    rewrite Hj. by eapply settled_wf.
  - intros (_ & Hwc & Hws & _) op' Hop'. rewrite <-Hperm in Hop'. simpl in Hop'.
    apply elem_of_cons in Hop' as [->|Hop']; [right; rewrite Hop; by left|left].
    apply Hws, (owes_more_pending _ _ Ho). rewrite Hs2. apply Hwc.
    by rewrite law_journal_field, Hj.
Qed.

Lemma settle_outcome reply now self self' r :
  AgentExchangeHost.settle ops participant sanitize address policy reply now self = (self', r) →
  (∃ settlement, r = Ok settlement ∧ call_outcome (Settle reply now)
     (facts_of (Settle reply now) (Ok (Resolved settlement))) self self') ∨
  (idle self self' ∧ ∃ e, r = Err e).
Proof.
  unfold AgentExchangeHost.settle.
  intros [(? & _ & Hk)|[-> He]]%lift_inv; [|right; split; [apply idle_refl|done]].
  apply lift_inv in Hk as [(? & _ & Hk)|[-> He]]; [|right; split; [apply idle_refl|done]].
  apply recovered_inv in Hk as [(rec & Hrec & Hk)|[-> He]]; [|right; split; [apply idle_refl|done]].
  apply lift_inv in Hk as [([s1 settlement] & Hj & Hk)|[-> He]];
    [|right; split; [apply idle_refl|done]].
  unfold AgentExchangeHost.on_journal in Hj.
  destruct (AgentExchangeJournal.settle _ _ _ _ _) as [j' [a|e]] eqn:Hset; [|done].
  injection Hj as <- <-.
  destruct (settle_cases _ _ _ _ _ _ _ Hset) as
    [(res & [= ->] & -> & found & Hx)|[([= ->] & ->)|[(p & rest & [= ->] & Hf & Hop & Hperm & Hsub & Hkind & ->)
    |[e [=]]]]].
  - injection Hk as <- <-. left. eexists. split; [done|]. left. split; [apply idle_refl|].
    intros f ->%list_elem_of_singleton. exists rec. split; [done|]. by exists found.
  - injection Hk as <- <-. left. eexists. split; [done|]. apply call_idle; [apply idle_refl|done].
  - apply lift_inv in Hk as [(? & _ & Hk)|[-> He]]; [|right; split; [apply idle_refl|done]].
    destruct (settle_consequence participant _ _ _ now) as [s2 owed] eqn:Hc.
    apply lift_inv in Hk as [([s3 inits] & Ho & Hk)|[-> He]]; [|right; split; [apply idle_refl|done]].
    pose proof (settle_effect reply now _ _ p rest s2 s3 _ _ Hf Hop Hperm Hsub eq_refl
      ltac:(by rewrite Hc) Ho) as Heff.
    unfold op_bind, op_ret in Hk.
    destruct (AgentExchangeHost.persist _ _ _ _ _) as [self1 r1] eqn:Hp.
    destruct (call_writes _ _ _ _ _ _ _ Hrec Hp Heff) as [[-> Hw]|[Hi [e ->]]];
      injection Hk as <- <-; [left; by eauto|right; by eauto].
Qed.

(** Every call is covered: a call is its host operation with the answer wrapped. *)
Lemma wrapped_inv {A} (m : op host AgentChoreographyError.t A) (wrap : A → HostAnswer) self self' r :
  op_bind m (fun a => op_ret (wrap a)) self = (self', r) →
  ∃ r0, m self = (self', r0) ∧
    r = match r0 with Ok a => Ok (wrap a) | Err e => Err e end.
Proof using Type.
  unfold op_bind, op_ret. destruct (m self) as [self1 [a|e]]; intros [= <- <-]; by eexists.
Qed.

Lemma call_cases c self self' r :
  call_behaves c → run_call c self = (self', r) → call_outcome c (facts_of c r) self self'.
Proof.
  intros Hb. destruct c as [now|now transition|envelope now|reply now|op code now|op code now];
    simpl run_call; intros (r0 & Hrun & ->)%wrapped_inv.
  - apply call_idle; [by eapply recover_outcome|done].
  - by apply initiate_outcome in Hrun.
  - apply accept_outcome in Hrun as [(reply & -> & Hc)|[Hi [e ->]]]; [done|by apply call_idle].
  - apply settle_outcome in Hrun as [(settlement & -> & Hc)|[Hi [e ->]]]; [done|by apply call_idle].
  - unfold AgentExchangeHost.record_unsettleable_refusal in Hrun.
    eapply note_outcome in Hrun; [exact Hrun|]. intros j j' changed. apply record_failure_journal.
  - unfold AgentExchangeHost.record_delivery_failure in Hrun.
    eapply note_outcome in Hrun; [exact Hrun|]. intros j j' changed. apply record_failure_journal.
Qed.

(** ** Fleets of hosts

    The hosts of one entity - the owner of its shard, and whoever still believes to be
    one - share the store, each with a cached record of its own.  Every host call awaits
    one store call, so a run is a sequence of whole calls and of hosts losing their
    memory. *)

Inductive SagaEvent :=
| Lost (i : nat)
| Call (i : nat) (c : HostCall S).

Definition fleet : Type := St * list (option (StateRecord.t S)).

Definition saga_step (f : fleet) (ev : SagaEvent) : fleet * list Fact :=
  match ev with
  | Lost i => ((f.1, <[i := None]> f.2), [])
  | Call i c =>
      match f.2 !! i with
      | None => (f, [])
      | Some record =>
          let (self, res) := run_call c (AgentExchangeHost.mk f.1 record) in
          ((AgentExchangeHost.store self, <[i := AgentExchangeHost.record self]> f.2),
           facts_of c res)
      end
  end.

Fixpoint saga_run (f : fleet) (evs : list SagaEvent) : fleet * list Fact :=
  match evs with
  | [] => (f, [])
  | ev :: evs =>
      let (f, fs) := saga_step f ev in
      let (f, gs) := saga_run f evs in
      (f, fs ++ gs)
  end.

Definition event_behaves (ev : SagaEvent) : Prop :=
  match ev with Call _ c => call_behaves c | Lost _ => True end.

Definition event_withdraws_nothing (ev : SagaEvent) : Prop :=
  match ev with Call _ c => withdraws_nothing c | Lost _ => True end.

Abbreviation stored_revision st := (record_revision (view st pid)).
Implicit Types f : fleet.
Implicit Types l : Ledger.

(** The stored journal is the window of the ledger; what hosts cache is part of it and
    no newer than the store; [n] more writes do not exhaust the revisions. *)
Record fleet_inv (n : Z) f l : Prop := {
  fi_wf : journal_wf (stored_journal f.1);
  fi_applied : AgentExchangeJournal.applied (stored_journal f.1) = window (applied_history l);
  fi_settled : AgentExchangeJournal.settled (stored_journal f.1) = window (settled_history l);
  fi_room : 0 <= stored_revision f.1 ∧ stored_revision f.1 + n <= u64_max;
  fi_cached i rec : f.2 !! i = Some (Some rec) →
    StateRecord.revision rec <= stored_revision f.1 ∧
    (StateRecord.revision rec = stored_revision f.1 → caches f.1 rec) ∧
    AgentExchangeJournal.applied (journal (StateRecord.state rec)) ⊆ applied_history l ∧
    AgentExchangeJournal.settled (journal (StateRecord.state rec)) ⊆ settled_history l;
}.

Lemma caches_subset f l n rec :
  fleet_inv n f l → caches f.1 rec →
  AgentExchangeJournal.applied (journal (StateRecord.state rec)) ⊆ applied_history l ∧
  AgentExchangeJournal.settled (journal (StateRecord.state rec)) ⊆ settled_history l.
Proof.
  intros Hinv Hc. rewrite (caches_journal _ _ Hc), (fi_applied _ _ _ Hinv), (fi_settled _ _ _ Hinv).
  split; apply sublist_subseteq, window_sublist.
Qed.

Lemma facts_of_single c r : facts_of c r = [] ∨ ∃ x, facts_of c r = [x].
Proof.
  destruct c, r as [[]|]; simpl; repeat case_match; eauto.
Qed.

(** A write extends the ledger by its facts. *)
Lemma effect_extends_ledger c fs j j' l :
  fs = [] ∨ (∃ x, fs = [x]) → journal_effect c fs j j' →
  AgentExchangeJournal.applied j = window (applied_history l) →
  AgentExchangeJournal.settled j = window (settled_history l) →
  ∃ l', ledger_run l fs l' ∧
    AgentExchangeJournal.applied j' = window (applied_history l') ∧
    AgentExchangeJournal.settled j' = window (settled_history l').
Proof.
  intros Hfs [Ha Hs Hnew _ _] Hja Hjs. destruct l as [a s]. simpl in *.
  destruct Hfs as [->|[x ->]].
  { exists (mk_ledger a s). simpl in *. rewrite Ha, Hs. split_and!; [constructor|done|done]. }
  specialize (Hnew x ltac:(by left)). destruct x as [r| |r|]; try done; simpl in *.
  - exists (mk_ledger (a ++ [r]) s). split_and!; simpl.
    + econstructor; [|constructor]. constructor. rewrite <-Hja. by apply find_resolved_None.
    + by rewrite Ha, Hja, push_resolved_window, window_window.
    + by rewrite Hs.
  - exists (mk_ledger a (s ++ [r])). split_and!; simpl.
    + econstructor; [|constructor]. constructor. rewrite <-Hjs. by apply find_resolved_None.
    + by rewrite Ha.
    + by rewrite Hs, Hjs, push_resolved_window, window_window.
Qed.

(** An answer from a cached log is a step of the ledger that changes nothing. *)
Lemma answers_extend_ledger n f l fs record :
  fs = [] ∨ (∃ x, fs = [x]) → fleet_inv n f l →
  (∃ i, f.2 !! i = Some record) →
  (∀ x, x ∈ fs → ∃ rec, record = Some rec ∧ answered_from (journal (StateRecord.state rec)) x) →
  ledger_run l fs l.
Proof.
  intros Hfs Hinv [i Hi] Hans. destruct Hfs as [->|[x ->]]; [constructor|].
  destruct (Hans x ltac:(by left)) as (rec & -> & Ha).
  destruct (fi_cached _ _ _ Hinv _ _ Hi) as (_ & _ & Hsa & Hss). destruct l as [a s].
  econstructor; [|constructor].
  destruct x; try done; destruct Ha as (r & Hr & ?); constructor; exists r; split; [by apply Hsa|done
    |by apply Hss|done].
Qed.

(** No call undoes what the invariant says about the other hosts' caches. *)
Lemma cached_after_write n f l l' i rec next (st' : St) :
  0 <= n → fleet_inv (n + 1) f l → f.2 !! i = Some (Some rec) →
  stored_revision f.1 = StateRecord.revision rec →
  let rec' := StateRecord.new next (Revision_next (StateRecord.revision rec)) in
  view st' pid = Some rec' → journal_wf (journal next) →
  AgentExchangeJournal.applied (journal next) = window (applied_history l') →
  AgentExchangeJournal.settled (journal next) = window (settled_history l') →
  applied_history l ⊆ applied_history l' → settled_history l ⊆ settled_history l' →
  fleet_inv n (st', <[i := Some rec']> f.2) l'.
Proof.
  intros Hn [Hwf Ha Hs Hroom Hc] Hi Hrev rec' Hv' Hwf' Ha' Hs' Hsa Hss.
  assert (Revision_next (StateRecord.revision rec) = stored_revision f.1 + 1) as Hnext
    by (unfold Revision_next; rewrite add_u64_small by lia; lia).
  assert (stored_journal st' = journal next) as Hj by (unfold stored_journal; by rewrite Hv').
  assert (stored_revision st' = stored_revision f.1 + 1) as Hsr by (rewrite Hv'; exact Hnext).
  split; simpl; rewrite ?Hj; [done|done|done|lia|].
  intros k r Hk. apply list_lookup_insert_Some in Hk as [(<- & [= <-] & _)|[_ Hk]].
  - simpl. split_and!; [lia|intros _; unfold caches; by rewrite Hv'|..].
    + rewrite Ha'. apply sublist_subseteq, window_sublist.
    + rewrite Hs'. apply sublist_subseteq, window_sublist.
  - destruct (Hc k r Hk) as (? & _ & ? & ?). split_and!; [lia|lia|by etrans|by etrans].
Qed.

Lemma cached_after_idle n f l i record self' :
  0 <= n → fleet_inv (n + 1) f l → f.2 !! i = Some record →
  idle (AgentExchangeHost.mk f.1 record) self' →
  fleet_inv n (AgentExchangeHost.store self', <[i := AgentExchangeHost.record self']> f.2) l.
Proof.
  intros Hn Hinv Hi [Hv Hr]. pose proof Hinv as [Hwf Ha Hs Hroom Hc]. simpl in Hv.
  assert (stored_journal (AgentExchangeHost.store self') = stored_journal f.1) as Hj
    by (unfold stored_journal; by rewrite Hv).
  assert (∀ r, caches (AgentExchangeHost.store self') r ↔ caches f.1 r) as Hcache
    by (intros r; unfold caches; by rewrite Hv).
  split; simpl; rewrite ?Hj, ?Hv; [done|done|done|lia|].
  intros k r Hk. rewrite Hcache. apply list_lookup_insert_Some in Hk as [(<- & Hrec & _)|[_ Hk]];
    [|by eapply Hc]. symmetry in Hrec.
  destruct (Hr r ltac:(congruence)) as [Hsame|Hcr]; [eapply (Hc i); simpl in Hsame; congruence|].
  apply Hcache in Hcr. pose proof (host_caches_revision _ _ Hcr). split_and!; [lia|done|..];
    by eapply caches_subset.
Qed.

Lemma ledger_run_grows l fs l' :
  ledger_run l fs l' →
  applied_history l ⊆ applied_history l' ∧ settled_history l ⊆ settled_history l'.
Proof.
  intros [-> ->]%ledger_run_history. split; intros x Hx; apply elem_of_app; by left.
Qed.

(** What a run must keep owed. *)
Definition still_owed f fs f' : Prop :=
  ∀ op, op ∈ pending_ops (stored_journal f.1) →
    op ∈ pending_ops (stored_journal f'.1) ∨ op ∈ resolved_ops (settled_in fs).

Lemma saga_step_inv n f ev f' fs l :
  0 <= n → fleet_inv (n + 1) f l → event_behaves ev → saga_step f ev = (f', fs) →
  ∃ l', ledger_run l fs l' ∧ fleet_inv n f' l' ∧
    (event_withdraws_nothing ev → still_owed f fs f').
Proof.
  intros Hn Hinv Hb. destruct ev as [i|i c]; simpl.
  - intros [= <- <-]. exists l. split_and!; [constructor| |intros _ op ?; by left].
    destruct (decide (i < length f.2)%nat) as [Hlt|Hge].
    + apply lookup_lt_is_Some in Hlt as [record Hi].
      apply (cached_after_idle n f l i record (AgentExchangeHost.mk f.1 None)); [done..|].
      by split.
    + rewrite list_insert_ge by lia. destruct Hinv as [? ? ? ? ?]. split; [done..|simpl; lia|done].
  - destruct (f.2 !! i) as [record|] eqn:Hi.
    2:{ intros [= <- <-]. exists l. split_and!; [constructor| |intros _ op ?; by left].
        destruct Hinv as [? ? ? ? ?]. split; [done..|lia|done]. }
    destruct (run_call c _) as [self' r] eqn:Hrun. intros [= <- <-].
    destruct (call_cases _ _ _ _ Hb Hrun) as [[Hidle Hans]|(rec & next & Hw & Heff)].
    + exists l. split_and!.
      * eapply answers_extend_ledger; [apply facts_of_single|done|by eexists|exact Hans].
      * by apply cached_after_idle with record.
      * intros _ op. left. unfold stored_journal in *. simpl. by rewrite (proj1 Hidle).
    + destruct Hw as (Hrec & Hrev & Hrec' & Hv'). simpl in Hrec, Hrev. subst record.
      destruct (fi_cached _ _ _ Hinv _ _ Hi) as (_ & Hc & _). specialize (Hc (eq_sym Hrev)).
      pose proof (caches_journal _ _ Hc) as Hj. rewrite Hj in Heff.
      destruct (effect_extends_ledger _ _ _ _ l (facts_of_single c r) Heff) as (l' & Hl & Ha & Hs);
        [apply Hinv|apply Hinv|].
      destruct (ledger_run_grows _ _ _ Hl) as [Hga Hgs]. exists l'. split_and!; [done| |].
      * rewrite Hrec'. eapply cached_after_write; try done. apply Heff, Hinv.
      * intros Hnw op Hop. destruct (je_pending _ _ _ _ Heff Hnw op Hop); [left|by right].
        unfold stored_journal. simpl. by rewrite Hv'.
Qed.

Lemma saga_run_inv evs f f' fs l :
  fleet_inv (Z.of_nat (length evs)) f l → Forall event_behaves evs → saga_run f evs = (f', fs) →
  ∃ l', ledger_run l fs l' ∧ fleet_inv 0 f' l' ∧
    (Forall event_withdraws_nothing evs → still_owed f fs f').
Proof.
  revert f fs l. induction evs as [|ev evs IH]; intros f fs l Hinv Hb; simpl.
  - intros [= <- <-]. exists l. split_and!; [constructor|done|]. intros _ op ?. by left.
  - destruct (saga_step f ev) as [f1 gs] eqn:Hstep. destruct (saga_run f1 evs) as [f2 hs] eqn:Hrun.
    intros [= <- <-]. rewrite length_cons, Nat2Z.inj_succ in Hinv.
    apply Forall_cons in Hb as [Hb1 Hb2].
    destruct (saga_step_inv _ _ _ _ _ _ (Nat2Z.is_nonneg _) Hinv Hb1 Hstep) as (l1 & Hl1 & Hi1 & Ho1).
    destruct (IH _ _ _ Hi1 Hb2 Hrun) as (l2 & Hl2 & Hi2 & Ho2).
    exists l2. split_and!; [by eapply ledger_run_app|done|].
    intros [Hw1 Hw2]%Forall_cons op Hop. unfold settled_in. rewrite omap_app, fmap_app, elem_of_app.
    destruct (Ho1 Hw1 op Hop) as [Hop1|]; [|by eauto]. destruct (Ho2 Hw2 op Hop1); eauto.
Qed.

Lemma initial_inv st replicas n :
  journal_wf (stored_journal st) → 0 <= stored_revision st → stored_revision st + n <= u64_max →
  fleet_inv n (st, replicate replicas None)
    (mk_ledger (AgentExchangeJournal.applied (stored_journal st))
               (AgentExchangeJournal.settled (stored_journal st))).
Proof.
  intros Hwf H0 Hroom. split; simpl; [done| | |done|].
  - symmetry. apply window_short, Hwf.
  - symmetry. apply window_short, Hwf.
  - intros i rec [Hi _]%lookup_replicate. done.
Qed.

(** C13. Exchanges refine the abstract log: however the hosts of an entity interleave
    their calls - recoveries, entry points, deliveries, replies, failure notes, with any
    arguments and any failures of the store - and lose their memory, the facts their
    callers learn are a run of the abstract log from the stored journal, and the journal
    that is stored at the end holds the window of that run's histories, within its
    bounds and without duplicates. *)
Theorem exchanges_refine_log (st : St) (replicas : nat) (evs : list SagaEvent) f facts :
  journal_wf (stored_journal st) → 0 <= stored_revision st →
  stored_revision st + Z.of_nat (length evs) <= u64_max → Forall event_behaves evs →
  saga_run (st, replicate replicas None) evs = (f, facts) →
  ∃ l, ledger_run (mk_ledger (AgentExchangeJournal.applied (stored_journal st))
                     (AgentExchangeJournal.settled (stored_journal st))) facts l ∧
    AgentExchangeJournal.applied (stored_journal f.1) = window (applied_history l) ∧
    AgentExchangeJournal.settled (stored_journal f.1) = window (settled_history l) ∧
    journal_wf (stored_journal f.1).
Proof.
  intros Hwf H0 Hroom Hb Hrun.
  destruct (saga_run_inv _ _ _ _ _ (initial_inv st replicas _ Hwf H0 Hroom) Hb Hrun)
    as (l & Hl & [? ? ? _ _] & _). exists l. by split_and!.
Qed.

(** C5. Exactly once within the window: in every such run, two applications of one
    operation - and two settlements of one - are more than 64 others apart, counting
    those in the journal at the start; every replayed reply carries the result of an
    application recorded before it, and every duplicate settlement that of a settlement
    recorded before it. *)
Theorem exchanges_exactly_once (st : St) (replicas : nat) (evs : list SagaEvent) f facts :
  journal_wf (stored_journal st) → 0 <= stored_revision st →
  stored_revision st + Z.of_nat (length evs) <= u64_max → Forall event_behaves evs →
  saga_run (st, replicate replicas None) evs = (f, facts) →
  let applied0 := AgentExchangeJournal.applied (stored_journal st) in
  let settled0 := AgentExchangeJournal.settled (stored_journal st) in
  spaced (applied0 ++ applied_in facts) ∧ spaced (settled0 ++ settled_in facts) ∧
  (∀ k op kind res, facts !! k = Some (FactReplayed op kind res) →
     recorded (applied0 ++ applied_in (take k facts)) op kind res) ∧
  (∀ k op kind res, facts !! k = Some (FactDuplicate op kind res) →
     recorded (settled0 ++ settled_in (take k facts)) op kind res).
Proof.
  intros Hwf H0 Hroom Hb Hrun.
  destruct (saga_run_inv _ _ _ _ _ (initial_inv st replicas _ Hwf H0 Hroom) Hb Hrun)
    as (l & Hl & _ & _).
  destruct (ledger_run_history _ _ _ Hl) as [Ha Hs].
  destruct (ledger_run_spaced _ _ _ Hl) as [Hsa Hss]; [apply spaced_nodup, Hwf..|].
  simpl in *. rewrite Ha in Hsa. rewrite Hs in Hss. split_and!; [done|done|..];
    intros k op kind res Hk; exact (ledger_run_answers _ _ _ _ _ Hl Hk).
Qed.

(** What is owed stays owed: when neither the participant nor an entry point
    withdraws anything, an exchange the stored journal owes at the start of a run is
    owed by the stored journal at its end, or was settled in the run. *)
Theorem owed_until_settled (st : St) (replicas : nat) (evs : list SagaEvent) f facts op :
  journal_wf (stored_journal st) → 0 <= stored_revision st →
  stored_revision st + Z.of_nat (length evs) <= u64_max → Forall event_behaves evs →
  Forall event_withdraws_nothing evs →
  saga_run (st, replicate replicas None) evs = (f, facts) →
  op ∈ pending_ops (stored_journal st) →
  op ∈ pending_ops (stored_journal f.1) ∨ op ∈ resolved_ops (settled_in facts).
Proof.
  intros Hwf H0 Hroom Hb Hnw Hrun.
  destruct (saga_run_inv _ _ _ _ _ (initial_inv st replicas _ Hwf H0 Hroom) Hb Hrun)
    as (l & _ & _ & Ho). exact (Ho Hnw op).
Qed.

(** ** Replies *)

(** The replies the hosts of the entity returned, with the envelopes they answer. *)
Definition replies_of (c : HostCall S) (res : result AgentChoreographyError.t HostAnswer) :
    list (AgentExchangeEnvelope.t * AgentExchangeReply.t) :=
  match c, res with
  | Accept envelope _, Ok (Replied reply) => [(envelope, reply)]
  | _, _ => []
  end.

Definition step_replies (f : fleet) (ev : SagaEvent) :
    list (AgentExchangeEnvelope.t * AgentExchangeReply.t) :=
  match ev with
  | Lost _ => []
  | Call i c =>
      match f.2 !! i with
      | None => []
      | Some record => replies_of c (run_call c (AgentExchangeHost.mk f.1 record)).2
      end
  end.

Fixpoint saga_replies (f : fleet) (evs : list SagaEvent) :
    list (AgentExchangeEnvelope.t * AgentExchangeReply.t) :=
  match evs with
  | [] => []
  | ev :: evs => step_replies f ev ++ saga_replies (saga_step f ev).1 evs
  end.

(** A reply names the operation of its envelope. *)
Lemma accept_reply_names envelope now self self' reply :
  AgentExchangeHost.accept ops participant sanitize address policy envelope now self =
    (self', Ok reply) →
  AgentExchangeReply.operation_id reply = AgentExchangeEnvelope.operation_id envelope ∧
  AgentExchangeReply.kind reply = AgentExchangeEnvelope.kind envelope.
Proof.
  unfold AgentExchangeHost.accept. intros (? & ? & _ & Hk)%op_bind_ok.
  apply op_bind_ok in Hk as (? & ? & _ & Hk). apply op_bind_ok in Hk as (? & ? & _ & Hk).
  apply op_bind_ok in Hk as (? & rec & _ & Hk). apply op_bind_ok in Hk as (? & [res|] & _ & Hk).
  - by injection Hk as _ <-.
  - unfold AgentExchangeHost.accept_new in Hk. destruct (apply participant _ _ _) as [s1 tr].
    apply op_bind_ok in Hk as (? & [s2 ?] & _ & Hk). destruct (negb _ && _ && _).
    + by injection Hk as _ <-.
    + apply op_bind_ok in Hk as (? & ? & _ & Hk). by injection Hk as _ <-.
Qed.

(** A result that the facts of the entity record, or that it declines to record. *)
Definition decided (log : list ResolvedExchange.t) (envelope : AgentExchangeEnvelope.t)
    (res : AgentExchangeResult.t) : Prop :=
  recorded log (AgentExchangeEnvelope.operation_id envelope)
    (AgentExchangeEnvelope.kind envelope) res ∨
  AgentExchangeHost.memoizes participant envelope res = false.

Lemma step_replies_facts f ev f' fs envelope reply :
  saga_step f ev = (f', fs) → (envelope, reply) ∈ step_replies f ev →
  AgentExchangeReply.operation_id reply = AgentExchangeEnvelope.operation_id envelope ∧
  AgentExchangeReply.kind reply = AgentExchangeEnvelope.kind envelope ∧
  (decided (applied_in fs) envelope (AgentExchangeReply.result reply) ∨
   FactReplayed (AgentExchangeEnvelope.operation_id envelope) (AgentExchangeEnvelope.kind envelope)
     (AgentExchangeReply.result reply) ∈ fs).
Proof.
  destruct ev as [i|i c]; simpl; [intros _ ?%not_elem_of_nil; done|].
  destruct (f.2 !! i) as [record|]; [|intros _ ?%not_elem_of_nil; done].
  destruct (run_call c _) as [self' r] eqn:Hrun. intros [= <- <-]. simpl.
  destruct c as [| |env now| | |]; simpl; try (by intros ?%not_elem_of_nil).
  destruct r as [[]|]; try (by intros ?%not_elem_of_nil).
  intros [= <- <-]%list_elem_of_singleton. simpl in Hrun.
  apply wrapped_inv in Hrun as (r0 & Hrun & Hr0). destruct r0 as [reply'|]; [|done].
  injection Hr0 as <-. apply accept_reply_names in Hrun as [-> ->]. split_and!; [done..|].
  destruct (AgentExchangeReply.is_replayed reply); [right; by left|left].
  destruct (AgentExchangeHost.memoizes participant envelope _) eqn:Hm; [left|by right].
  eexists. split; [by left|done].
Qed.

Lemma saga_replies_facts evs f f' fs envelope reply :
  saga_run f evs = (f', fs) → (envelope, reply) ∈ saga_replies f evs →
  AgentExchangeReply.operation_id reply = AgentExchangeEnvelope.operation_id envelope ∧
  AgentExchangeReply.kind reply = AgentExchangeEnvelope.kind envelope ∧
  (decided (applied_in fs) envelope (AgentExchangeReply.result reply) ∨
   FactReplayed (AgentExchangeEnvelope.operation_id envelope) (AgentExchangeEnvelope.kind envelope)
     (AgentExchangeReply.result reply) ∈ fs).
Proof.
  revert f fs. induction evs as [|ev evs IH]; intros f fs; simpl; [by intros _ ?%not_elem_of_nil|].
  destruct (saga_step f ev) as [f1 gs] eqn:Hstep. destruct (saga_run f1 evs) as [f2 hs] eqn:Hrun.
  intros [= <- <-] [Hin|Hin]%elem_of_app.
  - destruct (step_replies_facts _ _ _ _ _ _ Hstep Hin) as (? & ? & Hd). split_and!; [done..|].
    rewrite elem_of_app. unfold decided, recorded, applied_in in *. rewrite omap_app.
    setoid_rewrite elem_of_app. naive_solver.
  - destruct (IH _ _ Hrun Hin) as (? & ? & Hd). split_and!; [done..|].
    rewrite elem_of_app. unfold decided, recorded, applied_in in *. rewrite omap_app.
    setoid_rewrite elem_of_app. naive_solver.
Qed.

(** A settlement carries the result of the reply. *)
Lemma host_settle_result reply now self self' envelope res :
  AgentExchangeHost.settle ops participant sanitize address policy reply now self =
    (self', Ok (Settled envelope res)) →
  res = AgentExchangeReply.result reply.
Proof using Type.
  unfold AgentExchangeHost.settle. intros (? & ? & _ & Hs)%op_bind_ok.
  apply op_bind_ok in Hs as (? & ? & _ & Hs). apply op_bind_ok in Hs as (? & rec & _ & Hs).
  apply op_bind_ok in Hs as (? & [s1 settlement] & Hj & Hs).
  injection Hj as _ Hj. unfold AgentExchangeHost.on_journal in Hj.
  destruct (AgentExchangeJournal.settle _ _ _ _ _) as [j' [a|e]] eqn:Hset; [|done].
  injection Hj as _ ->.
  destruct (settle_cases _ _ _ _ _ _ _ Hset) as
    [(? & [= ->] & _)|[([= ->] & _)|[(p & rest & [= ->] & _)|[e [=]]]]]; try done.
  apply op_bind_ok in Hs as (? & ? & _ & Hs).
  destruct (settle_consequence participant _ _ _ _) as [s2 owed].
  apply op_bind_ok in Hs as (? & [s3 ?] & _ & Hs). apply op_bind_ok in Hs as (? & ? & _ & Hs).
  by injection Hs as _ _ <-.
Qed.

(** It comes from a reply the entity was handed. *)
Lemma settled_from_reply evs f f' fs r :
  saga_run f evs = (f', fs) → FactSettled r ∈ fs →
  ∃ i reply now, Call i (Settle reply now) ∈ evs ∧
    r = ResolvedExchange.mk (AgentExchangeReply.operation_id reply) (AgentExchangeReply.kind reply)
          (AgentExchangeReply.result reply) now.
Proof using Type.
  revert f fs. induction evs as [|ev evs IH]; intros f fs; simpl;
    [by intros [= <- <-] ?%not_elem_of_nil|].
  destruct (saga_step f ev) as [f1 gs] eqn:Hstep. destruct (saga_run f1 evs) as [f2 hs] eqn:Hrun.
  intros [= <- <-] [Hin|Hin]%elem_of_app.
  2:{ destruct (IH _ _ Hrun Hin) as (i & reply & now & ? & ?). exists i, reply, now.
      split; [by right|done]. }
  destruct ev as [i|i c]; simpl in Hstep; [injection Hstep as <- <-; by apply not_elem_of_nil in Hin|].
  destruct (f.2 !! i) as [record|]; [|injection Hstep as <- <-; by apply not_elem_of_nil in Hin].
  destruct (run_call c _) as [self' res] eqn:Hc. injection Hstep as <- <-.
  destruct (settled_fact _ _ _ Hin) as (reply & now & envelope & res' & -> & -> & ->).
  exists i, reply, now. split; [by left|]. simpl in Hc.
  apply wrapped_inv in Hc as (r0 & Hs & Hr0). destruct r0; [|done].
  injection Hr0 as <-. by rewrite (host_settle_result _ _ _ _ _ _ Hs).
Qed.
End hosts.

(** ** Initiator and target *)

Section agreement.
Context {StA SA StB SB : Type} `{EqDecision SA, EqDecision SB}.
Context (opsA : DurableStateStore StA SA) (opsB : DurableStateStore StB SB).
Context (initiator : AgentExchangeParticipant SA) (target : AgentExchangeParticipant SB).
Context (sanitize : AgentTelemetryContext.t → AgentTelemetryContext.t).
Context (addressA addressB : AgentEntityAddress.t) (policyA policyB : AgentSchemaPolicy.t).
Context (viewB : StB → PersistenceId.t → option (StateRecord.t SB)).
Context `{!DurableStoreLaws opsB viewB, !ParticipantLaws target}.

Abbreviation runA := (saga_run opsA initiator sanitize addressA policyA).
Abbreviation runB := (saga_run opsB target sanitize addressB policyB).
Abbreviation repliesB := (saga_replies opsB target sanitize addressB policyB).
Abbreviation journalB := (stored_journal target addressB viewB).

(** Initiator and target agree: whatever both entities' hosts do, and however often
    replies are lost, delayed, reordered or handed over twice, when the initiator is
    only handed replies that the target's hosts returned, each result it settles is
    one the target has durably recorded for that operation and kind, or a refusal the
    target's own classification declined to record; in particular every accepted result
    it settles was recorded. *)
Theorem initiator_and_target_agree stA stB replicasA replicasB evsA evsB fA fB factsA factsB r :
  journal_wf (journalB stB) → 0 <= record_revision (viewB stB (AgentEntityAddress.persistence_id addressB)) →
  record_revision (viewB stB (AgentEntityAddress.persistence_id addressB)) +
    Z.of_nat (length evsB) <= u64_max →
  Forall (event_behaves target) evsB →
  runA (stA, replicate replicasA None) evsA = (fA, factsA) →
  runB (stB, replicate replicasB None) evsB = (fB, factsB) →
  (∀ i reply now, Call i (Settle reply now) ∈ evsA →
     ∃ envelope, (envelope, reply) ∈ repliesB (stB, replicate replicasB None) evsB) →
  FactSettled r ∈ factsA →
  let decisions := AgentExchangeJournal.applied (journalB stB) ++ applied_in factsB in
  let decided_there := recorded decisions (ResolvedExchange.operation_id r)
                         (ResolvedExchange.kind r) (ResolvedExchange.result r) in
  (decided_there ∨ ∃ envelope,
     AgentExchangeEnvelope.operation_id envelope = ResolvedExchange.operation_id r ∧
     AgentExchangeHost.memoizes target envelope (ResolvedExchange.result r) = false) ∧
  (AgentExchangeResult.is_accepted (ResolvedExchange.result r) = true → decided_there).
Proof.
  intros Hwf H0 Hroom Hb HrunA HrunB Hnet Hr decisions decided_there.
  destruct (settled_from_reply _ _ _ _ _ _ _ _ _ _ HrunA Hr) as (i & reply & now & Hc & ->).
  destruct (Hnet i reply now Hc) as [envelope Henv]. simpl in *.
  destruct (saga_replies_facts _ _ _ _ _ _ _ _ _ _ _ HrunB Henv) as (Hop & Hkind & Hd).
  assert (decided_there ∨ AgentExchangeHost.memoizes target envelope
            (AgentExchangeReply.result reply) = false) as Hdec.
  { unfold decided_there, decisions. rewrite Hop, Hkind. destruct Hd as [[Hd|Hm]|Hd]; [left|by right|left].
    - destruct Hd as (x & Hx & ?). exists x. split; [apply elem_of_app; by right|done].
    - apply list_elem_of_lookup in Hd as [k Hk].
      destruct (saga_run_inv opsB target sanitize addressB policyB viewB _ _ _ _ _
        (initial_inv target addressB viewB stB replicasB _ Hwf H0 Hroom) Hb HrunB) as (l & Hl & _).
      destruct (ledger_run_answers _ _ _ _ _ Hl Hk) as (x & Hx & ?). exists x. split; [|done].
      apply elem_of_app in Hx as [Hx|Hx]; apply elem_of_app; [by left|right].
      unfold applied_in in *. apply list_elem_of_omap in Hx as (y & Hy & ?).
      apply list_elem_of_omap. exists y. split; [|done].
      by apply (sublist_subseteq _ _ (sublist_take factsB k)). }
  split.
  - destruct Hdec as [Hdec|Hm]; [by left|right]. by exists envelope.
  - intros Hacc. destruct Hdec as [Hdec|Hm]; [done|]. unfold AgentExchangeHost.memoizes in Hm.
    by rewrite Hacc in Hm.
Qed.
End agreement.

(** ** A concrete participant

    A counter of what it applied and of what it settled, over the in-memory store. *)

Module Tally.
Record t := mk { applied : Z; settled : Z; journal : AgentExchangeJournal.t }.

#[global] Instance eq_dec : EqDecision t.
Proof. solve_decision. Defined.

Definition done : AgentExchangeResult.t :=
  AgentExchangeResult.accepted (AgentExchangePayload.empty "done").

Definition participant : AgentExchangeParticipant t := {|
  exchange_journal := journal;
  with_exchange_journal s j := mk (applied s) (settled s) j;
  check_schema _ _ := Ok tt;
  initialize _ _ := mk 0 0 AgentExchangeJournal.new;
  apply s _ _ := (mk (applied s + 1) (settled s) (journal s), AgentExchangeTransition.new done);
  check_settle _ _ := Ok tt;
  settle_consequence s _ _ _ := (mk (applied s) (settled s + 1) (journal s), []);
  seal _ s _ := s;
|}.

#[global] Instance laws : ParticipantLaws participant.
Proof. by split; intros; simpl. Qed.

Definition agent_address : AgentEntityAddress.t :=
  AgentEntityAddress.Agent (AgentScope.mk (TenantId.new "acme") (AgentId.Self "planner")).
Definition task_address : AgentEntityAddress.t :=
  AgentEntityAddress.Task (AgentTaskScope.mk (TenantId.new "acme") (AgentTaskId.Self "t1")).

Definition creation : AgentExchangeEnvelope.t :=
  AgentExchangeEnvelope.mk 1 (AgentOperationId.Self "task-creation/acme/t1")
    AgentExchangeKind.Creation agent_address task_address (AgentExchangePayload.empty "create")
    "corr" 5 AgentTelemetryContext.default.

(** The entry point at the agent: owe the creation. *)
Definition owe : t → AgentChoreographyResult (t * list AgentExchangeEnvelope.t) :=
  fun s => Ok (s, [creation]).

(** The task has two hosts; the second is stale when the creation is first delivered to
    it, fails, recovers and replays. *)
Definition task_events : list (SagaEvent (S := t)) :=
  [Call 0 (Recover 1); Call 1 (Recover 1); Call 0 (Accept creation 7); Call 1 (Accept creation 8);
   Call 1 (Recover 9); Call 1 (Accept creation 9)].

Definition reply (replayed : bool) (at_ : Z) : AgentExchangeReply.t :=
  AgentExchangeReply.new creation done replayed at_.

(** The agent owes the creation, loses its memory, and is handed both replies. *)
Definition agent_events : list (SagaEvent (S := t)) :=
  [Call 0 (Recover 1); Call 0 (Initiate 2 owe); Lost 0; Call 0 (Recover 10);
   Call 0 (Settle (reply true 9) 11); Call 0 (Settle (reply false 7) 12)].

Abbreviation tally_run address :=
  (saga_run InMemoryDurableStateStore.store participant id address AgentSchemaPolicy.n_plus_one).

Definition entry (now : Z) : ResolvedExchange.t :=
  ResolvedExchange.mk (AgentExchangeEnvelope.operation_id creation) AgentExchangeKind.Creation done now.

Example task_facts :
  (tally_run task_address (∅, replicate 2 None) task_events).2 =
  [FactApplied (entry 7);
   FactReplayed (AgentExchangeEnvelope.operation_id creation) AgentExchangeKind.Creation done].
Proof. vm_compute. reflexivity. Qed.

Example agent_facts :
  (tally_run agent_address (∅, replicate 1 None) agent_events).2 =
  [FactSettled (entry 11);
   FactDuplicate (AgentExchangeEnvelope.operation_id creation) AgentExchangeKind.Creation done].
Proof. vm_compute. reflexivity. Qed.

Lemma empty_store_wf address : journal_wf (stored_journal participant address memory_view ∅).
Proof.
  unfold stored_journal, memory_view. rewrite lookup_empty.
  split; simpl; try (lia || constructor). by intros op Hop%not_elem_of_nil.
Qed.

Lemma owe_behaves now : call_behaves participant (Initiate now owe).
Proof. intros s s' envelopes [= <- <-]. done. Qed.

Lemma agent_events_behave : Forall (event_behaves participant) agent_events.
Proof. unfold agent_events. rewrite !Forall_cons, Forall_nil. split_and!; try done. apply owe_behaves. Qed.

Lemma task_events_behave : Forall (event_behaves participant) task_events.
Proof. repeat constructor. Qed.
End Tally.

Lemma exchanges_refine_log_witness :
  ∃ l, ledger_run (mk_ledger [] [])
         (Tally.tally_run Tally.task_address (∅, replicate 2 None) Tally.task_events).2 l ∧
    window (applied_history l) = [Tally.entry 7].
Proof.
  destruct (exchanges_refine_log InMemoryDurableStateStore.store Tally.participant id
    Tally.task_address AgentSchemaPolicy.n_plus_one memory_view ∅ 2 Tally.task_events _ _
    (Tally.empty_store_wf _) ltac:(done) ltac:(done) Tally.task_events_behave
    (surjective_pairing _)) as (l & Hl & Ha & _ & _).
  exists l. split; [exact Hl|]. rewrite <-Ha. vm_compute. reflexivity.
Defined.

Lemma exchanges_exactly_once_witness :
  spaced (applied_in (Tally.tally_run Tally.task_address (∅, replicate 2 None) Tally.task_events).2).
Proof.
  apply (exchanges_exactly_once InMemoryDurableStateStore.store Tally.participant id
    Tally.task_address AgentSchemaPolicy.n_plus_one memory_view ∅ 2 Tally.task_events _ _
    (Tally.empty_store_wf _) ltac:(done) ltac:(done) Tally.task_events_behave (surjective_pairing _)).
Defined.

(** The journal of the agent once it owes the creation. *)
Definition owing_journal : AgentExchangeJournal.t :=
  AgentExchangeJournal.mk 1 [PendingExchange.mk Tally.creation 0 2 None None] [] [].

Definition owing_store : gmap PersistenceId.t (StateRecord.t Tally.t) :=
  {[ AgentEntityAddress.persistence_id Tally.agent_address :=
       StateRecord.new (Tally.mk 0 0 owing_journal) 1 ]}.

Lemma owing_journal_wf :
  journal_wf (stored_journal Tally.participant Tally.agent_address memory_view owing_store).
Proof.
  change (journal_wf owing_journal).
  split; simpl; [unfold AGENT_EXCHANGE_PENDING_CAPACITY; lia|lia..|apply NoDup_singleton|constructor|constructor|].
  by intros op _ Hop%not_elem_of_nil.
Qed.

Definition failing_events : list (SagaEvent (S := Tally.t)) :=
  [Call 0 (Recover 3); Call 0 (NoteFailure (AgentExchangeEnvelope.operation_id Tally.creation)
                                 "exchange-no-route" 4); Lost 0; Call 1 (Recover 5)].

Lemma owed_until_settled_witness :
  AgentExchangeEnvelope.operation_id Tally.creation ∈
    pending_ops (stored_journal Tally.participant Tally.agent_address memory_view
      (Tally.tally_run Tally.agent_address (owing_store, replicate 2 None) failing_events).1.1).
Proof.
  destruct (owed_until_settled InMemoryDurableStateStore.store Tally.participant id
    Tally.agent_address AgentSchemaPolicy.n_plus_one memory_view owing_store 2 failing_events _ _
    (AgentExchangeEnvelope.operation_id Tally.creation) owing_journal_wf ltac:(done) ltac:(done)
    ltac:(repeat constructor) ltac:(repeat constructor; try done) (surjective_pairing _)
    ltac:(by left)) as [Hp|Hs]; [exact Hp|].
  vm_compute in Hs. by apply not_elem_of_nil in Hs.
Defined.

Lemma initiator_and_target_agree_witness :
  recorded (applied_in (Tally.tally_run Tally.task_address (∅, replicate 2 None) Tally.task_events).2)
    (AgentExchangeEnvelope.operation_id Tally.creation) AgentExchangeKind.Creation Tally.done.
Proof.
  apply (initiator_and_target_agree InMemoryDurableStateStore.store InMemoryDurableStateStore.store
    Tally.participant Tally.participant id Tally.agent_address Tally.task_address
    AgentSchemaPolicy.n_plus_one AgentSchemaPolicy.n_plus_one memory_view ∅ ∅ 1 2
    Tally.agent_events Tally.task_events _ _ _ _ (Tally.entry 11)
    (Tally.empty_store_wf _) ltac:(done) ltac:(done) Tally.task_events_behave
    (surjective_pairing _) (surjective_pairing _)).
  - intros i reply now Hin. exists Tally.creation.
    unfold Tally.agent_events in Hin. rewrite !elem_of_cons in Hin.
    destruct Hin as [Hin|[Hin|[Hin|[Hin|[Hin|[Hin|Hin%not_elem_of_nil]]]]]]; try done;
      injection Hin as _ -> _; vm_compute; [right; left|left].
  - vm_compute. left.
  - reflexivity.
Defined.
