(* ===== verification/ExchangeCourier.v ===== *)
(** * The exchange courier

    What one pass of [drive_pending_exchanges] ([Exchange.v]) achieves: against targets
    that answer, it settles everything the entity owes; and one reply it cannot
    interpret ends the pass for everything behind it. *)

From S2P Require Import Prelude Persistence DurableState AgentIdentity AgentSchema Exchange ExchangeSaga.

Section courier.
Context {St S : Type} `{EqDecision S}.
Context (ops : DurableStateStore St S) (participant : AgentExchangeParticipant S).
Context (sanitize : AgentTelemetryContext.t → AgentTelemetryContext.t).
Context (address : AgentEntityAddress.t) (policy : AgentSchemaPolicy.t).
Context (deliver : St → AgentExchangeEnvelope.t →
           St * result AgentExchangeDeliveryError.t AgentExchangeReply.t).
Context (view : St → PersistenceId.t → option (StateRecord.t S)).
Context `{!DurableStoreLaws ops view, !ParticipantLaws participant}.
Let pid := AgentEntityAddress.persistence_id address.

Abbreviation host := (AgentExchangeHost.t St S).
Abbreviation journal := (exchange_journal participant).
Abbreviation drive_each := (drive_each ops participant sanitize address policy deliver).
Abbreviation drive := (drive_pending_exchanges ops participant sanitize address policy deliver).

(** A write at the stored revision succeeds. *)
Definition store_available : Prop :=
  ∀ st rev s, record_revision (view st pid) = rev →
    ∃ st' rec, compare_and_set ops st pid rev s = (st', Ok rec).

(** The participant leaves its journal alone when it settles, and owes nothing more. *)
Definition settles_plainly : Prop :=
  (∀ s envelope res now,
     journal (settle_consequence participant s envelope res now).1 = journal s ∧
     (settle_consequence participant s envelope res now).2 = []) ∧
  (∀ before after now, journal (seal participant before after now) = journal after).

(** The target of the envelope answers it - without touching this entity's record - with
    a reply this entity can settle. *)
Definition answers (envelope : AgentExchangeEnvelope.t) : Prop :=
  ∀ st, ∃ st' reply, deliver st envelope = (st', Ok reply) ∧ view st' pid = view st pid ∧
    AgentExchangeReply.operation_id reply = AgentExchangeEnvelope.operation_id envelope ∧
    AgentExchangeReply.kind reply = AgentExchangeEnvelope.kind envelope ∧
    AgentExchangeHost.check_version policy ExchangeReply
      (AgentExchangeReply.schema_version reply) = Ok tt ∧
    AgentExchangeReply.validate reply = Ok tt ∧
    check_settle participant envelope (AgentExchangeReply.result reply) = Ok tt.

(** The host has the stored record, which owes exactly [envelopes]. *)
Definition in_step (self : host) (envelopes : list AgentExchangeEnvelope.t) : Prop :=
  ∃ rec, AgentExchangeHost.record self = Some rec ∧
    record_revision (view (AgentExchangeHost.store self) pid) = StateRecord.revision rec ∧
    journal_wf (journal (StateRecord.state rec)) ∧
    PendingExchange.envelope <$> AgentExchangeJournal.pending (journal (StateRecord.state rec)) =
      envelopes.

Lemma persist_available (self : host) rec s :
  store_available → AgentExchangeHost.record self = Some rec →
  record_revision (view (AgentExchangeHost.store self) pid) = StateRecord.revision rec →
  ∃ self', AgentExchangeHost.persist ops address s (StateRecord.revision rec) self = (self', Ok tt) ∧
    wrote address view rec s self self'.
Proof.
  intros Hst Hrec Hrev. destruct (Hst _ _ s Hrev) as (st' & rec' & Hcas).
  destruct (AgentExchangeHost.persist ops address s (StateRecord.revision rec) self) as [self' r] eqn:Hp.
  destruct (persist_cases ops participant address view _ _ _ _ _ Hrec Hp) as [[-> Hw]|[_ [e He]]];
    [by eexists|].
  unfold AgentExchangeHost.persist, AgentExchangeHost.persistence_id in Hp. fold pid in Hp.
  rewrite Hcas in Hp. congruence.
Qed.

(** The journal settles the first exchange it owes. *)
Lemma settle_first j p rest res now :
  journal_wf j → AgentExchangeJournal.pending j = p :: rest →
  let op := PendingExchange.operation_id p in
  let kind := AgentExchangeEnvelope.kind (PendingExchange.envelope p) in
  let r := ResolvedExchange.mk op kind res now in
  let j' := AgentExchangeJournal.mk (AgentExchangeJournal.schema_version j) rest
              (push_resolved (AgentExchangeJournal.settled j) r) (AgentExchangeJournal.applied j) in
  AgentExchangeJournal.settle op kind res now j = (j', Ok (Settled (PendingExchange.envelope p) res)) ∧
  journal_wf j'.
Proof.
  intros Hwf Hp op kind r j'.
  assert (find_resolved (AgentExchangeJournal.settled j) op = None) as Hf.
  { apply find_resolved_None, (jw_disjoint _ Hwf). rewrite Hp. by left. }
  split.
  - unfold AgentExchangeJournal.settle. rewrite Hf, Hp. simpl. rewrite decide_True by done.
    by rewrite decide_False by (intros Hn; by apply Hn).
  - apply settled_wf with p; rewrite ?Hp; [done|done|done|by apply sublist_cons|done].
Qed.

Lemma propagate_nothing cause : propagate_exchange_telemetry sanitize cause [] = [].
Proof using Type. unfold propagate_exchange_telemetry. by destruct (_ cause). Qed.

(** The report with [n] more settlements. *)
Definition settled_more (report : AgentExchangeDriveReport.t) (n : nat) : AgentExchangeDriveReport.t :=
  AgentExchangeDriveReport.mk (AgentExchangeDriveReport.outstanding report)
    (AgentExchangeDriveReport.settled report + n) (AgentExchangeDriveReport.duplicate_replies report)
    (AgentExchangeDriveReport.unknown_replies report) (AgentExchangeDriveReport.failed report)
    (AgentExchangeDriveReport.unsettleable report).

Lemma drive_one_settles now report envelope envelopes (self : host) :
  store_available → settles_plainly → answers envelope → in_step self (envelope :: envelopes) →
  ∃ self', drive_one ops participant sanitize address policy deliver now report envelope self =
    (self', Ok (settled_more report 1)) ∧
    in_step self' envelopes.
Proof.
  intros Hst [Hcons Hseal] Hans (rec & Hrec & Hrev & Hwf & Hpend).
  destruct (Hans (AgentExchangeHost.store self))
    as (st' & reply & Hd & Hv & Hop & Hkind & Hver & Hval & Hcheck).
  apply fmap_cons_inv in Hpend as (p & rest & -> & Hrest & Hp).
  destruct (settle_first _ p rest (AgentExchangeReply.result reply) now Hwf Hp) as [Hset Hwf'].
  unfold PendingExchange.operation_id in Hset.
  set (self1 := AgentExchangeHost.mk st' (Some rec)).
  set (j' := AgentExchangeJournal.mk _ _ _ _) in *.
  set (s1 := with_exchange_journal participant (StateRecord.state rec) j').
  destruct (Hcons s1 (PendingExchange.envelope p) (AgentExchangeReply.result reply) now) as [Hj2 Ho].
  destruct (settle_consequence participant s1 (PendingExchange.envelope p)
              (AgentExchangeReply.result reply) now) as [s2 owed] eqn:Hc. simpl in Hj2, Ho. subst owed.
  set (s3 := seal participant (StateRecord.state rec) s2 now).
  assert (journal s3 = j') as Hj3.
  { unfold s3. rewrite Hseal, Hj2. apply law_journal_field. }
  destruct (persist_available self1 rec s3 Hst eq_refl) as (self' & Hpersist & Hw);
    [simpl; by rewrite Hv|].
  exists self'. split.
  - unfold drive_one. rewrite Hd, Hrec. fold self1. rewrite decide_False by (intros Hn; by apply Hn).
    unfold AgentExchangeHost.settle, op_bind, op_lift, op_ret, AgentExchangeHost.recovered_record.
    rewrite Hver, Hval. simpl. unfold AgentExchangeHost.on_journal. rewrite Hop, Hkind, Hset.
    fold s1. rewrite Hcheck, Hc, propagate_nothing. simpl. fold s3. by rewrite Hpersist.
  - destruct Hw as (_ & _ & Hrec' & Hv'). fold pid in Hv'. eexists.
    split_and!; [exact Hrec'|by rewrite Hv'|..];
      simpl; by rewrite Hj3.
Qed.

Lemma drive_each_settles now report envelopes (self : host) :
  store_available → settles_plainly → (∀ envelope, envelope ∈ envelopes → answers envelope) →
  in_step self envelopes →
  ∃ self', drive_each now report envelopes self =
    (self', Ok (settled_more report (length envelopes))) ∧
    in_step self' [].
Proof.
  intros Hst Hplain. revert report self. induction envelopes as [|envelope envelopes IH];
    intros report self Hans Hin; simpl.
  - exists self. split; [|done]. unfold op_ret, settled_more. rewrite Nat.add_0_r. by destruct report.
  - destruct (drive_one_settles now report envelope envelopes self) as (self1 & Hone & Hin1);
      [done|done|apply Hans; by left|done|].
    unfold op_bind. rewrite Hone. destruct (IH (settled_more report 1) self1)
      as (self' & Hrest & Hin'); [intros; apply Hans; by right|done|].
    exists self'. split; [|exact Hin']. rewrite Hrest. unfold settled_more. simpl.
    by rewrite <-Nat.add_assoc.
Qed.

(** One pass settles everything: when the store takes writes, the targets of all
    outstanding exchanges answer with replies the entity can interpret, and settling
    owes nothing further, a courier pass returns a report with every outstanding
    exchange settled, none failed and none wedged, and the stored journal owes nothing. *)
Theorem one_pass_settles_all now rec (self : host) :
  store_available → settles_plainly →
  AgentExchangeHost.record self = Some rec →
  record_revision (view (AgentExchangeHost.store self) pid) = StateRecord.revision rec →
  journal_wf (journal (StateRecord.state rec)) →
  (∀ p, p ∈ AgentExchangeJournal.pending (journal (StateRecord.state rec)) →
     answers (PendingExchange.envelope p)) →
  let owed := length (AgentExchangeJournal.pending (journal (StateRecord.state rec))) in
  ∃ self', drive now self = (self', Ok (AgentExchangeDriveReport.mk owed owed 0 0 0 [])) ∧
    ∃ rec', AgentExchangeHost.record self' = Some rec' ∧
      AgentExchangeJournal.pending (journal (StateRecord.state rec')) = [].
Proof.
  intros Hst Hplain Hrec Hrev Hwf Hans owed.
  destruct (drive_each_settles now (AgentExchangeDriveReport.started owed)
    (PendingExchange.envelope <$> AgentExchangeJournal.pending (journal (StateRecord.state rec))) self)
    as (self' & Hrun & rec' & Hrec' & _ & _ & Hnil); [done|done| |by exists rec|].
  { intros envelope (p & -> & Hp)%list_elem_of_fmap. by apply Hans. }
  exists self'. split.
  - unfold drive_pending_exchanges, AgentExchangeHost.outstanding, op_bind, op_ret,
      AgentExchangeHost.recovered_record. rewrite Hrec. simpl. rewrite length_fmap in *.
    exact Hrun.
  - exists rec'. split; [done|]. by apply fmap_nil_inv in Hnil.
Qed.

(** A reply the entity cannot interpret wedges the courier: when the first exchange it
    owes is answered with a reply that [check_settle] refuses with any error other than
    the unsettleable-refusal class - an undecodable payload, for one - the pass ends there
    with that error; nothing is recorded and nothing of what the entity owes behind it is
    delivered, in this pass and in every later one that gets the same answer. *)
Theorem uninterpretable_reply_wedges_courier now report envelope behind (self : host) rec p rest st' reply e :
  AgentExchangeHost.record self = Some rec →
  journal_wf (journal (StateRecord.state rec)) →
  AgentExchangeJournal.pending (journal (StateRecord.state rec)) = p :: rest →
  PendingExchange.envelope p = envelope →
  deliver (AgentExchangeHost.store self) envelope = (st', Ok reply) →
  AgentExchangeReply.operation_id reply = AgentExchangeEnvelope.operation_id envelope →
  AgentExchangeReply.kind reply = AgentExchangeEnvelope.kind envelope →
  AgentExchangeHost.check_version policy ExchangeReply (AgentExchangeReply.schema_version reply) = Ok tt →
  AgentExchangeReply.validate reply = Ok tt →
  check_settle participant envelope (AgentExchangeReply.result reply) = Err e →
  AgentChoreographyError.is_unsettleable e = false →
  drive_each now report (envelope :: behind) self = (AgentExchangeHost.mk st' (Some rec), Err e).
Proof.
  intros Hrec Hwf Hp <- Hd Hop Hkind Hver Hval Hcheck He.
  destruct (settle_first _ p rest (AgentExchangeReply.result reply) now Hwf Hp) as [Hset _].
  unfold PendingExchange.operation_id in Hset.
  simpl. unfold op_bind at 1, drive_one. rewrite Hd, Hrec, decide_False by (intros Hn; by apply Hn).
  unfold AgentExchangeHost.settle, op_bind, op_lift, op_ret, AgentExchangeHost.recovered_record.
  rewrite Hver, Hval. simpl. unfold AgentExchangeHost.on_journal. rewrite Hop, Hkind, Hset, Hcheck.
  by destruct e.
Qed.
End courier.

(** ** Concrete passes *)

(** Every target answers at once that it is done. *)
Definition prompt {St} (st : St) (envelope : AgentExchangeEnvelope.t) :
    St * result AgentExchangeDeliveryError.t AgentExchangeReply.t :=
  (st, Ok (AgentExchangeReply.applied envelope Tally.done 9)).

Definition owing_host : AgentExchangeHost.t (gmap PersistenceId.t (StateRecord.t Tally.t)) Tally.t :=
  AgentExchangeHost.mk owing_store (Some (StateRecord.new (Tally.mk 0 0 owing_journal) 1)).

Lemma memory_available address :
  store_available InMemoryDurableStateStore.store address (memory_view (S := Tally.t)).
Proof.
  intros st rev s Hrev. simpl. unfold InMemoryDurableStateStore.compare_and_set.
  unfold memory_view in Hrev. rewrite decide_False by (intros Hn; by apply Hn). by do 2 eexists.
Qed.

Lemma one_pass_settles_all_witness :
  ∃ self', drive_pending_exchanges InMemoryDurableStateStore.store Tally.participant id
      Tally.agent_address AgentSchemaPolicy.n_plus_one prompt 12 owing_host =
    (self', Ok (AgentExchangeDriveReport.mk 1 1 0 0 0 [])).
Proof.
  destruct (one_pass_settles_all InMemoryDurableStateStore.store Tally.participant id
    Tally.agent_address AgentSchemaPolicy.n_plus_one prompt memory_view 12
    (StateRecord.new (Tally.mk 0 0 owing_journal) 1) owing_host (memory_available _))
    as (self' & Hrun & _).
  - by split.
  - reflexivity.
  - reflexivity.
  - exact owing_journal_wf.
  - intros p ->%list_elem_of_singleton st. do 2 eexists. split; [reflexivity|]. by split_and!.
  - by exists self'.
Defined.

(** A participant that cannot decode the results it is answered with, such as one behind in
    a rolling upgrade; it owes two exchanges. *)
Definition behind_the_times : AgentExchangeParticipant Tally.t := {|
  exchange_journal := exchange_journal Tally.participant;
  with_exchange_journal := with_exchange_journal Tally.participant;
  check_schema := check_schema Tally.participant;
  initialize := initialize Tally.participant;
  apply := apply Tally.participant;
  check_settle _ _ := Err (AgentChoreographyError.PayloadDecoding "done" "unknown variant");
  settle_consequence := settle_consequence Tally.participant;
  seal := seal Tally.participant;
|}.

#[local] Instance behind_the_times_laws : ParticipantLaws behind_the_times.
Proof. by split; intros; simpl. Qed.

Definition second_creation : AgentExchangeEnvelope.t :=
  AgentExchangeEnvelope.mk 1 (AgentOperationId.Self "task-creation/acme/t2")
    AgentExchangeKind.Creation Tally.agent_address Tally.task_address
    (AgentExchangePayload.empty "create") "corr" 6 AgentTelemetryContext.default.

Definition two_owed : AgentExchangeJournal.t :=
  AgentExchangeJournal.mk 1 [PendingExchange.mk Tally.creation 0 2 None None;
                             PendingExchange.mk second_creation 0 3 None None] [] [].

Lemma two_owed_wf : journal_wf two_owed.
Proof.
  split; simpl; [unfold AGENT_EXCHANGE_PENDING_CAPACITY; lia|lia..| |constructor|constructor|].
  - apply NoDup_cons. split; [|apply NoDup_singleton]. by intros ?%list_elem_of_singleton.
  - by intros op _ Hop%not_elem_of_nil.
Qed.

Lemma uninterpretable_reply_wedges_courier_witness :
  ∃ self', drive_each InMemoryDurableStateStore.store behind_the_times id Tally.agent_address
      AgentSchemaPolicy.n_plus_one prompt 12 (AgentExchangeDriveReport.started 2)
      [Tally.creation; second_creation]
      (AgentExchangeHost.mk ∅ (Some (StateRecord.new (Tally.mk 0 0 two_owed) 1))) =
    (self', Err (AgentChoreographyError.PayloadDecoding "done" "unknown variant")).
Proof.
  eexists. apply (uninterpretable_reply_wedges_courier InMemoryDurableStateStore.store behind_the_times
    id Tally.agent_address AgentSchemaPolicy.n_plus_one prompt 12
    (AgentExchangeDriveReport.started 2) Tally.creation [second_creation]
    (AgentExchangeHost.mk ∅ (Some (StateRecord.new (Tally.mk 0 0 two_owed) 1)))
    (StateRecord.new (Tally.mk 0 0 two_owed) 1)
    (PendingExchange.mk Tally.creation 0 2 None None)
    [PendingExchange.mk second_creation 0 3 None None]
    ∅ (AgentExchangeReply.applied Tally.creation Tally.done 9));
    try reflexivity. exact two_owed_wf.
Defined.
