(* ===== verification/CompiledPlan.v ===== *)
(** * Compiled execution plans: [rakka-agent-workflow/src/compiled_plan.rs]

    The graph of a workflow as the compiler hands it over: nodes with ports, edges between
    ports, the catalog of node kinds, and the validation that a run requires.  Attributes
    and artifact references are those of [domain.rs], the limits on attributes those of
    [metrics.rs].  Searches over the graph carry fuel; [detect_cycle_exact] and
    [reachable_exact] show that it is enough. *)

From Stdlib Require Import Ascii.
From stdpp Require Import pretty.
From S2P Require Import Prelude Core.

(** ** Text *)

Definition strip_white (s : string) : option string :=
  match find_first (fun w => starts_with w s) (white_space ++ white_space_wide) with
  | Some w => Some (String.substring (String.length w) (String.length s) s)
  | None => None
  end.

(** [str::trim_start]: each round drops one character. *)
Fixpoint trim_start_n (n : nat) (s : string) : string :=
  match n with
  | O => s
  | S n => match strip_white s with Some s => trim_start_n n s | None => s end
  end.

Definition trim_start (s : string) : string := trim_start_n (String.length s) s.

(** [str::trim_end] cuts where only white space is left. *)
Fixpoint trim_end (s : string) : string :=
  match s with
  | "" => ""
  | String c s' => if str_is_empty (trim_start s) then "" else String c (trim_end s')
  end.

Definition trim (s : string) : string := trim_end (trim_start s).

(** [str::contains] of a text. *)
Fixpoint contains_str (p s : string) : bool :=
  starts_with p s || match s with "" => false | String _ s => contains_str p s end.

Definition to_ascii_lowercase_char (c : ascii) : ascii :=
  let n := nat_of_ascii c in if ((65 <=? n) && (n <=? 90))%nat then ascii_of_nat (n + 32) else c.

Fixpoint to_ascii_lowercase (s : string) : string :=
  match s with "" => "" | String c s => String (to_ascii_lowercase_char c) (to_ascii_lowercase s) end.

(** What follows the last occurrence of [p], which does not overlap itself
    ([str::rsplit_once]). *)
Fixpoint after_last (p s : string) : option string :=
  match s with
  | "" => None
  | String _ s' =>
      match after_last p s' with
      | Some r => Some r
      | None => if starts_with p s then Some (String.substring (String.length p) (String.length s) s)
                else None
      end
  end.

Fixpoint parse_digits (acc : Z) (s : string) : option Z :=
  match s with
  | "" => Some acc
  | String c s =>
      if is_ascii_digit c then parse_digits (acc * 10 + (Z.of_nat (nat_of_ascii c) - 48)) s else None
  end.

(** [str::parse::<u32>]: an optional plus sign, then digits, within the range. *)
Definition parse_u32 (s : string) : option Z :=
  let digits := match s with String c r => if (c =? "+")%char then r else s | "" => "" end in
  if str_is_empty digits then None
  else match parse_digits 0 digits with
       | Some n => if n <=? u32_max then Some n else None
       | None => None
       end.

(** A loop that returns the first error. *)
Fixpoint try_each {E A} (f : A → result E unit) (l : list A) : result E unit :=
  match l with [] => Ok tt | x :: l => let? _ := f x in try_each f l end.

(** ** Identifiers, attributes and artifacts *)

Module AgentCompiledPlanId.
Record t := new { as_str : string }.

#[global] Instance eq_dec : EqDecision t.
Proof. solve_decision. Defined.
#[global] Instance as_str_inj : Inj (=) (=) as_str.
Proof. newtype_inj. Qed.
#[global] Instance countable : Countable t := inj_countable' as_str new ltac:(by intros []).
#[global] Instance ordkey : OrdKey t := ordkey_via as_str.
End AgentCompiledPlanId.

Module AgentCompiledPlanFingerprint.
Record t := new { as_str : string }.

#[global] Instance eq_dec : EqDecision t.
Proof. solve_decision. Defined.
#[global] Instance as_str_inj : Inj (=) (=) as_str.
Proof. newtype_inj. Qed.
#[global] Instance countable : Countable t := inj_countable' as_str new ltac:(by intros []).
#[global] Instance ordkey : OrdKey t := ordkey_via as_str.
End AgentCompiledPlanFingerprint.

Module AgentCompiledNodeId.
Record t := new { as_str : string }.

#[global] Instance eq_dec : EqDecision t.
Proof. solve_decision. Defined.
#[global] Instance as_str_inj : Inj (=) (=) as_str.
Proof. newtype_inj. Qed.
#[global] Instance countable : Countable t := inj_countable' as_str new ltac:(by intros []).
#[global] Instance ordkey : OrdKey t := ordkey_via as_str.
End AgentCompiledNodeId.

Module AgentCompiledEdgeId.
Record t := new { as_str : string }.

#[global] Instance eq_dec : EqDecision t.
Proof. solve_decision. Defined.
#[global] Instance as_str_inj : Inj (=) (=) as_str.
Proof. newtype_inj. Qed.
#[global] Instance countable : Countable t := inj_countable' as_str new ltac:(by intros []).
#[global] Instance ordkey : OrdKey t := ordkey_via as_str.
End AgentCompiledEdgeId.

Module AgentCompiledPortId.
Record t := new { as_str : string }.

#[global] Instance eq_dec : EqDecision t.
Proof. solve_decision. Defined.
#[global] Instance as_str_inj : Inj (=) (=) as_str.
Proof. newtype_inj. Qed.
#[global] Instance countable : Countable t := inj_countable' as_str new ltac:(by intros []).
#[global] Instance ordkey : OrdKey t := ordkey_via as_str.
End AgentCompiledPortId.

Module AgentCredentialBindingRef.
Record t := new { as_str : string }.
End AgentCredentialBindingRef.

Module AgentWorkflowId.
Record t := new { as_str : string }.
End AgentWorkflowId.

Module WorkflowDefinitionVersion.
Record t := new { as_str : string }.
End WorkflowDefinitionVersion.

Definition AgentAttributes : Type := gmap string string.

Module ArtifactKind.
Inductive t := Input | Prompt | Completion | File | Embedding | ToolOutput | Screenshot | Log | State | Other.
End ArtifactKind.

Module RedactionStatus.
Inductive t := Unknown | Unredacted | Redacted | ReferenceOnly.
End RedactionStatus.

Module ArtifactEncryptionRef.
Record t := mk { algorithm : string; key_ref : string; context : AgentAttributes }.
End ArtifactEncryptionRef.

Module ArtifactRef.
Record t := mk {
  artifact_id : string;
  kind : ArtifactKind.t;
  uri : string;
  checksum : option string;
  content_type : option string;
  byte_len : option Z;
  retention_class : option string;
  encryption : option ArtifactEncryptionRef.t;
  redaction : RedactionStatus.t;
  created_at : Z;
  metadata : AgentAttributes;
}.
End ArtifactRef.

(** ** Node kinds and their catalog *)

Module AgentCompiledNodeKind.
Inductive t :=
| Input
| Transform
| Branch
| Join
| Iterator
| ModelCall
| ToolCall
| ProcessCall
| HttpCall
| GrpcCall
| StreamPublish
| ArtifactWrite
| HumanCheckpoint
| TimerWait
| ChildWorkflowCommand
| Notification
| AuditEvent
| Terminal.

#[global] Instance eq_dec : EqDecision t.
Proof. solve_decision. Defined.

Definition all : list t :=
  [Input; Transform; Branch; Join; Iterator;
   ModelCall; ToolCall; ProcessCall; HttpCall; GrpcCall;
   StreamPublish; ArtifactWrite; HumanCheckpoint; TimerWait; ChildWorkflowCommand;
   Notification; AuditEvent; Terminal].

Definition as_label (self : t) : string :=
  match self with
  | Input => "input"
  | Transform => "transform"
  | Branch => "branch"
  | Join => "join"
  | Iterator => "iterator"
  | ModelCall => "model-call"
  | ToolCall => "tool-call"
  | ProcessCall => "process-call"
  | HttpCall => "http-call"
  | GrpcCall => "grpc-call"
  | StreamPublish => "stream-publish"
  | ArtifactWrite => "artifact-write"
  | HumanCheckpoint => "human-checkpoint"
  | TimerWait => "timer-wait"
  | ChildWorkflowCommand => "child-workflow-command"
  | Notification => "notification"
  | AuditEvent => "audit-event"
  | Terminal => "terminal"
  end.

Definition from_label (value : string) : option t :=
  find_first (fun kind => String.eqb (as_label kind) value) all.
End AgentCompiledNodeKind.

Module AgentCompiledPortPolicy.
Inductive t := Any | None | AtLeastOne | AtLeastTwo.

Definition accepts (self : t) (count : nat) : bool :=
  match self with
  | Any => true
  | None => (count =? 0)%nat
  | AtLeastOne => (1 <=? count)%nat
  | AtLeastTwo => (2 <=? count)%nat
  end.

Definition as_label (self : t) : string :=
  match self with
  | Any => "any"
  | None => "none"
  | AtLeastOne => "at-least-one"
  | AtLeastTwo => "at-least-two"
  end.
End AgentCompiledPortPolicy.

Definition COMPILED_GRAPH_V1_CAPABILITY : string := "compiled-graph-v1".
Definition DEFAULT_COMPILED_PLAN_RUNTIME_VERSION : string := "0.1.0".

Module AgentCompiledNodeKindDescriptor.
Record t := mk {
  kind : AgentCompiledNodeKind.t;
  label : string;
  requires_target : bool;
  supports_credential_binding : bool;
  supports_config_ref : bool;
  supports_retry_policy_ref : bool;
  supports_timeout_policy_ref : bool;
  supports_concurrency_policy_ref : bool;
  supports_approval_policy_ref : bool;
  input_port_policy : AgentCompiledPortPolicy.t;
  output_port_policy : AgentCompiledPortPolicy.t;
  branch_semantics : bool;
  join_semantics : bool;
  iterator_semantics : bool;
  required_capability : option string;
  required_feature : option string;
  available : bool;
}.
End AgentCompiledNodeKindDescriptor.

Module AgentCompiledPlanRuntimeCapabilities.
Record t := mk { runtime_version : string; capabilities : list string; enabled_features : list string }.

Definition current : t :=
  mk DEFAULT_COMPILED_PLAN_RUNTIME_VERSION [COMPILED_GRAPH_V1_CAPABILITY] [].

Definition has_capability (self : t) (capability : string) : bool :=
  existsb (String.eqb capability) (capabilities self).

Definition has_enabled_feature (self : t) (feature : string) : bool :=
  existsb (String.eqb feature) (enabled_features self).
End AgentCompiledPlanRuntimeCapabilities.

(** The policies and supports that [descriptor] sets for a kind, over the defaults of
    [AgentCompiledNodeKindDescriptor::new]. *)
Definition descriptor (kind : AgentCompiledNodeKind.t) : AgentCompiledNodeKindDescriptor.t :=
  let mk target credential config retry timeout concurrency approval input output branch join iterator :=
    AgentCompiledNodeKindDescriptor.mk kind (AgentCompiledNodeKind.as_label kind) target credential
      config retry timeout concurrency approval input output branch join iterator
      (Some COMPILED_GRAPH_V1_CAPABILITY) None true in
  match kind with
  | AgentCompiledNodeKind.Input =>
      mk false false false false false false false
         AgentCompiledPortPolicy.None AgentCompiledPortPolicy.AtLeastOne false false false
  | AgentCompiledNodeKind.Transform =>
      mk false false true false true false false
         AgentCompiledPortPolicy.AtLeastOne AgentCompiledPortPolicy.AtLeastOne false false false
  | AgentCompiledNodeKind.Branch =>
      mk false false true false false false false
         AgentCompiledPortPolicy.AtLeastOne AgentCompiledPortPolicy.AtLeastTwo true false false
  | AgentCompiledNodeKind.Join =>
      mk false false false false false false false
         AgentCompiledPortPolicy.AtLeastOne AgentCompiledPortPolicy.AtLeastOne false true false
  | AgentCompiledNodeKind.Iterator =>
      mk false false true false true false false
         AgentCompiledPortPolicy.AtLeastOne AgentCompiledPortPolicy.AtLeastOne false false true
  | AgentCompiledNodeKind.ModelCall | AgentCompiledNodeKind.ToolCall
  | AgentCompiledNodeKind.ProcessCall | AgentCompiledNodeKind.HttpCall
  | AgentCompiledNodeKind.GrpcCall | AgentCompiledNodeKind.StreamPublish
  | AgentCompiledNodeKind.ArtifactWrite | AgentCompiledNodeKind.Notification
  | AgentCompiledNodeKind.ChildWorkflowCommand =>
      mk true true true true true true false
         AgentCompiledPortPolicy.Any AgentCompiledPortPolicy.Any false false false
  | AgentCompiledNodeKind.HumanCheckpoint =>
      mk false false true false true false true
         AgentCompiledPortPolicy.Any AgentCompiledPortPolicy.Any false false false
  | AgentCompiledNodeKind.TimerWait =>
      mk false false true false true false false
         AgentCompiledPortPolicy.Any AgentCompiledPortPolicy.Any false false false
  | AgentCompiledNodeKind.AuditEvent =>
      mk false false true true false false false
         AgentCompiledPortPolicy.Any AgentCompiledPortPolicy.Any false false false
  | AgentCompiledNodeKind.Terminal =>
      mk false false false false false false false
         AgentCompiledPortPolicy.AtLeastOne AgentCompiledPortPolicy.None false false false
  end.

Module AgentCompiledNodeKindCatalog.
Import AgentCompiledNodeKindDescriptor.

Record t := mk {
  runtime_capabilities : AgentCompiledPlanRuntimeCapabilities.t;
  node_kinds : list AgentCompiledNodeKindDescriptor.t;
}.

Definition is_none_or (p : string → bool) (o : option string) : bool :=
  match o with Some x => p x | None => true end.

Definition with_available (d : AgentCompiledNodeKindDescriptor.t) (available : bool) :
    AgentCompiledNodeKindDescriptor.t :=
  AgentCompiledNodeKindDescriptor.mk (kind d) (label d) (requires_target d)
    (supports_credential_binding d) (supports_config_ref d) (supports_retry_policy_ref d)
    (supports_timeout_policy_ref d) (supports_concurrency_policy_ref d)
    (supports_approval_policy_ref d) (input_port_policy d) (output_port_policy d)
    (branch_semantics d) (join_semantics d) (iterator_semantics d) (required_capability d)
    (required_feature d) available.

Definition for_capabilities (capabilities : AgentCompiledPlanRuntimeCapabilities.t) : t :=
  mk capabilities
    ((fun kind =>
        let d := descriptor kind in
        with_available d
          (is_none_or (AgentCompiledPlanRuntimeCapabilities.has_capability capabilities)
             (required_capability d) &&
           is_none_or (AgentCompiledPlanRuntimeCapabilities.has_enabled_feature capabilities)
             (required_feature d))) <$> AgentCompiledNodeKind.all).

Definition current : t := for_capabilities AgentCompiledPlanRuntimeCapabilities.current.

Definition descriptor (self : t) (k : AgentCompiledNodeKind.t) : option AgentCompiledNodeKindDescriptor.t :=
  find_first (fun d => bool_decide (kind d = k)) (node_kinds self).
End AgentCompiledNodeKindCatalog.

(** ** Plans *)

Module AgentCompiledPortDirection.
Inductive t := Input | Output.

Definition as_label (self : t) : string := match self with Input => "input" | Output => "output" end.

#[global] Instance eq_dec : EqDecision t.
Proof. solve_decision. Defined.
End AgentCompiledPortDirection.

Module AgentCompiledPlanPort.
Record t := mk {
  port_id : AgentCompiledPortId.t;
  direction : AgentCompiledPortDirection.t;
  payload_type : string;
  required : bool;
  schema_ref : option ArtifactRef.t;
  attributes : AgentAttributes;
}.
End AgentCompiledPlanPort.

Module AgentCompiledEdgeMergeBehavior.
Inductive t := WaitForAll | WaitForAny.

#[global] Instance eq_dec : EqDecision t.
Proof. solve_decision. Defined.
End AgentCompiledEdgeMergeBehavior.

Module AgentCompiledPlanEdge.
Record t := mk {
  edge_id : AgentCompiledEdgeId.t;
  source_node_id : AgentCompiledNodeId.t;
  source_port_id : AgentCompiledPortId.t;
  target_node_id : AgentCompiledNodeId.t;
  target_port_id : AgentCompiledPortId.t;
  condition_ref : option ArtifactRef.t;
  merge_behavior : option AgentCompiledEdgeMergeBehavior.t;
  attributes : AgentAttributes;
}.

Definition new (edge_id : AgentCompiledEdgeId.t) (source_node_id : AgentCompiledNodeId.t)
    (source_port_id : AgentCompiledPortId.t) (target_node_id : AgentCompiledNodeId.t)
    (target_port_id : AgentCompiledPortId.t) : t :=
  mk edge_id source_node_id source_port_id target_node_id target_port_id None None ∅.
End AgentCompiledPlanEdge.

Module AgentCompiledNodeTarget.
Record t := mk { target_type : string; name : string; address : option string; attributes : AgentAttributes }.
End AgentCompiledNodeTarget.

Module AgentCompiledIteratorPolicy.
Record t := new { max_iterations : Z }.
End AgentCompiledIteratorPolicy.

Module AgentCompiledPlanNode.
Record t := mk {
  node_id : AgentCompiledNodeId.t;
  kind : AgentCompiledNodeKind.t;
  input_ports : list AgentCompiledPlanPort.t;
  output_ports : list AgentCompiledPlanPort.t;
  display_name : option string;
  config_ref : option ArtifactRef.t;
  retry_policy_ref : option ArtifactRef.t;
  timeout_policy_ref : option ArtifactRef.t;
  concurrency_policy_ref : option ArtifactRef.t;
  iterator_policy : option AgentCompiledIteratorPolicy.t;
  target : option AgentCompiledNodeTarget.t;
  credential_binding_ref : option AgentCredentialBindingRef.t;
  observability_labels : AgentAttributes;
}.
End AgentCompiledPlanNode.

Module AgentCompiledPlanCompatibility.
Record t := mk {
  min_runtime_version : option string;
  max_runtime_version : option string;
  required_capabilities : list string;
  attributes : AgentAttributes;
}.

Definition default : t := mk None None [] ∅.
End AgentCompiledPlanCompatibility.

Module AgentCompiledExecutionPlan.
Record t := mk {
  plan_id : AgentCompiledPlanId.t;
  workflow_id : AgentWorkflowId.t;
  workflow_type : string;
  definition_version : WorkflowDefinitionVersion.t;
  plan_schema_version : Z;
  plan_fingerprint : AgentCompiledPlanFingerprint.t;
  entry_node_ids : list AgentCompiledNodeId.t;
  nodes : list AgentCompiledPlanNode.t;
  edges : list AgentCompiledPlanEdge.t;
  source_graph_ref : option ArtifactRef.t;
  compiled_metadata_ref : option ArtifactRef.t;
  payload_schema_refs : list ArtifactRef.t;
  default_retry_policy_ref : option ArtifactRef.t;
  default_timeout_policy_ref : option ArtifactRef.t;
  default_approval_policy_ref : option ArtifactRef.t;
  default_concurrency_policy_ref : option ArtifactRef.t;
  compatibility : AgentCompiledPlanCompatibility.t;
  observability_labels : AgentAttributes;
}.

(** [new] with its entry nodes, nodes and edges added. *)
Definition of_graph (plan_id : AgentCompiledPlanId.t) (workflow_id : AgentWorkflowId.t)
    (workflow_type : string) (definition_version : WorkflowDefinitionVersion.t)
    (plan_schema_version : Z) (plan_fingerprint : AgentCompiledPlanFingerprint.t)
    (entry_node_ids : list AgentCompiledNodeId.t) (nodes : list AgentCompiledPlanNode.t)
    (edges : list AgentCompiledPlanEdge.t) : t :=
  mk plan_id workflow_id workflow_type definition_version plan_schema_version plan_fingerprint
     entry_node_ids nodes edges None None [] None None None None
     AgentCompiledPlanCompatibility.default ∅.
End AgentCompiledExecutionPlan.

(** ** Validation *)

Module AgentCompiledPlanValidationError.
Inductive t :=
| InvalidField (field reason : string)
| MissingRuntimeCapability (capability : string)
| DuplicateNodeId (node_id : AgentCompiledNodeId.t)
| DuplicateEdgeId (edge_id : AgentCompiledEdgeId.t)
| DuplicatePortId (node_id : AgentCompiledNodeId.t) (port_id : AgentCompiledPortId.t)
| UnknownEntryNode (node_id : AgentCompiledNodeId.t)
| UnknownEdgeNode (edge_id : AgentCompiledEdgeId.t) (node_id : AgentCompiledNodeId.t) (role : string)
| UnknownEdgePort (edge_id : AgentCompiledEdgeId.t) (node_id : AgentCompiledNodeId.t)
    (port_id : AgentCompiledPortId.t) (expected_direction : AgentCompiledPortDirection.t)
| PortDirectionMismatch (edge_id : AgentCompiledEdgeId.t) (node_id : AgentCompiledNodeId.t)
    (port_id : AgentCompiledPortId.t) (expected_direction actual_direction : AgentCompiledPortDirection.t)
| UnsupportedNodeKind (node_id : AgentCompiledNodeId.t) (kind : AgentCompiledNodeKind.t)
| UnavailableNodeKind (node_id : AgentCompiledNodeId.t) (kind : AgentCompiledNodeKind.t)
    (required_capability required_feature : option string)
| UnsupportedNodeTarget (node_id : AgentCompiledNodeId.t) (kind : AgentCompiledNodeKind.t)
| MissingRequiredNodeTarget (node_id : AgentCompiledNodeId.t) (kind : AgentCompiledNodeKind.t)
| UnsupportedCredentialBinding (node_id : AgentCompiledNodeId.t) (kind : AgentCompiledNodeKind.t)
| UnsupportedPolicyRef (node_id : AgentCompiledNodeId.t) (kind : AgentCompiledNodeKind.t) (policy : string)
| InvalidPortPolicy (node_id : AgentCompiledNodeId.t) (kind : AgentCompiledNodeKind.t)
    (direction : AgentCompiledPortDirection.t) (policy : AgentCompiledPortPolicy.t) (count : nat)
| InvalidIteratorPolicy (node_id : AgentCompiledNodeId.t) (reason : string)
| InvalidBranchDeclaration (node_id : AgentCompiledNodeId.t) (reason : string)
| InvalidJoinDeclaration (node_id : AgentCompiledNodeId.t) (reason : string)
| MissingRequiredInput (node_id : AgentCompiledNodeId.t) (port_id : AgentCompiledPortId.t)
| MissingReachableTerminal
| CycleDetected (node_id : AgentCompiledNodeId.t)
| UnsafeAttribute (scope key reason : string)
| SecretLikeCredentialBindingRef (node_id : AgentCompiledNodeId.t)
| InvalidEffectSafetyClass (node_id : AgentCompiledNodeId.t) (value : string)
| InvalidEffectMaxAttempts (node_id : AgentCompiledNodeId.t) (value : string)
| InvalidEffectTargetClass (node_id : AgentCompiledNodeId.t) (value : string).

Definition code (self : t) : string :=
  match self with
  | InvalidField _ _ => "invalid_field"
  | MissingRuntimeCapability _ => "missing_runtime_capability"
  | DuplicateNodeId _ => "duplicate_node_id"
  | DuplicateEdgeId _ => "duplicate_edge_id"
  | DuplicatePortId _ _ => "duplicate_port_id"
  | UnknownEntryNode _ => "unknown_entry_node"
  | UnknownEdgeNode _ _ _ => "unknown_edge_node"
  | UnknownEdgePort _ _ _ _ => "unknown_edge_port"
  | PortDirectionMismatch _ _ _ _ _ => "port_direction_mismatch"
  | UnsupportedNodeKind _ _ => "unsupported_node_kind"
  | UnavailableNodeKind _ _ _ _ => "unavailable_node_kind"
  | UnsupportedNodeTarget _ _ => "unsupported_node_target"
  | MissingRequiredNodeTarget _ _ => "missing_required_node_target"
  | UnsupportedCredentialBinding _ _ => "unsupported_credential_binding"
  | UnsupportedPolicyRef _ _ _ => "unsupported_policy_ref"
  | InvalidPortPolicy _ _ _ _ _ => "invalid_port_policy"
  | InvalidIteratorPolicy _ _ => "invalid_iterator_policy"
  | InvalidBranchDeclaration _ _ => "invalid_branch_declaration"
  | InvalidJoinDeclaration _ _ => "invalid_join_declaration"
  | MissingRequiredInput _ _ => "missing_required_input"
  | MissingReachableTerminal => "missing_reachable_terminal"
  | CycleDetected _ => "cycle_detected"
  | UnsafeAttribute _ _ _ => "unsafe_attribute"
  | SecretLikeCredentialBindingRef _ => "secret_like_credential_binding_ref"
  | InvalidEffectSafetyClass _ _ => "invalid-effect-safety-class"
  | InvalidEffectMaxAttempts _ _ => "invalid-effect-max-attempts"
  | InvalidEffectTargetClass _ _ => "invalid-effect-target-class"
  end.

(** A text between backquotes, as the messages quote it. *)
Definition quoted (text : string) : string := "`" +:+ text +:+ "`".

(** The [Display] text. *)
Definition fmt (self : t) : string :=
  let node id := "node " +:+ quoted (AgentCompiledNodeId.as_str id) in
  let edge id := "edge " +:+ quoted (AgentCompiledEdgeId.as_str id) in
  let port id := "port " +:+ quoted (AgentCompiledPortId.as_str id) in
  let kind k := "kind " +:+ quoted (AgentCompiledNodeKind.as_label k) in
  let label := AgentCompiledPortDirection.as_label in
  match self with
  | InvalidField field reason => "invalid compiled plan field " +:+ quoted field +:+ ": " +:+ reason
  | MissingRuntimeCapability capability =>
      "compiled plan requires unavailable runtime capability " +:+ quoted capability
  | DuplicateNodeId id => "duplicate compiled plan node id " +:+ quoted (AgentCompiledNodeId.as_str id)
  | DuplicateEdgeId id => "duplicate compiled plan edge id " +:+ quoted (AgentCompiledEdgeId.as_str id)
  | DuplicatePortId id p =>
      "duplicate compiled plan port id " +:+ quoted (AgentCompiledPortId.as_str p) +:+ " on " +:+ node id
  | UnknownEntryNode id => "entry " +:+ node id +:+ " is not declared"
  | UnknownEdgeNode e id role => edge e +:+ " references unknown " +:+ role +:+ " " +:+ node id
  | UnknownEdgePort e id p expected =>
      edge e +:+ " references unknown " +:+ label expected +:+ " " +:+ port p +:+ " on " +:+ node id
  | PortDirectionMismatch e id p expected actual =>
      edge e +:+ " expected " +:+ label expected +:+ " " +:+ port p +:+ " on " +:+ node id +:+
      ", found " +:+ label actual
  | UnsupportedNodeKind id k => node id +:+ " uses unsupported node " +:+ kind k
  | UnavailableNodeKind id k capability feature =>
      node id +:+ " uses unavailable node " +:+ kind k +:+
      match capability with Some c => " requiring capability " +:+ quoted c | None => "" end +:+
      match feature with Some f => " requiring feature " +:+ quoted f | None => "" end
  | UnsupportedNodeTarget id k => node id +:+ " of " +:+ kind k +:+ " does not support a target"
  | MissingRequiredNodeTarget id k => node id +:+ " of " +:+ kind k +:+ " requires a target"
  | UnsupportedCredentialBinding id k =>
      node id +:+ " of " +:+ kind k +:+ " does not support a credential binding ref"
  | UnsupportedPolicyRef id k policy => node id +:+ " of " +:+ kind k +:+ " does not support " +:+ quoted policy
  | InvalidPortPolicy id k direction policy count =>
      node id +:+ " of " +:+ kind k +:+ " has " +:+ pretty count +:+ " " +:+ label direction +:+
      " ports, expected " +:+ AgentCompiledPortPolicy.as_label policy
  | InvalidIteratorPolicy id reason => "iterator " +:+ node id +:+ " has invalid policy: " +:+ reason
  | InvalidBranchDeclaration id reason => "branch " +:+ node id +:+ " is invalid: " +:+ reason
  | InvalidJoinDeclaration id reason => "join " +:+ node id +:+ " is invalid: " +:+ reason
  | MissingRequiredInput id p => "required input " +:+ port p +:+ " on " +:+ node id +:+ " is not reachable"
  | MissingReachableTerminal => "no terminal node is reachable from compiled plan entry nodes"
  | CycleDetected id =>
      "compiled plan contains an unsupported cycle at " +:+ quoted (AgentCompiledNodeId.as_str id)
  | UnsafeAttribute scope key reason =>
      "unsafe compiled plan attribute " +:+ quoted key +:+ " in " +:+ quoted scope +:+ ": " +:+ reason
  | SecretLikeCredentialBindingRef id =>
      "credential binding ref on " +:+ node id +:+ " looks like raw secret material"
  | InvalidEffectSafetyClass id value =>
      node id +:+ " declares `agent_effect_safety_class` = " +:+ quoted value +:+
      "; expected read-only, idempotent, non-idempotent or reconcileable"
  | InvalidEffectMaxAttempts id value =>
      node id +:+ " declares `agent_effect_max_attempts` = " +:+ quoted value +:+
      "; expected a positive decimal integer"
  | InvalidEffectTargetClass id value =>
      node id +:+ " has target class " +:+ quoted value +:+
      ", which ends in `;gen=<n>` and would make its effect id read as another generation"
  end.
End AgentCompiledPlanValidationError.

Abbreviation AgentCompiledPlanValidationResult := (result AgentCompiledPlanValidationError.t).

Module PlanErr := AgentCompiledPlanValidationError.
Module Node := AgentCompiledPlanNode.
Module Edge := AgentCompiledPlanEdge.
Module Port := AgentCompiledPlanPort.
Module Plan := AgentCompiledExecutionPlan.

Abbreviation node_id_str n := (AgentCompiledNodeId.as_str (Node.node_id n)).

(** *** Text and attributes *)

Definition validate_required_text (field value : string) : AgentCompiledPlanValidationResult unit :=
  if str_is_empty (trim value) then Err (PlanErr.InvalidField field "value must not be empty") else Ok tt.

Definition AGENT_METRIC_ATTRIBUTE_VALUE_MAX_BYTES : nat := 96.

Definition FORBIDDEN_HOT_METRIC_FIELDS : list string :=
  ["workflow_id"; "run_id"; "entity_id"; "command_id"; "effect_id"; "checkpoint_id";
   "correlation_id"; "causation_id"; "deduplication_key"; "idempotency_key"; "prompt_text";
   "completion_text"; "tool_arguments"; "artifact_uri"; "full_error_message"].

Definition label_value_contains_line_break (value : string) : bool :=
  str_contains (ascii_of_nat 10) value || str_contains (ascii_of_nat 13) value.

Definition is_sensitive_attribute_key (key : string) : bool :=
  let normalized := to_ascii_lowercase key in
  existsb (fun p => contains_str p normalized)
    ["secret"; "token"; "password"; "api_key"; "apikey"; "authorization"; "credential"].

Definition looks_like_secret_value (value : string) : bool :=
  let trimmed := trim value in
  let lower := to_ascii_lowercase trimmed in
  existsb (fun p => starts_with p trimmed)
    ["sk-"; "xoxb-"; "ghp_"; "github_pat_"; "AKIA"; "-----BEGIN "] ||
  existsb (fun p => starts_with p lower) ["bearer "; "basic "].

Definition looks_like_credential_binding_ref (value : string) : bool :=
  let normalized := to_ascii_lowercase value in
  contains_str "credential_binding" normalized || contains_str "cred_binding" normalized.

Definition validate_attribute (scope : string) (hot_labels : bool) (p : string * string) :
    AgentCompiledPlanValidationResult unit :=
  let (key, value) := p in
  if str_is_empty (trim key) then
    Err (PlanErr.UnsafeAttribute scope key "attribute keys must not be empty")
  else if (AGENT_METRIC_ATTRIBUTE_VALUE_MAX_BYTES <? String.length key)%nat then
    Err (PlanErr.UnsafeAttribute scope key "attribute keys must be bounded")
  else if (AGENT_METRIC_ATTRIBUTE_VALUE_MAX_BYTES <? String.length value)%nat then
    Err (PlanErr.UnsafeAttribute scope key "attribute values must be bounded")
  else if label_value_contains_line_break value then
    Err (PlanErr.UnsafeAttribute scope key "attribute values must be single-line bounded labels")
  else if is_sensitive_attribute_key key || looks_like_secret_value value then
    Err (PlanErr.UnsafeAttribute scope key "attributes must not contain credential or secret material")
  else if hot_labels && (existsb (String.eqb key) FORBIDDEN_HOT_METRIC_FIELDS ||
                         looks_like_credential_binding_ref value) then
    Err (PlanErr.UnsafeAttribute scope key "hot labels must not contain ids or credential binding refs")
  else Ok tt.

Definition validate_attributes (scope : string) (attributes : AgentAttributes) (hot_labels : bool) :
    AgentCompiledPlanValidationResult unit :=
  try_each (validate_attribute scope hot_labels) (btree_entries attributes).

(** *** Nodes *)

Definition ATTR_TARGET_CLASS : string := "target_class".
Definition ATTR_AGENT_EFFECT_SAFETY_CLASS : string := "agent_effect_safety_class".
Definition ATTR_AGENT_EFFECT_MAX_ATTEMPTS : string := "agent_effect_max_attempts".
Definition AGENT_EFFECT_SAFETY_CLASS_LABELS : list string :=
  ["read-only"; "idempotent"; "non-idempotent"; "reconcileable"].

Definition target_class_reads_as_generation (target_class : string) : bool :=
  match after_last ";gen=" target_class with
  | Some generation => bool_decide (is_Some (parse_u32 generation))
  | None => false
  end.

Definition validate_effect_target_attributes (node : Node.t) (target : AgentCompiledNodeTarget.t) :
    AgentCompiledPlanValidationResult unit :=
  let attributes := AgentCompiledNodeTarget.attributes target in
  let? _ :=
    match attributes !! ATTR_AGENT_EFFECT_SAFETY_CLASS with
    | Some value =>
        if existsb (String.eqb value) AGENT_EFFECT_SAFETY_CLASS_LABELS then Ok tt
        else Err (PlanErr.InvalidEffectSafetyClass (Node.node_id node) value)
    | None => Ok tt
    end in
  let? _ :=
    match attributes !! ATTR_AGENT_EFFECT_MAX_ATTEMPTS with
    | Some value =>
        match parse_u32 value with
        | Some max_attempts =>
            if 0 <? max_attempts then Ok tt
            else Err (PlanErr.InvalidEffectMaxAttempts (Node.node_id node) value)
        | None => Err (PlanErr.InvalidEffectMaxAttempts (Node.node_id node) value)
        end
    | None => Ok tt
    end in
  match attributes !! ATTR_TARGET_CLASS with
  | Some value =>
      if negb (str_is_empty (trim value)) && target_class_reads_as_generation value then
        Err (PlanErr.InvalidEffectTargetClass (Node.node_id node) value)
      else Ok tt
  | None => Ok tt
  end.

Definition validate_node_target (node : Node.t) (target : AgentCompiledNodeTarget.t) :
    AgentCompiledPlanValidationResult unit :=
  let at_ field := "nodes[" +:+ node_id_str node +:+ "].target." +:+ field in
  let? _ := validate_required_text (at_ "target_type") (AgentCompiledNodeTarget.target_type target) in
  let? _ := validate_required_text (at_ "name") (AgentCompiledNodeTarget.name target) in
  let? _ := match AgentCompiledNodeTarget.address target with
            | Some address => validate_required_text (at_ "address") address
            | None => Ok tt
            end in
  let? _ := validate_attributes (at_ "attributes") (AgentCompiledNodeTarget.attributes target) false in
  validate_effect_target_attributes node target.

Definition validate_port (node : Node.t) (port : Port.t) (expected_direction : AgentCompiledPortDirection.t) :
    AgentCompiledPlanValidationResult unit :=
  let port_str := AgentCompiledPortId.as_str (Port.port_id port) in
  let? _ := validate_required_text ("nodes[" +:+ node_id_str node +:+ "].ports[].port_id") port_str in
  let? _ := validate_required_text
              ("nodes[" +:+ node_id_str node +:+ "].ports[" +:+ port_str +:+ "].payload_type")
              (Port.payload_type port) in
  if decide (Port.direction port = expected_direction) then
    validate_attributes ("nodes[" +:+ node_id_str node +:+ "].ports[" +:+ port_str +:+ "].attributes")
      (Port.attributes port) false
  else
    Err (PlanErr.PortDirectionMismatch (AgentCompiledEdgeId.new "<node-port-declaration>")
           (Node.node_id node) (Port.port_id port) expected_direction (Port.direction port)).

Fixpoint validate_port_list (node : Node.t) (expected_direction : AgentCompiledPortDirection.t)
    (port_ids : gset AgentCompiledPortId.t) (ports : list Port.t) :
    AgentCompiledPlanValidationResult (gset AgentCompiledPortId.t) :=
  match ports with
  | [] => Ok port_ids
  | port :: ports =>
      let? _ := validate_port node port expected_direction in
      if decide (Port.port_id port ∈ port_ids) then
        Err (PlanErr.DuplicatePortId (Node.node_id node) (Port.port_id port))
      else validate_port_list node expected_direction ({[Port.port_id port]} ∪ port_ids) ports
  end.

Definition validate_ports (node : Node.t) : AgentCompiledPlanValidationResult unit :=
  let? port_ids := validate_port_list node AgentCompiledPortDirection.Input ∅ (Node.input_ports node) in
  let? _ := validate_port_list node AgentCompiledPortDirection.Output port_ids (Node.output_ports node) in
  Ok tt.

Definition validate_iterator_policy (node : Node.t) (descriptor : AgentCompiledNodeKindDescriptor.t) :
    AgentCompiledPlanValidationResult unit :=
  if AgentCompiledNodeKindDescriptor.iterator_semantics descriptor then
    match Node.iterator_policy node with
    | None => Err (PlanErr.InvalidIteratorPolicy (Node.node_id node)
                     "iterator nodes require an explicit iterator policy")
    | Some policy =>
        if AgentCompiledIteratorPolicy.max_iterations policy =? 0 then
          Err (PlanErr.InvalidIteratorPolicy (Node.node_id node) "max_iterations must be greater than zero")
        else Ok tt
    end
  else
    match Node.iterator_policy node with
    | Some _ => Err (PlanErr.InvalidIteratorPolicy (Node.node_id node)
                       "only iterator nodes may declare iterator policy")
    | None => Ok tt
    end.

(** [ok] or the error. *)
Definition ensure (ok : bool) (e : PlanErr.t) : AgentCompiledPlanValidationResult unit :=
  if ok then Ok tt else Err e.

Definition is_some {A} (o : option A) : bool := match o with Some _ => true | None => false end.

Definition validate_node_shape (node : Node.t) (catalog : AgentCompiledNodeKindCatalog.t) :
    AgentCompiledPlanValidationResult unit :=
  let id := Node.node_id node in
  let kind := Node.kind node in
  let? _ := validate_required_text "nodes[].node_id" (node_id_str node) in
  let? _ := validate_attributes ("nodes[" +:+ node_id_str node +:+ "].observability_labels")
              (Node.observability_labels node) true in
  let? _ := match Node.target node with Some target => validate_node_target node target | None => Ok tt end in
  let? _ :=
    match Node.credential_binding_ref node with
    | Some binding =>
        let value := AgentCredentialBindingRef.as_str binding in
        let? _ := validate_required_text ("nodes[" +:+ node_id_str node +:+ "].credential_binding_ref") value in
        if looks_like_secret_value value then Err (PlanErr.SecretLikeCredentialBindingRef id) else Ok tt
    | None => Ok tt
    end in
  let? d := ok_or (PlanErr.UnsupportedNodeKind id kind) (AgentCompiledNodeKindCatalog.descriptor catalog kind) in
  let? _ := ensure (AgentCompiledNodeKindDescriptor.available d)
              (PlanErr.UnavailableNodeKind id kind (AgentCompiledNodeKindDescriptor.required_capability d)
                 (AgentCompiledNodeKindDescriptor.required_feature d)) in
  let? _ := ensure (negb (AgentCompiledNodeKindDescriptor.requires_target d) || is_some (Node.target node))
              (PlanErr.MissingRequiredNodeTarget id kind) in
  let? _ := ensure (AgentCompiledNodeKindDescriptor.requires_target d || negb (is_some (Node.target node)))
              (PlanErr.UnsupportedNodeTarget id kind) in
  let? _ := ensure (AgentCompiledNodeKindDescriptor.supports_credential_binding d ||
                    negb (is_some (Node.credential_binding_ref node)))
              (PlanErr.UnsupportedCredentialBinding id kind) in
  let? _ := ensure (AgentCompiledNodeKindDescriptor.supports_retry_policy_ref d ||
                    negb (is_some (Node.retry_policy_ref node)))
              (PlanErr.UnsupportedPolicyRef id kind "retry_policy_ref") in
  let? _ := ensure (AgentCompiledNodeKindDescriptor.supports_timeout_policy_ref d ||
                    negb (is_some (Node.timeout_policy_ref node)))
              (PlanErr.UnsupportedPolicyRef id kind "timeout_policy_ref") in
  let? _ := ensure (AgentCompiledNodeKindDescriptor.supports_concurrency_policy_ref d ||
                    negb (is_some (Node.concurrency_policy_ref node)))
              (PlanErr.UnsupportedPolicyRef id kind "concurrency_policy_ref") in
  let? _ := ensure (AgentCompiledPortPolicy.accepts (AgentCompiledNodeKindDescriptor.input_port_policy d)
                      (length (Node.input_ports node)))
              (PlanErr.InvalidPortPolicy id kind AgentCompiledPortDirection.Input
                 (AgentCompiledNodeKindDescriptor.input_port_policy d) (length (Node.input_ports node))) in
  let? _ := ensure (AgentCompiledPortPolicy.accepts (AgentCompiledNodeKindDescriptor.output_port_policy d)
                      (length (Node.output_ports node)))
              (PlanErr.InvalidPortPolicy id kind AgentCompiledPortDirection.Output
                 (AgentCompiledNodeKindDescriptor.output_port_policy d) (length (Node.output_ports node))) in
  let? _ := validate_ports node in
  validate_iterator_policy node d.
