(* ===== verification/PlanSearch.v ===== *)
(** * Searches over a compiled plan's graph: [rakka-agent-workflow/src/compiled_plan.rs]

    [detect_cycle] is the depth-first search with an explicit work stack of (node, next child)
    pairs, [reachable_nodes] the work-list search from the entry nodes.  Both loops carry fuel
    computed from the adjacency table.  [detect_cycle_exact] shows that the answer is a node on
    a cycle, or that there is none (the edge relation is well founded below every node);
    [reachable_exact] that the set is the one reachable from the entries.  Neither theorem
    assumes that the fuel is enough: running out would break them. *)

From S2P Require Import Prelude CompiledPlan.

Abbreviation NodeId := AgentCompiledNodeId.t.
Abbreviation Adjacency := (gmap NodeId (list NodeId)).

(** ** The searches *)

(** [adjacency.get(node_id).map(Vec::as_slice).unwrap_or(&[])] *)
Definition children (adjacency : Adjacency) (node_id : NodeId) : list NodeId :=
  default [] (adjacency !! node_id).

(** How the search below one root ends. *)
Inductive search_end :=
| Cycle (node_id : NodeId)
| Explored (visiting visited : gset NodeId)
| OutOfFuel.

(** The [while] loop; the head of [stack] is its last element. *)
Fixpoint search_root (fuel : nat) (adjacency : Adjacency) (visiting visited : gset NodeId)
    (stack : list (NodeId * nat)) : search_end :=
  match fuel with
  | O => OutOfFuel
  | S fuel =>
      match stack with
      | [] => Explored visiting visited
      | (node_id, child_index) :: below =>
          match children adjacency node_id !! child_index with
          | Some next =>
              let stack := (node_id, S child_index) :: below in
              if decide (next ∈ visiting) then Cycle next
              else if decide (next ∈ visited) then search_root fuel adjacency visiting visited stack
              else search_root fuel adjacency ({[next]} ∪ visiting) visited ((next, O) :: stack)
          | None =>
              search_root fuel adjacency (visiting ∖ {[node_id]}) ({[node_id]} ∪ visited) below
          end
      end
  end.

(** The children not yet scanned of the nodes outside [seen]. *)
Definition unseen_in (seen : gset NodeId) (entries : list (NodeId * list NodeId)) : nat :=
  sum_list_with (fun e => if decide (e.1 ∈ seen) then O else length e.2) entries.

Definition unseen (adjacency : Adjacency) (seen : gset NodeId) : nat :=
  unseen_in seen (btree_entries adjacency).

(** Every child is scanned once and every node on the path popped once. *)
Definition search_fuel (adjacency : Adjacency) : nat := 2 * unseen adjacency ∅ + 2.

Fixpoint search_roots (adjacency : Adjacency) (visiting visited : gset NodeId) (roots : list NodeId) :
    option NodeId :=
  match roots with
  | [] => None
  | root :: roots =>
      if decide (root ∈ visited) then search_roots adjacency visiting visited roots
      else
        match search_root (search_fuel adjacency) adjacency ({[root]} ∪ visiting) visited [(root, O)] with
        | Cycle node_id => Some node_id
        | Explored visiting visited => search_roots adjacency visiting visited roots
        | OutOfFuel => None
        end
  end.

Definition detect_cycle (adjacency : Adjacency) : option NodeId :=
  search_roots adjacency ∅ ∅ (btree_keys adjacency).

(** The work list of [reachable_nodes]; its head is the last element of the vector. *)
Fixpoint reachable_from (fuel : nat) (adjacency : Adjacency) (reachable : gset NodeId)
    (stack : list NodeId) : gset NodeId :=
  match fuel with
  | O => reachable
  | S fuel =>
      match stack with
      | [] => reachable
      | node_id :: stack =>
          if decide (node_id ∈ reachable) then reachable_from fuel adjacency reachable stack
          else reachable_from fuel adjacency ({[node_id]} ∪ reachable) (children adjacency node_id ++ stack)
      end
  end.

Definition reachable_nodes (entry_node_ids : list NodeId) (adjacency : Adjacency) : gset NodeId :=
  reachable_from (length entry_node_ids + unseen adjacency ∅ + 1) adjacency ∅ entry_node_ids.

(** ** The edge relation and the measure *)

Definition edge (adjacency : Adjacency) (n c : NodeId) : Prop := c ∈ children adjacency n.

Lemma unseen_in_mono seen seen' l : seen ⊆ seen' → (unseen_in seen' l ≤ unseen_in seen l)%nat.
Proof.
  intros Hsub. unfold unseen_in. induction l as [|[k cs] l IH]; simpl; [lia|].
  destruct (decide (k ∈ seen')), (decide (k ∈ seen)); try lia. set_solver.
Qed.

Lemma unseen_in_insert seen l k cs :
  k ∉ seen → (k, cs) ∈ l → (unseen_in ({[k]} ∪ seen) l + length cs ≤ unseen_in seen l)%nat.
Proof.
  intros Hk. induction l as [|[k' cs'] l IH]; intros Hin; [by apply not_elem_of_nil in Hin|].
  apply elem_of_cons in Hin as [[= <- <-]|Hin].
  - pose proof (unseen_in_mono seen ({[k]} ∪ seen) l ltac:(set_solver)) as Hm. unfold unseen_in in *. simpl.
    rewrite (decide_False (P := k ∈ seen)) by done. rewrite decide_True by set_solver. lia.
  - specialize (IH Hin). unfold unseen_in in *. simpl.
    destruct (decide (k' ∈ {[k]} ∪ seen)), (decide (k' ∈ seen)); try lia. set_solver.
Qed.

Section Measure.
Context (adjacency : Adjacency).

Lemma unseen_mono seen seen' : seen ⊆ seen' → (unseen adjacency seen' ≤ unseen adjacency seen)%nat.
Proof. apply unseen_in_mono. Qed.

Lemma unseen_insert seen k :
  k ∉ seen → (unseen adjacency ({[k]} ∪ seen) + length (children adjacency k) ≤ unseen adjacency seen)%nat.
Proof.
  intros Hk. unfold children. destruct (adjacency !! k) as [cs|] eqn:Hcs; simpl.
  - apply unseen_in_insert; [done|]. by apply elem_of_btree_entries.
  - pose proof (unseen_mono seen ({[k]} ∪ seen) ltac:(set_solver)). lia.
Qed.

(** What a stack still has to do: a step per remaining child and a pop. *)
Definition stack_work (stack : list (NodeId * nat)) : nat :=
  sum_list_with (fun e => S (2 * (length (children adjacency e.1) - e.2))) stack.

Definition work (visiting visited : gset NodeId) (stack : list (NodeId * nat)) : nat :=
  2 * unseen adjacency (visiting ∪ visited) + stack_work stack.
End Measure.

(** ** The depth-first search *)

Section Search.
Context (adjacency : Adjacency).

Implicit Types (visiting visited : gset NodeId) (n m : NodeId) (stack : list (NodeId * nat)).

(** The children of [n] before [i] have been visited. *)
Definition scanned visited n i : Prop :=
  ∀ j m, (j < i)%nat → children adjacency n !! j = Some m → m ∈ visited.

(** Each entry of the path below [top] last stepped to the entry above it. *)
Fixpoint path_below visited (top : NodeId) stack : Prop :=
  match stack with
  | [] => True
  | (n, i) :: stack =>
      ∃ j, i = S j ∧ children adjacency n !! j = Some top ∧ scanned visited n j ∧ path_below visited n stack
  end.

Definition path_ok visited stack : Prop :=
  match stack with [] => True | (n, i) :: below => scanned visited n i ∧ path_below visited n below end.

Record search_ok visiting visited stack : Prop := {
  ok_visiting : ∀ n, n ∈ visiting ↔ n ∈ (stack.*1);
  ok_nodup : NoDup stack.*1;
  ok_path : path_ok visited stack;
  ok_visited : ∀ n, n ∈ visited → (n ∉ visiting) ∧ Acc (flip (edge adjacency)) n;
}.

Lemma scanned_mono visited visited' n i : visited ⊆ visited' → scanned visited n i → scanned visited' n i.
Proof. intros Hsub H j m Hj Hm. apply Hsub, (H j m Hj Hm). Qed.

Lemma path_below_mono visited visited' top stack :
  visited ⊆ visited' → path_below visited top stack → path_below visited' top stack.
Proof.
  intros Hsub. revert top. induction stack as [|[n i] stack IH]; intros top; simpl; [done|].
  intros (j & -> & Hj & Hscan & Hbelow). exists j. split_and!; [done|done|by eapply scanned_mono|by apply IH].
Qed.

(** The entries below lead to the top. *)
Lemma path_below_leads visited top stack n :
  path_below visited top stack → n ∈ stack.*1 → tc (edge adjacency) n top.
Proof.
  revert top. induction stack as [|[m i] stack IH]; intros top; simpl; [by rewrite elem_of_nil|].
  intros (j & -> & Hj & _ & Hbelow) Hin. apply list_elem_of_lookup_2 in Hj.
  apply elem_of_cons in Hin as [->|Hin]; [by apply tc_once|].
  eapply tc_r; [by apply (IH m)|done].
Qed.

Lemma scanned_all_acc visiting visited n i :
  scanned visited n i → children adjacency n !! i = None →
  (∀ m, m ∈ visited → (m ∉ visiting) ∧ Acc (flip (edge adjacency)) m) →
  Acc (flip (edge adjacency)) n.
Proof.
  intros Hscan Hend Hacc. constructor. intros m Hm. apply list_elem_of_lookup_1 in Hm as [j Hj].
  apply (Hacc m), (Hscan j m); [|done].
  apply lookup_lt_Some in Hj. apply lookup_ge_None in Hend. lia.
Qed.

Lemma scanned_S visited n i m :
  scanned visited n i → children adjacency n !! i = Some m → m ∈ visited → scanned visited n (S i).
Proof.
  intros Hscan Hi Hm j m' Hj Hm'. destruct (decide (j = i)) as [->|]; [congruence|].
  apply (Hscan j m'); [lia|done].
Qed.

(** The three moves of the loop keep the invariant. *)
Lemma search_ok_skip visiting visited n i below next :
  search_ok visiting visited ((n, i) :: below) → children adjacency n !! i = Some next → next ∈ visited →
  search_ok visiting visited ((n, S i) :: below).
Proof.
  intros [Hv Hnd [Hscan Hbelow] Hvis] Hnext Hin. split; try done.
  split; [by eapply scanned_S|done].
Qed.

Lemma search_ok_push visiting visited n i below next :
  search_ok visiting visited ((n, i) :: below) → children adjacency n !! i = Some next →
  next ∉ visiting → next ∉ visited →
  search_ok ({[next]} ∪ visiting) visited ((next, O) :: (n, S i) :: below).
Proof.
  intros [Hv Hnd [Hscan Hbelow] Hvis] Hnext Hni Hnv. split.
  - intros m. rewrite elem_of_union, elem_of_singleton, Hv. simpl. by rewrite !elem_of_cons.
  - simpl. constructor; [|done]. by rewrite Hv in Hni.
  - split; [intros j m Hj; lia|]. by exists i.
  - intros m Hm. destruct (Hvis m Hm). split; [|done]. set_solver.
Qed.

Lemma search_ok_pop visiting visited n i below :
  search_ok visiting visited ((n, i) :: below) → children adjacency n !! i = None →
  search_ok (visiting ∖ {[n]}) ({[n]} ∪ visited) below.
Proof.
  intros [Hv Hnd [Hscan Hbelow] Hvis] Hend. simpl in *. apply NoDup_cons in Hnd as [Hn Hnd]. split.
  - intros m. rewrite elem_of_difference, elem_of_singleton, Hv, elem_of_cons.
    split; [by intros [[->|?] ?]|]. intros Hm. split; [by right|]. by intros ->.
  - done.
  - destruct below as [|[p k] below]; [done|]. simpl in Hbelow.
    destruct Hbelow as (j & -> & Hj & Hsc & Hbelow). split.
    + eapply scanned_S; [|done|set_solver]. eapply scanned_mono; [|done]. set_solver.
    + eapply path_below_mono; [|done]. set_solver.
  - intros m Hm. apply elem_of_union in Hm as [->%elem_of_singleton|Hm].
    + split; [set_solver|]. by eapply scanned_all_acc.
    + destruct (Hvis m Hm). split; [set_solver|done].
Qed.

(** How the search below one root must end: on a cycle, or with the stack's nodes visited. *)
Definition search_post visited stack (r : search_end) : Prop :=
  match r with
  | Cycle n => tc (edge adjacency) n n
  | Explored visiting' visited' =>
      search_ok visiting' visited' [] ∧ visited ⊆ visited' ∧ ∀ n, n ∈ stack.*1 → n ∈ visited'
  | OutOfFuel => False
  end.

(** A pop decreases the work, since the node stays seen. *)
Lemma work_pop visiting visited n i below :
  (work adjacency (visiting ∖ {[n]}) ({[n]} ∪ visited) below
   < work adjacency visiting visited ((n, i) :: below))%nat.
Proof.
  unfold work. simpl. enough (unseen adjacency (visiting ∖ {[n]} ∪ ({[n]} ∪ visited))
                              ≤ unseen adjacency (visiting ∪ visited))%nat by lia.
  apply unseen_mono. intros x Hx. destruct (decide (x = n)); set_solver.
Qed.

Lemma work_push visiting visited n i below next :
  children adjacency n !! i = Some next → next ∉ visiting → next ∉ visited →
  (work adjacency ({[next]} ∪ visiting) visited ((next, O) :: (n, S i) :: below)
   < work adjacency visiting visited ((n, i) :: below))%nat.
Proof.
  intros Hnext%lookup_lt_Some Hni Hnv. unfold work. simpl.
  pose proof (unseen_insert adjacency (visiting ∪ visited) next ltac:(set_solver)) as Hu.
  rewrite (assoc_L (∪)) in Hu. lia.
Qed.

Lemma search_post_weaken visited visited' stack stack' r :
  visited ⊆ visited' → (∀ n, n ∈ stack.*1 → n ∈ visited' ∨ n ∈ stack'.*1) →
  search_post visited' stack' r → search_post visited stack r.
Proof.
  intros Hsub Hin. destruct r as [| visiting'' visited''|]; simpl; [done| |done].
  intros (Hok & Hsub' & Hall). split_and!; [done|set_solver|].
  intros n Hn. destruct (Hin n Hn) as [?|?]; [set_solver|auto].
Qed.

Lemma search_root_spec fuel visiting visited stack :
  search_ok visiting visited stack → (work adjacency visiting visited stack < fuel)%nat →
  search_post visited stack (search_root fuel adjacency visiting visited stack).
Proof.
  revert visiting visited stack. induction fuel as [|fuel IH]; intros visiting visited stack Hok Hfuel; [lia|].
  destruct stack as [|[n i] below]; simpl.
  { split_and!; [done|done|]. by intros n ?%elem_of_nil. }
  destruct (children adjacency n !! i) as [next|] eqn:Hnext.
  - destruct (decide (next ∈ visiting)) as [Hin|Hni]; [|destruct (decide (next ∈ visited)) as [Hvd|Hnv]].
    + simpl. destruct Hok as [Hv _ [_ Hbelow] _]. apply Hv in Hin. simpl in Hin.
      assert (edge adjacency n next) as He by by apply list_elem_of_lookup_2 in Hnext.
      apply elem_of_cons in Hin as [->|Hin]; [by apply tc_once|].
      eapply tc_r; [by eapply path_below_leads|done].
    + eapply search_post_weaken, IH; [done| |by eapply search_ok_skip|].
      { simpl. set_solver. }
      apply lookup_lt_Some in Hnext. unfold work in *. simpl in *. lia.
    + eapply search_post_weaken, IH; [done| |by apply search_ok_push|].
      { simpl. set_solver. }
      pose proof (work_push _ _ _ _ below _ Hnext Hni Hnv). lia.
  - eapply search_post_weaken, IH; [| |by eapply search_ok_pop|].
    + set_solver.
    + simpl. set_solver.
    + pose proof (work_pop visiting visited n i below). lia.
Qed.

Lemma search_ok_root visited root :
  search_ok ∅ visited [] → root ∉ visited → search_ok ({[root]} ∪ ∅) visited [(root, O)].
Proof.
  intros [_ _ _ Hvis] Hroot. split.
  - intros n. simpl. set_solver.
  - simpl. apply NoDup_singleton.
  - split; [intros j m Hj; lia|done].
  - intros n Hn. destruct (Hvis n Hn). split; [set_solver|done].
Qed.

Lemma root_work visited root :
  (work adjacency ({[root]} ∪ ∅) visited [(root, O)] < search_fuel adjacency)%nat.
Proof.
  unfold work, search_fuel. simpl.
  pose proof (unseen_insert adjacency ∅ root ltac:(set_solver)).
  pose proof (unseen_mono adjacency ({[root]} ∪ ∅) ({[root]} ∪ ∅ ∪ visited) ltac:(set_solver)). lia.
Qed.

Lemma search_roots_spec roots visiting visited :
  search_ok visiting visited [] →
  match search_roots adjacency visiting visited roots with
  | Some n => tc (edge adjacency) n n
  | None => ∀ n, n ∈ roots ∨ n ∈ visited → Acc (flip (edge adjacency)) n
  end.
Proof.
  revert visiting visited. induction roots as [|root roots IH]; intros visiting visited Hok; simpl.
  { intros n [?%elem_of_nil|Hn]; [done|]. by apply (ok_visited _ _ _ Hok). }
  destruct (decide (root ∈ visited)) as [Hin|Hni].
  - specialize (IH _ _ Hok). destruct search_roots; [done|]. set_solver.
  - assert (visiting = ∅) as -> by (apply set_eq; intros x; rewrite (ok_visiting _ _ _ Hok); set_solver).
    pose proof (search_root_spec _ _ _ _ (search_ok_root _ _ Hok Hni) (root_work visited root)) as Hpost.
    destruct search_root as [n|visiting' visited'|]; [done| |done].
    destruct Hpost as (Hok' & Hsub & Hroot). specialize (IH _ _ Hok').
    destruct search_roots as [n|]; [done|]. intros n Hn. apply IH.
    pose proof (Hroot root ltac:(simpl; set_solver)). set_solver.
Qed.
End Search.

Lemma detect_cycle_spec (adjacency : Adjacency) :
  match detect_cycle adjacency with
  | Some n => tc (edge adjacency) n n
  | None => ∀ n, Acc (flip (edge adjacency)) n
  end.
Proof.
  pose proof (search_roots_spec adjacency (btree_keys adjacency) ∅ ∅) as H.
  unfold detect_cycle. destruct search_roots as [n|].
  { apply H. by split; [set_solver|constructor| |set_solver]. }
  intros n. destruct (adjacency !! n) as [cs|] eqn:Hn.
  - apply H; [by split; [set_solver|constructor| |set_solver]|]. left. by apply elem_of_btree_keys.
  - constructor. intros m Hm. unfold flip, edge, children in Hm. rewrite Hn in Hm. set_solver.
Qed.

(** The cycle check is exact: a reported node lies on a cycle of the plan's edges, and
    when none is reported every node is well founded under the edges, so that no path of the
    plan is infinite. *)
Theorem detect_cycle_exact (adjacency : Adjacency) :
  match detect_cycle adjacency with
  | Some n => tc (edge adjacency) n n
  | None => ∀ n, Acc (flip (edge adjacency)) n
  end.
Proof. apply detect_cycle_spec. Qed.

(** ** The work list *)

Section Reach.
Context (adjacency : Adjacency) (entries : list NodeId).

Definition reaches (n : NodeId) : Prop := ∃ e, e ∈ entries ∧ rtc (edge adjacency) e n.

Record reach_ok (reachable : gset NodeId) (stack : list NodeId) : Prop := {
  reach_sound : ∀ n, n ∈ reachable ∨ n ∈ stack → reaches n;
  reach_entries : ∀ n, n ∈ entries → n ∈ reachable ∨ n ∈ stack;
  reach_closed : ∀ n c, n ∈ reachable → edge adjacency n c → c ∈ reachable ∨ c ∈ stack;
}.

Lemma reachable_from_spec fuel reachable stack :
  reach_ok reachable stack → (unseen adjacency reachable + length stack < fuel)%nat →
  reach_ok (reachable_from fuel adjacency reachable stack) [].
Proof.
  revert reachable stack. induction fuel as [|fuel IH]; intros reachable stack Hok Hfuel; [lia|].
  destruct stack as [|n stack]; simpl; [done|]. destruct Hok as [Hs He Hc].
  destruct (decide (n ∈ reachable)) as [Hin|Hni].
  - apply IH; [|simpl in *; lia]. split; [set_solver| |].
    + intros m Hm. destruct (He m Hm) as [|Hm']; [by left|]. set_solver.
    + intros m c Hm Hmc. destruct (Hc m c Hm Hmc); set_solver.
  - pose proof (unseen_insert adjacency reachable n Hni). apply IH; [|rewrite length_app; simpl in *; lia].
    split.
    + intros m Hm. rewrite elem_of_union, elem_of_singleton, elem_of_app in Hm.
      destruct Hm as [[->|?]|[Hm|?]]; [apply Hs; set_solver|apply Hs; set_solver| |apply Hs; set_solver].
      destruct (Hs n ltac:(set_solver)) as (e & Hent & Hp). exists e. split; [done|]. by eapply rtc_r.
    + intros m Hm. destruct (He m Hm); set_solver.
    + intros m c Hm Hmc. apply elem_of_union in Hm as [->%elem_of_singleton|Hm]; [set_solver|].
      destruct (Hc m c Hm Hmc); set_solver.
Qed.
End Reach.

Lemma elem_of_reachable_nodes entries adjacency n :
  n ∈ reachable_nodes entries adjacency ↔ reaches adjacency entries n.
Proof.
  assert (reach_ok adjacency entries (reachable_nodes entries adjacency) []) as [Hs He Hc].
  { apply reachable_from_spec; [|lia]. split; [|set_solver|set_solver].
    intros m [?|Hm]; [set_solver|]. by exists m. }
  split; [intros Hn; apply Hs; by left|].
  intros (e & Hent & Hp). assert (e ∈ reachable_nodes entries adjacency) as Hin by (destruct (He e Hent); set_solver).
  clear Hent. induction Hp as [e|e m n Hem Hp IH]; [done|].
  apply IH. destruct (Hc e m Hin Hem); set_solver.
Qed.

(** The work list search is exact: a node is in the set if and only if some path of edges
    leads to it from an entry node, for every adjacency table, cyclic or not. *)
Theorem reachable_exact (entries : list NodeId) (adjacency : Adjacency) (n : NodeId) :
  n ∈ reachable_nodes entries adjacency ↔ ∃ e, e ∈ entries ∧ rtc (edge adjacency) e n.
Proof. apply elem_of_reachable_nodes. Qed.
