(* ===== verification/PlanValidation.v ===== *)
(** * Validation of compiled plans: [rakka-agent-workflow/src/compiled_plan.rs]

    [validate_compiled_execution_plan_with_catalog] checks the plan's own fields, its nodes, its
    entries, its edges (which fill five tables), the graph for cycles and for a reachable
    terminal node, and the inputs, branches and joins of every node.  [plan_ok] collects what
    the scheduler relies on; [validated_plan_ok] shows that a plan that passes has it. *)

From S2P Require Import Prelude CompiledPlan PlanSearch.

Abbreviation NodesById := (gmap NodeId Node.t).
Abbreviation PortKey := (NodeId * AgentCompiledPortId.t)%type.

(** ** Edges *)

Definition validate_edge_fields (edge : Edge.t) : AgentCompiledPlanValidationResult unit :=
  let at_ field := "edges[" +:+ AgentCompiledEdgeId.as_str (Edge.edge_id edge) +:+ "]." +:+ field in
  let? _ := validate_required_text "edges[].edge_id" (AgentCompiledEdgeId.as_str (Edge.edge_id edge)) in
  let? _ := validate_required_text (at_ "source_node_id") (AgentCompiledNodeId.as_str (Edge.source_node_id edge)) in
  let? _ := validate_required_text (at_ "source_port_id") (AgentCompiledPortId.as_str (Edge.source_port_id edge)) in
  let? _ := validate_required_text (at_ "target_node_id") (AgentCompiledNodeId.as_str (Edge.target_node_id edge)) in
  let? _ := validate_required_text (at_ "target_port_id") (AgentCompiledPortId.as_str (Edge.target_port_id edge)) in
  validate_attributes (at_ "attributes") (Edge.attributes edge) false.

Definition find_port_in (ports : list Port.t) (port_id : AgentCompiledPortId.t) : option Port.t :=
  find_first (fun port => bool_decide (Port.port_id port = port_id)) ports.

Definition find_port (node : Node.t) (port_id : AgentCompiledPortId.t)
    (direction : AgentCompiledPortDirection.t) : option Port.t :=
  match direction with
  | AgentCompiledPortDirection.Input => find_port_in (Node.input_ports node) port_id
  | AgentCompiledPortDirection.Output => find_port_in (Node.output_ports node) port_id
  end.

Definition find_port_any_direction (node : Node.t) (port_id : AgentCompiledPortId.t) :
    option AgentCompiledPortDirection.t :=
  match Port.direction <$> find_port_in (Node.input_ports node) port_id with
  | Some direction => Some direction
  | None => Port.direction <$> find_port_in (Node.output_ports node) port_id
  end.

Definition validate_edge_endpoint (edge : Edge.t) (nodes_by_id : NodesById) (node_id : NodeId)
    (port_id : AgentCompiledPortId.t) (expected_direction : AgentCompiledPortDirection.t) (role : string) :
    AgentCompiledPlanValidationResult unit :=
  let? node := ok_or (PlanErr.UnknownEdgeNode (Edge.edge_id edge) node_id role) (nodes_by_id !! node_id) in
  match find_port node port_id expected_direction with
  | Some _ => Ok tt
  | None =>
      match find_port_any_direction node port_id with
      | Some actual_direction =>
          Err (PlanErr.PortDirectionMismatch (Edge.edge_id edge) node_id port_id expected_direction
                 actual_direction)
      | None => Err (PlanErr.UnknownEdgePort (Edge.edge_id edge) node_id port_id expected_direction)
      end
  end.

(** [entry(key).or_default().push(value)] *)
Definition push_at {K V} `{Countable K} (key : K) (value : V) (m : gmap K (list V)) : gmap K (list V) :=
  <[key := default [] (m !! key) ++ [value]]> m.

Definition empty_adjacency (nodes_by_id : NodesById) : Adjacency := (fun _ => []) <$> nodes_by_id.

(** The tables that the edge loop fills. *)
Record edge_tables := mk_tables {
  edge_ids : gset AgentCompiledEdgeId.t;
  adjacency : Adjacency;
  incoming_by_port : gset PortKey;
  outgoing_by_port : gset PortKey;
  incoming_edges_by_node : gmap NodeId (list Edge.t);
}.

Definition record_edge (t : edge_tables) (edge : Edge.t) : edge_tables :=
  mk_tables ({[Edge.edge_id edge]} ∪ edge_ids t)
    (push_at (Edge.source_node_id edge) (Edge.target_node_id edge) (adjacency t))
    ({[(Edge.target_node_id edge, Edge.target_port_id edge)]} ∪ incoming_by_port t)
    ({[(Edge.source_node_id edge, Edge.source_port_id edge)]} ∪ outgoing_by_port t)
    (push_at (Edge.target_node_id edge) edge (incoming_edges_by_node t)).

Definition validate_edge (nodes_by_id : NodesById) (t : edge_tables) (edge : Edge.t) :
    AgentCompiledPlanValidationResult unit :=
  let? _ := validate_edge_fields edge in
  let? _ := ensure (bool_decide (Edge.edge_id edge ∉ edge_ids t)) (PlanErr.DuplicateEdgeId (Edge.edge_id edge)) in
  let? _ := validate_edge_endpoint edge nodes_by_id (Edge.source_node_id edge) (Edge.source_port_id edge)
              AgentCompiledPortDirection.Output "source" in
  validate_edge_endpoint edge nodes_by_id (Edge.target_node_id edge) (Edge.target_port_id edge)
    AgentCompiledPortDirection.Input "target".

Fixpoint validate_edges (nodes_by_id : NodesById) (t : edge_tables) (edges : list Edge.t) :
    AgentCompiledPlanValidationResult edge_tables :=
  match edges with
  | [] => Ok t
  | edge :: edges =>
      let? _ := validate_edge nodes_by_id t edge in
      validate_edges nodes_by_id (record_edge t edge) edges
  end.

(** ** Nodes against the tables *)

Fixpoint validate_nodes (catalog : AgentCompiledNodeKindCatalog.t) (nodes_by_id : NodesById)
    (nodes : list Node.t) : AgentCompiledPlanValidationResult NodesById :=
  match nodes with
  | [] => Ok nodes_by_id
  | node :: nodes =>
      let? _ := validate_node_shape node catalog in
      let? _ := ensure (negb (is_some (nodes_by_id !! Node.node_id node)))
                  (PlanErr.DuplicateNodeId (Node.node_id node)) in
      validate_nodes catalog (<[Node.node_id node := node]> nodes_by_id) nodes
  end.

Definition validate_entry (nodes_by_id : NodesById) (entry_node_id : NodeId) :
    AgentCompiledPlanValidationResult unit :=
  let? _ := validate_required_text "entry_node_ids[]" (AgentCompiledNodeId.as_str entry_node_id) in
  ensure (is_some (nodes_by_id !! entry_node_id)) (PlanErr.UnknownEntryNode entry_node_id).

Definition validate_reachable_required_inputs (node : Node.t) (entry_ids reachable : gset NodeId)
    (incoming : gset PortKey) : AgentCompiledPlanValidationResult unit :=
  let id := Node.node_id node in
  if decide (id ∈ entry_ids) then Ok tt
  else
    try_each (fun port =>
        ensure (bool_decide (id ∈ reachable) && bool_decide ((id, Port.port_id port) ∈ incoming))
          (PlanErr.MissingRequiredInput id (Port.port_id port)))
      (filter (fun port => Port.required port = true) (Node.input_ports node)).

Definition validate_branch_edges (node : Node.t) (outgoing : gset PortKey) :
    AgentCompiledPlanValidationResult unit :=
  if decide (Node.kind node = AgentCompiledNodeKind.Branch) then
    let connected_output_count :=
      length (filter (fun port => (Node.node_id node, Port.port_id port) ∈ outgoing) (Node.output_ports node)) in
    ensure (2 <=? connected_output_count)%nat
      (PlanErr.InvalidBranchDeclaration (Node.node_id node)
         "branch nodes require at least two connected output paths")
  else Ok tt.

Definition validate_join_edges (node : Node.t) (incoming_edges_by_node : gmap NodeId (list Edge.t)) :
    AgentCompiledPlanValidationResult unit :=
  if decide (Node.kind node = AgentCompiledNodeKind.Join) then
    let? incoming_edges :=
      ok_or (PlanErr.InvalidJoinDeclaration (Node.node_id node)
               "join nodes require at least one incoming edge")
        (incoming_edges_by_node !! Node.node_id node) in
    ensure (forallb (fun edge => is_some (Edge.merge_behavior edge)) incoming_edges)
      (PlanErr.InvalidJoinDeclaration (Node.node_id node)
         "join incoming edges must declare wait-for-all or wait-for-any behavior")
  else Ok tt.

(** ** The whole plan *)

Definition validate_plan_fields (plan : Plan.t) (catalog : AgentCompiledNodeKindCatalog.t) :
    AgentCompiledPlanValidationResult unit :=
  let? _ := validate_required_text "plan_id" (AgentCompiledPlanId.as_str (Plan.plan_id plan)) in
  let? _ := validate_required_text "workflow_id" (AgentWorkflowId.as_str (Plan.workflow_id plan)) in
  let? _ := validate_required_text "workflow_type" (Plan.workflow_type plan) in
  let? _ := validate_required_text "definition_version"
              (WorkflowDefinitionVersion.as_str (Plan.definition_version plan)) in
  let? _ := validate_required_text "plan_fingerprint"
              (AgentCompiledPlanFingerprint.as_str (Plan.plan_fingerprint plan)) in
  let? _ := ensure (negb (Plan.plan_schema_version plan =? 0))
              (PlanErr.InvalidField "plan_schema_version" "schema version must be greater than zero") in
  let? _ := ensure (negb (bool_decide (Plan.entry_node_ids plan = [])))
              (PlanErr.InvalidField "entry_node_ids" "at least one entry node is required") in
  let? _ := validate_attributes "plan.observability_labels" (Plan.observability_labels plan) true in
  let? _ := validate_attributes "plan.compatibility.attributes"
              (AgentCompiledPlanCompatibility.attributes (Plan.compatibility plan)) false in
  try_each (fun required =>
      let? _ := validate_required_text "compatibility.required_capabilities[]" required in
      ensure (AgentCompiledPlanRuntimeCapabilities.has_capability
                (AgentCompiledNodeKindCatalog.runtime_capabilities catalog) required)
        (PlanErr.MissingRuntimeCapability required))
    (AgentCompiledPlanCompatibility.required_capabilities (Plan.compatibility plan)).

Definition is_terminal_node (nodes_by_id : NodesById) (node_id : NodeId) : bool :=
  match nodes_by_id !! node_id with
  | Some node => bool_decide (Node.kind node = AgentCompiledNodeKind.Terminal)
  | None => false
  end.

Definition validate_compiled_execution_plan_with_catalog (plan : Plan.t)
    (catalog : AgentCompiledNodeKindCatalog.t) : AgentCompiledPlanValidationResult unit :=
  let? _ := validate_plan_fields plan catalog in
  let? nodes_by_id := validate_nodes catalog ∅ (Plan.nodes plan) in
  let? _ := ensure (negb (bool_decide (nodes_by_id = ∅)))
              (PlanErr.InvalidField "nodes" "at least one node is required") in
  let? _ := try_each (validate_entry nodes_by_id) (Plan.entry_node_ids plan) in
  let entry_ids : gset NodeId := list_to_set (Plan.entry_node_ids plan) in
  let? t := validate_edges nodes_by_id (mk_tables ∅ (empty_adjacency nodes_by_id) ∅ ∅ ∅) (Plan.edges plan) in
  let? _ := match detect_cycle (adjacency t) with
            | Some node_id => Err (PlanErr.CycleDetected node_id)
            | None => Ok tt
            end in
  let reachable := reachable_nodes (Plan.entry_node_ids plan) (adjacency t) in
  let? _ := ensure (existsb (is_terminal_node nodes_by_id) (elements reachable))
              PlanErr.MissingReachableTerminal in
  try_each (fun node =>
      let? _ := validate_reachable_required_inputs node entry_ids reachable (incoming_by_port t) in
      let? _ := validate_branch_edges node (outgoing_by_port t) in
      validate_join_edges node (incoming_edges_by_node t))
    (btree_values nodes_by_id).

Definition validate_compiled_execution_plan (plan : Plan.t) : AgentCompiledPlanValidationResult unit :=
  validate_compiled_execution_plan_with_catalog plan AgentCompiledNodeKindCatalog.current.

(** ** What a valid plan has *)

Definition plan_edge (plan : Plan.t) (n c : NodeId) : Prop :=
  ∃ edge, edge ∈ Plan.edges plan ∧ Edge.source_node_id edge = n ∧ Edge.target_node_id edge = c.

Definition plan_reaches (plan : Plan.t) (n : NodeId) : Prop :=
  ∃ e, e ∈ Plan.entry_node_ids plan ∧ rtc (plan_edge plan) e n.

Definition node_in (plan : Plan.t) (id : NodeId) (node : Node.t) : Prop :=
  node ∈ Plan.nodes plan ∧ Node.node_id node = id.

Record plan_ok (plan : Plan.t) : Prop := {
  plan_node_ids : NoDup (Node.node_id <$> Plan.nodes plan);
  plan_edge_ids : NoDup (Edge.edge_id <$> Plan.edges plan);
  plan_entries : ∀ id, id ∈ Plan.entry_node_ids plan → ∃ node, node_in plan id node;
  plan_sources : ∀ edge, edge ∈ Plan.edges plan → ∃ node, node_in plan (Edge.source_node_id edge) node ∧
    is_Some (find_port node (Edge.source_port_id edge) AgentCompiledPortDirection.Output);
  plan_targets : ∀ edge, edge ∈ Plan.edges plan → ∃ node, node_in plan (Edge.target_node_id edge) node ∧
    is_Some (find_port node (Edge.target_port_id edge) AgentCompiledPortDirection.Input);
  plan_acyclic : ∀ n, Acc (flip (plan_edge plan)) n;
  plan_terminal : ∃ node, node ∈ Plan.nodes plan ∧ Node.kind node = AgentCompiledNodeKind.Terminal ∧
    plan_reaches plan (Node.node_id node);
  plan_inputs : ∀ node port, node ∈ Plan.nodes plan → Node.node_id node ∉ Plan.entry_node_ids plan →
    port ∈ Node.input_ports node → Port.required port = true →
    plan_reaches plan (Node.node_id node) ∧
    ∃ edge, edge ∈ Plan.edges plan ∧ Edge.target_node_id edge = Node.node_id node ∧
      Edge.target_port_id edge = Port.port_id port;
  plan_joins : ∀ node, node ∈ Plan.nodes plan → Node.kind node = AgentCompiledNodeKind.Join →
    (∃ edge, edge ∈ Plan.edges plan ∧ Edge.target_node_id edge = Node.node_id node) ∧
    ∀ edge, edge ∈ Plan.edges plan → Edge.target_node_id edge = Node.node_id node →
      is_Some (Edge.merge_behavior edge);
}.

(** *** Loops that stop at the first error *)

Lemma ensure_ok b e : ensure b e = Ok tt ↔ b = true.
Proof. by destruct b. Qed.

Lemma is_some_true {A} (o : option A) : is_some o = true ↔ is_Some o.
Proof. by destruct o. Qed.

Lemma try_each_ok {E A} (f : A → result E unit) l :
  try_each f l = Ok tt → ∀ x, x ∈ l → f x = Ok tt.
Proof.
  induction l as [|y l IH]; simpl; [intros _ x ?%elem_of_nil; done|].
  intros ([] & Hy & Hl)%result_bind_ok x [->|Hx]%elem_of_cons; [done|]. by apply IH.
Qed.

(** *** The tables *)

Lemma validate_nodes_ok catalog acc nodes m :
  validate_nodes catalog acc nodes = Ok m →
  NoDup (Node.node_id <$> nodes) ∧
  (∀ node, node ∈ nodes → acc !! Node.node_id node = None) ∧
  ∀ id node, m !! id = Some node ↔ acc !! id = Some node ∨ (node ∈ nodes ∧ Node.node_id node = id).
Proof.
  revert acc. induction nodes as [|x nodes IH]; intros acc; simpl.
  { intros [= <-]. split_and!; [constructor|set_solver|]. set_solver. }
  intros ([] & _ & ([] & Hdup & Hm)%result_bind_ok)%result_bind_ok.
  apply ensure_ok, negb_true_iff in Hdup. destruct (acc !! Node.node_id x) eqn:Hx; [done|].
  apply IH in Hm as (Hnd & Hfresh & Hm). split_and!.
  - constructor; [|done]. intros (y & Hy & Hin)%list_elem_of_fmap. specialize (Hfresh y Hin).
    rewrite <- Hy, lookup_insert_eq in Hfresh. done.
  - intros y [->|Hy]%elem_of_cons; [done|]. specialize (Hfresh y Hy).
    by apply lookup_insert_None in Hfresh as [? _].
  - intros id node. rewrite Hm, elem_of_cons. destruct (decide (id = Node.node_id x)) as [->|Hne].
    + rewrite lookup_insert_eq. split; [intros [[= <-]|[? ?]]; auto|].
      intros [?|[[->|Hin] Heq]]; [congruence|auto|auto].
    + rewrite lookup_insert_ne by done. naive_solver.
Qed.

Lemma elem_of_push_at {K V} `{Countable K} (m : gmap K (list V)) k v k' v' :
  v' ∈ default [] (push_at k v m !! k') ↔ v' ∈ default [] (m !! k') ∨ (k' = k ∧ v' = v).
Proof.
  unfold push_at. destruct (decide (k = k')) as [->|].
  - rewrite lookup_insert_eq. simpl. rewrite elem_of_app, list_elem_of_singleton. naive_solver.
  - rewrite lookup_insert_ne by done. naive_solver.
Qed.

(** The tables hold the edges recorded so far. *)
Record tables_ok (nodes_by_id : NodesById) (t : edge_tables) (done : list Edge.t) : Prop := {
  tables_ids : ∀ id, id ∈ edge_ids t ↔ id ∈ Edge.edge_id <$> done;
  tables_nodup : NoDup (Edge.edge_id <$> done);
  tables_children : ∀ n c, c ∈ children (adjacency t) n ↔
    ∃ edge, edge ∈ done ∧ Edge.source_node_id edge = n ∧ Edge.target_node_id edge = c;
  tables_ports : ∀ n p, (n, p) ∈ incoming_by_port t ↔
    ∃ edge, edge ∈ done ∧ Edge.target_node_id edge = n ∧ Edge.target_port_id edge = p;
  tables_incoming : ∀ n edge, edge ∈ default [] (incoming_edges_by_node t !! n) ↔
    edge ∈ done ∧ Edge.target_node_id edge = n;
  tables_nonempty : ∀ n, incoming_edges_by_node t !! n ≠ Some [];
  tables_ends : ∀ edge, edge ∈ done →
    (∃ node, nodes_by_id !! Edge.source_node_id edge = Some node ∧
       is_Some (find_port node (Edge.source_port_id edge) AgentCompiledPortDirection.Output)) ∧
    (∃ node, nodes_by_id !! Edge.target_node_id edge = Some node ∧
       is_Some (find_port node (Edge.target_port_id edge) AgentCompiledPortDirection.Input));
}.

Lemma tables_ok_empty nodes_by_id :
  tables_ok nodes_by_id (mk_tables ∅ (empty_adjacency nodes_by_id) ∅ ∅ ∅) [].
Proof.
  split; simpl; try set_solver.
  - constructor.
  - intros n c. unfold children, empty_adjacency. rewrite lookup_fmap.
    destruct (nodes_by_id !! n); simpl; set_solver.
Qed.

Lemma validate_edge_endpoint_ok edge nodes_by_id n p dir role :
  validate_edge_endpoint edge nodes_by_id n p dir role = Ok tt →
  ∃ node, nodes_by_id !! n = Some node ∧ is_Some (find_port node p dir).
Proof.
  intros (node & Hn%ok_or_ok & H)%result_bind_ok. exists node. split; [done|].
  destruct (find_port node p dir); [done|]. by destruct (find_port_any_direction node p).
Qed.

Lemma tables_ok_record nodes_by_id t done edge :
  tables_ok nodes_by_id t done → validate_edge nodes_by_id t edge = Ok tt →
  tables_ok nodes_by_id (record_edge t edge) (done ++ [edge]).
Proof.
  intros [Hids Hnd Hch Hpo Hin Hne Hen]
    ([] & _ & ([] & Hfresh & ([] & Hs & Ht)%result_bind_ok)%result_bind_ok)%result_bind_ok.
  apply ensure_ok, bool_decide_eq_true in Hfresh.
  apply validate_edge_endpoint_ok in Hs, Ht. unfold record_edge. split; simpl.
  - intros id. rewrite fmap_app, elem_of_app, elem_of_union, Hids. set_solver.
  - rewrite fmap_app. apply NoDup_app. rewrite Hids in Hfresh.
    split_and!; [done|set_solver|apply NoDup_singleton].
  - intros n c. unfold children in *. rewrite elem_of_push_at, Hch. set_solver.
  - intros n p. rewrite elem_of_union, elem_of_singleton, Hpo. set_solver.
  - intros n e. rewrite elem_of_push_at, Hin. set_solver.
  - intros n. unfold push_at. intros [[_ Hc]|[_ Hc]]%lookup_insert_Some; [|by apply (Hne n)].
    by apply app_eq_nil in Hc as [_ ?].
  - intros e [He| ->%list_elem_of_singleton]%elem_of_app; [by apply Hen|done].
Qed.

Lemma validate_edges_ok nodes_by_id t done edges t' :
  tables_ok nodes_by_id t done → validate_edges nodes_by_id t edges = Ok t' →
  tables_ok nodes_by_id t' (done ++ edges).
Proof.
  revert t done. induction edges as [|edge edges IH]; intros t done Hok; simpl.
  { intros [= <-]. by rewrite app_nil_r. }
  intros ([] & He & Hes)%result_bind_ok. rewrite cons_middle, (assoc_L (++)).
  eapply IH, Hes. by apply tables_ok_record.
Qed.

(** *** Soundness *)

Lemma rtc_impl {A} (R R' : relation A) x y : (∀ a b, R a b → R' a b) → rtc R x y → rtc R' x y.
Proof. intros Hi Hp. induction Hp; [done|]. eapply rtc_l; eauto. Qed.

Lemma Acc_impl {A} (R R' : relation A) x : (∀ a b, R' a b → R a b) → Acc R x → Acc R' x.
Proof. intros Hi Hacc. induction Hacc as [x _ IH]. constructor. auto. Qed.

Section Sound.
Context (plan : Plan.t) (nodes_by_id : NodesById) (t : edge_tables).
Context (Hnodes : ∀ id node, nodes_by_id !! id = Some node ↔ node_in plan id node).
Context (Ht : tables_ok nodes_by_id t (Plan.edges plan)).

Lemma edge_plan_edge n c : edge (adjacency t) n c ↔ plan_edge plan n c.
Proof. apply (tables_children _ _ _ Ht). Qed.

Lemma reachable_plan_reaches n :
  n ∈ reachable_nodes (Plan.entry_node_ids plan) (adjacency t) → plan_reaches plan n.
Proof.
  intros (e & He & Hp)%elem_of_reachable_nodes. exists e. split; [done|].
  eapply rtc_impl; [|done]. intros a b. apply edge_plan_edge.
Qed.

Lemma detect_cycle_acyclic : detect_cycle (adjacency t) = None → ∀ n, Acc (flip (plan_edge plan)) n.
Proof.
  intros Hc n. pose proof (detect_cycle_spec (adjacency t)) as H. rewrite Hc in H.
  eapply Acc_impl; [|apply (H n)]. intros a b. apply edge_plan_edge.
Qed.

Lemma inputs_sound node port :
  validate_reachable_required_inputs node (list_to_set (Plan.entry_node_ids plan))
    (reachable_nodes (Plan.entry_node_ids plan) (adjacency t)) (incoming_by_port t) = Ok tt →
  Node.node_id node ∉ Plan.entry_node_ids plan → port ∈ Node.input_ports node → Port.required port = true →
  plan_reaches plan (Node.node_id node) ∧
  ∃ edge, edge ∈ Plan.edges plan ∧ Edge.target_node_id edge = Node.node_id node ∧
    Edge.target_port_id edge = Port.port_id port.
Proof.
  unfold validate_reachable_required_inputs. intros H Hent Hport Hreq. rewrite decide_False in H by (by rewrite elem_of_list_to_set).
  pose proof (try_each_ok _ _ H port) as Hp. apply ensure_ok, andb_true_iff in Hp as [Hr Hin].
  - apply bool_decide_eq_true in Hr, Hin. split; [by apply reachable_plan_reaches|].
    by apply (tables_ports _ _ _ Ht).
  - by apply list_elem_of_filter.
Qed.

Lemma joins_sound node :
  validate_join_edges node (incoming_edges_by_node t) = Ok tt → Node.kind node = AgentCompiledNodeKind.Join →
  (∃ edge, edge ∈ Plan.edges plan ∧ Edge.target_node_id edge = Node.node_id node) ∧
  ∀ edge, edge ∈ Plan.edges plan → Edge.target_node_id edge = Node.node_id node →
    is_Some (Edge.merge_behavior edge).
Proof.
  unfold validate_join_edges. intros H Hk. rewrite decide_True in H by done.
  apply result_bind_ok in H as (es & Hes%ok_or_ok & Hall%ensure_ok).
  pose proof (tables_incoming _ _ _ Ht (Node.node_id node)) as Hin. rewrite Hes in Hin. simpl in Hin.
  rewrite forallb_forall in Hall. split.
  - destruct es as [|e es]; [by destruct (tables_nonempty _ _ _ Ht (Node.node_id node))|].
    exists e. apply Hin. by left.
  - intros e He Htgt. apply is_some_true, Hall, list_elem_of_In, Hin. done.
Qed.
End Sound.

Lemma validated_plan_is_ok plan catalog :
  validate_compiled_execution_plan_with_catalog plan catalog = Ok tt → plan_ok plan.
Proof.
  intros ([] & _ & (m & Hm & ([] & _ & ([] & Hent & (t & Ht & ([] & Hc & ([] & Hterm & Hall)%result_bind_ok)
    %result_bind_ok)%result_bind_ok)%result_bind_ok)%result_bind_ok)%result_bind_ok)%result_bind_ok.
  apply validate_nodes_ok in Hm as (Hnd & _ & Hm).
  assert (∀ id node, m !! id = Some node ↔ node_in plan id node) as Hnodes.
  { intros id node. rewrite Hm, lookup_empty. unfold node_in. naive_solver. }
  apply (validate_edges_ok _ _ [] _ _ (tables_ok_empty m)) in Ht. simpl in Ht.
  assert (∀ node, node ∈ Plan.nodes plan → node ∈ btree_values m) as Hval.
  { intros node Hin. apply elem_of_btree_values. exists (Node.node_id node). by apply Hnodes. }
  split.
  - done.
  - apply (tables_nodup _ _ _ Ht).
  - intros id Hid. apply (try_each_ok _ _ Hent) in Hid as H.
    apply result_bind_ok in H as ([] & _ & [node Hn]%ensure_ok%is_some_true).
    exists node. by apply Hnodes.
  - intros e He. apply (tables_ends _ _ _ Ht) in He as [(node & Hn%Hnodes & Hp) _]. eauto.
  - intros e He. apply (tables_ends _ _ _ Ht) in He as [_ (node & Hn%Hnodes & Hp)]. eauto.
  - destruct (detect_cycle (adjacency t)) eqn:Hd; [done|]. by apply (detect_cycle_acyclic _ _ _ Ht).
  - apply ensure_ok, existsb_exists in Hterm as (id & Hid & Hk).
    apply list_elem_of_In, elem_of_elements, (reachable_plan_reaches _ _ _ Ht) in Hid.
    unfold is_terminal_node in Hk. destruct (m !! id) as [node|] eqn:Hn; [|done].
    apply Hnodes in Hn as [Hn <-]. apply bool_decide_eq_true in Hk. eauto.
  - intros node port Hn Hid Hport Hreq. apply Hval, (try_each_ok _ _ Hall) in Hn.
    apply result_bind_ok in Hn as ([] & H & _). by eapply inputs_sound.
  - intros node Hn Hk. apply Hval, (try_each_ok _ _ Hall) in Hn.
    apply result_bind_ok in Hn as ([] & _ & ([] & _ & H)%result_bind_ok). by eapply joins_sound.
Qed.
