(* ===== verification/GraphState.v ===== *)
(** * Durable graph state: [rakka-agent-workflow/src/graph_state.rs]

    The state of one run of a compiled plan: a state per node, the paths that branches selected,
    the instances of iterators and the status of the run, with the projection that queries
    see.  A [set_] function is an assignment to a public field, or the builder of that name. *)

From S2P Require Import Prelude CompiledPlan.

(** ** Statuses *)

Module AgentEffectId.
Record t := new { as_str : string }.
End AgentEffectId.

Module AgentTimerId.
Record t := new { as_str : string }.
End AgentTimerId.

Module HumanCheckpointId.
Record t := new { as_str : string }.
End HumanCheckpointId.

Module AgentGraphStateSchemaVersion.
Record t := new { get : Z }.
End AgentGraphStateSchemaVersion.

Definition CURRENT_AGENT_GRAPH_STATE_SCHEMA_VERSION : AgentGraphStateSchemaVersion.t :=
  AgentGraphStateSchemaVersion.new 2.

Module AgentGraphNodeStatus.
Inductive t := Pending | Runnable | Running | Waiting | Completed | Skipped | Failed | Cancelled | Terminal.

#[global] Instance eq_dec : EqDecision t.
Proof. solve_decision. Defined.

Definition as_label (self : t) : string :=
  match self with
  | Pending => "pending"
  | Runnable => "runnable"
  | Running => "running"
  | Waiting => "waiting"
  | Completed => "completed"
  | Skipped => "skipped"
  | Failed => "failed"
  | Cancelled => "cancelled"
  | Terminal => "terminal"
  end.
End AgentGraphNodeStatus.

Module AgentGraphTerminalStatus.
Inductive t := Completed | Failed | Cancelled.

#[global] Instance eq_dec : EqDecision t.
Proof. solve_decision. Defined.

Definition as_label (self : t) : string :=
  match self with
  | Completed => "completed"
  | Failed => "failed"
  | Cancelled => "cancelled"
  end.
End AgentGraphTerminalStatus.

Module AgentGraphWaitReason.
Inductive t := Dependency | Effect | Timer | Human | ChildWorkflow | Signal | Reconciliation.

#[global] Instance eq_dec : EqDecision t.
Proof. solve_decision. Defined.

Definition as_label (self : t) : string :=
  match self with
  | Dependency => "dependency"
  | Effect => "effect"
  | Timer => "timer"
  | Human => "human"
  | ChildWorkflow => "child-workflow"
  | Signal => "signal"
  | Reconciliation => "reconciliation"
  end.
End AgentGraphWaitReason.

Module AgentGraphReconciliationDecision.
Inductive t := NotExecuted | Abandon (error_code : string).

Definition as_label (self : t) : string :=
  match self with NotExecuted => "not-executed" | Abandon _ => "abandon" end.
End AgentGraphReconciliationDecision.

Module AgentGraphBlockedReason.
Record t := mk { code : string; detail : option string }.

Definition new (code : string) : t := mk code None.
Definition with_detail (d : string) (self : t) : t := mk (code self) (Some d).
End AgentGraphBlockedReason.

(** ** Nodes, loop instances and runs *)

Module AgentGraphNodeState.
Record t := mk {
  node_id : AgentCompiledNodeId.t;
  kind : AgentCompiledNodeKind.t;
  status : AgentGraphNodeStatus.t;
  attempt : Z;
  effect_generation : Z;
  dependencies_ready : bool;
  input_refs : gmap AgentCompiledPortId.t ArtifactRef.t;
  output_refs : gmap AgentCompiledPortId.t ArtifactRef.t;
  scheduled_effect_ids : list AgentEffectId.t;
  timer_ids : list AgentTimerId.t;
  checkpoint_ids : list HumanCheckpointId.t;
  wait_reason : option AgentGraphWaitReason.t;
  error_code : option string;
  created_at : Z;
  updated_at : Z;
  started_at : option Z;
  completed_at : option Z;
}.

Definition set_status (v : AgentGraphNodeStatus.t) (self : t) : t :=
  mk (node_id self) (kind self) v (attempt self) (effect_generation self) (dependencies_ready self)
    (input_refs self) (output_refs self) (scheduled_effect_ids self) (timer_ids self) (checkpoint_ids self)
    (wait_reason self) (error_code self) (created_at self) (updated_at self) (started_at self)
    (completed_at self).

Definition set_attempt (v : Z) (self : t) : t :=
  mk (node_id self) (kind self) (status self) v (effect_generation self) (dependencies_ready self)
    (input_refs self) (output_refs self) (scheduled_effect_ids self) (timer_ids self) (checkpoint_ids self)
    (wait_reason self) (error_code self) (created_at self) (updated_at self) (started_at self)
    (completed_at self).

Definition set_effect_generation (v : Z) (self : t) : t :=
  mk (node_id self) (kind self) (status self) (attempt self) v (dependencies_ready self) (input_refs self)
    (output_refs self) (scheduled_effect_ids self) (timer_ids self) (checkpoint_ids self) (wait_reason self)
    (error_code self) (created_at self) (updated_at self) (started_at self) (completed_at self).

Definition set_dependencies_ready (v : bool) (self : t) : t :=
  mk (node_id self) (kind self) (status self) (attempt self) (effect_generation self) v (input_refs self)
    (output_refs self) (scheduled_effect_ids self) (timer_ids self) (checkpoint_ids self) (wait_reason self)
    (error_code self) (created_at self) (updated_at self) (started_at self) (completed_at self).

Definition set_output_refs (v : gmap AgentCompiledPortId.t ArtifactRef.t) (self : t) : t :=
  mk (node_id self) (kind self) (status self) (attempt self) (effect_generation self)
    (dependencies_ready self) (input_refs self) v (scheduled_effect_ids self) (timer_ids self)
    (checkpoint_ids self) (wait_reason self) (error_code self) (created_at self) (updated_at self)
    (started_at self) (completed_at self).

Definition set_wait_reason (v : option AgentGraphWaitReason.t) (self : t) : t :=
  mk (node_id self) (kind self) (status self) (attempt self) (effect_generation self)
    (dependencies_ready self) (input_refs self) (output_refs self) (scheduled_effect_ids self)
    (timer_ids self) (checkpoint_ids self) v (error_code self) (created_at self) (updated_at self)
    (started_at self) (completed_at self).

Definition set_error_code (v : option string) (self : t) : t :=
  mk (node_id self) (kind self) (status self) (attempt self) (effect_generation self)
    (dependencies_ready self) (input_refs self) (output_refs self) (scheduled_effect_ids self)
    (timer_ids self) (checkpoint_ids self) (wait_reason self) v (created_at self) (updated_at self)
    (started_at self) (completed_at self).

Definition set_updated_at (v : Z) (self : t) : t :=
  mk (node_id self) (kind self) (status self) (attempt self) (effect_generation self)
    (dependencies_ready self) (input_refs self) (output_refs self) (scheduled_effect_ids self)
    (timer_ids self) (checkpoint_ids self) (wait_reason self) (error_code self) (created_at self) v
    (started_at self) (completed_at self).

Definition set_started_at (v : option Z) (self : t) : t :=
  mk (node_id self) (kind self) (status self) (attempt self) (effect_generation self)
    (dependencies_ready self) (input_refs self) (output_refs self) (scheduled_effect_ids self)
    (timer_ids self) (checkpoint_ids self) (wait_reason self) (error_code self) (created_at self)
    (updated_at self) v (completed_at self).

Definition set_completed_at (v : option Z) (self : t) : t :=
  mk (node_id self) (kind self) (status self) (attempt self) (effect_generation self)
    (dependencies_ready self) (input_refs self) (output_refs self) (scheduled_effect_ids self)
    (timer_ids self) (checkpoint_ids self) (wait_reason self) (error_code self) (created_at self)
    (updated_at self) (started_at self) v.

Definition new (node_id : AgentCompiledNodeId.t) (kind : AgentCompiledNodeKind.t) (created_at : Z) : t :=
  mk node_id kind AgentGraphNodeStatus.Pending 0 0 false ∅ ∅ [] [] [] None None created_at created_at None None.
End AgentGraphNodeState.

Module AgentGraphLoopInstanceState.
Record t := mk {
  node_id : AgentCompiledNodeId.t;
  iteration_index : Z;
  status : AgentGraphNodeStatus.t;
  item_ref : option ArtifactRef.t;
  output_refs : gmap AgentCompiledPortId.t ArtifactRef.t;
  created_at : Z;
  completed_at : option Z;
}.

Definition set_status (v : AgentGraphNodeStatus.t) (self : t) : t :=
  mk (node_id self) (iteration_index self) v (item_ref self) (output_refs self) (created_at self)
    (completed_at self).

Definition set_completed_at (v : option Z) (self : t) : t :=
  mk (node_id self) (iteration_index self) (status self) (item_ref self) (output_refs self)
    (created_at self) v.

Definition new (node_id : AgentCompiledNodeId.t) (iteration_index created_at : Z) : t :=
  mk node_id iteration_index AgentGraphNodeStatus.Pending None ∅ created_at None.
End AgentGraphLoopInstanceState.

Module AgentGraphRunState.
Record t := mk {
  plan_id : AgentCompiledPlanId.t;
  plan_fingerprint : AgentCompiledPlanFingerprint.t;
  graph_schema_version : AgentGraphStateSchemaVersion.t;
  node_states : gmap AgentCompiledNodeId.t AgentGraphNodeState.t;
  selected_branch_paths : gmap AgentCompiledNodeId.t (list AgentCompiledEdgeId.t);
  loop_instances : list AgentGraphLoopInstanceState.t;
  blocked_reason : option AgentGraphBlockedReason.t;
  output_refs : gmap AgentCompiledPortId.t ArtifactRef.t;
  scheduler_revision : Z;
  last_event_sequence : Z;
  terminal_status : option AgentGraphTerminalStatus.t;
}.

Definition set_graph_schema_version (v : AgentGraphStateSchemaVersion.t) (self : t) : t :=
  mk (plan_id self) (plan_fingerprint self) v (node_states self) (selected_branch_paths self)
    (loop_instances self) (blocked_reason self) (output_refs self) (scheduler_revision self)
    (last_event_sequence self) (terminal_status self).

Definition set_node_states (v : gmap AgentCompiledNodeId.t AgentGraphNodeState.t) (self : t) : t :=
  mk (plan_id self) (plan_fingerprint self) (graph_schema_version self) v (selected_branch_paths self)
    (loop_instances self) (blocked_reason self) (output_refs self) (scheduler_revision self)
    (last_event_sequence self) (terminal_status self).

Definition set_selected_branch_paths (v : gmap AgentCompiledNodeId.t (list AgentCompiledEdgeId.t)) (self : t) : t :=
  mk (plan_id self) (plan_fingerprint self) (graph_schema_version self) (node_states self) v
    (loop_instances self) (blocked_reason self) (output_refs self) (scheduler_revision self)
    (last_event_sequence self) (terminal_status self).

Definition set_loop_instances (v : list AgentGraphLoopInstanceState.t) (self : t) : t :=
  mk (plan_id self) (plan_fingerprint self) (graph_schema_version self) (node_states self)
    (selected_branch_paths self) v (blocked_reason self) (output_refs self) (scheduler_revision self)
    (last_event_sequence self) (terminal_status self).

Definition set_blocked_reason (v : option AgentGraphBlockedReason.t) (self : t) : t :=
  mk (plan_id self) (plan_fingerprint self) (graph_schema_version self) (node_states self)
    (selected_branch_paths self) (loop_instances self) v (output_refs self) (scheduler_revision self)
    (last_event_sequence self) (terminal_status self).

Definition set_scheduler_revision (v : Z) (self : t) : t :=
  mk (plan_id self) (plan_fingerprint self) (graph_schema_version self) (node_states self)
    (selected_branch_paths self) (loop_instances self) (blocked_reason self) (output_refs self) v
    (last_event_sequence self) (terminal_status self).

Definition set_terminal_status (v : option AgentGraphTerminalStatus.t) (self : t) : t :=
  mk (plan_id self) (plan_fingerprint self) (graph_schema_version self) (node_states self)
    (selected_branch_paths self) (loop_instances self) (blocked_reason self) (output_refs self)
    (scheduler_revision self) (last_event_sequence self) v.

Definition new (plan_id : AgentCompiledPlanId.t) (plan_fingerprint : AgentCompiledPlanFingerprint.t) : t :=
  mk plan_id plan_fingerprint CURRENT_AGENT_GRAPH_STATE_SCHEMA_VERSION ∅ ∅ [] None ∅ 0 0 None.
End AgentGraphRunState.

(** ** The projection for queries and snapshots *)

Module AgentGraphNodeProjection.
Record t := mk {
  node_id : AgentCompiledNodeId.t;
  kind : AgentCompiledNodeKind.t;
  status : AgentGraphNodeStatus.t;
  wait_reason : option AgentGraphWaitReason.t;
  error_code : option string;
}.

Definition from_node_state (node : AgentGraphNodeState.t) : t :=
  mk (AgentGraphNodeState.node_id node) (AgentGraphNodeState.kind node) (AgentGraphNodeState.status node)
     (AgentGraphNodeState.wait_reason node) (AgentGraphNodeState.error_code node).
End AgentGraphNodeProjection.

Definition count_nodes_by_status (nodes : list AgentGraphNodeProjection.t) (status : AgentGraphNodeStatus.t) : nat :=
  length (filter (fun node => AgentGraphNodeProjection.status node = status) nodes).

Module AgentGraphRunProjection.
Record t := mk {
  plan_id : AgentCompiledPlanId.t;
  plan_fingerprint : AgentCompiledPlanFingerprint.t;
  graph_schema_version : AgentGraphStateSchemaVersion.t;
  scheduler_revision : Z;
  last_event_sequence : Z;
  terminal_status : option AgentGraphTerminalStatus.t;
  blocked_reason_code : option string;
  node_count : nat;
  runnable_node_count : nat;
  running_node_count : nat;
  waiting_node_count : nat;
  completed_node_count : nat;
  skipped_node_count : nat;
  failed_node_count : nat;
  cancelled_node_count : nat;
  terminal_node_count : nat;
  nodes : list AgentGraphNodeProjection.t;
}.

Definition from_graph_state (graph : AgentGraphRunState.t) : t :=
  let nodes := AgentGraphNodeProjection.from_node_state <$> btree_values (AgentGraphRunState.node_states graph) in
  let count := count_nodes_by_status nodes in
  mk (AgentGraphRunState.plan_id graph) (AgentGraphRunState.plan_fingerprint graph)
     (AgentGraphRunState.graph_schema_version graph) (AgentGraphRunState.scheduler_revision graph)
     (AgentGraphRunState.last_event_sequence graph) (AgentGraphRunState.terminal_status graph)
     (AgentGraphBlockedReason.code <$> AgentGraphRunState.blocked_reason graph)
     (length nodes) (count AgentGraphNodeStatus.Runnable) (count AgentGraphNodeStatus.Running)
     (count AgentGraphNodeStatus.Waiting) (count AgentGraphNodeStatus.Completed)
     (count AgentGraphNodeStatus.Skipped) (count AgentGraphNodeStatus.Failed)
     (count AgentGraphNodeStatus.Cancelled) (count AgentGraphNodeStatus.Terminal) nodes.
End AgentGraphRunProjection.

Module NodeSt := AgentGraphNodeState.
Module Loop := AgentGraphLoopInstanceState.
Module Graph := AgentGraphRunState.
Module Status := AgentGraphNodeStatus.
Module Wait := AgentGraphWaitReason.
