(* ===== verification/GraphScheduler.v ===== *)
(** * The graph scheduler: [rakka-agent-workflow/src/graph_scheduler.rs]

    Every operation of [AgentGraphScheduler] as a function from the plan and the durable state to
    the transition that the caller persists, or an error, in which case the caller keeps its
    state.  The loop of [propagate_skips] carries fuel; [GraphRuns] shows that one more round
    than the plan has nodes reaches its end. *)

From stdpp Require Import pretty.
From S2P Require Import Prelude CompiledPlan PlanSearch PlanValidation GraphState.

(** ** Errors and transitions *)

Module AgentGraphSchedulerError.
Inductive t :=
| InvalidCompiledPlan (validation_code reason : string)
| PlanStateMismatch (field reason : string)
| MissingNodeState (node_id : NodeId)
| UnknownNode (node_id : NodeId)
| InvalidNodeTransition (node_id : NodeId) (from to : Status.t)
| InvalidBranchSelection (node_id : NodeId) (reason : string)
| InvalidIteratorTransition (node_id : NodeId) (reason : string)
| TerminalGraph (status : AgentGraphTerminalStatus.t)
| EmptyCauseCode (node_id : NodeId)
| UnsupportedSchemaVersion (found supported : AgentGraphStateSchemaVersion.t).

Definition code (self : t) : string :=
  match self with
  | InvalidCompiledPlan _ _ => "invalid-compiled-plan"
  | PlanStateMismatch _ _ => "graph-plan-state-mismatch"
  | MissingNodeState _ => "missing-graph-node-state"
  | UnknownNode _ => "unknown-graph-node"
  | InvalidNodeTransition _ _ _ => "invalid-graph-node-transition"
  | InvalidBranchSelection _ _ => "invalid-branch-selection"
  | InvalidIteratorTransition _ _ => "invalid-iterator-transition"
  | TerminalGraph _ => "terminal-graph"
  | EmptyCauseCode _ => "empty-reconciliation-cause"
  | UnsupportedSchemaVersion _ _ => "graph-state-schema-unsupported"
  end.

(** The [Display] text. *)
Definition fmt (self : t) : string :=
  let node id := "node " +:+ PlanErr.quoted (AgentCompiledNodeId.as_str id) in
  let version v := pretty (AgentGraphStateSchemaVersion.get v) in
  match self with
  | InvalidCompiledPlan validation_code reason =>
      "compiled graph plan failed validation (" +:+ validation_code +:+ "): " +:+ reason
  | PlanStateMismatch field reason =>
      "graph state field " +:+ PlanErr.quoted field +:+ " does not match plan: " +:+ reason
  | MissingNodeState id => "graph state is missing " +:+ node id
  | UnknownNode id => "compiled graph does not contain " +:+ node id
  | InvalidNodeTransition id from to =>
      node id +:+ " cannot transition from " +:+ PlanErr.quoted (Status.as_label from) +:+ " to " +:+
      PlanErr.quoted (Status.as_label to)
  | InvalidBranchSelection id reason => "branch " +:+ node id +:+ " has invalid selection: " +:+ reason
  | InvalidIteratorTransition id reason => "iterator " +:+ node id +:+ " has invalid transition: " +:+ reason
  | TerminalGraph status =>
      "graph is already terminal with status " +:+ PlanErr.quoted (AgentGraphTerminalStatus.as_label status)
  | EmptyCauseCode id => node id +:+ " cannot be parked without a cause code"
  | UnsupportedSchemaVersion found supported =>
      "graph state schema version " +:+ version found +:+ " is newer than the supported " +:+ version supported
  end.
End AgentGraphSchedulerError.

Module SchedErr := AgentGraphSchedulerError.

Abbreviation AgentGraphSchedulerResult := (result SchedErr.t).
Abbreviation EdgeId := AgentCompiledEdgeId.t.

(** [sort_by] on a key; [sort] and [dedup] of identifiers. *)
Definition on_key {A K} `{OrdKey K} (key : A → K) (x y : A) : Prop := key_le (key x) (key y).

#[global] Instance on_key_dec {A K} `{OrdKey K} (key : A → K) : RelDecision (on_key key).
Proof. intros x y. unfold on_key. apply _. Defined.

Definition sort_on {A K} `{OrdKey K} (key : A → K) (l : list A) : list A := merge_sort (on_key key) l.

Fixpoint dedup {A} `{EqDecision A} (l : list A) : list A :=
  match l with
  | [] => []
  | x :: l => match l with y :: _ => if decide (x = y) then dedup l else x :: dedup l | [] => [x] end
  end.

Definition sort_dedup {K} `{EqDecision K, OrdKey K} (l : list K) : list K := dedup (merge_sort key_le l).

Definition runnable_nodes_from_state (state : Graph.t) : list NodeId :=
  match Graph.terminal_status state with
  | Some _ => []
  | None =>
      (filter (fun e => NodeSt.status e.2 = Status.Runnable) (btree_entries (Graph.node_states state))).*1
  end.

Module AgentGraphSchedulerTransition.
Record t := mk {
  state : Graph.t;
  changed_node_ids : list NodeId;
  runnable_node_ids : list NodeId;
}.

Definition new (state : Graph.t) (changed_node_ids : list NodeId) : t :=
  mk state changed_node_ids (runnable_nodes_from_state state).
End AgentGraphSchedulerTransition.

Module Transition := AgentGraphSchedulerTransition.

(** ** Guards *)

Definition guard_or (ok : bool) (e : SchedErr.t) : AgentGraphSchedulerResult unit :=
  if ok then Ok tt else Err e.

Definition validate_plan (plan : Plan.t) : AgentGraphSchedulerResult unit :=
  map_err (fun error => SchedErr.InvalidCompiledPlan (PlanErr.code error) (PlanErr.fmt error))
    (validate_compiled_execution_plan plan).

(** Collecting into a map keeps the last node of an id. *)
Definition nodes_by_id (plan : Plan.t) : NodesById :=
  foldl (fun m node => <[Node.node_id node := node]> m) ∅ (Plan.nodes plan).

Definition mismatch (state_has plan_has : string) : string :=
  "state has " +:+ state_has +:+ ", plan has " +:+ plan_has.

Definition validate_plan_state (plan : Plan.t) (state : Graph.t) : AgentGraphSchedulerResult unit :=
  let? _ := validate_plan plan in
  let? _ := guard_or (bool_decide (Graph.plan_id state = Plan.plan_id plan))
              (SchedErr.PlanStateMismatch "plan_id"
                 (mismatch (AgentCompiledPlanId.as_str (Graph.plan_id state))
                    (AgentCompiledPlanId.as_str (Plan.plan_id plan)))) in
  let? _ := guard_or (bool_decide (Graph.plan_fingerprint state = Plan.plan_fingerprint plan))
              (SchedErr.PlanStateMismatch "plan_fingerprint"
                 (mismatch (AgentCompiledPlanFingerprint.as_str (Graph.plan_fingerprint state))
                    (AgentCompiledPlanFingerprint.as_str (Plan.plan_fingerprint plan)))) in
  let? _ := guard_or (AgentGraphStateSchemaVersion.get (Graph.graph_schema_version state) <=?
                      AgentGraphStateSchemaVersion.get CURRENT_AGENT_GRAPH_STATE_SCHEMA_VERSION)
              (SchedErr.UnsupportedSchemaVersion (Graph.graph_schema_version state)
                 CURRENT_AGENT_GRAPH_STATE_SCHEMA_VERSION) in
  let nodes := nodes_by_id plan in
  let? _ := try_each
              (fun id => guard_or (is_some (Graph.node_states state !! id)) (SchedErr.MissingNodeState id))
              (btree_keys nodes) in
  try_each (fun id => guard_or (is_some (nodes !! id)) (SchedErr.UnknownNode id))
    (btree_keys (Graph.node_states state)).

Definition ensure_not_terminal (state : Graph.t) : AgentGraphSchedulerResult unit :=
  match Graph.terminal_status state with
  | Some status => Err (SchedErr.TerminalGraph status)
  | None => Ok tt
  end.

Definition ensure_known_node (plan : Plan.t) (node_id : NodeId) : AgentGraphSchedulerResult Node.t :=
  ok_or (SchedErr.UnknownNode node_id)
    (find_first (fun node => bool_decide (Node.node_id node = node_id)) (Plan.nodes plan)).

Definition ensure_iterator_node (plan : Plan.t) (node_id : NodeId) : AgentGraphSchedulerResult Node.t :=
  let? node := ensure_known_node plan node_id in
  let? _ := guard_or (bool_decide (Node.kind node = AgentCompiledNodeKind.Iterator))
              (SchedErr.InvalidIteratorTransition node_id "node is not an iterator") in
  let? _ := guard_or (is_some (Node.iterator_policy node))
              (SchedErr.InvalidIteratorTransition node_id "iterator node is missing iterator policy") in
  Ok node.

(** The bound of a node that passed [ensure_iterator_node]; the [expect] is never reached. *)
Definition max_iterations_of (node : Node.t) : Z :=
  match Node.iterator_policy node with
  | Some policy => AgentCompiledIteratorPolicy.max_iterations policy
  | None => 0
  end.

Definition sorted_nodes (plan : Plan.t) : list Node.t := sort_on Node.node_id (Plan.nodes plan).

(** The edges of each key, in the order of their ids. *)
Definition edges_by (key : Edge.t → NodeId) (plan : Plan.t) : gmap NodeId (list Edge.t) :=
  sort_on Edge.edge_id <$> foldl (fun m edge => push_at (key edge) edge m) ∅ (Plan.edges plan).

Definition incoming_edges_by_target (plan : Plan.t) : gmap NodeId (list Edge.t) :=
  edges_by Edge.target_node_id plan.

Definition outgoing_edges_by_source (plan : Plan.t) : gmap NodeId (list Edge.t) :=
  edges_by Edge.source_node_id plan.

Definition node_state_of (state : Graph.t) (node_id : NodeId) : AgentGraphSchedulerResult NodeSt.t :=
  ok_or (SchedErr.MissingNodeState node_id) (Graph.node_states state !! node_id).

Definition ensure_node_status (state : Graph.t) (node_id : NodeId) (expected next : Status.t) :
    AgentGraphSchedulerResult unit :=
  let? node_state := node_state_of state node_id in
  guard_or (bool_decide (NodeSt.status node_state = expected))
    (SchedErr.InvalidNodeTransition node_id (NodeSt.status node_state) next).

Definition ensure_node_wait_reason (state : Graph.t) (node_id : NodeId) (expected : Wait.t) :
    AgentGraphSchedulerResult unit :=
  let? node_state := node_state_of state node_id in
  let refused := SchedErr.InvalidNodeTransition node_id (NodeSt.status node_state) Status.Completed in
  let? _ := guard_or (bool_decide (NodeSt.status node_state = Status.Waiting)) refused in
  guard_or (bool_decide (NodeSt.wait_reason node_state = Some expected)) refused.

(** [state.scheduler_revision += 1; state.blocked_reason = None] *)
Definition bump (state : Graph.t) : Graph.t :=
  Graph.set_blocked_reason None
    (Graph.set_scheduler_revision (add_u64 (Graph.scheduler_revision state) 1) state).

Definition put_node (state : Graph.t) (node_id : NodeId) (node_state : NodeSt.t) : Graph.t :=
  Graph.set_node_states (<[node_id := node_state]> (Graph.node_states state)) state.

Definition transition_node (state : Graph.t) (node_id : NodeId) (expected next : Status.t) (now : Z)
    (apply : NodeSt.t → NodeSt.t) : AgentGraphSchedulerResult Graph.t :=
  let? node_state := node_state_of state node_id in
  let? _ := guard_or (bool_decide (NodeSt.status node_state = expected))
              (SchedErr.InvalidNodeTransition node_id (NodeSt.status node_state) next) in
  Ok (bump (put_node state node_id
              (apply (NodeSt.set_updated_at now (NodeSt.set_status next node_state))))).

(** ** Dependencies *)

Definition edge_is_active (state : Graph.t) (source_node : Node.t) (edge : Edge.t) : bool :=
  if decide (Node.kind source_node = AgentCompiledNodeKind.Branch) then
    match Graph.selected_branch_paths state !! Node.node_id source_node with
    | Some selected => bool_decide (Edge.edge_id edge ∈ selected)
    | None => false
    end
  else true.

Definition completed_or_terminal (status : Status.t) : bool :=
  match status with Status.Completed | Status.Terminal => true | _ => false end.

Definition source_satisfies_dependency (state : Graph.t) (source_node : Node.t) (source_state : NodeSt.t)
    (edge : Edge.t) : bool :=
  edge_is_active state source_node edge &&
  (completed_or_terminal (NodeSt.status source_state) ||
   (bool_decide (Node.kind source_node = AgentCompiledNodeKind.Terminal) &&
    bool_decide (NodeSt.status source_state = Status.Completed))).

Section Edges.
Context (state : Graph.t) (nodes : NodesById).

Definition edge_source (edge : Edge.t) : AgentGraphSchedulerResult (Node.t * NodeSt.t) :=
  let id := Edge.source_node_id edge in
  let? source_node := ok_or (SchedErr.UnknownNode id) (nodes !! id) in
  let? source_state := node_state_of state id in
  Ok (source_node, source_state).

Definition edge_source_completed (edge : Edge.t) : AgentGraphSchedulerResult bool :=
  let? (source_node, source_state) := edge_source edge in
  Ok (source_satisfies_dependency state source_node source_state edge).

Definition edge_permanently_unsatisfied (edge : Edge.t) : AgentGraphSchedulerResult bool :=
  let? (source_node, source_state) := edge_source edge in
  match NodeSt.status source_state with
  | Status.Skipped | Status.Cancelled => Ok true
  | _ =>
      if decide (Node.kind source_node = AgentCompiledNodeKind.Branch) then
        Ok match Graph.selected_branch_paths state !! Node.node_id source_node with
           | Some selected => negb (bool_decide (Edge.edge_id edge ∈ selected))
           | None => completed_or_terminal (NodeSt.status source_state)
           end
      else Ok false
  end.

(** [try_fold(false, |acc, e| Ok(acc || f(e)?))] and [try_fold(true, |acc, e| Ok(acc && f(e)?))]:
    neither calls [f] again once the answer is known. *)
Fixpoint any_edge (f : Edge.t → AgentGraphSchedulerResult bool) (edges : list Edge.t) :
    AgentGraphSchedulerResult bool :=
  match edges with
  | [] => Ok false
  | e :: edges => let? b := f e in if b then Ok true else any_edge f edges
  end.

Fixpoint all_edges (f : Edge.t → AgentGraphSchedulerResult bool) (edges : list Edge.t) :
    AgentGraphSchedulerResult bool :=
  match edges with
  | [] => Ok true
  | e :: edges => let? b := f e in if b then all_edges f edges else Ok false
  end.

(** The loop that waits until every edge has settled and asks that one has completed. *)
Fixpoint edges_settled (any_satisfied : bool) (edges : list Edge.t) : AgentGraphSchedulerResult bool :=
  match edges with
  | [] => Ok any_satisfied
  | e :: edges =>
      let? completed := edge_source_completed e in
      if completed then edges_settled true edges
      else
        let? unsatisfied := edge_permanently_unsatisfied e in
        if unsatisfied then edges_settled any_satisfied edges else Ok false
  end.

Definition join_dependencies_satisfied (required_edges : list Edge.t) : AgentGraphSchedulerResult bool :=
  if existsb (fun e => bool_decide (Edge.merge_behavior e = Some AgentCompiledEdgeMergeBehavior.WaitForAny))
       required_edges
  then any_edge edge_source_completed required_edges
  else edges_settled false required_edges.

Definition target_port_required (node : Node.t) (edge : Edge.t) : bool :=
  match find_port_in (Node.input_ports node) (Edge.target_port_id edge) with
  | Some port => Port.required port
  | None => true
  end.

Context (incoming : gmap NodeId (list Edge.t)).

Definition incoming_edges (node : Node.t) : list Edge.t := default [] (incoming !! Node.node_id node).

Definition required_incoming_edges (node : Node.t) : list Edge.t :=
  filter (fun e => target_port_required node e = true) (incoming_edges node).

Definition optional_dependencies_satisfied (node : Node.t) : AgentGraphSchedulerResult bool :=
  edges_settled false (incoming_edges node).

Definition optional_dependencies_blocked (node : Node.t) : AgentGraphSchedulerResult bool :=
  all_edges edge_permanently_unsatisfied (incoming_edges node).

Definition dependencies_satisfied (plan : Plan.t) (node : Node.t) : AgentGraphSchedulerResult bool :=
  if decide (Node.node_id node ∈ Plan.entry_node_ids plan) then Ok true
  else
    let required_edges := required_incoming_edges node in
    if decide (Node.kind node = AgentCompiledNodeKind.Join) then join_dependencies_satisfied required_edges
    else
      match required_edges with
      | [] => optional_dependencies_satisfied node
      | _ => all_edges edge_source_completed required_edges
      end.

Definition node_should_skip (node : Node.t) : AgentGraphSchedulerResult bool :=
  let required_edges := required_incoming_edges node in
  if decide (Node.kind node = AgentCompiledNodeKind.Join) then
    match required_edges with
    | [] => Ok false
    | _ =>
        let? completed := any_edge edge_source_completed required_edges in
        if completed then Ok false else all_edges edge_permanently_unsatisfied required_edges
    end
  else
    match required_edges with
    | [] => optional_dependencies_blocked node
    | _ => any_edge edge_permanently_unsatisfied required_edges
    end.
End Edges.

(** ** Skips, cancellation and iterations *)

(** The nodes of [candidates] that [wanted] accepts, in order, stopping at the first error. *)
Fixpoint select_nodes (wanted : Node.t → AgentGraphSchedulerResult bool) (candidates : list Node.t) :
    AgentGraphSchedulerResult (list NodeId) :=
  match candidates with
  | [] => Ok []
  | node :: candidates =>
      let? w := wanted node in
      let? rest := select_nodes wanted candidates in
      Ok (if w then Node.node_id node :: rest else rest)
  end.

Definition skipped_this_pass (plan : Plan.t) (state : Graph.t) : AgentGraphSchedulerResult (list NodeId) :=
  select_nodes (fun node =>
      let? node_state := node_state_of state (Node.node_id node) in
      if bool_decide (NodeSt.status node_state = Status.Pending) &&
         negb (bool_decide (Node.node_id node ∈ Plan.entry_node_ids plan))
      then node_should_skip state (nodes_by_id plan) (incoming_edges_by_target plan) node
      else Ok false)
    (sorted_nodes plan).

Definition resolve_as (status : Status.t) (now : Z) (node_state : NodeSt.t) : NodeSt.t :=
  NodeSt.set_error_code None (NodeSt.set_wait_reason None (NodeSt.set_completed_at (Some now)
    (NodeSt.set_updated_at now (NodeSt.set_dependencies_ready false (NodeSt.set_status status node_state))))).

Fixpoint skip_nodes (now : Z) (state : Graph.t) (node_ids : list NodeId) :
    AgentGraphSchedulerResult (Graph.t * list NodeId) :=
  match node_ids with
  | [] => Ok (state, [])
  | node_id :: node_ids =>
      let? node_state := node_state_of state node_id in
      if decide (NodeSt.status node_state = Status.Pending) then
        let? (state, changed) :=
          skip_nodes now (put_node state node_id (resolve_as Status.Skipped now node_state)) node_ids in
        Ok (state, node_id :: changed)
      else skip_nodes now state node_ids
  end.

Fixpoint skip_rounds (fuel : nat) (plan : Plan.t) (now : Z) (state : Graph.t) :
    AgentGraphSchedulerResult (Graph.t * list NodeId) :=
  match fuel with
  | O => Ok (state, [])
  | S fuel =>
      let? skipped := skipped_this_pass plan state in
      match skipped with
      | [] => Ok (state, [])
      | _ =>
          let? (state, changed) := skip_nodes now state skipped in
          let? (state, changed') := skip_rounds fuel plan now state in
          Ok (state, changed ++ changed')
      end
  end.

Definition propagate_skips (plan : Plan.t) (state : Graph.t) (now : Z) :
    AgentGraphSchedulerResult (Graph.t * list NodeId) :=
  let? (state, changed) := skip_rounds (S (length (Plan.nodes plan))) plan now state in
  Ok (state, sort_dedup changed).

Definition node_status_is_unresolved (status : Status.t) : bool :=
  match status with
  | Status.Pending | Status.Runnable | Status.Running | Status.Waiting => true
  | _ => false
  end.

Definition cancels (excluded_node_ids : gset NodeId) (node_id : NodeId) (node_state : NodeSt.t) : bool :=
  negb (bool_decide (node_id ∈ excluded_node_ids)) && node_status_is_unresolved (NodeSt.status node_state).

Definition cancel_unresolved_nodes (state : Graph.t) (now : Z) (excluded_node_ids : gset NodeId) :
    Graph.t * list NodeId :=
  (Graph.set_node_states
     (map_imap (fun id ns =>
          Some (if cancels excluded_node_ids id ns then resolve_as Status.Cancelled now ns else ns))
        (Graph.node_states state)) state,
   (filter (fun e => cancels excluded_node_ids e.1 e.2 = true) (btree_entries (Graph.node_states state))).*1).

Definition cancel_unresolved_loop_instances (state : Graph.t) (now : Z) : Graph.t * list NodeId :=
  let unresolved i := node_status_is_unresolved (Loop.status i) in
  (Graph.set_loop_instances
     ((fun i => if unresolved i
                then Loop.set_completed_at (Some now) (Loop.set_status Status.Cancelled i)
                else i) <$> Graph.loop_instances state) state,
   Loop.node_id <$> filter (fun i => unresolved i = true) (Graph.loop_instances state)).

Definition instance_active (node_id : NodeId) (i : Loop.t) : bool :=
  bool_decide (Loop.node_id i = node_id) &&
  match Loop.status i with Status.Pending | Status.Running => true | _ => false end.

Definition current_iterator_iteration_index (state : Graph.t) (node_id : NodeId) : option Z :=
  min_by Z.compare
    (Loop.iteration_index <$> filter (fun i => instance_active node_id i = true) (Graph.loop_instances state)).

Definition next_iterator_iteration_index (state : Graph.t) (node_id : NodeId) : Z :=
  match max_by Z.compare
          (Loop.iteration_index <$> filter (fun i => Loop.node_id i = node_id) (Graph.loop_instances state)) with
  | Some iteration_index => saturating_add_u32 iteration_index 1
  | None => 0
  end.

Definition validate_branch_selection (plan : Plan.t) (branch_node_id : NodeId)
    (selected_edge_ids : list EdgeId) : AgentGraphSchedulerResult (list EdgeId) :=
  let selected_edge_ids := sort_dedup selected_edge_ids in
  let? _ := guard_or (negb (bool_decide (selected_edge_ids = [])))
              (SchedErr.InvalidBranchSelection branch_node_id "at least one outgoing edge must be selected") in
  let valid_edge_ids :=
    Edge.edge_id <$> default [] (outgoing_edges_by_source plan !! branch_node_id) in
  let? _ := try_each (fun edge_id =>
                guard_or (bool_decide (edge_id ∈ valid_edge_ids))
                  (SchedErr.InvalidBranchSelection branch_node_id
                     ("edge " +:+ PlanErr.quoted (AgentCompiledEdgeId.as_str edge_id) +:+
                      " is not an outgoing branch edge")))
              selected_edge_ids in
  Ok selected_edge_ids.

(** ** The operations *)

Module AgentGraphScheduler.
Section Ops.
Context (plan : Plan.t).

Definition initialize_state (now : Z) : AgentGraphSchedulerResult Graph.t :=
  let? _ := validate_plan plan in
  Ok (foldl (fun state node =>
               put_node state (Node.node_id node) (NodeSt.new (Node.node_id node) (Node.kind node) now))
        (Graph.new (Plan.plan_id plan) (Plan.plan_fingerprint plan)) (sorted_nodes plan)).

Definition compute_ready_nodes (state : Graph.t) : AgentGraphSchedulerResult (list NodeId) :=
  let? _ := validate_plan_state plan state in
  match Graph.terminal_status state with
  | Some _ => Ok []
  | None =>
      select_nodes (fun node =>
          let? node_state := node_state_of state (Node.node_id node) in
          if decide (NodeSt.status node_state = Status.Pending) then
            dependencies_satisfied state (nodes_by_id plan) (incoming_edges_by_target plan) plan node
          else Ok false)
        (sorted_nodes plan)
  end.

Definition runnable_nodes (state : Graph.t) : list NodeId := runnable_nodes_from_state state.

Fixpoint mark_nodes (now : Z) (state : Graph.t) (ready : list NodeId) : AgentGraphSchedulerResult Graph.t :=
  match ready with
  | [] => Ok state
  | node_id :: ready =>
      let? node_state := node_state_of state node_id in
      mark_nodes now
        (put_node state node_id
           (NodeSt.set_updated_at now
              (NodeSt.set_dependencies_ready true (NodeSt.set_status Status.Runnable node_state)))) ready
  end.

Definition mark_ready_nodes_runnable (state : Graph.t) (now : Z) : AgentGraphSchedulerResult Transition.t :=
  let? _ := ensure_not_terminal state in
  let? ready := compute_ready_nodes state in
  let? state := mark_nodes now state ready in
  Ok (Transition.new (if decide (ready = []) then state else bump state) ready).

(** The guards that every operation on one node starts with. *)
Definition enter (state : Graph.t) (node_id : NodeId) : AgentGraphSchedulerResult Node.t :=
  let? _ := ensure_not_terminal state in
  let? _ := validate_plan_state plan state in
  ensure_known_node plan node_id.

Definition start_node (state : Graph.t) (node_id : NodeId) (now : Z) :
    AgentGraphSchedulerResult Transition.t :=
  let? _ := enter state node_id in
  let? state := transition_node state node_id Status.Runnable Status.Running now (fun ns =>
                  NodeSt.set_error_code None (NodeSt.set_wait_reason None
                    (NodeSt.set_started_at (Some now)
                       (NodeSt.set_attempt (add_u32 (NodeSt.attempt ns) 1) ns)))) in
  Ok (Transition.new state [node_id]).

(** [completed_at = Some(now)], no wait reason, no error. *)
Definition finish (now : Z) (ns : NodeSt.t) : NodeSt.t :=
  NodeSt.set_error_code None (NodeSt.set_wait_reason None (NodeSt.set_completed_at (Some now) ns)).

(** [completed_at = Some(now)] and the error, no wait reason. *)
Definition finish_failed (error_code : string) (now : Z) (ns : NodeSt.t) : NodeSt.t :=
  NodeSt.set_wait_reason None (NodeSt.set_error_code (Some error_code) (NodeSt.set_completed_at (Some now) ns)).

(** The graph ends: the unresolved nodes but [node_id] and the unresolved loop instances are
    cancelled. *)
Definition end_graph (state : Graph.t) (node_id : NodeId) (status : AgentGraphTerminalStatus.t) (now : Z) :
    Transition.t :=
  let state := Graph.set_terminal_status (Some status) state in
  let '(state, nodes) := cancel_unresolved_nodes state now {[node_id]} in
  let '(state, loops) := cancel_unresolved_loop_instances state now in
  Transition.new state (sort_dedup (node_id :: nodes ++ loops)).

Definition complete_node (state : Graph.t) (node_id : NodeId) (now : Z) :
    AgentGraphSchedulerResult Transition.t :=
  let? node := enter state node_id in
  let? _ := guard_or (negb (bool_decide (Node.kind node = AgentCompiledNodeKind.Branch)))
              (SchedErr.InvalidBranchSelection node_id
                 "branch nodes must complete with selected outgoing edge ids") in
  let? _ := guard_or (negb (bool_decide (Node.kind node = AgentCompiledNodeKind.Iterator)))
              (SchedErr.InvalidIteratorTransition node_id
                 "iterator nodes must complete through iterator-specific transitions") in
  let terminal := bool_decide (Node.kind node = AgentCompiledNodeKind.Terminal) in
  let next_status := if terminal then Status.Terminal else Status.Completed in
  let? state := transition_node state node_id Status.Running next_status now (finish now) in
  Ok (if terminal then end_graph state node_id AgentGraphTerminalStatus.Completed now
      else Transition.new state (sort_dedup [node_id])).

Definition complete_branch_node (state : Graph.t) (node_id : NodeId) (selected_edge_ids : list EdgeId)
    (now : Z) : AgentGraphSchedulerResult Transition.t :=
  let? node := enter state node_id in
  let? _ := guard_or (bool_decide (Node.kind node = AgentCompiledNodeKind.Branch))
              (SchedErr.InvalidBranchSelection node_id "node is not a branch") in
  let? _ := ensure_node_status state node_id Status.Running Status.Completed in
  let? selected_edge_ids := validate_branch_selection plan node_id selected_edge_ids in
  let state := Graph.set_selected_branch_paths
                 (<[node_id := selected_edge_ids]> (Graph.selected_branch_paths state)) state in
  let? node_state := node_state_of state node_id in
  let state := put_node state node_id
                 (finish now (NodeSt.set_updated_at now (NodeSt.set_status Status.Completed node_state))) in
  let? (state, skipped) := propagate_skips plan state now in
  Ok (Transition.new (bump state) (sort_dedup (node_id :: skipped))).

Definition start_iterator_iteration (state : Graph.t) (node_id : NodeId) (now : Z) :
    AgentGraphSchedulerResult Transition.t :=
  let? _ := ensure_not_terminal state in
  let? _ := validate_plan_state plan state in
  let? node := ensure_iterator_node plan node_id in
  let? _ := ensure_node_status state node_id Status.Running Status.Running in
  let? _ := guard_or (negb (is_some (current_iterator_iteration_index state node_id)))
              (SchedErr.InvalidIteratorTransition node_id "an iteration is already active") in
  let iteration_index := next_iterator_iteration_index state node_id in
  if max_iterations_of node <=? iteration_index then
    let? state := transition_node state node_id Status.Running Status.Failed now
                    (finish_failed "iterator-bound-exceeded" now) in
    Ok (Transition.new (Graph.set_terminal_status (Some AgentGraphTerminalStatus.Failed) state) [node_id])
  else
    let instance := Loop.set_status Status.Running (Loop.new node_id iteration_index now) in
    Ok (Transition.new
          (bump (Graph.set_loop_instances (Graph.loop_instances state ++ [instance]) state)) [node_id]).

(** [iter_mut().find(..)]: the first matching instance is replaced. *)
Fixpoint update_first (p : Loop.t → bool) (f : Loop.t → Loop.t) (l : list Loop.t) : list Loop.t :=
  match l with [] => [] | i :: l => if p i then f i :: l else i :: update_first p f l end.

Definition complete_iterator_iteration (state : Graph.t) (node_id : NodeId) (iteration_index : Z) (now : Z) :
    AgentGraphSchedulerResult Transition.t :=
  let? _ := ensure_not_terminal state in
  let? _ := validate_plan_state plan state in
  let? _ := ensure_iterator_node plan node_id in
  let? _ := ensure_node_status state node_id Status.Running Status.Running in
  let is_it i := bool_decide (Loop.node_id i = node_id) && (Loop.iteration_index i =? iteration_index) in
  let iteration := "iteration " +:+ PlanErr.quoted (pretty iteration_index) in
  let? instance := ok_or (SchedErr.InvalidIteratorTransition node_id (iteration +:+ " does not exist"))
                     (find_first is_it (Graph.loop_instances state)) in
  let? _ := guard_or (bool_decide (Loop.status instance = Status.Running))
              (SchedErr.InvalidIteratorTransition node_id
                 (iteration +:+ " is " +:+ PlanErr.quoted (Status.as_label (Loop.status instance)))) in
  let complete i := Loop.set_completed_at (Some now) (Loop.set_status Status.Completed i) in
  Ok (Transition.new
        (bump (Graph.set_loop_instances (update_first is_it complete (Graph.loop_instances state)) state))
        [node_id]).

Definition complete_iterator_node (state : Graph.t) (node_id : NodeId) (now : Z) :
    AgentGraphSchedulerResult Transition.t :=
  let? _ := ensure_not_terminal state in
  let? _ := validate_plan_state plan state in
  let? node := ensure_iterator_node plan node_id in
  let? _ := ensure_node_status state node_id Status.Running Status.Completed in
  let? _ := guard_or (negb (is_some (current_iterator_iteration_index state node_id)))
              (SchedErr.InvalidIteratorTransition node_id
                 "cannot complete iterator while an iteration is active") in
  let? _ := guard_or (next_iterator_iteration_index state node_id <=? max_iterations_of node)
              (SchedErr.InvalidIteratorTransition node_id "recorded iterations exceed iterator bound") in
  let? state := transition_node state node_id Status.Running Status.Completed now (finish now) in
  Ok (Transition.new state [node_id]).

Definition cancel_graph_run (state : Graph.t) (now : Z) : AgentGraphSchedulerResult Transition.t :=
  let? _ := validate_plan_state plan state in
  match Graph.terminal_status state with
  | Some AgentGraphTerminalStatus.Cancelled => Ok (Transition.new state [])
  | Some status => Err (SchedErr.TerminalGraph status)
  | None =>
      let '(state, nodes) := cancel_unresolved_nodes state now ∅ in
      let '(state, loops) := cancel_unresolved_loop_instances state now in
      Ok (Transition.new
            (bump (Graph.set_terminal_status (Some AgentGraphTerminalStatus.Cancelled) state))
            (sort_dedup (nodes ++ loops)))
  end.

Definition wait_node (state : Graph.t) (node_id : NodeId) (reason : Wait.t) (now : Z) :
    AgentGraphSchedulerResult Transition.t :=
  let? _ := enter state node_id in
  let? state := transition_node state node_id Status.Running Status.Waiting now
                  (NodeSt.set_wait_reason (Some reason)) in
  Ok (Transition.new state [node_id]).

Definition park_waiting_node (state : Graph.t) (node_id : NodeId) (from_reason : Wait.t)
    (cause_code : string) (now : Z) : AgentGraphSchedulerResult Transition.t :=
  let? _ := enter state node_id in
  let? _ := guard_or (negb (str_is_empty (trim cause_code))) (SchedErr.EmptyCauseCode node_id) in
  let? _ := ensure_node_wait_reason state node_id from_reason in
  let? state := transition_node state node_id Status.Waiting Status.Waiting now (fun ns =>
                  NodeSt.set_error_code (Some cause_code)
                    (NodeSt.set_wait_reason (Some Wait.Reconciliation) ns)) in
  Ok (Transition.new
        (Graph.set_graph_schema_version CURRENT_AGENT_GRAPH_STATE_SCHEMA_VERSION state) [node_id]).

Definition resume_parked_node (state : Graph.t) (node_id : NodeId) (now : Z) :
    AgentGraphSchedulerResult Transition.t :=
  let? _ := enter state node_id in
  let? _ := ensure_node_wait_reason state node_id Wait.Reconciliation in
  let? state := transition_node state node_id Status.Waiting Status.Running now (fun ns =>
                  NodeSt.set_effect_generation (saturating_add_u32 (NodeSt.effect_generation ns) 1)
                    (NodeSt.set_error_code None (NodeSt.set_wait_reason None ns))) in
  Ok (Transition.new
        (Graph.set_graph_schema_version CURRENT_AGENT_GRAPH_STATE_SCHEMA_VERSION state) [node_id]).

Definition complete_waiting_node (state : Graph.t) (node_id : NodeId) (reason : Wait.t)
    (output_refs : gmap AgentCompiledPortId.t ArtifactRef.t) (now : Z) :
    AgentGraphSchedulerResult Transition.t :=
  let? _ := enter state node_id in
  let? _ := ensure_node_wait_reason state node_id reason in
  let? state := transition_node state node_id Status.Waiting Status.Completed now (fun ns =>
                  finish now (NodeSt.set_output_refs (output_refs ∪ NodeSt.output_refs ns) ns)) in
  Ok (Transition.new state [node_id]).

Definition fail_waiting_node (state : Graph.t) (node_id : NodeId) (reason : Wait.t) (error_code : string)
    (now : Z) : AgentGraphSchedulerResult Transition.t :=
  let? _ := enter state node_id in
  let? _ := ensure_node_wait_reason state node_id reason in
  let? state := transition_node state node_id Status.Waiting Status.Failed now (finish_failed error_code now) in
  Ok (end_graph state node_id AgentGraphTerminalStatus.Failed now).

Definition fail_node (state : Graph.t) (node_id : NodeId) (error_code : string) (now : Z) :
    AgentGraphSchedulerResult Transition.t :=
  let? _ := enter state node_id in
  let? state := transition_node state node_id Status.Running Status.Failed now (finish_failed error_code now) in
  Ok (end_graph state node_id AgentGraphTerminalStatus.Failed now).
End Ops.
End AgentGraphScheduler.
