(* ===== verification/GraphDeps.v ===== *)
(** * Dependencies of a graph node, and when it can no longer run

    On a state that covers the plan the edge checks of [GraphScheduler] never fail, so they equal
    boolean functions of the state ([edge_done], [edge_dead], [node_ready], [node_dead]).
    These only grow along the moves of a run, which is what makes a decision to start or to
    skip a node final.  [no_stall] is the progress argument: over a validated plan, which is
    acyclic, a pending node has a pending ancestor whose edges have all settled. *)

From S2P Require Import Prelude CompiledPlan PlanSearch PlanValidation GraphState GraphScheduler.

Create HintDb graph.

(** ** Loops over edges *)

Section Loops.
Context (f : Edge.t → AgentGraphSchedulerResult bool) (b : Edge.t → bool).

Lemma any_edge_total es : (∀ e, e ∈ es → f e = Ok (b e)) → any_edge f es = Ok (existsb b es).
Proof.
  induction es as [|e es IH]; simpl; intros H; [done|].
  rewrite (H e) by set_solver. simpl. destruct (b e); [done|]. apply IH. set_solver.
Qed.

Lemma all_edges_total es : (∀ e, e ∈ es → f e = Ok (b e)) → all_edges f es = Ok (forallb b es).
Proof.
  induction es as [|e es IH]; simpl; intros H; [done|].
  rewrite (H e) by set_solver. simpl. destruct (b e); [|done]. apply IH. set_solver.
Qed.
End Loops.

Lemma edges_settled_total s nodes (done dead : Edge.t → bool) any es :
  (∀ e, e ∈ es → edge_source_completed s nodes e = Ok (done e)) →
  (∀ e, e ∈ es → edge_permanently_unsatisfied s nodes e = Ok (dead e)) →
  edges_settled s nodes any es = Ok (forallb (fun e => done e || dead e) es && (any || existsb done es)).
Proof.
  revert any. induction es as [|e es IH]; simpl; intros any Hd Hu; [by rewrite orb_false_r|].
  rewrite (Hd e) by set_solver. simpl. destruct (done e) eqn:He; simpl.
  - rewrite IH by set_solver. by rewrite orb_true_r.
  - rewrite (Hu e) by set_solver. simpl. destruct (dead e); simpl; [|done]. apply IH; set_solver.
Qed.

(** ** The tables of a plan *)

Lemma foldl_push_at (key : Edge.t → NodeId) es m k e :
  e ∈ default [] (foldl (fun m edge => push_at (key edge) edge m) m es !! k) ↔
  e ∈ default [] (m !! k) ∨ (e ∈ es ∧ key e = k).
Proof.
  revert m. induction es as [|x es IH]; intros m; simpl; [set_solver|].
  rewrite IH, elem_of_push_at. set_solver.
Qed.

Lemma elem_of_edges_by key plan k e :
  e ∈ default [] (edges_by key plan !! k) ↔ e ∈ Plan.edges plan ∧ key e = k.
Proof.
  unfold edges_by. rewrite lookup_fmap.
  pose proof (foldl_push_at key (Plan.edges plan) ∅ k e) as H.
  destruct (foldl _ ∅ (Plan.edges plan) !! k) as [es|] eqn:Hes; simpl in *.
  - unfold sort_on. rewrite merge_sort_Permutation, H. rewrite lookup_empty. simpl. set_solver.
  - rewrite H, lookup_empty. simpl. set_solver.
Qed.

Lemma elem_of_incoming plan node e :
  e ∈ incoming_edges (incoming_edges_by_target plan) node ↔
  e ∈ Plan.edges plan ∧ Edge.target_node_id e = Node.node_id node.
Proof. apply elem_of_edges_by. Qed.

Lemma elem_of_required plan node e :
  e ∈ required_incoming_edges (incoming_edges_by_target plan) node ↔
  target_port_required node e = true ∧ e ∈ Plan.edges plan ∧ Edge.target_node_id e = Node.node_id node.
Proof. unfold required_incoming_edges. by rewrite list_elem_of_filter, elem_of_incoming. Qed.

Lemma elem_of_sort_on {A K} `{OrdKey K} (key : A → K) l x : x ∈ sort_on key l ↔ x ∈ l.
Proof. unfold sort_on. by rewrite merge_sort_Permutation. Qed.

Lemma foldl_insert_nodes nodes (m : NodesById) id node :
  NoDup (Node.node_id <$> nodes) → (∀ x, x ∈ nodes → m !! Node.node_id x = None) →
  foldl (fun m node => <[Node.node_id node := node]> m) m nodes !! id = Some node ↔
  m !! id = Some node ∨ (node ∈ nodes ∧ Node.node_id node = id).
Proof.
  revert m. induction nodes as [|x nodes IH]; intros m Hnd Hm; simpl; [set_solver|].
  simpl in Hnd. apply NoDup_cons in Hnd as [Hx Hnd]. rewrite IH; [|done|].
  - rewrite lookup_insert_Some, elem_of_cons. specialize (Hm x). split.
    + naive_solver.
    + intros [Hid|[[->|Hin] <-]]; [|naive_solver|naive_solver]. left. right. split; [|done].
      intros <-. rewrite Hm in Hid; [done|by left].
  - intros y Hy. rewrite lookup_insert_ne; [apply Hm; by right|].
    intros Heq. apply Hx. rewrite Heq. apply list_elem_of_fmap. eauto.
Qed.

Lemma lookup_nodes_by_id plan id node :
  plan_ok plan → nodes_by_id plan !! id = Some node ↔ node_in plan id node.
Proof.
  intros Hok. unfold nodes_by_id. rewrite foldl_insert_nodes, lookup_empty; [|apply Hok|done].
  unfold node_in. naive_solver.
Qed.

Lemma node_in_unique plan id node node' :
  plan_ok plan → node_in plan id node → node_in plan id node' → node = node'.
Proof. intros Hok. rewrite <- !lookup_nodes_by_id by done. congruence. Qed.

(** ** Reflection *)

Section Reflect.
Context (plan : Plan.t) (Hplan : plan_ok plan).
Implicit Types (s : Graph.t) (e : Edge.t) (node : Node.t).

(** The state has exactly the plan's nodes. *)
Definition covers s : Prop := ∀ id, is_Some (Graph.node_states s !! id) ↔ ∃ node, node_in plan id node.

Definition with_source s e (f : Node.t → NodeSt.t → bool) : bool :=
  match nodes_by_id plan !! Edge.source_node_id e, Graph.node_states s !! Edge.source_node_id e with
  | Some node, Some ns => f node ns
  | _, _ => false
  end.

Definition edge_done s e : bool := with_source s e (fun node ns => source_satisfies_dependency s node ns e).

Definition edge_dead s e : bool :=
  with_source s e (fun node ns =>
    match NodeSt.status ns with
    | Status.Skipped | Status.Cancelled => true
    | _ =>
        bool_decide (Node.kind node = AgentCompiledNodeKind.Branch) &&
        match Graph.selected_branch_paths s !! Node.node_id node with
        | Some selected => negb (bool_decide (Edge.edge_id e ∈ selected))
        | None => completed_or_terminal (NodeSt.status ns)
        end
    end).

Lemma edge_source_ok s e :
  covers s → e ∈ Plan.edges plan →
  ∃ node ns, nodes_by_id plan !! Edge.source_node_id e = Some node ∧
    Graph.node_states s !! Edge.source_node_id e = Some ns ∧
    edge_source s (nodes_by_id plan) e = Ok (node, ns).
Proof.
  intros Hs He. destruct (plan_sources _ Hplan e He) as (node & Hin & _).
  destruct (proj2 (Hs (Edge.source_node_id e))) as [ns Hns]; [eauto|].
  apply lookup_nodes_by_id in Hin; [|done]. exists node, ns. split_and!; [done|done|].
  unfold edge_source, node_state_of. by rewrite Hin, Hns.
Qed.

Lemma edge_source_completed_ok s e :
  covers s → e ∈ Plan.edges plan → edge_source_completed s (nodes_by_id plan) e = Ok (edge_done s e).
Proof.
  intros Hs He. destruct (edge_source_ok s e Hs He) as (node & ns & Hn & Hns & Hsrc).
  unfold edge_source_completed, edge_done, with_source. by rewrite Hsrc, Hn, Hns.
Qed.

Lemma edge_permanently_unsatisfied_ok s e :
  covers s → e ∈ Plan.edges plan → edge_permanently_unsatisfied s (nodes_by_id plan) e = Ok (edge_dead s e).
Proof.
  intros Hs He. destruct (edge_source_ok s e Hs He) as (node & ns & Hn & Hns & Hsrc).
  unfold edge_permanently_unsatisfied, edge_dead, with_source. rewrite Hsrc, Hn, Hns. simpl.
  destruct (NodeSt.status ns); try done.
  all: destruct (decide (Node.kind node = AgentCompiledNodeKind.Branch)) as [Hk|Hk];
    [by rewrite (bool_decide_true _ Hk)|by rewrite (bool_decide_false _ Hk)].
Qed.

Definition required node : list Edge.t := required_incoming_edges (incoming_edges_by_target plan) node.
Definition incoming node : list Edge.t := incoming_edges (incoming_edges_by_target plan) node.

(** Every edge has settled and one has completed. *)
Definition settled s (es : list Edge.t) : bool :=
  forallb (fun e => edge_done s e || edge_dead s e) es && existsb (edge_done s) es.

Definition waits_for_any (es : list Edge.t) : bool :=
  existsb (fun e => bool_decide (Edge.merge_behavior e = Some AgentCompiledEdgeMergeBehavior.WaitForAny)) es.

Definition node_ready s node : bool :=
  bool_decide (Node.node_id node ∈ Plan.entry_node_ids plan) ||
  if decide (Node.kind node = AgentCompiledNodeKind.Join) then
    if waits_for_any (required node) then existsb (edge_done s) (required node) else settled s (required node)
  else
    match required node with
    | [] => settled s (incoming node)
    | es => forallb (edge_done s) es
    end.

Definition node_dead s node : bool :=
  if decide (Node.kind node = AgentCompiledNodeKind.Join) then
    match required node with
    | [] => false
    | es => negb (existsb (edge_done s) es) && forallb (edge_dead s) es
    end
  else
    match required node with
    | [] => forallb (edge_dead s) (incoming node)
    | es => existsb (edge_dead s) es
    end.

Lemma required_in_plan node e : e ∈ required node → e ∈ Plan.edges plan.
Proof. by intros (_ & ? & _)%elem_of_required. Qed.

Lemma incoming_in_plan node e : e ∈ incoming node → e ∈ Plan.edges plan.
Proof. by intros [? _]%elem_of_incoming. Qed.

Hint Resolve required_in_plan incoming_in_plan edge_source_completed_ok edge_permanently_unsatisfied_ok : graph.

Lemma dependencies_satisfied_ok s node :
  covers s →
  dependencies_satisfied s (nodes_by_id plan) (incoming_edges_by_target plan) plan node = Ok (node_ready s node).
Proof.
  intros Hs. unfold dependencies_satisfied, node_ready.
  destruct (decide (_ ∈ _)) as [Hent|Hent]; [by rewrite bool_decide_true by done|].
  rewrite bool_decide_false by done. simpl. fold (required node).
  destruct (decide (_ = _)) as [Hj|Hj].
  - unfold join_dependencies_satisfied. fold (waits_for_any (required node)). destruct (waits_for_any _).
    + apply any_edge_total. eauto with graph.
    + apply edges_settled_total; eauto with graph.
  - pose proof (all_edges_total (edge_source_completed s (nodes_by_id plan)) (edge_done s) (required node)) as Hall.
    destruct (required node) as [|e es] eqn:Hreq.
    + unfold optional_dependencies_satisfied. fold (incoming node). apply edges_settled_total; eauto with graph.
    + apply Hall. rewrite <- Hreq. eauto with graph.
Qed.

Lemma node_should_skip_ok s node :
  covers s → node_should_skip s (nodes_by_id plan) (incoming_edges_by_target plan) node = Ok (node_dead s node).
Proof.
  intros Hs. unfold node_should_skip, node_dead. fold (required node).
  assert (any_edge (edge_source_completed s (nodes_by_id plan)) (required node) =
          Ok (existsb (edge_done s) (required node))) as Hdone by (apply any_edge_total; eauto with graph).
  assert (all_edges (edge_permanently_unsatisfied s (nodes_by_id plan)) (required node) =
          Ok (forallb (edge_dead s) (required node))) as Hdead by (apply all_edges_total; eauto with graph).
  assert (any_edge (edge_permanently_unsatisfied s (nodes_by_id plan)) (required node) =
          Ok (existsb (edge_dead s) (required node))) as Hskip by (apply any_edge_total; eauto with graph).
  destruct (decide (_ = _)) as [Hj|Hj], (required node) as [|e es].
  - done.
  - rewrite Hdone. cbn [result_bind]. destruct (existsb _ (e :: es)); [done|]. by rewrite Hdead.
  - unfold optional_dependencies_blocked. fold (incoming node). apply all_edges_total; eauto with graph.
  - done.
Qed.

(** ** Decisions are final *)

(** What a run never takes back: a resolved node keeps its status, and a branch that has
    completed keeps its selection. *)
Definition keeps s s' : Prop :=
  ∀ id ns, Graph.node_states s !! id = Some ns → node_status_is_unresolved (NodeSt.status ns) = false →
    (∃ ns', Graph.node_states s' !! id = Some ns' ∧ NodeSt.status ns' = NodeSt.status ns) ∧
    Graph.selected_branch_paths s' !! id = Graph.selected_branch_paths s !! id.

(** Only resolved nodes have a selection. *)
Definition selections_resolved s : Prop :=
  ∀ id sel, Graph.selected_branch_paths s !! id = Some sel →
    ∃ ns, Graph.node_states s !! id = Some ns ∧ NodeSt.status ns = Status.Completed.

Lemma with_source_true s e f :
  with_source s e f = true ↔
  ∃ node ns, node_in plan (Edge.source_node_id e) node ∧
    Graph.node_states s !! Edge.source_node_id e = Some ns ∧ f node ns = true.
Proof.
  unfold with_source. split.
  - destruct (nodes_by_id plan !! _) as [node|] eqn:Hn; [|done].
    destruct (Graph.node_states s !! _) as [ns|] eqn:Hns; [|done].
    apply lookup_nodes_by_id in Hn; eauto 10.
  - intros (node & ns & Hn%lookup_nodes_by_id & Hns & Hf); [|done]. by rewrite Hn, Hns.
Qed.

Lemma edge_done_keeps s s' e : keeps s s' → edge_done s e = true → edge_done s' e = true.
Proof.
  unfold edge_done. rewrite !with_source_true. intros Hk (node & ns & Hn & Hns & Hf).
  assert (node_status_is_unresolved (NodeSt.status ns) = false) as Hres.
  { unfold source_satisfies_dependency in Hf. apply andb_true_iff in Hf as [_ Hf].
    destruct (NodeSt.status ns); simpl in *; try done; by rewrite andb_false_r in Hf. }
  destruct (Hk _ _ Hns Hres) as [(ns' & Hns' & Hst) Hsel]. exists node, ns'. split_and!; [done|done|].
  rewrite <- Hf. unfold source_satisfies_dependency, edge_is_active. rewrite Hst.
  destruct Hn as [_ ->]. by rewrite Hsel.
Qed.

Lemma edge_dead_resolved s e :
  selections_resolved s → edge_dead s e = true →
  ∃ ns, Graph.node_states s !! Edge.source_node_id e = Some ns ∧
    node_status_is_unresolved (NodeSt.status ns) = false.
Proof.
  intros Hsr (node & ns & [_ Hn] & Hns & Hf)%with_source_true. exists ns. split; [done|].
  assert (∀ sel, Graph.selected_branch_paths s !! Node.node_id node = Some sel →
                 NodeSt.status ns = Status.Completed) as Hsel.
  { intros sel (ns' & Hns' & Hc)%Hsr. rewrite Hn in Hns'. by simplify_eq. }
  destruct (Graph.selected_branch_paths s !! Node.node_id node) as [sel|]; [by rewrite (Hsel sel)|].
  destruct (NodeSt.status ns); try done; simpl in Hf; by rewrite andb_false_r in Hf.
Qed.

Lemma edge_dead_keeps s s' e :
  selections_resolved s → keeps s s' → edge_dead s e = true → edge_dead s' e = true.
Proof.
  intros Hsr Hk Hd. destruct (edge_dead_resolved s e Hsr Hd) as (ns & Hns & Hres).
  unfold edge_dead in *. rewrite !with_source_true in *. destruct Hd as (node & ns0 & Hn & Hns0 & Hf).
  destruct (Hk _ _ Hns Hres) as [(ns' & Hns' & Hst) Hsel]. exists node, ns'.
  assert (ns0 = ns) as -> by congruence. split_and!; [done|done|]. destruct Hn as [_ Hid].
  rewrite Hid in *. by rewrite Hst, Hsel.
Qed.

(** No edge is both. *)
Lemma edge_done_dead s e : edge_done s e = true → edge_dead s e = true → False.
Proof.
  unfold edge_done, edge_dead. rewrite !with_source_true.
  intros (node & ns & Hn & Hns & Hf) (node' & ns' & Hn' & Hns' & Hf'). assert (ns' = ns) as -> by congruence.
  pose proof (node_in_unique _ _ _ _ Hplan Hn Hn') as <-.
  unfold source_satisfies_dependency, edge_is_active in Hf. apply andb_true_iff in Hf as [Ha Hc].
  destruct (decide (Node.kind node = AgentCompiledNodeKind.Branch)) as [Hb|Hb].
  - rewrite bool_decide_true in Hf' by done. simpl in Hf'.
    destruct (NodeSt.status ns); simpl in *; rewrite ?andb_false_r in Hc; try done.
    all: destruct (Graph.selected_branch_paths s !! _); [|done]; by rewrite Ha in Hf'.
  - rewrite bool_decide_false in Hf' by done. simpl in Hf'.
    destruct (NodeSt.status ns); simpl in *; rewrite ?andb_false_r in Hc; done.
Qed.

Lemma forallb_mono {A} (f g : A → bool) l :
  (∀ x, f x = true → g x = true) → forallb f l = true → forallb g l = true.
Proof. rewrite !forallb_forall. auto. Qed.

Lemma existsb_mono {A} (f g : A → bool) l :
  (∀ x, f x = true → g x = true) → existsb f l = true → existsb g l = true.
Proof. rewrite !existsb_exists. naive_solver. Qed.

Lemma settled_keeps s s' es :
  selections_resolved s → keeps s s' → settled s es = true → settled s' es = true.
Proof.
  intros Hsr Hk [Hall Hex]%andb_true_iff. apply andb_true_iff. split.
  - revert Hall. apply forallb_mono. intros e [Hd|Hd]%orb_true_iff; apply orb_true_iff.
    + left. by eapply edge_done_keeps.
    + right. by eapply edge_dead_keeps.
  - revert Hex. apply existsb_mono. eauto using edge_done_keeps.
Qed.

(** A node that was ready stays ready, one that was skipped stays out of reach. *)
Lemma node_ready_keeps s s' node :
  selections_resolved s → keeps s s' → node_ready s node = true → node_ready s' node = true.
Proof.
  intros Hsr Hk. unfold node_ready. destruct (bool_decide _); simpl; [done|].
  destruct (decide _).
  - destruct (waits_for_any _); [|by apply settled_keeps].
    apply existsb_mono. eauto using edge_done_keeps.
  - destruct (required node) as [|e es]; [by apply settled_keeps|].
    apply (forallb_mono (edge_done s) (edge_done s') (e :: es)). eauto using edge_done_keeps.
Qed.

Lemma node_dead_keeps s s' node :
  selections_resolved s → keeps s s' → node_dead s node = true → node_dead s' node = true.
Proof.
  intros Hsr Hk. unfold node_dead. destruct (decide _) as [Hj|Hj].
  - destruct (required node) as [|e0 es]; [done|]. intros [_ Hall]%andb_true_iff.
    assert (forallb (edge_dead s') (e0 :: es) = true) as Hall'.
    { revert Hall. apply forallb_mono. eauto using edge_dead_keeps. }
    apply andb_true_iff. split; [|done]. apply negb_true_iff, not_true_iff_false.
    intros (e & Hin & Hd)%existsb_exists. rewrite forallb_forall in Hall'.
    by apply (edge_done_dead s' e Hd), Hall'.
  - destruct (required node) as [|e0 es].
    + apply forallb_mono. eauto using edge_dead_keeps.
    + apply (existsb_mono (edge_dead s) (edge_dead s') (e0 :: es)). eauto using edge_dead_keeps.
Qed.

(** Skipping is right: no node other than an entry is both ready and out of reach. *)
Lemma node_ready_dead s node :
  Node.node_id node ∉ Plan.entry_node_ids plan → node_ready s node = true → node_dead s node = true → False.
Proof.
  intros Hent. unfold node_ready, node_dead, settled. rewrite bool_decide_false, orb_false_l by done.
  assert (∀ es, existsb (edge_done s) es = true → forallb (edge_dead s) es = true → False) as Hno.
  { intros es (e & Hin & Hd)%existsb_exists Hall. rewrite forallb_forall in Hall.
    by apply (edge_done_dead s e Hd), Hall. }
  destruct (decide _) as [Hj|Hj].
  - destruct (required node) as [|e0 es]; [done|]. intros Hr [_ Hall]%andb_true_iff.
    apply (Hno (e0 :: es)); [|done]. destruct (waits_for_any _); [done|]. by apply andb_true_iff in Hr as [_ ?].
  - destruct (required node) as [|e0 es].
    + intros [_ Hex]%andb_true_iff Hall. by apply (Hno (incoming node)).
    + intros Hall (e & Hin & Hd)%existsb_exists. rewrite forallb_forall in Hall.
      by apply (edge_done_dead s e (Hall e Hin)).
Qed.
(** ** Progress *)

Definition quiet (status : Status.t) : Prop :=
  match status with
  | Status.Runnable | Status.Running | Status.Waiting | Status.Failed => False
  | _ => True
  end.

(** An edge whose source has come to rest is done or dead. *)
Lemma edge_settles s e ns :
  covers s → e ∈ Plan.edges plan → Graph.node_states s !! Edge.source_node_id e = Some ns →
  quiet (NodeSt.status ns) → NodeSt.status ns ≠ Status.Pending → edge_done s e || edge_dead s e = true.
Proof.
  intros Hs He Hns Hq Hp. destruct (edge_source_ok s e Hs He) as (node & ns' & Hn & Hns' & _).
  assert (ns' = ns) as -> by congruence. unfold edge_done, edge_dead, with_source. rewrite Hn, Hns.
  unfold source_satisfies_dependency, edge_is_active.
  destruct (decide (Node.kind node = AgentCompiledNodeKind.Branch)) as [Hb|Hb].
  - rewrite (bool_decide_true _ Hb).
    destruct (NodeSt.status ns); try done; simpl; rewrite ?orb_true_r; try done.
    all: destruct (Graph.selected_branch_paths s !! _) as [sel|]; [|done]; by destruct (bool_decide _).
  - destruct (NodeSt.status ns); try done; simpl; by rewrite ?orb_true_r.
Qed.

(** The edges of the plan are well founded backwards too, since they are finitely many. *)
Lemma plan_edge_irreflexive : Irreflexive (tc (plan_edge plan)).
Proof.
  intros n. induction (plan_acyclic _ Hplan n) as [n _ IH]. intros Hc.
  inversion Hc as [? ? Hnn|? m ? Hnm Hmn]; subst.
  - apply (IH n Hnn). by apply tc_once.
  - apply (IH m Hnm). eapply tc_r; [done|done].
Qed.

Lemma plan_edge_wf n : Acc (plan_edge plan) n.
Proof.
  enough (sn (flip (plan_edge plan)) n) as H by exact H. apply tc_finite_sn.
  - intros x Hx. apply (plan_edge_irreflexive x).
    enough (∀ a b, tc (flip (plan_edge plan)) a b → tc (plan_edge plan) b a) as Hflip by auto.
    intros a b Hab. induction Hab as [a b Hab|a b c Hab _ IH]; [by apply tc_once|]. by eapply tc_r.
  - exists (Edge.source_node_id <$> Plan.edges plan). intros x Hx.
    assert (∃ y, plan_edge plan x y) as (y & e & He & <- & _).
    { induction Hx as [a b Hab|a b c _ _ IH]; [by exists a|done]. }
    apply list_elem_of_fmap. eauto.
Qed.

(** A pending node whose edges have settled is ready unless it is out of reach. *)
Lemma settled_ready s node :
  (∀ e, e ∈ incoming node → edge_done s e || edge_dead s e = true) →
  (Node.node_id node ∉ Plan.entry_node_ids plan → node_dead s node = false) →
  (Node.kind node = AgentCompiledNodeKind.Join →
     Node.node_id node ∈ Plan.entry_node_ids plan ∨ required node ≠ []) →
  node_ready s node = true.
Proof.
  intros Hset Hdead Hjoin. unfold node_ready.
  destruct (bool_decide_reflect (Node.node_id node ∈ Plan.entry_node_ids plan)) as [Hent|Hent]; [done|].
  specialize (Hdead Hent). unfold node_dead in Hdead.
  assert (∀ e, In e (required node) → edge_done s e || edge_dead s e = true) as Hreq.
  { intros e [He _]%list_elem_of_In%list_elem_of_filter%and_comm. by apply Hset. }
  rewrite orb_false_l. destruct (decide _) as [Hj|Hj].
  - destruct (Hjoin Hj) as [?|Hne]; [done|].
    assert (existsb (edge_done s) (required node) = true) as Hex.
    { destruct (existsb (edge_done s) (required node)) eqn:Hex; [done|]. exfalso.
      destruct (required node) as [|e0 es]; [done|]. rewrite Hex in Hdead. simpl in Hdead.
      apply not_true_iff_false in Hdead. apply Hdead, (forallb_forall (edge_dead s) (e0 :: es)).
      intros e He. specialize (Hreq e He). apply orb_true_iff in Hreq as [Hd|Hd]; [|done].
      apply not_true_iff_false in Hex. exfalso. apply Hex, existsb_exists. eauto. }
    destruct (waits_for_any _); [done|]. unfold settled. rewrite Hex, andb_true_r.
    by apply forallb_forall.
  - destruct (required node) as [|e0 es].
    + unfold settled. apply andb_true_iff. split.
      * apply forallb_forall. intros e He. by apply Hset, list_elem_of_In.
      * destruct (existsb (edge_done s) (incoming node)) eqn:Hex; [done|]. exfalso.
        apply not_true_iff_false in Hdead. apply Hdead, forallb_forall. intros e He.
        specialize (Hset e (proj2 (list_elem_of_In _ _) He)). apply orb_true_iff in Hset as [Hd|Hd]; [|done].
        apply not_true_iff_false in Hex. exfalso. apply Hex, existsb_exists. eauto.
    + apply forallb_forall. intros e He. specialize (Hreq e He). apply orb_true_iff in Hreq as [Hd|Hd]; [done|].
      apply not_true_iff_false in Hdead. exfalso. apply Hdead, existsb_exists. eauto.
Qed.

Lemma no_stall s :
  covers s →
  (∀ id ns, Graph.node_states s !! id = Some ns → quiet (NodeSt.status ns)) →
  (∀ node ns, node ∈ Plan.nodes plan → Node.node_id node ∉ Plan.entry_node_ids plan →
     Graph.node_states s !! Node.node_id node = Some ns → NodeSt.status ns = Status.Pending →
     node_dead s node = false) →
  (∀ node, node ∈ Plan.nodes plan → Node.kind node = AgentCompiledNodeKind.Join →
     Node.node_id node ∈ Plan.entry_node_ids plan ∨ required node ≠ []) →
  ∀ node ns, node ∈ Plan.nodes plan → Graph.node_states s !! Node.node_id node = Some ns →
    NodeSt.status ns = Status.Pending →
    ∃ node' ns', node' ∈ Plan.nodes plan ∧ Graph.node_states s !! Node.node_id node' = Some ns' ∧
      NodeSt.status ns' = Status.Pending ∧ node_ready s node' = true.
Proof.
  intros Hs Hquiet Hskip Hjoin node. remember (Node.node_id node) as id eqn:Hid. revert node Hid.
  induction (plan_edge_wf id) as [id _ IH]. intros node -> ns Hn Hns Hp.
  destruct (decide (Exists (fun e => option_map NodeSt.status (Graph.node_states s !! Edge.source_node_id e)
                                     = Some Status.Pending) (incoming node))) as [Hex|Hnone].
  { apply Exists_exists in Hex as (e & He & Hpe). apply elem_of_incoming in He as [He Htgt].
    destruct (plan_sources _ Hplan e He) as (src & [Hsrc Hid] & _).
    destruct (Graph.node_states s !! Edge.source_node_id e) as [ns'|] eqn:Hns'; simplify_eq/=.
    apply (IH (Edge.source_node_id e)) with (node := src) (ns := ns'); try done. by exists e. }
  exists node, ns. split_and!; try done.
  assert (∀ e, e ∈ incoming node → edge_done s e || edge_dead s e = true) as Hset.
  { intros e He. pose proof (incoming_in_plan _ _ He) as Hpe.
    destruct (edge_source_ok s e Hs Hpe) as (src & ns' & _ & Hns' & _).
    apply (edge_settles s e ns'); eauto. intros Hpend. apply Hnone, Exists_exists. exists e.
    split; [done|]. rewrite Hns'. simpl. by f_equal. }
  apply settled_ready; eauto.
Qed.
End Reflect.
