(* ===== verification/GraphProps.v ===== *)
(** * What holds of every run of a compiled graph

    The theorems about compiled plans and their scheduler, over the moves of [GraphRuns], and a
    plan that they are evaluated on: an input, a branch to two transforms, a join and a
    terminal node. *)

From S2P Require Import Prelude CompiledPlan PlanSearch PlanValidation GraphState GraphScheduler GraphDeps GraphRuns.

(** ** A plan *)

Module Demo.
Definition node_id (name : string) : NodeId := AgentCompiledNodeId.new name.
Definition edge_id (name : string) : EdgeId := AgentCompiledEdgeId.new name.

Definition port (direction : AgentCompiledPortDirection.t) (req : bool) (name : string) : Port.t :=
  AgentCompiledPlanPort.mk (AgentCompiledPortId.new name) direction "json" req None ∅.

Definition node (name : string) (kind : AgentCompiledNodeKind.t) (req : bool) (ins outs : list string)
    (policy : option AgentCompiledIteratorPolicy.t) : Node.t :=
  AgentCompiledPlanNode.mk (node_id name) kind (port AgentCompiledPortDirection.Input req <$> ins)
    (port AgentCompiledPortDirection.Output true <$> outs) None None None None None policy None None ∅.

Definition edge (name from out to in_ : string) (merge : option AgentCompiledEdgeMergeBehavior.t) : Edge.t :=
  AgentCompiledPlanEdge.mk (edge_id name) (node_id from) (AgentCompiledPortId.new out) (node_id to)
    (AgentCompiledPortId.new in_) None merge ∅.

Definition graph (nodes : list Node.t) (edges : list Edge.t) : Plan.t :=
  AgentCompiledExecutionPlan.of_graph (AgentCompiledPlanId.new "plan") (AgentWorkflowId.new "flow") "demo"
    (WorkflowDefinitionVersion.new "1") 1 (AgentCompiledPlanFingerprint.new "f") [node_id "in"] nodes edges.

Definition all := Some AgentCompiledEdgeMergeBehavior.WaitForAll.

(** [merge_required] says whether the ports of the join are required. *)
Definition branching (merge_required : bool) : Plan.t :=
  graph
    [node "in" AgentCompiledNodeKind.Input true [] ["o"] None;
     node "pick" AgentCompiledNodeKind.Branch true ["i"] ["l"; "r"] None;
     node "left" AgentCompiledNodeKind.Transform true ["i"] ["o"] None;
     node "right" AgentCompiledNodeKind.Transform true ["i"] ["o"] None;
     node "merge" AgentCompiledNodeKind.Join merge_required ["a"; "b"] ["o"] None;
     node "end" AgentCompiledNodeKind.Terminal true ["i"] [] None]
    [edge "e1" "in" "o" "pick" "i" None; edge "e2" "pick" "l" "left" "i" None;
     edge "e3" "pick" "r" "right" "i" None; edge "e4" "left" "o" "merge" "a" all;
     edge "e5" "right" "o" "merge" "b" all; edge "e6" "merge" "o" "end" "i" None].

(** Two successors of the input: an iterator bounded by one iteration, and a transform. *)
Definition looping : Plan.t :=
  graph
    [node "in" AgentCompiledNodeKind.Input true [] ["o"] None;
     node "each" AgentCompiledNodeKind.Iterator true ["i"] ["o"] (Some (AgentCompiledIteratorPolicy.new 1));
     node "side" AgentCompiledNodeKind.Transform true ["i"] ["o"] None;
     node "end" AgentCompiledNodeKind.Terminal true ["i"] [] None]
    [edge "e1" "in" "o" "each" "i" None; edge "e2" "in" "o" "side" "i" None;
     edge "e3" "each" "o" "end" "i" None].

Definition initial (plan : Plan.t) : Graph.t :=
  match Sched.initialize_state plan 0 with
  | Ok s => s
  | Err _ => Graph.new (Plan.plan_id plan) (Plan.plan_fingerprint plan)
  end.

Definition run_node (name : string) : list (Z * command) :=
  [(1, MarkReady); (1, Start (node_id name)); (2, Complete (node_id name))].

(** The branch goes left, and the left transform completes. *)
Definition left_path : list (Z * command) :=
  run_node "in" ++ [(1, MarkReady); (1, Start (node_id "pick"));
                    (2, CompleteBranch (node_id "pick") [edge_id "e2"])] ++ run_node "left".

Definition status_in (s : Graph.t) (name : string) : option Status.t :=
  NodeSt.status <$> Graph.node_states s !! node_id name.
End Demo.

(** ** Plans *)

(** A plan that the validator accepts is well formed: node and edge ids are unique, every
    edge leaves an output port and enters an input port of nodes of the plan, the edges are
    acyclic, a terminal node is reachable from an entry, every required input of a node other
    than an entry is connected and the node reachable, and every join has an incoming edge,
    each with its merge behaviour. *)
Theorem validated_plan_well_formed (plan : Plan.t) (catalog : AgentCompiledNodeKindCatalog.t)
    (H : validate_compiled_execution_plan_with_catalog plan catalog = Ok tt) : plan_ok plan.
Proof. by eapply validated_plan_is_ok. Qed.

Lemma validated_plan_well_formed_witness :
  validate_compiled_execution_plan_with_catalog (Demo.branching true) AgentCompiledNodeKindCatalog.current = Ok tt ∧
  plan_ok (Demo.branching true).
Proof.
  assert (validate_compiled_execution_plan_with_catalog (Demo.branching true)
            AgentCompiledNodeKindCatalog.current = Ok tt) as H by (vm_compute; reflexivity).
  split; [exact H|]. exact (validated_plan_well_formed _ _ H).
Defined.

(** ** Dependencies *)

(** C12. In every run from the initial state, a node that has become runnable, or has been
    started, has its dependencies satisfied, now and not only when it was marked; a node that
    has been skipped can never satisfy them, and is no entry node. *)
Theorem runs_respect_dependencies (plan : Plan.t) (now : Z) (s0 : Graph.t) (cs : list (Z * command))
    (node : Node.t) (ns : NodeSt.t)
    (Hinit : Sched.initialize_state plan now = Ok s0) (Hnode : node ∈ Plan.nodes plan) :
  let s := graph_run plan s0 cs in
  let satisfied := dependencies_satisfied s (nodes_by_id plan) (incoming_edges_by_target plan) plan node in
  Graph.node_states s !! Node.node_id node = Some ns →
  (begun (NodeSt.status ns) → satisfied = Ok true) ∧
  (NodeSt.status ns = Status.Skipped → satisfied = Ok false).
Proof.
  intros s satisfied Hns. destruct (initialize_state_ok _ _ _ Hinit) as [Hplan Hok].
  apply (graph_run_ok plan Hplan _ cs) in Hok. fold s in Hok.
  assert (satisfied = Ok (node_ready plan s node)) as -> by (apply dependencies_satisfied_ok; [done|apply Hok]).
  split; intros Hst.
  - f_equal. by eapply (ok_begun _ _ Hok).
  - destruct (ok_skipped _ _ Hok _ node ns (conj Hnode eq_refl) Hns Hst) as [Hd Hent]. f_equal.
    apply not_true_iff_false. intros Hr. by eapply node_ready_dead.
Qed.

Lemma runs_respect_dependencies_witness :
  let plan := Demo.branching true in
  let s := graph_run plan (Demo.initial plan) Demo.left_path in
  let right := Demo.node "right" AgentCompiledNodeKind.Transform true ["i"] ["o"] None in
  dependencies_satisfied s (nodes_by_id plan) (incoming_edges_by_target plan) plan right = Ok false.
Proof.
  intros plan s right.
  destruct (Graph.node_states s !! Node.node_id right) as [ns|] eqn:Hns; [|vm_compute in Hns; discriminate].
  apply (runs_respect_dependencies plan 0 (Demo.initial plan) Demo.left_path right ns).
  - vm_compute; reflexivity.
  - unfold right, plan; simpl. right. right. right. left.
  - exact Hns.
  - vm_compute in Hns. injection Hns as <-. reflexivity.
Defined.

(** ** History of a node *)

Lemma node_move_attempt plan s id ns ns' :
  node_move plan s id ns ns' → starts (NodeSt.status ns) (NodeSt.attempt ns) →
  NodeSt.attempt ns <= NodeSt.attempt ns'.
Proof.
  intros [Hs Ha|n _ _ Hs Hs' Ha|n _ _ _ Hs Hs' Ha|Hs Hs' Ha|Hs Hs' Ha|Hs Hs' Ha] H; rewrite Ha; try lia.
  rewrite Hs in H. simpl in H. rewrite H. by vm_compute.
Qed.

Lemma moves_history plan s s' id ns :
  plan_ok plan → graph_ok plan s → rtc (move plan) s s' → Graph.node_states s !! id = Some ns →
  ∃ ns', Graph.node_states s' !! id = Some ns' ∧ NodeSt.attempt ns <= NodeSt.attempt ns' ∧
    (node_status_is_unresolved (NodeSt.status ns) = false →
     NodeSt.status ns' = NodeSt.status ns ∧ NodeSt.attempt ns' = NodeSt.attempt ns).
Proof.
  intros Hplan Hok Hm. revert ns Hok. induction Hm as [s|s s1 s' H1 _ IH]; intros ns Hok Hns.
  { exists ns. split_and!; [done|lia|done]. }
  destruct (move_lookup_fwd _ _ _ _ _ H1 Hns) as (ns1 & Hns1 & Hmv).
  destruct (IH ns1 (move_ok _ Hplan _ _ Hok H1) Hns1) as (ns' & Hns' & Ha & Hr).
  pose proof (node_move_attempt _ _ _ _ _ Hmv (ok_starts _ _ Hok _ _ Hns)). exists ns'. split_and!; [done|lia|].
  intros Hres. destruct (node_move_resolved _ _ _ _ _ Hmv Hres) as [Hst Hat].
  rewrite Hst, Hat in Hr. auto.
Qed.

Lemma starts_bound status attempt : starts status attempt → 0 <= attempt <= 1.
Proof. destruct status; simpl; lia. Qed.

(** In every run no node is started twice: its attempt count is at most one and never
    decreases, so that its increment cannot overflow; and a node that has completed, failed,
    been skipped or cancelled keeps that status and count whatever operations follow. *)
Theorem nodes_start_once (plan : Plan.t) (now : Z) (s0 : Graph.t) (cs later : list (Z * command))
    (id : NodeId) (ns : NodeSt.t)
    (Hinit : Sched.initialize_state plan now = Ok s0)
    (Hns : Graph.node_states (graph_run plan s0 cs) !! id = Some ns) :
  ∃ ns', Graph.node_states (graph_run plan s0 (cs ++ later)) !! id = Some ns' ∧
    0 <= NodeSt.attempt ns <= NodeSt.attempt ns' ∧ NodeSt.attempt ns' <= 1 ∧
    (node_status_is_unresolved (NodeSt.status ns) = false →
     NodeSt.status ns' = NodeSt.status ns ∧ NodeSt.attempt ns' = NodeSt.attempt ns).
Proof.
  destruct (initialize_state_ok _ _ _ Hinit) as [Hplan Hok].
  apply (graph_run_ok plan Hplan _ cs) in Hok. unfold graph_run at 1. rewrite foldl_app.
  fold (graph_run plan s0 cs). fold (graph_run plan (graph_run plan s0 cs) later).
  destruct (moves_history plan _ _ id ns Hplan Hok (graph_run_moves plan Hplan _ later Hok) Hns)
    as (ns' & Hns' & Ha & Hr).
  pose proof (starts_bound _ _ (ok_starts _ _ Hok _ _ Hns)).
  pose proof (starts_bound _ _ (ok_starts _ _ (graph_run_ok plan Hplan _ later Hok) _ _ Hns')).
  exists ns'. split_and!; [done|lia|lia|lia|done].
Qed.

Lemma nodes_start_once_witness :
  let plan := Demo.branching true in
  ∃ ns, Graph.node_states (graph_run plan (Demo.initial plan) Demo.left_path) !! Demo.node_id "left" = Some ns ∧
    ∃ ns', Graph.node_states
             (graph_run plan (Demo.initial plan) (Demo.left_path ++ Demo.run_node "left"))
             !! Demo.node_id "left" = Some ns' ∧ NodeSt.status ns' = Status.Completed.
Proof.
  intros plan.
  destruct (Graph.node_states (graph_run plan (Demo.initial plan) Demo.left_path) !! Demo.node_id "left")
    as [ns|] eqn:Hns; [|vm_compute in Hns; discriminate].
  exists ns. split; [reflexivity|].
  assert (Sched.initialize_state plan 0 = Ok (Demo.initial plan)) as Hi by (vm_compute; reflexivity).
  destruct (nodes_start_once plan 0 (Demo.initial plan) Demo.left_path (Demo.run_node "left")
              (Demo.node_id "left") ns Hi Hns) as (ns' & Hns' & _ & _ & Hr).
  exists ns'. split; [exact Hns'|]. vm_compute in Hns. injection Hns as <-. by destruct (Hr eq_refl) as [-> _].
Defined.

(** ** The end of a run *)

Lemma terminal_enter plan s id st : Graph.terminal_status s = Some st → ∃ e, Sched.enter plan s id = Err e.
Proof. intros H. unfold Sched.enter, ensure_not_terminal. rewrite H. simpl. eauto. Qed.

Lemma terminal_not_ok s st : Graph.terminal_status s = Some st → ensure_not_terminal s = Err (SchedErr.TerminalGraph st).
Proof. intros H. unfold ensure_not_terminal. by rewrite H. Qed.

Lemma terminal_step plan s st c : Graph.terminal_status s = Some st → graph_step plan s c = s.
Proof.
  intros Hst. unfold graph_step. destruct c as [now c].
  destruct c as [|id|id|id sel|id|id i| id| |id r|id r cause|id|id r outs|id r e|id e]; simpl.
  8: { unfold Sched.cancel_graph_run. rewrite Hst. destruct (validate_plan_state plan s); [|done]. by destruct st. }
  all: unfold Sched.mark_ready_nodes_runnable, Sched.start_node, Sched.complete_node, Sched.complete_branch_node,
    Sched.start_iterator_iteration, Sched.complete_iterator_iteration, Sched.complete_iterator_node,
    Sched.wait_node, Sched.park_waiting_node, Sched.resume_parked_node, Sched.complete_waiting_node,
    Sched.fail_waiting_node, Sched.fail_node, Sched.enter; by rewrite (terminal_not_ok _ _ Hst).
Qed.

Lemma terminal_run plan s st cs : Graph.terminal_status s = Some st → graph_run plan s cs = s.
Proof.
  intros Hst. induction cs as [|c cs IH]; [done|]. simpl. by rewrite (terminal_step plan s st c Hst).
Qed.

Definition all_resolved (s : Graph.t) : Prop :=
  ∀ id ns, Graph.node_states s !! id = Some ns → node_status_is_unresolved (NodeSt.status ns) = false.

Definition bound_exceeded (s : Graph.t) : Prop :=
  Graph.terminal_status s = Some AgentGraphTerminalStatus.Failed ∧
  ∃ id ns, Graph.node_states s !! id = Some ns ∧ NodeSt.status ns = Status.Failed ∧
    NodeSt.error_code ns = Some "iterator-bound-exceeded".

Lemma cancel_resolves s now (excluded : gset NodeId) id ns :
  Graph.node_states (cancel_unresolved_nodes s now excluded).1 !! id = Some ns →
  node_status_is_unresolved (NodeSt.status ns) = true →
  id ∈ excluded ∧ Graph.node_states s !! id = Some ns.
Proof.
  simpl. rewrite map_lookup_imap. destruct (Graph.node_states s !! id) as [ns0|]; simpl; [|done].
  intros [= <-] Hu. unfold cancels in *. destruct (bool_decide_reflect (id ∈ excluded)) as [Hin|Hin]; simpl in *.
  - done.
  - by destruct (node_status_is_unresolved (NodeSt.status ns0)) eqn:H; [|rewrite H in Hu].
Qed.

Lemma end_graph_resolved s id st now ns :
  Graph.node_states s !! id = Some ns → node_status_is_unresolved (NodeSt.status ns) = false →
  all_resolved (Transition.state (Sched.end_graph s id st now)).
Proof.
  intros Hns Hr id' ns' Hns'. apply not_true_iff_false. intros Hu.
  destruct (cancel_resolves (Graph.set_terminal_status (Some st) s) now {[id]} id' ns' Hns' Hu)
    as [->%elem_of_singleton Hns0]. simpl in Hns0. simplify_eq. by rewrite Hr in Hu.
Qed.

Lemma mark_nodes_terminal now ids s s' :
  Sched.mark_nodes now s ids = Ok s' → Graph.terminal_status s' = Graph.terminal_status s.
Proof.
  revert s. induction ids as [|id ids IH]; intros s; simpl; [by intros [= <-]|].
  intros (ns & _ & H%IH)%result_bind_ok. exact H.
Qed.

Lemma skip_nodes_terminal now ids s s' ch :
  skip_nodes now s ids = Ok (s', ch) → Graph.terminal_status s' = Graph.terminal_status s.
Proof.
  revert s s' ch. induction ids as [|id ids IH]; intros s s' ch; simpl; [by intros [= <- _]|].
  intros (ns & _ & H)%result_bind_ok. destruct (decide _); [|by eapply IH].
  apply result_bind_ok in H as ([s1 ch1] & H%IH & [= <- _]). exact H.
Qed.

Lemma skip_rounds_terminal fuel plan now s s' ch :
  skip_rounds fuel plan now s = Ok (s', ch) → Graph.terminal_status s' = Graph.terminal_status s.
Proof.
  revert s s' ch. induction fuel as [|fuel IH]; intros s s' ch; simpl; [by intros [= <- _]|].
  intros (ids & _ & H)%result_bind_ok. destruct ids as [|id ids]; [by simplify_eq|].
  apply result_bind_ok in H as ([s1 ch1] & H1 & ([s2 ch2] & H2 & [= <- _])%result_bind_ok).
  apply IH in H2. rewrite H2. by eapply skip_nodes_terminal.
Qed.

Lemma transition_node_terminal s id expected next now f s' :
  transition_node s id expected next now f = Ok s' →
  Graph.terminal_status s' = Graph.terminal_status s ∧
  ∃ ns, Graph.node_states s' !! id = Some (f (NodeSt.set_updated_at now (NodeSt.set_status next ns))).
Proof.
  intros (ns & _ & ([] & _ & [= <-])%result_bind_ok)%result_bind_ok. simpl. split; [done|]. exists ns.
  by rewrite lookup_insert_eq.
Qed.

(** What an operation that ends a run leaves. *)
Definition well_ended (s : Graph.t) : Prop :=
  Graph.terminal_status s = None ∨ all_resolved s ∨ bound_exceeded s.

Ltac still_open Hx := left; apply transition_node_terminal in Hx as [Hx _]; simpl; congruence.

Lemma end_after_transition s id expected next now f s' st :
  transition_node s id expected next now f = Ok s' →
  (∀ ns, NodeSt.status (f ns) = NodeSt.status ns) → node_status_is_unresolved next = false →
  well_ended (Transition.state (Sched.end_graph s' id st now)).
Proof.
  intros [_ [ns Hns]]%transition_node_terminal Hf Hr. right; left. eapply end_graph_resolved; [done|].
  by rewrite Hf.
Qed.

Lemma command_well_ended plan s now c t :
  Graph.terminal_status s = None → apply_command plan s now c = Ok t → well_ended (Transition.state t).
Proof.
  intros Hs. destruct c; simpl; intros H.
  - unfold Sched.mark_ready_nodes_runnable in H. peel H. apply mark_nodes_terminal in Hx1. left. simpl.
    destruct (decide _); simpl; congruence.
  - unfold Sched.start_node in H. peel H. still_open Hx0.
  - unfold Sched.complete_node in H. peel H.
    destruct (bool_decide (Node.kind x = AgentCompiledNodeKind.Terminal)); [|still_open Hx2].
    by eapply end_after_transition; [exact Hx2|intros []|].
  - unfold Sched.complete_branch_node in H. peel H. destruct x4 as [s2 ch]. peel H. left. simpl.
    unfold propagate_skips in Hx4. peel Hx4. destruct x4 as [s3 ch3]. peel Hx4.
    apply skip_rounds_terminal in Hx5. simpl in Hx5. congruence.
  - unfold Sched.start_iterator_iteration in H. peel H; [|by left].
    right; right. apply transition_node_terminal in Hx4 as [_ [ns Hns]]. split; [done|]. by eexists id, _.
  - unfold Sched.complete_iterator_iteration in H. peel H. by left.
  - unfold Sched.complete_iterator_node in H. peel H. still_open Hx5.
  - unfold Sched.cancel_graph_run in H. rewrite Hs in H. peel H. injection H as <-. right; left.
    intros k ns Hns. apply not_true_iff_false. intros Hu. by destruct (cancel_resolves _ now ∅ k ns Hns Hu).
  - unfold Sched.wait_node in H. peel H. still_open Hx0.
  - unfold Sched.park_waiting_node in H. peel H. still_open Hx2.
  - unfold Sched.resume_parked_node in H. peel H. still_open Hx1.
  - unfold Sched.complete_waiting_node in H. peel H. still_open Hx1.
  - unfold Sched.fail_waiting_node in H. peel H. by eapply end_after_transition; [exact Hx1|intros []|].
  - unfold Sched.fail_node in H. peel H. by eapply end_after_transition; [exact Hx0|intros []|].
Qed.

Lemma run_well_ended plan s cs : well_ended s → well_ended (graph_run plan s cs).
Proof.
  revert s. induction cs as [|c cs IH]; intros s Hs; simpl; [done|]. apply IH. unfold graph_step.
  destruct (apply_command plan s c.1 c.2) as [t|] eqn:Ht; [|done].
  destruct (Graph.terminal_status s) as [st|] eqn:Hst; [|by eapply command_well_ended].
  pose proof (terminal_step plan s st c Hst) as Hstep. unfold graph_step in Hstep. rewrite Ht in Hstep.
  by rewrite Hstep.
Qed.

Lemma init_fold_terminal now s nodes :
  Graph.terminal_status (init_fold now s nodes) = Graph.terminal_status s.
Proof. revert s. induction nodes as [|n nodes IH]; intros s; [done|]. apply (IH (put_node _ _ _)). Qed.

(** A run that has ended is over: no operation changes its state again; and it leaves no
    node pending, runnable, running or waiting, unless it ended because an iterator exceeded
    its bound. *)
Theorem ended_runs_are_final (plan : Plan.t) (now : Z) (s0 : Graph.t) (cs later : list (Z * command))
    (Hinit : Sched.initialize_state plan now = Ok s0)
    (Hend : is_Some (Graph.terminal_status (graph_run plan s0 cs))) :
  graph_run plan s0 (cs ++ later) = graph_run plan s0 cs ∧
  (all_resolved (graph_run plan s0 cs) ∨ bound_exceeded (graph_run plan s0 cs)).
Proof.
  destruct Hend as [st Hst]. split.
  - unfold graph_run at 1. rewrite foldl_app. by apply (terminal_run plan _ st later).
  - assert (well_ended s0) as Hs0.
    { apply result_bind_ok in Hinit as ([] & _ & [= <-]). left. apply init_fold_terminal. }
    destruct (run_well_ended plan s0 cs Hs0) as [H|H]; [congruence|done].
Qed.

Lemma ended_runs_are_final_witness :
  let plan := Demo.branching true in
  let cs := Demo.left_path ++ Demo.run_node "merge" ++ Demo.run_node "end" in
  Graph.terminal_status (graph_run plan (Demo.initial plan) cs) = Some AgentGraphTerminalStatus.Completed ∧
  graph_run plan (Demo.initial plan) (cs ++ [(9, CancelRun)]) = graph_run plan (Demo.initial plan) cs.
Proof.
  intros plan cs. split; [vm_compute; reflexivity|].
  apply (ended_runs_are_final plan 0 (Demo.initial plan) cs [(9, CancelRun)]).
  - vm_compute; reflexivity.
  - exists AgentGraphTerminalStatus.Completed. vm_compute; reflexivity.
Defined.

(** The exception is real: when an iterator asks for one iteration more than its bound, the
    graph is marked failed while another node keeps running, and no operation can complete,
    fail or cancel that node any more. *)
Theorem iterator_bound_strands_running_nodes :
  let plan := Demo.looping in
  let s := graph_run plan (Demo.initial plan)
             (Demo.run_node "in" ++
              [(3, MarkReady); (3, Start (Demo.node_id "each")); (3, Start (Demo.node_id "side"));
               (4, StartIteration (Demo.node_id "each")); (5, CompleteIteration (Demo.node_id "each") 0);
               (6, StartIteration (Demo.node_id "each"))]) in
  Graph.terminal_status s = Some AgentGraphTerminalStatus.Failed ∧
  Demo.status_in s "side" = Some Status.Running ∧
  ∀ cs, Demo.status_in (graph_run plan s cs) "side" = Some Status.Running.
Proof.
  intros plan s. assert (Graph.terminal_status s = Some AgentGraphTerminalStatus.Failed) as Hst by (vm_compute; reflexivity).
  assert (Demo.status_in s "side" = Some Status.Running) as Hside by (vm_compute; reflexivity).
  split_and!; [exact Hst|exact Hside|]. intros cs. by rewrite (terminal_run plan s _ cs Hst).
Qed.

(** ** Skips and progress *)

(** Skip propagation ends: on a state that matches a validated plan it returns within as
    many rounds as the plan has nodes, and no pending node is left that it would skip. *)
Theorem skip_propagation_ends (plan : Plan.t) (s : Graph.t) (now : Z)
    (H : validate_plan_state plan s = Ok tt) :
  ∃ s' changed, propagate_skips plan s now = Ok (s', changed) ∧ skipped_this_pass plan s' = Ok [].
Proof.
  apply validate_plan_state_ok in H as [Hplan Hs].
  destruct (skip_rounds_spec plan Hplan (S (length (Plan.nodes plan))) now s Hs) as (s' & ch & Hr & Hend).
  { pose proof (pending_bound plan s Hs). lia. }
  exists s', (sort_dedup ch). split; [|done]. unfold propagate_skips. by rewrite Hr.
Qed.

Lemma skip_propagation_ends_witness :
  let plan := Demo.branching true in
  validate_plan_state plan (Demo.initial plan) = Ok tt ∧
  ∃ s' changed, propagate_skips plan (Demo.initial plan) 1 = Ok (s', changed) ∧ skipped_this_pass plan s' = Ok [].
Proof.
  intros plan. assert (validate_plan_state plan (Demo.initial plan) = Ok tt) as H by (vm_compute; reflexivity).
  split; [exact H|]. exact (skip_propagation_ends plan (Demo.initial plan) 1 H).
Defined.

Lemma select_nodes_nil wanted candidates node :
  select_nodes wanted candidates = Ok [] → node ∈ candidates → wanted node ≠ Ok true.
Proof.
  induction candidates as [|n l IH]; simpl; [by intros _ ?%elem_of_nil|].
  intros (w & Hw & (rest & Hrest & H)%result_bind_ok)%result_bind_ok [->|Hin]%elem_of_cons.
  - rewrite Hw. intros [= ->]. discriminate H.
  - destruct w; [discriminate H|]. injection H as ->. by apply IH.
Qed.

Lemma compute_ready_total plan s :
  plan_ok plan → covers plan s → validate_plan_state plan s = Ok tt → ∃ ids, Sched.compute_ready_nodes plan s = Ok ids.
Proof.
  intros Hplan Hs Hv. unfold Sched.compute_ready_nodes. rewrite Hv. simpl.
  destruct (Graph.terminal_status s); [eauto|]. apply select_nodes_total. intros node Hin%elem_of_sort_on.
  destruct (covers_lookup plan s node Hs Hin) as [ns Hns]. unfold node_state_of. rewrite Hns. simpl.
  destruct (decide _); [|eauto]. rewrite (dependencies_satisfied_ok plan Hplan) by done. eauto.
Qed.

(** C34. A run does not stall: on a validated plan in which every join has a required input or
    is an entry, when no node is runnable, running or waiting and none failed, all skips have
    been propagated and some node is still pending, the scheduler finds a node that is
    ready. *)
Theorem scheduler_never_stalls (plan : Plan.t) (s : Graph.t) (id : NodeId) (ns : NodeSt.t)
    (Hstate : validate_plan_state plan s = Ok tt) (Hopen : Graph.terminal_status s = None)
    (Hquiet : Forall (fun ns => quiet (NodeSt.status ns)) (btree_values (Graph.node_states s)))
    (Hskips : skipped_this_pass plan s = Ok [])
    (Hjoins : Forall (fun node => Node.kind node = AgentCompiledNodeKind.Join →
                        Node.node_id node ∈ Plan.entry_node_ids plan ∨ required plan node ≠ [])
                (Plan.nodes plan))
    (Hns : Graph.node_states s !! id = Some ns) (Hpending : NodeSt.status ns = Status.Pending) :
  ∃ ready, Sched.compute_ready_nodes plan s = Ok ready ∧ ready ≠ [].
Proof.
  destruct (validate_plan_state_ok plan s Hstate) as [Hplan Hs].
  rewrite Forall_forall in Hquiet. rewrite Forall_forall in Hjoins.
  destruct (proj1 (Hs id) (mk_is_Some _ _ Hns)) as (node & Hin & <-).
  destruct (no_stall plan Hplan s Hs) with node ns as (node' & ns' & Hin' & Hns' & Hp' & Hready); try done.
  - intros k n Hn. apply Hquiet, elem_of_btree_values. eauto.
  - intros n nst Hn Hent Hnst Hp. apply not_true_iff_false. intros Hd.
    apply (select_nodes_nil _ _ n Hskips); [by apply elem_of_sort_on|].
    unfold node_state_of. rewrite Hnst. simpl. rewrite bool_decide_true, bool_decide_false by done. simpl.
    rewrite (node_should_skip_ok plan Hplan) by done. by rewrite Hd.
  - destruct (compute_ready_total plan s Hplan Hs Hstate) as [ready Hr]. exists ready. split; [done|]. intros ->.
    unfold Sched.compute_ready_nodes in Hr. rewrite Hstate, Hopen in Hr. simpl in Hr.
    apply (select_nodes_nil _ _ node' Hr); [by apply elem_of_sort_on|].
    unfold node_state_of. rewrite Hns'. simpl. rewrite decide_True by done.
    rewrite (dependencies_satisfied_ok plan Hplan) by done. by rewrite Hready.
Qed.

Lemma scheduler_never_stalls_witness :
  let plan := Demo.branching true in
  let s := graph_run plan (Demo.initial plan) Demo.left_path in
  ∃ ready, Sched.compute_ready_nodes plan s = Ok ready ∧ ready ≠ [].
Proof.
  intros plan s.
  destruct (Graph.node_states s !! Demo.node_id "merge") as [ns|] eqn:Hns; [|vm_compute in Hns; discriminate].
  apply (scheduler_never_stalls plan s (Demo.node_id "merge") ns).
  - vm_compute; reflexivity.
  - vm_compute; reflexivity.
  - vm_compute; repeat constructor.
  - vm_compute; reflexivity.
  - unfold plan. simpl.
    repeat (apply List.Forall_cons; [intros Hk; first [discriminate Hk|right; vm_compute; discriminate]|]).
    apply List.Forall_nil.
  - exact Hns.
  - vm_compute in Hns. injection Hns as <-. reflexivity.
Defined.

(** The condition on joins is needed: the validator accepts a join whose ports are all
    optional, and when its sources have settled it is neither ready nor skipped, so that the
    run can only be cancelled. *)
Theorem optional_join_stalls :
  let plan := Demo.branching false in
  let s := graph_run plan (Demo.initial plan) Demo.left_path in
  validate_compiled_execution_plan plan = Ok tt ∧ Graph.terminal_status s = None ∧
  Demo.status_in s <$> ["left"; "right"; "merge"; "end"] =
    [Some Status.Completed; Some Status.Skipped; Some Status.Pending; Some Status.Pending] ∧
  Sched.compute_ready_nodes plan s = Ok [] ∧ Sched.runnable_nodes s = [] ∧
  propagate_skips plan s 9 = Ok (s, []).
Proof. vm_compute. split_and!; reflexivity. Qed.
