(* ===== verification/Delegation.v ===== *)
(** * Delegation records: [rakka-agent/src/delegation.rs]

    What a parent run writes down when it hands work to a specialist: the delegation
    record, the cell that follows it, the provenance of the child task, the envelope of
    authority a run carries, and the wiring of the delegation door.  Identifiers are those
    of [identity.rs], [definition.rs], [model.rs] and [task.rs], the ceilings those of
    [goal.rs].  JSON values, serialized sizes and SHA-256 are parameters: the type [Value],
    the functions of [SerdeJson] and [sha256_hex]. *)

From stdpp Require Import pretty.
From S2P Require Import Prelude AgentIdentity CompiledPlan.

(** ** Identifiers *)

Module AgentDelegationId.
Record t := Self { as_str : string }.
#[global] Instance eq_dec : EqDecision t.
Proof. solve_decision. Defined.
#[global] Instance as_str_inj : Inj (=) (=) as_str.
Proof. newtype_inj. Qed.
#[global] Instance countable : Countable t := inj_countable' as_str Self ltac:(by intros []).
#[global] Instance ordkey : OrdKey t := ordkey_via as_str.
Definition new : string → AgentIdentityResult t := validated_id "agent_delegation_id" Self.
End AgentDelegationId.

Module AgentWorkflowInvocationId.
Record t := Self { as_str : string }.
#[global] Instance eq_dec : EqDecision t.
Proof. solve_decision. Defined.
#[global] Instance as_str_inj : Inj (=) (=) as_str.
Proof. newtype_inj. Qed.
#[global] Instance countable : Countable t := inj_countable' as_str Self ltac:(by intros []).
#[global] Instance ordkey : OrdKey t := ordkey_via as_str.
Definition new : string → AgentIdentityResult t := validated_id "agent_workflow_invocation_id" Self.
End AgentWorkflowInvocationId.

Module AgentEnvironmentRef.
Record t := Self { as_str : string }.
#[global] Instance eq_dec : EqDecision t.
Proof. solve_decision. Defined.
#[global] Instance as_str_inj : Inj (=) (=) as_str.
Proof. newtype_inj. Qed.
#[global] Instance countable : Countable t := inj_countable' as_str Self ltac:(by intros []).
#[global] Instance ordkey : OrdKey t := ordkey_via as_str.
Definition new : string → AgentIdentityResult t := validated_id "agent_environment_ref" Self.
End AgentEnvironmentRef.

Module KnowledgeSpaceId.
Record t := Self { as_str : string }.
#[global] Instance eq_dec : EqDecision t.
Proof. solve_decision. Defined.
#[global] Instance as_str_inj : Inj (=) (=) as_str.
Proof. newtype_inj. Qed.
#[global] Instance countable : Countable t := inj_countable' as_str Self ltac:(by intros []).
#[global] Instance ordkey : OrdKey t := ordkey_via as_str.
Definition new : string → AgentIdentityResult t := validated_id "knowledge_space_id" Self.
End KnowledgeSpaceId.

Module AgentToolId.
Record t := Self { as_str : string }.
#[global] Instance eq_dec : EqDecision t.
Proof. solve_decision. Defined.
#[global] Instance as_str_inj : Inj (=) (=) as_str.
Proof. newtype_inj. Qed.
#[global] Instance countable : Countable t := inj_countable' as_str Self ltac:(by intros []).
#[global] Instance ordkey : OrdKey t := ordkey_via as_str.
Definition new : string → AgentIdentityResult t := validated_id "agent_tool_id" Self.
End AgentToolId.

Module AgentCapabilityId.
Record t := Self { as_str : string }.
#[global] Instance eq_dec : EqDecision t.
Proof. solve_decision. Defined.
#[global] Instance as_str_inj : Inj (=) (=) as_str.
Proof. newtype_inj. Qed.
#[global] Instance countable : Countable t := inj_countable' as_str Self ltac:(by intros []).
#[global] Instance ordkey : OrdKey t := ordkey_via as_str.
Definition new : string → AgentIdentityResult t := validated_id "agent_capability_id" Self.
End AgentCapabilityId.

Module AgentWorkflowToolId.
Record t := Self { as_str : string }.
#[global] Instance eq_dec : EqDecision t.
Proof. solve_decision. Defined.
#[global] Instance as_str_inj : Inj (=) (=) as_str.
Proof. newtype_inj. Qed.
#[global] Instance countable : Countable t := inj_countable' as_str Self ltac:(by intros []).
#[global] Instance ordkey : OrdKey t := ordkey_via as_str.
Definition new : string → AgentIdentityResult t := validated_id "agent_workflow_tool_id" Self.
End AgentWorkflowToolId.

Module AgentTaskDefinitionId.
Record t := Self { as_str : string }.
#[global] Instance eq_dec : EqDecision t.
Proof. solve_decision. Defined.
#[global] Instance as_str_inj : Inj (=) (=) as_str.
Proof. newtype_inj. Qed.
#[global] Instance countable : Countable t := inj_countable' as_str Self ltac:(by intros []).
#[global] Instance ordkey : OrdKey t := ordkey_via as_str.
Definition new : string → AgentIdentityResult t := validated_id "agent_task_definition_id" Self.
End AgentTaskDefinitionId.

Module AgentGuardrailStageId.
Record t := Self { as_str : string }.
#[global] Instance eq_dec : EqDecision t.
Proof. solve_decision. Defined.
#[global] Instance as_str_inj : Inj (=) (=) as_str.
Proof. newtype_inj. Qed.
#[global] Instance countable : Countable t := inj_countable' as_str Self ltac:(by intros []).
#[global] Instance ordkey : OrdKey t := ordkey_via as_str.
Definition new : string → AgentIdentityResult t := validated_id "agent_guardrail_stage_id" Self.
End AgentGuardrailStageId.

Module AgentCredentialBindingRef.
Record t := Self { as_str : string }.
#[global] Instance eq_dec : EqDecision t.
Proof. solve_decision. Defined.
#[global] Instance as_str_inj : Inj (=) (=) as_str.
Proof. newtype_inj. Qed.
#[global] Instance countable : Countable t := inj_countable' as_str Self ltac:(by intros []).
#[global] Instance ordkey : OrdKey t := ordkey_via as_str.
Definition new : string → AgentIdentityResult t := validated_id "agent_credential_binding_ref" Self.
End AgentCredentialBindingRef.

Module AgentSchemaId.
Record t := Self { as_str : string }.
#[global] Instance eq_dec : EqDecision t.
Proof. solve_decision. Defined.
#[global] Instance as_str_inj : Inj (=) (=) as_str.
Proof. newtype_inj. Qed.
#[global] Instance countable : Countable t := inj_countable' as_str Self ltac:(by intros []).
#[global] Instance ordkey : OrdKey t := ordkey_via as_str.
Definition new : string → AgentIdentityResult t := validated_id "agent_schema_id" Self.
End AgentSchemaId.

Module AgentToolCallId.
Record t := Self { as_str : string }.
#[global] Instance eq_dec : EqDecision t.
Proof. solve_decision. Defined.
#[global] Instance as_str_inj : Inj (=) (=) as_str.
Proof. newtype_inj. Qed.
#[global] Instance countable : Countable t := inj_countable' as_str Self ltac:(by intros []).
#[global] Instance ordkey : OrdKey t := ordkey_via as_str.
Definition new : string → AgentIdentityResult t := validated_id "agent_tool_call_id" Self.
End AgentToolCallId.

(** [AgentEffectId] of the workflow crate: any text. *)
Module AgentEffectId.
Record t := new { as_str : string }.
#[global] Instance eq_dec : EqDecision t.
Proof. solve_decision. Defined.
End AgentEffectId.

Module AgentRevisionNumber.
Record t := new { get : Z }.
#[global] Instance eq_dec : EqDecision t.
Proof. solve_decision. Defined.
Definition INITIAL : t := new 1.
Definition next (self : t) : t := new (saturating_add_u64 (get self) 1).
End AgentRevisionNumber.

(** A timestamp is its number of milliseconds. *)
Definition AgentTimestampMillis : Type := Z.

(** ** Contents, digests and schemas: [task.rs] *)

Module AgentSchemaRef.
Record t := new { schema_id : AgentSchemaId.t; version : AgentRevisionNumber.t }.
End AgentSchemaRef.

Inductive AgentDigestAlgorithm := Fnv1a128 | Sha256.
#[global] Instance AgentDigestAlgorithm_eq_dec : EqDecision AgentDigestAlgorithm.
Proof. solve_decision. Defined.

Module AgentContentDigest.
Record t := mk { algorithm : AgentDigestAlgorithm; value : string }.
#[global] Instance eq_dec : EqDecision t.
Proof. solve_decision. Defined.

(** Each segment as its length in bytes, a colon, and its bytes. *)
Definition canonical (segments : list string) : string :=
  foldl (fun text segment => text +:+ pretty (String.length segment) +:+ ":" +:+ segment) "" segments.

Definition sha256_of_bytes (sha256_hex : string → string) (bytes : string) : t :=
  mk Sha256 (sha256_hex bytes).

Definition sha256_of_segments (sha256_hex : string → string) (segments : list string) : t :=
  sha256_of_bytes sha256_hex (canonical segments).
End AgentContentDigest.

Definition AGENT_TASK_INLINE_CONTENT_MAX_BYTES : nat := 8 * 1024.

(** The errors of [AgentTaskError] that contents and creation raise here. *)
Inductive AgentTaskError :=
| ContentTooLarge (bytes maximum : nat)
| TaskEncoding (message : string)
| DelegationProvenanceInvalid (message : string).

Definition AgentTaskResult (A : Type) : Type := result AgentTaskError A.

Module AgentTaskContent.
Inductive t (Value : Type) :=
| Inline (value : Value)
| Artifact (artifact : ArtifactRef.t).
Arguments Inline {Value} value.
Arguments Artifact {Value} artifact.

Section json.
Context {Value : Type} (to_vec_len : Value → result string nat).

Definition validate (self : t Value) : AgentTaskResult unit :=
  match self with
  | Artifact _ => Ok tt
  | Inline value =>
      let? bytes := map_err TaskEncoding (to_vec_len value) in
      if (AGENT_TASK_INLINE_CONTENT_MAX_BYTES <? bytes)%nat then
        Err (ContentTooLarge bytes AGENT_TASK_INLINE_CONTENT_MAX_BYTES)
      else Ok tt
  end.

Definition inline (value : Value) : AgentTaskResult (t Value) :=
  let content := Inline value in
  let? _ := validate content in Ok content.

Definition inline_value (self : t Value) : option Value :=
  match self with Inline value => Some value | Artifact _ => None end.

Definition artifact_ref (self : t Value) : option ArtifactRef.t :=
  match self with Inline _ => None | Artifact artifact => Some artifact end.
End json.
End AgentTaskContent.

Module AgentTaskStatus.
Inductive t :=
| Created | Blocked | Assigned | InProgress | WaitingForInput | Completed | Failed | Cancelled.
#[global] Instance eq_dec : EqDecision t.
Proof. solve_decision. Defined.

Definition as_label (self : t) : string :=
  match self with
  | Created => "created"
  | Blocked => "blocked"
  | Assigned => "assigned"
  | InProgress => "in-progress"
  | WaitingForInput => "waiting-for-input"
  | Completed => "completed"
  | Failed => "failed"
  | Cancelled => "cancelled"
  end.

Definition is_terminal (self : t) : bool :=
  match self with Completed | Failed | Cancelled => true | _ => false end.

Definition is_assignable (self : t) : bool := match self with Created => true | _ => false end.
End AgentTaskStatus.

(** Trace propagation of the workflow crate. *)
Module AgentSpanLink.
Record t := mk {
  trace_id : string;
  span_id : string;
  trace_state : option string;
  attributes : AgentAttributes;
}.
End AgentSpanLink.

Module AgentTelemetryContext.
Record t := mk {
  trace_parent : option string;
  trace_state : option string;
  baggage : AgentAttributes;
  span_links : list AgentSpanLink.t;
}.
End AgentTelemetryContext.

(** The reason of [failure.rs] that a failed send records. *)
Module AgentFailureReason.
Record t := mk { code : string; stage : option AgentGuardrailStageId.t; definitive : bool }.
End AgentFailureReason.

(** ** Delegation ceilings: [goal.rs] *)

Module AgentGoalDelegationBudget.
Record t := mk {
  max_depth : option Z;
  max_fan_out : option Z;
  max_descendants : option Z;
  max_concurrent : option Z;
}.
#[global] Instance eq_dec : EqDecision t.
Proof. solve_decision. Defined.

Definition default : t := mk None None None None.

Definition tighter (held bound : option Z) : option Z :=
  match held, bound with
  | None, bound => bound
  | held, None => held
  | Some held, Some bound => Some (Z.min held bound)
  end.

Definition narrowed_to (self ceiling : t) : t :=
  mk (tighter (max_depth self) (max_depth ceiling))
    (tighter (max_fan_out self) (max_fan_out ceiling))
    (tighter (max_descendants self) (max_descendants ceiling))
    (tighter (max_concurrent self) (max_concurrent ceiling)).

Definition set_max_descendants (self : t) (quota : option Z) : t :=
  mk (max_depth self) (max_fan_out self) quota (max_concurrent self).
End AgentGoalDelegationBudget.
Module DelegationBudget := AgentGoalDelegationBudget.

(** ** Bounds and errors *)

Definition AGENT_DELEGATION_ID_PREFIX : string := "delegation-".
Definition AGENT_RUN_MAX_DELEGATIONS : nat := 16.
Definition AGENT_DELEGATION_RECORD_MAX_BYTES : nat := 8 * 1024.
Definition AGENT_DELEGATION_MAX_LINEAGE : nat := 16.
Definition AGENT_DELEGATION_PROVENANCE_MAX_BYTES : nat := 8 * 1024.
Definition AGENT_DELEGATION_ENDPOINT_MAX_BYTES : nat := 256.
Definition AGENT_A2A_SEND_STATUS_MAX_BYTES : nat := 64.

Module AgentDelegationError.
Inductive t :=
| CapabilityMissing
| HandoffCapabilityMissing
| ToolCollision (tool : AgentToolId.t)
| SkillNotAllowed (skill : AgentCapabilityId.t)
| InvalidArguments (message : string)
| LimitExceeded (maximum : nat)
| LineageTooDeep (length maximum : nat)
| DepthIncoherent (depth : Z) (ancestors : nat)
| AncestryIncoherent (ancestors lineage : nat)
| AncestryUnknown (lineage : nat)
| DepthExceeded (depth maximum : Z)
| FanOutExceeded (committed maximum : Z)
| ConcurrencyExceeded (active maximum : Z)
| DescendantsExhausted (limit : Z) (spent : option Z)
| CycleDetected (agent : AgentId.t)
| QuorumInvalid (n maximum : Z)
| RecordTooLarge (bytes maximum : nat)
| ProvenanceTooLarge (bytes maximum : nat)
| TargetInvalid (message : string)
| Encoding (message : string)
| Identity (error : AgentIdentityError).

Definition code (self : t) : string :=
  match self with
  | CapabilityMissing => "delegation-capability-missing"
  | HandoffCapabilityMissing => "handoff-capability-missing"
  | ToolCollision _ => "coordination-tool-collision"
  | SkillNotAllowed _ => "delegation-skill-not-allowed"
  | InvalidArguments _ => "delegation-invalid-arguments"
  | LimitExceeded _ => "delegation-limit-exceeded"
  | LineageTooDeep _ _ => "delegation-lineage-too-deep"
  | DepthIncoherent _ _ => "delegation-depth-incoherent"
  | AncestryIncoherent _ _ => "delegation-ancestry-incoherent"
  | AncestryUnknown _ => "delegation-ancestry-unknown"
  | DepthExceeded _ _ => "delegation-depth-exceeded"
  | FanOutExceeded _ _ => "delegation-fan-out-exceeded"
  | ConcurrencyExceeded _ _ => "delegation-concurrency-exceeded"
  | DescendantsExhausted _ _ => "delegation-descendants-exhausted"
  | CycleDetected _ => "delegation-cycle-detected"
  | QuorumInvalid _ _ => "fan-in-quorum-invalid"
  | RecordTooLarge _ _ => "delegation-record-too-large"
  | ProvenanceTooLarge _ _ => "delegation-provenance-too-large"
  | TargetInvalid _ => "delegation-target-invalid"
  | Encoding _ => "delegation-record-unencodable"
  | Identity _ => "delegation-identity-invalid"
  end.
End AgentDelegationError.
Module DelegationError := AgentDelegationError.

Definition AgentDelegationResult (A : Type) : Type := result AgentDelegationError.t A.

(** ** Derived identities *)

Definition delegation_id_for (sha256_hex : string → string) (scope : AgentRunScope.t) (turn : Z) (slot : nat) :
    AgentDelegationResult AgentDelegationId.t :=
  let? _ := map_err DelegationError.Identity (validate_tenant (AgentRunScope.tenant scope)) in
  let digest := AgentContentDigest.sha256_of_segments sha256_hex
                  [TenantId.as_str (AgentRunScope.tenant scope); AgentId.as_str (AgentRunScope.agent scope);
                   AgentRunId.as_str (AgentRunScope.run scope); pretty turn; pretty slot] in
  map_err DelegationError.Identity
    (AgentDelegationId.new (AGENT_DELEGATION_ID_PREFIX +:+ AgentContentDigest.value digest)).

Definition delegation_result_operation_id (tenant : TenantId.t) (delegation : AgentDelegationId.t) :
    AgentIdentityResult AgentOperationId.t :=
  AgentOperationId.new DelegationResult
    [TenantId.as_str tenant; AgentDelegationId.as_str delegation; "result"].

Definition delegation_cancel_operation_id (tenant : TenantId.t) (delegation : AgentDelegationId.t) :
    AgentIdentityResult AgentOperationId.t :=
  AgentOperationId.new Cancellation
    [TenantId.as_str tenant; AgentDelegationId.as_str delegation; "delegation-cancel"].

(** [effect_id_for] of [effect.rs]. *)
Definition effect_id_for (scope : AgentRunScope.t) (turn : Z) (slot : nat) : AgentIdentityResult AgentEffectId.t :=
  let? operation := AgentOperationId.new EffectDispatch
                      [TenantId.as_str (AgentRunScope.tenant scope); AgentId.as_str (AgentRunScope.agent scope);
                       AgentRunId.as_str (AgentRunScope.run scope); pretty turn; pretty slot] in
  Ok (AgentEffectId.new (AgentOperationId.as_str operation)).

(** ** Coherence of a chain *)

(** [u32::try_from(length).unwrap_or(u32::MAX)]. *)
Definition length_u32 (n : nat) : Z := Z.min (Z.of_nat n) u32_max.

Definition check_depth_coherence (depth : Z) (lineage : list AgentDelegationId.t) : AgentDelegationResult unit :=
  let expected := saturating_add_u32 (length_u32 (length lineage)) 1 in
  if bool_decide (depth ≠ expected) then Err (DelegationError.DepthIncoherent depth (length lineage))
  else Ok tt.

Definition check_ancestry_coherence (ancestors : list AgentId.t) (lineage : list AgentDelegationId.t) :
    AgentDelegationResult unit :=
  if bool_decide (length ancestors ≠ 0%nat ∧ length ancestors ≠ length lineage) then
    Err (DelegationError.AncestryIncoherent (length ancestors) (length lineage))
  else Ok tt.

(** ** Targets and their catalog *)

Module AgentDelegationTarget.
Record t := mk {
  agent : AgentId.t;
  endpoint : option string;
  task_definition : AgentTaskDefinitionId.t;
  capability_scopes : gset AgentCapabilityId.t;
  credential_bindings : list AgentCredentialBindingRef.t;
  result_schema : option AgentSchemaRef.t;
  compatibility : option AgentRevisionNumber.t;
  knowledge_spaces : gset KnowledgeSpaceId.t;
}.

Definition new (agent : AgentId.t) (task_definition : AgentTaskDefinitionId.t) : t :=
  mk agent None task_definition ∅ [] None None ∅.

Definition with_endpoint (self : t) (endpoint : string) : t :=
  mk (agent self) (Some endpoint) (task_definition self) (capability_scopes self)
    (credential_bindings self) (result_schema self) (compatibility self) (knowledge_spaces self).

Definition with_knowledge_space (self : t) (space : KnowledgeSpaceId.t) : t :=
  mk (agent self) (endpoint self) (task_definition self) (capability_scopes self)
    (credential_bindings self) (result_schema self) (compatibility self)
    ({[space]} ∪ knowledge_spaces self).

Definition with_result_schema (self : t) (schema : AgentSchemaRef.t) : t :=
  mk (agent self) (endpoint self) (task_definition self) (capability_scopes self)
    (credential_bindings self) (Some schema) (compatibility self) (knowledge_spaces self).

Definition endpoint_message (bytes : nat) : string :=
  "the endpoint reference is " +:+ pretty bytes +:+
  " bytes; it must be non-empty and at most " +:+ pretty AGENT_DELEGATION_ENDPOINT_MAX_BYTES +:+ " bytes".

Definition validate (self : t) : AgentDelegationResult unit :=
  match endpoint self with
  | Some endpoint =>
      if str_is_empty endpoint || (AGENT_DELEGATION_ENDPOINT_MAX_BYTES <? String.length endpoint)%nat then
        Err (DelegationError.TargetInvalid (endpoint_message (String.length endpoint)))
      else Ok tt
  | None => Ok tt
  end.
End AgentDelegationTarget.
Module Target := AgentDelegationTarget.

Module AgentDelegationResolutionError.
Inductive t :=
| UnknownSkill (skill : AgentCapabilityId.t)
| NotAuthorized (skill : AgentCapabilityId.t)
| Ambiguous (skill : AgentCapabilityId.t)
| Unavailable (code message : string).

Definition code (self : t) : string :=
  match self with
  | UnknownSkill _ => "delegation-skill-unknown"
  | NotAuthorized _ => "delegation-skill-not-authorized"
  | Ambiguous _ => "delegation-target-ambiguous"
  | Unavailable code _ => code
  end.
End AgentDelegationResolutionError.

(** The trait: one function. *)
Definition AgentDelegationCatalog : Type :=
  TenantId.t → AgentCapabilityId.t → result AgentDelegationResolutionError.t Target.t.

Module StaticAgentDelegationCatalog.
Definition t : Type := gmap AgentCapabilityId.t Target.t.
Definition new : t := ∅.
Definition with_target (self : t) (skill : AgentCapabilityId.t) (target : Target.t) : t := <[skill := target]> self.
Definition resolve (self : t) : AgentDelegationCatalog := fun _ skill =>
  ok_or (AgentDelegationResolutionError.UnknownSkill skill) (self !! skill).
End StaticAgentDelegationCatalog.

(** ** The fan-in policy: [fan_in.rs] *)

Definition AGENT_RUN_MAX_FAN_IN_MEMBERS : nat := AGENT_RUN_MAX_DELEGATIONS.

Module AgentFanInPolicy.
Inductive t := All | Any | Quorum (n : Z).
#[global] Instance eq_dec : EqDecision t.
Proof. solve_decision. Defined.

Definition default : t := All.

Definition validate (self : t) : AgentDelegationResult unit :=
  match self with
  | Quorum n =>
      let maximum := Z.of_nat AGENT_RUN_MAX_FAN_IN_MEMBERS in
      if (n <? 1) || (maximum <? n) then Err (DelegationError.QuorumInvalid n maximum) else Ok tt
  | _ => Ok tt
  end.

Definition as_label (self : t) : string :=
  match self with All => "all" | Any => "any" | Quorum _ => "quorum" end.
End AgentFanInPolicy.
Module Policy := AgentFanInPolicy.

(** ** Records *)

Module AgentDelegationToolCall.
Record t (Value : Type) := mk {
  skill : AgentCapabilityId.t;
  input : Value;
  deadline : option AgentTimestampMillis;
}.
Arguments mk {Value}.
Arguments skill {Value}.
Arguments input {Value}.
Arguments deadline {Value}.

(** [from_value] is the deserializer of the declared vocabulary. *)
Definition parse {Value} (from_value : Value → result string (t Value)) (arguments : Value) :
    AgentDelegationResult (t Value) :=
  map_err DelegationError.InvalidArguments (from_value arguments).
End AgentDelegationToolCall.
Module DelegationCall := AgentDelegationToolCall.

Module AgentDelegationRecord.
Record t (Value : Type) := mk {
  delegation : AgentDelegationId.t;
  goal : option AgentGoalId.t;
  parent_task : AgentTaskId.t;
  parent_run : AgentRunScope.t;
  lineage : list AgentDelegationId.t;
  ancestors : list AgentId.t;
  depth : Z;
  requested_skill : AgentCapabilityId.t;
  resolved : Target.t;
  a2a_message_id : string;
  deduplication_key : string;
  turn : Z;
  slot : nat;
  effect : AgentEffectId.t;
  call_id : AgentToolCallId.t;
  input : AgentTaskContent.t Value;
  result_schema : option AgentSchemaRef.t;
  budget : option DelegationBudget.t;
  granted_descendants : option Z;
  deadline : option AgentTimestampMillis;
  environments : gset AgentEnvironmentRef.t;
  knowledge_spaces : gset KnowledgeSpaceId.t;
  definition_revision : AgentRevisionNumber.t;
  settings_revision : AgentRevisionNumber.t;
  telemetry : AgentTelemetryContext.t;
  created_at : AgentTimestampMillis;
}.
Arguments mk {Value}.
Arguments delegation {Value}.
Arguments goal {Value}.
Arguments parent_task {Value}.
Arguments parent_run {Value}.
Arguments lineage {Value}.
Arguments ancestors {Value}.
Arguments depth {Value}.
Arguments requested_skill {Value}.
Arguments resolved {Value}.
Arguments a2a_message_id {Value}.
Arguments deduplication_key {Value}.
Arguments turn {Value}.
Arguments slot {Value}.
Arguments effect {Value}.
Arguments call_id {Value}.
Arguments input {Value}.
Arguments result_schema {Value}.
Arguments budget {Value}.
Arguments granted_descendants {Value}.
Arguments deadline {Value}.
Arguments environments {Value}.
Arguments knowledge_spaces {Value}.
Arguments definition_revision {Value}.
Arguments settings_revision {Value}.
Arguments telemetry {Value}.
Arguments created_at {Value}.

(** [to_vec_len] is the length of the serialized record. *)
Definition validate {Value} (to_vec_len : t Value → result string nat) (self : t Value) :
    AgentDelegationResult unit :=
  let? _ := Target.validate (resolved self) in
  let? _ :=
    if (AGENT_DELEGATION_MAX_LINEAGE <? length (lineage self))%nat then
      Err (DelegationError.LineageTooDeep (length (lineage self)) AGENT_DELEGATION_MAX_LINEAGE)
    else Ok tt in
  let? _ := check_depth_coherence (depth self) (lineage self) in
  let? _ := check_ancestry_coherence (ancestors self) (lineage self) in
  let? bytes := map_err DelegationError.Encoding (to_vec_len self) in
  if (AGENT_DELEGATION_RECORD_MAX_BYTES <? bytes)%nat then
    Err (DelegationError.RecordTooLarge bytes AGENT_DELEGATION_RECORD_MAX_BYTES)
  else Ok tt.
End AgentDelegationRecord.
Module DelegationRecord := AgentDelegationRecord.

(** ** Cells *)

Module AgentDelegationStatus.
Inductive t :=
| Pending
| ChildCreated (child_task : AgentTaskId.t) (child_run : option AgentRunId.t)
| Conflicted (code : string)
| Failed (code : string) (reason : option AgentFailureReason.t).

Definition is_settled (self : t) : bool := match self with Pending => false | _ => true end.

Definition as_label (self : t) : string :=
  match self with
  | Pending => "pending"
  | ChildCreated _ _ => "child-created"
  | Conflicted _ => "conflicted"
  | Failed _ _ => "failed"
  end.
End AgentDelegationStatus.
Module DelegationStatus := AgentDelegationStatus.

Module AgentDelegationChildResult.
Record t := mk {
  status : AgentTaskStatus.t;
  terminal_reason : option string;
  result_digest : option AgentContentDigest.t;
  child_run : option AgentRunId.t;
  descendants_created : Z;
  recorded_at : AgentTimestampMillis;
}.
End AgentDelegationChildResult.
Module ChildResult := AgentDelegationChildResult.

Module AgentDelegationCancelOutcome.
Inductive t :=
| Accepted (settled_at : AgentTimestampMillis)
| Refused (code : string) (settled_at : AgentTimestampMillis).
End AgentDelegationCancelOutcome.

Module AgentDelegationCell.
Record t (Value : Type) := mk {
  record : DelegationRecord.t Value;
  status : DelegationStatus.t;
  settled_at : option AgentTimestampMillis;
  result : option ChildResult.t;
  cancel : option AgentDelegationCancelOutcome.t;
}.
Arguments mk {Value}.
Arguments record {Value}.
Arguments status {Value}.
Arguments settled_at {Value}.
Arguments result {Value}.
Arguments cancel {Value}.

Section cell.
Context {Value : Type}.

Definition pending (record : DelegationRecord.t Value) : t Value :=
  mk record DelegationStatus.Pending None None None.

Definition record_cancel_outcome (self : t Value) (outcome : AgentDelegationCancelOutcome.t) : t Value :=
  match cancel self with
  | None => mk (record self) (status self) (settled_at self) (result self) (Some outcome)
  | Some _ => self
  end.

Definition cancel_refused (self : t Value) : bool :=
  match cancel self with Some (AgentDelegationCancelOutcome.Refused _ _) => true | _ => false end.

Definition child_settled (self : t Value) : bool := is_some (result self).

Definition record_child_result (self : t Value) (outcome : ChildResult.t) : t Value :=
  match result self with
  | None => mk (record self) (status self) (settled_at self) (Some outcome) (cancel self)
  | Some _ => self
  end.

(** The settlements: first writer wins. *)
Definition settle (self : t Value) (outcome : DelegationStatus.t) (now : AgentTimestampMillis) : t Value :=
  if DelegationStatus.is_settled (status self) then self
  else mk (record self) outcome (Some now) (result self) (cancel self).

Definition settle_child_created (self : t Value) (child_task : AgentTaskId.t) (child_run : option AgentRunId.t)
    (now : AgentTimestampMillis) : t Value :=
  settle self (DelegationStatus.ChildCreated child_task child_run) now.

Definition settle_conflicted (self : t Value) (code : string) (now : AgentTimestampMillis) : t Value :=
  settle self (DelegationStatus.Conflicted code) now.

Definition settle_failed_because (self : t Value) (code : string) (reason : option AgentFailureReason.t)
    (now : AgentTimestampMillis) : t Value :=
  settle self (DelegationStatus.Failed code reason) now.

Definition settle_failed (self : t Value) (code : string) (now : AgentTimestampMillis) : t Value :=
  settle_failed_because self code None now.
End cell.
End AgentDelegationCell.
Module DelegationCell := AgentDelegationCell.

(** ** Provenance, receipts and envelopes *)

Module AgentTaskDelegationProvenance.
Record t := mk {
  delegation : AgentDelegationId.t;
  parent_task : AgentTaskId.t;
  parent_run : AgentRunScope.t;
  lineage : list AgentDelegationId.t;
  ancestors : list AgentId.t;
  depth : Z;
  requested_skill : AgentCapabilityId.t;
  capability_scopes : gset AgentCapabilityId.t;
  credential_bindings : list AgentCredentialBindingRef.t;
  result_schema : option AgentSchemaRef.t;
  budget : option DelegationBudget.t;
  deadline : option AgentTimestampMillis;
  environments : gset AgentEnvironmentRef.t;
  knowledge_spaces : gset KnowledgeSpaceId.t;
}.

Definition validate (to_vec_len : t → result string nat) (self : t) : AgentDelegationResult unit :=
  let? _ :=
    if (AGENT_DELEGATION_MAX_LINEAGE <? length (lineage self))%nat then
      Err (DelegationError.LineageTooDeep (length (lineage self)) AGENT_DELEGATION_MAX_LINEAGE)
    else Ok tt in
  let? _ := check_depth_coherence (depth self) (lineage self) in
  let? _ := check_ancestry_coherence (ancestors self) (lineage self) in
  let? bytes := map_err DelegationError.Encoding (to_vec_len self) in
  if (AGENT_DELEGATION_PROVENANCE_MAX_BYTES <? bytes)%nat then
    Err (DelegationError.ProvenanceTooLarge bytes AGENT_DELEGATION_PROVENANCE_MAX_BYTES)
  else Ok tt.
End AgentTaskDelegationProvenance.
Module Provenance := AgentTaskDelegationProvenance.

Module AgentA2aSendReceipt.
Record t := mk {
  delegation : AgentDelegationId.t;
  child_task : AgentTaskId.t;
  child_run : option AgentRunId.t;
  peer_status : string;
}.

Definition status_message (bytes : nat) : string :=
  "the peer status label is " +:+ pretty bytes +:+ " bytes, which exceeds the " +:+
  pretty AGENT_A2A_SEND_STATUS_MAX_BYTES +:+ " byte bound".

Definition validate (self : t) : AgentDelegationResult unit :=
  if (AGENT_A2A_SEND_STATUS_MAX_BYTES <? String.length (peer_status self))%nat then
    Err (DelegationError.TargetInvalid (status_message (String.length (peer_status self))))
  else Ok tt.
End AgentA2aSendReceipt.

Module AgentRunDelegationEnvelope.
Record t := mk {
  allowed_skills : gset AgentCapabilityId.t;
  allowed_tools : gset AgentToolId.t;
  allowed_workflows : gset AgentWorkflowToolId.t;
  budget : option DelegationBudget.t;
  lineage : list AgentDelegationId.t;
  ancestors : list AgentId.t;
  depth : Z;
  deadline : option AgentTimestampMillis;
  fan_in : option Policy.t;
  environments : gset AgentEnvironmentRef.t;
  knowledge_spaces : option (gset KnowledgeSpaceId.t);
}.

Definition set_knowledge_spaces (self : t) (spaces : option (gset KnowledgeSpaceId.t)) : t :=
  mk (allowed_skills self) (allowed_tools self) (allowed_workflows self) (budget self) (lineage self)
    (ancestors self) (depth self) (deadline self) (fan_in self) (environments self) spaces.
End AgentRunDelegationEnvelope.
Module Envelope := AgentRunDelegationEnvelope.

(** ** The wiring of the door *)

Module AgentCoordinationCapabilityKind.
Inductive t := Handoff | Delegation | Team | Moderation.
#[global] Instance eq_dec : EqDecision t.
Proof. solve_decision. Defined.
#[global] Instance countable : Countable t.
Proof.
  refine (inj_countable'
    (fun k => match k with Handoff => 0 | Delegation => 1 | Team => 2 | Moderation => 3 end)
    (fun n => match n with 0 => Handoff | 1 => Delegation | 2 => Team | _ => Moderation end) _).
  by intros [].
Defined.
End AgentCoordinationCapabilityKind.
Module CapabilityKind := AgentCoordinationCapabilityKind.

(** The policies of [coordination.rs] that a configuration holds or describes. *)
Module AgentHandoffPolicy.
Record t := new { tool : AgentToolId.t; revision : AgentRevisionNumber.t }.
End AgentHandoffPolicy.

Module AgentDelegationPolicy.
Record t := mk { tool : AgentToolId.t; fan_in_tool : option AgentToolId.t; revision : AgentRevisionNumber.t }.
Definition new (tool : AgentToolId.t) (revision : AgentRevisionNumber.t) : t := mk tool None revision.
Definition with_fan_in_tool (self : t) (tool' : AgentToolId.t) : t := mk (tool self) (Some tool') (revision self).
End AgentDelegationPolicy.

Module AgentRunDelegationConfig.
Record t := mk {
  tool : AgentToolId.t;
  fan_in_tool : option AgentToolId.t;
  default_fan_in : Policy.t;
  catalog : AgentDelegationCatalog;
  coordination : gset CapabilityKind.t;
  handoff : option AgentHandoffPolicy.t;
}.

Definition new (tool : AgentToolId.t) (catalog : AgentDelegationCatalog) (coordination : gset CapabilityKind.t) :
    AgentDelegationResult t :=
  if bool_decide ((CapabilityKind.Delegation ∉ coordination) ∧ (CapabilityKind.Handoff ∉ coordination)) then
    Err DelegationError.CapabilityMissing
  else Ok (mk tool None Policy.default catalog coordination None).

Definition with_fan_in_tool (self : t) (tool' : AgentToolId.t) : AgentDelegationResult t :=
  if bool_decide (tool' = tool self) ||
     (match handoff self with Some policy => bool_decide (AgentHandoffPolicy.tool policy = tool') | None => false end)
  then Err (DelegationError.ToolCollision tool')
  else Ok (mk (tool self) (Some tool') (default_fan_in self) (catalog self) (coordination self) (handoff self)).

Definition with_handoff (self : t) (policy : AgentHandoffPolicy.t) : AgentDelegationResult t :=
  if bool_decide (CapabilityKind.Handoff ∉ coordination self) then Err DelegationError.HandoffCapabilityMissing
  else if bool_decide (AgentHandoffPolicy.tool policy = tool self) ||
          bool_decide (fan_in_tool self = Some (AgentHandoffPolicy.tool policy))
  then Err (DelegationError.ToolCollision (AgentHandoffPolicy.tool policy))
  else Ok (mk (tool self) (fan_in_tool self) (default_fan_in self) (catalog self) (coordination self) (Some policy)).

(** The policy inside the [Delegation] capability. *)
Definition descriptor (self : t) (revision : AgentRevisionNumber.t) : AgentDelegationPolicy.t :=
  let policy := AgentDelegationPolicy.new (tool self) revision in
  match fan_in_tool self with
  | Some fan_in_tool => AgentDelegationPolicy.with_fan_in_tool policy fan_in_tool
  | None => policy
  end.

Definition with_default_fan_in (self : t) (policy : Policy.t) : AgentDelegationResult t :=
  let? _ := Policy.validate policy in
  Ok (mk (tool self) (fan_in_tool self) policy (catalog self) (coordination self) (handoff self)).
End AgentRunDelegationConfig.
Module DelegationConfig := AgentRunDelegationConfig.

(** ** Serialization

    What the records rely on of [serde_json]: lengths of serialized values and the
    deserializer of the delegation vocabulary. *)

Module SerdeJson.
Record t (Value : Type) := mk {
  value_len : Value → result string nat;
  record_len : DelegationRecord.t Value → result string nat;
  provenance_len : Provenance.t → result string nat;
  delegation_call : Value → result string (DelegationCall.t Value);
}.
Arguments mk {Value}.
Arguments value_len {Value}.
Arguments record_len {Value}.
Arguments provenance_len {Value}.
Arguments delegation_call {Value}.
End SerdeJson.
