(* ===== verification/FanIn.v ===== *)
(** * Fan-out groups and fan-in: [rakka-agent/src/fan_in.rs]

    The one durable group of children a run waits for, the dispositions of its members,
    and the evaluation of its policy; with the invocation cells of [workflow_tool.rs] and
    the part of the loop state of [loop_runtime.rs] that holds cells and group.
    [try_resolve_fan_in], the commit of a turn and the deadline are those of [run.rs]. *)

From stdpp Require Import pretty.
From Stdlib Require Import Ascii.
From S2P Require Import Prelude Core AgentIdentity CompiledPlan Delegation.

(** ** Workflow invocations: [workflow_tool.rs] *)

Definition AGENT_WORKFLOW_INVOCATION_ID_PREFIX : string := "workflow-invocation-".
Definition AGENT_WORKFLOW_INVOCATION_RECORD_MAX_BYTES : nat := 8 * 1024.

(** The errors of [AgentWorkflowToolError] that a record raises. *)
Inductive AgentWorkflowToolError :=
| RecordIncoherent (message : string)
| WorkflowRecordTooLarge (bytes maximum : nat)
| WorkflowEncoding (message : string).

(** [AgentRunId] of the workflow crate. *)
Module WorkflowRunId.
Record t := new { as_str : string }.
#[global] Instance eq_dec : EqDecision t.
Proof. solve_decision. Defined.
End WorkflowRunId.

Module AgentWorkflowInvocationRecord.
Record t (Value : Type) := mk {
  invocation : AgentWorkflowInvocationId.t;
  goal : option AgentGoalId.t;
  parent_task : AgentTaskId.t;
  parent_run : AgentRunScope.t;
  workflow_tool : AgentWorkflowToolId.t;
  descriptor_version : AgentRevisionNumber.t;
  descriptor_digest : AgentContentDigest.t;
  workflow_type : string;
  definition_version : WorkflowDefinitionVersion.t;
  required_capabilities : gset AgentCapabilityId.t;
  child_run : WorkflowRunId.t;
  deduplication_key : string;
  turn : Z;
  slot : nat;
  effect : AgentEffectId.t;
  call_id : AgentToolCallId.t;
  input : AgentTaskContent.t Value;
  deadline : option AgentTimestampMillis;
  definition_revision : AgentRevisionNumber.t;
  settings_revision : AgentRevisionNumber.t;
  telemetry : AgentTelemetryContext.t;
  created_at : AgentTimestampMillis;
}.
Arguments mk {Value}.
Arguments invocation {Value}.
Arguments workflow_tool {Value}.
Arguments child_run {Value}.
Arguments deduplication_key {Value}.
Arguments call_id {Value}.
Arguments effect {Value}.

Definition validate {Value} (to_vec_len : t Value → result string nat) (self : t Value) :
    result AgentWorkflowToolError unit :=
  if bool_decide (WorkflowRunId.as_str (child_run self) ≠
                  AgentWorkflowInvocationId.as_str (invocation self)) then
    Err (RecordIncoherent "the child run id must be the invocation id verbatim")
  else if bool_decide (deduplication_key self ≠ AgentWorkflowInvocationId.as_str (invocation self)) then
    Err (RecordIncoherent "the deduplication key must be the invocation id verbatim")
  else
    let? bytes := map_err WorkflowEncoding (to_vec_len self) in
    if (AGENT_WORKFLOW_INVOCATION_RECORD_MAX_BYTES <? bytes)%nat then
      Err (WorkflowRecordTooLarge bytes AGENT_WORKFLOW_INVOCATION_RECORD_MAX_BYTES)
    else Ok tt.
End AgentWorkflowInvocationRecord.
Module InvocationRecord := AgentWorkflowInvocationRecord.

Module AgentWorkflowInvocationStatus.
Inductive t :=
| Pending
| Started (adopted : bool)
| Conflicted (code : string)
| Failed (code : string).

Definition is_settled (self : t) : bool := match self with Pending => false | _ => true end.

Definition as_label (self : t) : string :=
  match self with
  | Pending => "pending"
  | Started _ => "started"
  | Conflicted _ => "conflicted"
  | Failed _ => "failed"
  end.
End AgentWorkflowInvocationStatus.
Module InvocationStatus := AgentWorkflowInvocationStatus.

Module AgentWorkflowTerminalStatus.
Inductive t := Completed | Failed | Cancelled.

Definition as_label (self : t) : string :=
  match self with Completed => "completed" | Failed => "failed" | Cancelled => "cancelled" end.
End AgentWorkflowTerminalStatus.

Module AgentWorkflowChildResult.
Record t := mk {
  status : AgentWorkflowTerminalStatus.t;
  terminal_reason : option string;
  result_ref : option ArtifactRef.t;
  result_digest : option AgentContentDigest.t;
  descendants_created : Z;
  recorded_at : AgentTimestampMillis;
}.
End AgentWorkflowChildResult.
Module WorkflowResult := AgentWorkflowChildResult.

Module AgentWorkflowCancelDisposition.
Inductive t := Committed (effect : AgentEffectId.t) | Unsupported | Unaffordable.
End AgentWorkflowCancelDisposition.

Module AgentWorkflowInvocationCell.
Record t (Value : Type) := mk {
  record : InvocationRecord.t Value;
  status : InvocationStatus.t;
  settled_at : option AgentTimestampMillis;
  result : option WorkflowResult.t;
  cancel : option AgentWorkflowCancelDisposition.t;
}.
Arguments mk {Value}.
Arguments record {Value}.
Arguments status {Value}.
Arguments settled_at {Value}.
Arguments result {Value}.
Arguments cancel {Value}.

Section cell.
Context {Value : Type}.

Definition pending (record : InvocationRecord.t Value) : t Value :=
  mk record InvocationStatus.Pending None None None.

Definition record_cancel_disposition (self : t Value) (disposition : AgentWorkflowCancelDisposition.t) : t Value :=
  match cancel self with
  | None => mk (record self) (status self) (settled_at self) (result self) (Some disposition)
  | Some _ => self
  end.

Definition child_settled (self : t Value) : bool := is_some (result self).

Definition record_child_result (self : t Value) (outcome : WorkflowResult.t) : t Value :=
  match result self with
  | None => mk (record self) (status self) (settled_at self) (Some outcome) (cancel self)
  | Some _ => self
  end.

(** The settlements: first writer wins. *)
Definition settle (self : t Value) (outcome : InvocationStatus.t) (now : AgentTimestampMillis) : t Value :=
  if InvocationStatus.is_settled (status self) then self
  else mk (record self) outcome (Some now) (result self) (cancel self).

Definition settle_started (self : t Value) (adopted : bool) (now : AgentTimestampMillis) : t Value :=
  settle self (InvocationStatus.Started adopted) now.

Definition settle_conflicted (self : t Value) (code : string) (now : AgentTimestampMillis) : t Value :=
  settle self (InvocationStatus.Conflicted code) now.

Definition settle_failed (self : t Value) (code : string) (now : AgentTimestampMillis) : t Value :=
  settle self (InvocationStatus.Failed code) now.
End cell.
End AgentWorkflowInvocationCell.
Module InvocationCell := AgentWorkflowInvocationCell.

(** ** Members *)

Module AgentFanInMemberId.
Inductive t :=
| Delegation (delegation : AgentDelegationId.t)
| WorkflowInvocation (invocation : AgentWorkflowInvocationId.t).

Definition as_str (self : t) : string :=
  match self with
  | Delegation delegation => AgentDelegationId.as_str delegation
  | WorkflowInvocation invocation => AgentWorkflowInvocationId.as_str invocation
  end.

Definition delegation (self : t) : option AgentDelegationId.t :=
  match self with Delegation delegation => Some delegation | WorkflowInvocation _ => None end.

Definition workflow_invocation (self : t) : option AgentWorkflowInvocationId.t :=
  match self with Delegation _ => None | WorkflowInvocation invocation => Some invocation end.

(** The order of [cmp]: the text, then the variant. *)
Definition cmp_key (self : t) : string * Z :=
  (as_str self, match self with Delegation _ => 0 | WorkflowInvocation _ => 1 end).

(** [Deserialize]: the prefix tells the kinds apart. *)
Definition deserialize (value : string) : AgentIdentityResult t :=
  if starts_with AGENT_WORKFLOW_INVOCATION_ID_PREFIX value then
    let? id := AgentWorkflowInvocationId.new value in Ok (WorkflowInvocation id)
  else let? id := AgentDelegationId.new value in Ok (Delegation id).

#[global] Instance eq_dec : EqDecision t.
Proof. solve_decision. Defined.
#[global] Instance cmp_key_inj : Inj (=) (=) cmp_key.
Proof. intros [[x]|[x]] [[y]|[y]]; unfold cmp_key; simpl; congruence. Qed.
#[global] Instance countable : Countable t.
Proof.
  refine (inj_countable' (fun m => match m with Delegation d => inl d | WorkflowInvocation i => inr i end)
    (fun s => match s with inl d => Delegation d | inr i => WorkflowInvocation i end) _).
  by intros [].
Defined.
#[global] Instance ordkey : OrdKey t := ordkey_via cmp_key.
End AgentFanInMemberId.
Module Member := AgentFanInMemberId.

(** ** Groups *)

Definition ALL_SETTLED : string := "all-settled".
Definition ANY_SATISFIED : string := "any-satisfied".
Definition QUORUM_SATISFIED : string := "quorum-satisfied".
Definition UNSATISFIABLE : string := "unsatisfiable".
Definition TIMED_OUT : string := "timed-out".

Module AgentFanInResolution.
Record t := mk {
  satisfied : bool;
  satisfied_by : list Member.t;
  code : string;
  resolved_at : AgentTimestampMillis;
}.
End AgentFanInResolution.
Module Resolution := AgentFanInResolution.

Module AgentFanInCell.
Record t := mk {
  policy : Policy.t;
  members : gset Member.t;
  opened_turn : Z;
  opened_at : AgentTimestampMillis;
  closed : bool;
  await_call : option AgentToolCallId.t;
  await_turn : option Z;
  deadline : option AgentTimestampMillis;
  timed_out : gset Member.t;
  resolution : option Resolution.t;
}.

(** [open]. *)
Definition opened (policy : Policy.t) (member : Member.t) (turn : Z) (now : AgentTimestampMillis) : t :=
  mk policy {[member]} turn now false None None None ∅ None.

Definition awaiting (self : t) : bool := closed self && negb (is_some (resolution self)).

Definition add_member (self : t) (member : Member.t) : t :=
  mk (policy self) ({[member]} ∪ members self) (opened_turn self) (opened_at self) (closed self)
    (await_call self) (await_turn self) (deadline self) (timed_out self) (resolution self).

Definition close (self : t) (call_id : AgentToolCallId.t) (deadline : option AgentTimestampMillis) (turn : Z) : t :=
  mk (policy self) (members self) (opened_turn self) (opened_at self) true
    (Some call_id) (Some turn) deadline (timed_out self) (resolution self).

Definition mark_timed_out (self : t) (stragglers : list Member.t) : t :=
  mk (policy self) (members self) (opened_turn self) (opened_at self) (closed self)
    (await_call self) (await_turn self) (deadline self) (list_to_set stragglers ∪ timed_out self)
    (resolution self).

Definition set_resolution (self : t) (resolution : Resolution.t) : t :=
  mk (policy self) (members self) (opened_turn self) (opened_at self) (closed self)
    (await_call self) (await_turn self) (deadline self) (timed_out self) (Some resolution).
End AgentFanInCell.
Module FanInCell := AgentFanInCell.

(** ** Dispositions and the evaluation of a policy *)

Module MemberDisposition.
Inductive t := Unresolved | Succeeded | Failed | Cancelled | TimedOut.
#[global] Instance eq_dec : EqDecision t.
Proof. solve_decision. Defined.

Definition as_label (self : t) : string :=
  match self with
  | Unresolved => "unresolved"
  | Succeeded => "succeeded"
  | Failed => "failed"
  | Cancelled => "cancelled"
  | TimedOut => "timed-out"
  end.
End MemberDisposition.
Module Disposition := MemberDisposition.

Abbreviation DelegationCells Value := (gmap AgentDelegationId.t (DelegationCell.t Value)).
Abbreviation InvocationCells Value := (gmap AgentWorkflowInvocationId.t (InvocationCell.t Value)).

Section evaluation.
Context {Value : Type}.
Implicit Types (delegations : DelegationCells Value) (workflow_invocations : InvocationCells Value).

Definition delegation_disposition (cell : DelegationCell.t Value) : Disposition.t :=
  match DelegationCell.status cell with
  | DelegationStatus.Pending => Disposition.Unresolved
  | DelegationStatus.Conflicted _ | DelegationStatus.Failed _ _ => Disposition.Failed
  | DelegationStatus.ChildCreated _ _ =>
      match DelegationCell.result cell with
      | None => Disposition.Unresolved
      | Some result =>
          match ChildResult.status result with
          | AgentTaskStatus.Completed => Disposition.Succeeded
          | AgentTaskStatus.Cancelled => Disposition.Cancelled
          | _ => Disposition.Failed
          end
      end
  end.

Definition invocation_disposition (cell : InvocationCell.t Value) : Disposition.t :=
  match InvocationCell.status cell with
  | InvocationStatus.Pending => Disposition.Unresolved
  | InvocationStatus.Conflicted _ | InvocationStatus.Failed _ => Disposition.Failed
  | InvocationStatus.Started _ =>
      match InvocationCell.result cell with
      | None => Disposition.Unresolved
      | Some result =>
          match WorkflowResult.status result with
          | AgentWorkflowTerminalStatus.Completed => Disposition.Succeeded
          | AgentWorkflowTerminalStatus.Cancelled => Disposition.Cancelled
          | AgentWorkflowTerminalStatus.Failed => Disposition.Failed
          end
      end
  end.

Definition member_disposition (cell : FanInCell.t) (member : Member.t) delegations workflow_invocations :
    Disposition.t :=
  if bool_decide (member ∈ FanInCell.timed_out cell) then Disposition.TimedOut
  else match member with
       | Member.Delegation delegation =>
           match delegations !! delegation with
           | None => Disposition.Unresolved
           | Some cell => delegation_disposition cell
           end
       | Member.WorkflowInvocation invocation =>
           match workflow_invocations !! invocation with
           | None => Disposition.Unresolved
           | Some cell => invocation_disposition cell
           end
       end.

(** The members with one of the dispositions, in order. *)
Definition members_with (p : Disposition.t → bool) (cell : FanInCell.t) delegations workflow_invocations :
    list Member.t :=
  filter (fun member => p (member_disposition cell member delegations workflow_invocations))
    (btree_elements (FanInCell.members cell)).

Definition is_disposition (d d' : Disposition.t) : bool := bool_decide (d' = d).

Definition evaluate_fan_in (cell : FanInCell.t) delegations workflow_invocations (now : AgentTimestampMillis) :
    option Resolution.t :=
  if negb (FanInCell.awaiting cell) then None
  else
    let with_ d := members_with (is_disposition d) cell delegations workflow_invocations in
    let succeeded := with_ Disposition.Succeeded in
    let unresolved := length (with_ Disposition.Unresolved) in
    let timed_out := length (with_ Disposition.TimedOut) in
    let resolve satisfied satisfied_by code := Some (Resolution.mk satisfied satisfied_by code now) in
    let unsatisfied_code := if (0 <? timed_out)%nat then TIMED_OUT else UNSATISFIABLE in
    match FanInCell.policy cell with
    | Policy.All =>
        if (0 <? unresolved)%nat then None
        else
          let satisfied := (length succeeded =? size (FanInCell.members cell))%nat in
          let code :=
            if satisfied then ALL_SETTLED else if (0 <? timed_out)%nat then TIMED_OUT else ALL_SETTLED in
          resolve satisfied (if satisfied then succeeded else []) code
    | Policy.Any =>
        if negb (length succeeded =? 0)%nat then resolve true succeeded ANY_SATISFIED
        else if (0 <? unresolved)%nat then None
        else resolve false [] unsatisfied_code
    | Policy.Quorum n =>
        let n := Z.to_nat n in
        if (n <=? length succeeded)%nat then resolve true succeeded QUORUM_SATISFIED
        else if (n <=? length succeeded + unresolved)%nat then None
        else resolve false [] unsatisfied_code
    end.

Definition unresolved_members (cell : FanInCell.t) delegations workflow_invocations : list Member.t :=
  members_with (is_disposition Disposition.Unresolved) cell delegations workflow_invocations.

Definition unreported_members (cell : FanInCell.t) delegations workflow_invocations : list Member.t :=
  members_with
    (fun d => match d with Disposition.Unresolved | Disposition.TimedOut => true | _ => false end)
    cell delegations workflow_invocations.
End evaluation.

(** ** The result table *)

Definition FAN_IN_TABLE_REASON_MAX_BYTES : nat := 64.

(** [str::is_char_boundary]: the start, the end, or a byte that does not continue a
    character. *)
Definition is_char_boundary (s : string) (index : nat) : bool :=
  if (index =? 0)%nat then true
  else match String.get index s with
       | Some c => let n := nat_of_ascii c in negb ((128 <=? n) && (n <? 192))%nat
       | None => (index =? String.length s)%nat
       end.

(** The loop that moves a cut back to a boundary. *)
Fixpoint boundary_before (s : string) (cut : nat) : nat :=
  if is_char_boundary s cut then cut else match cut with O => O | S cut => boundary_before s cut end.

Definition bounded_reason (reason : string) : string :=
  if (FAN_IN_TABLE_REASON_MAX_BYTES <? String.length reason)%nat then
    String.substring 0 (boundary_before reason FAN_IN_TABLE_REASON_MAX_BYTES) reason
  else reason.

(** One row: the member under the name of its kind, and what is known of it. *)
Module FanInRow.
Record t := mk {
  member : Member.t;
  workflow_tool : option AgentWorkflowToolId.t;
  disposition : string;
  status : option string;
  terminal_reason : option string;
  result_digest : option string;
}.
End FanInRow.

Module FanInTable.
Record t := mk {
  policy : string;
  resolution : option (bool * string);
  children : list FanInRow.t;
}.
End FanInTable.

Section table.
Context {Value : Type}.

Definition fan_in_row (cell : FanInCell.t) (delegations : DelegationCells Value)
    (workflow_invocations : InvocationCells Value) (member : Member.t) : FanInRow.t :=
  let disposition :=
    Disposition.as_label (member_disposition cell member delegations workflow_invocations) in
  match member with
  | Member.Delegation delegation =>
      let result := cell ← delegations !! delegation; DelegationCell.result cell in
      FanInRow.mk member None disposition
        ((fun r => AgentTaskStatus.as_label (ChildResult.status r)) <$> result)
        (bounded_reason <$> (r ← result; ChildResult.terminal_reason r))
        (AgentContentDigest.value <$> (r ← result; ChildResult.result_digest r))
  | Member.WorkflowInvocation invocation =>
      let invocation_cell := workflow_invocations !! invocation in
      let result := cell ← invocation_cell; InvocationCell.result cell in
      FanInRow.mk member
        ((fun cell => InvocationRecord.workflow_tool (InvocationCell.record cell)) <$> invocation_cell)
        disposition
        ((fun r => AgentWorkflowTerminalStatus.as_label (WorkflowResult.status r)) <$> result)
        (bounded_reason <$> (r ← result; WorkflowResult.terminal_reason r))
        (AgentContentDigest.value <$> (r ← result; WorkflowResult.result_digest r))
  end.

Definition fan_in_result_table (cell : FanInCell.t) (delegations : DelegationCells Value)
    (workflow_invocations : InvocationCells Value) : FanInTable.t :=
  FanInTable.mk (Policy.as_label (FanInCell.policy cell))
    ((fun r => (Resolution.satisfied r, Resolution.code r)) <$> FanInCell.resolution cell)
    (fan_in_row cell delegations workflow_invocations <$> btree_elements (FanInCell.members cell)).
End table.

(** ** The children of a run: [loop_runtime.rs]

    The part of [AgentLoopState] that holds the cells of children and the group.  The
    operations below are methods of the loop state; effects, phases and tool results are
    other fields of it and are left to the run. *)

Module AgentLoopState.
Record t (Value : Type) := mk {
  delegations : DelegationCells Value;
  workflow_invocations : InvocationCells Value;
  fan_in : option FanInCell.t;
}.
Arguments mk {Value}.
Arguments delegations {Value}.
Arguments workflow_invocations {Value}.
Arguments fan_in {Value}.

Section loop.
Context {Value : Type}.
Implicit Types self : t Value.

Definition new : t Value := mk ∅ ∅ None.

Definition set_delegations self (cells : DelegationCells Value) : t Value :=
  mk cells (workflow_invocations self) (fan_in self).
Definition set_workflow_invocations self (cells : InvocationCells Value) : t Value :=
  mk (delegations self) cells (fan_in self).
Definition set_fan_in self (group : option FanInCell.t) : t Value :=
  mk (delegations self) (workflow_invocations self) group.

(** [entry(..).or_insert_with(..)]: the cell already present stays. *)
Definition record_delegation self (cell : DelegationCell.t Value) : t Value :=
  let id := DelegationRecord.delegation (DelegationCell.record cell) in
  match delegations self !! id with
  | Some _ => self
  | None => set_delegations self (<[id := cell]> (delegations self))
  end.

Definition record_workflow_invocation self (cell : InvocationCell.t Value) : t Value :=
  let id := InvocationRecord.invocation (InvocationCell.record cell) in
  match workflow_invocations self !! id with
  | Some _ => self
  | None => set_workflow_invocations self (<[id := cell]> (workflow_invocations self))
  end.

Definition delegation_count self : nat := size (delegations self).
Definition workflow_invocation_count self : nat := size (workflow_invocations self).

(** A send that is pending or created a child. *)
Definition live (cell : DelegationCell.t Value) : bool :=
  match DelegationCell.status cell with
  | DelegationStatus.Pending | DelegationStatus.ChildCreated _ _ => true
  | _ => false
  end.

Definition active (cell : DelegationCell.t Value) : bool :=
  match DelegationCell.status cell with
  | DelegationStatus.Pending => true
  | DelegationStatus.ChildCreated _ _ => negb (DelegationCell.child_settled cell)
  | _ => false
  end.

Definition delegation_fan_out_spent self : Z :=
  Z.of_nat (length (filter live (btree_values (delegations self)))).

Definition delegation_active_children self : Z :=
  Z.of_nat (length (filter active (btree_values (delegations self)))).

(** The loop of [delegation_descendants_spent]. *)
Fixpoint sum_spent (spent : Z) (cells : list (DelegationCell.t Value)) : option Z :=
  match cells with
  | [] => Some spent
  | cell :: cells =>
      if live cell then
        granted ← DelegationRecord.granted_descendants (DelegationCell.record cell);
        sum_spent (saturating_add_u64 (saturating_add_u64 spent 1) granted) cells
      else sum_spent spent cells
  end.

Definition delegation_descendants_spent self : option Z := sum_spent 0 (btree_values (delegations self)).

Definition delegation_descendants_consumed self : Z :=
  foldl saturating_add_u64 0
    ((fun cell => saturating_add_u64 1
                    (default 0 (DelegationRecord.granted_descendants (DelegationCell.record cell))))
     <$> filter live (btree_values (delegations self))).

Definition awaits_fan_in self : bool :=
  match fan_in self with Some cell => FanInCell.awaiting cell | None => false end.

Definition join_fan_in self (policy : Policy.t) (member : Member.t) (turn : Z) (now : AgentTimestampMillis) :
    t Value :=
  match fan_in self with
  | Some cell =>
      match FanInCell.resolution cell with
      | None =>
          if FanInCell.closed cell then self
          else set_fan_in self (Some (FanInCell.add_member cell member))
      | Some _ => set_fan_in self (Some (FanInCell.opened policy member turn now))
      end
  | None => set_fan_in self (Some (FanInCell.opened policy member turn now))
  end.

Definition close_fan_in self (call_id : AgentToolCallId.t) (deadline : option AgentTimestampMillis) (turn : Z) :
    t Value * bool :=
  match fan_in self with
  | None => (self, false)
  | Some cell =>
      if is_some (FanInCell.resolution cell) || bool_decide (FanInCell.members cell = ∅) then (self, false)
      else if FanInCell.closed cell then (self, bool_decide (FanInCell.await_call cell = Some call_id))
      else (set_fan_in self (Some (FanInCell.close cell call_id deadline turn)), true)
  end.

Definition resolve_fan_in self (resolution : Resolution.t) : t Value :=
  match fan_in self with
  | Some cell =>
      match FanInCell.resolution cell with
      | None => set_fan_in self (Some (FanInCell.set_resolution cell resolution))
      | Some _ => self
      end
  | None => self
  end.
End loop.
End AgentLoopState.
Module Children := AgentLoopState.

(** ** Transitions of a run on its children: [run.rs] *)

Definition AGENT_RUN_DETAIL_MAX_LENGTH : nat := 512.

Definition bounded_detail (detail : string) : string :=
  if (AGENT_RUN_DETAIL_MAX_LENGTH <? String.length detail)%nat then
    String.substring 0 (boundary_before detail AGENT_RUN_DETAIL_MAX_LENGTH) detail
  else detail.

Section transitions.
Context {Value : Type}.
Implicit Types s : Children.t Value.

(** Whether the group resolved, and the result that the awaiting call gets: a table. *)
Definition try_resolve_fan_in s (now : AgentTimestampMillis) :
    Children.t Value * option (option (AgentToolCallId.t * FanInTable.t)) :=
  match Children.fan_in s with
  | None => (s, None)
  | Some cell =>
      match evaluate_fan_in cell (Children.delegations s) (Children.workflow_invocations s) now with
      | None => (s, None)
      | Some resolution =>
          let s' := Children.resolve_fan_in s resolution in
          (s', Some (call_id ← FanInCell.await_call cell;
                     group ← Children.fan_in s';
                     Some (call_id, fan_in_result_table group (Children.delegations s')
                                      (Children.workflow_invocations s'))))
      end
  end.

Definition try_resolve s (now : AgentTimestampMillis) : Children.t Value := (try_resolve_fan_in s now).1.

(** The calls of a turn that concern children. *)
Inductive planned_call :=
| A2aSend (delegation : DelegationRecord.t Value)
| WorkflowStart (invocation : InvocationRecord.t Value)
| AwaitFanIn (call_id : AgentToolCallId.t) (deadline : option AgentTimestampMillis).

Definition commit_call (fan_in_policy : Policy.t) (turn : Z) (now : AgentTimestampMillis) s
    (call : planned_call) : Children.t Value :=
  match call with
  | A2aSend delegation =>
      let s := Children.record_delegation s (DelegationCell.pending delegation) in
      Children.join_fan_in s fan_in_policy (Member.Delegation (DelegationRecord.delegation delegation)) turn now
  | WorkflowStart invocation =>
      let s := Children.record_workflow_invocation s (InvocationCell.pending invocation) in
      Children.join_fan_in s fan_in_policy
        (Member.WorkflowInvocation (InvocationRecord.invocation invocation)) turn now
  | AwaitFanIn call_id deadline => (Children.close_fan_in s call_id deadline turn).1
  end.

Definition commit_turn (fan_in_policy : Policy.t) (turn : Z) (calls : list planned_call)
    (now : AgentTimestampMillis) s : Children.t Value :=
  try_resolve (foldl (commit_call fan_in_policy turn now) s calls) now.

(** The send returned its child. For a delegation the run does not hold the source returns
    [UnknownDelegation], and the transition is not committed. *)
Definition send_succeeded (receipt : AgentA2aSendReceipt.t) (now : AgentTimestampMillis) s : Children.t Value :=
  let id := AgentA2aSendReceipt.delegation receipt in
  match Children.delegations s !! id with
  | None => s
  | Some cell =>
      Children.set_delegations s
        (<[id := DelegationCell.settle_child_created cell (AgentA2aSendReceipt.child_task receipt)
                   (AgentA2aSendReceipt.child_run receipt) now]> (Children.delegations s))
  end.

Definition in_group s (member : Member.t) : bool :=
  match Children.fan_in s with
  | Some group => bool_decide (member ∈ FanInCell.members group)
  | None => false
  end.

(** The cell that owns an effect. *)
Definition held_delegation s (effect_id : AgentEffectId.t) : option (AgentDelegationId.t * DelegationCell.t Value) :=
  find_first (fun entry => bool_decide (DelegationRecord.effect (DelegationCell.record entry.2) = effect_id))
    (btree_entries (Children.delegations s)).

Definition held_invocation s (effect_id : AgentEffectId.t) :
    option (AgentWorkflowInvocationId.t * InvocationCell.t Value) :=
  find_first (fun entry => bool_decide (InvocationRecord.effect (InvocationCell.record entry.2) = effect_id))
    (btree_entries (Children.workflow_invocations s)).

(** The send failed definitively or spent its retry budget.  The cell is settled; the group is
    evaluated for a member of it, unless the run is winding down. *)
Definition send_failed (winding_down : bool) (effect_id : AgentEffectId.t) (code : string)
    (reason : option AgentFailureReason.t) (now : AgentTimestampMillis) s : Children.t Value :=
  match held_delegation s effect_id with
  | None => s
  | Some (id, cell) =>
      let conflict := bool_decide (code = "delegation-child-conflict" ∨ code = "delegation-child-mismatch") in
      let cell :=
        if conflict then DelegationCell.settle_conflicted cell code now
        else DelegationCell.settle_failed_because cell (bounded_detail code) reason now in
      let s := Children.set_delegations s (<[id := cell]> (Children.delegations s)) in
      let group_member_send := negb winding_down && in_group s (Member.Delegation id) in
      if group_member_send then try_resolve s now else s
  end.

(** Whether a failed send or start is one of a member of the group; the failure of any other
    winds the run down. *)
Definition send_in_group s (effect_id : AgentEffectId.t) : bool :=
  match held_delegation s effect_id with Some (id, _) => in_group s (Member.Delegation id) | None => false end.

Definition start_in_group s (effect_id : AgentEffectId.t) : bool :=
  match held_invocation s effect_id with Some (id, _) => in_group s (Member.WorkflowInvocation id) | None => false end.

(** A send or a start that was fenced, or that the dispatch layer settled without invoking it:
    the cell fails and the group is not evaluated. *)
Definition send_cancelled (now : AgentTimestampMillis) s (effect_id : AgentEffectId.t) : Children.t Value :=
  match held_delegation s effect_id with
  | None => s
  | Some (id, cell) =>
      Children.set_delegations s
        (<[id := DelegationCell.settle_failed cell "run-winding-down" now]> (Children.delegations s))
  end.

Definition start_cancelled (now : AgentTimestampMillis) s (effect_id : AgentEffectId.t) : Children.t Value :=
  match held_invocation s effect_id with
  | None => s
  | Some (id, cell) =>
      Children.set_workflow_invocations s
        (<[id := InvocationCell.settle_failed cell "run-winding-down" now]> (Children.workflow_invocations s))
  end.

(** The sends and the starts among the unsent effects that a wind-down cancels in place. *)
Definition fence_unsent_effects (fenced_sends fenced_starts : list AgentEffectId.t) (now : AgentTimestampMillis) s :
    Children.t Value :=
  foldl (start_cancelled now) (foldl (send_cancelled now) s fenced_sends) fenced_starts.

(** The start reached or adopted its child run, or named another one. For an invocation the
    run does not hold the source returns [UnknownWorkflowInvocation] and commits nothing. *)
Definition start_succeeded (invocation : AgentWorkflowInvocationId.t) (child_run : WorkflowRunId.t)
    (adopted : bool) (now : AgentTimestampMillis) s : Children.t Value :=
  match Children.workflow_invocations s !! invocation with
  | None => s
  | Some cell =>
      let cell :=
        if bool_decide (child_run ≠ InvocationRecord.child_run (InvocationCell.record cell)) then
          InvocationCell.settle_failed cell "workflow-start-run-mismatch" now
        else InvocationCell.settle_started cell adopted now in
      try_resolve
        (Children.set_workflow_invocations s (<[invocation := cell]> (Children.workflow_invocations s))) now
  end.

Definition AGENT_WORKFLOW_INVOCATION_CONFLICT_CODE : string := "workflow-invocation-conflict".

Definition start_failed (winding_down : bool) (effect_id : AgentEffectId.t) (code : string)
    (now : AgentTimestampMillis) s : Children.t Value :=
  match held_invocation s effect_id with
  | None => s
  | Some (id, cell) =>
      let cell :=
        if bool_decide (code = AGENT_WORKFLOW_INVOCATION_CONFLICT_CODE) then
          InvocationCell.settle_conflicted cell code now
        else InvocationCell.settle_failed cell (bounded_detail code) now in
      let s := Children.set_workflow_invocations s (<[id := cell]> (Children.workflow_invocations s)) in
      let group_member_start := negb winding_down && in_group s (Member.WorkflowInvocation id) in
      if group_member_start then try_resolve s now else s
  end.

(** What a child's report carries: [task.rs]. *)
Record AgentDelegationReport := DelegationReport {
  report_delegation : AgentDelegationId.t;
  report_child_task : AgentTaskId.t;
  report_child_run : option AgentRunId.t;
  report_status : AgentTaskStatus.t;
  report_terminal_reason : option string;
  report_result_digest : option AgentContentDigest.t;
  report_descendants_created : Z;
}.

(** The answer to a report: the code of a refusal, or acceptance. *)
Definition report_refusal (tenant : TenantId.t) (initiator : AgentEntityAddress.t)
    (report : AgentDelegationReport) s : option string :=
  if negb (AgentTaskStatus.is_terminal (report_status report)) then Some "delegation-result-forged"
  else match initiator with
       | AgentEntityAddress.Task sender =>
           if bool_decide (AgentTaskScope.tenant sender ≠ tenant ∨
                           AgentTaskScope.task sender ≠ report_child_task report) then
             Some "delegation-result-forged"
           else match Children.delegations s !! report_delegation report with
                | None => Some "delegation-result-unknown-delegation"
                | Some cell =>
                    match DelegationCell.status cell with
                    | DelegationStatus.Pending => Some "delegation-result-early"
                    | DelegationStatus.Conflicted _ | DelegationStatus.Failed _ _ =>
                        Some "delegation-result-not-owned"
                    | DelegationStatus.ChildCreated child_task _ =>
                        if bool_decide (child_task ≠ report_child_task report) then
                          Some "delegation-result-forged"
                        else None
                    end
                end
       | _ => Some "delegation-result-forged"
       end.

(** The cell and the group; the disposition of the run is its own business. *)
Definition accept_delegation_result (tenant : TenantId.t) (initiator : AgentEntityAddress.t)
    (report : AgentDelegationReport) (now : AgentTimestampMillis) s : Children.t Value * option string :=
  match report_refusal tenant initiator report s with
  | Some code => (s, Some code)
  | None =>
      match Children.delegations s !! report_delegation report with
      | None => (s, None)
      | Some cell =>
          if DelegationCell.child_settled cell then (s, None)
          else
            let result := ChildResult.mk (report_status report) (bounded_detail <$> report_terminal_reason report)
                            (report_result_digest report) (report_child_run report)
                            (report_descendants_created report) now in
            (try_resolve
               (Children.set_delegations s
                  (<[report_delegation report := DelegationCell.record_child_result cell result]>
                     (Children.delegations s))) now, None)
      end
  end.

Definition record_workflow_result (invocation : AgentWorkflowInvocationId.t) (child_run : WorkflowRunId.t)
    (status : AgentWorkflowTerminalStatus.t) (terminal_reason : option string)
    (result_ref : option ArtifactRef.t) (result_digest : option AgentContentDigest.t)
    (now : AgentTimestampMillis) s : Children.t Value * option string :=
  match Children.workflow_invocations s !! invocation with
  | None => (s, Some "workflow-result-unknown-invocation")
  | Some cell =>
      if bool_decide (child_run ≠ InvocationRecord.child_run (InvocationCell.record cell)) then
        (s, Some "workflow-result-forged")
      else match InvocationCell.status cell with
           | InvocationStatus.Conflicted _ | InvocationStatus.Failed _ =>
               (s, Some "workflow-result-not-owned")
           | _ =>
               if InvocationCell.child_settled cell then (s, None)
               else
                 let result := WorkflowResult.mk status (bounded_detail <$> terminal_reason)
                                 result_ref result_digest 0 now in
                 (try_resolve
                    (Children.set_workflow_invocations s
                       (<[invocation := InvocationCell.record_child_result cell result]>
                          (Children.workflow_invocations s))) now, None)
           end
  end.

(** On a run that has not ended. *)
Definition fire_fan_in_deadline (now : AgentTimestampMillis) s : Children.t Value :=
  match Children.fan_in s with
  | None => s
  | Some group =>
      if negb (FanInCell.awaiting group) then s
      else match FanInCell.deadline group with
           | None => s
           | Some deadline =>
               if now <? deadline then s
               else
                 let stragglers := unresolved_members group (Children.delegations s)
                                     (Children.workflow_invocations s) in
                 try_resolve
                   (Children.set_fan_in s (Some (FanInCell.mark_timed_out group stragglers))) now
           end
  end.
End transitions.
Arguments planned_call : clear implicits.
