(* ===== verification/FanInRuns.v ===== *)
(** * Runs of a fan-out group

    What the fan-in evaluation decides, and what every sequence of turns, outcomes, child
    reports and deadlines keeps of a group.  The reference is the policy applied to a
    complete assignment of outcomes. *)

From S2P Require Import Prelude AgentIdentity Delegation FanIn.

(** ** The reference *)

Section reference.
Context {Value : Type}.
Implicit Types (ds : DelegationCells Value) (ws : InvocationCells Value).

Definition successes (final : Member.t → bool) (l : list Member.t) : nat := length (filter final l).

(** Whether a policy holds when the outcomes of all members are known. *)
Definition policy_holds (policy : Policy.t) (final : Member.t → bool) (l : list Member.t) : bool :=
  match policy with
  | Policy.All => successes final l =? length l
  | Policy.Any => negb (successes final l =? 0)
  | Policy.Quorum n => Z.to_nat n <=? successes final l
  end%nat.

(** An assignment of outcomes that agrees with what is known. *)
Definition completion (cell : FanInCell.t) ds ws (final : Member.t → bool) : Prop :=
  ∀ m, m ∈ FanInCell.members cell →
  match member_disposition cell m ds ws with
  | Disposition.Unresolved => True
  | Disposition.Succeeded => final m = true
  | _ => final m = false
  end.

(** The code of a decision that no deadline took part in. *)
Definition decision_code (policy : Policy.t) (satisfied : bool) : string :=
  match policy with
  | Policy.All => ALL_SETTLED
  | Policy.Any => if satisfied then ANY_SATISFIED else UNSATISFIABLE
  | Policy.Quorum _ => if satisfied then QUORUM_SATISFIED else UNSATISFIABLE
  end.

Definition known (cell : FanInCell.t) ds ws (d : Disposition.t) : nat :=
  length (members_with (is_disposition d) cell ds ws).

Lemma known_unresolved_members cell ds ws :
  known cell ds ws Disposition.Unresolved = length (unresolved_members cell ds ws).
Proof. done. Qed.

(** *** Counting *)

Lemma successes_bounds cell ds ws final (l : list Member.t) :
  (∀ m, m ∈ l → match member_disposition cell m ds ws with
                | Disposition.Unresolved => True
                | Disposition.Succeeded => final m = true
                | _ => final m = false
                end) →
  let count d := length (filter (fun m => is_disposition d (member_disposition cell m ds ws)) l) in
  (count Disposition.Succeeded <= successes final l <=
   count Disposition.Succeeded + count Disposition.Unresolved)%nat.
Proof.
  unfold successes, is_disposition. induction l as [|m l IH]; [done|]. intros Hall.
  specialize (IH (fun m' Hm' => Hall m' (list_elem_of_further _ _ _ Hm'))).
  specialize (Hall m (list_elem_of_here _ _)). rewrite !filter_cons.
  destruct (member_disposition cell m ds ws); simpl in *; rewrite ?Hall; simpl; try lia.
  destruct (final m); simpl; lia.
Qed.

Lemma completion_bounds cell ds ws final :
  completion cell ds ws final →
  (known cell ds ws Disposition.Succeeded <= successes final (btree_elements (FanInCell.members cell)) <=
   known cell ds ws Disposition.Succeeded + known cell ds ws Disposition.Unresolved)%nat.
Proof.
  intros Hf. apply successes_bounds. intros m Hm%elem_of_btree_elements. by apply Hf.
Qed.

(** The two extreme completions. *)
Definition at_best cell ds ws (m : Member.t) : bool :=
  match member_disposition cell m ds ws with
  | Disposition.Unresolved | Disposition.Succeeded => true
  | _ => false
  end.

Definition at_worst cell ds ws (m : Member.t) : bool :=
  is_disposition Disposition.Succeeded (member_disposition cell m ds ws).

Lemma at_best_completion cell ds ws : completion cell ds ws (at_best cell ds ws).
Proof. intros m _. unfold at_best. by destruct (member_disposition _ _ _ _). Qed.

Lemma at_worst_completion cell ds ws : completion cell ds ws (at_worst cell ds ws).
Proof. intros m _. unfold at_worst. by destruct (member_disposition _ _ _ _). Qed.

Lemma successes_at_best cell ds ws :
  successes (at_best cell ds ws) (btree_elements (FanInCell.members cell)) =
  (known cell ds ws Disposition.Succeeded + known cell ds ws Disposition.Unresolved)%nat.
Proof.
  unfold successes, known, members_with, at_best, is_disposition.
  induction (btree_elements _) as [|m l IH]; [done|]. rewrite !filter_cons.
  destruct (member_disposition cell m ds ws); simpl; rewrite ?IH; lia.
Qed.

Lemma successes_at_worst cell ds ws :
  successes (at_worst cell ds ws) (btree_elements (FanInCell.members cell)) =
  known cell ds ws Disposition.Succeeded.
Proof. done. Qed.

Lemma known_total cell ds ws :
  (known cell ds ws Disposition.Succeeded + known cell ds ws Disposition.Unresolved <=
   length (btree_elements (FanInCell.members cell)))%nat.
Proof. rewrite <- successes_at_best. apply length_filter. Qed.

Lemma known_unresolved cell ds ws :
  known cell ds ws Disposition.Unresolved = 0%nat ↔
  ∀ m, m ∈ FanInCell.members cell → member_disposition cell m ds ws ≠ Disposition.Unresolved.
Proof.
  unfold known, members_with, is_disposition. rewrite length_zero_iff_nil. split.
  - intros Hnil m Hm Hd. apply elem_of_btree_elements in Hm.
    assert (m ∈ ([] : list Member.t)) as []%not_elem_of_nil. rewrite <- Hnil.
    apply list_elem_of_filter. split; [|done]. rewrite Hd. by apply bool_decide_pack.
  - intros Hall. apply filter_none. intros m Hm%elem_of_btree_elements Hd%bool_decide_unpack.
    by apply (Hall m).
Qed.

Lemma known_timed_out cell ds ws :
  FanInCell.timed_out cell = ∅ → known cell ds ws Disposition.TimedOut = 0%nat.
Proof.
  intros Hnone. unfold known, members_with, is_disposition. rewrite filter_none; [done|].
  intros m _ Hd%bool_decide_unpack. revert Hd. unfold member_disposition. rewrite Hnone.
  rewrite bool_decide_eq_false_2 by set_solver.
  destruct m; simpl; [destruct (ds !! _) as [c|]|destruct (ws !! _) as [c|]]; try done;
    unfold delegation_disposition, invocation_disposition; repeat case_match; done.
Qed.

(** *** The evaluation in terms of the counts *)

Lemma evaluate_cases cell ds ws now :
  FanInCell.awaiting cell = true →
  match evaluate_fan_in cell ds ws now with
  | Some r =>
      (∀ final, completion cell ds ws final →
         policy_holds (FanInCell.policy cell) final (btree_elements (FanInCell.members cell)) =
         Resolution.satisfied r) ∧
      (FanInCell.timed_out cell = ∅ →
       Resolution.code r = decision_code (FanInCell.policy cell) (Resolution.satisfied r))
  | None =>
      known cell ds ws Disposition.Unresolved ≠ 0%nat ∧
      (FanInCell.policy cell ≠ Policy.All →
       ∀ b, ∃ final, completion cell ds ws final ∧
         policy_holds (FanInCell.policy cell) final (btree_elements (FanInCell.members cell)) = b)
  end.
Proof.
  intros Hawait. unfold evaluate_fan_in. rewrite Hawait, <- length_btree_elements. cbn [negb].
  fold (known cell ds ws Disposition.Succeeded) (known cell ds ws Disposition.Unresolved)
    (known cell ds ws Disposition.TimedOut).
  pose proof (completion_bounds cell ds ws) as Hb. pose proof (known_total cell ds ws) as Ht.
  pose proof (known_timed_out cell ds ws) as Hto.
  destruct (FanInCell.policy cell) as [| |n]; simpl.
  - destruct (Nat.ltb_spec 0 (known cell ds ws Disposition.Unresolved)); [split; [lia|done]|].
    simpl. split.
    + intros final Hf%Hb. apply eq_true_iff_eq. rewrite !Nat.eqb_eq. lia.
    + intros ->%Hto. simpl. by destruct (_ =? _)%nat.
  - destruct (Nat.eqb_spec (known cell ds ws Disposition.Succeeded) 0) as [H0|H0]; simpl.
    + destruct (Nat.ltb_spec 0 (known cell ds ws Disposition.Unresolved)); simpl; [split; [lia|]|split].
      * intros _ []; [exists (at_best cell ds ws)|exists (at_worst cell ds ws)];
          (split; [by apply at_best_completion || by apply at_worst_completion|]).
        -- rewrite successes_at_best. apply negb_true_iff, Nat.eqb_neq. lia.
        -- rewrite successes_at_worst. by apply negb_false_iff, Nat.eqb_eq.
      * intros final Hf%Hb. apply negb_false_iff, Nat.eqb_eq. lia.
      * by intros ->%Hto.
    + split; [|done]. intros final Hf%Hb. apply negb_true_iff, Nat.eqb_neq. lia.
  - destruct (Nat.leb_spec (Z.to_nat n) (known cell ds ws Disposition.Succeeded)); simpl.
    { split; [|done]. intros final Hf%Hb. apply Nat.leb_le. lia. }
    destruct (Nat.leb_spec (Z.to_nat n)
      (known cell ds ws Disposition.Succeeded + known cell ds ws Disposition.Unresolved)); simpl.
    + split; [lia|]. intros _ []; [exists (at_best cell ds ws)|exists (at_worst cell ds ws)];
        (split; [by apply at_best_completion || by apply at_worst_completion|]).
      * rewrite successes_at_best. by apply Nat.leb_le.
      * rewrite successes_at_worst. by apply Nat.leb_gt.
    + split; [|by intros ->%Hto]. intros final Hf%Hb. apply Nat.leb_gt. lia.
Qed.

(** Under All the value is open while nothing failed and something is missing. *)
Lemma all_open cell ds ws b :
  known cell ds ws Disposition.Unresolved ≠ 0%nat →
  (∀ m, m ∈ FanInCell.members cell → member_disposition cell m ds ws = Disposition.Succeeded ∨
     member_disposition cell m ds ws = Disposition.Unresolved) →
  ∃ final, completion cell ds ws final ∧ policy_holds Policy.All final (btree_elements (FanInCell.members cell)) = b.
Proof.
  intros Hn Hall. pose proof (known_total cell ds ws).
  destruct b; [exists (at_best cell ds ws)|exists (at_worst cell ds ws)]; simpl.
  - split; [apply at_best_completion|]. apply Nat.eqb_eq. unfold successes. rewrite filter_all; [done|].
    intros m Hm%elem_of_btree_elements. unfold at_best. by destruct (Hall m Hm) as [-> | ->].
  - split; [apply at_worst_completion|]. apply Nat.eqb_neq. rewrite successes_at_worst. lia.
Qed.
End reference.

(** ** Runs *)

Section runs.
Context {Value : Type}.
Implicit Types s : Children.t Value.

(** What can happen to the children of a run.  [WoundDown]: the run is cancelled or another of
    its effects failed, and these unsent effects are fenced.  [SendCancelled] and
    [StartCancelled]: the dispatch layer settled an effect of a run that is winding down
    without invoking it; it does so for no other run. *)
Inductive child_event :=
| TurnCommitted (policy : Policy.t) (turn : Z) (calls : list (planned_call Value))
| SendSucceeded (receipt : AgentA2aSendReceipt.t)
| SendFailed (effect : AgentEffectId.t) (code : string) (reason : option AgentFailureReason.t)
| StartSucceeded (invocation : AgentWorkflowInvocationId.t) (child_run : WorkflowRunId.t) (adopted : bool)
| StartFailed (effect : AgentEffectId.t) (code : string)
| ChildReported (tenant : TenantId.t) (initiator : AgentEntityAddress.t) (report : AgentDelegationReport)
| WorkflowReported (invocation : AgentWorkflowInvocationId.t) (child_run : WorkflowRunId.t)
    (status : AgentWorkflowTerminalStatus.t) (terminal_reason : option string)
    (result_ref : option CompiledPlan.ArtifactRef.t) (result_digest : option AgentContentDigest.t)
| DeadlineFired
| WoundDown (fenced_sends fenced_starts : list AgentEffectId.t)
| SendCancelled (effect : AgentEffectId.t)
| StartCancelled (effect : AgentEffectId.t).

Definition apply_child_event (winding_down : bool) s (event : AgentTimestampMillis * child_event) : Children.t Value :=
  let '(now, event) := event in
  match event with
  | TurnCommitted policy turn calls => commit_turn policy turn calls now s
  | SendSucceeded receipt => send_succeeded receipt now s
  | SendFailed effect code reason => send_failed winding_down effect code reason now s
  | StartSucceeded invocation child_run adopted => start_succeeded invocation child_run adopted now s
  | StartFailed effect code => start_failed winding_down effect code now s
  | ChildReported tenant initiator report => (accept_delegation_result tenant initiator report now s).1
  | WorkflowReported invocation child_run status terminal_reason result_ref result_digest =>
      (record_workflow_result invocation child_run status terminal_reason result_ref result_digest now s).1
  | DeadlineFired => fire_fan_in_deadline now s
  | WoundDown fenced_sends fenced_starts => fence_unsent_effects fenced_sends fenced_starts now s
  | SendCancelled effect => if winding_down then send_cancelled now s effect else s
  | StartCancelled effect => if winding_down then start_cancelled now s effect else s
  end.

(** Whether the event winds the run down. *)
Definition winds_down s (event : child_event) : bool :=
  match event with
  | SendFailed effect _ _ => negb (send_in_group s effect)
  | StartFailed effect _ => negb (start_in_group s effect)
  | WoundDown _ _ => true
  | _ => false
  end.

(** Whether the run is winding down, and its children. *)
Definition run_children : Type := bool * Children.t Value.

Definition run_event (r : run_children) (event : AgentTimestampMillis * child_event) : run_children :=
  (r.1 || winds_down r.2 event.2, apply_child_event r.1 r.2 event).

Definition child_run (r : run_children) (events : list (AgentTimestampMillis * child_event)) : run_children :=
  foldl run_event r events.

Definition new_run : run_children := (false, Children.new).

(** *** The invariant *)

Definition undecided s : Prop :=
  ∀ g now, Children.fan_in s = Some g →
  evaluate_fan_in g (Children.delegations s) (Children.workflow_invocations s) now = None.

Definition pending_unreported s : Prop :=
  ∀ id c, Children.delegations s !! id = Some c →
  DelegationCell.status c = DelegationStatus.Pending → DelegationCell.result c = None.

Record children_ok s : Prop := {
  children_undecided : undecided s;
  children_pending : pending_unreported s;
}.

Lemma evaluate_not_awaiting g (ds : DelegationCells Value) ws now :
  FanInCell.awaiting g = false → evaluate_fan_in g ds ws now = None.
Proof. intros H. unfold evaluate_fan_in. by rewrite H. Qed.

Lemma evaluate_any_time g (ds : DelegationCells Value) ws now now' :
  evaluate_fan_in g ds ws now = None → evaluate_fan_in g ds ws now' = None.
Proof. unfold evaluate_fan_in. by repeat case_match. Qed.

Lemma evaluate_ext g (ds ds' : DelegationCells Value) ws ws' now :
  (∀ m, m ∈ FanInCell.members g → member_disposition g m ds ws = member_disposition g m ds' ws') →
  evaluate_fan_in g ds ws now = evaluate_fan_in g ds' ws' now.
Proof.
  intros Hext. unfold evaluate_fan_in.
  assert (∀ p, members_with p g ds ws = members_with p g ds' ws') as Hm.
  { intros p. apply filter_ext_elem. intros m Hm%elem_of_btree_elements. by rewrite Hext. }
  by rewrite !Hm.
Qed.

Lemma try_resolve_cases s now :
  try_resolve s now = s ∧ undecided s ∨
  ∃ g r, Children.fan_in s = Some g ∧ FanInCell.awaiting g = true ∧
    evaluate_fan_in g (Children.delegations s) (Children.workflow_invocations s) now = Some r ∧
    try_resolve s now = Children.set_fan_in s (Some (FanInCell.set_resolution g r)).
Proof.
  unfold try_resolve, try_resolve_fan_in. destruct (Children.fan_in s) as [g|] eqn:Hg.
  2:{ left. split; [done|]. intros g now'. by rewrite Hg. }
  destruct (evaluate_fan_in _ _ _ _) as [r|] eqn:Hr.
  - right. exists g, r. assert (FanInCell.awaiting g = true) as Ha.
    { destruct (FanInCell.awaiting g) eqn:Ha; [done|]. by rewrite evaluate_not_awaiting in Hr. }
    split_and!; [done..|]. simpl. unfold Children.resolve_fan_in. rewrite Hg.
    unfold FanInCell.awaiting in Ha. by destruct (FanInCell.resolution g), (FanInCell.closed g).
  - left. split; [done|]. intros g' now' Hg'. rewrite Hg in Hg'. simplify_eq. by eapply evaluate_any_time.
Qed.

Lemma try_resolve_ok s now : pending_unreported s → children_ok (try_resolve s now).
Proof.
  intros Hp. destruct (try_resolve_cases s now) as [[-> Hu]|(g & r & Hg & _ & _ & ->)]; [by split|].
  split; [|done]. intros g' now' [= <-]. apply evaluate_not_awaiting.
  unfold FanInCell.awaiting; simpl. apply andb_false_r.
Qed.

Lemma pending_insert s id c :
  pending_unreported s →
  (DelegationCell.status c = DelegationStatus.Pending → DelegationCell.result c = None) →
  pending_unreported (Children.set_delegations s (<[id := c]> (Children.delegations s))).
Proof. intros Hs Hc id' c'. simpl. intros [[-> ->]|[_ ?]]%lookup_insert_Some; [done|by eapply Hs]. Qed.

(** *** Settlements *)

Lemma settle_pending_result (c : DelegationCell.t Value) outcome now :
  DelegationStatus.is_settled outcome = true →
  DelegationCell.status (DelegationCell.settle c outcome now) = DelegationStatus.Pending →
  DelegationCell.result (DelegationCell.settle c outcome now) = None.
Proof.
  unfold DelegationCell.settle. destruct (DelegationCell.status c) eqn:E; simpl; intros Ho Hp; [by subst|congruence..].
Qed.

Lemma record_result_pending (c : DelegationCell.t Value) r :
  DelegationCell.status c ≠ DelegationStatus.Pending →
  DelegationCell.status (DelegationCell.record_child_result c r) ≠ DelegationStatus.Pending.
Proof. unfold DelegationCell.record_child_result. by destruct (DelegationCell.result c). Qed.

(** A cell outside the group, or one whose disposition stays, changes no decision. *)
Lemma delegation_update_undecided s id c c' :
  undecided s → Children.delegations s !! id = Some c →
  (in_group s (Member.Delegation id) = true → delegation_disposition c' = delegation_disposition c) →
  undecided (Children.set_delegations s (<[id := c']> (Children.delegations s))).
Proof.
  intros Hu Hc Hd g now Hg. simpl in Hg. rewrite <- (Hu g now Hg). simpl. apply evaluate_ext.
  intros m Hm. unfold member_disposition. destruct m as [d|i]; [|done].
  destruct (decide (d = id)) as [->|?]; [|by rewrite lookup_insert_ne].
  rewrite lookup_insert, Hc, decide_True by done. case_bool_decide; [done|]. apply Hd. unfold in_group. rewrite Hg.
  by apply bool_decide_eq_true.
Qed.

Lemma invocation_update_undecided s id c' :
  undecided s → in_group s (Member.WorkflowInvocation id) = false →
  undecided (Children.set_workflow_invocations s (<[id := c']> (Children.workflow_invocations s))).
Proof.
  intros Hu Hout g now Hg. simpl in Hg. rewrite <- (Hu g now Hg). simpl. apply evaluate_ext.
  intros m Hm. unfold member_disposition. destruct m as [d|i]; [done|].
  rewrite lookup_insert_ne; [done|]. intros <-. unfold in_group in Hout. rewrite Hg in Hout.
  by apply bool_decide_eq_false in Hout.
Qed.

(** *** Every event keeps the invariant *)

Lemma join_pending s policy m turn now :
  pending_unreported s → pending_unreported (Children.join_fan_in s policy m turn now).
Proof. unfold Children.join_fan_in. by repeat case_match. Qed.

Lemma commit_call_pending policy turn now s call :
  pending_unreported s → pending_unreported (commit_call policy turn now s call).
Proof.
  intros Hs. destruct call as [d|i|c deadline]; simpl.
  - apply join_pending. unfold Children.record_delegation. case_match; [done|]. by apply pending_insert.
  - apply join_pending. unfold Children.record_workflow_invocation. by case_match.
  - unfold Children.close_fan_in. by repeat case_match.
Qed.

Lemma commit_turn_ok policy turn calls now s :
  pending_unreported s → children_ok (commit_turn policy turn calls now s).
Proof.
  intros Hs. apply try_resolve_ok. revert s Hs.
  induction calls as [|c calls IH]; intros s Hs; [done|]. simpl. by apply IH, commit_call_pending.
Qed.

Lemma send_succeeded_ok receipt now s : children_ok s → children_ok (send_succeeded receipt now s).
Proof.
  intros [Hu Hp]. unfold send_succeeded. destruct (_ !! _) as [c|] eqn:Hc; [|done]. split.
  - eapply delegation_update_undecided; [done..|]. intros _.
    unfold DelegationCell.settle_child_created, DelegationCell.settle, delegation_disposition.
    destruct (DelegationCell.status c) eqn:Hst; simpl; rewrite ?Hst; try done.
    by rewrite (Hp _ _ Hc Hst).
  - apply pending_insert; [done|]. by apply settle_pending_result.
Qed.

(** A failed send or start: settled, and the group evaluated when the child is a member. *)
Lemma settled_ok s id c c' now :
  children_ok s → Children.delegations s !! id = Some c →
  (DelegationCell.status c' = DelegationStatus.Pending → DelegationCell.result c' = None) →
  let s' := Children.set_delegations s (<[id := c']> (Children.delegations s)) in
  children_ok (if in_group s' (Member.Delegation id) then try_resolve s' now else s').
Proof.
  intros [Hu Hp] Hc Hc' s'. assert (pending_unreported s') as Hp' by by apply pending_insert.
  destruct (in_group s' _) eqn:Hin; [by apply try_resolve_ok|]. split; [|done].
  eapply delegation_update_undecided; [done..|]. intros Hin'. unfold in_group in *. simpl in Hin. congruence.
Qed.

Lemma held_delegation_Some s effect id c :
  held_delegation s effect = Some (id, c) → Children.delegations s !! id = Some c.
Proof. by intros (Hin%elem_of_btree_entries & _)%find_first_Some. Qed.

Lemma send_failed_ok effect code reason now s :
  children_ok s → children_ok (send_failed false effect code reason now s).
Proof.
  intros Hs. unfold send_failed. destruct (held_delegation _ _) as [[id c]|] eqn:Hf; [|done].
  apply held_delegation_Some in Hf.
  eapply settled_ok; [done..|]. destruct (bool_decide _); by apply settle_pending_result.
Qed.

Lemma start_failed_ok effect code now s :
  children_ok s → children_ok (start_failed false effect code now s).
Proof.
  intros [Hu Hp]. unfold start_failed. destruct (held_invocation _ _) as [[id c]|] eqn:Hf; [|done]. cbn [negb andb].
  destruct (in_group _ _) eqn:Hin; [by apply try_resolve_ok|]. split; [|done].
  by apply invocation_update_undecided.
Qed.

Lemma child_reported_cases tenant initiator report now s :
  pending_unreported s →
  (accept_delegation_result tenant initiator report now s).1 = s ∨
  children_ok (accept_delegation_result tenant initiator report now s).1.
Proof.
  intros Hp. unfold accept_delegation_result.
  destruct (report_refusal _ _ _ _) eqn:Hr; [by left|].
  destruct (_ !! _) as [c|] eqn:Hc; [|by left]. destruct (DelegationCell.child_settled c); [by left|]. right. simpl.
  apply try_resolve_ok, pending_insert; [done|]. intros Hst. exfalso. revert Hst.
  apply record_result_pending. intros Hst. unfold report_refusal in Hr. rewrite Hc, Hst in Hr.
  by repeat case_match.
Qed.

Lemma child_reported_ok tenant initiator report now s :
  children_ok s → children_ok (accept_delegation_result tenant initiator report now s).1.
Proof. intros Hs. by destruct (child_reported_cases tenant initiator report now s (children_pending _ Hs)) as [-> |]. Qed.

Lemma child_reported_pending tenant initiator report now s :
  pending_unreported s → pending_unreported (accept_delegation_result tenant initiator report now s).1.
Proof. intros Hs. by destruct (child_reported_cases tenant initiator report now s Hs) as [-> |[]]. Qed.

Lemma apply_child_event_ok s event :
  winds_down s event.2 = false → children_ok s → children_ok (apply_child_event false s event).
Proof.
  intros Hno Hs. destruct event as [now []]; simpl.
  - apply commit_turn_ok, Hs.
  - by apply send_succeeded_ok.
  - by apply send_failed_ok.
  - unfold start_succeeded. destruct (_ !! _); [|done]. apply try_resolve_ok, Hs.
  - by apply start_failed_ok.
  - by apply child_reported_ok.
  - unfold record_workflow_result. repeat case_match; try done; apply try_resolve_ok, Hs.
  - unfold fire_fan_in_deadline. repeat case_match; try done; apply try_resolve_ok, Hs.
  - done.
  - done.
  - done.
Qed.

(** *** A run that winds down *)

Lemma send_cancelled_pending now s effect : pending_unreported s → pending_unreported (send_cancelled now s effect).
Proof.
  intros Hs. unfold send_cancelled. destruct (held_delegation _ _) as [[id c]|]; [|done].
  apply pending_insert; [done|]. by apply settle_pending_result.
Qed.

Lemma start_cancelled_delegations now s effect :
  Children.delegations (start_cancelled now s effect) = Children.delegations s.
Proof. unfold start_cancelled. by destruct (held_invocation _ _) as [[]|]. Qed.

Lemma fence_pending sends starts now s :
  pending_unreported s → pending_unreported (fence_unsent_effects sends starts now s).
Proof.
  intros Hs. unfold fence_unsent_effects.
  assert (pending_unreported (foldl (send_cancelled now) s sends)) as H1.
  { revert s Hs. induction sends as [|e sends IH]; intros s Hs; [done|]. simpl. by apply IH, send_cancelled_pending. }
  revert H1. generalize (foldl (send_cancelled now) s sends). induction starts as [|e starts IH]; intros s1 H1; [done|].
  simpl. apply IH. unfold pending_unreported. by rewrite start_cancelled_delegations.
Qed.

Lemma try_resolve_pending s now : pending_unreported s → pending_unreported (try_resolve s now).
Proof. intros Hs. by apply try_resolve_ok. Qed.

Lemma apply_child_event_pending winding_down s event :
  pending_unreported s → pending_unreported (apply_child_event winding_down s event).
Proof.
  intros Hs. destruct event as [now []]; simpl.
  - by apply commit_turn_ok.
  - unfold send_succeeded. destruct (_ !! _); [|done]. apply pending_insert; [done|]. by apply settle_pending_result.
  - unfold send_failed. destruct (held_delegation _ _) as [[id c]|]; [|done].
    assert (∀ c', c' = (if bool_decide (code = "delegation-child-conflict" ∨ code = "delegation-child-mismatch")
        then DelegationCell.settle_conflicted c code now
        else DelegationCell.settle_failed_because c (bounded_detail code) reason now) →
      pending_unreported (Children.set_delegations s (<[id := c']> (Children.delegations s)))) as Hins.
    { intros c' ->. apply pending_insert; [done|]. destruct (bool_decide _); by apply settle_pending_result. }
    destruct (_ && _); [apply try_resolve_pending|]; by apply Hins.
  - unfold start_succeeded. destruct (_ !! _); [|done]. by apply try_resolve_pending.
  - unfold start_failed. destruct (held_invocation _ _) as [[id c]|]; [|done].
    destruct (_ && _); [by apply try_resolve_pending|done].
  - by apply child_reported_pending.
  - unfold record_workflow_result. repeat case_match; try done; by apply try_resolve_pending.
  - unfold fire_fan_in_deadline. repeat case_match; try done; by apply try_resolve_pending.
  - by apply fence_pending.
  - destruct winding_down; [by apply send_cancelled_pending|done].
  - destruct winding_down; [|done]. unfold pending_unreported. by rewrite start_cancelled_delegations.
Qed.

(** The invariant of a run: the group is undecided while the run does not wind down. *)
Definition run_ok (r : run_children) : Prop :=
  pending_unreported r.2 ∧ (r.1 = false → undecided r.2).

Lemma run_event_ok r event : run_ok r → run_ok (run_event r event).
Proof.
  intros [Hp Hu]. split; [by apply apply_child_event_pending|]. simpl. intros [Hw Hno]%orb_false_iff. rewrite Hw.
  by apply apply_child_event_ok; [|split; auto].
Qed.

Lemma child_run_ok r events : run_ok r → run_ok (child_run r events).
Proof.
  revert r. induction events as [|e events IH]; intros r Hr; [done|]. simpl. by apply IH, run_event_ok.
Qed.

Lemma new_run_ok : run_ok new_run.
Proof. split; [by intros ??|by intros _ ??]. Qed.

(** *** The end of a wait *)

Lemma evaluate_settled g (ds : DelegationCells Value) ws now :
  FanInCell.awaiting g = true → known g ds ws Disposition.Unresolved = 0%nat →
  is_Some (evaluate_fan_in g ds ws now).
Proof.
  intros Ha Hu. pose proof (evaluate_cases g ds ws now Ha) as Hc.
  destruct (evaluate_fan_in _ _ _ _); [by eexists|]. by destruct Hc as [? _].
Qed.

Lemma marked_settled g (ds : DelegationCells Value) ws :
  known (FanInCell.mark_timed_out g (unresolved_members g ds ws)) ds ws Disposition.Unresolved = 0%nat.
Proof.
  apply known_unresolved. simpl. intros m Hm Hd. unfold member_disposition in Hd. simpl in Hd.
  case_bool_decide as Hto; [done|]. apply Hto, elem_of_union_l, elem_of_list_to_set.
  apply list_elem_of_filter. split; [|by apply elem_of_btree_elements].
  unfold is_disposition, member_disposition. rewrite (bool_decide_eq_false_2 (m ∈ FanInCell.timed_out g)).
  - by apply bool_decide_pack.
  - intros Hin. by apply Hto, elem_of_union_r.
Qed.

Lemma deadline_ends_wait s g deadline now :
  Children.fan_in s = Some g → FanInCell.deadline g = Some deadline → deadline <= now →
  Children.awaits_fan_in (fire_fan_in_deadline now s) = false.
Proof.
  intros Hg Hd Hnow. unfold fire_fan_in_deadline. rewrite Hg.
  destruct (FanInCell.awaiting g) eqn:Ha; simpl.
  2:{ unfold Children.awaits_fan_in. by rewrite Hg. }
  rewrite Hd, (proj2 (Z.ltb_ge now deadline)) by done.
  set (g' := FanInCell.mark_timed_out g _).
  destruct (try_resolve_cases (Children.set_fan_in s (Some g')) now) as [[_ Hu]|(g2 & r & _ & _ & _ & ->)].
  - destruct (evaluate_settled g' (Children.delegations s) (Children.workflow_invocations s) now)
      as [r Hr]; [done|apply marked_settled|].
    specialize (Hu _ now eq_refl). simpl in Hu. congruence.
  - unfold Children.awaits_fan_in. simpl. unfold FanInCell.awaiting. simpl. apply andb_false_r.
Qed.

(** *** A resolved group *)

Definition resolved_group s (g : FanInCell.t) : Prop :=
  Children.fan_in s = Some g ∧ is_Some (FanInCell.resolution g).

(** Only a turn that commits a child can replace the group. *)
Definition commits_no_child (event : AgentTimestampMillis * child_event) : bool :=
  match event.2 with
  | TurnCommitted _ _ calls => forallb (fun c => match c with AwaitFanIn _ _ => true | _ => false end) calls
  | _ => true
  end.

Lemma try_resolve_final s g now : resolved_group s g → resolved_group (try_resolve s now) g.
Proof.
  intros [Hg [r Hr]]. destruct (try_resolve_cases s now) as [[-> _]|(g' & r' & Hg' & Ha & _)]; [by split|].
  rewrite Hg in Hg'. simplify_eq. unfold FanInCell.awaiting in Ha. rewrite Hr in Ha.
  by rewrite andb_false_r in Ha.
Qed.

Lemma commit_awaits_final policy turn now calls s g :
  forallb (fun c => match c with AwaitFanIn _ _ => true | _ => false end) calls = true →
  resolved_group s g → foldl (commit_call policy turn now) s calls = s.
Proof.
  intros Hall [Hg [r Hr]]. induction calls as [|c calls IH]; [done|].
  apply andb_true_iff in Hall as [Hc Hall]. destruct c as [| |call deadline]; try done. simpl.
  unfold Children.close_fan_in. rewrite Hg, Hr. by apply IH.
Qed.

Lemma fence_fan_in sends starts now s :
  Children.fan_in (fence_unsent_effects sends starts now s) = Children.fan_in s.
Proof.
  unfold fence_unsent_effects. revert s. induction sends as [|e sends IH]; intros s; simpl.
  - revert s. induction starts as [|e starts IH]; intros s; [done|]. simpl. rewrite IH.
    unfold start_cancelled. by destruct (held_invocation _ _) as [[]|].
  - rewrite IH. unfold send_cancelled. by destruct (held_delegation _ _) as [[]|].
Qed.

Lemma child_event_final winding_down s g event :
  commits_no_child event = true → resolved_group s g → resolved_group (apply_child_event winding_down s event) g.
Proof.
  intros Hno Hg. destruct event as [now e]. destruct e; simpl in *.
  - apply try_resolve_final. by erewrite commit_awaits_final.
  - unfold send_succeeded. by case_match.
  - unfold send_failed. case_match; [|done]. case_match. case_match; [by apply try_resolve_final|done].
  - unfold start_succeeded. case_match; [|done]. by apply try_resolve_final.
  - unfold start_failed. case_match; [|done]. case_match. case_match; [by apply try_resolve_final|done].
  - unfold accept_delegation_result. repeat case_match; try done; by apply try_resolve_final.
  - unfold record_workflow_result. repeat case_match; try done; by apply try_resolve_final.
  - unfold fire_fan_in_deadline. destruct Hg as [Hg [r Hr]]. rewrite Hg. unfold FanInCell.awaiting.
    rewrite Hr, andb_false_r. by split.
  - destruct Hg as [Hg Hr]. split; [|done]. by rewrite fence_fan_in.
  - destruct winding_down; [|done]. unfold send_cancelled. by destruct (held_delegation _ _) as [[]|].
  - destruct winding_down; [|done]. unfold start_cancelled. by destruct (held_invocation _ _) as [[]|].
Qed.

End runs.
Arguments child_event : clear implicits.

(** ** A small group *)

Module Children_demo.
Definition scope : AgentRunScope.t :=
  AgentRunScope.mk (TenantId.new "acme") (AgentId.Self "lead") (AgentRunId.Self "run-1").
Definition task (name : string) : AgentTaskId.t := AgentTaskId.Self name.
Definition delegation (name : string) : AgentDelegationId.t := AgentDelegationId.Self ("delegation-" +:+ name).
Definition telemetry : AgentTelemetryContext.t := AgentTelemetryContext.mk None None ∅ [].

Definition record (name : string) : DelegationRecord.t unit :=
  DelegationRecord.mk (delegation name) None (task "root") scope [] [] 1 (AgentCapabilityId.Self "search")
    (Target.new (AgentId.Self name) (AgentTaskDefinitionId.Self "lookup"))
    ("delegation-" +:+ name) ("delegation-" +:+ name) 1 0 (AgentEffectId.new name) (AgentToolCallId.Self name)
    (AgentTaskContent.Inline tt) None None None None ∅ ∅ AgentRevisionNumber.INITIAL
    AgentRevisionNumber.INITIAL telemetry 10.

Definition receipt (name : string) : AgentA2aSendReceipt.t :=
  AgentA2aSendReceipt.mk (delegation name) (task name) None "working".

Definition report (name : string) (status : AgentTaskStatus.t) : child_event unit :=
  ChildReported (TenantId.new "acme")
    (AgentEntityAddress.Task (AgentTaskScope.mk (TenantId.new "acme") (task name)))
    (DelegationReport (delegation name) (task name) None status None None 0).

(** Three searches, a quorum of two, and a deadline at 100. *)
Definition await : child_event unit :=
  TurnCommitted (Policy.Quorum 2) 1
    [A2aSend (record "a"); A2aSend (record "b"); A2aSend (record "c");
     AwaitFanIn (AgentToolCallId.Self "await") (Some 100)].

Definition one_success : list (AgentTimestampMillis * child_event unit) :=
  [(10, await); (11, SendSucceeded (receipt "a")); (12, SendSucceeded (receipt "b"));
   (13, SendFailed (AgentEffectId.new "c") "refused" None); (14, report "a" AgentTaskStatus.Completed)].

Definition group (s : Children.t unit) : FanInCell.t :=
  default (FanInCell.opened Policy.All (Member.Delegation (delegation "none")) 0 0) (Children.fan_in s).

Definition waiting : Children.t unit := (child_run new_run one_success).2.
Definition decided : Children.t unit :=
  (child_run new_run (one_success ++ [(15, report "b" AgentTaskStatus.Failed)])).2.
End Children_demo.

(** ** Theorems *)

(** C14. The evaluation of a closed group is exact.  When it resolves, every way the members
    that have not reported could still end gives the policy the value it recorded, and
    unless a deadline took part the code is determined by policy and value: neither depends
    on the order of arrival.  When it does not resolve some member has not reported, and
    under Any and Quorum both values are still possible: it never waits too long. *)
Theorem fan_in_evaluation_exact {Value} (cell : FanInCell.t) (ds : DelegationCells Value)
    (ws : InvocationCells Value) (now : AgentTimestampMillis) (Hawait : FanInCell.awaiting cell = true) :
  let holds final := policy_holds (FanInCell.policy cell) final (btree_elements (FanInCell.members cell)) in
  match evaluate_fan_in cell ds ws now with
  | Some r =>
      (∀ final, completion cell ds ws final → holds final = Resolution.satisfied r) ∧
      (FanInCell.timed_out cell = ∅ →
       Resolution.code r = decision_code (FanInCell.policy cell) (Resolution.satisfied r))
  | None =>
      unresolved_members cell ds ws ≠ [] ∧
      (FanInCell.policy cell ≠ Policy.All → ∀ b, ∃ final, completion cell ds ws final ∧ holds final = b)
  end.
Proof.
  pose proof (evaluate_cases cell ds ws now Hawait) as H. simpl. destruct (evaluate_fan_in _ _ _ _); [done|].
  destruct H as [Hu Hopen]. split; [|done]. intros Hnil. apply Hu. by rewrite known_unresolved_members, Hnil.
Qed.

Lemma fan_in_evaluation_exact_witness :
  let s := Children_demo.waiting in
  let g := Children_demo.group s in
  evaluate_fan_in g (Children.delegations s) (Children.workflow_invocations s) 15 = None ∧
  unresolved_members g (Children.delegations s) (Children.workflow_invocations s) ≠ [].
Proof.
  intros s g.
  assert (evaluate_fan_in g (Children.delegations s) (Children.workflow_invocations s) 15 = None) as Hn
    by (vm_compute; reflexivity).
  assert (FanInCell.awaiting g = true) as Ha by (vm_compute; reflexivity).
  pose proof (fan_in_evaluation_exact g (Children.delegations s) (Children.workflow_invocations s) 15 Ha) as H.
  rewrite Hn in H. split; [done|apply H].
Defined.

(** C36. No wait outlives its reason.  After every sequence of turns, outcomes, reports,
    deadlines and wind-downs, in any order, take a group that is still awaited in a run that is
    not winding down.  It has a member that has not reported, and under Any and Quorum its
    decision is open: whatever decides it also resolves it, although a settled send does not
    evaluate the group.  Under All, which waits for the last member whatever the others
    reported, the decision is open unless a member has failed already.  In every run, winding
    down or not, a deadline that fires when due ends the wait. *)
Theorem fan_in_wait_ends {Value} (events : list (AgentTimestampMillis * child_event Value)) (g : FanInCell.t)
    (Hg : Children.fan_in (child_run new_run events).2 = Some g) :
  let '(winding_down, s) := child_run new_run events in
  let disposition m := member_disposition g m (Children.delegations s) (Children.workflow_invocations s) in
  let holds final := policy_holds (FanInCell.policy g) final (btree_elements (FanInCell.members g)) in
  (winding_down = false → FanInCell.awaiting g = true →
   unresolved_members g (Children.delegations s) (Children.workflow_invocations s) ≠ [] ∧
   ((FanInCell.policy g = Policy.All →
       ∀ m, m ∈ FanInCell.members g → disposition m = Disposition.Succeeded ∨ disposition m = Disposition.Unresolved) →
    ∀ b, ∃ final, completion g (Children.delegations s) (Children.workflow_invocations s) final ∧ holds final = b)) ∧
  (∀ deadline now, FanInCell.deadline g = Some deadline → deadline <= now →
   Children.awaits_fan_in (fire_fan_in_deadline now s) = false).
Proof.
  pose proof (child_run_ok _ events (new_run_ok (Value := Value))) as [_ Hu].
  destruct (child_run new_run events) as [winding_down s]. simpl in *.
  split; [|by intros; eapply deadline_ends_wait]. intros Hw Ha.
  pose proof (evaluate_cases g (Children.delegations s) (Children.workflow_invocations s) 0 Ha) as H.
  rewrite (Hu Hw g 0 Hg) in H. destruct H as [Hn Ho].
  split; [intros Hnil; apply Hn; by rewrite known_unresolved_members, Hnil|].
  intros Hall. destruct (decide (FanInCell.policy g = Policy.All)) as [Hp|Hp]; [|by apply Ho].
  intros b. rewrite Hp. apply all_open; [done|]. by apply Hall.
Qed.

Lemma fan_in_wait_ends_witness :
  Children.awaits_fan_in Children_demo.waiting = true ∧
  Children.awaits_fan_in (fire_fan_in_deadline 100 Children_demo.waiting) = false.
Proof.
  split; [vm_compute; reflexivity|].
  eapply (fan_in_wait_ends Children_demo.one_success (Children_demo.group Children_demo.waiting)
           ltac:(vm_compute; reflexivity)) with (deadline := 100); [vm_compute; reflexivity|lia].
Defined.

(** A resolution is absorbing: whatever outcomes, reports and deadlines follow it, late
    children included, the group keeps its policy, members and resolution until a turn
    commits a new child. *)
Theorem resolutions_are_final {Value} (winding_down : bool) (s : Children.t Value) (g : FanInCell.t) (r : Resolution.t)
    (events : list (AgentTimestampMillis * child_event Value))
    (Hg : Children.fan_in s = Some g) (Hr : FanInCell.resolution g = Some r)
    (Hevents : Forall (fun e => commits_no_child e = true) events) :
  Children.fan_in (child_run (winding_down, s) events).2 = Some g.
Proof.
  assert (resolved_group s g) as Hs by by split; [|eexists].
  clear Hg. revert winding_down s Hs. induction Hevents as [|e events He _ IH]; intros winding_down s Hs; [apply Hs|].
  simpl. by apply IH, child_event_final.
Qed.

Lemma resolutions_are_final_witness :
  Resolution.code <$> (Children.fan_in Children_demo.decided ≫= FanInCell.resolution) = Some UNSATISFIABLE ∧
  Children.fan_in (child_run (false, Children_demo.decided) [(100, DeadlineFired)]).2 =
    Some (Children_demo.group Children_demo.decided).
Proof.
  split; [vm_compute; reflexivity|].
  apply (resolutions_are_final false Children_demo.decided _ (Resolution.mk false [] UNSATISFIABLE 15));
    [vm_compute; reflexivity..|]. by apply List.Forall_cons.
Defined.
