(* ===== verification/DelegationDoor.v ===== *)
(** * The delegation door

    How one delegation passes from a parent run to its child task: the ceilings and the
    plan of [run.rs], the envelope of [collaboration.rs] that carries it, and what
    [create_task] and [delegation_envelope_for] of [task.rs] make of it.  A message that
    goes with a refusal is given by the error it reports. *)

From stdpp Require Import pretty.
From S2P Require Import Prelude AgentIdentity CompiledPlan Budget Delegation FanIn.

(** ** Ceilings: [run.rs] *)

Module DelegationCeilings.
Record t := mk {
  held : nat;
  fan_out_spent : Z;
  active_children : Z;
  descendants_limit : option Z;
  descendants_spent : option Z;
}.

(** The snapshot of a turn. *)
Definition of_loop {Value} (s : Children.t Value) (descendants_limit : option Z) : t :=
  mk (Children.delegation_count s) (Children.delegation_fan_out_spent s)
    (Children.delegation_active_children s) descendants_limit (Children.delegation_descendants_spent s).

Definition commit (self : t) (granted_descendants : option Z) : t :=
  mk (S (held self)) (saturating_add_u64 (fan_out_spent self) 1) (saturating_add_u64 (active_children self) 1)
    (descendants_limit self)
    ((fun spent => saturating_add_u64 (saturating_add_u64 spent 1) (default 0 granted_descendants))
     <$> descendants_spent self).
End DelegationCeilings.
Module Ceilings := DelegationCeilings.

Definition earliest_deadline (a b : option AgentTimestampMillis) : option AgentTimestampMillis :=
  match a, b with
  | Some a, Some b => Some (Z.min a b)
  | Some a, None => Some a
  | None, b => b
  end.

(** ** The plan of one delegation *)

Inductive refusal_message :=
| FromDelegation (error : DelegationError.t)
| FromResolution (error : AgentDelegationResolutionError.t)
| FromTask (error : AgentTaskError)
| FromIdentity (error : AgentIdentityError).

Definition Refusal : Type := string * refusal_message.

Definition refuse_typed (error : DelegationError.t) : Refusal :=
  (DelegationError.code error, FromDelegation error).

Module AgentToolCallRequest.
Record t (Value : Type) := mk { call_id : AgentToolCallId.t; tool : AgentToolId.t; arguments : Value }.
Arguments mk {Value}.
Arguments call_id {Value}.
Arguments tool {Value}.
Arguments arguments {Value}.
End AgentToolCallRequest.

(** The descendants granted to the child beyond itself: an even split of what is left over
    the children the run may still have. *)
Definition grant_descendants (ceilings : Ceilings.t) (max_fan_out : option Z) :
    result DelegationError.t (option Z) :=
  match Ceilings.descendants_limit ceilings with
  | None => Ok None
  | Some limit =>
      match Ceilings.descendants_spent ceilings with
      | None => Err (DelegationError.DescendantsExhausted limit None)
      | Some spent =>
          let remaining := saturating_sub limit spent in
          if remaining <? 1 then Err (DelegationError.DescendantsExhausted limit (Some spent))
          else
            let slots :=
              Z.max 1
                match max_fan_out with
                | Some maximum => saturating_sub maximum (Ceilings.fan_out_spent ceilings)
                | None => saturating_sub (Z.of_nat AGENT_RUN_MAX_DELEGATIONS) (Z.of_nat (Ceilings.held ceilings))
                end in
            Ok (Some ((remaining - 1) / slots))
      end
  end.

(** The ceilings of the envelope, cheapest first. *)
Definition check_ceilings (envelope : option Envelope.t) (ceilings : Ceilings.t) :
    result DelegationError.t (option Z) :=
  let budget := envelope ≫= Envelope.budget in
  let child_depth := saturating_add_u32 (match envelope with Some env => Envelope.depth env | None => 0 end) 1 in
  let? _ :=
    match budget ≫= DelegationBudget.max_depth with
    | Some maximum =>
        if maximum <? child_depth then Err (DelegationError.DepthExceeded child_depth maximum) else Ok tt
    | None => Ok tt
    end in
  let? _ :=
    match envelope with
    | Some env =>
        if bool_decide (length (Envelope.lineage env) ≠ 0%nat ∧
                        length (Envelope.ancestors env) ≠ length (Envelope.lineage env)) then
          Err (DelegationError.AncestryUnknown (length (Envelope.lineage env)))
        else Ok tt
    | None => Ok tt
    end in
  let? _ :=
    match budget ≫= DelegationBudget.max_fan_out with
    | Some maximum =>
        let committed := saturating_add_u64 (Ceilings.fan_out_spent ceilings) 1 in
        if maximum <? committed then Err (DelegationError.FanOutExceeded committed maximum) else Ok tt
    | None => Ok tt
    end in
  let? _ :=
    match budget ≫= DelegationBudget.max_concurrent with
    | Some maximum =>
        let active := saturating_add_u64 (Ceilings.active_children ceilings) 1 in
        if maximum <? active then Err (DelegationError.ConcurrencyExceeded active maximum) else Ok tt
    | None => Ok tt
    end in
  grant_descendants ceilings (budget ≫= DelegationBudget.max_fan_out).

(** The budget that goes with the child. *)
Definition child_budget (budget : option DelegationBudget.t) (granted : option Z) : option DelegationBudget.t :=
  match budget, granted with
  | None, None => None
  | budget, granted =>
      let child := default DelegationBudget.default budget in
      Some (match granted with
            | Some granted => DelegationBudget.set_max_descendants child (Some (Z.min granted u32_max))
            | None => child
            end)
  end.

Definition child_knowledge_spaces (envelope : option Envelope.t) (target : Target.t) : gset KnowledgeSpaceId.t :=
  match envelope ≫= Envelope.knowledge_spaces with
  | Some granted => Target.knowledge_spaces target ∩ granted
  | None =>
      if match envelope with Some env => negb (bool_decide (Envelope.lineage env = [])) | None => false end
      then ∅
      else Target.knowledge_spaces target
  end.

Section door.
Context {Value : Type} (serde : SerdeJson.t Value) (sha256_hex : string → string).

Definition plan_delegation_call (scope : AgentRunScope.t) (config : DelegationConfig.t)
    (envelope : option Envelope.t) (call : AgentToolCallRequest.t Value) (ceilings : Ceilings.t)
    (turn : Z) (slot : nat) (goal : option AgentGoalId.t) (task : AgentTaskId.t)
    (definition_revision settings_revision : AgentRevisionNumber.t)
    (telemetry : AgentTelemetryContext.t) (now : AgentTimestampMillis) :
    result Refusal (DelegationRecord.t Value) :=
  let? parsed := map_err refuse_typed
                   (DelegationCall.parse (SerdeJson.delegation_call serde) (AgentToolCallRequest.arguments call)) in
  if (AGENT_RUN_MAX_DELEGATIONS <=? Ceilings.held ceilings)%nat then
    Err (refuse_typed (DelegationError.LimitExceeded AGENT_RUN_MAX_DELEGATIONS))
  else if match envelope with
          | Some env =>
              negb (bool_decide (Envelope.allowed_skills env = ∅)) &&
              negb (bool_decide (DelegationCall.skill parsed ∈ Envelope.allowed_skills env))
          | None => false
          end
  then Err (refuse_typed (DelegationError.SkillNotAllowed (DelegationCall.skill parsed)))
  else
    let? granted_descendants := map_err refuse_typed (check_ceilings envelope ceilings) in
    let? target := map_err (fun e => (AgentDelegationResolutionError.code e, FromResolution e))
                     (DelegationConfig.catalog config (AgentRunScope.tenant scope) (DelegationCall.skill parsed)) in
    let? _ := map_err refuse_typed (Target.validate target) in
    let ancestors := match envelope with Some env => Envelope.ancestors env | None => [] end in
    if bool_decide (Target.agent target = AgentRunScope.agent scope ∨ Target.agent target ∈ ancestors) then
      Err (refuse_typed (DelegationError.CycleDetected (Target.agent target)))
    else
      let? input := map_err (fun e => ("delegation-invalid-arguments", FromTask e))
                      (AgentTaskContent.inline (SerdeJson.value_len serde) (DelegationCall.input parsed)) in
      let? delegation_id := map_err refuse_typed (delegation_id_for sha256_hex scope turn slot) in
      let? effect := map_err (fun e => ("delegation-identity-invalid", FromIdentity e))
                       (effect_id_for scope turn slot) in
      let '(lineage, depth, envelope_deadline) :=
        match envelope with
        | Some env => (Envelope.lineage env, Envelope.depth env, Envelope.deadline env)
        | None => ([], 0, None)
        end in
      let budget := envelope ≫= Envelope.budget in
      let record :=
        DelegationRecord.mk delegation_id goal task scope lineage ancestors (saturating_add_u32 depth 1)
          (DelegationCall.skill parsed) target (AgentDelegationId.as_str delegation_id)
          (AgentDelegationId.as_str delegation_id) turn slot effect (AgentToolCallRequest.call_id call) input
          (Target.result_schema target) (child_budget budget granted_descendants) granted_descendants
          (earliest_deadline (DelegationCall.deadline parsed) envelope_deadline)
          (match envelope with Some env => Envelope.environments env | None => ∅ end)
          (child_knowledge_spaces envelope target) definition_revision settings_revision telemetry now in
      let? _ := map_err refuse_typed (DelegationRecord.validate (SerdeJson.record_len serde) record) in
      Ok record.
End door.

(** ** The wire envelope: [rakka-a2a/src/agents/collaboration.rs] *)

Definition AGENT_COLLABORATION_SCHEMA_VERSION : Z := 1.

(** The errors that reading an envelope raises. *)
Inductive RakkaAgentA2AError :=
| A2AIdentity (error : AgentIdentityError)
| Unsupported (operation reason : string).

Definition RakkaAgentA2AResult (A : Type) : Type := result RakkaAgentA2AError A.

Module AgentCollaborationBudget.
Record t := mk {
  max_depth : option Z;
  max_fan_out : option Z;
  max_descendants : option Z;
  max_concurrent : option Z;
}.

Definition from_goal (budget : DelegationBudget.t) : t :=
  mk (DelegationBudget.max_depth budget) (DelegationBudget.max_fan_out budget)
    (DelegationBudget.max_descendants budget) (DelegationBudget.max_concurrent budget).

Definition to_goal (budget : t) : DelegationBudget.t :=
  DelegationBudget.mk (max_depth budget) (max_fan_out budget) (max_descendants budget) (max_concurrent budget).
End AgentCollaborationBudget.

Module AgentCollaborationSchemaRef.
Record t := mk { id : string; revision : Z }.
End AgentCollaborationSchemaRef.

Module AgentCollaborationMetadata.
Record t := mk {
  schema : Z;
  delegation : string;
  parent_task : string;
  parent_run : string;
  goal : option string;
  lineage : list string;
  ancestors : list string;
  depth : Z;
  requested_skill : string;
  capability_scopes : list string;
  credential_bindings : list string;
  budget : option AgentCollaborationBudget.t;
  deadline : option Z;
  result_schema : option AgentCollaborationSchemaRef.t;
  environments : list string;
  knowledge_spaces : list string;
}.

Definition from_record {Value} (record : DelegationRecord.t Value) : t :=
  mk AGENT_COLLABORATION_SCHEMA_VERSION
    (AgentDelegationId.as_str (DelegationRecord.delegation record))
    (AgentTaskId.as_str (DelegationRecord.parent_task record))
    (AgentRunScope.key (DelegationRecord.parent_run record))
    (AgentGoalId.as_str <$> DelegationRecord.goal record)
    (AgentDelegationId.as_str <$> DelegationRecord.lineage record)
    (AgentId.as_str <$> DelegationRecord.ancestors record)
    (DelegationRecord.depth record)
    (AgentCapabilityId.as_str (DelegationRecord.requested_skill record))
    (AgentCapabilityId.as_str <$> btree_elements (Target.capability_scopes (DelegationRecord.resolved record)))
    (AgentCredentialBindingRef.as_str <$> Target.credential_bindings (DelegationRecord.resolved record))
    (AgentCollaborationBudget.from_goal <$> DelegationRecord.budget record)
    (DelegationRecord.deadline record)
    ((fun schema => AgentCollaborationSchemaRef.mk (AgentSchemaId.as_str (AgentSchemaRef.schema_id schema))
                      (AgentRevisionNumber.get (AgentSchemaRef.version schema)))
     <$> DelegationRecord.result_schema record)
    (AgentEnvironmentRef.as_str <$> btree_elements (DelegationRecord.environments record))
    (KnowledgeSpaceId.as_str <$> btree_elements (DelegationRecord.knowledge_spaces record)).

(** A loop that validates each text in turn. *)
Fixpoint try_ids {A} (new : string → AgentIdentityResult A) (texts : list string) :
    RakkaAgentA2AResult (list A) :=
  match texts with
  | [] => Ok []
  | text :: texts =>
      let? id := map_err A2AIdentity (new text) in
      let? ids := try_ids new texts in
      Ok (id :: ids)
  end.

Definition to_provenance (self : t) : RakkaAgentA2AResult Provenance.t :=
  let? parent_run := map_err (fun _ => Unsupported "agent-collaboration"
                        "the collaboration envelope's parent-run is not a valid run scope key")
                       (AgentRunScope.parse (parent_run self)) in
  let? lineage := try_ids AgentDelegationId.new (lineage self) in
  let? ancestors := try_ids AgentId.new (ancestors self) in
  let? capability_scopes := try_ids AgentCapabilityId.new (capability_scopes self) in
  let? credential_bindings := try_ids AgentCredentialBindingRef.new (credential_bindings self) in
  let? environments := try_ids AgentEnvironmentRef.new (environments self) in
  let? knowledge_spaces := try_ids KnowledgeSpaceId.new (knowledge_spaces self) in
  let? delegation := map_err A2AIdentity (AgentDelegationId.new (delegation self)) in
  let? parent_task := map_err A2AIdentity (AgentTaskId.new (parent_task self)) in
  let? requested_skill := map_err A2AIdentity (AgentCapabilityId.new (requested_skill self)) in
  let? result_schema :=
    match result_schema self with
    | Some schema =>
        let? id := map_err A2AIdentity (AgentSchemaId.new (AgentCollaborationSchemaRef.id schema)) in
        Ok (Some (AgentSchemaRef.new id (AgentRevisionNumber.new (AgentCollaborationSchemaRef.revision schema))))
    | None => Ok None
    end in
  Ok (Provenance.mk delegation parent_task parent_run lineage ancestors (depth self) requested_skill
        (list_to_set capability_scopes) credential_bindings result_schema
        (AgentCollaborationBudget.to_goal <$> budget self) (deadline self)
        (list_to_set environments) (list_to_set knowledge_spaces)).

Definition goal_id (self : t) : RakkaAgentA2AResult (option AgentGoalId.t) :=
  match goal self with
  | Some goal => let? id := map_err A2AIdentity (AgentGoalId.new goal) in Ok (Some id)
  | None => Ok None
  end.
End AgentCollaborationMetadata.
Module Metadata := AgentCollaborationMetadata.

(** ** The child task: [task.rs] *)

Definition narrowed_delegation_budget (granted definition : option DelegationBudget.t) :
    option DelegationBudget.t :=
  match granted, definition with
  | Some granted, Some definition => Some (DelegationBudget.narrowed_to granted definition)
  | Some granted, None => Some granted
  | None, definition => definition
  end.

(** The fields of a goal specification that delegation reads. *)
Module AgentGoalSpec.
Record t := mk {
  allowed_skills : gset AgentCapabilityId.t;
  allowed_tools : gset AgentToolId.t;
  allowed_workflows : gset AgentWorkflowToolId.t;
  delegation : option DelegationBudget.t;
  deadline : option AgentTimestampMillis;
  fan_in : option Policy.t;
  environments : gset AgentEnvironmentRef.t;
  knowledge_spaces : gset KnowledgeSpaceId.t;
  allocation : AgentBudgetAllocation.t;
  limits : AgentBudgetLimits.t;
}.
End AgentGoalSpec.

Inductive AgentTaskHandoffStatus :=
| HandoffInitiated
| HandoffAccepted
| HandoffRefused (code : string).

(** The fields of a task that its envelope is made of. *)
Module AgentTask.
Record t := mk {
  goal_spec : option AgentGoalSpec.t;
  delegation : option Provenance.t;
  definition_delegation : option DelegationBudget.t;
  handoff : option (AgentTaskHandoffStatus * gset KnowledgeSpaceId.t);
}.
End AgentTask.

Definition delegation_envelope_base (task : AgentTask.t) : option Envelope.t :=
  match AgentTask.goal_spec task with
  | Some spec =>
      Some (Envelope.mk (AgentGoalSpec.allowed_skills spec) (AgentGoalSpec.allowed_tools spec)
              (AgentGoalSpec.allowed_workflows spec)
              (narrowed_delegation_budget (AgentGoalSpec.delegation spec) (AgentTask.definition_delegation task))
              [] [] 0 (AgentGoalSpec.deadline spec) (AgentGoalSpec.fan_in spec) (AgentGoalSpec.environments spec)
              (if bool_decide (AgentGoalSpec.knowledge_spaces spec = ∅) then None
               else Some (AgentGoalSpec.knowledge_spaces spec)))
  | None =>
      match AgentTask.delegation task with
      | Some provenance =>
          let ancestors :=
            if bool_decide (Provenance.ancestors provenance ≠ [] ∨ Provenance.lineage provenance = []) then
              Provenance.ancestors provenance ++ [AgentRunScope.agent (Provenance.parent_run provenance)]
            else Provenance.ancestors provenance in
          Some (Envelope.mk ∅ ∅ ∅
                  (narrowed_delegation_budget (Provenance.budget provenance) (AgentTask.definition_delegation task))
                  (Provenance.lineage provenance ++ [Provenance.delegation provenance]) ancestors
                  (Provenance.depth provenance) (Provenance.deadline provenance) None
                  (Provenance.environments provenance) (Some (Provenance.knowledge_spaces provenance)))
      | None =>
          (fun ceilings => Envelope.mk ∅ ∅ ∅ (Some ceilings) [] [] 0 None None ∅ None)
          <$> AgentTask.definition_delegation task
      end
  end.

Definition delegation_envelope_for (task : AgentTask.t) : option Envelope.t :=
  match AgentTask.handoff task with
  | None | Some (HandoffRefused _, _) => delegation_envelope_base task
  | Some (_, spaces) =>
      (fun env => Envelope.set_knowledge_spaces env
         (Some match Envelope.knowledge_spaces env with
               | Some granted => spaces ∩ granted
               | None => if bool_decide (Envelope.lineage env ≠ []) then ∅ else spaces
               end))
      <$> delegation_envelope_base task
  end.

(** What [create_task] refuses of a provenance. *)
Inductive provenance_refusal :=
| ProvenanceInvalid (error : DelegationError.t)
| ForeignTenant (parent child : TenantId.t)
| CarriesGoal.

Definition check_provenance (provenance_len : Provenance.t → result string nat) (tenant : TenantId.t)
    (delegation : option Provenance.t) (goal_spec : option AgentGoalSpec.t) : result provenance_refusal unit :=
  match delegation with
  | None => Ok tt
  | Some provenance =>
      let? _ := map_err ProvenanceInvalid (Provenance.validate provenance_len provenance) in
      let parent := AgentRunScope.tenant (Provenance.parent_run provenance) in
      if bool_decide (parent ≠ tenant) then Err (ForeignTenant parent tenant)
      else match goal_spec with Some _ => Err CarriesGoal | None => Ok tt end
  end.

(** The minimum of the ceilings that are declared. *)
Definition least (ceilings : list (option Z)) : option Z := foldr DelegationBudget.tighter None ceilings.

(** The escrow a task starts with, its descendants within every ceiling in scope. *)
Definition task_seed (escrow : option AgentBudgetGrant.t) (budgets : AgentBudgetCeilings.t)
    (definition_delegation : option DelegationBudget.t) (goal_spec : option AgentGoalSpec.t)
    (delegation : option Provenance.t) : AgentBudgetGrant.t :=
  let base_grant := match escrow with Some grant => grant | None => AgentBudgetGrant.from_ceilings budgets end in
  let seed :=
    match goal_spec with
    | Some spec =>
        AgentBudgetGrant.narrowed_to
          (AgentBudgetGrant.new (AgentGoalSpec.allocation spec) (AgentGoalSpec.limits spec)) base_grant
    | None => base_grant
    end in
  let descendants_ceiling :=
    least [definition_delegation ≫= DelegationBudget.max_descendants;
           (goal_spec ≫= AgentGoalSpec.delegation) ≫= DelegationBudget.max_descendants;
           (delegation ≫= Provenance.budget) ≫= DelegationBudget.max_descendants] in
  match descendants_ceiling with
  | Some ceiling =>
      let held := AgentBudgetAllocation.descendants (AgentBudgetGrant.allocation seed) in
      let bounded := match held with Some held => Z.min held ceiling | None => ceiling end in
      AgentBudgetGrant.new
        (AgentBudgetAllocation.set (AgentBudgetGrant.allocation seed) Descendants (Some bounded))
        (AgentBudgetGrant.limits seed)
  | None => seed
  end.
