(* ===== verification/DelegationTree.v ===== *)
(** * Trees of delegated tasks

    A task delegates, its children delegate, and every door only sees its own envelope and
    cells.  This file grows such trees step by step and shows what holds of them as a whole:
    the descendants stay within the root's allocation and what failed sends gave back too
    early, no agent delegates to one above it, and depths stay within the ceilings. *)

From stdpp Require Import pretty.
From S2P Require Import Prelude AgentIdentity CompiledPlan Budget Delegation FanIn FanInRuns DelegationDoor.

(** ** What live delegations cost *)

Section cost.
Context {Value : Type}.
Implicit Types (c : DelegationCell.t Value) (m : DelegationCells Value) (s : Children.t Value).

Abbreviation granted c := (DelegationRecord.granted_descendants (DelegationCell.record c)).

(** One for the child and its grant. *)
Definition cost c : Z := if Children.live c then 1 + default 0 (granted c) else 0.

(** What a delegation whose send failed no longer holds: the cost of its child, if it has one. *)
Definition released c : Z := if Children.live c then 0 else 1 + default 0 (granted c).

Definition grants_known m : Prop :=
  ∀ id c, m !! id = Some c → Children.live c = true → ∃ g, granted c = Some g ∧ 0 <= g.

Lemma cost_nonneg m id c : grants_known m → m !! id = Some c → 0 <= cost c.
Proof.
  intros Hm Hc. unfold cost. destruct (Children.live c) eqn:Hl; [|done].
  destruct (Hm _ _ Hc Hl) as (g & -> & ?). simpl. lia.
Qed.

(** The same of every cell, as in a run with a limit. *)
Definition grants_all m : Prop := ∀ id c, m !! id = Some c → ∃ g, granted c = Some g ∧ 0 <= g.

Lemma grants_all_known m : grants_all m → grants_known m.
Proof. intros Hm id c Hc _. by eapply Hm. Qed.

Lemma cost_released c : cost c + released c = 1 + default 0 (granted c).
Proof. unfold cost, released. destruct (Children.live c); lia. Qed.

Lemma sum_spent_foldl (acc : Z) (cells : list (DelegationCell.t Value)) :
  0 <= acc <= u64_max →
  (∀ c, c ∈ cells → Children.live c = true → ∃ g, granted c = Some g ∧ 0 <= g) →
  Children.sum_spent acc cells = Some (foldl saturating_add_u64 acc (cost <$> cells)).
Proof.
  revert acc. induction cells as [|c cells IH]; intros acc Hacc Hall; [done|]. simpl.
  assert (∀ acc', 0 <= acc' <= u64_max →
            Children.sum_spent acc' cells = Some (foldl saturating_add_u64 acc' (cost <$> cells))) as IH'
    by (intros; apply IH; [done|]; intros c' Hc'; apply Hall; by right).
  unfold cost at 1. destruct (Children.live c) eqn:Hl.
  - destruct (Hall c (list_elem_of_here _ _) Hl) as (g & Hg & ?). rewrite Hg. simpl.
    replace (saturating_add_u64 acc (1 + g)) with (saturating_add_u64 (saturating_add_u64 acc 1) g)
      by (unfold saturating_add_u64; lia).
    apply IH'. unfold saturating_add_u64. lia.
  - replace (saturating_add_u64 acc 0) with acc by (unfold saturating_add_u64; lia). by apply IH'.
Qed.

Lemma descendants_spent_sum s :
  grants_known (Children.delegations s) →
  Children.delegation_descendants_spent s = Some (map_sum cost (Children.delegations s) `min` u64_max).
Proof.
  intros Hg. unfold Children.delegation_descendants_spent. rewrite sum_spent_foldl.
  - f_equal. apply saturating_sum. intros id c. by apply cost_nonneg.
  - rewrite u64_max_val. lia.
  - intros c [id Hc]%elem_of_btree_values. by eapply Hg.
Qed.

(** The costs of some of the cells are within the sum. *)
Lemma sum_some_cells m (ids : list AgentDelegationId.t) :
  grants_known m → NoDup ids → (∀ id, id ∈ ids → is_Some (m !! id)) →
  foldr (fun id total => match m !! id with Some c => cost c | None => 0 end + total) 0 ids <= map_sum cost m.
Proof.
  revert m. induction ids as [|id ids IH]; intros m Hg Hnd Hin; simpl.
  { apply map_sum_nonneg. intros id c. by apply cost_nonneg. }
  apply NoDup_cons in Hnd as [Hid Hnd]. destruct (Hin id (list_elem_of_here _ _)) as [c Hc]. rewrite Hc.
  pose proof (map_sum_delete cost m id c Hc) as Hd.
  enough (foldr (fun i total => match m !! i with Some c => cost c | None => 0 end + total) 0 ids <=
          map_sum cost (delete id m)) by lia.
  assert (∀ i, i ∈ ids → delete id m !! i = m !! i) as Heq.
  { intros i Hi. apply lookup_delete_ne. by intros ->. }
  etrans; [|apply IH; [|done|]].
  - apply Z.eq_le_incl. clear -Heq. induction ids as [|i ids IHi]; simpl; [done|].
    rewrite Heq by (by left). f_equal. apply IHi. intros j Hj. apply Heq. by right.
  - intros i c' Hi. apply lookup_delete_Some in Hi as [_ ?]. by eapply Hg.
  - intros i Hi. rewrite Heq by done. apply Hin. by right.
Qed.
End cost.
Abbreviation granted c := (DelegationRecord.granted_descendants (DelegationCell.record c)).

(** ** Events settle cells

    Apart from the commit of a send, an event keeps the set of cells and their records and
    never brings a settled send back to life. *)

Section settles.
Context {Value : Type}.
Implicit Types (s : Children.t Value) (c : DelegationCell.t Value).

Definition settles s s' : Prop := ∀ id,
  match Children.delegations s !! id, Children.delegations s' !! id with
  | Some c, Some c' =>
      DelegationCell.record c' = DelegationCell.record c ∧ (Children.live c' = true → Children.live c = true)
  | None, None => True
  | _, _ => False
  end.

Lemma settles_same s s' : Children.delegations s' = Children.delegations s → settles s s'.
Proof. intros Heq id. rewrite Heq. by destruct (_ !! id). Qed.

Lemma settles_trans s1 s2 s3 : settles s1 s2 → settles s2 s3 → settles s1 s3.
Proof.
  intros H1 H2 id. specialize (H1 id). specialize (H2 id).
  destruct (Children.delegations s1 !! id), (Children.delegations s2 !! id),
    (Children.delegations s3 !! id); try done.
  destruct H1 as [R1 L1], H2 as [R2 L2]. split; [congruence|auto].
Qed.

Lemma settles_insert s id c c' :
  Children.delegations s !! id = Some c → DelegationCell.record c' = DelegationCell.record c →
  (Children.live c' = true → Children.live c = true) →
  settles s (Children.set_delegations s (<[id := c']> (Children.delegations s))).
Proof.
  intros Hc Hr Hl id'. simpl. destruct (decide (id = id')) as [->|?].
  - by rewrite Hc, lookup_insert_eq.
  - rewrite lookup_insert_ne by done. by destruct (_ !! id').
Qed.

Lemma try_resolve_delegations s now : Children.delegations (try_resolve s now) = Children.delegations s.
Proof. by destruct (try_resolve_cases s now) as [[-> _]|(g & r & _ & _ & _ & ->)]. Qed.

Lemma settles_try_resolve s s' now : settles s s' → settles s (try_resolve s' now).
Proof. intros H. eapply settles_trans; [done|]. apply settles_same, try_resolve_delegations. Qed.

Lemma settle_record c outcome now :
  DelegationCell.record (DelegationCell.settle c outcome now) = DelegationCell.record c.
Proof. unfold DelegationCell.settle. by destruct (DelegationStatus.is_settled _). Qed.

Lemma settle_live c outcome now :
  Children.live (DelegationCell.settle c outcome now) = true → Children.live c = true.
Proof.
  unfold DelegationCell.settle, Children.live. by destruct (DelegationCell.status c) eqn:E; simpl; rewrite ?E.
Qed.

Lemma record_result_same c r :
  DelegationCell.record (DelegationCell.record_child_result c r) = DelegationCell.record c ∧
  Children.live (DelegationCell.record_child_result c r) = Children.live c.
Proof. unfold DelegationCell.record_child_result. by destruct (DelegationCell.result c). Qed.

(** No send is committed. *)
Definition commits_no_send (event : AgentTimestampMillis * child_event Value) : bool :=
  match event.2 with
  | TurnCommitted _ _ calls => forallb (fun call => match call with A2aSend _ => false | _ => true end) calls
  | _ => true
  end.

Lemma join_delegations s policy m turn now :
  Children.delegations (Children.join_fan_in s policy m turn now) = Children.delegations s.
Proof. unfold Children.join_fan_in. by repeat case_match. Qed.

Lemma commit_calls_settle policy turn now calls s :
  forallb (fun call => match call with A2aSend _ => false | _ => true end) calls = true →
  Children.delegations (foldl (commit_call policy turn now) s calls) = Children.delegations s.
Proof.
  revert s. induction calls as [|call calls IH]; intros s Hall; [done|].
  apply andb_true_iff in Hall as [Hc Hall]. simpl. rewrite (IH _ Hall).
  destruct call as [|i|call_id deadline]; [done| |]; simpl.
  - rewrite join_delegations. unfold Children.record_workflow_invocation. by case_match.
  - unfold Children.close_fan_in. by repeat case_match.
Qed.

Lemma settles_send_cancelled now s effect : settles s (send_cancelled now s effect).
Proof.
  unfold send_cancelled. destruct (held_delegation s effect) as [[id c]|] eqn:Hf; [|by apply settles_same].
  apply held_delegation_Some in Hf. eapply settles_insert; [done|apply settle_record|apply settle_live].
Qed.

Lemma settles_fence sends starts now s : settles s (fence_unsent_effects sends starts now s).
Proof.
  unfold fence_unsent_effects. eapply settles_trans with (s2 := foldl (send_cancelled now) s sends).
  - revert s. induction sends as [|e sends IH]; intros s; simpl; [by apply settles_same|].
    eapply settles_trans; [apply settles_send_cancelled|apply IH].
  - apply settles_same. generalize (foldl (send_cancelled now) s sends).
    induction starts as [|e starts IH]; intros s1; [done|]. simpl. by rewrite IH, start_cancelled_delegations.
Qed.

Lemma event_settles winding_down s event :
  commits_no_send event = true → settles s (apply_child_event winding_down s event).
Proof.
  intros Hno. destruct event as [now e]. destruct e; simpl in *.
  - apply settles_try_resolve, settles_same. by apply commit_calls_settle.
  - unfold send_succeeded. destruct (_ !! _) as [c|] eqn:Hc; [|by apply settles_same].
    eapply settles_insert; [done|apply settle_record|apply settle_live].
  - unfold send_failed. destruct (held_delegation _ _) as [[id c]|] eqn:Hf; [|by apply settles_same].
    apply held_delegation_Some in Hf. cbv zeta.
    match goal with |- settles s (if _ && in_group ?s' _ then _ else _) => assert (settles s s') as Hs end.
    { eapply settles_insert; [done|..]; destruct (bool_decide _); apply settle_record || apply settle_live. }
    destruct (_ && _); [by apply settles_try_resolve|done].
  - unfold start_succeeded. destruct (_ !! _); [|by apply settles_same].
    by apply settles_try_resolve, settles_same.
  - unfold start_failed. destruct (held_invocation _ _) as [[id c]|]; [|by apply settles_same].
    destruct (_ && _); [apply settles_try_resolve|]; by apply settles_same.
  - unfold accept_delegation_result. destruct (report_refusal _ _ _ _); [by apply settles_same|].
    destruct (_ !! _) as [c|] eqn:Hc; [|by apply settles_same].
    destruct (DelegationCell.child_settled c); [by apply settles_same|]. simpl.
    apply settles_try_resolve. eapply settles_insert; [done|apply record_result_same|].
    by rewrite (proj2 (record_result_same _ _)).
  - unfold record_workflow_result. repeat case_match; try by apply settles_same.
    all: by apply settles_try_resolve, settles_same.
  - unfold fire_fan_in_deadline. repeat case_match; try by apply settles_same.
    by apply settles_try_resolve, settles_same.
  - apply settles_fence.
  - destruct winding_down; [apply settles_send_cancelled|by apply settles_same].
  - destruct winding_down; apply settles_same; [apply start_cancelled_delegations|done].
Qed.

(** Settling never raises what the live delegations cost. *)
Lemma settles_cost s s' :
  settles s s' → grants_known (Children.delegations s) →
  grants_known (Children.delegations s') ∧
  map_sum cost (Children.delegations s') <= map_sum cost (Children.delegations s).
Proof.
  unfold settles. generalize (Children.delegations s) (Children.delegations s'). clear s s'.
  intros m m' Hs Hg. split.
  { intros id c' Hc' Hl. specialize (Hs id). rewrite Hc' in Hs. destruct (m !! id) as [c|] eqn:Hc; [|done].
    destruct Hs as [-> Hlive]. apply (Hg id c Hc). by apply Hlive. }
  revert m' Hs. induction m as [|id c m Hid IH] using map_ind; intros m' Hs.
  { replace m' with (∅ : DelegationCells Value); [done|]. apply map_eq. intros id. specialize (Hs id).
    rewrite lookup_empty in *. by destruct (m' !! id). }
  pose proof (Hs id) as Hsid. rewrite lookup_insert_eq in Hsid.
  destruct (m' !! id) as [c'|] eqn:Hc'; [|done]. destruct Hsid as [Hr Hl].
  rewrite map_sum_insert by done. pose proof (map_sum_delete cost m' id c' Hc') as Hd.
  assert (map_sum cost (delete id m') <= map_sum cost m) as Hrest.
  { apply IH.
    - intros id' c'' Hc''. apply (Hg id'). rewrite lookup_insert_ne; [done|]. by intros ->; rewrite Hid in Hc''.
    - intros id'. destruct (decide (id = id')) as [->|?].
      + by rewrite lookup_delete_eq, Hid.
      + specialize (Hs id'). rewrite lookup_insert_ne in Hs by done. by rewrite lookup_delete_ne. }
  enough (cost c' <= cost c) by lia. unfold cost. rewrite Hr. destruct (Children.live c') eqn:Hl'.
  - by rewrite Hl.
  - destruct (Children.live c) eqn:Hlc; [|done].
    destruct (Hg id c (lookup_insert_eq _ _ _) Hlc) as (g & -> & ?). simpl. lia.
Qed.

Lemma settles_grants s s' : settles s s' → grants_all (Children.delegations s) → grants_all (Children.delegations s').
Proof.
  intros Hs Hg id c' Hc'. specialize (Hs id). rewrite Hc' in Hs.
  destruct (Children.delegations s !! id) as [c|] eqn:Hc; [|done]. destruct Hs as [-> _]. by apply (Hg id c).
Qed.
End settles.

(** ** Trees *)

Section tree.
Context {Value : Type} (serde : SerdeJson.t Value) (sha256_hex : string → string).

(** The run that serves a task: who it is, the authority and the descendants it was given,
    and its children. *)
Record run_node := RunNode {
  nd_scope : AgentRunScope.t;
  nd_envelope : option Envelope.t;
  nd_limit : option Z;
  nd_children : Children.t Value;
}.

Definition nd_agent (n : run_node) : AgentId.t := AgentRunScope.agent (nd_scope n).
Definition nd_with (n : run_node) (s : Children.t Value) : run_node :=
  RunNode (nd_scope n) (nd_envelope n) (nd_limit n) s.

Inductive tree := Node (n : run_node) (children : list (AgentDelegationId.t * tree)).

Definition top (t : tree) : run_node := match t with Node n _ => n end.

(** The tasks below the top. *)
Fixpoint descendants (t : tree) : Z :=
  match t with Node _ children => foldr (fun child total => 1 + descendants child.2 + total) 0 children end.

(** What the tasks of the tree were granted by delegations whose send has failed since: a send
    that spent its retries settles as failed although its peer may have created the child. *)
Fixpoint escaped (t : tree) : Z :=
  match t with
  | Node n children =>
      foldr (fun child total =>
               match Children.delegations (nd_children n) !! child.1 with Some c => released c | None => 0 end +
               escaped child.2 + total) 0 children
  end.

(** No task of the tree belongs to a delegation whose send has failed. *)
Fixpoint truthful (t : tree) : Prop :=
  match t with
  | Node n children =>
      foldr (fun child rest =>
               (∀ c, Children.delegations (nd_children n) !! child.1 = Some c → Children.live c = true) ∧
               truthful child.2 ∧ rest) True children
  end.

(** The agents on the way from the top to each task. *)
Fixpoint paths (t : tree) : list (list AgentId.t) :=
  match t with
  | Node n children =>
      [nd_agent n] :: flat_map (fun child => cons (nd_agent n) <$> paths child.2) children
  end.

(** *** Growth *)

(** A limit within a ceiling, where no ceiling bounds nothing. *)
Definition within (limit ceiling : option Z) : Prop :=
  match ceiling with
  | Some c => match limit with Some l => 0 <= l <= c | None => False end
  | None => match limit with Some l => 0 <= l | None => True end
  end.

(** A child task is created from the record its parent sent: the wire envelope becomes its
    provenance, which creation checks, and the run that serves it gets the envelope of that
    task and descendants within the task's escrow. *)
Inductive creates (n : run_node) (record : DelegationRecord.t Value) : run_node → Prop :=
| creates_intro provenance definition budgets escrow limit run :
    Metadata.to_provenance (Metadata.from_record record) = Ok provenance →
    check_provenance (SerdeJson.provenance_len serde) (AgentRunScope.tenant (nd_scope n)) (Some provenance) None =
      Ok tt →
    within limit (AgentBudgetAllocation.descendants
      (AgentBudgetGrant.allocation (task_seed escrow budgets definition None (Some provenance)))) →
    (∀ l, limit = Some l → l <= u64_max) →
    creates n record
      (RunNode (AgentRunScope.mk (AgentRunScope.tenant (nd_scope n)) (Target.agent (DelegationRecord.resolved record)) run)
         (delegation_envelope_for (AgentTask.mk None (Some provenance) definition None)) limit Children.new).

Inductive tree_step : tree → tree → Prop :=
| step_delegate n children config call turn slot goal task r1 r2 telemetry now policy record :
    plan_delegation_call serde sha256_hex (nd_scope n) config (nd_envelope n) call
      (Ceilings.of_loop (nd_children n) (nd_limit n)) turn slot goal task r1 r2 telemetry now = Ok record →
    tree_step (Node n children)
      (Node (nd_with n (commit_call policy turn now (nd_children n) (A2aSend record))) children)
| step_event n children winding_down event :
    commits_no_send event = true →
    tree_step (Node n children) (Node (nd_with n (apply_child_event winding_down (nd_children n) event)) children)
| step_create n children id c child :
    (* whatever became of the send: an attempt may reach the peer and be lost *)
    Children.delegations (nd_children n) !! id = Some c →
    (* retries of one delegation converge on one child *)
    id ∉ children.*1 →
    creates n (DelegationCell.record c) child →
    tree_step (Node n children) (Node n (children ++ [(id, Node child [])]))
| step_below n before id t t' after :
    tree_step t t' → tree_step (Node n (before ++ (id, t) :: after)) (Node n (before ++ (id, t') :: after)).

Lemma step_top t t' :
  tree_step t t' →
  nd_scope (top t') = nd_scope (top t) ∧ nd_envelope (top t') = nd_envelope (top t) ∧
  nd_limit (top t') = nd_limit (top t).
Proof. by destruct 1. Qed.

(** Induction on trees, through their lists of children. *)
Lemma tree_induction (P : tree → Prop) :
  (∀ n children, Forall (fun child => P child.2) children → P (Node n children)) → ∀ t, P t.
Proof.
  intros H. fix IH 1. intros [n children]. apply H.
  induction children as [|[id t] children IHc]; constructor; [apply IH|exact IHc].
Qed.
End tree.
Arguments run_node : clear implicits.
Arguments tree : clear implicits.

(** ** What the door lets through *)

Definition env_lineage (env : option Envelope.t) : list AgentDelegationId.t :=
  match env with Some env => Envelope.lineage env | None => [] end.
Definition env_ancestors (env : option Envelope.t) : list AgentId.t :=
  match env with Some env => Envelope.ancestors env | None => [] end.
Definition env_max_depth (env : option Envelope.t) : option Z :=
  (env ≫= Envelope.budget) ≫= DelegationBudget.max_depth.

Definition scope_valid (scope : AgentRunScope.t) : Prop :=
  Forall valid_segment [TenantId.as_str (AgentRunScope.tenant scope); AgentId.as_str (AgentRunScope.agent scope);
                        AgentRunId.as_str (AgentRunScope.run scope)].

(** One [?] of a chain in a hypothesis. *)
Tactic Notation "bind_ok" ident(H) ident(x) ident(Hx) :=
  apply result_bind_ok in H as (x & Hx & H); try rewrite map_err_ok in Hx.

Section door_facts.
Context {Value : Type} (serde : SerdeJson.t Value) (sha256_hex : string → string).

Record planned (scope : AgentRunScope.t) (env : option Envelope.t) (ceilings : Ceilings.t)
    (record : DelegationRecord.t Value) : Prop := {
  planned_held : (Ceilings.held ceilings < AGENT_RUN_MAX_DELEGATIONS)%nat;
  planned_ceilings : check_ceilings env ceilings = Ok (DelegationRecord.granted_descendants record);
  planned_valid : DelegationRecord.validate (SerdeJson.record_len serde) record = Ok tt;
  planned_lineage : DelegationRecord.lineage record = env_lineage env;
  planned_ancestors : DelegationRecord.ancestors record = env_ancestors env;
  planned_parent : DelegationRecord.parent_run record = scope;
  planned_scope : scope_valid scope;
  planned_acyclic : Target.agent (DelegationRecord.resolved record) ∉ env_ancestors env ++ [AgentRunScope.agent scope];
  planned_budget : DelegationRecord.budget record =
    child_budget (env ≫= Envelope.budget) (DelegationRecord.granted_descendants record);
}.

Lemma plan_delegation_ok scope config env call ceilings turn slot goal task r1 r2 telemetry now record :
  plan_delegation_call serde sha256_hex scope config env call ceilings turn slot goal task r1 r2 telemetry now =
    Ok record →
  planned scope env ceilings record.
Proof.
  unfold plan_delegation_call. intros H. bind_ok H parsed Hparsed.
  destruct (Nat.leb_spec AGENT_RUN_MAX_DELEGATIONS (Ceilings.held ceilings)); [done|].
  destruct (match env with Some _ => _ | None => _ end); [done|].
  bind_ok H g Hg. bind_ok H target Htarget. bind_ok H u Hu.
  destruct (bool_decide _) eqn:Hcycle; [done|]. apply bool_decide_eq_false in Hcycle.
  bind_ok H input Hinput. bind_ok H id Hid. bind_ok H effect Heffect.
  assert (Target.agent target ∉ env_ancestors env ++ [AgentRunScope.agent scope]) as Hc.
  { rewrite elem_of_app, list_elem_of_singleton. tauto. }
  assert (scope_valid scope) as Hscope.
  { unfold effect_id_for in Heffect. bind_ok Heffect op Hop. apply operation_id_new in Hop as (_ & Hall & _).
    by apply (Forall_take _ 3) in Hall. }
  destruct env as [env|]; bind_ok H v Hv; destruct v; injection H as <-; by constructor.
Qed.

(** *** The chain stays coherent *)

Lemma validate_chain (record : DelegationRecord.t Value) :
  DelegationRecord.validate (SerdeJson.record_len serde) record = Ok tt →
  (length (DelegationRecord.lineage record) <= AGENT_DELEGATION_MAX_LINEAGE)%nat ∧
  DelegationRecord.depth record = Z.of_nat (length (DelegationRecord.lineage record)) + 1 ∧
  (DelegationRecord.ancestors record = [] ∨
   length (DelegationRecord.ancestors record) = length (DelegationRecord.lineage record)).
Proof.
  unfold DelegationRecord.validate. intros H. bind_ok H a Ha. bind_ok H b Hb. bind_ok H c Hc. bind_ok H d Hd.
  destruct (Nat.ltb_spec AGENT_DELEGATION_MAX_LINEAGE (length (DelegationRecord.lineage record)));
    [done|]. split; [done|]. split.
  - unfold check_depth_coherence in Hc. case_bool_decide as Hdep; [done|].
    rewrite Hdep. unfold saturating_add_u32, length_u32.
    assert (Z.of_nat (length (DelegationRecord.lineage record)) <= 16) by (unfold AGENT_DELEGATION_MAX_LINEAGE in *; lia).
    rewrite u32_max_val. lia.
  - unfold check_ancestry_coherence in Hd. case_bool_decide as Hanc; [done|].
    destruct (DelegationRecord.ancestors record) as [|x l]; [by left|right].
    destruct (decide (length (x :: l) = length (DelegationRecord.lineage record))); [done|].
    exfalso. apply Hanc. by split.
Qed.

Lemma check_ceilings_ok env ceilings g :
  check_ceilings env ceilings = Ok g →
  (∀ d, env_max_depth env = Some d → saturating_add_u32 (match env with Some e => Envelope.depth e | None => 0 end) 1 <= d) ∧
  (env_lineage env = [] ∨ length (env_ancestors env) = length (env_lineage env)) ∧
  grant_descendants ceilings ((env ≫= Envelope.budget) ≫= DelegationBudget.max_fan_out) = Ok g.
Proof.
  unfold check_ceilings, env_max_depth. intros H. bind_ok H a Ha. bind_ok H b Hb. bind_ok H c Hc. bind_ok H d Hd.
  split_and!; [| |done].
  - intros maximum Hm. rewrite Hm in Ha. by destruct (Z.ltb_spec maximum (saturating_add_u32
      (match env with Some e => Envelope.depth e | None => 0 end) 1)).
  - destruct env as [env|]; [|by left]. simpl. case_bool_decide as Hl; [done|].
    destruct (Envelope.lineage env) as [|x l]; [by left|right].
    destruct (decide (length (Envelope.ancestors env) = length (x :: l))); [done|]. exfalso. apply Hl. by split.
Qed.

(** The even split leaves room for the child and its grant. *)
Lemma grant_within ceilings max_fan_out g limit spent :
  grant_descendants ceilings max_fan_out = Ok g →
  Ceilings.descendants_limit ceilings = Some limit → Ceilings.descendants_spent ceilings = Some spent →
  ∃ q, g = Some q ∧ 0 <= q ∧ spent + 1 + q <= limit.
Proof.
  unfold grant_descendants. intros H Hl Hs. rewrite Hl, Hs in H. unfold saturating_sub at 1 2 in H.
  destruct (Z.ltb_spec (Z.max (limit - spent) 0) 1) as [|Hr]; [done|]. injection H as <-.
  eexists. split; [done|]. set (slots := Z.max 1 _). assert (1 <= slots) by lia.
  split; [apply Z.div_pos; lia|].
  assert ((Z.max (limit - spent) 0 - 1) / slots <= Z.max (limit - spent) 0 - 1).
  { apply Z.div_le_upper_bound; [lia|]. nia. }
  lia.
Qed.
End door_facts.

(** ** Across the wire *)

Section wire.
Context {Value : Type}.
Implicit Types r : DelegationRecord.t Value.

(** What the child is meant to learn of the record. *)
Definition provenance_of r : Provenance.t :=
  Provenance.mk (DelegationRecord.delegation r) (DelegationRecord.parent_task r) (DelegationRecord.parent_run r)
    (DelegationRecord.lineage r) (DelegationRecord.ancestors r) (DelegationRecord.depth r)
    (DelegationRecord.requested_skill r) (Target.capability_scopes (DelegationRecord.resolved r))
    (Target.credential_bindings (DelegationRecord.resolved r)) (DelegationRecord.result_schema r)
    (DelegationRecord.budget r) (DelegationRecord.deadline r) (DelegationRecord.environments r)
    (DelegationRecord.knowledge_spaces r).

(** The other identifiers of a record, as texts. *)
Definition record_texts r : list string :=
  (AgentDelegationId.as_str <$> DelegationRecord.lineage r) ++
  (AgentId.as_str <$> DelegationRecord.ancestors r) ++
  (AgentCapabilityId.as_str <$> btree_elements (Target.capability_scopes (DelegationRecord.resolved r))) ++
  (AgentCredentialBindingRef.as_str <$> Target.credential_bindings (DelegationRecord.resolved r)) ++
  (AgentEnvironmentRef.as_str <$> btree_elements (DelegationRecord.environments r)) ++
  (KnowledgeSpaceId.as_str <$> btree_elements (DelegationRecord.knowledge_spaces r)) ++
  [AgentDelegationId.as_str (DelegationRecord.delegation r); AgentTaskId.as_str (DelegationRecord.parent_task r);
   AgentCapabilityId.as_str (DelegationRecord.requested_skill r)] ++
  match DelegationRecord.result_schema r with
  | Some schema => [AgentSchemaId.as_str (AgentSchemaRef.schema_id schema)]
  | None => []
  end.

Lemma try_ids_ok {A} field (Self : string → A) (as_str : A → string) (l l' : list A) :
  (∀ x, Self (as_str x) = x) →
  Metadata.try_ids (validated_id field Self) (as_str <$> l) = Ok l' ↔
  Forall valid_segment (as_str <$> l) ∧ l' = l.
Proof.
  intros Hinv. revert l'. induction l as [|x l IH]; intros l'; simpl.
  { split; [intros [= <-]|intros [_ ->]]; by repeat constructor. }
  unfold RakkaAgentA2AResult. rewrite result_bind_iff. setoid_rewrite result_bind_iff.
  setoid_rewrite map_err_ok. setoid_rewrite validated_id_ok. rewrite Forall_cons. split.
  - intros (y & [Hx ->] & ids & [Hall ->]%IH & [= <-]). by rewrite Hinv.
  - intros [[Hx Hall] ->]. exists x. rewrite Hinv. split; [done|]. exists l. split; [by apply IH|done].
Qed.

Lemma list_to_set_btree_elements `{Countable K, !OrdKey K} (s : gset K) : list_to_set (btree_elements s) = s.
Proof. apply set_eq. intros x. by rewrite elem_of_list_to_set, elem_of_btree_elements. Qed.

Lemma parse_run_key scope : scope_valid scope → AgentRunScope.parse (AgentRunScope.key scope) = Ok scope.
Proof.
  intros Hv. apply run_scope_parse. destruct scope as [[t] [a] [r]]. by exists t, a, r.
Qed.

Lemma budget_roundtrip b : AgentCollaborationBudget.to_goal (AgentCollaborationBudget.from_goal b) = b.
Proof. by destruct b. Qed.

Lemma schema_roundtrip (o : option AgentSchemaRef.t) rs :
  match (fun schema => AgentCollaborationSchemaRef.mk (AgentSchemaId.as_str (AgentSchemaRef.schema_id schema))
                         (AgentRevisionNumber.get (AgentSchemaRef.version schema))) <$> o with
  | Some schema =>
      let? i := map_err A2AIdentity (AgentSchemaId.new (AgentCollaborationSchemaRef.id schema)) in
      Ok (Some (AgentSchemaRef.new i (AgentRevisionNumber.new (AgentCollaborationSchemaRef.revision schema))))
  | None => Ok None
  end = Ok rs ↔
  Forall valid_segment
    match o with Some schema => [AgentSchemaId.as_str (AgentSchemaRef.schema_id schema)] | None => [] end ∧
  rs = o.
Proof.
  destruct o as [[[schema] [version]]|]; simpl.
  - rewrite result_bind_iff. setoid_rewrite map_err_ok. setoid_rewrite validated_id_ok. rewrite Forall_singleton.
    split; [by intros (i & [? ->] & [= <-])|intros [? ->]; by eexists].
  - split; [intros [= <-]; by split; [apply List.Forall_nil|]|by intros [_ ->]].
Qed.

Lemma assembled r :
  Provenance.mk (AgentDelegationId.Self (AgentDelegationId.as_str (DelegationRecord.delegation r)))
    (AgentTaskId.Self (AgentTaskId.as_str (DelegationRecord.parent_task r))) (DelegationRecord.parent_run r)
    (DelegationRecord.lineage r) (DelegationRecord.ancestors r) (DelegationRecord.depth r)
    (AgentCapabilityId.Self (AgentCapabilityId.as_str (DelegationRecord.requested_skill r)))
    (list_to_set (btree_elements (Target.capability_scopes (DelegationRecord.resolved r))))
    (Target.credential_bindings (DelegationRecord.resolved r)) (DelegationRecord.result_schema r)
    (AgentCollaborationBudget.to_goal <$> (AgentCollaborationBudget.from_goal <$> DelegationRecord.budget r))
    (DelegationRecord.deadline r) (list_to_set (btree_elements (DelegationRecord.environments r)))
    (list_to_set (btree_elements (DelegationRecord.knowledge_spaces r))) = provenance_of r.
Proof.
  unfold provenance_of. rewrite !list_to_set_btree_elements. f_equal.
  - by destruct (DelegationRecord.delegation r).
  - by destruct (DelegationRecord.parent_task r).
  - by destruct (DelegationRecord.requested_skill r).
  - destruct (DelegationRecord.budget r) as [[]|]; done.
Qed.

Lemma wire_exact r p :
  scope_valid (DelegationRecord.parent_run r) →
  Metadata.to_provenance (Metadata.from_record r) = Ok p ↔
  Forall valid_segment (record_texts r) ∧ p = provenance_of r.
Proof.
  intros Hscope. unfold Metadata.to_provenance, RakkaAgentA2AResult. cbn [Metadata.from_record Metadata.parent_run
    Metadata.lineage Metadata.ancestors Metadata.capability_scopes Metadata.credential_bindings
    Metadata.environments Metadata.knowledge_spaces Metadata.delegation Metadata.parent_task
    Metadata.requested_skill Metadata.result_schema Metadata.depth Metadata.budget Metadata.deadline].
  rewrite parse_run_key by done. cbn [map_err result_bind]. unfold record_texts.
  rewrite !Forall_app, !Forall_cons. split.
  - intros H. bind_ok H l Hl. bind_ok H a Ha. bind_ok H cs Hcs. bind_ok H cb Hcb. bind_ok H e He. bind_ok H k Hk.
    bind_ok H d Hd. bind_ok H t Ht. bind_ok H s Hs. bind_ok H rs Hrs.
    apply try_ids_ok in Hl as [? ->], Ha as [? ->], Hcs as [? ->], Hcb as [? ->], He as [? ->], Hk as [? ->];
      [|by intros []..].
    apply validated_id_ok in Hd as [? ->], Ht as [? ->], Hs as [? ->].
    apply schema_roundtrip in Hrs as [? ->]. injection H as <-. rewrite assembled.
    split; [split_and!; by try apply List.Forall_nil|done].
  - intros [(Hl & Ha & Hcs & Hcb & He & Hk & (Hd & Ht & Hs & _) & Hrs) ->].
    do 6 (apply result_bind_iff; eexists; split; [apply try_ids_ok; [by intros []|by split]|]).
    do 3 (apply result_bind_iff; eexists; split; [apply map_err_ok, validated_id_ok; by split|]).
    apply result_bind_iff. eexists. split; [by apply schema_roundtrip|]. by rewrite <- assembled.
Qed.
End wire.

(** ** The invariant of a tree *)

Section invariant.
Context {Value : Type} (serde : SerdeJson.t Value) (sha256_hex : string → string).
Implicit Types (n : run_node Value) (t : tree Value) (r : DelegationRecord.t Value).

(** What every record of a node satisfies. *)
Record record_ok n r : Prop := {
  rok_parent : DelegationRecord.parent_run r = nd_scope n;
  rok_scope : scope_valid (nd_scope n);
  rok_lineage : DelegationRecord.lineage r = env_lineage (nd_envelope n);
  rok_ancestors : DelegationRecord.ancestors r = env_ancestors (nd_envelope n);
  rok_chain : length (env_ancestors (nd_envelope n)) = length (env_lineage (nd_envelope n));
  rok_deep : (length (env_lineage (nd_envelope n)) <= AGENT_DELEGATION_MAX_LINEAGE)%nat;
  rok_depth : DelegationRecord.depth r = Z.of_nat (length (env_lineage (nd_envelope n))) + 1;
  rok_acyclic : Target.agent (DelegationRecord.resolved r) ∉ env_ancestors (nd_envelope n) ++ [nd_agent n];
  rok_max_depth : ∀ d, env_max_depth (nd_envelope n) = Some d →
    DelegationRecord.depth r <= d ∧ DelegationRecord.budget r ≫= DelegationBudget.max_depth = Some d;
  rok_granted : ∀ g, DelegationRecord.granted_descendants r = Some g →
    DelegationRecord.budget r ≫= DelegationBudget.max_descendants = Some (Z.min g u32_max);
}.

(** The chain above a node and the ceiling [D] of its root. *)
Record node_ok (above : list AgentId.t) (D : option Z) n : Prop := {
  nok_above : env_ancestors (nd_envelope n) = above;
  nok_lineage : length (env_lineage (nd_envelope n)) = length above;
  nok_level : (length above <= S AGENT_DELEGATION_MAX_LINEAGE)%nat;
  nok_agent : NoDup (above ++ [nd_agent n]);
  nok_depth : match nd_envelope n with Some e => Envelope.depth e | None => 0 end = Z.of_nat (length above);
  nok_ceiling : ∀ d, D = Some d → Z.of_nat (length above) <= d ∧
    ∃ d', env_max_depth (nd_envelope n) = Some d' ∧ d' <= d;
  nok_records : ∀ id c, Children.delegations (nd_children n) !! id = Some c → record_ok n (DelegationCell.record c);
  nok_limit : ∀ l, nd_limit n = Some l →
    0 <= l <= u64_max ∧ grants_all (Children.delegations (nd_children n)) ∧
    map_sum cost (Children.delegations (nd_children n)) <= l;
}.

(** A child of the tree belongs to a delegation and holds at most its grant. *)
Definition child_ok n (id : AgentDelegationId.t) (child : run_node Value) : Prop :=
  ∃ c, Children.delegations (nd_children n) !! id = Some c ∧
    ∀ g, granted c = Some g → ∃ l, nd_limit child = Some l ∧ l <= g.

Fixpoint tree_ok (above : list AgentId.t) (D : option Z) t : Prop :=
  match t with
  | Node n children =>
      node_ok above D n ∧ NoDup children.*1 ∧
      foldr (fun child rest => child_ok n child.1 (top child.2) ∧
                               tree_ok (above ++ [nd_agent n]) D child.2 ∧ rest) True children
  end.

Lemma tree_ok_node above D n children :
  tree_ok above D (Node n children) ↔
  node_ok above D n ∧ NoDup children.*1 ∧
  Forall (fun child => child_ok n child.1 (top child.2) ∧ tree_ok (above ++ [nd_agent n]) D child.2) children.
Proof.
  simpl. do 2 (apply and_iff_compat_l). induction children as [|child children IH]; simpl.
  - split; [by constructor|done].
  - rewrite Forall_cons. rewrite <- IH. tauto.
Qed.

(** *** The steps keep it *)

Lemma planned_record_ok above D n ceilings r :
  node_ok above D n → planned serde (nd_scope n) (nd_envelope n) ceilings r → record_ok n r.
Proof.
  intros Hn [Hheld Hceil Hvalid Hl Ha Hp Hscope Hac Hb].
  destruct (validate_chain serde r Hvalid) as (Hdeep & Hdepth & _). rewrite Hl in *.
  destruct (check_ceilings_ok _ _ _ Hceil) as (Hmax & _ & _).
  split; try done.
  - by rewrite (nok_above _ _ _ Hn), (nok_lineage _ _ _ Hn).
  - intros d Hd. split.
    + specialize (Hmax d Hd). rewrite (nok_depth _ _ _ Hn) in Hmax. rewrite Hdepth, (nok_lineage _ _ _ Hn).
      pose proof (nok_level _ _ _ Hn). unfold saturating_add_u32, AGENT_DELEGATION_MAX_LINEAGE in *.
      rewrite u32_max_val in *. lia.
    + rewrite Hb. unfold env_max_depth in Hd. destruct (nd_envelope n ≫= Envelope.budget) as [b|]; [|done].
      simpl in *. unfold child_budget. by destruct (DelegationRecord.granted_descendants r).
  - intros g Hg. rewrite Hb, Hg. unfold child_budget. by destruct (nd_envelope n ≫= Envelope.budget).
Qed.

Lemma node_ok_with above D n (s : Children.t Value) :
  node_ok above D n →
  (∀ id c, Children.delegations s !! id = Some c → record_ok n (DelegationCell.record c)) →
  (∀ l, nd_limit n = Some l → grants_all (Children.delegations s) ∧ map_sum cost (Children.delegations s) <= l) →
  node_ok above D (nd_with n s).
Proof.
  intros [] Hr Hlim. split; try done.
  - intros id c Hc. destruct (Hr id c Hc). by split.
  - intros l Hl. simpl in Hl. split; [naive_solver|by apply Hlim].
Qed.

Lemma commit_send_delegations policy turn now (s : Children.t Value) r :
  Children.delegations (commit_call policy turn now s (A2aSend r)) =
  match Children.delegations s !! DelegationRecord.delegation r with
  | Some _ => Children.delegations s
  | None => <[DelegationRecord.delegation r := DelegationCell.pending r]> (Children.delegations s)
  end.
Proof. simpl. rewrite join_delegations. unfold Children.record_delegation. simpl. by case_match. Qed.

(** The grant of a planned delegation fits into what is left of the limit. *)
Lemma planned_grant above D n r l :
  node_ok above D n → nd_limit n = Some l →
  planned serde (nd_scope n) (nd_envelope n) (Ceilings.of_loop (nd_children n) (nd_limit n)) r →
  ∃ g, DelegationRecord.granted_descendants r = Some g ∧ 0 <= g ∧
    map_sum cost (Children.delegations (nd_children n)) + 1 + g <= l.
Proof.
  intros Hn Hl Hp. destruct (nok_limit _ _ _ Hn l Hl) as (Hl64 & Hg & Hsum).
  destruct (check_ceilings_ok _ _ _ (planned_ceilings _ _ _ _ _ Hp)) as (_ & _ & Hgrant).
  eapply (grant_within _ _ _ l) in Hgrant; [|done|simpl; by apply descendants_spent_sum, grants_all_known].
  destruct Hgrant as (g & Hg' & Hpos & Hle). exists g. split_and!; [done..|]. lia.
Qed.

Lemma delegate_node above D n policy turn now r :
  node_ok above D n →
  planned serde (nd_scope n) (nd_envelope n) (Ceilings.of_loop (nd_children n) (nd_limit n)) r →
  node_ok above D (nd_with n (commit_call policy turn now (nd_children n) (A2aSend r))).
Proof.
  intros Hn Hp. pose proof (planned_record_ok _ _ _ _ _ Hn Hp) as Hr.
  apply node_ok_with; [done|..]; rewrite commit_send_delegations;
    destruct (_ !! DelegationRecord.delegation r) eqn:Hid.
  - by apply (nok_records _ _ _ Hn).
  - intros id c [[_ <-]|[_ Hc]]%lookup_insert_Some; [done|]. by eapply nok_records.
  - intros l Hl. by destruct (nok_limit _ _ _ Hn l Hl) as (_ & ? & ?).
  - intros l Hl. destruct (planned_grant _ _ _ _ _ Hn Hl Hp) as (g & Hg & Hpos & Hle).
    destruct (nok_limit _ _ _ Hn l Hl) as (_ & Hgr & _). split.
    + intros id c [[_ <-]|[_ Hc]]%lookup_insert_Some; [by exists g|by eapply Hgr].
    + rewrite map_sum_insert by done. unfold cost at 1. simpl. rewrite Hg. simpl. lia.
Qed.

Lemma delegate_child n policy turn now r id child :
  child_ok n id child → child_ok (nd_with n (commit_call policy turn now (nd_children n) (A2aSend r))) id child.
Proof.
  intros (c & Hc & Hrest). exists c. split; [|done]. cbn [nd_with nd_children]. rewrite commit_send_delegations.
  destruct (_ !! DelegationRecord.delegation r) eqn:Hid; [done|]. rewrite lookup_insert_ne; [done|]. congruence.
Qed.

Lemma event_node above D n (s : Children.t Value) :
  node_ok above D n → settles (nd_children n) s → node_ok above D (nd_with n s).
Proof.
  intros Hn Hs. apply node_ok_with; [done|..].
  - intros id c Hc. specialize (Hs id). rewrite Hc in Hs.
    destruct (Children.delegations (nd_children n) !! id) as [c0|] eqn:Hc0; [|done].
    destruct Hs as [-> _]. by eapply nok_records.
  - intros l Hl. destruct (nok_limit _ _ _ Hn l Hl) as (_ & Hg & Hle).
    split; [by eapply settles_grants|]. destruct (settles_cost _ _ Hs (grants_all_known _ Hg)). lia.
Qed.

Lemma event_child n (s : Children.t Value) id child :
  settles (nd_children n) s → child_ok n id child → child_ok (nd_with n s) id child.
Proof.
  intros Hs (c & Hc & Hg). specialize (Hs id). rewrite Hc in Hs.
  destruct (Children.delegations s !! id) as [c'|] eqn:Hc'; [|done]. destruct Hs as [Hr _].
  exists c'. split; [done|]. by rewrite Hr.
Qed.

(** *** Creation *)

Lemma seed_descendants escrow budgets definition p q :
  Provenance.budget p ≫= DelegationBudget.max_descendants = Some q →
  ∃ b, AgentBudgetAllocation.descendants
         (AgentBudgetGrant.allocation (task_seed escrow budgets definition None (Some p))) = Some b ∧ b <= q.
Proof.
  intros Hq. unfold task_seed. simpl. rewrite Hq.
  destruct (definition ≫= DelegationBudget.max_descendants) as [a|]; simpl;
    (destruct (match escrow with Some _ => _ | None => _ end) as [[? ? ? ? ? ? ? held] limits]; simpl;
     eexists; split; [done|]; destruct held; lia).
Qed.

Lemma child_envelope n r definition :
  record_ok n r →
  ∃ e, delegation_envelope_for (AgentTask.mk None (Some (provenance_of r)) definition None) = Some e ∧
    Envelope.lineage e = env_lineage (nd_envelope n) ++ [DelegationRecord.delegation r] ∧
    Envelope.ancestors e = env_ancestors (nd_envelope n) ++ [nd_agent n] ∧
    Envelope.depth e = DelegationRecord.depth r ∧
    Envelope.budget e = narrowed_delegation_budget (DelegationRecord.budget r) definition.
Proof.
  intros Hr. unfold delegation_envelope_for. simpl. eexists. split; [done|]. simpl.
  rewrite bool_decide_eq_true_2.
  - by rewrite (rok_lineage _ _ Hr), (rok_ancestors _ _ Hr), (rok_parent _ _ Hr).
  - rewrite (rok_lineage _ _ Hr), (rok_ancestors _ _ Hr). pose proof (rok_chain _ _ Hr) as Hc.
    destruct (env_ancestors (nd_envelope n)); [|by left]. right. by destruct (env_lineage (nd_envelope n)).
Qed.

Lemma narrowed_max_depth granted definition d :
  granted ≫= DelegationBudget.max_depth = Some d →
  ∃ d', narrowed_delegation_budget granted definition ≫= DelegationBudget.max_depth = Some d' ∧ d' <= d.
Proof.
  intros Hg. destruct granted as [b|]; [|done]. destruct definition as [def|]; simpl in *; [|by exists d].
  rewrite Hg. destruct (DelegationBudget.max_depth def) as [m|]; simpl; eexists; (split; [done|lia]).
Qed.

Lemma create_node above D n id c child :
  node_ok above D n → Children.delegations (nd_children n) !! id = Some c →
  creates serde n (DelegationCell.record c) child →
  node_ok (above ++ [nd_agent n]) D child ∧ child_ok n id child.
Proof.
  intros Hn Hc Hcreate. pose proof (nok_records _ _ _ Hn id c Hc) as Hr.
  destruct Hcreate as [p definition budgets escrow limit run Hp _ Hwithin H64].
  apply wire_exact in Hp as [_ ->]; [|rewrite (rok_parent _ _ Hr); apply Hr].
  destruct (child_envelope n (DelegationCell.record c) definition Hr) as (e & He & Hlin & Hanc & Hdep & Hbud).
  split.
  - split; unfold nd_agent; cbn [nd_envelope nd_limit nd_children nd_scope AgentRunScope.agent]; rewrite ?He;
      cbn [env_ancestors env_lineage].
    + by rewrite Hanc, (nok_above _ _ _ Hn).
    + rewrite Hlin, !length_app. simpl. by rewrite (nok_lineage _ _ _ Hn).
    + rewrite length_app. simpl. rewrite <- (nok_lineage _ _ _ Hn). pose proof (rok_deep _ _ Hr). lia.
    + apply NoDup_app. split; [apply Hn|]. split; [|apply NoDup_singleton].
      intros a Ha ->%list_elem_of_singleton. apply (rok_acyclic _ _ Hr). by rewrite (nok_above _ _ _ Hn).
    + rewrite Hdep, (rok_depth _ _ Hr), (nok_lineage _ _ _ Hn), length_app. simpl. lia.
    + intros d Hd. destruct (nok_ceiling _ _ _ Hn d Hd) as (_ & d' & Hd' & ?).
      destruct (rok_max_depth _ _ Hr d' Hd') as [Hle Hmax]. split.
      * rewrite (rok_depth _ _ Hr), (nok_lineage _ _ _ Hn) in Hle. rewrite length_app. simpl. lia.
      * unfold env_max_depth. simpl. rewrite Hbud.
        destruct (narrowed_max_depth _ definition _ Hmax) as (d2 & ? & ?). exists d2. split; [done|lia].
    + done.
    + intros l Hl. split; [|split; [done|]].
      * split; [|by apply H64]. unfold within in Hwithin. subst limit. destruct (AgentBudgetAllocation.descendants _); lia.
      * change (map_sum cost (∅ : DelegationCells Value) <= l). rewrite map_sum_empty. unfold within in Hwithin. subst limit.
        destruct (AgentBudgetAllocation.descendants _); lia.
  - exists c. split; [done|]. intros g Hg. apply (rok_granted _ _ Hr) in Hg.
    destruct (seed_descendants escrow budgets definition (provenance_of (DelegationCell.record c)) _ Hg) as (b & Hb & Hle).
    rewrite Hb in Hwithin. simpl in *. destruct limit as [l|]; [|done]. exists l. split; [done|lia].
Qed.

(** *** Every step *)

Lemma step_tree above D t t' : tree_step serde sha256_hex t t' → tree_ok above D t → tree_ok above D t'.
Proof.
  intros Hstep. revert above.
  induction Hstep as [n children config call turn slot goal task r1 r2 telemetry now policy record Hplan
    |n children winding_down event Hno|n children id c child Hc Hnew Hcreate|n before id t t' after Hstep IH];
    intros above; rewrite !tree_ok_node; intros (Hn & Hnd & Hall).
  - apply plan_delegation_ok in Hplan. split_and!; [by apply delegate_node|done|].
    eapply Forall_impl; [exact Hall|]. intros child [? ?]. split; [by apply delegate_child|done].
  - pose proof (event_settles winding_down (nd_children n) event Hno) as Hs. split_and!; [by apply event_node|done|].
    eapply Forall_impl; [exact Hall|]. intros child [? ?]. split; [by apply event_child|done].
  - destruct (create_node _ _ _ _ _ _ Hn Hc Hcreate) as [Hchild Hok]. split_and!; [done|..].
    + rewrite fmap_app. apply NoDup_app. split; [done|]. split; [|apply NoDup_singleton].
      by intros i Hi ->%list_elem_of_singleton.
    + apply Forall_app. split; [done|]. apply Forall_singleton. split; [done|].
      apply tree_ok_node. split_and!; [done|apply NoDup_nil_2|by apply List.Forall_nil].
  - rewrite Forall_app, Forall_cons in *. destruct Hall as (Hb & [Hok Ht] & Ha). split_and!; [done| |done| | |done].
    + by rewrite fmap_app, fmap_cons in *.
    + destruct (step_top _ _ _ _ Hstep) as (_ & _ & Hl). unfold child_ok in *. simpl in *. by rewrite Hl.
    + by apply IH.
Qed.

Lemma steps_tree above D t t' : rtc (tree_step serde sha256_hex) t t' → tree_ok above D t → tree_ok above D t'.
Proof. induction 1; [done|]. intros. eauto using step_tree. Qed.

Lemma steps_top t t' : rtc (tree_step serde sha256_hex) t t' → nd_limit (top t') = nd_limit (top t).
Proof. induction 1 as [|t1 t2 t3 Hs _ IH]; [done|]. by rewrite IH, (proj2 (proj2 (step_top _ _ _ _ Hs))). Qed.

(** *** What it says of the whole tree *)

Lemma tree_descendants above D t l :
  tree_ok above D t → nd_limit (top t) = Some l → descendants t <= l + escaped t.
Proof.
  revert above l. induction t as [n children IH] using tree_induction. intros above l. rewrite tree_ok_node.
  simpl. intros (Hn & Hnd & Hall) Hl. destruct (nok_limit _ _ _ Hn l Hl) as (_ & Hg & Hsum).
  set (cells := Children.delegations (nd_children n)) in *.
  transitivity (foldr (fun id total => match cells !! id with Some c => cost c | None => 0 end + total) 0 children.*1 +
    foldr (fun child total => match cells !! child.1 with Some c => released c | None => 0 end +
             escaped child.2 + total) 0 children).
  - clear Hnd. induction children as [|[id t] children IHc]; [done|].
    rewrite fmap_cons. cbn [foldr fst snd].
    apply Forall_cons in IH as [IHt IH], Hall as [[(c & Hc & Hgrant) Ht] Hall]. cbn [fst snd] in *.
    fold cells in Hc. rewrite Hc. specialize (IHc IH Hall). pose proof (cost_released c) as Hcr.
    destruct (Hg id c Hc) as (g & Hgc & _). destruct (Hgrant g Hgc) as (l' & Hl' & ?).
    pose proof (IHt _ _ Ht Hl'). rewrite Hgc in Hcr. change (default 0 (Some g)) with g in Hcr. lia.
  - apply Z.add_le_mono_r. etrans; [|exact Hsum]. apply sum_some_cells; [by apply grants_all_known|done|]. intros id Hid.
    apply list_elem_of_fmap in Hid as ([i t] & -> & Hin). rewrite Forall_forall in Hall.
    destruct (Hall _ Hin) as [(c & Hc & _) _]. by exists c.
Qed.

Lemma truthful_escaped t : truthful t → escaped t = 0.
Proof.
  induction t as [n children IH] using tree_induction. simpl.
  induction children as [|[id t] children IHc]; [done|]. simpl. apply Forall_cons in IH as [IHt IH].
  intros (Hlive & Ht & Hrest). simpl in IHt. rewrite (IHt Ht), (IHc IH Hrest).
  destruct (Children.delegations (nd_children n) !! id) as [c|]; [|done]. unfold released. by rewrite (Hlive c).
Qed.

Lemma tree_paths above D t path :
  tree_ok above D t → path ∈ paths t →
  NoDup (above ++ path) ∧ (length (above ++ path) <= AGENT_DELEGATION_MAX_LINEAGE + 2)%nat ∧
  (∀ d, D = Some d → Z.of_nat (length (above ++ path)) <= d + 1).
Proof.
  revert above path. induction t as [n children IH] using tree_induction. intros above path.
  rewrite tree_ok_node. intros (Hn & _ & Hall) Hpath. simpl in Hpath. apply elem_of_cons in Hpath as [->|Hin].
  - split_and!; [apply Hn|..].
    + rewrite length_app. simpl. pose proof (nok_level _ _ _ Hn). unfold AGENT_DELEGATION_MAX_LINEAGE in *. lia.
    + intros d Hd. destruct (nok_ceiling _ _ _ Hn d Hd) as [? _]. rewrite length_app. simpl. lia.
  - apply list_elem_of_In, in_flat_map in Hin as (child & Hc%list_elem_of_In & Hp%list_elem_of_In).
    apply list_elem_of_fmap in Hp as (rest & -> & Hrest). rewrite Forall_forall in IH, Hall.
    destruct (Hall _ Hc) as [_ Ht]. specialize (IH _ Hc _ _ Ht Hrest). by rewrite <- app_assoc in IH.
Qed.

(** *** Roots *)

Definition root (task : AgentTask.t) (scope : AgentRunScope.t) (limit : option Z) : tree Value :=
  Node (RunNode scope (delegation_envelope_for task) limit Children.new) [].

Lemma root_envelope task :
  AgentTask.delegation task = None →
  match delegation_envelope_for task with
  | Some e => Envelope.lineage e = [] ∧ Envelope.ancestors e = [] ∧ Envelope.depth e = 0
  | None => True
  end.
Proof.
  intros Ht. assert (match delegation_envelope_base task with
    | Some e => Envelope.lineage e = [] ∧ Envelope.ancestors e = [] ∧ Envelope.depth e = 0
    | None => True end) as Hb.
  { unfold delegation_envelope_base. rewrite Ht. destruct (AgentTask.goal_spec task); [done|].
    by destruct (AgentTask.definition_delegation task). }
  unfold delegation_envelope_for. destruct (AgentTask.handoff task) as [[[] spaces]|]; try done;
    by destruct (delegation_envelope_base task).
Qed.

Lemma root_ok task scope limit :
  AgentTask.delegation task = None → (∀ l, limit = Some l → 0 <= l <= u64_max) →
  (∀ d, env_max_depth (delegation_envelope_for task) = Some d → 0 <= d) →
  tree_ok [] (env_max_depth (delegation_envelope_for task)) (root task scope limit).
Proof.
  intros Ht Hl Hd. apply tree_ok_node. split_and!; [|apply NoDup_nil_2|by apply List.Forall_nil].
  pose proof (root_envelope task Ht) as He. destruct (delegation_envelope_for task) as [e|] eqn:Henv; simpl in *.
  - destruct He as (Hlin & Hanc & Hdep). split; simpl; rewrite ?Hlin, ?Hanc; try done; try lia.
    + apply NoDup_singleton.
    + intros d H. split; [by apply Hd|by exists d].
    + intros l H. split; [by apply Hl|]. split; [done|].
      change (map_sum cost (∅ : DelegationCells Value) <= l). rewrite map_sum_empty. by apply Hl.
  - split; simpl; try done; try lia.
    + apply NoDup_singleton.
    + intros l H. split; [by apply Hl|]. split; [done|].
      change (map_sum cost (∅ : DelegationCells Value) <= l). rewrite map_sum_empty. by apply Hl.
Qed.
End invariant.
