(* ===== verification/DelegationProps.v ===== *)
(** * Delegation: theorems

    The theorems about delegation that the library exports, over the door of
    [DelegationDoor.v] and the trees of [DelegationTree.v], with a small example. *)

From stdpp Require Import pretty.
From S2P Require Import Prelude AgentIdentity CompiledPlan Budget Delegation FanIn FanInRuns DelegationDoor.
From S2P Require Import DelegationTree.

(** ** Counting cells *)

Section counting.
Context {Value : Type}.

Lemma btree_values_insert (m : DelegationCells Value) id c :
  m !! id = None → btree_values (<[id := c]> m) ≡ₚ c :: btree_values m.
Proof.
  intros Hid. unfold btree_values. rewrite !btree_entries_perm, map_to_list_insert by done. done.
Qed.

Lemma count_insert (p : DelegationCell.t Value → bool) (m : DelegationCells Value) id c :
  m !! id = None → p c = true →
  length (filter p (btree_values (<[id := c]> m))) = S (length (filter p (btree_values m))).
Proof.
  intros Hid Hp. rewrite btree_values_insert by done. rewrite filter_cons, decide_True; [done|]. by rewrite Hp.
Qed.

Lemma count_le (p : DelegationCell.t Value → bool) (m : DelegationCells Value) :
  (length (filter p (btree_values m)) <= size m)%nat.
Proof.
  etrans; [apply length_filter|]. unfold btree_values. by rewrite length_fmap, length_btree_entries.
Qed.

Lemma descendants_nonneg (t : tree Value) : 0 <= descendants t.
Proof.
  induction t as [n children IH] using tree_induction. simpl. induction IH as [|c cs H _ IH]; simpl; lia.
Qed.
End counting.

(** ** A small tree *)

Module Delegation_demo.
Definition skill : AgentCapabilityId.t := AgentCapabilityId.Self "search".
Definition serde : SerdeJson.t unit :=
  SerdeJson.mk (fun _ => Ok 2%nat) (fun _ => Ok 900%nat) (fun _ => Ok 700%nat)
    (fun _ => Ok (DelegationCall.mk skill tt (Some 500))).
(** An injective stand-in for the digest. *)
Definition sha256_hex (text : string) : string := text.
Definition catalog : AgentDelegationCatalog :=
  StaticAgentDelegationCatalog.resolve
    (StaticAgentDelegationCatalog.with_target StaticAgentDelegationCatalog.new skill
       (Target.new (AgentId.Self "searcher") (AgentTaskDefinitionId.Self "lookup"))).
Definition config : DelegationConfig.t :=
  DelegationConfig.mk (AgentToolId.Self "delegate") None Policy.default catalog {[CapabilityKind.Delegation]} None.
Definition ceilings : DelegationBudget.t := DelegationBudget.mk (Some 2) (Some 3) (Some 7) None.
Definition task : AgentTask.t := AgentTask.mk None None (Some ceilings) None.
Definition scope : AgentRunScope.t := Children_demo.scope.
Definition call : AgentToolCallRequest.t unit :=
  AgentToolCallRequest.mk (AgentToolCallId.Self "call") (AgentToolId.Self "delegate") tt.

Definition plan : result Refusal (DelegationRecord.t unit) :=
  plan_delegation_call serde sha256_hex scope config (delegation_envelope_for task) call
    (Ceilings.of_loop (Children.new : Children.t unit) (Some 7)) 1 0 None (AgentTaskId.Self "root") AgentRevisionNumber.INITIAL
    AgentRevisionNumber.INITIAL Children_demo.telemetry 10.

Definition record : DelegationRecord.t unit :=
  match plan with Ok record => record | Err _ => Children_demo.record "none" end.

Definition lead : run_node unit := RunNode scope (delegation_envelope_for task) (Some 7) Children.new.
Definition lead_waiting : run_node unit :=
  nd_with lead (commit_call Policy.All 1 10 (nd_children lead) (A2aSend record)).
Definition searcher : run_node unit :=
  RunNode (AgentRunScope.mk (TenantId.new "acme") (AgentId.Self "searcher") (AgentRunId.Self "run-2"))
    (delegation_envelope_for (AgentTask.mk None (Some (provenance_of record)) None None)) (Some 2) Children.new.
Definition grown : tree unit := Node lead_waiting [(DelegationRecord.delegation record, Node searcher [])].

Lemma grows : rtc (tree_step serde sha256_hex) (root task scope (Some 7)) grown.
Proof.
  eapply rtc_l.
  { apply (step_delegate serde sha256_hex lead [] config call 1 0 None (AgentTaskId.Self "root")
      AgentRevisionNumber.INITIAL AgentRevisionNumber.INITIAL Children_demo.telemetry 10 Policy.All record).
    vm_compute. reflexivity. }
  eapply rtc_l; [|apply rtc_refl].
  apply (step_create serde sha256_hex lead_waiting [] (DelegationRecord.delegation record)
    (DelegationCell.pending record) searcher).
  - vm_compute. reflexivity.
  - apply not_elem_of_nil.
  - apply (creates_intro serde lead_waiting record (provenance_of record) None
      (AgentBudgetCeilings.mk None None None None None None None None None) None (Some 2) (AgentRunId.Self "run-2")).
    + vm_compute. reflexivity.
    + vm_compute. reflexivity.
    + vm_compute. split; discriminate.
    + intros l [= <-]. by vm_compute.
Qed.

(** *** A send that spends its retries after it created its child, in a run that may have one
    descendant *)

Definition plan_at (s : Children.t unit) (turn : Z) : result Refusal (DelegationRecord.t unit) :=
  plan_delegation_call serde sha256_hex scope config (delegation_envelope_for task) call
    (Ceilings.of_loop s (Some 1)) turn 0 None (AgentTaskId.Self "root") AgentRevisionNumber.INITIAL
    AgentRevisionNumber.INITIAL Children_demo.telemetry 10.
Definition planned_at (s : Children.t unit) (turn : Z) : DelegationRecord.t unit :=
  match plan_at s turn with Ok record => record | Err _ => Children_demo.record "none" end.

Definition single : run_node unit := RunNode scope (delegation_envelope_for task) (Some 1) Children.new.
Definition first_record : DelegationRecord.t unit := planned_at Children.new 1.
Definition first_sent : run_node unit :=
  nd_with single (commit_call Policy.All 1 10 (nd_children single) (A2aSend first_record)).
Definition retries_spent : AgentTimestampMillis * child_event unit :=
  (20, SendFailed (DelegationRecord.effect first_record) "a2a-unreachable" None).
Definition first_failed : run_node unit :=
  nd_with first_sent (apply_child_event false (nd_children first_sent) retries_spent).
Definition second_record : DelegationRecord.t unit := planned_at (nd_children first_failed) 2.
Definition second_sent : run_node unit :=
  nd_with first_failed (commit_call Policy.All 2 10 (nd_children first_failed) (A2aSend second_record)).
Definition leaf (record : DelegationRecord.t unit) (run : string) : AgentDelegationId.t * tree unit :=
  (DelegationRecord.delegation record,
   Node (RunNode (AgentRunScope.mk (TenantId.new "acme") (AgentId.Self "searcher") (AgentRunId.Self run))
     (delegation_envelope_for (AgentTask.mk None (Some (provenance_of record)) None None)) (Some 0) Children.new) []).
Definition overrun : tree unit := Node second_sent [leaf first_record "run-2"; leaf second_record "run-3"].

Lemma leaf_created n record run :
  Metadata.to_provenance (Metadata.from_record record) = Ok (provenance_of record) →
  check_provenance (SerdeJson.provenance_len serde) (AgentRunScope.tenant (nd_scope n)) (Some (provenance_of record)) None = Ok tt →
  AgentRunScope.tenant (nd_scope n) = TenantId.new "acme" → Target.agent (DelegationRecord.resolved record) = AgentId.Self "searcher" →
  within (Some 0) (AgentBudgetAllocation.descendants (AgentBudgetGrant.allocation
    (task_seed None (AgentBudgetCeilings.mk None None None None None None None None None) None None (Some (provenance_of record))))) →
  creates serde n record (top (leaf record run).2).
Proof.
  intros Hp Hc Ht Ha Hw.
  pose proof (creates_intro serde n record (provenance_of record) None
    (AgentBudgetCeilings.mk None None None None None None None None None) None (Some 0) (AgentRunId.Self run) Hp Hc Hw) as H.
  rewrite Ht, Ha in H. apply H. intros l [= <-]. by vm_compute.
Qed.

Lemma overruns : rtc (tree_step serde sha256_hex) (root task scope (Some 1)) overrun.
Proof.
  eapply rtc_l.
  { apply (step_delegate serde sha256_hex single [] config call 1 0 None (AgentTaskId.Self "root")
      AgentRevisionNumber.INITIAL AgentRevisionNumber.INITIAL Children_demo.telemetry 10 Policy.All first_record).
    vm_compute. reflexivity. }
  eapply rtc_l.
  { eapply (step_create serde sha256_hex first_sent [] (DelegationRecord.delegation first_record));
      [vm_compute; reflexivity|apply not_elem_of_nil|].
    apply (leaf_created first_sent first_record "run-2"); [vm_compute; reflexivity..|vm_compute; split; discriminate]. }
  eapply rtc_l; [by apply (step_event serde sha256_hex first_sent _ false retries_spent)|].
  eapply rtc_l.
  { apply (step_delegate serde sha256_hex first_failed _ config call 2 0 None (AgentTaskId.Self "root")
      AgentRevisionNumber.INITIAL AgentRevisionNumber.INITIAL Children_demo.telemetry 10 Policy.All second_record).
    vm_compute. reflexivity. }
  apply rtc_once. eapply (step_create serde sha256_hex second_sent [leaf first_record "run-2"]
    (DelegationRecord.delegation second_record)); [vm_compute; reflexivity|by apply (bool_decide_unpack _); vm_compute|].
  apply (leaf_created second_sent second_record "run-3"); [vm_compute; reflexivity..|vm_compute; split; discriminate].
Qed.
End Delegation_demo.

(** ** Theorems *)

(** C7. The descendants of a root stay within its allocation, but for what failed sends give back.
    However a tree of tasks grows, every run planning its delegations against its own cells and
    envelope only, sends succeeding, failing, being cancelled and creating their child in any
    order and children delegating on, the number of tasks below the root never exceeds the
    descendants its run was allocated plus the grants, the child included, of those delegations
    that have a child although their send is settled as failed.  While there is none, it never
    exceeds the allocation. *)
Theorem descendants_within_allocation {Value} (serde : SerdeJson.t Value) (sha256_hex : string → string)
    (task : AgentTask.t) (scope : AgentRunScope.t) (limit : Z) (t : tree Value)
    (Htask : AgentTask.delegation task = None) (Hlimit : 0 <= limit <= u64_max)
    (Hdepth : ∀ d, env_max_depth (delegation_envelope_for task) = Some d → 0 <= d)
    (Hgrown : rtc (tree_step serde sha256_hex) (root task scope (Some limit)) t) :
  0 <= descendants t <= limit + escaped t ∧ (truthful t → descendants t <= limit).
Proof.
  pose proof (root_ok (Value := Value) task scope (Some limit) Htask ltac:(by intros l [= <-]) Hdepth) as H.
  assert (descendants t <= limit + escaped t) as Hle.
  { eapply tree_descendants; [eapply steps_tree; [exact Hgrown|exact H]|]. by rewrite (steps_top _ _ _ _ Hgrown). }
  split; [split; [apply descendants_nonneg|done]|]. intros Ht%truthful_escaped. lia.
Qed.

Lemma descendants_within_allocation_witness :
  truthful Delegation_demo.grown ∧ descendants Delegation_demo.grown = 1 ∧ descendants Delegation_demo.grown <= 7.
Proof.
  assert (truthful Delegation_demo.grown) as Htrue.
  { split; [|by split]. intros c. vm_compute. by intros [= <-]. }
  split; [exact Htrue|]. split; [reflexivity|]. revert Htrue.
  apply (descendants_within_allocation Delegation_demo.serde Delegation_demo.sha256_hex Delegation_demo.task
           Delegation_demo.scope 7).
  - reflexivity.
  - by vm_compute.
  - intros d [= <-]. lia.
  - exact Delegation_demo.grows.
Defined.

(** A send that spends its retries gives back what its child holds.  A run allocated one
    descendant delegates; the send creates the child, its answers are lost, and its retries
    run out.  The cell is settled as failed, the door sees the whole allocation again, and the
    run delegates a second time: two tasks under an allocation of one. *)
Theorem exhausted_send_overruns :
  rtc (tree_step Delegation_demo.serde Delegation_demo.sha256_hex)
    (root Delegation_demo.task Delegation_demo.scope (Some 1)) Delegation_demo.overrun ∧
  descendants Delegation_demo.overrun = 2 ∧ escaped Delegation_demo.overrun = 1.
Proof. split; [exact Delegation_demo.overruns|]. by vm_compute. Qed.

(** C35. Delegation is well founded.  On every way from the root of a grown tree down to one of
    its tasks no agent occurs twice, although each door compares a target only with the
    ancestors its own envelope names; the way has at most eighteen runs, and a maximum depth
    of the root bounds it throughout the tree. *)
Theorem delegation_chains_acyclic {Value} (serde : SerdeJson.t Value) (sha256_hex : string → string)
    (task : AgentTask.t) (scope : AgentRunScope.t) (limit : option Z) (t : tree Value) (path : list AgentId.t)
    (Htask : AgentTask.delegation task = None) (Hlimit : ∀ l, limit = Some l → 0 <= l <= u64_max)
    (Hdepth : ∀ d, env_max_depth (delegation_envelope_for task) = Some d → 0 <= d)
    (Hgrown : rtc (tree_step serde sha256_hex) (root task scope limit) t) (Hpath : path ∈ paths t) :
  NoDup path ∧ (length path <= 18)%nat ∧
  (∀ d, env_max_depth (delegation_envelope_for task) = Some d → Z.of_nat (length path) <= d + 1).
Proof.
  pose proof (root_ok (Value := Value) task scope limit Htask Hlimit Hdepth) as H.
  eapply (tree_paths []); [eapply steps_tree; [exact Hgrown|exact H]|done].
Qed.

Lemma delegation_chains_acyclic_witness :
  let path := [AgentId.Self "lead"; AgentId.Self "searcher"] in
  path ∈ paths Delegation_demo.grown ∧ NoDup path.
Proof.
  intros path. assert (path ∈ paths Delegation_demo.grown) as Hin by (vm_compute; right; left).
  split; [done|].
  apply (delegation_chains_acyclic Delegation_demo.serde Delegation_demo.sha256_hex Delegation_demo.task
           Delegation_demo.scope (Some 7) Delegation_demo.grown path).
  - reflexivity.
  - intros l [= <-]. by vm_compute.
  - intros d [= <-]. lia.
  - exact Delegation_demo.grows.
  - exact Hin.
Defined.

(** C39. A delegation record crosses the wire exactly.  For a run scope that passed validation,
    the receiver reads the sender's envelope if and only if every other identifier in it is
    valid, and then the provenance holds what the record does. *)
Theorem delegation_wire_roundtrip {Value} (record : DelegationRecord.t Value) (p : Provenance.t)
    (Hscope : scope_valid (DelegationRecord.parent_run record)) :
  Metadata.to_provenance (Metadata.from_record record) = Ok p ↔
  Forall valid_segment (record_texts record) ∧ p = provenance_of record.
Proof. by apply wire_exact. Qed.

Lemma delegation_wire_roundtrip_witness :
  Metadata.to_provenance (Metadata.from_record Delegation_demo.record) = Ok (provenance_of Delegation_demo.record) ∧
  Forall valid_segment (record_texts Delegation_demo.record).
Proof.
  assert (Metadata.to_provenance (Metadata.from_record Delegation_demo.record) =
          Ok (provenance_of Delegation_demo.record)) as H by (vm_compute; reflexivity).
  split; [exact H|].
  apply (delegation_wire_roundtrip Delegation_demo.record (provenance_of Delegation_demo.record)); [|exact H].
  unfold scope_valid. do 3 (apply List.Forall_cons;
    [apply (validate_identity_segment_ok "segment"); vm_compute; reflexivity|]). apply List.Forall_nil.
Defined.

(** The calls of one turn are priced as if each were committed before the next: the
    snapshot that the planner advances past a planned delegation is the snapshot of the
    state in which that delegation is committed. *)
Theorem advanced_ceilings_agree {Value} (s : Children.t Value) (limit : option Z) (record : DelegationRecord.t Value)
    (g : Z) (policy : Policy.t) (turn : Z) (now : AgentTimestampMillis)
    (Hnew : Children.delegations s !! DelegationRecord.delegation record = None)
    (Hfew : (Children.delegation_count s < AGENT_RUN_MAX_DELEGATIONS)%nat)
    (Hknown : grants_known (Children.delegations s))
    (Hgrant : DelegationRecord.granted_descendants record = Some g) (Hpos : 0 <= g) :
  Ceilings.of_loop (commit_call policy turn now s (A2aSend record)) limit =
  Ceilings.commit (Ceilings.of_loop s limit) (Some g).
Proof.
  assert (Children.delegations (commit_call policy turn now s (A2aSend record)) =
          <[DelegationRecord.delegation record := DelegationCell.pending record]> (Children.delegations s)) as Hd.
  { rewrite commit_send_delegations. by rewrite Hnew. }
  unfold Ceilings.of_loop, Ceilings.commit, Children.delegation_count, Children.delegation_fan_out_spent,
    Children.delegation_active_children in *. cbn [Ceilings.held Ceilings.fan_out_spent Ceilings.active_children
    Ceilings.descendants_limit Ceilings.descendants_spent].
  assert (∀ p : DelegationCell.t Value → bool, saturating_add_u64
    (Z.of_nat (length (filter p (btree_values (Children.delegations s))))) 1 =
    Z.of_nat (S (length (filter p (btree_values (Children.delegations s)))))) as Hsat.
  { intros p. pose proof (count_le p (Children.delegations s)). unfold saturating_add_u64, AGENT_RUN_MAX_DELEGATIONS in *.
    rewrite u64_max_val. lia. }
  f_equal.
  - by rewrite Hd, map_size_insert_None.
  - by rewrite Hd, count_insert, Hsat.
  - by rewrite Hd, count_insert, Hsat.
  - rewrite !descendants_spent_sum; [|done|].
    + rewrite Hd, map_sum_insert by done. simpl. f_equal. unfold cost at 1. simpl. rewrite Hgrant. simpl.
      pose proof (map_sum_nonneg cost (Children.delegations s) (fun id c => cost_nonneg _ id c Hknown)).
      unfold saturating_add_u64. lia.
    + rewrite Hd. intros id c [[_ <-]|[_ Hc]]%lookup_insert_Some Hlive; [by exists g|by eapply Hknown].
Qed.

Lemma advanced_ceilings_agree_witness :
  Ceilings.of_loop (commit_call Policy.All 1 10 Children.new (A2aSend Delegation_demo.record)) (Some 7) =
  Ceilings.commit (Ceilings.of_loop (Children.new : Children.t unit) (Some 7)) (Some 2).
Proof.
  apply (advanced_ceilings_agree Children.new (Some 7) Delegation_demo.record 2 Policy.All 1 10).
  - reflexivity.
  - unfold AGENT_RUN_MAX_DELEGATIONS. vm_compute. lia.
  - done.
  - vm_compute. reflexivity.
  - lia.
Defined.
