(* ===== verification/WakeCalendar.v ===== *)
(** * Budget windows of a continuous goal: [rakka-agent/src/wake.rs]

    A goal may bound what its epochs consume per window of logical time.  A rolling window is
    anchored at its first charge; a calendar window is a UTC day, a week from Monday, or a
    month.  Months come from the era-based computation of the source, which is compared here
    with a calendar that counts month by month from 1970 ([month_start]).  Timestamps are
    [u64] milliseconds; a difference or product that leaves the range wraps, as in a release
    build ([week_start_underflows] is where this happens). *)

From S2P Require Import Prelude Delegation.

Inductive AgentCalendarUnit := Day | Week | Month.

#[global] Instance AgentCalendarUnit_eq_dec : EqDecision AgentCalendarUnit.
Proof. solve_decision. Defined.

Definition AgentCalendarUnit_as_label (self : AgentCalendarUnit) : string :=
  match self with Day => "day" | Week => "week" | Month => "month" end.

Inductive AgentBudgetWindow :=
| Rolling (length_millis : Z)
| Calendar (unit : AgentCalendarUnit).

#[global] Instance AgentBudgetWindow_eq_dec : EqDecision AgentBudgetWindow.
Proof. solve_decision. Defined.

Definition MILLIS_PER_DAY : Z := 86400000.

(** ** The computation of the source *)

Definition civil_year_month (days : Z) : Z * Z :=
  let z := days + 719468 in
  let era := z / 146097 in
  let doe := z mod 146097 in
  let yoe := (doe - doe / 1460 + doe / 36524 - doe / 146096) / 365 in
  let doy := doe - (365 * yoe + yoe / 4 - yoe / 100) in
  let mp := (5 * doy + 2) / 153 in
  let month := if mp <? 10 then mp + 3 else mp - 9 in
  let year := yoe + era * 400 + (if month <=? 2 then 1 else 0) in
  (year, month).

Definition days_of_month_start (year month : Z) : Z :=
  let year := if month <=? 2 then year - 1 else year in
  let era := year / 400 in
  let yoe := year mod 400 in
  let mp := if 2 <? month then month - 3 else month + 9 in
  let doy := (153 * mp + 2) / 5 in
  let doe := yoe * 365 + yoe / 4 - yoe / 100 + doy in
  era * 146097 + doe - 719468.

Definition calendar_window_start (unit : AgentCalendarUnit) (now : AgentTimestampMillis) : Z :=
  let days := now / MILLIS_PER_DAY in
  match unit with
  | Day => days * MILLIS_PER_DAY
  | Week =>
      let weekday := (days + 3) mod 7 in
      wrap_u64 ((days - weekday) * MILLIS_PER_DAY)
  | Month =>
      let (year, month) := civil_year_month days in
      days_of_month_start year month * MILLIS_PER_DAY
  end.

Definition next_month (year month : Z) : Z * Z := if month =? 12 then (year + 1, 1) else (year, month + 1).

Definition next_calendar_boundary (unit : AgentCalendarUnit) (now : AgentTimestampMillis) : Z :=
  let days := now / MILLIS_PER_DAY in
  match unit with
  | Day => wrap_u64 ((days + 1) * MILLIS_PER_DAY)
  | Week =>
      let weekday := (days + 3) mod 7 in
      wrap_u64 ((days - weekday + 7) * MILLIS_PER_DAY)
  | Month =>
      let (year, month) := civil_year_month days in
      let (year, month) := next_month year month in
      wrap_u64 (days_of_month_start year month * MILLIS_PER_DAY)
  end.

Definition advance_window_start (window : AgentBudgetWindow) (previous now : AgentTimestampMillis) :
    AgentTimestampMillis :=
  match window with
  | Rolling length_millis =>
      let elapsed := saturating_sub now previous in
      previous + (elapsed / length_millis) * length_millis
  | Calendar unit =>
      let boundary := calendar_window_start unit now in
      if previous <? boundary then boundary else previous
  end.

Definition initial_window_start (window : AgentBudgetWindow) (now : AgentTimestampMillis) :
    AgentTimestampMillis :=
  match window with
  | Rolling _ => now
  | Calendar unit => calendar_window_start unit now
  end.

Definition next_window_boundary (window : AgentBudgetWindow) (start now : AgentTimestampMillis) :
    AgentTimestampMillis :=
  match window with
  | Rolling length_millis =>
      let elapsed := saturating_sub now start in
      let turns := elapsed / length_millis + 1 in
      saturating_add_u64 start (saturating_mul_u64 turns length_millis)
  | Calendar unit => next_calendar_boundary unit now
  end.

(** ** The calendar, month by month *)

Definition is_leap (year : Z) : bool :=
  (year mod 4 =? 0) && (negb (year mod 100 =? 0) || (year mod 400 =? 0)).

Definition days_in_month (year month : Z) : Z :=
  match month with
  | 2 => if is_leap year then 29 else 28
  | 4 | 6 | 9 | 11 => 30
  | _ => 31
  end.

(** The [n]-th month from January 1970, and the days before it. *)
Fixpoint month_of (n : nat) : Z * Z :=
  match n with
  | O => (1970, 1)
  | S n => next_month (month_of n).1 (month_of n).2
  end.

Fixpoint month_start (n : nat) : Z :=
  match n with
  | O => 0
  | S n => month_start n + days_in_month (month_of n).1 (month_of n).2
  end.

(** Linear arithmetic with division by constants. *)
Ltac zdiv := Z.to_euclidean_division_equations; lia.

(** The days before the first of March of a year. *)
Definition march (y : Z) : Z := 365 * y + y / 4 - y / 100 + y / 400.

Lemma march_era y : 0 <= y →
  (y / 400) * 146097 + (y mod 400 * 365 + y mod 400 / 4 - y mod 400 / 100) = march y.
Proof. intros. unfold march. zdiv. Qed.

Lemma march_step y : march (y + 1) = march y + 365 + (if is_leap (y + 1) then 1 else 0).
Proof.
  unfold march, is_leap.
  destruct (Z.eqb_spec ((y + 1) mod 4) 0), (Z.eqb_spec ((y + 1) mod 100) 0), (Z.eqb_spec ((y + 1) mod 400) 0);
    simpl; zdiv.
Qed.

(** A month starts a fixed number of days after the first of March of its year, which for
    January and February is that of the year before. *)
Lemma month_start_march y m : 1 <= y → 1 <= m <= 12 →
  days_of_month_start y m + 719468 =
  march (if m <=? 2 then y - 1 else y) + (153 * (if 2 <? m then m - 3 else m + 9) + 2) / 5.
Proof.
  intros Hy Hm. unfold days_of_month_start.
  rewrite <-(march_era (if m <=? 2 then y - 1 else y)) by (destruct (m <=? 2); lia). lia.
Qed.

Lemma next_month_range y m : 1 <= y → 1 <= m <= 12 →
  y <= (next_month y m).1 ∧ 1 <= (next_month y m).2 <= 12.
Proof. unfold next_month. destruct (Z.eqb_spec m 12); simpl; lia. Qed.

Lemma days_of_month_start_next y m : 1 <= y → 1 <= m <= 12 →
  days_of_month_start (next_month y m).1 (next_month y m).2 = days_of_month_start y m + days_in_month y m.
Proof.
  intros Hy Hm. pose proof (month_start_march y m Hy Hm) as H.
  pose proof (next_month_range y m Hy Hm) as Hr.
  pose proof (month_start_march _ _ ltac:(apply Z.le_trans with y, Hr; done) (proj2 Hr)) as Hn. clear Hr.
  pose proof (march_step (y - 1)) as Hs. replace (y - 1 + 1) with y in Hs by lia.
  assert (m = 1 ∨ m = 2 ∨ m = 3 ∨ m = 4 ∨ m = 5 ∨ m = 6 ∨ m = 7 ∨ m = 8 ∨ m = 9 ∨ m = 10 ∨ m = 11 ∨ m = 12)
    as Hcases by lia.
  destruct_or! Hcases; subst m; unfold next_month, days_in_month in *; simpl in *;
    try replace (y + 1 - 1) with y in Hn by lia; destruct (is_leap y); zdiv.
Qed.

(** The year of an era: the source divides a number that only grows with the day, so it is
    right on every day when it is right on the first and the last day of each year. *)
Definition flat_days (doe : Z) : Z := doe - doe / 1460 + doe / 36524 - doe / 146096.

Lemma flat_days_mono a b : 0 <= a <= b → b < 146097 → flat_days a <= flat_days b.
Proof. intros. unfold flat_days. zdiv. Qed.

Definition year_ends_agree (y : nat) : bool :=
  (flat_days (march (Z.of_nat y)) / 365 =? Z.of_nat y) &&
  (flat_days (march (Z.of_nat y + 1) - 1) / 365 =? Z.of_nat y).

Lemma all_year_ends_agree : forallb year_ends_agree (seq 0 400) = true.
Proof. vm_compute. reflexivity. Qed.

Lemma era_year_exists (n : nat) doe : 0 <= doe < march (Z.of_nat n) →
  ∃ y : nat, (y < n)%nat ∧ march (Z.of_nat y) <= doe < march (Z.of_nat y + 1).
Proof.
  induction n as [|n IH]; intros H; [change (march (Z.of_nat 0)) with 0 in H; lia|].
  destruct (Z_lt_ge_dec doe (march (Z.of_nat n))) as [Hlt|Hge].
  - destruct IH as (y & ? & ?); [lia|]. exists y. split; [lia|done].
  - exists n. rewrite Nat2Z.inj_succ in H. unfold Z.succ in H. split; [lia|split; lia].
Qed.

Lemma march_bound (y : nat) : (y <= 400)%nat → 0 <= march (Z.of_nat y) <= 146097.
Proof. intros. unfold march. zdiv. Qed.

Lemma era_year doe : 0 <= doe < 146097 →
  let yoe := flat_days doe / 365 in 0 <= yoe < 400 ∧ march yoe <= doe < march (yoe + 1).
Proof.
  intros H. destruct (era_year_exists 400 doe) as (y & Hy & Hd); [exact H|].
  assert (flat_days doe / 365 = Z.of_nat y) as ->; [|simpl; lia].
  pose proof all_year_ends_agree as Hall. rewrite forallb_forall in Hall.
  specialize (Hall y). rewrite in_seq in Hall. specialize (Hall ltac:(lia)).
  apply andb_true_iff in Hall as [Ha%Z.eqb_eq Hb%Z.eqb_eq].
  pose proof (march_bound y ltac:(lia)). pose proof (march_bound (S y) ltac:(lia)) as Hs.
  rewrite Nat2Z.inj_succ in Hs. unfold Z.succ in Hs.
  pose proof (flat_days_mono (march (Z.of_nat y)) doe ltac:(lia) ltac:(lia)) as H1.
  pose proof (flat_days_mono doe (march (Z.of_nat y + 1) - 1) ltac:(lia) ltac:(lia)) as H2.
  apply (Z.div_le_mono _ _ 365) in H1, H2; lia.
Qed.

(** The month of a year that begins in March: the first day of month [mp] is [month_day mp]. *)
Definition month_day (mp : Z) : Z := (153 * mp + 2) / 5.

Definition month_day_agrees (doy : nat) : bool :=
  let mp := (5 * Z.of_nat doy + 2) / 153 in
  (0 <=? mp) && (mp <? 12) && (month_day mp <=? Z.of_nat doy) && (Z.of_nat doy <? month_day (mp + 1)).

Lemma all_month_days_agree : forallb month_day_agrees (seq 0 366) = true.
Proof. vm_compute. reflexivity. Qed.

Lemma month_of_day doy : 0 <= doy < 366 →
  let mp := (5 * doy + 2) / 153 in 0 <= mp < 12 ∧ month_day mp <= doy < month_day (mp + 1).
Proof.
  intros H. pose proof all_month_days_agree as Hall. rewrite forallb_forall in Hall.
  specialize (Hall (Z.to_nat doy)). rewrite in_seq in Hall. specialize (Hall ltac:(lia)).
  unfold month_day_agrees in Hall. rewrite Z2Nat.id in Hall by lia. cbv zeta in *.
  rewrite !andb_true_iff, !Z.leb_le, !Z.ltb_lt in Hall. tauto.
Qed.

(** A day of the year [Y] that begins in March lies in its month. *)
Lemma march_month days Y mp doy : 0 <= days → days + 719468 = march Y + doy → 1969 <= Y → 0 <= mp < 12 →
  month_day mp <= doy < month_day (mp + 1) → doy < march (Y + 1) - march Y →
  let month := if mp <? 10 then mp + 3 else mp - 9 in
  let year := Y + (if month <=? 2 then 1 else 0) in
  1970 <= year ∧ 1 <= month <= 12 ∧
  days_of_month_start year month <= days < days_of_month_start year month + days_in_month year month.
Proof.
  intros Hd Heq HY Hmp Hday Hyear month year. rewrite march_step in Hyear.
  assert (Y = 1969 → 306 <= doy) as H1969 by (intros ->; vm_compute (march 1969) in Heq; lia).
  assert (1 <= month <= 12) as Hm by (unfold month; destruct (Z.ltb_spec mp 10); lia).
  pose proof (month_start_march year month ltac:(unfold year; destruct (month <=? 2); lia) Hm) as Hs.
  subst year month.
  assert (mp = 0 ∨ mp = 1 ∨ mp = 2 ∨ mp = 3 ∨ mp = 4 ∨ mp = 5 ∨ mp = 6 ∨ mp = 7 ∨ mp = 8 ∨ mp = 9 ∨ mp = 10 ∨
          mp = 11) as Hcases by lia.
  destruct_or! Hcases; subst mp; simpl in *; unfold month_day in *; simpl in *;
    try replace (Y + 1 - 1) with Y in Hs by lia; destruct (is_leap (Y + 1)); rewrite ?Z.add_0_r in *; zdiv.
Qed.

(** The month of a day: it contains the day, and is not before January 1970. *)
Lemma civil_year_month_spec days : 0 <= days →
  let '(y, m) := civil_year_month days in
  1970 <= y ∧ 1 <= m <= 12 ∧
  days_of_month_start y m <= days < days_of_month_start y m + days_in_month y m.
Proof.
  intros Hd. unfold civil_year_month.
  set (z := days + 719468). set (era := z / 146097). set (doe := z mod 146097).
  assert (z = era * 146097 + doe ∧ 0 <= doe < 146097 ∧ 4 <= era) as (Hz & Hdoe & Hera)
    by (subst era doe z; zdiv).
  change (doe - doe / 1460 + doe / 36524 - doe / 146096) with (flat_days doe).
  destruct (era_year doe Hdoe) as [Hyoe Hyear]. set (yoe := flat_days doe / 365) in *. clearbody yoe era doe.
  assert (march yoe = 365 * yoe + yoe / 4 - yoe / 100) as Hm by (unfold march; zdiv).
  rewrite <-Hm.
  assert (march (yoe + era * 400) = era * 146097 + march yoe) as Hmarch by (unfold march; zdiv).
  assert (march (yoe + era * 400 + 1) = era * 146097 + march (yoe + 1)) as Hmarch' by (unfold march; zdiv).
  assert (1969 <= yoe + era * 400).
  { destruct (Z_lt_ge_dec (yoe + era * 400) 1969) as [Hlt|]; [|lia].
    assert (march (yoe + era * 400 + 1) <= 719162) by (clear -Hlt; unfold march; zdiv). subst z. lia. }
  pose proof (march_step yoe).
  destruct (month_of_day (doe - march yoe)) as [Hmp Hday]; [destruct (is_leap (yoe + 1)); lia|].
  apply (march_month _ _ _ (doe - march yoe)); [done|subst z; lia|done..|lia].
Qed.

(** ** The two calendars agree *)

Lemma month_of_range n : 1970 <= (month_of n).1 ∧ 1 <= (month_of n).2 <= 12.
Proof.
  induction n as [|n IH]; [done|]. simpl. 
  pose proof (next_month_range (month_of n).1 (month_of n).2 ltac:(lia) (proj2 IH)). lia.
Qed.

Lemma month_start_days n : month_start n = days_of_month_start (month_of n).1 (month_of n).2.
Proof.
  induction n as [|n IH]; [reflexivity|]. simpl. pose proof (month_of_range n).
  rewrite days_of_month_start_next by lia. lia.
Qed.

Lemma days_in_month_pos y m : 28 <= days_in_month y m.
Proof. unfold days_in_month. destruct (is_leap y); repeat case_match; lia. Qed.

Lemma month_start_mono n k : (n <= k)%nat → month_start n <= month_start k.
Proof.
  induction 1 as [|k _ IH]; [done|]. simpl. pose proof (days_in_month_pos (month_of k).1 (month_of k).2). lia.
Qed.

(** Every month from January 1970 on has a number. *)
Lemma month_of_number y m : 1970 <= y → 1 <= m <= 12 → month_of (Z.to_nat ((y - 1970) * 12 + (m - 1))) = (y, m).
Proof.
  intros Hy Hm. remember (Z.to_nat ((y - 1970) * 12 + (m - 1))) as n eqn:Hn. revert y m Hy Hm Hn.
  induction n as [|n IH]; intros y m Hy Hm Hn.
  - simpl. f_equal; lia.
  - simpl. destruct (Z.eqb_spec m 1) as [->|].
    + rewrite (IH (y - 1) 12) by lia. unfold next_month. simpl. f_equal; lia.
    + rewrite (IH y (m - 1)) by lia. unfold next_month. simpl. destruct (Z.eqb_spec (m - 1) 12); [lia|].
      f_equal; lia.
Qed.

(** Every day has a month, the one the source computes. *)
Lemma civil_month days : 0 <= days → ∃ n,
  civil_year_month days = month_of n ∧ month_start n <= days < month_start (S n).
Proof.
  intros Hd. pose proof (civil_year_month_spec days Hd) as H.
  destruct (civil_year_month days) as [y m] eqn:E. destruct H as (Hy & Hm & Hin).
  exists (Z.to_nat ((y - 1970) * 12 + (m - 1))).
  pose proof (month_start_days (Z.to_nat ((y - 1970) * 12 + (m - 1)))) as Hs.
  simpl month_start. rewrite month_of_number in * by lia. simpl in *. by rewrite Hs.
Qed.

(** ** Windows *)

(** The calendar window of a unit: days from midnight, weeks from Monday (the first of January
    1970 was a Thursday), and months of the calendar above. *)
Definition calendar_window (unit : AgentCalendarUnit) (start stop : Z) : Prop :=
  match unit with
  | Day => ∃ d, 0 <= d ∧ start = d * MILLIS_PER_DAY ∧ stop = (d + 1) * MILLIS_PER_DAY
  | Week => ∃ w, 0 <= w ∧ start = (7 * w + 4) * MILLIS_PER_DAY ∧ stop = (7 * w + 11) * MILLIS_PER_DAY
  | Month => ∃ n, start = month_start n * MILLIS_PER_DAY ∧ stop = month_start (S n) * MILLIS_PER_DAY
  end.

(** The first moment of a unit's windows: the source underflows before the first Monday. *)
Definition calendar_origin (unit : AgentCalendarUnit) : Z :=
  match unit with Week => 4 * MILLIS_PER_DAY | _ => 0 end.

Lemma calendar_origin_nonneg unit : 0 <= calendar_origin unit.
Proof. by destruct unit. Qed.

Lemma calendar_window_unique unit a b c d t :
  calendar_window unit a b → calendar_window unit c d → a <= t < b → c <= t < d → a = c ∧ b = d.
Proof.
  destruct unit; cbn [calendar_window].
  - intros (x & ? & -> & ->) (y & ? & -> & ->) ??. assert (x = y) as -> by (unfold MILLIS_PER_DAY in *; lia). done.
  - intros (x & ? & -> & ->) (y & ? & -> & ->) ??. assert (x = y) as -> by (unfold MILLIS_PER_DAY in *; lia). done.
  - intros (x & -> & ->) (y & -> & ->) ??. assert (x = y) as ->; [|done].
    destruct (Nat.lt_trichotomy x y) as [Hl|[->|Hl]]; [|done|];
      apply month_start_mono in Hl; unfold MILLIS_PER_DAY in *; lia.
Qed.

Lemma wrap_u64_small n : is_u64 n → wrap_u64 n = n.
Proof. intros. unfold wrap_u64. apply Z.mod_small. uint. Qed.

Lemma calendar_window_of unit now : calendar_origin unit <= now <= u64_max → ∃ stop,
  calendar_window unit (calendar_window_start unit now) stop ∧
  calendar_window_start unit now <= now < stop ∧ next_calendar_boundary unit now = wrap_u64 stop.
Proof.
  intros Hnow.
  assert (0 <= now / MILLIS_PER_DAY) as Hd by 
    (apply Z.div_pos; [destruct unit; cbn in Hnow; unfold MILLIS_PER_DAY in Hnow; lia|done]).
  pose proof (Z.div_mod now MILLIS_PER_DAY ltac:(done)). pose proof (Z.mod_pos_bound now MILLIS_PER_DAY ltac:(done)).
  unfold calendar_window_start, next_calendar_boundary. set (days := now / MILLIS_PER_DAY) in *.
  destruct unit; cbn [calendar_window calendar_origin] in *.
  - exists ((days + 1) * MILLIS_PER_DAY). split; [by exists days|]. split; [unfold MILLIS_PER_DAY in *; lia|done].
  - assert (4 <= days) by (unfold MILLIS_PER_DAY in *; lia).
    assert (0 <= (days + 3) mod 7 <= days ∧ (days + 3) mod 7 < 7) as Hw by zdiv.
    rewrite wrap_u64_small by (unfold is_u64, MILLIS_PER_DAY in *; lia).
    exists ((days - (days + 3) mod 7 + 7) * MILLIS_PER_DAY).
    split; [|split; [unfold MILLIS_PER_DAY in *; lia|done]].
    exists ((days - 4) / 7). split; [zdiv|]. split; f_equal; zdiv.
  - destruct (civil_month days Hd) as (n & -> & Hin).
    pose proof (month_start_days n) as Hs. pose proof (month_start_days (S n)) as Hs'. cbn [month_of] in Hs'.
    destruct (month_of n) as [y m]. simpl in Hs. cbn [fst snd] in Hs'.
    destruct (next_month y m) as [y' m']. simpl in Hs'. rewrite <-Hs, <-Hs'.
    exists (month_start (S n) * MILLIS_PER_DAY). split; [by exists n|]. split; [unfold MILLIS_PER_DAY in *; lia|done].
Qed.

(** In the first four days of 1970 the start of the week is computed below zero and wraps to
    the last days of the range. *)
Lemma week_start_underflows now : 0 <= now < 4 * MILLIS_PER_DAY →
  calendar_window_start Week now = u64_max + 1 - 3 * MILLIS_PER_DAY.
Proof.
  intros H. unfold calendar_window_start. set (days := now / MILLIS_PER_DAY).
  assert (0 <= days < 4) as Hd by (subst days; unfold MILLIS_PER_DAY in *; zdiv).
  assert (days = 0 ∨ days = 1 ∨ days = 2 ∨ days = 3) as Hcases by lia. clearbody days.
  destruct_or! Hcases; subst days; reflexivity.
Qed.

(** ** The window in force *)

(** The window of [now] that a ledger anchored at [anchor] is in. *)
Definition budget_window (window : AgentBudgetWindow) (anchor start stop : Z) : Prop :=
  match window with
  | Rolling len => ∃ k, 0 <= k ∧ start = anchor + k * len ∧ stop = start + len
  | Calendar unit => calendar_window unit start stop
  end.

Definition window_origin (window : AgentBudgetWindow) : Z :=
  match window with Rolling _ => 0 | Calendar unit => calendar_origin unit end.

Definition window_positive (window : AgentBudgetWindow) : Prop :=
  match window with Rolling len => 0 < len | Calendar _ => True end.

Lemma budget_window_unique w anchor a b c d t : window_positive w →
  budget_window w anchor a b → budget_window w anchor c d → a <= t < b → c <= t < d → a = c ∧ b = d.
Proof.
  destruct w as [len|unit]; simpl; [|by intros _; apply calendar_window_unique].
  intros Hlen (x & ? & -> & ->) (y & ? & -> & ->) ??.
  assert (x = y) as ->; [|done]. destruct (Z.lt_trichotomy x y) as [|[->|]]; nia.
Qed.

Lemma initial_window w t0 : window_positive w → window_origin w <= t0 <= u64_max → ∃ stop,
  budget_window w t0 (initial_window_start w t0) stop ∧ initial_window_start w t0 <= t0 < stop.
Proof.
  destruct w as [len|unit]; simpl; intros Hlen Ht.
  - exists (t0 + len). split; [exists 0; lia|lia].
  - destruct (calendar_window_of unit t0 Ht) as (stop & ? & ? & _). by exists stop.
Qed.

Lemma calendar_window_later unit a b c d t u : calendar_window unit a b → calendar_window unit c d →
  a <= t < b → c <= u < d → t <= u → a <= c.
Proof.
  intros H1 H2 Ha Hb Htu. destruct (Z_lt_ge_dec c a) as [Hlt|]; [|lia].
  destruct (calendar_window_unique unit a b c d t H1 H2); lia.
Qed.

Lemma advanced_window w anchor previous stop t now : window_positive w → window_origin w <= t →
  budget_window w anchor previous stop → previous <= t < stop → t <= now <= u64_max →
  ∃ stop', budget_window w anchor (advance_window_start w previous now) stop' ∧
    advance_window_start w previous now <= now < stop'.
Proof.
  destruct w as [len|unit]; simpl; intros Hlen Ht Hw Hin Hnow.
  - destruct Hw as (k & Hk & -> & ->). unfold saturating_sub. rewrite Z.max_l by lia.
    exists (anchor + k * len + (now - (anchor + k * len)) / len * len + len).
    pose proof (Z.div_mod (now - (anchor + k * len)) len ltac:(lia)).
    pose proof (Z.mod_pos_bound (now - (anchor + k * len)) len ltac:(lia)).
    split; [|lia]. exists (k + (now - (anchor + k * len)) / len).
    split; [|split; lia]. pose proof (Z.div_pos (now - (anchor + k * len)) len ltac:(lia) ltac:(lia)). lia.
  - destruct (calendar_window_of unit now ltac:(lia)) as (stop' & Hw' & Hin' & _). exists stop'.
    pose proof (calendar_window_later _ _ _ _ _ _ _ Hw Hw' Hin Hin' ltac:(lia)).
    destruct (Z.ltb_spec previous (calendar_window_start unit now)); [done|].
    by replace previous with (calendar_window_start unit now) by lia.
Qed.

Lemma next_boundary w anchor start stop now : window_positive w → 0 <= anchor → window_origin w <= now <= u64_max →
  budget_window w anchor start stop → start <= now < stop → stop <= u64_max →
  next_window_boundary w start now = stop.
Proof.
  destruct w as [len|unit]; simpl; intros Hlen Ha Ht Hw Hin Hstop.
  - destruct Hw as (k & Hk & Hs & ->). unfold saturating_sub. rewrite Z.max_l by lia.
    rewrite Z.div_small by lia. unfold saturating_add_u64, saturating_mul_u64. assert (0 <= k * len) by nia. lia.
  - destruct (calendar_window_of unit now Ht) as (stop' & Hw' & Hin' & ->).
    destruct (calendar_window_unique _ _ _ _ _ _ Hw Hw' Hin Hin') as [_ <-].
    pose proof (calendar_origin_nonneg unit). apply wrap_u64_small. split; lia.
Qed.

(** Advancing over readings of a clock that does not run backwards. *)
Lemma advanced_windows w anchor readings : window_positive w → ∀ previous stop t now,
  window_origin w <= t → budget_window w anchor previous stop → previous <= t < stop →
  Sorted Z.le (t :: readings ++ [now]) → now <= u64_max →
  let start := foldl (advance_window_start w) previous (readings ++ [now]) in
  window_origin w <= now ∧ ∃ stop', budget_window w anchor start stop' ∧ start <= now < stop'.
Proof.
  intros Hlen. induction readings as [|u readings IH]; intros previous stop t now Ht Hw Hin Hs Hmax.
  - apply Sorted_inv in Hs as [_ Hs]. apply HdRel_inv in Hs. simpl.
    split; [lia|]. by apply (advanced_window w anchor previous stop t).
  - apply Sorted_inv in Hs as [Hs Hu]. apply HdRel_inv in Hu.
    assert (u <= now) as Hun.
    { apply Sorted_StronglySorted in Hs; [|intros ???; lia]. apply StronglySorted_inv in Hs as [_ Hs].
      rewrite Forall_app, Forall_singleton in Hs. apply Hs. }
    destruct (advanced_window w anchor previous stop t u) as (stop' & ? & ?); [done..|lia|].
    simpl. by apply (IH _ stop' u); [lia|..].
Qed.

(** The window in force is a function of the first charge and the clock.  However often the
    window was advanced in between, at [now] the ledger is in the one window of its kind that
    contains [now]: the rolling window counted from the first charge, or the day, week or
    calendar month, and the re-wake planned for its end is the start of the next one. *)
Theorem budget_windows_exact (w : AgentBudgetWindow) (t0 now : AgentTimestampMillis)
    (readings : list AgentTimestampMillis) (Hlen : window_positive w) (Horigin : window_origin w <= t0)
    (Hsorted : Sorted Z.le (t0 :: readings ++ [now])) (Hnow : now <= u64_max) :
  let start := foldl (advance_window_start w) (initial_window_start w t0) (readings ++ [now]) in
  ∃ stop, budget_window w t0 start stop ∧ start <= now < stop ∧
    (∀ a b, budget_window w t0 a b → a <= now < b → a = start ∧ b = stop) ∧
    (stop <= u64_max → next_window_boundary w start now = stop).
Proof.
  assert (t0 <= now) as H0.
  { apply Sorted_StronglySorted in Hsorted; [|intros ???; lia]. apply StronglySorted_inv in Hsorted as [_ Hs].
    rewrite Forall_app, Forall_singleton in Hs. apply Hs. }
  destruct (initial_window w t0 Hlen ltac:(lia)) as (stop0 & Hw0 & Hin0).
  destruct (advanced_windows w t0 readings Hlen _ _ _ _ Horigin Hw0 Hin0 Hsorted Hnow) as (Ho & stop & Hw & Hin).
  exists stop. split; [done|]. split; [done|]. split.
  - intros a b Ha Hab. by apply (budget_window_unique w t0 _ _ _ _ now).
  - intros Hstop. apply (next_boundary w t0); [done| |lia|done..].
    destruct w as [|unit]; simpl in Horigin; [lia|]. pose proof (calendar_origin_nonneg unit). lia.
Qed.

Definition new_year_1971 : Z := 365 * MILLIS_PER_DAY.

Lemma budget_windows_exact_witness :
  Sorted Z.le [0; 5; new_year_1971 + 7] ∧
  ∃ stop, budget_window (Calendar Month) 0
            (foldl (advance_window_start (Calendar Month)) (initial_window_start (Calendar Month) 0)
               [5; new_year_1971 + 7]) stop.
Proof.
  assert (Sorted Z.le [0; 5; new_year_1971 + 7]) as Hs.
  { repeat constructor; vm_compute; discriminate. }
  split; [exact Hs|].
  destruct (budget_windows_exact (Calendar Month) 0 (new_year_1971 + 7) [5] I ltac:(vm_compute; discriminate)
              Hs ltac:(vm_compute; discriminate)) as (stop & H & _).
  exists stop. exact H.
Defined.
