(* ===== verification/Wake.v ===== *)
(** * Wakes of a continuous goal: [rakka-agent/src/wake.rs]

    The identity of a wake, the binding that carries it, and the versioned policy a goal
    admits wakes under, with their validation and errors; trigger sources are those of
    [rakka-agent-workflow/src/triggers.rs], stagnation policies those of [evaluation.rs].
    Budget windows are in [WakeCalendar], the controller in [WakeController].  The hex digest
    of SHA-256 is a parameter. *)

From S2P Require Import Prelude Core AgentIdentity AgentSchema CompiledPlan Budget Delegation WakeCalendar.

(** ** Identifiers *)

Module AgentWakeId.
Record t := Self { as_str : string }.
#[global] Instance eq_dec : EqDecision t.
Proof. solve_decision. Defined.
#[global] Instance as_str_inj : Inj (=) (=) as_str.
Proof. newtype_inj. Qed.
#[global] Instance countable : Countable t := inj_countable' as_str Self ltac:(by intros []).
Definition new : string → AgentIdentityResult t := validated_id "agent_wake_id" Self.
End AgentWakeId.

Module AgentWakeEventId.
Record t := Self { as_str : string }.
#[global] Instance eq_dec : EqDecision t.
Proof. solve_decision. Defined.
#[global] Instance as_str_inj : Inj (=) (=) as_str.
Proof. newtype_inj. Qed.
Definition new : string → AgentIdentityResult t := validated_id "agent_wake_event_id" Self.
End AgentWakeEventId.

Module AgentWakeCallbackId.
Record t := Self { as_str : string }.
#[global] Instance eq_dec : EqDecision t.
Proof. solve_decision. Defined.
#[global] Instance as_str_inj : Inj (=) (=) as_str.
Proof. newtype_inj. Qed.
Definition new : string → AgentIdentityResult t := validated_id "agent_wake_callback_id" Self.
End AgentWakeCallbackId.

Module AgentPolicyRef.
Record t := Self { as_str : string }.
#[global] Instance eq_dec : EqDecision t.
Proof. solve_decision. Defined.
Definition new : string → AgentIdentityResult t := validated_id "agent_policy_ref" Self.
End AgentPolicyRef.

(** [PrincipalRef] and the string ids of the workflow crate. *)
Module PrincipalRef.
Record t := mk { principal_type : string; principal_id : string; display_name : option string }.
#[global] Instance eq_dec : EqDecision t.
Proof. solve_decision. Defined.
End PrincipalRef.

Module AgentRevisionProvenance.
Record t := mk {
  principal : PrincipalRef.t;
  accepted_at : AgentTimestampMillis;
  causation_id : string;
  audit_ref : string;
}.
#[global] Instance eq_dec : EqDecision t.
Proof. unfold AgentTimestampMillis. solve_decision. Defined.
End AgentRevisionProvenance.

Module ScheduleRevision.
Record t := Self { get : Z }.
#[global] Instance eq_dec : EqDecision t.
Proof. solve_decision. Defined.
Definition INITIAL : t := Self 1.
Definition new (value : Z) : t := if value =? 0 then INITIAL else Self value.
Definition next (self : t) : t := Self (saturating_add_u64 (get self) 1).
Definition fmt (self : t) : string := pretty (get self).
Definition deserialize (value : Z) : option t := if value =? 0 then None else Some (Self value).
End ScheduleRevision.

(** ** Trigger sources: [triggers.rs] *)

Module AgentTriggerSourceKind.
Inductive t := Api | Webhook | Schedule | OnDemand | System | ChildWorkflow | ExternalCallback | HumanDecision.
#[global] Instance eq_dec : EqDecision t.
Proof. solve_decision. Defined.

Definition all : list t :=
  [Api; Webhook; Schedule; OnDemand; System; ChildWorkflow; ExternalCallback; HumanDecision].

Definition as_label (self : t) : string :=
  match self with
  | Api => "api"
  | Webhook => "webhook"
  | Schedule => "schedule"
  | OnDemand => "on-demand"
  | System => "system"
  | ChildWorkflow => "child-workflow"
  | ExternalCallback => "external-callback"
  | HumanDecision => "human-decision"
  end.

Definition from_label (value : string) : option t := find_first (fun kind => String.eqb (as_label kind) value) all.
End AgentTriggerSourceKind.

(** The error of a label; the others belong to commands. *)
Inductive AgentTriggerSourceError := InvalidLabel (key reason : string).

#[global] Instance AgentTriggerSourceError_eq_dec : EqDecision AgentTriggerSourceError.
Proof. solve_decision. Defined.

Definition AGENT_TRIGGER_KIND_ATTRIBUTE : string := "trigger_kind".

Definition BOUNDED_METRIC_FIELDS : list string :=
  ["workflow_type"; "definition_version"; "state_schema_version"; "status"; "operation"; "command_type";
   "message_type"; "step_kind"; "transition"; "effect_kind"; "target_class"; "timer_status";
   "checkpoint_status"; "adapter_kind"; "artifact_kind"; "outcome"; "detail"; "error_code";
   "retry_attempt_bucket"; "tenant_tier"; "trigger_kind"; "deployment_channel"; "redaction"].

Definition AGENT_WORKFLOW_BOUNDED_METRIC_ATTRIBUTES : list string :=
  ["operation"; "command_type"; "message_type"; "workflow_type"; "definition_version";
   "state_schema_version"; "status"; "step_kind"; "transition"; "effect_kind"; "target_class";
   "timer_status"; "checkpoint_status"; "adapter_kind"; "artifact_kind"; "retry_attempt_bucket";
   "outcome"; "detail"; "error_code"; "tenant_tier"; "trigger_kind"; "deployment_channel"; "redaction";
   "component"; "queue"; "direction"; "database_operation"; "entity_type"; "signal"].

Definition ADDITIONAL_FORBIDDEN_METRIC_ATTRIBUTE_KEYS : list string :=
  ["shard_id"; "owner_node_id"; "node_id"; "pod_name"; "pod_uid"; "message_id"; "artifact_id"; "prompt";
   "completion"; "tool_output"; "error_message"; "stacktrace"].

Definition is_bounded_agent_metric_attribute (key : string) : bool :=
  existsb (String.eqb key) AGENT_WORKFLOW_BOUNDED_METRIC_ATTRIBUTES ||
  existsb (String.eqb key) BOUNDED_METRIC_FIELDS.

Definition is_forbidden_agent_metric_attribute (key : string) : bool :=
  existsb (String.eqb key) FORBIDDEN_HOT_METRIC_FIELDS ||
  existsb (String.eqb key) ADDITIONAL_FORBIDDEN_METRIC_ATTRIBUTE_KEYS.

Definition is_sensitive_trigger_key (key : string) : bool :=
  let normalized := to_ascii_lowercase key in
  existsb (fun p => contains_str p normalized)
    ["secret"; "token"; "password"; "api_key"; "apikey"; "authorization"; "credential"; "signature";
     "webhook_url"; "request_body"; "user_id"].

Definition looks_like_sensitive_value (value : string) : bool :=
  let trimmed := trim value in
  let lower := to_ascii_lowercase trimmed in
  existsb (fun p => starts_with p lower) ["http://"; "https://"; "bearer "; "basic "] ||
  existsb (fun p => starts_with p trimmed) ["sk-"; "xoxb-"; "ghp_"; "github_pat_"; "AKIA"; "-----BEGIN "].

Definition validate_trigger_label (entry : string * string) : result AgentTriggerSourceError unit :=
  let (key, value) := entry in
  if str_is_empty (trim key) then Err (InvalidLabel key "label keys must not be empty")
  else if (AGENT_METRIC_ATTRIBUTE_VALUE_MAX_BYTES <? String.length key)%nat then
    Err (InvalidLabel key "label keys must be bounded")
  else if label_value_contains_line_break key then Err (InvalidLabel key "label keys must be single-line")
  else if String.eqb key AGENT_TRIGGER_KIND_ATTRIBUTE then
    Err (InvalidLabel key "trigger kind is derived from AgentTriggerSourceKind")
  else if is_forbidden_agent_metric_attribute key || negb (is_bounded_agent_metric_attribute key) ||
          is_sensitive_trigger_key key then
    Err (InvalidLabel key
           "label keys must be bounded hot-metric attributes and must not contain ids or secrets")
  else if str_is_empty (trim value) then Err (InvalidLabel key "label values must not be empty")
  else if (AGENT_METRIC_ATTRIBUTE_VALUE_MAX_BYTES <? String.length value)%nat then
    Err (InvalidLabel key "label values must be bounded")
  else if label_value_contains_line_break value then
    Err (InvalidLabel key "label values must be single-line bounded labels")
  else if looks_like_sensitive_value value then
    Err (InvalidLabel key "label values must not contain URLs, credentials, or secret material")
  else Ok tt.

Module AgentTriggerSource.
Record t := mk { kind : AgentTriggerSourceKind.t; labels : AgentAttributes }.
#[global] Instance eq_dec : EqDecision t.
Proof. unfold AgentAttributes. solve_decision. Defined.

Definition new (kind : AgentTriggerSourceKind.t) : t := mk kind ∅.

Definition validate (self : t) : result AgentTriggerSourceError unit :=
  try_each validate_trigger_label (btree_entries (labels self)).

Definition label (self : t) (key value : string) : result AgentTriggerSourceError t :=
  let self := mk (kind self) (<[key := value]> (labels self)) in
  let? _ := validate self in Ok self.
End AgentTriggerSource.

(** ** Occurrences *)

Module AgentWakeRewakeCause.
Inductive t := Backoff | WindowTurn.
#[global] Instance eq_dec : EqDecision t.
Proof. solve_decision. Defined.
Definition as_label (self : t) : string := match self with Backoff => "backoff" | WindowTurn => "window-turn" end.
End AgentWakeRewakeCause.

Module AgentWakeOccurrence.
Inductive t :=
| Scheduled (due_at : AgentTimestampMillis)
| ExternalEvent (event : AgentWakeEventId.t)
| Command (operation : AgentOperationId.t)
| Callback (callback : AgentWakeCallbackId.t)
| Retry (due_at : AgentTimestampMillis) (cause : AgentWakeRewakeCause.t) (attempt : Z).
#[global] Instance eq_dec : EqDecision t.
Proof. unfold AgentTimestampMillis. solve_decision. Defined.

Definition kind_label (self : t) : string :=
  match self with
  | Scheduled _ => "scheduled"
  | ExternalEvent _ => "external-event"
  | Command _ => "a2a-command"
  | Callback _ => "callback"
  | Retry _ _ _ => "controller-retry"
  end.

Definition identity_value (self : t) : string :=
  match self with
  | Scheduled due_at => pretty due_at
  | ExternalEvent event => AgentWakeEventId.as_str event
  | Command operation => AgentOperationId.as_str operation
  | Callback callback => AgentWakeCallbackId.as_str callback
  | Retry due_at cause attempt =>
      if attempt =? 0 then AgentWakeRewakeCause.as_label cause +:+ ":" +:+ pretty due_at
      else AgentWakeRewakeCause.as_label cause +:+ ":" +:+ pretty due_at +:+ ":" +:+ pretty attempt
  end.

Definition due_at (self : t) : option AgentTimestampMillis :=
  match self with
  | Scheduled due_at | Retry due_at _ _ => Some due_at
  | _ => None
  end.

Definition fmt (self : t) : string := kind_label self +:+ ":" +:+ identity_value self.
End AgentWakeOccurrence.

Module AgentWakeTriggerKind.
Inductive t := DurableTimer | ExternalEvent | A2aCommand | Callback | Controller.
#[global] Instance eq_dec : EqDecision t.
Proof. solve_decision. Defined.

Definition ALL : list t := [DurableTimer; ExternalEvent; A2aCommand; Callback; Controller].

Definition as_label (self : t) : string :=
  match self with
  | DurableTimer => "durable-timer"
  | ExternalEvent => "external-event"
  | A2aCommand => "a2a-command"
  | Callback => "callback"
  | Controller => "controller"
  end.

(** The position in the declaration, which orders a [BTreeSet] of them. *)
Definition index (self : t) : Z :=
  match self with DurableTimer => 0 | ExternalEvent => 1 | A2aCommand => 2 | Callback => 3 | Controller => 4 end.
#[global] Instance index_inj : Inj (=) (=) index.
Proof. intros [] []; simpl; congruence. Qed.
#[global] Instance countable : Countable t :=
  inj_countable index (fun n => find_first (fun k => index k =? n) ALL) ltac:(by intros []).
End AgentWakeTriggerKind.

Module AgentGoalLifecycleStatus.
Inductive t := Active | Suspended | Expired | Retired.
#[global] Instance eq_dec : EqDecision t.
Proof. solve_decision. Defined.

Definition as_label (self : t) : string :=
  match self with Active => "active" | Suspended => "suspended" | Expired => "expired" | Retired => "retired" end.
Definition permits_admission (self : t) : bool := match self with Active => true | _ => false end.
Definition is_terminal (self : t) : bool := match self with Expired | Retired => true | _ => false end.
End AgentGoalLifecycleStatus.

(** ** Errors *)

Module AgentWakeError.
Inductive t :=
| Identity (error : AgentIdentityError)
| TriggerSource (error : AgentTriggerSourceError)
| EmptyTriggers
| ParallelEpochsNotParallel (max_concurrent_epochs : Z)
| ZeroCatchUp
| ZeroDuration (field : string)
| LatenessBelowAdmissionWindow (admission_window_millis maximum_lateness_millis : Z)
| BackoffInitialZero
| BackoffMultiplierBelowUnit (multiplier_percent : Z)
| BackoffMaximumBelowInitial (initial_millis max_millis : Z)
| ZeroEscalationThreshold
| ZeroRetirementOccurrences
| RenewalWithoutExpiry
| WindowCeilingUnbounded
| WindowEpochUnbounded (dimension : AgentBudgetDimension)
| WindowEpochExceedsCeiling (dimension : AgentBudgetDimension) (epoch_budget ceiling : Z)
| EpochUnbounded
| RevisionAhead (offered current : ScheduleRevision.t)
| TriggerNotAllowed (trigger : AgentWakeTriggerKind.t)
| RetryTriggerMismatch (trigger : AgentWakeTriggerKind.t)
| NotActive (wake : AgentWakeId.t)
| ForeignWakeId (wake : AgentWakeId.t)
| StaleLifecycleRevision (expected current : AgentRevisionNumber.t)
| NotSuspended (status : AgentGoalLifecycleStatus.t)
| LifecycleTerminal (status : AgentGoalLifecycleStatus.t)
| RenewalOutsideWindow (opens effective : AgentTimestampMillis)
| RenewalNotExtending (offered effective : AgentTimestampMillis)
| StateOutOfBounds (detail : string).

Definition code (self : t) : string :=
  match self with
  | Identity _ => "wake-identity"
  | TriggerSource _ => "wake-trigger-source"
  | EmptyTriggers => "wake-empty-triggers"
  | ParallelEpochsNotParallel _ => "wake-parallel-not-parallel"
  | ZeroCatchUp => "wake-zero-catch-up"
  | ZeroDuration _ => "wake-zero-duration"
  | LatenessBelowAdmissionWindow _ _ => "wake-lateness-below-admission-window"
  | BackoffInitialZero => "wake-backoff-initial-zero"
  | BackoffMultiplierBelowUnit _ => "wake-backoff-multiplier-below-unit"
  | BackoffMaximumBelowInitial _ _ => "wake-backoff-maximum-below-initial"
  | ZeroEscalationThreshold => "wake-zero-escalation-threshold"
  | ZeroRetirementOccurrences => "wake-zero-retirement-occurrences"
  | RenewalWithoutExpiry => "wake-renewal-without-expiry"
  | WindowCeilingUnbounded => "wake-window-ceiling-unbounded"
  | WindowEpochUnbounded _ => "wake-window-epoch-unbounded"
  | WindowEpochExceedsCeiling _ _ _ => "wake-window-epoch-exceeds-ceiling"
  | EpochUnbounded => "wake-epoch-unbounded"
  | RevisionAhead _ _ => "wake-revision-ahead"
  | TriggerNotAllowed _ => "wake-trigger-not-allowed"
  | RetryTriggerMismatch _ => "wake-retry-trigger-mismatch"
  | NotActive _ => "wake-not-active"
  | ForeignWakeId _ => "wake-foreign-id"
  | StaleLifecycleRevision _ _ => "wake-stale-lifecycle-revision"
  | NotSuspended _ => "wake-not-suspended"
  | LifecycleTerminal _ => "wake-lifecycle-terminal"
  | RenewalOutsideWindow _ _ => "wake-renewal-outside-window"
  | RenewalNotExtending _ _ => "wake-renewal-not-extending"
  | StateOutOfBounds _ => "wake-state-out-of-bounds"
  end.
End AgentWakeError.

Abbreviation AgentWakeResult := (result AgentWakeError.t).

(** ** Derived identities *)

Definition AGENT_WAKE_ID_PREFIX : string := "wake-".

(** The segments the identity of an occurrence is the digest of. *)
Definition wake_segments (tenant : TenantId.t) (goal : AgentGoalId.t) (schedule_revision : ScheduleRevision.t)
    (occurrence : AgentWakeOccurrence.t) : list string :=
  [TenantId.as_str tenant; AgentGoalId.as_str goal; ScheduleRevision.fmt schedule_revision;
   AgentWakeOccurrence.kind_label occurrence; AgentWakeOccurrence.identity_value occurrence].

Definition wake_id_for_occurrence (sha256_hex : string → string) (tenant : TenantId.t) (goal : AgentGoalId.t)
    (schedule_revision : ScheduleRevision.t) (occurrence : AgentWakeOccurrence.t) : AgentWakeResult AgentWakeId.t :=
  let? _ := map_err AgentWakeError.Identity (validate_tenant tenant) in
  let digest :=
    AgentContentDigest.sha256_of_segments sha256_hex (wake_segments tenant goal schedule_revision occurrence) in
  map_err AgentWakeError.Identity (AgentWakeId.new (AGENT_WAKE_ID_PREFIX +:+ AgentContentDigest.value digest)).

Definition wake_operation_id (kind : AgentOperationKind) (tenant : TenantId.t) (goal : AgentGoalId.t)
    (wake : AgentWakeId.t) : AgentWakeResult AgentOperationId.t :=
  map_err AgentWakeError.Identity
    (AgentOperationId.new kind [TenantId.as_str tenant; AgentGoalId.as_str goal; AgentWakeId.as_str wake]).

Definition wake_admission_operation_id := wake_operation_id WakeAdmission.
Definition epoch_admission_operation_id := wake_operation_id EpochAdmission.
Definition epoch_result_operation_id := wake_operation_id EpochResult.

Definition epoch_task_id_for_wake (wake : AgentWakeId.t) : AgentWakeResult AgentTaskId.t :=
  let text := AgentWakeId.as_str wake in
  if starts_with AGENT_WAKE_ID_PREFIX text then
    let digest := String.substring (String.length AGENT_WAKE_ID_PREFIX) (String.length text) text in
    map_err AgentWakeError.Identity (AgentTaskId.new ("epoch-" +:+ digest))
  else Err (AgentWakeError.ForeignWakeId wake).

Module AgentWakeBinding.
Record t := mk {
  tenant : TenantId.t;
  goal : AgentGoalId.t;
  schedule_revision : ScheduleRevision.t;
  occurrence : AgentWakeOccurrence.t;
  trigger : AgentWakeTriggerKind.t;
  source : option AgentTriggerSource.t;
  accepted_at : AgentTimestampMillis;
  policy_revision : AgentRevisionNumber.t;
  wake : AgentWakeId.t;
}.
#[global] Instance eq_dec : EqDecision t.
Proof. unfold AgentTimestampMillis. solve_decision. Defined.

Definition new (sha256_hex : string → string) (tenant : TenantId.t) (goal : AgentGoalId.t)
    (schedule_revision : ScheduleRevision.t) (occurrence : AgentWakeOccurrence.t)
    (trigger : AgentWakeTriggerKind.t) (accepted_at : AgentTimestampMillis)
    (policy_revision : AgentRevisionNumber.t) : AgentWakeResult t :=
  let? wake := wake_id_for_occurrence sha256_hex tenant goal schedule_revision occurrence in
  Ok (mk tenant goal schedule_revision occurrence trigger None accepted_at policy_revision wake).

Definition with_source (self : t) (source : AgentTriggerSource.t) : AgentWakeResult t :=
  let? _ := map_err AgentWakeError.TriggerSource (AgentTriggerSource.validate source) in
  Ok (mk (tenant self) (goal self) (schedule_revision self) (occurrence self) (trigger self) (Some source)
        (accepted_at self) (policy_revision self) (wake self)).

Definition due_at (self : t) : option AgentTimestampMillis := AgentWakeOccurrence.due_at (occurrence self).

Definition wake_id (self : t) : AgentWakeId.t := wake self.

Definition same_identity (self other : t) : bool :=
  bool_decide (tenant self = tenant other) && bool_decide (goal self = goal other) &&
  bool_decide (schedule_revision self = schedule_revision other) &&
  bool_decide (occurrence self = occurrence other).

Definition admission_operation_id (self : t) : AgentWakeResult AgentOperationId.t :=
  wake_admission_operation_id (tenant self) (goal self) (wake self).

(** What decoding a stored record answers. *)
Inductive decode_error := Invalid (error : AgentWakeError.t) | IdentityMismatch.

Definition deserialize (sha256_hex : string → string) (record : t) : result decode_error t :=
  let? binding :=
    map_err Invalid
      (new sha256_hex (tenant record) (goal record) (schedule_revision record) (occurrence record)
         (trigger record) (accepted_at record) (policy_revision record)) in
  let? binding :=
    match source record with
    | Some source => map_err Invalid (with_source binding source)
    | None => Ok binding
    end in
  if bool_decide (wake_id binding ≠ wake record) then Err IdentityMismatch else Ok binding.
End AgentWakeBinding.

(** ** Policies *)

Module AgentWakeOverlapPolicy.
Inductive t := ForbidAndCoalesce | Parallel (max_concurrent_epochs : Z) (result_policy : AgentPolicyRef.t).
End AgentWakeOverlapPolicy.

Module AgentMissedOccurrencePolicy.
Inductive t := AdmitOneCoalesced | Skip | BoundedCatchUp (max_occurrences : Z).
End AgentMissedOccurrencePolicy.

Module AgentGoalWindowCeiling.
Record t := mk { window : AgentBudgetWindow; ceiling : AgentBudgetAllocation.t }.
End AgentGoalWindowCeiling.

Module AgentWakeBackoffPolicy.
Record t := mk {
  initial_millis : Z;
  multiplier_percent : Z;
  max_millis : Z;
  escalate_after_failures : option Z;
}.

Definition DEFAULT : t := mk 1000 200 3600000 None.

Definition validate (self : t) : AgentWakeResult unit :=
  if initial_millis self =? 0 then Err AgentWakeError.BackoffInitialZero
  else if multiplier_percent self <? 100 then
    Err (AgentWakeError.BackoffMultiplierBelowUnit (multiplier_percent self))
  else if max_millis self <? initial_millis self then
    Err (AgentWakeError.BackoffMaximumBelowInitial (initial_millis self) (max_millis self))
  else if bool_decide (escalate_after_failures self = Some 0) then Err AgentWakeError.ZeroEscalationThreshold
  else Ok tt.
End AgentWakeBackoffPolicy.

Inductive AgentWakeSuspensionPolicy := CoalesceLatest | Drop.

Inductive AgentWakeRenewalPolicy := NotRequired | RequiredBefore (window_millis : Z).

Inductive AgentWakeRetirementPolicy :=
| Manual
| AfterOccurrences (occurrences : Z)
| At (at_ : AgentTimestampMillis).

Module AgentWakeLifecyclePolicy.
Record t := mk {
  while_suspended : AgentWakeSuspensionPolicy;
  renewal : AgentWakeRenewalPolicy;
  expires_at : option AgentTimestampMillis;
  retirement : AgentWakeRetirementPolicy;
}.

Definition DEFAULT : t := mk CoalesceLatest NotRequired None Manual.

Definition validate (self : t) : AgentWakeResult unit :=
  let? _ :=
    match renewal self with
    | RequiredBefore window_millis =>
        if window_millis =? 0 then Err (AgentWakeError.ZeroDuration "renewal window")
        else if bool_decide (expires_at self = None) then Err AgentWakeError.RenewalWithoutExpiry
        else Ok tt
    | NotRequired => Ok tt
    end in
  match retirement self with
  | AfterOccurrences occurrences =>
      if occurrences =? 0 then Err AgentWakeError.ZeroRetirementOccurrences else Ok tt
  | _ => Ok tt
  end.
End AgentWakeLifecyclePolicy.

Module AgentWakePolicy.
Record t := mk {
  triggers : gset AgentWakeTriggerKind.t;
  admission_window_millis : option Z;
  maximum_lateness_millis : option Z;
  overlap : AgentWakeOverlapPolicy.t;
  missed_occurrence : AgentMissedOccurrencePolicy.t;
  epoch_budget : AgentBudgetAllocation.t;
  epoch_deadline_millis : option Z;
  goal_window : option AgentGoalWindowCeiling.t;
  failure_backoff : AgentWakeBackoffPolicy.t;
  lifecycle : AgentWakeLifecyclePolicy.t;
}.

Definition allows_trigger (self : t) (kind : AgentWakeTriggerKind.t) : bool := bool_decide (kind ∈ triggers self).

Definition positive (entry : string * option Z) : AgentWakeResult unit :=
  if bool_decide (entry.2 = Some 0) then Err (AgentWakeError.ZeroDuration entry.1) else Ok tt.

(** One dimension of the window against the budget of an epoch. *)
Definition payable (self : t) (ceiling : AgentBudgetAllocation.t) (dimension : AgentBudgetDimension) :
    AgentWakeResult unit :=
  match AgentBudgetAllocation.get ceiling dimension with
  | None => Ok tt
  | Some limit =>
      match AgentBudgetAllocation.get (epoch_budget self) dimension with
      | None => Err (AgentWakeError.WindowEpochUnbounded dimension)
      | Some budget =>
          if limit <? budget then Err (AgentWakeError.WindowEpochExceedsCeiling dimension budget limit) else Ok tt
      end
  end.

Definition validate_window (self : t) (goal_window : AgentGoalWindowCeiling.t) : AgentWakeResult unit :=
  let? _ :=
    match AgentGoalWindowCeiling.window goal_window with
    | Rolling length_millis =>
        if length_millis =? 0 then Err (AgentWakeError.ZeroDuration "rolling window length") else Ok tt
    | Calendar _ => Ok tt
    end in
  if AgentBudgetAllocation.is_unbounded (AgentGoalWindowCeiling.ceiling goal_window) then
    Err AgentWakeError.WindowCeilingUnbounded
  else try_each (payable self (AgentGoalWindowCeiling.ceiling goal_window)) CONSERVED.

Definition validate (self : t) : AgentWakeResult unit :=
  if bool_decide (triggers self = ∅) then Err AgentWakeError.EmptyTriggers
  else
    let? _ := try_each positive [("admission window", admission_window_millis self);
                                 ("maximum lateness", maximum_lateness_millis self);
                                 ("epoch deadline", epoch_deadline_millis self)] in
    let? _ :=
      match admission_window_millis self, maximum_lateness_millis self with
      | Some window, Some lateness =>
          if lateness <? window then Err (AgentWakeError.LatenessBelowAdmissionWindow window lateness) else Ok tt
      | _, _ => Ok tt
      end in
    let? _ :=
      match overlap self with
      | AgentWakeOverlapPolicy.Parallel max_concurrent_epochs _ =>
          if max_concurrent_epochs <? 2 then
            Err (AgentWakeError.ParallelEpochsNotParallel max_concurrent_epochs)
          else Ok tt
      | AgentWakeOverlapPolicy.ForbidAndCoalesce => Ok tt
      end in
    let? _ :=
      match missed_occurrence self with
      | AgentMissedOccurrencePolicy.BoundedCatchUp max_occurrences =>
          if max_occurrences =? 0 then Err AgentWakeError.ZeroCatchUp else Ok tt
      | _ => Ok tt
      end in
    let? _ :=
      if bool_decide (epoch_deadline_millis self = None) &&
         AgentBudgetAllocation.is_unbounded (epoch_budget self) then Err AgentWakeError.EpochUnbounded
      else Ok tt in
    let? _ := match goal_window self with Some w => validate_window self w | None => Ok tt end in
    let? _ := AgentWakeBackoffPolicy.validate (failure_backoff self) in
    AgentWakeLifecyclePolicy.validate (lifecycle self).

(** Construction and the [with_] helpers end by validating. *)
Definition validated (self : t) : AgentWakeResult t := let? _ := validate self in Ok self.

Definition new (triggers : list AgentWakeTriggerKind.t) (epoch_budget : AgentBudgetAllocation.t)
    (epoch_deadline_millis : option Z) : AgentWakeResult t :=
  validated
    (mk (list_to_set triggers) None None AgentWakeOverlapPolicy.ForbidAndCoalesce
       AgentMissedOccurrencePolicy.AdmitOneCoalesced epoch_budget epoch_deadline_millis None
       AgentWakeBackoffPolicy.DEFAULT AgentWakeLifecyclePolicy.DEFAULT).

Definition with_parallel_epochs (self : t) (max_concurrent_epochs : Z) (result_policy : AgentPolicyRef.t) :
    AgentWakeResult t :=
  let 'mk a b c _ e f g h i j := self in
  validated (mk a b c (AgentWakeOverlapPolicy.Parallel max_concurrent_epochs result_policy) e f g h i j).

Definition with_bounded_catch_up (self : t) (max_occurrences : Z) : AgentWakeResult t :=
  let 'mk a b c d _ f g h i j := self in
  validated (mk a b c d (AgentMissedOccurrencePolicy.BoundedCatchUp max_occurrences) f g h i j).

Definition with_admission_window (self : t) (window_millis : Z) : AgentWakeResult t :=
  let 'mk a _ c d e f g h i j := self in validated (mk a (Some window_millis) c d e f g h i j).

Definition with_maximum_lateness (self : t) (lateness_millis : Z) : AgentWakeResult t :=
  let 'mk a b _ d e f g h i j := self in validated (mk a b (Some lateness_millis) d e f g h i j).

Definition with_goal_window (self : t) (goal_window : AgentGoalWindowCeiling.t) : AgentWakeResult t :=
  let 'mk a b c d e f g _ i j := self in validated (mk a b c d e f g (Some goal_window) i j).

Definition with_failure_backoff (self : t) (backoff : AgentWakeBackoffPolicy.t) : AgentWakeResult t :=
  let 'mk a b c d e f g h _ j := self in validated (mk a b c d e f g h backoff j).

Definition with_lifecycle (self : t) (lifecycle : AgentWakeLifecyclePolicy.t) : AgentWakeResult t :=
  let 'mk a b c d e f g h i _ := self in validated (mk a b c d e f g h i lifecycle).
End AgentWakePolicy.

Module AgentWakePolicyRevision.
Record t := mk {
  schema_version : Z;
  revision : AgentRevisionNumber.t;
  policy : AgentWakePolicy.t;
  provenance : AgentRevisionProvenance.t;
}.

Definition initial (policy : AgentWakePolicy.t) (provenance : AgentRevisionProvenance.t) : AgentWakeResult t :=
  let? _ := AgentWakePolicy.validate policy in
  Ok (mk CURRENT_AGENT_WAKE_POLICY_SCHEMA_VERSION AgentRevisionNumber.INITIAL policy provenance).

Definition updated (self : t) (policy : AgentWakePolicy.t) (provenance : AgentRevisionProvenance.t) :
    AgentWakeResult t :=
  let? _ := AgentWakePolicy.validate policy in
  Ok (mk CURRENT_AGENT_WAKE_POLICY_SCHEMA_VERSION (AgentRevisionNumber.next (revision self)) policy provenance).
End AgentWakePolicyRevision.

(** ** Stagnation policies: [evaluation.rs] *)

Module AgentStagnationTrigger.
Inductive t := RepeatedResult | NoProgress.
#[global] Instance eq_dec : EqDecision t.
Proof. solve_decision. Defined.
#[global] Instance countable : Countable t :=
  inj_countable' (fun k => match k with RepeatedResult => true | NoProgress => false end)
    (fun b : bool => if b then RepeatedResult else NoProgress) ltac:(by intros []).
End AgentStagnationTrigger.

Module AgentGoalStagnationAction.
Inductive t := Continue | Replan | Wait | Escalate | Terminate.
Definition as_label (self : t) : string :=
  match self with
  | Continue => "continue" | Replan => "replan" | Wait => "wait" | Escalate => "escalate"
  | Terminate => "terminate"
  end.
End AgentGoalStagnationAction.

Module AgentGoalStagnationPolicy.
Record t := mk {
  repeated_result_epochs : option Z;
  no_progress_epochs : option Z;
  default_ : AgentGoalStagnationAction.t;
  overrides : gmap AgentStagnationTrigger.t AgentGoalStagnationAction.t;
}.

Definition default : t := mk None None AgentGoalStagnationAction.Wait ∅.

Definition is_enabled (self : t) : bool :=
  bool_decide (is_Some (repeated_result_epochs self)) || bool_decide (is_Some (no_progress_epochs self)).

Definition action_for (self : t) (trigger : AgentStagnationTrigger.t) : AgentGoalStagnationAction.t :=
  from_option id (default_ self) (overrides self !! trigger).

Definition tripped (self : t) (repeated no_progress : Z) : option AgentStagnationTrigger.t :=
  if match repeated_result_epochs self with Some threshold => threshold <=? repeated | None => false end then
    Some AgentStagnationTrigger.RepeatedResult
  else if match no_progress_epochs self with Some threshold => threshold <=? no_progress | None => false end then
    Some AgentStagnationTrigger.NoProgress
  else None.
End AgentGoalStagnationPolicy.

(** ** The identity of a wake is that of its occurrence *)

Lemma string_app_length_inj (a b c d : string) :
  String.length a = String.length b → a +:+ c = b +:+ d → a = b ∧ c = d.
Proof.
  revert b. induction a as [|x a IH]; intros [|y b] Hl H; simpl in Hl; [done|lia|lia|].
  rewrite !string_app_cons in H. injection H as -> H. destruct (IH b) as [-> ->]; [lia|done|done].
Qed.

(** A length-prefixed segment. *)
Definition prefixed_segment (s : string) : string := pretty (String.length s) +:+ String colon s.

Lemma canonical_cons s l :
  AgentContentDigest.canonical (s :: l) = prefixed_segment s +:+ AgentContentDigest.canonical l.
Proof.
  unfold AgentContentDigest.canonical, prefixed_segment.
  assert (∀ l acc, foldl (fun text segment => text +:+ pretty (String.length segment) +:+ ":" +:+ segment) acc l =
    acc +:+ foldl (fun text segment => text +:+ pretty (String.length segment) +:+ ":" +:+ segment) "" l) as H.
  { clear. induction l as [|s l IH]; intros acc; simpl.
    - induction acc as [|x acc IH]; [done|]. by rewrite string_app_cons, <-IH.
    - rewrite (IH (acc +:+ _)), (IH ("" +:+ _)), string_app_nil. by rewrite string_app_assoc. }
  simpl. by rewrite H.
Qed.

Lemma prefixed_segment_inj s t r u : prefixed_segment s +:+ r = prefixed_segment t +:+ u → s = t ∧ r = u.
Proof.
  unfold prefixed_segment. rewrite !string_app_assoc, !string_app_cons. intros H.
  apply (f_equal (split_once colon)) in H. rewrite !split_once_app in H by apply pretty_nat_colon.
  injection H as Hl H. apply (inj pretty) in Hl. by apply string_app_length_inj.
Qed.

(** The text of the segments determines them. *)
Lemma canonical_inj : Inj (=) (=) AgentContentDigest.canonical.
Proof.
  intros l. induction l as [|s l IH]; intros [|t k] H; [done| | |].
  - rewrite canonical_cons in H. unfold prefixed_segment in H. by destruct (pretty (String.length t)).
  - rewrite canonical_cons in H. unfold prefixed_segment in H. by destruct (pretty (String.length s)).
  - rewrite !canonical_cons in H. apply prefixed_segment_inj in H as [-> H]. by rewrite (IH _ H).
Qed.

(** A retry has one text: the label of its cause has no colon, and neither have its numbers. *)
Lemma cause_label_colon c : str_contains colon (AgentWakeRewakeCause.as_label c) = false.
Proof. by destruct c. Qed.

Lemma cause_label_inj : Inj (=) (=) AgentWakeRewakeCause.as_label.
Proof. intros [] []; simpl; congruence. Qed.

Definition retry_numbers (due attempt : Z) : string :=
  if attempt =? 0 then pretty due else pretty due +:+ String colon (pretty attempt).

Lemma retry_numbers_inj due attempt due' attempt' :
  retry_numbers due attempt = retry_numbers due' attempt' → due = due' ∧ attempt = attempt'.
Proof.
  unfold retry_numbers.
  assert (∀ d : Z, split_once colon (pretty d) = None) as Hn by (intros d; apply split_once_None, pretty_Z_colon).
  destruct (Z.eqb_spec attempt 0) as [->|Ha], (Z.eqb_spec attempt' 0) as [->|Ha']; intros H.
  - by apply (inj pretty) in H.
  - apply (f_equal (split_once colon)) in H. by rewrite Hn, split_once_app in H by apply pretty_Z_colon.
  - apply (f_equal (split_once colon)) in H. by rewrite Hn, split_once_app in H by apply pretty_Z_colon.
  - apply (f_equal (split_once colon)) in H. rewrite !split_once_app in H by apply pretty_Z_colon.
    injection H as H H'. apply (inj pretty) in H, H'. done.
Qed.

Lemma retry_value due cause attempt :
  AgentWakeOccurrence.identity_value (AgentWakeOccurrence.Retry due cause attempt) =
  AgentWakeRewakeCause.as_label cause +:+ String colon (retry_numbers due attempt).
Proof. simpl. unfold retry_numbers. by destruct (attempt =? 0). Qed.

(** Kind and value determine an occurrence. *)
Lemma occurrence_text_inj a b : AgentWakeOccurrence.kind_label a = AgentWakeOccurrence.kind_label b →
  AgentWakeOccurrence.identity_value a = AgentWakeOccurrence.identity_value b → a = b.
Proof.
  destruct a as [d|[e]|[o]|[k]|d c n], b as [d'|[e']|[o']|[k']|d' c' n']; try discriminate; intros _.
  1: { simpl. intros H. apply (inj (pretty : Z → string)) in H. by subst. }
  1, 2, 3: simpl; congruence.
  rewrite !retry_value. intros H. apply (f_equal (split_once colon)) in H.
  rewrite !split_once_app in H by apply cause_label_colon. injection H as Hc H.
  apply cause_label_inj in Hc as ->. by apply retry_numbers_inj in H as [-> ->].
Qed.

Lemma wake_segments_inj t g r o t' g' r' o' : wake_segments t g r o = wake_segments t' g' r' o' →
  t = t' ∧ g = g' ∧ r = r' ∧ o = o'.
Proof.
  unfold wake_segments. intros [= Ht Hg Hr Hk Hv]. destruct t, t', g, g', r, r'. simpl in *. subst.
  unfold ScheduleRevision.fmt in Hr. apply (inj pretty) in Hr. simpl in Hr. subst.
  by rewrite (occurrence_text_inj o o').
Qed.

(** The text whose digest identifies a binding. *)
Definition identity_text (b : AgentWakeBinding.t) : string :=
  AgentContentDigest.canonical
    (wake_segments (AgentWakeBinding.tenant b) (AgentWakeBinding.goal b) (AgentWakeBinding.schedule_revision b)
       (AgentWakeBinding.occurrence b)).

(** Bindings as [new] and decoding make them. *)
Definition derived (sha256_hex : string → string) (b : AgentWakeBinding.t) : Prop :=
  wake_id_for_occurrence sha256_hex (AgentWakeBinding.tenant b) (AgentWakeBinding.goal b)
    (AgentWakeBinding.schedule_revision b) (AgentWakeBinding.occurrence b) = Ok (AgentWakeBinding.wake b).

Lemma derived_text sha256_hex b : derived sha256_hex b →
  AgentWakeId.as_str (AgentWakeBinding.wake b) = AGENT_WAKE_ID_PREFIX +:+ sha256_hex (identity_text b).
Proof.
  unfold derived, wake_id_for_occurrence. intros H.
  apply result_bind_ok in H as (_ & _ & H). unfold AgentWakeId.new, validated_id in H.
  simpl in H. fold (identity_text b) in H.
  destruct (validate_identity_segment _ _) as [[]|]; simpl in H; [|done]. by injection H as <-.
Qed.

Lemma new_derived sha256_hex t g r o k a p b :
  AgentWakeBinding.new sha256_hex t g r o k a p = Ok b → derived sha256_hex b.
Proof.
  unfold AgentWakeBinding.new. intros H. apply result_bind_ok in H as (w & Hw & H). injection H as <-. exact Hw.
Qed.

(** A stored record decodes to itself, exactly when its identity is the one its components
    derive and its source is valid. *)
Lemma binding_decodes_exactly sha256_hex record b :
  AgentWakeBinding.deserialize sha256_hex record = Ok b ↔
  b = record ∧ derived sha256_hex record ∧
  (∀ source, AgentWakeBinding.source record = Some source → AgentTriggerSource.validate source = Ok tt).
Proof.
  destruct record as [t g r o k source a p w]. unfold AgentWakeBinding.deserialize, AgentWakeBinding.new, derived.
  simpl. destruct (wake_id_for_occurrence sha256_hex t g r o) as [w'|e]; simpl; [|naive_solver].
  destruct source as [source|]; simpl.
  - unfold AgentWakeBinding.with_source. destruct (AgentTriggerSource.validate source) as [[]|e] eqn:Hv; simpl.
    + case_bool_decide as Hw; unfold AgentWakeBinding.wake_id in Hw; simpl in Hw; [naive_solver|].
      assert (w' = w) as -> by (apply dec_stable; naive_solver). naive_solver.
    + split; [done|]. intros (_ & _ & H). specialize (H _ eq_refl). congruence.
  - case_bool_decide as Hw; unfold AgentWakeBinding.wake_id in Hw; simpl in Hw; [naive_solver|].
    assert (w' = w) as -> by (apply dec_stable; naive_solver). naive_solver.
Qed.

(** A wake is identified by its occurrence and by nothing else.  For two bindings whose
    identities were derived, unless SHA-256 collides on their two texts, the identities are
    equal exactly when tenant, goal, schedule revision and occurrence are, whatever the
    trigger, source, time and policy revision of each delivery: no boundary between segments
    can be forged, and a retry never looks like another attempt. *)
Theorem wake_identity_exact (sha256_hex : string → string) (a b : AgentWakeBinding.t)
    (Ha : derived sha256_hex a) (Hb : derived sha256_hex b)
    (Hsha : sha256_hex (identity_text a) = sha256_hex (identity_text b) → identity_text a = identity_text b) :
  AgentWakeBinding.wake_id a = AgentWakeBinding.wake_id b ↔ AgentWakeBinding.same_identity a b = true.
Proof.
  unfold AgentWakeBinding.wake_id, AgentWakeBinding.same_identity.
  rewrite !andb_true_iff, !bool_decide_eq_true. split.
  - intros Hw. pose proof (derived_text _ _ Ha) as H1. pose proof (derived_text _ _ Hb) as H2.
    rewrite Hw, H2 in H1. apply string_app_length_inj in H1 as [_ H1]; [|done].
    symmetry in H1. apply Hsha in H1. apply canonical_inj, wake_segments_inj in H1 as (? & ? & ? & ?). done.
  - intros [[[Ht Hg] Hr] Ho]. unfold derived in *. rewrite Ht, Hg, Hr, Ho in Ha. congruence.
Qed.

Module Wake_demo.
Definition tenant : TenantId.t := TenantId.new "acme".
Definition goal : AgentGoalId.t := AgentGoalId.Self "nightly".
Definition binding (due accepted : Z) (trigger : AgentWakeTriggerKind.t) : AgentWakeBinding.t :=
  match AgentWakeBinding.new (fun s => s) tenant goal ScheduleRevision.INITIAL
          (AgentWakeOccurrence.Scheduled due) trigger accepted AgentRevisionNumber.INITIAL with
  | Ok b => b
  | Err _ => AgentWakeBinding.mk tenant goal ScheduleRevision.INITIAL (AgentWakeOccurrence.Scheduled due) trigger
               None accepted AgentRevisionNumber.INITIAL (AgentWakeId.Self "")
  end.
End Wake_demo.

Lemma wake_identity_exact_witness :
  let a := Wake_demo.binding 1000 1001 AgentWakeTriggerKind.DurableTimer in
  let b := Wake_demo.binding 1000 1500 AgentWakeTriggerKind.A2aCommand in
  AgentWakeBinding.wake_id a = AgentWakeBinding.wake_id b.
Proof.
  apply (wake_identity_exact (fun s => s)); vm_compute; done.
Defined.
