(* ===== verification/WakeController.v ===== *)
(** * The wake controller: [AgentWakeControllerState] of [rakka-agent/src/wake.rs]

    The durable state of one continuous goal's wakes and every operation on it: admission,
    release, promotion, deferral on an exhausted window, backoff, suspension and the other
    lifecycle commands, schedule updates, stagnation, and the re-wakes the controller owes
    itself.  Every operation is a function on the state record; the private helpers of the
    source are definitions here.  Counters wrap as [u64] does in a release build.  Two names
    are other words in Rocq: the method [admit] is [admit_delivery], and the variant and the
    counter [Admitted] are [WasAdmitted]. *)

From S2P Require Import Prelude AgentIdentity Budget Delegation FanIn WakeCalendar Wake.

Module Status := AgentGoalLifecycleStatus.
Module Binding := AgentWakeBinding.
Module Occurrence := AgentWakeOccurrence.
Module Cause := AgentWakeRewakeCause.
Module Trigger := AgentWakeTriggerKind.
Module WakePolicy := AgentWakePolicy.
Module WakeErr := AgentWakeError.
Module Revision := AgentRevisionNumber.

Definition AGENT_WAKE_PENDING_CAPACITY : nat := 8.
Definition AGENT_WAKE_ACTIVE_CAPACITY : nat := 8.
Definition AGENT_WAKE_RECENT_CAPACITY : nat := 16.
Definition AGENT_WAKE_REASON_MAX_LENGTH : nat := 256.

(** ** Parts of the state *)

Module AgentEpochRef.
Record t := mk { task : AgentTaskId.t; run : AgentRunId.t }.
End AgentEpochRef.

Module AgentActiveWake.
Record t := mk {
  binding : Binding.t;
  admitted_at : AgentTimestampMillis;
  representative : bool;
  epoch : option AgentEpochRef.t;
}.
Definition is_representative (self : t) : bool := representative self.
Definition wake_id (self : t) : AgentWakeId.t := Binding.wake_id (binding self).
Definition set_epoch (self : t) (epoch : AgentEpochRef.t) : t :=
  mk (binding self) (admitted_at self) (representative self) (Some epoch).
End AgentActiveWake.

Module AgentWakeWindowLedger.
Record t := mk { window_start : AgentTimestampMillis; consumed : AgentBudgetConsumption.t }.
End AgentWakeWindowLedger.

Module AgentWakeRewake.
Record t := mk { due_at : AgentTimestampMillis; parked : bool; attempt : Z }.
#[global] Instance eq_dec : EqDecision t.
Proof. unfold AgentTimestampMillis. solve_decision. Defined.
End AgentWakeRewake.

Module AgentWakeRewakes.
Record t := mk { backoff : option AgentWakeRewake.t; window_turn : option AgentWakeRewake.t }.
#[global] Instance eq_dec : EqDecision t.
Proof. solve_decision. Defined.
Definition default : t := mk None None.

Definition owed (slot : option AgentWakeRewake.t) : bool :=
  match slot with Some slot => negb (AgentWakeRewake.parked slot) | None => false end.
Definition owes_parking (self : t) : bool := owed (backoff self) || owed (window_turn self).

Definition slot (self : t) (cause : Cause.t) : option AgentWakeRewake.t :=
  match cause with Cause.Backoff => backoff self | Cause.WindowTurn => window_turn self end.
Definition set_slot (self : t) (cause : Cause.t) (slot : option AgentWakeRewake.t) : t :=
  match cause with
  | Cause.Backoff => mk slot (window_turn self)
  | Cause.WindowTurn => mk (backoff self) slot
  end.
End AgentWakeRewakes.

Definition merge_rewake_slot (slot : option AgentWakeRewake.t) (desired : option AgentTimestampMillis) :
    option AgentWakeRewake.t :=
  match slot, desired with
  | _, None => None
  | Some existing, Some due_at =>
      if AgentWakeRewake.due_at existing =? due_at then Some existing else Some (AgentWakeRewake.mk due_at false 0)
  | None, Some due_at => Some (AgentWakeRewake.mk due_at false 0)
  end.

(** Cut on a character boundary, as [bounded_reason] of [FanIn] at another length. *)
Definition bounded_wake_reason (reason : string) : string :=
  if (AGENT_WAKE_REASON_MAX_LENGTH <? String.length reason)%nat then
    String.substring 0 (boundary_before reason AGENT_WAKE_REASON_MAX_LENGTH) reason
  else reason.

Module AgentGoalLifecycleState.
Record t := mk {
  status : Status.t;
  lifecycle_revision : Revision.t;
  changed_by : option AgentRevisionProvenance.t;
  suspended_reason : option string;
  expires_at_override : option AgentTimestampMillis;
  consecutive_failures : Z;
  backoff_until : option AgentTimestampMillis;
  rewakes : AgentWakeRewakes.t;
  last_result_digest : option AgentContentDigest.t;
  repeated_result_epochs : Z;
  no_progress_epochs : Z;
}.

Definition default : t :=
  mk Status.Active Revision.INITIAL None None None 0 None AgentWakeRewakes.default None 0 0.

Definition effective_expires_at (self : t) (policy : AgentWakeLifecyclePolicy.t) : option AgentTimestampMillis :=
  match expires_at_override self with
  | Some at_ => Some at_
  | None => AgentWakeLifecyclePolicy.expires_at policy
  end.

(** A transition of the status: the revision moves, the reason and the principal are given. *)
Definition change (self : t) (status : Status.t) (changed_by : option AgentRevisionProvenance.t)
    (suspended_reason : option string) (rewakes : AgentWakeRewakes.t) : t :=
  mk status (Revision.next (lifecycle_revision self)) changed_by suspended_reason (expires_at_override self)
    (consecutive_failures self) (backoff_until self) rewakes (last_result_digest self)
    (repeated_result_epochs self) (no_progress_epochs self).

Definition set_expiry (self : t) (expires_at : AgentTimestampMillis) (provenance : AgentRevisionProvenance.t) : t :=
  mk (status self) (Revision.next (lifecycle_revision self)) (Some provenance) (suspended_reason self)
    (Some expires_at) (consecutive_failures self) (backoff_until self) (rewakes self) (last_result_digest self)
    (repeated_result_epochs self) (no_progress_epochs self).

Definition set_failures (self : t) (consecutive_failures : Z) (backoff_until : option AgentTimestampMillis) : t :=
  mk (status self) (lifecycle_revision self) (changed_by self) (suspended_reason self) (expires_at_override self)
    consecutive_failures backoff_until (rewakes self) (last_result_digest self) (repeated_result_epochs self)
    (no_progress_epochs self).

Definition set_rewakes (self : t) (rewakes : AgentWakeRewakes.t) : t :=
  mk (status self) (lifecycle_revision self) (changed_by self) (suspended_reason self) (expires_at_override self)
    (consecutive_failures self) (backoff_until self) rewakes (last_result_digest self)
    (repeated_result_epochs self) (no_progress_epochs self).

Definition set_progress (self : t) (digest : option AgentContentDigest.t) (repeated no_progress : Z) : t :=
  mk (status self) (lifecycle_revision self) (changed_by self) (suspended_reason self) (expires_at_override self)
    (consecutive_failures self) (backoff_until self) (rewakes self) digest repeated no_progress.
End AgentGoalLifecycleState.

Module Lifecycle := AgentGoalLifecycleState.

Module AgentEpochOutcomeClass.
Inductive t := Completed | Failed | Cancelled.
Definition as_label (self : t) : string :=
  match self with Completed => "completed" | Failed => "failed" | Cancelled => "cancelled" end.
End AgentEpochOutcomeClass.

Module AgentWakeCounters.
Record t := mk {
  admitted : Z; coalesced : Z; superseded : Z; missed : Z; fenced : Z; released : Z; deferred : Z;
  backed_off : Z; suspended : Z; dropped : Z; barred : Z; retried : Z; stagnation_repeated : Z;
  stagnation_no_progress : Z;
}.
Definition default : t := mk 0 0 0 0 0 0 0 0 0 0 0 0 0 0.

(** The fields, to name the one an operation moves. *)
Inductive field :=
| WasAdmitted | Coalesced | Superseded | Missed | Fenced | Released | Deferred | BackedOff | Suspended
| Dropped | Barred | Retried | StagnationRepeated | StagnationNoProgress.

Definition get (self : t) (f : field) : Z :=
  match f with
  | WasAdmitted => admitted self | Coalesced => coalesced self | Superseded => superseded self
  | Missed => missed self | Fenced => fenced self | Released => released self | Deferred => deferred self
  | BackedOff => backed_off self | Suspended => suspended self | Dropped => dropped self
  | Barred => barred self | Retried => retried self | StagnationRepeated => stagnation_repeated self
  | StagnationNoProgress => stagnation_no_progress self
  end.

(** [+= n] on one field. *)
Definition add (self : t) (f : field) (n : Z) : t :=
  let 'mk a b c d e g h i j k l m o p := self in
  match f with
  | WasAdmitted => mk (add_u64 a n) b c d e g h i j k l m o p
  | Coalesced => mk a (add_u64 b n) c d e g h i j k l m o p
  | Superseded => mk a b (add_u64 c n) d e g h i j k l m o p
  | Missed => mk a b c (add_u64 d n) e g h i j k l m o p
  | Fenced => mk a b c d (add_u64 e n) g h i j k l m o p
  | Released => mk a b c d e (add_u64 g n) h i j k l m o p
  | Deferred => mk a b c d e g (add_u64 h n) i j k l m o p
  | BackedOff => mk a b c d e g h (add_u64 i n) j k l m o p
  | Suspended => mk a b c d e g h i (add_u64 j n) k l m o p
  | Dropped => mk a b c d e g h i j (add_u64 k n) l m o p
  | Barred => mk a b c d e g h i j k (add_u64 l n) m o p
  | Retried => mk a b c d e g h i j k l (add_u64 m n) o p
  | StagnationRepeated => mk a b c d e g h i j k l m (saturating_add_u64 o n) p
  | StagnationNoProgress => mk a b c d e g h i j k l m o (saturating_add_u64 p n)
  end.
End AgentWakeCounters.

Module Counters := AgentWakeCounters.

Module AgentWakeDisposition.
Inductive t :=
| WasAdmitted (wake : AgentWakeId.t)
| AdmittedCoalesced (wake : AgentWakeId.t)
| Coalesced (wake : AgentWakeId.t) (replaced : option AgentWakeId.t)
| Skipped (wake : AgentWakeId.t)
| Deferred (wake : AgentWakeId.t) (dimension : AgentBudgetDimension)
| BackedOff (wake : AgentWakeId.t) (until : AgentTimestampMillis)
| SuspendedParked (wake : AgentWakeId.t)
| Dropped (wake : AgentWakeId.t)
| Barred (wake : AgentWakeId.t) (status : Status.t)
| Retried (wake : AgentWakeId.t)
| Fenced (wake : AgentWakeId.t) (offered current : ScheduleRevision.t)
| Duplicate (wake : AgentWakeId.t).

Definition as_label (self : t) : string :=
  match self with
  | WasAdmitted _ => "admitted" | AdmittedCoalesced _ => "admitted-coalesced" | Coalesced _ _ => "coalesced"
  | Skipped _ => "skipped" | Deferred _ _ => "deferred" | BackedOff _ _ => "backed-off"
  | SuspendedParked _ => "suspended-parked" | Dropped _ => "dropped" | Barred _ _ => "barred"
  | Retried _ => "retried" | Fenced _ _ _ => "fenced" | Duplicate _ => "duplicate"
  end.

Definition wake_id (self : t) : AgentWakeId.t :=
  match self with
  | WasAdmitted wake | AdmittedCoalesced wake | Coalesced wake _ | Skipped wake | Deferred wake _ | BackedOff wake _
  | SuspendedParked wake | Dropped wake | Barred wake _ | Retried wake | Fenced wake _ _ | Duplicate wake => wake
  end.

Definition is_admission (self : t) : bool :=
  match self with WasAdmitted _ | AdmittedCoalesced _ => true | _ => false end.
End AgentWakeDisposition.

Module Disposition := AgentWakeDisposition.

Module AgentWakeRelease.
Record t := mk {
  released : AgentWakeId.t;
  admitted_next : option AgentWakeId.t;
  epoch : option AgentEpochRef.t;
}.
End AgentWakeRelease.

Inductive AgentWakeParked := Stored (replaced : option AgentWakeId.t) | Overflow.

(** ** The controller *)

Module AgentWakeControllerState.
Record t := mk {
  active : list AgentActiveWake.t;
  pending : list Binding.t;
  recent : list AgentWakeId.t;
  scheduled_watermark : option AgentTimestampMillis;
  last_admitted : option AgentWakeId.t;
  last_admitted_at : option AgentTimestampMillis;
  counters : Counters.t;
  window : option AgentWakeWindowLedger.t;
  lifecycle : Lifecycle.t;
}.

Definition new : t := mk [] [] [] None None None Counters.default None Lifecycle.default.

Definition set_active (self : t) x : t :=
  let 'mk _ b c d e f g h i := self in mk x b c d e f g h i.
Definition set_pending (self : t) x : t :=
  let 'mk a _ c d e f g h i := self in mk a x c d e f g h i.
Definition set_recent (self : t) x : t :=
  let 'mk a b _ d e f g h i := self in mk a b x d e f g h i.
Definition set_watermark (self : t) x : t :=
  let 'mk a b c _ e f g h i := self in mk a b c x e f g h i.
Definition set_last_admitted (self : t) (wake : AgentWakeId.t) (now : AgentTimestampMillis) : t :=
  let 'mk a b c d _ _ g h i := self in mk a b c d (Some wake) (Some now) g h i.
Definition count (self : t) (f : Counters.field) (n : Z) : t :=
  let 'mk a b c d e f' g h i := self in mk a b c d e f' (Counters.add g f n) h i.
Definition set_window (self : t) x : t :=
  let 'mk a b c d e f g _ i := self in mk a b c d e f g x i.
Definition set_lifecycle (self : t) x : t :=
  let 'mk a b c d e f g h _ := self in mk a b c d e f g h x.

Definition status (self : t) : Status.t := Lifecycle.status (lifecycle self).

(** *** Backoff *)

(** The loop: [steps] iterations are left. *)
Fixpoint backoff_loop (policy : AgentWakeBackoffPolicy.t) (steps : nat) (delay : Z) : Z :=
  match steps with
  | O => Z.min delay (AgentWakeBackoffPolicy.max_millis policy)
  | S steps =>
      let delay := saturating_mul_u64 delay (AgentWakeBackoffPolicy.multiplier_percent policy) / 100 in
      if AgentWakeBackoffPolicy.max_millis policy <=? delay then AgentWakeBackoffPolicy.max_millis policy
      else backoff_loop policy steps delay
  end.

Definition backoff_delay_millis (policy : AgentWakeBackoffPolicy.t) (failures : Z) : Z :=
  backoff_loop policy (Z.to_nat (failures - 1)) (AgentWakeBackoffPolicy.initial_millis policy).

Definition backoff_in_force (self : t) (now : AgentTimestampMillis) : bool :=
  match Lifecycle.backoff_until (lifecycle self) with Some until => now <? until | None => false end.

(** *** Lifecycle *)

Definition enter (self : t) (status : Status.t) (changed_by : option AgentRevisionProvenance.t)
    (suspended_reason : option string) : t :=
  set_lifecycle self (Lifecycle.change (lifecycle self) status changed_by suspended_reason AgentWakeRewakes.default).

Definition observe_lifecycle (self : t) (policy : WakePolicy.t) (now : AgentTimestampMillis) : t * option Status.t :=
  if Status.is_terminal (status self) then (self, None)
  else
    let l := lifecycle self in
    let enter_terminal status :=
      (enter self status (Lifecycle.changed_by l) (Lifecycle.suspended_reason l), Some status) in
    let retired :=
      match AgentWakeLifecyclePolicy.retirement (WakePolicy.lifecycle policy) with
      | Manual => false
      | AfterOccurrences occurrences => occurrences <=? Counters.admitted (counters self)
      | At at_ => at_ <=? now
      end in
    if retired then enter_terminal Status.Retired
    else match Lifecycle.effective_expires_at l (WakePolicy.lifecycle policy) with
         | Some expires_at => if expires_at <=? now then enter_terminal Status.Expired else (self, None)
         | None => (self, None)
         end.

Definition fence_lifecycle_revision (self : t) (expected : Revision.t) : AgentWakeResult unit :=
  if Status.is_terminal (status self) then Err (WakeErr.LifecycleTerminal (status self))
  else if bool_decide (expected ≠ Lifecycle.lifecycle_revision (lifecycle self)) then
    Err (WakeErr.StaleLifecycleRevision expected (Lifecycle.lifecycle_revision (lifecycle self)))
  else Ok tt.

Definition revision (self : t) : Revision.t := Lifecycle.lifecycle_revision (lifecycle self).

Definition suspend (self : t) (expected : Revision.t) (reason : option string)
    (provenance : AgentRevisionProvenance.t) : AgentWakeResult (t * Revision.t) :=
  let? _ := fence_lifecycle_revision self expected in
  let self := enter self Status.Suspended (Some provenance) (bounded_wake_reason <$> reason) in
  Ok (self, revision self).

Definition resume (self : t) (expected : Revision.t) (provenance : AgentRevisionProvenance.t) :
    AgentWakeResult (t * Revision.t) :=
  let? _ := fence_lifecycle_revision self expected in
  if bool_decide (status self ≠ Status.Suspended) then Err (WakeErr.NotSuspended (status self))
  else
    let l := lifecycle self in
    let l := Lifecycle.change l Status.Active (Some provenance) None (Lifecycle.rewakes l) in
    let self := set_lifecycle self (Lifecycle.set_failures l 0 None) in
    Ok (self, revision self).

Definition renew (self : t) (expected : Revision.t) (policy : WakePolicy.t) (new_expires_at : AgentTimestampMillis)
    (provenance : AgentRevisionProvenance.t) (now : AgentTimestampMillis) : AgentWakeResult (t * Revision.t) :=
  let? _ := fence_lifecycle_revision self expected in
  match Lifecycle.effective_expires_at (lifecycle self) (WakePolicy.lifecycle policy) with
  | None => Err WakeErr.RenewalWithoutExpiry
  | Some effective =>
      if new_expires_at <=? effective then Err (WakeErr.RenewalNotExtending new_expires_at effective)
      else
        let outside :=
          match AgentWakeLifecyclePolicy.renewal (WakePolicy.lifecycle policy) with
          | RequiredBefore window_millis =>
              let opens := saturating_sub effective window_millis in
              if (now <? opens) || (effective <=? now) then Some opens else None
          | NotRequired => None
          end in
        match outside with
        | Some opens => Err (WakeErr.RenewalOutsideWindow opens effective)
        | None =>
            let self := set_lifecycle self (Lifecycle.set_expiry (lifecycle self) new_expires_at provenance) in
            Ok (self, revision self)
        end
  end.

Definition retire (self : t) (expected : Revision.t) (provenance : AgentRevisionProvenance.t) :
    AgentWakeResult (t * Revision.t) :=
  let? _ := fence_lifecycle_revision self expected in
  let self := enter self Status.Retired (Some provenance) (Lifecycle.suspended_reason (lifecycle self)) in
  Ok (self, revision self).

Definition suspend_by_policy (self : t) (reason : string) : t :=
  if bool_decide (status self ≠ Status.Active) then self
  else enter self Status.Suspended None (Some (bounded_wake_reason reason)).

Definition retire_by_policy (self : t) : t :=
  if Status.is_terminal (status self) then self
  else enter self Status.Retired None (Lifecycle.suspended_reason (lifecycle self)).

(** *** Outcomes of epochs *)

Definition escalation_reason (failures : Z) : string :=
  "escalated after " +:+ pretty failures +:+ " consecutive epoch failures".

Definition record_epoch_outcome (self : t) (policy : WakePolicy.t) (outcome : AgentEpochOutcomeClass.t)
    (now : AgentTimestampMillis) : t * bool :=
  match outcome with
  | AgentEpochOutcomeClass.Completed =>
      (set_lifecycle self (Lifecycle.set_failures (lifecycle self) 0 None), false)
  | AgentEpochOutcomeClass.Cancelled => (self, false)
  | AgentEpochOutcomeClass.Failed =>
      let failures := saturating_add_u32 (Lifecycle.consecutive_failures (lifecycle self)) 1 in
      let delay := backoff_delay_millis (WakePolicy.failure_backoff policy) failures in
      let l := Lifecycle.set_failures (lifecycle self) failures (Some (saturating_add_u64 now delay)) in
      let escalated :=
        match AgentWakeBackoffPolicy.escalate_after_failures (WakePolicy.failure_backoff policy) with
        | Some threshold => threshold <=? failures
        | None => false
        end && bool_decide (status self = Status.Active) in
      if escalated then
        (set_lifecycle self
           (Lifecycle.change l Status.Suspended (Lifecycle.changed_by l)
              (Some (bounded_wake_reason (escalation_reason failures))) AgentWakeRewakes.default), true)
      else (set_lifecycle self l, false)
  end.

Definition record_epoch_progress (self : t) (policy : AgentGoalStagnationPolicy.t)
    (outcome : AgentEpochOutcomeClass.t) (result_digest : option AgentContentDigest.t) :
    t * option AgentStagnationTrigger.t :=
  match outcome with
  | AgentEpochOutcomeClass.Completed =>
      let l := lifecycle self in
      let repeated := Lifecycle.repeated_result_epochs l in
      let no_progress := Lifecycle.no_progress_epochs l in
      let l :=
        match result_digest with
        | Some digest =>
            if bool_decide (Lifecycle.last_result_digest l = Some digest) then
              Lifecycle.set_progress l (Lifecycle.last_result_digest l) (saturating_add_u32 repeated 1)
                (saturating_add_u32 no_progress 1)
            else Lifecycle.set_progress l (Some digest) 1 0
        | None =>
            Lifecycle.set_progress l (Lifecycle.last_result_digest l) repeated (saturating_add_u32 no_progress 1)
        end in
      (set_lifecycle self l,
       AgentGoalStagnationPolicy.tripped policy (Lifecycle.repeated_result_epochs l)
         (Lifecycle.no_progress_epochs l))
  | _ => (self, None)
  end.

Definition record_stagnation_trip (self : t) (trigger : AgentStagnationTrigger.t) : t :=
  match trigger with
  | AgentStagnationTrigger.RepeatedResult => count self Counters.StagnationRepeated 1
  | AgentStagnationTrigger.NoProgress => count self Counters.StagnationNoProgress 1
  end.

Definition reset_stagnation (self : t) : t :=
  set_lifecycle self (Lifecycle.set_progress (lifecycle self) None 0 0).

(** *** The goal window *)

Definition window_of (self : t) (ceiling : AgentGoalWindowCeiling.t) (now : AgentTimestampMillis) :
    AgentTimestampMillis :=
  match window self with
  | Some ledger =>
      advance_window_start (AgentGoalWindowCeiling.window ceiling) (AgentWakeWindowLedger.window_start ledger) now
  | None => initial_window_start (AgentGoalWindowCeiling.window ceiling) now
  end.

(** The ledger of the window of [now], refilled when the window turned. *)
Definition ledger_at (self : t) (ceiling : AgentGoalWindowCeiling.t) (now : AgentTimestampMillis) :
    AgentWakeWindowLedger.t :=
  let start := window_of self ceiling now in
  match window self with
  | Some ledger =>
      if AgentWakeWindowLedger.window_start ledger =? start then ledger
      else AgentWakeWindowLedger.mk start AgentBudgetConsumption.zero
  | None => AgentWakeWindowLedger.mk start AgentBudgetConsumption.zero
  end.

(** Whether a dimension refuses one more epoch. *)
Definition refuses (consumed : AgentBudgetConsumption.t) (ceiling epoch_budget : AgentBudgetAllocation.t)
    (dimension : AgentBudgetDimension) : bool :=
  match AgentBudgetAllocation.get ceiling dimension with
  | None => false
  | Some limit =>
      match AgentBudgetAllocation.get epoch_budget dimension with
      | None => true
      | Some requested => limit <? saturating_add_u64 (AgentBudgetConsumption.get consumed dimension) requested
      end
  end.

Definition window_can_pay (self : t) (ceiling : AgentGoalWindowCeiling.t) (epoch_budget : AgentBudgetAllocation.t)
    (now : AgentTimestampMillis) : bool :=
  negb (existsb (refuses (AgentWakeWindowLedger.consumed (ledger_at self ceiling now))
                   (AgentGoalWindowCeiling.ceiling ceiling) epoch_budget) CONSERVED).

(** What one epoch adds to the ledger. *)
Definition charge_dimension (ceiling epoch_budget : AgentBudgetAllocation.t) (consumed : AgentBudgetConsumption.t)
    (dimension : AgentBudgetDimension) : AgentBudgetConsumption.t :=
  match AgentBudgetAllocation.get ceiling dimension, AgentBudgetAllocation.get epoch_budget dimension with
  | Some _, Some requested => AgentBudgetConsumption.add consumed dimension requested
  | _, _ => consumed
  end.

Definition charge_goal_window (self : t) (ceiling : AgentGoalWindowCeiling.t)
    (epoch_budget : AgentBudgetAllocation.t) (now : AgentTimestampMillis) :
    t * result AgentBudgetDimension unit :=
  let ledger := ledger_at self ceiling now in
  let self := set_window self (Some ledger) in
  let limits := AgentGoalWindowCeiling.ceiling ceiling in
  match find_first (refuses (AgentWakeWindowLedger.consumed ledger) limits epoch_budget) CONSERVED with
  | Some dimension => (self, Err dimension)
  | None =>
      let consumed :=
        foldl (charge_dimension limits epoch_budget) (AgentWakeWindowLedger.consumed ledger) CONSERVED in
      (set_window self (Some (AgentWakeWindowLedger.mk (AgentWakeWindowLedger.window_start ledger) consumed)), Ok tt)
  end.

(** *** Re-wakes *)

Definition ensure_rewakes (self : t) (policy : WakePolicy.t) (now : AgentTimestampMillis) : t :=
  let l := lifecycle self in
  if negb (Status.permits_admission (status self)) then
    set_lifecycle self (Lifecycle.set_rewakes l AgentWakeRewakes.default)
  else
    let waiting := negb (bool_decide (pending self = [])) in
    let desired_backoff := if backoff_in_force self now && waiting then Lifecycle.backoff_until l else None in
    let desired_window_turn :=
      match WakePolicy.goal_window policy with
      | None => None
      | Some ceiling =>
          if waiting && negb (window_can_pay self ceiling (WakePolicy.epoch_budget policy) now) then
            let start :=
              match window self with
              | Some ledger => AgentWakeWindowLedger.window_start ledger
              | None => initial_window_start (AgentGoalWindowCeiling.window ceiling) now
              end in
            Some (next_window_boundary (AgentGoalWindowCeiling.window ceiling) start now)
          else None
      end in
    let r := Lifecycle.rewakes l in
    set_lifecycle self
      (Lifecycle.set_rewakes l
         (AgentWakeRewakes.mk (merge_rewake_slot (AgentWakeRewakes.backoff r) desired_backoff)
            (merge_rewake_slot (AgentWakeRewakes.window_turn r) desired_window_turn))).

(** [f] on the slot of a cause when it is the one of this due time and attempt. *)
Definition on_slot (self : t) (cause : Cause.t) (due_at : AgentTimestampMillis) (attempt : Z)
    (f : AgentWakeRewake.t → AgentWakeRewake.t) : t :=
  let r := Lifecycle.rewakes (lifecycle self) in
  match AgentWakeRewakes.slot r cause with
  | Some rewake =>
      if (AgentWakeRewake.due_at rewake =? due_at) && (AgentWakeRewake.attempt rewake =? attempt) then
        set_lifecycle self
          (Lifecycle.set_rewakes (lifecycle self) (AgentWakeRewakes.set_slot r cause (Some (f rewake))))
      else self
  | None => self
  end.

Definition mark_rewake_parked (self : t) (cause : Cause.t) (due_at : AgentTimestampMillis) (attempt : Z) : t :=
  on_slot self cause due_at attempt (fun rewake =>
    AgentWakeRewake.mk (AgentWakeRewake.due_at rewake) true (AgentWakeRewake.attempt rewake)).


(** *** Dedup state *)

Definition contains (self : t) (wake : AgentWakeId.t) : bool :=
  existsb (fun a => bool_decide (AgentActiveWake.wake_id a = wake)) (active self) ||
  existsb (fun b => bool_decide (Binding.wake_id b = wake)) (pending self) ||
  existsb (fun seen => bool_decide (seen = wake)) (recent self) ||
  bool_decide (last_admitted self = Some wake).

Definition note_seen (self : t) (binding : Binding.t) : t :=
  let recent := recent self ++ [Binding.wake_id binding] in
  set_recent self
    (if (AGENT_WAKE_RECENT_CAPACITY <? length recent)%nat then drop 1 recent else recent).

Definition note_consumed (self : t) (binding : Binding.t) : t :=
  let self := note_seen self binding in
  match Binding.occurrence binding with
  | Occurrence.Scheduled due_at =>
      let advanced :=
        match scheduled_watermark self with Some watermark => watermark <? due_at | None => true end in
      if advanced then set_watermark self (Some due_at) else self
  | _ => self
  end.

(** *** Capacities and bands *)

Definition active_capacity (policy : WakePolicy.t) : nat :=
  match WakePolicy.overlap policy with
  | AgentWakeOverlapPolicy.ForbidAndCoalesce => 1
  | AgentWakeOverlapPolicy.Parallel max_concurrent_epochs _ =>
      Nat.min (Z.to_nat max_concurrent_epochs) AGENT_WAKE_ACTIVE_CAPACITY
  end.

Definition pending_capacity (policy : WakePolicy.t) : nat :=
  match WakePolicy.missed_occurrence policy with
  | AgentMissedOccurrencePolicy.BoundedCatchUp max_occurrences =>
      Nat.min (Z.to_nat max_occurrences) AGENT_WAKE_PENDING_CAPACITY
  | _ => 1
  end.

(** How late an occurrence that has a due time is, against a bound of the policy. *)
Definition late_past (binding : Binding.t) (bound : option Z) (now : AgentTimestampMillis) : bool :=
  match Binding.due_at binding, bound with
  | Some due_at, Some bound => bound <? saturating_sub now due_at
  | _, _ => false
  end.

Definition past_maximum_lateness (policy : WakePolicy.t) (binding : Binding.t) (now : AgentTimestampMillis) : bool :=
  late_past binding (WakePolicy.maximum_lateness_millis policy) now.

(** *** Parking and admitting *)

Definition park_binding (self : t) (policy : WakePolicy.t) (binding : Binding.t) : t * AgentWakeParked :=
  let self := note_consumed self binding in
  let capacity := pending_capacity policy in
  if (length (pending self) <? capacity)%nat then (set_pending self (pending self ++ [binding]), Stored None)
  else if (capacity =? 1)%nat then
    (set_pending self (<[0%nat := binding]> (pending self)), Stored (Binding.wake_id <$> pending self !! 0%nat))
  else (self, Overflow).

(** Parking with the counters and the disposition of one cause; an overflow is skipped. *)
Definition park (self : t) (policy : WakePolicy.t) (binding : Binding.t) (field : Counters.field)
    (disposition : option AgentWakeId.t → Disposition.t) : t * Disposition.t :=
  match park_binding self policy binding with
  | (self, Stored replaced) =>
      let self := count self field 1 in
      (if bool_decide (is_Some replaced) then count self Counters.Superseded 1 else self, disposition replaced)
  | (self, Overflow) => (count self Counters.Missed 1, Disposition.Skipped (Binding.wake_id binding))
  end.

Definition coalesce (self : t) (policy : WakePolicy.t) (binding : Binding.t) : t * Disposition.t :=
  park self policy binding Counters.Coalesced (Disposition.Coalesced (Binding.wake_id binding)).

Definition admit_binding (self : t) (binding : Binding.t) (now : AgentTimestampMillis)
    (coalesced representative : bool) : t * Disposition.t :=
  let wake := Binding.wake_id binding in
  let self := note_consumed self binding in
  let self := set_active self (active self ++ [AgentActiveWake.mk binding now representative None]) in
  let self := set_last_admitted self wake now in
  (count self Counters.WasAdmitted 1,
   if coalesced then Disposition.AdmittedCoalesced wake else Disposition.WasAdmitted wake).

Definition admit_or_defer (self : t) (policy : WakePolicy.t) (binding : Binding.t) (now : AgentTimestampMillis)
    (coalesced representative : bool) : t * Disposition.t :=
  match WakePolicy.goal_window policy with
  | None => admit_binding self binding now coalesced representative
  | Some ceiling =>
      match charge_goal_window self ceiling (WakePolicy.epoch_budget policy) now with
      | (self, Ok _) => admit_binding self binding now coalesced representative
      | (self, Err dimension) =>
          park self policy binding Counters.Deferred
            (fun _ => Disposition.Deferred (Binding.wake_id binding) dimension)
      end
  end.

Definition has_free_slot (self : t) (policy : WakePolicy.t) : bool :=
  (length (active self) <? active_capacity policy)%nat.

(** Consumed and counted, without an epoch. *)
Definition consume (self : t) (binding : Binding.t) (field : Counters.field) : t :=
  count (note_consumed self binding) field 1.

Definition coalesce_or_admit (self : t) (policy : WakePolicy.t) (binding : Binding.t) (now : AgentTimestampMillis) :
    t * Disposition.t :=
  if has_free_slot self policy then admit_or_defer self policy binding now true false
  else coalesce self policy binding.

Definition dispose_missed (self : t) (policy : WakePolicy.t) (binding : Binding.t) (now : AgentTimestampMillis) :
    t * Disposition.t :=
  match WakePolicy.missed_occurrence policy with
  | AgentMissedOccurrencePolicy.AdmitOneCoalesced =>
      if has_free_slot self policy then admit_or_defer self policy binding now true true
      else if existsb AgentActiveWake.is_representative (active self) then
        (consume self binding Counters.Missed, Disposition.Skipped (Binding.wake_id binding))
      else coalesce self policy binding
  | AgentMissedOccurrencePolicy.Skip =>
      (consume self binding Counters.Missed, Disposition.Skipped (Binding.wake_id binding))
  | AgentMissedOccurrencePolicy.BoundedCatchUp _ =>
      if has_free_slot self policy then admit_or_defer self policy binding now true false
      else coalesce self policy binding
  end.

(** *** Admission *)

(** The checks that refuse a delivery outright. *)
Definition check_delivery (policy : WakePolicy.t) (current_revision : ScheduleRevision.t) (binding : Binding.t) :
    AgentWakeResult unit :=
  let offered := Binding.schedule_revision binding in
  let trigger := Binding.trigger binding in
  let retry := match Binding.occurrence binding with Occurrence.Retry _ _ _ => true | _ => false end in
  let controller_trigger := bool_decide (trigger = Trigger.Controller) in
  if ScheduleRevision.get current_revision <? ScheduleRevision.get offered then
    Err (WakeErr.RevisionAhead offered current_revision)
  else if negb (Bool.eqb retry controller_trigger) then Err (WakeErr.RetryTriggerMismatch trigger)
  else if negb controller_trigger && negb (WakePolicy.allows_trigger policy trigger) then
    Err (WakeErr.TriggerNotAllowed trigger)
  else Ok tt.

(** A delivery of a goal that is active and not backing off, by its time band. *)
Definition place (self : t) (policy : WakePolicy.t) (binding : Binding.t) (now : AgentTimestampMillis) :
    t * Disposition.t :=
  if past_maximum_lateness policy binding now then dispose_missed self policy binding now
  else if late_past binding (WakePolicy.admission_window_millis policy) now then
    coalesce_or_admit self policy binding now
  else if has_free_slot self policy then admit_or_defer self policy binding now false false
  else coalesce self policy binding.

(** The lifecycle and backoff gates before the placement. *)
Definition gate (self : t) (policy : WakePolicy.t) (binding : Binding.t) (now : AgentTimestampMillis) :
    t * Disposition.t :=
  let wake := Binding.wake_id binding in
  match status self with
  | Status.Active =>
      match Lifecycle.backoff_until (lifecycle self) with
      | Some until =>
          if now <? until then
            park self policy binding Counters.BackedOff (fun _ => Disposition.BackedOff wake until)
          else place self policy binding now
      | None => place self policy binding now
      end
  | Status.Suspended =>
      match AgentWakeLifecyclePolicy.while_suspended (WakePolicy.lifecycle policy) with
      | CoalesceLatest =>
          park self policy binding Counters.Suspended (fun _ => Disposition.SuspendedParked wake)
      | Drop => (consume self binding Counters.Dropped, Disposition.Dropped wake)
      end
  | Status.Expired => (count (note_seen self binding) Counters.Barred 1, Disposition.Barred wake Status.Expired)
  | Status.Retired => (count (note_seen self binding) Counters.Barred 1, Disposition.Barred wake Status.Retired)
  end.

(** A consumed retry re-arms the slot it matches under the next attempt. *)
Definition rearm (rewake : AgentWakeRewake.t) : AgentWakeRewake.t :=
  AgentWakeRewake.mk (AgentWakeRewake.due_at rewake) false (saturating_add_u64 (AgentWakeRewake.attempt rewake) 1).

Definition below_watermark (self : t) (due_at : AgentTimestampMillis) : bool :=
  match scheduled_watermark self with Some watermark => due_at <=? watermark | None => false end.

(** Past the refusals, the duplicates and the fence. *)
Definition dispose_current (self : t) (policy : WakePolicy.t) (binding : Binding.t) (now : AgentTimestampMillis) :
    t * Disposition.t :=
  let wake := Binding.wake_id binding in
  match Binding.occurrence binding with
  | Occurrence.Retry due_at cause attempt =>
      let self := count (note_seen self binding) Counters.Retried 1 in
      (on_slot self cause due_at attempt rearm, Disposition.Retried wake)
  | Occurrence.Scheduled due_at =>
      if below_watermark self due_at then (self, Disposition.Duplicate wake) else gate self policy binding now
  | _ => gate self policy binding now
  end.

Definition admit_delivery (self : t) (policy : WakePolicy.t) (current_revision : ScheduleRevision.t) (binding : Binding.t)
    (now : AgentTimestampMillis) : AgentWakeResult (t * Disposition.t) :=
  let wake := Binding.wake_id binding in
  let offered := Binding.schedule_revision binding in
  let? _ := check_delivery policy current_revision binding in
  Ok (if contains self wake then (self, Disposition.Duplicate wake)
      else if ScheduleRevision.get offered <? ScheduleRevision.get current_revision then
        (count (note_seen self binding) Counters.Fenced 1, Disposition.Fenced wake offered current_revision)
      else dispose_current self policy binding now).

(** *** Promotion and release *)

Definition promote_admittable (self : t) (policy : WakePolicy.t) (now : AgentTimestampMillis) :
    t * option AgentWakeId.t :=
  if negb (Status.permits_admission (status self)) || backoff_in_force self now then (self, None)
  else if negb (has_free_slot self policy) then (self, None)
  else match pending self with
       | [] => (self, None)
       | binding :: rest =>
           let '(self, paid) :=
             match WakePolicy.goal_window policy with
             | None => (self, Ok tt)
             | Some ceiling => charge_goal_window self ceiling (WakePolicy.epoch_budget policy) now
             end in
           match paid with
           | Err _ => (self, None)
           | Ok _ =>
               let representative :=
                 match WakePolicy.missed_occurrence policy with
                 | AgentMissedOccurrencePolicy.AdmitOneCoalesced => past_maximum_lateness policy binding now
                 | _ => false
                 end in
               ((admit_binding (set_pending self rest) binding now true representative).1,
                Some (Binding.wake_id binding))
           end
       end.

Definition release (self : t) (policy : WakePolicy.t) (wake : AgentWakeId.t) (now : AgentTimestampMillis) :
    AgentWakeResult (t * AgentWakeRelease.t) :=
  match list_find (fun a => AgentActiveWake.wake_id a = wake) (active self) with
  | None => Err (WakeErr.NotActive wake)
  | Some (index, released) =>
      let self := count (set_active self (delete index (active self))) Counters.Released 1 in
      let '(self, admitted_next) := promote_admittable self policy now in
      Ok (self, AgentWakeRelease.mk wake admitted_next (AgentActiveWake.epoch released))
  end.

Definition attach_epoch (self : t) (wake : AgentWakeId.t) (epoch : AgentEpochRef.t) : AgentWakeResult t :=
  match list_find (fun a => AgentActiveWake.wake_id a = wake) (active self) with
  | None => Err (WakeErr.NotActive wake)
  | Some (index, found) => Ok (set_active self (<[index := AgentActiveWake.set_epoch found epoch]> (active self)))
  end.

Definition apply_schedule_update (self : t) (current_revision : ScheduleRevision.t) : t * Z :=
  let kept :=
    filter (fun b => ScheduleRevision.get current_revision <= ScheduleRevision.get (Binding.schedule_revision b))
      (pending self) in
  let fenced := Z.of_nat (length (pending self) - length kept) in
  (set_watermark (count (set_pending self kept) Counters.Fenced fenced) None, fenced).

(** What decoding a stored state checks. *)
Definition validate (self : t) : AgentWakeResult unit :=
  if (AGENT_WAKE_ACTIVE_CAPACITY <? length (active self))%nat then
    Err (WakeErr.StateOutOfBounds "active occurrences")
  else if (AGENT_WAKE_PENDING_CAPACITY <? length (pending self))%nat then
    Err (WakeErr.StateOutOfBounds "parked occurrences")
  else if (AGENT_WAKE_RECENT_CAPACITY <? length (recent self))%nat then
    Err (WakeErr.StateOutOfBounds "recent wake identities")
  else Ok tt.
End AgentWakeControllerState.
