(* ===== verification/WakeRuns.v ===== *)
(** * Runs of the wake controller

    The public operations of [AgentWakeControllerState] in any order, with any policies and
    clock readings, under the schedule revision that the task holds and only ever advances.
    Every operation is a sequence of a few kinds of [move]; the invariants are proved once per
    kind: what is stored stays within the bounds that decoding checks, every delivery is
    accounted for, a scheduled occurrence starts at most one epoch, no window pays for more
    epochs than its ceiling, and nothing is admitted through a closed gate. *)

From S2P Require Import Prelude AgentIdentity Budget Delegation FanIn WakeCalendar Wake WakeController.
Import AgentWakeControllerState.

(** ** Operations *)

(** One epoch that was admitted, with the start of the window that paid for it. *)
Module Admission.
Record t := mk { binding : Binding.t; charged_to : option AgentTimestampMillis }.
End Admission.

Inductive wake_op :=
| Deliver (policy : WakePolicy.t) (binding : Binding.t) (now : AgentTimestampMillis)
| Promote (policy : WakePolicy.t) (now : AgentTimestampMillis)
| Release (policy : WakePolicy.t) (wake : AgentWakeId.t) (now : AgentTimestampMillis)
| AttachEpoch (wake : AgentWakeId.t) (epoch : AgentEpochRef.t)
| UpdateSchedule (revision : ScheduleRevision.t)
| ObserveLifecycle (policy : WakePolicy.t) (now : AgentTimestampMillis)
| Suspend (expected : Revision.t) (reason : option string) (provenance : AgentRevisionProvenance.t)
| Resume (expected : Revision.t) (provenance : AgentRevisionProvenance.t)
| Renew (expected : Revision.t) (policy : WakePolicy.t) (new_expires_at : AgentTimestampMillis)
    (provenance : AgentRevisionProvenance.t) (now : AgentTimestampMillis)
| Retire (expected : Revision.t) (provenance : AgentRevisionProvenance.t)
| SuspendByPolicy (reason : string)
| RetireByPolicy
| RecordOutcome (policy : WakePolicy.t) (outcome : AgentEpochOutcomeClass.t) (now : AgentTimestampMillis)
| RecordProgress (policy : AgentGoalStagnationPolicy.t) (outcome : AgentEpochOutcomeClass.t)
    (digest : option AgentContentDigest.t)
| StagnationTrip (trigger : AgentStagnationTrigger.t)
| ResetStagnation
| EnsureRewakes (policy : WakePolicy.t) (now : AgentTimestampMillis)
| MarkRewakeParked (cause : Cause.t) (due_at : AgentTimestampMillis) (attempt : Z).

(** The policy an operation runs under. *)
Definition policy_of (o : wake_op) : option WakePolicy.t :=
  match o with
  | Deliver p _ _ | Promote p _ | Release p _ _ | ObserveLifecycle p _ | Renew _ p _ _ _ | RecordOutcome p _ _
  | EnsureRewakes p _ => Some p
  | _ => None
  end.

Definition governed (allowed : WakePolicy.t → Prop) (ops : list wake_op) : Prop :=
  Forall (fun o => ∀ p, policy_of o = Some p → allowed p) ops.

(** What a run records besides the state: the epochs admitted, and the deliveries that were
    neither refused nor duplicates. *)
Record goal_state := GoalState {
  schedule : ScheduleRevision.t;
  controller : AgentWakeControllerState.t;
  admissions : list Admission.t;
  delivered : Z;
}.

Definition goal_start : goal_state := GoalState ScheduleRevision.INITIAL AgentWakeControllerState.new [] 0.

Definition charged (s : t) (b : Binding.t) : Admission.t :=
  Admission.mk b (AgentWakeWindowLedger.window_start <$> window s).

Definition ok_or_same {A} (s : t) (r : AgentWakeResult (t * A)) : t :=
  match r with Ok (s', _) => s' | Err _ => s end.

Definition is_duplicate (d : Disposition.t) : bool :=
  match d with Disposition.Duplicate _ => true | _ => false end.

(** The state after, what was admitted, and how many deliveries count.  A refused operation
    leaves the state as it is. *)
Definition exec (revision : ScheduleRevision.t) (s : t) (o : wake_op) : t * list Admission.t * Z :=
  match o with
  | Deliver policy binding now =>
      match admit_delivery s policy revision binding now with
      | Ok (s', d) => (s', if Disposition.is_admission d then [charged s' binding] else [],
                       if is_duplicate d then 0 else 1)
      | Err _ => (s, [], 0)
      end
  | Promote policy now =>
      let '(s', promoted) := promote_admittable s policy now in
      (s', if bool_decide (is_Some promoted) then charged s' <$> take 1 (pending s) else [], 0)
  | Release policy wake now =>
      match release s policy wake now with
      | Ok (s', r) =>
          (s',
           if bool_decide (is_Some (AgentWakeRelease.admitted_next r)) then charged s' <$> take 1 (pending s) else [], 0)
      | Err _ => (s, [], 0)
      end
  | AttachEpoch wake epoch => (match attach_epoch s wake epoch with Ok s' => s' | Err _ => s end, [], 0)
  | UpdateSchedule revision => ((apply_schedule_update s revision).1, [], 0)
  | ObserveLifecycle policy now => ((observe_lifecycle s policy now).1, [], 0)
  | Suspend expected reason provenance => (ok_or_same s (suspend s expected reason provenance), [], 0)
  | Resume expected provenance => (ok_or_same s (resume s expected provenance), [], 0)
  | Renew expected policy at_ provenance now => (ok_or_same s (renew s expected policy at_ provenance now), [], 0)
  | Retire expected provenance => (ok_or_same s (retire s expected provenance), [], 0)
  | SuspendByPolicy reason => (suspend_by_policy s reason, [], 0)
  | RetireByPolicy => (retire_by_policy s, [], 0)
  | RecordOutcome policy outcome now => ((record_epoch_outcome s policy outcome now).1, [], 0)
  | RecordProgress policy outcome digest => ((record_epoch_progress s policy outcome digest).1, [], 0)
  | StagnationTrip trigger => (record_stagnation_trip s trigger, [], 0)
  | ResetStagnation => (reset_stagnation s, [], 0)
  | EnsureRewakes policy now => (ensure_rewakes s policy now, [], 0)
  | MarkRewakeParked cause due_at attempt => (mark_rewake_parked s cause due_at attempt, [], 0)
  end.

(** The task refuses a schedule update that does not advance the revision. *)
Definition goal_step (g : goal_state) (o : wake_op) : goal_state :=
  let run revision :=
    let '(s, new, n) := exec revision (controller g) o in
    GoalState revision s (admissions g ++ new) (delivered g + n) in
  match o with
  | UpdateSchedule revision =>
      if ScheduleRevision.get revision <=? ScheduleRevision.get (schedule g) then g else run revision
  | _ => run (schedule g)
  end.

Definition goal_run (g : goal_state) (ops : list wake_op) : goal_state := foldl goal_step g ops.

(** ** Moves *)

(** What the invariants read of a state: bindings of the active wakes, parked occurrences,
    recent identities, watermark, window and the counters of wakes. *)
Definition wake_counters (s : t) : list Z :=
  Counters.get (counters s) <$>
    [Counters.WasAdmitted; Counters.Superseded; Counters.Missed; Counters.Fenced; Counters.Released;
     Counters.Dropped; Counters.Barred; Counters.Retried].

Definition core (s : t) :=
  (AgentActiveWake.binding <$> active s, pending s, recent s, scheduled_watermark s, window s, wake_counters s).

Definition parking_field (f : Counters.field) : bool :=
  match f with Counters.Coalesced | Counters.Deferred | Counters.BackedOff | Counters.Suspended => true | _ => false end.

Definition dropping_field (f : Counters.field) : bool :=
  match f with Counters.Missed | Counters.Dropped => true | _ => false end.

Definition seen_field (f : Counters.field) : bool :=
  match f with Counters.Fenced | Counters.Barred | Counters.Retried => true | _ => false end.

(** A delivery of the schedule in force that is no redelivery of a scheduled occurrence. *)
Definition fresh (revision : ScheduleRevision.t) (s : t) (b : Binding.t) : Prop :=
  Binding.schedule_revision b = revision ∧
  ∀ due, Binding.occurrence b = Occurrence.Scheduled due → below_watermark s due = false.

(** The window pays for one epoch. *)
Definition paid (s : t) (policy : WakePolicy.t) (now : AgentTimestampMillis) (s' : t) : Prop :=
  match WakePolicy.goal_window policy with
  | None => s' = s
  | Some ceiling => charge_goal_window s ceiling (WakePolicy.epoch_budget policy) now = (s', Ok tt)
  end.

(** The gates of an admission. *)
Definition gates_open (s : t) (policy : WakePolicy.t) (now : AgentTimestampMillis) : Prop :=
  status s = Status.Active ∧ backoff_in_force s now = false ∧ has_free_slot s policy = true.

Section Moves.
Context (allowed : WakePolicy.t → Prop) (revision : ScheduleRevision.t).

Inductive move (s : t) : t → list Admission.t → Z → Prop :=
| Administered s' : core s' = core s → move s s' [] 0
| Refilled policy ceiling now s' dimension : allowed policy → WakePolicy.goal_window policy = Some ceiling →
    charge_goal_window s ceiling (WakePolicy.epoch_budget policy) now = (s', Err dimension) → move s s' [] 0
| Answered b f : seen_field f = true → move s (count (note_seen s b) f 1) [] 1
| Consumed b f : dropping_field f = true → fresh revision s b → move s (consume s b f) [] 1
| Parked policy b f disposition : allowed policy → parking_field f = true → fresh revision s b →
    move s (park s policy b f disposition).1 [] 1
| WasAdmitted policy b now s1 coalesced representative : allowed policy → gates_open s policy now →
    fresh revision s b → paid s policy now s1 →
    let s' := (admit_binding s1 b now coalesced representative).1 in move s s' [charged s' b] 1
| Promoted policy b rest now s1 representative : allowed policy → gates_open s policy now →
    pending s = b :: rest → paid s policy now s1 →
    let s' := (admit_binding (set_pending s1 rest) b now true representative).1 in move s s' [charged s' b] 0
| Released index : (index < length (active s))%nat →
    move s (count (set_active s (delete index (active s))) Counters.Released 1) [] 0.

Inductive moves (s : t) : t → list Admission.t → Z → Prop :=
| Moves_nil : moves s s [] 0
| Moves_cons s1 s2 l1 l2 n1 n2 : move s s1 l1 n1 → moves s1 s2 l2 n2 → moves s s2 (l1 ++ l2) (n1 + n2).

Lemma moves_one s s' l n : move s s' l n → moves s s' l n.
Proof.
  intros H. rewrite <-(app_nil_r l), <-(Z.add_0_r n). eapply Moves_cons; [done|constructor].
Qed.

Lemma moves_two s s1 s2 l n : move s s1 [] 0 → move s1 s2 l n → moves s s2 l n.
Proof. intros H1 H2. apply (Moves_cons s s1 s2 [] l 0 n); [done|by apply moves_one]. Qed.

(** An invariant that every move keeps is kept by the operations. *)
Lemma moves_keep (P : t → list Admission.t → Z → Prop) s s' l n log m :
  (∀ s s' l n log m, move s s' l n → P s log m → P s' (log ++ l) (m + n)) →
  moves s s' l n → P s log m → P s' (log ++ l) (m + n).
Proof.
  intros Hstep H. revert log m. induction H as [s|s s1 s2 l1 l2 n1 n2 H1 H2 IH]; intros log m HP.
  - by rewrite app_nil_r, Z.add_0_r.
  - rewrite app_assoc, Z.add_assoc. apply IH. by eapply Hstep.
Qed.

End Moves.

(** ** Operations are moves *)

(** Only the lifecycle differs. *)
Lemma set_lifecycle_core s l : core (set_lifecycle s l) = core s.
Proof. by destruct s. Qed.

Lemma on_slot_core s cause due attempt f : core (on_slot s cause due attempt f) = core s.
Proof.
  unfold on_slot. destruct (AgentWakeRewakes.slot _ _) as [r|]; [|done].
  destruct (_ && _); [apply set_lifecycle_core|done].
Qed.

Lemma enter_core s status by_ reason : core (enter s status by_ reason) = core s.
Proof. apply set_lifecycle_core. Qed.

Create HintDb wake.
#[local] Hint Resolve set_lifecycle_core on_slot_core enter_core : wake.

Lemma observe_core s policy now : core (observe_lifecycle s policy now).1 = core s.
Proof. unfold observe_lifecycle. repeat case_match; simpl; auto with wake. Qed.

Lemma outcome_core s policy outcome now : core (record_epoch_outcome s policy outcome now).1 = core s.
Proof. unfold record_epoch_outcome. repeat case_match; simpl; auto with wake. Qed.

Lemma progress_core s policy outcome digest : core (record_epoch_progress s policy outcome digest).1 = core s.
Proof. unfold record_epoch_progress. repeat case_match; simpl; auto with wake. Qed.

Lemma trip_core s trigger : core (record_stagnation_trip s trigger) = core s.
Proof. destruct s as [? ? ? ? ? ? c ? ?], trigger; by destruct c. Qed.

Lemma ensure_core s policy now : core (ensure_rewakes s policy now) = core s.
Proof. unfold ensure_rewakes. repeat case_match; simpl; auto with wake. Qed.

Lemma fenced_core {A} s (r : AgentWakeResult unit) (k : AgentWakeResult (t * A)) :
  (∀ s' x, k = Ok (s', x) → core s' = core s) → core (ok_or_same s (result_bind r (fun _ => k))) = core s.
Proof. intros H. destruct r; simpl; [|done]. destruct k as [[s' x]|]; simpl; [by eapply H|done]. Qed.

Lemma attach_core s wake epoch s' : attach_epoch s wake epoch = Ok s' → core s' = core s.
Proof.
  unfold attach_epoch. destruct (list_find _ _) as [[i x]|] eqn:Hf; [|done]. intros [= <-].
  apply list_find_Some in Hf as (Hi & _ & _). destruct s as [act p r w la lt c wi l]. unfold core. simpl in *.
  f_equal. f_equal. f_equal. f_equal. f_equal. rewrite list_fmap_insert. apply list_insert_id.
  by rewrite list_lookup_fmap, Hi.
Qed.

Section OperationsMove.
Context (allowed : WakePolicy.t → Prop) (revision : ScheduleRevision.t).

(** A result of placing a delivery: the moves to it, what it admits, and that it counts. *)
Definition places (s : t) (b : Binding.t) (r : t * Disposition.t) : Prop :=
  moves allowed revision s r.1 (if Disposition.is_admission r.2 then [charged r.1 b] else []) 1 ∧
  is_duplicate r.2 = false.

(** Charging changes the window alone. *)
Lemma charge_window s ceiling budget now : ∃ w r, charge_goal_window s ceiling budget now = (set_window s w, r).
Proof.
  unfold charge_goal_window. destruct (find_first _ _); do 2 eexists; [done|]. by destruct s.
Qed.

Lemma fresh_set_window s w b : fresh revision (set_window s w) b ↔ fresh revision s b.
Proof. by destruct s. Qed.

Lemma parks s policy b f disposition : allowed policy → parking_field f = true → fresh revision s b →
  (∀ r, Disposition.is_admission (disposition r) = false) → (∀ r, is_duplicate (disposition r) = false) →
  places s b (park s policy b f disposition).
Proof.
  intros Hp Hf Hb Ha Hd. unfold places.
  assert (Disposition.is_admission (park s policy b f disposition).2 = false ∧
          is_duplicate (park s policy b f disposition).2 = false) as [-> ->].
  { unfold park. destruct (park_binding _ _ _) as [s1 [r|]]; simpl; auto. }
  split; [|done]. apply moves_one. by apply Parked.
Qed.

Lemma coalesces s policy b : allowed policy → fresh revision s b → places s b (coalesce s policy b).
Proof. intros. by apply parks. Qed.

Lemma admits_or_defers s policy b now c r : allowed policy → gates_open s policy now → fresh revision s b →
  places s b (admit_or_defer s policy b now c r).
Proof.
  intros Hp Hg Hb. unfold admit_or_defer.
  assert (∀ s1, paid s policy now s1 → places s b (admit_binding s1 b now c r)) as Hadmit.
  { intros s1 H1. pose proof (WasAdmitted allowed revision s policy b now s1 c r Hp Hg Hb H1) as Hm.
    unfold places. destruct c; split; try done; by apply moves_one in Hm. }
  destruct (WakePolicy.goal_window policy) as [ceiling|] eqn:Hw.
  - destruct (charge_goal_window _ _ _ _) as [s1 [[]|d]] eqn:Hc.
    + apply Hadmit. unfold paid. by rewrite Hw.
    + destruct (charge_window s ceiling (WakePolicy.epoch_budget policy) now) as (w & x & He).
      rewrite Hc in He. injection He as -> <-.
      destruct (parks (set_window s w) policy b Counters.Deferred
        (fun _ => Disposition.Deferred (Binding.wake_id b) d)) as [Hm Hd]; try done.
      { by apply fresh_set_window. }
      split; [|done]. eapply (Moves_cons allowed revision s _ _ [] _ 0 1); [by eapply Refilled|done].
  - apply Hadmit. unfold paid. by rewrite Hw.
Qed.

Lemma consumes s b f d : dropping_field f = true → fresh revision s b → Disposition.is_admission d = false →
  is_duplicate d = false → places s b (consume s b f, d).
Proof. intros Hf Hb Ha Hd. unfold places. simpl. rewrite Ha. split; [|done]. apply moves_one. by apply Consumed. Qed.

Lemma answers s b f d : seen_field f = true → Disposition.is_admission d = false →
  is_duplicate d = false → places s b (count (note_seen s b) f 1, d).
Proof. intros Hf Ha Hd. unfold places. simpl. rewrite Ha. split; [|done]. apply moves_one. by apply Answered. Qed.

Lemma place_places s policy b now : allowed policy → status s = Status.Active → backoff_in_force s now = false →
  fresh revision s b → places s b (place s policy b now).
Proof.
  intros Hp Hs Hbk Hb. unfold place, dispose_missed, coalesce_or_admit.
  assert (has_free_slot s policy = true → gates_open s policy now) as Hg by done.
  destruct (has_free_slot s policy) eqn:Hf; repeat case_match; try (by apply consumes); try (by apply coalesces);
    apply admits_or_defers; auto.
Qed.

Lemma gate_places s policy b now : allowed policy → fresh revision s b → places s b (gate s policy b now).
Proof.
  intros Hp Hb. unfold gate. destruct (status s) eqn:Hs.
  - pose proof (fun H => place_places s policy b now Hp Hs H Hb) as Hpl. unfold backoff_in_force in Hpl.
    destruct (Lifecycle.backoff_until _) as [until|]; [|by apply Hpl].
    destruct (now <? until); [by apply parks|by apply Hpl].
  - destruct (AgentWakeLifecyclePolicy.while_suspended _); [by apply parks|by apply consumes].
  - by apply answers.
  - by apply answers.
Qed.

(** Past the fence: a duplicate changes nothing, anything else is placed. *)
Lemma dispose_places s policy b now : allowed policy → Binding.schedule_revision b = revision →
  dispose_current s policy b now = (s, Disposition.Duplicate (Binding.wake_id b)) ∨
  places s b (dispose_current s policy b now).
Proof.
  intros Hp Hr. unfold dispose_current.
  destruct (Binding.occurrence b) as [due|e|o|k|due c n] eqn:Ho;
    try (right; apply gate_places; [done|]; split; [done|]; by rewrite Ho).
  - destruct (below_watermark s due) eqn:Hw; [by left|]. right. apply gate_places; [done|]. split; [done|].
    rewrite Ho. by intros ? [= <-].
  - right. split; [|done]. simpl. rewrite <-(Z.add_0_r 1).
    apply (Moves_cons allowed revision s (count (note_seen s b) Counters.Retried 1) _ [] [] 1 0);
      [by apply Answered|]. apply moves_one, Administered, on_slot_core.
Qed.

Lemma deliver_moves s policy b now :
  allowed policy → let '(s', l, n) := exec revision s (Deliver policy b now) in moves allowed revision s s' l n.
Proof.
  intros Hp. simpl. unfold admit_delivery, check_delivery. cbv zeta.
  destruct (ScheduleRevision.get revision <? _) eqn:Hahead; simpl; [constructor|].
  destruct (negb (Bool.eqb _ _)); simpl; [constructor|].
  destruct (negb _ && negb _); simpl; [constructor|].
  destruct (contains s _); simpl; [constructor|].
  destruct (_ <? ScheduleRevision.get revision) eqn:Hbehind; simpl.
  { by apply moves_one, Answered. }
  destruct (dispose_places s policy b now Hp) as [->|[Hm Hd]].
  - destruct (Binding.schedule_revision b) as [x] eqn:Hx. destruct revision as [y]. simpl in *. f_equal. lia.
  - simpl. constructor.
  - destruct (dispose_current s policy b now) as [s' d]. simpl in *. by rewrite Hd.
Qed.

Lemma promotes s policy now : allowed policy →
  let '(s', promoted) := promote_admittable s policy now in
  moves allowed revision s s' (if bool_decide (is_Some promoted) then charged s' <$> take 1 (pending s) else []) 0.
Proof.
  intros Hp. unfold promote_admittable.
  destruct (Status.permits_admission (status s)) eqn:Hs; simpl; [|constructor].
  destruct (backoff_in_force s now) eqn:Hb; simpl; [constructor|].
  destruct (has_free_slot s policy) eqn:Hf; simpl; [|constructor].
  destruct (pending s) as [|b rest] eqn:Hpend; [constructor|].
  assert (gates_open s policy now) as Hg by (split; [by destruct (status s)|done]).
  destruct (WakePolicy.goal_window policy) as [ceiling|] eqn:Hw.
  - destruct (charge_goal_window _ _ _ _) as [s1 [[]|d]] eqn:Hc; simpl.
    + apply moves_one. eapply Promoted; try done. unfold paid. by rewrite Hw.
    + apply moves_one. by eapply Refilled.
  - simpl. apply moves_one. eapply Promoted; try done. unfold paid. by rewrite Hw.
Qed.

Lemma release_moves s policy wake now : allowed policy →
  let '(s', l, n) := exec revision s (Release policy wake now) in moves allowed revision s s' l n.
Proof.
  intros Hp. simpl. unfold release. destruct (list_find _ _) as [[i x]|] eqn:Hf; [|constructor].
  apply list_find_Some in Hf as (Hi & _ & _).
  set (s1 := count _ _ _). pose proof (promotes s1 policy now Hp) as Hm.
  destruct (promote_admittable s1 policy now) as [s2 promoted]. simpl.
  assert (pending s1 = pending s) as Hpe by (subst s1; by destruct s). rewrite Hpe in Hm.
  eapply (Moves_cons allowed revision s s1 s2 [] _ 0 0); [|done].
  apply Released. by eapply lookup_lt_Some.
Qed.

(** Operations other than a schedule update. *)
Definition reschedules (o : wake_op) : bool := match o with UpdateSchedule _ => true | _ => false end.

Lemma exec_moves s o : reschedules o = false → (∀ p, policy_of o = Some p → allowed p) →
  let '(s', l, n) := exec revision s o in moves allowed revision s s' l n.
Proof.
  intros Hr Hp. destruct o as [policy b now|policy now|policy wake now| | | | | | | | | | | | | | |];
    try done; try (specialize (Hp _ eq_refl)).
  1: by apply deliver_moves.
  1: { pose proof (promotes s policy now Hp). simpl. by destruct (promote_admittable s policy now). }
  1: by apply release_moves.
  all: apply moves_one, Administered.
  - destruct (attach_epoch _ _ _) eqn:H; [by eapply attach_core|done].
  - apply observe_core.
  - apply fenced_core. intros s' x [= <- <-]. apply enter_core.
  - apply fenced_core. intros s' x. case_bool_decide; [done|]. intros [= <- <-]. apply set_lifecycle_core.
  - apply fenced_core. intros s' x.
    destruct (Lifecycle.effective_expires_at _ _); [|done]. destruct (_ <=? _); [done|].
    destruct (match AgentWakeLifecyclePolicy.renewal _ with NotRequired => _ | RequiredBefore _ => _ end); [done|].
    intros [= <- <-]. apply set_lifecycle_core.
  - apply fenced_core. intros s' x [= <- <-]. apply enter_core.
  - unfold suspend_by_policy. case_bool_decide; [done|apply enter_core].
  - unfold retire_by_policy. case_match; [done|apply enter_core].
  - apply outcome_core.
  - apply progress_core.
  - apply trip_core.
  - apply set_lifecycle_core.
  - apply ensure_core.
  - apply on_slot_core.
Qed.

End OperationsMove.

(** An invariant of runs: kept by every move under the revision in force, and by a schedule
    update to a later one. *)
Lemma runs_keep (allowed : WakePolicy.t → Prop) (P : ScheduleRevision.t → t → list Admission.t → Z → Prop) g ops :
  (∀ r s s' l n log m, move allowed r s s' l n → P r s log m → P r s' (log ++ l) (m + n)) →
  (∀ r r' s log m, ScheduleRevision.get r < ScheduleRevision.get r' → P r s log m →
     P r' (apply_schedule_update s r').1 log m) →
  governed allowed ops →
  P (schedule g) (controller g) (admissions g) (delivered g) →
  let g' := goal_run g ops in P (schedule g') (controller g') (admissions g') (delivered g').
Proof.
  intros Hmove Hupdate Hgov. revert g. induction Hgov as [|o ops Ho Hgov IH]; intros g HP; [done|].
  simpl. apply IH. unfold goal_step. destruct (reschedules o) eqn:Hr.
  - destruct o as [| | | |revision| | | | | | | | | | | | |]; try done. destruct (Z.leb_spec (ScheduleRevision.get revision)
      (ScheduleRevision.get (schedule g))); [done|].
    simpl. rewrite app_nil_r, Z.add_0_r. by eapply Hupdate.
  - pose proof (exec_moves allowed (schedule g) (controller g) o Hr Ho) as Hm.
    assert (∀ g', (let '(s, new, n) := exec (schedule g) (controller g) o in
      GoalState (schedule g) s (admissions g ++ new) (delivered g + n)) = g' →
      P (schedule g') (controller g') (admissions g') (delivered g')) as Hrun.
    { intros g' <-. destruct (exec _ _ o) as [[s l] n]. simpl.
      eapply (moves_keep allowed (schedule g) (P (schedule g))); [|done|done]. intros. by eapply Hmove. }
    destruct o; try done; by apply Hrun.
Qed.

(** ** What the pieces change *)

Lemma note_consumed_same s b :
  active (note_consumed s b) = active s ∧ pending (note_consumed s b) = pending s ∧
  window (note_consumed s b) = window s ∧ counters (note_consumed s b) = counters s ∧
  recent (note_consumed s b) = recent (note_seen s b).
Proof.
  unfold note_consumed. destruct s. repeat case_match; done.
Qed.

Lemma note_seen_recent s b : (length (recent s) <= AGENT_WAKE_RECENT_CAPACITY)%nat →
  (length (recent (note_seen s b)) <= AGENT_WAKE_RECENT_CAPACITY)%nat.
Proof.
  intros H. unfold note_seen. destruct s as [? ? recent ? ? ? ? ? ?]. simpl in *.
  case_match eqn:He; [rewrite length_drop|apply Nat.ltb_ge in He]; rewrite length_app in *; simpl in *; lia.
Qed.

(** Consuming moves the watermark to or past the occurrence, and never back. *)
Lemma note_consumed_watermark s b due : below_watermark s due = true → below_watermark (note_consumed s b) due = true.
Proof.
  unfold note_consumed, below_watermark. destruct s as [? ? ? w ? ? ? ? ?]. simpl.
  destruct (Binding.occurrence b); try done. destruct w as [w|]; [|done]. simpl.
  destruct (Z.ltb_spec w due_at); simpl; rewrite ?Z.leb_le; lia.
Qed.

Lemma note_consumed_covers s b due : Binding.occurrence b = Occurrence.Scheduled due →
  below_watermark (note_consumed s b) due = true.
Proof.
  unfold note_consumed, below_watermark. intros ->. destruct s as [? ? ? w ? ? ? ? ?]. simpl.
  destruct w as [w|]; simpl; [destruct (Z.ltb_spec w due)|]; simpl; rewrite ?Z.leb_le; lia.
Qed.

(** Stored at the end, stored in the single slot, or skipped. *)
Inductive park_effect (s : t) (policy : WakePolicy.t) (b : Binding.t) (f : Counters.field) :
  list Binding.t → Counters.t → Prop :=
| ParkStored : (length (pending s) < pending_capacity policy)%nat →
    park_effect s policy b f (pending s ++ [b]) (Counters.add (counters s) f 1)
| ParkReplaced x rest : pending s = x :: rest → (pending_capacity policy <= length (pending s))%nat →
    park_effect s policy b f (b :: rest) (Counters.add (Counters.add (counters s) f 1) Counters.Superseded 1)
| ParkSkipped : (pending_capacity policy <= length (pending s))%nat →
    park_effect s policy b f (pending s) (Counters.add (counters s) Counters.Missed 1).

Lemma park_effects s policy b f disposition : let s' := (park s policy b f disposition).1 in
  active s' = active s ∧ window s' = window s ∧ recent s' = recent (note_seen s b) ∧
  (∀ due, below_watermark s' due = below_watermark (note_consumed s b) due) ∧
  park_effect s policy b f (pending s') (counters s').
Proof.
  destruct (note_consumed_same s b) as (Ha & Hp & Hw & Hc & Hr). unfold park, park_binding.
  set (s1 := note_consumed s b) in *. clearbody s1.
  destruct s1 as [act pend rec wm la lat c w l]. simpl in *. subst.
  destruct (Nat.ltb_spec (length (pending s)) (pending_capacity policy)) as [Hlt|Hge]; simpl.
  { repeat split; try done. by apply ParkStored. }
  destruct (Nat.eqb_spec (pending_capacity policy) 1) as [H1|H1]; simpl.
  - destruct (pending s) as [|x rest] eqn:Hpend; [simpl in Hge; lia|]. simpl.
    repeat split; try done. eapply ParkReplaced; [done|]. by rewrite Hpend.
  - repeat split; try done. by apply ParkSkipped.
Qed.

Lemma admit_effects s b now c r : let s' := (admit_binding s b now c r).1 in
  AgentActiveWake.binding <$> active s' = (AgentActiveWake.binding <$> active s) ++ [b] ∧
  pending s' = pending s ∧ window s' = window s ∧ recent s' = recent (note_seen s b) ∧
  (∀ due, below_watermark s' due = below_watermark (note_consumed s b) due) ∧
  counters s' = Counters.add (counters s) Counters.WasAdmitted 1.
Proof.
  destruct (note_consumed_same s b) as (Ha & Hp & Hw & Hc & Hr). unfold admit_binding.
  set (s1 := note_consumed s b) in *. clearbody s1. destruct s1. simpl in *. subst.
  rewrite fmap_app. by repeat split.
Qed.

Lemma paid_same s policy now s' : paid s policy now s' →
  ∃ w, s' = set_window s w.
Proof.
  unfold paid. destruct (WakePolicy.goal_window policy) as [ceiling|].
  - intros H. destruct (charge_window s ceiling (WakePolicy.epoch_budget policy) now) as (w & r & Hc).
    rewrite H in Hc. injection Hc as -> _. by exists w.
  - intros ->. exists (window s). by destruct s.
Qed.

Lemma charge_same s ceiling budget now s' r : charge_goal_window s ceiling budget now = (s', r) →
  ∃ w, s' = set_window s w.
Proof.
  intros H. destruct (charge_window s ceiling budget now) as (w & r' & Hc). rewrite H in Hc.
  injection Hc as -> _. by exists w.
Qed.

Lemma active_capacity_bound policy : (active_capacity policy <= AGENT_WAKE_ACTIVE_CAPACITY)%nat.
Proof. unfold active_capacity, AGENT_WAKE_ACTIVE_CAPACITY. case_match; lia. Qed.

Lemma pending_capacity_bound policy : (pending_capacity policy <= AGENT_WAKE_PENDING_CAPACITY)%nat.
Proof. unfold pending_capacity, AGENT_WAKE_PENDING_CAPACITY. case_match; lia. Qed.

Lemma core_inv s s' : core s' = core s →
  (AgentActiveWake.binding <$> active s') = (AgentActiveWake.binding <$> active s) ∧ pending s' = pending s ∧
  recent s' = recent s ∧ scheduled_watermark s' = scheduled_watermark s ∧ window s' = window s ∧
  wake_counters s' = wake_counters s.
Proof. intros H. unfold core in H. by rewrite !pair_eq in H; destruct_and!. Qed.

(** ** Bounds of what is stored *)

(** Within the given capacities of active wakes and parked occurrences. *)
Definition within (n m : nat) (s : t) : Prop :=
  (length (active s) <= n)%nat ∧ (length (pending s) <= m)%nat ∧
  (length (recent s) <= AGENT_WAKE_RECENT_CAPACITY)%nat.

Lemma fmap_length_eq (l k : list AgentActiveWake.t) :
  (AgentActiveWake.binding <$> l) = (AgentActiveWake.binding <$> k) → length l = length k.
Proof. intros H. apply (f_equal length) in H. by rewrite !length_fmap in H. Qed.

Lemma admit_within n m s b now c r : within n m s → (length (active s) < n)%nat →
  within n m (admit_binding s b now c r).1.
Proof.
  intros (Ha & Hp & Hr) Hlt. destruct (admit_effects s b now c r) as (He & Hpe & _ & Hre & _).
  apply (f_equal length) in He. rewrite length_app, !length_fmap in He. change (length [b]) with 1%nat in He.
  unfold within. rewrite Hpe, Hre. split; [|split]; [lia|done|by apply note_seen_recent].
Qed.

Lemma move_within (allowed : WakePolicy.t → Prop) n m revision s s' l k :
  (∀ p, allowed p → (active_capacity p <= n)%nat ∧ (pending_capacity p <= m)%nat) →
  move allowed revision s s' l k → within n m s → within n m s'.
Proof.
  intros Hcap Hm Hw. pose proof Hw as (Ha & Hp & Hr).
  destruct Hm as [s' Hc|policy ceiling now s' d Hpol Hwin Hc|b f Hf|b f Hf Hb|policy b f disp Hpol Hf Hb
    |policy b now s1 c r Hpol Hg Hb Hpaid|policy b rest now s1 r Hpol Hg Hpend Hpaid|index Hi].
  - apply core_inv in Hc as (Hac & Hpe & Hre & _). apply fmap_length_eq in Hac.
    unfold within. by rewrite Hac, Hpe, Hre.
  - apply charge_same in Hc as [w ->]. by destruct s.
  - pose proof (note_seen_recent s b Hr). by destruct s.
  - pose proof (note_seen_recent s b Hr) as Hs. destruct (note_consumed_same s b) as (H1 & H2 & _ & _ & H5).
    unfold consume. destruct (note_consumed s b). simpl in *. subst. by repeat split.
  - destruct (park_effects s policy b f disp) as (H1 & _ & H3 & _ & H5). destruct (Hcap _ Hpol) as [_ Hcp].
    unfold within. rewrite H1, H3. split; [done|]. split; [|by apply note_seen_recent].
    inversion H5 as [Hlt Hpe Hcn|x rest Hx Hge Hpe Hcn|Hge Hpe Hcn]; rewrite ?length_app; simpl; [lia| |done].
    rewrite Hx in Hp. by simpl in *.
  - subst s'. destruct (paid_same _ _ _ _ Hpaid) as [w ->]. destruct Hg as (_ & _ & Hfree).
    unfold has_free_slot in Hfree. apply Nat.ltb_lt in Hfree. destruct (Hcap _ Hpol) as [Hca _].
    apply admit_within; [by destruct s|]. destruct s; simpl in *; lia.
  - subst s'. destruct (paid_same _ _ _ _ Hpaid) as [w ->]. destruct Hg as (_ & _ & Hfree).
    unfold has_free_slot in Hfree. apply Nat.ltb_lt in Hfree. destruct (Hcap _ Hpol) as [Hca _].
    rewrite Hpend in Hp. apply admit_within; [|destruct s; simpl in *; lia].
    destruct s. simpl in *. repeat split; simpl; try done. lia.
  - destruct s. simpl in *. repeat split; simpl; [|done|done]. rewrite length_delete by by apply lookup_lt_is_Some.
    lia.
Qed.

Lemma validate_within s : within AGENT_WAKE_ACTIVE_CAPACITY AGENT_WAKE_PENDING_CAPACITY s → validate s = Ok tt.
Proof.
  intros (Ha & Hp & Hr). unfold validate. by rewrite !(proj2 (Nat.ltb_ge _ _)).
Qed.

Lemma update_within n m s r : within n m s → within n m (apply_schedule_update s r).1.
Proof.
  intros (Ha & Hp & Hr). destruct s. simpl in *. repeat split; simpl; try done.
  etransitivity; [apply length_filter|done].
Qed.

(** ** Accounting *)

(** Equal up to the wrap of a counter. *)
Definition eqm (a b : Z) : Prop := ∃ q, a = b + q * (u64_max + 1).

Lemma eqm_wrap a b : eqm a b → wrap_u64 a = wrap_u64 b.
Proof. intros [q ->]. unfold wrap_u64. apply Z.mod_add. by vm_compute. Qed.

Lemma add_u64_eqm a b : ∃ q, add_u64 a b = a + b + q * (u64_max + 1).
Proof.
  exists (- ((a + b) / (u64_max + 1))). unfold add_u64, wrap_u64.
  pose proof (Z.div_mod (a + b) (u64_max + 1) ltac:(by vm_compute)). lia.
Qed.

(** The counters of the deliveries that are over. *)
Definition over (c : Counters.t) : Z :=
  Counters.admitted c + Counters.superseded c + Counters.missed c + Counters.fenced c + Counters.dropped c +
  Counters.barred c + Counters.retried c.

Definition is_over (f : Counters.field) : bool :=
  match f with
  | Counters.WasAdmitted | Counters.Superseded | Counters.Missed | Counters.Fenced | Counters.Dropped
  | Counters.Barred | Counters.Retried => true
  | _ => false
  end.

(** Occurrences that became epochs, less the epochs released. *)
Definition running (c : Counters.t) : Z := Counters.admitted c - Counters.released c.

Definition runs_delta (f : Counters.field) : Z :=
  match f with Counters.WasAdmitted => 1 | Counters.Released => -1 | _ => 0 end.

Lemma over_add c f n : eqm (over (Counters.add c f n)) (over c + if is_over f then n else 0).
Proof.
  unfold eqm, over. destruct c as [a b c d e g h i j k l m o p].
  destruct f; simpl; try (exists 0; lia);
    match goal with |- context [add_u64 ?x ?y] => destruct (add_u64_eqm x y) as [q ->] end; exists q; lia.
Qed.

Lemma running_add c f n : eqm (running (Counters.add c f n)) (running c + runs_delta f * n).
Proof.
  unfold eqm, running. destruct c as [a b c d e g h i j k l m o p].
  destruct f; simpl; try (exists 0; lia);
    match goal with |- context [add_u64 ?x ?y] => destruct (add_u64_eqm x y) as [q ->] end;
    [exists q|exists (- q)]; lia.
Qed.

(** The difference between what came in and what is accounted for, and between the epochs
    counted and the epochs held. *)
Definition unaccounted (s : t) (n : Z) : Z := over (counters s) + Z.of_nat (length (pending s)) - n.
Definition unheld (s : t) : Z := running (counters s) - Z.of_nat (length (active s)).

Definition accounted (s : t) (n : Z) : Prop := eqm (unaccounted s n) 0 ∧ eqm (unheld s) 0.

(** One counter moved, the lists by the given numbers. *)
Lemma account s n s' n' f k :
  counters s' = Counters.add (counters s) f k →
  Z.of_nat (length (pending s')) - Z.of_nat (length (pending s)) + (if is_over f then k else 0) = n' - n →
  Z.of_nat (length (active s')) - Z.of_nat (length (active s)) = runs_delta f * k →
  accounted s n → accounted s' n'.
Proof.
  intros Hc Hp Ha [[q H1] [q' H2]]. unfold accounted, unaccounted, unheld in *. rewrite Hc.
  destruct (over_add (counters s) f k) as [x Hx]. destruct (running_add (counters s) f k) as [y Hy].
  split; [exists (q + x)|exists (q' + y)]; lia.
Qed.

Lemma core_accounted s s' n : core s' = core s → accounted s n → accounted s' n.
Proof.
  intros Hc. apply core_inv in Hc as (Ha & Hp & _ & _ & _ & Hk). apply fmap_length_eq in Ha.
  unfold accounted, unaccounted, unheld, over, running. unfold wake_counters in Hk. simpl in Hk.
  injection Hk as -> -> -> -> -> -> -> ->. by rewrite Ha, Hp.
Qed.

Lemma park_accounted s policy b f disposition n : parking_field f = true → accounted s n →
  accounted (park s policy b f disposition).1 (n + 1).
Proof.
  intros Hf. destruct (park_effects s policy b f disposition) as (Ha & _ & _ & _ & He). revert Ha He.
  set (s' := (park _ _ _ _ _).1). clearbody s'. intros Ha He Hacc.
  assert (is_over f = false ∧ runs_delta f = 0) as [Ho Hd] by by destruct f.
  inversion He as [Hlt Hpe Hcn|x rest Hx Hge Hpe Hcn|Hge Hpe Hcn].
  - eapply account; [done| | |done]; rewrite <-?Hpe, ?Ho, ?Hd, ?length_app, ?Ha; simpl; lia.
  - apply (account (set_pending (count s f 1) (pending s ++ [b])) (n + 1) s' (n + 1) Counters.Superseded 1).
    + by destruct s.
    + rewrite <-Hpe. destruct s; simpl in *. rewrite length_app, Hx. simpl. lia.
    + rewrite Ha. destruct s; simpl; lia.
    + apply (account s n _ _ f 1); [by destruct s| | |done]; destruct s; simpl in *;
        rewrite ?Ho, ?Hd, ?length_app; simpl; lia.
  - eapply account; [done| | |done]; rewrite <-?Hpe, ?Ha; simpl; lia.
Qed.

Lemma admit_accounted s b now c r n : accounted s n → accounted (admit_binding s b now c r).1 (n + 1).
Proof.
  destruct (admit_effects s b now c r) as (Ha & Hp & _ & _ & _ & Hc). revert Ha Hp Hc.
  set (s' := (admit_binding _ _ _ _ _).1). clearbody s'. intros Ha Hp Hc Hacc.
  apply (f_equal length) in Ha. rewrite length_app, !length_fmap in Ha. simpl in Ha.
  eapply account; [done| | |done]; rewrite ?Hp; simpl; lia.
Qed.

Lemma move_accounted (allowed : WakePolicy.t → Prop) revision s s' l k n :
  move allowed revision s s' l k → accounted s n → accounted s' (n + k).
Proof.
  intros Hm Hacc. rewrite ?Z.add_0_r.
  destruct Hm as [s' Hc|policy ceiling now s' d Hpol Hwin Hc|b f Hf|b f Hf Hb|policy b f disp Hpol Hf Hb
    |policy b now s1 c r Hpol Hg Hb Hpaid|policy b rest now s1 r Hpol Hg Hpend Hpaid|index Hi];
    rewrite ?Z.add_0_r.
  - by eapply core_accounted.
  - apply charge_same in Hc as [w ->]. by destruct s.
  - eapply (account s n _ _ f 1); [by destruct s| | |done]; destruct s, f; try done; simpl; lia.
  - destruct (note_consumed_same s b) as (H1 & H2 & _ & H4 & _). unfold consume.
    destruct (note_consumed s b). simpl in *. subst.
    eapply (account s n _ _ f 1); [done| | |done]; destruct f; try done; simpl; lia.
  - by apply park_accounted.
  - subst s'. apply admit_accounted. apply paid_same in Hpaid as [w ->]. by destruct s.
  - subst s'. replace n with (n - 1 + 1) by lia. apply admit_accounted. apply paid_same in Hpaid as [w ->].
    destruct Hacc as [[q H1] H2]. split; [exists q|by destruct s].
    destruct s. unfold unaccounted in *. simpl in *. subst. simpl in H1. lia.
  - apply (account s n _ _ Counters.Released 1); [by destruct s| | |done]; destruct s; simpl; [lia|].
    simpl in Hi. rewrite length_delete by by apply lookup_lt_is_Some. lia.
Qed.

Lemma update_accounted s r n : accounted s n → accounted (apply_schedule_update s r).1 n.
Proof.
  intros Hacc. unfold apply_schedule_update. simpl.
  set (kept := filter _ _). pose proof (length_filter (fun b => ScheduleRevision.get r <=
    ScheduleRevision.get (Binding.schedule_revision b)) (pending s)) as Hl. fold kept in Hl. clearbody kept.
  eapply (account s n _ _ Counters.Fenced (Z.of_nat (length (pending s) - length kept))); [by destruct s| | |done];
    destruct s; simpl in *; lia.
Qed.

(** ** A scheduled occurrence starts at most one epoch *)

(** The identity of a scheduled occurrence within one goal. *)
Definition schedule_key (b : Binding.t) : option (ScheduleRevision.t * AgentTimestampMillis) :=
  match Binding.occurrence b with
  | Occurrence.Scheduled due => Some (Binding.schedule_revision b, due)
  | _ => None
  end.

Lemma schedule_key_Some b key : schedule_key b = Some key →
  Binding.schedule_revision b = key.1 ∧ Binding.occurrence b = Occurrence.Scheduled key.2.
Proof. unfold schedule_key. destruct (Binding.occurrence b); try done. by intros [= <-]. Qed.

(** Everything that became an epoch or still may. *)
Definition held (s : t) (log : list Admission.t) : list Binding.t := (Admission.binding <$> log) ++ pending s.

Definition revision_le (r : ScheduleRevision.t) (b : Binding.t) : Prop :=
  ScheduleRevision.get (Binding.schedule_revision b) <= ScheduleRevision.get r.

(** A scheduled occurrence of the schedule in force that is held lies at or below the
    watermark. *)
Definition covered (r : ScheduleRevision.t) (s : t) (b : Binding.t) : Prop :=
  ∀ due, Binding.schedule_revision b = r → Binding.occurrence b = Occurrence.Scheduled due →
    below_watermark s due = true.

Record once (r : ScheduleRevision.t) (s : t) (log : list Admission.t) : Prop := Once {
  once_revision : Forall (revision_le r) (held s log);
  once_pending : Forall (fun b => Binding.schedule_revision b = r) (pending s);
  once_covered : Forall (covered r s) (held s log);
  once_keys : NoDup (omap schedule_key (held s log));
}.

Lemma covered_consumed r s s' b c : (∀ due, below_watermark s' due = below_watermark (note_consumed s b) due) →
  covered r s c → covered r s' c.
Proof. intros Hw Hc due Hr Ho. rewrite Hw. by apply note_consumed_watermark, Hc. Qed.

(** A fresh delivery joins what is held. *)
Lemma once_add r s s' b log log' l : once r s log → fresh r s b →
  (∀ due, below_watermark s' due = below_watermark (note_consumed s b) due) →
  l ⊆+ held s log → held s' log' ≡ₚ b :: l →
  Forall (fun b => Binding.schedule_revision b = r) (pending s') → once r s' log'.
Proof.
  intros [Hrev Hpend Hcov Hkeys] [Hb Hf] Hw Hl Hheld Hp'.
  assert (∀ c, c ∈ l → c ∈ held s log) as Hin by (intros c Hc; by eapply elem_of_submseteq).
  split; [| done | |]; rewrite ?Hheld.
  - constructor; [unfold revision_le; rewrite Hb; lia|]. rewrite Forall_forall in *. auto.
  - constructor.
    + intros due _ Ho. rewrite Hw. by apply note_consumed_covers.
    + rewrite Forall_forall in *. intros c Hc. eapply covered_consumed; [done|]. auto.
  - assert (NoDup (omap schedule_key l)) as Hnd.
    { apply submseteq_Permutation in Hl as [k Hk]. rewrite Hk, omap_app in Hkeys.
      by apply NoDup_app in Hkeys as (? & _). }
    change (omap schedule_key (b :: l)) with
      (match schedule_key b with Some key => key :: omap schedule_key l | None => omap schedule_key l end).
    destruct (schedule_key b) as [key|] eqn:Hkb; [|done]. apply schedule_key_Some in Hkb as [Hrb Ho].
    constructor; [|done]. intros Hi. apply list_elem_of_omap in Hi as (c & Hc & Hkc).
    apply schedule_key_Some in Hkc as [Hrc Hoc]. rewrite Forall_forall in Hcov.
    specialize (Hcov c (Hin c Hc) key.2 ltac:(congruence) Hoc). by rewrite (Hf key.2 Ho) in Hcov.
Qed.

(** Nothing joins: the same occurrences, at or below the same watermark or a later one. *)
Lemma once_same r s s' log log' : once r s log → held s' log' ≡ₚ held s log →
  (∀ due, below_watermark s due = true → below_watermark s' due = true) →
  Forall (fun b => Binding.schedule_revision b = r) (pending s') → once r s' log'.
Proof.
  intros [Hrev Hpend Hcov Hkeys] Hheld Hw Hp'. split; [by rewrite Hheld|done| |by rewrite Hheld].
  rewrite Hheld. eapply Forall_impl; [done|]. intros c Hc due Hr Ho. by apply Hw, Hc.
Qed.

Lemma once_same_pending r s s' log : once r s log → pending s' = pending s →
  (∀ due, below_watermark s due = true → below_watermark s' due = true) → once r s' log.
Proof.
  intros H Hp Hw. eapply once_same; [done| |done|].
  - unfold held. by rewrite Hp.
  - rewrite Hp. by destruct H.
Qed.

Lemma park_once r s policy b f disposition log : once r s log → fresh r s b →
  once r (park s policy b f disposition).1 log.
Proof.
  intros Ho Hf. destruct (park_effects s policy b f disposition) as (_ & _ & _ & Hw & He). revert Hw He.
  set (s' := (park _ _ _ _ _).1). clearbody s'. intros Hw He.
  pose proof (once_pending _ _ _ Ho) as Hp. destruct Hf as [Hb Hf].
  inversion He as [Hlt Hpe Hcn|x rest Hx Hge Hpe Hcn|Hge Hpe Hcn].
  - eapply (once_add r s s' b log log (held s log)); [done|done|done|done| |].
    + unfold held. rewrite <-Hpe. solve_Permutation.
    + rewrite <-Hpe. by apply Forall_app_2; [|constructor].
  - eapply (once_add r s s' b log log ((Admission.binding <$> log) ++ rest)); [done|done|done| | |].
    + unfold held. rewrite Hx. apply submseteq_skips_l. by apply submseteq_cons.
    + unfold held. rewrite <-Hpe. by rewrite Permutation_middle.
    + rewrite <-Hpe. rewrite Hx in Hp. inversion Hp. by constructor.
  - eapply once_same_pending; [done|done|]. intros due Hd. rewrite Hw. by apply note_consumed_watermark.
Qed.

Lemma move_once (allowed : WakePolicy.t → Prop) r s s' l k log :
  move allowed r s s' l k → once r s log → once r s' (log ++ l).
Proof.
  intros Hm Ho. pose proof (once_pending _ _ _ Ho) as Hp.
  destruct Hm as [s' Hc|policy ceiling now s' d Hpol Hwin Hc|b f Hf|b f Hf Hb|policy b f disp Hpol Hf Hb
    |policy b now s1 c x Hpol Hg Hb Hpaid|policy b rest now s1 x Hpol Hg Hpend Hpaid|index Hi];
    rewrite ?app_nil_r.
  - apply core_inv in Hc as (_ & Hpe & _ & Hwm & _). eapply once_same_pending; [done|done|].
    unfold below_watermark. by rewrite Hwm.
  - apply charge_same in Hc as [w ->]. eapply once_same_pending; [done|by destruct s|by destruct s].
  - eapply once_same_pending; [done|by destruct s|by destruct s].
  - destruct (note_consumed_same s b) as (_ & H2 & _). pose proof (note_consumed_watermark s b) as Hw.
    unfold consume. eapply once_same_pending; [done| |]; destruct (note_consumed s b); simpl in *; auto.
  - by apply park_once.
  - subst s'. apply paid_same in Hpaid as [w ->]. set (s1 := set_window s w).
    assert (once r s1 log) as Ho1 by (eapply once_same_pending; [done|by destruct s|by destruct s]).
    assert (pending s1 = pending s) as Hp1 by by destruct s.
    destruct (admit_effects s1 b now c x) as (_ & Hpe & _ & _ & Hw & _).
    eapply (once_add r s1 _ b log _ (held s1 log)); [done|by destruct s|done|done| |].
    + unfold held. rewrite Hpe, fmap_app. simpl. solve_Permutation.
    + by rewrite Hpe, Hp1.
  - subst s'. apply paid_same in Hpaid as [w ->]. set (s1 := set_pending (set_window s w) rest).
    destruct (admit_effects s1 b now true x) as (_ & Hpe & _ & _ & Hw & _).
    assert (pending s1 = rest) as Hp1 by by destruct s.
    eapply once_same; [done| | |].
    + unfold held. rewrite Hpe, fmap_app, Hp1, Hpend. simpl. solve_Permutation.
    + intros due Hd. rewrite Hw. apply note_consumed_watermark. by destruct s.
    + rewrite Hpe, Hp1. rewrite Hpend in Hp. by inversion Hp.
  - eapply once_same_pending; [done|by destruct s|by destruct s].
Qed.

(** An update empties the queue: everything parked is of an earlier revision. *)
Lemma update_once r r' s log : ScheduleRevision.get r < ScheduleRevision.get r' → once r s log →
  once r' (apply_schedule_update s r').1 log.
Proof.
  intros Hlt [Hrev Hpend Hcov Hkeys].
  assert (pending (apply_schedule_update s r').1 = []) as Hnil.
  { unfold apply_schedule_update. simpl. rewrite filter_none; [by destruct s|].
    intros b Hb. rewrite Forall_forall in Hpend. rewrite (Hpend b Hb). lia. }
  unfold held in *. apply Forall_app in Hrev as [Hrev _]. rewrite omap_app in Hkeys.
  split; unfold held; rewrite ?Hnil, ?app_nil_r; [| done | |].
  - eapply Forall_impl; [done|]. unfold revision_le. intros b Hb. lia.
  - eapply Forall_impl; [done|]. unfold revision_le. intros b Hb due Hr. rewrite Hr in Hb. lia.
  - by apply NoDup_app in Hkeys as (? & _).
Qed.
