(* ===== verification/WakeProps.v ===== *)
(** * Properties of the wakes of a continuous goal

    The window of a goal and what its epochs cost, and the theorems on runs of the wake
    controller: bounds, accounting, at most one epoch per scheduled occurrence, windows,
    gates and backoff. *)

From S2P Require Import Prelude AgentIdentity Budget Delegation FanIn WakeCalendar Wake WakeController WakeRuns.
Import AgentWakeControllerState.

(** ** Windows *)

Section Window.
Context (policy : WakePolicy.t) (ceiling : AgentGoalWindowCeiling.t).
Context (Hpolicy : WakePolicy.validate policy = Ok tt).
Context (Hceiling : WakePolicy.goal_window policy = Some ceiling).
Context (Hwindow : window_positive (AgentGoalWindowCeiling.window ceiling)).
Context (Hlimits : ∀ d limit, AgentBudgetAllocation.get (AgentGoalWindowCeiling.ceiling ceiling) d = Some limit →
  0 <= limit < u64_max).
Context (Hcosts : ∀ d cost, AgentBudgetAllocation.get (WakePolicy.epoch_budget policy) d = Some cost → 0 <= cost).

Let limits := AgentGoalWindowCeiling.ceiling ceiling.
Let budget := WakePolicy.epoch_budget policy.

(** What one epoch reserves of a dimension. *)
Definition epoch_cost (policy : WakePolicy.t) (d : AgentBudgetDimension) : Z :=
  from_option id 0 (AgentBudgetAllocation.get (WakePolicy.epoch_budget policy) d).

(** How many epochs the window that starts at [w] paid for. *)
Definition epochs_charged (log : list Admission.t) (w : AgentTimestampMillis) : Z :=
  Z.of_nat (length (filter (fun a => Admission.charged_to a = Some w) log)).

Lemma epochs_charged_app log l w : epochs_charged (log ++ l) w = epochs_charged log w + epochs_charged l w.
Proof. unfold epochs_charged. rewrite filter_app, length_app. lia. Qed.

Lemma epochs_charged_one s b w :
  epochs_charged [charged s b] w =
  if bool_decide ((AgentWakeWindowLedger.window_start <$> window s) = Some w) then 1 else 0.
Proof. unfold epochs_charged. rewrite filter_cons. simpl. case_decide; case_bool_decide; done. Qed.

Lemma conserved_all d limit : AgentBudgetAllocation.get limits d = Some limit → d ∈ CONSERVED.
Proof. intros H. destruct d; try done; apply list_elem_of_In; simpl; tauto. Qed.

(** The policy prices every dimension that its window bounds. *)
Lemma priced d limit : AgentBudgetAllocation.get limits d = Some limit →
  AgentBudgetAllocation.get budget d = Some (epoch_cost policy d).
Proof.
  intros Hd. assert (WakePolicy.validate_window policy ceiling = Ok tt) as Hv.
  { unfold WakePolicy.validate in Hpolicy. case_bool_decide; [done|].
    do 5 (apply result_bind_ok in Hpolicy as (_ & _ & Hpolicy)). rewrite Hceiling in Hpolicy.
    by apply result_bind_ok in Hpolicy as ([] & ? & _). }
  unfold WakePolicy.validate_window in Hv. apply result_bind_ok in Hv as (_ & _ & Hv).
  destruct (AgentBudgetAllocation.is_unbounded _); [done|].
  assert (WakePolicy.payable policy (AgentGoalWindowCeiling.ceiling ceiling) d = Ok tt) as Hp.
  { pose proof (conserved_all d limit Hd) as Hin. revert Hv Hin. generalize CONSERVED as l.
    induction l as [|x l IH]; intros Hv Hin; [by apply not_elem_of_nil in Hin|].
    simpl in Hv. apply result_bind_ok in Hv as ([] & Hx & Hv). apply elem_of_cons in Hin as [->|Hin]; auto. }
  unfold WakePolicy.payable in Hp. fold limits in Hp. rewrite Hd in Hp. unfold epoch_cost. fold budget in Hp |- *.
  by destruct (AgentBudgetAllocation.get budget d).
Qed.

Lemma priced_nonneg d limit : AgentBudgetAllocation.get limits d = Some limit → 0 <= epoch_cost policy d.
Proof. intros H. eapply Hcosts. by eapply priced. Qed.

(** Charging adds the cost of an epoch in every bounded dimension. *)
Lemma get_charged consumed d limit : AgentBudgetAllocation.get limits d = Some limit →
  AgentBudgetConsumption.get (foldl (charge_dimension limits budget) consumed CONSERVED) d =
  saturating_add_u64 (AgentBudgetConsumption.get consumed d) (epoch_cost policy d).
Proof.
  intros Hd. pose proof (priced d limit Hd) as Hp. pose proof (conserved_all d limit Hd) as Hin.
  assert (NoDup CONSERVED) as Hnd by (repeat constructor; set_solver).
  assert (is_conserved d) as Hcd by by destruct d.
  assert (∀ l c, d ∉ l → AgentBudgetConsumption.get (foldl (charge_dimension limits budget) c l) d =
    AgentBudgetConsumption.get c d) as Hout.
  { induction l as [|x l IH]; intros c Hn; [done|]. apply not_elem_of_cons in Hn as [Hne Hn]. simpl.
    rewrite IH by done. unfold charge_dimension. repeat case_match; try done.
    rewrite get_consumption_add. by rewrite decide_False by (intros [? _]; congruence). }
  revert consumed Hin Hnd. generalize CONSERVED as l. induction l as [|x l IH]; intros c Hin Hnd;
    [by apply not_elem_of_nil in Hin|].
  inversion Hnd as [|? ? Hx Hnd']; subst. simpl. apply elem_of_cons in Hin as [<-|Hin].
  - rewrite Hout by done. unfold charge_dimension. rewrite Hd, Hp, get_consumption_add. by rewrite decide_True.
  - rewrite IH by done. f_equal. unfold charge_dimension. repeat case_match; try done.
    rewrite get_consumption_add. rewrite decide_False; [done|]. by intros [-> _].
Qed.

Record paying (s : t) (log : list Admission.t) : Prop := Paying {
  paying_none : window s = None → log = [];
  paying_past : ∀ l, window s = Some l →
    Forall (fun a => ∃ w, Admission.charged_to a = Some w ∧ w <= AgentWakeWindowLedger.window_start l) log;
  paying_consumed : ∀ l d limit, window s = Some l → AgentBudgetAllocation.get limits d = Some limit →
    AgentBudgetConsumption.get (AgentWakeWindowLedger.consumed l) d =
    epochs_charged log (AgentWakeWindowLedger.window_start l) * epoch_cost policy d;
  paying_limit : ∀ w d limit, AgentBudgetAllocation.get limits d = Some limit →
    epochs_charged log w * epoch_cost policy d <= limit;
}.

(** Only the window matters. *)
Lemma paying_ext s s' log : window s' = window s → paying s log → paying s' log.
Proof. intros H [H1 H2 H3 H4]. split; rewrite ?H; done. Qed.

Lemma window_advances previous now : previous <= advance_window_start (AgentGoalWindowCeiling.window ceiling) previous now.
Proof.
  destruct (AgentGoalWindowCeiling.window ceiling) as [len|unit]; simpl in *.
  - assert (0 <= saturating_sub now previous / len) by (apply Z.div_pos; [unfold saturating_sub|]; lia). nia.
  - destruct (Z.ltb_spec previous (calendar_window_start unit now)); lia.
Qed.

Lemma no_charge_yet log l start : Forall (fun a => ∃ w, Admission.charged_to a = Some w ∧ w <= l) log →
  l < start → epochs_charged log start = 0.
Proof.
  intros H Hlt. unfold epochs_charged. rewrite filter_none; [done|]. intros x Hx He.
  rewrite Forall_forall in H. destruct (H x Hx) as (w & Hw & Hle). simplify_eq. lia.
Qed.

(** The window of a later time: refilled when it turned. *)
Lemma refilled_paying s log now : paying s log → paying (set_window s (Some (ledger_at s ceiling now))) log.
Proof.
  intros [H1 H2 H3 H4]. assert (∀ w, window (set_window s w) = w) as Hw by by destruct s.
  unfold ledger_at, window_of. destruct (window s) as [l|] eqn:Hs.
  - pose proof (window_advances (AgentWakeWindowLedger.window_start l) now) as Hadv.
    destruct (Z.eqb_spec (AgentWakeWindowLedger.window_start l) (advance_window_start
      (AgentGoalWindowCeiling.window ceiling) (AgentWakeWindowLedger.window_start l) now)) as [He|Hne].
    + apply (paying_ext s); [by rewrite Hw|]. split; rewrite ?Hs; done.
    + split; rewrite ?Hw; try done.
      * intros ? [= <-]. simpl. eapply Forall_impl; [by apply H2|]. intros a (w & ? & ?). exists w. split; [done|lia].
      * intros ? d limit [= <-] Hd. simpl. rewrite (no_charge_yet log (AgentWakeWindowLedger.window_start l)); [|by apply H2|lia].
        by destruct d.
  - rewrite (H1 eq_refl) in *. split; rewrite ?Hw; try done.
    intros ? d limit [= <-] Hd. by destruct d.
Qed.

Lemma charge_ok s now s' : charge_goal_window s ceiling budget now = (s', Ok tt) →
  s' = set_window s (Some (AgentWakeWindowLedger.mk (AgentWakeWindowLedger.window_start (ledger_at s ceiling now))
    (foldl (charge_dimension limits budget) (AgentWakeWindowLedger.consumed (ledger_at s ceiling now)) CONSERVED))) ∧
  ∀ d, d ∈ CONSERVED → refuses (AgentWakeWindowLedger.consumed (ledger_at s ceiling now)) limits budget d = false.
Proof.
  unfold charge_goal_window. fold limits. destruct (find_first _ _) as [d|] eqn:Hf; [done|].
  intros [= <-]. split; [by destruct s|]. by apply find_first_None.
Qed.

Lemma charge_err s now s' d : charge_goal_window s ceiling budget now = (s', Err d) →
  s' = set_window s (Some (ledger_at s ceiling now)).
Proof. unfold charge_goal_window. destruct (find_first _ _) as [x|]; [|done]. by intros [= <- _]. Qed.

(** One more epoch is charged to the window in force. *)
Lemma paid_paying s log now s1 s' b : paying s log → paid s policy now s1 → window s' = window s1 →
  paying s' (log ++ [charged s' b]).
Proof.
  intros Hpay Hpaid Hs'. unfold paid in Hpaid. rewrite Hceiling in Hpaid. fold budget in Hpaid.
  apply charge_ok in Hpaid as [-> Hrefuse]. apply (refilled_paying s log now) in Hpay as [H1 H2 H3 H4].
  assert (∀ w, window (set_window s w) = w) as Hw by by destruct s. rewrite Hw in *.
  set (l := ledger_at s ceiling now) in *. specialize (H2 l eq_refl). specialize (H3 l).
  assert (∀ d limit, AgentBudgetAllocation.get limits d = Some limit →
    AgentBudgetConsumption.get (AgentWakeWindowLedger.consumed l) d + epoch_cost policy d <= limit ∧
    AgentBudgetConsumption.get (foldl (charge_dimension limits budget) (AgentWakeWindowLedger.consumed l) CONSERVED) d =
    AgentBudgetConsumption.get (AgentWakeWindowLedger.consumed l) d + epoch_cost policy d) as Hd.
  { intros d limit Hd. specialize (Hrefuse d (conserved_all d limit Hd)). unfold refuses in Hrefuse.
    rewrite Hd, (priced d limit Hd) in Hrefuse. apply Z.ltb_ge in Hrefuse. rewrite (get_charged _ d limit Hd).
    specialize (Hlimits d limit Hd). unfold saturating_add_u64 in *. lia. }
  revert Hs' Hd. generalize (foldl (charge_dimension limits budget) (AgentWakeWindowLedger.consumed l) CONSERVED) as c'.
  intros c' Hs' Hd. split; rewrite ?Hs'; [done| | |].
  - intros ? [= <-]. simpl. apply Forall_app_2; [done|]. constructor; [|done]. simpl. rewrite Hs'.
    eexists. by split.
  - intros ? d limit [= <-] Hdim. simpl. destruct (Hd d limit Hdim) as [_ ->].
    rewrite epochs_charged_app, epochs_charged_one, Hs', bool_decide_eq_true_2 by done.
    rewrite (H3 d limit) by done. lia.
  - intros w d limit Hdim. rewrite epochs_charged_app, epochs_charged_one, Hs'. simpl.
    case_bool_decide as Hstart; [|rewrite Z.add_0_r; by apply H4]. injection Hstart as Hstart.
    destruct (Hd d limit Hdim) as [Hle _]. rewrite (H3 d limit) in Hle by done. subst w. lia.
Qed.

Lemma move_paying r s s' l k log : move (eq policy) r s s' l k → paying s log → paying s' (log ++ l).
Proof.
  intros Hm Hpay.
  destruct Hm as [s' Hc|? ceiling' now s' d <- Hwin Hc|b f Hf|b f Hf Hb|? b f disp <- Hf Hb
    |? b now s1 c x <- Hg Hb Hpaid|? b rest now s1 x <- Hg Hpend Hpaid|index Hi];
    rewrite ?app_nil_r.
  - apply core_inv in Hc as (_ & _ & _ & _ & Hw & _). by eapply paying_ext.
  - rewrite Hceiling in Hwin. injection Hwin as <-. apply charge_err in Hc as ->. by apply refilled_paying.
  - eapply paying_ext; [|done]. by destruct s.
  - eapply paying_ext; [|done]. destruct (note_consumed_same s b) as (_ & _ & Hw & _). unfold consume.
    by destruct (note_consumed s b).
  - eapply paying_ext; [|done]. by destruct (park_effects s policy b f disp) as (_ & Hw & _).
  - subst s'. eapply paid_paying; [done|done|]. by destruct (admit_effects s1 b now c x) as (_ & _ & Hw & _).
  - subst s'. eapply paid_paying; [done|done|].
    destruct (admit_effects (set_pending s1 rest) b now true x) as (_ & _ & Hw & _). rewrite Hw. by destruct s1.
  - eapply paying_ext; [|done]. by destruct s.
Qed.

End Window.

(** ** The counter of admissions *)

Lemma admitted_add c f n :
  eqm (Counters.admitted (Counters.add c f n)) (Counters.admitted c + match f with Counters.WasAdmitted => n | _ => 0 end).
Proof.
  unfold eqm. destruct c as [a b c d e g h i j k l m o p]. destruct f; simpl; try (exists 0; lia).
  destruct (add_u64_eqm a n) as [q ->]. exists q. lia.
Qed.

Definition counted (s : t) (log : list Admission.t) : Prop :=
  eqm (Counters.admitted (counters s)) (Z.of_nat (length log)).

Lemma counted_other s s' log f n : counters s' = Counters.add (counters s) f n → f ≠ Counters.WasAdmitted →
  counted s log → counted s' log.
Proof.
  intros Hc Hf [q Hq]. unfold counted. rewrite Hc. destruct (admitted_add (counters s) f n) as [x Hx].
  exists (q + x). destruct f; try done; lia.
Qed.

Lemma counted_admitted s s' log a : counters s' = Counters.add (counters s) Counters.WasAdmitted 1 →
  counted s log → counted s' (log ++ [a]).
Proof.
  intros Hc [q Hq]. unfold counted. rewrite Hc, length_app. destruct (admitted_add (counters s) Counters.WasAdmitted 1) as [x Hx].
  exists (q + x). simpl. lia.
Qed.

Lemma park_counted s policy b f disposition log : parking_field f = true → counted s log →
  counted (park s policy b f disposition).1 log.
Proof.
  intros Hf Hc. destruct (park_effects s policy b f disposition) as (_ & _ & _ & _ & He). revert He.
  set (s' := (park _ _ _ _ _).1). clearbody s'. intros He.
  assert (f ≠ Counters.WasAdmitted) as Hne by (intros ->; done).
  inversion He as [Hlt Hpe Hcn|x rest Hx Hge Hpe Hcn|Hge Hpe Hcn].
  - by eapply counted_other.
  - apply (counted_other (count s f 1) _ _ Counters.Superseded 1); [by destruct s|done|].
    by eapply (counted_other s _ _ f 1); [destruct s|..].
  - by eapply counted_other.
Qed.

Lemma move_counted (allowed : WakePolicy.t → Prop) r s s' l k log :
  move allowed r s s' l k → counted s log → counted s' (log ++ l).
Proof.
  intros Hm Hc.
  destruct Hm as [s' Hcore|policy ceiling now s' d Hpol Hwin Hch|b f Hf|b f Hf Hb|policy b f disp Hpol Hf Hb
    |policy b now s1 c x Hpol Hg Hb Hpaid|policy b rest now s1 x Hpol Hg Hpend Hpaid|index Hi];
    rewrite ?app_nil_r.
  - apply core_inv in Hcore as (_ & _ & _ & _ & _ & Hk). unfold wake_counters in Hk. simpl in Hk.
    injection Hk as Hk _ _ _ _ _ _ _. unfold counted. by rewrite Hk.
  - apply charge_same in Hch as [w ->]. by destruct s.
  - apply (counted_other s _ _ f 1); [by destruct s|by intros ->|done].
  - destruct (note_consumed_same s b) as (_ & _ & _ & Hk & _).
    apply (counted_other s _ _ f 1); [|by intros ->|done]. unfold consume. rewrite <-Hk.
    by destruct (note_consumed s b).
  - by apply park_counted.
  - subst s'. apply paid_same in Hpaid as [w ->]. eapply (counted_admitted s); [|done].
    destruct (admit_effects (set_window s w) b now c x) as (_ & _ & _ & _ & _ & ->). by destruct s.
  - subst s'. apply paid_same in Hpaid as [w ->]. eapply (counted_admitted s); [|done].
    destruct (admit_effects (set_pending (set_window s w) rest) b now true x) as (_ & _ & _ & _ & _ & ->).
    by destruct s.
  - apply (counted_other s _ _ Counters.Released 1); [by destruct s|done|done].
Qed.

Lemma update_counted s r log : counted s log → counted (apply_schedule_update s r).1 log.
Proof. intros H. eapply (counted_other s _ _ Counters.Fenced); [|done|done]. by destruct s. Qed.

Lemma governed_any ops : governed (fun _ => True) ops.
Proof. unfold governed. rewrite Forall_forall. done. Qed.

(** ** Theorems *)

(** C40. What the controller stores is always what its decoder accepts.  After any sequence of
    its operations, under any policies and clock readings, the state passes [validate] (at most
    8 active wakes, 8 parked occurrences and 16 recent identities), so it can be loaded again;
    and while one policy is in force, the active epochs and the parked occurrences stay within
    the capacities of that policy: one of each by default. *)
Theorem wake_state_bounded (ops : list wake_op) :
  let s := controller (goal_run goal_start ops) in
  validate s = Ok tt ∧
  ∀ policy, governed (eq policy) ops →
    (length (active s) <= active_capacity policy)%nat ∧ (length (pending s) <= pending_capacity policy)%nat.
Proof.
  split.
  - apply validate_within.
    apply (runs_keep (fun _ => True) (fun _ s _ _ => within AGENT_WAKE_ACTIVE_CAPACITY AGENT_WAKE_PENDING_CAPACITY s)).
    + intros. eapply move_within; [|done|done]. intros p _.
      split; [apply active_capacity_bound|apply pending_capacity_bound].
    + intros. by apply update_within.
    + apply governed_any.
    + repeat split; apply Nat.le_0_l.
  - intros policy Hgov.
    enough (within (active_capacity policy) (pending_capacity policy) (controller (goal_run goal_start ops)))
      as (? & ? & _) by done.
    apply (runs_keep (eq policy) (fun _ s _ _ => within (active_capacity policy) (pending_capacity policy) s)).
    + intros. eapply move_within; [|done|done]. by intros p <-.
    + intros. by apply update_within.
    + done.
    + repeat split; apply Nat.le_0_l.
Qed.

(** C17. No delivery is lost and none is counted twice.  After any sequence of operations, the
    deliveries that were neither refused nor recognised as duplicates are exactly those
    counted as admitted, superseded in the queue, missed, fenced, dropped, barred or consumed
    as a retry, together with those still parked; the occurrences counted as admitted are the
    epochs that were started, and those not yet released are the active ones (all up to the
    wrap of 64-bit counters). *)
Theorem deliveries_accounted (ops : list wake_op) :
  let g := goal_run goal_start ops in
  let s := controller g in
  let c := counters s in
  wrap_u64 (Counters.admitted c + Counters.superseded c + Counters.missed c + Counters.fenced c +
            Counters.dropped c + Counters.barred c + Counters.retried c + Z.of_nat (length (pending s))) =
  wrap_u64 (delivered g) ∧
  wrap_u64 (Counters.admitted c) = wrap_u64 (Z.of_nat (length (admissions g))) ∧
  wrap_u64 (Counters.admitted c - Counters.released c) = wrap_u64 (Z.of_nat (length (active s))).
Proof.
  intros g s c.
  assert (accounted s (delivered g)) as [[q Hq] [q' Hq']].
  { apply (runs_keep (fun _ => True) (fun _ s _ n => accounted s n)); [| |apply governed_any|].
    - intros. by eapply move_accounted.
    - intros. by apply update_accounted.
    - by split; exists 0. }
  assert (counted s (admissions g)) as Hc.
  { apply (runs_keep (fun _ => True) (fun _ s log _ => counted s log)); [| |apply governed_any|].
    - intros. by eapply move_counted.
    - intros. by apply update_counted.
    - by exists 0. }
  unfold unaccounted, unheld, over, running in *. split; [|split]; apply eqm_wrap; [exists q|done|exists q'];
    unfold c; lia.
Qed.

(** C15. A scheduled occurrence starts at most one epoch.  However often its wake is delivered,
    in whatever order with releases, suspensions, retries, schedule and policy updates, and
    however long after the bounded ring of recent identities forgot it, no due time of a
    schedule revision is admitted twice, and none that is still parked was admitted already. *)
Theorem scheduled_occurrence_admitted_once (ops : list wake_op) :
  let g := goal_run goal_start ops in
  NoDup (omap schedule_key ((Admission.binding <$> admissions g) ++ pending (controller g))).
Proof.
  apply (runs_keep (fun _ => True) (fun r s log _ => once r s log)); [| |apply governed_any|].
  - intros. by eapply move_once.
  - intros. by eapply update_once.
  - split; repeat constructor.
Qed.

(** C19. No window pays for more than its ceiling.  Under a valid policy with a goal window, for
    every window start and every bounded dimension, the epochs admitted on that window's
    account reserve together at most the ceiling; and the ledger kept for the window in force
    holds exactly what its epochs reserved.  (A ceiling of [u64::MAX] would be no bound: the
    sums saturate there.) *)
Theorem windows_never_overspent (policy : WakePolicy.t) (ceiling : AgentGoalWindowCeiling.t) (ops : list wake_op)
    (Hpolicy : WakePolicy.validate policy = Ok tt) (Hceiling : WakePolicy.goal_window policy = Some ceiling)
    (Hwindow : window_positive (AgentGoalWindowCeiling.window ceiling))
    (Hlimits : ∀ d limit, AgentBudgetAllocation.get (AgentGoalWindowCeiling.ceiling ceiling) d = Some limit →
       0 <= limit < u64_max)
    (Hcosts : ∀ d cost, AgentBudgetAllocation.get (WakePolicy.epoch_budget policy) d = Some cost → 0 <= cost)
    (Hgov : governed (eq policy) ops) :
  let g := goal_run goal_start ops in
  ∀ d limit, AgentBudgetAllocation.get (AgentGoalWindowCeiling.ceiling ceiling) d = Some limit →
    (∀ start, epochs_charged (admissions g) start * epoch_cost policy d <= limit) ∧
    ∀ ledger, window (controller g) = Some ledger →
      AgentBudgetConsumption.get (AgentWakeWindowLedger.consumed ledger) d =
      epochs_charged (admissions g) (AgentWakeWindowLedger.window_start ledger) * epoch_cost policy d.
Proof.
  intros g d limit Hd.
  assert (paying policy ceiling (controller g) (admissions g)) as [_ _ Hcons Hlim].
  { apply (runs_keep (eq policy) (fun _ s log _ => paying policy ceiling s log)); [| |done|].
    - intros. by eapply move_paying.
    - intros r r' s log m _ H. eapply paying_ext; [|done]. by destruct s.
    - split; try done. intros w x y Hx. simpl. by destruct (Hlimits x y Hx). }
  split; [intros start; by eapply Hlim|intros ledger Hl; by eapply Hcons].
Qed.

(** ** Gates *)

Lemma count_lifecycle s f n : lifecycle (count s f n) = lifecycle s.
Proof. by destruct s. Qed.
Lemma note_seen_lifecycle s b : lifecycle (note_seen s b) = lifecycle s.
Proof. by destruct s. Qed.
Lemma note_consumed_lifecycle s b : lifecycle (note_consumed s b) = lifecycle s.
Proof. unfold note_consumed. destruct s. by repeat case_match. Qed.
Lemma set_window_lifecycle s w : lifecycle (set_window s w) = lifecycle s.
Proof. by destruct s. Qed.

Lemma park_lifecycle s policy b f disposition : lifecycle (park s policy b f disposition).1 = lifecycle s.
Proof.
  unfold park, park_binding. rewrite <-(note_consumed_lifecycle s b). destruct (note_consumed s b).
  repeat case_match; simplify_eq/=; done.
Qed.

Lemma admit_lifecycle s b now c r : lifecycle (admit_binding s b now c r).1 = lifecycle s.
Proof. unfold admit_binding. rewrite <-(note_consumed_lifecycle s b). by destruct (note_consumed s b). Qed.

Create Rewrite HintDb wake_lifecycle.
#[local] Hint Rewrite count_lifecycle note_seen_lifecycle note_consumed_lifecycle set_window_lifecycle
  park_lifecycle admit_lifecycle : wake_lifecycle.

(** A closed gate: nothing is admitted and the lifecycle stays. *)
Lemma gate_closed s policy b now : status s ≠ Status.Active →
  Disposition.is_admission (gate s policy b now).2 = false ∧ lifecycle (gate s policy b now).1 = lifecycle s.
Proof.
  intros Hs. unfold gate, consume. destruct (status s) eqn:He; [done| | |]; simpl.
  - case_match; simpl; autorewrite with wake_lifecycle; [|done]. split; [|done].
    unfold park. by destruct (park_binding _ _ _) as [? []].
  - by autorewrite with wake_lifecycle.
  - by autorewrite with wake_lifecycle.
Qed.

Lemma on_slot_status s cause due attempt f : status (on_slot s cause due attempt f) = status s.
Proof. unfold on_slot. repeat case_match; try done. by destruct s as [? ? ? ? ? ? ? ? []]. Qed.

Lemma dispose_closed s policy b now : status s ≠ Status.Active →
  Disposition.is_admission (dispose_current s policy b now).2 = false ∧
  status (dispose_current s policy b now).1 = status s.
Proof.
  intros Hs. destruct (gate_closed s policy b now Hs) as [Ha Hl]. unfold dispose_current.
  destruct (Binding.occurrence b); try (split; [done|unfold status; by rewrite Hl]).
  - case_match; [done|]. split; [done|]. unfold status. by rewrite Hl.
  - simpl. split; [done|]. rewrite on_slot_status. unfold status. by autorewrite with wake_lifecycle.
Qed.

Lemma promote_closed s policy now : status s ≠ Status.Active → promote_admittable s policy now = (s, None).
Proof. intros Hs. unfold promote_admittable. by destruct (status s). Qed.

Lemma set_lifecycle_status s l : status (set_lifecycle s l) = Lifecycle.status l.
Proof. by destruct s. Qed.

(** Only a resumption opens the gate again, and not after the end. *)
Definition resumes (o : wake_op) : bool := match o with Resume _ _ => true | _ => false end.

Lemma exec_closed revision s o : status s ≠ Status.Active → Status.is_terminal (status s) = true ∨ resumes o = false →
  let '(s', l, _) := exec revision s o in
  l = [] ∧ status s' ≠ Status.Active ∧ (Status.is_terminal (status s) = true → status s' = status s).
Proof.
  intros Hs Hr. destruct o as [policy b now|policy now|policy wake now|wake epoch|r|policy now|e reason p|e p|e policy at_ p now
    |e p|reason| |policy o now|policy o d|trigger| |policy now|cause due attempt]; simpl.
  - unfold admit_delivery. destruct (check_delivery _ _ _); simpl; [|done]. destruct (contains _ _); simpl; [done|].
    destruct (_ <? ScheduleRevision.get revision); simpl.
    { unfold status in *. by autorewrite with wake_lifecycle. }
    destruct (dispose_closed s policy b now Hs) as [Ha Hst].
    destruct (dispose_current s policy b now) as [s' d]. simpl in *. by rewrite Ha, Hst.
  - by rewrite (promote_closed s policy now Hs).
  - unfold release. destruct (list_find _ _) as [[i x]|]; [|done].
    set (s1 := count _ _ _). assert (status s1 = status s) as H1 by (subst s1; by destruct s).
    rewrite (promote_closed s1 policy now) by by rewrite H1. simpl. by rewrite H1.
  - unfold attach_epoch. destruct (list_find _ _) as [[i x]|]; [|done]. by destruct s.
  - by destruct s.
  - unfold observe_lifecycle. destruct (Status.is_terminal (status s)) eqn:Ht; [done|].
    repeat case_match; simpl; unfold enter; rewrite ?set_lifecycle_status; done.
  - unfold suspend, fence_lifecycle_revision. destruct (Status.is_terminal (status s)) eqn:Ht; simpl; [done|].
    case_bool_decide; simpl; unfold enter; rewrite ?set_lifecycle_status; done.
  - unfold resume, fence_lifecycle_revision. destruct Hr as [->|]; done.
  - unfold renew, fence_lifecycle_revision. destruct (Status.is_terminal (status s)) eqn:Ht; simpl; [done|].
    case_bool_decide; simpl; [done|]. repeat (case_match; simpl; try done);
      simplify_eq; rewrite ?set_lifecycle_status; done.
  - unfold retire, fence_lifecycle_revision. destruct (Status.is_terminal (status s)) eqn:Ht; simpl; [done|].
    case_bool_decide; simpl; unfold enter; rewrite ?set_lifecycle_status; done.
  - unfold suspend_by_policy. by rewrite bool_decide_eq_true_2.
  - unfold retire_by_policy. destruct (Status.is_terminal (status s)) eqn:Ht; [done|].
    unfold enter. by rewrite set_lifecycle_status.
  - unfold record_epoch_outcome. destruct o; simpl; rewrite ?set_lifecycle_status; try done.
    rewrite (bool_decide_eq_false_2 (status s = Status.Active)), andb_false_r by done. simpl.
    by rewrite set_lifecycle_status.
  - unfold record_epoch_progress. destruct o; simpl; rewrite ?set_lifecycle_status; try done.
    by repeat case_match.
  - by destruct trigger, s.
  - unfold reset_stagnation. by rewrite set_lifecycle_status.
  - unfold ensure_rewakes. repeat case_match; by rewrite set_lifecycle_status.
  - unfold mark_rewake_parked. by rewrite on_slot_status.
Qed.

Lemma step_closed g o : status (controller g) ≠ Status.Active →
  Status.is_terminal (status (controller g)) = true ∨ resumes o = false →
  let g' := goal_step g o in
  admissions g' = admissions g ∧ status (controller g') ≠ Status.Active ∧
  (Status.is_terminal (status (controller g)) = true → status (controller g') = status (controller g)).
Proof.
  intros Hs Hr. pose proof (fun revision => exec_closed revision (controller g) o Hs Hr) as H. unfold goal_step.
  assert (∀ revision, let g' := (let '(s, new, n) := exec revision (controller g) o in
      GoalState revision s (admissions g ++ new) (delivered g + n)) in
    admissions g' = admissions g ∧ status (controller g') ≠ Status.Active ∧
    (Status.is_terminal (status (controller g)) = true → status (controller g') = status (controller g))) as Hrun.
  { intros revision. specialize (H revision). destruct (exec revision (controller g) o) as [[s l] n].
    destruct H as (-> & H1 & H2). simpl. by rewrite app_nil_r. }
  destruct o; try apply Hrun. case_match; [done|apply Hrun].
Qed.

(** A closed goal starts nothing.  From any state that is expired or retired, whatever is
    done next, no epoch is admitted and the status never changes again; from a suspended
    state, no epoch is admitted and the goal does not become active until a resumption. *)
Theorem closed_goal_admits_nothing (g : goal_state) (ops : list wake_op)
    (Hclosed : status (controller g) ≠ Status.Active)
    (Hresume : Status.is_terminal (status (controller g)) = true ∨ Forall (fun o => resumes o = false) ops) :
  admissions (goal_run g ops) = admissions g ∧ status (controller (goal_run g ops)) ≠ Status.Active ∧
  (Status.is_terminal (status (controller g)) = true →
     status (controller (goal_run g ops)) = status (controller g)).
Proof.
  revert g Hclosed Hresume. induction ops as [|o ops IH]; intros g Hs Hr; [done|].
  assert (Status.is_terminal (status (controller g)) = true ∨ resumes o = false) as Ho
    by (destruct Hr as [|Hr]; [auto|inversion Hr; auto]).
  destruct (step_closed g o Hs Ho) as (Ha & Hst & Ht).
  change (goal_run g (o :: ops)) with (goal_run (goal_step g o) ops).
  destruct (IH (goal_step g o) Hst) as (Ha' & Hst' & Ht').
  { destruct Hr as [Hr|Hr]; [left; by rewrite Ht|right; by inversion Hr]. }
  split; [congruence|]. split; [done|]. intros H. rewrite Ht' by by rewrite Ht. by apply Ht.
Qed.

(** ** Backoff *)

Lemma backoff_loop_bounded policy steps delay : 100 <= AgentWakeBackoffPolicy.multiplier_percent policy →
  AgentWakeBackoffPolicy.max_millis policy * AgentWakeBackoffPolicy.multiplier_percent policy <= u64_max →
  0 < delay <= AgentWakeBackoffPolicy.max_millis policy →
  delay <= backoff_loop policy steps delay <= AgentWakeBackoffPolicy.max_millis policy ∧
  backoff_loop policy steps delay <= backoff_loop policy (S steps) delay.
Proof.
  intros Hm Hmax. revert delay. induction steps as [|steps IH]; intros delay Hd.
  - simpl. unfold saturating_mul_u64.
    set (next := Z.min _ _ / 100). assert (delay <= next) by (subst next; apply Z.div_le_lower_bound; nia).
    destruct (Z.leb_spec (AgentWakeBackoffPolicy.max_millis policy) next); lia.
  - cbn [backoff_loop]. set (next := saturating_mul_u64 _ _ / 100).
    assert (delay <= next) by (subst next; unfold saturating_mul_u64; apply Z.div_le_lower_bound; nia).
    destruct (Z.leb_spec (AgentWakeBackoffPolicy.max_millis policy) next); [lia|].
    destruct (IH next ltac:(lia)) as [H1 H2]. split; [lia|]. exact H2.
Qed.

(** The delay after a failure starts at the initial delay, never decreases from one
    failure of a streak to the next, and never passes the maximum, for a policy that validates
    and whose maximum times its multiplier is a 64-bit number. *)
Theorem backoff_delay_bounded (policy : AgentWakeBackoffPolicy.t) (failures : Z)
    (Hpolicy : AgentWakeBackoffPolicy.validate policy = Ok tt)
    (Hrange : 0 <= AgentWakeBackoffPolicy.initial_millis policy)
    (Hmax : AgentWakeBackoffPolicy.max_millis policy * AgentWakeBackoffPolicy.multiplier_percent policy <= u64_max)
    (Hfailures : 1 <= failures) :
  backoff_delay_millis policy 1 = AgentWakeBackoffPolicy.initial_millis policy ∧
  AgentWakeBackoffPolicy.initial_millis policy <= backoff_delay_millis policy failures <=
    AgentWakeBackoffPolicy.max_millis policy ∧
  backoff_delay_millis policy failures <= backoff_delay_millis policy (failures + 1).
Proof.
  unfold AgentWakeBackoffPolicy.validate in Hpolicy.
  destruct (Z.eqb_spec (AgentWakeBackoffPolicy.initial_millis policy) 0); [done|].
  destruct (Z.ltb_spec (AgentWakeBackoffPolicy.multiplier_percent policy) 100); [done|].
  destruct (Z.ltb_spec (AgentWakeBackoffPolicy.max_millis policy) (AgentWakeBackoffPolicy.initial_millis policy)); [done|].
  unfold backoff_delay_millis. replace (Z.to_nat (failures + 1 - 1)) with (S (Z.to_nat (failures - 1))) by lia.
  destruct (backoff_loop_bounded policy (Z.to_nat (failures - 1)) (AgentWakeBackoffPolicy.initial_millis policy))
    as [H2 H3]; [done|done|lia|]. split; [simpl; lia|done].
Qed.

(** ** Examples *)

Module WakeProps_demo.
Definition tokens (n : Z) : AgentBudgetAllocation.t :=
  AgentBudgetAllocation.mk None None None None None (Some n) None None.
Definition ceiling : AgentGoalWindowCeiling.t := AgentGoalWindowCeiling.mk (Rolling 1000) (tokens 25).
Definition policy : WakePolicy.t :=
  WakePolicy.mk {[Trigger.DurableTimer]} None None AgentWakeOverlapPolicy.ForbidAndCoalesce
    AgentMissedOccurrencePolicy.AdmitOneCoalesced (tokens 10) None (Some ceiling) AgentWakeBackoffPolicy.DEFAULT
    AgentWakeLifecyclePolicy.DEFAULT.
Definition due (d : Z) : Binding.t := Wake_demo.binding d d Trigger.DurableTimer.
Definition deliver (d : Z) : wake_op := Deliver policy (due d) d.
Definition finish (d : Z) : wake_op := Release policy (Binding.wake_id (due d)) (d + 5).
(** Two epochs, a third deferred, and promoted when the window turned. *)
Definition ops : list wake_op :=
  [deliver 10; finish 10; deliver 20; finish 20; deliver 30; Promote policy 1100].
Definition operator : AgentRevisionProvenance.t :=
  AgentRevisionProvenance.mk (PrincipalRef.mk "user" "ops" None) 5 "c-1" "a-1".
Definition retired : goal_state :=
  goal_run goal_start [Retire Revision.INITIAL operator].
End WakeProps_demo.

(** In the run above the three wakes become epochs of two windows. *)
Example demo_charges :
  let g := goal_run goal_start WakeProps_demo.ops in
  (epochs_charged (admissions g) 10, epochs_charged (admissions g) 1010, delivered g) = (2, 1, 3).
Proof. vm_compute. reflexivity. Qed.

Lemma wake_state_bounded_witness :
  (length (active (controller (goal_run goal_start WakeProps_demo.ops))) <= 1)%nat.
Proof.
  apply (wake_state_bounded WakeProps_demo.ops) with (policy := WakeProps_demo.policy).
  repeat constructor; intros p; simpl; congruence.
Defined.

Lemma windows_never_overspent_witness :
  epochs_charged (admissions (goal_run goal_start WakeProps_demo.ops)) 10 * 10 <= 25.
Proof.
  apply (windows_never_overspent WakeProps_demo.policy WakeProps_demo.ceiling WakeProps_demo.ops) with (d := Tokens).
  - vm_compute. reflexivity.
  - reflexivity.
  - reflexivity.
  - intros [] limit; simpl; intros [= <-]; vm_compute; split; congruence.
  - intros [] cost; simpl; intros [= <-]; lia.
  - repeat constructor; intros p; simpl; congruence.
  - reflexivity.
Defined.

Lemma closed_goal_admits_nothing_witness :
  admissions (goal_run WakeProps_demo.retired WakeProps_demo.ops) = [].
Proof.
  apply (closed_goal_admits_nothing WakeProps_demo.retired WakeProps_demo.ops).
  - vm_compute. discriminate.
  - left. vm_compute. reflexivity.
Defined.

Lemma backoff_delay_bounded_witness :
  1000 <= backoff_delay_millis AgentWakeBackoffPolicy.DEFAULT 5 <= 3600000.
Proof.
  apply (backoff_delay_bounded AgentWakeBackoffPolicy.DEFAULT 5); [reflexivity|vm_compute; congruence..].
Defined.
