(* ===== verification/WakeTask.v ===== *)
(** * Wake commands of a continuous task: [rakka-agent/src/task.rs]

    A continuous root task holds the schedule and policy in force, the ledger its epochs are
    paid from, and the wake controller.  Each command observes the lifecycle at its clock
    reading, runs the controller, and owes the creation of every epoch it admitted: identities
    derived from the wake, escrow debited, the epoch attached, all in one transition that is
    committed whole or not at all.  Modelled is a task that coordinates no goal contract of its
    own ([goal_state] is absent, so the gate is projected onto nothing and no stagnation action
    is taken); the bounded audit history is left out, and the size check is a parameter.

    Shown: every epoch a task holds is attached and paid for, a parked occurrence is never left
    without something that will retry it by the commands that promote, and the two commands
    that can leave one behind. *)

From S2P Require Import Prelude AgentIdentity Budget Delegation FanIn WakeCalendar Wake WakeController WakeRuns WakeProps.
Import AgentWakeControllerState.

Module AgentAssignmentGeneration.
Record t := new { get : Z }.
Definition UNASSIGNED : t := new 0.
Definition next (self : t) : t := new (add_u64 (get self) 1).
Definition fmt (self : t) : string := pretty (get self).
End AgentAssignmentGeneration.

Definition run_id_for_assignment (task : AgentTaskId.t) (generation : AgentAssignmentGeneration.t) :
    AgentIdentityResult AgentRunId.t :=
  AgentRunId.new (AgentTaskId.as_str task +:+ "-gen-" +:+ AgentAssignmentGeneration.fmt generation).

Definition escrow_child_for_run (run : AgentRunId.t) : AgentIdentityResult AgentEscrowChildId.t :=
  validated_id "escrow child id" AgentEscrowChildId.mk (AgentRunId.as_str run).

Module AgentTaskError.
Inductive t :=
| Terminal (status : AgentTaskStatus.t)
| WakeOperationMismatch
| WakeGoalMismatch (offered : AgentGoalId.t)
| EpochUndefined
| EpochForged
| ScheduleNotMonotonic (offered current : ScheduleRevision.t)
| WakePolicyNotNewer (offered current : Revision.t)
| MaterializedStateTooLarge (bytes maximum : Z)
| Wake (error : WakeErr.t)
| Identity (error : AgentIdentityError)
| Escrow (error : AgentEscrowError).
End AgentTaskError.

Module TaskErr := AgentTaskError.
Abbreviation AgentTaskResult := (result TaskErr.t).

Module AgentWakeOutcome.
Inductive t :=
| Disposition (disposition : Disposition.t)
| Release (release : AgentWakeRelease.t)
| ScheduleUpdated (schedule_revision : ScheduleRevision.t) (policy_revision : Revision.t) (fenced : Z)
| Lifecycle (status : Status.t) (lifecycle_revision : Revision.t).
End AgentWakeOutcome.

Module Outcome := AgentWakeOutcome.

Module AgentEpochResult.
Record t := mk {
  wake : AgentWakeId.t;
  task : AgentTaskId.t;
  status : AgentTaskStatus.t;
  consumed : AgentBudgetConsumption.t;
  result_digest : option AgentContentDigest.t;
}.
End AgentEpochResult.

Section Task.
(** What an epoch executes is the application's. *)
Context {AgentEpochSpec : Type}.

(** The creation a transition owes: to whom, under which operation, and what it carries of the
    wake, the contract and the budget. *)
Record AgentEpochCreation := EpochCreation {
  creation_operation : AgentOperationId.t;
  creation_scope : AgentTaskScope.t;
  creation_goal : AgentGoalId.t;
  creation_parent : AgentTaskId.t;
  creation_escrow : AgentBudgetGrant.t;
  creation_wake : AgentWakeId.t;
  creation_occurrence : Occurrence.t;
  creation_schedule_revision : ScheduleRevision.t;
  creation_spec : AgentEpochSpec;
}.

Record AgentContinuousTask := ContinuousTask {
  task_scope : AgentTaskScope.t;
  task_status : AgentTaskStatus.t;
  task_goal : AgentGoalId.t;
  task_schedule_revision : ScheduleRevision.t;
  task_wake_policy : AgentWakePolicyRevision.t;
  task_epoch : option AgentEpochSpec;
  task_escrow : AgentEscrowLedger.t;
  task_wake_controller : option AgentWakeControllerState.t;
  task_updated_at : AgentTimestampMillis;
}.

Definition task_policy (self : AgentContinuousTask) : WakePolicy.t :=
  AgentWakePolicyRevision.policy (task_wake_policy self).

(** [get_or_insert_with(new)]. *)
Definition task_controller (self : AgentContinuousTask) : AgentWakeControllerState.t :=
  default AgentWakeControllerState.new (task_wake_controller self).

Definition set_controller (self : AgentContinuousTask) (controller : AgentWakeControllerState.t) : AgentContinuousTask :=
  let 'ContinuousTask a b c d e f g _ i := self in ContinuousTask a b c d e f g (Some controller) i.
Definition set_escrow (self : AgentContinuousTask) (escrow : AgentEscrowLedger.t) : AgentContinuousTask :=
  let 'ContinuousTask a b c d e f _ h i := self in ContinuousTask a b c d e f escrow h i.
Definition set_schedule (self : AgentContinuousTask) (schedule_revision : ScheduleRevision.t)
    (wake_policy : AgentWakePolicyRevision.t) : AgentContinuousTask :=
  let 'ContinuousTask a b c _ _ f g h i := self in ContinuousTask a b c schedule_revision wake_policy f g h i.
Definition touch (self : AgentContinuousTask) (now : AgentTimestampMillis) : AgentContinuousTask :=
  let 'ContinuousTask a b c d e f g h _ := self in ContinuousTask a b c d e f g h now.

Context (check_bounds : AgentContinuousTask → AgentTaskResult unit).

Definition continuous_task_mut (self : AgentContinuousTask) : AgentTaskResult unit :=
  if AgentTaskStatus.is_terminal (task_status self) then Err (TaskErr.Terminal (task_status self)) else Ok tt.

(** ** Owing an epoch *)

Definition epoch_limits (limits : AgentBudgetLimits.t) (epoch_deadline : option Z) : AgentBudgetLimits.t :=
  AgentBudgetLimits.mk
    (match AgentBudgetLimits.max_wall_clock_millis limits, epoch_deadline with
     | Some root, Some epoch => Some (Z.min root epoch)
     | root, epoch => match epoch with Some epoch => Some epoch | None => root end
     end)
    (AgentBudgetLimits.max_concurrent_effects limits).

Definition owe_epoch_creation (self : AgentContinuousTask) (wake : AgentWakeId.t) :
    AgentTaskResult (AgentContinuousTask * AgentEpochCreation) :=
  let? epoch_spec := ok_or TaskErr.EpochUndefined (task_epoch self) in
  let tenant := AgentTaskScope.tenant (task_scope self) in
  let? epoch_task := map_err TaskErr.Wake (epoch_task_id_for_wake wake) in
  let? run := map_err TaskErr.Identity (run_id_for_assignment epoch_task (AgentAssignmentGeneration.new 1)) in
  let? operation_id := map_err TaskErr.Wake (epoch_admission_operation_id tenant (task_goal self) wake) in
  let? epoch_scope := map_err TaskErr.Identity (AgentTaskScope.new tenant epoch_task) in
  let? child := map_err TaskErr.Identity (escrow_child_for_run run) in
  let '(escrow, opened) :=
    AgentEscrowLedger.open_child (task_escrow self) child (WakePolicy.epoch_budget (task_policy self)) in
  let? allocation := map_err TaskErr.Escrow opened in
  let limits :=
    epoch_limits (AgentEscrowLedger.limits (task_escrow self)) (WakePolicy.epoch_deadline_millis (task_policy self)) in
  let controller := task_controller self in
  let? (index, active) :=
    ok_or (TaskErr.Wake (WakeErr.NotActive wake))
      (list_find (fun a => AgentActiveWake.wake_id a = wake) (active controller)) in
  let? controller := map_err TaskErr.Wake (attach_epoch controller wake (AgentEpochRef.mk epoch_task run)) in
  let binding := AgentActiveWake.binding active in
  Ok (set_controller (set_escrow self escrow) controller,
      EpochCreation operation_id epoch_scope (task_goal self) (AgentTaskScope.task (task_scope self))
        (AgentBudgetGrant.new allocation limits) wake (Binding.occurrence binding)
        (Binding.schedule_revision binding) epoch_spec).

Fixpoint owe_all (self : AgentContinuousTask) (wakes : list AgentWakeId.t) :
    AgentTaskResult (AgentContinuousTask * list AgentEpochCreation) :=
  match wakes with
  | [] => Ok (self, [])
  | wake :: wakes =>
      let? (self, creation) := owe_epoch_creation self wake in
      let? (self, creations) := owe_all self wakes in
      Ok (self, creation :: creations)
  end.

(** The end of a command that admitted epochs. *)
Definition owing (self : AgentContinuousTask) (wakes : list AgentWakeId.t) (now : AgentTimestampMillis) :
    AgentTaskResult (AgentContinuousTask * list AgentEpochCreation) :=
  let? (self, creations) := owe_all self wakes in
  let? _ := check_bounds self in
  Ok (touch self now, creations).

(** ** Commands *)

Abbreviation command_result := (AgentTaskResult (AgentContinuousTask * Outcome.t * list AgentEpochCreation)).

Definition admit_wake (self : AgentContinuousTask) (operation_id : AgentOperationId.t) (binding : Binding.t)
    (now : AgentTimestampMillis) : command_result :=
  let? expected := map_err TaskErr.Wake (Binding.admission_operation_id binding) in
  if bool_decide (operation_id ≠ expected) then Err TaskErr.WakeOperationMismatch
  else
    let? _ := continuous_task_mut self in
    if bool_decide (task_goal self ≠ Binding.goal binding) then Err (TaskErr.WakeGoalMismatch (Binding.goal binding))
    else
      let policy := task_policy self in
      let controller := (observe_lifecycle (task_controller self) policy now).1 in
      let '(controller, promoted) := promote_admittable controller policy now in
      let? (controller, disposition) :=
        map_err TaskErr.Wake (admit_delivery controller policy (task_schedule_revision self) binding now) in
      let controller := ensure_rewakes controller policy now in
      let admitted_wakes :=
        option_list promoted ++
        (if Disposition.is_admission disposition then [Disposition.wake_id disposition] else []) in
      let? (self, owed) := owing (set_controller self controller) admitted_wakes now in
      Ok (self, Outcome.Disposition disposition, owed).

Definition complete_wake_occurrence (self : AgentContinuousTask) (wake : AgentWakeId.t) (now : AgentTimestampMillis) :
    command_result :=
  let? _ := continuous_task_mut self in
  let policy := task_policy self in
  let controller := (observe_lifecycle (task_controller self) policy now).1 in
  let? (controller, released) := map_err TaskErr.Wake (release controller policy wake now) in
  let controller := ensure_rewakes controller policy now in
  let? (self, owed) :=
    owing (set_controller self controller) (option_list (AgentWakeRelease.admitted_next released)) now in
  Ok (self, Outcome.Release released, owed).

Definition update_continuous_schedule (self : AgentContinuousTask) (schedule_revision : ScheduleRevision.t)
    (wake_policy : option AgentWakePolicyRevision.t) (now : AgentTimestampMillis) : command_result :=
  let? _ := continuous_task_mut self in
  if ScheduleRevision.get schedule_revision <=? ScheduleRevision.get (task_schedule_revision self) then
    Err (TaskErr.ScheduleNotMonotonic schedule_revision (task_schedule_revision self))
  else
    let? in_force :=
      match wake_policy with
      | None => Ok (task_wake_policy self)
      | Some policy =>
          let offered := AgentWakePolicyRevision.revision policy in
          let current := AgentWakePolicyRevision.revision (task_wake_policy self) in
          if Revision.get offered <=? Revision.get current then Err (TaskErr.WakePolicyNotNewer offered current)
          else
            let? _ := map_err TaskErr.Wake (WakePolicy.validate (AgentWakePolicyRevision.policy policy)) in
            Ok policy
      end in
    let self := set_schedule self schedule_revision in_force in
    let policy := task_policy self in
    let '(controller, fenced) := apply_schedule_update (task_controller self) schedule_revision in
    let controller := (observe_lifecycle controller policy now).1 in
    let controller := ensure_rewakes controller policy now in
    let self := set_controller self controller in
    let? _ := check_bounds self in
    Ok (touch self now,
        Outcome.ScheduleUpdated schedule_revision (AgentWakePolicyRevision.revision in_force) fenced, []).

(** A lifecycle command without promotion: observe, command, recompute the re-wakes. *)
Definition lifecycle_command (self : AgentContinuousTask) (now : AgentTimestampMillis)
    (command : AgentWakeControllerState.t → WakePolicy.t → AgentWakeResult (AgentWakeControllerState.t * Revision.t)) :
    command_result :=
  let? _ := continuous_task_mut self in
  let policy := task_policy self in
  let controller := (observe_lifecycle (task_controller self) policy now).1 in
  let? (controller, lifecycle_revision) := map_err TaskErr.Wake (command controller policy) in
  let controller := ensure_rewakes controller policy now in
  Ok (touch (set_controller self controller) now, Outcome.Lifecycle (status controller) lifecycle_revision, []).

Definition suspend_continuous_goal (self : AgentContinuousTask) (expected : Revision.t) (reason : option string)
    (provenance : AgentRevisionProvenance.t) (now : AgentTimestampMillis) : command_result :=
  lifecycle_command self now (fun controller _ => suspend controller expected reason provenance).

Definition renew_continuous_goal (self : AgentContinuousTask) (expected : Revision.t)
    (new_expires_at : AgentTimestampMillis) (provenance : AgentRevisionProvenance.t) (now : AgentTimestampMillis) :
    command_result :=
  lifecycle_command self now (fun controller policy => renew controller expected policy new_expires_at provenance now).

Definition retire_continuous_goal (self : AgentContinuousTask) (expected : Revision.t)
    (provenance : AgentRevisionProvenance.t) (now : AgentTimestampMillis) : command_result :=
  lifecycle_command self now (fun controller _ => retire controller expected provenance).

Definition resume_continuous_goal (self : AgentContinuousTask) (expected : Revision.t)
    (provenance : AgentRevisionProvenance.t) (now : AgentTimestampMillis) : command_result :=
  let? _ := continuous_task_mut self in
  let policy := task_policy self in
  let controller := (observe_lifecycle (task_controller self) policy now).1 in
  let? (controller, lifecycle_revision) := map_err TaskErr.Wake (resume controller expected provenance) in
  let '(controller, promoted) := promote_admittable controller policy now in
  let controller := ensure_rewakes controller policy now in
  let? (self, owed) := owing (set_controller self controller) (option_list promoted) now in
  Ok (self, Outcome.Lifecycle (status controller) lifecycle_revision, owed).

(** ** Results of epochs *)

Definition outcome_class (status : AgentTaskStatus.t) : AgentEpochOutcomeClass.t :=
  match status with
  | AgentTaskStatus.Completed => AgentEpochOutcomeClass.Completed
  | AgentTaskStatus.Failed => AgentEpochOutcomeClass.Failed
  | _ => AgentEpochOutcomeClass.Cancelled
  end.

(** Settle and return; a child the ledger no longer knows was settled before. *)
Definition settle_epoch_escrow (escrow : AgentEscrowLedger.t) (child : AgentEscrowChildId.t)
    (consumed : AgentBudgetConsumption.t) : AgentTaskResult AgentEscrowLedger.t :=
  match AgentEscrowLedger.settle_child escrow child consumed with
  | (escrow, Ok _) =>
      let '(escrow, returned) := AgentEscrowLedger.return_child escrow child in
      let? _ := map_err TaskErr.Escrow returned in Ok escrow
  | (escrow, Err (UnknownChild _)) => Ok escrow
  | (_, Err error) => Err (TaskErr.Escrow error)
  end.

(** The accepted part of [apply_epoch_result]; a refusal keeps the state as it was. *)
Definition apply_epoch_result (self : AgentContinuousTask) (sender : AgentEntityAddress.t)
    (result : AgentEpochResult.t) (now : AgentTimestampMillis) :
    AgentTaskResult (AgentContinuousTask * option AgentWakeRelease.t * list AgentEpochCreation) :=
  let? derived := map_err TaskErr.Wake (epoch_task_id_for_wake (AgentEpochResult.wake result)) in
  let? sender :=
    match sender with
    | AgentEntityAddress.Task scope => Ok (AgentTaskScope.task scope)
    | _ => Err TaskErr.EpochForged
    end in
  if bool_decide (derived ≠ AgentEpochResult.task result) || bool_decide (sender ≠ derived) then Err TaskErr.EpochForged
  else
    let? _ := continuous_task_mut self in
    let? run :=
      map_err TaskErr.Identity
        (run_id_for_assignment (AgentEpochResult.task result) (AgentAssignmentGeneration.new 1)) in
    let? child := map_err TaskErr.Identity (escrow_child_for_run run) in
    let? escrow := settle_epoch_escrow (task_escrow self) child (AgentEpochResult.consumed result) in
    let policy := task_policy self in
    let class := outcome_class (AgentEpochResult.status result) in
    let controller := (observe_lifecycle (task_controller self) policy now).1 in
    let controller := (record_epoch_outcome controller policy class now).1 in
    let controller :=
      (record_epoch_progress controller AgentGoalStagnationPolicy.default class
         (AgentEpochResult.result_digest result)).1 in
    let? (controller, released) :=
      match release controller policy (AgentEpochResult.wake result) now with
      | Ok (controller, released) => Ok (controller, Some released)
      | Err (WakeErr.NotActive _) => Ok (controller, None)
      | Err error => Err (TaskErr.Wake error)
      end in
    let controller := ensure_rewakes controller policy now in
    let self := set_controller (set_escrow self escrow) controller in
    let? (self, owed) :=
      owing self (match released with
                  | Some r => option_list (AgentWakeRelease.admitted_next r)
                  | None => []
                  end) now in
    Ok (self, released, owed).

(** The courier marks a re-wake it parked. *)
Definition mark_parked (self : AgentContinuousTask) (cause : Cause.t) (due_at : AgentTimestampMillis) (attempt : Z)
    (now : AgentTimestampMillis) : AgentContinuousTask :=
  match task_wake_controller self with
  | Some controller => touch (set_controller self (mark_rewake_parked controller cause due_at attempt)) now
  | None => touch self now
  end.
End Task.
