(* ===== verification/WakeTaskProps.v ===== *)
(** * Properties of the wake commands of a continuous task

    Every epoch that a task holds has its derived identity attached and its escrow open in the
    task's ledger; a command that promotes never leaves a parked occurrence without an epoch
    whose end, or a re-wake whose time, will retry it. *)

From S2P Require Import Prelude Core AgentIdentity Budget Delegation FanIn WakeCalendar Wake WakeController.
From S2P Require Import WakeRuns WakeProps WakeTask.
Import AgentWakeControllerState.

(** ** Identities of epochs *)

Record epoch_identity := EpochIdentity {
  identity_task : AgentTaskId.t;
  identity_run : AgentRunId.t;
  identity_child : AgentEscrowChildId.t;
}.

(** The identities a wake's epoch is given. *)
Definition epoch_identity_of (wake : AgentWakeId.t) : AgentTaskResult epoch_identity :=
  let? task := map_err TaskErr.Wake (epoch_task_id_for_wake wake) in
  let? run := map_err TaskErr.Identity (run_id_for_assignment task (AgentAssignmentGeneration.new 1)) in
  let? child := map_err TaskErr.Identity (escrow_child_for_run run) in
  Ok (EpochIdentity task run child).

Definition epoch_ref (e : epoch_identity) : AgentEpochRef.t := AgentEpochRef.mk (identity_task e) (identity_run e).

Lemma validated_id_inv {A} field (mk : string → A) s x : validated_id field mk s = Ok x → x = mk s.
Proof. unfold validated_id. destruct (validate_identity_segment _ _); simpl; congruence. Qed.

Lemma substring_whole s m : (String.length s <= m)%nat → String.substring 0 m s = s.
Proof.
  revert m. induction s as [|c s IH]; intros m Hm; simpl in *; [by destruct m|].
  destruct m as [|m]; [lia|]. by rewrite IH by lia.
Qed.

Lemma starts_with_split p s m : starts_with p s = true → (String.length s <= m)%nat →
  s = p +:+ String.substring (String.length p) m s.
Proof.
  revert s m. induction p as [|c p IH]; intros s m Hp Hm.
  - rewrite string_app_nil. simpl. by rewrite substring_whole.
  - destruct s as [|d s]; [done|]. unfold starts_with in *. simpl in *.
    destruct (Ascii.ascii_dec c d) as [->|]; [|done]. rewrite string_app_cons. f_equal. apply IH; [done|lia].
Qed.

Lemma string_length_app a b : String.length (a +:+ b) = (String.length a + String.length b)%nat.
Proof. induction a as [|c a IH]; [done|]. rewrite string_app_cons. simpl. by rewrite IH. Qed.

(** A wake has its own epoch: no two wakes share a child of the ledger. *)
Lemma epoch_child_inj w w' e e' : epoch_identity_of w = Ok e → epoch_identity_of w' = Ok e' →
  identity_child e = identity_child e' → w = w'.
Proof.
  assert (∀ w e, epoch_identity_of w = Ok e → ∃ digest, AgentWakeId.as_str w = AGENT_WAKE_ID_PREFIX +:+ digest ∧
    AgentEscrowChildId.as_str (identity_child e) = ("epoch-" +:+ digest) +:+ "-gen-1") as Hshape.
  { clear. intros w e H. unfold epoch_identity_of in H. apply result_bind_ok in H as (task & Ht & H).
    apply result_bind_ok in H as (run & Hr & H). apply result_bind_ok in H as (child & Hc & H). injection H as <-.
    apply map_err_ok in Ht, Hr, Hc. unfold epoch_task_id_for_wake in Ht.
    destruct (starts_with _ _) eqn:Hs; [|done]. apply map_err_ok in Ht.
    apply validated_id_inv in Ht, Hr, Hc. subst. eexists. split; [by apply starts_with_split|].
    simpl. by rewrite !string_app_assoc. }
  intros H H' Hc. apply Hshape in H as (d & Hd & Hcd). apply Hshape in H' as (d' & Hd' & Hcd').
  rewrite Hc, Hcd' in Hcd. rewrite !string_app_assoc in Hcd.
  apply string_app_length_inj in Hcd as [_ Hcd]; [|done].
  apply (f_equal String.length) in Hcd as Hl. rewrite !string_length_app in Hl.
  apply string_app_length_inj in Hcd as [-> _]; [|lia]. destruct w, w'. simpl in *. congruence.
Qed.

(** ** What a delivery, a promotion and a release do to the slots *)

Inductive slots (s : t) (b : Binding.t) (r : t * Disposition.t) : Prop :=
| SlotsKept : Disposition.is_admission r.2 = false → active r.1 = active s → pending r.1 = pending s → slots s b r
| SlotsStored : Disposition.is_admission r.2 = false → active r.1 = active s → pending r.1 = pending s ++ [b] →
    slots s b r
| SlotsReplaced x rest : Disposition.is_admission r.2 = false → active r.1 = active s →
    pending s = x :: rest → pending r.1 = b :: rest → slots s b r
| SlotsAdmitted now representative : Disposition.is_admission r.2 = true →
    Disposition.wake_id r.2 = Binding.wake_id b → pending r.1 = pending s →
    active r.1 = active s ++ [AgentActiveWake.mk b now representative None] → slots s b r.

Lemma park_slots s policy b f disposition : (∀ r, Disposition.is_admission (disposition r) = false) →
  slots s b (park s policy b f disposition).
Proof.
  intros Hd. destruct (park_effects s policy b f disposition) as (Ha & _ & _ & _ & He).
  assert (Disposition.is_admission (park s policy b f disposition).2 = false) as Hn.
  { unfold park. destruct (park_binding _ _ _) as [s1 [r|]]; simpl; auto. }
  inversion He as [Hlt Hpe Hcn|x rest Hx Hge Hpe Hcn|Hge Hpe Hcn].
  - by apply SlotsStored.
  - by eapply SlotsReplaced.
  - by apply SlotsKept.
Qed.

Lemma admit_binding_slots s b now c r : slots s b (admit_binding s b now c r).
Proof.
  destruct (note_consumed_same s b) as (Ha & Hp & _). unfold admit_binding.
  destruct (note_consumed s b). simpl in *. subst. eapply SlotsAdmitted; by destruct c.
Qed.

Lemma slots_window s w b r : slots (set_window s w) b r → slots s b r.
Proof. destruct s. intros H. destruct H; simpl in *; [by apply SlotsKept|by apply SlotsStored|by eapply SlotsReplaced|by eapply SlotsAdmitted]. Qed.

Lemma admit_or_defer_slots s policy b now c r : slots s b (admit_or_defer s policy b now c r).
Proof.
  unfold admit_or_defer. destruct (WakePolicy.goal_window policy) as [ceiling|]; [|apply admit_binding_slots].
  destruct (charge_goal_window _ _ _ _) as [s1 [[]|d]] eqn:Hc; apply charge_same in Hc as [w ->]; apply slots_window with w.
  - apply admit_binding_slots.
  - by apply park_slots.
Qed.

Lemma consume_slots s b f d : Disposition.is_admission d = false → slots s b (consume s b f, d).
Proof.
  intros Hd. destruct (note_consumed_same s b) as (Ha & Hp & _). unfold consume.
  apply SlotsKept; [done| |]; by destruct (note_consumed s b).
Qed.

Lemma seen_slots s b f d : Disposition.is_admission d = false → slots s b (count (note_seen s b) f 1, d).
Proof. intros Hd. apply SlotsKept; [done|by destruct s|by destruct s]. Qed.

Create HintDb wake_slots.
#[local] Hint Resolve park_slots admit_or_defer_slots consume_slots seen_slots : wake_slots.

Lemma gate_slots s policy b now : slots s b (gate s policy b now).
Proof.
  unfold gate, place, dispose_missed, coalesce_or_admit, coalesce.
  repeat case_match; auto with wake_slots; by apply park_slots.
Qed.

Lemma on_slot_slots s cause due attempt f :
  active (on_slot s cause due attempt f) = active s ∧ pending (on_slot s cause due attempt f) = pending s.
Proof. unfold on_slot. repeat case_match; try done. by destruct s. Qed.

(** A delivery that changes the slots is of a wake that they did not hold. *)
Lemma admit_slots s policy revision b now s' d : admit_delivery s policy revision b now = Ok (s', d) →
  slots s b (s', d) ∧
  (contains s (Binding.wake_id b) = false ∨
   Disposition.is_admission d = false ∧ active s' = active s ∧ pending s' = pending s).
Proof.
  unfold admit_delivery. intros H. apply result_bind_ok in H as ([] & _ & H).
  destruct (contains s _) eqn:Hc.
  { injection H as <- <-. split; [by apply SlotsKept|by right]. }
  destruct (_ <? ScheduleRevision.get revision).
  { injection H as <- <-. split; [by apply seen_slots|by left]. }
  split; [|by left]. injection H as H. rewrite <-H. unfold dispose_current.
  destruct (Binding.occurrence b); try apply gate_slots.
  - case_match; [by apply SlotsKept|apply gate_slots].
  - match goal with |- context [on_slot ?s1 ?c ?x ?n ?f] => destruct (on_slot_slots s1 c x n f) as [Ha Hp] end.
    apply SlotsKept; simpl; [done| |]; rewrite ?Ha, ?Hp; by destruct s.
Qed.

Lemma promote_slots s policy now s' promoted : promote_admittable s policy now = (s', promoted) →
  (promoted = None ∧ active s' = active s ∧ pending s' = pending s) ∨
  ∃ b rest at_ representative, promoted = Some (Binding.wake_id b) ∧ pending s = b :: rest ∧ pending s' = rest ∧
    active s' = active s ++ [AgentActiveWake.mk b at_ representative None].
Proof.
  unfold promote_admittable. destruct (_ || _); [intros [= <- <-]; by left|].
  destruct (negb (has_free_slot s policy)); [intros [= <- <-]; by left|].
  destruct (pending s) as [|b rest] eqn:Hp; [intros [= <- <-]; by left|].
  assert (∃ w r, match WakePolicy.goal_window policy with
    | Some ceiling => charge_goal_window s ceiling (WakePolicy.epoch_budget policy) now
    | None => (s, Ok tt)
    end = (set_window s w, r)) as (w & r & ->).
  { destruct (WakePolicy.goal_window policy); [by apply charge_window|]. exists (window s), (Ok tt). by destruct s. }
  destruct r as [[]|d]; [|intros [= <- <-]; left; by destruct s]. intros [= <- <-]. right.
  set (s1 := set_pending (set_window s w) rest).
  assert (active s1 = active s ∧ pending s1 = rest) as [Ha1 Hp1] by by destruct s.
  clearbody s1. destruct (note_consumed_same s1 b) as (Ha & Hpe & _). eexists b, rest, now, _.
  split; [done|]. split; [done|]. unfold admit_binding. destruct (note_consumed s1 b). simpl in *.
  by rewrite Ha, Ha1, Hpe, Hp1.
Qed.

(** ** Epochs are attached and paid for *)

Definition ids (s : t) : list AgentWakeId.t :=
  (AgentActiveWake.wake_id <$> active s) ++ (Binding.wake_id <$> pending s).

Lemma contains_ids s w : contains s w = false → w ∉ ids s.
Proof.
  unfold contains, ids. rewrite !orb_false_iff. intros (((Ha & Hp) & _) & _) Hin.
  apply elem_of_app in Hin as [Hin|Hin]; apply list_elem_of_fmap in Hin as (x & -> & Hx); apply list_elem_of_In in Hx.
  - rewrite <-not_true_iff_false in Ha. apply Ha, existsb_exists. exists x. by rewrite bool_decide_eq_true.
  - rewrite <-not_true_iff_false in Hp. apply Hp, existsb_exists. exists x. by rewrite bool_decide_eq_true.
Qed.

Section Attached.
Context {AgentEpochSpec : Type}.
Context (check_bounds : AgentContinuousTask (AgentEpochSpec := AgentEpochSpec) → AgentTaskResult unit).
Implicit Types self : AgentContinuousTask (AgentEpochSpec := AgentEpochSpec).
Implicit Types log : list (AgentEpochCreation (AgentEpochSpec := AgentEpochSpec)).

(** The creation of an epoch was owed, its derived identity is attached to the active wake, and
    the ledger holds its escrow. *)
Definition attached (escrow : AgentEscrowLedger.t) log (a : AgentActiveWake.t) : Prop :=
  ∃ e c, epoch_identity_of (AgentActiveWake.wake_id a) = Ok e ∧
    AgentActiveWake.epoch a = Some (epoch_ref e) ∧
    is_Some (AgentEscrowLedger.outstanding escrow !! identity_child e) ∧
    c ∈ log ∧ creation_wake c = AgentActiveWake.wake_id a ∧ AgentTaskScope.task (creation_scope c) = identity_task e.

(** All active wakes but those still to be owed. *)
Definition epochs_but (wakes : list AgentWakeId.t) (escrow : AgentEscrowLedger.t) log (s : t) : Prop :=
  NoDup (ids s) ∧ ∀ a, a ∈ active s → AgentActiveWake.wake_id a ∈ wakes ∨ attached escrow log a.

Lemma epochs_same W escrow log s s' : active s' = active s → pending s' = pending s →
  epochs_but W escrow log s → epochs_but W escrow log s'.
Proof. intros Ha Hp [Hn Hat]. unfold epochs_but, ids. by rewrite Ha, Hp. Qed.

(** One more active wake, still to be owed. *)
Lemma epochs_add W escrow log s s' b at_ r : epochs_but W escrow log s →
  active s' = active s ++ [AgentActiveWake.mk b at_ r None] →
  NoDup (ids s') → epochs_but (W ++ [Binding.wake_id b]) escrow log s'.
Proof.
  intros [Hn Hat] Ha Hd. split; [done|]. intros a. rewrite Ha. rewrite !elem_of_app, list_elem_of_singleton.
  intros [Hin| ->]; [destruct (Hat a Hin); auto|]. left. right. by apply list_elem_of_singleton.
Qed.

Lemma epochs_promote W escrow log s policy now s' promoted : promote_admittable s policy now = (s', promoted) →
  epochs_but W escrow log s → epochs_but (W ++ option_list promoted) escrow log s'.
Proof.
  intros H HE. destruct (promote_slots _ _ _ _ _ H) as [(-> & Ha & Hp)|(b & rest & at_ & r & -> & Hp & Hp' & Ha)].
  - simpl. rewrite app_nil_r. by eapply epochs_same.
  - eapply epochs_add; [done|done|]. destruct HE as [Hn _]. unfold ids in *. rewrite Ha, Hp', fmap_app, Hp in *.
    simpl in *. unfold AgentActiveWake.wake_id at 2. simpl. by rewrite <-app_assoc.
Qed.

Lemma epochs_admit W escrow log s policy revision b now s' d : admit_delivery s policy revision b now = Ok (s', d) →
  epochs_but W escrow log s →
  epochs_but (W ++ if Disposition.is_admission d then [Disposition.wake_id d] else []) escrow log s'.
Proof.
  intros H HE. destruct (admit_slots _ _ _ _ _ _ _ H) as [Hs [Hc|(Hd & Ha & Hp)]].
  2: { rewrite Hd, app_nil_r. by eapply epochs_same. }
  apply contains_ids in Hc. pose proof HE as [Hn Hat]. unfold ids in Hc, Hn.
  destruct Hs as [Hd Ha Hp|Hd Ha Hp|x rest Hd Ha Hx Hp|at_ r Hd Hw Hp Ha]; simpl in *; rewrite Hd, ?app_nil_r.
  - by eapply epochs_same.
  - split; [|by rewrite Ha]. unfold ids. rewrite Ha, Hp, fmap_app, app_assoc. simpl.
    apply NoDup_app. split; [done|]. split; [|apply NoDup_singleton].
    intros y Hy Hy'. apply list_elem_of_singleton in Hy' as ->. done.
  - split; [|by rewrite Ha]. unfold ids. rewrite Ha, Hp. rewrite Hx in Hc, Hn. simpl in *.
    rewrite <-Permutation_middle in Hn |- *. inversion Hn as [|? ? Hni Hn']; subst. constructor; [|done].
    intros Hin. apply Hc. rewrite elem_of_app, elem_of_cons in *. tauto.
  - rewrite Hw. eapply epochs_add; [done|done|]. unfold ids. rewrite Ha, Hp, fmap_app, <-app_assoc. simpl.
    rewrite <-Permutation_middle. by constructor.
Qed.

(** A release takes the wake out, whatever becomes of its escrow. *)
Lemma epochs_release W escrow escrow' log s index w x : epochs_but W escrow log s →
  list_find (fun a => AgentActiveWake.wake_id a = w) (active s) = Some (index, x) →
  (∀ a, AgentActiveWake.wake_id a ≠ w → attached escrow log a → attached escrow' log a) →
  epochs_but W escrow' log (count (set_active s (delete index (active s))) Counters.Released 1).
Proof.
  intros [Hn Hat] Hf Hesc. apply list_find_Some in Hf as (Hi & Hw & _).
  assert (active s ≡ₚ x :: delete index (active s)) as Hperm by by apply delete_Permutation.
  unfold ids in Hn. rewrite Hperm in Hn. simpl in Hn. inversion Hn as [|? ? Hni Hn']; subst.
  split; [by destruct s|]. intros a Ha.
  assert (a ∈ delete index (active s)) as Hin by by destruct s.
  destruct (Hat a) as [|Hatt]; [rewrite Hperm; by right|by left|]. right. apply Hesc; [|done].
  intros He. apply Hni. rewrite elem_of_app. left. apply list_elem_of_fmap. exists a. by rewrite He.
Qed.

Lemma open_child_keeps l child request child' : is_Some (AgentEscrowLedger.outstanding l !! child') →
  is_Some (AgentEscrowLedger.outstanding (AgentEscrowLedger.open_child l child request).1 !! child').
Proof.
  intros H. unfold AgentEscrowLedger.open_child. repeat case_match; simpl; try done.
  destruct (decide (child = child')) as [->|]; [by rewrite lookup_insert_eq|by rewrite lookup_insert_ne].
Qed.

Lemma open_child_opens l child request x : (AgentEscrowLedger.open_child l child request).2 = Ok x →
  is_Some (AgentEscrowLedger.outstanding (AgentEscrowLedger.open_child l child request).1 !! child).
Proof.
  unfold AgentEscrowLedger.open_child. repeat case_match; simpl; try done. intros _. by rewrite lookup_insert_eq.
Qed.

(** Settling an epoch touches the escrow of its own wake alone. *)
Lemma settle_keeps l child amount l' child' : settle_epoch_escrow l child amount = Ok l' → child' ≠ child →
  AgentEscrowLedger.outstanding l' !! child' = AgentEscrowLedger.outstanding l !! child'.
Proof.
  unfold settle_epoch_escrow, AgentEscrowLedger.settle_child, AgentEscrowLedger.return_child. intros H Hne.
  repeat (case_match; simplify_eq/=); try done; rewrite ?lookup_delete_ne, ?lookup_insert_ne by done; done.
Qed.

Lemma attached_more escrow log log' a : log ⊆ log' → attached escrow log a → attached escrow log' a.
Proof. intros Hl (e & c & He & Hep & Ho & Hc & H). exists e, c. by repeat (split; auto). Qed.

Lemma controller_set self s : task_controller (set_controller self s) = s.
Proof. by destruct self. Qed.
Lemma escrow_set self s : task_escrow (set_controller self s) = task_escrow self.
Proof. by destruct self. Qed.
Lemma controller_set_escrow self l : task_controller (set_escrow self l) = task_controller self.
Proof. by destruct self. Qed.
Lemma escrow_set_escrow self l : task_escrow (set_escrow self l) = l.
Proof. by destruct self. Qed.
Lemma controller_touch self now : task_controller (touch self now) = task_controller self.
Proof. by destruct self. Qed.
Lemma escrow_touch self now : task_escrow (touch self now) = task_escrow self.
Proof. by destruct self. Qed.

(** The parts of an accepted creation. *)
Lemma owe_inv self w self' c : owe_epoch_creation self w = Ok (self', c) → ∃ e index x escrow,
  epoch_identity_of w = Ok e ∧
  escrow = (AgentEscrowLedger.open_child (task_escrow self) (identity_child e)
    (WakePolicy.epoch_budget (task_policy self))).1 ∧
  is_Some (AgentEscrowLedger.outstanding escrow !! identity_child e) ∧
  list_find (fun a => AgentActiveWake.wake_id a = w) (active (task_controller self)) = Some (index, x) ∧
  self' = set_controller (set_escrow self escrow)
    (set_active (task_controller self)
       (<[index := AgentActiveWake.set_epoch x (epoch_ref e)]> (active (task_controller self)))) ∧
  creation_wake c = w ∧ AgentTaskScope.task (creation_scope c) = identity_task e.
Proof.
  unfold owe_epoch_creation. intros H. apply result_bind_ok in H as (spec & Hspec & H).
  apply result_bind_ok in H as (task & Ht & H). apply result_bind_ok in H as (run & Hr & H).
  apply result_bind_ok in H as (op & _ & H). apply result_bind_ok in H as (scope & Hscope & H).
  apply result_bind_ok in H as (child & Hc & H).
  destruct (AgentEscrowLedger.open_child _ _ _) as [escrow opened] eqn:Hopen.
  apply result_bind_ok in H as (allocation & Ha & H). apply map_err_ok in Ha.
  apply result_bind_ok in H as ([index x] & Hf & H). apply ok_or_ok in Hf.
  apply result_bind_ok in H as (s' & Hs & H). apply map_err_ok in Hs. injection H as <- <-.
  exists (EpochIdentity task run child), index, x, escrow. simpl. split.
  { unfold epoch_identity_of. rewrite Ht. simpl. rewrite Hr. simpl. by rewrite Hc. }
  split; [by rewrite Hopen|]. split.
  { pose proof (open_child_opens (task_escrow self) child (WakePolicy.epoch_budget (task_policy self)) allocation) as Ho.
    rewrite Hopen in Ho. auto. }
  split; [done|]. split.
  { unfold attach_epoch in Hs. rewrite Hf in Hs. by injection Hs as <-. }
  split; [done|]. apply map_err_ok in Hscope. unfold AgentTaskScope.new in Hscope.
  apply result_bind_ok in Hscope as (_ & _ & Hscope). by injection Hscope as <-.
Qed.

Lemma ids_set_active s l : ids (set_active s l) = (AgentActiveWake.wake_id <$> l) ++ (Binding.wake_id <$> pending s).
Proof. by destruct s. Qed.

Lemma insert_wakes (l : list AgentActiveWake.t) index x e : l !! index = Some x →
  AgentActiveWake.wake_id <$> <[index := AgentActiveWake.set_epoch x e]> l = AgentActiveWake.wake_id <$> l.
Proof. intros H. rewrite list_fmap_insert. apply list_insert_id. by rewrite list_lookup_fmap, H. Qed.

Lemma owe_epochs w W self log self' c : owe_epoch_creation self w = Ok (self', c) →
  epochs_but (w :: W) (task_escrow self) log (task_controller self) →
  epochs_but W (task_escrow self') (log ++ [c]) (task_controller self').
Proof.
  intros H [Hn Hat]. apply owe_inv in H as (e & index & x & escrow & He & Hesc & Ho & Hf & -> & Hcw & Hct).
  rewrite controller_set, escrow_set, escrow_set_escrow. set (s := task_controller self) in *. clearbody s.
  apply list_find_Some in Hf as (Hi & Hw & _).
  split.
  { rewrite ids_set_active, insert_wakes by done. exact Hn. }
  intros a Ha. assert (a ∈ <[index := AgentActiveWake.set_epoch x (epoch_ref e)]> (active s)) as Hin by by destruct s.
  apply list_elem_of_lookup in Hin as [i Hin]. apply list_lookup_insert_Some in Hin as [(<- & <- & _)|[Hne Hin]].
  - right. exists e, c. unfold AgentActiveWake.wake_id, AgentActiveWake.set_epoch in *. simpl. rewrite Hw.
    repeat (split; [done|]). split; [apply elem_of_app; right; by left|done].
  - destruct (Hat a) as [HW|(e' & c' & He' & Hep & Hout & Hc' & Hrest)]; [by eapply list_elem_of_lookup_2| |].
    + apply elem_of_cons in HW as [HW|HW]; [|by left]. exfalso. apply Hne.
      apply NoDup_app in Hn as (Hn & _). eapply (NoDup_lookup (AgentActiveWake.wake_id <$> active s) _ _ w); [done| |];
        rewrite list_lookup_fmap, ?Hi, ?Hin; simpl; congruence.
    + right. exists e', c'. repeat (split; [done|]). split; [subst escrow; by apply open_child_keeps|].
      split; [apply elem_of_app; by left|done].
Qed.

Lemma owe_all_epochs W self log self' l : owe_all self W = Ok (self', l) →
  epochs_but W (task_escrow self) log (task_controller self) →
  epochs_but [] (task_escrow self') (log ++ l) (task_controller self').
Proof.
  revert self log l. induction W as [|w W IH]; intros self log l H HE; simpl in H.
  - injection H as <- <-. by rewrite app_nil_r.
  - apply result_bind_ok in H as ([self1 c] & H1 & H). apply result_bind_ok in H as ([self2 l'] & H2 & H).
    injection H as <- <-. rewrite (app_assoc log [c] l' : log ++ c :: l' = _). eapply IH; [done|].
    by eapply owe_epochs.
Qed.

Lemma owing_epochs W self log now self' l : owing check_bounds self W now = Ok (self', l) →
  epochs_but W (task_escrow self) log (task_controller self) →
  epochs_but [] (task_escrow self') (log ++ l) (task_controller self').
Proof.
  unfold owing. intros H HE. apply result_bind_ok in H as ([self1 l1] & H1 & H).
  apply result_bind_ok in H as (_ & _ & H). injection H as <- <-.
  rewrite controller_touch, escrow_touch. by eapply owe_all_epochs.
Qed.

(** *** Commands *)

Inductive task_command :=
| AdmitWake (operation_id : AgentOperationId.t) (binding : Binding.t) (now : AgentTimestampMillis)
| CompleteWake (wake : AgentWakeId.t) (now : AgentTimestampMillis)
| ChangeSchedule (schedule_revision : ScheduleRevision.t) (policy : option AgentWakePolicyRevision.t)
    (now : AgentTimestampMillis)
| SuspendGoal (expected : Revision.t) (reason : option string) (provenance : AgentRevisionProvenance.t)
    (now : AgentTimestampMillis)
| ResumeGoal (expected : Revision.t) (provenance : AgentRevisionProvenance.t) (now : AgentTimestampMillis)
| RenewGoal (expected : Revision.t) (new_expires_at : AgentTimestampMillis)
    (provenance : AgentRevisionProvenance.t) (now : AgentTimestampMillis)
| RetireGoal (expected : Revision.t) (provenance : AgentRevisionProvenance.t) (now : AgentTimestampMillis)
| EpochEnded (sender : AgentEntityAddress.t) (result : AgentEpochResult.t) (now : AgentTimestampMillis)
| RewakeParked (cause : Cause.t) (due_at : AgentTimestampMillis) (attempt : Z) (now : AgentTimestampMillis).

(** The task after a command, and the creations owed; a refused command changes nothing. *)
Definition perform {A} self (r : AgentTaskResult (AgentContinuousTask (AgentEpochSpec := AgentEpochSpec) * A *
    list (AgentEpochCreation (AgentEpochSpec := AgentEpochSpec)))) :=
  match r with Ok (self', _, owed) => (self', owed) | Err _ => (self, []) end.

Definition task_step self (c : task_command) :
    AgentContinuousTask (AgentEpochSpec := AgentEpochSpec) * list (AgentEpochCreation (AgentEpochSpec := AgentEpochSpec)) :=
  match c with
  | AdmitWake operation_id binding now => perform self (admit_wake check_bounds self operation_id binding now)
  | CompleteWake wake now => perform self (complete_wake_occurrence check_bounds self wake now)
  | ChangeSchedule revision policy now => perform self (update_continuous_schedule check_bounds self revision policy now)
  | SuspendGoal expected reason provenance now => perform self (suspend_continuous_goal self expected reason provenance now)
  | ResumeGoal expected provenance now => perform self (resume_continuous_goal check_bounds self expected provenance now)
  | RenewGoal expected at_ provenance now => perform self (renew_continuous_goal self expected at_ provenance now)
  | RetireGoal expected provenance now => perform self (retire_continuous_goal self expected provenance now)
  | EpochEnded sender result now => perform self (apply_epoch_result check_bounds self sender result now)
  | RewakeParked cause due_at attempt now => (mark_parked self cause due_at attempt now, [])
  end.

Fixpoint task_run self log (cs : list task_command) :=
  match cs with
  | [] => (self, log)
  | c :: cs => let '(self, owed) := task_step self c in task_run self (log ++ owed) cs
  end.

(** Slots kept as they are. *)
Definition kept (s s' : t) : Prop := active s' = active s ∧ pending s' = pending s.

Lemma kept_lifecycle s l : kept s (set_lifecycle s l).
Proof. by destruct s. Qed.

Lemma kept_trans s1 s2 s3 : kept s1 s2 → kept s2 s3 → kept s1 s3.
Proof. intros [] []. split; congruence. Qed.

Lemma kept_observe s policy now : kept s (observe_lifecycle s policy now).1.
Proof. unfold observe_lifecycle, enter. repeat case_match; simpl; first [done|apply kept_lifecycle]. Qed.

Lemma kept_ensure s policy now : kept s (ensure_rewakes s policy now).
Proof. unfold ensure_rewakes. repeat case_match; apply kept_lifecycle. Qed.

Lemma kept_outcome s policy outcome now : kept s (record_epoch_outcome s policy outcome now).1.
Proof. unfold record_epoch_outcome. repeat case_match; simpl; first [done|apply kept_lifecycle]. Qed.

Lemma kept_progress s policy outcome digest : kept s (record_epoch_progress s policy outcome digest).1.
Proof. unfold record_epoch_progress. repeat case_match; simpl; first [done|apply kept_lifecycle]. Qed.

Lemma epochs_kept W escrow log s s' : kept s s' → epochs_but W escrow log s → epochs_but W escrow log s'.
Proof. intros []. by apply epochs_same. Qed.

Definition epochs_ok self log : Prop := epochs_but [] (task_escrow self) log (task_controller self).

Lemma perform_ok {A} self (r : AgentTaskResult (_ * A * _)) log :
  (∀ self' x owed, r = Ok (self', x, owed) → epochs_ok self' (log ++ owed)) → epochs_ok self log →
  let '(self', owed) := perform self r in epochs_ok self' (log ++ owed).
Proof. intros H H0. destruct r as [[[self' x] owed]|]; simpl; [by eapply H|by rewrite app_nil_r]. Qed.

Lemma admit_ok self op b now log self' x owed : admit_wake check_bounds self op b now = Ok (self', x, owed) →
  epochs_ok self log → epochs_ok self' (log ++ owed).
Proof.
  unfold admit_wake. intros H HE. apply result_bind_ok in H as (expected & _ & H). case_bool_decide; [done|].
  apply result_bind_ok in H as (_ & _ & H). case_bool_decide; [done|].
  destruct (promote_admittable _ _ _) as [s1 promoted] eqn:Hp.
  apply result_bind_ok in H as ([s2 d] & Ha & H). apply map_err_ok in Ha.
  apply result_bind_ok in H as ([self1 l] & Ho & H). injection H as <- _ <-.
  eapply owing_epochs; [done|]. rewrite controller_set, escrow_set.
  eapply epochs_kept; [apply kept_ensure|]. eapply epochs_admit; [done|].
  apply (epochs_promote [] _ _ _ _ _ _ _ Hp). by eapply epochs_kept; [apply kept_observe|].
Qed.

(** A release with the promotion it makes. *)
Lemma release_ok s policy w now s' r escrow escrow' log : release s policy w now = Ok (s', r) →
  (∀ a, AgentActiveWake.wake_id a ≠ w → attached escrow log a → attached escrow' log a) →
  epochs_but [] escrow log s → epochs_but (option_list (AgentWakeRelease.admitted_next r)) escrow' log s'.
Proof.
  unfold release. intros H Hesc HE. destruct (list_find _ _) as [[i x]|] eqn:Hf; [|done].
  destruct (promote_admittable _ _ _) as [s1 promoted] eqn:Hp. injection H as <- <-. simpl.
  apply (epochs_promote [] _ _ _ _ _ _ _ Hp). by eapply epochs_release.
Qed.

Lemma complete_ok self w now log self' x owed : complete_wake_occurrence check_bounds self w now = Ok (self', x, owed) →
  epochs_ok self log → epochs_ok self' (log ++ owed).
Proof.
  unfold complete_wake_occurrence. intros H HE. apply result_bind_ok in H as (_ & _ & H).
  apply result_bind_ok in H as ([s1 r] & Hr & H). apply map_err_ok in Hr.
  apply result_bind_ok in H as ([self1 l] & Ho & H). injection H as <- _ <-.
  eapply owing_epochs; [done|]. rewrite controller_set, escrow_set.
  eapply epochs_kept; [apply kept_ensure|]. apply (release_ok _ _ _ _ _ _ (task_escrow self) _ _ Hr); [done|].
  by eapply epochs_kept; [apply kept_observe|].
Qed.

Lemma update_ok self r p now log self' x owed : update_continuous_schedule check_bounds self r p now = Ok (self', x, owed) →
  epochs_ok self log → epochs_ok self' (log ++ owed).
Proof.
  unfold update_continuous_schedule. intros H HE. apply result_bind_ok in H as (_ & _ & H).
  destruct (_ <=? _); [done|]. apply result_bind_ok in H as (in_force & _ & H).
  destruct (apply_schedule_update _ _) as [s1 fenced] eqn:Hu.
  apply result_bind_ok in H as (_ & _ & H). injection H as <- _ <-. rewrite app_nil_r. unfold epochs_ok.
  rewrite controller_touch, escrow_touch, controller_set, escrow_set.
  eapply epochs_kept; [eapply kept_trans; [apply kept_observe|apply kept_ensure]|].
  unfold apply_schedule_update in Hu. injection Hu as <- _.
  assert (task_controller (set_schedule self r in_force) = task_controller self ∧
          task_escrow (set_schedule self r in_force) = task_escrow self) as [-> ->] by by destruct self.
  destruct HE as [Hn Hat]. split; [|by destruct (task_controller self)].
  unfold ids in *. destruct (task_controller self) as [act pe ? ? ? ? ? ? ?]. simpl in *.
  apply NoDup_app in Hn as (Hn1 & Hd & Hn2). apply NoDup_app. split; [done|]. split.
  - intros y Hy Hy'. apply (Hd y Hy). apply list_elem_of_fmap in Hy' as (b & -> & Hb).
    apply list_elem_of_filter in Hb as [_ Hb]. by apply list_elem_of_fmap_2.
  - eapply sublist_NoDup; [done|]. apply fmap_sublist, sublist_filter.
Qed.

Lemma lifecycle_ok self now command log self' x owed : lifecycle_command self now command = Ok (self', x, owed) →
  (∀ s p s' n, command s p = Ok (s', n) → kept s s') → epochs_ok self log → epochs_ok self' (log ++ owed).
Proof.
  unfold lifecycle_command. intros H Hk HE. apply result_bind_ok in H as (_ & _ & H).
  apply result_bind_ok in H as ([s1 n] & Hc & H). apply map_err_ok in Hc. injection H as <- _ <-.
  rewrite app_nil_r. unfold epochs_ok. rewrite controller_touch, escrow_touch, controller_set, escrow_set.
  eapply epochs_kept; [|done]. eapply kept_trans; [apply kept_observe|]. eapply kept_trans; [by eapply Hk|].
  apply kept_ensure.
Qed.

Lemma resume_kept s expected provenance s' n : resume s expected provenance = Ok (s', n) → kept s s'.
Proof.
  unfold resume. intros H. apply result_bind_ok in H as (_ & _ & H). case_bool_decide; [done|].
  injection H as <- _. apply kept_lifecycle.
Qed.

Lemma resume_ok self expected provenance now log self' x owed :
  resume_continuous_goal check_bounds self expected provenance now = Ok (self', x, owed) →
  epochs_ok self log → epochs_ok self' (log ++ owed).
Proof.
  unfold resume_continuous_goal. intros H HE. apply result_bind_ok in H as (_ & _ & H).
  apply result_bind_ok in H as ([s1 n] & Hr & H). apply map_err_ok in Hr.
  destruct (promote_admittable _ _ _) as [s2 promoted] eqn:Hp.
  apply result_bind_ok in H as ([self1 l] & Ho & H). injection H as <- _ <-.
  eapply owing_epochs; [done|]. rewrite controller_set, escrow_set.
  eapply epochs_kept; [apply kept_ensure|]. apply (epochs_promote [] _ _ _ _ _ _ _ Hp).
  eapply epochs_kept; [by eapply resume_kept|]. by eapply epochs_kept; [apply kept_observe|].
Qed.

(** The escrow of the other wakes. *)
Lemma settle_attached l child amount l' log w e a : settle_epoch_escrow l child amount = Ok l' →
  epoch_identity_of w = Ok e → identity_child e = child → AgentActiveWake.wake_id a ≠ w →
  attached l log a → attached l' log a.
Proof.
  intros Hs He Hc Hne (e' & c & He' & Hep & Ho & Hrest). exists e', c. split; [done|]. split; [done|].
  split; [|done]. rewrite (settle_keeps _ _ _ _ _ Hs); [done|].
  intros Heq. apply Hne. eapply epoch_child_inj; [done|done|congruence].
Qed.

Lemma not_active s policy w now : (∀ s' r, release s policy w now ≠ Ok (s', r)) →
  ∀ a, a ∈ active s → AgentActiveWake.wake_id a ≠ w.
Proof.
  unfold release. intros H a Ha. destruct (list_find _ _) as [[i x]|] eqn:Hf.
  - destruct (promote_admittable _ _ _) as [s1 p]. by edestruct H.
  - apply list_find_None in Hf. rewrite Forall_forall in Hf. by apply Hf.
Qed.

Lemma result_ok self sender result now log self' x owed :
  apply_epoch_result check_bounds self sender result now = Ok (self', x, owed) →
  epochs_ok self log → epochs_ok self' (log ++ owed).
Proof.
  unfold apply_epoch_result. intros H HE. apply result_bind_ok in H as (derived & Hd & H).
  apply result_bind_ok in H as (sent & _ & H). destruct (_ || _) eqn:Hforged; [done|].
  apply orb_false_iff in Hforged as [Htask _]. apply bool_decide_eq_false in Htask.
  assert (derived = AgentEpochResult.task result) as -> by by apply dec_stable.
  apply result_bind_ok in H as (_ & _ & H). apply result_bind_ok in H as (run & Hr & H).
  apply result_bind_ok in H as (child & Hc & H). apply result_bind_ok in H as (escrow & Hs & H).
  set (w := AgentEpochResult.wake result) in *.
  assert (epoch_identity_of w = Ok (EpochIdentity (AgentEpochResult.task result) run child)) as He.
  { unfold epoch_identity_of. rewrite Hd. simpl. rewrite Hr. simpl. by rewrite Hc. }
  set (s1 := (record_epoch_progress _ _ _ _).1) in H.
  assert (epochs_but [] (task_escrow self) log s1) as H1.
  { eapply epochs_kept; [apply kept_progress|]. eapply epochs_kept; [apply kept_outcome|].
    by eapply epochs_kept; [apply kept_observe|]. }
  apply result_bind_ok in H as ([s2 released] & Hrel & H). apply result_bind_ok in H as ([self1 l] & Ho & H).
  injection H as <- _ <-. eapply owing_epochs; [done|]. rewrite controller_set, escrow_set, escrow_set_escrow.
  eapply epochs_kept; [apply kept_ensure|]. clearbody s1.
  destruct (release s1 (task_policy self) w now) as [[s3 r]|err] eqn:Hrls.
  - injection Hrel as <- <-. eapply release_ok; [done| |done]. intros a Hne. by eapply settle_attached.
  - assert (s2 = s1 ∧ released = None) as [-> ->] by (destruct err; try done; by injection Hrel as <- <-).
    destruct H1 as [Hn Hat]. split; [done|]. intros a Ha. destruct (Hat a Ha) as [?|Hatt]; [by left|]. right.
    eapply settle_attached; [done|done|done| |done]. eapply not_active; [|done]. intros s' r. by rewrite Hrls.
Qed.

Lemma task_step_ok self c log : epochs_ok self log →
  let '(self', owed) := task_step self c in epochs_ok self' (log ++ owed).
Proof.
  intros HE. destruct c as [op b now|w now|r p now|e reason p now|e p now|e at_ p now|e p now|sender result now
    |cause due attempt now]; simpl.
  - apply perform_ok; [|done]. intros. by eapply admit_ok.
  - apply perform_ok; [|done]. intros. by eapply complete_ok.
  - apply perform_ok; [|done]. intros. by eapply update_ok.
  - apply perform_ok; [|done]. intros ??? Hx. eapply lifecycle_ok; [exact Hx| |done]. intros s pol s' n H.
    unfold suspend in H. apply result_bind_ok in H as (_ & _ & H). injection H as <- _. apply kept_lifecycle.
  - apply perform_ok; [|done]. intros. by eapply resume_ok.
  - apply perform_ok; [|done]. intros ??? Hx. eapply lifecycle_ok; [exact Hx| |done]. intros s pol s' n H.
    unfold renew in H. apply result_bind_ok in H as (_ & _ & H). destruct (Lifecycle.effective_expires_at _ _); [|done].
    destruct (_ <=? _); [done|].
    destruct (match AgentWakeLifecyclePolicy.renewal _ with NotRequired => _ | RequiredBefore _ => _ end); [done|].
    injection H as <- _. apply kept_lifecycle.
  - apply perform_ok; [|done]. intros ??? Hx. eapply lifecycle_ok; [exact Hx| |done]. intros s pol s' n H.
    unfold retire in H. apply result_bind_ok in H as (_ & _ & H). injection H as <- _. apply kept_lifecycle.
  - apply perform_ok; [|done]. intros. by eapply result_ok.
  - rewrite app_nil_r. unfold epochs_ok, mark_parked in *. destruct (task_wake_controller self) as [s|] eqn:Hs.
    + rewrite controller_touch, escrow_touch, controller_set, escrow_set.
      assert (task_controller self = s) as Hc by (unfold task_controller; by rewrite Hs). rewrite Hc in HE.
      eapply epochs_kept; [apply on_slot_slots|done].
    + by rewrite controller_touch, escrow_touch.
Qed.

(** C16. The task never forgets an epoch it owes.  From a task whose controller holds nothing,
    after any sequence of wake commands and epoch results with any clock readings, accepted or
    refused, every active wake carries the task and run derived from it, its escrow is open in
    the task's ledger, and the creation of that very task was owed by some accepted command;
    and no wake is held twice. *)
Theorem every_epoch_owed self (cs : list task_command)
    (Hstart : active (task_controller self) = [] ∧ pending (task_controller self) = []) :
  let '(self', log) := task_run self [] cs in
  NoDup (ids (task_controller self')) ∧
  ∀ a, a ∈ active (task_controller self') → ∃ e c,
    epoch_identity_of (AgentActiveWake.wake_id a) = Ok e ∧
    AgentActiveWake.epoch a = Some (epoch_ref e) ∧
    is_Some (AgentEscrowLedger.outstanding (task_escrow self') !! identity_child e) ∧
    c ∈ log ∧ creation_wake c = AgentActiveWake.wake_id a ∧ AgentTaskScope.task (creation_scope c) = identity_task e.
Proof.
  assert (epochs_ok self []) as H0.
  { destruct Hstart as [Ha Hp]. unfold epochs_ok, epochs_but, ids. rewrite Ha, Hp. split; [constructor|].
    intros a Hin. by apply not_elem_of_nil in Hin. }
  assert (∀ log, epochs_ok self log → let '(self', log') := task_run self log cs in epochs_ok self' log') as H.
  { clear Hstart H0. revert self. induction cs as [|c cs IH]; intros self log HE; [done|]. simpl.
    pose proof (task_step_ok self c log HE) as Hs. destruct (task_step self c) as [self1 owed]. by apply IH. }
  specialize (H [] H0). destruct (task_run self [] cs) as [self' log]. destruct H as [Hn Hat]. split; [done|].
  intros a Ha. destruct (Hat a Ha) as [Hin|H]; [by apply not_elem_of_nil in Hin|done].
Qed.

End Attached.
