(* ===== verification/WakeLiveness.v ===== *)
(** * Parked occurrences of a continuous goal are retried

    An occurrence that could not start an epoch is parked.  It is retried when an active epoch
    ends, and otherwise by a re-wake that the controller owes itself: at the end of a backoff
    or at the turn of a window.  Shown here: every command that promotes leaves one of these
    behind whenever something stays parked, and two commands that do not promote can leave a
    parked occurrence with neither. *)

From S2P Require Import Prelude Core AgentIdentity AgentSchema Budget Delegation FanIn WakeCalendar Wake WakeController.
From S2P Require Import WakeRuns WakeProps WakeTask WakeTaskProps.
Import AgentWakeControllerState.

(** ** Windows that were just refilled *)

Lemma window_start_idempotent w previous now : window_positive w →
  advance_window_start w (advance_window_start w previous now) now = advance_window_start w previous now.
Proof.
  destruct w as [len|unit]; simpl; intros Hlen.
  - pose proof (Z.div_mod (saturating_sub now previous) len ltac:(lia)) as Hdiv.
    pose proof (Z.mod_pos_bound (saturating_sub now previous) len Hlen) as Hmod.
    set (k := saturating_sub now previous / len) in *.
    assert (saturating_sub now (previous + k * len) / len = 0) as ->; [|lia].
    apply Z.div_small. unfold saturating_sub in *. nia.
  - destruct (Z.ltb_spec previous (calendar_window_start unit now)); [by rewrite Z.ltb_irrefl|].
    destruct (Z.ltb_spec previous (calendar_window_start unit now)); lia.
Qed.

Lemma window_start_initial w now : window_positive w →
  advance_window_start w (initial_window_start w now) now = initial_window_start w now.
Proof.
  destruct w as [len|unit]; simpl; intros Hlen; [|by rewrite Z.ltb_irrefl].
  unfold saturating_sub. rewrite Z.sub_diag. simpl. rewrite Z.div_small by lia. lia.
Qed.

Lemma ledger_at_start s ceiling now :
  AgentWakeWindowLedger.window_start (ledger_at s ceiling now) = window_of s ceiling now.
Proof. unfold ledger_at. destruct (window s); [|done]. by case_match eqn:He; [apply Z.eqb_eq in He|]. Qed.

Lemma ledger_at_idempotent s ceiling now : window_positive (AgentGoalWindowCeiling.window ceiling) →
  ledger_at (set_window s (Some (ledger_at s ceiling now))) ceiling now = ledger_at s ceiling now.
Proof.
  intros Hw. set (l := ledger_at s ceiling now). unfold ledger_at.
  assert (window (set_window s (Some l)) = Some l) as -> by by destruct s.
  assert (window_of (set_window s (Some l)) ceiling now = AgentWakeWindowLedger.window_start l) as ->;
    [|by rewrite Z.eqb_refl].
  unfold window_of. assert (window (set_window s (Some l)) = Some l) as -> by by destruct s.
  subst l. rewrite ledger_at_start. unfold window_of.
  destruct (window s); [by apply window_start_idempotent|by apply window_start_initial].
Qed.

(** A window that refused cannot pay. *)
Lemma refused_cannot_pay s ceiling budget now s' d : window_positive (AgentGoalWindowCeiling.window ceiling) →
  charge_goal_window s ceiling budget now = (s', Err d) → window_can_pay s' ceiling budget now = false.
Proof.
  intros Hw. unfold charge_goal_window. destruct (find_first _ _) as [x|] eqn:Hf; [|done]. intros [= <- <-].
  unfold window_can_pay. rewrite ledger_at_idempotent by done. apply negb_false_iff, existsb_exists.
  apply find_first_Some in Hf as [Hin Hx]. exists x. split; [by apply list_elem_of_In|done].
Qed.

(** ** Attended states *)

Section Attended.
Context (policy : WakePolicy.t) (now : AgentTimestampMillis).
Context (Hcapacity : (1 <= active_capacity policy)%nat).
Context (Hwindow : ∀ ceiling, WakePolicy.goal_window policy = Some ceiling →
  window_positive (AgentGoalWindowCeiling.window ceiling)).

(** Why nothing more may start now. *)
Definition cannot_start (s : t) : Prop :=
  active s ≠ [] ∨ backoff_in_force s now = true ∨
  ∃ ceiling, WakePolicy.goal_window policy = Some ceiling ∧
    window_can_pay s ceiling (WakePolicy.epoch_budget policy) now = false.

Definition attended (s : t) : Prop := status s = Status.Active → pending s ≠ [] → cannot_start s.

Lemma cannot_start_ext s s' : active s' = active s → window s' = window s →
  Lifecycle.backoff_until (lifecycle s') = Lifecycle.backoff_until (lifecycle s) → cannot_start s → cannot_start s'.
Proof.
  intros Ha Hw Hb. unfold cannot_start, backoff_in_force, window_can_pay, ledger_at, window_of. by rewrite Ha, Hw, Hb.
Qed.

Lemma no_slot_active s : has_free_slot s policy = false → active s ≠ [].
Proof. unfold has_free_slot. intros H Hn. rewrite Hn in H. apply Nat.ltb_ge in H. simpl in H. lia. Qed.

Lemma attended_active s : active s ≠ [] → attended s.
Proof. intros H _ _. by left. Qed.

Lemma admit_binding_attended s b c r : attended (admit_binding s b now c r).1.
Proof.
  apply attended_active. destruct (admit_effects s b now c r) as (Ha & _). intros Hn. rewrite Hn in Ha.
  symmetry in Ha. by apply app_eq_nil in Ha as [_ Ha].
Qed.

Lemma park_attended s b f disposition : (status s = Status.Active → cannot_start s) →
  attended (park s policy b f disposition).1.
Proof.
  intros H Hs _. destruct (park_effects s policy b f disposition) as (Ha & Hw & _).
  pose proof (park_lifecycle s policy b f disposition) as Hl.
  eapply cannot_start_ext; [done|done|by rewrite Hl|]. apply H. unfold status in *. by rewrite <-Hl.
Qed.

Lemma admit_or_defer_attended s b c r : attended (admit_or_defer s policy b now c r).1.
Proof.
  unfold admit_or_defer. destruct (WakePolicy.goal_window policy) as [ceiling|] eqn:Hg;
    [|apply admit_binding_attended].
  destruct (charge_goal_window _ _ _ _) as [s1 [[]|d]] eqn:Hc; [apply admit_binding_attended|].
  apply park_attended. intros _. right. right. exists ceiling. split; [done|].
  eapply refused_cannot_pay; [|done]. by apply Hwindow.
Qed.

(** The slots, window and backoff as they were. *)
Lemma attended_same s s' : active s' = active s → pending s' = pending s → window s' = window s →
  status s' = status s → Lifecycle.backoff_until (lifecycle s') = Lifecycle.backoff_until (lifecycle s) →
  attended s → attended s'.
Proof.
  intros Ha Hp Hw Hs Hb H Hst Hpe. eapply cannot_start_ext; [done|done|done|]. apply H; congruence.
Qed.

Lemma consume_attended s b f : attended s → attended (consume s b f).
Proof.
  destruct (note_consumed_same s b) as (Ha & Hp & Hw & _). pose proof (note_consumed_lifecycle s b) as Hl.
  unfold consume. destruct (note_consumed s b). simpl in *. subst. by apply attended_same.
Qed.

Lemma seen_attended s b f : attended s → attended (count (note_seen s b) f 1).
Proof. destruct s. by apply attended_same. Qed.

Lemma coalesce_attended s b : has_free_slot s policy = false → attended (coalesce s policy b).1.
Proof. intros H. apply park_attended. intros _. left. by apply no_slot_active. Qed.

Lemma gate_attended s b : attended s → attended (gate s policy b now).1.
Proof.
  intros H. unfold gate. destruct (status s) eqn:Hs; simpl; try (by apply seen_attended).
  - assert (attended (place s policy b now).1) as Hplace.
    { unfold place, dispose_missed, coalesce_or_admit.
      destruct (has_free_slot s policy) eqn:Hf; repeat case_match; simpl;
        auto using admit_or_defer_attended, consume_attended, coalesce_attended. }
    destruct (Lifecycle.backoff_until (lifecycle s)) as [until|] eqn:Hb; [|done].
    destruct (now <? until) eqn:Hlt; [|done]. apply park_attended. intros _. right. left.
    unfold backoff_in_force. by rewrite Hb.
  - case_match; [|by apply consume_attended]. apply park_attended. by rewrite Hs.
Qed.

Lemma on_slot_same s cause due attempt f :
  window (on_slot s cause due attempt f) = window s ∧
  Lifecycle.backoff_until (lifecycle (on_slot s cause due attempt f)) = Lifecycle.backoff_until (lifecycle s).
Proof. unfold on_slot. repeat case_match; try done. by destruct s. Qed.

Lemma admit_attended s revision b s' d : admit_delivery s policy revision b now = Ok (s', d) → attended s → attended s'.
Proof.
  unfold admit_delivery. intros H Hs. apply result_bind_ok in H as ([] & _ & H). destruct (contains s _).
  { by injection H as <- _. }
  destruct (_ <? ScheduleRevision.get revision).
  { injection H as <- _. by apply seen_attended. }
  injection H as H. change s' with (s', d).1. rewrite <-H. unfold dispose_current.
  destruct (Binding.occurrence b) as [due|e|o|k|due c n]; try (by apply gate_attended).
  - case_match; [done|by apply gate_attended].
  - simpl. set (s1 := count (note_seen s b) Counters.Retried 1).
    destruct (on_slot_slots s1 c due n rearm) as [Ha Hp]. destruct (on_slot_same s1 c due n rearm) as [Hw Hb].
    apply (attended_same s1); [done|done|done|apply on_slot_status|done|]. by apply seen_attended.
Qed.

Lemma promote_attended s : attended (promote_admittable s policy now).1.
Proof.
  unfold promote_admittable. destruct (Status.permits_admission (status s)) eqn:Hs; simpl.
  2: { intros Ha. by rewrite Ha in Hs. }
  destruct (backoff_in_force s now) eqn:Hb; simpl; [by right; left|].
  destruct (has_free_slot s policy) eqn:Hf; simpl; [|by apply attended_active, no_slot_active].
  destruct (pending s) as [|b rest] eqn:Hp; [intros _ Hn; by simpl in Hn|].
  destruct (WakePolicy.goal_window policy) as [ceiling|] eqn:Hg; [|apply (admit_binding_attended _ _ true)].
  destruct (charge_goal_window _ _ _ _) as [s1 [[]|d]] eqn:Hc; 
    [apply (admit_binding_attended _ _ true)|].
  intros _ _. right. right. exists ceiling. split; [done|]. eapply refused_cannot_pay; [|done]. by apply Hwindow.
Qed.

Lemma promoted_attended s s' promoted : promote_admittable s policy now = (s', promoted) → attended s'.
Proof. intros H. pose proof (promote_attended s) as Ha. by rewrite H in Ha. Qed.

(** Something that will retry: an active epoch, whose end releases, or a re-wake owed. *)
Definition retried (s : t) : Prop :=
  active s ≠ [] ∨ ∃ cause, is_Some (AgentWakeRewakes.slot (Lifecycle.rewakes (lifecycle s)) cause).

Lemma merge_Some slot due : is_Some (merge_rewake_slot slot (Some due)).
Proof. unfold merge_rewake_slot. destruct slot; [case_match|]; done. Qed.

Lemma ensure_retried s : attended s → status (ensure_rewakes s policy now) = Status.Active →
  pending (ensure_rewakes s policy now) ≠ [] → retried (ensure_rewakes s policy now).
Proof.
  clear Hcapacity Hwindow. intros Hatt Hs Hp. destruct (kept_ensure s policy now) as [Ha Hpe]. rewrite Hpe in Hp.
  assert (status s = Status.Active) as Hst.
  { revert Hs. unfold ensure_rewakes. repeat case_match; by rewrite set_lifecycle_status. }
  destruct (Hatt Hst Hp) as [Hact|[Hb|(ceiling & Hg & Hpay)]].
  - left. by rewrite Ha.
  - right. exists Cause.Backoff. unfold ensure_rewakes. rewrite Hst. simpl. rewrite Hb, bool_decide_eq_false_2 by done.
    simpl. unfold backoff_in_force in Hb. destruct (Lifecycle.backoff_until _) eqn:Hu; [|done].
    destruct s. apply merge_Some.
  - right. exists Cause.WindowTurn. unfold ensure_rewakes. rewrite Hst. simpl.
    rewrite (bool_decide_eq_false_2 (pending s = [])), Hg, Hpay by done. simpl.
    destruct s. simpl in *. apply merge_Some.
Qed.

End Attended.

(** ** Commands *)

Lemma valid_capacity policy : WakePolicy.validate policy = Ok tt → (1 <= active_capacity policy)%nat.
Proof.
  unfold WakePolicy.validate, active_capacity. case_bool_decide; [done|]. intros Hv.
  apply result_bind_ok in Hv as (_ & _ & Hv). apply result_bind_ok in Hv as (_ & _ & Hv).
  apply result_bind_ok in Hv as ([] & Ho & _). destruct (WakePolicy.overlap policy) as [|n r]; [lia|].
  destruct (Z.ltb_spec n 2); [done|]. unfold AGENT_WAKE_ACTIVE_CAPACITY. lia.
Qed.

Section Commands.
Context {AgentEpochSpec : Type}.
Context (check_bounds : AgentContinuousTask (AgentEpochSpec := AgentEpochSpec) → AgentTaskResult unit).
Implicit Types self : AgentContinuousTask (AgentEpochSpec := AgentEpochSpec).

(** Owing creations attaches epochs to active wakes and changes nothing else of a controller. *)
Lemma owe_all_controller self W self' l : owe_all self W = Ok (self', l) →
  lifecycle (task_controller self') = lifecycle (task_controller self) ∧
  pending (task_controller self') = pending (task_controller self) ∧
  length (active (task_controller self')) = length (active (task_controller self)).
Proof.
  revert self l. induction W as [|w W IH]; intros self l H; simpl in H; [by injection H as <- _|].
  apply result_bind_ok in H as ([self1 c] & H1 & H). apply result_bind_ok in H as ([self2 l'] & H2 & H).
  injection H as <- _. apply IH in H2 as (-> & -> & ->).
  apply owe_inv in H1 as (e & index & x & escrow & _ & _ & _ & _ & -> & _). rewrite controller_set.
  destruct (task_controller self). simpl. by rewrite length_insert.
Qed.

Lemma owing_retried self W now self' l : owing check_bounds self W now = Ok (self', l) →
  (status (task_controller self) = Status.Active → pending (task_controller self) ≠ [] →
     retried (task_controller self)) →
  status (task_controller self') = Status.Active → pending (task_controller self') ≠ [] →
  retried (task_controller self').
Proof.
  unfold owing. intros H. apply result_bind_ok in H as ([self1 l1] & H1 & H).
  apply result_bind_ok in H as (_ & _ & H). injection H as <- <-. rewrite controller_touch.
  apply owe_all_controller in H1 as (Hl & Hp & Ha). unfold status, retried. rewrite Hl, Hp.
  intros Hr Hs Hpe. destruct (Hr Hs Hpe) as [Hact|Hslot]; [left|by right].
  intros Hn. apply Hact, nil_length_inv. by rewrite <-Ha, Hn.
Qed.

(** The commands that end an epoch, resume the goal or deliver a wake. *)
Inductive promoting_command self : AgentContinuousTask (AgentEpochSpec := AgentEpochSpec) → Prop :=
| PromotingAdmit operation_id binding now self' outcome owed :
    admit_wake check_bounds self operation_id binding now = Ok (self', outcome, owed) → promoting_command self self'
| PromotingComplete wake now self' outcome owed :
    complete_wake_occurrence check_bounds self wake now = Ok (self', outcome, owed) → promoting_command self self'
| PromotingResume expected provenance now self' outcome owed :
    resume_continuous_goal check_bounds self expected provenance now = Ok (self', outcome, owed) →
    promoting_command self self'
| PromotingResult sender result now self' released owed :
    apply_epoch_result check_bounds self sender result now = Ok (self', Some released, owed) →
    promoting_command self self'.

(** C18. A parked occurrence is never left behind by a command that can start it.  After any
    accepted delivery, completion, resumption, or result that ends an active epoch, from any
    state of a task with a valid policy: if the goal is active and an occurrence is still
    parked, then an epoch is active, whose end will promote, or the controller owes itself a
    re-wake at the end of the backoff or at the turn of the window. *)
Theorem parked_never_stranded self self'
    (Hpolicy : WakePolicy.validate (task_policy self) = Ok tt)
    (Hwindow : ∀ ceiling, WakePolicy.goal_window (task_policy self) = Some ceiling →
       window_positive (AgentGoalWindowCeiling.window ceiling))
    (Hcommand : promoting_command self self')
    (Hactive : status (task_controller self') = Status.Active)
    (Hparked : pending (task_controller self') ≠ []) :
  active (task_controller self') ≠ [] ∨
  ∃ cause, is_Some (AgentWakeRewakes.slot (Lifecycle.rewakes (lifecycle (task_controller self'))) cause).
Proof.
  pose proof (valid_capacity _ Hpolicy) as Hcap. revert Hactive Hparked.
  destruct Hcommand as [op b now self' x owed H|w now self' x owed H|e p now self' x owed H|sender r now self' x owed H].
  - unfold admit_wake in H. apply result_bind_ok in H as (? & _ & H). case_bool_decide; [done|].
    apply result_bind_ok in H as (_ & _ & H). case_bool_decide; [done|].
    destruct (promote_admittable _ _ _) as [s1 promoted] eqn:Hp.
    apply result_bind_ok in H as ([s2 d] & Ha & H). apply map_err_ok in Ha.
    apply result_bind_ok in H as ([self1 l] & Ho & H). injection H as <- _ <-.
    eapply owing_retried; [done|]. rewrite controller_set. refine (ensure_retried _ _ _ (admit_attended _ _ Hcap Hwindow _ _ _ _ _ Ha _)).
    exact (promoted_attended _ _ Hcap Hwindow _ _ _ Hp).
  - unfold complete_wake_occurrence in H. apply result_bind_ok in H as (_ & _ & H).
    apply result_bind_ok in H as ([s1 r] & Hr & H). apply map_err_ok in Hr.
    apply result_bind_ok in H as ([self1 l] & Ho & H). injection H as <- _ <-.
    eapply owing_retried; [done|]. rewrite controller_set. refine (ensure_retried _ _ _ _).
    unfold release in Hr. destruct (list_find _ _) as [[i y]|]; [|done].
    destruct (promote_admittable _ _ _) as [s2 promoted] eqn:Hp. injection Hr as <- _.
    exact (promoted_attended _ _ Hcap Hwindow _ _ _ Hp).
  - unfold resume_continuous_goal in H. apply result_bind_ok in H as (_ & _ & H).
    apply result_bind_ok in H as ([s1 n] & _ & H). destruct (promote_admittable _ _ _) as [s2 promoted] eqn:Hp.
    apply result_bind_ok in H as ([self1 l] & Ho & H). injection H as <- _ <-.
    eapply owing_retried; [done|]. rewrite controller_set. refine (ensure_retried _ _ _ _).
    exact (promoted_attended _ _ Hcap Hwindow _ _ _ Hp).
  - unfold apply_epoch_result in H. apply result_bind_ok in H as (derived & _ & H).
    apply result_bind_ok in H as (sent & _ & H). destruct (_ || _); [done|].
    apply result_bind_ok in H as (_ & _ & H). apply result_bind_ok in H as (run & _ & H).
    apply result_bind_ok in H as (child & _ & H). apply result_bind_ok in H as (escrow & _ & H).
    apply result_bind_ok in H as ([s2 released] & Hrel & H). apply result_bind_ok in H as ([self1 l] & Ho & H).
    injection H as <- -> <-. eapply owing_retried; [done|]. rewrite controller_set. refine (ensure_retried _ _ _ _).
    unfold release in Hrel. destruct (list_find _ _) as [[i y]|]; [|done].
    destruct (promote_admittable _ _ _) as [s3 promoted] eqn:Hp. injection Hrel as <- _.
    exact (promoted_attended _ _ Hcap Hwindow _ _ _ Hp).
Qed.

End Commands.

(** ** Occurrences left behind *)

Module WakeTask_demo.
(** Two epochs at a time, the default backoff (one second after a first failure), and an expiry
    that can be renewed. *)
Definition policy : WakePolicy.t :=
  WakePolicy.mk {[Trigger.DurableTimer]} None None
    (AgentWakeOverlapPolicy.Parallel 2 (AgentPolicyRef.Self "merge"))
    AgentMissedOccurrencePolicy.AdmitOneCoalesced (WakeProps_demo.tokens 10) None None AgentWakeBackoffPolicy.DEFAULT
    (AgentWakeLifecyclePolicy.mk CoalesceLatest NotRequired (Some 1000000) Manual).
Definition start : AgentContinuousTask :=
  ContinuousTask (AgentTaskScope.mk Wake_demo.tenant (AgentTaskId.Self "root")) AgentTaskStatus.Created Wake_demo.goal
    ScheduleRevision.INITIAL
    (AgentWakePolicyRevision.mk CURRENT_AGENT_WAKE_POLICY_SCHEMA_VERSION Revision.INITIAL policy WakeProps_demo.operator)
    (Some tt) (AgentEscrowLedger.new (AgentBudgetGrant.new (WakeProps_demo.tokens 100) AgentBudgetLimits.unbounded))
    (Some AgentWakeControllerState.new) 0.
Definition roomy (_ : AgentContinuousTask (AgentEpochSpec := unit)) : AgentTaskResult unit := Ok tt.

Definition wake (d : Z) : AgentWakeId.t := Binding.wake_id (WakeProps_demo.due d).
Definition admit_due (d : Z) : task_command :=
  let b := WakeProps_demo.due d in
  match Binding.admission_operation_id b with
  | Ok operation_id => AdmitWake operation_id b d
  | Err _ => RewakeParked Cause.Backoff 0 0 0
  end.
Definition ended (d : Z) (status : AgentTaskStatus.t) (now : Z) : task_command :=
  match epoch_task_id_for_wake (wake d) with
  | Ok task =>
      EpochEnded (AgentEntityAddress.Task (AgentTaskScope.mk Wake_demo.tenant task))
        (AgentEpochResult.mk (wake d) task status AgentBudgetConsumption.zero None) now
  | Err _ => RewakeParked Cause.Backoff 0 0 0
  end.
Definition run (cs : list task_command) : AgentContinuousTask (AgentEpochSpec := unit) := (task_run roomy start [] cs).1.

(** Two epochs; the second fails and a third occurrence is parked; the first is completed by a
    command, and its result arrives. *)
Definition late_result : list task_command :=
  [admit_due 10; admit_due 20; ended 20 AgentTaskStatus.Failed 30; admit_due 40; CompleteWake (wake 10) 50;
   ended 10 AgentTaskStatus.Completed 60].

(** An epoch fails, an occurrence is parked, and the goal is renewed after the backoff. *)
Definition late_renewal : list task_command :=
  [admit_due 10; ended 10 AgentTaskStatus.Failed 20; admit_due 30;
   RenewGoal Revision.INITIAL 2000000 WakeProps_demo.operator 5000].
End WakeTask_demo.

(** Active, with something parked, and nothing that will retry it. *)
Definition stranded (s : t) : bool :=
  bool_decide (status s = Status.Active) && bool_decide (pending s ≠ []) && bool_decide (active s = []) &&
  bool_decide (Lifecycle.rewakes (lifecycle s) = AgentWakeRewakes.default).

Lemma stranded_spec s : stranded s = true →
  status s = Status.Active ∧ pending s ≠ [] ∧ ¬ retried s.
Proof.
  unfold stranded. rewrite !andb_true_iff, !bool_decide_eq_true. intros (((Hs & Hp) & Ha) & Hr).
  split; [done|]. split; [done|]. intros [H|(cause & H)]; [done|]. rewrite Hr in H. by destruct cause, H.
Qed.

(** A command that does not promote can leave a parked occurrence with nothing to retry
    it.  Two runs from a fresh task end with an active goal, an occurrence parked, no active
    epoch and no re-wake owed: a completed epoch's result that arrives after its wake was
    completed by a command clears the backoff and with it the re-wake, and so does a renewal
    after the backoff ended, both before the re-wake was handed to the timers. *)
Theorem parked_left_behind :
  let late := task_controller (WakeTask_demo.run WakeTask_demo.late_result) in
  let renewed := task_controller (WakeTask_demo.run WakeTask_demo.late_renewal) in
  (status late = Status.Active ∧ pending late ≠ [] ∧ ¬ retried late) ∧
  (status renewed = Status.Active ∧ pending renewed ≠ [] ∧ ¬ retried renewed).
Proof. split; apply stranded_spec; vm_compute; reflexivity. Qed.

(** The run up to the parked occurrence. *)
Definition parked_demo : AgentContinuousTask :=
  WakeTask_demo.run [WakeTask_demo.admit_due 10; WakeTask_demo.ended 10 AgentTaskStatus.Failed 20].

Lemma every_epoch_owed_witness :
  let '(self, log) := task_run WakeTask_demo.roomy WakeTask_demo.start []
    [WakeTask_demo.admit_due 10; WakeTask_demo.admit_due 20] in
  length (active (task_controller self)) = 2%nat ∧
  ∀ a, a ∈ active (task_controller self) → is_Some (AgentActiveWake.epoch a).
Proof.
  pose proof (every_epoch_owed WakeTask_demo.roomy WakeTask_demo.start
    [WakeTask_demo.admit_due 10; WakeTask_demo.admit_due 20] (conj eq_refl eq_refl)) as H.
  assert (length (active (task_controller (task_run WakeTask_demo.roomy WakeTask_demo.start []
    [WakeTask_demo.admit_due 10; WakeTask_demo.admit_due 20]).1)) = 2%nat) as Hl by (vm_compute; reflexivity).
  destruct (task_run _ _ _ _) as [self log]. split; [exact Hl|]. intros a Ha.
  destruct H as [_ H]. destruct (H a Ha) as (e & c & _ & He & _). rewrite He. eexists. reflexivity.
Defined.

Lemma parked_never_stranded_witness :
  let self' := (task_step WakeTask_demo.roomy parked_demo (WakeTask_demo.admit_due 30)).1 in
  active (task_controller self') ≠ [] ∨
  ∃ cause, is_Some (AgentWakeRewakes.slot (Lifecycle.rewakes (lifecycle (task_controller self'))) cause).
Proof.
  intros self'. apply (parked_never_stranded WakeTask_demo.roomy parked_demo self').
  - vm_compute. reflexivity.
  - vm_compute. discriminate.
  - assert (∃ op out owed, admit_wake WakeTask_demo.roomy parked_demo op (WakeProps_demo.due 30) 30 =
      Ok (self', out, owed)) as (op & out & owed & H).
    { eexists (match Binding.admission_operation_id (WakeProps_demo.due 30) with
               | Ok op => op | Err _ => AgentOperationId.Self "" end), _, _. vm_compute. reflexivity. }
    exact (PromotingAdmit WakeTask_demo.roomy parked_demo op (WakeProps_demo.due 30) 30 self' out owed H).
  - vm_compute. reflexivity.
  - vm_compute. discriminate.
Defined.
