(* ===== verification/WakeTimers.v ===== *)
(** * Durable wake timers: [rakka-agent/src/wake_timers.rs]

    One durable record holds every occurrence that waits to be delivered to a continuous goal,
    keyed by its wake id.  Facades in any number of processes read it, keep what they read, and
    write it back by compare-and-set, retrying a lost race four times.

    The operations are programs ([DurableState.v]): what other processes do between two awaits is
    not lost.  [WakeTimerRuns] runs programs of many processes over one store. *)

From stdpp Require Import sorting.
From S2P Require Import Prelude Persistence DurableState AgentIdentity AgentSchema Budget Delegation Exchange.
From S2P Require Import WakeCalendar Wake WakeController WakeTask.

#[global] Instance AgentWakeId_ordkey : OrdKey AgentWakeId.t := ordkey_via AgentWakeId.as_str.

(** ** Entries *)

Module AgentWakeTimerStatus.
Inductive t := Pending | Fired | Fenced | Cancelled.
#[global] Instance eq_dec : EqDecision t.
Proof. solve_decision. Defined.
Definition as_label (self : t) : string :=
  match self with Pending => "pending" | Fired => "fired" | Fenced => "fenced" | Cancelled => "cancelled" end.
Definition is_terminal (self : t) : bool := match self with Pending => false | _ => true end.
End AgentWakeTimerStatus.

Module TimerStatus := AgentWakeTimerStatus.

Module AgentWakeTimerEntry.
Record t := mk {
  binding : Binding.t;
  task : AgentTaskId.t;
  status : TimerStatus.t;
  created_at : AgentTimestampMillis;
  updated_at : AgentTimestampMillis;
  fired_at : option AgentTimestampMillis;
}.
#[global] Instance eq_dec : EqDecision t.
Proof. unfold AgentTimestampMillis. solve_decision. Defined.

Definition new (binding : Binding.t) (task : AgentTaskId.t) (created_at : AgentTimestampMillis) : t :=
  mk binding task TimerStatus.Pending created_at created_at None.

Definition wake_id (self : t) : AgentWakeId.t := Binding.wake_id (binding self).

Definition due_time (self : t) : AgentTimestampMillis := default (created_at self) (Binding.due_at (binding self)).

Definition is_due (self : t) (now : AgentTimestampMillis) : bool :=
  match status self with TimerStatus.Pending => due_time self <=? now | _ => false end.

Definition with_status (self : t) (status : TimerStatus.t) (at_ : AgentTimestampMillis) : t :=
  mk (binding self) (task self) status (created_at self) at_
    (match status with TimerStatus.Fired => Some at_ | _ => fired_at self end).
End AgentWakeTimerEntry.

Module Entry := AgentWakeTimerEntry.

(** The order of deliveries: due time, then wake id. *)
Definition due_before (left right : Entry.t) : Prop :=
  key_le (K := Z * AgentWakeId.t) (Entry.due_time left, Entry.wake_id left) (Entry.due_time right, Entry.wake_id right).

#[global] Instance due_before_dec : RelDecision due_before.
Proof. intros l r. unfold due_before. apply _. Defined.

(** ** The durable record *)

Module AgentWakeTimerStoreState.
Record t := mk {
  schema_version : Z;
  entries : gmap AgentWakeId.t Entry.t;
  updated_at : AgentTimestampMillis;
}.

Definition empty (now : AgentTimestampMillis) : t := mk CURRENT_AGENT_WAKE_TIMER_SCHEMA_VERSION ∅ now.

Definition entry (self : t) (wake : AgentWakeId.t) : option Entry.t := entries self !! wake.

Definition put (self : t) (wake : AgentWakeId.t) (entry : Entry.t) (at_ : AgentTimestampMillis) : t :=
  mk (schema_version self) (<[wake := entry]> (entries self)) at_.

Definition all_due (self : t) (now : AgentTimestampMillis) : list Entry.t :=
  filter (fun entry => Entry.is_due entry now) (btree_values (entries self)).

Definition due_entries (self : t) (now : AgentTimestampMillis) (limit : nat) : list Entry.t :=
  take (limit `max` 1) (merge_sort due_before (all_due self now)).

Definition due_entry_count (self : t) (now : AgentTimestampMillis) : nat := length (all_due self now).

(** What [retain] keeps of the entries in [prune_terminal]. *)
Definition prunable (before : AgentTimestampMillis) (entry : Entry.t) : bool :=
  TimerStatus.is_terminal (Entry.status entry) && (Entry.updated_at entry <? before).

Definition pruned (self : t) (before : AgentTimestampMillis) : t :=
  mk (schema_version self) (filter (fun '(_, entry) => prunable before entry = false) (entries self)) before.
End AgentWakeTimerStoreState.

Module Timers := AgentWakeTimerStoreState.

Module AgentWakeTimerError.
Inductive t :=
| Mismatch (wake : AgentWakeId.t)
| NotFound (wake : AgentWakeId.t)
| Schema (error : AgentSchemaError)
| Persistence (error : DurableError).

Definition code (schema_code : AgentSchemaError → string) (self : t) : string :=
  match self with
  | Mismatch _ => "wake-timer-mismatch"
  | NotFound _ => "wake-timer-not-found"
  | Schema error => schema_code error
  | Persistence _ => "wake-timer-persistence"
  end.
End AgentWakeTimerError.

Module TimerErr := AgentWakeTimerError.
Abbreviation AgentWakeTimerResult := (result TimerErr.t).

Module AgentWakeTimerScheduled.
Record t := mk { entry : Entry.t; duplicate : bool }.
End AgentWakeTimerScheduled.

Definition AGENT_WAKE_TIMER_PERSISTENCE_PREFIX : string := "agent-wake-timers".
Definition DEFAULT_AGENT_WAKE_TIMER_STORE_ID : string := "default".
Definition agent_wake_timer_store_persistence_id : PersistenceId.t :=
  PersistenceId.new (AGENT_WAKE_TIMER_PERSISTENCE_PREFIX +:+ ":" +:+ DEFAULT_AGENT_WAKE_TIMER_STORE_ID).

(** ** The facade *)

Module AgentWakeTimerStore.

(** The store itself is shared; this is what a facade holds besides. *)
Record t := mk {
  persistence_id : PersistenceId.t;
  backend_name : string;
  schema_policy : AgentSchemaPolicy.t;
  record : option (StateRecord.t Timers.t);
}.

Definition with_persistence_id (backend_name : string) (persistence_id : PersistenceId.t) : t :=
  mk persistence_id backend_name AgentSchemaPolicy.n_plus_one None.

Definition new (backend_name : string) : t :=
  with_persistence_id backend_name agent_wake_timer_store_persistence_id.

Definition with_schema_policy (self : t) (schema_policy : AgentSchemaPolicy.t) : t :=
  mk (persistence_id self) (backend_name self) schema_policy (record self).

Definition set_record (self : t) (record : option (StateRecord.t Timers.t)) : t :=
  mk (persistence_id self) (backend_name self) (schema_policy self) record.

(** A method on [&mut self] that may fail. *)
Definition method (C R E A : Type) : Type := t → program Timers.t C R (t * result E A).

Definition pure {C R E A} (r : result E A) : method C R E A := fun self => Done (self, r).

Definition bind {C R E A B} (m : method C R E A) (f : A → method C R E B) : method C R E B := fun self =>
  program_bind (m self) (fun '(self, r) =>
    match r with Ok a => f a self | Err e => Done (self, Err e) end).

Notation "'run!' x ':=' m 'in' k" := (bind m (fun x => k))
  (at level 10, x pattern, m at level 200, k at level 200) : rakka_scope.

Section Facade.
Context {C R : Type}.

Abbreviation timer_method := (method C R TimerErr.t).

Definition not_recovered (self : t) : TimerErr.t :=
  TimerErr.Persistence (StoreError (backend_name self) "wake-timer store is not recovered").

Definition current_record : timer_method (StateRecord.t Timers.t) := fun self =>
  Done (self, ok_or (not_recovered self) (record self)).

Definition state : timer_method Timers.t := fun self =>
  Done (self, ok_or (not_recovered self) (StateRecord.state <$> record self)).

Definition recover (now : AgentTimestampMillis) : timer_method Timers.t := fun self =>
  Load (persistence_id self) (fun loaded =>
    Done
      match loaded with
      | Err error => (self, Err (TimerErr.Persistence error))
      | Ok loaded =>
          let record := default (StateRecord.missing (Timers.empty now)) loaded in
          let state := StateRecord.state record in
          match AgentSchemaPolicy.check (schema_policy self) WakeTimerState (Timers.schema_version state) with
          | Err error => (self, Err (TimerErr.Schema error))
          | Ok _ => (set_record self (Some record), Ok state)
          end
      end).

(** [if self.record.is_none() { self.recover(now).await?; }]. *)
Definition ensure_recovered (now : AgentTimestampMillis) : timer_method unit := fun self =>
  match record self with
  | Some _ => Done (self, Ok tt)
  | None => (run! _ := recover now in pure (Ok tt)) self
  end.

Definition persist (expected_revision : Z) (next : Timers.t) : timer_method (StateRecord.t Timers.t) := fun self =>
  CompareAndSet (persistence_id self) expected_revision next (fun written =>
    Done
      match written with
      | Ok persisted => (set_record self (Some persisted), Ok persisted)
      | Err error =>
          (match error with RevisionConflict _ _ _ => set_record self None | _ => self end,
           Err (TimerErr.Persistence error))
      end).

Definition CAS_ATTEMPTS : nat := 4.

(** An attempt that wrote or found its answer, or the loss of its race. *)
Definition race {A B} (m : timer_method A) (won : A → B) : timer_method (B + TimerErr.t) := fun self =>
  program_bind (m self) (fun '(self, r) =>
    Done (self, match r with
                | Ok a => Ok (inl (won a))
                | Err (TimerErr.Persistence (RevisionConflict _ _ _) as error) => Ok (inr error)
                | Err error => Err error
                end)).

(** The loop of [CAS_ATTEMPTS] attempts: the first, and [more] after it. *)
Fixpoint attempts {A} (attempt : timer_method (A + TimerErr.t)) (more : nat) : timer_method A :=
  run! outcome := attempt in
  match outcome with
  | inl a => pure (Ok a)
  | inr lost => match more with 0%nat => pure (Err lost) | S more => attempts attempt more end
  end.

Definition schedule_attempt (entry : Entry.t) : timer_method (AgentWakeTimerScheduled.t + TimerErr.t) :=
  run! _ := ensure_recovered (Entry.created_at entry) in
  run! record := current_record in
  let state := StateRecord.state record in
  match Timers.entries state !! Entry.wake_id entry with
  | Some existing =>
      if Binding.same_identity (Entry.binding existing) (Entry.binding entry) &&
         bool_decide (Entry.task existing = Entry.task entry) then
        pure (Ok (inl (AgentWakeTimerScheduled.mk existing true)))
      else pure (Err (TimerErr.Mismatch (Entry.wake_id entry)))
  | None =>
      race (persist (StateRecord.revision record)
              (Timers.put state (Entry.wake_id entry) entry (Entry.updated_at entry)))
        (fun _ => AgentWakeTimerScheduled.mk entry false)
  end.

Definition schedule_occurrence (entry : Entry.t) : timer_method AgentWakeTimerScheduled.t :=
  attempts (schedule_attempt entry) (pred CAS_ATTEMPTS).

Definition due_entries (now : AgentTimestampMillis) (limit : nat) : timer_method (list Entry.t) :=
  run! _ := ensure_recovered now in
  run! state := state in
  pure (Ok (Timers.due_entries state now limit)).

Definition due_entry_count (now : AgentTimestampMillis) : timer_method nat :=
  run! _ := ensure_recovered now in
  run! state := state in
  pure (Ok (Timers.due_entry_count state now)).

Definition update_attempt (wake : AgentWakeId.t) (update : Entry.t → Entry.t) :
    timer_method (Entry.t + TimerErr.t) :=
  run! _ := ensure_recovered 0 in
  run! record := current_record in
  let state := StateRecord.state record in
  match Timers.entries state !! wake with
  | None => pure (Err (TimerErr.NotFound wake))
  | Some entry =>
      let updated := update entry in
      if bool_decide (updated = entry) then pure (Ok (inl entry))
      else
        race (persist (StateRecord.revision record) (Timers.put state wake updated (Entry.updated_at updated)))
          (fun _ => updated)
  end.

Definition update_entry (wake : AgentWakeId.t) (update : Entry.t → Entry.t) : timer_method Entry.t :=
  attempts (update_attempt wake update) (pred CAS_ATTEMPTS).

(** The update of [mark_fired], [mark_fenced] and [cancel]. *)
Definition settle (status : TimerStatus.t) (at_ : AgentTimestampMillis) (entry : Entry.t) : Entry.t :=
  match Entry.status entry with
  | TimerStatus.Pending => Entry.with_status entry status at_
  | _ => entry
  end.

Definition mark_fired (wake : AgentWakeId.t) (fired_at : AgentTimestampMillis) : timer_method Entry.t :=
  update_entry wake (settle TimerStatus.Fired fired_at).
Definition mark_fenced (wake : AgentWakeId.t) (fenced_at : AgentTimestampMillis) : timer_method Entry.t :=
  update_entry wake (settle TimerStatus.Fenced fenced_at).
Definition cancel (wake : AgentWakeId.t) (cancelled_at : AgentTimestampMillis) : timer_method Entry.t :=
  update_entry wake (settle TimerStatus.Cancelled cancelled_at).

Definition prune_terminal (before : AgentTimestampMillis) : timer_method nat :=
  run! _ := ensure_recovered before in
  run! record := current_record in
  let state := StateRecord.state record in
  let next := Timers.pruned state before in
  let pruned := (size (Timers.entries state) - size (Timers.entries next))%nat in
  if Nat.eqb pruned 0 then pure (Ok 0%nat)
  else
    run! _ := persist (StateRecord.revision record) next in
    pure (Ok pruned).

(** [SharedWakeTimerParker::park]: a fresh facade for each entry. *)
Definition park (backend_name : string) (persistence_id : PersistenceId.t) (entry : Entry.t) :
    program Timers.t C R (AgentWakeTimerResult AgentWakeTimerScheduled.t) :=
  program_bind (schedule_occurrence entry (with_persistence_id backend_name persistence_id))
    (fun '(_, scheduled) => Done scheduled).
End Facade.
End AgentWakeTimerStore.

Module Facade := AgentWakeTimerStore.
