(* ===== verification/WakeScanner.v ===== *)
(** * The wake scanner: [rakka-agent/src/wake_scanner.rs]

    A pass reads the due entries of a timer facade, delivers each as the admission command its
    binding derives, and marks it with the terminal status the controller's answer earned; after
    a failed or refused delivery the later entries of the same task are held back.  The delivery
    is the interface [AgentWakeDelivery]: a constructor of the program, answered by whoever runs
    it.  Metrics are left out; the clock reading is an argument. *)

From S2P Require Import Prelude Persistence DurableState AgentIdentity AgentSchema Budget Delegation Exchange.
From S2P Require Import WakeCalendar Wake WakeController WakeTask WakeTimers.
Import AgentWakeTimerStore.

#[global] Instance TenantId_as_str_inj : Inj (=) (=) TenantId.as_str.
Proof. newtype_inj. Qed.
#[global] Instance TenantId_countable : Countable TenantId.t :=
  inj_countable' TenantId.as_str TenantId.new ltac:(by intros []).
#[global] Instance AgentTaskId_countable : Countable AgentTaskId.t :=
  inj_countable' AgentTaskId.as_str AgentTaskId.Self ltac:(by intros []).

(** ** The entity protocol, as far as wakes use it *)

(** The other commands are not built here. *)
Module AgentTaskEntityCommand.
Inductive t := AdmitWake (operation_id : AgentOperationId.t) (binding : Binding.t).
End AgentTaskEntityCommand.

(** The goal and the submission an outcome may carry are not read here. *)
Module AgentTaskOutcome.
Record t := mk {
  status : AgentTaskStatus.t;
  assignment_generation : AgentAssignmentGeneration.t;
  agent : option AgentId.t;
  run : option AgentRunId.t;
  rejection_count : Z;
  dependencies_satisfied : bool;
  wake : option Outcome.t;
}.
End AgentTaskOutcome.

Module AgentTaskProgress.
Record t := mk {
  assigned : bool;
  history_flushed : nat;
  settled : nat;
  failed : nat;
  unsettleable : nat;
  outstanding : nat;
  rewakes_parked : nat;
}.
End AgentTaskProgress.

(** [Snap] is the projection a snapshot carries. *)
Module AgentTaskEntityReply.
Inductive t (Snap : Type) :=
| Applied (outcome : AgentTaskOutcome.t)
| Duplicate (outcome : AgentTaskOutcome.t)
| Snapshot (snapshot : option Snap)
| Progressed (progress : AgentTaskProgress.t)
| Rejected (code message : string).
Arguments Applied {Snap}.
Arguments Duplicate {Snap}.
Arguments Snapshot {Snap}.
Arguments Progressed {Snap}.
Arguments Rejected {Snap}.
End AgentTaskEntityReply.

Module Command := AgentTaskEntityCommand.
Module Reply := AgentTaskEntityReply.

Definition wake_admission_command (binding : Binding.t) : AgentWakeResult Command.t :=
  let? operation_id := Binding.admission_operation_id binding in
  Ok (Command.AdmitWake operation_id binding).

(** ** Settings, outcomes, errors *)

Module AgentWakeScannerSettings.
Record t := mk { max_batch_size : nat }.
Definition new (max_batch_size : nat) : t := mk (max_batch_size `max` 1).
Definition default : t := new 32.
End AgentWakeScannerSettings.

Module AgentWakeScanOutcome.
Inductive t :=
| Dispositioned (wake : AgentWakeId.t) (disposition : Disposition.t) (redelivery : bool) (marked : TimerStatus.t)
| Rejected (wake : AgentWakeId.t) (code : string)
| Failed (wake : AgentWakeId.t) (code : string)
| HeldBack (wake blocked_by : AgentWakeId.t).

(** [matches!(outcome, Failed { .. } | Rejected { .. })]. *)
Definition blocks (self : t) : bool := match self with Failed _ _ | Rejected _ _ => true | _ => false end.
End AgentWakeScanOutcome.

Module ScanOutcome := AgentWakeScanOutcome.

Module AgentWakeScan.
Record t := mk {
  scanned_at : AgentTimestampMillis;
  due_count : nat;
  max_batch_size : nat;
  backpressure_limited : bool;
  outcomes : list ScanOutcome.t;
}.
End AgentWakeScan.

Module AgentWakeScanError.
Inductive t := Timers (error : TimerErr.t) | Wake (error : WakeErr.t) | Identity (error : AgentIdentityError).
End AgentWakeScanError.

Module ScanErr := AgentWakeScanError.

(** ** The pass *)

Module AgentWakeScanner.
Section Scanner.
Context {Snap : Type}.

Abbreviation delivered := (AgentTaskScope.t * Command.t)%type.
Abbreviation answer := (result AgentExchangeDeliveryError.t (Reply.t Snap)).
Abbreviation scan_method := (method delivered answer ScanErr.t).

(** A method of [self.timers] under [?]. *)
Definition on_timers {A} (m : method delivered answer TimerErr.t A) : scan_method A := fun self =>
  program_bind (m self) (fun '(self, r) => Done (self, map_err ScanErr.Timers r)).

Definition deliver (scope : AgentTaskScope.t) (command : Command.t) : scan_method answer := fun self =>
  Deliver (scope, command) (fun reply => Done (self, Ok reply)).

(** The disposition of an applied command; an outcome without one counts as a duplicate. *)
Definition disposition_of (entry : Entry.t) (outcome : AgentTaskOutcome.t) : Disposition.t :=
  match AgentTaskOutcome.wake outcome with
  | Some (Outcome.Disposition disposition) => disposition
  | _ => Disposition.Duplicate (Entry.wake_id entry)
  end.

(** The terminal status a disposition earns. *)
Definition earned (disposition : Disposition.t) : TimerStatus.t :=
  match disposition with Disposition.Fenced _ _ _ => TimerStatus.Fenced | _ => TimerStatus.Fired end.

Definition conclude (entry : Entry.t) (now : AgentTimestampMillis) (outcome : AgentTaskOutcome.t) (redelivery : bool) :
    scan_method ScanOutcome.t :=
  let disposition := disposition_of entry outcome in
  run! _ := on_timers (match disposition with
                    | Disposition.Fenced _ _ _ => mark_fenced (Entry.wake_id entry) now
                    | _ => mark_fired (Entry.wake_id entry) now
                    end) in
  pure (Ok (ScanOutcome.Dispositioned (Entry.wake_id entry) disposition redelivery (earned disposition))).

Definition deliver_entry (entry : Entry.t) (now : AgentTimestampMillis) : scan_method ScanOutcome.t :=
  let wake := Entry.wake_id entry in
  run! scope := pure (map_err ScanErr.Identity
                        (AgentTaskScope.new (Binding.tenant (Entry.binding entry)) (Entry.task entry))) in
  run! command := pure (map_err ScanErr.Wake (wake_admission_command (Entry.binding entry))) in
  run! reply := deliver scope command in
  match reply with
  | Err error => pure (Ok (ScanOutcome.Failed wake (AgentExchangeDeliveryError.code error)))
  | Ok (Reply.Applied outcome) => conclude entry now outcome false
  | Ok (Reply.Duplicate outcome) => conclude entry now outcome true
  | Ok (Reply.Rejected code _) => pure (Ok (ScanOutcome.Rejected wake code))
  | Ok (Reply.Snapshot _) | Ok (Reply.Progressed _) =>
      pure (Ok (ScanOutcome.Rejected wake "wake-unexpected-reply"))
  end.

Definition task_key (entry : Entry.t) : TenantId.t * AgentTaskId.t :=
  (Binding.tenant (Entry.binding entry), Entry.task entry).

(** The loop over the due entries; [blocked] names what blocks each task. *)
Fixpoint deliver_due (due : list Entry.t) (now : AgentTimestampMillis)
    (blocked : gmap (TenantId.t * AgentTaskId.t) AgentWakeId.t) : scan_method (list ScanOutcome.t) :=
  match due with
  | [] => pure (Ok [])
  | entry :: due =>
      match blocked !! task_key entry with
      | Some blocked_by =>
          run! outcomes := deliver_due due now blocked in
          pure (Ok (ScanOutcome.HeldBack (Entry.wake_id entry) blocked_by :: outcomes))
      | None =>
          run! outcome := deliver_entry entry now in
          let blocked :=
            if ScanOutcome.blocks outcome then <[task_key entry := Entry.wake_id entry]> blocked else blocked in
          run! outcomes := deliver_due due now blocked in
          pure (Ok (outcome :: outcomes))
      end
  end.

Definition scan_due (settings : AgentWakeScannerSettings.t) (now : AgentTimestampMillis) : scan_method AgentWakeScan.t :=
  let max_batch_size := AgentWakeScannerSettings.max_batch_size settings in
  run! due_count := on_timers (due_entry_count now) in
  run! due := on_timers (due_entries now max_batch_size) in
  run! outcomes := deliver_due due now ∅ in
  pure (Ok (AgentWakeScan.mk now due_count max_batch_size (length outcomes <? due_count)%nat outcomes)).
End Scanner.
End AgentWakeScanner.
