(* ===== verification/WakeTimerRuns.v ===== *)
(** * Timer facades and scanners over one store

    Any number of processes hold facades of one wake-timer record and run calls of them -
    scheduling, cancelling, pruning, scanning - step by step: a step is one answer of the store
    or of a delivery, and any process may be stopped between two of them.  [spec] is a
    rely-guarantee triple over what has been committed and answered so far: others may have
    gone on before each answer, and each own write must be a legal change of the record.

    Shown: the record changes only legally - an entry is created by a call that schedules it,
    stays as it is while pending, is retired once, by a cancellation or by an answered delivery
    of that entry, and never afterwards changed; [parked_until_answered] says so of every run. *)

From S2P Require Import Prelude Persistence DurableState AgentIdentity AgentSchema Budget Delegation Exchange.
From S2P Require Import WakeCalendar Wake WakeController WakeTask WakeTimers WakeScanner.
Import AgentWakeTimerStore AgentWakeScanner.

Inductive timer_call :=
| CallRecover (now : AgentTimestampMillis)
| CallSchedule (binding : Binding.t) (task : AgentTaskId.t) (created_at : AgentTimestampMillis)
| CallCancel (wake : AgentWakeId.t) (cancelled_at : AgentTimestampMillis)
| CallPrune (before : AgentTimestampMillis)
| CallScan (settings : AgentWakeScannerSettings.t) (now : AgentTimestampMillis).

Section Runs.
Context {Snap : Type} (pid : PersistenceId.t).

Abbreviation command := (AgentTaskScope.t * Command.t)%type.
Abbreviation reply := (result AgentExchangeDeliveryError.t (Reply.t Snap)).
Abbreviation prog := (program Timers.t command reply).

(** The calls the processes may make. *)
Context (permits : timer_call → Prop).

(** What has happened: the states committed and the deliveries answered, oldest first. *)
Record world := World { committed : list Timers.t; answers : list (command * reply) }.

(** ** Legal changes of the record *)

Definition scope_of (e : Entry.t) : AgentTaskScope.t :=
  AgentTaskScope.mk (Binding.tenant (Entry.binding e)) (Entry.task e).

(** A delivery of [e] was answered, and the answer earns [status]. *)
Definition answered (log : list (command * reply)) (e : Entry.t) (status : TimerStatus.t) : Prop :=
  ∃ operation outcome r,
    (r = Reply.Applied outcome ∨ r = Reply.Duplicate outcome) ∧
    (scope_of e, Command.AdmitWake operation (Entry.binding e), Ok r) ∈ log ∧
    earned (disposition_of e outcome) = status.

Definition may_prune : Prop := ∃ before, permits (CallPrune before).

(** Why an entry may leave [Pending] for [status].  Where entries are pruned the same wake may
    have been parked again, and the answer was for the earlier entry. *)
Definition retired (log : list (command * reply)) (e : Entry.t) (status : TimerStatus.t) : Prop :=
  match status with
  | TimerStatus.Pending => False
  | TimerStatus.Cancelled => ∃ at_, permits (CallCancel (Entry.wake_id e) at_)
  | TimerStatus.Fired | TimerStatus.Fenced =>
      ∃ d, answered log d status ∧ Entry.wake_id d = Entry.wake_id e ∧
        (may_prune ∨ Entry.binding d = Entry.binding e ∧ Entry.task d = Entry.task e)
  end.

Definition legal_entry (log : list (command * reply)) (wake : AgentWakeId.t) (before after : option Entry.t) : Prop :=
  match before, after with
  | None, None => True
  | None, Some e =>
      Entry.wake_id e = wake ∧
      ∃ binding task now, permits (CallSchedule binding task now) ∧ e = Entry.new binding task now
  | Some e, Some e' =>
      e' = e ∨
      Entry.status e = TimerStatus.Pending ∧
      ∃ status at_, retired log e status ∧ e' = Entry.with_status e status at_
  | Some e, None => may_prune ∧ TimerStatus.is_terminal (Entry.status e) = true
  end.

Definition legal_write (log : list (command * reply)) (before after : gmap AgentWakeId.t Entry.t) : Prop :=
  ∀ wake, legal_entry log wake (before !! wake) (after !! wake).

(** The entries after the first [i] commits. *)
Definition entries_at (h : list Timers.t) (i : nat) : gmap AgentWakeId.t Entry.t :=
  match i with 0%nat => ∅ | S i => default ∅ (Timers.entries <$> h !! i) end.

Definition legal (w : world) : Prop :=
  ∀ i, (i < length (committed w))%nat →
    legal_write (answers w) (entries_at (committed w) i) (entries_at (committed w) (S i)).

(** [w'] is a legal continuation of [w]. *)
Definition later (w w' : world) : Prop :=
  committed w `prefix_of` committed w' ∧ answers w `prefix_of` answers w' ∧ legal w'.

(** ** What a process is entitled to *)

Definition current (h : list Timers.t) : option (StateRecord.t Timers.t) :=
  (fun s => StateRecord.new s (Z.of_nat (length h))) <$> last h.

(** A record that some commit wrote, or the one a load of nothing makes up. *)
Definition known (h : list Timers.t) (record : StateRecord.t Timers.t) : Prop :=
  (StateRecord.revision record = 0 ∧ Timers.entries (StateRecord.state record) = ∅) ∨
  (∃ i, h !! i = Some (StateRecord.state record) ∧ StateRecord.revision record = Z.of_nat (S i)).

Definition cached (w : world) (self : Facade.t) : Prop :=
  persistence_id self = pid ∧ ∀ rec, record self = Some rec → known (committed w) rec.

Definition commit (w : world) (s : Timers.t) : world := World (committed w ++ [s]) (answers w).
Definition answer_ (w : world) (c : command) (r : reply) : world := World (committed w) (answers w ++ [(c, r)]).

(** Whatever the others commit and have answered before each answer, the program keeps to
    legal writes and ends in [Q]. *)
Fixpoint wp {A} (p : prog A) (Q : world → A → Prop) (w : world) : Prop :=
  match p with
  | Done a => ∀ w', later w w' → Q w' a
  | Load pid' k => pid' = pid ∧ ∀ w' r, later w w' → (∀ o, r = Ok o → o = current (committed w')) → wp (k r) Q w'
  | CompareAndSet pid' revision next k =>
      pid' = pid ∧ ∀ w', later w w' →
        (∀ e, wp (k (Err e)) Q w') ∧
        (revision = Z.of_nat (length (committed w')) → revision < u64_max →
         legal_write (answers w') (entries_at (committed w') (length (committed w'))) (Timers.entries next) ∧
         wp (k (Ok (StateRecord.new next (Revision_next revision)))) Q (commit w' next))
  | Deliver c k => ∀ w' r, later w w' → wp (k r) Q (answer_ w' c r)
  end.

Definition stable (P : world → Prop) : Prop := ∀ w w', later w w' → P w → P w'.

(** A method run from a valid cache in [P] keeps the cache valid and returns [a] only in [Q a]. *)
Definition spec {E A} (P : world → Prop) (m : method command reply E A) (Q : A → world → Prop) : Prop :=
  ∀ w self, legal w → cached w self → P w →
    wp (m self) (fun w' '(self', r) => cached w' self' ∧ ∀ a, r = Ok a → Q a w') w.

(** ** Worlds *)

Lemma world_refl w : legal w → later w w.
Proof. intros. by split_and!. Qed.

Lemma world_trans w1 w2 w3 : later w1 w2 → later w2 w3 → later w1 w3.
Proof. unfold later. intros (? & ? & _) (? & ? & ?). split_and!; [by etrans..|done]. Qed.

Lemma later_legal w w' : later w w' → legal w'.
Proof. by intros (_ & _ & ?). Qed.

Lemma answered_mono log log' e status : log `prefix_of` log' → answered log e status → answered log' e status.
Proof.
  intros [l ->] (op & o & r & Hr & Hin & He). exists op, o, r. split_and!; [done| |done].
  apply elem_of_app. by left.
Qed.

Lemma retired_mono log log' e status : log `prefix_of` log' → retired log e status → retired log' e status.
Proof.
  intros Hlog. destruct status; simpl; [done| | |done];
    intros (d & Hd & ?); exists d; split; [by eapply answered_mono|done|by eapply answered_mono|done].
Qed.

Lemma legal_write_mono log log' b a : log `prefix_of` log' → legal_write log b a → legal_write log' b a.
Proof.
  intros Hlog Hw wake. specialize (Hw wake). unfold legal_entry in *.
  destruct (b !! wake) as [e|], (a !! wake) as [e'|]; try done.
  destruct Hw as [?|(? & st & at_ & ? & ?)]; [by left|right]. split; [done|].
  exists st, at_. split; [by eapply retired_mono|done].
Qed.

Lemma entries_at_prefix h h' i : h `prefix_of` h' → (i ≤ length h)%nat → entries_at h' i = entries_at h i.
Proof. intros [l ->]. destruct i as [|i]; [done|]. intros Hi. simpl. by rewrite lookup_app_l. Qed.

Lemma entries_at_app h s i : (i ≤ length h)%nat → entries_at (h ++ [s]) i = entries_at h i.
Proof. apply entries_at_prefix. by apply prefix_app_r. Qed.

Lemma entries_at_last h s : entries_at (h ++ [s]) (S (length h)) = Timers.entries s.
Proof. simpl. by rewrite lookup_app_r, Nat.sub_diag. Qed.

Lemma commit_later w s :
  legal w → legal_write (answers w) (entries_at (committed w) (length (committed w))) (Timers.entries s) →
  later w (commit w s).
Proof.
  intros Hw Hs. unfold later. split_and!; [by apply prefix_app_r|done|]. intros i Hi. cbn [commit committed answers] in *.
  rewrite length_app in Hi. simpl in Hi.
  rewrite entries_at_app by lia. destruct (decide (i = length (committed w))) as [-> |].
  - by rewrite entries_at_last.
  - rewrite entries_at_app by lia. apply Hw. lia.
Qed.

Lemma answer_later w c r : legal w → later w (answer_ w c r).
Proof.
  intros Hw. unfold later. split_and!; [done|by apply prefix_app_r|]. intros i Hi.
  eapply legal_write_mono; [|by apply Hw]. by apply prefix_app_r.
Qed.

Lemma known_mono h h' rec : h `prefix_of` h' → known h rec → known h' rec.
Proof. intros [l ->] [?|(i & Hi & ?)]; [by left|right]. exists i. split; [by apply lookup_app_l_Some|done]. Qed.

Lemma cached_mono w w' self : later w w' → cached w self → cached w' self.
Proof. intros (Hh & _) [? Hc]. split; [done|]. intros rec Hr. eapply known_mono; [done|]. by apply Hc. Qed.

(** A cache at the current revision is current. *)
Lemma known_current h rec : known h rec → StateRecord.revision rec = Z.of_nat (length h) →
  Timers.entries (StateRecord.state rec) = entries_at h (length h).
Proof.
  intros [[H0 ->]|(i & Hi & Hr)] Hl.
  - assert (h = []) as -> by (apply length_zero_iff_nil; lia). done.
  - assert (length h = S i) as -> by lia. simpl. by rewrite Hi.
Qed.

Lemma known_now h o now : o = current h → known h (default (StateRecord.missing (Timers.empty now)) o).
Proof.
  intros ->. unfold current. destruct (last h) as [s|] eqn:Hl; simpl; [right|by left].
  apply last_Some in Hl as [l ->]. rewrite length_app. simpl. exists (length l).
  rewrite lookup_app_r, Nat.sub_diag by done. split; [done|]. lia.
Qed.

(** ** Rules *)

Lemma wp_mono {A} (p : prog A) (Q Q' : world → A → Prop) w :
  (∀ w' a, later w w' → Q w' a → Q' w' a) → legal w → wp p Q w → wp p Q' w.
Proof.
  revert w. induction p as [a|pid' k IH|pid' rev next k IH|c k IH]; intros w HQ Hl; simpl.
  - auto.
  - intros [Hp H]. split; [done|]. intros w' r Hw Hr. apply IH; [|by eapply later_legal|by apply H].
    intros w'' a Hw'. apply HQ. by eapply world_trans.
  - intros [Hp H]. split; [done|]. intros w' Hw. destruct (H w' Hw) as [H1 H2]. split.
    + intros e. apply IH; [|by eapply later_legal|done]. intros w'' a Hw'. apply HQ. by eapply world_trans.
    + intros Hrev Hb. destruct (H2 Hrev Hb) as [Hlw H3]. split; [done|].
      assert (later w' (commit w' next)) as Hc by (apply commit_later; [by eapply later_legal|done]).
      apply IH; [|by eapply later_legal|done]. intros w'' a Hw'. apply HQ. by do 2 (eapply world_trans; [done|]).
  - intros H w' r Hw. pose proof (answer_later w' c r (later_legal _ _ Hw)) as Hc.
    apply IH; [|by eapply later_legal|by apply H]. intros w'' a Hw'. apply HQ. by do 2 (eapply world_trans; [done|]).
Qed.

Lemma wp_bind {A B} (p : prog A) (f : A → prog B) Q w :
  legal w → wp p (fun w' a => wp (f a) Q w') w → wp (program_bind p f) Q w.
Proof.
  revert w. induction p as [a|pid' k IH|pid' rev next k IH|c k IH]; intros w Hl; simpl.
  - intros H. apply H. by apply world_refl.
  - intros [Hp H]. split; [done|]. intros w' r Hw Hr. apply IH; [by eapply later_legal|by apply H].
  - intros [Hp H]. split; [done|]. intros w' Hw. destruct (H w' Hw) as [H1 H2]. split.
    + intros e. apply IH; [by eapply later_legal|done].
    + intros Hrev Hb. destruct (H2 Hrev Hb) as [Hlw H3]. split; [done|].
      apply IH; [|done]. eapply later_legal, commit_later; [by eapply later_legal|done].
  - intros H w' r Hw. apply IH; [|by apply H]. eapply later_legal, answer_later. by eapply later_legal.
Qed.

Lemma spec_bind {E A B} P (m : method command reply E A) Q (f : A → method command reply E B) Q' :
  spec P m Q → (∀ a, spec (Q a) (f a) Q') → spec P (bind m f) Q'.
Proof.
  intros Hm Hf w self Hl Hc HP. unfold bind. apply wp_bind; [done|].
  eapply wp_mono; [|done|by apply Hm]. intros w' [self' [a|e]] Hw [Hc' HQ]; simpl.
  - apply Hf; [by eapply later_legal|done|by apply HQ].
  - intros w'' Hw'. split; [by eapply cached_mono|done].
Qed.

Lemma spec_pure {E A} (P : world → Prop) (r : result E A) (Q : A → world → Prop) :
  stable P → (∀ a w, r = Ok a → P w → Q a w) → spec P (pure r) Q.
Proof.
  intros Hs HQ w self Hl Hc HP w' Hw. split; [by eapply cached_mono|]. intros a ->. apply HQ; [done|]. by eapply Hs.
Qed.

Lemma spec_mono {E A} (P P' : world → Prop) (m : method command reply E A) (Q Q' : A → world → Prop) :
  spec P' m Q' → (∀ w, P w → P' w) → (∀ a w, Q' a w → Q a w) → spec P m Q.
Proof.
  intros Hm HP HQ w self Hl Hc Hw. eapply wp_mono; [|done|apply Hm; auto].
  intros w' [self' r] _ [Hc' Hr]. split; [done|]. auto.
Qed.

Lemma stable_true : stable (fun _ => True).
Proof. by intros w w' _ _. Qed.

Lemma stable_known rec : stable (fun w => known (committed w) rec).
Proof. intros w w' (Hh & _). by apply known_mono. Qed.

Lemma stable_and P Q : stable P → stable Q → stable (fun w => P w ∧ Q w).
Proof. intros HP HQ w w' Hw []. split; [by eapply HP|by eapply HQ]. Qed.

#[local] Hint Resolve stable_true stable_known stable_and : core.

(** ** The operations of a facade *)

Lemma timers_recover_spec P now : stable P → spec P (recover now) (fun _ => P).
Proof.
  intros HP w self Hl [Hp Hc] HPw. split; [done|]. intros w' r Hw Hr. simpl.
  assert (cached w' self) as Hc' by (eapply cached_mono; [done|by split]).
  intros w'' Hw'. assert (P w'') as HP'' by (eapply HP, HPw; by eapply world_trans).
  destruct r as [o|e]; [|split; [by eapply cached_mono|done]].
  destruct (AgentSchemaPolicy.check _ _ _); [|split; [by eapply cached_mono|done]].
  split; [|done]. eapply cached_mono; [done|]. split; [done|]. intros rec [= <-]. by apply known_now, Hr.
Qed.

Lemma ensure_recovered_spec P now : stable P → spec P (ensure_recovered now) (fun _ => P).
Proof.
  intros HP w self Hl Hc HPw. unfold ensure_recovered. destruct (record self) as [rec|].
  - intros w' Hw. split; [by eapply cached_mono|]. intros. by eapply HP.
  - assert (spec P (bind (recover now) (fun _ => pure (Ok tt))) (fun _ => P)) as Hs; [|by apply Hs].
    eapply spec_bind; [by apply timers_recover_spec|]. intros a. by apply spec_pure.
Qed.

Lemma current_record_spec P :
  stable P → spec P current_record (fun rec w => known (committed w) rec ∧ P w).
Proof.
  intros HP w self Hl Hc HPw w' Hw. pose proof (cached_mono _ _ _ Hw Hc) as [Hp Hk].
  split; [by eapply cached_mono|]. intros rec Hr. destruct (record self) as [rec'|] eqn:Hrec; [|done].
  injection Hr as <-. split; [by apply Hk|by eapply HP].
Qed.

Lemma state_spec P : stable P →
  spec P state (fun s w => (∃ rec, StateRecord.state rec = s ∧ known (committed w) rec) ∧ P w).
Proof.
  intros HP w self Hl Hc HPw w' Hw. pose proof (cached_mono _ _ _ Hw Hc) as [Hp Hk].
  split; [by eapply cached_mono|]. intros s Hr. destruct (record self) as [rec|] eqn:Hrec; [|done].
  injection Hr as <-. split; [|by eapply HP]. exists rec. auto.
Qed.

(** A write computed from a known record need only be a legal change of that record. *)
Lemma persist_spec P rec next : stable P →
  (∀ w, legal w → P w → known (committed w) rec →
     legal_write (answers w) (Timers.entries (StateRecord.state rec)) (Timers.entries next)) →
  spec (fun w => known (committed w) rec ∧ P w) (persist (StateRecord.revision rec) next)
    (fun rec' w => P w ∧ known (committed w) rec' ∧ StateRecord.state rec' = next).
Proof.
  intros HP Hlw w self Hl [Hp Hc] [Hk HPw]. split; [done|]. intros w' Hw.
  assert (cached w' self) as Hc' by (eapply cached_mono; [done|by split]).
  assert (P w') as HP' by by eapply HP. split.
  - intros e w'' Hw'. pose proof (cached_mono _ _ _ Hw' Hc') as [Hp'' Hc''].
    split; [|done]. destruct e; by split.
  - intros Hrev Hb. pose proof (later_legal _ _ Hw) as Hl'.
    pose proof (stable_known rec _ _ Hw Hk) as Hk'. specialize (Hlw _ Hl' HP' Hk').
    rewrite (known_current _ _ Hk' Hrev) in Hlw. split; [done|]. simpl.
    pose proof (commit_later _ _ Hl' Hlw) as Hcl.
    assert (known (committed (commit w' next)) (StateRecord.new next (Revision_next (StateRecord.revision rec)))) as Hn.
    { right. exists (length (committed w')). simpl. rewrite lookup_app_r, Nat.sub_diag by done. split; [done|].
      unfold Revision_next. rewrite add_u64_small; lia. }
    intros w'' Hw''. pose proof (stable_known _ _ _ Hw'' Hn) as Hn''. split.
    + split; [done|]. by intros r [= <-].
    + intros r [= <-]. split_and!; [eapply HP, HP'; by eapply world_trans|done|done].
Qed.

(** An attempt leaves [P], and what it found when it did not lose its race. *)
Definition attempted {A} (P : world → Prop) (Q : A → world → Prop) (r : A + TimerErr.t) (w : world) : Prop :=
  P w ∧ match r with inl a => Q a w | inr _ => True end.

Lemma write_spec {B} P rec next (won : StateRecord.t Timers.t → B) : stable P →
  (∀ w, legal w → P w → known (committed w) rec →
     legal_write (answers w) (Timers.entries (StateRecord.state rec)) (Timers.entries next)) →
  spec (fun w => known (committed w) rec ∧ P w) (race (persist (StateRecord.revision rec) next) won)
    (attempted P (fun b w => ∃ rec', b = won rec' ∧ known (committed w) rec' ∧ StateRecord.state rec' = next)).
Proof.
  intros HP Hlw w self Hl Hc [Hk HPw]. apply wp_bind; [done|].
  eapply wp_mono; [|done|by apply (persist_spec P rec next HP Hlw)].
  intros w' [self' r] Hw [Hc' Hr] w'' Hw'. split; [by eapply cached_mono|].
  intros x Hx. split; [eapply HP, HPw; by eapply world_trans|].
  destruct r as [rec'|e]; [|by destruct e as [| | |[]]; simplify_eq].
  injection Hx as <-. destruct (Hr rec' eq_refl) as (_ & Hn & <-). exists rec'.
  split_and!; [done| |done]. by eapply stable_known.
Qed.

Lemma attempts_spec {A} P Q (attempt : method command reply TimerErr.t (A + TimerErr.t)) more :
  stable P → (∀ a, stable (Q a)) → spec P attempt (attempted P Q) → spec P (attempts attempt more) Q.
Proof.
  intros HP HQ Ha. induction more as [|more IH]; simpl; (eapply spec_bind; [exact Ha|]); intros [a|e].
  1,3: apply spec_pure; [apply stable_and; auto|]; by intros x w [= ->] [].
  - apply spec_pure; [apply stable_and; auto|done].
  - eapply spec_mono; [exact IH|by intros w []|done].
Qed.

(** ** The life of an entry *)

Lemma legal_entry_refl log wake o : (∀ e, o = Some e → Entry.wake_id e = wake) → legal_entry log wake o o.
Proof. destruct o as [e|]; simpl; auto. Qed.

Lemma entries_keyed w i k e : legal w → (i ≤ length (committed w))%nat →
  entries_at (committed w) i !! k = Some e → Entry.wake_id e = k.
Proof.
  intros Hl. revert e. induction i as [|i IH]; intros e Hi He; [done|].
  specialize (Hl i ltac:(lia) k). rewrite He in Hl. unfold legal_entry in Hl.
  destruct (entries_at (committed w) i !! k) as [e0|]; [|by destruct Hl].
  pose proof (IH e0 ltac:(lia) eq_refl) as H0.
  by destruct Hl as [-> |(_ & st & at_ & _ & ->)].
Qed.

(** From one commit to any later one. *)
Lemma legal_forward w i j k e : legal w → (i ≤ j ≤ length (committed w))%nat →
  entries_at (committed w) i !! k = Some e →
  may_prune ∨ ∃ e', entries_at (committed w) j !! k = Some e' ∧ legal_entry (answers w) k (Some e) (Some e').
Proof.
  intros Hl [Hij Hj] He. induction Hij as [|j Hij IH]; [right; exists e; split; [done|by left]|].
  destruct (IH ltac:(lia)) as [?|(e1 & He1 & Hs1)]; [by left|].
  specialize (Hl j ltac:(lia) k). rewrite He1 in Hl.
  destruct (entries_at (committed w) (S j) !! k) as [e2|]; [right|left; by destruct Hl].
  exists e2. split; [done|]. unfold legal_entry in *.
  destruct Hs1 as [-> |(Hp & st & at_ & Hr & ->)]; [done|].
  destruct Hl as [-> |(Hp' & _)]; [right; eauto|]. by destruct st.
Qed.

Lemma legal_entry_same log k e e' : legal_entry log k (Some e) (Some e') →
  Entry.binding e' = Entry.binding e ∧ Entry.task e' = Entry.task e.
Proof. by intros [-> |(_ & st & at_ & _ & ->)]. Qed.

Lemma legal_same w i j k e e' : legal w →
  (i ≤ length (committed w))%nat → (j ≤ length (committed w))%nat →
  entries_at (committed w) i !! k = Some e → entries_at (committed w) j !! k = Some e' →
  may_prune ∨ Entry.binding e = Entry.binding e' ∧ Entry.task e = Entry.task e'.
Proof.
  intros Hl Hi Hj He He'. destruct (Nat.le_ge_cases i j) as [Hij|Hij].
  - destruct (legal_forward w i j k e Hl ltac:(lia) He) as [?|(x & Hx & Hs%legal_entry_same)]; [by left|right].
    rewrite He' in Hx. injection Hx as <-. by destruct Hs.
  - destruct (legal_forward w j i k e' Hl ltac:(lia) He') as [?|(x & Hx & Hs%legal_entry_same)]; [by left|right].
    rewrite He in Hx. injection Hx as <-. by destruct Hs.
Qed.

Lemma known_at h rec : known h rec →
  ∃ i, (i ≤ length h)%nat ∧ Timers.entries (StateRecord.state rec) = entries_at h i.
Proof.
  intros [[_ ->]|(i & Hi & _)]; [exists 0%nat; split; [lia|done]|].
  exists (S i). split; [by apply lookup_lt_Some in Hi|]. simpl. by rewrite Hi.
Qed.

(** An entry some commit held. *)
Definition parked (w : world) (d : Entry.t) : Prop :=
  ∃ i, (i ≤ length (committed w))%nat ∧ entries_at (committed w) i !! Entry.wake_id d = Some d.

Lemma stable_parked d : stable (fun w => parked w d).
Proof.
  intros w w' (Hh & _) (i & Hi & He). exists i. rewrite (entries_at_prefix _ _ _ Hh Hi). split; [|done].
  apply prefix_length in Hh. lia.
Qed.

Lemma stable_answered d status : stable (fun w => answered (answers w) d status).
Proof. intros w w' (_ & Ha & _). by apply answered_mono. Qed.

(** An answer to a parked entry retires whatever the wake's entry is. *)
Lemma answered_retires w d status e i : legal w → parked w d → answered (answers w) d status →
  (i ≤ length (committed w))%nat → entries_at (committed w) i !! Entry.wake_id d = Some e →
  retired (answers w) e status.
Proof.
  intros Hl (j & Hj & Hd) Ha Hi He.
  assert (status = TimerStatus.Fired ∨ status = TimerStatus.Fenced) as Hst.
  { destruct Ha as (op & o & r & _ & _ & <-). destruct (disposition_of d o); simpl; auto. }
  pose proof (legal_same w j i _ d e Hl Hj Hi Hd He) as Hs.
  pose proof (entries_keyed w i _ e Hl Hi He) as Hk.
  destruct Hst as [-> | ->]; simpl; exists d; auto.
Qed.

(** ** Calls *)

Lemma same_identity_refl b : Binding.same_identity b b = true.
Proof. unfold Binding.same_identity. by rewrite !bool_decide_eq_true_2. Qed.

Lemma put_legal log s wake e updated :
  (∀ k x, Timers.entries s !! k = Some x → Entry.wake_id x = k) →
  legal_entry log wake (Timers.entries s !! wake) (Some e) →
  legal_write log (Timers.entries s) (Timers.entries (Timers.put s wake e updated)).
Proof.
  intros Hk He k. simpl. destruct (decide (wake = k)) as [<- |Hne].
  - by rewrite lookup_insert_eq.
  - rewrite lookup_insert_ne by done. apply legal_entry_refl. by apply Hk.
Qed.

Lemma known_keyed w rec k x : legal w → known (committed w) rec →
  Timers.entries (StateRecord.state rec) !! k = Some x → Entry.wake_id x = k.
Proof. intros Hl (i & Hi & ->)%known_at. by apply entries_keyed. Qed.

(** Some commit holds the occurrence of [entry] for its task. *)
Definition holds_occurrence (entry : Entry.t) (w : world) : Prop :=
  ∃ e, parked w e ∧ Entry.wake_id e = Entry.wake_id entry ∧ Entry.task e = Entry.task entry ∧
    Binding.same_identity (Entry.binding e) (Entry.binding entry) = true.

Lemma stable_holds entry : stable (holds_occurrence entry).
Proof. intros w w' Hw (e & He & ?). exists e. split; [by eapply stable_parked|done]. Qed.

Lemma known_parked w rec e : legal w → known (committed w) rec →
  Timers.entries (StateRecord.state rec) !! Entry.wake_id e = Some e → parked w e.
Proof. intros Hl (i & Hi & ->)%known_at He. by exists i. Qed.

(** Scheduling returns only once the record holds the occurrence. *)
Lemma schedule_spec binding task now : permits (CallSchedule binding task now) →
  spec (fun _ => True) (schedule_occurrence (Entry.new binding task now))
    (fun _ => holds_occurrence (Entry.new binding task now)).
Proof.
  intros Hp. set (entry := Entry.new binding task now).
  apply (attempts_spec (fun _ => True)); [done|intros; apply stable_holds|]. unfold schedule_attempt.
  eapply spec_bind; [by apply ensure_recovered_spec|]. intros ?.
  eapply spec_bind; [by apply current_record_spec|]. intros rec. simpl.
  change (Entry.wake_id _) with (Entry.wake_id entry).
  destruct (Timers.entries (StateRecord.state rec) !! Entry.wake_id entry) as [x|] eqn:Hx.
  - destruct (Binding.same_identity _ _ && _) eqn:Hsame; [|apply spec_pure; auto; done].
    apply andb_true_iff in Hsame as [Hid Ht%bool_decide_eq_true].
    intros w self Hl Hc [Hk _] w' Hw. split; [by eapply cached_mono|]. intros r [= <-]. split; [done|].
    pose proof (known_keyed w rec _ _ Hl Hk Hx) as Hkx. eapply stable_holds; [done|]. exists x.
    split_and!; [|done..]. eapply known_parked; [done..|]. by rewrite Hkx.
  - eapply spec_mono; [apply (write_spec (fun _ => True)); [done|]|done|].
    + intros w Hl _ Hk. apply put_legal; [intros k y; by apply (known_keyed w)|]. rewrite Hx.
      split; [done|]. by exists binding, task, now.
    + intros [b|e] w [_ Hb]; split; try done. destruct Hb as (rec' & _ & Hk & Hs).
      exists entry. split_and!; [|done..|by rewrite same_identity_refl].
      destruct (known_at _ _ Hk) as (i & Hi & Hei). exists i. rewrite <-Hei, Hs. simpl. by rewrite lookup_insert_eq.
Qed.

Lemma update_spec P wake status at_ : stable P →
  (∀ w i e, legal w → P w → (i ≤ length (committed w))%nat → entries_at (committed w) i !! wake = Some e →
     retired (answers w) e status) →
  spec P (update_entry wake (settle status at_)) (fun _ => P).
Proof.
  intros HP Hr. apply (attempts_spec P); [done..|]. unfold update_attempt.
  eapply spec_bind; [by apply ensure_recovered_spec|]. intros ?.
  eapply spec_bind; [by apply current_record_spec|]. intros rec. simpl.
  destruct (Timers.entries (StateRecord.state rec) !! wake) as [e|] eqn:He; [|apply spec_pure; auto; done].
  case_bool_decide as Hu; [apply spec_pure; [auto|by intros ? w [= <-] []]|].
  assert (Entry.status e = TimerStatus.Pending ∧ settle status at_ e = Entry.with_status e status at_) as [Hpe Hse].
  { unfold settle in *. by destruct (Entry.status e). }
  rewrite Hse. eapply spec_mono; [apply write_spec; [exact HP|]|done|by intros [] w []].
  intros w Hl HPw Hk. apply put_legal; [intros k y; by apply (known_keyed w)|]. rewrite He.
  right. split; [done|]. exists status, at_. split; [|done].
  destruct (known_at _ _ Hk) as (i & Hi & Hei). rewrite Hei in He. by eapply Hr.
Qed.

Lemma prune_spec before : permits (CallPrune before) →
  spec (fun _ => True) (prune_terminal before) (fun _ _ => True).
Proof.
  intros Hp. unfold prune_terminal.
  eapply spec_bind; [by apply ensure_recovered_spec|]. intros ?.
  eapply spec_bind; [by apply current_record_spec|]. intros rec. simpl.
  destruct (Nat.eqb _ 0); [by apply spec_pure; auto|].
  eapply (spec_bind _ _ (fun _ _ => True)); [|intros ?; by apply (spec_pure (fun _ => True))].
  eapply spec_mono; [apply (persist_spec (fun _ => True)); [done|]|done|done]. intros w Hl _ Hk k. simpl.
  rewrite map_lookup_filter. destruct (Timers.entries (StateRecord.state rec) !! k) as [e|] eqn:He; [|done]. simpl.
  case_guard as Hg; simpl; [by left|]. split; [by exists before|].
  unfold Timers.prunable in Hg. by destruct (TimerStatus.is_terminal _).
Qed.

(** ** Scanning *)

Lemma on_timers_spec {A} P (m : method command reply TimerErr.t A) Q : spec P m Q →
  (∀ a, stable (Q a)) → spec P (on_timers m) Q.
Proof.
  intros Hm HQ w self Hl Hc HP. apply wp_bind; [done|]. eapply wp_mono; [|done|by apply Hm].
  intros w' [self' r] Hw [Hc' Hr] w'' Hw'. split; [by eapply cached_mono|].
  intros a Ha. destruct r as [a'|e]; [|done]. injection Ha as ->. eapply HQ; eauto.
Qed.

Definition all_parked (due : list Entry.t) (w : world) : Prop := ∀ e, e ∈ due → parked w e.

Lemma stable_all_parked due : stable (all_parked due).
Proof. intros w w' Hw Hd e He. eapply stable_parked; [done|]. by apply Hd. Qed.

Lemma due_entries_spec now limit :
  spec (fun _ => True) (due_entries now limit) (fun due w => all_parked due w).
Proof.
  unfold due_entries. eapply spec_bind; [by apply ensure_recovered_spec|]. intros ?.
  eapply spec_bind; [by apply state_spec|]. intros s.
  intros w self Hl Hc [(rec & Hs & Hk) _] w' Hw. split; [by eapply cached_mono|]. intros due [= <-].
  eapply stable_all_parked; [done|]. intros e He.
  apply elem_of_take in He as (n & Hn & _). apply list_elem_of_lookup_2 in Hn.
  rewrite merge_sort_Permutation in Hn. apply list_elem_of_filter in Hn as [_ Hn].
  apply elem_of_btree_values in Hn as [k Hek]. subst s.
  pose proof (known_keyed _ _ _ _ Hl Hk Hek) as <-.
  destruct (known_at _ _ Hk) as (i & Hi & Hei). exists i. by rewrite <-Hei.
Qed.

Lemma due_entry_count_spec now : spec (fun _ => True) (due_entry_count now) (fun _ _ => True).
Proof.
  unfold due_entry_count. eapply spec_bind; [by apply ensure_recovered_spec|]. intros ?.
  eapply spec_bind; [by apply state_spec|]. intros s. apply (spec_mono _ (fun _ => True) _ _ (fun _ _ => True)); [|done..].
  by apply spec_pure.
Qed.

Lemma deliver_spec P scope command : stable P →
  spec P (deliver scope command) (fun r w => ((scope, command), r) ∈ answers w ∧ P w).
Proof.
  intros HP w self Hl Hc HPw w' r Hw. pose proof (answer_later w' (scope, command) r (later_legal _ _ Hw)) as Ha.
  intros w'' Hw''. split; [do 2 (eapply cached_mono; [done|]); by eapply cached_mono|].
  intros a [= <-]. split; [|eapply HP, HPw; by do 2 (eapply world_trans; [done|])].
  destruct Hw'' as (_ & [l Hl''] & _). rewrite Hl''. simpl. set_solver.
Qed.

Lemma stable_delivered d s : stable (fun w => parked w d ∧ answered (answers w) d s).
Proof. apply stable_and; [apply stable_parked|apply stable_answered]. Qed.

Lemma conclude_spec P entry now outcome redelivery : stable P →
  (∀ w, P w → parked w entry ∧ answered (answers w) entry (earned (disposition_of entry outcome))) →
  spec P (conclude entry now outcome redelivery) (fun _ => P).
Proof.
  intros HP Ha. unfold conclude. eapply (spec_bind _ _ (fun _ => P)); [|intros ?; by apply spec_pure].
  apply on_timers_spec; [|done].
  assert (∀ status, status = earned (disposition_of entry outcome) →
    spec P (update_entry (Entry.wake_id entry) (settle status now)) (fun _ => P)) as Hu.
  { intros status ->. apply update_spec; [done|]. intros w i e Hl HPw Hi He.
    destruct (Ha w HPw). by eapply answered_retires. }
  unfold mark_fired, mark_fenced. destruct (disposition_of entry outcome); by apply Hu.
Qed.

Lemma deliver_entry_spec P entry now : stable P → (∀ w, P w → parked w entry) →
  spec P (deliver_entry entry now) (fun _ => P).
Proof.
  intros HP Hpk. unfold deliver_entry, AgentTaskScope.new, wake_admission_command.
  eapply (spec_bind _ _ (fun scope w => scope = scope_of entry ∧ P w)).
  { apply spec_pure; [done|]. intros scope w Hs HPw. destruct (validate_tenant _); simplify_eq/=. done. }
  intros scope. eapply (spec_bind _ _ (fun c w =>
    ∃ op, c = Command.AdmitWake op (Entry.binding entry) ∧ scope = scope_of entry ∧ P w)).
  { apply spec_pure; [intros w w' Hw []; split; [done|by eapply HP]|]. intros c w Hs [-> HPw].
    destruct (Binding.admission_operation_id _) as [op|]; simplify_eq/=. by exists op. }
  intros c. eapply spec_bind; [apply deliver_spec|].
  { intros w w' Hw (op & ? & ? & ?). exists op. split_and!; [done..|by eapply HP]. }
  intros r. match goal with |- spec ?X _ _ => set (P' := X) end.
  assert (stable P') as HP'.
  { intros w w' Hw [Hin (op & ? & ? & ?)]. split; [|exists op; split_and!; [done..|by eapply HP]].
    destruct Hw as (_ & [l ->] & _). apply elem_of_app. by left. }
  assert (∀ w, P' w → P w) as HPP by (by intros w (_ & op & _ & _ & ?)).
  destruct r as [[o|o|sn|pr|code msg]|e].
  1,2: eapply spec_mono; [apply (conclude_spec P')|done|by intros ? w ?%HPP]; [done|].
  1,2: intros w HPw; split; [by apply Hpk, HPP|]; destruct HPw as (Hin & op & -> & -> & _).
  1,2: exists op, o; eexists; split; [by (left + right)|done].
  all: apply spec_pure; [done|]; intros ? w _; apply HPP.
Qed.

Lemma deliver_due_spec due now blocked : spec (all_parked due) (deliver_due due now blocked) (fun _ _ => True).
Proof.
  revert blocked. induction due as [|entry due IH]; intros blocked; simpl.
  { apply spec_pure; [apply stable_all_parked|done]. }
  assert (∀ w, all_parked (entry :: due) w → all_parked due w) as Htl by (intros w Hw e ?; apply Hw; by right).
  destruct (blocked !! task_key entry) as [by_|].
  - eapply spec_bind; [eapply spec_mono; [apply IH|apply Htl|done]|]. intros ?. by apply spec_pure.
  - eapply spec_bind; [apply (deliver_entry_spec (all_parked (entry :: due)));
      [apply stable_all_parked|intros w Hw; apply Hw; by left]|].
    intros o. simpl. eapply spec_bind; [eapply spec_mono; [apply IH|apply Htl|done]|]. intros ?. by apply spec_pure.
Qed.

Lemma scan_spec settings now : spec (fun _ => True) (scan_due settings now) (fun _ _ => True).
Proof.
  unfold scan_due. eapply spec_bind; [apply on_timers_spec; [apply due_entry_count_spec|done]|]. intros ?.
  eapply spec_bind; [apply on_timers_spec; [apply due_entries_spec|intros ?; apply stable_all_parked]|]. intros due.
  eapply spec_bind; [apply deliver_due_spec|]. intros ?. by apply spec_pure.
Qed.
End Runs.
