(* ===== verification/WakeTimerProps.v ===== *)
(** * Properties of the wake timers and their scanner

    Runs of any number of processes over one lawful store, and single passes of a scanner. *)

From stdpp Require Import relations sorting.
From S2P Require Import Prelude Persistence DurableState AgentIdentity AgentSchema Budget Delegation Exchange.
From S2P Require Import WakeCalendar Wake WakeController WakeTask WakeTimers WakeScanner WakeTimerRuns.
Import AgentWakeTimerStore AgentWakeScanner.

(** ** Processes over one store *)

Section System.
Context {St Snap : Type} (ops : DurableStateStore St Timers.t).
Context (view : St → PersistenceId.t → option (StateRecord.t Timers.t)) `{!DurableStoreLaws ops view}.
Context (pid : PersistenceId.t) (permits : timer_call → Prop).

Abbreviation command := (AgentTaskScope.t * Command.t)%type.
Abbreviation reply := (result AgentExchangeDeliveryError.t (Reply.t Snap)).
Abbreviation prog := (program Timers.t command reply).

Definition finish {A} (p : prog (Facade.t * A)) : prog Facade.t := program_bind p (fun '(self, _) => Done self).

Definition begin_call (call : timer_call) (self : Facade.t) : prog Facade.t :=
  match call with
  | CallRecover now => finish (recover now self)
  | CallSchedule binding task created_at => finish (schedule_occurrence (Entry.new binding task created_at) self)
  | CallCancel wake cancelled_at => finish (cancel wake cancelled_at self)
  | CallPrune before => finish (prune_terminal before self)
  | CallScan settings now => finish (scan_due settings now self)
  end.

(** The store, what each process has left to do, and what has happened. *)
Record system := System { store : St; processes : list (prog Facade.t); past : world (Snap := Snap) }.

Definition fresh_facade (self : Facade.t) : Prop := persistence_id self = pid ∧ record self = None.

(** [DiesInside] stops a process wherever it is; it comes back with a fresh facade. *)
Inductive sys_step : system → system → Prop :=
| Joins st ps w self : fresh_facade self → sys_step (System st ps w) (System st (ps ++ [Done self]) w)
| DiesInside st ps w i p self : ps !! i = Some p → fresh_facade self →
    sys_step (System st ps w) (System st (<[i := Done self]> ps) w)
| Begins st ps w i self call : ps !! i = Some (Done self) → permits call →
    sys_step (System st ps w) (System st (<[i := begin_call call self]> ps) w)
| Loads st ps w i pid' k st' r : ps !! i = Some (Load pid' k) → load ops st pid' = (st', r) →
    sys_step (System st ps w) (System st' (<[i := k r]> ps) w)
| Writes st ps w i pid' revision next k st' rec : ps !! i = Some (CompareAndSet pid' revision next k) →
    compare_and_set ops st pid' revision next = (st', Ok rec) →
    sys_step (System st ps w) (System st' (<[i := k (Ok rec)]> ps) (commit w next))
| Refuses st ps w i pid' revision next k st' e : ps !! i = Some (CompareAndSet pid' revision next k) →
    compare_and_set ops st pid' revision next = (st', Err e) →
    sys_step (System st ps w) (System st' (<[i := k (Err e)]> ps) w)
| Answers st ps w i c k r : ps !! i = Some (Deliver c k) →
    sys_step (System st ps w) (System st (<[i := k r]> ps) (answer_ w c r)).

Definition initial (s : system) : Prop :=
  view (store s) pid = None ∧ processes s = [] ∧ past s = World [] [].

Definition ends_cached : world (Snap := Snap) → Facade.t → Prop := cached pid.

Definition system_ok (s : system) : Prop :=
  view (store s) pid = current (committed (past s)) ∧ legal permits (past s) ∧
  ∀ p, p ∈ processes s → wp pid permits p ends_cached (past s).

Lemma wp_later {A} (p : prog A) Q w w' : wp pid permits p Q w → later permits w w' → wp pid permits p Q w'.
Proof.
  intros Hp Hw. destruct p; simpl in *.
  - intros w'' ?. apply Hp. by eapply world_trans.
  - destruct Hp as [Hpid Hp]. split; [done|]. intros. apply Hp; [by eapply world_trans|done].
  - destruct Hp as [Hpid Hp]. split; [done|]. intros. apply Hp. by eapply world_trans.
  - intros. apply Hp. by eapply world_trans.
Qed.

Lemma finish_ok {E A} (m : method command reply E A) Q w self :
  spec pid permits (fun _ => True) m Q → legal permits w → cached pid w self →
  wp pid permits (finish (m self)) ends_cached w.
Proof.
  intros Hm Hl Hc. apply wp_bind; [done|]. eapply wp_mono; [|done|by apply Hm].
  intros w' [self' r] _ [Hc' _] w'' Hw''. by eapply cached_mono.
Qed.

Lemma begin_ok call w self : permits call → legal permits w → cached pid w self →
  wp pid permits (begin_call call self) ends_cached w.
Proof.
  intros Hp Hl Hc. destruct call; cbn [begin_call].
  - eapply finish_ok; [by apply (timers_recover_spec pid permits (fun _ => True))|done..].
  - eapply finish_ok; [by apply schedule_spec|done..].
  - eapply finish_ok; [apply (update_spec pid permits (fun _ => True))|done..]; [done|].
    intros w' i e Hl' _ Hi He. simpl. rewrite (entries_keyed _ _ _ _ _ Hl' Hi He). by eexists.
  - eapply finish_ok; [by apply prune_spec|done..].
  - eapply finish_ok; [by apply scan_spec|done..].
Qed.

Lemma fresh_ok w self : fresh_facade self → wp pid permits (Done self) ends_cached w.
Proof. intros [Hp Hr] w' _. split; [done|]. intros rec. by rewrite Hr. Qed.

Lemma record_revision_current h : record_revision (current h) = Z.of_nat (length h).
Proof.
  unfold current. destruct (last h) eqn:Hl; simpl; [done|]. apply last_None in Hl as ->. done.
Qed.

(** A process takes a step of its own while the past moves from [w] to [w']. *)
Lemma processes_ok (ps : list (prog Facade.t)) i p w w' : (∀ q, q ∈ ps → wp pid permits q ends_cached w) → later permits w w' →
  wp pid permits p ends_cached w' → ∀ q, q ∈ <[i := p]> ps → wp pid permits q ends_cached w'.
Proof.
  intros Hps Hw Hp q Hq. apply list_elem_of_lookup in Hq as [j Hj].
  apply list_lookup_insert_Some in Hj as [(-> & -> & _)|(_ & Hj)]; [done|].
  eapply wp_later; [|done]. by eapply Hps, list_elem_of_lookup_2.
Qed.

Lemma step_ok s s' : sys_step s s' → Z.of_nat (length (committed (past s'))) <= u64_max →
  system_ok s → system_ok s'.
Proof.
  intros Hstep Hb (Hv & Hl & Hps). pose proof (world_refl permits _ Hl) as Hrefl.
  destruct Hstep as [st ps w self Hf|st ps w i p self Hi Hf|st ps w i self call Hi Hc|st ps w i pid' k st' r Hi Hr
    |st ps w i pid' rev next k st' rec Hi Hr|st ps w i pid' rev next k st' e Hi Hr|st ps w i c k r Hi]; simpl in *.
  1: { split_and!; [done..|]. intros p [?| ->%list_elem_of_singleton]%elem_of_app; [by apply Hps|by apply fresh_ok]. }
  all: pose proof (Hps _ (list_elem_of_lookup_2 _ _ _ Hi)) as Hp; simpl in Hp.
  - split_and!; [done..|]. eapply processes_ok; [done..|]. by apply fresh_ok.
  - split_and!; [done..|]. eapply processes_ok; [done..|]. apply begin_ok; [done..|]. by apply Hp.
  - destruct Hp as [-> Hp]. destruct (law_load _ _ _ _ Hr) as [Hv' Hok].
    split_and!; [simpl; by rewrite Hv'|done|]. eapply processes_ok; [done..|]. apply Hp; [done|].
    intros o Ho. by rewrite (Hok o Ho).
  - destruct Hp as [-> Hp]. apply law_cas_ok in Hr as (Hrev & -> & Hv' & _).
    rewrite Hv, record_revision_current in Hrev. rewrite length_app in Hb. simpl in Hb.
    destruct (Hp w Hrefl) as [_ Hw]. destruct (Hw (eq_sym Hrev) ltac:(lia)) as [Hlw Hk].
    pose proof (commit_later permits _ _ Hl Hlw) as Hcl. split_and!; [|by eapply later_legal|by eapply processes_ok].
    simpl. rewrite Hv'. unfold current. rewrite last_snoc, length_app. simpl. do 2 f_equal.
    unfold Revision_next. rewrite add_u64_small; lia.
  - destruct Hp as [-> Hp]. pose proof (law_cas_err _ _ _ _ _ _ Hr) as Hv'.
    split_and!; [simpl; by rewrite Hv'|done|]. eapply processes_ok; [done..|]. by apply Hp.
  - pose proof (answer_later permits w c r Hl) as Ha.
    split_and!; [done|by eapply later_legal|]. eapply processes_ok; [done..|]. by apply Hp.
Qed.

Lemma step_committed s s' : sys_step s s' → (length (committed (past s)) ≤ length (committed (past s')))%nat.
Proof. destruct 1; simpl; rewrite ?length_app; lia. Qed.

Lemma run_ok s0 s : initial s0 → rtc sys_step s0 s → Z.of_nat (length (committed (past s))) <= u64_max → system_ok s.
Proof.
  intros H0. revert s. refine (rtc_ind_r _ _ _ _).
  - intros _. destruct H0 as (Hv & Hp & Hw). unfold system_ok. rewrite Hp, Hw.
    split_and!; [done|intros i Hi; simpl in Hi; lia|]. intros p Hp'. by apply not_elem_of_nil in Hp'.
  - intros s1 s2 _ Hstep IH Hb. eapply step_ok; [done..|]. apply IH. apply step_committed in Hstep. lia.
Qed.

(** Every entry was scheduled by a call. *)
Lemma entry_scheduled (w : world (Snap := Snap)) i wake e : legal permits w → (i ≤ length (committed w))%nat →
  entries_at (committed w) i !! wake = Some e →
  ∃ now, permits (CallSchedule (Entry.binding e) (Entry.task e) now) ∧ Entry.created_at e = now.
Proof.
  intros Hl. revert e. induction i as [|i IH]; intros e Hi He; [done|].
  specialize (Hl i ltac:(lia) wake). rewrite He in Hl. unfold legal_entry in Hl.
  destruct (entries_at (committed w) i !! wake) as [e0|].
  - destruct (IH e0 ltac:(lia) eq_refl) as (now & Hp & Hn).
    destruct Hl as [-> |(_ & st & at_ & _ & ->)]; by exists now.
  - destruct Hl as (_ & b & t & now & Hp & ->). by exists now.
Qed.

Lemma answered_same log (d e : Entry.t) status : Entry.binding d = Entry.binding e → Entry.task d = Entry.task e →
  answered (Snap := Snap) log d status → answered log e status.
Proof.
  intros Hb Ht (op & o & r & Hr & Hin & He). exists op, o, r. unfold scope_of, disposition_of, Entry.wake_id in *.
  by rewrite <-Hb, <-Ht.
Qed.

(** C31. No parked occurrence is lost, made up or retired unanswered.  Take any number of
    processes that schedule, cancel and scan over one lawful store, each step one answer of the
    store or of a delivery, any of them failing at any step and starting again.  The store then
    holds the last state committed; every entry of every committed state was scheduled by a
    call; and what a state holds for a wake, every later one holds with the same occurrence and
    task: the same entry, or - when it was pending - that entry cancelled by a call for it, or
    marked fired or fenced after a delivery of that very entry was answered with a disposition
    that earns the mark.  A retired entry never changes again.  (Nothing prunes; the writes stay
    under 2^64.) *)
Theorem parked_until_answered (s0 s : system) (H0 : initial s0) (Hrun : rtc sys_step s0 s)
    (Hbound : Z.of_nat (length (committed (past s))) <= u64_max)
    (Hprune : ¬ may_prune permits) :
  view (store s) pid = current (committed (past s)) ∧
  ∀ i j wake e, (i ≤ j ≤ length (committed (past s)))%nat →
    entries_at (committed (past s)) i !! wake = Some e →
    Entry.wake_id e = wake ∧
    (∃ now, permits (CallSchedule (Entry.binding e) (Entry.task e) now) ∧ Entry.created_at e = now) ∧
    ∃ e', entries_at (committed (past s)) j !! wake = Some e' ∧
      (e' = e ∨
       Entry.status e = TimerStatus.Pending ∧ ∃ status at_, e' = Entry.with_status e status at_ ∧
         match status with
         | TimerStatus.Pending => False
         | TimerStatus.Cancelled => ∃ at_, permits (CallCancel wake at_)
         | TimerStatus.Fired | TimerStatus.Fenced => answered (answers (past s)) e status
         end).
Proof.
  destruct (run_ok s0 s H0 Hrun Hbound) as (Hv & Hl & _). split; [done|]. intros i j wake e Hij He.
  pose proof (entries_keyed _ _ i wake e Hl ltac:(lia) He) as <-. split; [done|].
  split; [eapply entry_scheduled; [done| |done]; lia|].
  destruct (legal_forward _ _ i j _ e Hl ltac:(lia) He) as [?|(e' & He' & Hs)]; [done|].
  exists e'. split; [done|]. destruct Hs as [?|(Hp & status & at_ & Hr & ->)]; [by left|right].
  split; [done|]. exists status, at_. split; [done|].
  destruct status; simpl in Hr; [done| | |done];
    destruct Hr as (d & Ha & _ & [?|[Hb Ht]]); try done; by eapply answered_same.
Qed.

(** ** Running processes *)

(** The next answer for process [i], and a call of it; nothing where there is none to take. *)
Definition answer_process (i : nat) (answer : command → reply) (s : system) : system :=
  let 'System st ps w := s in
  match ps !! i with
  | Some (Load pid' k) => let '(st', r) := load ops st pid' in System st' (<[i := k r]> ps) w
  | Some (CompareAndSet pid' revision next k) =>
      match compare_and_set ops st pid' revision next with
      | (st', Ok rec) => System st' (<[i := k (Ok rec)]> ps) (commit w next)
      | (st', Err e) => System st' (<[i := k (Err e)]> ps) w
      end
  | Some (Deliver c k) => System st (<[i := k (answer c)]> ps) (answer_ w c (answer c))
  | _ => s
  end.

Definition begin_process (i : nat) (call : timer_call) (s : system) : system :=
  let 'System st ps w := s in
  match ps !! i with Some (Done self) => System st (<[i := begin_call call self]> ps) w | _ => s end.

Lemma answer_process_step i answer s : rtc sys_step s (answer_process i answer s).
Proof.
  destruct s as [st ps w]. simpl. destruct (ps !! i) as [[self|pid' k|pid' rev next k|c k]|] eqn:Hi; try done.
  - destruct (load ops st pid') as [st' r] eqn:Hl. apply rtc_once. by eapply Loads.
  - destruct (compare_and_set ops st pid' rev next) as [st' [rec|e]] eqn:Hc; apply rtc_once;
      [by eapply Writes|by eapply Refuses].
  - apply rtc_once. by apply Answers.
Qed.

Lemma begin_process_step i call s : permits call → rtc sys_step s (begin_process i call s).
Proof.
  intros Hp. destruct s as [st ps w]. simpl. destruct (ps !! i) as [[self| | |]|] eqn:Hi; try done.
  apply rtc_once. by eapply Begins.
Qed.
End System.
