(* ===== verification/WakePark.v ===== *)
(** * Parking the re-wakes a task owes: [park_owed_rewakes] of [rakka-agent/src/task.rs]

    A settle pass of a continuous task parks each re-wake its controller owes as a timer entry,
    through a parker over the shared timer record, and then marks the slot parked in a
    transition of its own.  [initiate] stands for the host that commits that transition or
    fails; a failure at any point ends the pass and leaves the remaining slots owed. *)

From S2P Require Import Prelude Persistence DurableState AgentIdentity AgentSchema Budget Delegation Exchange.
From S2P Require Import WakeCalendar Wake WakeController WakeRuns WakeProps WakeTask WakeTaskProps WakeLiveness WakeTimers.
From S2P Require Import WakeScanner WakeTimerRuns.
Import AgentWakeControllerState AgentWakeTimerStore.

Inductive AgentParkError := ParkTask (error : TaskErr.t) | ParkWakeTimer (error : TimerErr.t).

Definition owed_rewakes (rewakes : AgentWakeRewakes.t) : list (Cause.t * AgentTimestampMillis * Z) :=
  omap (fun cause =>
    match AgentWakeRewakes.slot rewakes cause with
    | Some slot =>
        if AgentWakeRewake.parked slot then None
        else Some (cause, AgentWakeRewake.due_at slot, AgentWakeRewake.attempt slot)
    | None => None
    end) [Cause.Backoff; Cause.WindowTurn].

Section Park.
Context {AgentEpochSpec C R : Type} (sha256_hex : string → string).
Abbreviation task := (AgentContinuousTask (AgentEpochSpec := AgentEpochSpec)).
Context (initiate : task → AgentTaskResult unit).

(** The retry occurrence a slot stands for. *)
Definition rewake_binding (self : task) (cause : Cause.t) (due_at : AgentTimestampMillis) (attempt : Z)
    (now : AgentTimestampMillis) : AgentWakeResult Binding.t :=
  Binding.new sha256_hex (AgentTaskScope.tenant (task_scope self)) (task_goal self) (task_schedule_revision self)
    (Occurrence.Retry due_at cause attempt) Trigger.Controller now
    (AgentWakePolicyRevision.revision (task_wake_policy self)).

Fixpoint park_each (backend : string) (pid : PersistenceId.t) (owed : list (Cause.t * AgentTimestampMillis * Z))
    (self : task) (now : AgentTimestampMillis) (parked : nat) : program Timers.t C R (task * result AgentParkError nat) :=
  match owed with
  | [] => Done (self, Ok parked)
  | (cause, due_at, attempt) :: owed =>
      match rewake_binding self cause due_at attempt now with
      | Err error => Done (self, Err (ParkTask (TaskErr.Wake error)))
      | Ok binding =>
          program_bind (park backend pid (Entry.new binding (AgentTaskScope.task (task_scope self)) now))
            (fun scheduled =>
               match scheduled with
               | Err error => Done (self, Err (ParkWakeTimer error))
               | Ok _ =>
                   let next := mark_parked self cause due_at attempt now in
                   match initiate next with
                   | Err error => Done (self, Err (ParkTask error))
                   | Ok _ => park_each backend pid owed next now (S parked)
                   end
               end)
      end
  end.

(** [parker] is the backend and the persistence id of the record, when one is wired. *)
Definition park_owed_rewakes (parker : option (string * PersistenceId.t)) (self : task) (now : AgentTimestampMillis) :
    program Timers.t C R (task * result AgentParkError nat) :=
  match parker, task_wake_controller self with
  | Some (backend, pid), Some controller =>
      let rewakes := Lifecycle.rewakes (lifecycle controller) in
      if AgentWakeRewakes.owes_parking rewakes then park_each backend pid (owed_rewakes rewakes) self now 0
      else Done (self, Ok 0%nat)
  | _, _ => Done (self, Ok 0%nat)
  end.
End Park.

(** ** A slot is marked only when the record holds its occurrence *)

Section Marked.
Context {AgentEpochSpec Snap : Type} (sha256_hex : string → string).
Abbreviation task := (AgentContinuousTask (AgentEpochSpec := AgentEpochSpec)).
Context (initiate : task → AgentTaskResult unit) (pid : PersistenceId.t) (permits : timer_call → Prop).

Definition task_slot (self : task) (cause : Cause.t) : option AgentWakeRewake.t :=
  AgentWakeRewakes.slot (Lifecycle.rewakes (lifecycle (task_controller self))) cause.

(** The occurrence of a slot is held for the task, under the schedule in force. *)
Definition rewake_held (self : task) (cause : Cause.t) (slot : AgentWakeRewake.t) (w : world (Snap := Snap)) : Prop :=
  ∃ now binding,
    rewake_binding sha256_hex self cause (AgentWakeRewake.due_at slot) (AgentWakeRewake.attempt slot) now = Ok binding ∧
    holds_occurrence (Entry.new binding (AgentTaskScope.task (task_scope self)) now) w.

(** Where the slots of [self'] are not those of [self], they are marked parked and held. *)
Definition marks_held (self self' : task) (w : world (Snap := Snap)) : Prop :=
  ∀ cause, task_slot self' cause = task_slot self cause ∨
    ∃ slot, task_slot self cause = Some slot ∧
      task_slot self' cause = Some (AgentWakeRewake.mk (AgentWakeRewake.due_at slot) true (AgentWakeRewake.attempt slot)) ∧
      rewake_held self cause slot w.

(** What the pass leaves alone. *)
Definition same_schedule (self self' : task) : Prop :=
  task_scope self' = task_scope self ∧ task_goal self' = task_goal self ∧
  task_schedule_revision self' = task_schedule_revision self ∧ task_wake_policy self' = task_wake_policy self.

Lemma mark_parked_schedule (self : task) cause due_at attempt now :
  same_schedule self (mark_parked self cause due_at attempt now).
Proof. unfold mark_parked. by destruct self as [? ? ? ? ? ? ? [controller|] ?]. Qed.

Lemma mark_parked_slot (self : task) cause due_at attempt now cause' :
  task_slot (mark_parked self cause due_at attempt now) cause' = task_slot self cause' ∨
  cause' = cause ∧ ∃ slot, task_slot self cause = Some slot ∧
    AgentWakeRewake.due_at slot = due_at ∧ AgentWakeRewake.attempt slot = attempt ∧
    task_slot (mark_parked self cause due_at attempt now) cause' = Some (AgentWakeRewake.mk due_at true attempt).
Proof.
  unfold mark_parked, task_slot, task_controller. destruct self as [? ? ? ? ? ? ? [controller|] ?]; [|by left]. simpl.
  unfold mark_rewake_parked, on_slot.
  destruct (AgentWakeRewakes.slot _ cause) as [slot|] eqn:Hs; [|by left].
  destruct (_ && _) eqn:Hm; [|by left]. apply andb_true_iff in Hm as [Hd%Z.eqb_eq Ha%Z.eqb_eq]. simpl.
  destruct (decide (cause' = cause)) as [-> |Hne].
  - right. split; [done|]. exists slot. split_and!; [done..|]. rewrite Hd, Ha. by destruct controller, lifecycle, cause.
  - left. by destruct controller, lifecycle, cause, cause'.
Qed.

Lemma rewake_binding_same (self self' : task) cause due_at attempt now : same_schedule self self' →
  rewake_binding sha256_hex self' cause due_at attempt now = rewake_binding sha256_hex self cause due_at attempt now.
Proof. intros (Hs & Hg & Hr & Hp). unfold rewake_binding. by rewrite Hs, Hg, Hr, Hp. Qed.

Lemma marks_held_later self self' w w' : later permits w w' → marks_held self self' w → marks_held self self' w'.
Proof.
  intros Hw Hm cause. destruct (Hm cause) as [?|(slot & H1 & H2 & now & b & Hb & Hh)]; [by left|right].
  exists slot. split_and!; [done..|]. exists now, b. split; [done|]. by eapply stable_holds.
Qed.

(** One more slot is marked, and its occurrence is held. *)
Lemma marks_held_next self0 self cause due_at attempt now binding w : same_schedule self0 self →
  rewake_binding sha256_hex self0 cause due_at attempt now = Ok binding →
  holds_occurrence (Entry.new binding (AgentTaskScope.task (task_scope self0)) now) w →
  marks_held self0 self w → marks_held self0 (mark_parked self cause due_at attempt now) w.
Proof.
  intros Hs Hb Hh Hm c. destruct (mark_parked_slot self cause due_at attempt now c) as [-> |(-> & slot & Hsl & Hd & Ha & ->)];
    [apply Hm|].
  destruct (Hm cause) as [Heq|(slot0 & H0 & H1 & Hheld)]; right.
  - exists slot. rewrite <-Heq, Hd, Ha. split_and!; [done..|]. exists now, binding. by rewrite Hd, Ha.
  - exists slot0. rewrite H1 in Hsl. injection Hsl as <-. simpl in Hd, Ha. by rewrite <-Hd, <-Ha.
Qed.

Context (now : AgentTimestampMillis).

Definition park_ends (self0 : task) (w : world (Snap := Snap)) (a : task * result AgentParkError nat) : Prop :=
  same_schedule self0 a.1 ∧ marks_held self0 a.1 w.

Lemma park_each_spec backend owed self0 self w n :
  (∀ cause due_at attempt binding, rewake_binding sha256_hex self0 cause due_at attempt now = Ok binding →
     permits (CallSchedule binding (AgentTaskScope.task (task_scope self0)) now)) →
  legal permits w → same_schedule self0 self → marks_held self0 self w →
  wp pid permits (park_each sha256_hex initiate backend pid owed self now n) (park_ends self0) w.
Proof.
  intros Hperm. revert self w n. induction owed as [|[[cause due_at] attempt] owed IH]; intros self w n Hl Hs Hm.
  { intros w' Hw. split; [done|]. by eapply marks_held_later. }
  assert (∀ w' (r : result AgentParkError nat), later permits w w' →
    wp pid permits (Done (self, r)) (park_ends self0) w') as Hdone.
  { intros w' r Hw w'' Hw'. split; [done|]. eapply marks_held_later, Hm. by eapply world_trans. }
  cbn [park_each]. rewrite (rewake_binding_same _ _ _ _ _ _ Hs).
  destruct (rewake_binding sha256_hex self0 cause due_at attempt now) as [binding|e] eqn:Hb;
    [|apply Hdone; by apply world_refl].
  destruct (Hs) as (Hscope & _). rewrite Hscope. apply wp_bind; [done|]. apply wp_bind; [done|].
  eapply wp_mono; [|done|apply (schedule_spec pid permits binding); [by eapply Hperm|done|by split|done]].
  intros w' [facade r] Hw [_ Hheld] w'' Hw''.
  assert (later permits w w'') as Hw2 by by eapply world_trans.
  destruct r as [scheduled|e]; [|by apply Hdone].
  destruct (initiate _) as [[]|e]; [|by apply Hdone].
  apply IH; [by eapply later_legal| |].
  - destruct (mark_parked_schedule self cause due_at attempt now) as (? & ? & ? & ?), Hs as (? & ? & ? & ?).
    split_and!; congruence.
  - eapply marks_held_next; [done..| |by eapply marks_held_later].
    eapply stable_holds; [exact Hw''|]. by apply (Hheld scheduled).
Qed.

(** A re-wake is marked parked only when the timer record holds it.  Let a settle pass of a
    task park the re-wakes its controller owes while any other processes schedule, cancel, scan
    and prune in the same record, and let the pass fail at any point - at the store, at the host
    that commits a mark - and return what it has.  Then every slot is as it was, or it is the
    same re-wake marked parked, and some committed state of the record held an entry of that very
    retry - tenant, goal, schedule revision, cause, due time and attempt - for this task, whether
    this pass wrote it or an earlier one that failed before its mark. *)
Theorem rewakes_marked_when_held parker (self : task) (w : world (Snap := Snap))
    (Hpid : ∀ backend pid', parker = Some (backend, pid') → pid' = pid) (Hlegal : legal permits w)
    (Hperm : ∀ cause due_at attempt binding, rewake_binding sha256_hex self cause due_at attempt now = Ok binding →
       permits (CallSchedule binding (AgentTaskScope.task (task_scope self)) now)) :
  wp pid permits (park_owed_rewakes sha256_hex initiate parker self now)
    (fun w' '((self', _) : task * result AgentParkError nat) => ∀ cause, task_slot self' cause = task_slot self cause ∨
       ∃ slot, task_slot self cause = Some slot ∧
         task_slot self' cause =
           Some (AgentWakeRewake.mk (AgentWakeRewake.due_at slot) true (AgentWakeRewake.attempt slot)) ∧
         ∃ at_ binding e,
           rewake_binding sha256_hex self cause (AgentWakeRewake.due_at slot) (AgentWakeRewake.attempt slot) at_ = Ok binding ∧
           parked w' e ∧ Entry.task e = AgentTaskScope.task (task_scope self) ∧
           Binding.same_identity (Entry.binding e) binding = true) w.
Proof.
  assert (∀ w' r, later permits w w' → park_ends self w' (self, r)) as Hsame by (split; [done|by left]).
  eapply (wp_mono _ _ _ (park_ends self)); [|done|].
  - intros w' [self' r] _ [_ Hm] cause. destruct (Hm cause) as [?|(slot & H1 & H2 & at_ & b & Hb & e & He & _ & Ht & Hid)].
    + by left.
    + right. exists slot. split_and!; [done..|]. by exists at_, b, e.
  - unfold park_owed_rewakes. destruct parker as [[backend pid']|]; [|intros w' Hw; by apply Hsame].
    rewrite (Hpid backend pid' eq_refl).
    destruct (task_wake_controller self) as [controller|]; [|intros w' Hw; by apply Hsame].
    destruct (AgentWakeRewakes.owes_parking _); [|intros w' Hw; by apply Hsame].
    apply park_each_spec; [done|done|done|by left].
Qed.
End Marked.

(** A task that owes a backoff re-wake, and a pass that parks it. *)
Definition owing_demo : AgentContinuousTask (AgentEpochSpec := unit) :=
  (task_step WakeTask_demo.roomy parked_demo (WakeTask_demo.admit_due 30)).1.

Lemma rewakes_marked_when_held_witness :
  length (owed_rewakes (Lifecycle.rewakes (lifecycle (task_controller owing_demo)))) = 1%nat ∧
  wp (Snap := unit) agent_wake_timer_store_persistence_id (fun _ => True)
    (park_owed_rewakes (fun s => s) (fun _ => Ok tt) (Some ("memory", agent_wake_timer_store_persistence_id)) owing_demo 40)
    (fun w '((self, _) : AgentContinuousTask * result AgentParkError nat) =>
       task_slot self Cause.WindowTurn = task_slot owing_demo Cause.WindowTurn ∨ committed w ≠ []) (World [] []).
Proof.
  split; [vm_compute; reflexivity|].
  eapply wp_mono; [| |apply (rewakes_marked_when_held (fun s => s) (fun _ => Ok tt) agent_wake_timer_store_persistence_id
    (fun _ => True) 40 (Some ("memory", agent_wake_timer_store_persistence_id)) owing_demo (World [] []))].
  - intros w' [self r] _ H. destruct (H Cause.WindowTurn) as [?|(slot & _ & _ & at_ & b & e & _ & (i & Hi & He) & _)]; [by left|].
    right. intros Hn. rewrite Hn in *. by destruct i.
  - intros i Hi. simpl in Hi. lia.
  - by intros backend pid [= <- <-].
  - intros i Hi. simpl in Hi. lia.
  - done.
Defined.
