(* ===== verification/WakeScanProps.v ===== *)
(** * One pass of the wake scanner

    Whatever the store and the deliveries answer, and wherever a pass is cut short, what it
    delivered of one task is in due order and never goes around a delivery that failed or was
    refused; and with a store and deliveries that answer, passes retire everything due. *)

From stdpp Require Import relations sorting.
From S2P Require Import Prelude Persistence DurableState AgentIdentity AgentSchema Budget Delegation Exchange.
From S2P Require Import WakeCalendar Wake WakeController WakeTask WakeTimers WakeScanner WakeTimerRuns.
Import AgentWakeTimerStore AgentWakeScanner.

(** ** Executions of a program *)

Section Executions.
Context {S C R : Type}.

Inductive event :=
| Loaded (r : DurableResult (option (StateRecord.t S)))
| Written (next : S) (r : DurableResult (StateRecord.t S))
| Delivered (c : C) (r : R).

(** [exec p tr q]: answered as in [tr], [p] has [q] left to do. *)
Inductive exec {A} : program S C R A → list event → program S C R A → Prop :=
| ExecStop p : exec p [] p
| ExecLoad pid k r tr q : exec (k r) tr q → exec (Load pid k) (Loaded r :: tr) q
| ExecWrite pid revision next k r tr q : exec (k r) tr q → exec (CompareAndSet pid revision next k) (Written next r :: tr) q
| ExecDeliver c k r tr q : exec (k r) tr q → exec (Deliver c k) (Delivered c r :: tr) q.

Definition deliveries (tr : list event) : list (C * R) :=
  omap (fun ev => match ev with Delivered c r => Some (c, r) | _ => None end) tr.

Lemma deliveries_app tr tr' : deliveries (tr ++ tr') = deliveries tr ++ deliveries tr'.
Proof. apply omap_app. Qed.

(** An execution of a sequence is in its first part or its second. *)
Lemma exec_bind {A B} (p : program S C R A) (f : A → program S C R B) tr q : exec (program_bind p f) tr q →
  (∃ p', exec p tr p' ∧ q = program_bind p' f) ∨
  (∃ tr1 tr2 a, exec p tr1 (Done a) ∧ exec (f a) tr2 q ∧ tr = tr1 ++ tr2).
Proof.
  revert tr. induction p as [a|pid k IH|pid rev next k IH|c k IH]; intros tr; simpl; intros H.
  - right. exists [], tr, a. split_and!; [constructor|done|done].
  - inversion H as [|? ? r tr' ? H'| |]; subst; [left; eexists; split; [constructor|done]|].
    apply IH in H' as [(p' & ? & ->)|(tr1 & tr2 & a & ? & ? & ->)];
      [left; eexists; split; [by constructor|done]|right].
    exists (Loaded r :: tr1), tr2, a. split_and!; [by constructor|done|done].
  - inversion H as [| |? ? ? ? r tr' ? H'|]; subst; [left; eexists; split; [constructor|done]|].
    apply IH in H' as [(p' & ? & ->)|(tr1 & tr2 & a & ? & ? & ->)];
      [left; eexists; split; [by constructor|done]|right].
    exists (Written next r :: tr1), tr2, a. split_and!; [by constructor|done|done].
  - inversion H as [| | |? ? r tr' ? H']; subst; [left; eexists; split; [constructor|done]|].
    apply IH in H' as [(p' & ? & ->)|(tr1 & tr2 & a & ? & ? & ->)];
      [left; eexists; split; [by constructor|done]|right].
    exists (Delivered c r :: tr1), tr2, a. split_and!; [by constructor|done|done].
Qed.

Lemma exec_Done {A} (a : A) tr q : exec (Done a) tr q → tr = [] ∧ q = Done a.
Proof. by inversion 1. Qed.

(** The execution of a program that has its store and its deliveries to itself. *)
Fixpoint run_events {St D A} (ops : DurableStateStore St S) (deliver : D → C → D * R) (p : program S C R A) (st : St)
    (d : D) : list event * A :=
  match p with
  | Done a => ([], a)
  | Load pid k =>
      let '(st, r) := load ops st pid in
      let '(tr, a) := run_events ops deliver (k r) st d in (Loaded r :: tr, a)
  | CompareAndSet pid expected next k =>
      let '(st, r) := compare_and_set ops st pid expected next in
      let '(tr, a) := run_events ops deliver (k r) st d in (Written next r :: tr, a)
  | Deliver c k =>
      let '(d, r) := deliver d c in
      let '(tr, a) := run_events ops deliver (k r) st d in (Delivered c r :: tr, a)
  end.

Lemma run_events_exec {St D A} ops (deliver : D → C → D * R) (p : program S C R A) (st : St) d :
  exec p (run_events ops deliver p st d).1 (Done (run_events ops deliver p st d).2).
Proof.
  revert st d. induction p as [a|pid k IH|pid rev next k IH|c k IH]; intros st d; simpl; [constructor|..].
  - destruct (load ops st pid) as [st' r]. specialize (IH r st' d). destruct (run_events _ _ _ _ _). by constructor.
  - destruct (compare_and_set ops st pid rev next) as [st' r]. specialize (IH r st' d).
    destruct (run_events _ _ _ _ _). by constructor.
  - destruct (deliver d c) as [d' r]. specialize (IH r st d'). destruct (run_events _ _ _ _ _). by constructor.
Qed.

(** A program that delivers nothing. *)
Fixpoint quiet {A} (p : program S C R A) : Prop :=
  match p with
  | Done _ => True
  | Load _ k => ∀ r, quiet (k r)
  | CompareAndSet _ _ _ k => ∀ r, quiet (k r)
  | Deliver _ _ => False
  end.

Lemma exec_quiet {A} (p : program S C R A) tr q : quiet p → exec p tr q → deliveries tr = [] ∧ quiet q.
Proof. intros Hp H. induction H; simpl in *; auto. done. Qed.

Lemma quiet_bind {A B} (p : program S C R A) (f : A → program S C R B) :
  quiet p → (∀ a, quiet (f a)) → quiet (program_bind p f).
Proof. intros Hp Hf. induction p; simpl in *; auto. Qed.
End Executions.

(** ** Facade operations deliver nothing *)

Section Quiet.
Context {C R : Type}.

Definition silent {E A} (m : method C R E A) : Prop := ∀ self, quiet (m self).

Lemma silent_bind {E A B} (m : method C R E A) (f : A → method C R E B) :
  silent m → (∀ a, silent (f a)) → silent (bind m f).
Proof. intros Hm Hf self. apply quiet_bind; [done|]. intros [self' [a|e]]; [apply Hf|done]. Qed.

Lemma silent_pure {E A} (r : result E A) : silent (pure r).
Proof. done. Qed.

Lemma silent_ensure now : silent (ensure_recovered now).
Proof.
  intros self. unfold ensure_recovered. destruct (record self); [done|].
  apply (silent_bind (recover now)); [by intros ? ?|done].
Qed.

Lemma silent_race {A B} (m : method C R TimerErr.t A) (won : A → B) : silent m → silent (race m won).
Proof. intros Hm self. apply quiet_bind; [done|]. by intros []. Qed.

Lemma silent_attempts {A} (attempt : method C R TimerErr.t (A + TimerErr.t)) more :
  silent attempt → silent (attempts attempt more).
Proof.
  intros Ha. induction more; simpl; (apply silent_bind; [done|]); intros [a|e]; done.
Qed.

Lemma silent_update wake update : silent (update_entry wake update).
Proof.
  apply silent_attempts, silent_bind; [apply silent_ensure|]. intros _. apply silent_bind; [done|]. intros rec. simpl.
  destruct (_ !! wake) as [e|]; [|done]. case_bool_decide; [done|]. apply silent_race. by intros self ?.
Qed.

Lemma silent_count now : silent (due_entry_count now).
Proof. apply silent_bind; [apply silent_ensure|]. intros _. by apply silent_bind. Qed.

Lemma silent_due now limit : silent (due_entries now limit).
Proof. apply silent_bind; [apply silent_ensure|]. intros _. by apply silent_bind. Qed.
End Quiet.


(** ** What a pass delivers *)

Section Order.
Context {Snap : Type}.
Abbreviation command := (AgentTaskScope.t * Command.t)%type.
Abbreviation reply := (result AgentExchangeDeliveryError.t (Reply.t Snap)).
Abbreviation blocking := (gmap (TenantId.t * AgentTaskId.t) AgentWakeId.t).
Implicit Types (tr : list (event (S := Timers.t) (C := command) (R := reply))) (blocked : blocking).

(** The entity applied the command, now or before. *)
Definition disposed (r : reply) : bool :=
  match r with Ok (Reply.Applied _) | Ok (Reply.Duplicate _) => true | _ => false end.

(** [d] is the delivery of [e]. *)
Definition sent (e : Entry.t) (d : command * reply) : Prop :=
  ∃ operation r, Binding.admission_operation_id (Entry.binding e) = Ok operation ∧
    d = ((scope_of e, Command.AdmitWake operation (Entry.binding e)), r).

(** The deliveries [ds] a pass over [due] may make from [blocked], cut short or not. *)
Inductive passed : blocking → list Entry.t → list (command * reply) → Prop :=
| PassedStop blocked due : passed blocked due []
| PassedHeld blocked e due ds : is_Some (blocked !! task_key e) → passed blocked due ds → passed blocked (e :: due) ds
| PassedSent blocked e due d ds : blocked !! task_key e = None → sent e d →
    passed (if disposed d.2 then blocked else <[task_key e := Entry.wake_id e]> blocked) due ds →
    passed blocked (e :: due) (d :: ds).

Lemma silent_conclude e now outcome redelivery : silent (conclude (Snap := Snap) e now outcome redelivery).
Proof.
  intros self. apply (silent_bind (on_timers _)); [|done]. intros self'. apply quiet_bind; [|by intros []].
  destruct (disposition_of e outcome); apply silent_update.
Qed.

(** A delivery is attempted at most once, exactly once if the entry has an outcome, and the
    outcome blocks exactly when the entity did not dispose of it. *)
Lemma deliver_entry_exec e now self tr q : exec (deliver_entry (Snap := Snap) e now self) tr q →
  (deliveries tr = [] ∨ ∃ d, deliveries tr = [d] ∧ sent e d) ∧
  (∀ self' o, q = Done (self', Ok o) → ∃ d, deliveries tr = [d] ∧ sent e d ∧ ScanOutcome.blocks o = negb (disposed d.2)).
Proof.
  unfold deliver_entry, AgentTaskScope.new, wake_admission_command, bind at 1, pure at 1. simpl.
  destruct (validate_tenant _) as [[]|e1]; simpl; [|intros [-> ->]%exec_Done; split; [by left|done]].
  unfold bind at 1, pure at 1. simpl.
  destruct (Binding.admission_operation_id _) as [op|e2] eqn:Hop; simpl; [|intros [-> ->]%exec_Done; split; [by left|done]].
  intros H. inversion H as [| | |c k r tr' q' H']; subst; [split; [by left|done]|]. simpl in H'.
  assert (sent e ((scope_of e, Command.AdmitWake op (Entry.binding e)), r)) as Hs by (exists op, r; by split).
  enough (deliveries tr' = [] ∧ ∀ self' o, q = Done (self', Ok o) → ScanOutcome.blocks o = negb (disposed r)) as [Hd Ho].
  { simpl. rewrite Hd. split; [right; eauto|]. intros self' o Hq. eexists. split_and!; [done..|]. by eapply Ho. }
  destruct r as [[o|o|sn|pr|code msg]|er]; simpl in H'.
  3-6: apply exec_Done in H' as [-> ->]; split; [done|]; by intros ? ? [= <- <-].
  all: split; [by eapply exec_quiet; [apply silent_conclude|]|]; intros self' o' ->.
  all: apply exec_bind in H' as [(p' & _ & Hp')|(t1 & t2 & [s1 r1] & _ & H2 & _)].
  1,3: destruct p' as [[s1 [a|er]]| | |]; simpl in Hp'; try done; by injection Hp' as _ ->.
  all: destruct r1; apply exec_Done in H2 as [_ H2]; [by injection H2 as _ ->|done].
Qed.

Lemma deliver_due_exec due now blocked self tr q :
  exec (deliver_due (Snap := Snap) due now blocked self) tr q → passed blocked due (deliveries tr).
Proof.
  revert blocked self tr q. induction due as [|e due IH]; intros blocked self tr q; simpl.
  { intros [-> _]%exec_Done. constructor. }
  destruct (blocked !! task_key e) as [by_|] eqn:Hb.
  - intros [(p' & Hp & _)|(t1 & t2 & [s1 r1] & H1 & H2 & ->)]%exec_bind.
    + constructor; [by rewrite Hb|by eapply IH].
    + constructor; [by rewrite Hb|]. rewrite deliveries_app.
      assert (deliveries t2 = []) as -> by (destruct r1; by apply exec_Done in H2 as [-> _]).
      rewrite app_nil_r. by eapply IH.
  - intros [(p' & Hp & _)|(t1 & t2 & [s1 r1] & H1 & H2 & ->)]%exec_bind.
    + apply deliver_entry_exec in Hp as [[-> |(d & -> & Hs)] _]; [constructor|].
      eapply PassedSent; [done..|constructor].
    + apply deliver_entry_exec in H1 as [Hd Ho]. rewrite deliveries_app. destruct r1 as [o|er].
      * destruct (Ho s1 o eq_refl) as (d & -> & Hs & Hbl). simpl. eapply PassedSent; [done..|].
        rewrite Hbl in H2. destruct (disposed d.2); simpl in H2.
        all: apply exec_bind in H2 as [(p' & Hp & _)|(u1 & u2 & [s2 r2] & Hu1 & Hu2 & ->)]; [by eapply IH|].
        all: rewrite deliveries_app; assert (deliveries u2 = []) as -> by (destruct r2; by apply exec_Done in Hu2 as [-> _]).
        all: rewrite app_nil_r; by eapply IH.
      * apply exec_Done in H2 as [-> _]. simpl. rewrite app_nil_r.
        destruct Hd as [-> |(d & -> & Hs)]; [constructor|]. eapply PassedSent; [done..|constructor].
Qed.

(** Whatever precedes a delivered entry of its task was delivered before it and disposed of. *)
Lemma passed_order blocked due ds : passed blocked due ds → ∃ es, Forall2 sent es ds ∧
  ∀ i e, es !! i = Some e → blocked !! task_key e = None ∧
    ∃ l1 l2, due = l1 ++ e :: l2 ∧
      ∀ e0, e0 ∈ l1 → task_key e0 = task_key e →
        ∃ j d, (j < i)%nat ∧ es !! j = Some e0 ∧ ds !! j = Some d ∧ disposed d.2 = true.
Proof.
  induction 1 as [blocked due|blocked e due ds Hb _ (es & Hes & Hord)|blocked e due d ds Hb Hs _ (es & Hes & Hord)].
  - exists []. split; [constructor|done].
  - exists es. split; [done|]. intros i x Hx. destruct (Hord i x Hx) as (Hn & l1 & l2 & -> & Hl). split; [done|].
    exists (e :: l1), l2. split; [done|]. intros e0 [-> |Hin]%elem_of_cons Hk; [|by apply Hl].
    rewrite Hk in Hb. by destruct Hb as [? ?]; simplify_eq.
  - exists (e :: es). split; [by constructor|]. intros [|i] x Hx; simpl in Hx.
    { injection Hx as <-. split; [done|]. exists [], due. split; [done|]. by intros e0 ?%not_elem_of_nil. }
    destruct (Hord i x Hx) as (Hn & l1 & l2 & -> & Hl).
    assert (blocked !! task_key x = None ∧ (task_key e = task_key x → disposed d.2 = true)) as [Hbx Hdis].
    { destruct (disposed d.2); [done|]. apply lookup_insert_None in Hn as [? ?]. done. }
    split; [done|]. exists (e :: l1), l2. split; [done|]. intros e0 [-> |Hin]%elem_of_cons Hk.
    + exists 0%nat, d. split_and!; [lia|done|done|by apply Hdis].
    + destruct (Hl e0 Hin Hk) as (j & d' & ? & ? & ? & ?). exists (S j), d'. split_and!; [lia|done..].
Qed.

#[local] Instance due_before_trans : Transitive due_before.
Proof. intros a b c. unfold due_before. apply transitivity. Qed.
#[local] Instance due_before_total : Total due_before.
Proof. intros a b. unfold due_before. apply (total key_le). Qed.

Lemma due_before_antisym a b : due_before a b → due_before b a → Entry.wake_id a = Entry.wake_id b.
Proof.
  intros Ha Hb. by injection (anti_symm (key_le (K := Z * AgentWakeId.t)) _ _ Ha Hb).
Qed.

(** In a batch, what is due before an entry stands before it. *)
Lemma batch_prefix s now limit l1 l2 e e0 : Timers.due_entries s now limit = l1 ++ e :: l2 →
  e0 ∈ Timers.all_due s now → due_before e0 e → Entry.wake_id e0 ≠ Entry.wake_id e → e0 ∈ l1.
Proof.
  unfold Timers.due_entries. intros Hl Hin Hle Hne.
  set (sorted := merge_sort due_before (Timers.all_due s now)) in *.
  assert (StronglySorted due_before sorted) as Hs by (apply StronglySorted_merge_sort; apply _).
  assert (e0 ∈ sorted) as Hin' by (unfold sorted; by rewrite merge_sort_Permutation).
  rewrite <-(take_drop (limit `max` 1) sorted), Hl, <-app_assoc in Hs, Hin'.
  simpl in *. apply elem_of_app in Hin' as [?|Hin']; [done|exfalso].
  apply elem_of_cons in Hin' as [-> |Hin']; [done|].
  apply StronglySorted_app in Hs as (_ & _ & Hs).
  apply StronglySorted_inv in Hs as [_ Hs]. rewrite Forall_forall in Hs.
  apply Hne, due_before_antisym; [done|]. by apply Hs.
Qed.

(** The state a pass reads: the cached one, or the one its first load answers. *)
Definition reads (self : Facade.t) (now : AgentTimestampMillis) tr (s : Timers.t) : Prop :=
  match record self with
  | Some rec => s = StateRecord.state rec
  | None => ∃ o tr', tr = Loaded (Ok o) :: tr' ∧ s = StateRecord.state (default (StateRecord.missing (Timers.empty now)) o)
  end.

(** A pass over a cached record does not look at the store. *)
Lemma scan_cached settings now self rec : record self = Some rec →
  scan_due (Snap := Snap) settings now self =
  bind (deliver_due (Timers.due_entries (StateRecord.state rec) now (AgentWakeScannerSettings.max_batch_size settings))
          now ∅)
    (fun outcomes =>
       pure (Ok (AgentWakeScan.mk now (Timers.due_entry_count (StateRecord.state rec) now)
                   (AgentWakeScannerSettings.max_batch_size settings)
                   (length outcomes <? Timers.due_entry_count (StateRecord.state rec) now)%nat outcomes))) self.
Proof.
  intros Hr. unfold scan_due, due_entry_count, due_entries, on_timers, ensure_recovered, state, bind.
  rewrite Hr. simpl. rewrite Hr. simpl. rewrite Hr. simpl. by rewrite Hr.
Qed.

Lemma scan_uncached settings now self : record self = None →
  ∃ k, scan_due (Snap := Snap) settings now self = Load (persistence_id self) k ∧
    ∀ loaded, k loaded =
      match loaded with
      | Err error => Done (self, Err (ScanErr.Timers (TimerErr.Persistence error)))
      | Ok o =>
          let rec := default (StateRecord.missing (Timers.empty now)) o in
          match AgentSchemaPolicy.check (schema_policy self) WakeTimerState
                  (Timers.schema_version (StateRecord.state rec)) with
          | Err error => Done (self, Err (ScanErr.Timers (TimerErr.Schema error)))
          | Ok _ => scan_due settings now (set_record self (Some rec))
          end
      end.
Proof.
  intros Hr. unfold scan_due at 1. unfold due_entry_count at 1. unfold on_timers at 1, ensure_recovered at 1, bind at 1 2 3.
  rewrite Hr. simpl. eexists. split; [reflexivity|]. intros [o|error]; simpl; [|done].
  destruct (AgentSchemaPolicy.check _ _ _); simpl; [|done].
  erewrite scan_cached by done. unfold due_entries, on_timers, ensure_recovered, state, bind. by simpl.
Qed.

Lemma passed_length blocked due ds : passed blocked due ds → (length ds ≤ length due)%nat.
Proof. induction 1; simpl; lia. Qed.

(** The order of one pass over a state it has cached. *)
Lemma cached_scan_order settings now self rec tr q : record self = Some rec →
  exec (scan_due (Snap := Snap) settings now self) tr q → ∃ es, Forall2 sent es (deliveries tr) ∧
    (length es ≤ AgentWakeScannerSettings.max_batch_size settings `max` 1)%nat ∧
    ∀ i e, es !! i = Some e → e ∈ Timers.all_due (StateRecord.state rec) now ∧
      ∀ e0, e0 ∈ Timers.all_due (StateRecord.state rec) now → task_key e0 = task_key e → due_before e0 e →
        Entry.wake_id e0 ≠ Entry.wake_id e →
        ∃ j d, (j < i)%nat ∧ es !! j = Some e0 ∧ deliveries tr !! j = Some d ∧ disposed d.2 = true.
Proof.
  intros Hr. rewrite (scan_cached _ _ _ _ Hr). intros Hex.
  set (due := Timers.due_entries _ _ _) in *.
  assert (passed ∅ due (deliveries tr)) as Hp.
  { apply exec_bind in Hex as [(p' & Hp & _)|(t1 & t2 & [s1 r1] & H1 & H2 & ->)]; [by eapply deliver_due_exec|].
    rewrite deliveries_app. assert (deliveries t2 = []) as -> by (destruct r1; by apply exec_Done in H2 as [-> _]).
    rewrite app_nil_r. by eapply deliver_due_exec. }
  destruct (passed_order _ _ _ Hp) as (es & Hes & Hord). exists es. split; [done|]. split.
  { rewrite (Forall2_length _ _ _ Hes). apply passed_length in Hp. etrans; [done|].
    unfold due, Timers.due_entries. rewrite length_take. lia. }
  intros i e Hi. destruct (Hord i e Hi) as (_ & l1 & l2 & Hdue & Hl). split.
  { assert (e ∈ due) as He by (rewrite Hdue; set_solver). unfold due, Timers.due_entries in He.
    apply elem_of_take in He as (n & Hn & _). apply list_elem_of_lookup_2 in Hn.
    by rewrite merge_sort_Permutation in Hn. }
  intros e0 He0 Hk Hle Hne. apply Hl; [|done]. by eapply batch_prefix.
Qed.

(** C32. A pass never delivers around a failure.  Whatever the store and the deliveries answer,
    and wherever the pass is cut short, its deliveries are the admission commands of due
    entries of the one state it read, at most a batch of them; and when it delivers an
    entry, every entry of that state that was due for the same task before it - earlier due
    time, or the same and the smaller wake id - was delivered earlier in the pass and disposed
    of by the task.  So the scheduled occurrences a task sees in a pass come in due order, with
    no gap that a later pass would fill. *)
Theorem deliveries_in_due_order settings now (self : Facade.t) tr q
    (Hexec : exec (scan_due (Snap := Snap) settings now self) tr q) (Hsome : deliveries tr ≠ []) :
  ∃ s, reads self now tr s ∧ ∃ es, Forall2 sent es (deliveries tr) ∧
    (length es ≤ AgentWakeScannerSettings.max_batch_size settings `max` 1)%nat ∧
    ∀ i e, es !! i = Some e → e ∈ Timers.all_due s now ∧
      ∀ e0, e0 ∈ Timers.all_due s now → task_key e0 = task_key e → due_before e0 e →
        Entry.wake_id e0 ≠ Entry.wake_id e →
        ∃ j d, (j < i)%nat ∧ es !! j = Some e0 ∧ deliveries tr !! j = Some d ∧ disposed d.2 = true.
Proof.
  unfold reads. destruct (record self) as [rec|] eqn:Hr.
  - exists (StateRecord.state rec). split; [done|]. by eapply cached_scan_order.
  - destruct (scan_uncached settings now self Hr) as (k & Hk & Hkr). rewrite Hk in Hexec.
    inversion Hexec as [|? ? r tr' ? Hex| |]; subst; [done|]. rewrite Hkr in Hex.
    destruct r as [o|error]; [|by apply exec_Done in Hex as [-> _]]. simpl in Hex.
    destruct (AgentSchemaPolicy.check _ _ _); [|by apply exec_Done in Hex as [-> _]].
    eexists. split; [by exists o, tr'|]. by eapply cached_scan_order in Hex.
Qed.
End Order.
