(* ===== verification/WakeScanLiveness.v ===== *)
(** * Passes of the wake scanner retire what is due

    A scanner alone on a store that answers, whose deliveries are all disposed of: every pass
    retires a batch, so enough passes retire everything due.  And what a scanner cannot see:
    entries that others park while it holds a record in which nothing is due. *)

From stdpp Require Import relations sorting.
From S2P Require Import Prelude Persistence DurableState AgentIdentity AgentSchema Budget Delegation Exchange.
From S2P Require Import WakeCalendar Wake WakeController WakeTask WakeTimers WakeScanner WakeTimerRuns WakeTimerProps WakeScanProps.
Import AgentWakeTimerStore AgentWakeScanner.

(** A store that answers: loads succeed, and so do writes at the current revision. *)
Class DurableStoreAnswers {St S} (ops : DurableStateStore St S)
    (view : St → PersistenceId.t → option (StateRecord.t S)) : Prop := {
  answers_laws :: DurableStoreLaws ops view;
  answers_load st pid : ∃ st' o, load ops st pid = (st', Ok o);
  answers_write st pid s : ∃ st' rec, compare_and_set ops st pid (record_revision (view st pid)) s = (st', Ok rec);
}.

#[global] Instance memory_store_answers {S} :
  DurableStoreAnswers (InMemoryDurableStateStore.store (S := S)) memory_view.
Proof.
  split; [apply _|intros st pid; eexists _, _; reflexivity|]. intros st pid s. simpl. unfold InMemoryDurableStateStore.compare_and_set, memory_view.
  rewrite decide_False by auto. by eexists _, _.
Qed.

Section Drain.
Context {St D Snap : Type} (ops : DurableStateStore St Timers.t).
Context (view : St → PersistenceId.t → option (StateRecord.t Timers.t)) `{!DurableStoreAnswers ops view}.
Abbreviation command := (AgentTaskScope.t * Command.t)%type.
Abbreviation reply := (result AgentExchangeDeliveryError.t (Reply.t Snap)).
Context (deliver : D → command → D * reply) (pid : PersistenceId.t).
Context (Hdeliver : ∀ d c, disposed (deliver d c).2 = true).

Lemma run_bind {A B} (p : program Timers.t command reply A) (f : A → program Timers.t command reply B) st d :
  run ops deliver (program_bind p f) st d =
  let '(st, d, a) := run ops deliver p st d in run ops deliver (f a) st d.
Proof.
  revert st d. induction p as [a|pid' k IH|pid' rev next k IH|c k IH]; intros st d; simpl; [done|..].
  - by destruct (load ops st pid') as [st' r].
  - by destruct (compare_and_set ops st pid' rev next) as [st' r].
  - by destruct (deliver d c) as [d' r].
Qed.

(** The facade holds the record the store holds, and [s] is its state. *)
Definition synced (st : St) (self : Facade.t) (s : Timers.t) : Prop :=
  persistence_id self = pid ∧ ∃ rec, record self = Some rec ∧ StateRecord.state rec = s ∧ view st pid = Some rec.

(** An entry whose identities key a scope and an operation. *)
Definition deliverable (e : Entry.t) : Prop :=
  (∃ scope, AgentTaskScope.new (Binding.tenant (Entry.binding e)) (Entry.task e) = Ok scope) ∧
  (∃ c, wake_admission_command (Entry.binding e) = Ok c).

Definition well_parked (s : Timers.t) : Prop :=
  ∀ k e, Timers.entries s !! k = Some e → Entry.wake_id e = k ∧ deliverable e.

Lemma update_run st d self s wake e status now : synced st self s →
  Timers.entries s !! wake = Some e → Entry.status e = TimerStatus.Pending → TimerStatus.is_terminal status = true →
  ∃ st' self', run ops deliver (update_entry wake (settle status now) self) st d =
    (st', d, (self', Ok (Entry.with_status e status now))) ∧
    synced st' self' (Timers.put s wake (Entry.with_status e status now) now).
Proof.
  intros (Hp & rec & Hr & <- & Hv) He Hpe Hst.
  assert (StateRecord.revision rec = record_revision (view st pid)) as Hrev by by rewrite Hv.
  assert (settle status now e = Entry.with_status e status now) as Hse by (unfold settle; by rewrite Hpe).
  assert (Entry.with_status e status now ≠ e) as Hne.
  { intros Heq. apply (f_equal Entry.status) in Heq. simpl in Heq. rewrite Hpe in Heq. by rewrite Heq in Hst. }
  set (next := Timers.put (StateRecord.state rec) wake (Entry.with_status e status now) now).
  destruct (answers_write st pid next) as (st' & rec' & Hcas). pose proof Hcas as Hlaw.
  apply law_cas_ok in Hlaw as (_ & -> & Hv' & _).
  unfold update_entry. simpl. unfold update_attempt, ensure_recovered, bind, current_record. rewrite Hr. simpl. rewrite Hr. simpl.
  rewrite He, Hse, bool_decide_eq_false_2 by done. simpl. rewrite Hp, Hrev. fold next. rewrite Hcas. simpl.
  eexists _, _. split; [done|]. split; [done|]. eexists. split_and!; [done|done|by rewrite Hv'].
Qed.

(** [e] was marked at [now]. *)
Definition retired_at (now : AgentTimestampMillis) (e : Entry.t) (after : option Entry.t) : Prop :=
  ∃ status, TimerStatus.is_terminal status = true ∧ after = Some (Entry.with_status e status now).

Lemma deliver_entry_run st d self s e now : synced st self s → well_parked s →
  Timers.entries s !! Entry.wake_id e = Some e → Entry.status e = TimerStatus.Pending →
  ∃ st' d' self' o status, run ops deliver (deliver_entry e now self) st d = (st', d', (self', Ok o)) ∧
    ScanOutcome.blocks o = false ∧ TimerStatus.is_terminal status = true ∧
    synced st' self' (Timers.put s (Entry.wake_id e) (Entry.with_status e status now) now).
Proof.
  intros Hs Hw He Hpe. destruct (Hw _ _ He) as [_ [(scope & Hscope) (c & Hc)]].
  unfold deliver_entry, bind at 1, pure at 1. rewrite Hscope. simpl. unfold bind at 1, pure at 1. rewrite Hc. simpl.
  pose proof (Hdeliver d (scope, c)) as Hd. destruct (deliver d (scope, c)) as [d' r]. simpl in Hd.
  assert (∀ outcome redelivery, ∃ st' d'' self' o status,
    run ops deliver (conclude e now outcome redelivery self) st d' = (st', d'', (self', Ok o)) ∧
    ScanOutcome.blocks o = false ∧ TimerStatus.is_terminal status = true ∧
    synced st' self' (Timers.put s (Entry.wake_id e) (Entry.with_status e status now) now)) as Hcon.
  { intros outcome redelivery. unfold conclude, bind, on_timers. rewrite run_bind, run_bind.
    destruct (update_run st d' self s _ e TimerStatus.Fired now Hs He Hpe eq_refl) as (st1 & self1 & H1 & Hs1).
    destruct (update_run st d' self s _ e TimerStatus.Fenced now Hs He Hpe eq_refl) as (st2 & self2 & H2 & Hs2).
    destruct (disposition_of e outcome);
      first [change (mark_fenced (Entry.wake_id e) now self) with
               (update_entry (C := command) (R := reply) (Entry.wake_id e) (settle TimerStatus.Fenced now) self);
             rewrite H2; simpl; by eexists _, _, _, _, TimerStatus.Fenced
            |change (mark_fired (Entry.wake_id e) now self) with
               (update_entry (C := command) (R := reply) (Entry.wake_id e) (settle TimerStatus.Fired now) self);
             rewrite H1; simpl; by eexists _, _, _, _, TimerStatus.Fired]. }
  destruct r as [[o|o|sn|pr|code msg]|er]; try done; apply Hcon.
Qed.

Lemma put_well s wake e status now : well_parked s → Timers.entries s !! wake = Some e →
  well_parked (Timers.put s wake (Entry.with_status e status now) now).
Proof.
  intros Hw He k x. simpl. destruct (decide (wake = k)) as [<- |]; [rewrite lookup_insert_eq|rewrite lookup_insert_ne by done].
  - intros [= <-]. apply (Hw _ _ He).
  - apply Hw.
Qed.

(** What a list of entries marked at [now] makes of a state. *)
Definition marked (now : AgentTimestampMillis) (due : list Entry.t) (s s' : Timers.t) : Prop :=
  (∀ e, e ∈ due → retired_at now e (Timers.entries s' !! Entry.wake_id e)) ∧
  (∀ k, k ∉ Entry.wake_id <$> due → Timers.entries s' !! k = Timers.entries s !! k).

Lemma deliver_due_run due now st d self s : synced st self s → well_parked s → NoDup (Entry.wake_id <$> due) →
  (∀ e, e ∈ due → Timers.entries s !! Entry.wake_id e = Some e ∧ Entry.status e = TimerStatus.Pending) →
  ∃ st' d' self' os s', run ops deliver (deliver_due due now ∅ self) st d = (st', d', (self', Ok os)) ∧
    length os = length due ∧ synced st' self' s' ∧ well_parked s' ∧ marked now due s s'.
Proof.
  revert st d self s. induction due as [|e due IH]; intros st d self s Hs Hw Hnd Hdue; simpl.
  { eexists _, _, _, _, s. split_and!; [done..|]. split; [by intros ? ?%not_elem_of_nil|done]. }
  apply NoDup_cons in Hnd as [Hn Hnd].
  destruct (Hdue e) as [He Hpe]; [by left|].
  destruct (deliver_entry_run st d self s e now Hs Hw He Hpe) as (st1 & d1 & self1 & o & status & H1 & Hb & Hst & Hs1).
  pose proof (put_well s _ e status now Hw He) as Hw1.
  edestruct IH as (st2 & d2 & self2 & os & s2 & H2 & Hlen & Hs2 & Hw2 & Hm1 & Hm2); [exact Hs1|exact Hw1|done|..].
  { intros x Hx. destruct (Hdue x) as [Hx1 Hx2]; [by right|]. split; [|done]. simpl. rewrite lookup_insert_ne; [done|].
    intros Heq. apply Hn. rewrite Heq. by apply list_elem_of_fmap_2. }
  exists st2, d2, self2, (o :: os), s2. unfold bind. rewrite lookup_empty. rewrite run_bind, H1, Hb, run_bind, H2. simpl.
  split_and!; [done|by rewrite Hlen|done|done|]. split.
  - intros x [-> |Hx]%elem_of_cons; [|by apply Hm1]. exists status. split; [done|].
    rewrite Hm2 by done. simpl. by rewrite lookup_insert_eq.
  - intros k [Hk Hk']%not_elem_of_cons. rewrite Hm2 by done. simpl. by rewrite lookup_insert_ne.
Qed.

(** ** Counting what is due *)

Lemma elem_of_all_due s now e : well_parked s →
  e ∈ Timers.all_due s now ↔ Timers.entries s !! Entry.wake_id e = Some e ∧ Entry.is_due e now = true.
Proof.
  intros Hw. unfold Timers.all_due. rewrite list_elem_of_filter, elem_of_btree_values, Is_true_true. split.
  - intros [Hd [k Hk]]. destruct (Hw _ _ Hk) as [-> _]. done.
  - intros [He Hd]. split; [done|]. by eexists.
Qed.

Lemma NoDup_all_due s now : well_parked s → NoDup (Timers.all_due s now).
Proof.
  intros Hw. apply NoDup_filter. apply (NoDup_fmap_1 Entry.wake_id).
  assert (Entry.wake_id <$> btree_values (Timers.entries s) = btree_keys (Timers.entries s)) as ->;
    [|apply NoDup_btree_keys].
  unfold btree_values, btree_keys. rewrite <-list_fmap_compose. apply list_fmap_ext. intros i [k e] Hi.
  apply list_elem_of_lookup_2, elem_of_btree_entries in Hi. by destruct (Hw _ _ Hi).
Qed.

Lemma NoDup_due_wakes s now l : well_parked s → NoDup l → (∀ e, e ∈ l → e ∈ Timers.all_due s now) →
  NoDup (Entry.wake_id <$> l).
Proof.
  intros Hw Hnd Hl. apply NoDup_fmap_2_strong; [|done]. intros x y Hx%Hl Hy%Hl Hxy.
  apply elem_of_all_due in Hx as [Hx _], Hy as [Hy _]; [|done..]. rewrite Hxy in Hx. congruence.
Qed.

Lemma retired_not_due now e after x : retired_at now e after → after = Some x → Entry.is_due x now = false.
Proof. intros (status & Hst & ->) [= <-]. unfold Entry.is_due. simpl. by destruct status. Qed.

(** Marking a part of what is due leaves the rest due. *)
Lemma marked_rest s s' now batch rest : well_parked s → well_parked s' →
  Timers.all_due s now ≡ₚ batch ++ rest → marked now batch s s' → Timers.all_due s' now ≡ₚ rest.
Proof.
  intros Hw Hw' Hperm [Hm1 Hm2]. pose proof (NoDup_all_due s now Hw) as Hnd.
  assert (∀ e, e ∈ batch ++ rest ↔ e ∈ Timers.all_due s now) as Hin by (intros e; by rewrite Hperm).
  rewrite Hperm in Hnd. apply (NoDup_due_wakes s now _ Hw) in Hnd as Hndw; [|intros e; by rewrite Hin].
  rewrite fmap_app in Hndw. apply NoDup_app in Hndw as (_ & Hdisj & _). apply NoDup_app in Hnd as (_ & _ & Hr).
  apply NoDup_Permutation; [by apply NoDup_all_due|done|]. intros e. rewrite elem_of_all_due by done. split.
  - intros [He Hd]. destruct (decide (Entry.wake_id e ∈ Entry.wake_id <$> batch)) as [Hb|Hb].
    + apply list_elem_of_fmap in Hb as (x & Hx & Hxb). pose proof (Hm1 x Hxb) as Hret. rewrite <-Hx in Hret.
      by rewrite (retired_not_due _ _ _ _ Hret He) in Hd.
    + rewrite (Hm2 _ Hb) in He. assert (e ∈ batch ++ rest) as [Heb|?]%elem_of_app; [|exfalso|done].
      { apply Hin. by apply elem_of_all_due. }
      by apply Hb, list_elem_of_fmap_2.
  - intros He. assert (e ∈ Timers.all_due s now) as Hd by (apply Hin, elem_of_app; by right).
    apply elem_of_all_due in Hd as [He' Hd]; [|done]. split; [|done]. rewrite Hm2; [done|].
    intros Hb. eapply Hdisj; [done|]. by apply list_elem_of_fmap_2.
Qed.

(** ** Passes *)

Context (settings : AgentWakeScannerSettings.t) (now : AgentTimestampMillis).
Let batch_size : nat := AgentWakeScannerSettings.max_batch_size settings `max` 1.

(** The pass from a facade in step with the store: a batch is marked. *)
Lemma scan_run st d self s : synced st self s → well_parked s →
  ∃ st' d' self' scan s' batch rest, run ops deliver (scan_due settings now self) st d = (st', d', (self', Ok scan)) ∧
    Timers.all_due s now ≡ₚ batch ++ rest ∧ length batch = (batch_size `min` Timers.due_entry_count s now)%nat ∧
    synced st' self' s' ∧ well_parked s' ∧ marked now batch s s'.
Proof.
  intros Hs Hw. destruct (Hs) as (_ & rec & Hr & Hst & _). rewrite (scan_cached _ _ _ _ Hr), Hst.
  set (sorted := merge_sort due_before (Timers.all_due s now)).
  assert (sorted ≡ₚ Timers.all_due s now) as Hperm by apply merge_sort_Permutation.
  assert (Timers.due_entries s now (AgentWakeScannerSettings.max_batch_size settings) = take batch_size sorted) as -> by done.
  assert (∀ e, e ∈ take batch_size sorted → e ∈ Timers.all_due s now) as Hin.
  { intros e (n & Hn & _)%elem_of_take. rewrite <-Hperm. by eapply list_elem_of_lookup_2. }
  edestruct (deliver_due_run (take batch_size sorted) now st d self s Hs Hw)
    as (st' & d' & self' & os & s' & Hrun & Hlen & Hs' & Hw' & Hm).
  - eapply NoDup_due_wakes; [exact Hw| |exact Hin]. eapply sublist_NoDup; [|apply sublist_take].
    rewrite Hperm. by apply NoDup_all_due.
  - intros e He%Hin. apply elem_of_all_due in He as [He Hd]; [|done]. split; [done|].
    unfold Entry.is_due in Hd. by destruct (Entry.status e).
  - unfold bind. rewrite run_bind, Hrun. simpl.
    eexists _, _, _, _, s', (take batch_size sorted), (drop batch_size sorted). split_and!; [done| | |done..].
    + by rewrite take_drop.
    + rewrite length_take. unfold Timers.due_entry_count. by rewrite Hperm.
Qed.

Fixpoint passes (n : nat) (st : St) (d : D) (self : Facade.t) : St * D * Facade.t :=
  match n with
  | 0%nat => (st, d, self)
  | S n => let '(st, d, (self, _)) := run ops deliver (scan_due settings now self) st d in passes n st d self
  end.

(** Of [s0], only what was due is changed, and that is retired. *)
Definition only_retired (s0 s : Timers.t) : Prop :=
  ∀ k, Timers.entries s !! k = Timers.entries s0 !! k ∨
    ∃ e, Timers.entries s0 !! k = Some e ∧ Entry.is_due e now = true ∧ retired_at now e (Timers.entries s !! k).

Lemma only_retired_marked s0 s s' batch : only_retired s0 s → well_parked s →
  (∀ e, e ∈ batch → e ∈ Timers.all_due s now) → marked now batch s s' → only_retired s0 s'.
Proof.
  intros H0 Hw Hb [Hm1 Hm2] k. destruct (decide (k ∈ Entry.wake_id <$> batch)) as [Hk|Hk].
  - apply list_elem_of_fmap in Hk as (e & -> & He). pose proof (Hm1 e He) as Hret.
    apply Hb in He. apply elem_of_all_due in He as [He Hd]; [|done].
    destruct (H0 (Entry.wake_id e)) as [Heq|(e0 & _ & _ & Hr0)].
    + right. exists e. rewrite <-Heq. done.
    + by rewrite (retired_not_due _ _ _ _ Hr0 He) in Hd.
  - rewrite Hm2 by done. apply H0.
Qed.

Lemma passes_run n st d self s0 s : synced st self s → well_parked s → only_retired s0 s →
  ∃ st' d' self' s', passes n st d self = (st', d', self') ∧ synced st' self' s' ∧ well_parked s' ∧
    only_retired s0 s' ∧ Timers.due_entry_count s' now = (Timers.due_entry_count s now - n * batch_size)%nat.
Proof.
  revert st d self s. induction n as [|n IH]; intros st d self s Hs Hw H0.
  { eexists _, _, _, s. split_and!; [done..|]. lia. }
  destruct (scan_run st d self s Hs Hw) as (st1 & d1 & self1 & scan & s1 & batch & rest & Hrun & Hp & Hl & Hs1 & Hw1 & Hm).
  pose proof (marked_rest _ _ _ _ _ Hw Hw1 Hp Hm) as Hrest.
  edestruct (IH st1 d1 self1 s1) as (st2 & d2 & self2 & s2 & H2 & Hs2 & Hw2 & H02 & Hc); [done|done| |].
  { eapply only_retired_marked; [done..| |done]. intros e He. rewrite Hp. apply elem_of_app. by left. }
  exists st2, d2, self2, s2. simpl. rewrite Hrun. split_and!; [done..|]. rewrite Hc.
  unfold Timers.due_entry_count in *. rewrite Hrest. rewrite Hp, length_app in Hl |- *. lia.
Qed.

(** The first pass of a fresh facade loads the record and goes on with it. *)
Lemma fresh_scan_run st d self rec : persistence_id self = pid → record self = None → view st pid = Some rec →
  AgentSchemaPolicy.check (schema_policy self) WakeTimerState (Timers.schema_version (StateRecord.state rec)) = Ok tt →
  ∃ st1, run ops deliver (scan_due settings now self) st d =
           run ops deliver (scan_due settings now (set_record self (Some rec))) st1 d ∧
    synced st1 (set_record self (Some rec)) (StateRecord.state rec).
Proof.
  intros Hp Hr Hv Hc. destruct (scan_uncached (Snap := Snap) settings now self Hr) as (k & Hk & Hkr). rewrite Hk. simpl.
  rewrite Hp. destruct (answers_load st pid) as (st1 & o & Hl). rewrite Hl, Hkr.
  destruct (law_load _ _ _ _ Hl) as [Hv1 Ho]. rewrite (Ho o eq_refl), Hv. simpl. rewrite Hc. exists st1. split; [done|].
  split; [done|]. exists rec. by rewrite Hv1, Hv.
Qed.

(** C33. Passes retire everything due.  A fresh scanner whose store answers and whose deliveries
    are all disposed of needs no more passes than the due entries fill batches: after them the
    store's record has nothing due at that time, each entry that was due is marked fired or
    fenced in place, and no other entry is touched. *)
Theorem scanner_drains n (st : St) (d : D) (self : Facade.t) rec
    (Hpid : persistence_id self = pid) (Hfresh : record self = None) (Hview : view st pid = Some rec)
    (Hschema : AgentSchemaPolicy.check (schema_policy self) WakeTimerState
                 (Timers.schema_version (StateRecord.state rec)) = Ok tt)
    (Hparked : well_parked (StateRecord.state rec))
    (Henough : (Timers.due_entry_count (StateRecord.state rec) now ≤ n * batch_size)%nat) :
  ∃ rec', view (passes n st d self).1.1 pid = Some rec' ∧
    Timers.due_entry_count (StateRecord.state rec') now = 0%nat ∧
    ∀ k e, Timers.entries (StateRecord.state rec) !! k = Some e →
      if Entry.is_due e now then retired_at now e (Timers.entries (StateRecord.state rec') !! k)
      else Timers.entries (StateRecord.state rec') !! k = Some e.
Proof.
  set (s0 := StateRecord.state rec) in *.
  assert (∃ rec', view (passes n st d self).1.1 pid = Some rec' ∧ well_parked (StateRecord.state rec') ∧
    only_retired s0 (StateRecord.state rec') ∧ Timers.due_entry_count (StateRecord.state rec') now = 0%nat)
    as (rec' & Hv' & Hw' & H0 & Hc).
  { destruct n as [|n]; [exists rec; split_and!; [done|done|by left|fold s0; lia]|].
    destruct (fresh_scan_run st d self rec Hpid Hfresh Hview Hschema) as (st1 & Heq & Hs).
    destruct (passes_run (S n) st1 d _ s0 s0 Hs Hparked) as (st' & d' & self' & s' & Hp & Hs' & Hw' & H0 & Hc); [by left|].
    simpl passes in *. rewrite Heq, Hp. destruct Hs' as (_ & rec' & _ & <- & Hv'). exists rec'. split_and!; [done..|]. lia. }
  exists rec'. split_and!; [done..|]. intros k e He.
  destruct (H0 k) as [Hk|(e0 & He0 & Hd & Hr)]; [|rewrite He in He0; injection He0 as <-; by rewrite Hd].
  rewrite Hk, He. destruct (Entry.is_due e now) eqn:Hd; [exfalso|done].
  rewrite He in Hk. destruct (Hw' _ _ Hk) as [<- _].
  assert (e ∈ Timers.all_due (StateRecord.state rec') now) as Hin by by apply elem_of_all_due.
  unfold Timers.due_entry_count in Hc. apply length_zero_iff_nil in Hc. rewrite Hc in Hin. by apply not_elem_of_nil in Hin.
Qed.

(** ** Refused batches *)

(** The entity never takes [e]. *)
Definition refused (e : Entry.t) : Prop :=
  deliverable e ∧ ∀ d c, wake_admission_command (Entry.binding e) = Ok c → disposed (deliver d (scope_of e, c)).2 = false.

Lemma refused_run e st d self : refused e →
  ∃ d' o, run ops deliver (deliver_entry e now self) st d = (st, d', (self, Ok o)).
Proof.
  intros [[(scope & Hscope) (c & Hc)] Hr]. unfold deliver_entry, bind at 1, pure at 1. rewrite Hscope. simpl.
  unfold bind at 1, pure at 1. rewrite Hc. simpl. specialize (Hr d c Hc).
  assert (scope = scope_of e) as ->.
  { unfold AgentTaskScope.new in Hscope. destruct (validate_tenant _); simplify_eq/=. done. }
  destruct (deliver d _) as [d' [[o|o|sn|pr|code msg]|er]]; simpl in *; try done; by eexists _, _.
Qed.

Lemma refused_due_run due blocked st d self : (∀ e, e ∈ due → refused e) →
  ∃ d' os, run ops deliver (deliver_due due now blocked self) st d = (st, d', (self, Ok os)).
Proof.
  revert blocked d. induction due as [|e due IH]; intros blocked d Hdue; simpl; [by eexists _, _|].
  assert (∀ x, x ∈ due → refused x) as Hdue' by (intros x ?; apply Hdue; by right).
  destruct (blocked !! task_key e); unfold bind; rewrite run_bind.
  - destruct (IH blocked d Hdue') as (d' & os & ->). by eexists _, _.
  - destruct (refused_run e st d self) as (d1 & o & ->); [apply Hdue; by left|]. rewrite run_bind.
    edestruct IH as (d' & os & ->); [done|]. by eexists _, _.
Qed.

(** A batch of refused entries stops the scanner for everyone.  If the entries that fill the
    first batch are refused by their tasks - a finished task refuses all that is left of it -
    no number of passes changes the store: whatever else is due, of whichever task, stays
    pending until someone cancels those entries. *)
Theorem refused_batch_starves n (st : St) (d : D) (self : Facade.t) s (Hsync : synced st self s)
    (Hrefused : ∀ e, e ∈ Timers.due_entries s now (AgentWakeScannerSettings.max_batch_size settings) → refused e) :
  ∃ d', passes n st d self = (st, d', self).
Proof.
  destruct (Hsync) as (_ & rec & Hr & Hs & _). revert d. induction n as [|n IH]; intros d; [by eexists|]. simpl.
  rewrite (scan_cached _ _ _ _ Hr), Hs. unfold bind. rewrite run_bind.
  destruct (refused_due_run _ ∅ st d self Hrefused) as (d' & os & ->). simpl. apply IH.
Qed.
End Drain.

(** ** What a scanner cannot see *)

(** A pass over a cached record in which nothing is due. *)
Lemma idle_scan {St D Snap} ops (deliver : D → _ → D * result AgentExchangeDeliveryError.t (Reply.t Snap))
    settings now (self : Facade.t) rec (st : St) d :
  record self = Some rec → Timers.all_due (StateRecord.state rec) now = [] →
  run ops deliver (scan_due settings now self) st d =
  (st, d, (self, Ok (AgentWakeScan.mk now 0 (AgentWakeScannerSettings.max_batch_size settings) false []))).
Proof.
  intros Hr Hd. rewrite (scan_cached _ _ _ _ Hr). unfold Timers.due_entries, Timers.due_entry_count.
  rewrite Hd. change (merge_sort due_before []) with (@nil Entry.t). by rewrite take_nil.
Qed.

Module WakeTimers_demo.
Definition task (name : string) : AgentTaskId.t := AgentTaskId.Self name.
Definition entry (due : Z) (name : string) : Entry.t :=
  Entry.new (Wake_demo.binding due 0 AgentWakeTriggerKind.DurableTimer) (task name) 0.
Definition policy : AgentSchemaPolicy.t := AgentSchemaPolicy.n_plus_one.
Definition pid : PersistenceId.t := agent_wake_timer_store_persistence_id.
Definition scanner : Facade.t := Facade.new "memory".
Definition outcome : AgentTaskOutcome.t :=
  AgentTaskOutcome.mk AgentTaskStatus.Assigned (AgentAssignmentGeneration.new 1) None None 0 true None.
Definition take_it (d : unit) (c : AgentTaskScope.t * Command.t) :
    unit * result AgentExchangeDeliveryError.t (Reply.t unit) := (tt, Ok (Reply.Applied outcome)).
Definition state (es : list Entry.t) : Timers.t :=
  Timers.mk CURRENT_AGENT_WAKE_TIMER_SCHEMA_VERSION (list_to_map ((fun e => (Entry.wake_id e, e)) <$> es)) 0.
Definition store (es : list Entry.t) : gmap PersistenceId.t (StateRecord.t Timers.t) :=
  {[pid := StateRecord.new (state es) 1]}.
Definition ops := InMemoryDurableStateStore.store (S := Timers.t).

(** A scanner after a pass over an empty store, and the store after an entity parked a re-wake. *)
Definition idle : Facade.t := (run ops take_it (scan_due AgentWakeScannerSettings.default 0 scanner) ∅ tt).2.1.
Definition parked_store : gmap PersistenceId.t (StateRecord.t Timers.t) :=
  (run ops take_it (park "memory" pid (entry 5 "root")) ∅ tt).1.1.
End WakeTimers_demo.
Import WakeTimers_demo.

(** A scanner does not see what others park.  A scanner passes once over an empty store; then
    an entity parks a re-wake due at 5 through its own facade, and the store holds it.  However
    often and however late the same scanner scans, it reads nothing, delivers nothing, and
    reports that nothing is due: it goes back to the store only after losing a write, and with
    nothing due it never writes. *)
Theorem scanner_blind_to_parked (now : AgentTimestampMillis) :
  run ops take_it (scan_due AgentWakeScannerSettings.default 0 scanner) ∅ tt =
    (∅, tt, (idle, Ok (AgentWakeScan.mk 0 0 32 false []))) ∧
  parked_store !! pid = Some (StateRecord.new (Timers.put (Timers.empty 0) (Entry.wake_id (entry 5 "root")) (entry 5 "root") 0) 1) ∧
  (5 <= now → Timers.due_entry_count (Timers.put (Timers.empty 0) (Entry.wake_id (entry 5 "root")) (entry 5 "root") 0) now = 1%nat) ∧
  run ops take_it (scan_due AgentWakeScannerSettings.default now idle) parked_store tt =
    (parked_store, tt, (idle, Ok (AgentWakeScan.mk now 0 32 false []))).
Proof.
  split; [by vm_compute|]. split; [by vm_compute|]. split.
  - intros Hnow. unfold Timers.due_entry_count, Timers.all_due, btree_values, btree_entries. simpl.
    rewrite insert_empty, map_to_list_singleton. simpl. unfold Entry.is_due. simpl.
    rewrite filter_cons, decide_True; [done|]. apply Is_true_true, Z.leb_le. by vm_compute in Hnow |- *.
  - by eapply idle_scan; [vm_compute|].
Qed.

(** ** Witnesses *)

Lemma state_well (es : list Entry.t) : Forall deliverable es → well_parked (WakeTimers_demo.state es).
Proof.
  intros Hes k e He. simpl in He. apply elem_of_list_to_map_2, list_elem_of_fmap in He as (x & [= -> ->] & Hx).
  split; [done|]. rewrite Forall_forall in Hes. by apply Hes.
Qed.

(** Two passes of a scanner with batches of two retire three due entries and leave a later one. *)
Definition demo_entries : list Entry.t := [entry 10 "a"; entry 20 "b"; entry 30 "a"; entry 50 "a"].

Lemma demo_deliverable : Forall deliverable demo_entries.
Proof. repeat constructor; eexists; vm_compute; reflexivity. Qed.

Lemma scanner_drains_witness :
  ∃ rec', memory_view (passes (Snap := unit) ops take_it (AgentWakeScannerSettings.new 2) 40 2
            (WakeTimers_demo.store demo_entries) tt scanner).1.1 pid = Some rec' ∧
    Timers.due_entry_count (StateRecord.state rec') 40 = 0%nat.
Proof.
  pose proof (scanner_drains ops memory_view take_it pid (fun _ _ => eq_refl) (AgentWakeScannerSettings.new 2) 40 2
    (WakeTimers_demo.store demo_entries) tt scanner (StateRecord.new (WakeTimers_demo.state demo_entries) 1)
    eq_refl eq_refl) as H.
  destruct H as (rec' & Hv & Hc & _).
  - vm_compute. reflexivity.
  - vm_compute. reflexivity.
  - apply state_well, demo_deliverable.
  - vm_compute. lia.
  - exists rec'. split; [exact Hv|exact Hc].
Defined.

(** Deliveries of the one task refused at its first entry: the third is held back. *)
Definition refuse_a (d : unit) (c : AgentTaskScope.t * Command.t) :
    unit * result AgentExchangeDeliveryError.t (Reply.t unit) :=
  (tt, if bool_decide (AgentTaskScope.task c.1 = task "a") then Ok (Reply.Rejected "task-terminal" "")
       else Ok (Reply.Applied outcome)).

Lemma deliveries_in_due_order_witness :
  let tr := (run_events ops refuse_a (scan_due AgentWakeScannerSettings.default 40 scanner)
               (WakeTimers_demo.store demo_entries) tt).1 in
  length (deliveries tr) = 2%nat ∧ ∃ s, reads scanner 40 tr s ∧ ∃ es, Forall2 sent es (deliveries tr).
Proof.
  split; [vm_compute; reflexivity|].
  pose proof (deliveries_in_due_order AgentWakeScannerSettings.default 40 scanner _ _
    (run_events_exec ops refuse_a (scan_due AgentWakeScannerSettings.default 40 scanner)
       (WakeTimers_demo.store demo_entries) tt)) as H.
  destruct H as (s & Hs & es & Hes & _); [vm_compute; discriminate|].
  exists s. split; [exact Hs|]. exists es. exact Hes.
Defined.

(** The entries of task [a] fill every batch of one, and [b] waits. *)
Lemma refused_batch_starves_witness :
  ∃ d', passes (Snap := unit) ops refuse_a (AgentWakeScannerSettings.new 1) 40 100 (WakeTimers_demo.store demo_entries) tt
          (set_record scanner (Some (StateRecord.new (WakeTimers_demo.state demo_entries) 1))) =
        (WakeTimers_demo.store demo_entries, d',
         set_record scanner (Some (StateRecord.new (WakeTimers_demo.state demo_entries) 1))).
Proof.
  apply (refused_batch_starves ops memory_view refuse_a pid (AgentWakeScannerSettings.new 1) 40 100 _ _ _
           (WakeTimers_demo.state demo_entries)).
  - split; [reflexivity|]. eexists. split; [reflexivity|]. split; [reflexivity|]. vm_compute. reflexivity.
  - assert (Timers.due_entries (WakeTimers_demo.state demo_entries) 40
              (AgentWakeScannerSettings.max_batch_size (AgentWakeScannerSettings.new 1)) = [entry 10 "a"]) as ->
      by (vm_compute; reflexivity).
    intros e ->%list_elem_of_singleton. split; [|intros [] c _; reflexivity].
    pose proof demo_deliverable as Hd. rewrite Forall_forall in Hd. apply Hd. by left.
Defined.

(** One process parks an entry, another scans it: the entry is marked in the second commit. *)
Definition scan_and_park (call : timer_call) : Prop := match call with CallPrune _ => False | _ => True end.
Abbreviation demo_system := (WakeTimerProps.system (St := gmap PersistenceId.t (StateRecord.t Timers.t)) (Snap := unit)).
Definition demo_start : demo_system := System ∅ [Done scanner; Done scanner] (World [] []).
Definition demo_answer (i : nat) : demo_system → demo_system := answer_process ops i (fun c => (take_it tt c).2).
Definition demo_end : demo_system :=
  demo_answer 1 (demo_answer 1 (demo_answer 1 (begin_process 1 (CallScan AgentWakeScannerSettings.default 40)
    (demo_answer 0 (demo_answer 0 (begin_process 0
       (CallSchedule (Entry.binding (entry 10 "a")) (task "a") 0) demo_start)))))).

Lemma parked_until_answered_witness :
  memory_view (WakeTimerProps.store demo_end) pid = current (committed (past demo_end)) ∧
  Entry.status <$> (entries_at (committed (past demo_end)) 2 !! Entry.wake_id (entry 10 "a")) = Some TimerStatus.Fired.
Proof.
  split; [|vm_compute; reflexivity].
  apply (parked_until_answered ops memory_view pid scan_and_park
           (System ∅ [] (World [] [])) demo_end); [by split_and!| | |by intros [b Hb]].
  - unfold demo_end, demo_answer.
    repeat (etrans; [|first [apply answer_process_step|by apply begin_process_step]]).
    unfold demo_start. transitivity (System ∅ [Done scanner] (World [] []) : demo_system); apply rtc_once;
      [apply (Joins ops pid scan_and_park ∅ [])|apply (Joins ops pid scan_and_park ∅ [Done scanner])]; by split.
  - vm_compute. discriminate.
Defined.
