(* ===== verification/Authority.v ===== *)
(** * What an agent may do: [rakka-agent/src/definition.rs]

    A definition publishes an authority envelope; a setup narrows it for one run, and a
    settings revision selects and revokes within it.  [narrowing_violations] is the single
    check behind all of them: it lists, per dimension of authority, every way in which one
    envelope exceeds another.

    A [BTreeMap] or [BTreeSet] is a [gmap] or [gset] and is iterated in key order; the lists
    that the source pushes to are appended to in the same order.  A [u32] ceiling is widened
    to [u64] before it is compared, which on [Z] is the identity. *)

From S2P Require Import Prelude AgentIdentity AgentSchema CompiledPlan Budget Delegation.

(** ** Identifiers *)

Module AgentDefinitionId.
Record t := Self { as_str : string }.
#[global] Instance eq_dec : EqDecision t.
Proof. solve_decision. Defined.
Definition new : string → AgentIdentityResult t := validated_id "agent_definition_id" Self.
End AgentDefinitionId.

Module AgentModelProfileId.
Record t := Self { as_str : string }.
#[global] Instance eq_dec : EqDecision t.
Proof. solve_decision. Defined.
#[global] Instance as_str_inj : Inj (=) (=) as_str.
Proof. newtype_inj. Qed.
#[global] Instance countable : Countable t := inj_countable' as_str Self ltac:(by intros []).
#[global] Instance ordkey : OrdKey t := ordkey_via as_str.
Definition new : string → AgentIdentityResult t := validated_id "agent_model_profile_id" Self.
End AgentModelProfileId.

Module AgentExecutionPolicyRef.
Record t := Self { as_str : string }.
#[global] Instance eq_dec : EqDecision t.
Proof. solve_decision. Defined.
Definition new : string → AgentIdentityResult t := validated_id "agent_execution_policy_ref" Self.
End AgentExecutionPolicyRef.

Module AgentPolicyRef.
Record t := Self { as_str : string }.
#[global] Instance eq_dec : EqDecision t.
Proof. solve_decision. Defined.
Definition new : string → AgentIdentityResult t := validated_id "agent_policy_ref" Self.
End AgentPolicyRef.

Module PrincipalRef.
Record t := mk { principal_type : string; principal_id : string; display_name : option string }.
End PrincipalRef.

Module AgentRevisionProvenance.
Record t := mk {
  principal : PrincipalRef.t;
  accepted_at : AgentTimestampMillis;
  causation_id : string;
  audit_ref : string;
}.
End AgentRevisionProvenance.
Module RevisionProvenance := AgentRevisionProvenance.

#[global] Instance AgentId_as_str_inj : Inj (=) (=) AgentId.as_str.
Proof. newtype_inj. Qed.
#[global] Instance AgentId_countable : Countable AgentId.t :=
  inj_countable' AgentId.as_str AgentId.Self ltac:(by intros []).
#[global] Instance AgentId_ordkey : OrdKey AgentId.t := ordkey_via AgentId.as_str.

(** ** Classes and capabilities *)

Module AgentEffectSafetyClass.
Inductive t := ReadOnly | Idempotent | Reconcileable | NonIdempotent.
#[global] Instance eq_dec : EqDecision t.
Proof. solve_decision. Defined.
Definition as_label (self : t) : string :=
  match self with
  | ReadOnly => "read-only"
  | Idempotent => "idempotent"
  | Reconcileable => "reconcileable"
  | NonIdempotent => "non-idempotent"
  end.
Definition strictness (self : t) : Z :=
  match self with ReadOnly => 0 | Idempotent => 1 | Reconcileable => 2 | NonIdempotent => 3 end.
End AgentEffectSafetyClass.
Module SafetyClass := AgentEffectSafetyClass.

Module AgentOperationClass.
Inductive t := Interactive | BoundedAsync | Continuous.
#[global] Instance eq_dec : EqDecision t.
Proof. solve_decision. Defined.
(** The position in the declaration, which orders a [BTreeSet] of them. *)
Definition index (self : t) : Z := match self with Interactive => 0 | BoundedAsync => 1 | Continuous => 2 end.
#[global] Instance index_inj : Inj (=) (=) index.
Proof. intros [] []; simpl; congruence. Qed.
#[global] Instance countable : Countable t :=
  inj_countable index (fun n => find_first (fun k => index k =? n) [Interactive; BoundedAsync; Continuous])
    ltac:(by intros []).
#[global] Instance ordkey : OrdKey t := ordkey_via index.
Definition is_unattended (self : t) : bool := match self with Interactive => false | _ => true end.
Definition as_label (self : t) : string :=
  match self with
  | Interactive => "interactive" | BoundedAsync => "bounded-async" | Continuous => "continuous"
  end.
End AgentOperationClass.
Module OperationClass := AgentOperationClass.

Definition capability_index (kind : CapabilityKind.t) : Z :=
  match kind with
  | CapabilityKind.Handoff => 0 | CapabilityKind.Delegation => 1
  | CapabilityKind.Team => 2 | CapabilityKind.Moderation => 3
  end.
#[global] Instance capability_index_inj : Inj (=) (=) capability_index.
Proof. intros [] []; simpl; congruence. Qed.
#[global] Instance capability_ordkey : OrdKey CapabilityKind.t := ordkey_via capability_index.
Definition capability_label (kind : CapabilityKind.t) : string :=
  match kind with
  | CapabilityKind.Handoff => "handoff" | CapabilityKind.Delegation => "delegation"
  | CapabilityKind.Team => "team" | CapabilityKind.Moderation => "moderation"
  end.

Module AgentToolDeclaration.
Record t := mk {
  safety : SafetyClass.t;
  capabilities : gset AgentCapabilityId.t;
  credential_binding : option AgentCredentialBindingRef.t;
  execution_policy : option AgentExecutionPolicyRef.t;
  environments : gset AgentEnvironmentRef.t;
}.
#[global] Instance eq_dec : EqDecision t.
Proof. solve_decision. Defined.

Definition new (safety : SafetyClass.t) : t := mk safety ∅ None None ∅.
Definition with_capability (self : t) (capability : AgentCapabilityId.t) : t :=
  mk (safety self) ({[capability]} ∪ capabilities self) (credential_binding self) (execution_policy self)
    (environments self).
Definition with_environment (self : t) (environment : AgentEnvironmentRef.t) : t :=
  mk (safety self) (capabilities self) (credential_binding self) (execution_policy self)
    ({[environment]} ∪ environments self).
Definition with_credential_binding (self : t) (binding : AgentCredentialBindingRef.t) : t :=
  mk (safety self) (capabilities self) (Some binding) (execution_policy self) (environments self).
Definition with_execution_policy (self : t) (policy : AgentExecutionPolicyRef.t) : t :=
  mk (safety self) (capabilities self) (credential_binding self) (Some policy) (environments self).
End AgentToolDeclaration.
Module ToolDeclaration := AgentToolDeclaration.

(** ** Violations *)

Module AgentEnvelopeDimension.
Inductive t :=
| Tool | ToolCapability | EffectSafety | ToolCredentialBinding | ToolExecutionPolicy | ModelProfile
| WorkflowTool | TaskDefinition | Collaborator | KnowledgeSpace | Environment | CredentialBinding
| CoordinationCapability | OperationClass | MandatoryGuardrail | Budget.
#[global] Instance eq_dec : EqDecision t.
Proof. solve_decision. Defined.

Definition as_label (self : t) : string :=
  match self with
  | Tool => "undeclared-tool"
  | ToolCapability => "widened-tool-capability"
  | EffectSafety => "downgraded-effect-safety"
  | ToolCredentialBinding => "widened-tool-credential-binding"
  | ToolExecutionPolicy => "rerouted-tool-execution-policy"
  | ModelProfile => "unapproved-model-profile"
  | WorkflowTool => "undeclared-workflow-tool"
  | TaskDefinition => "unaccepted-task-definition"
  | Collaborator => "unauthorized-collaborator"
  | KnowledgeSpace => "widened-knowledge-access"
  | Environment => "widened-environment-access"
  | CredentialBinding => "widened-credential-access"
  | CoordinationCapability => "unauthorized-coordination-capability"
  | OperationClass => "unadmitted-operation-class"
  | MandatoryGuardrail => "weakened-mandatory-guardrail"
  | Budget => "widened-budget"
  end.
End AgentEnvelopeDimension.
Module Dimension := AgentEnvelopeDimension.

Module AgentEnvelopeViolation.
Record t := new { dimension : Dimension.t; detail : string }.
#[global] Instance eq_dec : EqDecision t.
Proof. solve_decision. Defined.
Definition reason_code (self : t) : string := Dimension.as_label (dimension self).
Definition display (self : t) : string := Dimension.as_label (dimension self) +:+ ": " +:+ detail self.
End AgentEnvelopeViolation.
Module Violation := AgentEnvelopeViolation.

(** ** Budget ceilings *)

Definition ceilings_unbounded : AgentBudgetCeilings.t :=
  AgentBudgetCeilings.mk None None None None None None None None None.

(** The nine ceilings with their names, in the order of the source. *)
Definition ceiling_dimensions : list (string * (AgentBudgetCeilings.t → option Z)) :=
  [("max_loop_iterations", AgentBudgetCeilings.max_loop_iterations);
   ("max_model_calls", AgentBudgetCeilings.max_model_calls);
   ("max_tool_calls", AgentBudgetCeilings.max_tool_calls);
   ("max_effects", AgentBudgetCeilings.max_effects);
   ("max_effect_attempts", AgentBudgetCeilings.max_effect_attempts);
   ("max_tokens", AgentBudgetCeilings.max_tokens);
   ("max_cost_micros", AgentBudgetCeilings.max_cost_micros);
   ("max_wall_clock_millis", AgentBudgetCeilings.max_wall_clock_millis);
   ("max_concurrent_effects", AgentBudgetCeilings.max_concurrent_effects)].

(** The body of the loop over the dimensions. *)
Definition ceiling_violation (name : string) (ceiling proposed : option Z) : list Violation.t :=
  match ceiling with
  | None => []
  | Some ceiling =>
      match proposed with
      | None =>
          [Violation.new Dimension.Budget
             (name +:+ " is bounded at " +:+ pretty ceiling +:+ " but the narrowed envelope is unbounded")]
      | Some proposed =>
          if proposed >? ceiling then
            [Violation.new Dimension.Budget
               (name +:+ " " +:+ pretty proposed +:+ " exceeds the ceiling " +:+ pretty ceiling)]
          else []
      end
  end.

Definition ceilings_narrowing_violations (self candidate : AgentBudgetCeilings.t) : list Violation.t :=
  '(name, get) ← ceiling_dimensions; ceiling_violation name (get self) (get candidate).

(** ** The envelope *)

Definition execution_policy_label (policy : option AgentExecutionPolicyRef.t) : string :=
  match policy with
  | None => "no execution policy"
  | Some policy => "execution policy " +:+ AgentExecutionPolicyRef.as_str policy
  end.

(** [display] is the [Display] of the values. *)
Definition collect_subset_violations {T} `{Countable T, !OrdKey T} (display : T → string)
    (granted candidate : gset T) (dimension : Dimension.t) (noun : string) : list Violation.t :=
  (fun value => Violation.new dimension (noun +:+ " " +:+ display value +:+ " is not granted by the definition"))
    <$> btree_elements (candidate ∖ granted).

Module AgentAuthorityEnvelope.
Record t := mk {
  tools : gmap AgentToolId.t ToolDeclaration.t;
  model_profiles : gset AgentModelProfileId.t;
  workflow_tools : gset AgentWorkflowToolId.t;
  task_definitions : gset AgentTaskDefinitionId.t;
  collaborators : gset AgentId.t;
  knowledge_spaces : gset KnowledgeSpaceId.t;
  environments : gset AgentEnvironmentRef.t;
  credential_bindings : gset AgentCredentialBindingRef.t;
  coordination_capabilities : gset CapabilityKind.t;
  operation_classes : gset OperationClass.t;
  mandatory_guardrails : gset AgentGuardrailStageId.t;
  budgets : AgentBudgetCeilings.t;
}.

Definition empty : t := mk ∅ ∅ ∅ ∅ ∅ ∅ ∅ ∅ ∅ ∅ ∅ ceilings_unbounded.

(** The checks of one declared tool against what the definition declared for it. *)
Definition tool_violations (tool : AgentToolId.t) (declared declaration : ToolDeclaration.t) : list Violation.t :=
  let name := AgentToolId.as_str tool in
  ((fun capability =>
      Violation.new Dimension.ToolCapability
        ("tool " +:+ name +:+ " is not granted the capability " +:+ AgentCapabilityId.as_str capability))
     <$> btree_elements (ToolDeclaration.capabilities declaration ∖ ToolDeclaration.capabilities declared)) ++
  (if SafetyClass.strictness (ToolDeclaration.safety declaration) <?
      SafetyClass.strictness (ToolDeclaration.safety declared) then
     [Violation.new Dimension.EffectSafety
        ("tool " +:+ name +:+ " is declared " +:+ SafetyClass.as_label (ToolDeclaration.safety declared) +:+
         " but the narrowed envelope claims " +:+ SafetyClass.as_label (ToolDeclaration.safety declaration))]
   else []) ++
  match ToolDeclaration.credential_binding declaration with
  | Some binding =>
      if bool_decide (ToolDeclaration.credential_binding declared ≠ Some binding) then
        [Violation.new Dimension.ToolCredentialBinding
           ("tool " +:+ name +:+ " is not bound to the credential " +:+ AgentCredentialBindingRef.as_str binding)]
      else []
  | None => []
  end ++
  (if bool_decide (ToolDeclaration.execution_policy declaration ≠ ToolDeclaration.execution_policy declared) then
     [Violation.new Dimension.ToolExecutionPolicy
        ("tool " +:+ name +:+ " is routed through " +:+
         execution_policy_label (ToolDeclaration.execution_policy declared) +:+
         " and the narrowed envelope may not reroute it through " +:+
         execution_policy_label (ToolDeclaration.execution_policy declaration))]
   else []) ++
  ((fun environment =>
      Violation.new Dimension.Environment
        ("tool " +:+ name +:+ " is not granted the environment " +:+ AgentEnvironmentRef.as_str environment))
     <$> btree_elements (ToolDeclaration.environments declaration ∖ ToolDeclaration.environments declared)).

Definition tools_violations (self candidate : t) : list Violation.t :=
  '(tool, declaration) ← btree_entries (tools candidate);
  match tools self !! tool with
  | None =>
      [Violation.new Dimension.Tool
         ("tool " +:+ AgentToolId.as_str tool +:+ " is not declared by the definition")]
  | Some declared => tool_violations tool declared declaration
  end.

Definition narrowing_violations (self candidate : t) : list Violation.t :=
  tools_violations self candidate ++
  collect_subset_violations AgentModelProfileId.as_str (model_profiles self) (model_profiles candidate)
    Dimension.ModelProfile "model profile" ++
  collect_subset_violations AgentWorkflowToolId.as_str (workflow_tools self) (workflow_tools candidate)
    Dimension.WorkflowTool "workflow tool" ++
  collect_subset_violations AgentTaskDefinitionId.as_str (task_definitions self) (task_definitions candidate)
    Dimension.TaskDefinition "task definition" ++
  collect_subset_violations AgentId.as_str (collaborators self) (collaborators candidate)
    Dimension.Collaborator "collaborator" ++
  collect_subset_violations KnowledgeSpaceId.as_str (knowledge_spaces self) (knowledge_spaces candidate)
    Dimension.KnowledgeSpace "knowledge space" ++
  collect_subset_violations AgentEnvironmentRef.as_str (environments self) (environments candidate)
    Dimension.Environment "environment" ++
  collect_subset_violations AgentCredentialBindingRef.as_str (credential_bindings self)
    (credential_bindings candidate) Dimension.CredentialBinding "credential binding" ++
  collect_subset_violations capability_label (coordination_capabilities self)
    (coordination_capabilities candidate) Dimension.CoordinationCapability "coordination capability" ++
  collect_subset_violations OperationClass.as_label (operation_classes self) (operation_classes candidate)
    Dimension.OperationClass "operation class" ++
  ((fun stage =>
      Violation.new Dimension.MandatoryGuardrail
        ("mandatory guardrail stage " +:+ AgentGuardrailStageId.as_str stage +:+ " was dropped"))
     <$> btree_elements (mandatory_guardrails self ∖ mandatory_guardrails candidate)) ++
  ceilings_narrowing_violations (budgets self) (budgets candidate).
End AgentAuthorityEnvelope.
Module AuthEnvelope := AgentAuthorityEnvelope.

(** ** Errors *)

Module AgentDefinitionError.
Inductive t :=
| Identity (error : AgentIdentityError)
| EmptyDescription
| DescriptionTooLong (length maximum : nat)
| EmptySettingsUpdate
| TooManySettingsChanges (count maximum : nat)
| EnvelopeWidened (violations : list Violation.t).

Definition code (self : t) : string :=
  match self with
  | Identity error => AgentIdentityError_code error
  | EmptyDescription => "empty-agent-description"
  | DescriptionTooLong _ _ => "agent-description-too-long"
  | EmptySettingsUpdate => "empty-settings-update"
  | TooManySettingsChanges _ _ => "too-many-settings-changes"
  | EnvelopeWidened _ => "envelope-widened"
  end.

Definition violation_codes (self : t) : list string :=
  match self with EnvelopeWidened violations => Violation.reason_code <$> violations | _ => [] end.
End AgentDefinitionError.
Module DefinitionErr := AgentDefinitionError.

Definition AgentDefinitionResult (A : Type) : Type := result DefinitionErr.t A.

Definition validate_narrowing (self candidate : AuthEnvelope.t) : AgentDefinitionResult unit :=
  match AuthEnvelope.narrowing_violations self candidate with
  | [] => Ok tt
  | violations => Err (DefinitionErr.EnvelopeWidened violations)
  end.

(** ** Definitions *)

Definition AGENT_DESCRIPTION_MAX_LENGTH : nat := 1024.
Definition AGENT_SETTINGS_MAX_CHANGES : nat := 32.

Module AgentPolicyRefs.
Record t := mk {
  approval : option AgentPolicyRef.t;
  authorization : option AgentPolicyRef.t;
  escalation : option AgentPolicyRef.t;
  guardrail : option AgentPolicyRef.t;
  retention : option AgentPolicyRef.t;
}.
Definition empty : t := mk None None None None None.
End AgentPolicyRefs.
Module PolicyRefs := AgentPolicyRefs.

Module AgentDefinition.
Record t := mk {
  definition_id : AgentDefinitionId.t;
  description : string;
  instructions : option ArtifactRef.t;
  envelope : AuthEnvelope.t;
  policies : PolicyRefs.t;
}.

(** A string is its bytes, so its length is [str::len]. *)
Definition validate (self : t) : AgentDefinitionResult unit :=
  if str_is_empty (description self) then Err DefinitionErr.EmptyDescription
  else if (AGENT_DESCRIPTION_MAX_LENGTH <? String.length (description self))%nat then
    Err (DefinitionErr.DescriptionTooLong (String.length (description self)) AGENT_DESCRIPTION_MAX_LENGTH)
  else Ok tt.

Definition new (definition_id : AgentDefinitionId.t) (description : string) (envelope : AuthEnvelope.t) :
    AgentDefinitionResult t :=
  let definition := mk definition_id description None envelope PolicyRefs.empty in
  let? _ := validate definition in Ok definition.

Definition with_instructions (self : t) (instructions : ArtifactRef.t) : t :=
  mk (definition_id self) (description self) (Some instructions) (envelope self) (policies self).
Definition with_policies (self : t) (policies : PolicyRefs.t) : t :=
  mk (definition_id self) (description self) (instructions self) (envelope self) policies.
End AgentDefinition.

Module AgentDefinitionRevision.
Record t := mk {
  schema_version : Z;
  revision : AgentRevisionNumber.t;
  definition : AgentDefinition.t;
  provenance : RevisionProvenance.t;
}.

Definition initial (definition : AgentDefinition.t) (provenance : RevisionProvenance.t) : t :=
  mk CURRENT_AGENT_DEFINITION_SCHEMA_VERSION AgentRevisionNumber.INITIAL definition provenance.

Definition succeed (self : t) (definition : AgentDefinition.t) (provenance : RevisionProvenance.t) : t :=
  mk CURRENT_AGENT_DEFINITION_SCHEMA_VERSION (AgentRevisionNumber.next (revision self)) definition provenance.

Definition envelope (self : t) : AuthEnvelope.t := AgentDefinition.envelope (definition self).
End AgentDefinitionRevision.
Module DefinitionRevision := AgentDefinitionRevision.

(** ** Settings *)

Module SettingsTimingClass.
Inductive t := TurnBound | ImmediateSafety | RunPinned.
#[global] Instance eq_dec : EqDecision t.
Proof. solve_decision. Defined.
Definition as_label (self : t) : string :=
  match self with
  | TurnBound => "turn-bound" | ImmediateSafety => "immediate-safety" | RunPinned => "run-pinned"
  end.
Definition urgency (self : t) : Z :=
  match self with ImmediateSafety => 2 | TurnBound => 1 | RunPinned => 0 end.
End SettingsTimingClass.
Module Timing := SettingsTimingClass.

Module AgentSamplingSettings.
Record t := mk {
  temperature_milli : option Z;
  top_p_milli : option Z;
  max_output_tokens : option Z;
}.
Definition empty : t := mk None None None.
End AgentSamplingSettings.
Module Sampling := AgentSamplingSettings.

Module AgentSettingsChange.
Inductive t :=
| Instructions (instructions : option ArtifactRef.t)
| ModelProfile (profile : AgentModelProfileId.t)
| Sampling (sampling : Sampling.t)
| RetrievalLimit (limit : Z)
| RevokeTool (tool : AgentToolId.t)
| RevokeCredentialBinding (binding : AgentCredentialBindingRef.t)
| GuardrailPolicy (policy : AgentPolicyRef.t)
| LoopStateSchemaVersion (version : Z)
| MemorySchemaVersion (version : Z).

Definition timing_class (self : t) : Timing.t :=
  match self with
  | Instructions _ | ModelProfile _ | Sampling _ | RetrievalLimit _ => Timing.TurnBound
  | RevokeTool _ | RevokeCredentialBinding _ | GuardrailPolicy _ => Timing.ImmediateSafety
  | LoopStateSchemaVersion _ | MemorySchemaVersion _ => Timing.RunPinned
  end.
End AgentSettingsChange.
Module Change := AgentSettingsChange.

Module AgentSettings.
Record t := mk {
  instructions : option ArtifactRef.t;
  model_profile : option AgentModelProfileId.t;
  sampling : Sampling.t;
  retrieval_limit : option Z;
  revoked_tools : gset AgentToolId.t;
  revoked_credential_bindings : gset AgentCredentialBindingRef.t;
  guardrail_policy : option AgentPolicyRef.t;
  loop_state_schema_version : option Z;
  memory_schema_version : option Z;
}.

Definition empty : t := mk None None Sampling.empty None ∅ ∅ None None None.

Definition apply (self : t) (change : Change.t) : t :=
  let '(mk i m s r rt rc g l v) := self in
  match change with
  | Change.Instructions instructions => mk instructions m s r rt rc g l v
  | Change.ModelProfile profile => mk i (Some profile) s r rt rc g l v
  | Change.Sampling sampling => mk i m sampling r rt rc g l v
  | Change.RetrievalLimit limit => mk i m s (Some limit) rt rc g l v
  | Change.RevokeTool tool => mk i m s r ({[tool]} ∪ rt) rc g l v
  | Change.RevokeCredentialBinding binding => mk i m s r rt ({[binding]} ∪ rc) g l v
  | Change.GuardrailPolicy policy => mk i m s r rt rc (Some policy) l v
  | Change.LoopStateSchemaVersion version => mk i m s r rt rc g (Some version) v
  | Change.MemorySchemaVersion version => mk i m s r rt rc g l (Some version)
  end.

Definition validate_against (self : t) (envelope : AuthEnvelope.t) : AgentDefinitionResult unit :=
  match model_profile self with
  | Some profile =>
      if bool_decide (profile ∉ AuthEnvelope.model_profiles envelope) then
        Err (DefinitionErr.EnvelopeWidened
               [Violation.new Dimension.ModelProfile
                  ("model profile " +:+ AgentModelProfileId.as_str profile +:+
                   " is not approved by the definition")])
      else Ok tt
  | None => Ok tt
  end.
End AgentSettings.
Module Settings := AgentSettings.

Module SettingsRevision.
Record t := mk {
  schema_version : Z;
  revision : AgentRevisionNumber.t;
  settings : Settings.t;
  changes : list Change.t;
  provenance : RevisionProvenance.t;
}.

Definition initial (definition : DefinitionRevision.t) (settings : Settings.t)
    (provenance : RevisionProvenance.t) : AgentDefinitionResult t :=
  let? _ := Settings.validate_against settings (DefinitionRevision.envelope definition) in
  Ok (mk CURRENT_AGENT_SETTINGS_SCHEMA_VERSION AgentRevisionNumber.INITIAL settings [] provenance).

Definition apply (self : t) (definition : DefinitionRevision.t) (changes : list Change.t)
    (provenance : RevisionProvenance.t) : AgentDefinitionResult t :=
  if (length changes =? 0)%nat then Err DefinitionErr.EmptySettingsUpdate
  else if (AGENT_SETTINGS_MAX_CHANGES <? length changes)%nat then
    Err (DefinitionErr.TooManySettingsChanges (length changes) AGENT_SETTINGS_MAX_CHANGES)
  else
    let settings := foldl Settings.apply (settings self) changes in
    let? _ := Settings.validate_against settings (DefinitionRevision.envelope definition) in
    Ok (mk CURRENT_AGENT_SETTINGS_SCHEMA_VERSION (AgentRevisionNumber.next (revision self)) settings changes
          provenance).

Definition validate_against_definition (self : t) (definition : DefinitionRevision.t) :
    AgentDefinitionResult unit :=
  Settings.validate_against (settings self) (DefinitionRevision.envelope definition).

(** [max_by_key] keeps the last of the classes with the greatest urgency. *)
Definition application_point (self : t) : Timing.t :=
  default Timing.TurnBound
    (foldl (fun best change =>
       let class := Change.timing_class change in
       match best with
       | None => Some class
       | Some best => Some (if Timing.urgency class <? Timing.urgency best then best else class)
       end) None (changes self)).

Definition has_immediate_safety_change (self : t) : bool :=
  existsb (fun change => bool_decide (Change.timing_class change = Timing.ImmediateSafety)) (changes self).
End SettingsRevision.

Definition effective_settings_for_turn (pinned current : SettingsRevision.t) : Settings.t :=
  let now := SettingsRevision.settings current in
  let start := SettingsRevision.settings pinned in
  Settings.mk (Settings.instructions now) (Settings.model_profile now) (Settings.sampling now)
    (Settings.retrieval_limit now) (Settings.revoked_tools now) (Settings.revoked_credential_bindings now)
    (Settings.guardrail_policy now) (Settings.loop_state_schema_version start)
    (Settings.memory_schema_version start).

(** ** Setups *)

Module AgentSetupRevision.
Record t := mk {
  schema_version : Z;
  revision : AgentRevisionNumber.t;
  definition_revision : AgentRevisionNumber.t;
  instructions : option ArtifactRef.t;
  envelope : AuthEnvelope.t;
  provenance : RevisionProvenance.t;
}.

Definition new (revision : AgentRevisionNumber.t) (definition : DefinitionRevision.t) (envelope : AuthEnvelope.t)
    (provenance : RevisionProvenance.t) : AgentDefinitionResult t :=
  let? _ := validate_narrowing (DefinitionRevision.envelope definition) envelope in
  Ok (mk CURRENT_AGENT_SETUP_SCHEMA_VERSION revision (DefinitionRevision.revision definition) None envelope
        provenance).

Definition with_instructions (self : t) (instructions : ArtifactRef.t) : t :=
  mk (schema_version self) (revision self) (definition_revision self) (Some instructions) (envelope self)
    (provenance self).
End AgentSetupRevision.
Module Setup := AgentSetupRevision.
