(* ===== verification/Narrowing.v ===== *)
(** * Narrowing is containment of authority

    What an envelope permits is a set of actions: dispatching a tool under a safety class,
    resolving a credential for it, selecting a model, spending up to a ceiling, running under
    a set of guardrail stages, and so on.  The checks of [Authority.v] are exact for that
    meaning: an envelope is accepted as a narrowing exactly when it permits nothing more, and
    every reported violation names an action it would have added. *)

From S2P Require Import Prelude AgentIdentity AgentSchema CompiledPlan Budget Delegation Authority.

(** ** Actions *)

Inductive action :=
| InvokeTool (tool : AgentToolId.t)
| ExerciseCapability (tool : AgentToolId.t) (capability : AgentCapabilityId.t)
| DispatchAs (tool : AgentToolId.t) (class : SafetyClass.t)
| ResolveCredential (tool : AgentToolId.t) (binding : AgentCredentialBindingRef.t)
| RouteThrough (tool : AgentToolId.t) (policy : option AgentExecutionPolicyRef.t)
| TouchEnvironment (tool : AgentToolId.t) (environment : AgentEnvironmentRef.t)
| SelectModel (profile : AgentModelProfileId.t)
| StartWorkflow (workflow : AgentWorkflowToolId.t)
| AcceptTask (definition : AgentTaskDefinitionId.t)
| CollaborateWith (peer : AgentId.t)
| UseKnowledge (space : KnowledgeSpaceId.t)
| ReachEnvironment (environment : AgentEnvironmentRef.t)
| HoldCredential (binding : AgentCredentialBindingRef.t)
| CoordinateBy (kind : CapabilityKind.t)
| RunAs (class : OperationClass.t)
| RunGuardedBy (stages : gset AgentGuardrailStageId.t)
| Spend (ceiling : nat) (amount : Z).

Definition within_ceiling (ceiling : option Z) (amount : Z) : Prop :=
  match ceiling with Some ceiling => amount <= ceiling | None => True end.

#[global] Instance within_ceiling_dec ceiling amount : Decision (within_ceiling ceiling amount).
Proof. destruct ceiling; simpl; apply _. Defined.

(** What the declaration [d] of a tool permits. *)
Definition tool_permits (d : ToolDeclaration.t) (a : action) : Prop :=
  match a with
  | ExerciseCapability _ capability => capability ∈ ToolDeclaration.capabilities d
  | DispatchAs _ class =>
      SafetyClass.strictness (ToolDeclaration.safety d) <= SafetyClass.strictness class
  | ResolveCredential _ binding => ToolDeclaration.credential_binding d = Some binding
  | RouteThrough _ policy => ToolDeclaration.execution_policy d = policy
  | TouchEnvironment _ environment => environment ∈ ToolDeclaration.environments d
  | _ => True
  end.

Definition tool_of (a : action) : option AgentToolId.t :=
  match a with
  | InvokeTool tool | ExerciseCapability tool _ | DispatchAs tool _ | ResolveCredential tool _
  | RouteThrough tool _ | TouchEnvironment tool _ => Some tool
  | _ => None
  end.

(** What [e] permits of the actions that need no tool. *)
Definition base_permits (e : AuthEnvelope.t) (a : action) : Prop :=
  match a with
  | SelectModel profile => profile ∈ AuthEnvelope.model_profiles e
  | StartWorkflow workflow => workflow ∈ AuthEnvelope.workflow_tools e
  | AcceptTask definition => definition ∈ AuthEnvelope.task_definitions e
  | CollaborateWith peer => peer ∈ AuthEnvelope.collaborators e
  | UseKnowledge space => space ∈ AuthEnvelope.knowledge_spaces e
  | ReachEnvironment environment => environment ∈ AuthEnvelope.environments e
  | HoldCredential binding => binding ∈ AuthEnvelope.credential_bindings e
  | CoordinateBy kind => kind ∈ AuthEnvelope.coordination_capabilities e
  | RunAs class => class ∈ AuthEnvelope.operation_classes e
  | RunGuardedBy stages => AuthEnvelope.mandatory_guardrails e ⊆ stages
  | Spend i amount =>
      match ceiling_dimensions !! i with
      | Some (_, get) => within_ceiling (get (AuthEnvelope.budgets e)) amount
      | None => True
      end
  | _ => True
  end.

Definition permitted (e : AuthEnvelope.t) (a : action) : Prop :=
  match tool_of a with
  | Some tool => match AuthEnvelope.tools e !! tool with Some d => tool_permits d a | None => False end
  | None => base_permits e a
  end.

#[global] Instance permitted_dec e a : Decision (permitted e a).
Proof.
  unfold permitted. destruct (tool_of a) as [tool|].
  - destruct (AuthEnvelope.tools e !! tool) as [d|]; [destruct a|]; simpl; apply _.
  - destruct a as [| | | | | | | | | | | | | | | |i n]; simpl; try apply _.
    destruct (ceiling_dimensions !! i) as [[]|]; apply _.
Defined.

Definition dimension_of (a : action) : Dimension.t :=
  match a with
  | InvokeTool _ => Dimension.Tool
  | ExerciseCapability _ _ => Dimension.ToolCapability
  | DispatchAs _ _ => Dimension.EffectSafety
  | ResolveCredential _ _ => Dimension.ToolCredentialBinding
  | RouteThrough _ _ => Dimension.ToolExecutionPolicy
  | TouchEnvironment _ _ | ReachEnvironment _ => Dimension.Environment
  | SelectModel _ => Dimension.ModelProfile
  | StartWorkflow _ => Dimension.WorkflowTool
  | AcceptTask _ => Dimension.TaskDefinition
  | CollaborateWith _ => Dimension.Collaborator
  | UseKnowledge _ => Dimension.KnowledgeSpace
  | HoldCredential _ => Dimension.CredentialBinding
  | CoordinateBy _ => Dimension.CoordinationCapability
  | RunAs _ => Dimension.OperationClass
  | RunGuardedBy _ => Dimension.MandatoryGuardrail
  | Spend _ _ => Dimension.Budget
  end.

(** A tool that [g] does not declare is reported once, whatever it would be used for. *)
Definition blamed (g : AuthEnvelope.t) (a : action) : Dimension.t :=
  match tool_of a with
  | Some tool => match AuthEnvelope.tools g !! tool with Some _ => dimension_of a | None => Dimension.Tool end
  | None => dimension_of a
  end.

(** [c] adds an action to [g], and [d] is to blame. *)
Definition excess (g c : AuthEnvelope.t) (d : Dimension.t) : Prop :=
  ∃ a, permitted c a ∧ ¬ permitted g a ∧ blamed g a = d.

(** ** What is reported *)

Definition reported (l : list Violation.t) (d : Dimension.t) : Prop := d ∈ Violation.dimension <$> l.

Lemma reported_app l l' d : reported (l ++ l') d ↔ reported l d ∨ reported l' d.
Proof. unfold reported. by rewrite fmap_app, elem_of_app. Qed.

Lemma reported_nil d : reported [] d ↔ False.
Proof. apply elem_of_nil. Qed.

Lemma reported_one dim detail d : reported [Violation.new dim detail] d ↔ d = dim.
Proof. apply list_elem_of_singleton. Qed.

Lemma reported_if (b : bool) l d : reported (if b then l else []) d ↔ b = true ∧ reported l d.
Proof. destruct b; [naive_solver|]. rewrite reported_nil. naive_solver. Qed.

Lemma reported_bind {A} (f : A → list Violation.t) l d :
  reported (l ≫= f) d ↔ ∃ x, x ∈ l ∧ reported (f x) d.
Proof.
  unfold reported. rewrite list_elem_of_fmap. setoid_rewrite list_elem_of_bind. setoid_rewrite list_elem_of_fmap.
  naive_solver.
Qed.

Lemma reported_fmap {A} dim (f : A → string) l d :
  reported ((fun x => Violation.new dim (f x)) <$> l) d ↔ d = dim ∧ ∃ x, x ∈ l.
Proof.
  unfold reported. rewrite <-list_fmap_compose, list_elem_of_fmap. simpl. naive_solver.
Qed.

Lemma reported_difference {A} `{Countable A, !OrdKey A} dim (f : A → string) (X Y : gset A) d :
  reported ((fun x => Violation.new dim (f x)) <$> btree_elements (X ∖ Y)) d ↔ d = dim ∧ ∃ x, x ∈ X ∧ x ∉ Y.
Proof. rewrite reported_fmap. setoid_rewrite elem_of_btree_elements. by setoid_rewrite elem_of_difference. Qed.

Lemma reported_subset {A} `{Countable A, !OrdKey A} (display : A → string) (Y X : gset A) dim noun d :
  reported (collect_subset_violations display Y X dim noun) d ↔ d = dim ∧ ∃ x, x ∈ X ∧ x ∉ Y.
Proof. apply reported_difference. Qed.

Lemma reported_ceiling name g c d :
  reported (ceiling_violation name g c) d ↔
  d = Dimension.Budget ∧ ∃ n, within_ceiling c n ∧ ¬ within_ceiling g n.
Proof.
  unfold ceiling_violation. destruct g as [g|]; simpl.
  2: { rewrite reported_nil. naive_solver. }
  destruct c as [c|]; simpl.
  - destruct (Z.gtb_spec c g); rewrite ?reported_one, ?reported_nil; [|naive_solver lia].
    split; [|naive_solver]. intros ->. split; [done|]. exists c. lia.
  - rewrite reported_one. split; [|naive_solver]. intros ->. split; [done|]. exists (g + 1). lia.
Qed.

Lemma reported_ceilings g c d :
  reported (ceilings_narrowing_violations g c) d ↔
  d = Dimension.Budget ∧ ∃ i name get n,
    ceiling_dimensions !! i = Some (name, get) ∧ within_ceiling (get c) n ∧ ¬ within_ceiling (get g) n.
Proof.
  unfold ceilings_narrowing_violations. rewrite reported_bind. split.
  - intros ([name get] & [i Hi]%list_elem_of_lookup & Hr). apply reported_ceiling in Hr as (-> & n & ?).
    split; [done|]. by exists i, name, get, n.
  - intros (-> & i & name & get & n & Hi & ?). exists (name, get). split; [by eapply list_elem_of_lookup_2|].
    apply reported_ceiling. eauto.
Qed.

Lemma not_subset_witness {A} `{Countable A} (X Y : gset A) : ¬ X ⊆ Y → ∃ x, x ∈ X ∧ x ∉ Y.
Proof.
  intros Hn. destruct (set_choose_or_empty (X ∖ Y)) as [[x Hx]|He]; [exists x; set_solver|].
  destruct Hn. set_solver.
Qed.

(** One declared tool: what a declaration adds to the declared one. *)
Lemma reported_tool tool g c d :
  reported (AgentAuthorityEnvelope.tool_violations tool g c) d ↔
  ∃ a, tool_of a = Some tool ∧ tool_permits c a ∧ ¬ tool_permits g a ∧ dimension_of a = d.
Proof.
  unfold AgentAuthorityEnvelope.tool_violations. rewrite !reported_app, !reported_difference, !reported_if.
  rewrite !reported_one, Z.ltb_lt, bool_decide_eq_true. split.
  - intros [(-> & x & ?)|[(? & ->)|[Hcred|[(? & ->)|(-> & x & ?)]]]].
    + exists (ExerciseCapability tool x). naive_solver.
    + exists (DispatchAs tool (ToolDeclaration.safety c)). simpl. split_and!; [done|lia..|done].
    + destruct (ToolDeclaration.credential_binding c) as [b|] eqn:Hb; [|by apply reported_nil in Hcred].
      apply reported_if in Hcred as [Hne%bool_decide_eq_true ->%reported_one].
      exists (ResolveCredential tool b). naive_solver.
    + exists (RouteThrough tool (ToolDeclaration.execution_policy c)). simpl. split_and!; naive_solver.
    + exists (TouchEnvironment tool x). naive_solver.
  - intros (a & Ht & Hc & Hg & <-). destruct a; simpl in *; try done.
    + left. eauto.
    + right; left. split; [lia|done].
    + right; right; left. rewrite Hc. rewrite bool_decide_eq_true_2 by done. by apply reported_one.
    + right; right; right; left. split; [naive_solver|done].
    + do 4 right. eauto.
Qed.

Lemma reported_tools g c d :
  reported (AgentAuthorityEnvelope.tools_violations g c) d ↔
  ∃ a tool, tool_of a = Some tool ∧ permitted c a ∧ ¬ permitted g a ∧ blamed g a = d.
Proof.
  unfold AgentAuthorityEnvelope.tools_violations, permitted, blamed. rewrite reported_bind. split.
  - intros ([tool dc] & Hin%elem_of_btree_entries & Hr).
    destruct (AuthEnvelope.tools g !! tool) as [dg|] eqn:Hg.
    + apply reported_tool in Hr as (a & Ha & ? & ? & ?). exists a, tool. rewrite Ha, Hin, Hg. naive_solver.
    + apply reported_one in Hr as ->. exists (InvokeTool tool), tool. simpl. rewrite Hin, Hg. naive_solver.
  - intros (a & tool & Ha & Hc & Hg & Hb). rewrite Ha in Hc, Hg, Hb.
    destruct (AuthEnvelope.tools c !! tool) as [dc|] eqn:Hdc; [|done].
    exists (tool, dc). split; [by apply elem_of_btree_entries|].
    destruct (AuthEnvelope.tools g !! tool) as [dg|] eqn:Hdg; simpl in Hb.
    + apply reported_tool. eauto.
    + by apply reported_one.
Qed.

(** Every dimension is reported exactly when some action of it was added. *)
Lemma violations_exact g c d : reported (AuthEnvelope.narrowing_violations g c) d ↔ excess g c d.
Proof.
  unfold AuthEnvelope.narrowing_violations.
  rewrite !reported_app, reported_tools, !reported_subset, reported_difference, reported_ceilings.
  unfold excess. split.
  - intros [(a & t & Ht & ?)|H]; [by exists a|].
    repeat match type of H with _ ∨ _ => destruct H as [(-> & x & ? & ?)|H] end;
      [exists (SelectModel x); by split_and!|exists (StartWorkflow x); by split_and!|exists (AcceptTask x); by split_and!|exists (CollaborateWith x); by split_and!
      |exists (UseKnowledge x); by split_and!|exists (ReachEnvironment x); by split_and!|exists (HoldCredential x); by split_and!
      |exists (CoordinateBy x); by split_and!|exists (RunAs x); by split_and!| |].
    + exists (RunGuardedBy (AuthEnvelope.mandatory_guardrails c)). unfold permitted. simpl. split_and!; [done|set_solver|done].
    + destruct H as (-> & i & name & get & n & Hi & ?). exists (Spend i n).
      unfold permitted. cbn [tool_of base_permits]. rewrite Hi. naive_solver.
  - intros (a & Hc & Hg & <-). destruct (tool_of a) as [t|] eqn:Ht; [left; by exists a, t|right].
    unfold permitted, blamed in *. rewrite Ht in *.
    destruct a as [| | | | | |x|x|x|x|x|x|x|x|x|s|i n]; try done; cbn [base_permits dimension_of] in *.
    1-9: by repeat (first [by left; eauto|right]).
    + do 9 right. left. split; [done|]. apply not_subset_witness. intros ?. apply Hg. set_solver.
    + do 10 right. split; [done|]. destruct (ceiling_dimensions !! i) as [[name get]|] eqn:Hi; [|done].
      by exists i, name, get, n.
Qed.
