(* ===== verification/Admission.v ===== *)
(** * Admission to unattended work: [rakka-agent/src/admission.rs]

    An agent runs unattended only under a decision that an evaluator recorded.  The decision
    keeps the envelope it admitted, and every use of it re-derives whether the definition now
    in force narrows that envelope and still answers the structural requirements. *)

From S2P Require Import Prelude AgentIdentity AgentSchema CompiledPlan Budget Delegation Authority.

Definition AGENT_ADMISSION_CONSTRAINT_CAPACITY : nat := 16.
Definition AGENT_ADMISSION_DETAIL_MAX_LENGTH : nat := 256.

Module AgentAdmissionRequirement.
Inductive t :=
| CompletionCriteria | BoundedBudgets | CancellationBehavior | OperationalInspection
| ClassifiedToolSafety | ScopedCredentials | ApprovalPolicy | ReconciliationPolicy.
#[global] Instance eq_dec : EqDecision t.
Proof. solve_decision. Defined.

Definition ALL : list t :=
  [CompletionCriteria; BoundedBudgets; CancellationBehavior; OperationalInspection;
   ClassifiedToolSafety; ScopedCredentials; ApprovalPolicy; ReconciliationPolicy].

Definition index (self : t) : Z :=
  match self with
  | CompletionCriteria => 0 | BoundedBudgets => 1 | CancellationBehavior => 2 | OperationalInspection => 3
  | ClassifiedToolSafety => 4 | ScopedCredentials => 5 | ApprovalPolicy => 6 | ReconciliationPolicy => 7
  end.
#[global] Instance countable : Countable t :=
  inj_countable index (fun n => find_first (fun k => index k =? n) ALL) ltac:(by intros []).

Definition is_attested (self : t) : bool :=
  match self with CompletionCriteria | CancellationBehavior | OperationalInspection => true | _ => false end.

Definition as_label (self : t) : string :=
  match self with
  | CompletionCriteria => "completion-criteria"
  | BoundedBudgets => "bounded-budgets"
  | CancellationBehavior => "cancellation-behavior"
  | OperationalInspection => "operational-inspection"
  | ClassifiedToolSafety => "classified-tool-safety"
  | ScopedCredentials => "scoped-credentials"
  | ApprovalPolicy => "approval-policy"
  | ReconciliationPolicy => "reconciliation-policy"
  end.
End AgentAdmissionRequirement.
Module Requirement := AgentAdmissionRequirement.

Module AgentAdmissionEvaluator.
Inductive t :=
| Principal (principal : PrincipalRef.t)
| Service (service : string).
Definition display (self : t) : string :=
  match self with
  | Principal principal =>
      "principal " +:+ PrincipalRef.principal_type principal +:+ ":" +:+ PrincipalRef.principal_id principal
  | Service service => "service " +:+ service
  end.
End AgentAdmissionEvaluator.
Module Evaluator := AgentAdmissionEvaluator.

(** ** Refusals and errors *)

Module AgentAdmissionRefusal.
Inductive t :=
| Missing
| Expired (expired_at : AgentTimestampMillis)
| ClassNotAdmitted (class : OperationClass.t)
| Widened (violations : list Violation.t)
| RequirementRegressed (requirement : Requirement.t) (detail : string).

Definition code (self : t) : string :=
  match self with
  | Missing => "admission-missing"
  | Expired _ => "admission-expired"
  | ClassNotAdmitted _ => "admission-class-not-admitted"
  | Widened _ => "admission-widened"
  | RequirementRegressed _ _ => "admission-requirement-regressed"
  end.

Definition display (self : t) : string :=
  match self with
  | Missing => "no autonomy admission decision exists for this agent"
  | Expired expired_at => "the autonomy admission decision expired at " +:+ pretty expired_at
  | ClassNotAdmitted class =>
      "the autonomy admission decision does not admit " +:+ OperationClass.as_label class
  | Widened violations =>
      "the current authority widens what was admitted (" +:+ pretty (length violations) +:+ " violations): " +:+
      String.concat "; " (Violation.display <$> violations)
  | RequirementRegressed requirement detail =>
      "the definition in force no longer satisfies " +:+ Requirement.as_label requirement +:+ ": " +:+ detail
  end.
End AgentAdmissionRefusal.
Module Refusal := AgentAdmissionRefusal.

Module AgentAdmissionError.
Inductive t :=
| NoOperationClass
| RequirementUnverified (requirement : Requirement.t)
| RequirementUnmet (requirement : Requirement.t) (detail : string)
| TooManyConstraints (count capacity : nat)
| ConstraintTooLong (length maximum : nat)
| DetailTooLong (field : string) (length maximum : nat)
| Schema (error : AgentSchemaError).

Definition code (self : t) : string :=
  match self with
  | NoOperationClass => "admission-no-operation-class"
  | RequirementUnverified _ => "admission-requirement-unverified"
  | RequirementUnmet _ _ => "admission-requirement-unmet"
  | TooManyConstraints _ _ => "admission-constraints-exceeded"
  | ConstraintTooLong _ _ => "admission-constraint-too-long"
  | DetailTooLong _ _ _ => "admission-detail-too-long"
  | Schema error => AgentSchemaError_code error
  end.
End AgentAdmissionError.
Module AdmissionErr := AgentAdmissionError.

Definition AgentAdmissionResult (A : Type) : Type := result AdmissionErr.t A.

(** ** Structural requirements *)

(** [(!items.is_empty()).then(|| prefix + items.join(", "))]. *)
Definition unless_empty (prefix : string) (items : list string) : option string :=
  match items with [] => None | _ => Some (prefix +:+ String.concat ", " items) end.

Definition unbounded_ceilings (budgets : AgentBudgetCeilings.t) : list string :=
  '(name, get) ← ceiling_dimensions; match get budgets with None => [name] | Some _ => [] end.

Definition unscoped_tools (envelope : AuthEnvelope.t) : list string :=
  '(tool, declaration) ← btree_entries (AuthEnvelope.tools envelope);
  if bool_decide (ToolDeclaration.capabilities declaration = ∅) then [AgentToolId.as_str tool] else [].

Definition unbound_credentials (envelope : AuthEnvelope.t) : list string :=
  '(tool, declaration) ← btree_entries (AuthEnvelope.tools envelope);
  match ToolDeclaration.credential_binding declaration with
  | Some binding =>
      if bool_decide (binding ∉ AuthEnvelope.credential_bindings envelope) then
        [AgentToolId.as_str tool +:+ " -> " +:+ AgentCredentialBindingRef.as_str binding]
      else []
  | None => []
  end.

Definition unmet_structural_requirement (requirement : Requirement.t) (definition : AgentDefinition.t) :
    option string :=
  let envelope := AgentDefinition.envelope definition in
  let policies := AgentDefinition.policies definition in
  match requirement with
  | Requirement.BoundedBudgets =>
      unless_empty "unattended execution needs every budget bounded; these are not: "
        (unbounded_ceilings (AuthEnvelope.budgets envelope))
  | Requirement.ClassifiedToolSafety =>
      unless_empty
        "unattended execution needs every declared tool's capabilities scoped; these declare none: "
        (unscoped_tools envelope)
  | Requirement.ScopedCredentials =>
      unless_empty
        "a tool may only resolve a credential binding the envelope declares; these do not: "
        (unbound_credentials envelope)
  | Requirement.ApprovalPolicy =>
      match PolicyRefs.approval policies, PolicyRefs.authorization policies with
      | Some _, Some _ => None
      | _, _ =>
          Some "unattended execution needs both an approval and a security-authorization policy for consequential operations"
      end
  | Requirement.ReconciliationPolicy =>
      match PolicyRefs.escalation policies with
      | Some _ => None
      | None =>
          Some "unattended execution needs an escalation policy: an indeterminate effect parks for a decision nobody is otherwise waiting to make"
      end
  | Requirement.CompletionCriteria | Requirement.CancellationBehavior | Requirement.OperationalInspection => None
  end.

(** ** Decisions *)

Module AutonomyAdmissionDecision.
Record t := mk {
  schema_version : Z;
  operation_classes : gset OperationClass.t;
  definition_revision : AgentRevisionNumber.t;
  settings_revision : AgentRevisionNumber.t;
  setup_revision : option AgentRevisionNumber.t;
  admitted_envelope : AuthEnvelope.t;
  evaluator : Evaluator.t;
  verified : gset Requirement.t;
  constraints : list string;
  created_at : AgentTimestampMillis;
  expires_at : option AgentTimestampMillis;
}.

Definition unattended_classes (self : t) : list OperationClass.t :=
  filter (fun class => class ≠ OperationClass.Interactive) (btree_elements (operation_classes self)).

(** The loop over the constraints. *)
Fixpoint check_constraints (constraints : list string) : AgentAdmissionResult unit :=
  match constraints with
  | [] => Ok tt
  | constraint :: constraints =>
      if (AGENT_ADMISSION_DETAIL_MAX_LENGTH <? String.length constraint)%nat then
        Err (AdmissionErr.ConstraintTooLong (String.length constraint) AGENT_ADMISSION_DETAIL_MAX_LENGTH)
      else check_constraints constraints
  end.

(** The loop over [ALL]. *)
Fixpoint check_verified (verified : gset Requirement.t) (requirements : list Requirement.t) :
    AgentAdmissionResult unit :=
  match requirements with
  | [] => Ok tt
  | requirement :: requirements =>
      if bool_decide (requirement ∈ verified) then check_verified verified requirements
      else Err (AdmissionErr.RequirementUnverified requirement)
  end.

Definition validate (self : t) : AgentAdmissionResult unit :=
  if bool_decide (operation_classes self = ∅) then Err AdmissionErr.NoOperationClass
  else if (AGENT_ADMISSION_CONSTRAINT_CAPACITY <? length (constraints self))%nat then
    Err (AdmissionErr.TooManyConstraints (length (constraints self)) AGENT_ADMISSION_CONSTRAINT_CAPACITY)
  else
    let? _ := check_constraints (constraints self) in
    let? _ :=
      match evaluator self with
      | Evaluator.Service service =>
          if (AGENT_ADMISSION_DETAIL_MAX_LENGTH <? String.length service)%nat then
            Err (AdmissionErr.DetailTooLong "evaluator service name" (String.length service)
                   AGENT_ADMISSION_DETAIL_MAX_LENGTH)
          else Ok tt
      | Evaluator.Principal _ => Ok tt
      end in
    match unattended_classes self with
    | [] => Ok tt
    | _ => check_verified (verified self) Requirement.ALL
    end.

Definition new (operation_classes : gset OperationClass.t) (definition_revision settings_revision : AgentRevisionNumber.t)
    (admitted_envelope : AuthEnvelope.t) (evaluator : Evaluator.t) (verified : gset Requirement.t)
    (created_at : AgentTimestampMillis) : AgentAdmissionResult t :=
  let decision :=
    mk CURRENT_AGENT_ADMISSION_DECISION_SCHEMA_VERSION operation_classes definition_revision settings_revision
      None admitted_envelope evaluator verified [] created_at None in
  let? _ := validate decision in Ok decision.

Definition with_setup_revision (self : t) (revision : AgentRevisionNumber.t) : t :=
  let '(mk v oc d s _ e ev vd cs c x) := self in mk v oc d s (Some revision) e ev vd cs c x.

Definition with_expiry (self : t) (expires_at : AgentTimestampMillis) : t :=
  let '(mk v oc d s su e ev vd cs c _) := self in mk v oc d s su e ev vd cs c (Some expires_at).

Definition with_constraint (self : t) (constraint : string) : AgentAdmissionResult t :=
  let '(mk v oc d s su e ev vd cs c x) := self in
  let decision := mk v oc d s su e ev vd (cs ++ [constraint]) c x in
  let? _ := validate decision in Ok decision.

Definition is_expired (self : t) (now : AgentTimestampMillis) : bool :=
  match expires_at self with Some expiry => now >? expiry | None => false end.

Definition admits (self : t) (class : OperationClass.t) (envelope : AuthEnvelope.t) (now : AgentTimestampMillis) :
    result Refusal.t unit :=
  if is_expired self now then Err (Refusal.Expired (default (created_at self) (expires_at self)))
  else if bool_decide (class ∉ operation_classes self) then Err (Refusal.ClassNotAdmitted class)
  else
    match AuthEnvelope.narrowing_violations (admitted_envelope self) envelope with
    | [] => Ok tt
    | violations => Err (Refusal.Widened violations)
    end.

(** The loop over [ALL], attested requirements skipped. *)
Fixpoint first_unmet (definition : AgentDefinition.t) (requirements : list Requirement.t) :
    option (Requirement.t * string) :=
  match requirements with
  | [] => None
  | requirement :: requirements =>
      if Requirement.is_attested requirement then first_unmet definition requirements
      else
        match unmet_structural_requirement requirement definition with
        | Some detail => Some (requirement, detail)
        | None => first_unmet definition requirements
        end
  end.

Definition first_unmet_requirement (self : t) (definition : AgentDefinition.t) : option (Requirement.t * string) :=
  match unattended_classes self with
  | [] => None
  | _ => first_unmet definition Requirement.ALL
  end.

Definition admits_definition (self : t) (class : OperationClass.t) (definition : AgentDefinition.t)
    (now : AgentTimestampMillis) : result Refusal.t unit :=
  let? _ := admits self class (AgentDefinition.envelope definition) now in
  match first_unmet_requirement self definition with
  | Some (requirement, detail) => Err (Refusal.RequirementRegressed requirement detail)
  | None => Ok tt
  end.

Definition verify (self : t) (definition : AgentDefinition.t) : AgentAdmissionResult unit :=
  match first_unmet_requirement self definition with
  | Some (requirement, detail) => Err (AdmissionErr.RequirementUnmet requirement detail)
  | None => Ok tt
  end.
End AutonomyAdmissionDecision.
Module AutonomyDecision := AutonomyAdmissionDecision.
