(* ===== verification/AgentEntity.v ===== *)
(** * The agent entity: [rakka-agent/src/agent.rs]

    The durable state of one agent - its definition and settings revisions, its lifecycle, the
    admission on record, a bounded log of applied operations - and the facade that applies the
    administrative commands to it by compare-and-set.  The facade's methods are programs.

    [AgentEntityStore.mutate] runs a transition on a copy of the cached state and persists the
    copy under the cached revision; a transition that fails persists nothing. *)

From S2P Require Import Prelude Identity Persistence DurableState AgentIdentity AgentSchema CompiledPlan Budget.
From S2P Require Import Delegation Authority Admission.

(** ** Lifecycle and the operation log *)

Module AgentLifecycleStatus.
Inductive t := Active | Suspended | Terminated.
#[global] Instance eq_dec : EqDecision t.
Proof. solve_decision. Defined.
Definition as_label (self : t) : string :=
  match self with Active => "active" | Suspended => "suspended" | Terminated => "terminated" end.
Definition permits_dispatch (self : t) : bool := match self with Active => true | _ => false end.
Definition is_terminal (self : t) : bool := match self with Terminated => true | _ => false end.
End AgentLifecycleStatus.
Module Lifecycle := AgentLifecycleStatus.

Definition AGENT_ENTITY_OPERATION_LOG_CAPACITY : nat := 64.

Module AgentEntityOutcome.
Record t := mk {
  status : Lifecycle.t;
  lifecycle_revision : AgentRevisionNumber.t;
  definition_revision : AgentRevisionNumber.t;
  settings_revision : AgentRevisionNumber.t;
}.
#[global] Instance eq_dec : EqDecision t.
Proof. solve_decision. Defined.
End AgentEntityOutcome.
Module Outcome := AgentEntityOutcome.

Module AgentOperationLogEntry.
Record t := mk { operation_id : AgentOperationId.t; outcome : Outcome.t }.
End AgentOperationLogEntry.
Module LogEntry := AgentOperationLogEntry.

Module AgentOperationLog.
Record t := mk { entries : list LogEntry.t }.

Definition empty : t := mk [].

Definition outcome (self : t) (operation_id : AgentOperationId.t) : option Outcome.t :=
  LogEntry.outcome <$> find_first (fun entry => bool_decide (LogEntry.operation_id entry = operation_id)) (entries self).

Definition len (self : t) : nat := length (entries self).
Definition is_empty (self : t) : bool := (len self =? 0)%nat.

(** [push_back], then [pop_front] while the log is over its capacity. *)
Definition record (self : t) (operation_id : AgentOperationId.t) (outcome : Outcome.t) : t :=
  let entries := entries self ++ [LogEntry.mk operation_id outcome] in
  mk (drop (length entries - AGENT_ENTITY_OPERATION_LOG_CAPACITY) entries).
End AgentOperationLog.
Module OperationLog := AgentOperationLog.

(** ** The durable state *)

Module AgentAdmissionRetraction.
Record t := mk { reason : string; provenance : RevisionProvenance.t }.
End AgentAdmissionRetraction.
Module Retraction := AgentAdmissionRetraction.

Module AgentEntitySnapshot.
Record t := mk {
  scope : AgentScope.t;
  status : Lifecycle.t;
  lifecycle_revision : AgentRevisionNumber.t;
  definition_id : AgentDefinitionId.t;
  description : string;
  definition_revision : AgentRevisionNumber.t;
  settings_revision : AgentRevisionNumber.t;
  memory_namespace : string;
  policies : PolicyRefs.t;
  updated_at : AgentTimestampMillis;
}.
End AgentEntitySnapshot.
Module EntitySnapshot := AgentEntitySnapshot.

Module AgentEntityState.
Record t := mk {
  schema_version : Z;
  scope : AgentScope.t;
  status : Lifecycle.t;
  lifecycle_revision : AgentRevisionNumber.t;
  definition : DefinitionRevision.t;
  settings : SettingsRevision.t;
  admission : option AutonomyDecision.t;
  admission_retraction : option Retraction.t;
  applied_operations : OperationLog.t;
  updated_at : AgentTimestampMillis;
}.

Definition new (scope : AgentScope.t) (definition : DefinitionRevision.t) (settings : SettingsRevision.t)
    (updated_at : AgentTimestampMillis) : t :=
  mk CURRENT_AGENT_ENTITY_STATE_SCHEMA_VERSION scope Lifecycle.Active AgentRevisionNumber.INITIAL definition settings
    None None OperationLog.empty updated_at.

(** Assignments to fields. *)
Definition set_definition (self : t) (definition : DefinitionRevision.t) : t :=
  let '(mk v sc st l _ s a r o u) := self in mk v sc st l definition s a r o u.
Definition set_settings (self : t) (settings : SettingsRevision.t) : t :=
  let '(mk v sc st l d _ a r o u) := self in mk v sc st l d settings a r o u.
Definition set_admission (self : t) (admission : option AutonomyDecision.t) (retraction : option Retraction.t) : t :=
  let '(mk v sc st l d s _ _ o u) := self in mk v sc st l d s admission retraction o u.
Definition set_lifecycle (self : t) (status : Lifecycle.t) (revision : AgentRevisionNumber.t) : t :=
  let '(mk v sc _ _ d s a r o u) := self in mk v sc status revision d s a r o u.
Definition set_updated_at (self : t) (updated_at : AgentTimestampMillis) : t :=
  let '(mk v sc st l d s a r o _) := self in mk v sc st l d s a r o updated_at.
Definition set_applied_operations (self : t) (applied_operations : OperationLog.t) : t :=
  let '(mk v sc st l d s a r _ u) := self in mk v sc st l d s a r applied_operations u.

Definition is_dispatch_permitted (self : t) : bool := Lifecycle.permits_dispatch (status self).

Definition outcome (self : t) : Outcome.t :=
  Outcome.mk (status self) (lifecycle_revision self) (DefinitionRevision.revision (definition self))
    (SettingsRevision.revision (settings self)).

Definition policies (self : t) : PolicyRefs.t :=
  AgentDefinition.policies (DefinitionRevision.definition (definition self)).

Definition snapshot (self : t) : EntitySnapshot.t :=
  let d := DefinitionRevision.definition (definition self) in
  EntitySnapshot.mk (scope self) (status self) (lifecycle_revision self) (AgentDefinition.definition_id d)
    (AgentDefinition.description d) (DefinitionRevision.revision (definition self))
    (SettingsRevision.revision (settings self)) (AgentScope.memory_namespace (scope self))
    (AgentDefinition.policies d) (updated_at self).
End AgentEntityState.
Module AgentState := AgentEntityState.

(** ** Commands, replies and errors *)

Module AgentEntityCommand.
Inductive t :=
| Instantiate (operation_id : AgentOperationId.t) (definition : AgentDefinition.t) (settings : Settings.t)
    (provenance : RevisionProvenance.t)
| PublishDefinition (operation_id : AgentOperationId.t) (definition : AgentDefinition.t)
    (provenance : RevisionProvenance.t)
| UpdateSettings (operation_id : AgentOperationId.t) (expected_revision : AgentRevisionNumber.t)
    (changes : list Change.t) (provenance : RevisionProvenance.t)
| Admit (operation_id : AgentOperationId.t) (decision : AutonomyDecision.t)
| Retract (operation_id : AgentOperationId.t) (reason : string) (provenance : RevisionProvenance.t)
| Suspend (operation_id : AgentOperationId.t) (expected_lifecycle_revision : AgentRevisionNumber.t)
    (provenance : RevisionProvenance.t)
| Resume (operation_id : AgentOperationId.t) (expected_lifecycle_revision : AgentRevisionNumber.t)
    (provenance : RevisionProvenance.t)
| Terminate (operation_id : AgentOperationId.t) (expected_lifecycle_revision : AgentRevisionNumber.t)
    (provenance : RevisionProvenance.t)
| Describe.

Definition operation_id (self : t) : option AgentOperationId.t :=
  match self with
  | Instantiate operation_id _ _ _ | PublishDefinition operation_id _ _ | UpdateSettings operation_id _ _ _
  | Admit operation_id _ | Retract operation_id _ _ | Suspend operation_id _ _ | Resume operation_id _ _
  | Terminate operation_id _ _ => Some operation_id
  | Describe => None
  end.
End AgentEntityCommand.
Module EntityCommand := AgentEntityCommand.

Module AgentEntityError.
Inductive t :=
| Identity (error : AgentIdentityError)
| Schema (error : AgentSchemaError)
| Definition_ (error : DefinitionErr.t)
| Admission (error : AdmissionErr.t)
| Persistence (error : DurableError)
| NotRecovered (scope : AgentScope.t)
| NotInstantiated (scope : AgentScope.t)
| AlreadyInstantiated (scope : AgentScope.t)
| Terminated (scope : AgentScope.t)
| StaleSettingsRevision (expected current : AgentRevisionNumber.t)
| StaleLifecycleRevision (expected current : AgentRevisionNumber.t)
| StaleAdmissionRevision (record : string) (admitted current : AgentRevisionNumber.t).

Definition code (self : t) : string :=
  match self with
  | Identity error => AgentIdentityError_code error
  | Schema error => AgentSchemaError_code error
  | Definition_ error => DefinitionErr.code error
  | Admission error => AdmissionErr.code error
  | Persistence error => DurableError_code error
  | NotRecovered _ => "agent-not-recovered"
  | NotInstantiated _ => "agent-not-instantiated"
  | AlreadyInstantiated _ => "agent-already-instantiated"
  | Terminated _ => "agent-terminated"
  | StaleSettingsRevision _ _ => "stale-settings-revision"
  | StaleLifecycleRevision _ _ => "stale-lifecycle-revision"
  | StaleAdmissionRevision _ _ _ => "stale-admission-revision"
  end.
End AgentEntityError.
Module EntityErr := AgentEntityError.

Definition AgentEntityResult (A : Type) : Type := result EntityErr.t A.

Module AgentEntityReply.
(** The message of a rejection is the text of its error. *)
Inductive t :=
| Applied (outcome : Outcome.t)
| Duplicate (outcome : Outcome.t)
| Snapshot (snapshot : option EntitySnapshot.t)
| Rejected (code : string) (message : EntityErr.t).

Definition rejected (error : EntityErr.t) : t := Rejected (EntityErr.code error) error.
End AgentEntityReply.
Module EntityReply := AgentEntityReply.

(** ** Transitions

    The closures that [mutate] runs on a copy of the state; the copy is dropped on an error. *)

Definition publish_transition (definition : AgentDefinition.t) (provenance : RevisionProvenance.t)
    (state : AgentState.t) : AgentEntityResult AgentState.t :=
  let definition := DefinitionRevision.succeed (AgentState.definition state) definition provenance in
  let? _ := map_err EntityErr.Definition_
              (SettingsRevision.validate_against_definition (AgentState.settings state) definition) in
  Ok (AgentState.set_definition state definition).

Definition admit_transition (decision : AutonomyDecision.t) (state : AgentState.t) : AgentEntityResult AgentState.t :=
  let definition := DefinitionRevision.revision (AgentState.definition state) in
  if bool_decide (AutonomyDecision.definition_revision decision ≠ definition) then
    Err (EntityErr.StaleAdmissionRevision "definition" (AutonomyDecision.definition_revision decision) definition)
  else
    let settings := SettingsRevision.revision (AgentState.settings state) in
    if bool_decide (AutonomyDecision.settings_revision decision ≠ settings) then
      Err (EntityErr.StaleAdmissionRevision "settings" (AutonomyDecision.settings_revision decision) settings)
    else
      let? _ := map_err EntityErr.Admission
                  (AutonomyDecision.verify decision (DefinitionRevision.definition (AgentState.definition state))) in
      Ok (AgentState.set_admission state (Some decision) None).

Definition retract_transition (reason : string) (provenance : RevisionProvenance.t) (state : AgentState.t) :
    AgentEntityResult AgentState.t :=
  Ok (AgentState.set_admission state None (Some (Retraction.mk reason provenance))).

Definition settings_transition (expected_revision : AgentRevisionNumber.t) (changes : list Change.t)
    (provenance : RevisionProvenance.t) (state : AgentState.t) : AgentEntityResult AgentState.t :=
  let current := SettingsRevision.revision (AgentState.settings state) in
  if bool_decide (current ≠ expected_revision) then Err (EntityErr.StaleSettingsRevision expected_revision current)
  else
    let? settings := map_err EntityErr.Definition_
                       (SettingsRevision.apply (AgentState.settings state) (AgentState.definition state) changes
                          provenance) in
    Ok (AgentState.set_settings state settings).

Definition lifecycle_transition (expected_lifecycle_revision : AgentRevisionNumber.t) (target : Lifecycle.t)
    (state : AgentState.t) : AgentEntityResult AgentState.t :=
  let current := AgentState.lifecycle_revision state in
  if bool_decide (current ≠ expected_lifecycle_revision) then
    Err (EntityErr.StaleLifecycleRevision expected_lifecycle_revision current)
  else Ok (AgentState.set_lifecycle state target (AgentRevisionNumber.next current)).

(** ** The facade *)

Definition validate_loaded_state (state : AgentState.t) (policy : AgentSchemaPolicy.t) : AgentEntityResult unit :=
  map_err EntityErr.Schema
    (let? _ := AgentSchemaPolicy.check policy EntityState (AgentState.schema_version state) in
     let? _ := AgentSchemaPolicy.check policy AgentSchema.DefinitionRevision
                 (DefinitionRevision.schema_version (AgentState.definition state)) in
     let? _ := AgentSchemaPolicy.check policy AgentSchema.SettingsRevision
                 (SettingsRevision.schema_version (AgentState.settings state)) in
     match AgentState.admission state with
     | Some admission => AgentSchemaPolicy.check policy AdmissionDecision (AutonomyDecision.schema_version admission)
     | None => Ok tt
     end).

Definition load_agent_entity_state {C R} (scope : AgentScope.t) (policy : AgentSchemaPolicy.t) :
    program AgentState.t C R (AgentEntityResult (option AgentState.t)) :=
  Load (AgentScope.persistence_id scope) (fun loaded =>
    Done
      match loaded with
      | Err error => Err (EntityErr.Persistence error)
      | Ok None => Ok None
      | Ok (Some record) =>
          let? _ := validate_loaded_state (StateRecord.state record) policy in
          Ok (Some (StateRecord.state record))
      end).

Module AgentEntityStore.

(** The store itself is shared; this is what a facade holds besides. *)
Record t := mk {
  scope : AgentScope.t;
  persistence_id : PersistenceId.t;
  policy : AgentSchemaPolicy.t;
  recovered : bool;
  record : option (StateRecord.t AgentState.t);
}.

Definition new (scope : AgentScope.t) : t :=
  mk scope (AgentScope.persistence_id scope) AgentSchemaPolicy.n_plus_one false None.

Definition with_schema_policy (self : t) (policy : AgentSchemaPolicy.t) : t :=
  mk (scope self) (persistence_id self) policy (recovered self) (record self).

Definition set_cache (self : t) (recovered : bool) (record : option (StateRecord.t AgentState.t)) : t :=
  mk (scope self) (persistence_id self) (policy self) recovered record.

Section Facade.
Context {C R : Type}.

(** A method on [&mut self] that may fail. *)
Abbreviation method A := (t → program AgentState.t C R (t * AgentEntityResult A)).

Definition recover : method (option AgentState.t) := fun self =>
  Load (persistence_id self) (fun loaded =>
    Done
      match loaded with
      | Err error => (self, Err (EntityErr.Persistence error))
      | Ok loaded =>
          match
            match loaded with
            | Some record => validate_loaded_state (StateRecord.state record) (policy self)
            | None => Ok tt
            end
          with
          | Err error => (self, Err error)
          | Ok _ => (set_cache self true loaded, Ok (StateRecord.state <$> loaded))
          end
      end).

Definition ensure_recovered (self : t) : AgentEntityResult unit :=
  if recovered self then Ok tt else Err (EntityErr.NotRecovered (scope self)).

Definition state (self : t) : AgentEntityResult (option AgentState.t) :=
  let? _ := ensure_recovered self in Ok (StateRecord.state <$> record self).

Definition persist (state : AgentState.t) (expected_revision : Z) : method EntityReply.t := fun self =>
  CompareAndSet (persistence_id self) expected_revision state (fun written =>
    Done
      match written with
      | Ok persisted =>
          (set_cache self (recovered self) (Some persisted),
           Ok (EntityReply.Applied (AgentState.outcome (StateRecord.state persisted))))
      | Err error =>
          (match error with RevisionConflict _ _ _ => set_cache self false None | _ => self end,
           Err (EntityErr.Persistence error))
      end).

(** The state a transition leaves, with its time and its operation recorded. *)
Definition recorded (operation_id : AgentOperationId.t) (now : AgentTimestampMillis) (state : AgentState.t) :
    AgentState.t :=
  let state := AgentState.set_updated_at state now in
  AgentState.set_applied_operations state
    (OperationLog.record (AgentState.applied_operations state) operation_id (AgentState.outcome state)).

Definition mutate (operation_id : AgentOperationId.t) (now : AgentTimestampMillis)
    (transition : AgentState.t → AgentEntityResult AgentState.t) : method EntityReply.t := fun self =>
  match record self with
  | None => Done (self, Err (EntityErr.NotInstantiated (scope self)))
  | Some record =>
      if Lifecycle.is_terminal (AgentState.status (StateRecord.state record)) then
        Done (self, Err (EntityErr.Terminated (scope self)))
      else
        match transition (StateRecord.state record) with
        | Err error => Done (self, Err error)
        | Ok state => persist (recorded operation_id now state) (StateRecord.revision record) self
        end
  end.

Definition instantiate (operation_id : AgentOperationId.t) (definition : AgentDefinition.t) (settings : Settings.t)
    (provenance : RevisionProvenance.t) : method EntityReply.t := fun self =>
  match record self with
  | Some _ => Done (self, Err (EntityErr.AlreadyInstantiated (scope self)))
  | None =>
      match
        map_err EntityErr.Definition_
          (let? _ := AgentDefinition.validate definition in
           let definition := DefinitionRevision.initial definition provenance in
           let? settings := SettingsRevision.initial definition settings provenance in
           Ok (AgentState.new (scope self) definition settings (RevisionProvenance.accepted_at provenance)))
      with
      | Err error => Done (self, Err error)
      | Ok state =>
          let state :=
            AgentState.set_applied_operations state
              (OperationLog.record (AgentState.applied_operations state) operation_id (AgentState.outcome state)) in
          persist state Revision_INITIAL self
      end
  end.

Definition publish_definition (operation_id : AgentOperationId.t) (definition : AgentDefinition.t)
    (provenance : RevisionProvenance.t) : method EntityReply.t := fun self =>
  match AgentDefinition.validate definition with
  | Err error => Done (self, Err (EntityErr.Definition_ error))
  | Ok _ =>
      mutate operation_id (RevisionProvenance.accepted_at provenance) (publish_transition definition provenance) self
  end.

(** [AgentEntityStore::admit]. *)
Definition record_admission (operation_id : AgentOperationId.t) (decision : AutonomyDecision.t) : method EntityReply.t :=
  mutate operation_id (AutonomyDecision.created_at decision) (admit_transition decision).

Definition retract (operation_id : AgentOperationId.t) (reason : string) (provenance : RevisionProvenance.t) :
    method EntityReply.t := fun self =>
  if (AGENT_ADMISSION_DETAIL_MAX_LENGTH <? String.length reason)%nat then
    Done (self, Err (EntityErr.Admission
      (AdmissionErr.DetailTooLong "retraction reason" (String.length reason) AGENT_ADMISSION_DETAIL_MAX_LENGTH)))
  else
    mutate operation_id (RevisionProvenance.accepted_at provenance) (retract_transition reason provenance) self.

Definition update_settings (operation_id : AgentOperationId.t) (expected_revision : AgentRevisionNumber.t)
    (changes : list Change.t) (provenance : RevisionProvenance.t) : method EntityReply.t :=
  mutate operation_id (RevisionProvenance.accepted_at provenance)
    (settings_transition expected_revision changes provenance).

Definition transition_lifecycle (operation_id : AgentOperationId.t) (expected : AgentRevisionNumber.t)
    (target : Lifecycle.t) (provenance : RevisionProvenance.t) : method EntityReply.t :=
  mutate operation_id (RevisionProvenance.accepted_at provenance) (lifecycle_transition expected target).

(** The outcome a cached log remembers for the command. *)
Definition remembered (self : t) (command : EntityCommand.t) : option Outcome.t :=
  operation_id ← EntityCommand.operation_id command;
  record ← record self;
  OperationLog.outcome (AgentState.applied_operations (StateRecord.state record)) operation_id.

Definition apply (command : EntityCommand.t) : method EntityReply.t := fun self =>
  match ensure_recovered self with
  | Err error => Done (self, Err error)
  | Ok _ =>
      match remembered self command with
      | Some outcome => Done (self, Ok (EntityReply.Duplicate outcome))
      | None =>
          match command with
          | EntityCommand.Describe =>
              Done (self, Ok (EntityReply.Snapshot
                                (AgentState.snapshot ∘ StateRecord.state <$> record self)))
          | EntityCommand.Instantiate operation_id definition settings provenance =>
              instantiate operation_id definition settings provenance self
          | EntityCommand.PublishDefinition operation_id definition provenance =>
              publish_definition operation_id definition provenance self
          | EntityCommand.UpdateSettings operation_id expected changes provenance =>
              update_settings operation_id expected changes provenance self
          | EntityCommand.Admit operation_id decision => record_admission operation_id decision self
          | EntityCommand.Retract operation_id reason provenance => retract operation_id reason provenance self
          | EntityCommand.Suspend operation_id expected provenance =>
              transition_lifecycle operation_id expected Lifecycle.Suspended provenance self
          | EntityCommand.Resume operation_id expected provenance =>
              transition_lifecycle operation_id expected Lifecycle.Active provenance self
          | EntityCommand.Terminate operation_id expected provenance =>
              transition_lifecycle operation_id expected Lifecycle.Terminated provenance self
          end
      end
  end.

Definition apply_recovered (command : EntityCommand.t) : method EntityReply.t := fun self =>
  match state self with
  | Ok _ => apply command self
  | Err _ =>
      program_bind (recover self) (fun '(self, r) =>
        match r with Ok _ => apply command self | Err error => Done (self, Err error) end)
  end.
End Facade.
End AgentEntityStore.

(** ** The actor *)

Module AgentEntity.
Definition t : Type := result AgentIdentityError AgentEntityStore.t.

Definition new (entity_id : EntityId.t) (policy : AgentSchemaPolicy.t) : t :=
  let? scope := AgentScope.from_entity_id entity_id in
  Ok (AgentEntityStore.with_schema_policy (AgentEntityStore.new scope) policy).

Definition handle {C R} (self : t) (command : EntityCommand.t) : program AgentState.t C R (t * EntityReply.t) :=
  match self with
  | Err error => Done (self, EntityReply.rejected (EntityErr.Identity error))
  | Ok entity =>
      program_bind (AgentEntityStore.apply_recovered command entity) (fun '(entity, r) =>
        Done (Ok entity, match r with Ok reply => reply | Err error => EntityReply.rejected error end))
  end.
End AgentEntity.
