(* ===== verification/Readiness.v ===== *)
(** * Whether an agent may be assigned a task: [rakka-agent/src/task.rs]

    A task entity decides an assignment from the agent's durable state alone, loaded without
    waking the agent entity.  The answer is derived anew for every decision: the admission on
    record is asked whether it still admits the task's class under the definition in force. *)

From S2P Require Import Prelude Identity Persistence DurableState AgentIdentity AgentSchema CompiledPlan Budget.
From S2P Require Import Delegation Authority Admission AgentEntity.

(** The fields of a task definition that an assignment is decided by. *)
Module AgentTaskDefinition.
Record t := mk {
  definition_id : AgentTaskDefinitionId.t;
  operation_class : OperationClass.t;
  required_skills : gset AgentCapabilityId.t;
}.
End AgentTaskDefinition.

Module AgentAssignmentRefusalReason.
Inductive t :=
| AgentNotInstantiated | AgentNotActive | TaskDefinitionNotPermitted | OperationClassNotDeclared
| SkillNotDeclared | NotAdmitted | BudgetUnavailable | RunRefusedAssignment.
#[global] Instance eq_dec : EqDecision t.
Proof. solve_decision. Defined.
Definition code (self : t) : string :=
  match self with
  | AgentNotInstantiated => "agent-not-instantiated"
  | AgentNotActive => "agent-not-active"
  | TaskDefinitionNotPermitted => "task-definition-not-permitted"
  | OperationClassNotDeclared => "operation-class-not-declared"
  | SkillNotDeclared => "skill-not-declared"
  | NotAdmitted => "agent-not-admitted"
  | BudgetUnavailable => "task-budget-unavailable"
  | RunRefusedAssignment => "run-refused-assignment"
  end.
End AgentAssignmentRefusalReason.
Module RefusalReason := AgentAssignmentRefusalReason.

Module AgentAssignmentReadiness.
Record t := mk {
  agent : AgentId.t;
  status : option Lifecycle.t;
  definition_revision : option AgentRevisionNumber.t;
  settings_revision : option AgentRevisionNumber.t;
  permits_task_definition : bool;
  permits_operation_class : bool;
  declares_required_skills : bool;
  permits_team_coordination : bool;
  admission_refusal : option Refusal.t;
}.

(** [Result::err]. *)
Definition err {E A} (r : result E A) : option E := match r with Ok _ => None | Err e => Some e end.

Definition from_agent_state (state : AgentState.t) (definition : AgentTaskDefinition.t) (now : AgentTimestampMillis) : t :=
  let envelope := DefinitionRevision.envelope (AgentState.definition state) in
  let class := AgentTaskDefinition.operation_class definition in
  mk (AgentScope.agent (AgentState.scope state)) (Some (AgentState.status state))
    (Some (DefinitionRevision.revision (AgentState.definition state)))
    (Some (SettingsRevision.revision (AgentState.settings state)))
    (bool_decide (AgentTaskDefinition.definition_id definition ∈ AuthEnvelope.task_definitions envelope))
    (negb (OperationClass.is_unattended class) || bool_decide (class ∈ AuthEnvelope.operation_classes envelope))
    (forallb (fun skill =>
       existsb (fun tool => bool_decide (skill ∈ ToolDeclaration.capabilities tool))
         (btree_values (AuthEnvelope.tools envelope)))
       (btree_elements (AgentTaskDefinition.required_skills definition)))
    (bool_decide (CapabilityKind.Team ∈ AuthEnvelope.coordination_capabilities envelope))
    (if OperationClass.is_unattended class then
       match AgentState.admission state with
       | None => Some Refusal.Missing
       | Some decision =>
           err (AutonomyDecision.admits_definition decision class
                  (DefinitionRevision.definition (AgentState.definition state)) now)
       end
     else None).

Definition not_instantiated (agent : AgentId.t) : t :=
  mk agent None None None false false false false (Some Refusal.Missing).

Definition refusal (self : t) : option (RefusalReason.t * string) :=
  let name := AgentId.as_str (agent self) in
  match status self with
  | None => Some (RefusalReason.AgentNotInstantiated, "agent " +:+ name +:+ " has no durable state")
  | Some status =>
      if negb (Lifecycle.permits_dispatch status) then
        Some (RefusalReason.AgentNotActive, "agent " +:+ name +:+ " is " +:+ Lifecycle.as_label status)
      else if negb (permits_task_definition self) then
        Some (RefusalReason.TaskDefinitionNotPermitted,
              "agent " +:+ name +:+ " does not declare this task definition in its authority envelope")
      else if negb (permits_operation_class self) then
        Some (RefusalReason.OperationClassNotDeclared,
              "agent " +:+ name +:+ " does not declare this task's operation class in its authority envelope")
      else if negb (declares_required_skills self) then
        Some (RefusalReason.SkillNotDeclared,
              "agent " +:+ name +:+ " does not declare every skill this task requires")
      else
        match admission_refusal self with
        | Some refusal => Some (RefusalReason.NotAdmitted, Refusal.display refusal)
        | None => None
        end
  end.
End AgentAssignmentReadiness.
Module AssignReadiness := AgentAssignmentReadiness.

(** The errors of [AgentTaskError] that the read raises; the message is the text of its error. *)
Module ReadReadinessError.
Inductive t :=
| Identity (error : AgentIdentityError)
| AgentRead (agent : AgentId.t) (message : EntityErr.t).
End ReadReadinessError.

(** [AgentTaskEntityStore::read_readiness] of a task of [tenant]. *)
Definition read_readiness {C R} (tenant : TenantId.t) (policy : AgentSchemaPolicy.t) (assignee : AgentId.t)
    (definition : AgentTaskDefinition.t) (now : AgentTimestampMillis) :
    program AgentState.t C R (result ReadReadinessError.t AgentAssignmentReadiness.t) :=
  match AgentScope.new tenant assignee with
  | Err error => Done (Err (ReadReadinessError.Identity error))
  | Ok scope =>
      program_bind (load_agent_entity_state scope policy) (fun loaded =>
        Done
          (let? state := map_err (ReadReadinessError.AgentRead assignee) loaded in
           Ok match state with
              | None => AgentAssignmentReadiness.not_instantiated assignee
              | Some state => AgentAssignmentReadiness.from_agent_state state definition now
              end))
  end.
