(* ===== verification/AgentRuns.v ===== *)
(** * Facades of one agent over one store

    Any number of processes hold facades of one agent's record - replicas during a hand-over
    of its shard, or restarted ones - and apply commands step by step, each store call a step
    of its own.  [entity_next] is the atomic object they implement: what a command makes of
    the current state.  Every run commits a history of that object, and every reply a caller
    gets is explained by it. *)

From stdpp Require Import relations.
From S2P Require Import Prelude Identity Persistence DurableState AgentIdentity AgentSchema CompiledPlan Budget.
From S2P Require Import Delegation Authority Admission AgentEntity.
Import AgentEntityStore.

(** ** The atomic object *)

Section Spec.
Context (agent : AgentScope.t).

(** A transition of an instantiated agent that is not terminated. *)
Definition mutated (before : option AgentState.t) (operation_id : AgentOperationId.t) (now : AgentTimestampMillis)
    (transition : AgentState.t → AgentEntityResult AgentState.t) : AgentEntityResult AgentState.t :=
  match before with
  | None => Err (EntityErr.NotInstantiated agent)
  | Some state =>
      if Lifecycle.is_terminal (AgentState.status state) then Err (EntityErr.Terminated agent)
      else let? next := transition state in Ok (recorded operation_id now next)
  end.

Definition instantiated (before : option AgentState.t) (operation_id : AgentOperationId.t)
    (definition : AgentDefinition.t) (settings : Settings.t) (provenance : RevisionProvenance.t) :
    AgentEntityResult AgentState.t :=
  match before with
  | Some _ => Err (EntityErr.AlreadyInstantiated agent)
  | None =>
      let? _ := map_err EntityErr.Definition_ (AgentDefinition.validate definition) in
      let definition := DefinitionRevision.initial definition provenance in
      let? settings := map_err EntityErr.Definition_ (SettingsRevision.initial definition settings provenance) in
      let now := RevisionProvenance.accepted_at provenance in
      Ok (recorded operation_id now (AgentState.new agent definition settings now))
  end.

(** What a command makes of the state, when its operation is not remembered. *)
Definition entity_next (before : option AgentState.t) (command : EntityCommand.t) :
    option (AgentEntityResult AgentState.t) :=
  match command with
  | EntityCommand.Describe => None
  | EntityCommand.Instantiate operation_id definition settings provenance =>
      Some (instantiated before operation_id definition settings provenance)
  | EntityCommand.PublishDefinition operation_id definition provenance =>
      Some (let? _ := map_err EntityErr.Definition_ (AgentDefinition.validate definition) in
            mutated before operation_id (RevisionProvenance.accepted_at provenance)
              (publish_transition definition provenance))
  | EntityCommand.UpdateSettings operation_id expected changes provenance =>
      Some (mutated before operation_id (RevisionProvenance.accepted_at provenance)
              (settings_transition expected changes provenance))
  | EntityCommand.Admit operation_id decision =>
      Some (mutated before operation_id (AutonomyDecision.created_at decision) (admit_transition decision))
  | EntityCommand.Retract operation_id reason provenance =>
      Some (if (AGENT_ADMISSION_DETAIL_MAX_LENGTH <? String.length reason)%nat then
              Err (EntityErr.Admission
                (AdmissionErr.DetailTooLong "retraction reason" (String.length reason) AGENT_ADMISSION_DETAIL_MAX_LENGTH))
            else
              mutated before operation_id (RevisionProvenance.accepted_at provenance)
                (retract_transition reason provenance))
  | EntityCommand.Suspend operation_id expected provenance =>
      Some (mutated before operation_id (RevisionProvenance.accepted_at provenance)
              (lifecycle_transition expected Lifecycle.Suspended))
  | EntityCommand.Resume operation_id expected provenance =>
      Some (mutated before operation_id (RevisionProvenance.accepted_at provenance)
              (lifecycle_transition expected Lifecycle.Active))
  | EntityCommand.Terminate operation_id expected provenance =>
      Some (mutated before operation_id (RevisionProvenance.accepted_at provenance)
              (lifecycle_transition expected Lifecycle.Terminated))
  end.

(** The outcome the state remembers for the command. *)
Definition remembers (before : option AgentState.t) (command : EntityCommand.t) : option Outcome.t :=
  operation_id ← EntityCommand.operation_id command;
  state ← before;
  OperationLog.outcome (AgentState.applied_operations state) operation_id.

Definition accepted (before : option AgentState.t) (command : EntityCommand.t) (next : AgentState.t) : Prop :=
  remembers before command = None ∧ entity_next before command = Some (Ok next).

(** What was committed, oldest first, each with the command that was applied. *)
Abbreviation history := (list (EntityCommand.t * AgentState.t)).

(** The state after the first [i] commits. *)
Definition state_at (h : history) (i : nat) : option AgentState.t :=
  match i with 0%nat => None | S i => snd <$> h !! i end.

Definition legal (h : history) : Prop :=
  ∀ i command next, h !! i = Some (command, next) → accepted (state_at h i) command next.

Definition later (h h' : history) : Prop := h `prefix_of` h' ∧ legal h'.

(** ** Replies *)

(** Errors that say nothing of the command. *)
Definition transport (error : EntityErr.t) : Prop :=
  (∃ e, error = EntityErr.Persistence e) ∨ (∃ e, error = EntityErr.Schema e).

Definition explains (h : history) (command : EntityCommand.t) (r : AgentEntityResult EntityReply.t) : Prop :=
  match r with
  | Ok (EntityReply.Applied outcome) =>
      ∃ i next, h !! i = Some (command, next) ∧ outcome = AgentState.outcome next
  | Ok (EntityReply.Duplicate outcome) =>
      ∃ i, (i ≤ length h)%nat ∧ remembers (state_at h i) command = Some outcome
  | Ok (EntityReply.Snapshot snapshot) =>
      command = EntityCommand.Describe ∧ ∃ i, (i ≤ length h)%nat ∧ snapshot = AgentState.snapshot <$> state_at h i
  | Ok (EntityReply.Rejected _ _) => False
  | Err error =>
      transport error ∨ ∃ i, (i ≤ length h)%nat ∧ remembers (state_at h i) command = None ∧
        entity_next (state_at h i) command = Some (Err error)
  end.

(** ** What a process is entitled to *)

Definition current (h : history) : option (StateRecord.t AgentState.t) :=
  (fun c => StateRecord.new (snd c) (Z.of_nat (length h))) <$> last h.

(** What a load returned after the first [i] commits. *)
Definition known (h : history) (record : option (StateRecord.t AgentState.t)) : Prop :=
  ∃ i, (i ≤ length h)%nat ∧ record = (fun s => StateRecord.new s (Z.of_nat i)) <$> state_at h i.

Definition cached (h : history) (self : AgentEntityStore.t) : Prop :=
  scope self = agent ∧ persistence_id self = AgentScope.persistence_id agent ∧
  (recovered self = true → known h (record self)).

Section Programs.
Context {C R : Type}.
Abbreviation prog := (program AgentState.t C R (AgentEntityStore.t * AgentEntityResult EntityReply.t)).

(** Whatever the others commit before each answer, the program commits at most what [command]
    makes of the state it then finds, and its reply is explained. *)
Fixpoint wp (command : EntityCommand.t) (p : prog) (h : history) : Prop :=
  match p with
  | Done (self, r) => ∀ h', later h h' → cached h' self ∧ explains h' command r
  | Load pid k =>
      pid = AgentScope.persistence_id agent ∧
      ∀ h' r, later h h' → (∀ o, r = Ok o → o = current h') → wp command (k r) h'
  | CompareAndSet pid revision next k =>
      pid = AgentScope.persistence_id agent ∧ ∀ h', later h h' →
        (∀ e, wp command (k (Err e)) h') ∧
        (revision = Z.of_nat (length h') → revision < u64_max →
         accepted (state_at h' (length h')) command next ∧
         wp command (k (Ok (StateRecord.new next (Revision_next revision)))) (h' ++ [(command, next)]))
  | Deliver _ _ => False
  end.

(** ** Histories *)

Lemma history_refl h : legal h → later h h.
Proof. by split. Qed.

Lemma history_trans h1 h2 h3 : later h1 h2 → later h2 h3 → later h1 h3.
Proof. intros [? _] [? ?]. split; [by etrans|done]. Qed.

Lemma state_at_prefix h h' i : h `prefix_of` h' → (i ≤ length h)%nat → state_at h' i = state_at h i.
Proof. intros [l ->]. destruct i as [|i]; [done|]. intros Hi. simpl. by rewrite lookup_app_l. Qed.

Lemma state_at_commit h x i : (i ≤ length h)%nat → state_at (h ++ [x]) i = state_at h i.
Proof. apply state_at_prefix. by apply prefix_app_r. Qed.

Lemma legal_snoc h command next : legal h → accepted (state_at h (length h)) command next →
  legal (h ++ [(command, next)]).
Proof.
  intros Hl Ha i c s Hi. pose proof (lookup_lt_Some _ _ _ Hi) as Hlt. rewrite length_app in Hlt. simpl in Hlt.
  rewrite state_at_commit by lia. destruct (decide (i = length h)) as [-> |Hne].
  - rewrite lookup_app_r, Nat.sub_diag in Hi by done. by injection Hi as <- <-.
  - rewrite lookup_app_l in Hi by lia. by apply Hl.
Qed.

Lemma commit_next h command next : legal h → accepted (state_at h (length h)) command next →
  later h (h ++ [(command, next)]).
Proof. intros. split; [by apply prefix_app_r|by apply legal_snoc]. Qed.

Lemma explains_mono h h' command r : h `prefix_of` h' → explains h command r → explains h' command r.
Proof.
  intros Hp. pose proof (prefix_length _ _ Hp) as Hlen.
  assert (∀ i, (i ≤ length h)%nat → (i ≤ length h')%nat ∧ state_at h' i = state_at h i) as Hst.
  { intros i Hi. split; [lia|by apply state_at_prefix]. }
  destruct r as [[]|e]; simpl.
  - intros (i & s & Hi & ?). exists i, s. split; [by eapply prefix_lookup_Some|done].
  - intros (i & Hi & ?). exists i. destruct (Hst i Hi) as [? ->]. done.
  - intros (-> & i & Hi & ?). split; [done|]. exists i. destruct (Hst i Hi) as [? ->]. done.
  - done.
  - intros [?|(i & Hi & ?)]; [by left|right]. exists i. destruct (Hst i Hi) as [? ->]. done.
Qed.

Lemma cached_later h h' self : later h h' → cached h self → cached h' self.
Proof.
  intros [Hp _] (? & ? & Hk). split_and!; [done..|]. intros Hr. destruct (Hk Hr) as (i & Hi & ->).
  exists i. rewrite (state_at_prefix _ _ _ Hp Hi). apply prefix_length in Hp. split; [lia|done].
Qed.

Lemma current_at h : current h = (fun s => StateRecord.new s (Z.of_nat (length h))) <$> state_at h (length h).
Proof.
  unfold current. destruct (last h) as [[c s]|] eqn:Hl; simpl.
  - apply last_Some in Hl as [l ->]. rewrite length_app. simpl. rewrite Nat.add_1_r. simpl.
    by rewrite lookup_app_r, Nat.sub_diag.
  - by apply last_None in Hl as ->.
Qed.

Lemma load_known h o : o = current h → known h o.
Proof. intros ->. exists (length h). split; [done|]. apply current_at. Qed.

(** ** The methods *)

Lemma wp_done command self r h :
  legal h → cached h self → explains h command r → wp command (Done (self, r)) h.
Proof. intros Hl Hc He h' Hh. split; [by eapply cached_later|]. eapply explains_mono; [apply Hh|done]. Qed.

(** A write computed from the state at [i] lands only while that state is current. *)
Lemma persist_ok command self next i h :
  legal h → cached h self → (i ≤ length h)%nat → accepted (state_at h i) command next →
  wp command (persist next (Z.of_nat i) self) h.
Proof.
  intros Hl Hc Hi Ha. split; [apply Hc|]. intros h' Hh. pose proof (cached_later _ _ _ Hh Hc) as Hc'. split.
  - intros e. apply wp_done; [apply Hh| |by left; left; eexists].
    destruct Hc' as (? & ? & ?). destruct e; split_and!; done.
  - intros Hrev Hb. assert (i = length h') as -> by lia.
    assert (accepted (state_at h' (length h')) command next) as Ha'.
    { by rewrite (state_at_prefix _ _ _ (proj1 Hh) Hi). }
    split; [done|]. pose proof (commit_next _ _ _ (proj2 Hh) Ha') as Hn. apply wp_done; [apply Hn| |].
    + destruct Hc' as (? & ? & _). split_and!; [done..|]. intros _. exists (S (length h')). simpl.
      rewrite length_app, lookup_app_r, Nat.sub_diag by done. simpl. split; [lia|]. do 2 f_equal.
      unfold Revision_next. rewrite add_u64_small; lia.
    + exists (length h'), next. rewrite lookup_app_r, Nat.sub_diag by done. done.
Qed.

Lemma refused_ok command self error i h :
  legal h → cached h self → (i ≤ length h)%nat → remembers (state_at h i) command = None →
  entity_next (state_at h i) command = Some (Err error) → wp command (Done (self, Err error)) h.
Proof. intros. apply wp_done; [done..|]. right. eauto. Qed.

Lemma mutate_ok command operation_id now transition self i h :
  legal h → cached h self → (i ≤ length h)%nat →
  record self = (fun s => StateRecord.new s (Z.of_nat i)) <$> state_at h i →
  remembers (state_at h i) command = None →
  entity_next (state_at h i) command = Some (mutated (state_at h i) operation_id now transition) →
  wp command (mutate operation_id now transition self) h.
Proof.
  intros Hl Hc Hi Hr Hm Hn. pose proof Hc as (Hs & _). unfold mutate. rewrite Hr, Hs.
  destruct (state_at h i) as [s|] eqn:Hst; simpl in Hn |- *.
  2: { eapply refused_ok; [done..| |]; by rewrite Hst. }
  destruct (Lifecycle.is_terminal _). { eapply refused_ok; [done..| |]; by rewrite Hst. }
  destruct (transition s) as [s'|e]; simpl in Hn |- *.
  - apply persist_ok; [done..|]. by rewrite Hst.
  - eapply refused_ok; [done..| |]; by rewrite Hst.
Qed.

Lemma remembered_at self command i h :
  record self = (fun s => StateRecord.new s (Z.of_nat i)) <$> state_at h i →
  remembered self command = remembers (state_at h i) command.
Proof. intros Hr. unfold remembered, remembers. rewrite Hr. by destruct (EntityCommand.operation_id command), (state_at h i). Qed.

Lemma instantiate_ok operation_id definition settings provenance self i h :
  let command := EntityCommand.Instantiate operation_id definition settings provenance in
  legal h → cached h self → (i ≤ length h)%nat →
  record self = (fun s => StateRecord.new s (Z.of_nat i)) <$> state_at h i →
  remembers (state_at h i) command = None →
  wp command (instantiate operation_id definition settings provenance self) h.
Proof.
  intros command Hl Hc Hi Hr Hm. pose proof Hc as (Hs & _ & _). unfold instantiate. rewrite Hr, Hs.
  destruct (state_at h i) as [s|] eqn:Hst; simpl.
  { eapply (refused_ok command _ _ i); [done..| |]; rewrite Hst; done. }
  destruct (AgentDefinition.validate definition) as [[]|e] eqn:Hv; simpl.
  2: { eapply (refused_ok command _ _ i); [done..| |]; rewrite Hst; [done|]. simpl. by rewrite Hv. }
  destruct (SettingsRevision.initial _ _ _) as [settings'|e] eqn:Hse; simpl.
  2: { eapply (refused_ok command _ _ i); [done..| |]; rewrite Hst; [done|]. simpl. by rewrite Hv, Hse. }
  assert (i = 0%nat) as ->.
  { destruct i as [|i]; [done|]. simpl in Hst. destruct (h !! i) eqn:Hh; [done|].
    apply lookup_ge_None in Hh. lia. }
  apply (persist_ok command _ _ 0); [done..|]. rewrite Hst. split; [done|]. simpl. by rewrite Hv, Hse.
Qed.

Lemma apply_ok command self h :
  legal h → cached h self → recovered self = true → wp command (apply command self) h.
Proof.
  intros Hl Hc Hrec. pose proof Hc as (_ & _ & Hk). destruct (Hk Hrec) as (i & Hi & Hr).
  unfold apply, ensure_recovered. rewrite Hrec, (remembered_at _ _ _ _ Hr).
  destruct (remembers (state_at h i) command) as [o|] eqn:Hm.
  { apply wp_done; [done..|]. by exists i. }
  destruct command; try (by eapply mutate_ok).
  - by eapply instantiate_ok.
  - unfold publish_definition. destruct (AgentDefinition.validate definition) as [?|e] eqn:Hv.
    + eapply mutate_ok; [done..|]. simpl. by rewrite Hv.
    + eapply refused_ok; [done..|]. simpl. by rewrite Hv.
  - unfold retract. destruct (_ <? _)%nat eqn:Hb.
    + eapply refused_ok; [done..|]. simpl. by rewrite Hb.
    + eapply mutate_ok; [done..|]. simpl. by rewrite Hb.
  - apply wp_done; [done..|]. split; [done|]. exists i. split; [done|]. rewrite Hr. by destruct (state_at h i).
Qed.

Lemma validate_loaded_error state policy e : validate_loaded_state state policy = Err e → transport e.
Proof. unfold validate_loaded_state. intros He. right. unfold map_err in He. repeat case_match; naive_solver. Qed.

Lemma apply_recovered_ok command self h : legal h → cached h self → wp command (apply_recovered command self) h.
Proof.
  intros Hl Hc. unfold apply_recovered, AgentEntityStore.state, ensure_recovered.
  destruct (recovered self) eqn:Hrec; simpl; [by apply apply_ok|].
  split; [apply Hc|]. intros h' r Hh Ho. pose proof (cached_later _ _ _ Hh Hc) as Hc'.
  destruct r as [o|e]; cbn [program_bind]; [|apply wp_done; [apply Hh|done|by left; left; eexists]].
  pose proof (load_known _ _ (Ho o eq_refl)) as Hko.
  assert (wp command (apply command (set_cache self true o)) h') as Hok.
  { apply apply_ok; [apply Hh| |done]. destruct Hc' as (? & ? & _). by split_and!. }
  destruct o as [rec|]; [|done].
  destruct (validate_loaded_state _ _) as [?|e] eqn:Hv; [done|].
  apply wp_done; [apply Hh|done|]. left. by eapply validate_loaded_error.
Qed.
End Programs.
End Spec.
