(* ===== verification/AgentHistory.v ===== *)
(** * Histories of an agent

    What holds of every history of the atomic object of [AgentRuns.v]: the log is the end of
    the history, revisions and revocations only grow, the settings in force stay inside the
    definition in force, a terminated agent stays as it is, and an admission on record was
    verified against the definition it names and not retracted since. *)

From S2P Require Import Prelude Identity Persistence DurableState AgentIdentity AgentSchema CompiledPlan Budget.
From S2P Require Import Delegation Authority Admission AgentEntity AgentRuns.
Import AgentEntityStore.

(** ** Commands as transitions of a state *)

Definition op_of (command : EntityCommand.t) : AgentOperationId.t :=
  default (AgentOperationId.Self "") (EntityCommand.operation_id command).

(** What an accepted command does to an instantiated agent, and when. *)
Definition transition_of (command : EntityCommand.t) (s : AgentState.t) : option (AgentTimestampMillis * AgentState.t) :=
  match command with
  | EntityCommand.PublishDefinition _ definition provenance =>
      match AgentDefinition.validate definition, publish_transition definition provenance s with
      | Ok _, Ok s' => Some (RevisionProvenance.accepted_at provenance, s')
      | _, _ => None
      end
  | EntityCommand.UpdateSettings _ expected changes provenance =>
      match settings_transition expected changes provenance s with
      | Ok s' => Some (RevisionProvenance.accepted_at provenance, s')
      | Err _ => None
      end
  | EntityCommand.Admit _ decision =>
      match admit_transition decision s with
      | Ok s' => Some (AutonomyDecision.created_at decision, s')
      | Err _ => None
      end
  | EntityCommand.Retract _ reason provenance =>
      Some (RevisionProvenance.accepted_at provenance,
            AgentState.set_admission s None (Some (Retraction.mk reason provenance)))
  | EntityCommand.Suspend _ expected provenance =>
      match lifecycle_transition expected Lifecycle.Suspended s with
      | Ok s' => Some (RevisionProvenance.accepted_at provenance, s')
      | Err _ => None
      end
  | EntityCommand.Resume _ expected provenance =>
      match lifecycle_transition expected Lifecycle.Active s with
      | Ok s' => Some (RevisionProvenance.accepted_at provenance, s')
      | Err _ => None
      end
  | EntityCommand.Terminate _ expected provenance =>
      match lifecycle_transition expected Lifecycle.Terminated s with
      | Ok s' => Some (RevisionProvenance.accepted_at provenance, s')
      | Err _ => None
      end
  | EntityCommand.Instantiate _ _ _ _ | EntityCommand.Describe => None
  end.

Abbreviation settings_of s := (SettingsRevision.settings (AgentState.settings s)).
Abbreviation definition_of s := (DefinitionRevision.definition (AgentState.definition s)).
Abbreviation envelope_of s := (DefinitionRevision.envelope (AgentState.definition s)).

Section History.
Context (agent : AgentScope.t).
Abbreviation history := (list (EntityCommand.t * AgentState.t)).
Implicit Types h : history.

Lemma mutated_inv before op now f next : mutated agent before op now f = Ok next →
  ∃ s s', before = Some s ∧ AgentState.status s ≠ Lifecycle.Terminated ∧ f s = Ok s' ∧ next = recorded op now s'.
Proof.
  unfold mutated. destruct before as [s|]; [|done].
  destruct (Lifecycle.is_terminal (AgentState.status s)) eqn:Ht; [done|].
  intros (s' & Hf & [= <-])%result_bind_ok. exists s, s'. split_and!; [done| |done|done].
  intros Hs. by rewrite Hs in Ht.
Qed.

(** An accepted command instantiates the agent or changes an agent that is not terminated. *)
Lemma accepted_inv before c next : accepted agent before c next →
  EntityCommand.operation_id c = Some (op_of c) ∧
  ((∃ op d settings p s, c = EntityCommand.Instantiate op d settings p ∧ before = None ∧
      AgentDefinition.validate d = Ok tt ∧
      SettingsRevision.initial (DefinitionRevision.initial d p) settings p = Ok s ∧
      next = recorded op (RevisionProvenance.accepted_at p)
               (AgentState.new agent (DefinitionRevision.initial d p) s (RevisionProvenance.accepted_at p))) ∨
   (∃ s now s', before = Some s ∧ AgentState.status s ≠ Lifecycle.Terminated ∧
      transition_of c s = Some (now, s') ∧ next = recorded (op_of c) now s')).
Proof.
  intros [_ Hn]. destruct c; simpl in Hn; try done; injection Hn as Hn; (split; [done|]).
  3,4,6-8: right; apply mutated_inv in Hn as (s & s' & -> & Ht & Hf & ->);
    eexists s, _, s'; split_and!; [done..|simpl; by rewrite Hf|done].
  - left. unfold instantiated in Hn. destruct before; [done|].
    apply result_bind_ok in Hn as (u & Hv & Hn). apply result_bind_ok in Hn as (s & Hs & [= <-]).
    destruct (AgentDefinition.validate definition) as [[]|] eqn:Hv'; [|done].
    destruct (SettingsRevision.initial _ _ _) as [s'|] eqn:Hs'; [|done]. injection Hs as ->.
    by exists operation_id, definition, settings, provenance, s.
  - right. apply result_bind_ok in Hn as (u & Hv & (s & s' & -> & Ht & Hf & ->)%mutated_inv).
    eexists s, _, s'. split_and!; [done..| |done]. simpl.
    destruct (AgentDefinition.validate definition); [|done]. by rewrite Hf.
  - right. destruct (_ <? _)%nat; [done|]. apply mutated_inv in Hn as (s & s' & -> & Ht & [= <-] & ->).
    by eexists s, _, _.
Qed.

Lemma lifecycle_inv e target s s' : lifecycle_transition e target s = Ok s' →
  AgentState.lifecycle_revision s = e ∧ s' = AgentState.set_lifecycle s target (AgentRevisionNumber.next e).
Proof. unfold lifecycle_transition. case_bool_decide as He; [done|]. intros [= <-]. by rewrite He. Qed.

(** The fence of the lifecycle commands: the revision expected is the one found, and the next
    one is left. *)
Lemma accepted_lifecycle before c next op expected p : accepted agent before c next →
  (c = EntityCommand.Suspend op expected p ∨ c = EntityCommand.Resume op expected p ∨
   c = EntityCommand.Terminate op expected p) →
  ∃ z, before = Some z ∧ AgentState.lifecycle_revision z = expected ∧
    AgentState.lifecycle_revision next = AgentRevisionNumber.next expected.
Proof.
  intros (_ & [(? & ? & ? & ? & ? & -> & _)|(z & now & z' & -> & _ & Ht & ->)])%accepted_inv Hc; [naive_solver|].
  exists z. split; [done|]. destruct Hc as [-> |[-> | ->]]; simpl in Ht;
    (destruct (lifecycle_transition _ _ z) as [?|?] eqn:Hf; [apply lifecycle_inv in Hf as [? ->]|done]);
    injection Ht as _ <-; (split; [done|]); by destruct z.
Qed.

(** What a transition does, command by command: everything else stays. *)
Lemma transition_cases c s now s' : transition_of c s = Some (now, s') →
  AgentState.applied_operations s' = AgentState.applied_operations s ∧
  AgentState.scope s' = AgentState.scope s ∧
  ((∃ op d p, c = EntityCommand.PublishDefinition op d p ∧ AgentDefinition.validate d = Ok tt ∧
      let d' := DefinitionRevision.succeed (AgentState.definition s) d p in
      Settings.validate_against (SettingsRevision.settings (AgentState.settings s)) (DefinitionRevision.envelope d') = Ok tt ∧
      s' = AgentState.set_definition s d') ∨
   (∃ op e cs p settings, c = EntityCommand.UpdateSettings op e cs p ∧
      SettingsRevision.revision (AgentState.settings s) = e ∧
      SettingsRevision.apply (AgentState.settings s) (AgentState.definition s) cs p = Ok settings ∧
      s' = AgentState.set_settings s settings) ∨
   (∃ op d, c = EntityCommand.Admit op d ∧
      AutonomyDecision.definition_revision d = DefinitionRevision.revision (AgentState.definition s) ∧
      AutonomyDecision.settings_revision d = SettingsRevision.revision (AgentState.settings s) ∧
      AutonomyDecision.verify d (DefinitionRevision.definition (AgentState.definition s)) = Ok tt ∧
      s' = AgentState.set_admission s (Some d) None) ∨
   (∃ op reason p, c = EntityCommand.Retract op reason p ∧
      s' = AgentState.set_admission s None (Some (Retraction.mk reason p))) ∨
   (∃ op e p target, (c = EntityCommand.Suspend op e p ∧ target = Lifecycle.Suspended ∨
                      c = EntityCommand.Resume op e p ∧ target = Lifecycle.Active ∨
                      c = EntityCommand.Terminate op e p ∧ target = Lifecycle.Terminated) ∧
      AgentState.lifecycle_revision s = e ∧
      s' = AgentState.set_lifecycle s target (AgentRevisionNumber.next e))).
Proof.
  intros H. destruct c; simpl in H; try done.
  5-7: destruct (lifecycle_transition _ _ s) as [x|] eqn:Hl; [|done]; injection H as <- <-;
    apply lifecycle_inv in Hl as [<- ->]; (split_and!; [by destruct s..|]); do 4 right;
    eexists operation_id, _, provenance, _; (split; [|done]); eauto.
  - destruct (AgentDefinition.validate definition) as [[]|] eqn:Hv; [|done].
    unfold publish_transition, SettingsRevision.validate_against_definition in H.
    destruct (Settings.validate_against _ _) as [[]|] eqn:Hs; [|done]. injection H as <- <-.
    split_and!; [by destruct s..|]. left. by exists operation_id, definition, provenance.
  - unfold settings_transition in H. case_bool_decide as He; [done|].
    destruct (SettingsRevision.apply _ _ _ _) as [x|] eqn:Hs; [|done]. injection H as <- <-.
    split_and!; [by destruct s..|]. right; left. by exists operation_id, expected_revision, changes, provenance, x.
  - unfold admit_transition in H. case_bool_decide as He; [done|].
    case_bool_decide as He'; [done|].
    destruct (AutonomyDecision.verify _ _) as [[]|] eqn:Hs; [|done]. injection H as <- <-.
    split_and!; [by destruct s..|]. right; right; left. by exists operation_id, decision.
  - injection H as <- <-. split_and!; [by destruct s..|]. do 3 right. left. by exists operation_id, reason, provenance.
Qed.

(** ** The operation log *)

Definition entry_of (c : EntityCommand.t * AgentState.t) : LogEntry.t :=
  LogEntry.mk (op_of c.1) (AgentState.outcome c.2).

Definition log_of (o : option AgentState.t) : list LogEntry.t :=
  default [] (OperationLog.entries ∘ AgentState.applied_operations <$> o).

Lemma recorded_outcome op now s : AgentState.outcome (recorded op now s) = AgentState.outcome s.
Proof. by destruct s. Qed.

Lemma recorded_log op now s :
  OperationLog.entries (AgentState.applied_operations (recorded op now s)) =
  last_n AGENT_ENTITY_OPERATION_LOG_CAPACITY
    (OperationLog.entries (AgentState.applied_operations s) ++ [LogEntry.mk op (AgentState.outcome s)]).
Proof. by destruct s. Qed.

Lemma accepted_log before c next : accepted agent before c next →
  log_of (Some next) = last_n AGENT_ENTITY_OPERATION_LOG_CAPACITY (log_of before ++ [entry_of (c, next)]).
Proof.
  intros (_ & [(op & d & settings & p & s & -> & -> & _ & _ & ->)|(s & now & s' & -> & _ & Ht & ->)])%accepted_inv.
  - done.
  - apply transition_cases in Ht as (Hl & _ & _). unfold entry_of, log_of. cbn [fst snd fmap option_fmap option_map default compose].
    by rewrite recorded_log, Hl, recorded_outcome.
Qed.

Lemma state_at_length h i s : state_at h i = Some s → (i ≤ length h)%nat.
Proof.
  destruct i as [|i]; [done|]. simpl. destruct (h !! i) eqn:Hi; [|done]. intros _. by apply lookup_lt_Some in Hi.
Qed.

Lemma state_at_S h i c s : h !! i = Some (c, s) → state_at h (S i) = Some s.
Proof. simpl. by intros ->. Qed.

(** The log of a state is the end of the history before it. *)
Lemma log_at h i : legal agent h → (i ≤ length h)%nat →
  log_of (state_at h i) = last_n AGENT_ENTITY_OPERATION_LOG_CAPACITY (entry_of <$> take i h).
Proof.
  intros Hl. induction i as [|i IH]; intros Hi; [done|].
  destruct (lookup_lt_is_Some_2 h i ltac:(lia)) as [[c s] Hc].
  rewrite (state_at_S _ _ _ _ Hc), (accepted_log _ _ _ (Hl _ _ _ Hc)), IH by lia.
  by rewrite last_n_app, (take_S_r _ _ _ Hc), fmap_app.
Qed.

Lemma remembers_log before c o : remembers before c = Some o →
  ∃ op, EntityCommand.operation_id c = Some op ∧ LogEntry.mk op o ∈ log_of before.
Proof.
  unfold remembers. destruct (EntityCommand.operation_id c) as [op|]; [|done]. destruct before as [s|]; [|done]. simpl.
  unfold OperationLog.outcome. destruct (find_first _ _) as [[op' o']|] eqn:Hf; [|done]. simpl. intros [= ->].
  apply find_first_Some in Hf as [Hin Hb%bool_decide_eq_true]. simpl in Hb. subst op'. by exists op.
Qed.

Lemma forgets_log before c e : remembers before c = None → EntityCommand.operation_id c = Some (op_of c) →
  e ∈ log_of before → LogEntry.operation_id e ≠ op_of c.
Proof.
  unfold remembers. intros Hr Hop. rewrite Hop in Hr. destruct before as [s|]; [|by intros ?%elem_of_nil]. simpl in Hr |- *.
  unfold OperationLog.outcome in Hr. destruct (find_first _ _) as [|] eqn:Hf; [done|].
  rewrite find_first_None in Hf. intros He. by apply Hf, bool_decide_eq_false in He.
Qed.

(** A remembered outcome is that of a commit with the same operation, not far back. *)
Lemma remembered_commit h i c o : legal agent h → (i ≤ length h)%nat → remembers (state_at h i) c = Some o →
  ∃ j c' s, (j < i)%nat ∧ (i - j ≤ AGENT_ENTITY_OPERATION_LOG_CAPACITY)%nat ∧ h !! j = Some (c', s) ∧
    op_of c' = op_of c ∧ o = AgentState.outcome s.
Proof.
  intros Hl Hi (op & Hop & Hin)%remembers_log. rewrite log_at in Hin by done.
  apply last_n_elem in Hin as (j & Hj & Hb). rewrite list_lookup_fmap in Hj.
  destruct (take i h !! j) as [[c' s]|] eqn:Ht; [|done]. injection Hj as Ho <-.
  rewrite length_fmap, length_take_le in Hb by done. pose proof (lookup_lt_Some _ _ _ Ht) as Hlt.
  rewrite length_take_le in Hlt by done. rewrite lookup_take_lt in Ht by done.
  exists j, c', s. split_and!; try done. unfold op_of at 2. by rewrite Hop.
Qed.

(** Two commits of one operation are further apart than the log reaches. *)
Lemma commits_spaced h i j c c' s s' : legal agent h → (i < j)%nat →
  h !! i = Some (c, s) → h !! j = Some (c', s') → op_of c = op_of c' →
  (AGENT_ENTITY_OPERATION_LOG_CAPACITY < j - i)%nat.
Proof.
  intros Hl Hij Hi Hj Hop. apply Nat.nle_gt. intros Hb. pose proof (lookup_lt_Some _ _ _ Hj) as Hlt.
  destruct (Hl _ _ _ Hj) as [Hm Hn]. pose proof (proj1 (accepted_inv _ _ _ (conj Hm Hn))) as Hsome.
  eapply (forgets_log _ _ (entry_of (c, s)) Hm Hsome); [|done]. rewrite log_at by (done || lia).
  apply (last_n_lookup _ _ i); [by rewrite list_lookup_fmap, lookup_take_lt, Hi by done|].
  rewrite length_fmap, length_take_le; lia.
Qed.

(** ** What every state of a history satisfies *)

Definition numbered (r : AgentRevisionNumber.t) : Prop := 1 <= AgentRevisionNumber.get r <= u64_max.

Definition revision_le (r r' : AgentRevisionNumber.t) : Prop := AgentRevisionNumber.get r <= AgentRevisionNumber.get r'.

#[local] Instance revision_le_refl : Reflexive revision_le.
Proof. intros r. unfold revision_le. lia. Qed.

Lemma numbered_initial : numbered AgentRevisionNumber.INITIAL.
Proof. unfold numbered, u64_max. simpl. lia. Qed.

Lemma numbered_next r : numbered r → numbered (AgentRevisionNumber.next r) ∧ revision_le r (AgentRevisionNumber.next r).
Proof. unfold numbered, revision_le, AgentRevisionNumber.next, saturating_add_u64, u64_max. simpl. lia. Qed.

Record state_ok (s : AgentState.t) : Prop := {
  ok_scope : AgentState.scope s = agent;
  ok_definition : AgentDefinition.validate (definition_of s) = Ok tt;
  ok_settings : Settings.validate_against (settings_of s) (envelope_of s) = Ok tt;
  ok_lifecycle_number : numbered (AgentState.lifecycle_revision s);
  ok_definition_number : numbered (DefinitionRevision.revision (AgentState.definition s));
  ok_settings_number : numbered (SettingsRevision.revision (AgentState.settings s));
  ok_retraction : AgentState.admission s = None ∨ AgentState.admission_retraction s = None;
}.

(** What a later state keeps of an earlier one. *)
Record state_le (s s' : AgentState.t) : Prop := {
  le_lifecycle : revision_le (AgentState.lifecycle_revision s) (AgentState.lifecycle_revision s');
  le_definition : revision_le (DefinitionRevision.revision (AgentState.definition s))
                    (DefinitionRevision.revision (AgentState.definition s'));
  le_settings : revision_le (SettingsRevision.revision (AgentState.settings s))
                  (SettingsRevision.revision (AgentState.settings s'));
  le_tools : Settings.revoked_tools (settings_of s) ⊆ Settings.revoked_tools (settings_of s');
  le_credentials : Settings.revoked_credential_bindings (settings_of s) ⊆
                     Settings.revoked_credential_bindings (settings_of s');
}.

#[local] Instance state_le_preorder : PreOrder state_le.
Proof.
  split.
  - intros s. split; unfold revision_le; done.
  - intros s1 s2 s3 [] []. split; unfold revision_le in *; lia || set_solver.
Qed.

Lemma recorded_ok op now s : state_ok s → state_ok (recorded op now s).
Proof. destruct s. intros []. by split. Qed.

Lemma recorded_le op now s s' : state_le s s' → state_le s (recorded op now s').
Proof. destruct s'. intros []. by split. Qed.

Lemma change_revokes settings c :
  Settings.revoked_tools settings ⊆ Settings.revoked_tools (Settings.apply settings c) ∧
  Settings.revoked_credential_bindings settings ⊆ Settings.revoked_credential_bindings (Settings.apply settings c).
Proof. destruct settings, c; simpl; set_solver. Qed.

Lemma changes_revoke cs settings :
  Settings.revoked_tools settings ⊆ Settings.revoked_tools (foldl Settings.apply settings cs) ∧
  Settings.revoked_credential_bindings settings ⊆
    Settings.revoked_credential_bindings (foldl Settings.apply settings cs).
Proof.
  revert settings. induction cs as [|c cs IH]; intros settings; [done|]. simpl.
  destruct (IH (Settings.apply settings c)), (change_revokes settings c). set_solver.
Qed.

Lemma settings_apply_inv r d cs p r' : SettingsRevision.apply r d cs p = Ok r' →
  SettingsRevision.revision r' = AgentRevisionNumber.next (SettingsRevision.revision r) ∧
  SettingsRevision.settings r' = foldl Settings.apply (SettingsRevision.settings r) cs ∧
  Settings.validate_against (SettingsRevision.settings r') (DefinitionRevision.envelope d) = Ok tt.
Proof.
  unfold SettingsRevision.apply. destruct (_ =? _)%nat; [done|]. destruct (_ <? _)%nat; [done|].
  intros ([] & Hv & [= <-])%result_bind_ok. done.
Qed.

Lemma transition_ok c s now s' : transition_of c s = Some (now, s') → state_ok s → state_ok s' ∧ state_le s s'.
Proof.
  intros (_ & _ & Ht)%transition_cases Hok. pose proof Hok as [Hsc Hd Hs Hl Hdn Hsn Hr].
  destruct Ht as [(op & d & p & -> & Hv & Hs' & ->)|[(op & e & cs & p & x & -> & _ & Hx & ->)|
    [(op & d & -> & _ & _ & _ & ->)|[(op & reason & p & -> & ->)|(op & e & p & t & _ & <- & ->)]]]].
  - destruct (numbered_next _ Hdn). destruct s. simpl in *. split; split; simpl; auto; done.
  - apply settings_apply_inv in Hx as (Hrev & Hset & Hval). destruct (numbered_next _ Hsn).
    destruct (changes_revoke cs (settings_of s)). destruct s. simpl in *. rewrite <-Hrev in *. rewrite <-Hset in *.
    split; split; simpl; auto; done.
  - destruct s. simpl in *. split; split; simpl; auto; done.
  - destruct s. simpl in *. split; split; simpl; auto; done.
  - destruct (numbered_next _ Hl). destruct s. simpl in *. split; split; simpl; auto; done.
Qed.

Lemma accepted_ok before c next : accepted agent before c next → (∀ s, before = Some s → state_ok s) →
  state_ok next ∧ ∀ s, before = Some s → state_le s next.
Proof.
  intros (_ & [(op & d & settings & p & s & -> & -> & Hv & Hs & ->)|(s & now & s' & -> & _ & Ht & ->)])%accepted_inv Hok.
  - split; [|done]. apply recorded_ok. unfold SettingsRevision.initial in Hs.
    apply result_bind_ok in Hs as ([] & Hs & [= <-]). split; simpl; auto using numbered_initial.
  - destruct (transition_ok _ _ _ _ Ht (Hok s eq_refl)) as [Hok' Hle].
    split; [by apply recorded_ok|]. intros s0 [= <-]. by apply recorded_le.
Qed.

Lemma history_ok h i s : legal agent h → state_at h i = Some s → state_ok s.
Proof.
  intros Hl. revert s. induction i as [|i IH]; intros s Hs; [done|]. simpl in Hs.
  destruct (h !! i) as [[c s']|] eqn:Hc; [|done]. injection Hs as <-.
  by apply (accepted_ok _ _ _ (Hl _ _ _ Hc)).
Qed.

Lemma state_before h i j s : legal agent h → (i ≤ j)%nat → state_at h i = Some s → (j ≤ length h)%nat →
  ∃ s', state_at h j = Some s' ∧ state_le s s'.
Proof.
  intros Hl Hij Hs. induction Hij as [|j Hij IH]; intros Hj; [by exists s|].
  destruct (IH ltac:(lia)) as (s1 & Hs1 & Hle). destruct (lookup_lt_is_Some_2 h j ltac:(lia)) as [[c s2] Hc].
  exists s2. split; [by eapply state_at_S|]. etrans; [done|].
  destruct (accepted_ok _ _ _ (Hl _ _ _ Hc)) as [_ Hn]; [|by apply Hn].
  intros s0 Hs0. by eapply history_ok.
Qed.

(** Nothing is applied to a terminated agent. *)
Lemma terminated_last h i s : legal agent h → state_at h i = Some s → AgentState.status s = Lifecycle.Terminated →
  length h = i.
Proof.
  intros Hl Hs Ht. pose proof (state_at_length _ _ _ Hs) as Hi. destruct (decide (length h = i)) as [|Hne]; [done|].
  destruct (lookup_lt_is_Some_2 h i ltac:(lia)) as [[c s'] Hc].
  destruct (accepted_inv _ _ _ (Hl _ _ _ Hc)) as (_ & [(? & ? & ? & ? & ? & _ & Hn & _)|(s0 & ? & ? & Hn & ? & _)]);
    rewrite Hs in Hn; by simplify_eq.
Qed.

(** ** Where an admission comes from *)

(** The commands that say who may run unattended. *)
Definition decides_admission (c : EntityCommand.t) : bool :=
  match c with EntityCommand.Admit _ _ | EntityCommand.Retract _ _ _ => true | _ => false end.

(** [d] was recorded at [j], against the revisions it names, and stood from there to [i]. *)
Definition admitted_at h (i j : nat) (d : AutonomyDecision.t) : Prop :=
  ∃ op before next, (j < i)%nat ∧ h !! j = Some (EntityCommand.Admit op d, next) ∧ state_at h j = Some before ∧
    AutonomyDecision.definition_revision d = DefinitionRevision.revision (AgentState.definition before) ∧
    AutonomyDecision.settings_revision d = SettingsRevision.revision (AgentState.settings before) ∧
    AutonomyDecision.verify d (definition_of before) = Ok tt ∧
    ∀ k c x, (j < k < i)%nat → h !! k = Some (c, x) → decides_admission c = false.

Lemma admission_source h i s d : legal agent h → state_at h i = Some s → AgentState.admission s = Some d →
  ∃ j, admitted_at h i j d.
Proof.
  intros Hl. revert s. induction i as [|i IH]; intros s Hs Hd; [done|]. simpl in Hs.
  destruct (h !! i) as [[c s1]|] eqn:Hc; [|done]. injection Hs as <-.
  destruct (accepted_inv _ _ _ (Hl _ _ _ Hc)) as (_ & [(? & ? & ? & ? & ? & _ & _ & _ & _ & ->)|
    (s0 & now & s' & Hs0 & _ & Ht & ->)]); [done|].
  assert (AgentState.admission s' = Some d) as Hd' by (by destruct s'). clear Hd.
  assert (decides_admission c = false → AgentState.admission s' = AgentState.admission s0 → ∃ j, admitted_at h (S i) j d)
    as Hkeep.
  { intros Hn Ha. rewrite Ha in Hd'. destruct (IH _ Hs0 Hd') as (j & op & b & n & Hji & Hj & Hb & ? & ? & ? & Hk).
    exists j, op, b, n. split_and!; try done; [lia|]. intros k c' x Hr Hck.
    destruct (decide (k = i)) as [-> |]; [rewrite Hc in Hck; by simplify_eq|]. eapply (Hk k); [lia|done]. }
  apply transition_cases in Ht as (_ & _ & [(op & d' & p & -> & _ & _ & ->)|[(op & e & cs & p & x & -> & _ & _ & ->)|
    [(op & d' & -> & Hdr & Hsr & Hv & ->)|[(op & reason & p & -> & ->)|(op & e & p & t & Hcs & _ & ->)]]]]).
  - apply Hkeep; [done|by destruct s0].
  - apply Hkeep; [done|by destruct s0].
  - assert (d' = d) as -> by (destruct s0; simpl in Hd'; congruence).
    eexists i, op, s0, _. split_and!; [lia|exact Hc|done..|]. intros; lia.
  - by destruct s0.
  - apply Hkeep; [|by destruct s0]. by destruct Hcs as [[-> _]|[[-> _]|[-> _]]].
Qed.
End History.
