(* ===== verification/AgentProps.v ===== *)
(** * Runs of agent facades, and the properties of agents, their authority and their admission

    Processes over one lawful store, each with a facade of the same agent: they take commands,
    run them one store call at a time, stop anywhere and start again with an empty cache.  The
    theorems about envelopes, agent records and admissions are in terms of such runs. *)

From stdpp Require Import relations.
From S2P Require Import Prelude Identity Persistence DurableState AgentIdentity AgentSchema CompiledPlan Budget.
From S2P Require Import Delegation Authority Narrowing Admission AgentEntity AgentRuns AgentHistory Readiness.
Import AgentEntityStore.

Section System.
Context {St C R : Type} (ops : DurableStateStore St AgentState.t).
Context (view : St → PersistenceId.t → option (StateRecord.t AgentState.t)) `{!DurableStoreLaws ops view}.
Context (agent : AgentScope.t).

Abbreviation prog := (program AgentState.t C R (AgentEntityStore.t * AgentEntityResult EntityReply.t)).
Abbreviation history := (list (EntityCommand.t * AgentState.t)).

Inductive process :=
| Idle (self : AgentEntityStore.t)
| Busy (command : EntityCommand.t) (rest : prog).

(** The store, the processes, what was committed and what callers were told, oldest first. *)
Record system := System {
  store : St;
  processes : list process;
  committed : history;
  replies : list (EntityCommand.t * AgentEntityResult EntityReply.t);
}.

(** A facade as [AgentEntity::new] makes it, under any schema policy. *)
Definition fresh (self : AgentEntityStore.t) : Prop :=
  ∃ policy, self = with_schema_policy (AgentEntityStore.new agent) policy.

Inductive sys_step : system → system → Prop :=
| Joins st ps h rs self : fresh self → sys_step (System st ps h rs) (System st (ps ++ [Idle self]) h rs)
| Crashes st ps h rs i p self : ps !! i = Some p → fresh self →
    sys_step (System st ps h rs) (System st (<[i := Idle self]> ps) h rs)
| Takes st ps h rs i self command : ps !! i = Some (Idle self) →
    sys_step (System st ps h rs) (System st (<[i := Busy command (apply_recovered command self)]> ps) h rs)
| Loads st ps h rs i command pid k st' r : ps !! i = Some (Busy command (Load pid k)) →
    load ops st pid = (st', r) →
    sys_step (System st ps h rs) (System st' (<[i := Busy command (k r)]> ps) h rs)
| Commits st ps h rs i command pid revision next k st' record :
    ps !! i = Some (Busy command (CompareAndSet pid revision next k)) →
    compare_and_set ops st pid revision next = (st', Ok record) →
    sys_step (System st ps h rs) (System st' (<[i := Busy command (k (Ok record))]> ps) (h ++ [(command, next)]) rs)
| Refuses st ps h rs i command pid revision next k st' e :
    ps !! i = Some (Busy command (CompareAndSet pid revision next k)) →
    compare_and_set ops st pid revision next = (st', Err e) →
    sys_step (System st ps h rs) (System st' (<[i := Busy command (k (Err e))]> ps) h rs)
| Replies st ps h rs i command self r : ps !! i = Some (Busy command (Done (self, r))) →
    sys_step (System st ps h rs) (System st (<[i := Idle self]> ps) h (rs ++ [(command, r)])).

Definition initial (s : system) : Prop :=
  view (store s) (AgentScope.persistence_id agent) = None ∧ processes s = [] ∧ committed s = [] ∧ replies s = [].

(** ** The invariant *)

Definition process_ok (h : history) (p : process) : Prop :=
  match p with
  | Idle self => cached agent h self
  | Busy command rest => wp agent command rest h
  end.

Record system_ok (s : system) : Prop := {
  so_view : view (store s) (AgentScope.persistence_id agent) = current (committed s);
  so_legal : legal agent (committed s);
  so_processes : ∀ p, p ∈ processes s → process_ok (committed s) p;
  so_replies : ∀ command r, (command, r) ∈ replies s → explains agent (committed s) command r;
}.

Lemma agent_wp_later command (p : prog) h h' : later agent h h' → wp agent command p h → wp agent command p h'.
Proof.
  intros Hh Hp. destruct p as [[self r]|pid k|pid rev next k|c k]; simpl in *.
  - intros h'' ?. apply Hp. by eapply history_trans.
  - destruct Hp as [? Hp]. split; [done|]. intros. apply Hp; [by eapply history_trans|done].
  - destruct Hp as [? Hp]. split; [done|]. intros. apply Hp. by eapply history_trans.
  - done.
Qed.

Lemma process_later h h' p : later agent h h' → process_ok h p → process_ok h' p.
Proof. destruct p; [apply cached_later|apply agent_wp_later]. Qed.

Lemma agent_fresh_ok h self : fresh self → process_ok h (Idle self).
Proof. intros [policy ->]. by split_and!. Qed.

Lemma agent_processes_ok (ps : list process) i p h h' : (∀ q, q ∈ ps → process_ok h q) → later agent h h' → process_ok h' p →
  ∀ q, q ∈ <[i := p]> ps → process_ok h' q.
Proof.
  intros Hps Hh Hp q [j Hj]%list_elem_of_lookup.
  apply list_lookup_insert_Some in Hj as [(-> & -> & _)|(_ & Hj)]; [done|].
  eapply process_later; [done|]. by eapply Hps, list_elem_of_lookup_2.
Qed.

Lemma agent_record_revision_current h : record_revision (current h) = Z.of_nat (length h).
Proof. unfold current. destruct (last h) eqn:Hl; simpl; [done|]. by apply last_None in Hl as ->. Qed.

(** A step that commits nothing and says nothing. *)
Lemma quiet_ok s st' i (p : process) : system_ok s →
  view st' (AgentScope.persistence_id agent) = view (store s) (AgentScope.persistence_id agent) →
  process_ok (committed s) p → system_ok (System st' (<[i := p]> (processes s)) (committed s) (replies s)).
Proof.
  intros [Hv Hl Hps Hrs] Hst Hp. split; simpl; [by rewrite Hst|done| |done].
  eapply agent_processes_ok; [done|by apply history_refl|done].
Qed.

Lemma agent_step_ok s s' : sys_step s s' → Z.of_nat (length (committed s')) <= u64_max → system_ok s → system_ok s'.
Proof.
  intros Hstep Hb Hok. pose proof Hok as [Hv Hl Hps Hrs]. pose proof (history_refl _ _ Hl) as Hrefl.
  destruct Hstep as [st ps h rs self Hf|st ps h rs i p self Hi Hf|st ps h rs i self c Hi|st ps h rs i c pid k st' r Hi Hr
    |st ps h rs i c pid rev next k st' rec Hi Hr|st ps h rs i c pid rev next k st' e Hi Hr|st ps h rs i c self r Hi];
    simpl in *.
  1: { split; [done..| |done]. intros p [?| ->%list_elem_of_singleton]%elem_of_app; [by apply Hps|by apply agent_fresh_ok]. }
  all: pose proof (Hps _ (list_elem_of_lookup_2 _ _ _ Hi)) as Hp; simpl in Hp.
  - by apply (quiet_ok _ _ _ _ Hok), agent_fresh_ok.
  - apply (quiet_ok _ _ _ _ Hok); [done|]. by apply apply_recovered_ok.
  - destruct Hp as [-> Hp]. destruct (law_load _ _ _ _ Hr) as [Hv' Ho].
    apply (quiet_ok _ _ _ _ Hok); [by rewrite Hv'|]. apply Hp; [done|]. intros o ->. by rewrite (Ho o eq_refl).
  - destruct Hp as [-> Hp]. apply law_cas_ok in Hr as (Hrev & -> & Hv' & _).
    rewrite Hv, agent_record_revision_current in Hrev. rewrite length_app in Hb. simpl in Hb.
    destruct (Hp h Hrefl) as [_ Hw]. destruct (Hw (eq_sym Hrev) ltac:(lia)) as [Ha Hk].
    pose proof (commit_next _ _ _ _ Hl Ha) as Hn. split; simpl.
    + rewrite Hv'. unfold current. rewrite last_snoc, length_app. simpl. do 2 f_equal.
      unfold Revision_next. rewrite add_u64_small; lia.
    + apply Hn.
    + by eapply agent_processes_ok.
    + intros command r Hin. eapply explains_mono; [apply Hn|by apply Hrs].
  - destruct Hp as [-> Hp]. apply (quiet_ok _ _ _ _ Hok); [by apply (law_cas_err _ _ _ _ _ _ Hr)|]. by apply Hp.
  - destruct (Hp _ Hrefl) as [Hc He]. split; simpl; [done..| |].
    + eapply agent_processes_ok; [done..|]. done.
    + intros command r' [?|[= -> ->]%list_elem_of_singleton]%elem_of_app; [by apply Hrs|done].
Qed.

Lemma agent_step_committed s s' : sys_step s s' → (length (committed s) ≤ length (committed s'))%nat.
Proof. destruct 1; simpl; rewrite ?length_app; lia. Qed.

Lemma agent_run_ok s0 s : initial s0 → rtc sys_step s0 s → Z.of_nat (length (committed s)) <= u64_max → system_ok s.
Proof.
  intros (Hv & Hp & Hc & Hr). revert s. refine (rtc_ind_r _ _ _ _).
  - intros _. split; rewrite ?Hp, ?Hc, ?Hr.
    + by rewrite Hv.
    + intros i c x Hi. by rewrite lookup_nil in Hi.
    + by intros p ?%elem_of_nil.
    + by intros c r ?%elem_of_nil.
  - intros s s' _ Hstep IH Hb. eapply agent_step_ok; [done..|]. apply IH. apply agent_step_committed in Hstep. lia.
Qed.

(** ** Executable schedules *)

(** Process [i] takes a command. *)
Definition take_command (i : nat) (command : EntityCommand.t) (s : system) : system :=
  match processes s !! i with
  | Some (Idle self) =>
      System (store s) (<[i := Busy command (apply_recovered command self)]> (processes s)) (committed s) (replies s)
  | _ => s
  end.

(** Process [i] takes one step of its own. *)
Definition turn (i : nat) (s : system) : system :=
  let put p := <[i := p]> (processes s) in
  match processes s !! i with
  | Some (Busy command (Load pid k)) =>
      let '(st, r) := load ops (store s) pid in System st (put (Busy command (k r))) (committed s) (replies s)
  | Some (Busy command (CompareAndSet pid revision next k)) =>
      match compare_and_set ops (store s) pid revision next with
      | (st, Ok record) =>
          System st (put (Busy command (k (Ok record)))) (committed s ++ [(command, next)]) (replies s)
      | (st, Err e) => System st (put (Busy command (k (Err e)))) (committed s) (replies s)
      end
  | Some (Busy command (Done (self, r))) =>
      System (store s) (put (Idle self)) (committed s) (replies s ++ [(command, r)])
  | _ => s
  end.

Lemma take_command_step i command s : rtc sys_step s (take_command i command s).
Proof.
  destruct s as [st ps h rs]. unfold take_command. simpl.
  destruct (ps !! i) as [[self|]|] eqn:Hi; [|done|done]. by apply rtc_once, Takes.
Qed.

Lemma turn_step i s : rtc sys_step s (turn i s).
Proof.
  destruct s as [st ps h rs]. unfold turn. simpl.
  destruct (ps !! i) as [[self|command [[self r]|pid k|pid revision next k|c k]]|] eqn:Hi; try done.
  - by apply rtc_once, Replies.
  - destruct (load ops st pid) as [st' r] eqn:Hr. apply rtc_once. by eapply Loads.
  - destruct (compare_and_set ops st pid revision next) as [st' [record|e]] eqn:Hr; apply rtc_once;
      [by eapply Commits|by eapply Refuses].
Qed.

(** Process [i] serves a command to its end: a load, a write and a reply at most. *)
Definition serve (i : nat) (command : EntityCommand.t) (s : system) : system :=
  turn i (turn i (turn i (take_command i command s))).

Lemma serve_step i command s : rtc sys_step s (serve i command s).
Proof. unfold serve. repeat (etrans; [|apply turn_step]). apply take_command_step. Qed.
End System.

(** ** Narrowing *)

Lemma narrowing_nil g c : AuthEnvelope.narrowing_violations g c = [] ↔ ∀ a, permitted c a → permitted g a.
Proof.
  split.
  - intros Hn a Hc. destruct (decide (permitted g a)) as [|Hg]; [done|exfalso].
    assert (reported (AuthEnvelope.narrowing_violations g c) (blamed g a)) as Hr by (apply violations_exact; by exists a).
    rewrite Hn in Hr. by apply reported_nil in Hr.
  - intros Hall. destruct (AuthEnvelope.narrowing_violations g c) as [|v l] eqn:Hl; [done|exfalso].
    assert (reported (AuthEnvelope.narrowing_violations g c) (Violation.dimension v)) as Hr by (rewrite Hl; by left).
    apply violations_exact in Hr as (a & Hc & Hg & _). auto.
Qed.

(** C22. The narrowing check is exact.  An envelope is accepted as a narrowing of another
    exactly when every action it permits - dispatching a tool under a safety class, exercising
    one of its capabilities, resolving its credential, routing it, touching an environment,
    selecting a model, spending an amount, running under a set of guardrail stages, and so on -
    is permitted by the other; and a dimension is among the reported violations exactly when
    an action that was added is to be blamed on it. *)
Theorem narrowing_exact (g c : AuthEnvelope.t) :
  (validate_narrowing g c = Ok tt ↔ ∀ a, permitted c a → permitted g a) ∧
  (∀ d, (∃ v, v ∈ AuthEnvelope.narrowing_violations g c ∧ Violation.dimension v = d) ↔
        ∃ a, permitted c a ∧ ¬ permitted g a ∧ blamed g a = d).
Proof.
  split.
  - rewrite <-narrowing_nil. unfold validate_narrowing. by destruct (AuthEnvelope.narrowing_violations g c).
  - intros d. etrans; [|apply violations_exact]. unfold reported. rewrite list_elem_of_fmap. naive_solver.
Qed.

(** ** Admission *)

(** What a definition must be for unattended work. *)
Record sound (d : AgentDefinition.t) : Prop := {
  sound_budgets name get : (name, get) ∈ ceiling_dimensions →
    is_Some (get (AuthEnvelope.budgets (AgentDefinition.envelope d)));
  sound_tools tool declaration : AuthEnvelope.tools (AgentDefinition.envelope d) !! tool = Some declaration →
    ToolDeclaration.capabilities declaration ≠ ∅ ∧
    ∀ binding, ToolDeclaration.credential_binding declaration = Some binding →
      binding ∈ AuthEnvelope.credential_bindings (AgentDefinition.envelope d);
  sound_approval : is_Some (PolicyRefs.approval (AgentDefinition.policies d));
  sound_authorization : is_Some (PolicyRefs.authorization (AgentDefinition.policies d));
  sound_escalation : is_Some (PolicyRefs.escalation (AgentDefinition.policies d));
}.

Lemma unless_empty_None prefix items : unless_empty prefix items = None ↔ items = [].
Proof. by destruct items. Qed.

Lemma bind_nil {A B} (f : A → list B) l : l ≫= f = [] → ∀ x, x ∈ l → f x = [].
Proof.
  intros Hn x Hx. destruct (f x) as [|y k] eqn:Hf; [done|]. exfalso.
  assert (y ∈ l ≫= f) as Hy by (apply list_elem_of_bind; exists x; rewrite Hf; split; [by left|done]).
  rewrite Hn in Hy. by apply elem_of_nil in Hy.
Qed.

Lemma first_unmet_sound d : AutonomyDecision.first_unmet d Requirement.ALL = None → sound d.
Proof.
  cbn [AutonomyDecision.first_unmet Requirement.ALL Requirement.is_attested].
  destruct (unmet_structural_requirement Requirement.BoundedBudgets d) eqn:Hb; [done|].
  destruct (unmet_structural_requirement Requirement.ClassifiedToolSafety d) eqn:Ht; [done|].
  destruct (unmet_structural_requirement Requirement.ScopedCredentials d) eqn:Hc; [done|].
  destruct (unmet_structural_requirement Requirement.ApprovalPolicy d) eqn:Ha; [done|].
  destruct (unmet_structural_requirement Requirement.ReconciliationPolicy d) eqn:Hr; [done|]. intros _. simpl in *.
  apply unless_empty_None in Hb. apply unless_empty_None in Ht. apply unless_empty_None in Hc.
  pose proof (bind_nil _ _ Hb) as Hb'. pose proof (bind_nil _ _ Ht) as Ht'. pose proof (bind_nil _ _ Hc) as Hc'.
  split.
  - intros name get Hin. specialize (Hb' _ Hin). simpl in Hb'. by destruct (get _).
  - intros tool x Hx%elem_of_btree_entries. specialize (Ht' _ Hx). specialize (Hc' _ Hx). simpl in *. split.
    + intros He. by rewrite bool_decide_eq_true_2 in Ht'.
    + intros b Hbx. rewrite Hbx in Hc'. by case_bool_decide.
  - by destruct (PolicyRefs.approval _).
  - by destruct (PolicyRefs.approval _), (PolicyRefs.authorization _).
  - by destruct (PolicyRefs.escalation _).
Qed.

Lemma unattended_listed d class : class ∈ AutonomyDecision.operation_classes d → OperationClass.is_unattended class = true →
  AutonomyDecision.unattended_classes d ≠ [].
Proof.
  intros Hin Hu Hn. assert (class ∈ AutonomyDecision.unattended_classes d) as Hc.
  { apply list_elem_of_filter. split; [by intros -> |]. by apply elem_of_btree_elements. }
  rewrite Hn in Hc. by apply elem_of_nil in Hc.
Qed.

Lemma admits_definition_inv d class definition now : AutonomyDecision.admits_definition d class definition now = Ok tt →
  OperationClass.is_unattended class = true →
  AutonomyDecision.is_expired d now = false ∧ class ∈ AutonomyDecision.operation_classes d ∧
  (∀ a, permitted (AgentDefinition.envelope definition) a → permitted (AutonomyDecision.admitted_envelope d) a) ∧
  sound definition.
Proof.
  intros ([] & Ha & Hu)%result_bind_ok Hclass. unfold AutonomyDecision.admits in Ha.
  destruct (AutonomyDecision.is_expired d now); [done|]. case_bool_decide as Hin; [done|].
  split_and!; [done..| |].
  - apply narrowing_nil. by destruct (AuthEnvelope.narrowing_violations _ _).
  - apply first_unmet_sound. unfold AutonomyDecision.first_unmet_requirement in Hu.
    pose proof (unattended_listed _ _ Hin Hclass) as Hne. destruct (AutonomyDecision.unattended_classes d); [done|].
    by destruct (AutonomyDecision.first_unmet definition Requirement.ALL) as [[]|].
Qed.

(** ** Runs *)

Section Runs.
Context {St C R : Type} (ops : DurableStateStore St AgentState.t).
Context (view : St → PersistenceId.t → option (StateRecord.t AgentState.t)) `{!DurableStoreLaws ops view}.
Context (agent : AgentScope.t).

Abbreviation agent_system := (system (St := St) (C := C) (R := R)).
Abbreviation steps := (rtc (sys_step (C := C) (R := R) ops agent)).

(** C21. The facades of an agent refine one atomic agent.  Take any number of processes that
    apply commands through facades of their own over one lawful store, every store call a step,
    any of them failing or starting again anywhere.  The commits then form a history in which
    each command acts on the state its predecessor left and on nothing else, the store holds
    the last of them, and every reply is explained: an applied command is in the history with
    the outcome it was told; a duplicate was told the outcome of an earlier commit of the same
    operation, at most 64 commits back; a snapshot is one of a committed state; and every error
    but those of the store and of record versions is what the atomic agent answers in one of
    the states of the history.  Two commits of one operation are more than 64 commits apart. *)
Theorem agents_linearizable (s0 s : agent_system) (H0 : initial view agent s0) (Hrun : steps s0 s)
    (Hbound : Z.of_nat (length (committed s)) <= u64_max) :
  legal agent (committed s) ∧
  view (store s) (AgentScope.persistence_id agent) = current (committed s) ∧
  (∀ command r, (command, r) ∈ replies s → explains agent (committed s) command r) ∧
  (∀ command outcome, (command, Ok (EntityReply.Duplicate outcome)) ∈ replies s →
     ∃ i first next, committed s !! i = Some (first, next) ∧ op_of first = op_of command ∧
       outcome = AgentState.outcome next) ∧
  (∀ i j c c' x x', (i < j)%nat → committed s !! i = Some (c, x) → committed s !! j = Some (c', x') →
     op_of c = op_of c' → (AGENT_ENTITY_OPERATION_LOG_CAPACITY < j - i)%nat).
Proof.
  destruct (agent_run_ok ops view agent s0 s H0 Hrun Hbound) as [Hv Hl _ Hr]. split_and!; [done..| |].
  - intros c o Hin. destruct (Hr _ _ Hin) as (i & Hi & Hm).
    destruct (remembered_commit _ _ _ _ _ Hl Hi Hm) as (j & c' & x & _ & _ & Hj & Hop & Ho). by exists j, c', x.
  - intros i j c c' x x' Hij Hi Hj Hop. by eapply commits_spaced.
Qed.

(** C23. What an agent's record keeps to in every run of such processes.  In every committed
    state the definition passes its validation and the model profile selected is one that the
    definition in force approves; the lifecycle, definition and settings revisions never go
    back and no revocation of a tool or a credential is ever undone; a committed suspension,
    resumption or termination was applied to a state whose lifecycle revision is the very one
    its caller expected and leaves the next one, so it never lands after a state with a higher
    one; and a terminated agent never changes again. *)
Theorem agent_record_invariant (s0 s : agent_system) (H0 : initial view agent s0) (Hrun : steps s0 s)
    (Hbound : Z.of_nat (length (committed s)) <= u64_max) (i : nat) (x : AgentState.t)
    (Hx : state_at (committed s) i = Some x) :
  AgentDefinition.validate (definition_of x) = Ok tt ∧
  Settings.validate_against (settings_of x) (envelope_of x) = Ok tt ∧
  (∀ j y, (i ≤ j)%nat → state_at (committed s) j = Some y → state_le x y) ∧
  (∀ j c y op expected p, committed s !! j = Some (c, y) →
     (c = EntityCommand.Suspend op expected p ∨ c = EntityCommand.Resume op expected p ∨
      c = EntityCommand.Terminate op expected p) →
     (∃ z, state_at (committed s) j = Some z ∧ AgentState.lifecycle_revision z = expected ∧
        AgentState.lifecycle_revision y = AgentRevisionNumber.next expected) ∧
     ((i ≤ j)%nat → revision_le (AgentState.lifecycle_revision x) expected)) ∧
  (AgentState.status x = Lifecycle.Terminated → length (committed s) = i).
Proof.
  destruct (agent_run_ok ops view agent s0 s H0 Hrun Hbound) as [_ Hl _ _].
  destruct (history_ok _ _ _ _ Hl Hx) as [_ Hd Hs _ _ _ _]. split_and!; [done..| | |].
  - intros j y Hij Hy.
    destruct (state_before _ _ _ _ _ Hl Hij Hx (state_at_length _ _ _ Hy)) as (y' & Hy' & Hle). naive_solver.
  - intros j c y op e p Hj Hc. pose proof (lookup_lt_Some _ _ _ Hj) as Hlt.
    destruct (accepted_lifecycle _ _ _ _ _ _ _ (Hl _ _ _ Hj) Hc) as (z & Hz & <- & Hnext).
    split; [by exists z|]. intros Hij.
    destruct (state_before _ _ _ _ _ Hl Hij Hx ltac:(lia)) as (z' & Hz' & Hle). rewrite Hz in Hz'. injection Hz' as <-.
    apply Hle.
  - intros Ht. by eapply terminated_last.
Qed.

Lemma read_state {D} (deliver : D → C → D * R) s st' d d' policy task now readiness :
  system_ok (C := C) (R := R) view agent s →
  run ops deliver (read_readiness (AgentScope.tenant agent) policy (AgentScope.agent agent) task now) (store s) d =
    (st', d', Ok readiness) →
  readiness = match state_at (committed s) (length (committed s)) with
              | None => AssignReadiness.not_instantiated (AgentScope.agent agent)
              | Some state => AssignReadiness.from_agent_state state task now
              end.
Proof.
  intros [Hv _ _ _] Hrun. unfold read_readiness, AgentScope.new in Hrun.
  destruct (validate_tenant _) as [?|]; simpl in Hrun; [|done]. destruct agent as [tenant id]. simpl in *.
  destruct (load ops (store s) _) as [st r] eqn:Hload. destruct (law_load _ _ _ _ Hload) as [_ Ho].
  destruct r as [o|]; [|done]. specialize (Ho o eq_refl). rewrite Hv, current_at in Ho. subst o.
  destruct (state_at (committed s) _) as [x|]; simpl in Hrun; [|by injection Hrun].
  destruct (validate_loaded_state x policy); [|done]. by injection Hrun.
Qed.

(** C20. Unattended work is assigned only under an admission that covers it.  In every such
    run, when a task whose class runs unattended reads the agent's record and the facts it
    reads refuse nothing, then the agent is active; a decision is on record that was accepted
    by an earlier command, against the very definition and settings revisions it names, whose
    structural requirements held then, and that was neither replaced nor retracted since; it
    has not expired and covers the class; every action the definition in force permits was
    permitted by the envelope that was admitted; and the definition in force still bounds all
    nine budgets, scopes every tool, declares every credential a tool resolves, and names an
    approval, an authorization and an escalation policy. *)
Theorem unattended_only_admitted (s0 s : agent_system) (H0 : initial view agent s0) (Hrun : steps s0 s)
    (Hbound : Z.of_nat (length (committed s)) <= u64_max)
    {D} (deliver : D → C → D * R) (d d' : D) (st' : St) (policy : AgentSchemaPolicy.t)
    (task : AgentTaskDefinition.t) (now : AgentTimestampMillis) (readiness : AgentAssignmentReadiness.t)
    (Hread : run ops deliver (read_readiness (AgentScope.tenant agent) policy (AgentScope.agent agent) task now)
               (store s) d = (st', d', Ok readiness))
    (Hassign : AgentAssignmentReadiness.refusal readiness = None)
    (Hclass : OperationClass.is_unattended (AgentTaskDefinition.operation_class task) = true) :
  let h := committed s in
  let class := AgentTaskDefinition.operation_class task in
  ∃ x decision j, state_at h (length h) = Some x ∧ AgentState.status x = Lifecycle.Active ∧
    AgentState.admission x = Some decision ∧ admitted_at h (length h) j decision ∧
    AutonomyDecision.is_expired decision now = false ∧ class ∈ AutonomyDecision.operation_classes decision ∧
    (∀ a, permitted (envelope_of x) a → permitted (AutonomyDecision.admitted_envelope decision) a) ∧
    permitted (envelope_of x) (RunAs class) ∧
    permitted (envelope_of x) (AcceptTask (AgentTaskDefinition.definition_id task)) ∧
    (∀ skill, skill ∈ AgentTaskDefinition.required_skills task →
       ∃ tool, permitted (envelope_of x) (ExerciseCapability tool skill)) ∧
    sound (definition_of x).
Proof.
  intros h class. pose proof (agent_run_ok ops view agent s0 s H0 Hrun Hbound) as Hok.
  pose proof (read_state _ _ _ _ _ _ _ _ _ Hok Hread) as ->. fold h in Hassign.
  destruct (state_at h (length h)) as [x|] eqn:Hx; [|done].
  unfold AssignReadiness.refusal, AssignReadiness.from_agent_state in Hassign.
  cbn [AgentAssignmentReadiness.status AgentAssignmentReadiness.permits_task_definition
    AgentAssignmentReadiness.permits_operation_class AgentAssignmentReadiness.declares_required_skills
    AgentAssignmentReadiness.admission_refusal AgentAssignmentReadiness.agent] in Hassign. fold class in Hassign, Hclass.
  rewrite Hclass in Hassign. cbn [negb orb] in Hassign.
  destruct (AgentState.status x) eqn:Hst; try done. cbn [Lifecycle.permits_dispatch negb] in Hassign.
  case_bool_decide as Htask; [|done]. case_bool_decide as Hrun_as; [|done]. cbn [negb] in Hassign.
  destruct (forallb _ _) eqn:Hskills; [|done]. cbn [negb] in Hassign.
  destruct (AgentState.admission x) as [decision|] eqn:Had; [|done].
  destruct (AutonomyDecision.admits_definition decision class (definition_of x) now) as [[]|] eqn:Hd; [|done].
  destruct (admits_definition_inv _ _ _ _ Hd Hclass) as (He & Hc & Hn & Hsound).
  destruct (admission_source agent h _ x decision (so_legal _ _ _ Hok) Hx Had) as [j Hj].
  exists x, decision, j. split_and!; try done. intros skill Hin%elem_of_btree_elements.
  rewrite forallb_forall in Hskills. apply list_elem_of_In, Hskills, existsb_exists in Hin as (tool & Htool & Hcap).
  apply list_elem_of_In, elem_of_btree_values in Htool as [id Hid]. apply bool_decide_eq_true in Hcap.
  exists id. unfold permitted. simpl. by rewrite Hid.
Qed.
End Runs.
