(* ===== verification/AgentDemo.v ===== *)
(** * An agent at work, and where its fences end

    Concrete runs of the facades over the in-memory store, and what the fences of the entity do
    not cover: the operation log is bounded and not every command carries the revision it
    expects, and a decision that arrives over the wire is recorded without its own validation. *)

From stdpp Require Import relations.
From S2P Require Import Prelude Identity Persistence DurableState AgentIdentity AgentSchema CompiledPlan Budget.
From S2P Require Import Delegation Authority Narrowing Admission AgentEntity AgentRuns AgentHistory Readiness AgentProps.
Import AgentEntityStore.

(** ** A small agent *)

Definition demo_agent : AgentScope.t := AgentScope.mk (TenantId.new "t") (AgentId.Self "a").
Definition demo_task : AgentTaskDefinitionId.t := AgentTaskDefinitionId.Self "sweep".
Definition demo_policy : AgentPolicyRef.t := AgentPolicyRef.Self "p".
Definition demo_budgets : AgentBudgetCeilings.t :=
  AgentBudgetCeilings.mk (Some 9) (Some 9) (Some 9) (Some 9) (Some 9) (Some 9) (Some 9) (Some 9) (Some 9).
Definition demo_envelope : AuthEnvelope.t :=
  AuthEnvelope.mk ∅ ∅ ∅ {[demo_task]} ∅ ∅ ∅ ∅ ∅ {[OperationClass.BoundedAsync]} ∅ demo_budgets.
Definition demo_definition : AgentDefinition.t :=
  AgentDefinition.mk (AgentDefinitionId.Self "d") "sweeps" None demo_envelope
    (PolicyRefs.mk (Some demo_policy) (Some demo_policy) (Some demo_policy) None None).
Definition demo_provenance : RevisionProvenance.t :=
  RevisionProvenance.mk (PrincipalRef.mk "user" "u" None) 5 "c" "r".
Definition demo_contract : AgentTaskDefinition.t :=
  AgentTaskDefinition.mk demo_task OperationClass.BoundedAsync ∅.

Definition demo_decision (schema_version : Z) (verified : gset Requirement.t) : AutonomyDecision.t :=
  AutonomyDecision.mk schema_version {[OperationClass.BoundedAsync]} AgentRevisionNumber.INITIAL
    AgentRevisionNumber.INITIAL None demo_envelope (Evaluator.Service "desk") verified [] 6 None.
Definition good_decision : AutonomyDecision.t := demo_decision 1 (list_to_set Requirement.ALL).

Definition op_named (name : string) : AgentOperationId.t := AgentOperationId.Self name.
Definition instantiation : EntityCommand.t :=
  EntityCommand.Instantiate (op_named "i") demo_definition Settings.empty demo_provenance.
Definition admission_of (decision : AutonomyDecision.t) : EntityCommand.t := EntityCommand.Admit (op_named "a") decision.

(** The state after both. *)
Definition demo_settings : SettingsRevision.t :=
  SettingsRevision.mk CURRENT_AGENT_SETTINGS_SCHEMA_VERSION AgentRevisionNumber.INITIAL Settings.empty [] demo_provenance.
Definition state1 : AgentState.t :=
  recorded (op_named "i") 5
    (AgentState.new demo_agent (DefinitionRevision.initial demo_definition demo_provenance) demo_settings 5).
Definition state2 (decision : AutonomyDecision.t) : AgentState.t :=
  recorded (op_named "a") 6 (AgentState.set_admission state1 (Some decision) None).

Lemma instantiation_accepted : accepted demo_agent None instantiation state1.
Proof. split; reflexivity. Qed.

Lemma admission_accepted v verified :
  accepted demo_agent (Some state1) (admission_of (demo_decision v verified)) (state2 (demo_decision v verified)).
Proof. split; vm_compute; reflexivity. Qed.

Abbreviation history := (list (EntityCommand.t * AgentState.t)).
Definition two_commits (decision : AutonomyDecision.t) : history :=
  [(instantiation, state1); (admission_of decision, state2 decision)].

Lemma two_commits_legal v verified : legal demo_agent (two_commits (demo_decision v verified)).
Proof.
  apply (legal_snoc demo_agent [(instantiation, state1)]); [|apply admission_accepted].
  apply (legal_snoc demo_agent []); [intros i c x Hi; by rewrite lookup_nil in Hi|apply instantiation_accepted].
Qed.

(** ** Witnesses *)

Abbreviation memory := (gmap PersistenceId.t (StateRecord.t AgentState.t)).
Abbreviation ops := (InMemoryDurableStateStore.store (S := AgentState.t)).
Abbreviation demo_system := (system (St := memory) (C := unit) (R := unit)).

Definition nobody : demo_system := System ∅ [] [] [].
Definition two_facades : demo_system :=
  System ∅ [Idle (AgentEntityStore.new demo_agent); Idle (AgentEntityStore.new demo_agent)] [] [].

Lemma two_facades_join : rtc (sys_step ops demo_agent) nobody two_facades.
Proof.
  transitivity (System ∅ [Idle (AgentEntityStore.new demo_agent)] [] [] : demo_system); apply rtc_once;
    [apply (Joins ops demo_agent ∅ [])|apply (Joins ops demo_agent ∅ [Idle (AgentEntityStore.new demo_agent)])];
    by eexists AgentSchemaPolicy.n_plus_one.
Qed.

(** One facade instantiates the agent, the other admits it, and the first is told of a duplicate. *)
Definition demo_run : demo_system :=
  serve ops 0 instantiation (serve ops 1 (admission_of good_decision) (serve ops 0 instantiation two_facades)).

Lemma demo_run_reached : rtc (sys_step ops demo_agent) nobody demo_run.
Proof. unfold demo_run. repeat (etrans; [|apply serve_step]). apply two_facades_join. Qed.

Lemma agents_linearizable_witness :
  legal demo_agent (committed demo_run) ∧
  committed demo_run = two_commits good_decision ∧ length (replies demo_run) = 3%nat.
Proof.
  split; [|split; vm_compute; reflexivity].
  apply (agents_linearizable ops memory_view demo_agent nobody demo_run); [by split_and!|apply demo_run_reached|].
  vm_compute. discriminate.
Defined.

Lemma agent_record_invariant_witness :
  Settings.validate_against (settings_of state1) (envelope_of state1) = Ok tt ∧ state_le state1 (state2 good_decision).
Proof.
  pose proof (agent_record_invariant ops memory_view demo_agent nobody demo_run) as H.
  destruct (H ltac:(by split_and!) demo_run_reached ltac:(vm_compute; discriminate) 1%nat state1
    ltac:(vm_compute; reflexivity)) as (_ & Hs & Hle & _).
  split; [exact Hs|]. apply (Hle 2%nat); [lia|]. vm_compute. reflexivity.
Defined.

Lemma unattended_only_admitted_witness :
  ∃ x decision j, state_at (committed demo_run) 2 = Some x ∧ AgentState.admission x = Some decision ∧
    admitted_at (committed demo_run) 2 j decision ∧ sound (definition_of x).
Proof.
  pose proof (unattended_only_admitted ops memory_view demo_agent nobody demo_run) as H.
  destruct (H ltac:(by split_and!) demo_run_reached ltac:(vm_compute; discriminate) unit (fun d c => (d, tt)) tt tt
    (store demo_run) AgentSchemaPolicy.n_plus_one demo_contract 7
    (AgentAssignmentReadiness.from_agent_state (state2 good_decision) demo_contract 7)
    ltac:(vm_compute; reflexivity) ltac:(vm_compute; reflexivity) eq_refl)
    as (x & decision & j & Hx & _ & Hd & Hj & _ & _ & _ & _ & _ & _ & Hs).
  exists x, decision, j. split; [exact Hx|]. split; [exact Hd|]. split; [exact Hj|exact Hs].
Defined.

(** ** Replays older than the log *)

Definition retraction_op (n : nat) : AgentOperationId.t := op_named ("retract-" +:+ pretty n).
Definition retraction (n : nat) : EntityCommand.t := EntityCommand.Retract (retraction_op n) "stop" demo_provenance.

Lemma retraction_op_inj n m : retraction_op n = retraction_op m → n = m.
Proof. intros [= Hp]. by apply (inj pretty). Qed.

Lemma retraction_accepted x n : AgentState.status x = Lifecycle.Active → remembers (Some x) (retraction n) = None →
  accepted demo_agent (Some x) (retraction n)
    (recorded (retraction_op n) 5
       (AgentState.set_admission x None (Some (Retraction.mk "stop" demo_provenance)))).
Proof. intros Hx Hm. split; [done|]. simpl. by rewrite Hx. Qed.

(** The agent as it was admitted, but for what retractions change. *)
Definition like_admitted (x : AgentState.t) : Prop :=
  AgentState.status x = Lifecycle.Active ∧ AgentState.definition x = AgentState.definition state1 ∧
  AgentState.settings x = AgentState.settings state1.

(** The two commits, then retractions with operations of their own. *)
Record retracted_history (n : nat) (h : history) : Prop := {
  rh_legal : legal demo_agent h;
  rh_length : length h = (2 + n)%nat;
  rh_start : take 2 h = two_commits good_decision;
  rh_rest i c x : (2 <= i)%nat → h !! i = Some (c, x) → c = retraction (i - 2);
  rh_last : ∃ x, state_at h (2 + n) = Some x ∧ like_admitted x ∧ (n ≠ 0%nat → AgentState.admission x = None);
}.

Lemma retracted_op n h i c x : retracted_history n h → h !! i = Some (c, x) →
  op_of c ∈ [op_named "i"; op_named "a"] ∨ ∃ k, (k < n)%nat ∧ op_of c = retraction_op k ∧ i = (2 + k)%nat.
Proof.
  intros [_ Hlen Hstart Hrest _] Hi. destruct (decide (i < 2)%nat) as [Hlt|Hge].
  - left. rewrite <-(lookup_take_lt _ 2) in Hi by done. rewrite Hstart in Hi.
    destruct i as [|[|]]; [..|lia]; injection Hi as <- <-; set_solver.
  - right. exists (i - 2)%nat. pose proof (lookup_lt_Some _ _ _ Hi). rewrite (Hrest i c x ltac:(lia) Hi).
    split_and!; [lia|done|lia].
Qed.

Lemma retraction_fresh n h : retracted_history n h → remembers (state_at h (2 + n)) (retraction n) = None.
Proof.
  intros Hh. destruct (remembers _ _) as [o|] eqn:Hm; [exfalso|done].
  destruct (remembered_commit _ _ _ _ _ (rh_legal _ _ Hh) ltac:(by rewrite (rh_length _ _ Hh)) Hm)
    as (j & c & x & _ & _ & Hj & Hop & _).
  destruct (retracted_op _ _ _ _ _ Hh Hj) as [Hc|(k & Hk & Hc & _)]; rewrite Hop in Hc.
  - apply elem_of_cons in Hc as [?|?%list_elem_of_singleton]; done.
  - apply retraction_op_inj in Hc. lia.
Qed.

Lemma retracted_more n h : retracted_history n h → ∃ h', retracted_history (S n) h'.
Proof.
  intros Hh. pose proof (retraction_fresh _ _ Hh) as Hf. destruct Hh as [Hl Hlen Hs Hr (x & Hx & (Ha & Hd & Hset) & _)].
  rewrite Hx in Hf. pose proof (retraction_accepted _ _ Ha Hf) as Hacc.
  set (next := recorded _ _ _) in Hacc. exists (h ++ [(retraction n, next)]). split.
  - apply legal_snoc; [done|]. by rewrite Hlen, Hx.
  - rewrite length_app, Hlen. simpl. lia.
  - by rewrite take_app_le by lia.
  - intros i c y Hi [[Hlt Hc]|[-> Hc]]%lookup_snoc_Some; [by apply (Hr i c y)|]. injection Hc as <- <-.
    rewrite Hlen. f_equal. lia.
  - exists next. replace (2 + S n)%nat with (S (length h)) by lia. split_and!.
    + simpl. by rewrite lookup_app_r, Nat.sub_diag.
    + by destruct x.
    + by destruct x.
Qed.

Lemma retracted_exists n : ∃ h, retracted_history n h.
Proof.
  induction n as [|n [h IH]]; [|by eapply retracted_more].
  exists (two_commits good_decision). split; [apply two_commits_legal|done|done| |].
  - intros i c x Hi Hc. apply lookup_lt_Some in Hc. simpl in Hc. lia.
  - by exists (state2 good_decision).
Qed.

(** A replay that the log no longer remembers is applied again: an agent is admitted and
    then retracted, and after the 64th later operation a second delivery of the same admission
    command - whose definition and settings revisions are still current, since retracting
    changes neither - is accepted and the retracted decision is back on record. *)
Theorem aged_admission_undoes_retraction :
  ∃ h x next, legal demo_agent h ∧ h !! 1%nat = Some (admission_of good_decision, state2 good_decision) ∧
    length h = 66%nat ∧ state_at h (length h) = Some x ∧
    AgentState.admission x = None ∧
    accepted demo_agent (Some x) (admission_of good_decision) next ∧
    AgentState.admission next = Some good_decision.
Proof.
  destruct (retracted_exists 64) as [h Hh]. pose proof Hh as [Hl Hlen Hs Hr (x & Hx & (Ha & Hd & Hset) & Hn)].
  set (next := recorded (op_named "a") 6 (AgentState.set_admission x (Some good_decision) None)).
  exists h, x, next. rewrite Hlen. split_and!; [done| |done|done|by apply Hn| |by destruct x].
  - by rewrite <-(lookup_take_lt _ 2), Hs by lia.
  - split.
    + rewrite <-Hx. destruct (remembers _ _) as [o|] eqn:Hm; [exfalso|done].
      destruct (remembered_commit _ _ _ _ _ Hl ltac:(by rewrite Hlen) Hm) as (j & c & y & Hj & Hb & Hc & Hop & _).
      destruct (retracted_op _ _ _ _ _ Hh Hc) as [_|(k & _ & Hk & _)]; [|by rewrite Hop in Hk].
      rewrite (Hr j c y) in Hop; [by simplify_eq| |done].
      unfold AGENT_ENTITY_OPERATION_LOG_CAPACITY in Hb. lia.
    + simpl. rewrite Ha. unfold admit_transition. rewrite Hd, Hset. vm_compute AutonomyDecision.verify.
      by destruct x.
Qed.

(** ** Decisions that arrive over the wire *)

(** A decision that names none of the requirements is refused by its own validation, which only
    its constructors run; delivered in a command it is recorded, and it admits unattended work. *)
Theorem unvalidated_decision_admits :
  let decision := demo_decision 1 ∅ in
  AutonomyDecision.validate decision = Err (AdmissionErr.RequirementUnverified Requirement.CompletionCriteria) ∧
  legal demo_agent (two_commits decision) ∧
  state_at (two_commits decision) 2 = Some (state2 decision) ∧
  AgentAssignmentReadiness.refusal
    (AgentAssignmentReadiness.from_agent_state (state2 decision) demo_contract 7) = None.
Proof.
  split; [vm_compute; reflexivity|]. split; [apply two_commits_legal|]. split; [reflexivity|].
  vm_compute. reflexivity.
Qed.

(** A decision with a schema version ahead of this binary is recorded, and from then on the
    record cannot be read: whatever command a fresh facade takes, it answers that the version
    is ahead, and the store stays as it is. *)
Theorem foreign_decision_wedges_agent :
  let decision := demo_decision 2 (list_to_set Requirement.ALL) in
  legal demo_agent (two_commits decision) ∧
  ∀ (command : EntityCommand.t) (st : memory),
    st !! AgentScope.persistence_id demo_agent = Some (StateRecord.new (state2 decision) 2) →
    run ops (fun (d c : unit) => (d, tt)) (apply_recovered command (AgentEntityStore.new demo_agent)) st tt =
      (st, tt, (AgentEntityStore.new demo_agent, Err (EntityErr.Schema (VersionAhead AdmissionDecision 2 1)))).
Proof.
  split; [apply two_commits_legal|]. intros command st Hst.
  cbn [apply_recovered AgentEntityStore.state ensure_recovered AgentEntityStore.new recovered recover program_bind run
    result_bind]. simpl. rewrite Hst. reflexivity.
Qed.
