(* ===== verification/JsonDigest.v ===== *)
(** * Canonical JSON and content digests: [rakka-agent/src/task.rs]

    A digest is taken of the canonical text of a JSON value: keys in order, no whitespace.
    The variants of [serde_json]'s [Value] are those the source matches on; a number is its
    text.  [Display] of a scalar, which is [serde_json]'s, is the parameter [display], and the
    inline SHA-256 is the parameter [sha256_hex], as in [Delegation.v]. *)

From S2P Require Import Prelude AgentIdentity CompiledPlan Delegation.

Module Json.
Inductive t :=
| Null
| Bool (value : bool)
| Number (text : string)
| String (text : string)
| Array (items : list t)
| Object (entries : list (string * t)).

(** What [serde_json::json!] makes of an optional text. *)
Definition of_option (text : option string) : t := match text with Some text => String text | None => Null end.
Definition of_Z (n : Z) : t := Number (pretty n).
End Json.

Fixpoint comma_separated (texts : list string) : string :=
  match texts with
  | [] => ""
  | [text] => text
  | text :: texts => text +:+ "," +:+ comma_separated texts
  end.

Section Canonical.
Context (display : Json.t → string).

(** The entries are collected into a [BTreeMap], so they come out in the order of their keys. *)
Definition canonical_object (entries : list (string * string)) : string :=
  let ordered : gmap string string := foldl (fun m '(key, text) => <[key := text]> m) ∅ entries in
  "{" +:+ comma_separated ((fun '(key, text) => display (Json.String key) +:+ ":" +:+ text) <$> btree_entries ordered)
    +:+ "}".

Fixpoint write_canonical_json (value : Json.t) : string :=
  match value with
  | Json.Object entries =>
      canonical_object (map (fun entry => (entry.1, write_canonical_json entry.2)) entries)
  | Json.Array items => "[" +:+ comma_separated (map write_canonical_json items) +:+ "]"
  | other => display other
  end.
End Canonical.

(** ** FNV-1a of 128 bits *)

Definition FNV128_OFFSET : Z := 0x6c62272e07bb014262b821756295c58d.
Definition FNV128_PRIME : Z := 0x0000000001000000000000000000013b.

Definition fnv128_byte (hash byte : Z) : Z := (Z.lxor hash byte * FNV128_PRIME) `mod` 2 ^ 128.

Definition bytes_of (text : string) : list Z := Z.of_N ∘ Ascii.N_of_ascii <$> String.list_ascii_of_string text.

Definition hex_digit (n : Z) : string :=
  match String.get (Z.to_nat n) "0123456789abcdef" with Some c => String.String c "" | None => "" end.

(** The last [width] hexadecimal digits. *)
Fixpoint hex_digits (width : nat) (n : Z) : string :=
  match width with
  | O => ""
  | S width => hex_digits width (n / 16) +:+ hex_digit (n `mod` 16)
  end.

Module ContentDigest.
Definition is_cryptographic (algorithm : AgentDigestAlgorithm) : bool :=
  match algorithm with Fnv1a128 => false | Sha256 => true end.

Definition of_bytes (bytes : string) : AgentContentDigest.t :=
  AgentContentDigest.mk Fnv1a128 (hex_digits 32 (foldl fnv128_byte FNV128_OFFSET (bytes_of bytes))).

Definition of_json (display : Json.t → string) (value : Json.t) : AgentContentDigest.t :=
  of_bytes (write_canonical_json display value).

Definition sha256_of_json (display : Json.t → string) (sha256_hex : string → string) (value : Json.t) :
    AgentContentDigest.t :=
  AgentContentDigest.sha256_of_bytes sha256_hex (write_canonical_json display value).
End ContentDigest.

(** The order in which an object was built does not matter to its digest. *)
Lemma foldl_insert_map (k : list (string * string)) (m : gmap string string) : NoDup k.*1 →
  foldl (fun m '(key, text) => <[key := text]> m) m k = list_to_map k ∪ m.
Proof.
  revert m. induction k as [|[a b] k IH]; intros m Hd; simpl in *; [by rewrite (left_id_L ∅ (∪))|].
  apply NoDup_cons in Hd as [Ha Hd]. rewrite IH, <-insert_union_l by done. symmetry.
  apply insert_union_r. by apply not_elem_of_list_to_map_1.
Qed.

Lemma canonical_reordered display l l' : l ≡ₚ l' → NoDup l.*1 →
  write_canonical_json display (Json.Object l) = write_canonical_json display (Json.Object l').
Proof.
  intros Hp Hn. simpl. unfold canonical_object.
  assert (∀ k : list (string * Json.t), NoDup k.*1 →
    NoDup (map (fun entry => (entry.1, write_canonical_json display entry.2)) k).*1) as Hk.
  { intros k. by rewrite <-(list_fmap_compose _ fst k). }
  rewrite !foldl_insert_map by (apply Hk; by rewrite <-?Hp). f_equal. do 5 f_equal.
  apply list_to_map_proper; [by apply Hk|by apply fmap_Permutation].
Qed.
