(* ===== verification/Guardrails.v ===== *)
(** * The guardrail chain: [rakka-agent/src/guardrails.rs], [rakka-agent/src/failure.rs]

    The ordered chain of stages that one deployment configures, and its evaluation at a
    boundary: a block wins outright, a transform replaces what later stages see, the first
    checkpoint requirement is remembered, reports accumulate.  A stage's rule is a function of
    the context and the content, as its trait asks; the length of a serialized value is the
    parameter [to_vec_len], an error of which counts as [usize::MAX]. *)

From Stdlib Require Import Ascii.
From S2P Require Import Prelude AgentIdentity CompiledPlan Budget Delegation FanIn Authority JsonDigest.

Definition AGENT_GUARDRAIL_MAX_STAGES : nat := 32.
Definition AGENT_GUARDRAIL_REASON_MAX_LENGTH : nat := 128.
Definition AGENT_GUARDRAIL_REASON_TRANSFORM_OVERSIZED : string := "guardrail-transform-oversized".
Definition AGENT_GUARDRAIL_CONTENT_MAX_BYTES : Z := 16 * 1024.

Module AgentGuardrailBoundary.
Inductive t :=
| ModelRequest | ModelResponse | ToolRequest | ToolResponse | A2aIngress | A2aEgress | MemoryIngress.
#[global] Instance eq_dec : EqDecision t.
Proof. solve_decision. Defined.
(** The position in the declaration, which orders a [BTreeSet] of them. *)
Definition index (self : t) : Z :=
  match self with
  | ModelRequest => 0 | ModelResponse => 1 | ToolRequest => 2 | ToolResponse => 3 | A2aIngress => 4
  | A2aEgress => 5 | MemoryIngress => 6
  end.
Definition ALL : list t :=
  [ModelRequest; ModelResponse; ToolRequest; ToolResponse; A2aIngress; A2aEgress; MemoryIngress].
#[global] Instance index_inj : Inj (=) (=) index.
Proof. intros [] []; simpl; congruence. Qed.
#[global] Instance countable : Countable t :=
  inj_countable index (fun n => find_first (fun k => index k =? n) ALL) ltac:(by intros []).
#[global] Instance ordkey : OrdKey t := ordkey_via index.
Definition as_label (self : t) : string :=
  match self with
  | ModelRequest => "model-request" | ModelResponse => "model-response" | ToolRequest => "tool-request"
  | ToolResponse => "tool-response" | A2aIngress => "a2a-ingress" | A2aEgress => "a2a-egress"
  | MemoryIngress => "memory-ingress"
  end.
End AgentGuardrailBoundary.
Module Boundary := AgentGuardrailBoundary.

Module AgentPrivateMemoryId.
Record t := Self { as_str : string }.
Definition new : string → AgentIdentityResult t := validated_id "agent_private_memory_id" Self.
End AgentPrivateMemoryId.

Module AgentGuardrailSubject.
Inductive t :=
| Run (scope : AgentRunScope.t)
| Task (scope : AgentTaskScope.t) (agent : option AgentId.t)
| Team (scope : AgentTeamScope.t)
| Conversation (scope : AgentConversationScope.t).

Definition tenant (self : t) : TenantId.t :=
  match self with
  | Run scope => AgentRunScope.tenant scope
  | Task scope _ => AgentTaskScope.tenant scope
  | Team scope => AgentTeamScope.tenant scope
  | Conversation scope => AgentConversationScope.tenant scope
  end.
Definition agent (self : t) : option AgentId.t :=
  match self with
  | Run scope => Some (AgentRunScope.agent scope)
  | Task _ agent => agent
  | Team _ | Conversation _ => None
  end.
Definition run (self : t) : option AgentRunScope.t := match self with Run scope => Some scope | _ => None end.
End AgentGuardrailSubject.
Module Subject := AgentGuardrailSubject.

Module AgentGuardrailContext.
Record t := mk {
  boundary : Boundary.t;
  subject : Subject.t;
  tool : option AgentToolId.t;
  memory : option AgentPrivateMemoryId.t;
}.
Definition for_subject (boundary : Boundary.t) (subject : Subject.t) : t := mk boundary subject None None.
Definition new (boundary : Boundary.t) (scope : AgentRunScope.t) : t := for_subject boundary (Subject.Run scope).
Definition scope (self : t) : option AgentRunScope.t := Subject.run (subject self).
Definition with_tool (self : t) (tool : AgentToolId.t) : t :=
  mk (boundary self) (subject self) (Some tool) (memory self).
Definition with_memory (self : t) (memory : AgentPrivateMemoryId.t) : t :=
  mk (boundary self) (subject self) (tool self) (Some memory).
End AgentGuardrailContext.
Module GuardContext := AgentGuardrailContext.

Module AgentGuardrailOutcome.
Inductive t :=
| Allow
| Block (reason_code : string) (evidence : option ArtifactRef.t)
| Transform (content : Json.t) (reason_code : string)
| ReportOnly (reason_code : string) (evidence : option ArtifactRef.t)
| RequireCheckpoint (reason_code : string).
End AgentGuardrailOutcome.
Module GuardOutcome := AgentGuardrailOutcome.

(** The trait: a function of the context and the content. *)
Definition AgentGuardrail : Type := GuardContext.t → Json.t → GuardOutcome.t.

Module AgentGuardrailStage.
Record t := mk {
  id : AgentGuardrailStageId.t;
  revision : AgentRevisionNumber.t;
  boundaries : gset Boundary.t;
  mandatory : bool;
  rule : AgentGuardrail;
}.
Definition new (id : AgentGuardrailStageId.t) (revision : AgentRevisionNumber.t) (rule : AgentGuardrail) : t :=
  mk id revision ∅ false rule.
Definition at_boundary (self : t) (boundary : Boundary.t) : t :=
  mk (id self) (revision self) ({[boundary]} ∪ boundaries self) (mandatory self) (rule self).
Definition set_mandatory (self : t) : t := mk (id self) (revision self) (boundaries self) true (rule self).
Definition applies_at (self : t) (boundary : Boundary.t) : bool := bool_decide (boundary ∈ boundaries self).
End AgentGuardrailStage.
Module Stage := AgentGuardrailStage.

Module AgentGuardrailReport.
Record t := mk {
  stage : AgentGuardrailStageId.t;
  revision : AgentRevisionNumber.t;
  reason_code : string;
  evidence : option ArtifactRef.t;
}.
End AgentGuardrailReport.
Module GuardReport := AgentGuardrailReport.

Module AgentGuardrailTransform.
Record t := mk { stage : AgentGuardrailStageId.t; revision : AgentRevisionNumber.t; reason_code : string }.
End AgentGuardrailTransform.
Module GuardTransform := AgentGuardrailTransform.

Module AgentGuardrailDisposition.
Inductive t :=
| Allowed
| Blocked (stage : AgentGuardrailStageId.t) (reason_code : string) (evidence : option ArtifactRef.t)
| CheckpointRequired (stage : AgentGuardrailStageId.t) (reason_code : string).
End AgentGuardrailDisposition.
Module GuardDisposition := AgentGuardrailDisposition.

Module AgentGuardrailDecision.
Record t := mk {
  chain_revision : AgentRevisionNumber.t;
  disposition : GuardDisposition.t;
  content : Json.t;
  transformed : bool;
  transforms : list GuardTransform.t;
  reports : list GuardReport.t;
}.
Definition is_allowed (self : t) : bool := match disposition self with GuardDisposition.Allowed => true | _ => false end.
End AgentGuardrailDecision.
Module GuardDecision := AgentGuardrailDecision.

(** ** Errors *)

Module AgentGuardrailError.
Inductive t :=
| TooManyStages (maximum : nat)
| DuplicateStage (stage : AgentGuardrailStageId.t)
| MandatoryStageRemoved (stage : AgentGuardrailStageId.t)
| MissingRequiredStage (stage : AgentGuardrailStageId.t)
| StageUnbound (stage : AgentGuardrailStageId.t)
| StageNotEvaluated (stage : AgentGuardrailStageId.t)
| NarrowedRevisionNotDistinct (revision : AgentRevisionNumber.t)
| ChainMismatch (authority retrieval : option AgentContentDigest.t)
| A2aChainMismatch (authority : option AgentContentDigest.t) (surface : AgentContentDigest.t)
| InvalidRule (rule reason : string).

Definition code (self : t) : string :=
  match self with
  | TooManyStages _ => "guardrail-too-many-stages"
  | DuplicateStage _ => "guardrail-duplicate-stage"
  | MandatoryStageRemoved _ => "guardrail-mandatory-stage-immutable"
  | MissingRequiredStage _ => "guardrail-stage-missing"
  | StageUnbound _ => "guardrail-stage-unbound"
  | StageNotEvaluated _ => "guardrail-stage-unevaluated"
  | NarrowedRevisionNotDistinct _ => "guardrail-narrowed-revision-not-distinct"
  | ChainMismatch _ _ | A2aChainMismatch _ _ => "guardrail-chain-mismatch"
  | InvalidRule _ _ => "guardrail-rule-invalid"
  end.
End AgentGuardrailError.
Module GuardErr := AgentGuardrailError.

Definition AgentGuardrailResult (A : Type) : Type := result GuardErr.t A.

(** ** Reasons *)

(** [bounded_reason]: cut back to a character boundary. *)
Definition bounded_code (code : string) : string :=
  if (String.length code <=? AGENT_GUARDRAIL_REASON_MAX_LENGTH)%nat then code
  else String.substring 0 (boundary_before code AGENT_GUARDRAIL_REASON_MAX_LENGTH) code.

(** [failure.rs]: a character that breaks a line becomes a space.  The match is on the UTF-8
    bytes: U+0000 to U+001F and U+007F are one byte, U+0080 to U+009F the byte 194 and one
    more, U+061C the bytes 216 and 156, and the others three bytes that start with 226. *)
Definition AGENT_FAILURE_REASON_CODE_MAX_LENGTH : nat := 128.

Definition breaks_the_line_2 (b1 b2 : nat) : bool :=
  ((b1 =? 194) && (128 <=? b2) && (b2 <=? 159) || (b1 =? 216) && (b2 =? 156))%nat.

Definition breaks_the_line_3 (b1 b2 b3 : nat) : bool :=
  ((b1 =? 226) &&
   ((b2 =? 128) && ((b3 =? 168) || (b3 =? 169) || (b3 =? 142) || (b3 =? 143) || (170 <=? b3) && (b3 <=? 174)) ||
    (b2 =? 129) && (166 <=? b3) && (b3 <=? 169)))%nat.

Fixpoint flatten (s : string) : string :=
  match s with
  | "" => ""
  | String a s1 =>
      let n := nat_of_ascii a in
      if ((n <? 32) || (n =? 127))%nat then String " " (flatten s1)
      else
        match s1 with
        | String b s2 =>
            if breaks_the_line_2 n (nat_of_ascii b) then String " " (flatten s2)
            else
              match s2 with
              | String c s3 =>
                  if breaks_the_line_3 n (nat_of_ascii b) (nat_of_ascii c) then String " " (flatten s3)
                  else String a (flatten s1)
              | "" => String a (flatten s1)
              end
        | "" => String a (flatten s1)
        end
  end.

Definition bounded_failure_code (code : string) : string :=
  let flat := flatten code in
  if (String.length flat <=? AGENT_FAILURE_REASON_CODE_MAX_LENGTH)%nat then flat
  else String.substring 0 (boundary_before flat AGENT_FAILURE_REASON_CODE_MAX_LENGTH) flat.

(** [AgentFailureReason::guardrail]. *)
Definition guardrail_reason (stage : AgentGuardrailStageId.t) (reason_code : string) : AgentFailureReason.t :=
  AgentFailureReason.mk (bounded_failure_code reason_code) (Some stage) false.

(** ** The chain *)

Module AgentGuardrailChain.
Record t := mk {
  revision : AgentRevisionNumber.t;
  policy : option AgentPolicyRef.t;
  stages : list Stage.t;
}.

Definition new (revision : AgentRevisionNumber.t) : t := mk revision None [].
Definition with_policy_ref (self : t) (policy : AgentPolicyRef.t) : t := mk (revision self) (Some policy) (stages self).

Definition with_stage (self : t) (stage : Stage.t) : AgentGuardrailResult t :=
  if (AGENT_GUARDRAIL_MAX_STAGES <=? length (stages self))%nat then
    Err (GuardErr.TooManyStages AGENT_GUARDRAIL_MAX_STAGES)
  else if bool_decide (Stage.boundaries stage = ∅) then Err (GuardErr.StageUnbound (Stage.id stage))
  else if existsb (fun held => bool_decide (Stage.id held = Stage.id stage)) (stages self) then
    Err (GuardErr.DuplicateStage (Stage.id stage))
  else Ok (mk (revision self) (policy self) (stages self ++ [stage])).

Definition stage_declaration (stage : Stage.t) : Json.t :=
  Json.Object
    [("id", Json.String (AgentGuardrailStageId.as_str (Stage.id stage)));
     ("revision", Json.of_Z (AgentRevisionNumber.get (Stage.revision stage)));
     ("mandatory", Json.Bool (Stage.mandatory stage));
     ("boundaries", Json.Array (Json.String ∘ Boundary.as_label <$> btree_elements (Stage.boundaries stage)))].

Definition declaration (self : t) : Json.t :=
  Json.Object
    [("revision", Json.of_Z (AgentRevisionNumber.get (revision self)));
     ("policy", Json.of_option (AgentPolicyRef.as_str <$> policy self));
     ("stages", Json.Array (stage_declaration <$> stages self))].

Definition declaration_digest (display : Json.t → string) (self : t) : AgentContentDigest.t :=
  ContentDigest.of_json display (declaration self).

(** The body of the loop over the required stages, and the loop. *)
Definition validate_stage (self : t) (evaluated : list Boundary.t) (stage : AgentGuardrailStageId.t) :
    AgentGuardrailResult unit :=
  match find_first (fun held => bool_decide (Stage.id held = stage)) (stages self) with
  | None => Err (GuardErr.MissingRequiredStage stage)
  | Some held =>
      if existsb (fun boundary => bool_decide (boundary ∈ evaluated)) (btree_elements (Stage.boundaries held)) then Ok tt
      else Err (GuardErr.StageNotEvaluated stage)
  end.

Fixpoint validate_each (self : t) (evaluated : list Boundary.t) (required : list AgentGuardrailStageId.t) :
    AgentGuardrailResult unit :=
  match required with
  | [] => Ok tt
  | stage :: required => let? _ := validate_stage self evaluated stage in validate_each self evaluated required
  end.

Definition validate_covers (self : t) (required : gset AgentGuardrailStageId.t) (evaluated : list Boundary.t) :
    AgentGuardrailResult unit := validate_each self evaluated (btree_elements required).

Definition narrowed (self : t) (disabled : gset AgentGuardrailStageId.t) (revision' : AgentRevisionNumber.t) :
    AgentGuardrailResult t :=
  if bool_decide (revision' = revision self) then Err (GuardErr.NarrowedRevisionNotDistinct revision')
  else
    match find_first (fun stage => Stage.mandatory stage && bool_decide (Stage.id stage ∈ disabled)) (stages self) with
    | Some stage => Err (GuardErr.MandatoryStageRemoved (Stage.id stage))
    | None => Ok (mk revision' (policy self) (filter (fun stage => Stage.id stage ∉ disabled) (stages self)))
    end.

Section Evaluate.
Context (to_vec_len : Json.t → result string nat).

(** [serde_json::to_vec(..).len()], [usize::MAX] when it fails. *)
Definition encoded_len (value : Json.t) : Z :=
  match to_vec_len value with Ok bytes => Z.of_nat bytes | Err _ => u64_max end.

(** The locals of the loop. *)
Record progress := Progress {
  current : Json.t;
  transformed : bool;
  transforms : list GuardTransform.t;
  reports : list GuardReport.t;
  checkpoint : option (AgentGuardrailStageId.t * string);
}.

Definition decide_with (chain_revision : AgentRevisionNumber.t) (disposition : GuardDisposition.t) (p : progress) :
    GuardDecision.t :=
  GuardDecision.mk chain_revision disposition (current p) (transformed p) (transforms p) (reports p).

Fixpoint evaluate_stages (chain_revision : AgentRevisionNumber.t) (context : GuardContext.t) (max_content_bytes : Z)
    (stages : list Stage.t) (p : progress) : GuardDecision.t :=
  match stages with
  | [] =>
      decide_with chain_revision
        match checkpoint p with
        | Some (stage, reason_code) => GuardDisposition.CheckpointRequired stage reason_code
        | None => GuardDisposition.Allowed
        end p
  | stage :: stages =>
      let continue := evaluate_stages chain_revision context max_content_bytes stages in
      if negb (Stage.applies_at stage (GuardContext.boundary context)) then continue p
      else
        match Stage.rule stage context (current p) with
        | GuardOutcome.Allow => continue p
        | GuardOutcome.Block reason_code evidence =>
            decide_with chain_revision
              (GuardDisposition.Blocked (Stage.id stage) (bounded_code reason_code) evidence) p
        | GuardOutcome.Transform replacement reason_code =>
            if encoded_len replacement >? max_content_bytes then
              decide_with chain_revision
                (GuardDisposition.Blocked (Stage.id stage) AGENT_GUARDRAIL_REASON_TRANSFORM_OVERSIZED None) p
            else
              continue (Progress replacement true
                (transforms p ++ [GuardTransform.mk (Stage.id stage) (Stage.revision stage) (bounded_code reason_code)])
                (reports p) (checkpoint p))
        | GuardOutcome.ReportOnly reason_code evidence =>
            continue (Progress (current p) (transformed p) (transforms p)
              (reports p ++ [GuardReport.mk (Stage.id stage) (Stage.revision stage) (bounded_code reason_code) evidence])
              (checkpoint p))
        | GuardOutcome.RequireCheckpoint reason_code =>
            continue (Progress (current p) (transformed p) (transforms p) (reports p)
              match checkpoint p with
              | None => Some (Stage.id stage, bounded_code reason_code)
              | Some checkpoint => Some checkpoint
              end)
        end
  end.

Definition evaluate_bounded (self : t) (context : GuardContext.t) (content : Json.t) (max_content_bytes : Z) :
    GuardDecision.t :=
  evaluate_stages (revision self) context (Z.min max_content_bytes AGENT_GUARDRAIL_CONTENT_MAX_BYTES) (stages self)
    (Progress content false [] [] None).

Definition evaluate (self : t) (context : GuardContext.t) (content : Json.t) : GuardDecision.t :=
  evaluate_bounded self context content AGENT_GUARDRAIL_CONTENT_MAX_BYTES.
End Evaluate.
End AgentGuardrailChain.
Module Chain := AgentGuardrailChain.

(** ** What an evaluation decides

    A stage that applies sees the content as the transforms before it left it.  [visits] pairs
    every applying stage with what it sees, whatever the verdicts. *)

Section Meaning.
Context (to_vec_len : Json.t → result string nat) (context : GuardContext.t) (bound : Z).

Definition outcome_of (v : Stage.t * Json.t) : GuardOutcome.t := Stage.rule v.1 context v.2.

Definition content_after (v : Stage.t * Json.t) : Json.t :=
  match outcome_of v with GuardOutcome.Transform replacement _ => replacement | _ => v.2 end.

Fixpoint visits (stages : list Stage.t) (content : Json.t) : list (Stage.t * Json.t) :=
  match stages with
  | [] => []
  | stage :: stages =>
      if Stage.applies_at stage (GuardContext.boundary context) then
        (stage, content) :: visits stages (content_after (stage, content))
      else visits stages content
  end.

(** Why a visit stops everything. *)
Definition stopped (v : Stage.t * Json.t) : option GuardDisposition.t :=
  match outcome_of v with
  | GuardOutcome.Block reason evidence =>
      Some (GuardDisposition.Blocked (Stage.id v.1) (bounded_code reason) evidence)
  | GuardOutcome.Transform replacement _ =>
      if Chain.encoded_len to_vec_len replacement >? bound then
        Some (GuardDisposition.Blocked (Stage.id v.1) AGENT_GUARDRAIL_REASON_TRANSFORM_OVERSIZED None)
      else None
  | _ => None
  end.

Definition transform_of (v : Stage.t * Json.t) : option GuardTransform.t :=
  match outcome_of v with
  | GuardOutcome.Transform _ reason => Some (GuardTransform.mk (Stage.id v.1) (Stage.revision v.1) (bounded_code reason))
  | _ => None
  end.

Definition report_of (v : Stage.t * Json.t) : option GuardReport.t :=
  match outcome_of v with
  | GuardOutcome.ReportOnly reason evidence =>
      Some (GuardReport.mk (Stage.id v.1) (Stage.revision v.1) (bounded_code reason) evidence)
  | _ => None
  end.

Definition checkpoint_of (v : Stage.t * Json.t) : option (AgentGuardrailStageId.t * string) :=
  match outcome_of v with
  | GuardOutcome.RequireCheckpoint reason => Some (Stage.id v.1, bounded_code reason)
  | _ => None
  end.

(** The visits before the first that stops, and that one's verdict. *)
Fixpoint until_stopped (vs : list (Stage.t * Json.t)) : list (Stage.t * Json.t) * option GuardDisposition.t :=
  match vs with
  | [] => ([], None)
  | v :: vs =>
      match stopped v with
      | Some disposition => ([], Some disposition)
      | None => let '(passed, verdict) := until_stopped vs in (v :: passed, verdict)
      end
  end.

Definition checkpoint_verdict (checkpoint : option (AgentGuardrailStageId.t * string)) : GuardDisposition.t :=
  match checkpoint with
  | Some (stage, reason) => GuardDisposition.CheckpointRequired stage reason
  | None => GuardDisposition.Allowed
  end.

Definition first_checkpoint (vs : list (Stage.t * Json.t)) : option (AgentGuardrailStageId.t * string) :=
  head (omap checkpoint_of vs).

(** The decision, read off the visits. *)
Definition judged (chain_revision : AgentRevisionNumber.t) (stages : list Stage.t) (p : Chain.progress) :
    GuardDecision.t :=
  let '(passed, verdict) := until_stopped (visits stages (Chain.current p)) in
  GuardDecision.mk chain_revision
    match verdict with
    | Some disposition => disposition
    | None =>
        checkpoint_verdict
          match Chain.checkpoint p with Some checkpoint => Some checkpoint | None => first_checkpoint passed end
    end
    (default (Chain.current p) (last (content_after <$> passed)))
    (Chain.transformed p || negb (bool_decide (omap transform_of passed = [])))
    (Chain.transforms p ++ omap transform_of passed) (Chain.reports p ++ omap report_of passed).

Lemma last_cons_default {A} (x y : A) l : default x (last (y :: l)) = default y (last l).
Proof. destruct l as [|z l]; [done|]. rewrite last_cons_cons. by destruct (last (z :: l)) eqn:He; [|apply last_None in He]. Qed.

(** The effect of one visit that does not stop. *)
Lemma omap_visit {A} (f : Stage.t * Json.t → option A) v vs : omap f (v :: vs) = option_list (f v) ++ omap f vs.
Proof. simpl. by destruct (f v). Qed.

Definition step (p : Chain.progress) (v : Stage.t * Json.t) : Chain.progress :=
  Chain.Progress (content_after v) (Chain.transformed p || bool_decide (is_Some (transform_of v)))
    (Chain.transforms p ++ option_list (transform_of v)) (Chain.reports p ++ option_list (report_of v))
    match Chain.checkpoint p with Some checkpoint => Some checkpoint | None => checkpoint_of v end.

Lemma judged_step chain_revision stage stages p : Stage.applies_at stage (GuardContext.boundary context) = true →
  stopped (stage, Chain.current p) = None →
  judged chain_revision (stage :: stages) p = judged chain_revision stages (step p (stage, Chain.current p)).
Proof.
  intros Happ Hstop. unfold judged. cbn [visits step Chain.current]. rewrite Happ. cbn [until_stopped]. rewrite Hstop.
  cbn [Chain.current Chain.checkpoint Chain.transforms Chain.reports Chain.transformed].
  destruct (until_stopped _) as [passed verdict]. unfold first_checkpoint. rewrite !omap_visit, fmap_cons, last_cons_default.
  rewrite !(assoc_L (++)). f_equal.
  - destruct verdict; [done|]. unfold step. destruct (Chain.checkpoint p); [done|]. by destruct (checkpoint_of _).
  - unfold step. by destruct (transform_of _), (Chain.transformed p), (omap transform_of passed).
Qed.

Lemma evaluate_judged chain_revision stages p :
  Chain.evaluate_stages to_vec_len chain_revision context bound stages p = judged chain_revision stages p.
Proof.
  revert p. induction stages as [|stage stages IH]; intros p.
  - unfold judged, Chain.decide_with. simpl. rewrite !app_nil_r, orb_false_r. by destruct (Chain.checkpoint p) as [[]|].
  - cbn [Chain.evaluate_stages]. destruct (Stage.applies_at stage _) eqn:Happ; cbn [negb].
    2: { rewrite IH. unfold judged. cbn [visits]. by rewrite Happ. }
    pose proof (judged_step chain_revision stage stages p Happ) as Hstep.
    unfold stopped, step, content_after, transform_of, report_of, checkpoint_of, outcome_of in Hstep. cbn [fst snd] in Hstep.
    assert (∀ d, stopped (stage, Chain.current p) = Some d → judged chain_revision (stage :: stages) p =
      Chain.decide_with chain_revision d p) as Hstop.
    { intros d Hd. unfold judged, Chain.decide_with. cbn [visits]. rewrite Happ. cbn [until_stopped]. rewrite Hd.
      simpl. by rewrite !app_nil_r, orb_false_r. }
    unfold stopped, outcome_of in Hstop. cbn [fst snd] in Hstop. destruct p as [c t ts rs k].
    destruct (Stage.rule stage context _) as [|reason ev|replacement reason|reason ev|reason];
      [| |destruct (_ >? bound)| |]; try (by erewrite Hstop); rewrite Hstep, IH by done; simpl;
      by rewrite ?app_nil_r, ?orb_false_r, ?orb_true_r; destruct k.
Qed.
End Meaning.

Section Evaluation.
Context (to_vec_len : Json.t → result string nat) (context : GuardContext.t) (bound : Z).
Abbreviation stopped := (stopped to_vec_len context bound).
Abbreviation until_stopped := (until_stopped to_vec_len context bound).

Lemma until_stopped_none vs : (∀ v, v ∈ vs → stopped v = None) → until_stopped vs = (vs, None).
Proof.
  induction vs as [|v vs IH]; intros Hall; simpl; [done|]. rewrite Hall by (by left).
  rewrite IH; [done|]. intros u Hu. apply Hall. by right.
Qed.

Lemma until_stopped_first pre v post d : (∀ u, u ∈ pre → stopped u = None) → stopped v = Some d →
  until_stopped (pre ++ v :: post) = (pre, Some d).
Proof.
  intros Hall Hv. induction pre as [|u pre IH]; simpl; [by rewrite Hv|]. rewrite Hall by (by left).
  rewrite IH; [done|]. intros w Hw. apply Hall. by right.
Qed.

Lemma until_stopped_inv vs passed verdict : until_stopped vs = (passed, verdict) →
  (∀ v, v ∈ passed → stopped v = None) ∧
  match verdict with
  | None => vs = passed
  | Some d => ∃ v post, vs = passed ++ v :: post ∧ stopped v = Some d
  end.
Proof.
  revert passed. induction vs as [|v vs IH]; intros passed; simpl.
  - intros [= <- <-]. split; [|done]. by intros v ?%elem_of_nil.
  - destruct (stopped v) as [d|] eqn:Hv.
    + intros [= <- <-]. split; [by intros u ?%elem_of_nil|]. by exists v, vs.
    + destruct (until_stopped vs) as [passed' verdict']. intros [= <- <-].
      destruct (IH _ eq_refl) as [Hall Hm]. split.
      * intros u [-> |Hu]%elem_of_cons; auto.
      * destruct verdict' as [d|]; [|by f_equal]. destruct Hm as (u & post & -> & ?). by exists u, post.
Qed.

Lemma stopped_blocks v d : stopped v = Some d → ∃ reason evidence, d = GuardDisposition.Blocked (Stage.id v.1) reason evidence.
Proof.
  unfold Guardrails.stopped. destruct (outcome_of _ _); try done; [|case_match; [|done]]; intros [= <-]; eauto.
Qed.

(** What crosses after a transform is within the bound. *)
Lemma transformed_bounded chain_revision stages p :
  (Chain.transformed p = true → Chain.encoded_len to_vec_len (Chain.current p) <= bound) →
  let d := Chain.evaluate_stages to_vec_len chain_revision context bound stages p in
  GuardDecision.transformed d = true → Chain.encoded_len to_vec_len (GuardDecision.content d) <= bound.
Proof.
  revert p. induction stages as [|stage stages IH]; intros p Hp; cbn [Chain.evaluate_stages]; [done|].
  destruct (negb _); [by apply IH|].
  destruct (Stage.rule _ _ _) as [|reason ev|replacement reason|reason ev|reason]; try done; try by apply IH.
  destruct (Z.gtb_spec (Chain.encoded_len to_vec_len replacement) bound); [done|]. by apply IH.
Qed.
End Evaluation.

(** ** Bounds and invariants of a chain *)

Lemma boundary_before_le s n : (boundary_before s n <= n)%nat.
Proof. induction n as [|n IH]; simpl; [by destruct (is_char_boundary s 0)|]. destruct (is_char_boundary s (S n)); lia. Qed.

Lemma length_substring n s : (String.length (String.substring 0 n s) <= n)%nat.
Proof. revert n. induction s as [|a s IH]; intros [|n]; simpl; try lia. specialize (IH n). lia. Qed.

Lemma bounded_code_length code : (String.length (bounded_code code) <= AGENT_GUARDRAIL_REASON_MAX_LENGTH)%nat.
Proof.
  unfold bounded_code. case_match eqn:Hl; [by apply Nat.leb_le|].
  etrans; [apply length_substring|apply boundary_before_le].
Qed.

Record chain_ok (chain : Chain.t) : Prop := {
  chain_length : (length (Chain.stages chain) <= AGENT_GUARDRAIL_MAX_STAGES)%nat;
  chain_distinct : NoDup (Stage.id <$> Chain.stages chain);
  chain_bound stage : stage ∈ Chain.stages chain → Stage.boundaries stage ≠ ∅;
}.

Lemma new_chain_ok revision : chain_ok (Chain.new revision).
Proof. split; simpl; [lia|apply NoDup_nil_2|by intros ? ?%elem_of_nil]. Qed.

Lemma with_stage_ok chain stage chain' : chain_ok chain → Chain.with_stage chain stage = Ok chain' → chain_ok chain'.
Proof.
  intros [Hl Hd Hb]. unfold Chain.with_stage. destruct (Nat.leb_spec AGENT_GUARDRAIL_MAX_STAGES (length (Chain.stages chain))); [done|].
  case_bool_decide; [done|]. destruct (existsb _ _) eqn:He; [done|]. intros [= <-]. split; simpl.
  - rewrite length_app. simpl. lia.
  - rewrite fmap_app. apply NoDup_app. split_and!; [done| |apply NoDup_singleton].
    intros id (held & -> & Hin)%list_elem_of_fmap Hs%list_elem_of_singleton.
    eapply eq_true_false_abs; [|exact He]. apply existsb_exists. exists held.
    split; [by apply list_elem_of_In|by apply bool_decide_eq_true].
  - intros s [Hs|<-%list_elem_of_singleton]%elem_of_app; auto.
Qed.

(** Narrowing keeps every mandatory stage as it is, and what is left in its order. *)
Lemma narrowed_inv chain disabled revision chain' : Chain.narrowed chain disabled revision = Ok chain' →
  Chain.revision chain' ≠ Chain.revision chain ∧ Chain.policy chain' = Chain.policy chain ∧
  Chain.stages chain' `sublist_of` Chain.stages chain ∧
  (∀ stage, stage ∈ Chain.stages chain' ↔ stage ∈ Chain.stages chain ∧ Stage.id stage ∉ disabled) ∧
  (∀ stage, stage ∈ Chain.stages chain → Stage.mandatory stage = true → stage ∈ Chain.stages chain').
Proof.
  unfold Chain.narrowed. case_bool_decide as Hr; [done|]. destruct (find_first _ _) eqn:Hf; [done|]. intros [= <-].
  rewrite find_first_None in Hf. simpl. split_and!; [done..|apply sublist_filter| |].
  - intros stage. rewrite list_elem_of_filter. naive_solver.
  - intros stage Hin Hm. apply list_elem_of_filter. split; [|done]. intros Hd. specialize (Hf stage Hin).
    rewrite Hm in Hf. by rewrite bool_decide_eq_true_2 in Hf.
Qed.

Lemma narrowed_ok chain disabled revision chain' : chain_ok chain → Chain.narrowed chain disabled revision = Ok chain' →
  chain_ok chain'.
Proof.
  intros [Hl Hd Hb] (_ & _ & Hs & Hin & _)%narrowed_inv. split.
  - apply sublist_length in Hs. lia.
  - eapply sublist_NoDup; [exact Hd|]. by apply fmap_sublist.
  - intros stage Hst. apply Hin in Hst as [? _]. auto.
Qed.

(** Coverage: every required stage is held, and runs at an evaluated boundary. *)
Lemma validate_covers_ok chain required evaluated : Chain.validate_covers chain required evaluated = Ok tt ↔
  ∀ id, id ∈ required → ∃ held, find_first (fun held => bool_decide (Stage.id held = id)) (Chain.stages chain) = Some held ∧
    ∃ boundary, boundary ∈ Stage.boundaries held ∧ boundary ∈ evaluated.
Proof.
  unfold Chain.validate_covers. setoid_rewrite <-(elem_of_btree_elements required).
  induction (btree_elements required) as [|id l IH]; simpl; [split; [by intros _ ? ?%elem_of_nil|done]|].
  assert (Chain.validate_stage chain evaluated id = Ok tt ↔
    ∃ held, find_first (fun held => bool_decide (Stage.id held = id)) (Chain.stages chain) = Some held ∧
      ∃ boundary, boundary ∈ Stage.boundaries held ∧ boundary ∈ evaluated) as Hone.
  { unfold Chain.validate_stage. destruct (find_first _ _) as [held|]; [|naive_solver].
    transitivity (existsb (fun boundary => bool_decide (boundary ∈ evaluated)) (btree_elements (Stage.boundaries held)) = true).
    - by destruct (existsb _ _).
    - rewrite existsb_exists. setoid_rewrite bool_decide_eq_true. setoid_rewrite <-list_elem_of_In.
      setoid_rewrite elem_of_btree_elements. naive_solver. }
  transitivity (Chain.validate_stage chain evaluated id = Ok tt ∧ Chain.validate_each chain evaluated l = Ok tt).
  { destruct (Chain.validate_stage chain evaluated id) as [[]|]; simpl; naive_solver. }
  rewrite Hone, IH. setoid_rewrite elem_of_cons. naive_solver.
Qed.
