(* ===== verification/RunEffects.v ===== *)
(** * Effect intents: [rakka-agent/src/effect.rs], grants of [rakka-agent/src/checkpoints.rs]

    What a run commits before anything is dispatched: the request, its safety class, its
    attempt bound, its credential, route and guardrail pin, under the spec the deployment
    projects for it; and the grant of a resolved checkpoint, which binds one exact intent.
    The encoding of a request by [serde] is the parameter [request_value]. *)

From S2P Require Import Prelude AgentIdentity AgentSchema CompiledPlan Budget Delegation DelegationDoor FanIn WakeTask.
From S2P Require Import Authority JsonDigest Guardrails GraphState.
Module RunScope := AgentRunScope.
Module EffectId := Delegation.AgentEffectId.
Module ToolCall := AgentToolCallRequest.
Arguments InvocationRecord.required_capabilities {Value}.
Arguments InvocationRecord.workflow_type {Value}.
Arguments InvocationRecord.definition_version {Value}.

Definition AGENT_TOOL_ARGUMENTS_MAX_BYTES : Z := 2 * 1024.
Definition AGENT_TOOL_RESULT_MAX_BYTES : Z := 2 * 1024.
Definition AGENT_EXTERNAL_IDEMPOTENCY_KEY_MAX_LENGTH : nat := 512.
Definition AGENT_MEMORY_PROMOTION_DEFAULT_MAX_ATTEMPTS : Z := 3.
Definition AGENT_CLAIM_APPEND_DEFAULT_MAX_ATTEMPTS : Z := 3.
Definition AGENT_GOAL_EVALUATION_DEFAULT_MAX_ATTEMPTS : Z := 2.
Definition AGENT_A2A_SEND_DEFAULT_MAX_ATTEMPTS : Z := 3.
Definition AGENT_WORKFLOW_START_DEFAULT_MAX_ATTEMPTS : Z := 3.
Definition AGENT_WORKFLOW_CANCEL_DEFAULT_MAX_ATTEMPTS : Z := 3.
Definition AGENT_POST_TERMINAL_MEMORY_WINDOW_DEFAULT_MS : Z := 600000.

(** ** Errors *)

Module AgentEffectError.
Inductive t :=
| Identity (error : AgentIdentityError)
| Schema (error : AgentSchemaError)
| Model (message : string)
| ToolResultTooLarge (call_id : AgentToolCallId.t) (bytes maximum : nat)
| ContentTooLarge (bytes maximum : nat)
| PendingOverflow (maximum : nat)
| InvalidPolicy (message : string)
| Sink (code message : string).
Definition code (self : t) : string :=
  match self with
  | Identity error => AgentIdentityError_code error
  | Schema error => AgentSchemaError_code error
  | Model _ => "effect-model-turn-invalid"
  | ToolResultTooLarge _ _ _ => "effect-tool-result-too-large"
  | ContentTooLarge _ _ => "effect-content-too-large"
  | PendingOverflow _ => "effect-pending-overflow"
  | InvalidPolicy _ => "effect-policy-invalid"
  | Sink _ _ => "effect-sink-failed"
  end.
End AgentEffectError.
Module EffectErr := AgentEffectError.

Definition AgentEffectResult (A : Type) : Type := result EffectErr.t A.

(** ** Generations, keys and safety *)

Module AgentEffectGeneration.
Record t := new { get : Z }.
#[global] Instance eq_dec : EqDecision t.
Proof. solve_decision. Defined.
Definition FIRST : t := new 1.
Definition next (self : t) : t := new (saturating_add_u32 (get self) 1).
Definition fmt (self : t) : string := pretty (get self).
End AgentEffectGeneration.
Module Generation := AgentEffectGeneration.

Module AgentExternalIdempotencyKey.
Record t := Self { as_str : string }.
#[global] Instance eq_dec : EqDecision t.
Proof. solve_decision. Defined.
Definition new (value : string) : AgentEffectResult t :=
  if str_is_empty (trim value) then Err (EffectErr.InvalidPolicy "an external idempotency key must not be empty")
  else if (AGENT_EXTERNAL_IDEMPOTENCY_KEY_MAX_LENGTH <? String.length value)%nat then
    Err (EffectErr.InvalidPolicy
      ("an external idempotency key may hold at most " +:+ pretty AGENT_EXTERNAL_IDEMPOTENCY_KEY_MAX_LENGTH +:+ " bytes"))
  else Ok (Self value).
End AgentExternalIdempotencyKey.
Module ExternalKey := AgentExternalIdempotencyKey.

Module AgentReconciliationProtocolRef.
Record t := Self { as_str : string }.
#[global] Instance eq_dec : EqDecision t.
Proof. solve_decision. Defined.
Definition new : string → AgentIdentityResult t := validated_id "agent_reconciliation_protocol_ref" Self.
End AgentReconciliationProtocolRef.
Module ProtocolRef := AgentReconciliationProtocolRef.

Module AgentEffectSafety.
Inductive t :=
| ReadOnly
| Idempotent (external_key : ExternalKey.t)
| Reconcileable (protocol : ProtocolRef.t)
| NonIdempotent.
#[global] Instance eq_dec : EqDecision t.
Proof. solve_decision. Defined.
Definition class (self : t) : SafetyClass.t :=
  match self with
  | ReadOnly => SafetyClass.ReadOnly
  | Idempotent _ => SafetyClass.Idempotent
  | Reconcileable _ => SafetyClass.Reconcileable
  | NonIdempotent => SafetyClass.NonIdempotent
  end.
Definition external_key (self : t) : option ExternalKey.t := match self with Idempotent key => Some key | _ => None end.
Definition reconciliation_protocol (self : t) : option ProtocolRef.t :=
  match self with Reconcileable protocol => Some protocol | _ => None end.
End AgentEffectSafety.
Module Safety := AgentEffectSafety.

Definition effect_id_for (scope : RunScope.t) (turn : Z) (slot : nat) : AgentIdentityResult EffectId.t :=
  let? operation := AgentOperationId.new EffectDispatch
    [TenantId.as_str (RunScope.tenant scope); AgentId.as_str (RunScope.agent scope); AgentRunId.as_str (RunScope.run scope);
     pretty turn; pretty slot] in
  Ok (EffectId.new (AgentOperationId.as_str operation)).

Definition external_idempotency_key_for (scope : RunScope.t) (turn : Z) (slot : nat) (generation : Generation.t) :
    AgentEffectResult ExternalKey.t :=
  let? effect_id := map_err EffectErr.Identity (effect_id_for scope turn slot) in
  ExternalKey.new (EffectId.as_str effect_id +:+ "#g" +:+ Generation.fmt generation).

Definition effect_result_operation_id (scope : RunScope.t) (turn : Z) (slot : nat) (generation : Generation.t) :
    AgentIdentityResult AgentOperationId.t :=
  AgentOperationId.new Command
    [TenantId.as_str (RunScope.tenant scope); AgentId.as_str (RunScope.agent scope); AgentRunId.as_str (RunScope.run scope);
     "effect-result"; pretty turn; pretty slot; Generation.fmt generation].

(** ** Specs *)

Module AgentEffectSpec.
Record t := mk {
  safety_class : SafetyClass.t;
  max_attempts : Z;
  reconciliation_protocol : option ProtocolRef.t;
  credential_binding : option AgentCredentialBindingRef.t;
  timeout_ms : option Z;
  execution_policy : option AgentExecutionPolicyRef.t;
  guardrail_revision : option AgentRevisionNumber.t;
  checkpoint_required : bool;
  authorization_required : bool;
}.

(** A spec of a class and a number of attempts, with nothing else. *)
Definition plain (safety_class : SafetyClass.t) (max_attempts : Z) : t :=
  mk safety_class max_attempts None None None None None false false.

Definition read_only : t := plain SafetyClass.ReadOnly 1.
Definition non_idempotent : t := plain SafetyClass.NonIdempotent 1.

Definition validate (self : t) : AgentEffectResult unit :=
  if max_attempts self =? 0 then Err (EffectErr.InvalidPolicy "an effect spec must permit at least one attempt")
  else if bool_decide (safety_class self = SafetyClass.NonIdempotent) && (1 <? max_attempts self) then
    Err (EffectErr.InvalidPolicy "a non-idempotent effect may not be auto-retried after ambiguity")
  else
    match safety_class self, reconciliation_protocol self with
    | SafetyClass.Reconcileable, None =>
        Err (EffectErr.InvalidPolicy "a reconcileable effect must name its reconciliation protocol")
    | SafetyClass.Reconcileable, Some _ => Ok tt
    | _, Some _ => Err (EffectErr.InvalidPolicy "only a reconcileable effect may name a reconciliation protocol")
    | _, None => Ok tt
    end.

Definition reconcileable (protocol : ProtocolRef.t) (max_attempts : Z) : AgentEffectResult t :=
  let spec := mk SafetyClass.Reconcileable max_attempts (Some protocol) None None None None false false in
  let? _ := validate spec in Ok spec.
Definition idempotent (max_attempts : Z) : AgentEffectResult t :=
  let spec := plain SafetyClass.Idempotent max_attempts in let? _ := validate spec in Ok spec.
Definition with_max_attempts (self : t) (max_attempts : Z) : AgentEffectResult t :=
  let '(mk c _ r b t p g k a) := self in
  let spec := mk c max_attempts r b t p g k a in let? _ := validate spec in Ok spec.
Definition with_credential_binding (self : t) (binding : AgentCredentialBindingRef.t) : t :=
  let '(mk c m r _ t p g k a) := self in mk c m r (Some binding) t p g k a.
Definition with_timeout_ms (self : t) (timeout_ms : Z) : t :=
  let '(mk c m r b _ p g k a) := self in mk c m r b (Some timeout_ms) p g k a.
Definition with_execution_policy (self : t) (policy : AgentExecutionPolicyRef.t) : t :=
  let '(mk c m r b t _ g k a) := self in mk c m r b t (Some policy) g k a.
Definition with_guardrail_revision (self : t) (revision : AgentRevisionNumber.t) : t :=
  let '(mk c m r b t p _ k a) := self in mk c m r b t p (Some revision) k a.
Definition with_checkpoint_required (self : t) : t :=
  let '(mk c m r b t p g _ a) := self in mk c m r b t p g true a.
Definition with_authorization_required (self : t) : t :=
  let '(mk c m r b t p g k _) := self in mk c m r b t p g k true.

Definition safety_for (self : t) (scope : RunScope.t) (turn : Z) (slot : nat) (generation : Generation.t) :
    AgentEffectResult Safety.t :=
  match safety_class self with
  | SafetyClass.ReadOnly => Ok Safety.ReadOnly
  | SafetyClass.Idempotent =>
      let? external_key := external_idempotency_key_for scope turn slot generation in Ok (Safety.Idempotent external_key)
  | SafetyClass.Reconcileable =>
      let? protocol := ok_or (EffectErr.InvalidPolicy "a reconcileable effect must name its reconciliation protocol")
                         (reconciliation_protocol self) in
      Ok (Safety.Reconcileable protocol)
  | SafetyClass.NonIdempotent => Ok Safety.NonIdempotent
  end.
End AgentEffectSpec.
Module EffectSpec := AgentEffectSpec.

(** ** Requests *)

Module AgentContextSnapshotRef.
Record t := new { snapshot_id : string; version : AgentRevisionNumber.t }.
End AgentContextSnapshotRef.

Module AgentCompensationRef.
Record t := Self { as_str : string }.
Definition new : string → AgentIdentityResult t := validated_id "agent_compensation_ref" Self.
End AgentCompensationRef.

Module AgentPrivateMemoryKind.
Inductive t := Semantic | Episodic | Preference | Application.
Definition as_label (self : t) : string :=
  match self with
  | Semantic => "semantic" | Episodic => "episodic" | Preference => "preference" | Application => "application"
  end.
End AgentPrivateMemoryKind.

Module MemoryEntryRole.
Inductive t := System | User | Assistant | ToolResult | Summary.
#[global] Instance eq_dec : EqDecision t.
Proof. solve_decision. Defined.
End MemoryEntryRole.

Module AgentMemoryConsolidationTarget.
Record t := mk { memory_id : AgentPrivateMemoryId.t; expected_revision : AgentRevisionNumber.t }.
End AgentMemoryConsolidationTarget.

Module AgentMemoryPromotionRequest.
Record t := mk {
  from_sequence : Z;
  to_sequence : Z;
  kind : AgentPrivateMemoryKind.t;
  target : option AgentMemoryConsolidationTarget.t;
  confidence_bps : Z;
  requested_by : PrincipalRef.t;
  roles : option (list MemoryEntryRole.t);
}.
Definition selects_role (self : t) (role : MemoryEntryRole.t) : bool :=
  match roles self with None => true | Some roles => bool_decide (role ∈ roles) end.
Definition selected_entries (self : t) : option Z :=
  if (from_sequence self =? 0) || (to_sequence self <? from_sequence self) then None
  else Some (add_u64 (to_sequence self - from_sequence self) 1).
End AgentMemoryPromotionRequest.

Module AgentGoalEvaluationMethod.
Inductive t :=
| DeterministicAssertion (assertion : AgentPolicyRef.t)
| AuthoritativeQuery (query : AgentPolicyRef.t)
| VerificationWorkflow (workflow : AgentWorkflowToolId.t)
| EvaluatorModel (profile : option AgentModelProfileId.t)
| HumanReview.
End AgentGoalEvaluationMethod.

Module AgentGoalEvidenceRef.
Record t := mk { class : string; artifact : option ArtifactRef.t; digest : option AgentContentDigest.t }.
End AgentGoalEvidenceRef.

Module AgentGoalEvaluationRequest.
Record t := mk {
  goal : AgentGoalId.t;
  evaluator : AgentPolicyRef.t;
  criteria_revision : AgentRevisionNumber.t;
  method : AgentGoalEvaluationMethod.t;
  evidence : list AgentGoalEvidenceRef.t;
  requested_by : PrincipalRef.t;
}.
End AgentGoalEvaluationRequest.

Module AgentHandoffRecord.
Record t := mk {
  handoff : string;
  goal : option AgentGoalId.t;
  task : AgentTaskId.t;
  source_run : RunScope.t;
  source_generation : AgentAssignmentGeneration.t;
  requested_skill : AgentCapabilityId.t;
  resolved : Target.t;
  reason : string;
  policy_revision : AgentRevisionNumber.t;
  definition_revision : AgentRevisionNumber.t;
  settings_revision : AgentRevisionNumber.t;
  context : list string;
  a2a_message_id : string;
  deduplication_key : string;
  turn : Z;
  slot : nat;
  effect : EffectId.t;
  call_id : AgentToolCallId.t;
  telemetry : Delegation.AgentTelemetryContext.t;
  created_at : AgentTimestampMillis;
}.
End AgentHandoffRecord.

Module AgentClaimObjectRequest.
Inductive t := Node (node : string) | Value (content : AgentTaskContent.t Json.t).
End AgentClaimObjectRequest.

Module MemoryClassification.
Inductive t := Unclassified | Sensitive | Redacted.
End MemoryClassification.

Module AgentClaimAppendRequest.
Record t := mk {
  space : KnowledgeSpaceId.t;
  subject : string;
  predicate : string;
  object : AgentClaimObjectRequest.t;
  confidence_bps : Z;
  classification : MemoryClassification.t;
  evidence : list ArtifactRef.t;
  requested_by : PrincipalRef.t;
}.
End AgentClaimAppendRequest.

Module AgentClaimAppendProvenance.
Record t := mk {
  agent : AgentId.t;
  goal : option AgentGoalId.t;
  task : AgentTaskId.t;
  run : AgentRunId.t;
  delegation : option AgentDelegationId.t;
}.
End AgentClaimAppendProvenance.

Module AgentRunEffectKind.
Inductive t :=
| ModelCall | ToolCall | CompensationCall | MemoryPromotionCall | GoalEvaluationCall | A2aSendCall
| WorkflowStartCall | WorkflowCancelCall | ClaimAppendCall.
Definition as_label (self : t) : string :=
  match self with
  | ModelCall => "model-call" | ToolCall => "tool-call" | CompensationCall => "compensation-call"
  | MemoryPromotionCall => "memory-promotion-call" | GoalEvaluationCall => "goal-evaluation-call"
  | A2aSendCall => "a2a-send-call" | WorkflowStartCall => "workflow-start-call"
  | WorkflowCancelCall => "workflow-cancel-call" | ClaimAppendCall => "claim-append-call"
  end.
Definition exempt_from_wind_down_fence (self : t) : bool :=
  match self with CompensationCall | WorkflowCancelCall | MemoryPromotionCall | ClaimAppendCall => true | _ => false end.
Definition outside_the_turn (self : t) : bool :=
  match self with MemoryPromotionCall | ClaimAppendCall => true | _ => false end.
End AgentRunEffectKind.
Module EffectKind := AgentRunEffectKind.

Module AgentEffectTarget.
Record t := mk { target_type : string; name : string; address : option string; attributes : AgentAttributes }.
End AgentEffectTarget.

Module AgentRunEffectRequest.
Inductive t :=
| Model (context : AgentContextSnapshotRef.t) (profile : option AgentModelProfileId.t)
| Tool (call : ToolCall.t Json.t)
| Compensation (compensation : AgentCompensationRef.t) (compensated : EffectId.t) (compensated_generation : Generation.t)
| MemoryPromotion (promotion : AgentMemoryPromotionRequest.t)
| Evaluation (evaluation : AgentGoalEvaluationRequest.t)
| A2aSend (delegation : DelegationRecord.t Json.t)
| A2aHandoff (handoff : AgentHandoffRecord.t)
| WorkflowStart (invocation : InvocationRecord.t Json.t)
| WorkflowCancel (invocation : InvocationRecord.t Json.t) (reason : string)
| ClaimAppend (append : AgentClaimAppendRequest.t) (provenance : AgentClaimAppendProvenance.t).

Definition kind (self : t) : EffectKind.t :=
  match self with
  | Model _ _ => EffectKind.ModelCall
  | Tool _ => EffectKind.ToolCall
  | Compensation _ _ _ => EffectKind.CompensationCall
  | MemoryPromotion _ => EffectKind.MemoryPromotionCall
  | Evaluation _ => EffectKind.GoalEvaluationCall
  | A2aSend _ | A2aHandoff _ => EffectKind.A2aSendCall
  | WorkflowStart _ => EffectKind.WorkflowStartCall
  | WorkflowCancel _ _ => EffectKind.WorkflowCancelCall
  | ClaimAppend _ _ => EffectKind.ClaimAppendCall
  end.

Definition tool_call (self : t) : option (ToolCall.t Json.t) := match self with Tool call => Some call | _ => None end.

Definition target (self : t) : AgentEffectTarget.t :=
  match self with
  | Model _ profile =>
      AgentEffectTarget.mk "model" (match profile with None => "default" | Some p => AgentModelProfileId.as_str p end) None ∅
  | Tool call => AgentEffectTarget.mk "tool" (AgentToolId.as_str (ToolCall.tool call)) None ∅
  | Compensation compensation _ _ =>
      AgentEffectTarget.mk "compensation" (AgentCompensationRef.as_str compensation) None ∅
  | MemoryPromotion promotion =>
      AgentEffectTarget.mk "memory-promotion"
        (AgentPrivateMemoryKind.as_label (AgentMemoryPromotionRequest.kind promotion)) None ∅
  | Evaluation evaluation =>
      AgentEffectTarget.mk "goal-evaluation"
        (AgentPolicyRef.as_str (AgentGoalEvaluationRequest.evaluator evaluation)) None ∅
  | A2aSend delegation =>
      let resolved := DelegationRecord.resolved delegation in
      AgentEffectTarget.mk "a2a-peer" (AgentId.as_str (Target.agent resolved)) (Target.endpoint resolved)
        (list_to_map [("skill", AgentCapabilityId.as_str (DelegationRecord.requested_skill delegation));
                      ("delegation", AgentDelegationId.as_str (DelegationRecord.delegation delegation))])
  | A2aHandoff handoff =>
      let resolved := AgentHandoffRecord.resolved handoff in
      AgentEffectTarget.mk "a2a-peer" (AgentId.as_str (Target.agent resolved)) (Target.endpoint resolved)
        (list_to_map [("skill", AgentCapabilityId.as_str (AgentHandoffRecord.requested_skill handoff));
                      ("handoff", AgentHandoffRecord.handoff handoff)])
  | WorkflowStart invocation =>
      AgentEffectTarget.mk "workflow-tool" (AgentWorkflowToolId.as_str (InvocationRecord.workflow_tool invocation)) None
        (list_to_map [("workflow-type", InvocationRecord.workflow_type invocation);
                      ("definition-version", WorkflowDefinitionVersion.as_str (InvocationRecord.definition_version invocation));
                      ("invocation", AgentWorkflowInvocationId.as_str (InvocationRecord.invocation invocation));
                      ("child-run", WorkflowRunId.as_str (InvocationRecord.child_run invocation))])
  | WorkflowCancel invocation _ =>
      AgentEffectTarget.mk "workflow-cancel" (AgentWorkflowToolId.as_str (InvocationRecord.workflow_tool invocation)) None
        (list_to_map [("workflow-type", InvocationRecord.workflow_type invocation);
                      ("invocation", AgentWorkflowInvocationId.as_str (InvocationRecord.invocation invocation));
                      ("child-run", WorkflowRunId.as_str (InvocationRecord.child_run invocation))])
  | ClaimAppend append _ =>
      AgentEffectTarget.mk "claim-append" (KnowledgeSpaceId.as_str (AgentClaimAppendRequest.space append)) None ∅
  end.

Definition target_label (self : t) : string :=
  AgentEffectTarget.target_type (target self) +:+ ":" +:+ AgentEffectTarget.name (target self).
End AgentRunEffectRequest.
Module Request := AgentRunEffectRequest.

(** What this crate relies on of [serde] and [serde_json], and its SHA-256. *)
Module RunCodec.
Record t := mk {
  display : Json.t → string;
  to_vec_len : Json.t → result string nat;
  request_value : Request.t → result string Json.t;
  artifact_value : ArtifactRef.t → result string Json.t;
  sha256_hex : string → string;
}.
End RunCodec.

Module RequestDigest.
Section Digests.
Context (codec : RunCodec.t).

Definition request_json (request : Request.t) : AgentEffectResult Json.t :=
  map_err (fun error => EffectErr.Model ("the effect request could not be encoded: " +:+ error))
    (RunCodec.request_value codec request).

Definition argument_digest (request : Request.t) : AgentEffectResult AgentContentDigest.t :=
  let? value := request_json request in Ok (ContentDigest.of_json (RunCodec.display codec) value).

Definition cryptographic_argument_digest (request : Request.t) : AgentEffectResult AgentContentDigest.t :=
  let? value := request_json request in
  Ok (ContentDigest.sha256_of_json (RunCodec.display codec) (RunCodec.sha256_hex codec) value).
End Digests.
End RequestDigest.

(** ** Intents *)

Module AgentRunEffectStatus.
Inductive t := Pending | Ready | Succeeded | Failed | Exhausted | Indeterminate | Compensated | Cancelled.
#[global] Instance eq_dec : EqDecision t.
Proof. solve_decision. Defined.
Definition as_label (self : t) : string :=
  match self with
  | Pending => "pending" | Ready => "ready" | Succeeded => "succeeded" | Failed => "failed"
  | Exhausted => "exhausted" | Indeterminate => "indeterminate" | Compensated => "compensated"
  | Cancelled => "cancelled"
  end.
Definition is_outstanding (self : t) : bool := match self with Pending | Ready => true | _ => false end.
Definition is_resolved (self : t) : bool := negb (is_outstanding self).
Definition blocks_settlement (self : t) : bool :=
  is_outstanding self || match self with Indeterminate => true | _ => false end.
End AgentRunEffectStatus.
Module EffectStatus := AgentRunEffectStatus.

Module AgentUnknownOutcomeEvidence.
Record t := new { sent_at : option AgentTimestampMillis; cancellation_issued : bool }.
End AgentUnknownOutcomeEvidence.

(** The key a ticket hands to the target, as its text. *)
Definition idempotency_key_for (effect_id : EffectId.t) (safety : Safety.t) : string :=
  match Safety.external_key safety with
  | Some external => ExternalKey.as_str external
  | None => EffectId.as_str effect_id
  end.

Module AgentRunEffect.
Record t := mk {
  schema_version : Z;
  effect_id : EffectId.t;
  generation : Generation.t;
  turn : Z;
  slot : nat;
  request : Request.t;
  safety : Safety.t;
  max_attempts : Z;
  argument_digest : AgentContentDigest.t;
  settings_revision : AgentRevisionNumber.t;
  credential_binding : option AgentCredentialBindingRef.t;
  execution_policy : option AgentExecutionPolicyRef.t;
  guardrail_revision : option AgentRevisionNumber.t;
  timeout_ms : option Z;
  deadline_at : option AgentTimestampMillis;
  status : EffectStatus.t;
  idempotency_key : string;
  attempts : Z;
  last_fence : option Z;
  created_at : AgentTimestampMillis;
  dispatched_at : option AgentTimestampMillis;
  last_error_code : option string;
  last_error_reason : option AgentFailureReason.t;
  unknown_outcome : option AgentUnknownOutcomeEvidence.t;
  checkpoint_required : bool;
  authorization_required : bool;
  telemetry : Delegation.AgentTelemetryContext.t;
}.

Definition new (codec : RunCodec.t) (scope : RunScope.t) (turn : Z) (slot : nat) (request : Request.t)
    (spec : EffectSpec.t) (settings_revision : AgentRevisionNumber.t) (created_at : AgentTimestampMillis) :
    AgentEffectResult t :=
  let? _ := EffectSpec.validate spec in
  let? effect_id := map_err EffectErr.Identity (effect_id_for scope turn slot) in
  let generation := Generation.FIRST in
  let? safety := EffectSpec.safety_for spec scope turn slot generation in
  let idempotency_key := idempotency_key_for effect_id safety in
  let? argument_digest := RequestDigest.argument_digest codec request in
  Ok (mk CURRENT_AGENT_RUN_EFFECT_SCHEMA_VERSION effect_id generation turn slot request safety
        (EffectSpec.max_attempts spec) argument_digest settings_revision (EffectSpec.credential_binding spec)
        (EffectSpec.execution_policy spec) (EffectSpec.guardrail_revision spec) (EffectSpec.timeout_ms spec) None
        EffectStatus.Pending idempotency_key 0 None created_at None None None None (EffectSpec.checkpoint_required spec)
        (EffectSpec.authorization_required spec) (Delegation.AgentTelemetryContext.mk None None ∅ [])).

Definition dispatch_ticket_id (self : t) : EffectId.t :=
  EffectId.new (EffectId.as_str (effect_id self) +:+ "#g" +:+ Generation.fmt (generation self)).
Definition result_operation_id (self : t) (scope : RunScope.t) : AgentIdentityResult AgentOperationId.t :=
  effect_result_operation_id scope (turn self) (slot self) (generation self).
End AgentRunEffect.
Module Intent := AgentRunEffect.

(** ** Policies *)

Module AgentCheckpointSla.
Record t := mk { due_after_ms : option Z; expire_after_ms : option Z; escalation_target : option string }.
Definition default : t := mk None None None.
Definition is_set (self : t) : bool := bool_decide (is_Some (due_after_ms self)) || bool_decide (is_Some (expire_after_ms self)).
Definition deadlines (self : t) (opened_at : AgentTimestampMillis) :
    option AgentTimestampMillis * option AgentTimestampMillis :=
  let at_ (offset : Z) := saturating_add_u64 opened_at offset in
  (at_ <$> due_after_ms self, at_ <$> expire_after_ms self).
End AgentCheckpointSla.

Module AgentEffectPolicies.
Record t := mk {
  model : EffectSpec.t;
  tools : gmap AgentToolId.t EffectSpec.t;
  default_tool : EffectSpec.t;
  compensation : EffectSpec.t;
  memory_promotion : EffectSpec.t;
  goal_evaluation : EffectSpec.t;
  a2a_send : EffectSpec.t;
  workflow_start : EffectSpec.t;
  workflow_cancel : EffectSpec.t;
  claim_append : EffectSpec.t;
  checkpoint_sla : AgentCheckpointSla.t;
  post_terminal_memory_window_ms : Z;
}.

Definition new : t :=
  mk EffectSpec.read_only ∅ EffectSpec.non_idempotent EffectSpec.non_idempotent
    (EffectSpec.plain SafetyClass.Idempotent AGENT_MEMORY_PROMOTION_DEFAULT_MAX_ATTEMPTS)
    (EffectSpec.plain SafetyClass.ReadOnly AGENT_GOAL_EVALUATION_DEFAULT_MAX_ATTEMPTS)
    (EffectSpec.plain SafetyClass.Idempotent AGENT_A2A_SEND_DEFAULT_MAX_ATTEMPTS)
    (EffectSpec.plain SafetyClass.Idempotent AGENT_WORKFLOW_START_DEFAULT_MAX_ATTEMPTS)
    (EffectSpec.plain SafetyClass.Idempotent AGENT_WORKFLOW_CANCEL_DEFAULT_MAX_ATTEMPTS)
    (EffectSpec.plain SafetyClass.Idempotent AGENT_CLAIM_APPEND_DEFAULT_MAX_ATTEMPTS)
    AgentCheckpointSla.default AGENT_POST_TERMINAL_MEMORY_WINDOW_DEFAULT_MS.

Definition with_tool_spec (self : t) (tool : AgentToolId.t) (spec : EffectSpec.t) : AgentEffectResult t :=
  let? _ := EffectSpec.validate spec in
  let '(mk m ts d c mp ge a ws wc ca sla w) := self in Ok (mk m (<[tool := spec]> ts) d c mp ge a ws wc ca sla w).
Definition with_model_spec (self : t) (spec : EffectSpec.t) : AgentEffectResult t :=
  let? _ := EffectSpec.validate spec in
  let '(mk _ ts d c mp ge a ws wc ca sla w) := self in Ok (mk spec ts d c mp ge a ws wc ca sla w).
Definition with_default_tool_spec (self : t) (spec : EffectSpec.t) : AgentEffectResult t :=
  let? _ := EffectSpec.validate spec in
  let '(mk m ts _ c mp ge a ws wc ca sla w) := self in Ok (mk m ts spec c mp ge a ws wc ca sla w).
Definition with_compensation_spec (self : t) (spec : EffectSpec.t) : AgentEffectResult t :=
  let? _ := EffectSpec.validate spec in
  let '(mk m ts d _ mp ge a ws wc ca sla w) := self in Ok (mk m ts d spec mp ge a ws wc ca sla w).

Definition with_memory_promotion_spec (self : t) (spec : EffectSpec.t) : AgentEffectResult t :=
  let? _ := EffectSpec.validate spec in
  let '(mk m ts d c _ ge a ws wc ca sla w) := self in Ok (mk m ts d c spec ge a ws wc ca sla w).
Definition with_goal_evaluation_spec (self : t) (spec : EffectSpec.t) : AgentEffectResult t :=
  let? _ := EffectSpec.validate spec in
  let '(mk m ts d c mp _ a ws wc ca sla w) := self in Ok (mk m ts d c mp spec a ws wc ca sla w).
Definition with_a2a_send_spec (self : t) (spec : EffectSpec.t) : AgentEffectResult t :=
  let? _ := EffectSpec.validate spec in
  let '(mk m ts d c mp ge _ ws wc ca sla w) := self in Ok (mk m ts d c mp ge spec ws wc ca sla w).
Definition with_workflow_start_spec (self : t) (spec : EffectSpec.t) : AgentEffectResult t :=
  let? _ := EffectSpec.validate spec in
  let '(mk m ts d c mp ge a _ wc ca sla w) := self in Ok (mk m ts d c mp ge a spec wc ca sla w).
Definition with_workflow_cancel_spec (self : t) (spec : EffectSpec.t) : AgentEffectResult t :=
  let? _ := EffectSpec.validate spec in
  let '(mk m ts d c mp ge a ws _ ca sla w) := self in Ok (mk m ts d c mp ge a ws spec ca sla w).
Definition with_claim_append_spec (self : t) (spec : EffectSpec.t) : AgentEffectResult t :=
  let? _ := EffectSpec.validate spec in
  let '(mk m ts d c mp ge a ws wc _ sla w) := self in Ok (mk m ts d c mp ge a ws wc spec sla w).
Definition with_checkpoint_sla (self : t) (sla : AgentCheckpointSla.t) : t :=
  let '(mk m ts d c mp ge a ws wc ca _ w) := self in mk m ts d c mp ge a ws wc ca sla w.
Definition with_post_terminal_memory_window_ms (self : t) (window_ms : Z) : t :=
  let '(mk m ts d c mp ge a ws wc ca sla _) := self in mk m ts d c mp ge a ws wc ca sla window_ms.

Definition with_guardrail_revision (self : t) (revision : AgentRevisionNumber.t) : t :=
  let pin spec := EffectSpec.with_guardrail_revision spec revision in
  let '(mk m ts d c mp ge a ws wc ca sla w) := self in
  mk (pin m) (pin <$> ts) (pin d) c (pin mp) (pin ge) (pin a) (pin ws) (pin wc) (pin ca) sla w.

Definition with_substrate_execution_policy (self : t) (policy : AgentExecutionPolicyRef.t) : t :=
  let route spec := EffectSpec.with_execution_policy spec policy in
  let '(mk m ts d c mp ge a ws wc ca sla w) := self in
  mk (route m) ts d (route c) (route mp) (route ge) (route a) (route ws) (route wc) (route ca) sla w.

Definition spec_for (self : t) (request : Request.t) : EffectSpec.t :=
  match request with
  | Request.Model _ _ => model self
  | Request.Tool call => default (default_tool self) (tools self !! ToolCall.tool call)
  | Request.Compensation _ _ _ => compensation self
  | Request.MemoryPromotion _ => memory_promotion self
  | Request.Evaluation _ => goal_evaluation self
  | Request.A2aSend _ | Request.A2aHandoff _ => a2a_send self
  | Request.WorkflowStart _ => workflow_start self
  | Request.WorkflowCancel _ _ => workflow_cancel self
  | Request.ClaimAppend _ _ => claim_append self
  end.
End AgentEffectPolicies.
Module Policies := AgentEffectPolicies.

(** ** Checkpoint grants *)

Module AgentCheckpointKind.
Inductive t := Approval | SecurityAuthorization | IndeterminateEffectReconciliation.
#[global] Instance eq_dec : EqDecision t.
Proof. solve_decision. Defined.
Definition as_label (self : t) : string :=
  match self with
  | Approval => "approval"
  | SecurityAuthorization => "security-authorization"
  | IndeterminateEffectReconciliation => "indeterminate-effect-reconciliation"
  end.
Definition is_approval_family (self : t) : bool :=
  match self with Approval | SecurityAuthorization => true | _ => false end.
End AgentCheckpointKind.
Module CheckpointKind := AgentCheckpointKind.

Module AgentCheckpointEffectBinding.
Record t := mk {
  effect_id : EffectId.t;
  generation : Generation.t;
  target : string;
  argument_digest : AgentContentDigest.t;
  safety_class : SafetyClass.t;
  credential_binding : option AgentCredentialBindingRef.t;
}.
Definition of_effect (codec : RunCodec.t) (effect : Intent.t) : AgentEffectResult t :=
  let? argument_digest := RequestDigest.cryptographic_argument_digest codec (Intent.request effect) in
  Ok (mk (Intent.effect_id effect) (Intent.generation effect) (Request.target_label (Intent.request effect))
        argument_digest (Safety.class (Intent.safety effect)) (Intent.credential_binding effect)).
End AgentCheckpointEffectBinding.
Module EffectBinding := AgentCheckpointEffectBinding.

Module AgentCheckpointGrantError.
Inductive t :=
| NonCryptographicDigest | IntentMismatch | CredentialBindingChanged | ArgumentDigestUncomputable
| ArgumentDigestMismatch | Expired | UsesExhausted.
Definition code (self : t) : string :=
  match self with
  | NonCryptographicDigest => "checkpoint-grant-non-cryptographic"
  | IntentMismatch => "checkpoint-grant-intent-mismatch"
  | CredentialBindingChanged => "checkpoint-grant-credential-changed"
  | ArgumentDigestUncomputable => "checkpoint-argument-digest-uncomputable"
  | ArgumentDigestMismatch => "checkpoint-argument-digest-mismatch"
  | Expired => "checkpoint-grant-expired"
  | UsesExhausted => "checkpoint-grant-uses-exhausted"
  end.
End AgentCheckpointGrantError.
Module GrantErr := AgentCheckpointGrantError.

Module AgentCheckpointGrant.
Record t := mk {
  checkpoint_id : HumanCheckpointId.t;
  kind : CheckpointKind.t;
  scope : RunScope.t;
  task : option AgentTaskId.t;
  goal : option AgentGoalId.t;
  effect_id : EffectId.t;
  generation : Generation.t;
  target : string;
  argument_digest : AgentContentDigest.t;
  safety_class : SafetyClass.t;
  settings_revision : AgentRevisionNumber.t;
  policy : option AgentPolicyRef.t;
  credential_binding : option AgentCredentialBindingRef.t;
  resolver : PrincipalRef.t;
  issued_at : AgentTimestampMillis;
  expires_at : AgentTimestampMillis;
  allowed_use_count : Z;
}.

Definition validate_for_binding (self : t) (binding : EffectBinding.t) (attempt : Z) (now : AgentTimestampMillis) :
    result GrantErr.t unit :=
  if negb (ContentDigest.is_cryptographic (AgentContentDigest.algorithm (argument_digest self))) ||
     negb (ContentDigest.is_cryptographic (AgentContentDigest.algorithm (EffectBinding.argument_digest binding))) then
    Err GrantErr.NonCryptographicDigest
  else if bool_decide (effect_id self ≠ EffectBinding.effect_id binding) ||
          bool_decide (generation self ≠ EffectBinding.generation binding) ||
          bool_decide (target self ≠ EffectBinding.target binding) ||
          bool_decide (safety_class self ≠ EffectBinding.safety_class binding) then Err GrantErr.IntentMismatch
  else if bool_decide (credential_binding self ≠ EffectBinding.credential_binding binding) then
    Err GrantErr.CredentialBindingChanged
  else if bool_decide (argument_digest self ≠ EffectBinding.argument_digest binding) then
    Err GrantErr.ArgumentDigestMismatch
  else if expires_at self <? now then Err GrantErr.Expired
  else if allowed_use_count self <? attempt then Err GrantErr.UsesExhausted
  else Ok tt.

Definition validate_for (codec : RunCodec.t) (self : t) (scope' : RunScope.t) (intent : Intent.t) (attempt : Z)
    (now : AgentTimestampMillis) : result GrantErr.t unit :=
  if negb (ContentDigest.is_cryptographic (AgentContentDigest.algorithm (argument_digest self))) then
    Err GrantErr.NonCryptographicDigest
  else if bool_decide (scope self ≠ scope') || bool_decide (effect_id self ≠ Intent.effect_id intent) ||
          bool_decide (generation self ≠ Intent.generation intent) ||
          bool_decide (safety_class self ≠ Safety.class (Intent.safety intent)) then Err GrantErr.IntentMismatch
  else if bool_decide (credential_binding self ≠ Intent.credential_binding intent) then
    Err GrantErr.CredentialBindingChanged
  else
    let? binding := map_err (fun _ => GrantErr.ArgumentDigestUncomputable) (EffectBinding.of_effect codec intent) in
    validate_for_binding self binding attempt now.
End AgentCheckpointGrant.
Module CheckpointGrant := AgentCheckpointGrant.

(** [grant_for] of the loop state, over the grants it holds. *)
Definition grant_for (checkpoint_grants : list CheckpointGrant.t) (effect : Intent.t) : option CheckpointGrant.t :=
  find_first (fun grant =>
    bool_decide (CheckpointGrant.effect_id grant = Intent.effect_id effect) &&
    bool_decide (CheckpointGrant.generation grant = Intent.generation effect)) checkpoint_grants.

Definition is_dispatchable (checkpoint_grants : list CheckpointGrant.t) (effect : Intent.t) : bool :=
  negb (Intent.checkpoint_required effect || Intent.authorization_required effect) ||
  bool_decide (is_Some (grant_for checkpoint_grants effect)).
