(* ===== verification/ToolRegistry.v ===== *)
(** * Tools and their registry: [rakka-agent/src/tools.rs], profiles of [model_profile.rs]

    A descriptor is what a model is shown; a binding is what the deployment authorizes for it;
    the registry holds the bindings and projects the specs that effects are committed under.
    The error that an [AgentEffectError] becomes keeps it instead of its text. *)

From S2P Require Import Prelude AgentIdentity CompiledPlan Budget Delegation Authority JsonDigest Guardrails RunEffects.

Definition AGENT_TOOL_DESCRIPTION_MAX_LENGTH : nat := 1024.
Definition AGENT_TOOL_PARAMETERS_MAX_BYTES : Z := 4 * 1024.
Definition AGENT_TOOL_REGISTRY_MAX_TOOLS : nat := 256.

Module AgentToolError.
Inductive t :=
| EmptyDescription (tool : AgentToolId.t)
| DescriptionTooLong (tool : AgentToolId.t) (length maximum : nat)
| ParametersTooLarge (tool : AgentToolId.t) (bytes maximum : Z)
| RegistryFull (maximum : nat)
| DuplicateTool (tool : AgentToolId.t)
| Policy (message : string + EffectErr.t)
| EnvironmentConcurrencyMissing (tool : AgentToolId.t)
| EnvironmentConcurrencyUnexpected (tool : AgentToolId.t)
| EnvironmentRefMissing (tool : AgentToolId.t).
Definition code (self : t) : string :=
  match self with
  | EmptyDescription _ => "tool-description-empty"
  | DescriptionTooLong _ _ _ => "tool-description-too-long"
  | ParametersTooLarge _ _ _ => "tool-parameters-too-large"
  | RegistryFull _ => "tool-registry-full"
  | DuplicateTool _ => "tool-already-registered"
  | Policy _ => "tool-policy-invalid"
  | EnvironmentConcurrencyMissing _ => "environment-concurrency-missing"
  | EnvironmentConcurrencyUnexpected _ => "environment-concurrency-unexpected"
  | EnvironmentRefMissing _ => "environment-ref-missing"
  end.
End AgentToolError.
Module ToolErr := AgentToolError.

Definition AgentToolResult (A : Type) : Type := result ToolErr.t A.

(** ** Descriptors *)

Module AgentToolKind.
Inductive t := Function | Workflow | Process | RemoteMcp | Retrieval | Environment | AgentCoordination.
#[global] Instance eq_dec : EqDecision t.
Proof. solve_decision. Defined.
Definition as_label (self : t) : string :=
  match self with
  | Function => "function" | Workflow => "workflow" | Process => "process" | RemoteMcp => "remote-mcp"
  | Retrieval => "retrieval" | Environment => "environment" | AgentCoordination => "agent-coordination"
  end.
End AgentToolKind.
Module ToolKind := AgentToolKind.

Module AgentToolResultBehavior.
Inductive t := InlineBounded | ArtifactReference.
Definition as_label (self : t) : string :=
  match self with InlineBounded => "inline-bounded" | ArtifactReference => "artifact-reference" end.
End AgentToolResultBehavior.

Module AgentToolDescriptor.
Record t := mk {
  tool : AgentToolId.t;
  version : AgentRevisionNumber.t;
  kind : ToolKind.t;
  description : string;
  input_schema : AgentSchemaRef.t;
  output_schema : AgentSchemaRef.t;
  parameters : option Json.t;
  result_behavior : AgentToolResultBehavior.t;
}.

Section Codec.
Context (to_vec_len : Json.t → result string nat).

Definition validate (self : t) : AgentToolResult unit :=
  if str_is_empty (description self) then Err (ToolErr.EmptyDescription (tool self))
  else if (AGENT_TOOL_DESCRIPTION_MAX_LENGTH <? String.length (description self))%nat then
    Err (ToolErr.DescriptionTooLong (tool self) (String.length (description self)) AGENT_TOOL_DESCRIPTION_MAX_LENGTH)
  else
    match parameters self with
    | Some parameters =>
        let bytes := Chain.encoded_len to_vec_len parameters in
        if bytes >? AGENT_TOOL_PARAMETERS_MAX_BYTES then
          Err (ToolErr.ParametersTooLarge (tool self) bytes AGENT_TOOL_PARAMETERS_MAX_BYTES)
        else Ok tt
    | None => Ok tt
    end.

Definition new (tool : AgentToolId.t) (kind : ToolKind.t) (description : string)
    (input_schema output_schema : AgentSchemaRef.t) : AgentToolResult t :=
  let descriptor :=
    mk tool AgentRevisionNumber.INITIAL kind description input_schema output_schema None
      AgentToolResultBehavior.InlineBounded in
  let? _ := validate descriptor in Ok descriptor.

Definition with_parameters (self : t) (parameters' : Json.t) : AgentToolResult t :=
  let descriptor :=
    mk (tool self) (version self) (kind self) (description self) (input_schema self) (output_schema self)
      (Some parameters') (result_behavior self) in
  let? _ := validate descriptor in Ok descriptor.
End Codec.

Definition with_version (self : t) (version' : AgentRevisionNumber.t) : t :=
  mk (tool self) version' (kind self) (description self) (input_schema self) (output_schema self)
    (parameters self) (result_behavior self).
Definition with_result_behavior (self : t) (behavior : AgentToolResultBehavior.t) : t :=
  mk (tool self) (version self) (kind self) (description self) (input_schema self) (output_schema self)
    (parameters self) behavior.

(** [descriptor_value] is [serde]'s encoding; a failure digests as null. *)
Definition schema_digest (display : Json.t → string) (descriptor_value : t → result string Json.t) (self : t) :
    AgentContentDigest.t :=
  ContentDigest.of_json display (match descriptor_value self with Ok value => value | Err _ => Json.Null end).
End AgentToolDescriptor.
Module Descriptor := AgentToolDescriptor.

(** ** Bindings *)

Module AgentEnvironmentConcurrencyProtocol.
Inductive t := ExternalIdempotencyKey | Lease | CompareAndSwap | Reservation | Transaction | Reconciliation.
#[global] Instance eq_dec : EqDecision t.
Proof. solve_decision. Defined.
Definition as_label (self : t) : string :=
  match self with
  | ExternalIdempotencyKey => "external-idempotency-key" | Lease => "lease" | CompareAndSwap => "compare-and-swap"
  | Reservation => "reservation" | Transaction => "transaction" | Reconciliation => "reconciliation"
  end.
End AgentEnvironmentConcurrencyProtocol.
Module ConcurrencyProtocol := AgentEnvironmentConcurrencyProtocol.

Module AgentToolBinding.
Record t := mk {
  descriptor : Descriptor.t;
  declaration : ToolDeclaration.t;
  max_attempts : Z;
  reconciliation_protocol : option ProtocolRef.t;
  environment_concurrency : option ConcurrencyProtocol.t;
  timeout_ms : option Z;
  guardrails : gset AgentGuardrailStageId.t;
  checkpoint_required : bool;
  authorization_required : bool;
}.

Definition new (descriptor : Descriptor.t) (declaration : ToolDeclaration.t) (max_attempts : Z) : t :=
  mk descriptor declaration max_attempts None None None ∅ false false.
Definition unclassified (descriptor : Descriptor.t) : t :=
  mk descriptor (ToolDeclaration.new SafetyClass.NonIdempotent) 1 None None None ∅ false false.
Definition with_reconciliation_protocol (self : t) (protocol : ProtocolRef.t) : t :=
  let '(mk d c m _ e t g k a) := self in mk d c m (Some protocol) e t g k a.
Definition with_environment_concurrency (self : t) (protocol : ConcurrencyProtocol.t) : t :=
  let '(mk d c m r _ t g k a) := self in mk d c m r (Some protocol) t g k a.
Definition with_timeout_ms (self : t) (timeout_ms : Z) : t :=
  let '(mk d c m r e _ g k a) := self in mk d c m r e (Some timeout_ms) g k a.
Definition with_guardrail (self : t) (stage : AgentGuardrailStageId.t) : t :=
  let '(mk d c m r e t g k a) := self in mk d c m r e t ({[stage]} ∪ g) k a.
Definition with_checkpoint_required (self : t) : t :=
  let '(mk d c m r e t g _ a) := self in mk d c m r e t g true a.
Definition with_authorization_required (self : t) : t :=
  let '(mk d c m r e t g k _) := self in mk d c m r e t g k true.

Definition effect_spec (self : t) : AgentEffectResult EffectSpec.t :=
  let spec :=
    EffectSpec.mk (ToolDeclaration.safety (declaration self)) (max_attempts self) (reconciliation_protocol self)
      (ToolDeclaration.credential_binding (declaration self)) (timeout_ms self)
      (ToolDeclaration.execution_policy (declaration self)) None (checkpoint_required self)
      (authorization_required self) in
  let? _ := EffectSpec.validate spec in Ok spec.

Definition validate (to_vec_len : Json.t → result string nat) (self : t) : AgentToolResult unit :=
  let? _ := Descriptor.validate to_vec_len (descriptor self) in
  let? _ := map_err (fun error => ToolErr.Policy (inr error)) (effect_spec self) in Ok tt.
End AgentToolBinding.
Module ToolBinding := AgentToolBinding.

(** ** The registry *)

Module AgentToolRegistry.
Record t := mk { tools : gmap AgentToolId.t ToolBinding.t }.
Definition new : t := mk ∅.

Definition register (to_vec_len : Json.t → result string nat) (self : t) (binding : ToolBinding.t) : AgentToolResult t :=
  let? _ := ToolBinding.validate to_vec_len binding in
  let tool := Descriptor.tool (ToolBinding.descriptor binding) in
  let declaration := ToolBinding.declaration binding in
  let no_environments := bool_decide (ToolDeclaration.environments declaration = ∅) in
  let mutating_environment :=
    negb no_environments && bool_decide (ToolDeclaration.safety declaration ≠ SafetyClass.ReadOnly) in
  let concurrency := ToolBinding.environment_concurrency binding in
  if mutating_environment && bool_decide (concurrency = None) then Err (ToolErr.EnvironmentConcurrencyMissing tool)
  else if bool_decide (concurrency ≠ None) && no_environments then Err (ToolErr.EnvironmentConcurrencyUnexpected tool)
  else if bool_decide (concurrency = Some ConcurrencyProtocol.Reconciliation) &&
          bool_decide (ToolDeclaration.safety declaration ≠ SafetyClass.Reconcileable) then
    Err (ToolErr.Policy (inl
      ("the tool " +:+ AgentToolId.as_str tool +:+ " declares reconciliation as its environment concurrency, " +:+
       "which requires the reconcileable safety class")))
  else if bool_decide (Descriptor.kind (ToolBinding.descriptor binding) = ToolKind.Environment) && no_environments then
    Err (ToolErr.EnvironmentRefMissing tool)
  else if bool_decide (is_Some (tools self !! tool)) then Err (ToolErr.DuplicateTool tool)
  else if (AGENT_TOOL_REGISTRY_MAX_TOOLS <=? size (tools self))%nat then
    Err (ToolErr.RegistryFull AGENT_TOOL_REGISTRY_MAX_TOOLS)
  else Ok (mk (<[tool := binding]> (tools self))).

Definition binding (self : t) (tool : AgentToolId.t) : option ToolBinding.t := tools self !! tool.
Definition len (self : t) : nat := size (tools self).

(** The loop over the bindings. *)
Fixpoint project_specs (policies : Policies.t) (entries : list (AgentToolId.t * ToolBinding.t)) :
    AgentEffectResult Policies.t :=
  match entries with
  | [] => Ok policies
  | (tool, binding) :: entries =>
      let? spec := ToolBinding.effect_spec binding in
      let? policies := Policies.with_tool_spec policies tool spec in
      project_specs policies entries
  end.

Definition effect_policies (self : t) : AgentEffectResult Policies.t :=
  project_specs Policies.new (btree_entries (tools self)).

Definition tool_declarations (self : t) : gmap AgentToolId.t ToolDeclaration.t := ToolBinding.declaration <$> tools self.

Definition model_visible (self : t) (envelope : AuthEnvelope.t) (settings : Settings.t) : list Descriptor.t :=
  (ToolBinding.descriptor ∘ snd) <$>
    filter (fun entry : AgentToolId.t * ToolBinding.t =>
              is_Some (AuthEnvelope.tools envelope !! entry.1) ∧ entry.1 ∉ Settings.revoked_tools settings)
      (btree_entries (tools self)).
End AgentToolRegistry.
Module ToolRegistry := AgentToolRegistry.

(** ** Model profiles *)

Module AgentModelProviderKind.
Inductive t :=
| Anthropic | OpenAiResponses | OpenAiCompletions | AzureOpenAi | Gemini | Ollama | OpenRouter | Custom (label : string).
Definition as_label (self : t) : string :=
  match self with
  | Anthropic => "anthropic" | OpenAiResponses => "openai-responses" | OpenAiCompletions => "openai-completions"
  | AzureOpenAi => "azure-openai" | Gemini => "gemini" | Ollama => "ollama" | OpenRouter => "openrouter"
  | Custom label => label
  end.
End AgentModelProviderKind.

Module AgentModelCapabilities.
Record t := mk { tool_calls : bool }.
End AgentModelCapabilities.

Module AgentModelProfile.
Record t := mk {
  profile_id : AgentModelProfileId.t;
  revision : AgentRevisionNumber.t;
  provider : AgentModelProviderKind.t;
  model : string;
  base_url : option string;
  credential_binding : option AgentCredentialBindingRef.t;
  default_sampling : Sampling.t;
  capabilities : AgentModelCapabilities.t;
  attributes : gmap string string;
}.
Definition digest (display : Json.t → string) (profile_value : t → result string Json.t) (self : t) :
    AgentContentDigest.t :=
  ContentDigest.of_json display (match profile_value self with Ok value => value | Err _ => Json.Null end).
End AgentModelProfile.
Module ModelProfile := AgentModelProfile.

(** The trait [AgentModelProfileCatalog]. *)
Definition AgentModelProfileCatalog : Type := AgentModelProfileId.t → option ModelProfile.t.
