(* ===== verification/ToolAuthority.v ===== *)
(** * The dispatch authority: [AgentToolAuthority] of [rakka-agent/src/tools.rs]

    Evaluation is pure: from the durable authority of the agent, the run's scope and the
    intent, one attempt is granted or refused, and a refusal names the first layer that failed.
    The router of execution policies and the catalog of model profiles are traits and so
    functions here; what [serde] encodes is in [ToolCodec].  The text of a refusal that prints
    an error is kept as that error. *)

From S2P Require Import Prelude AgentIdentity CompiledPlan Budget Delegation DelegationDoor FanIn Authority AgentEntity.
From S2P Require Import JsonDigest Guardrails RunEffects ToolRegistry.

Definition AGENT_DISPATCH_GRANT_DEFAULT_TTL_MS : Z := 60000.

Definition AGENT_AUTHORITY_EVALUATED_GUARDRAIL_BOUNDARIES : list Boundary.t :=
  [Boundary.ModelRequest; Boundary.ModelResponse; Boundary.ToolRequest; Boundary.ToolResponse].
Definition AGENT_MEMORY_ATTESTED_GUARDRAIL_BOUNDARIES : list Boundary.t :=
  [Boundary.ModelRequest; Boundary.ModelResponse; Boundary.ToolRequest; Boundary.ToolResponse; Boundary.MemoryIngress].
Definition AGENT_A2A_ATTESTED_GUARDRAIL_BOUNDARIES : list Boundary.t :=
  [Boundary.ModelRequest; Boundary.ModelResponse; Boundary.ToolRequest; Boundary.ToolResponse; Boundary.A2aIngress;
   Boundary.A2aEgress].
Definition AGENT_EVALUATED_GUARDRAIL_BOUNDARIES : list Boundary.t :=
  [Boundary.ModelRequest; Boundary.ModelResponse; Boundary.ToolRequest; Boundary.ToolResponse; Boundary.MemoryIngress;
   Boundary.A2aIngress; Boundary.A2aEgress].

Module ToolCodec.
Record t := mk {
  run : RunCodec.t;
  descriptor_value : Descriptor.t → result string Json.t;
  profile_value : ModelProfile.t → result string Json.t;
}.
Definition display (self : t) : Json.t → string := RunCodec.display (run self).
Definition to_vec_len (self : t) : Json.t → result string nat := RunCodec.to_vec_len (run self).
End ToolCodec.

(** ** Refusals *)

Inductive AgentModelError :=
| ToolArgumentsTooLarge (call_id : AgentToolCallId.t) (bytes maximum : nat)
| ModelEncoding (message : string).

Inductive refusal_text :=
| Text (text : string)
| FromEffectError (error : EffectErr.t)
| FromGrantError (error : GrantErr.t)
| FromGuardrailError (error : GuardErr.t)
| FromModelError (error : AgentModelError)
| FromTaskError (error : AgentTaskError)
| FromMissingAgent (scope : AgentScope.t).

Module AgentAuthorityRefusal.
Record t := mk {
  code : string;
  message : refusal_text;
  retryable : bool;
  reason : option AgentFailureReason.t;
}.
Definition of_code (code : string) (message : refusal_text) : t := mk code message false None.
Definition transient (code : string) (message : refusal_text) : t := mk code message true None.
Definition with_reason (self : t) (reason : option AgentFailureReason.t) : t :=
  mk (code self) (message self) (retryable self) reason.
End AgentAuthorityRefusal.
Module AuthRefusal := AgentAuthorityRefusal.

Abbreviation refuse code text := (Err (AuthRefusal.of_code code (Text text))).

(** One guard of the source: [if] the condition holds, refuse. *)
Definition refuse_if (condition : bool) (code text : string) : result AuthRefusal.t unit :=
  if condition then refuse code text else Ok tt.

Definition refuse_guardrail_disposition (disposition : GuardDisposition.t) (what : string) (checkpoint_satisfied : bool) :
    result AuthRefusal.t unit :=
  match disposition with
  | GuardDisposition.Allowed => Ok tt
  | GuardDisposition.Blocked stage reason_code evidence =>
      let evidence :=
        match evidence with Some artifact => " (evidence: " +:+ ArtifactRef.artifact_id artifact +:+ ")" | None => "" end in
      Err (AuthRefusal.with_reason
             (AuthRefusal.of_code "guardrail-blocked"
                (Text ("guardrail stage " +:+ AgentGuardrailStageId.as_str stage +:+ " blocked " +:+ what +:+ ": " +:+
                       reason_code +:+ evidence)))
             (Some (guardrail_reason stage reason_code)))
  | GuardDisposition.CheckpointRequired stage reason_code =>
      if checkpoint_satisfied then Ok tt
      else
        Err (AuthRefusal.with_reason
               (AuthRefusal.of_code "checkpoint-required"
                  (Text ("guardrail stage " +:+ AgentGuardrailStageId.as_str stage +:+
                         " requires a checkpoint grant, and none binds this intent: " +:+ reason_code)))
               (Some (guardrail_reason stage reason_code)))
  end.

(** [AgentToolCallRequest::new] of [model.rs]. *)
Definition tool_call_new (to_vec_len : Json.t → result string nat) (call_id : AgentToolCallId.t) (tool : AgentToolId.t)
    (arguments : Json.t) : result AgentModelError (ToolCall.t Json.t) :=
  let? bytes := map_err ModelEncoding (to_vec_len arguments) in
  if Z.of_nat bytes >? AGENT_TOOL_ARGUMENTS_MAX_BYTES then
    Err (ToolArgumentsTooLarge call_id bytes (Z.to_nat AGENT_TOOL_ARGUMENTS_MAX_BYTES))
  else Ok (ToolCall.mk call_id tool arguments).

(** ** What a decision reads and what it grants *)

Module AgentAuthorityContext.
Record t := mk {
  status : Lifecycle.t;
  definition : DefinitionRevision.t;
  settings : SettingsRevision.t;
  setup : option Setup.t;
  checkpoint_grant : option CheckpointGrant.t;
  delegation : option Envelope.t;
}.
Definition for_entity (state : AgentState.t) : t :=
  mk (AgentState.status state) (AgentState.definition state) (AgentState.settings state) None None None.
Definition with_setup (self : t) (setup : Setup.t) : t :=
  mk (status self) (definition self) (settings self) (Some setup) (checkpoint_grant self) (delegation self).
Definition with_checkpoint_grant (self : t) (grant : CheckpointGrant.t) : t :=
  mk (status self) (definition self) (settings self) (setup self) (Some grant) (delegation self).
Definition with_delegation_envelope (self : t) (envelope : Envelope.t) : t :=
  mk (status self) (definition self) (settings self) (setup self) (checkpoint_grant self) (Some envelope).
End AgentAuthorityContext.
Module AuthContext := AgentAuthorityContext.

Module AgentGrantDescriptor.
Record t := mk { tool : AgentToolId.t; version : AgentRevisionNumber.t; schema_digest : AgentContentDigest.t }.
End AgentGrantDescriptor.

Module AgentDispatchGrant.
Record t := mk {
  scope : RunScope.t;
  task : option AgentTaskId.t;
  goal : option AgentGoalId.t;
  effect_id : EffectId.t;
  generation : Generation.t;
  descriptor : option AgentGrantDescriptor.t;
  target : string;
  argument_digest : AgentContentDigest.t;
  safety_class : SafetyClass.t;
  definition_revision : AgentRevisionNumber.t;
  settings_revision : AgentRevisionNumber.t;
  setup_revision : option AgentRevisionNumber.t;
  guardrail_revision : option AgentRevisionNumber.t;
  capabilities : gset AgentCapabilityId.t;
  credential_binding : option AgentCredentialBindingRef.t;
  execution_policy : option AgentExecutionPolicyRef.t;
  model_profile_revision : option AgentRevisionNumber.t;
  model_profile_digest : option AgentContentDigest.t;
  issued_at : AgentTimestampMillis;
  expires_at : AgentTimestampMillis;
  allowed_use_count : Z;
}.

(** The assignments [authorize_model] makes to a grant. *)
Definition set_model (self : t) (credential_binding : option AgentCredentialBindingRef.t)
    (model_profile_revision : option AgentRevisionNumber.t) (model_profile_digest : option AgentContentDigest.t) : t :=
  let '(mk sc t g e n d tg a s dr sr ur gr c _ p _ _ i x u) := self in
  mk sc t g e n d tg a s dr sr ur gr c credential_binding p model_profile_revision model_profile_digest i x u.

Definition validate_for (self : t) (scope' : RunScope.t) (intent : Intent.t) (attempt : Z) (now : AgentTimestampMillis) :
    result AuthRefusal.t unit :=
  if bool_decide (scope self ≠ scope') || bool_decide (effect_id self ≠ Intent.effect_id intent) ||
     bool_decide (generation self ≠ Intent.generation intent) ||
     bool_decide (safety_class self ≠ Safety.class (Intent.safety intent)) then
    refuse "grant-intent-mismatch" "the grant does not bind the intent being dispatched"
  else if bool_decide (argument_digest self ≠ Intent.argument_digest intent) then
    refuse "argument-digest-mismatch" "the grant binds different arguments than the intent carries"
  else if now >? expires_at self then refuse "grant-expired" "the grant expired before the attempt"
  else if attempt >? allowed_use_count self then
    refuse "grant-uses-exhausted" "the grant's allowed use count is spent"
  else Ok tt.
End AgentDispatchGrant.
Module DispatchGrant := AgentDispatchGrant.

Module AgentGrantedDispatch.
Record t := mk {
  grant : DispatchGrant.t;
  tool_call : option (ToolCall.t Json.t);
  model_profile : option AgentModelProfileId.t;
  sampling : option Sampling.t;
  model_credential_binding : option AgentCredentialBindingRef.t;
  tools : list Descriptor.t;
  transforms : list GuardTransform.t;
  reports : list GuardReport.t;
  checkpoint : option CheckpointGrant.t;
}.
(** A grant that resolved nothing else. *)
Definition plain (grant : DispatchGrant.t) : t := mk grant None None None None [] [] [] None.
End AgentGrantedDispatch.
Module Granted := AgentGrantedDispatch.

(** The trait [AgentExecutionPolicyRouter]. *)
Definition AgentExecutionPolicyRouter : Type := AgentExecutionPolicyRef.t → bool.

(** ** The authority *)

Module AgentToolAuthority.
Record t := mk {
  registry : ToolRegistry.t;
  guardrails : option Chain.t;
  memory_ingress_attested : bool;
  a2a_attested : bool;
  execution_router : option AgentExecutionPolicyRouter;
  substrate_execution_policy : option AgentExecutionPolicyRef.t;
  model_profiles : option AgentModelProfileCatalog;
  grant_ttl_ms : Z;
}.

Definition new (registry : ToolRegistry.t) : t :=
  mk registry None false false None None None AGENT_DISPATCH_GRANT_DEFAULT_TTL_MS.
Definition with_registry (self : t) (registry : ToolRegistry.t) : t :=
  let '(mk _ g m a r s p l) := self in mk registry g m a r s p l.
Definition with_guardrails (self : t) (chain : Chain.t) : t :=
  let '(mk t _ _ _ r s p l) := self in mk t (Some chain) false false r s p l.
Definition with_model_profiles (self : t) (catalog : AgentModelProfileCatalog) : t :=
  let '(mk t g m a r s _ l) := self in mk t g m a r s (Some catalog) l.
Definition with_execution_router (self : t) (router : AgentExecutionPolicyRouter) : t :=
  let '(mk t g m a _ s p l) := self in mk t g m a (Some router) s p l.
Definition with_required_execution_policy (self : t) (substrate : AgentExecutionPolicyRef.t) : t :=
  let '(mk t g m a r _ p l) := self in mk t g m a r (Some substrate) p l.
Definition with_grant_ttl_ms (self : t) (ttl_ms : Z) : t :=
  let '(mk t g m a r s p _) := self in mk t g m a r s p ttl_ms.

Definition evaluated_boundaries (self : t) : list Boundary.t :=
  match memory_ingress_attested self, a2a_attested self with
  | false, false => AGENT_AUTHORITY_EVALUATED_GUARDRAIL_BOUNDARIES
  | true, false => AGENT_MEMORY_ATTESTED_GUARDRAIL_BOUNDARIES
  | false, true => AGENT_A2A_ATTESTED_GUARDRAIL_BOUNDARIES
  | true, true => AGENT_EVALUATED_GUARDRAIL_BOUNDARIES
  end.

Definition effect_policies (self : t) : AgentEffectResult Policies.t :=
  let? policies := ToolRegistry.effect_policies (registry self) in
  let policies :=
    match guardrails self with
    | Some chain => Policies.with_guardrail_revision policies (Chain.revision chain)
    | None => policies
    end in
  Ok match substrate_execution_policy self with
     | Some substrate => Policies.with_substrate_execution_policy policies substrate
     | None => policies
     end.

Section Authorize.
Context (codec : ToolCodec.t).

(** *** Attestations: the chain declared by another evaluation point, as its digest *)

Definition declared_chain (self : t) : option AgentContentDigest.t :=
  Chain.declaration_digest (ToolCodec.display codec) <$> guardrails self.

(** [installed] is what the retrieval bundle of the run memory declares, if it has one. *)
Definition with_memory_ingress (self : t) (installed : option AgentContentDigest.t) : AgentGuardrailResult t :=
  let mine := declared_chain self in
  if bool_decide (installed = None) || bool_decide (installed ≠ mine) then Err (GuardErr.ChainMismatch mine installed)
  else let '(mk t g _ a r s p l) := self in Ok (mk t g true a r s p l).
Definition attests (self : t) (installed : option AgentContentDigest.t) : bool :=
  memory_ingress_attested self && (bool_decide (is_Some installed) && bool_decide (installed = declared_chain self)).
Definition with_a2a_guardrails (self : t) (declaration : AgentContentDigest.t) : AgentGuardrailResult t :=
  let mine := declared_chain self in
  if bool_decide (mine ≠ Some declaration) then Err (GuardErr.A2aChainMismatch mine declaration)
  else let '(mk t g m _ r s p l) := self in Ok (mk t g m true r s p l).
Definition attests_a2a (self : t) (declaration : AgentContentDigest.t) : bool :=
  a2a_attested self && bool_decide (declared_chain self = Some declaration).

(** *** The checks every request shares *)

Context (self : t) (context : AuthContext.t) (scope : RunScope.t) (task : option AgentTaskId.t)
  (goal : option AgentGoalId.t) (intent : Intent.t).

Definition definition_envelope : AuthEnvelope.t := DefinitionRevision.envelope (AuthContext.definition context).
Definition current_settings : Settings.t := SettingsRevision.settings (AuthContext.settings context).

(** [if let Some(setup) = context.setup { if !holds(setup) { refuse } }]. *)
Definition check_setup (holds : AuthEnvelope.t → bool) (code text : string) : result AuthRefusal.t unit :=
  match AuthContext.setup context with
  | Some setup => refuse_if (negb (holds (Setup.envelope setup))) code text
  | None => Ok tt
  end.

Definition check_guardrail_policy : result AuthRefusal.t unit :=
  match Settings.guardrail_policy current_settings with
  | None => Ok tt
  | Some required =>
      let implemented :=
        match guardrails self with Some chain => bool_decide (Chain.policy chain = Some required) | None => false end in
      refuse_if (negb implemented) "guardrail-policy-mismatch"
        ("the current settings select the guardrail policy " +:+ AgentPolicyRef.as_str required +:+
         ", and the deployed chain does not implement it; the effect stays undispatchable rather than running under the wrong policy")
  end.

Definition check_credential (credential : AgentCredentialBindingRef.t) : result AuthRefusal.t unit :=
  let name := AgentCredentialBindingRef.as_str credential in
  let? _ := refuse_if (bool_decide (credential ∉ AuthEnvelope.credential_bindings definition_envelope))
              (Dimension.as_label Dimension.CredentialBinding)
              ("the credential binding " +:+ name +:+ " is not authorized by the definition") in
  let? _ := check_setup (fun envelope => bool_decide (credential ∈ AuthEnvelope.credential_bindings envelope))
              (Dimension.as_label Dimension.CredentialBinding)
              ("the run's setup does not select the credential binding " +:+ name) in
  refuse_if (bool_decide (credential ∈ Settings.revoked_credential_bindings current_settings)) "credential-revoked"
    ("the credential binding " +:+ name +:+ " is revoked by the current settings").

Definition check_intent_credential : result AuthRefusal.t unit :=
  match Intent.credential_binding intent with Some credential => check_credential credential | None => Ok tt end.

Definition execution_policy_required : string :=
  "this deployment routes every effect by trust class and the intent names none; it stays undispatchable rather than running with ambient authority. A tool takes its class from its registered binding's declaration; every effect Rakka itself commits takes it from AgentEffectPolicies::with_substrate_execution_policy, which AgentToolAuthority::effect_policies applies".

Definition check_execution_policy (policy : option AgentExecutionPolicyRef.t) : result AuthRefusal.t unit :=
  match policy with
  | None =>
      refuse_if (bool_decide (is_Some (substrate_execution_policy self))) "execution-policy-required"
        execution_policy_required
  | Some policy =>
      let routable := match execution_router self with Some accepts => accepts policy | None => false end in
      refuse_if (negb routable) "execution-policy-unroutable"
        ("no configured executor accepts the execution policy " +:+ AgentExecutionPolicyRef.as_str policy +:+
         "; the effect stays undispatchable rather than running with ambient authority")
  end.

Definition required_stages : gset AgentGuardrailStageId.t :=
  AuthEnvelope.mandatory_guardrails definition_envelope ∪
  match AuthContext.setup context with
  | Some setup => AuthEnvelope.mandatory_guardrails (Setup.envelope setup)
  | None => ∅
  end.

Definition check_guardrail_coverage (required : gset AgentGuardrailStageId.t) : result AuthRefusal.t unit :=
  if bool_decide (required = ∅) then Ok tt
  else
    match guardrails self with
    | None =>
        refuse "guardrail-stage-missing" "the envelope requires guardrail stages and no chain is configured"
    | Some chain =>
        map_err (fun error => AuthRefusal.of_code (GuardErr.code error) (FromGuardrailError error))
          (Chain.validate_covers chain required (evaluated_boundaries self))
    end.

Definition make_grant (descriptor : option AgentGrantDescriptor.t) (capabilities : gset AgentCapabilityId.t)
    (now : AgentTimestampMillis) : DispatchGrant.t :=
  DispatchGrant.mk scope task goal (Intent.effect_id intent) (Intent.generation intent) descriptor
    (Request.target_label (Intent.request intent)) (Intent.argument_digest intent) (Safety.class (Intent.safety intent))
    (DefinitionRevision.revision (AuthContext.definition context)) (SettingsRevision.revision (AuthContext.settings context))
    (Setup.revision <$> AuthContext.setup context) (Chain.revision <$> guardrails self) capabilities
    (Intent.credential_binding intent) (Intent.execution_policy intent) None None now
    (saturating_add_u64 now (grant_ttl_ms self)) (Intent.max_attempts intent).

(** Whether the grant the run holds binds this attempt, and why it does not. *)
Definition evaluate_checkpoint_grant (attempt : Z) (now : AgentTimestampMillis) : bool * option AuthRefusal.t :=
  match AuthContext.checkpoint_grant context with
  | None => (false, None)
  | Some grant =>
      match CheckpointGrant.validate_for (ToolCodec.run codec) grant scope intent attempt now with
      | Ok _ => (true, None)
      | Err error => (false, Some (AuthRefusal.of_code (GrantErr.code error) (FromGrantError error)))
      end
  end.

(** A gate that needs a valid grant: the reason it no longer binds, or that there is none. *)
Definition check_checkpoint (required : bool) (evaluated : bool * option AuthRefusal.t) (code text : string) :
    result AuthRefusal.t unit :=
  if required && negb evaluated.1 then Err (default (AuthRefusal.of_code code (Text text)) evaluated.2) else Ok tt.

(** *** Tools *)

Section Tool.
Context (call : ToolCall.t Json.t).
Definition tool_name : string := AgentToolId.as_str (ToolCall.tool call).

(** The deployment registered the tool, as one that is dispatched generically. *)
Definition find_binding : result AuthRefusal.t ToolBinding.t :=
  match ToolRegistry.binding (registry self) (ToolCall.tool call) with
  | None => refuse "tool-binding-missing" ("the tool " +:+ tool_name +:+ " is not registered for this deployment")
  | Some binding =>
      let kind := Descriptor.kind (ToolBinding.descriptor binding) in
      let? _ := refuse_if (bool_decide (kind = ToolKind.AgentCoordination)) "coordination-tool-not-intercepted"
                  ("the coordination tool " +:+ tool_name +:+
                   " reached generic dispatch; wire the run entity's delegation configuration so the loop intercepts it") in
      let? _ := refuse_if (bool_decide (kind = ToolKind.Workflow)) "workflow-tool-requires-interception"
                  ("the workflow tool " +:+ tool_name +:+
                   " reached generic dispatch; wire the run entity's workflow-tool configuration so the loop intercepts it") in
      Ok binding
  end.

(** The definition declares it, the setup selects it, the settings did not revoke it. *)
Definition find_declaration : result AuthRefusal.t ToolDeclaration.t :=
  let? declared :=
    ok_or (AuthRefusal.of_code (Dimension.as_label Dimension.Tool)
             (Text ("the tool " +:+ tool_name +:+ " is not declared by the definition")))
      (AuthEnvelope.tools definition_envelope !! ToolCall.tool call) in
  let? _ := check_setup (fun envelope => bool_decide (is_Some (AuthEnvelope.tools envelope !! ToolCall.tool call)))
              "setup-excludes-tool" ("the run's setup does not select the tool " +:+ tool_name) in
  let? _ := refuse_if (bool_decide (ToolCall.tool call ∈ Settings.revoked_tools current_settings)) "tool-revoked"
              ("the tool " +:+ tool_name +:+ " is revoked by the current settings") in
  Ok declared.

(** The binding stays inside the declaration. *)
Definition check_binding_fits (binding : ToolBinding.t) (declared : ToolDeclaration.t) : result AuthRefusal.t unit :=
  let bound := ToolBinding.declaration binding in
  let? _ := refuse_if (SafetyClass.strictness (ToolDeclaration.safety bound) <?
                       SafetyClass.strictness (ToolDeclaration.safety declared)) "tool-declaration-conflict"
              ("the deployment binds " +:+ tool_name +:+ " as " +:+ SafetyClass.as_label (ToolDeclaration.safety bound) +:+
               " but the definition declares " +:+ SafetyClass.as_label (ToolDeclaration.safety declared)) in
  let? _ := refuse_if (bool_decide (¬ ToolDeclaration.capabilities bound ⊆ ToolDeclaration.capabilities declared))
              (Dimension.as_label Dimension.ToolCapability)
              ("the deployment grants " +:+ tool_name +:+ " a capability the definition never declared") in
  let? _ :=
    match ToolDeclaration.credential_binding bound with
    | Some binding_credential =>
        refuse_if (bool_decide (ToolDeclaration.credential_binding declared ≠ Some binding_credential))
          (Dimension.as_label Dimension.ToolCredentialBinding)
          ("the deployment binds " +:+ tool_name +:+ " to a credential the definition never authorized")
    | None => Ok tt
    end in
  refuse_if (bool_decide (ToolDeclaration.execution_policy bound ≠ ToolDeclaration.execution_policy declared))
    (Dimension.as_label Dimension.ToolExecutionPolicy)
    ("the deployment routes " +:+ tool_name +:+ " through a policy other than the one the definition declared").

(** One declared environment: the definition, the setup and the goal allow it. *)
Definition check_environment (environment : AgentEnvironmentRef.t) : result AuthRefusal.t unit :=
  let name := AgentEnvironmentRef.as_str environment in
  let? _ := refuse_if (bool_decide (environment ∉ AuthEnvelope.environments definition_envelope))
              (Dimension.as_label Dimension.Environment)
              ("the environment " +:+ name +:+ " is not granted by the definition envelope") in
  let? _ := check_setup (fun envelope => bool_decide (environment ∈ AuthEnvelope.environments envelope))
              "setup-excludes-environment" ("the run's setup does not select the environment " +:+ name) in
  match AuthContext.delegation context with
  | Some delegation =>
      refuse_if (bool_decide (Envelope.environments delegation ≠ ∅) &&
                 bool_decide (environment ∉ Envelope.environments delegation)) "goal-environment-not-allowed"
        ("the goal's environment narrowing does not allow " +:+ name)
  | None => Ok tt
  end.

Fixpoint check_each_environment (environments : list AgentEnvironmentRef.t) : result AuthRefusal.t unit :=
  match environments with
  | [] => Ok tt
  | environment :: environments => let? _ := check_environment environment in check_each_environment environments
  end.

Definition check_environments (binding : ToolBinding.t) (declared : ToolDeclaration.t) : result AuthRefusal.t unit :=
  let bound := ToolBinding.declaration binding in
  let? _ :=
    match head (btree_elements (ToolDeclaration.environments bound ∖ ToolDeclaration.environments declared)) with
    | Some environment =>
        refuse (Dimension.as_label Dimension.Environment)
          ("the deployment binds " +:+ tool_name +:+ " to the environment " +:+ AgentEnvironmentRef.as_str environment +:+
           ", which the definition never declared for it")
    | None => Ok tt
    end in
  check_each_environment (btree_elements (ToolDeclaration.environments declared)).

(** The intent does not widen what the binding permits. *)
Definition check_intent_fits (binding : ToolBinding.t) : result AuthRefusal.t unit :=
  let bound := ToolBinding.declaration binding in
  let class := Safety.class (Intent.safety intent) in
  let? _ := refuse_if (SafetyClass.strictness class <? SafetyClass.strictness (ToolDeclaration.safety bound))
              (Dimension.as_label Dimension.EffectSafety)
              ("the intent claims " +:+ SafetyClass.as_label class +:+ " but the binding declares " +:+
               SafetyClass.as_label (ToolDeclaration.safety bound)) in
  let? _ := refuse_if (Intent.max_attempts intent >? ToolBinding.max_attempts binding) "tool-policy-conflict"
              ("the intent permits " +:+ pretty (Intent.max_attempts intent) +:+ " attempts but the binding permits " +:+
               pretty (ToolBinding.max_attempts binding)) in
  let? _ := refuse_if (bool_decide (Intent.credential_binding intent ≠ ToolDeclaration.credential_binding bound))
              (if bool_decide (is_Some (Intent.credential_binding intent)) then
                 Dimension.as_label Dimension.ToolCredentialBinding
               else "tool-policy-conflict")
              ("the intent's credential binding does not match the binding of " +:+ tool_name) in
  let? _ := refuse_if (bool_decide (Intent.execution_policy intent ≠ ToolDeclaration.execution_policy bound))
              (Dimension.as_label Dimension.ToolExecutionPolicy)
              ("the intent's execution policy does not match the binding of " +:+ tool_name) in
  let? _ := refuse_if (bool_decide (Safety.reconciliation_protocol (Intent.safety intent) ≠
                                    ToolBinding.reconciliation_protocol binding)) "tool-policy-conflict"
              ("the intent's reconciliation protocol does not match the binding of " +:+ tool_name) in
  match ToolBinding.timeout_ms binding with
  | Some bound =>
      refuse_if (match Intent.timeout_ms intent with None => true | Some timeout => timeout >? bound end)
        "tool-policy-conflict"
        ("the intent's per-attempt timeout does not honor the " +:+ pretty bound +:+ " ms bound the binding of " +:+
         tool_name +:+ " declares")
  | None => Ok tt
  end.

(** The grant the run holds satisfies what the binding asks for. *)
Definition check_tool_checkpoints (binding : ToolBinding.t) (evaluated : bool * option AuthRefusal.t) :
    result AuthRefusal.t unit :=
  let? _ := check_checkpoint (ToolBinding.checkpoint_required binding) evaluated "checkpoint-required"
              ("the tool " +:+ tool_name +:+ " requires an effect-bound checkpoint grant, and none exists") in
  if ToolBinding.authorization_required binding then
    let? _ := check_checkpoint true evaluated "authorization-required"
                ("the tool " +:+ tool_name +:+ " requires a security-authorization grant, and none exists") in
    let authorized :=
      match AuthContext.checkpoint_grant context with
      | Some grant => bool_decide (CheckpointGrant.kind grant = CheckpointKind.SecurityAuthorization)
      | None => false
      end in
    refuse_if (negb authorized) "authorization-required"
      ("the tool " +:+ tool_name +:+
       " requires a security-authorization grant, but the grant it holds was issued by an approval checkpoint")
  else Ok tt.

Definition tool_guard_context : GuardContext.t :=
  GuardContext.with_tool (GuardContext.new Boundary.ToolRequest scope) (ToolCall.tool call).

(** The transformed call, the transforms and the reports of the tool-request boundary. *)
Definition guard_tool_request (checkpoint_satisfied : bool) :
    result AuthRefusal.t (option (ToolCall.t Json.t) * list GuardTransform.t * list GuardReport.t) :=
  match guardrails self with
  | None => Ok (None, [], [])
  | Some chain =>
      let decision :=
        Chain.evaluate_bounded (ToolCodec.to_vec_len codec) chain tool_guard_context (ToolCall.arguments call)
          AGENT_TOOL_ARGUMENTS_MAX_BYTES in
      let? _ := refuse_guardrail_disposition (GuardDecision.disposition decision) "the call" checkpoint_satisfied in
      let? tool_call :=
        if GuardDecision.transformed decision then
          let? transformed :=
            map_err (fun error => AuthRefusal.of_code "guardrail-transform-invalid" (FromModelError error))
              (tool_call_new (ToolCodec.to_vec_len codec) (ToolCall.call_id call) (ToolCall.tool call)
                 (GuardDecision.content decision)) in
          Ok (Some transformed)
        else Ok None in
      Ok (tool_call, GuardDecision.transforms decision, GuardDecision.reports decision)
  end.

Definition grant_descriptor (descriptor : Descriptor.t) : AgentGrantDescriptor.t :=
  AgentGrantDescriptor.mk (Descriptor.tool descriptor) (Descriptor.version descriptor)
    (Descriptor.schema_digest (ToolCodec.display codec) (ToolCodec.descriptor_value codec) descriptor).

Definition authorize_tool (attempt : Z) (now : AgentTimestampMillis) : result AuthRefusal.t Granted.t :=
  let? binding := find_binding in
  let? declared := find_declaration in
  let? _ := check_binding_fits binding declared in
  let? _ := check_environments binding declared in
  let? _ := check_intent_fits binding in
  let? _ := check_intent_credential in
  let? _ := check_execution_policy (Intent.execution_policy intent) in
  let evaluated := evaluate_checkpoint_grant attempt now in
  let? _ := check_tool_checkpoints binding evaluated in
  let? _ := check_guardrail_coverage (required_stages ∪ ToolBinding.guardrails binding) in
  let? guarded := guard_tool_request evaluated.1 in
  let '(tool_call, transforms, reports) := guarded in
  Ok (Granted.mk
        (make_grant (Some (grant_descriptor (ToolBinding.descriptor binding)))
           (ToolDeclaration.capabilities (ToolBinding.declaration binding)) now)
        tool_call None None None [] transforms reports None).
End Tool.

(** *** Models *)

Definition check_profile (profile : option AgentModelProfileId.t) (refused excluded : string) : result AuthRefusal.t unit :=
  match profile with
  | Some profile =>
      let name := AgentModelProfileId.as_str profile in
      let? _ := refuse_if (bool_decide (profile ∉ AuthEnvelope.model_profiles definition_envelope))
                  (Dimension.as_label Dimension.ModelProfile) (refused +:+ name +:+ " is not approved by the definition") in
      check_setup (fun envelope => bool_decide (profile ∈ AuthEnvelope.model_profiles envelope))
        (Dimension.as_label Dimension.ModelProfile) (excluded +:+ name)
  | None => Ok tt
  end.

(** The record of the selected profile, with its credential checked. *)
Definition resolve_profile (profile : option AgentModelProfileId.t) :
    result AuthRefusal.t (option ModelProfile.t) :=
  match model_profiles self, profile with
  | Some catalog, Some profile_id =>
      match catalog profile_id with
      | None =>
          refuse "model-profile-unknown"
            ("the deployment's model profile catalog knows no profile " +:+ AgentModelProfileId.as_str profile_id)
      | Some record =>
          let? _ :=
            match ModelProfile.credential_binding record with Some binding => check_credential binding | None => Ok tt end in
          Ok (Some record)
      end
  | _, _ => Ok None
  end.

Definition check_model_timeout (model_credential_binding : option AgentCredentialBindingRef.t) : result AuthRefusal.t unit :=
  match Intent.timeout_ms intent with
  | Some _ => Ok tt
  | None =>
      match (match Intent.credential_binding intent with Some binding => Some binding | None => model_credential_binding end) with
      | Some binding =>
          refuse "model-timeout-unset"
            ("the model call resolves the credential binding " +:+ AgentCredentialBindingRef.as_str binding +:+
             " and its effect spec carries no timeout_ms; a resolver's only deadline input is the effect's own timeout")
      | None => Ok tt
      end
  end.

(** The model-request boundary evaluates a descriptor of the call. *)
Definition model_call_content (profile : option AgentModelProfileId.t) : Json.t :=
  Json.Object [("kind", Json.String "model-call"); ("profile", Json.of_option (AgentModelProfileId.as_str <$> profile));
               ("turn", Json.of_Z (Intent.turn intent))].

Definition guard_model_request (profile : option AgentModelProfileId.t) (checkpoint_satisfied : bool) :
    result AuthRefusal.t (list GuardReport.t) :=
  match guardrails self with
  | None => Ok []
  | Some chain =>
      let decision :=
        Chain.evaluate (ToolCodec.to_vec_len codec) chain (GuardContext.new Boundary.ModelRequest scope)
          (model_call_content profile) in
      let? _ := refuse_guardrail_disposition (GuardDecision.disposition decision) "the model call" checkpoint_satisfied in
      let? _ := refuse_if (GuardDecision.transformed decision) "guardrail-transform-unsupported"
                  "a guardrail transform at the model-request boundary cannot be applied until context snapshots carry content; the stage must block or require a checkpoint instead" in
      Ok (GuardDecision.reports decision)
  end.

Definition visible_tools : list Descriptor.t :=
  let tools := ToolRegistry.model_visible (registry self) definition_envelope current_settings in
  match AuthContext.setup context with
  | Some setup =>
      filter (fun descriptor => is_Some (AuthEnvelope.tools (Setup.envelope setup) !! Descriptor.tool descriptor)) tools
  | None => tools
  end.

Definition selected_profile (requested : option AgentModelProfileId.t) : option AgentModelProfileId.t :=
  match Settings.model_profile current_settings with Some profile => Some profile | None => requested end.

Definition authorize_model (requested : option AgentModelProfileId.t) (attempt : Z) (now : AgentTimestampMillis) :
    result AuthRefusal.t Granted.t :=
  let profile := selected_profile requested in
  let? _ := check_profile profile "the model profile " "the run's setup does not select the model profile " in
  let? record := resolve_profile profile in
  let model_credential_binding := record ≫= ModelProfile.credential_binding in
  let? _ := check_intent_credential in
  let? _ := check_model_timeout model_credential_binding in
  let? _ := check_execution_policy (Intent.execution_policy intent) in
  let? _ := check_guardrail_coverage required_stages in
  let? reports := guard_model_request profile (evaluate_checkpoint_grant attempt now).1 in
  let grant := make_grant None ∅ now in
  Ok (Granted.mk
        (DispatchGrant.set_model grant
           (match DispatchGrant.credential_binding grant with Some binding => Some binding | None => model_credential_binding end)
           (ModelProfile.revision <$> record)
           (ModelProfile.digest (ToolCodec.display codec) (ToolCodec.profile_value codec) <$> record))
        None profile (Some (Settings.sampling current_settings)) model_credential_binding visible_tools [] reports None).

(** *** The other requests *)

(** Compensations, promotions, sends and cancellations: the immediate-safety layer only. *)
Definition authorize_plain (capabilities : gset AgentCapabilityId.t) (now : AgentTimestampMillis) :
    result AuthRefusal.t Granted.t :=
  let? _ := check_intent_credential in
  let? _ := check_execution_policy (Intent.execution_policy intent) in
  Ok (Granted.plain (make_grant None capabilities now)).

Definition authorize_compensation (now : AgentTimestampMillis) : result AuthRefusal.t Granted.t := authorize_plain ∅ now.
Definition authorize_memory_promotion (now : AgentTimestampMillis) : result AuthRefusal.t Granted.t := authorize_plain ∅ now.
Definition authorize_a2a_send (now : AgentTimestampMillis) : result AuthRefusal.t Granted.t := authorize_plain ∅ now.
Definition authorize_workflow_cancel (invocation : InvocationRecord.t Json.t) (now : AgentTimestampMillis) :
    result AuthRefusal.t Granted.t := authorize_plain (InvocationRecord.required_capabilities invocation) now.

Definition authorize_a2a_handoff (now : AgentTimestampMillis) : result AuthRefusal.t Granted.t :=
  let? _ := refuse_if (bool_decide (CapabilityKind.Handoff ∉ AuthEnvelope.coordination_capabilities definition_envelope))
              (Dimension.as_label Dimension.CoordinationCapability)
              "the definition does not declare the handoff coordination capability" in
  let? _ := check_setup (fun envelope => bool_decide (CapabilityKind.Handoff ∈ AuthEnvelope.coordination_capabilities envelope))
              (Dimension.as_label Dimension.CoordinationCapability)
              "the run's setup does not select the handoff coordination capability" in
  authorize_plain ∅ now.

Definition authorize_workflow_start (invocation : InvocationRecord.t Json.t) (now : AgentTimestampMillis) :
    result AuthRefusal.t Granted.t :=
  let workflow := InvocationRecord.workflow_tool invocation in
  let name := AgentWorkflowToolId.as_str workflow in
  let? _ := refuse_if (bool_decide (workflow ∉ AuthEnvelope.workflow_tools definition_envelope))
              (Dimension.as_label Dimension.WorkflowTool)
              ("the workflow tool " +:+ name +:+ " is not declared by the definition") in
  let? _ := check_setup (fun envelope => bool_decide (workflow ∈ AuthEnvelope.workflow_tools envelope))
              (Dimension.as_label Dimension.WorkflowTool)
              ("the run's setup does not select the workflow tool " +:+ name) in
  authorize_plain (InvocationRecord.required_capabilities invocation) now.

Definition authorize_claim_append (append : AgentClaimAppendRequest.t) (now : AgentTimestampMillis) :
    result AuthRefusal.t Granted.t :=
  let space := AgentClaimAppendRequest.space append in
  let name := KnowledgeSpaceId.as_str space in
  let? _ := refuse_if (bool_decide (space ∉ AuthEnvelope.knowledge_spaces definition_envelope))
              (Dimension.as_label Dimension.KnowledgeSpace)
              ("the knowledge space " +:+ name +:+ " is not granted by the definition envelope") in
  let? _ := check_setup (fun envelope => bool_decide (space ∈ AuthEnvelope.knowledge_spaces envelope))
              "setup-excludes-knowledge-space" ("the run's setup does not select the knowledge space " +:+ name) in
  let? _ :=
    match AuthContext.delegation context with
    | Some delegation =>
        let granted :=
          match Envelope.knowledge_spaces delegation with
          | Some granted => bool_decide (space ∈ granted)
          | None => bool_decide (Envelope.lineage delegation = [])
          end in
        refuse_if (negb granted) "claim-space-not-delegated"
          ("the communal space " +:+ name +:+ " is not delegated to this run")
    | None => Ok tt
    end in
  authorize_plain ∅ now.

Definition authorize_goal_evaluation (evaluation : AgentGoalEvaluationRequest.t) (attempt : Z) (now : AgentTimestampMillis) :
    result AuthRefusal.t Granted.t :=
  let profile :=
    match AgentGoalEvaluationRequest.method evaluation with
    | AgentGoalEvaluationMethod.EvaluatorModel profile => profile
    | _ => None
    end in
  let? _ := check_profile profile "the evaluator model profile "
              "the run's setup does not select the evaluator model profile " in
  let? _ := check_intent_credential in
  let? _ := check_execution_policy (Intent.execution_policy intent) in
  let evaluated := evaluate_checkpoint_grant attempt now in
  let? _ := check_checkpoint (Intent.checkpoint_required intent) evaluated "checkpoint-required"
              "the goal evaluation requires an effect-bound checkpoint grant, and none exists" in
  Ok (Granted.mk (make_grant None ∅ now) None profile None None [] [] []
        (if evaluated.1 then AuthContext.checkpoint_grant context else None)).

(** *** One attempt *)

(** What is checked whatever is requested. *)
Definition check_preamble : result AuthRefusal.t unit :=
  if Lifecycle.is_terminal (AuthContext.status context) then
    refuse "agent-terminated" "the agent is terminated and dispatches nothing"
  else if negb (Lifecycle.permits_dispatch (AuthContext.status context)) then
    Err (AuthRefusal.transient "agent-dispatch-suspended"
           (Text "the agent is suspended; no further effect may be dispatched until it resumes"))
  else
    let? _ := check_guardrail_policy in
    let? recomputed :=
      map_err (fun error => AuthRefusal.of_code "argument-digest-mismatch" (FromEffectError error))
        (RequestDigest.argument_digest (ToolCodec.run codec) (Intent.request intent)) in
    refuse_if (bool_decide (recomputed ≠ Intent.argument_digest intent)) "argument-digest-mismatch"
      "the intent's recorded argument digest does not match its arguments".

Definition authorize (attempt : Z) (now : AgentTimestampMillis) : result AuthRefusal.t Granted.t :=
  let? _ := check_preamble in
  match Intent.request intent with
  | Request.Tool call => authorize_tool call attempt now
  | Request.Model _ profile => authorize_model profile attempt now
  | Request.Compensation _ _ _ => authorize_compensation now
  | Request.MemoryPromotion _ => authorize_memory_promotion now
  | Request.Evaluation evaluation => authorize_goal_evaluation evaluation attempt now
  | Request.A2aSend _ => authorize_a2a_send now
  | Request.A2aHandoff _ => authorize_a2a_handoff now
  | Request.WorkflowStart invocation => authorize_workflow_start invocation now
  | Request.WorkflowCancel invocation _ => authorize_workflow_cancel invocation now
  | Request.ClaimAppend append _ => authorize_claim_append append now
  end.
End Authorize.
End AgentToolAuthority.
Module ToolAuthority := AgentToolAuthority.

(** ** Review of a tool's result *)

Module AgentToolResponseReview.
Record t := mk {
  content : AgentTaskContent.t Json.t;
  transformed : bool;
  transforms : list GuardTransform.t;
  reports : list GuardReport.t;
}.
Definition unchanged (content : AgentTaskContent.t Json.t) : t := mk content false [] [].
End AgentToolResponseReview.
Module ToolReview := AgentToolResponseReview.

(** What the chain evaluates of a result: the inline value, or the artifact reference. *)
Definition reviewed_value (codec : ToolCodec.t) (content : AgentTaskContent.t Json.t) : result AuthRefusal.t Json.t :=
  match content with
  | AgentTaskContent.Inline value => Ok value
  | AgentTaskContent.Artifact artifact =>
      map_err (fun error => AuthRefusal.of_code "guardrail-content-unencodable"
                 (Text ("the tool result's artifact reference does not encode: " +:+ error)))
        (RunCodec.artifact_value (ToolCodec.run codec) artifact)
  end.

Definition review_tool_response (codec : ToolCodec.t) (self : ToolAuthority.t) (scope : RunScope.t)
    (tool : option AgentToolId.t) (content : AgentTaskContent.t Json.t) : result AuthRefusal.t ToolReview.t :=
  match ToolAuthority.guardrails self with
  | None => Ok (ToolReview.unchanged content)
  | Some chain =>
      let? value := reviewed_value codec content in
      let guard_context := GuardContext.new Boundary.ToolResponse scope in
      let guard_context := match tool with Some tool => GuardContext.with_tool guard_context tool | None => guard_context end in
      let decision :=
        Chain.evaluate_bounded (ToolCodec.to_vec_len codec) chain guard_context value AGENT_TOOL_RESULT_MAX_BYTES in
      let? _ := refuse_guardrail_disposition (GuardDecision.disposition decision) "the tool response" false in
      if GuardDecision.transformed decision then
        let? _ := refuse_if (match content with AgentTaskContent.Inline _ => false | AgentTaskContent.Artifact _ => true end) "guardrail-transform-unsupported"
                    "a guardrail stage transformed a tool result held behind an artifact reference; a reference cannot be rewritten into inline content" in
        let? content :=
          map_err (fun error => AuthRefusal.of_code "guardrail-transform-invalid" (FromTaskError error))
            (AgentTaskContent.inline (ToolCodec.to_vec_len codec) (GuardDecision.content decision)) in
        Ok (ToolReview.mk content true (GuardDecision.transforms decision) (GuardDecision.reports decision))
      else Ok (ToolReview.mk content false (GuardDecision.transforms decision) (GuardDecision.reports decision))
  end.
