(* ===== verification/DispatchGate.v ===== *)
(** * The gate of one dispatch attempt: [rakka-agent/src/dispatch.rs]

    Before an attempt's durable [Started] is written, the authority is consulted against the
    agent's durable record, its grant is checked against the intent, and the guardrail chain
    it evaluated against the revision the intent pins.  An attempt that does not pass is
    settled: deferred, refused, or parked when an earlier attempt may have run. *)

From S2P Require Import Prelude Identity Persistence DurableState AgentIdentity AgentSchema CompiledPlan Budget.
From S2P Require Import Delegation DelegationDoor FanIn Authority Admission AgentEntity JsonDigest Guardrails RunEffects.
From S2P Require Import ToolRegistry ToolAuthority.

(** What the authority reads of the durable state of a run. *)
Module RunAuthority.
Record t := mk {
  checkpoint_grants : list CheckpointGrant.t;
  delegation_envelope : option Envelope.t;
  task : option AgentTaskId.t;
  goal : option AgentGoalId.t;
}.
End RunAuthority.

(** The trait [AgentRunSetupResolver], and the resolver of a single run. *)
Definition AgentRunSetupResolver : Type := RunScope.t → option Setup.t.
Definition single_run_setup (run : RunScope.t) (setup : Setup.t) : AgentRunSetupResolver :=
  fun scope => if bool_decide (scope = run) then Some setup else None.

Module AgentDispatchError.
Inductive t :=
| Identity (error : AgentIdentityError)
| Collaborator (code : string) (message : EntityErr.t).
End AgentDispatchError.
Module DispatchErr := AgentDispatchError.

Definition agent_state_error (error : EntityErr.t) : DispatchErr.t :=
  DispatchErr.Collaborator (EntityErr.code error) error.

Module AgentDispatchDecision.
Inductive t := Granted_ (granted : Granted.t) | Refused (refusal : AuthRefusal.t).
End AgentDispatchDecision.
Module DispatchDecision := AgentDispatchDecision.

Module AgentEntityAuthority.
Record t := mk {
  authority : ToolAuthority.t;
  schema_policy : AgentSchemaPolicy.t;
  setups : option AgentRunSetupResolver;
}.
Definition new (authority : ToolAuthority.t) : t := mk authority AgentSchemaPolicy.n_plus_one None.
Definition with_schema_policy (self : t) (policy : AgentSchemaPolicy.t) : t := mk (authority self) policy (setups self).
Definition with_setup_resolver (self : t) (setups : AgentRunSetupResolver) : t :=
  mk (authority self) (schema_policy self) (Some setups).
Definition with_setup_for_run (self : t) (scope : RunScope.t) (setup : Setup.t) : t :=
  with_setup_resolver self (single_run_setup scope setup).

(** The context of a decision about [intent] of the run [scope]. *)
Definition context_for (self : t) (scope : RunScope.t) (run : RunAuthority.t) (intent : Intent.t) (state : AgentState.t) :
    AuthContext.t :=
  let context := AuthContext.for_entity state in
  let context :=
    match setups self ≫= (fun setup_for => setup_for scope) with
    | Some setup => AuthContext.with_setup context setup
    | None => context
    end in
  let context :=
    match grant_for (RunAuthority.checkpoint_grants run) intent with
    | Some grant => AuthContext.with_checkpoint_grant context grant
    | None => context
    end in
  match RunAuthority.delegation_envelope run with
  | Some envelope => AuthContext.with_delegation_envelope context envelope
  | None => context
  end.

(** The decision once the record of the agent is read. *)
Definition decide_on (codec : ToolCodec.t) (self : t) (agent_scope : AgentScope.t) (scope : RunScope.t)
    (run : RunAuthority.t) (intent : Intent.t) (attempt : Z) (now : AgentTimestampMillis) (state : option AgentState.t) :
    DispatchDecision.t :=
  match state with
  | None => DispatchDecision.Refused (AuthRefusal.of_code "agent-state-missing" (FromMissingAgent agent_scope))
  | Some state =>
      match
        ToolAuthority.authorize codec (authority self) (context_for self scope run intent state) scope
          (RunAuthority.task run) (RunAuthority.goal run) intent attempt now
      with
      | Ok granted => DispatchDecision.Granted_ granted
      | Err refusal => DispatchDecision.Refused refusal
      end
  end.

Definition authorize {C R} (codec : ToolCodec.t) (self : t) (scope : RunScope.t) (run : RunAuthority.t) (intent : Intent.t)
    (attempt : Z) (now : AgentTimestampMillis) : program AgentState.t C R (result DispatchErr.t DispatchDecision.t) :=
  match AgentScope.new (RunScope.tenant scope) (RunScope.agent scope) with
  | Err error => Done (Err (DispatchErr.Identity error))
  | Ok agent_scope =>
      program_bind (load_agent_entity_state agent_scope (schema_policy self)) (fun loaded =>
        Done (let? state := map_err agent_state_error loaded in
              Ok (decide_on codec self agent_scope scope run intent attempt now state)))
  end.
End AgentEntityAuthority.
Module EntityAuthority := AgentEntityAuthority.

(** ** Settlement of an attempt that may not start *)

Inductive settlement :=
| Deferred (code : string) (message : refusal_text)
| ParkedIndeterminate (code : string) (refused : refusal_text)
| Undispatchable (refusal : AuthRefusal.t).

Definition settle_undispatchable (refusal : AuthRefusal.t) (possibly_executed : bool) : settlement :=
  if possibly_executed then ParkedIndeterminate (AuthRefusal.code refusal) (AuthRefusal.message refusal)
  else Undispatchable refusal.

Definition settle_refusal (refusal : AuthRefusal.t) (possibly_executed : bool) : settlement :=
  if AuthRefusal.retryable refusal then Deferred (AuthRefusal.code refusal) (AuthRefusal.message refusal)
  else settle_undispatchable refusal possibly_executed.

(** ** The gate *)

Module AgentModelRetryPolicy.
Record t := mk { safety_class : SafetyClass.t; max_attempts : Z }.
End AgentModelRetryPolicy.
Module ModelRetry := AgentModelRetryPolicy.

Definition possibly_executed (intent : Intent.t) (attempt : Z) : bool :=
  bool_decide (Safety.class (Intent.safety intent) = SafetyClass.Idempotent) && (attempt >? 1).

(** The adapter's declared retry policy bounds a model call. *)
Definition check_model_policy (declared : ModelRetry.t) (intent : Intent.t) : result AuthRefusal.t unit :=
  match Intent.request intent with
  | Request.Model _ _ =>
      let class := Safety.class (Intent.safety intent) in
      refuse_if ((SafetyClass.strictness class <? SafetyClass.strictness (ModelRetry.safety_class declared)) ||
                 (Intent.max_attempts intent >? ModelRetry.max_attempts declared)) "model-policy-conflict"
        ("the effect's policy (" +:+ SafetyClass.as_label class +:+ " class, " +:+ pretty (Intent.max_attempts intent) +:+
         " attempts) is weaker than the adapter's declaration (" +:+ SafetyClass.as_label (ModelRetry.safety_class declared) +:+
         " class, " +:+ pretty (ModelRetry.max_attempts declared) +:+ " attempts)")
  | _ => Ok tt
  end.

Definition pin_text (pinned current : option AgentRevisionNumber.t) : string :=
  match pinned, current with
  | None, _ =>
      "the intent pins no guardrail chain revision while the deployment evaluates one; commit intents through the chain-pinned policies of AgentToolAuthority::effect_policies"
  | Some pinned, Some current =>
      "the intent was committed under guardrail chain revision " +:+ pretty (AgentRevisionNumber.get pinned) +:+
      " and the deployment now evaluates revision " +:+ pretty (AgentRevisionNumber.get current) +:+
      "; the executed payload could differ across attempts of one generation"
  | Some pinned, None =>
      "the intent was committed under guardrail chain revision " +:+ pretty (AgentRevisionNumber.get pinned) +:+
      " and the deployment no longer evaluates a chain"
  end.

(** The chain that was evaluated is the one the intent pins, where that decides the payload. *)
Definition check_guardrail_pin (intent : Intent.t) (attempt : Z) (granted : Granted.t) : result AuthRefusal.t unit :=
  let pinned := Intent.guardrail_revision intent in
  let current := DispatchGrant.guardrail_revision (Granted.grant granted) in
  refuse_if (match Intent.request intent with Request.Tool _ => true | _ => false end &&
             (bool_decide (is_Some (Granted.tool_call granted)) || (attempt >? 1)) && bool_decide (pinned ≠ current))
    "guardrail-revision-mismatch" (pin_text pinned current).

(** What the decision leads to. *)
Definition gate (scope : RunScope.t) (intent : Intent.t) (attempt : Z) (now : AgentTimestampMillis)
    (decision : DispatchDecision.t) : settlement + Granted.t :=
  let settle refusal := inl (settle_refusal refusal (possibly_executed intent attempt)) in
  match decision with
  | DispatchDecision.Refused refusal => settle refusal
  | DispatchDecision.Granted_ granted =>
      match DispatchGrant.validate_for (Granted.grant granted) scope intent attempt now with
      | Err refusal => settle refusal
      | Ok _ =>
          match check_guardrail_pin intent attempt granted with
          | Err refusal => settle refusal
          | Ok _ => inr granted
          end
      end
  end.

(** [attempt_invocation] up to the durable [Started]. *)
Definition attempt_gate {C R} (codec : ToolCodec.t) (self : EntityAuthority.t) (declared : ModelRetry.t)
    (scope : RunScope.t) (run : RunAuthority.t) (intent : Intent.t) (attempt : Z) (now : AgentTimestampMillis) :
    program AgentState.t C R (result DispatchErr.t (settlement + Granted.t)) :=
  match check_model_policy declared intent with
  | Err refusal => Done (Ok (inl (settle_undispatchable refusal (possibly_executed intent attempt))))
  | Ok _ =>
      program_bind (EntityAuthority.authorize codec self scope run intent attempt now) (fun decided =>
        Done (let? decision := decided in Ok (gate scope intent attempt now decision)))
  end.

(** The call that is handed to the tool executor. *)
Definition executed_call (granted : Granted.t) (call : ToolCall.t Json.t) : ToolCall.t Json.t :=
  default call (Granted.tool_call granted).
