(* ===== verification/DispatchDoors.v ===== *)
(** * When a dispatch is granted

    The guards of [ToolAuthority.v] one by one, and their meaning for tool intents in terms of
    the actions of [Narrowing.v]: the check of a binding against its declaration at dispatch is
    containment of what the two permit.  Then the actions that a granted dispatch of any kind
    exercises, and that all of them are authorized. *)

From S2P Require Import Prelude AgentIdentity CompiledPlan Budget Delegation DelegationDoor FanIn Authority Narrowing.
From S2P Require Import AgentEntity JsonDigest Guardrails RunEffects ToolRegistry ToolAuthority.
Import AgentToolAuthority.

Lemma refuse_if_ok b code text x : refuse_if b code text = Ok x ↔ b = false.
Proof. unfold refuse_if. destruct b, x; naive_solver. Qed.

Lemma bind_ok {E A B} (r : result E A) (k : A → result E B) b :
  result_bind r k = Ok b ↔ ∃ a, r = Ok a ∧ k a = Ok b.
Proof. destruct r; simpl; naive_solver. Qed.

Lemma bind_unit_ok {E B} (r : result E unit) (k : unit → result E B) b :
  result_bind r k = Ok b ↔ r = Ok tt ∧ k tt = Ok b.
Proof. destruct r as [[]|]; simpl; naive_solver. Qed.

Section Doors.
Context (codec : ToolCodec.t) (self : ToolAuthority.t) (context : AuthContext.t) (scope : RunScope.t)
  (task : option AgentTaskId.t) (goal : option AgentGoalId.t) (intent : Intent.t).
Abbreviation E := (definition_envelope context).
Abbreviation settings := (current_settings context).

(** The envelope of the setup, where the run has one, permits the action. *)
Definition setup_permits (a : action) : Prop :=
  ∀ setup, AuthContext.setup context = Some setup → permitted (Setup.envelope setup) a.

Lemma check_setup_ok holds code text :
  check_setup context holds code text = Ok tt ↔
  ∀ setup, AuthContext.setup context = Some setup → holds (Setup.envelope setup) = true.
Proof.
  unfold check_setup. destruct (AuthContext.setup context) as [setup|]; [|naive_solver].
  rewrite refuse_if_ok, negb_false_iff. naive_solver.
Qed.

(** ** Credentials, routes and stages *)

Record credential_open (credential : AgentCredentialBindingRef.t) : Prop := {
  credential_held : permitted E (HoldCredential credential);
  credential_selected : setup_permits (HoldCredential credential);
  credential_valid : credential ∉ Settings.revoked_credential_bindings settings;
}.

Lemma check_credential_ok credential : check_credential context credential = Ok tt ↔ credential_open credential.
Proof.
  unfold check_credential. rewrite !bind_unit_ok, !refuse_if_ok, check_setup_ok, !bool_decide_eq_false.
  setoid_rewrite bool_decide_eq_true. split.
  - intros (H1 & H2 & H3). split; [by apply dec_stable|exact H2|done].
  - intros [H1 H2 H3]. split_and!; [auto|exact H2|done].
Qed.

Lemma check_intent_credential_ok : check_intent_credential context intent = Ok tt ↔
  ∀ credential, Intent.credential_binding intent = Some credential → credential_open credential.
Proof.
  unfold check_intent_credential. destruct (Intent.credential_binding intent); [rewrite check_credential_ok|]; naive_solver.
Qed.

(** The route is accepted by the router; no route is needed unless the deployment requires one. *)
Definition routable (policy : option AgentExecutionPolicyRef.t) : Prop :=
  match policy with
  | None => substrate_execution_policy self = None
  | Some policy => ∃ accepts, execution_router self = Some accepts ∧ accepts policy = true
  end.

Lemma check_execution_policy_ok policy : check_execution_policy self policy = Ok tt ↔ routable policy.
Proof.
  unfold check_execution_policy, routable. destruct policy as [policy|]; rewrite refuse_if_ok.
  - rewrite negb_false_iff. destruct (execution_router self); naive_solver.
  - rewrite bool_decide_eq_false, <-eq_None_not_Some. done.
Qed.

(** Every stage is in the chain, and runs at a boundary that is evaluated. *)
Definition covered (required : gset AgentGuardrailStageId.t) : Prop :=
  ∀ id, id ∈ required → ∃ chain held, guardrails self = Some chain ∧
    find_first (fun held => bool_decide (Stage.id held = id)) (Chain.stages chain) = Some held ∧
    ∃ boundary, boundary ∈ Stage.boundaries held ∧ boundary ∈ evaluated_boundaries self.

Lemma check_guardrail_coverage_ok required : check_guardrail_coverage self required = Ok tt ↔ covered required.
Proof.
  unfold check_guardrail_coverage, covered. case_bool_decide as He; [set_solver|].
  destruct (guardrails self) as [chain|].
  - rewrite map_err_ok, validate_covers_ok. naive_solver.
  - split; [done|]. intros Hall. apply set_choose_L in He as [id Hid]. naive_solver.
Qed.

(** ** What holds whatever is requested *)

Record preamble : Prop := {
  agent_active : AuthContext.status context = Lifecycle.Active;
  policy_implemented policy : Settings.guardrail_policy settings = Some policy →
    ∃ chain, guardrails self = Some chain ∧ Chain.policy chain = Some policy;
  digest_intact : RequestDigest.argument_digest (ToolCodec.run codec) (Intent.request intent) =
    Ok (Intent.argument_digest intent);
}.

Lemma check_guardrail_policy_ok : check_guardrail_policy self context = Ok tt ↔
  ∀ policy, Settings.guardrail_policy settings = Some policy →
    ∃ chain, guardrails self = Some chain ∧ Chain.policy chain = Some policy.
Proof.
  unfold check_guardrail_policy. destruct (Settings.guardrail_policy settings) as [policy|]; [|naive_solver].
  rewrite refuse_if_ok, negb_false_iff. destruct (guardrails self); [rewrite bool_decide_eq_true|]; naive_solver.
Qed.

Lemma check_preamble_ok : check_preamble codec self context intent = Ok tt ↔ preamble.
Proof.
  unfold check_preamble. split.
  - destruct (AuthContext.status context) eqn:Hs; try done. cbn [Lifecycle.is_terminal Lifecycle.permits_dispatch negb].
    rewrite bind_unit_ok, bind_ok, check_guardrail_policy_ok. intros (Hp & d & Hd & Hq).
    apply refuse_if_ok, bool_decide_eq_false, dec_stable in Hq. apply map_err_ok in Hd. subst. by split.
  - intros [Hs Hp Hd]. rewrite Hs. cbn [Lifecycle.is_terminal Lifecycle.permits_dispatch negb].
    rewrite bind_unit_ok, check_guardrail_policy_ok. split; [done|]. rewrite Hd. cbn [map_err result_bind].
    apply refuse_if_ok, bool_decide_eq_false. naive_solver.
Qed.

(** ** Grants of checkpoints *)

Definition checkpoint_binds (attempt : Z) (now : AgentTimestampMillis) (grant : CheckpointGrant.t) : Prop :=
  AuthContext.checkpoint_grant context = Some grant ∧
  CheckpointGrant.validate_for (ToolCodec.run codec) grant scope intent attempt now = Ok tt.

Lemma evaluate_checkpoint_ok attempt now :
  (evaluate_checkpoint_grant codec context scope intent attempt now).1 = true ↔ ∃ grant, checkpoint_binds attempt now grant.
Proof.
  unfold evaluate_checkpoint_grant, checkpoint_binds. destruct (AuthContext.checkpoint_grant context) as [grant|]; [|naive_solver].
  split.
  - destruct (CheckpointGrant.validate_for _ _ _ _ _ _) as [[]|] eqn:Hv; simpl; [|done]. eauto.
  - by intros (g & [= <-] & ->).
Qed.

Lemma check_checkpoint_ok required evaluated code text :
  check_checkpoint required evaluated code text = Ok tt ↔ (required = true → evaluated.1 = true).
Proof. unfold check_checkpoint. destruct required, (evaluated.1); simpl; naive_solver. Qed.
(** ** Tools *)

Section Tool.
Context (call : ToolCall.t Json.t).
Abbreviation tool := (ToolCall.tool call).

(** The binding permits nothing of the tool that the declaration does not. *)
Definition contained (bound declared : ToolDeclaration.t) : Prop :=
  ∀ a, tool_of a = Some tool → tool_permits bound a → tool_permits declared a.

Lemma contained_iff bound declared : contained bound declared ↔
  SafetyClass.strictness (ToolDeclaration.safety declared) <= SafetyClass.strictness (ToolDeclaration.safety bound) ∧
  ToolDeclaration.capabilities bound ⊆ ToolDeclaration.capabilities declared ∧
  (∀ credential, ToolDeclaration.credential_binding bound = Some credential →
     ToolDeclaration.credential_binding declared = Some credential) ∧
  ToolDeclaration.execution_policy bound = ToolDeclaration.execution_policy declared ∧
  ToolDeclaration.environments bound ⊆ ToolDeclaration.environments declared.
Proof.
  split.
  - intros Hc. split_and!.
    + by apply (Hc (DispatchAs tool (ToolDeclaration.safety bound))); simpl.
    + intros x Hx. by apply (Hc (ExerciseCapability tool x)).
    + intros x Hx. by apply (Hc (ResolveCredential tool x)).
    + symmetry. by apply (Hc (RouteThrough tool (ToolDeclaration.execution_policy bound))).
    + intros x Hx. by apply (Hc (TouchEnvironment tool x)).
  - intros (Hs & Hcap & Hcred & Hp & He) a Ha. destruct a; simpl in *; try done.
    + by apply Hcap.
    + lia.
    + apply Hcred.
    + by rewrite Hp.
    + by apply He.
Qed.

Record binding_usable (binding : ToolBinding.t) : Prop := {
  binding_registered : ToolRegistry.binding (registry self) tool = Some binding;
  binding_not_coordination : Descriptor.kind (ToolBinding.descriptor binding) ≠ ToolKind.AgentCoordination;
  binding_not_workflow : Descriptor.kind (ToolBinding.descriptor binding) ≠ ToolKind.Workflow;
}.

Lemma find_binding_ok binding : find_binding self call = Ok binding ↔ binding_usable binding.
Proof.
  unfold find_binding. destruct (ToolRegistry.binding (registry self) tool) as [held|] eqn:Hb.
  - rewrite !bind_unit_ok, !refuse_if_ok, !bool_decide_eq_false. split.
    + by intros (? & ? & [= <-]).
    + intros [Hh ? ?]. simplify_eq. naive_solver.
  - split; [done|]. intros []. congruence.
Qed.

Record declaration_open (declared : ToolDeclaration.t) : Prop := {
  tool_declared : AuthEnvelope.tools E !! tool = Some declared;
  tool_selected : setup_permits (InvokeTool tool);
  tool_not_revoked : tool ∉ Settings.revoked_tools settings;
}.

Lemma invoke_permitted envelope : permitted envelope (InvokeTool tool) ↔ is_Some (AuthEnvelope.tools envelope !! tool).
Proof. unfold permitted. simpl. destruct (_ !! _) as [d|]; [by split; [exists d|]|]. split; [done|by intros []]. Qed.

Lemma find_declaration_ok declared : find_declaration context call = Ok declared ↔ declaration_open declared.
Proof.
  unfold find_declaration. rewrite bind_ok. setoid_rewrite bind_unit_ok. setoid_rewrite bind_unit_ok.
  setoid_rewrite refuse_if_ok. setoid_rewrite check_setup_ok. setoid_rewrite bool_decide_eq_true.
  setoid_rewrite bool_decide_eq_false. setoid_rewrite <-invoke_permitted. split.
  - intros (d & Hd & Hsetup & Hr & [= <-]). destruct (_ !! _) as [d'|] eqn:He in Hd; [|done].
    injection Hd as ->. by split.
  - intros [Hd Hsetup Hr]. exists declared. rewrite Hd. by split_and!.
Qed.

(** The definition, the setup and the goal allow an environment. *)
Record environment_open (environment : AgentEnvironmentRef.t) : Prop := {
  environment_granted : permitted E (ReachEnvironment environment);
  environment_selected : setup_permits (ReachEnvironment environment);
  environment_in_goal delegation : AuthContext.delegation context = Some delegation →
    Envelope.environments delegation = ∅ ∨ environment ∈ Envelope.environments delegation;
}.

Lemma check_environment_ok environment : check_environment context environment = Ok tt ↔ environment_open environment.
Proof.
  unfold check_environment. rewrite !bind_unit_ok, refuse_if_ok, check_setup_ok, bool_decide_eq_false.
  setoid_rewrite bool_decide_eq_true.
  assert (match AuthContext.delegation context with
          | Some delegation => refuse_if (bool_decide (Envelope.environments delegation ≠ ∅) &&
              bool_decide (environment ∉ Envelope.environments delegation)) "goal-environment-not-allowed"
              ("the goal's environment narrowing does not allow " +:+ AgentEnvironmentRef.as_str environment)
          | None => Ok tt
          end = Ok tt ↔ ∀ delegation, AuthContext.delegation context = Some delegation →
            Envelope.environments delegation = ∅ ∨ environment ∈ Envelope.environments delegation) as ->.
  { destruct (AuthContext.delegation context) as [delegation|]; [|naive_solver].
    rewrite refuse_if_ok, andb_false_iff, !bool_decide_eq_false. split.
    - intros Hd d [= <-]. destruct Hd as [Hd|Hd]; apply dec_stable in Hd; auto.
    - intros Hd. destruct (Hd _ eq_refl); auto. }
  split.
  - intros (H1 & H2 & H3). split; [by apply dec_stable|exact H2|done].
  - intros [H1 H2 H3]. split_and!; [auto|exact H2|done].
Qed.

Lemma check_environments_ok binding declared : check_environments context call binding declared = Ok tt ↔
  ToolDeclaration.environments (ToolBinding.declaration binding) ⊆ ToolDeclaration.environments declared ∧
  ∀ environment, environment ∈ ToolDeclaration.environments declared → environment_open environment.
Proof.
  unfold check_environments. rewrite bind_unit_ok. f_equiv.
  - destruct (btree_elements (_ ∖ _)) as [|e l] eqn:He; simpl.
    + split; [|done]. intros _ x Hx. destruct (decide (x ∈ ToolDeclaration.environments declared)) as [|Hn]; [done|].
      assert (x ∈ btree_elements (ToolDeclaration.environments (ToolBinding.declaration binding) ∖
        ToolDeclaration.environments declared)) as Hin by (by apply elem_of_btree_elements, elem_of_difference).
      rewrite He in Hin. by apply elem_of_nil in Hin.
    + split; [done|]. intros Hs. assert (e ∈ btree_elements (ToolDeclaration.environments (ToolBinding.declaration binding) ∖
        ToolDeclaration.environments declared)) as Hin by (rewrite He; by left).
      apply elem_of_btree_elements in Hin. set_solver.
  - setoid_rewrite <-(elem_of_btree_elements (ToolDeclaration.environments declared)).
    induction (btree_elements _) as [|e l IH]; simpl; [split; [by intros _ ? ?%elem_of_nil|done]|].
    rewrite bind_unit_ok, check_environment_ok, IH. setoid_rewrite elem_of_cons. naive_solver.
Qed.

Lemma check_binding_fits_ok binding declared : let bound := ToolBinding.declaration binding in
  check_binding_fits call binding declared = Ok tt ↔
  SafetyClass.strictness (ToolDeclaration.safety declared) <= SafetyClass.strictness (ToolDeclaration.safety bound) ∧
  ToolDeclaration.capabilities bound ⊆ ToolDeclaration.capabilities declared ∧
  (∀ credential, ToolDeclaration.credential_binding bound = Some credential →
     ToolDeclaration.credential_binding declared = Some credential) ∧
  ToolDeclaration.execution_policy bound = ToolDeclaration.execution_policy declared.
Proof.
  intros bound. unfold check_binding_fits. fold bound.
  rewrite !bind_unit_ok, !refuse_if_ok, !bool_decide_eq_false, Z.ltb_ge. f_equiv. f_equiv; [split; [apply dec_stable|auto]|].
  f_equiv; [|split; [apply dec_stable|auto]].
  destruct (ToolDeclaration.credential_binding bound) as [c|]; [|naive_solver].
  rewrite refuse_if_ok, bool_decide_eq_false. split.
  - intros Hc%dec_stable ? [= <-]. done.
  - intros Hc Hn. by apply Hn, Hc.
Qed.

(** The intent does not widen its binding. *)
Record intent_fits (binding : ToolBinding.t) : Prop := {
  intent_class : SafetyClass.strictness (ToolDeclaration.safety (ToolBinding.declaration binding)) <=
    SafetyClass.strictness (Safety.class (Intent.safety intent));
  intent_attempts : Intent.max_attempts intent <= ToolBinding.max_attempts binding;
  intent_credential : Intent.credential_binding intent = ToolDeclaration.credential_binding (ToolBinding.declaration binding);
  intent_route : Intent.execution_policy intent = ToolDeclaration.execution_policy (ToolBinding.declaration binding);
  intent_protocol : Safety.reconciliation_protocol (Intent.safety intent) = ToolBinding.reconciliation_protocol binding;
  intent_timeout bound : ToolBinding.timeout_ms binding = Some bound →
    ∃ timeout, Intent.timeout_ms intent = Some timeout ∧ timeout <= bound;
}.

Lemma check_intent_fits_ok binding : check_intent_fits intent call binding = Ok tt ↔ intent_fits binding.
Proof.
  unfold check_intent_fits. rewrite !bind_unit_ok, !refuse_if_ok, !bool_decide_eq_false, Z.ltb_ge, Z.gtb_ltb, Z.ltb_ge.
  assert (match ToolBinding.timeout_ms binding with
          | Some bound => refuse_if (match Intent.timeout_ms intent with None => true | Some timeout => timeout >? bound end)
              "tool-policy-conflict" ("the intent's per-attempt timeout does not honor the " +:+ pretty bound +:+
                " ms bound the binding of " +:+ tool_name call +:+ " declares")
          | None => Ok tt
          end = Ok tt ↔ ∀ bound, ToolBinding.timeout_ms binding = Some bound →
            ∃ timeout, Intent.timeout_ms intent = Some timeout ∧ timeout <= bound) as ->.
  { destruct (ToolBinding.timeout_ms binding) as [bound|]; [|naive_solver]. rewrite refuse_if_ok.
    destruct (Intent.timeout_ms intent) as [timeout|]; [rewrite Z.gtb_ltb, Z.ltb_ge|]; naive_solver. }
  split.
  - intros (H1 & H2 & H3%dec_stable & H4%dec_stable & H5%dec_stable & H6). by split.
  - intros []. split_and!; auto.
Qed.

(** What the binding asks of the checkpoint grant. *)
Definition checkpoints_held (binding : ToolBinding.t) (attempt : Z) (now : AgentTimestampMillis) : Prop :=
  (ToolBinding.checkpoint_required binding = true → ∃ grant, checkpoint_binds attempt now grant) ∧
  (ToolBinding.authorization_required binding = true →
     ∃ grant, checkpoint_binds attempt now grant ∧ CheckpointGrant.kind grant = CheckpointKind.SecurityAuthorization).

Lemma check_tool_checkpoints_ok binding attempt now :
  check_tool_checkpoints context call binding (evaluate_checkpoint_grant codec context scope intent attempt now) = Ok tt ↔
  checkpoints_held binding attempt now.
Proof.
  unfold check_tool_checkpoints, checkpoints_held.
  rewrite bind_unit_ok, check_checkpoint_ok, evaluate_checkpoint_ok. f_equiv.
  destruct (ToolBinding.authorization_required binding); [|naive_solver].
  rewrite bind_unit_ok, check_checkpoint_ok, evaluate_checkpoint_ok, refuse_if_ok, negb_false_iff. split.
  - intros [Hg Hk] _. destruct (Hg eq_refl) as [grant Hb]. exists grant. split; [done|]. destruct Hb as [Hc _].
    rewrite Hc in Hk. by apply bool_decide_eq_true in Hk.
  - intros Ha. destruct (Ha eq_refl) as (grant & Hb & Hk). split; [eauto|]. destruct Hb as [Hc _]. rewrite Hc.
    by apply bool_decide_eq_true.
Qed.
(** *** The tool-request boundary *)

Definition request_bound : Z := Z.min AGENT_TOOL_ARGUMENTS_MAX_BYTES AGENT_GUARDRAIL_CONTENT_MAX_BYTES.
Abbreviation guard_context := (tool_guard_context scope call).
Abbreviation request_stopped := (stopped (ToolCodec.to_vec_len codec) guard_context request_bound).

(** Every stage that applies to the call, with the arguments it sees. *)
Definition request_visits : list (Stage.t * Json.t) :=
  match guardrails self with
  | Some chain => visits guard_context (Chain.stages chain) (ToolCall.arguments call)
  | None => []
  end.

Definition request_transforms : list GuardTransform.t := omap (transform_of guard_context) request_visits.
Definition request_reports : list GuardReport.t := omap (report_of guard_context) request_visits.

(** The arguments after every stage. *)
Definition crossing_arguments : Json.t :=
  default (ToolCall.arguments call) (last (content_after guard_context <$> request_visits)).

(** The call a grant carries in place of the recorded one. *)
Definition crossing_call : option (ToolCall.t Json.t) :=
  if bool_decide (request_transforms = []) then None
  else Some (ToolCall.mk (ToolCall.call_id call) (ToolCall.tool call) crossing_arguments).

(** No stage blocks, and a stage that asks for a checkpoint finds one. *)
Definition request_passes (checkpoint_satisfied : bool) : Prop :=
  ∀ v, v ∈ request_visits →
    request_stopped v = None ∧ (is_Some (checkpoint_of guard_context v) → checkpoint_satisfied = true).

Lemma refuse_disposition_ok disposition what satisfied :
  refuse_guardrail_disposition disposition what satisfied = Ok tt ↔
  match disposition with
  | GuardDisposition.Allowed => True
  | GuardDisposition.Blocked _ _ _ => False
  | GuardDisposition.CheckpointRequired _ _ => satisfied = true
  end.
Proof. destruct disposition, satisfied; simpl; naive_solver. Qed.

Lemma omap_nil {A B} (f : A → option B) l : omap f l = [] ↔ ∀ x, x ∈ l → f x = None.
Proof.
  induction l as [|x l IH]; simpl; [split; [by intros _ ? ?%elem_of_nil|done]|].
  setoid_rewrite elem_of_cons. destruct (f x) eqn:Hx.
  - split; [done|]. intros Hall. rewrite Hall in Hx by (by left). done.
  - rewrite IH. naive_solver.
Qed.

Lemma checkpoint_verdict_ok vs satisfied :
  match checkpoint_verdict (first_checkpoint guard_context vs) with
  | GuardDisposition.Allowed => True
  | GuardDisposition.Blocked _ _ _ => False
  | GuardDisposition.CheckpointRequired _ _ => satisfied = true
  end ↔ ∀ v, v ∈ vs → is_Some (checkpoint_of guard_context v) → satisfied = true.
Proof.
  unfold first_checkpoint. destruct (omap _ vs) as [|[stage reason] l] eqn:Ho; simpl.
  - pose proof (proj1 (omap_nil _ _) Ho) as Hn. split; [|done]. intros _ v Hv [c Hc]. by rewrite Hn in Hc.
  - split; [done|]. intros Hall. assert ((stage, reason) ∈ omap (checkpoint_of guard_context) vs) as Hin by (rewrite Ho; by left).
    apply list_elem_of_omap in Hin as (v & Hv & Hc). eauto.
Qed.

(** A transform that the chain lets through is a valid call. *)
Lemma transformed_call_valid content : Chain.encoded_len (ToolCodec.to_vec_len codec) content <= request_bound →
  tool_call_new (ToolCodec.to_vec_len codec) (ToolCall.call_id call) tool content =
  Ok (ToolCall.mk (ToolCall.call_id call) tool content).
Proof.
  unfold Chain.encoded_len, tool_call_new, request_bound. pose proof eq_refl : AGENT_TOOL_ARGUMENTS_MAX_BYTES = 2048.
  destruct (ToolCodec.to_vec_len codec content) as [n|]; simpl; [|unfold u64_max; lia].
  intros Hn. destruct (Z.gtb_spec (Z.of_nat n) AGENT_TOOL_ARGUMENTS_MAX_BYTES); [lia|done].
Qed.

Lemma guard_tool_request_ok satisfied out : guard_tool_request codec self scope call satisfied = Ok out ↔
  request_passes satisfied ∧ out = (crossing_call, request_transforms, request_reports).
Proof.
  unfold guard_tool_request, request_passes, crossing_call, request_transforms, request_reports, crossing_arguments, request_visits.
  destruct (guardrails self) as [chain|].
  2: { simpl. split; [intros [= <-]; split; [by intros v ?%elem_of_nil|done]|by intros [_ ->]]. }
  cbv zeta. set (decision := Chain.evaluate_bounded _ _ _ _ _).
  pose proof (transformed_bounded (ToolCodec.to_vec_len codec) guard_context request_bound (Chain.revision chain)
    (Chain.stages chain) (Chain.Progress (ToolCall.arguments call) false [] [] None) ltac:(done)) as Hbound.
  change (Chain.evaluate_stages _ _ _ _ _ _) with decision in Hbound. cbv zeta in Hbound.
  assert (decision = judged (ToolCodec.to_vec_len codec) guard_context request_bound (Chain.revision chain) (Chain.stages chain)
    (Chain.Progress (ToolCall.arguments call) false [] [] None)) as Hj by apply evaluate_judged.
  unfold judged in Hj. cbn [Chain.current Chain.checkpoint Chain.transforms Chain.reports Chain.transformed app orb] in Hj.
  set (vs := visits _ _ _) in *. rewrite bind_unit_ok, refuse_disposition_ok.
  destruct (until_stopped _ _ _ vs) as [passed verdict] eqn:Hu. pose proof Hu as [Hpass Hverdict]%until_stopped_inv.
  destruct verdict as [d|].
  - rewrite Hj. cbn [GuardDecision.disposition]. destruct Hverdict as (v & post & Hvs & Hd).
    pose proof Hd as (r & e & ->)%stopped_blocks. split; [by intros [[] _]|]. intros [Hall _].
    destruct (Hall v) as [Hn _]; [rewrite Hvs; set_solver|]. congruence.
  - subst passed. rewrite Hj at 1. cbn [GuardDecision.disposition]. rewrite checkpoint_verdict_ok.
    transitivity ((∀ v, v ∈ vs → is_Some (checkpoint_of guard_context v) → satisfied = true) ∧
      out = (if bool_decide (omap (transform_of guard_context) vs = []) then None
             else Some (ToolCall.mk (ToolCall.call_id call) tool
                          (default (ToolCall.arguments call) (last (content_after guard_context <$> vs)))),
             omap (transform_of guard_context) vs, omap (report_of guard_context) vs)).
    2: { naive_solver. }
    f_equiv. rewrite Hj in Hbound |- *.
    cbn [GuardDecision.transformed GuardDecision.content GuardDecision.transforms GuardDecision.reports] in *.
    case_bool_decide; cbn [negb result_bind]; [naive_solver|].
    rewrite transformed_call_valid by (by apply Hbound). cbn [map_err result_bind]. naive_solver.
Qed.
(** *** All of them *)

Record tool_open (attempt : Z) (now : AgentTimestampMillis) (binding : ToolBinding.t) (declared : ToolDeclaration.t) : Prop := {
  open_binding : binding_usable binding;
  open_declaration : declaration_open declared;
  open_contained : contained (ToolBinding.declaration binding) declared;
  open_environments environment : environment ∈ ToolDeclaration.environments declared → environment_open environment;
  open_intent : intent_fits binding;
  open_credential credential : Intent.credential_binding intent = Some credential → credential_open credential;
  open_route : routable (Intent.execution_policy intent);
  open_checkpoints : checkpoints_held binding attempt now;
  open_stages : covered (required_stages context ∪ ToolBinding.guardrails binding);
  open_request v : v ∈ request_visits → request_stopped v = None ∧
    (is_Some (checkpoint_of guard_context v) → ∃ grant, checkpoint_binds attempt now grant);
}.

(** What is granted then. *)
Definition granted_tool (now : AgentTimestampMillis) (binding : ToolBinding.t) : Granted.t :=
  Granted.mk
    (make_grant self context scope task goal intent (Some (grant_descriptor codec (ToolBinding.descriptor binding)))
       (ToolDeclaration.capabilities (ToolBinding.declaration binding)) now)
    crossing_call None None None [] request_transforms request_reports None.

Lemma authorize_tool_ok attempt now granted :
  authorize_tool codec self context scope task goal intent call attempt now = Ok granted ↔
  ∃ binding declared, tool_open attempt now binding declared ∧ granted = granted_tool now binding.
Proof.
  unfold authorize_tool. rewrite bind_ok. f_equiv; intros binding. rewrite bind_ok, find_binding_ok. split.
  - intros (Hb & declared & Hd%find_declaration_ok & Hrest). exists declared.
    rewrite !bind_unit_ok, check_binding_fits_ok, check_environments_ok, check_intent_fits_ok, check_intent_credential_ok,
      check_execution_policy_ok, check_tool_checkpoints_ok, check_guardrail_coverage_ok, bind_ok in Hrest.
    destruct Hrest as ((Hs & Hcap & Hcred & Hp) & (Hsub & Henv) & Hi & Hc & Hr & Hk & Hg & out & Hout & Hgr).
    apply guard_tool_request_ok in Hout as [Hpass ->]. simpl in Hgr. injection Hgr as <-. split; [|done]. split; try done.
    + by apply contained_iff.
    + intros v Hv. destruct (Hpass v Hv) as [? Hk']. split; [done|]. intros ?. apply evaluate_checkpoint_ok. auto.
  - intros (declared & [] & ->). split; [done|]. exists declared. rewrite find_declaration_ok. split; [done|].
    rewrite !bind_unit_ok, check_binding_fits_ok, check_environments_ok, check_intent_fits_ok, check_intent_credential_ok,
      check_execution_policy_ok, check_tool_checkpoints_ok, check_guardrail_coverage_ok, bind_ok.
    apply contained_iff in open_contained0 as (? & ? & ? & ? & ?). split_and!; try done.
    eexists. rewrite guard_tool_request_ok. split; [split; [|done]|done].
    intros v Hv. destruct (open_request0 v Hv) as [? Hk]. split; [done|]. intros ?. apply evaluate_checkpoint_ok. auto.
Qed.
End Tool.
End Doors.

(** * What a dispatch exercises

    The actions a granted attempt takes of the agent's authority, and that the authority grants
    none it does not hold: each is permitted by the definition, by the setup of the run where
    it speaks of it, by the goal, and is not revoked. *)

(** ** Registries *)

(** A registry as a deployment builds it. *)
Inductive built : ToolRegistry.t → Prop :=
| built_new : built ToolRegistry.new
| built_register to_vec_len registry binding registry' :
    built registry → ToolRegistry.register to_vec_len registry binding = Ok registry' → built registry'.

Lemma register_inv to_vec_len registry binding registry' : ToolRegistry.register to_vec_len registry binding = Ok registry' →
  let tool := Descriptor.tool (ToolBinding.descriptor binding) in
  ToolRegistry.tools registry !! tool = None ∧
  ToolRegistry.tools registry' = <[tool := binding]> (ToolRegistry.tools registry).
Proof.
  unfold ToolRegistry.register. intros ([] & _ & H)%bind_ok. cbv zeta in *.
  repeat match type of H with (if ?b then _ else _) = _ => destruct b eqn:?; [done|] end.
  injection H as <-. split; [|done]. apply eq_None_not_Some. by eapply bool_decide_eq_false.
Qed.

(** Every binding is held under the tool its descriptor names. *)
Lemma built_keyed registry tool binding : built registry → ToolRegistry.binding registry tool = Some binding →
  Descriptor.tool (ToolBinding.descriptor binding) = tool.
Proof.
  unfold ToolRegistry.binding. intros Hb. revert tool binding.
  induction Hb as [|f registry new registry' Hb IH [_ Hr]%register_inv]; intros tool binding; [done|].
  rewrite Hr. intros [[<- <-]|[_ ?]]%lookup_insert_Some; auto.
Qed.

Lemma model_visible_inv registry envelope settings descriptor : built registry →
  descriptor ∈ ToolRegistry.model_visible registry envelope settings →
  permitted envelope (InvokeTool (Descriptor.tool descriptor)) ∧ Descriptor.tool descriptor ∉ Settings.revoked_tools settings.
Proof.
  intros Hb. unfold ToolRegistry.model_visible. intros ([tool binding] & -> & Hin)%list_elem_of_fmap.
  apply list_elem_of_filter in Hin as [[[d Hd] Hr] Hin%elem_of_btree_entries]. simpl in *.
  rewrite (built_keyed _ _ _ Hb Hin). split; [|done]. unfold permitted. simpl. by rewrite Hd.
Qed.

(** ** Actions of a dispatch *)

(** The stages that run at some boundary that is evaluated. *)
Definition installed_stages (self : ToolAuthority.t) : gset AgentGuardrailStageId.t :=
  match guardrails self with
  | Some chain =>
      list_to_set (Stage.id <$> filter (fun held => Exists (fun boundary => boundary ∈ Stage.boundaries held) (evaluated_boundaries self))
                                  (Chain.stages chain))
  | None => ∅
  end.

Section Exercises.
Context (self : ToolAuthority.t) (intent : Intent.t) (granted : Granted.t).
Abbreviation grant := (Granted.grant granted).
Abbreviation request := (Intent.request intent).

Inductive exercises : action → Prop :=
| Holds credential : DispatchGrant.credential_binding grant = Some credential → exercises (HoldCredential credential)
| Invokes call : request = Request.Tool call → exercises (InvokeTool (ToolCall.tool call))
| Uses_capability call capability : request = Request.Tool call → capability ∈ DispatchGrant.capabilities grant →
    exercises (ExerciseCapability (ToolCall.tool call) capability)
| Dispatches_as call : request = Request.Tool call →
    exercises (DispatchAs (ToolCall.tool call) (DispatchGrant.safety_class grant))
| Resolves call credential : request = Request.Tool call → DispatchGrant.credential_binding grant = Some credential →
    exercises (ResolveCredential (ToolCall.tool call) credential)
| Routes call : request = Request.Tool call →
    exercises (RouteThrough (ToolCall.tool call) (DispatchGrant.execution_policy grant))
| Touches call binding environment : request = Request.Tool call →
    ToolRegistry.binding (registry self) (ToolCall.tool call) = Some binding →
    environment ∈ ToolDeclaration.environments (ToolBinding.declaration binding) →
    exercises (TouchEnvironment (ToolCall.tool call) environment)
| Reaches call binding environment : request = Request.Tool call →
    ToolRegistry.binding (registry self) (ToolCall.tool call) = Some binding →
    environment ∈ ToolDeclaration.environments (ToolBinding.declaration binding) →
    exercises (ReachEnvironment environment)
| Selects profile : Granted.model_profile granted = Some profile → exercises (SelectModel profile)
| Offers descriptor : descriptor ∈ Granted.tools granted → exercises (InvokeTool (Descriptor.tool descriptor))
| Hands_off envelope : request = Request.A2aHandoff envelope → exercises (CoordinateBy CapabilityKind.Handoff)
| Starts invocation : request = Request.WorkflowStart invocation →
    exercises (StartWorkflow (InvocationRecord.workflow_tool invocation))
| Claims append provenance : request = Request.ClaimAppend append provenance →
    exercises (UseKnowledge (AgentClaimAppendRequest.space append))
| Guarded : match request with Request.Tool _ | Request.Model _ _ => True | _ => False end →
    exercises (RunGuardedBy (installed_stages self)).
End Exercises.

(** The settings revoke the tool or the credential of the action. *)
Definition revoked (settings : Settings.t) (a : action) : Prop :=
  (∃ tool, tool_of a = Some tool ∧ tool ∈ Settings.revoked_tools settings) ∨
  match a with
  | HoldCredential credential | ResolveCredential _ credential =>
      credential ∈ Settings.revoked_credential_bindings settings
  | _ => False
  end.

(** What a goal's delegation says of the action. *)
Definition goal_allows (delegation : Envelope.t) (a : action) : Prop :=
  match a with
  | ReachEnvironment environment =>
      Envelope.environments delegation = ∅ ∨ environment ∈ Envelope.environments delegation
  | UseKnowledge space =>
      match Envelope.knowledge_spaces delegation with
      | Some granted => space ∈ granted
      | None => Envelope.lineage delegation = []
      end
  | _ => True
  end.

(** The actions the setup of a run is consulted on: that a tool is selected, and every action
    that is not about one tool. *)
Definition setup_consulted (a : action) : Prop :=
  match a with InvokeTool _ => True | _ => tool_of a = None end.

Record authorized (context : AuthContext.t) (a : action) : Prop := {
  by_definition : permitted (definition_envelope context) a;
  by_setup : setup_consulted a → setup_permits context a;
  by_goal delegation : AuthContext.delegation context = Some delegation → goal_allows delegation a;
  by_settings : ¬ revoked (current_settings context) a;
}.

(** ** Every kind of request *)

Section Granted.
Context (codec : ToolCodec.t) (self : ToolAuthority.t) (context : AuthContext.t) (scope : RunScope.t)
  (task : option AgentTaskId.t) (goal : option AgentGoalId.t) (intent : Intent.t) (attempt : Z) (now : AgentTimestampMillis).
Abbreviation E := (definition_envelope context).
Abbreviation settings := (current_settings context).

Lemma covered_installed required id : covered self required → id ∈ required → id ∈ installed_stages self.
Proof.
  intros Hc Hid. destruct (Hc id Hid) as (chain & held & Hg & Hf & boundary & Hb & He). unfold installed_stages. rewrite Hg.
  apply find_first_Some in Hf as [Hin Hh]. apply bool_decide_eq_true in Hh as <-.
  apply elem_of_list_to_set, list_elem_of_fmap. exists held. split; [done|]. apply list_elem_of_filter. split; [|done].
  apply Exists_exists. eauto.
Qed.

Lemma guarded_authorized required : covered self (required_stages context ∪ required) →
  authorized context (RunGuardedBy (installed_stages self)).
Proof.
  intros Hc. assert (required_stages context ⊆ installed_stages self) as Hs.
  { intros id Hid. eapply covered_installed; [exact Hc|set_solver]. }
  unfold required_stages in Hs. split.
  - unfold permitted. simpl. set_solver.
  - intros _ setup Hsetup. rewrite Hsetup in Hs. unfold permitted. simpl. set_solver.
  - done.
  - by intros [(? & ? & _)|[]].
Qed.

Lemma credential_authorized credential : credential_open context credential → authorized context (HoldCredential credential).
Proof. intros []. split; try done. by intros [(? & ? & _)|?]. Qed.

(** What needs no tool and no credential. *)
Lemma plain_authorized a : tool_of a = None → match a with HoldCredential _ => False | _ => True end →
  permitted E a → setup_permits context a →
  (∀ delegation, AuthContext.delegation context = Some delegation → goal_allows delegation a) → authorized context a.
Proof.
  intros Ht Ha Hp Hs Hd. split; [done..|]. unfold revoked. rewrite Ht. intros [(? & ? & _)|Hr]; [done|].
  by destruct a.
Qed.

Abbreviation granted_from := (granted_tool codec self context scope task goal intent).

Lemma tool_authorized call binding declared a : Intent.request intent = Request.Tool call →
  tool_open codec self context scope intent call attempt now binding declared →
  exercises self intent (granted_from call now binding) a → authorized context a.
Proof.
  intros Hreq [Hb Hd Hc He Hi Hcr Hr Hk Hg _] Ha. pose proof Hd as [Hdecl Hsel Hnot].
  assert (∀ a, tool_of a = Some (ToolCall.tool call) → tool_permits (ToolBinding.declaration binding) a →
    match a with ResolveCredential _ credential => credential_open context credential | _ => True end →
    authorized context a) as Htool.
  { intros b Hb1 Hb2 Hb3. pose proof (Hc b Hb1 Hb2) as Hb4. split.
    - unfold permitted. by rewrite Hb1, Hdecl.
    - intros Hs. destruct b; simplify_eq/=; done.
    - intros delegation _. by destruct b.
    - intros [(t & Ht & Hrv)|Hrv]; [congruence|]. destruct b; try done. by destruct Hb3. }
  destruct Ha; try match goal with H : Intent.request intent = _ |- _ => rewrite Hreq in H; simplify_eq end;
    cbn [granted_tool Granted.grant Granted.model_profile Granted.tools make_grant
    DispatchGrant.credential_binding DispatchGrant.capabilities DispatchGrant.safety_class DispatchGrant.execution_policy] in *;
    try congruence.
  - by apply credential_authorized, Hcr.
  - by apply Htool.
  - by apply Htool.
  - apply Htool; simpl; [done|apply Hi|done].
  - apply Htool; simpl; [done|by rewrite <-(intent_credential _ _ Hi)|by apply Hcr].
  - apply Htool; simpl; [done|by rewrite (intent_route _ _ Hi)|done].
  - destruct Hb as [Hb _ _]. simplify_eq. by apply Htool.
  - destruct Hb as [Hb _ _]. simplify_eq. apply contained_iff in Hc as (_ & _ & _ & _ & Hsub).
    destruct (He environment) as [H1' H2' H3']; [by apply Hsub|]. by apply plain_authorized.
  - by apply elem_of_nil in H.
  - by eapply guarded_authorized.
Qed.

(** The layer of immediate safety. *)
Lemma authorize_plain_inv capabilities granted :
  authorize_plain self context scope task goal intent capabilities now = Ok granted →
  granted = Granted.plain (make_grant self context scope task goal intent None capabilities now) ∧
  ∀ credential, Intent.credential_binding intent = Some credential → credential_open context credential.
Proof.
  unfold authorize_plain. rewrite !bind_unit_ok, check_intent_credential_ok. by intros (? & _ & [= <-]).
Qed.

(** Requests that resolve nothing but a credential: the one action left is named. *)
Lemma plain_exercises capabilities granted a :
  authorize_plain self context scope task goal intent capabilities now = Ok granted →
  match Intent.request intent with Request.Tool _ | Request.Model _ _ => False | _ => True end →
  exercises self intent granted a → authorized context a ∨
  (a = CoordinateBy CapabilityKind.Handoff ∧ ∃ handoff, Intent.request intent = Request.A2aHandoff handoff) ∨
  (∃ invocation, Intent.request intent = Request.WorkflowStart invocation ∧
     a = StartWorkflow (InvocationRecord.workflow_tool invocation)) ∨
  (∃ append provenance, Intent.request intent = Request.ClaimAppend append provenance ∧
     a = UseKnowledge (AgentClaimAppendRequest.space append)).
Proof.
  intros [-> Hcr]%authorize_plain_inv Hreq Ha.
  destruct Ha; try match goal with H : Intent.request intent = _ |- _ => rewrite H in Hreq end; try done;
    cbn [Granted.plain Granted.grant Granted.model_profile Granted.tools make_grant DispatchGrant.credential_binding] in *;
    try done.
  - left. by apply credential_authorized, Hcr.
  - by apply elem_of_nil in H.
  - eauto.
  - right; right; left. eauto.
  - right; right; right. eauto.
  - by destruct (Intent.request intent).
Qed.

Lemma check_profile_ok profile refused excluded : check_profile context profile refused excluded = Ok tt →
  ∀ p, profile = Some p → authorized context (SelectModel p).
Proof.
  unfold check_profile. intros H p ->. rewrite bind_unit_ok, refuse_if_ok, check_setup_ok, bool_decide_eq_false in H.
  destruct H as [H1 H2]. apply plain_authorized; [done..|by apply dec_stable| |done].
  intros setup Hs. apply H2 in Hs. by apply bool_decide_eq_true in Hs.
Qed.

Lemma resolve_profile_ok profile record : resolve_profile self context profile = Ok record →
  ∀ credential, record ≫= ModelProfile.credential_binding = Some credential → credential_open context credential.
Proof.
  unfold resolve_profile. destruct (model_profiles self) as [catalog|]; [|by intros [= <-]].
  destruct profile as [p|]; [|by intros [= <-]]. destruct (catalog p) as [held|]; [|done].
  rewrite bind_unit_ok. intros [Hc [= <-]] credential Hb. simpl in Hb. rewrite Hb in Hc. by apply check_credential_ok.
Qed.

Lemma visible_authorized descriptor : built (registry self) → descriptor ∈ visible_tools self context →
  authorized context (InvokeTool (Descriptor.tool descriptor)).
Proof.
  intros Hb Hin.
  assert (descriptor ∈ ToolRegistry.model_visible (registry self) E settings ∧
    ∀ setup, AuthContext.setup context = Some setup → permitted (Setup.envelope setup) (InvokeTool (Descriptor.tool descriptor)))
    as [Hv Hsetup].
  { unfold visible_tools in Hin. destruct (AuthContext.setup context) as [setup|]; [|done].
    apply list_elem_of_filter in Hin as [[d Hd] Hin]. split; [done|]. intros ? [= <-]. unfold permitted. simpl. by rewrite Hd. }
  destruct (model_visible_inv _ _ _ _ Hb Hv) as [Hp Hr]. split; [done|by intros _|done|].
  intros [(t & [= <-] & ?)|[]]. done.
Qed.

Lemma model_authorized requested granted a : built (registry self) → (∃ snapshot, Intent.request intent = Request.Model snapshot requested) →
  authorize_model codec self context scope task goal intent requested attempt now = Ok granted →
  exercises self intent granted a → authorized context a.
Proof.
  intros Hb [snapshot Hreq] H Ha. unfold authorize_model in H. cbv zeta in H. rewrite bind_unit_ok, bind_ok in H.
  destruct H as (Hp & record & Hrec & H). pose proof (check_profile_ok _ _ _ Hp) as Hprofile.
  pose proof (resolve_profile_ok _ _ Hrec) as Hcred.
  rewrite !bind_unit_ok, bind_ok, check_intent_credential_ok, check_guardrail_coverage_ok in H.
  destruct H as (Hcr & _ & _ & Hcov & reports & _ & [= <-]).
  destruct Ha; try match goal with H : Intent.request intent = _ |- _ => rewrite Hreq in H; simplify_eq end; try done.
  - apply credential_authorized. cbn [Granted.grant make_grant DispatchGrant.set_model DispatchGrant.credential_binding] in H.
    destruct (Intent.credential_binding intent) as [b|]; [|by apply Hcred]. injection H as ->. by apply Hcr.
  - by apply Hprofile.
  - by apply visible_authorized.
  - eapply (guarded_authorized ∅). by rewrite (right_id_L ∅ (∪)).
Qed.

Lemma evaluation_authorized evaluation granted a : Intent.request intent = Request.Evaluation evaluation →
  authorize_goal_evaluation codec self context scope task goal intent evaluation attempt now = Ok granted →
  exercises self intent granted a → authorized context a.
Proof.
  intros Hreq H Ha. unfold authorize_goal_evaluation in H. cbv zeta in H.
  rewrite !bind_unit_ok, check_intent_credential_ok in H. destruct H as (Hp & Hcr & _ & _ & [= <-]).
  destruct Ha; try congruence; try (by rewrite Hreq in *).
  - by apply credential_authorized, Hcr.
  - by eapply check_profile_ok.
  - by apply elem_of_nil in H.
Qed.

Lemma handoff_authorized handoff granted a : Intent.request intent = Request.A2aHandoff handoff →
  authorize_a2a_handoff self context scope task goal intent now = Ok granted →
  exercises self intent granted a → authorized context a.
Proof.
  intros Hreq H Ha. unfold authorize_a2a_handoff in H.
  rewrite !bind_unit_ok, refuse_if_ok, check_setup_ok, bool_decide_eq_false in H. destruct H as (H1 & H2 & H3).
  destruct (plain_exercises _ _ _ H3 ltac:(by rewrite Hreq) Ha) as [?|[[-> _]|[(? & ? & _)|(? & ? & ? & _)]]]; try done;
    [|congruence..].
  apply plain_authorized; [done..|by apply dec_stable| |done]. intros setup Hs. apply H2 in Hs. by apply bool_decide_eq_true in Hs.
Qed.

Lemma workflow_authorized invocation granted a : Intent.request intent = Request.WorkflowStart invocation →
  authorize_workflow_start self context scope task goal intent invocation now = Ok granted →
  exercises self intent granted a → authorized context a.
Proof.
  intros Hreq H Ha. unfold authorize_workflow_start in H. cbv zeta in H.
  rewrite !bind_unit_ok, refuse_if_ok, check_setup_ok, bool_decide_eq_false in H. destruct H as (H1 & H2 & H3).
  destruct (plain_exercises _ _ _ H3 ltac:(by rewrite Hreq) Ha) as [?|[[-> [? ?]]|[(? & ? & ->)|(? & ? & ? & _)]]]; try done;
    try congruence.
  simplify_eq. rewrite Hreq in *. simplify_eq.
  apply plain_authorized; [done..|by apply dec_stable| |done]. intros setup Hs. apply H2 in Hs. by apply bool_decide_eq_true in Hs.
Qed.

Lemma claim_authorized append provenance granted a : Intent.request intent = Request.ClaimAppend append provenance →
  authorize_claim_append self context scope task goal intent append now = Ok granted →
  exercises self intent granted a → authorized context a.
Proof.
  intros Hreq H Ha. unfold authorize_claim_append in H. cbv zeta in H.
  rewrite !bind_unit_ok, refuse_if_ok, check_setup_ok, bool_decide_eq_false in H. destruct H as (H1 & H2 & H3 & H4).
  destruct (plain_exercises _ _ _ H4 ltac:(by rewrite Hreq) Ha) as [?|[[-> [? ?]]|[(? & ? & ->)|(? & ? & ? & ->)]]]; try done;
    try congruence.
  rewrite Hreq in *. simplify_eq. apply plain_authorized; [done..|by apply dec_stable| |].
  - intros setup Hs. apply H2 in Hs. by apply bool_decide_eq_true in Hs.
  - intros delegation Hd. rewrite Hd in H3. apply refuse_if_ok, negb_false_iff in H3. simpl.
    by destruct (Envelope.knowledge_spaces delegation); apply bool_decide_eq_true in H3.
Qed.

(** Whatever is requested. *)
Lemma granted_authorized granted a : built (registry self) →
  authorize codec self context scope task goal intent attempt now = Ok granted →
  exercises self intent granted a → authorized context a.
Proof.
  intros Hb. unfold authorize. rewrite bind_unit_ok. intros [_ H] Ha.
  assert (∀ capabilities, authorize_plain self context scope task goal intent capabilities now = Ok granted →
    match Intent.request intent with
    | Request.Compensation _ _ _ | Request.MemoryPromotion _ | Request.A2aSend _ | Request.WorkflowCancel _ _ => True
    | _ => False
    end → authorized context a) as Hplain.
  { intros capabilities Hp Hk. destruct (plain_exercises _ _ _ Hp ltac:(by destruct (Intent.request intent)) Ha)
      as [?|[[_ [? He]]|[(? & He & _)|(? & ? & He & _)]]]; [done|by rewrite He in Hk..]. }
  destruct (Intent.request intent) eqn:Hreq; try (by eapply Hplain).
  - by eapply model_authorized; eauto.
  - apply authorize_tool_ok in H as (binding & declared & Ho & ->). by eapply tool_authorized.
  - by eapply evaluation_authorized.
  - by eapply handoff_authorized.
  - by eapply workflow_authorized.
  - by eapply claim_authorized.
Qed.

(** Every grant names the revisions it was decided under. *)
Lemma granted_grant granted : authorize codec self context scope task goal intent attempt now = Ok granted →
  ∃ descriptor capabilities credential revision digest,
    Granted.grant granted =
      DispatchGrant.set_model (make_grant self context scope task goal intent descriptor capabilities now) credential revision digest.
Proof.
  assert (∀ capabilities, authorize_plain self context scope task goal intent capabilities now = Ok granted →
    ∃ descriptor capabilities credential revision digest, Granted.grant granted =
      DispatchGrant.set_model (make_grant self context scope task goal intent descriptor capabilities now) credential revision digest)
    as Hplain.
  { intros capabilities [-> _]%authorize_plain_inv. by exists None, capabilities, (Intent.credential_binding intent), None, None. }
  unfold authorize. rewrite bind_unit_ok. intros [_ H]. destruct (Intent.request intent) eqn:Hreq; try (by eapply Hplain).
  - unfold authorize_model in H. cbv zeta in H. rewrite bind_unit_ok, bind_ok in H. destruct H as (_ & record & _ & H).
    rewrite !bind_unit_ok, bind_ok in H. destruct H as (_ & _ & _ & _ & reports & _ & [= <-]). repeat eexists.
  - apply authorize_tool_ok in H as (binding & declared & _ & ->).
    by exists (Some (grant_descriptor codec (ToolBinding.descriptor binding))),
      (ToolDeclaration.capabilities (ToolBinding.declaration binding)), (Intent.credential_binding intent), None, None.
  - unfold authorize_goal_evaluation in H. cbv zeta in H. rewrite !bind_unit_ok in H. destruct H as (_ & _ & _ & _ & [= <-]).
    by exists None, ∅, (Intent.credential_binding intent), None, None.
  - unfold authorize_a2a_handoff in H. rewrite !bind_unit_ok in H. destruct H as (_ & _ & H). by eapply Hplain.
  - unfold authorize_workflow_start in H. cbv zeta in H. rewrite !bind_unit_ok in H. destruct H as (_ & _ & H). by eapply Hplain.
  - unfold authorize_claim_append in H. cbv zeta in H. rewrite !bind_unit_ok in H. destruct H as (_ & _ & _ & H). by eapply Hplain.
Qed.
End Granted.
