(* ===== verification/EffectIntents.v ===== *)
(** * Intents as they are committed

    The policies an authority derives from its registry, the intents committed under them, and
    the keys those intents carry: an intent fits the binding its policy came from, pins the
    chain the authority evaluates, and its keys belong to it alone. *)

From S2P Require Import Prelude AgentIdentity AgentSchema CompiledPlan Budget Delegation DelegationDoor FanIn Authority Narrowing.
From S2P Require Import AgentEntity JsonDigest Guardrails RunEffects ToolRegistry ToolAuthority DispatchDoors.

(** ** Keys *)

Definition hash : Ascii.ascii := Ascii.ascii_of_nat 35.

Lemma digit_plain d c : c = hash ∨ c = AGENT_SCOPE_SEPARATOR → pretty_N_char d ≠ c.
Proof. intros [-> | ->]; unfold pretty_N_char, hash, AGENT_SCOPE_SEPARATOR; by repeat case_match. Qed.

Lemma pretty_nat_plain (n : nat) c : c = hash ∨ c = AGENT_SCOPE_SEPARATOR → str_contains c (pretty n) = false.
Proof. intros Hc. apply (pretty_N_plain c (N.of_nat n)). intros d. by apply digit_plain. Qed.

Lemma pretty_number_plain (z : Z) c : c = hash ∨ c = AGENT_SCOPE_SEPARATOR → str_contains c (pretty z) = false.
Proof. intros Hc. apply pretty_Z_plain; [intros d; by apply digit_plain|right]. by destruct Hc as [-> | ->]. Qed.

(** The segments of an effect id. *)
Definition effect_segments (scope : RunScope.t) (turn : Z) (slot : nat) : list string :=
  [TenantId.as_str (RunScope.tenant scope); AgentId.as_str (RunScope.agent scope); AgentRunId.as_str (RunScope.run scope);
   pretty turn; pretty slot].

Lemma effect_id_text scope turn slot id : effect_id_for scope turn slot = Ok id →
  Forall valid_segment (effect_segments scope turn slot) ∧
  EffectId.as_str id = join_segments (AgentOperationKind_as_label EffectDispatch :: effect_segments scope turn slot).
Proof.
  unfold effect_id_for. intros (o & (_ & Hv & Hs)%operation_id_new & [= <-])%bind_ok. done.
Qed.

Lemma effect_segments_inj scope scope' turn turn' slot slot' :
  effect_segments scope turn slot = effect_segments scope' turn' slot' → scope = scope' ∧ turn = turn' ∧ slot = slot'.
Proof.
  unfold effect_segments. intros [= Ht Ha Hr Hturn Hslot]. destruct scope as [[t] [a] [r]], scope' as [[t'] [a'] [r']].
  simpl in *. subst. split_and!; [done|by apply (inj pretty)|by apply (inj pretty)].
Qed.

(** The id, with the text that follows it in a key. *)
Lemma effect_key_split scope turn slot id suffix : effect_id_for scope turn slot = Ok id →
  str_contains AGENT_SCOPE_SEPARATOR suffix = false →
  str_split AGENT_SCOPE_SEPARATOR (EffectId.as_str id +:+ suffix) =
    [AgentOperationKind_as_label EffectDispatch; TenantId.as_str (RunScope.tenant scope); AgentId.as_str (RunScope.agent scope);
     AgentRunId.as_str (RunScope.run scope); pretty turn; pretty slot +:+ suffix].
Proof.
  intros [Hv ->]%effect_id_text Hs. unfold effect_segments in *.
  assert (join_segments [AgentOperationKind_as_label EffectDispatch; TenantId.as_str (RunScope.tenant scope);
    AgentId.as_str (RunScope.agent scope); AgentRunId.as_str (RunScope.run scope); pretty turn; pretty slot] +:+ suffix =
    join_segments [AgentOperationKind_as_label EffectDispatch; TenantId.as_str (RunScope.tenant scope);
    AgentId.as_str (RunScope.agent scope); AgentRunId.as_str (RunScope.run scope); pretty turn; pretty slot +:+ suffix]) as ->.
  { rewrite !(join_segments_cons _ (_ :: _)) by done. cbn [join_segments]. by rewrite ?string_app_assoc, ?string_app_cons; repeat rewrite ?string_app_assoc, ?string_app_cons. }
  apply split_join_segments; [done|]. rewrite !Forall_cons in Hv. rewrite !Forall_cons.
  destruct Hv as ((_ & _ & _ & ? & _) & (_ & _ & _ & ? & _) & (_ & _ & _ & ? & _) & (_ & _ & _ & ? & _) & _ & _).
  split_and!; try done. rewrite str_contains_app, Hs, pretty_nat_plain; [done|by right].
Qed.

(** The key of a generation. *)
Definition generation_suffix (generation : Generation.t) : string := "#g" +:+ Generation.fmt generation.

Lemma generation_suffix_plain generation : str_contains AGENT_SCOPE_SEPARATOR (generation_suffix generation) = false.
Proof. unfold generation_suffix. rewrite str_contains_app. apply pretty_number_plain. by right. Qed.

Lemma slot_suffix_inj (slot slot' : nat) generation generation' :
  pretty slot +:+ generation_suffix generation = pretty slot' +:+ generation_suffix generation' →
  slot = slot' ∧ generation = generation'.
Proof.
  intros He. assert (∀ (n : nat) g, str_split hash (pretty n +:+ generation_suffix g) = [pretty n; "g" +:+ Generation.fmt g]) as Hs.
  { intros n g. change (generation_suffix g) with (String hash ("g" +:+ Generation.fmt g)).
    rewrite str_split_app by (by apply pretty_nat_plain; left). f_equal. apply str_split_single.
    rewrite str_contains_app. apply pretty_number_plain. by left. }
  pose proof (Hs slot generation) as H. rewrite He, Hs in H. injection H as Hn Hg.
  split; [by apply (inj pretty)|]. destruct generation, generation'. simpl in Hg. f_equal. by apply (inj pretty).
Qed.

Lemma external_key_text scope turn slot generation key : external_idempotency_key_for scope turn slot generation = Ok key →
  ∃ id, effect_id_for scope turn slot = Ok id ∧ ExternalKey.as_str key = EffectId.as_str id +:+ generation_suffix generation.
Proof.
  unfold external_idempotency_key_for. intros (id & Hid%map_err_ok & Hk)%bind_ok. exists id. split; [done|].
  unfold ExternalKey.new in Hk. destruct (str_is_empty _); [done|]. destruct (_ <? _)%nat; [done|]. by injection Hk as <-.
Qed.

Lemma string_app_empty (s : string) : s +:+ "" = s.
Proof. induction s as [|a s IH]; [done|]. by rewrite string_app_cons, IH. Qed.

Lemma suffixed_inj scope scope' turn turn' slot slot' id id' suffix suffix' :
  effect_id_for scope turn slot = Ok id → effect_id_for scope' turn' slot' = Ok id' →
  str_contains AGENT_SCOPE_SEPARATOR suffix = false → str_contains AGENT_SCOPE_SEPARATOR suffix' = false →
  EffectId.as_str id +:+ suffix = EffectId.as_str id' +:+ suffix' →
  scope = scope' ∧ turn = turn' ∧ pretty slot +:+ suffix = pretty slot' +:+ suffix'.
Proof.
  intros Hid Hid' Hs Hs' He. pose proof (effect_key_split _ _ _ _ _ Hid Hs) as H.
  rewrite He, (effect_key_split _ _ _ _ _ Hid' Hs') in H. injection H as Ht Ha Hr Hturn Hslot.
  destruct scope as [[] [] []], scope' as [[] [] []]. simpl in *. subst. split_and!; [done|by apply (inj pretty)|done].
Qed.

Lemma plain_suffix_slot (slot slot' : nat) generation :
  pretty slot = pretty slot' +:+ generation_suffix generation → False.
Proof.
  intros H. pose proof (pretty_nat_plain slot hash (or_introl eq_refl)) as Hp. rewrite H, str_contains_app in Hp.
  apply orb_false_iff in Hp as [_ Hp]. done.
Qed.

Lemma intent_new_inv codec scope turn slot request spec revision created intent :
  Intent.new codec scope turn slot request spec revision created = Ok intent →
  ∃ id safety digest, effect_id_for scope turn slot = Ok id ∧
    EffectSpec.safety_for spec scope turn slot Generation.FIRST = Ok safety ∧
    RequestDigest.argument_digest codec request = Ok digest ∧
    intent = Intent.mk CURRENT_AGENT_RUN_EFFECT_SCHEMA_VERSION id Generation.FIRST turn slot request safety
      (EffectSpec.max_attempts spec) digest revision (EffectSpec.credential_binding spec) (EffectSpec.execution_policy spec)
      (EffectSpec.guardrail_revision spec) (EffectSpec.timeout_ms spec) None EffectStatus.Pending (idempotency_key_for id safety)
      0 None created None None None None (EffectSpec.checkpoint_required spec) (EffectSpec.authorization_required spec)
      (Delegation.AgentTelemetryContext.mk None None ∅ []).
Proof.
  unfold Intent.new. intros [_ H]%bind_unit_ok. apply bind_ok in H as (id & Hid%map_err_ok & H).
  cbv zeta in H. apply bind_ok in H as (safety & Hs & H). apply bind_ok in H as (digest & Hd & [= <-]).
  by exists id, safety, digest.
Qed.

(** What follows the id in the key of an intent. *)
Lemma intent_key codec scope turn slot request spec revision created intent :
  Intent.new codec scope turn slot request spec revision created = Ok intent →
  ∃ id suffix, effect_id_for scope turn slot = Ok id ∧ Intent.idempotency_key intent = EffectId.as_str id +:+ suffix ∧
    (suffix = "" ∨ suffix = generation_suffix Generation.FIRST).
Proof.
  intros (id & safety & digest & Hid & Hs & _ & ->)%intent_new_inv. exists id. cbn [Intent.idempotency_key].
  unfold EffectSpec.safety_for in Hs. unfold idempotency_key_for. destruct (EffectSpec.safety_class spec).
  - injection Hs as <-. exists "". split_and!; [done|by rewrite string_app_empty|by left].
  - apply bind_ok in Hs as (key & Hk & [= <-]). destruct (external_key_text _ _ _ _ _ Hk) as (id' & Hid' & Ht).
    rewrite Hid in Hid'. injection Hid' as <-. exists (generation_suffix Generation.FIRST). split_and!; [done|exact Ht|by right].
  - apply bind_ok in Hs as (protocol & _ & [= <-]). exists "". split_and!; [done|by rewrite string_app_empty|by left].
  - injection Hs as <-. exists "". split_and!; [done|by rewrite string_app_empty|by left].
Qed.

(** C27. The keys of effects belong to them alone.  An external idempotency key determines the run,
    the turn, the slot and the generation it was derived for, and so does the operation id a
    generation's result is deduplicated by; and two intents that were committed with the same
    idempotency key, whatever their safety classes, requests and policies, are intents of one
    run, turn and slot. *)
Theorem effect_keys_unique :
  (∀ scope scope' turn turn' slot slot' generation generation' key,
     external_idempotency_key_for scope turn slot generation = Ok key →
     external_idempotency_key_for scope' turn' slot' generation' = Ok key →
     scope = scope' ∧ turn = turn' ∧ slot = slot' ∧ generation = generation') ∧
  (∀ scope scope' turn turn' slot slot' generation generation' operation,
     effect_result_operation_id scope turn slot generation = Ok operation →
     effect_result_operation_id scope' turn' slot' generation' = Ok operation →
     scope = scope' ∧ turn = turn' ∧ slot = slot' ∧ generation = generation') ∧
  (∀ codec scope scope' turn turn' slot slot' request request' spec spec' revision revision' created created' intent intent',
     Intent.new codec scope turn slot request spec revision created = Ok intent →
     Intent.new codec scope' turn' slot' request' spec' revision' created' = Ok intent' →
     Intent.idempotency_key intent = Intent.idempotency_key intent' → scope = scope' ∧ turn = turn' ∧ slot = slot').
Proof.
  split_and!.
  - intros ????????? (id & Hid & Ht)%external_key_text (id' & Hid' & Ht')%external_key_text. rewrite Ht in Ht'.
    destruct (suffixed_inj _ _ _ _ _ _ _ _ _ _ Hid Hid' (generation_suffix_plain _) (generation_suffix_plain _) Ht')
      as (-> & -> & [-> ->]%slot_suffix_inj). done.
  - intros scope scope' ??????? H H'. destruct (proj1 operation_ids_injective _ _ _ _ _ H H') as [_ [= Ht Ha Hr Hn Hs Hg]].
    destruct scope as [[] [] []], scope' as [[] [] []], generation, generation'. simpl in *.
    split_and!; [congruence|by apply (inj pretty)..|]. f_equal. by apply (inj pretty).
  - intros ????????????????? (id & suffix & Hid & Hk & Hs)%intent_key (id' & suffix' & Hid' & Hk' & Hs')%intent_key He.
    rewrite Hk, Hk' in He.
    assert (∀ s, s = "" ∨ s = generation_suffix Generation.FIRST → str_contains AGENT_SCOPE_SEPARATOR s = false) as Hplain
      by (by intros ? [-> | ->]).
    destruct (suffixed_inj _ _ _ _ _ _ _ _ _ _ Hid Hid' (Hplain _ Hs) (Hplain _ Hs') He) as (-> & -> & Hslot). split_and!; [done..|].
    destruct Hs as [-> | ->], Hs' as [-> | ->]; rewrite ?string_app_empty in Hslot.
    + by apply (inj pretty).
    + by apply plain_suffix_slot in Hslot.
    + symmetry in Hslot. by apply plain_suffix_slot in Hslot.
    + by apply slot_suffix_inj in Hslot as [-> _].
Qed.

(** ** Policies and the intents under them *)

Lemma register_valid to_vec_len registry binding registry' : ToolRegistry.register to_vec_len registry binding = Ok registry' →
  ∃ spec, ToolBinding.effect_spec binding = Ok spec.
Proof.
  unfold ToolRegistry.register, ToolBinding.validate. intros ([] & H & _)%bind_ok. apply bind_unit_ok in H as [_ H].
  apply bind_ok in H as (spec & Hs%map_err_ok & _). eauto.
Qed.

Lemma built_specs registry tool binding : built registry → ToolRegistry.binding registry tool = Some binding →
  ∃ spec, ToolBinding.effect_spec binding = Ok spec.
Proof.
  unfold ToolRegistry.binding. intros Hb. revert tool binding.
  induction Hb as [|f registry new registry' Hb IH Hr]; intros tool binding; [done|].
  destruct (register_inv _ _ _ _ Hr) as [_ ->]. intros [[<- <-]|[_ ?]]%lookup_insert_Some; [by eapply register_valid|eauto].
Qed.

(** The spec of a binding. *)
Definition spec_of (binding : ToolBinding.t) : EffectSpec.t :=
  EffectSpec.mk (ToolDeclaration.safety (ToolBinding.declaration binding)) (ToolBinding.max_attempts binding)
    (ToolBinding.reconciliation_protocol binding) (ToolDeclaration.credential_binding (ToolBinding.declaration binding))
    (ToolBinding.timeout_ms binding) (ToolDeclaration.execution_policy (ToolBinding.declaration binding)) None
    (ToolBinding.checkpoint_required binding) (ToolBinding.authorization_required binding).

Lemma effect_spec_inv binding spec : ToolBinding.effect_spec binding = Ok spec →
  spec = spec_of binding ∧ EffectSpec.validate spec = Ok tt.
Proof. unfold ToolBinding.effect_spec. cbv zeta. by intros [Hv [= <-]]%bind_unit_ok. Qed.

Lemma with_tool_spec_ok policies tool spec : EffectSpec.validate spec = Ok tt →
  ∃ policies', Policies.with_tool_spec policies tool spec = Ok policies' ∧
    Policies.tools policies' = <[tool := spec]> (Policies.tools policies).
Proof. intros Hv. unfold Policies.with_tool_spec. rewrite Hv. destruct policies. by eexists. Qed.

Lemma project_specs_ok entries policies : NoDup entries.*1 →
  (∀ tool binding, (tool, binding) ∈ entries → ∃ spec, ToolBinding.effect_spec binding = Ok spec) →
  ∃ policies', ToolRegistry.project_specs policies entries = Ok policies' ∧
    (∀ tool, tool ∉ entries.*1 → Policies.tools policies' !! tool = Policies.tools policies !! tool) ∧
    (∀ tool binding, (tool, binding) ∈ entries → Policies.tools policies' !! tool = Some (spec_of binding)).
Proof.
  revert policies. induction entries as [|[tool binding] entries IH]; intros policies Hn Hall; simpl.
  - exists policies. split_and!; [done..|]. by intros ?? ?%elem_of_nil.
  - destruct (Hall tool binding) as [spec Hs]; [by left|]. destruct (effect_spec_inv _ _ Hs) as [-> Hv]. rewrite Hs. simpl.
    destruct (with_tool_spec_ok policies tool _ Hv) as (p & -> & Hp). apply NoDup_cons in Hn as [Hnot Hn].
    destruct (IH p Hn) as (policies' & Hr & Hout & Hin); [intros t b ?; eapply Hall; by right|].
    exists policies'. split; [done|]. split.
    + intros t [Hne ?]%not_elem_of_cons. rewrite Hout by done. rewrite Hp, lookup_insert_ne by done. done.
    + intros t b [[= -> ->]|Hb]%elem_of_cons; [|by apply Hin]. rewrite Hout by done. rewrite Hp. apply lookup_insert_eq.
Qed.

Lemma NoDup_entry_keys (tools : gmap AgentToolId.t ToolBinding.t) : NoDup (btree_entries tools).*1.
Proof. rewrite btree_entries_perm. apply NoDup_fst_map_to_list. Qed.

(** The policies of an authority: one spec for each binding, pinned to its chain. *)
Lemma effect_policies_ok self : built (ToolAuthority.registry self) →
  ∃ policies, ToolAuthority.effect_policies self = Ok policies ∧
    ∀ tool binding, ToolRegistry.binding (ToolAuthority.registry self) tool = Some binding →
      Policies.tools policies !! tool =
        Some match ToolAuthority.guardrails self with
             | Some chain => EffectSpec.with_guardrail_revision (spec_of binding) (Chain.revision chain)
             | None => spec_of binding
             end.
Proof.
  intros Hb. destruct (project_specs_ok (btree_entries (ToolRegistry.tools (ToolAuthority.registry self))) Policies.new)
    as (policies & Hp & _ & Hin).
  { apply NoDup_entry_keys. }
  { intros tool binding Hin%elem_of_btree_entries. by eapply built_specs. }
  unfold ToolAuthority.effect_policies, ToolRegistry.effect_policies. rewrite Hp. simpl. eexists. split; [done|].
  intros tool binding Hbind. specialize (Hin tool binding). rewrite elem_of_btree_entries in Hin. specialize (Hin Hbind).
  assert (∀ p p' : Policies.t, Policies.tools p = Policies.tools p' →
    Policies.tools (match ToolAuthority.substrate_execution_policy self with
                    | Some substrate => Policies.with_substrate_execution_policy p substrate | None => p end) = Policies.tools p')
    as Hsub by (intros [] [] ?; by destruct (ToolAuthority.substrate_execution_policy self)).
  destruct (ToolAuthority.guardrails self) as [chain|]; (erewrite Hsub; [|reflexivity]).
  - destruct policies. simpl in *. by rewrite lookup_fmap, Hin.
  - done.
Qed.

(** The safety an intent carries is the class and the protocol of its spec. *)
Lemma safety_for_ok spec scope turn slot generation safety : EffectSpec.validate spec = Ok tt →
  EffectSpec.safety_for spec scope turn slot generation = Ok safety →
  Safety.class safety = EffectSpec.safety_class spec ∧
  Safety.reconciliation_protocol safety = EffectSpec.reconciliation_protocol spec.
Proof.
  unfold EffectSpec.validate, EffectSpec.safety_for. destruct (_ =? 0); [done|]. destruct (_ && _); [done|].
  destruct (EffectSpec.safety_class spec), (EffectSpec.reconciliation_protocol spec) as [protocol|]; try done; simpl;
    intros _; try (by intros [= <-]). by intros (key & _ & [= <-])%bind_ok.
Qed.

(** C28. An intent fits the binding it was committed for.  An authority over a registry that was
    built by registration always derives its policies; and an intent for a registered tool,
    committed under them, claims neither a weaker class, nor more attempts, nor another
    credential, route, protocol or timeout than the binding, carries the checkpoint and
    authorization gates of the binding, pins the chain the authority evaluates, records the
    digest of its arguments, and allows a single attempt if it is not idempotent. *)
Theorem committed_intents_fit (self : ToolAuthority.t) (Hbuilt : built (ToolAuthority.registry self)) :
  ∃ policies, ToolAuthority.effect_policies self = Ok policies ∧
    ∀ codec scope turn slot call binding revision created intent,
      ToolRegistry.binding (ToolAuthority.registry self) (ToolCall.tool call) = Some binding →
      Intent.new codec scope turn slot (Request.Tool call) (Policies.spec_for policies (Request.Tool call)) revision created =
        Ok intent →
      intent_fits intent binding ∧
      Intent.checkpoint_required intent = ToolBinding.checkpoint_required binding ∧
      Intent.authorization_required intent = ToolBinding.authorization_required binding ∧
      Intent.guardrail_revision intent = Chain.revision <$> ToolAuthority.guardrails self ∧
      RequestDigest.argument_digest codec (Intent.request intent) = Ok (Intent.argument_digest intent) ∧
      (Safety.class (Intent.safety intent) = SafetyClass.NonIdempotent → Intent.max_attempts intent <= 1).
Proof.
  destruct (effect_policies_ok self Hbuilt) as (policies & Hp & Hin). exists policies. split; [done|].
  intros codec scope turn slot call binding revision created intent Hb (id & safety & digest & _ & Hs & Hd & ->)%intent_new_inv.
  simpl in Hs. rewrite (Hin _ _ Hb) in Hs. cbn [Policies.spec_for]. rewrite (Hin _ _ Hb).
  destruct (built_specs _ _ _ Hbuilt Hb) as [spec [-> Hv]%effect_spec_inv].
  assert (Safety.class safety = ToolDeclaration.safety (ToolBinding.declaration binding) ∧
    Safety.reconciliation_protocol safety = ToolBinding.reconciliation_protocol binding) as [Hclass Hproto].
  { apply (safety_for_ok (spec_of binding) scope turn slot Generation.FIRST); [done|].
    by destruct (ToolAuthority.guardrails self). }
  assert (Safety.class safety = SafetyClass.NonIdempotent → ToolBinding.max_attempts binding <= 1) as Hone.
  { rewrite Hclass. intros He. unfold EffectSpec.validate in Hv. destruct (_ =? 0); [done|]. cbn in Hv. rewrite He in Hv.
    rewrite bool_decide_eq_true_2 in Hv by done. destruct (Z.ltb_spec 1 (ToolBinding.max_attempts binding)); [done|lia]. }
  destruct (ToolAuthority.guardrails self) as [chain|]; 
    (split; [split; simpl; [by rewrite Hclass|lia|done|done|done|intros bound Ht; exists bound; by split]|done]).
Qed.
