(* ===== verification/DispatchProps.v ===== *)
(** * Dispatch: theorems, and a deployment at work

    What an attempt that passes the gate may do, which attempts share a payload, which are
    deferred, and what the guardrail chain decides.  Then an agent with one tool, dispatched
    under one deployment and then another, and two things the gate does not hold: the first
    attempt to the guardrail revision the intent pins, and what a setup says of the inside of a
    tool. *)

From stdpp Require Import relations.
From S2P Require Import Prelude Identity Persistence DurableState AgentIdentity AgentSchema CompiledPlan Budget.
From S2P Require Import Delegation DelegationDoor FanIn Authority Narrowing Admission AgentEntity AgentRuns AgentHistory.
From S2P Require Import AgentProps AgentDemo JsonDigest Guardrails RunEffects ToolRegistry ToolAuthority DispatchGate.
From S2P Require Import DispatchDoors EffectIntents.

(** ** The gate *)

Lemma gate_passes scope intent attempt now decision granted : gate scope intent attempt now decision = inr granted →
  decision = DispatchDecision.Granted_ granted ∧
  DispatchGrant.validate_for (Granted.grant granted) scope intent attempt now = Ok tt ∧
  check_guardrail_pin intent attempt granted = Ok tt.
Proof.
  unfold gate. destruct decision as [g|refusal]; [|done].
  destruct (DispatchGrant.validate_for _ _ _ _ _) as [[]|] eqn:Hv; [|done].
  destruct (check_guardrail_pin _ _ g) as [[]|] eqn:Hp; [|done]. by intros [= <-].
Qed.

Lemma validate_for_uses grant scope intent attempt now : DispatchGrant.validate_for grant scope intent attempt now = Ok tt →
  attempt <= DispatchGrant.allowed_use_count grant ∧ now <= DispatchGrant.expires_at grant.
Proof.
  unfold DispatchGrant.validate_for. destruct (_ || _); [done|]. destruct (bool_decide _); [done|].
  destruct (Z.gtb_spec now (DispatchGrant.expires_at grant)); [done|].
  destruct (Z.gtb_spec attempt (DispatchGrant.allowed_use_count grant)); [done|]. lia.
Qed.

Lemma decide_on_granted codec self agent scope run intent attempt now state granted :
  EntityAuthority.decide_on codec self agent scope run intent attempt now state = DispatchDecision.Granted_ granted →
  ∃ x, state = Some x ∧
    ToolAuthority.authorize codec (EntityAuthority.authority self) (EntityAuthority.context_for self scope run intent x) scope
      (RunAuthority.task run) (RunAuthority.goal run) intent attempt now = Ok granted.
Proof.
  unfold EntityAuthority.decide_on. destruct state as [x|]; [|done].
  destruct (ToolAuthority.authorize _ _ _ _ _ _ _ _ _) as [g|] eqn:Ha; [|done]. intros [= <-]. eauto.
Qed.

(** What the decision reads. *)
Section Context.
Context (self : EntityAuthority.t) (scope : RunScope.t) (run : RunAuthority.t) (intent : Intent.t) (x : AgentState.t).
Abbreviation context := (EntityAuthority.context_for self scope run intent x).

Lemma context_definition : AuthContext.definition context = AgentState.definition x.
Proof. unfold EntityAuthority.context_for. by repeat case_match. Qed.

Lemma context_settings : AuthContext.settings context = AgentState.settings x.
Proof. unfold EntityAuthority.context_for. by repeat case_match. Qed.

Lemma context_status : AuthContext.status context = AgentState.status x.
Proof. unfold EntityAuthority.context_for. by repeat case_match. Qed.

Lemma context_setup : AuthContext.setup context = EntityAuthority.setups self ≫= (fun setup_for => setup_for scope).
Proof. unfold EntityAuthority.context_for. by repeat case_match. Qed.

Lemma context_delegation : AuthContext.delegation context = RunAuthority.delegation_envelope run.
Proof. unfold EntityAuthority.context_for. by repeat case_match. Qed.
End Context.

(** ** Authority *)

Section Runs.
Context {St C R : Type} (ops : DurableStateStore St AgentState.t).
Context (view : St → PersistenceId.t → option (StateRecord.t AgentState.t)) `{!DurableStoreLaws ops view}.
Context (agent : AgentScope.t).

Abbreviation agent_system := (system (St := St) (C := C) (R := R)).
Abbreviation steps := (rtc (sys_step (C := C) (R := R) ops agent)).

(** The gate reads the record as it was last committed. *)
Lemma gate_reads {D} (deliver : D → C → D * R) s st' d d' codec self declared scope run_authority intent attempt now outcome :
  system_ok (C := C) (R := R) view agent s → AgentScope.tenant agent = RunScope.tenant scope →
  AgentScope.agent agent = RunScope.agent scope →
  run ops deliver (attempt_gate codec self declared scope run_authority intent attempt now) (store s) d = (st', d', Ok outcome) →
  (∃ refusal, check_model_policy declared intent = Err refusal ∧
     outcome = inl (settle_undispatchable refusal (possibly_executed intent attempt))) ∨
  (check_model_policy declared intent = Ok tt ∧
   outcome = gate scope intent attempt now
     (EntityAuthority.decide_on codec self agent scope run_authority intent attempt now
        (state_at (committed s) (length (committed s))))).
Proof.
  intros [Hv _ _ _] Ht Hid Hrun. unfold attempt_gate in Hrun.
  destruct (check_model_policy declared intent) as [[]|refusal]; [right|left; injection Hrun as <- <- <-; eauto].
  split; [done|]. unfold EntityAuthority.authorize, AgentScope.new in Hrun. rewrite <-Ht, <-Hid in Hrun.
  destruct agent as [tenant id]. simpl in *. destruct (validate_tenant tenant) as [?|]; simpl in Hrun; [|done].
  destruct (load ops (store s) _) as [st r] eqn:Hload. destruct (law_load _ _ _ _ Hload) as [_ Ho].
  destruct r as [o|]; [|done]. specialize (Ho o eq_refl). rewrite Hv, current_at in Ho. subst o.
  destruct (state_at (committed s) _) as [x|]; simpl in Hrun; [|by injection Hrun].
  destruct (validate_loaded_state x _); [|done]. by injection Hrun.
Qed.

End Runs.

(** ** Tool calls *)

(** C25. A tool call is granted exactly when every layer agrees.  The authority grants an attempt
    at a tool intent if and only if: the agent is active, its chain implements the guardrail
    policy the settings select and the recorded digest is that of the arguments; the tool is
    registered for generic dispatch, declared, selected by the setup and not revoked; the
    binding permits nothing the declaration does not; every declared environment is granted,
    selected and inside the goal; the intent does not widen the binding in class, attempts,
    credential, route, reconciliation protocol or timeout; its credential is held, selected and
    not revoked; an executor accepts its route; the checkpoint grants that are asked for bind
    this attempt; every mandatory stage is installed at an evaluated boundary; and no stage that
    applies blocks the arguments it sees or asks for a checkpoint that is missing.  What is
    granted carries the call as the transforms left it. *)
Theorem tool_dispatch_exact (codec : ToolCodec.t) (self : ToolAuthority.t) (context : AuthContext.t) (scope : RunScope.t)
    (task : option AgentTaskId.t) (goal : option AgentGoalId.t) (intent : Intent.t) (call : ToolCall.t Json.t)
    (attempt : Z) (now : AgentTimestampMillis) (granted : Granted.t) (Hrequest : Intent.request intent = Request.Tool call) :
  ToolAuthority.authorize codec self context scope task goal intent attempt now = Ok granted ↔
  preamble codec self context intent ∧
  ∃ binding declared, tool_open codec self context scope intent call attempt now binding declared ∧
    granted = granted_tool codec self context scope task goal intent call now binding.
Proof. unfold ToolAuthority.authorize. by rewrite bind_unit_ok, check_preamble_ok, Hrequest, authorize_tool_ok. Qed.

(** ** Payloads *)

(** Chains that cannot be told apart by evaluating them. *)
Definition alike (codec : ToolCodec.t) (chain chain' : Chain.t) : Prop :=
  ∀ context content bound,
    Chain.evaluate_bounded (ToolCodec.to_vec_len codec) chain context content bound =
    Chain.evaluate_bounded (ToolCodec.to_vec_len codec) chain' context content bound.

(** The attempt is held to the revision its intent pins: it is a later attempt, its payload was
    transformed, or the pinned revision is in force anyway. *)
Definition held_to_pin (intent : Intent.t) (attempt : Z) (granted : Granted.t) : Prop :=
  1 < attempt ∨ is_Some (Granted.tool_call granted) ∨
  DispatchGrant.guardrail_revision (Granted.grant granted) = Intent.guardrail_revision intent.

Lemma pinned_revision intent call attempt granted : Intent.request intent = Request.Tool call →
  check_guardrail_pin intent attempt granted = Ok tt → held_to_pin intent attempt granted →
  DispatchGrant.guardrail_revision (Granted.grant granted) = Intent.guardrail_revision intent.
Proof.
  unfold check_guardrail_pin. intros -> Hp%refuse_if_ok Hh. cbn [andb] in Hp.
  destruct Hh as [Hn|[Ht|He]]; [| |done]; apply andb_false_iff in Hp as [Hp|Hp%bool_decide_eq_false].
  - apply orb_false_iff in Hp as [_ Hp]. rewrite Z.gtb_ltb, Z.ltb_ge in Hp. lia.
  - by apply dec_stable in Hp.
  - apply orb_false_iff in Hp as [Hp%bool_decide_eq_false _]. done.
  - by apply dec_stable in Hp.
Qed.

(** The call a passing attempt executes is what its chain makes of the recorded one. *)
Lemma passed_call codec self agent scope run intent call attempt now x granted : Intent.request intent = Request.Tool call →
  EntityAuthority.decide_on codec self agent scope run intent attempt now (Some x) = DispatchDecision.Granted_ granted →
  DispatchGrant.guardrail_revision (Granted.grant granted) =
    Chain.revision <$> ToolAuthority.guardrails (EntityAuthority.authority self) ∧
  ∃ out, ToolAuthority.guard_tool_request codec (EntityAuthority.authority self) scope call true = Ok out ∧
    Granted.tool_call granted = out.1.1.
Proof.
  intros Hreq (y & [= <-] & Ha)%decide_on_granted. unfold ToolAuthority.authorize in Ha. rewrite Hreq in Ha.
  apply bind_unit_ok in Ha as [_ (binding & declared & Ho & ->)%authorize_tool_ok].
  split; [done|]. eexists. rewrite guard_tool_request_ok. split; [split; [|done]|done].
  intros v Hv. by destruct (open_request _ _ _ _ _ _ _ _ _ _ Ho v Hv) as [? _].
Qed.

(** C26. Attempts share one payload.  Two attempts at one tool intent pass the gate, under
    deployments and agent records that may differ, where two deployments that evaluate one
    chain revision evaluate alike.  If each is held to the pinned revision (every attempt after
    the first is, and so is every attempt whose payload a stage transforms) then both hand the
    executor the same call. *)
Theorem attempts_share_payload (codec : ToolCodec.t) (agent : AgentScope.t) (scope : RunScope.t) (intent : Intent.t)
    (call : ToolCall.t Json.t) (Hrequest : Intent.request intent = Request.Tool call)
    (self self' : EntityAuthority.t) (run run' : RunAuthority.t) (x x' : AgentState.t)
    (attempt attempt' : Z) (now now' : AgentTimestampMillis) (granted granted' : Granted.t)
    (Halike : ∀ chain chain', ToolAuthority.guardrails (EntityAuthority.authority self) = Some chain →
       ToolAuthority.guardrails (EntityAuthority.authority self') = Some chain' →
       Chain.revision chain = Chain.revision chain' → alike codec chain chain')
    (Hgate : gate scope intent attempt now
       (EntityAuthority.decide_on codec self agent scope run intent attempt now (Some x)) = inr granted)
    (Hgate' : gate scope intent attempt' now'
       (EntityAuthority.decide_on codec self' agent scope run' intent attempt' now' (Some x')) = inr granted')
    (Hpin : held_to_pin intent attempt granted) (Hpin' : held_to_pin intent attempt' granted') :
  executed_call granted call = executed_call granted' call.
Proof.
  apply gate_passes in Hgate as (Hd & _ & Hp), Hgate' as (Hd' & _ & Hp').
  destruct (passed_call _ _ _ _ _ _ _ _ _ _ _ Hrequest Hd) as (Hr & out & Hout & Hcall).
  destruct (passed_call _ _ _ _ _ _ _ _ _ _ _ Hrequest Hd') as (Hr' & out' & Hout' & Hcall').
  pose proof (pinned_revision _ _ _ _ Hrequest Hp Hpin) as He. pose proof (pinned_revision _ _ _ _ Hrequest Hp' Hpin') as He'.
  unfold executed_call. rewrite Hcall, Hcall'.
  assert (ToolAuthority.guard_tool_request codec (EntityAuthority.authority self) scope call true =
    ToolAuthority.guard_tool_request codec (EntityAuthority.authority self') scope call true) as Heq; [|congruence].
  unfold ToolAuthority.guard_tool_request.
  destruct (ToolAuthority.guardrails (EntityAuthority.authority self)) as [chain|],
    (ToolAuthority.guardrails (EntityAuthority.authority self')) as [chain'|]; simpl in *; try congruence.
  by rewrite (Halike chain chain' eq_refl eq_refl ltac:(congruence)).
Qed.

(** ** Refusals *)

(** The result is not a refusal that a later attempt could overcome. *)
Definition definitive {A} (r : result AuthRefusal.t A) : Prop :=
  match r with Ok _ => True | Err refusal => AuthRefusal.retryable refusal = false end.

Lemma definitive_bind {A B} (r : result AuthRefusal.t A) (k : A → result AuthRefusal.t B) :
  definitive r → (∀ a, definitive (k a)) → definitive (result_bind r k).
Proof. destruct r; simpl; auto. Qed.

Lemma definitive_refuse_if b code text : definitive (refuse_if b code text).
Proof. by destruct b. Qed.

Lemma definitive_map_err {E A} (f : E → AuthRefusal.t) (r : result E A) :
  (∀ e, AuthRefusal.retryable (f e) = false) → definitive (map_err f r).
Proof. destruct r; simpl; auto. Qed.

Lemma definitive_disposition disposition what satisfied :
  definitive (refuse_guardrail_disposition disposition what satisfied).
Proof. by destruct disposition, satisfied. Qed.

Create HintDb definitive.
#[export] Hint Resolve definitive_refuse_if definitive_disposition : definitive.

(** Splits a chain of guards. *)
Ltac definitive :=
  repeat (cbv zeta; first
    [ solve [auto with definitive]
    | apply definitive_bind; [|intros ?]
    | apply definitive_map_err; by intros ?
    | done
    | case_match ]).

Section Definitive.
Context (codec : ToolCodec.t) (self : ToolAuthority.t) (context : AuthContext.t) (scope : RunScope.t)
  (task : option AgentTaskId.t) (goal : option AgentGoalId.t) (intent : Intent.t).
Import AgentToolAuthority.

Lemma definitive_setup holds code text : definitive (check_setup context holds code text).
Proof. unfold check_setup. definitive. Qed.
#[local] Hint Resolve definitive_setup : definitive.

Lemma definitive_credential credential : definitive (check_credential context credential).
Proof. unfold check_credential. definitive. Qed.
#[local] Hint Resolve definitive_credential : definitive.

Lemma definitive_intent_credential : definitive (check_intent_credential context intent).
Proof. unfold check_intent_credential. definitive. Qed.

Lemma definitive_route policy : definitive (check_execution_policy self policy).
Proof. unfold check_execution_policy. definitive. Qed.

Lemma definitive_coverage required : definitive (check_guardrail_coverage self required).
Proof. unfold check_guardrail_coverage. definitive. Qed.

Lemma definitive_checkpoint required attempt now code text :
  definitive (check_checkpoint required (evaluate_checkpoint_grant codec context scope intent attempt now) code text).
Proof. unfold check_checkpoint, evaluate_checkpoint_grant. definitive. Qed.
#[local] Hint Resolve definitive_intent_credential definitive_route definitive_coverage definitive_checkpoint : definitive.

Lemma definitive_plain capabilities now : definitive (authorize_plain self context scope task goal intent capabilities now).
Proof. unfold authorize_plain. definitive. Qed.
#[local] Hint Resolve definitive_plain : definitive.

Lemma definitive_profile profile refused excluded : definitive (check_profile context profile refused excluded).
Proof. unfold check_profile. definitive. Qed.
#[local] Hint Resolve definitive_profile : definitive.

Lemma definitive_model requested attempt now :
  definitive (authorize_model codec self context scope task goal intent requested attempt now).
Proof. unfold authorize_model, resolve_profile, check_model_timeout, guard_model_request. definitive. Qed.

Lemma definitive_each_environment environments : definitive (check_each_environment context environments).
Proof. unfold check_each_environment. induction environments; unfold check_environment; definitive. Qed.
#[local] Hint Resolve definitive_each_environment : definitive.

Lemma definitive_tool call attempt now : definitive (authorize_tool codec self context scope task goal intent call attempt now).
Proof.
  unfold authorize_tool, find_binding, find_declaration, ok_or, check_binding_fits, check_environments, check_intent_fits,
    check_tool_checkpoints, guard_tool_request. definitive.
Qed.

Lemma definitive_evaluation evaluation attempt now :
  definitive (authorize_goal_evaluation codec self context scope task goal intent evaluation attempt now).
Proof. unfold authorize_goal_evaluation. definitive. Qed.
#[local] Hint Resolve definitive_model definitive_tool definitive_evaluation : definitive.

(** Only a suspension is worth another attempt. *)
Lemma transient_suspended attempt now refusal :
  authorize codec self context scope task goal intent attempt now = Err refusal → AuthRefusal.retryable refusal = true →
  AuthContext.status context = Lifecycle.Suspended.
Proof.
  intros H Hr. destruct (AuthContext.status context) eqn:Hs; [|done|].
  2: { unfold authorize, check_preamble in H. rewrite Hs in H. simpl in H. by injection H as <-. }
  assert (definitive (authorize codec self context scope task goal intent attempt now)) as Hd; [|rewrite H in Hd; simpl in Hd; congruence].
  unfold authorize, check_preamble. rewrite Hs. cbn [Lifecycle.is_terminal Lifecycle.permits_dispatch negb].
  unfold check_guardrail_policy, authorize_compensation, authorize_memory_promotion, authorize_a2a_send, authorize_a2a_handoff,
    authorize_workflow_start, authorize_workflow_cancel, authorize_claim_append. definitive.
Qed.
End Definitive.

Lemma guardrail_pin_definitive intent attempt granted : definitive (check_guardrail_pin intent attempt granted).
Proof. apply definitive_refuse_if. Qed.

Lemma validate_for_definitive grant scope intent attempt now :
  definitive (DispatchGrant.validate_for grant scope intent attempt now).
Proof. unfold DispatchGrant.validate_for. definitive. Qed.

Lemma settled_definitive {A} (r : result AuthRefusal.t A) refusal possibly : definitive r → r = Err refusal →
  settle_refusal refusal possibly = settle_undispatchable refusal possibly.
Proof. intros Hd ->. unfold settle_refusal. simpl in Hd. by rewrite Hd. Qed.

(** An earlier attempt at the effect may have run. *)
Abbreviation earlier intent attempt := (Safety.class (Intent.safety intent) = SafetyClass.Idempotent ∧ 1 < attempt).

Lemma settle_undispatchable_cases intent attempt refusal :
  settle_undispatchable refusal (possibly_executed intent attempt) =
    if decide (earlier intent attempt) then ParkedIndeterminate (AuthRefusal.code refusal) (AuthRefusal.message refusal)
    else Undispatchable refusal.
Proof.
  unfold settle_undispatchable, possibly_executed. rewrite Z.gtb_ltb.
  destruct (decide (earlier intent attempt)) as [[Hc Hn]|Hn].
  - rewrite bool_decide_eq_true_2 by done. apply Z.ltb_lt in Hn. by rewrite Hn.
  - case_bool_decide; [|done]. destruct (Z.ltb_spec 1 attempt); [tauto|done].
Qed.

(** The decision on a record and what it leads to. *)
Lemma gate_settled (codec : ToolCodec.t) (self : EntityAuthority.t) (agent : AgentScope.t) (scope : RunScope.t)
    (run : RunAuthority.t) (intent : Intent.t) (attempt : Z) (now : AgentTimestampMillis) (record : option AgentState.t) :
  let outcome :=
    gate scope intent attempt now (EntityAuthority.decide_on codec self agent scope run intent attempt now record) in
  (AgentState.status <$> record = Some Lifecycle.Suspended ↔ ∃ code message, outcome = inl (Deferred code message)) ∧
  match outcome with
  | inr _ => AgentState.status <$> record = Some Lifecycle.Active
  | inl (Deferred code _) => code = "agent-dispatch-suspended"
  | inl (ParkedIndeterminate _ _) => earlier intent attempt
  | inl (Undispatchable _) => ¬ earlier intent attempt
  end.
Proof.
  intros outcome. subst outcome. unfold gate, EntityAuthority.decide_on. destruct record as [x|].
  2: { unfold settle_refusal. rewrite settle_undispatchable_cases. cbn [AuthRefusal.retryable AuthRefusal.of_code].
       case_decide; (split; [split; [done|by intros (? & ? & ?)]|done]). }
  destruct (ToolAuthority.authorize codec _ _ _ _ _ _ _ _) as [granted|refusal] eqn:Ha.
  - pose proof Ha as [[Hactive _ _]%check_preamble_ok _]%bind_unit_ok. rewrite context_status in Hactive.
    pose proof (validate_for_definitive (Granted.grant granted) scope intent attempt now) as Hv.
    pose proof (guardrail_pin_definitive intent attempt granted) as Hp.
    destruct (DispatchGrant.validate_for _ _ _ _ _) as [[]|r]; [destruct (check_guardrail_pin _ _ _) as [[]|r]|].
    1: { split; [|simpl; by rewrite Hactive]. simpl. rewrite Hactive. split; [done|]. by intros (? & ? & ?). }
    all: rewrite (settled_definitive (A := unit) (Err r) r), settle_undispatchable_cases by done; simpl; rewrite Hactive; case_decide;
      (split; [split; [done|by intros (? & ? & ?)]|done]).
  - destruct (AuthRefusal.retryable refusal) eqn:Hr.
    + pose proof (transient_suspended _ _ _ _ _ _ _ _ _ _ Ha Hr) as Hs. pose proof Hs as Hs'. rewrite context_status in Hs'.
      unfold settle_refusal. simpl. rewrite Hr, Hs'. split; [naive_solver|].
      unfold ToolAuthority.authorize, ToolAuthority.check_preamble in Ha. rewrite Hs in Ha. by injection Ha as <-.
    + unfold settle_refusal. rewrite Hr, settle_undispatchable_cases.
      assert (AgentState.status x ≠ Lifecycle.Suspended) as Hs.
      { intros Hs. unfold ToolAuthority.authorize, ToolAuthority.check_preamble in Ha. rewrite context_status, Hs in Ha.
        by injection Ha as <-. }
      case_decide; (split; [split; [by intros [= ?]|by intros (? & ? & ?)]|done]).
Qed.

(** The policy of a model call that is weaker than the adapter declares. *)
Definition policy_conflict (declared : ModelRetry.t) (intent : Intent.t) : Prop :=
  match Intent.request intent with
  | Request.Model _ _ =>
      SafetyClass.strictness (Safety.class (Intent.safety intent)) < SafetyClass.strictness (ModelRetry.safety_class declared) ∨
      ModelRetry.max_attempts declared < Intent.max_attempts intent
  | _ => False
  end.

Lemma check_model_policy_cases declared intent :
  match check_model_policy declared intent with
  | Ok _ => ¬ policy_conflict declared intent
  | Err refusal => policy_conflict declared intent ∧ AuthRefusal.code refusal = "model-policy-conflict"
  end.
Proof.
  unfold check_model_policy, policy_conflict, refuse_if. destruct (Intent.request intent); try tauto.
  rewrite Z.gtb_ltb. destruct (Z.ltb_spec (SafetyClass.strictness (Safety.class (Intent.safety intent)))
    (SafetyClass.strictness (ModelRetry.safety_class declared))); simpl; [split; [by left|done]|].
  destruct (Z.ltb_spec (ModelRetry.max_attempts declared) (Intent.max_attempts intent)); simpl; [split; [by right|done]|lia].
Qed.

Section Settlement.
Context {St C R : Type} (ops : DurableStateStore St AgentState.t).
Context (view : St → PersistenceId.t → option (StateRecord.t AgentState.t)) `{!DurableStoreLaws ops view}.
Context (agent : AgentScope.t).

(** C30. How an attempt that does not pass is settled.  In every run of the facades of an agent
    take an attempt at an intent of one of its runs that reads the store without an error, from
    the check of the model's retry policy on.  It is deferred exactly when that policy is kept
    and the agent's record says suspended, and then with that code.  It is refused for good
    otherwise, with the conflict's code when the policy is weaker than the adapter declares,
    suspended or not: parked as indeterminate exactly when an earlier attempt at an idempotent
    effect may have run, and else failed as never executed.  It passes only when the policy is
    kept and the record is active. *)
Theorem refusals_settled (s0 s : system (St := St) (C := C) (R := R)) (H0 : initial view agent s0)
    (Hrun : rtc (sys_step (C := C) (R := R) ops agent) s0 s) (Hbound : Z.of_nat (length (committed s)) <= u64_max)
    {D} (deliver : D → C → D * R) (d d' : D) (st' : St) (codec : ToolCodec.t) (self : EntityAuthority.t)
    (declared : ModelRetry.t) (scope : RunScope.t) (run_authority : RunAuthority.t) (intent : Intent.t) (attempt : Z)
    (now : AgentTimestampMillis) (outcome : settlement + Granted.t)
    (Htenant : AgentScope.tenant agent = RunScope.tenant scope) (Hagent : AgentScope.agent agent = RunScope.agent scope)
    (Hgate : run ops deliver (attempt_gate codec self declared scope run_authority intent attempt now) (store s) d =
               (st', d', Ok outcome)) :
  let status := AgentState.status <$> state_at (committed s) (length (committed s)) in
  let conflict := policy_conflict declared intent in
  (¬ conflict ∧ status = Some Lifecycle.Suspended ↔ ∃ code message, outcome = inl (Deferred code message)) ∧
  match outcome with
  | inr _ => ¬ conflict ∧ status = Some Lifecycle.Active
  | inl (Deferred code _) => code = "agent-dispatch-suspended"
  | inl (ParkedIndeterminate code _) => earlier intent attempt ∧ (conflict → code = "model-policy-conflict")
  | inl (Undispatchable refusal) =>
      ¬ earlier intent attempt ∧ (conflict → AuthRefusal.code refusal = "model-policy-conflict")
  end.
Proof.
  intros status conflict. pose proof (agent_run_ok ops view agent s0 s H0 Hrun Hbound) as Hok.
  pose proof (check_model_policy_cases declared intent) as Hc.
  destruct (gate_reads _ _ _ _ _ _ _ _ _ _ _ _ _ _ _ _ _ Hok Htenant Hagent Hgate) as [(refusal & Hp & ->)|[Hp ->]];
    rewrite Hp in Hc.
  - destruct Hc as [Hc Hcode]. rewrite settle_undispatchable_cases.
    case_decide; (split; [split; [tauto|by intros (? & ? & ?)]|done]).
  - destruct (gate_settled codec self agent scope run_authority intent attempt now
      (state_at (committed s) (length (committed s)))) as [Hd Hm].
    split; [rewrite <-Hd; tauto|].
    destruct (gate _ _ _ _ _) as [[code message|code message|refusal]|granted]; done || by split.
Qed.
End Settlement.

(** ** Guardrails *)

(** C29. What a guardrail chain decides.  Evaluating a chain on some content gives what reading
    its applying stages in order gives, where each sees the content as the transforms before it
    left it.  If none stops, the decision is the first checkpoint that was asked for, or else
    that the content is allowed, and it carries every transform and report and the content
    after the last stage.  If one stops, by blocking or by a replacement over the bound, the
    first such decides, as a block by that stage, over any checkpoint asked for before it, and
    the decision carries what the stages before it did.  Content that was transformed and is
    passed on is within the bound, and every reason code is within 128 bytes. *)
Theorem guardrail_evaluation_exact (to_vec_len : Json.t → result string nat) (chain : Chain.t) (context : GuardContext.t)
    (content : Json.t) (max_content_bytes : Z) :
  let bound := Z.min max_content_bytes AGENT_GUARDRAIL_CONTENT_MAX_BYTES in
  let vs := visits context (Chain.stages chain) content in
  let d := Chain.evaluate_bounded to_vec_len chain context content max_content_bytes in
  let carries passed :=
    GuardDecision.content d = default content (last (content_after context <$> passed)) ∧
    GuardDecision.transforms d = omap (transform_of context) passed ∧
    GuardDecision.reports d = omap (report_of context) passed in
  ((∀ v, v ∈ vs → stopped to_vec_len context bound v = None) →
     GuardDecision.disposition d = checkpoint_verdict (first_checkpoint context vs) ∧ carries vs) ∧
  (∀ passed v rest verdict, vs = passed ++ v :: rest → (∀ u, u ∈ passed → stopped to_vec_len context bound u = None) →
     stopped to_vec_len context bound v = Some verdict →
     GuardDecision.disposition d = verdict ∧
     (∃ reason evidence, verdict = GuardDisposition.Blocked (Stage.id v.1) reason evidence) ∧ carries passed) ∧
  (GuardDecision.transformed d = true ↔ GuardDecision.transforms d ≠ []) ∧
  (GuardDecision.transformed d = true → Chain.encoded_len to_vec_len (GuardDecision.content d) <= bound) ∧
  (∀ t, t ∈ GuardDecision.transforms d →
     (String.length (GuardTransform.reason_code t) <= AGENT_GUARDRAIL_REASON_MAX_LENGTH)%nat).
Proof.
  intros bound vs d carries.
  assert (d = judged to_vec_len context bound (Chain.revision chain) (Chain.stages chain) (Chain.Progress content false [] [] None))
    as Hd by apply evaluate_judged.
  unfold judged in Hd. cbn [Chain.current Chain.checkpoint Chain.transforms Chain.reports Chain.transformed app orb] in Hd.
  fold vs in Hd. split_and!.
  - intros Hall. rewrite (until_stopped_none _ _ _ _ Hall) in Hd. unfold carries. by rewrite Hd.
  - intros passed v rest verdict Hvs Hall Hv. rewrite Hvs, (until_stopped_first _ _ _ _ _ _ _ Hall Hv) in Hd.
    unfold carries. rewrite Hd. split; [done|]. split; [by eapply stopped_blocks|done].
  - rewrite Hd. destruct (until_stopped _ _ _ vs) as [passed verdict]. simpl. rewrite negb_true_iff, bool_decide_eq_false. done.
  - apply (transformed_bounded to_vec_len context bound (Chain.revision chain) (Chain.stages chain)
      (Chain.Progress content false [] [] None)). done.
  - rewrite Hd. destruct (until_stopped _ _ _ vs) as [passed verdict]. cbn [GuardDecision.transforms].
    intros t (v & _ & Ht)%list_elem_of_omap. unfold transform_of in Ht. destruct (outcome_of _ _); try done.
    injection Ht as <-. apply bounded_code_length.
Qed.

Import AgentEntityStore.

(** ** A deployment *)

Definition text_len (value : Json.t) : result string nat :=
  Ok match value with Json.String text => (2 + String.length text)%nat | _ => 4%nat end.
Definition text_of (value : Json.t) : string := match value with Json.String text => text | _ => "null" end.
Definition request_text (request : Request.t) : result string Json.t :=
  Ok match request with Request.Tool call => ToolCall.arguments call | _ => Json.Null end.
Definition demo_codec : ToolCodec.t :=
  ToolCodec.mk (RunCodec.mk text_of text_len request_text (fun _ => Ok Json.Null) (fun bytes => bytes))
    (fun _ => Ok Json.Null) (fun _ => Ok Json.Null).

Definition mail : AgentToolId.t := AgentToolId.Self "mail".
Definition sending : AgentCapabilityId.t := AgentCapabilityId.Self "send".
Definition mail_key : AgentCredentialBindingRef.t := AgentCredentialBindingRef.Self "key".
Definition mail_declaration : ToolDeclaration.t :=
  ToolDeclaration.mk SafetyClass.Idempotent {[sending]} (Some mail_key) None ∅.
Definition mail_schema : AgentSchemaRef.t := AgentSchemaRef.new (AgentSchemaId.Self "s") AgentRevisionNumber.INITIAL.
Definition mail_binding : ToolBinding.t :=
  ToolBinding.new
    (Descriptor.mk mail AgentRevisionNumber.INITIAL ToolKind.Function "sends mail" mail_schema mail_schema None
       AgentToolResultBehavior.InlineBounded) mail_declaration 3.
Definition mail_registry : ToolRegistry.t := ToolRegistry.mk {[mail := mail_binding]}.

Lemma mail_registered : ToolRegistry.register text_len ToolRegistry.new mail_binding = Ok mail_registry.
Proof. vm_compute. reflexivity. Qed.

Lemma mail_built : built mail_registry.
Proof. eapply built_register; [apply built_new|apply mail_registered]. Qed.

(** The chain of the first revision has no stage; that of the second redacts. *)
Definition redacts : Stage.t :=
  Stage.at_boundary
    (Stage.new (AgentGuardrailStageId.Self "redact") AgentRevisionNumber.INITIAL
       (fun _ _ => GuardOutcome.Transform (Json.String "redacted") "pii")) Boundary.ToolRequest.
Definition old_chain : Chain.t := Chain.new AgentRevisionNumber.INITIAL.
Definition new_revision : AgentRevisionNumber.t := AgentRevisionNumber.next AgentRevisionNumber.INITIAL.
Definition new_chain : Chain.t := Chain.mk new_revision None [redacts].

Lemma new_chain_declared : Chain.with_stage (Chain.new new_revision) redacts = Ok new_chain.
Proof. vm_compute. reflexivity. Qed.

Definition deployed (chain : Chain.t) : EntityAuthority.t :=
  EntityAuthority.new (ToolAuthority.with_guardrails (ToolAuthority.new mail_registry) chain).

(** ** An agent that mails *)

Definition mail_envelope : AuthEnvelope.t :=
  AuthEnvelope.mk {[mail := mail_declaration]} ∅ ∅ ∅ ∅ ∅ ∅ {[mail_key]} ∅ ∅ ∅ demo_budgets.
Definition mail_definition : AgentDefinition.t :=
  AgentDefinition.mk (AgentDefinitionId.Self "d") "mails" None mail_envelope (PolicyRefs.mk None None None None None).
Definition mail_instantiation : EntityCommand.t :=
  EntityCommand.Instantiate (op_named "i") mail_definition Settings.empty demo_provenance.
Definition mail_run : demo_system := serve ops 0 mail_instantiation two_facades.

Lemma mail_run_reached : rtc (sys_step ops demo_agent) nobody mail_run.
Proof. unfold mail_run. etrans; [apply two_facades_join|apply serve_step]. Qed.

Definition mail_state : AgentState.t :=
  recorded (op_named "i") 5
    (AgentState.new demo_agent (DefinitionRevision.initial mail_definition demo_provenance) demo_settings 5).
Definition mail_scope : RunScope.t := AgentRunScope.mk (TenantId.new "t") (AgentId.Self "a") (AgentRunId.Self "r").
Definition mail_call : ToolCall.t Json.t := AgentToolCallRequest.mk (AgentToolCallId.Self "c") mail (Json.String "secret").
Definition no_authority : RunAuthority.t := RunAuthority.mk [] None None None.
Definition any_model : ModelRetry.t := ModelRetry.mk SafetyClass.ReadOnly 3.

(** The intent as it is committed under the policies of the second revision. *)
Definition commit_intent : AgentEffectResult Intent.t :=
  let? policies := ToolAuthority.effect_policies (EntityAuthority.authority (deployed new_chain)) in
  let request := Request.Tool mail_call in
  Intent.new (ToolCodec.run demo_codec) mail_scope 1 0 request (Policies.spec_for policies request)
    AgentRevisionNumber.INITIAL 5.
Definition mail_intent : Intent.t :=
  ltac:(let committed := eval vm_compute in commit_intent in match committed with Ok ?intent => exact intent end).

Lemma mail_committed : commit_intent = Ok mail_intent.
Proof. vm_compute. reflexivity. Qed.

(** One attempt, under one deployment, over the agent's record. *)
Definition mail_attempt (chain : Chain.t) (attempt : Z) : settlement + Granted.t :=
  gate mail_scope mail_intent attempt 7
    (EntityAuthority.decide_on demo_codec (deployed chain) demo_agent mail_scope no_authority mail_intent attempt 7
       (Some mail_state)).
Definition mail_granted (chain : Chain.t) (attempt : Z) : option Granted.t :=
  match mail_attempt chain attempt with inr granted => Some granted | inl _ => None end.
Definition sent (chain : Chain.t) (attempt : Z) : option Json.t :=
  (fun granted => ToolCall.arguments (executed_call granted mail_call)) <$> mail_granted chain attempt.

(** The first attempt escapes the pin.  The intent is committed under the chain of revision 2,
    which redacts the arguments of every tool call.  The first attempt, on a deployment that still
    evaluates revision 1, passes the gate and executes the arguments as they were recorded; the
    second, on one that evaluates revision 2, passes too and executes the redacted ones, under the
    idempotency key of the first.  A second attempt under revision 1 is parked. *)
Theorem first_attempt_escapes_pin :
  Intent.guardrail_revision mail_intent = Some new_revision ∧
  sent old_chain 1 = Some (Json.String "secret") ∧
  sent new_chain 1 = Some (Json.String "redacted") ∧
  sent new_chain 2 = Some (Json.String "redacted") ∧
  (∃ message, mail_attempt old_chain 2 = inl (ParkedIndeterminate "guardrail-revision-mismatch" message)).
Proof. split_and!; [vm_compute; reflexivity..|]. eexists. vm_compute. reflexivity. Qed.

(** ** A setup that narrows the inside of a tool *)

Definition narrow_envelope : AuthEnvelope.t :=
  AuthEnvelope.mk {[mail := ToolDeclaration.new SafetyClass.NonIdempotent]} ∅ ∅ ∅ ∅ ∅ ∅ {[mail_key]} ∅ ∅ ∅ demo_budgets.
Definition narrow_setup : AgentDefinitionResult Setup.t :=
  Setup.new AgentRevisionNumber.INITIAL (AgentState.definition mail_state) narrow_envelope demo_provenance.

Definition narrowed_attempt (setup : Setup.t) : settlement + Granted.t :=
  gate mail_scope mail_intent 1 7
    (EntityAuthority.decide_on demo_codec (EntityAuthority.with_setup_for_run (deployed new_chain) mail_scope setup) demo_agent
       mail_scope no_authority mail_intent 1 7 (Some mail_state)).

(** What a setup narrows inside a tool is not enforced.  The setup of the run, which its
    constructor accepts as a narrowing of the definition, keeps the tool and takes away its
    capability and its credential, and allows it no safety class below non-idempotent.  An
    attempt at the tool passes the gate and exercises all three. *)
Theorem setup_inside_tool_unenforced :
  ∃ setup granted, narrow_setup = Ok setup ∧ narrowed_attempt setup = inr granted ∧
    ∀ a, a ∈ [ExerciseCapability mail sending; ResolveCredential mail mail_key; DispatchAs mail SafetyClass.Idempotent] →
      exercises (EntityAuthority.authority (deployed new_chain)) mail_intent granted a ∧ ¬ permitted (Setup.envelope setup) a.
Proof.
  eexists _, _. split; [vm_compute; reflexivity|]. split; [vm_compute; reflexivity|].
  intros a Ha. repeat (apply elem_of_cons in Ha as [-> |Ha]); [| | |by apply elem_of_nil in Ha].
  - split; [|by apply (bool_decide_unpack _); vm_compute].
    apply (Uses_capability _ _ _ mail_call); [reflexivity|]. apply (bool_decide_unpack _). vm_compute. exact I.
  - split; [|by apply (bool_decide_unpack _); vm_compute]. by apply (Resolves _ _ _ mail_call).
  - split; [|by apply (bool_decide_unpack _); vm_compute]. match goal with |- exercises ?s ?i ?g _ => exact (Dispatches_as s i g mail_call eq_refl) end.
Qed.

(** ** Witnesses *)


(** The agent suspended: a second attempt is deferred. *)
Definition suspension : EntityCommand.t := EntityCommand.Suspend (op_named "s") AgentRevisionNumber.INITIAL demo_provenance.
Definition suspended_run : demo_system := serve ops 1 suspension mail_run.

Lemma suspended_run_reached : rtc (sys_step ops demo_agent) nobody suspended_run.
Proof. unfold suspended_run. etrans; [apply mail_run_reached|apply serve_step]. Qed.

Lemma refusals_settled_witness :
  ∃ outcome, (run ops (fun (d : unit) (c : unit) => (d, tt))
      (attempt_gate demo_codec (deployed new_chain) any_model mail_scope no_authority mail_intent 2 7)
      (store suspended_run) tt).2 = Ok outcome ∧
    ∃ code message, outcome = inl (Deferred code message).
Proof.
  pose proof (refusals_settled ops memory_view demo_agent nobody suspended_run ltac:(by split_and!) suspended_run_reached
    ltac:(vm_compute; discriminate) (fun (d : unit) (c : unit) => (d, tt)) tt tt (store suspended_run) demo_codec
    (deployed new_chain) any_model mail_scope no_authority mail_intent 2 7) as H.
  eexists. split; [vm_compute; reflexivity|].
  destruct (H _ eq_refl eq_refl ltac:(vm_compute; reflexivity)) as [Hd _]. apply Hd.
  split; [by intros []|]. vm_compute. reflexivity.
Defined.

Lemma tool_dispatch_exact_witness :
  ∃ binding declared,
    tool_open demo_codec (EntityAuthority.authority (deployed new_chain))
      (EntityAuthority.context_for (deployed new_chain) mail_scope no_authority mail_intent mail_state) mail_scope mail_intent
      mail_call 1 7 binding declared.
Proof.
  pose proof (tool_dispatch_exact demo_codec (EntityAuthority.authority (deployed new_chain))
    (EntityAuthority.context_for (deployed new_chain) mail_scope no_authority mail_intent mail_state) mail_scope None None
    mail_intent mail_call 1 7) as H.
  assert (∃ granted, ToolAuthority.authorize demo_codec (EntityAuthority.authority (deployed new_chain))
    (EntityAuthority.context_for (deployed new_chain) mail_scope no_authority mail_intent mail_state) mail_scope None None
    mail_intent 1 7 = Ok granted) as [granted Hg] by (eexists; vm_compute; reflexivity).
  apply H in Hg as (_ & binding & declared & Ho & _); [|reflexivity]. exists binding, declared. exact Ho.
Defined.

Lemma attempts_share_payload_witness :
  ∃ granted granted', mail_attempt new_chain 1 = inr granted ∧ mail_attempt new_chain 2 = inr granted' ∧
    executed_call granted mail_call = executed_call granted' mail_call.
Proof.
  assert (∃ granted, mail_attempt new_chain 1 = inr granted ∧ is_Some (Granted.tool_call granted)) as (granted & Hg & Ht)
    by (eexists; split; [vm_compute; reflexivity|by eexists]).
  assert (∃ granted', mail_attempt new_chain 2 = inr granted') as [granted' Hg'] by (eexists; vm_compute; reflexivity).
  exists granted, granted'. split; [exact Hg|]. split; [exact Hg'|].
  apply (attempts_share_payload demo_codec demo_agent mail_scope mail_intent mail_call eq_refl (deployed new_chain)
    (deployed new_chain) no_authority no_authority mail_state mail_state 1 2 7 7 granted granted').
  - intros chain chain' Hc Hc' _. rewrite Hc in Hc'. injection Hc' as <-. by intros ???.
  - exact Hg.
  - exact Hg'.
  - right. left. exact Ht.
  - left. lia.
Defined.

Lemma committed_intents_fit_witness : intent_fits mail_intent mail_binding.
Proof.
  destruct (committed_intents_fit (EntityAuthority.authority (deployed new_chain)) mail_built) as (policies & Hp & Hall).
  destruct (Hall (ToolCodec.run demo_codec) mail_scope 1 0%nat mail_call mail_binding AgentRevisionNumber.INITIAL 5 mail_intent
    eq_refl) as [Hfits _]; [|exact Hfits].
  vm_compute in Hp. injection Hp as <-. vm_compute. reflexivity.
Defined.
